(* ===== verification/_CoqProject ===== *)
-Q . S2P
Prelude.v
Text.v
Scalars.v
Entries.v
Diag.v
Lexer.v
Reading.v
Types.v
ClassModel.v
Rooted.v
Policy.v
Confine.v
Narrow.v
FileError.v
Files.v
FileOps.v
FileSafety.v
Floats.v
Literals.v
Syntax.v
ExprParser.v
Grammar.v
Printing.v
Parser.v
Parsing.v
Civil.v
Temporal.v
TimeZone.v
Arc.v
Heap.v
Values.v
Operators.v
Ir.v
Frames.v
Machine.v
Places.v
Providers.v
TemporalOps.v
Exec.v
Sample.v
Fuel.v
Runs.v
Ownership.v
Session.v
Compat.v
Fields.v
Balance.v
Validate.v
Assign.v
Reach.v
Owning.v
Escape.v
Monitor.v
Failure.v
Json.v
Sync.v
Dispatch.v
DispatchInv.v
DispatchRun.v
Splits.v
Limits.v
Routing.v
Limiter.v
WebLife.v
WebDrain.v
Addresses.v
Targets.v
WebCookies.v
Egress.v
WebSessions.v
HttpDate.v
StaticFiles.v
WebAnswer.v
Snapshots.v
Modules.v
LogLine.v
Logger.v
TypeRules.v
Constants.v
Compress.v
