(* ===== verification/Prelude.v ===== *)
(** * A verification library for Basic Next

    Basic Next is a language with a front end (lexer, parser, module graph,
    semantic analysis, lowering), an intermediate representation (IR) with a
    validator, an interpreter, an LLVM backend, and runtime libraries that both
    the interpreter and compiled programs use.  This library models the way a
    program goes from its files to its tokens, its tree and its module graph;
    the IR with its validator and analyses; the interpreter with its
    reference-counted heaps and the sessions over it; and the shared cores of
    the libraries: calendar, dispatch, JSON, files under a policy, the web
    server and client, logging, and compression.  Of the passes between tree
    and IR it models the type rules and the way of constants.

    ** Conventions

    - A Rust [Result<T, E>] is [res E T]: [Ok], [Err], [Panic] (a panic of the
      code) or [Fuel] (the model's budget ran out, no Rust outcome).  A method
      on [&mut self] is a function of the state monad below, or a function from
      the state to a state.
    - An integer is a [Z] with its range or its wrap-around written out; a [str]
      is its UTF-8 bytes ([Text.v]), and the characters of the lexer, the
      parser and the text formats are its scalars ([Scalars.v]); a [HashMap] is
      a [gmap], a [BTreeMap] whose order shows is a sorted list; a [Vec] is a
      list.  A copy-on-write list of the code is a list.  A float is a
      [spec_float].
    - What is not under [src/] is a parameter: the streams and the host
      ([World]), the library providers ([Seam]), the allocator ([Allocator]),
      [powf] and the Unicode tables ([Platform]), random numbers and hashes,
      the deadlines of waits, the words the build generates, the system calls
      of files (trees of calls whose answers are arbitrary), the resolver and
      the network, the file system of the module graph, the clock and the disk
      of a log ([LogSink]), the file access and the codecs of archives
      ([FileAccess], [Codecs]).  Each has an instance in a witness.

    ** Files, from the ground up

    - Text and diagnostics: [Text], [Scalars], [Splits] (lemmas on texts),
      [Entries] ([bn_catalog]: the file format and the table of the build),
      [Diag] ([bn_source], [bn_diag], and the catalog texts the models use).
    - Types: [Types], [ClassModel], [Literals] ([bn_types]); [Floats].
    - Front end ([bn_frontend]): [Lexer] (lexer.rs, token.rs) with [Reading];
      [Syntax] (ast.rs), [ExprParser] and [Parser] (parser.rs, parser/), with
      [Grammar], [Printing] and [Parsing]; [Snapshots] ([SourceFile] of
      [bn_source], frontend_session.rs) and [Modules] (module_graph.rs);
      [TypeRules] (semantic/helpers1.rs, type_ops.rs, helpers2.rs: the types of
      operators, compatibility, conversions, folding, returns) and [Constants]
      (literal_settle.rs, float_literal.rs, and the arms of analyzer5.rs and of
      lowering/builder/expressions.rs for literals and operators).
    - Calendar: [Civil], [Temporal], [TimeZone] ([bn_core_text]) and
      [TemporalOps], the calls of the interpreter on them.
    - Heaps: [Arc] ([bn_rt/src/arc.rs]: counts and liveness by object id) and
      [Heap] ([bn_runtime/src/heap.rs]: payloads by handle).
    - Values: [Values] ([bn_value] and the value operations of [bn_interp]),
      [Operators] ([bn_interp/src/executor.rs] and its helpers).
    - IR: [Ir] ([bn_ir]: the data, virtual dispatch, names), [Escape]
      (escape.rs).
    - Interpreter ([bn_interp]): [Frames] (frame_storage.rs), [Machine] (the
      executor's state [Core], a record with the fields of [Executor], and the
      seams), [Places] (part10, part11: indices and field paths), [Providers]
      (part3, part7: calls that leave the interpreter), [Exec] (part1, part2,
      part3, part10, part11, ownership.rs: one function per method), [Session]
      (session.rs).  [Fuel], [Runs] and [Ownership] hold theorems about runs.
    - Validator ([bn_ir/src/validate]): [Compat], [Fields],
      [Balance] (ownership.rs), [Validate]; [Assign], [Reach] and [Owning] hold
      the theorems on definite assignment and on ownership.
    - Dispatch: [Monitor] (condition variables), [Failure], [Sync]
      ([bn_stdlib/src/dispatch_sync.rs]), [Dispatch] ([bn_core_dispatch]: one
      constructor of [worker_step] or [client_step] per critical section), with
      [DispatchInv] and [DispatchRun].
    - JSON: [Json] ([bn_core_json]: the visitor and the document table).
    - Files and policy ([bn_rt]): [Rooted] (secure_fs.rs: the walk below a
      root), [Policy] (policy.rs), with [Confine] and [Narrow]; [FileError],
      [Files] (file.rs: the open file), [FileOps] (file_entries.rs), with
      [FileSafety].
    - Network: [Addresses] ([bn_core_net]: address texts, classes, CIDR),
      [Limits] ([bn_limits]).
    - Web ([bn_web]): [Routing] (web/routing.rs), [Limiter], [WebLife] and
      [WebDrain] (web/server.rs, web/drain.rs), [Targets] (web.rs: targets,
      requests, responses), [WebCookies] and [WebSessions] (web_state.rs,
      web/sessions.rs), [Egress] (web.rs, http.rs: the client), [HttpDate] and
      [StaticFiles] (web/static_files.rs), [WebAnswer] (http.rs: from the bytes
      of a request to its response).
    - Logging ([bn_core_log]): [LogLine] (lib.rs: records and their lines, with
      a reader of JSON lines), [Logger] (logger.rs, error.rs, records.rs,
      fields.rs).
    - Compression: [Compress] ([bn_core_compress] and, in its module
      [Provider], [bn_lib_compress]).
    ** How the parts meet

    [Parsing] composes lexer and parser; [Modules] runs both on every file it
    visits, reads through a session of [Snapshots], and gives each file the
    identity and revision its spans carry.  [Exec] calls [Places], [Operators]
    and [Providers] on the state of [Machine]; allocation registers an id in
    [Arc] and stores a payload in [Heap] under a handle with the same slot and
    generation.  [coherent] of [Ownership.v] is the contract between the two.
    [Arc] is proved against an abstract map from ids to [Live n] or [Destroying]
    ([arc_refines]).  [Reach] joins validator and executor: the points of a run
    are defined from the executor's own steps, and at each the validator's
    promise holds.  The methods of the executor call each other without bound;
    each is defined from a level of the machine that serves its calls
    ([Exec.machine]).  A file operation of [FileOps] asks [Policy] for its
    decision and walks with [Rooted]; all three are trees of system calls, so
    one notion of confinement covers them.  [WebAnswer] composes targets,
    limiter, routes, static files, sessions and the life of the server in the
    order of [http.rs].  [TypeRules] gives the analyser's types and
    [Operators] the interpreter's values, and [operators_sound] joins the two;
    [Constants] takes an expression through analysis, settling, lowering and
    [Exec.run_instructions].  [Logger] is a client of the class [LogSink]; its
    theorems on files are proved for a disk that may fail at any attempt.

    ** What the theorems show

    - Front end: the tokens of a source cover it, and printed tokens and
      expressions are read back; every text is accepted or refused without a
      panic; a program's files are loaded once each, imports first, and a cycle
      is reported only where there is one; work on outdated text is not
      accepted, and a change makes stale what imports it.
    - Types: what the analyser accepts of an operator or a conversion, the
      interpreter answers with a value of the type found, or stops for one of
      the named reasons; two integer types meet in the smallest type of both; a
      constant without shifts means its exact value from analysis to execution; accepted
      returns leave no way off the end of a function.
    - Counts and heaps: the operations of [Arc] refine the abstract map; an id
      is not alive again after its object is destroyed, while its generation
      does not wrap; retain and release are inverse; the last release starts
      the destruction of an object, or frees a region; allocation is fresh; the
      verifier of counts decides what it means to decide.
    - Runs: every operation restores the depth and the pins and returns clean
      frames, however it ends; a class initialiser runs at most once; a run
      with more fuel is the same run.
    - Validation: the analysis of [validate] is exactly definite assignment and
      ends; class metadata is acyclic and inherited fields keep their slots; a
      validated function never reads an undefined value when it runs, apart
      from three cases that are shown; owned values are consumed once on every
      path; the escape analysis marks exactly what its rules derive.
    - Values: integer arithmetic is exact or a diagnostic; [DIV] and [%] are
      Euclidean; the counted [FOR] runs its body for what it should; writes
      through index chains and field paths are read back.
    - Sessions: a failed turn restores the memory, a good one commits it, and
      variables travel from turn to turn.
    - Calendar: dates, timestamps and their texts round trip.
    - Dispatch: over every interleaving, a job starts as often as its ticket
      says; what an [Ok] of [join], [wait] and [close] means is shown; the
      bounds hold; the workers of a closed queue drain it in a bounded number
      of moves; the primitives keep their counts and lose no wake-up.
    - JSON: in every reachable table the held documents are exactly there, and
      no handle is reused.
    - Files: a rooted operation acts below its roots whatever other processes
      do; a policy is only narrowed, but by the directories that are named; an operation always ends with a value or
      an error; lines that are written are read back.
    - Web: a handler runs at most once, for an admitted request; the static server and
      the client stay within their bounds; counts of a server agree over every
      interleaving; a drain answers by its deadline; routes, targets, dates,
      cookies and rate limits do what they say.
    - Logging: a record is one clean line without sensitive fields, a JSON
      log is read back, and a disk that fails leaves only the beginning of a
      line whose call said so.
    - Compression: an extraction writes at names below its destination, where the policy
      allows, and within its limit; hexadecimal text is read back; the provider
      keeps a value exactly as long as a reference to it is held.
    Theorems that show a defect of the code are kept beside these:
    [set_field_path_alias_lost], [stop_leaves_ownership_frame],
    [stale_id_revived], [analyse_diverges], [validated_gaps],
    [restored_store_gap], [join_while_running], [query_after_space],
    [phi_reads_consumed], [barrier_break_forgotten], [queue_oversleeps],
    [cancelled_jobs_saturate], [parsed_then_frozen], [retained_child_survives],
    [edge_values_lost], [constructor_parameters], [empty_parameters],
    [quoted_type], [missing_alternative], [is_chained], [nul_line],
    [buffered_bytes_lost], [last_return_lost], [refused_and_allowed],
    [unlimited_rate], [other_socket_forgotten], [handlers_not_awaited],
    [limited_static], [redirects_resolved], [expired_hides], [slash_path_lost],
    [rotation_loses], [expired_revived], [date_panics], [stale_blocks],
    [location_query], [long_path_refused], [temporal_identity_refused],
    [date_order_refused], [alternative_shift_refused],
    [folded_shift_keeps_sign], [hex_sign_accepted], [byte_past_limit].

    ** Fuel and bounds

    [Exec.machine] and the block loop take a unit of fuel per call level and
    block; [fuel_monotone] shows that a run that finishes does not depend on
    it, so fuel only cuts off runs that are too long, never changes one.  The
    lexer and the parser take fuel from the length of what they read, and
    [source_parses] shows it is enough.  [Modules.visit] takes a unit per level
    of imports, and [load_ordered] shows that one more than the readable files
    are enough.  The loops of the validator and of the escape analysis have a
    measure ([analyse_ends], [class_bases_acyclic], [escape_analysis]), as has
    the spread of staleness, and the counted [FOR].  The waits of [WebDrain]
    take a unit per look at the clock, and end when it passes the deadline
    ([drain_answers]).  The step relations of the dispatch files have no fuel.

    ** Not modelled

    Scopes, members, calls and classes in semantic analysis, the lowering of
    statements, and the LLVM backend (large passes from tree to IR and from IR
    to text; what they hand on is checked by the validator, which is modelled;
    in [Constants] the other kinds of expression are parameters, and the notes
    an emitted instruction leaves for ownership are left out); the respelling of diagnostics with the names
    of a module; the depth of the machine's stack; the walk on Windows; builds
    with wrapping arithmetic; the debugger and event hooks (they observe); the
    drivers, editors and binaries; the providers of the interpreter and the
    native C ABI, which carry values to and from the cores modelled here;
    sockets, processes and the operating system's I/O; the text tables of the
    diagnostics; cryptography, SQLite and data frames.  A path of [Compress] is
    its components, so a message spells it joined.  Of
    [bn_core_dispatch], the drop of a queue nobody holds; of [bn_web], the
    threads and tasks that run handlers (what they answer is a parameter of
    [WebAnswer], the dispatch files model their queue), the access log and the scraper's rules. *)

From stdpp Require Export base strings list gmap sets option.
From Stdlib Require Export ZArith Lia.

#[global] Set Default Goal Selector "!".

Declare Scope bn_scope.
Delimit Scope bn_scope with bn.
#[global] Open Scope Z_scope.

(** ** Outcomes

    A Rust function that returns [Result<T, E>] may also panic.  [Fuel] is the
    outcome of a model whose recursion budget ran out; no Rust outcome
    corresponds to it. *)
Inductive res (E A : Type) : Type :=
| Ok (a : A)
| Err (e : E)
| Panic (why : string)
| Fuel.
Arguments Ok {E A} a.
Arguments Err {E A} e.
Arguments Panic {E A} why.
Arguments Fuel {E A}.

Section Res.
Context {E : Type}.

#[global] Instance res_ret : MRet (res E) := fun _ a => Ok a.

#[global] Instance res_bind : MBind (res E) := fun _ _ f m =>
  match m with
  | Ok a => f a
  | Err e => Err e
  | Panic w => Panic w
  | Fuel => Fuel
  end.

#[global] Instance res_fmap : FMap (res E) := fun _ _ f m => m ≫= fun a => Ok (f a).

(** [option.ok_or_else(..)] *)
Definition ok_or {A} (e : E) (o : option A) : res E A :=
  match o with Some a => Ok a | None => Err e end.

(** [option.expect(..)] *)
Definition expect {A} (why : string) (o : option A) : res E A :=
  match o with Some a => Ok a | None => Panic why end.

(** A sequence ends when its parts do. *)
Lemma res_bind_ends {A B} (m : res E A) (f : A → res E B) :
  m ≠ Fuel → (∀ a, m = Ok a → f a ≠ Fuel) → m ≫= f ≠ Fuel.
Proof. intros Hm Hf. destruct m; simpl; try done. by apply Hf. Qed.

Lemma res_bind_Ok {A B} (m : res E A) (f : A → res E B) (b : B) :
  m ≫= f = Ok b ↔ ∃ a, m = Ok a ∧ f a = Ok b.
Proof.
  split.
  - destruct m; simpl; intros H; try discriminate. eauto.
  - intros (a & -> & H). exact H.
Qed.

Lemma res_bind_assoc {A B C} (m : res E A) (f : A → res E B) (g : B → res E C) :
  (m ≫= f) ≫= g = m ≫= fun a => f a ≫= g.
Proof. by destruct m. Qed.

Lemma ok_or_Ok {A} (e : E) (o : option A) a : ok_or e o = Ok a ↔ o = Some a.
Proof. destruct o; simpl; split; congruence. Qed.

Lemma expect_Ok {A} w (o : option A) a : @expect A w o = Ok a ↔ o = Some a.
Proof. destruct o; simpl; split; congruence. Qed.

(** The computation ends without a panic, and its result, if any, has [P]. *)
Definition settles {A} (P : A → Prop) (r : res E A) : Prop :=
  match r with Ok a => P a | Err _ => True | Panic _ | Fuel => False end.

Lemma settles_bind {A B} (P : A → Prop) (Q : B → Prop) (m : res E A) (f : A → res E B) :
  settles P m → (∀ a, P a → settles Q (f a)) → settles Q (m ≫= f).
Proof. intros Hm Hf. destruct m; cbn in *; try done. by apply Hf. Qed.

Lemma settles_mono {A} (P Q : A → Prop) (r : res E A) : (∀ a, P a → Q a) → settles P r → settles Q r.
Proof. intros H. destruct r; cbn; auto. Qed.

(** [iter().map(f).collect::<Result<Vec<_>, _>>()] *)
Fixpoint mapR {A B} (f : A → res E B) (l : list A) : res E (list B) :=
  match l with
  | [] => Ok []
  | x :: l => y ← f x; ys ← mapR f l; Ok (y :: ys)
  end.

Lemma mapR_length {A B} (f : A → res E B) l r : mapR f l = Ok r → length r = length l.
Proof.
  revert r. induction l as [|x l IH]; intros r; simpl.
  - intros [= <-]. done.
  - intros (y & Hy & (ys & Hys & [= <-])%res_bind_Ok)%res_bind_Ok.
    simpl. by rewrite (IH ys).
Qed.

Lemma mapR_Forall2 {A B} (f : A → res E B) l r :
  mapR f l = Ok r ↔ Forall2 (fun x y => f x = Ok y) l r.
Proof.
  revert r. induction l as [|x l IH]; intros r; simpl.
  - split; [intros [= <-]; constructor | by inversion 1].
  - split.
    + intros (y & Hy & (ys & Hys & [= <-])%res_bind_Ok)%res_bind_Ok.
      constructor; [done | by apply IH].
    + inversion 1 as [|? y ? ys Hy Hys]; subst.
      rewrite Hy. simpl. apply IH in Hys. by rewrite Hys.
Qed.
End Res.

(** ** State passing

    A Rust method on [&mut self] keeps the changes it made before an error. *)
Definition st (E S A : Type) : Type := S → S * res E A.

Section St.
Context {E S : Type}.

#[global] Instance st_ret : MRet (st E S) := fun _ a s => (s, Ok a).

#[global] Instance st_bind : MBind (st E S) := fun _ _ f m s =>
  match m s with
  | (s', Ok a) => f a s'
  | (s', Err e) => (s', Err e)
  | (s', Panic w) => (s', Panic w)
  | (s', Fuel) => (s', Fuel)
  end.

Definition get : st E S S := fun s => (s, Ok s).
Definition modify (f : S → S) : st E S unit := fun s => (f s, Ok tt).
Definition lift {A} (m : res E A) : st E S A := fun s => (s, m).
(** A computation that reads the state and cannot change it ([&self]). *)
Definition reads {A} (f : S → res E A) : st E S A := fun s => (s, f s).
(** Runs [m] and keeps going after an [Err] ([let r = f(..);]). *)
Definition attempt {A} (m : st E S A) : st E S (res E A) := fun s =>
  match m s with
  | (s', Ok a) => (s', Ok (Ok a))
  | (s', Err e) => (s', Ok (Err e))
  | (s', Panic w) => (s', Panic w)
  | (s', Fuel) => (s', Fuel)
  end.

Lemma st_bind_Ok {A B} (m : st E S A) (f : A → st E S B) s s' b :
  (m ≫= f) s = (s', Ok b) ↔ ∃ s1 a, m s = (s1, Ok a) ∧ f a s1 = (s', Ok b).
Proof.
  unfold mbind, st_bind. split.
  - destruct (m s) as [s1 [a|e|w|]]; intros H; try discriminate. eauto.
  - intros (s1 & a & -> & H). done.
Qed.

Lemma lift_Ok {A} (m : res E A) s s' a : lift m s = (s', Ok a) ↔ s' = s ∧ m = Ok a.
Proof. unfold lift. split; [intros [= -> ->]; done | by intros [-> ->]]. Qed.

Lemma reads_Ok {A} (f : S → res E A) s s' a :
  reads f s = (s', Ok a) ↔ s' = s ∧ f s = Ok a.
Proof. unfold reads. split; [intros [= -> ->]; done | by intros [-> ->]]. Qed.

End St.

Section Each.
Context {E S A : Type}.
Variable f : A → st E S unit.

(** [for x in l { f(x)?; }] *)
Fixpoint each (l : list A) : st E S unit :=
  match l with
  | [] => mret tt
  | x :: l => f x ;; each l
  end.

(** [for x in l.into_iter().rev() { f(x)?; }] *)
Fixpoint each_rev (l : list A) : st E S unit :=
  match l with
  | [] => mret tt
  | x :: l => each_rev l ;; f x
  end.
End Each.

Section EachR.
Context {E A S : Type}.

(** [for x in l { f(x)?; }] where [f] has no state. *)
Definition eachR (f : A → res E unit) : list A → res E unit :=
  fix go l := match l with [] => Ok tt | x :: l => f x ;; go l end.

(** [for x in l { s = f(s, x)?; }] *)
Definition foldR (f : S → A → res E S) : S → list A → res E S :=
  fix go s l := match l with [] => Ok s | x :: l => s ← f s x; go s l end.

Lemma eachR_Ok (f : A → res E unit) l : eachR f l = Ok tt ↔ ∀ x, x ∈ l → f x = Ok tt.
Proof.
  induction l as [|x l IH]; simpl.
  - split; [|done]. intros _ x Hx. by apply elem_of_nil in Hx.
  - rewrite res_bind_Ok. split.
    + intros ([] & Hx & Hl) y [->|Hy]%elem_of_cons; [done|]. by apply IH.
    + intros Hall. exists tt. split; [apply Hall, list_elem_of_here|].
      apply IH. intros y Hy. by apply Hall, list_elem_of_further.
Qed.

(** An invariant of the loop. *)
Lemma foldR_inv (P : S → list A → Prop) (f : S → A → res E S) (full : list A) :
  (∀ s done_ x s', x ∈ full → P s done_ → f s x = Ok s' → P s' (done_ ++ [x])%list) →
  ∀ l done_ s s', full = (done_ ++ l)%list → P s done_ → foldR f s l = Ok s' → P s' full.
Proof.
  intros Hstep. induction l as [|x l IH]; intros done_ s s' Hfull HP; simpl.
  - rewrite app_nil_r in Hfull. subst. by intros [= <-].
  - intros (s1 & H1 & Hl)%res_bind_Ok. apply (IH (done_ ++ [x])%list s1); [by rewrite <- app_assoc| |done].
    apply (Hstep s); [|done|done]. rewrite Hfull, elem_of_app. right. apply list_elem_of_here.
Qed.
End EachR.


(** ** Proof automation *)

(** Opens every successful bind in the hypotheses. *)
Ltac inv_ok :=
  repeat match goal with
  | H : Ok _ = Ok _ |- _ => injection H as H; try subst
  | H : Ok _ = Err _ |- _ => discriminate H
  | H : Err _ = Ok _ |- _ => discriminate H
  | H : Panic _ = Ok _ |- _ => discriminate H
  | H : Fuel = Ok _ |- _ => discriminate H
  | H : Some _ = None |- _ => discriminate H
  | H : None = Some _ |- _ => discriminate H
  | H : (_, _) = (_, _) |- _ => injection H as H; try subst
  | H : _ ≫= _ = Ok _ |- _ =>
      apply res_bind_Ok in H; let a := fresh "a" in let Ha := fresh "Ha" in
      destruct H as (a & Ha & H)
  | H : (_ ≫= _) _ = (_, Ok _) |- _ =>
      apply st_bind_Ok in H;
      let s := fresh "s" in let a := fresh "a" in let Ha := fresh "Ha" in
      destruct H as (s & a & Ha & H)
  | H : lift _ _ = (_, Ok _) |- _ => apply lift_Ok in H; destruct H as [-> H]
  | H : reads _ _ = (_, Ok _) |- _ => apply reads_Ok in H; destruct H as [-> H]
  | H : ok_or _ _ = Ok _ |- _ => apply ok_or_Ok in H
  | H : expect _ _ = Ok _ |- _ => apply expect_Ok in H
  end.

(** Splits the boolean tests of the goal and of the hypotheses. *)
Ltac bool_cases :=
  repeat match goal with
  | H : context [if ?b then _ else _] |- _ =>
      let E := fresh "E" in destruct b eqn:E
  | |- context [if ?b then _ else _] =>
      let E := fresh "E" in destruct b eqn:E
  end.

(** Turns boolean comparisons on [Z] into propositions. *)
Ltac z_bools :=
  repeat match goal with
  | H : (_ && _)%bool = true |- _ => apply andb_prop in H; destruct H
  | H : (_ && _)%bool = false |- _ => apply andb_false_iff in H
  | H : (_ || _)%bool = false |- _ => apply orb_false_iff in H; destruct H
  | H : (_ <=? _) = true |- _ => apply Z.leb_le in H
  | H : (_ <=? _) = false |- _ => apply Z.leb_gt in H
  | H : (_ <? _) = true |- _ => apply Z.ltb_lt in H
  | H : (_ <? _) = false |- _ => apply Z.ltb_ge in H
  | H : (_ =? _) = true |- _ => apply Z.eqb_eq in H
  | H : (_ =? _) = false |- _ => apply Z.eqb_neq in H
  end.

Create HintDb bn discriminated.

(** ** Machine integers *)

Definition in_range (lo hi v : Z) : bool := (lo <=? v) && (v <=? hi).

Lemma in_range_spec lo hi v : in_range lo hi v = true ↔ lo ≤ v ≤ hi.
Proof. unfold in_range. rewrite andb_true_iff, !Z.leb_le. done. Qed.

Lemma in_range_false lo hi v : in_range lo hi v = false ↔ v < lo ∨ hi < v.
Proof.
  destruct (in_range lo hi v) eqn:E.
  - apply in_range_spec in E. split; [discriminate | lia].
  - split; [|done]. intros _. unfold in_range in E.
    apply andb_false_iff in E as [E|E]; apply Z.leb_gt in E; lia.
Qed.

Definition i32_MIN : Z := - 2 ^ 31.
Definition i32_MAX : Z := 2 ^ 31 - 1.
Definition u32_MAX : Z := 2 ^ 32 - 1.
Definition i64_MIN : Z := - 2 ^ 63.
Definition i64_MAX : Z := 2 ^ 63 - 1.
Definition u64_MAX : Z := 2 ^ 64 - 1.
Definition i128_MIN : Z := - 2 ^ 127.
Definition i128_MAX : Z := 2 ^ 127 - 1.
(** [usize] and [isize] of the 64-bit targets the toolchain supports. *)
Definition usize_MAX : Z := u64_MAX.
Definition isize_MAX : Z := i64_MAX.

Definition in_i128 (v : Z) : bool := in_range i128_MIN i128_MAX v.

(** The two's complement value of [v] truncated to 128 bits. *)
Definition wrap_i128 (v : Z) : Z := (v + 2 ^ 127) mod 2 ^ 128 - 2 ^ 127.

Definition guard_i128 (v : Z) : option Z := if in_i128 v then Some v else None.
Definition checked_add (a b : Z) : option Z := guard_i128 (a + b).
Definition checked_sub (a b : Z) : option Z := guard_i128 (a - b).
Definition checked_mul (a b : Z) : option Z := guard_i128 (a * b).
Definition checked_neg (a : Z) : option Z := guard_i128 (- a).
Definition div_euclid (a b : Z) : Z := if 0 <? b then a / b else - (a / - b).
Definition rem_euclid (a b : Z) : Z := a mod Z.abs b.
Definition checked_div_euclid (a b : Z) : option Z :=
  if b =? 0 then None else guard_i128 (div_euclid a b).
Definition checked_rem_euclid (a b : Z) : option Z :=
  if b =? 0 then None
  else if (a =? i128_MIN) && (b =? -1) then None else Some (rem_euclid a b).
Definition checked_pow (a n : Z) : option Z := guard_i128 (a ^ n).
(** [i128::checked_shl]: only the count is checked; high bits are lost. *)
Definition checked_shl (a n : Z) : option Z :=
  if n <? 128 then Some (wrap_i128 (Z.shiftl a n)) else None.
Definition u64_checked_mul (a b : Z) : option Z :=
  if a * b <=? u64_MAX then Some (a * b) else None.
Definition u64_checked_add (a b : Z) : option Z :=
  if a + b <=? u64_MAX then Some (a + b) else None.

Lemma guard_i128_Some v w : guard_i128 v = Some w ↔ w = v ∧ i128_MIN ≤ v ≤ i128_MAX.
Proof.
  unfold guard_i128, in_i128. destruct (in_range _ _ v) eqn:E.
  - apply in_range_spec in E. split; [intros [= <-]; done | by intros [-> _]].
  - apply in_range_false in E. split; [discriminate | lia].
Qed.

Lemma wrap_i128_id v : i128_MIN ≤ v ≤ i128_MAX → wrap_i128 v = v.
Proof.
  unfold wrap_i128, i128_MIN, i128_MAX. intros H.
  rewrite Z.mod_small; lia.
Qed.

(** Euclidean division: the remainder is never negative and is below the
    divisor's magnitude. *)
Lemma div_euclid_spec a b :
  b ≠ 0 → a = div_euclid a b * b + rem_euclid a b ∧ 0 ≤ rem_euclid a b < Z.abs b.
Proof.
  intros Hb. unfold div_euclid, rem_euclid.
  destruct (0 <? b) eqn:E; z_bools.
  - rewrite Z.abs_eq by lia. pose proof (Z.div_mod a b Hb).
    pose proof (Z.mod_pos_bound a b). lia.
  - rewrite Z.abs_neq by lia. pose proof (Z.div_mod a (- b)).
    pose proof (Z.mod_pos_bound a (- b)). lia.
Qed.

Lemma div_euclid_bound a b :
  b ≠ 0 → Z.abs (div_euclid a b) ≤ Z.abs a.
Proof.
  intros Hb. destruct (div_euclid_spec a b Hb) as [H1 H2].
  revert H1 H2. generalize (div_euclid a b), (rem_euclid a b). intros q r H1 H2.
  destruct (Z.eq_dec q 0) as [->|Hq]; [lia|].
  assert (Z.abs (q * b) = Z.abs q * Z.abs b) as Hab by apply Z.abs_mul.
  nia.
Qed.
