(* ===== verification/Text.v ===== *)
(** * Text: Rust's [str] as UTF-8 bytes

    A Rust [str] is a Rocq [string], one [ascii] per UTF-8 byte.  This file
    models the operations of the standard library that the program uses:
    scalars, splitting, prefixes, decimal printing and integer parsing. *)

From Stdlib Require Export Ascii.
From S2P Require Import Prelude.

#[local] Open Scope string_scope.
#[local] Open Scope Z_scope.

Definition byte_val (c : ascii) : Z := Z.of_N (N_of_ascii c).

(** A UTF-8 continuation byte, [10xxxxxx]. *)
Definition is_continuation (c : ascii) : bool := in_range 128 191 (byte_val c).

Fixpoint str_bytes (s : string) : list ascii :=
  match s with EmptyString => [] | String c s => c :: str_bytes s end.

Fixpoint of_bytes (l : list ascii) : string :=
  match l with [] => "" | c :: l => String c (of_bytes l) end.

(** [str::len] *)
Definition str_len (s : string) : Z := Z.of_nat (String.length s).

Fixpoint str_is_ascii (s : string) : bool :=
  match s with
  | EmptyString => true
  | String c s => (byte_val c <? 128) && str_is_ascii s
  end.

(** The scalars of a text, each as its own text ([str::chars]): a byte that is
    not a continuation byte starts a scalar. *)
Fixpoint chars_from (cur : string) (s : string) : list string :=
  match s with
  | EmptyString => match cur with EmptyString => [] | _ => [cur] end
  | String c s =>
      if is_continuation c then chars_from (cur +:+ String c "") s
      else match cur with
           | EmptyString => chars_from (String c "") s
           | _ => cur :: chars_from (String c "") s
           end
  end.
Definition chars (s : string) : list string := chars_from "" s.

Definition chars_count (s : string) : Z := Z.of_nat (length (chars s)).

(** [&s[i..=i]] and [&s[i..j]] on byte positions that are character
    boundaries; the Rust slice panics elsewhere. *)
Definition is_char_boundary (s : string) (i : nat) : bool :=
  match str_bytes s !! i with
  | Some c => negb (is_continuation c)
  | None => (i =? String.length s)%nat
  end.

Definition slice (s : string) (i j : nat) : option string :=
  if (i <=? j)%nat && is_char_boundary s i && is_char_boundary s j
  then Some (String.substring i (j - i) s) else None.

(** ** Prefixes, suffixes and splitting *)

Fixpoint strip_prefix (p s : string) : option string :=
  match p, s with
  | EmptyString, _ => Some s
  | String a p, String b s => if Ascii.eqb a b then strip_prefix p s else None
  | _, EmptyString => None
  end.
Definition starts_with (p s : string) : bool :=
  match strip_prefix p s with Some _ => true | None => false end.

Fixpoint str_rev (s acc : string) : string :=
  match s with EmptyString => acc | String c s => str_rev s (String c acc) end.

Definition strip_suffix (p s : string) : option string :=
  option_map (fun r => str_rev r "") (strip_prefix (str_rev p "") (str_rev s "")).
Definition ends_with (p s : string) : bool :=
  match strip_suffix p s with Some _ => true | None => false end.

(** [s.split_once(c)]: the text before and after the first [c]. *)
Fixpoint split_once (c : ascii) (s : string) : option (string * string) :=
  match s with
  | EmptyString => None
  | String a s =>
      if Ascii.eqb a c then Some ("", s)
      else match split_once c s with
           | Some (l, r) => Some (String a l, r)
           | None => None
           end
  end.

(** [s.split(c).collect()] *)
Fixpoint split (c : ascii) (s : string) : list string :=
  match s with
  | EmptyString => [""]
  | String a s =>
      if Ascii.eqb a c then "" :: split c s
      else match split c s with
           | [] => [String a ""]
           | w :: ws => String a w :: ws
           end
  end.

(** [s.rsplit(c).next()]: the text after the last [c], or all of it. *)
Definition rsplit_last (c : ascii) (s : string) : string :=
  List.last (split c s) s.

(** [s.rsplit_once(c)] *)
Definition rsplit_once (c : ascii) (s : string) : option (string * string) :=
  match split_once c (str_rev s "") with
  | Some (l, r) => Some (str_rev r "", str_rev l "")
  | None => None
  end.

Definition contains_char (c : ascii) (s : string) : bool :=
  existsb (Ascii.eqb c) (str_bytes s).

Fixpoint join (sep : string) (l : list string) : string :=
  match l with
  | [] => ""
  | [x] => x
  | x :: l => x +:+ sep +:+ join sep l
  end.

(** ** Decimal text *)

Definition digit_char (d : Z) : ascii := ascii_of_N (Z.to_N (48 + d)).

Fixpoint dec_digits (fuel : nat) (n : Z) (acc : string) : string :=
  match fuel with
  | O => acc
  | S fuel =>
      let acc := String (digit_char (n mod 10)) acc in
      if n / 10 =? 0 then acc else dec_digits fuel (n / 10) acc
  end.

Definition dec_fuel (n : Z) : nat := S (Z.to_nat (Z.log2 n)).

(** [n.to_string()] of an integer. *)
Definition dec_of_Z (n : Z) : string :=
  if n <? 0 then String "-" (dec_digits (dec_fuel (- n)) (- n) "")
  else dec_digits (dec_fuel n) n "".

Fixpoint zeros (n : nat) : string :=
  match n with O => "" | S n => String "0" (zeros n) end.

(** [format!("{n:0w$}")]: the sign counts in the width. *)
Definition pad0 (w : nat) (n : Z) : string :=
  if n <? 0 then
    let body := dec_of_Z (- n) in
    String "-" (zeros (w - 1 - String.length body) +:+ body)
  else let body := dec_of_Z n in zeros (w - String.length body) +:+ body.

(** [char::to_digit(radix)] *)
Definition to_digit (radix : Z) (c : ascii) : option Z :=
  let b := byte_val c in
  let d := if in_range 48 57 b then Some (b - 48)
           else if in_range 97 122 b then Some (b - 87)
           else if in_range 65 90 b then Some (b - 55)
           else None in
  match d with Some d => if d <? radix then Some d else None | None => None end.

Definition is_ascii_digit (c : ascii) : bool := in_range 48 57 (byte_val c).
Definition is_ascii_alphabetic (c : ascii) : bool :=
  in_range 65 90 (byte_val c) || in_range 97 122 (byte_val c).
Definition is_ascii_alphanumeric (c : ascii) : bool :=
  is_ascii_alphabetic c || is_ascii_digit c.

(** The digit loop of [from_str_radix]: each step is checked in [lo, hi]. *)
Fixpoint radix_loop (radix sign lo hi acc : Z) (s : string) : option Z :=
  match s with
  | EmptyString => Some acc
  | String c s =>
      match to_digit radix c with
      | None => None
      | Some d =>
          let v := acc * radix in
          if in_range lo hi v then
            let w := v + sign * d in
            if in_range lo hi w then radix_loop radix sign lo hi w s else None
          else None
      end
  end.

(** [T::from_str_radix(s, radix)] for an integer type with range [lo, hi]:
    an optional sign ([-] for a signed type only), then at least one digit. *)
Definition from_str_radix (lo hi radix : Z) (s : string) : option Z :=
  match s with
  | EmptyString => None
  | String "+" EmptyString | String "-" EmptyString => None
  | String "+" r => radix_loop radix 1 lo hi 0 r
  | String "-" r => if lo <? 0 then radix_loop radix (-1) lo hi 0 r else None
  | _ => radix_loop radix 1 lo hi 0 s
  end.

(** ** Scalar values *)

(** The code point of one scalar's UTF-8 text ([u32::from(c)]). *)
Definition code_point (c : string) : Z :=
  match map byte_val (str_bytes c) with
  | [a] => a
  | [a; b] => (a mod 32) * 64 + b mod 64
  | [a; b; d] => (a mod 16) * 4096 + (b mod 64) * 64 + d mod 64
  | [a; b; d; e] => (a mod 8) * 262144 + (b mod 64) * 4096 + (d mod 64) * 64 + e mod 64
  | _ => 0
  end.

Definition byte_of (z : Z) : ascii := ascii_of_N (Z.to_N z).

(** [char::from_u32(code)] and its UTF-8 text. *)
Definition is_scalar (u : Z) : bool :=
  in_range 0 55295 u || in_range 57344 1114111 u.
Definition utf8_encode (u : Z) : string :=
  of_bytes (map byte_of
    (if u <? 128 then [u]
     else if u <? 2048 then [192 + u / 64; 128 + u mod 64]
     else if u <? 65536 then [224 + u / 4096; 128 + u / 64 mod 64; 128 + u mod 64]
     else [240 + u / 262144; 128 + u / 4096 mod 64; 128 + u / 64 mod 64; 128 + u mod 64])).
Definition char_from_u32 (u : Z) : option string :=
  if is_scalar u then Some (utf8_encode u) else None.

(** [char::is_whitespace] (the Unicode [White_Space] property). *)
Definition is_whitespace (c : string) : bool :=
  let u := code_point c in
  in_range 9 13 u || (u =? 32) || (u =? 133) || (u =? 160) || (u =? 5760)
  || in_range 8192 8202 u || (u =? 8232) || (u =? 8233) || (u =? 8239)
  || (u =? 8287) || (u =? 12288).

(** [s.replace(p, r)] for a non-empty [p], scanning left to right. *)
Fixpoint replace_fuel (fuel : nat) (p r s : string) : string :=
  match fuel with
  | O => s
  | S fuel =>
      match strip_prefix p s with
      | Some rest => r +:+ replace_fuel fuel p r rest
      | None =>
          match s with
          | EmptyString => ""
          | String c s => String c (replace_fuel fuel p r s)
          end
      end
  end.
Definition str_replace (p r s : string) : string :=
  replace_fuel (S (String.length s)) p r s.

(** The byte order of two texts, which is their scalar order. *)
Fixpoint str_cmp (a b : string) : comparison :=
  match a, b with
  | EmptyString, EmptyString => Eq
  | EmptyString, _ => Lt
  | _, EmptyString => Gt
  | String c a, String d b =>
      match Z.compare (byte_val c) (byte_val d) with
      | Eq => str_cmp a b
      | o => o
      end
  end.

(** ** Lemmas *)

#[local] Arguments String.append !_ _ /.

Lemma byte_val_bound c : 0 ≤ byte_val c < 256.
Proof. destruct c as [[] [] [] [] [] [] [] []]; vm_compute; split; congruence. Qed.

Lemma byte_val_byte_of z : 0 ≤ z < 256 → byte_val (byte_of z) = z.
Proof.
  intros H. unfold byte_val, byte_of.
  rewrite N_ascii_embedding by lia. lia.
Qed.

Lemma str_append_nil s : s +:+ "" = s.
Proof. induction s as [|c s IH]; simpl; [done | by rewrite IH]. Qed.

Lemma str_append_assoc a b c : (a +:+ b) +:+ c = a +:+ (b +:+ c).
Proof. induction a as [|x a IH]; simpl; [done | by rewrite IH]. Qed.

Lemma str_rev_app s acc : str_rev s acc = str_rev s "" +:+ acc.
Proof.
  revert acc. induction s as [|c s IH]; intros acc; simpl; [done|].
  rewrite IH, (IH (String c "")), str_append_assoc. done.
Qed.

Lemma str_rev_append a b : str_rev (a +:+ b) "" = str_rev b "" +:+ str_rev a "".
Proof.
  induction a as [|c a IH]; simpl; [by rewrite str_append_nil|].
  rewrite (str_rev_app (a +:+ b)), (str_rev_app a (String c "")), IH, str_append_assoc.
  done.
Qed.

Lemma str_rev_rev s : str_rev (str_rev s "") "" = s.
Proof.
  induction s as [|c s IH]; [done|].
  simpl. rewrite (str_rev_app s), str_rev_append, IH. done.
Qed.

Lemma str_append_inj_l u v w : u +:+ v = u +:+ w → v = w.
Proof.
  induction u as [|c u IH]; simpl; [done|]. intros H. injection H as H. by apply IH.
Qed.

Lemma str_append_inj_r a b c : a +:+ c = b +:+ c → a = b.
Proof.
  intros H. apply (f_equal (fun s => str_rev s "")) in H.
  rewrite !str_rev_append in H. apply str_append_inj_l in H.
  apply (f_equal (fun s => str_rev s "")) in H. by rewrite !str_rev_rev in H.
Qed.

Lemma strip_prefix_Some p s r : strip_prefix p s = Some r ↔ s = p +:+ r.
Proof.
  revert s. induction p as [|a p IH]; intros s; simpl.
  - split; congruence.
  - destruct s as [|b s]; [split; discriminate|].
    destruct (Ascii.eqb_spec a b) as [->|Hne].
    + rewrite IH. split; congruence.
    + split; [discriminate | congruence].
Qed.

Lemma strip_suffix_Some p s r : strip_suffix p s = Some r ↔ s = r +:+ p.
Proof.
  unfold strip_suffix. split.
  - destruct (strip_prefix _ _) as [x|] eqn:E; simpl; [|discriminate].
    intros [= <-]. apply strip_prefix_Some in E.
    rewrite <- (str_rev_rev s), E, str_rev_append, str_rev_rev. done.
  - intros ->. rewrite str_rev_append.
    destruct (strip_prefix _ _) as [x|] eqn:E.
    + apply strip_prefix_Some in E. apply (f_equal (fun s => str_rev s "")) in E.
      rewrite !str_rev_append, !str_rev_rev in E.
      simpl. f_equal.
      symmetry. by apply str_append_inj_r in E.
    + exfalso.
      assert (strip_prefix (str_rev p "") (str_rev p "" +:+ str_rev r "") = Some (str_rev r ""))
        as H by by apply strip_prefix_Some.
      congruence.
Qed.

Lemma split_once_Some c s l r :
  split_once c s = Some (l, r) → s = l +:+ String c r.
Proof.
  revert l. induction s as [|a s IH]; intros l; simpl; [discriminate|].
  destruct (Ascii.eqb_spec a c) as [->|Hne].
  - intros [= <- <-]. done.
  - destruct (split_once c s) as [[l' r']|]; [|discriminate].
    intros [= <- <-]. simpl. f_equal. by apply IH.
Qed.

Lemma str_eqb_refl s : String.eqb s s = true.
Proof. apply String.eqb_refl. Qed.
