(* ===== verification/Scalars.v ===== *)
(** * Scalars: a text as the list of its scalars

    What [str::chars] gives, each scalar as its own UTF-8 text, with the
    operations the character-level components (the lexer, the catalog files)
    use, and how the scalars of a text make the text again. *)

From S2P Require Import Prelude Text.

#[local] Open Scope string_scope.
#[local] Open Scope Z_scope.

(** One scalar, as its UTF-8 text. *)
Abbreviation Char := string.

Definition char_at (n : Z) : Char := String (byte_of n) "".
Definition LF : Char := char_at 10.
Definition CR : Char := char_at 13.
Definition TAB : Char := char_at 9.
Definition QUOTE : Char := char_at 34.
Definition BACKSLASH : Char := char_at 92.

Fixpoint text_of (l : list Char) : string :=
  match l with [] => "" | c :: l => c +:+ text_of l end.

(** [str::starts_with], on scalars. *)
Fixpoint chars_start (p l : list Char) : bool :=
  match p, l with
  | [], _ => true
  | a :: p, b :: l => String.eqb a b && chars_start p l
  | _, [] => false
  end.

(** [trim_start_matches] of the scalars [p] holds of. *)
Fixpoint drop_while {A} (p : A → bool) (l : list A) : list A :=
  match l with c :: r => if p c then drop_while p r else l | [] => [] end.

(** [str::trim_end] and [str::trim_start] *)
Definition trim_end (l : list Char) : list Char := rev (drop_while is_whitespace (rev l)).
Definition trim_start (l : list Char) : list Char := drop_while is_whitespace l.
Definition trim (l : list Char) : list Char := trim_end (trim_start l).

(** [str::split_once] at the first occurrence of a text. *)
Fixpoint split_at_text (p l : list Char) : option (list Char * list Char) :=
  if chars_start p l then Some ([], drop (length p) l)
  else match l with
       | [] => None
       | c :: l => match split_at_text p l with Some (a, b) => Some (c :: a, b) | None => None end
       end.

(** [str::lines]: a line ends at a line feed, which takes a carriage return
    before it along. *)
Definition without_cr (reversed : list Char) : list Char :=
  match reversed with c :: r => if String.eqb c CR then rev r else rev reversed | [] => [] end.
Fixpoint lines_from (reversed l : list Char) : list (list Char) :=
  match l with
  | [] => match reversed with [] => [] | _ => [rev reversed] end
  | c :: l => if String.eqb c LF then without_cr reversed :: lines_from [] l else lines_from (c :: reversed) l
  end.
Definition lines (l : list Char) : list (list Char) := lines_from [] l.

(** [Vec<char>] or [&str] equality. *)
Definition same_text (a b : list Char) : bool := bool_decide (a = b).

Lemma str_len_app a b : str_len (a +:+ b) = str_len a + str_len b.
Proof.
  unfold str_len. induction a as [|c a IH]; [done|].
  change (String.length (String c a +:+ b)) with (S (String.length (a +:+ b))). cbn [String.length]. lia.
Qed.

Lemma text_of_app l1 l2 : text_of (l1 ++ l2)%list = text_of l1 +:+ text_of l2.
Proof. induction l1 as [|c l1 IH]; [done|]. cbn. by rewrite IH, str_append_assoc. Qed.

Lemma chars_start_Some p l : chars_start p l = true → ∃ r, l = (p ++ r)%list.
Proof.
  revert l. induction p as [|a p IH]; intros [|b l]; cbn; try done; [by exists []|by exists (b :: l)|].
  intros [Ha%String.eqb_eq Hp]%andb_prop. destruct (IH l Hp) as [r ->]. exists r. by rewrite Ha.
Qed.

Definition all_continuation (s : string) : bool := forallb is_continuation (str_bytes s).

(** One scalar's text: a starting byte, then continuation bytes. *)
Definition is_char (c : Char) : bool :=
  match c with String a r => negb (is_continuation a) && all_continuation r | "" => false end.

(** [String::from_utf8]: the bytes are the texts of scalars. *)
Definition is_scalar_text (c : Char) : bool := is_scalar (code_point c) && String.eqb (utf8_encode (code_point c)) c.
Definition is_utf8 (s : string) : bool := forallb is_scalar_text (chars s).
Definition from_utf8 (bytes : list ascii) : option string :=
  let s := of_bytes bytes in if is_utf8 s then Some s else None.

(** [eq_ignore_ascii_case], [to_ascii_lowercase] *)
Definition ascii_lower (c : ascii) : ascii := if in_range 65 90 (byte_val c) then byte_of (byte_val c + 32) else c.
Fixpoint to_ascii_lowercase (s : string) : string :=
  match s with EmptyString => "" | String c s => String (ascii_lower c) (to_ascii_lowercase s) end.
Definition eq_ignore_ascii_case (a b : string) : bool := String.eqb (to_ascii_lowercase a) (to_ascii_lowercase b).

(** [split_whitespace] *)
Fixpoint words_from (reversed l : (list Char)) : list (list Char) :=
  let flush := match reversed with [] => [] | _ => [rev reversed] end in
  match l with
  | [] => flush
  | c :: l => if is_whitespace c then (flush ++ words_from [] l)%list else words_from (c :: reversed) l
  end.

(** [s.trim()] *)
Definition trim_text (s : string) : string := text_of (trim (chars s)).

Lemma chars_continue cur r s : all_continuation r = true → chars_from cur (r +:+ s) = chars_from (cur +:+ r) s.
Proof.
  revert cur. induction r as [|a r IH]; intros cur; [by rewrite str_append_nil|].
  unfold all_continuation. cbn [str_bytes forallb]. intros [Ha Hr]%andb_prop.
  change (String a r +:+ s) with (String a (r +:+ s)). cbn [chars_from]. rewrite Ha.
  rewrite IH by done. by rewrite str_append_assoc.
Qed.

Lemma chars_text l : Forall (fun c => is_char c = true) l → chars (text_of l) = l.
Proof.
  assert (∀ l, Forall (fun c => is_char c = true) l → ∀ c, is_char c = true → chars_from c (text_of l) = c :: l) as H.
  { clear l. induction l as [|d l IH]; intros Hf c Hc.
    { destruct c; [done|]. reflexivity. }
    pose proof (Forall_inv Hf) as Hd; cbn beta in Hd; apply Forall_inv_tail in Hf. cbn [text_of]. destruct d as [|a r]; [done|].
    apply andb_prop in Hd as [Ha Hr]. apply negb_true_iff in Ha.
    change (String a r +:+ text_of l) with (String a (r +:+ text_of l)). cbn [chars_from]. rewrite Ha.
    assert (chars_from (String a "") (r +:+ text_of l) = String a r :: l) as E.
    { rewrite chars_continue by done. apply (IH Hf). cbn. by rewrite Ha. }
    rewrite E. by destruct c. }
  destruct l as [|c l]; [done|]. intros Hf. pose proof (Forall_inv Hf) as Hc; cbn beta in Hc; apply Forall_inv_tail in Hf.
  unfold chars. cbn [text_of]. destruct c as [|a r]; [done|].
  pose proof Hc as Hc'. apply andb_prop in Hc' as [Ha Hr]. apply negb_true_iff in Ha.
  change (String a r +:+ text_of l) with (String a (r +:+ text_of l)). cbn [chars_from]. rewrite Ha.
  rewrite chars_continue by done. by apply (H l Hf).
Qed.
