(* ===== verification/Entries.v ===== *)
(** * Entries: the text catalog ([crates/bn_catalog])

    The format of the catalog files ([entry_format.rs]), the table the build
    makes of them ([build.rs]) and what [text] and [format] read out of it
    ([lib.rs]).  The contents of the files are data: the operations take them
    as arguments.  The theorems show that written entries are read back, that
    [text] answers exactly the entries of the files, and what [format] does to
    a template. *)

From Stdlib Require Export Ascii.
From stdpp Require Import sorting.
From S2P Require Import Prelude Text Scalars.

#[local] Open Scope string_scope.
#[local] Open Scope Z_scope.

Abbreviation Line := (list Char).

(** ** The file format ([entry_format.rs]) *)

(** The lines of [share/bn/text/catalog-parse.txt]. *)
Definition NOTES : list Line :=
  [chars "not-key-value=`{line}` is not `key = value`"; chars "trailing-backslash=trailing backslash";
   chars "unknown-escape=unknown escape \{other}"].

Definition strip_text (p l : Line) : option Line := if chars_start p l then Some (drop (length p) l) else None.

Definition note (key : string) : string :=
  (fix search (notes : list Line) : string :=
    match notes with
    | [] => key
    | line :: notes =>
        match strip_text (chars key) line with
        | Some rest => match strip_text ["="] rest with Some value => text_of value | None => search notes end
        | None => search notes
        end
    end) NOTES.

Fixpoint unescape (value : Line) : res string Line :=
  match value with
  | [] => Ok []
  | c :: rest =>
      if String.eqb c BACKSLASH then
        match rest with
        | [] => Err (note "trailing-backslash")
        | e :: rest =>
            if String.eqb e BACKSLASH then out ← unescape rest; Ok (BACKSLASH :: out)
            else if String.eqb e "n" then out ← unescape rest; Ok (LF :: out)
            else if String.eqb e "t" then out ← unescape rest; Ok (TAB :: out)
            else if String.eqb e "r" then out ← unescape rest; Ok (CR :: out)
            else if String.eqb e "s" then out ← unescape rest; Ok (" " :: out)
            else Err (str_replace "{other}" e (note "unknown-escape"))
        end
      else out ← unescape rest; Ok (c :: out)
  end.

(** One iteration of [parse]: [None] for a line that is skipped. *)
Definition parse_line (line : Line) : res string (option (Line * Line)) :=
  let line := trim_end line in
  let trimmed := trim_start line in
  match trimmed with
  | [] => Ok None
  | c :: _ =>
      if String.eqb c "#" then Ok None
      else
        '(key, value) ← ok_or (str_replace "{line}" (text_of line) (note "not-key-value"))
                          (split_at_text (chars " = ") trimmed);
        match unescape value with
        | Ok value => Ok (Some (trim key, value))
        | Err error => Err ("`" +:+ text_of line +:+ "`: " +:+ error)
        | Panic w => Panic w
        | Fuel => Fuel
        end
  end.

Fixpoint parse_lines (l : list Line) : res string (list (Line * Line)) :=
  match l with
  | [] => Ok []
  | line :: l =>
      entry ← parse_line line;
      entries ← parse_lines l;
      Ok (match entry with Some entry => entry :: entries | None => entries end)
  end.

(** [entry_format::parse] *)
Definition parse (contents : Line) : res string (list (Line * Line)) := parse_lines (lines contents).

Definition escape_char (c : Char) : Line :=
  if String.eqb c BACKSLASH then [BACKSLASH; BACKSLASH]
  else if String.eqb c LF then [BACKSLASH; "n"]
  else if String.eqb c TAB then [BACKSLASH; "t"]
  else if String.eqb c CR then [BACKSLASH; "r"]
  else [c].

Definition is_space (c : Char) : bool := String.eqb c " ".

(** [repeat] of [\s]. *)
Definition spaces (n : nat) : Line := concat (repeat [BACKSLASH; "s"] n).

Definition escape (value : Line) : Line :=
  let out := concat (map escape_char value) in
  let leading := (length out - length (drop_while is_space out))%nat in
  let trailing := (length out - length (drop_while is_space (rev out)))%nat in
  if (leading =? length out)%nat then spaces leading
  else
    let middle := take (length out - trailing - leading) (drop leading out) in
    (spaces leading ++ middle ++ spaces trailing)%list.

Definition const_name (key : Line) : Line :=
  let name := map (fun c => match c with
                            | String a "" =>
                                if is_ascii_alphanumeric a then
                                  if in_range 97 122 (byte_val a) then char_at (byte_val a - 32) else c
                                else "_"
                            | _ => "_"
                            end) key in
  match name with
  | String a "" :: _ => if is_ascii_digit a then "K" :: "_" :: name else name
  | _ => name
  end.

(** ** The table ([build.rs], [lib.rs]) *)

Record Entry := mkEntry { e_domain : string; e_key : Line; e_value : Line }.
#[export] Instance entry_eq_dec : EqDecision Entry.
Proof. solve_decision. Defined.

(** The domain of a file whose stem is [stem]. *)
Definition domain (stem : string) : res string string :=
  let lower a := in_range 97 122 (byte_val a) in
  match stem with
  | String first _ =>
      if lower first && forallb (fun a => lower a || is_ascii_digit a || Ascii.eqb a "_") (str_bytes stem)
      then Ok stem
      else Panic (stem +:+ ": a catalog file name is a lower-case identifier")
  | "" => Panic (stem +:+ ": a catalog file name is a lower-case identifier")
  end.

(** The entries of one file: two keys may not name the same constant. *)
Fixpoint file_entries (d : string) (names : gmap Line Line) (entries : list (Line * Line)) : res string (list Entry) :=
  match entries with
  | [] => Ok []
  | (key, value) :: entries =>
      let name := const_name key in
      match names !! name with
      | Some previous =>
          Panic (d +:+ ".txt: keys `" +:+ text_of previous +:+ "` and `" +:+ text_of key
                   +:+ "` both name the constant " +:+ text_of name)
      | None => rest ← file_entries d (<[name := key]> names) entries; Ok (mkEntry d key value :: rest)
      end
  end.

(** One file of the catalog directory, by its stem. *)
Definition read_file (file : string * Line) : res string (list Entry) :=
  d ← domain file.1;
  match parse file.2 with
  | Ok entries => file_entries d ∅ entries
  | Err error => Panic (file.1 +:+ ".txt: " +:+ error)
  | Panic w => Panic w
  | Fuel => Fuel
  end.

(** The order of [(domain, key, value)]. *)
Definition entry_cmp (a b : Entry) : comparison :=
  match str_cmp (e_domain a) (e_domain b) with
  | Eq => match str_cmp (text_of (e_key a)) (text_of (e_key b)) with
          | Eq => str_cmp (text_of (e_value a)) (text_of (e_value b))
          | o => o
          end
  | o => o
  end.
Definition entry_le (a b : Entry) : Prop := entry_cmp a b ≠ Gt.
#[export] Instance entry_le_dec : RelDecision entry_le.
Proof. intros a b. unfold entry_le, Decision. destruct (entry_cmp a b); [left|left|right]; congruence. Defined.

(** The [ENTRIES] the build writes. *)
Definition build (files : list (string * Line)) : res string (list Entry) :=
  table ← mapR read_file files; Ok (merge_sort entry_le (concat table)).

(** [text]: the binary search of a sorted table without two equal keys finds
    the entry of the key. *)
Definition text (entries : list Entry) (d : string) (key : Line) : res string Line :=
  match list_find (fun e => e_domain e = d ∧ e_key e = key) entries with
  | Some (_, e) => Ok (e_value e)
  | None => Panic (d +:+ ":" +:+ text_of key)
  end.

(** The [values] a template is filled with, by name. *)
Fixpoint value_of (values : list (Line * Line)) (name : Line) : option Line :=
  match values with
  | [] => None
  | (wanted, value) :: values => if same_text wanted name then Some value else value_of values name
  end.

(** The [while] loop of [format]. *)
Fixpoint format_loop (fuel : nat) (values : list (Line * Line)) (out rest : Line) : res string Line :=
  match fuel with
  | O => Fuel
  | S fuel =>
      match split_at_text ["{"] rest with
      | None => Ok (out ++ rest)%list
      | Some (before, after) =>
          match split_at_text ["}"] after with
          | Some (name, rest) =>
              let shown := match value_of values name with
                           | Some value => value
                           | None => ("{" :: name ++ ["}"])%list
                           end in
              format_loop fuel values (out ++ before ++ shown)%list rest
          | None => Ok (out ++ before ++ "{" :: after)%list
          end
      end
  end.
Definition format (template : Line) (values : list (Line * Line)) : res string Line :=
  format_loop (S (length template)) values [] template.

Definition fill (entries : list Entry) (d : string) (key : Line) (values : list (Line * Line)) : res string Line :=
  template ← text entries d key; format template values.

(** [fill] with a template of the catalog, on texts; [format] always ends. *)
Definition filled (template : string) (values : list (string * string)) : string :=
  match format (chars template) (map (fun p => (chars p.1, [p.2])) values) with
  | Ok out => text_of out
  | _ => template
  end.

Definition words (entries : list Entry) (d : string) (key : Line) : res string (list Line) :=
  value ← text entries d key; Ok (words_from [] value).

Example parse_example :
  parse (chars ("# c" +:+ LF +:+ LF +:+ "a.b = x\sy" +:+ LF +:+ "c-d = \\{e}" +:+ LF))
    = Ok [(chars "a.b", chars "x y"); (chars "c-d", chars "\{e}")].
Proof. vm_compute. reflexivity. Qed.

Example format_example :
  format (chars "x {name} y {other} {name}") [(chars "name", chars "7")] = Ok (chars "x 7 y {other} 7").
Proof. vm_compute. reflexivity. Qed.

Example escape_example : map (fun v => escape (chars v)) ["x "; "  a"; " "; ""] = map chars ["x\s"; "\s\sa"; "\s"; ""].
Proof. vm_compute. reflexivity. Qed.

Example note_example : unescape (chars "k\q") = Err "unknown escape \q".
Proof. vm_compute. reflexivity. Qed.

(** ** Escapes *)

(** [spells w v]: [w] is [v] with escapes, the mandatory ones among them. *)
Inductive spells : Line → Line → Prop :=
| spells_nil : spells [] []
| spells_char c w v : spells w v → spells (escape_char c ++ w)%list (c :: v)
| spells_space w v : spells w v → spells (BACKSLASH :: "s" :: w) (" " :: v).

Lemma unescape_spells w v : spells w v → unescape w = Ok v.
Proof.
  induction 1 as [|c w v _ IH|w v _ IH]; [done| |]; [|cbn; by rewrite IH].
  unfold escape_char. destruct (String.eqb_spec c BACKSLASH) as [->|Hb]; [cbn; by rewrite IH|].
  destruct (String.eqb_spec c LF) as [->|]; [cbn; by rewrite IH|].
  destruct (String.eqb_spec c TAB) as [->|]; [cbn; by rewrite IH|].
  destruct (String.eqb_spec c CR) as [->|]; [cbn; by rewrite IH|].
  cbn [app unescape]. apply String.eqb_neq in Hb. by rewrite Hb, IH.
Qed.

Lemma spells_app w1 v1 w2 v2 : spells w1 v1 → spells w2 v2 → spells (w1 ++ w2)%list (v1 ++ v2)%list.
Proof.
  intros H1 H2. induction H1 as [|c w v _ IH|w v _ IH]; [done| |by constructor].
  rewrite <- app_assoc. by constructor.
Qed.

Lemma spells_escapes v : spells (concat (map escape_char v)) v.
Proof. induction v as [|c v IH]; [constructor|by apply spells_char]. Qed.

Lemma spells_spaces n : spells (spaces n) (repeat " " n).
Proof. induction n as [|n IH]; [constructor|]. by apply spells_space. Qed.

Lemma last_rev {A} (l : list A) : list.last (rev l) = head l.
Proof. rewrite rev_alt. exact (last_reverse l). Qed.

(** A text is spaces around a core without spaces at its edges. *)
Definition plain_edges (l : Line) : Prop :=
  (∀ c, head l = Some c → is_space c = false) ∧ (∀ c, list.last l = Some c → is_space c = false).

Lemma drop_while_split {A} (p : A → bool) l :
  ∃ a, l = (a ++ drop_while p l)%list ∧ Forall (fun c => p c = true) a ∧
       ∀ c, head (drop_while p l) = Some c → p c = false.
Proof.
  induction l as [|c l IH]; cbn.
  - exists []. split; [done|]. split; [apply Forall_nil_2|done].
  - destruct (p c) eqn:Hc.
    + destruct IH as (a & He & Ha & Hh). exists (c :: a). split; [cbn; by f_equal|].
      split; [by apply Forall_cons_2|done].
    + exists []. split; [done|]. split; [apply Forall_nil_2|]. cbn. by intros ? [= <-].
Qed.

Lemma all_spaces a : Forall (fun c => is_space c = true) a → a = repeat " " (length a).
Proof.
  induction 1 as [|c a Hc _ IH]; [done|]. cbn. apply String.eqb_eq in Hc as ->. by f_equal.
Qed.

Lemma space_core v : ∃ a m b, v = (repeat " " a ++ m ++ repeat " " b)%list ∧ plain_edges m ∧ (m = [] → b = 0%nat).
Proof.
  destruct (drop_while_split is_space v) as (a & Hv & Ha & Hh).
  destruct (drop_while_split is_space (rev (drop_while is_space v))) as (b & Hr & Hb & Hl).
  set (w := drop_while is_space v) in *. set (m := rev (drop_while is_space (rev w))).
  assert (w = (m ++ rev b)%list) as Hw by (unfold m; rewrite <- rev_app_distr, <- Hr, rev_involutive; done).
  assert (rev b = repeat " " (length b)) as Hs.
  { rewrite <- (length_rev b). apply all_spaces, Forall_rev, Hb. }
  exists (length a), m, (length b). split; [|split].
  - rewrite Hv at 1. rewrite (all_spaces a Ha) at 1. by rewrite Hw, Hs.
  - split; intros c Hc.
    + apply Hh. rewrite Hw. by destruct m.
    + apply Hl. unfold m in Hc. by rewrite last_rev in Hc.
  - intros Hm. rewrite Hm, Hs in Hw. destruct b as [|? b]; [done|]. specialize (Hh " ").
    rewrite Hw in Hh. by specialize (Hh eq_refl).
Qed.

Lemma drop_spaces n m : (∀ c, head m = Some c → is_space c = false) → drop_while is_space (repeat " " n ++ m)%list = m.
Proof.
  intros Hm. induction n as [|n IH]; [|done]. cbn. destruct m as [|c m]; [done|]. cbn. by rewrite (Hm c).
Qed.

Lemma escape_char_edges c : is_space c = false →
  (∀ x, head (escape_char c) = Some x → is_space x = false) ∧ (∀ x, list.last (escape_char c) = Some x → is_space x = false).
Proof.
  intros Hc. unfold escape_char.
  repeat match goal with |- context [String.eqb c ?x] => destruct (String.eqb c x); [by split; intros ? [= <-]|] end.
  split; by intros ? [= <-].
Qed.

Lemma escapes_spaces n : concat (map escape_char (repeat " " n)) = repeat " " n.
Proof. induction n as [|n IH]; [done|]. cbn. by rewrite IH. Qed.

Lemma escape_char_ne c : escape_char c ≠ [].
Proof. unfold escape_char. by repeat case_match. Qed.

Lemma escapes_edges m : plain_edges m → plain_edges (concat (map escape_char m)).
Proof.
  intros [Hh Hl]. split.
  - destruct m as [|c m]; [done|]. cbn. intros x. pose proof (escape_char_ne c) as Hn.
    destruct (escape_char_edges c (Hh c eq_refl)) as [He _]. destruct (escape_char c); [done|]. exact (He x).
  - destruct m as [|c m] using rev_ind; [done|]. rewrite map_app, concat_app. cbn. rewrite app_nil_r.
    intros x. destruct (escape_char_edges c) as [_ He]; [apply Hl; by rewrite list.last_snoc|].
    pose proof (escape_char_ne c) as Hn. rewrite list.last_app. destruct (list.last (escape_char c)) as [y|] eqn:Hy.
    + intros [= <-]. by apply He.
    + by apply list.last_None in Hy.
Qed.

(** [escape] spells the spaces at the edges as [\s] and the rest as is. *)
Lemma escape_shape a m b : plain_edges m → (m = [] → b = 0%nat) →
  escape (repeat " " a ++ m ++ repeat " " b)%list = (spaces a ++ concat (map escape_char m) ++ spaces b)%list.
Proof.
  intros Hm Hb. unfold escape. rewrite !map_app, !concat_app, !escapes_spaces.
  apply escapes_edges in Hm as He. set (E := concat (map escape_char m)) in *.
  assert (E = [] → m = []) as Hnil.
  { unfold E. destruct m as [|c m]; [done|]. cbn. intros [H _]%app_eq_nil. by apply escape_char_ne in H. }
  assert (∀ c, head (E ++ repeat " " b)%list = Some c → is_space c = false) as Hh.
  { destruct E as [|c E]; [by rewrite (Hb (Hnil eq_refl))|]. exact (proj1 He). }
  rewrite drop_spaces by done. rewrite !rev_app_distr, !rev_repeat, <- app_assoc.
  destruct (decide (m = [])) as [->|Hne].
  - rewrite (Hb eq_refl). subst E. cbn. rewrite !app_nil_r, repeat_length, Nat.sub_0_r, Nat.eqb_refl.
    done.
  - assert (E ≠ []) as HE by auto.
    rewrite (drop_spaces b (rev E ++ repeat " " a)%list); cycle 1.
    { intros c. destruct (rev E) as [|d r] eqn:Hr; [by apply (f_equal (@rev _)) in Hr; rewrite rev_involutive in Hr|].
      cbn. intros [= ->]. apply (proj2 He). by rewrite <- (rev_involutive E), last_rev, Hr. }
    rewrite !length_app, !length_rev, !repeat_length.
    assert (0 < length E)%nat by (destruct E; [done|cbn; lia]).
    replace (_ =? _)%nat with false by (symmetry; apply Nat.eqb_neq; lia).
    replace (a + (length E + b) - (length E + b))%nat with a by lia.
    replace (a + (length E + b) - (length E + a))%nat with b by lia.
    rewrite (drop_app_length' (repeat " " a)) by (by rewrite repeat_length).
    by rewrite take_app_length' by lia.
Qed.

Lemma escape_spells v : spells (escape v) v.
Proof.
  destruct (space_core v) as (a & m & b & -> & Hm & Hb). rewrite escape_shape by done.
  apply spells_app; [apply spells_spaces|]. apply spells_app; [apply spells_escapes|apply spells_spaces].
Qed.

(** [unescape] is the inverse of [escape], for every value. *)
Theorem unescape_escape v : unescape (escape v) = Ok v.
Proof. apply unescape_spells, escape_spells. Qed.

(** ** Files *)

(** The line of an entry, as the catalog files hold it. *)
Definition entry_line (e : Line * Line) : Line := (e.1 ++ chars " = " ++ escape e.2)%list.
Definition written (entries : list (Line * Line)) : Line := concat (map (fun e => entry_line e ++ [LF])%list entries).

(** A key without blanks that does not start a comment, and a value that does
    not end in a blank for which there is no escape. *)
Definition key_ok (key : Line) : Prop :=
  key ≠ [] ∧ head key ≠ Some "#" ∧ Forall (fun c => is_whitespace c = false) key.
Definition value_ok (value : Line) : Prop :=
  ∃ c, list.last value = Some c ∧ (is_whitespace c = false ∨ c ∈ [" "; LF; TAB; CR]).

Lemma escape_char_clean c x : x ∈ escape_char c → x ≠ LF ∧ x ≠ CR.
Proof.
  unfold escape_char. intros Hx.
  repeat match type of Hx with context [String.eqb ?a ?b] => destruct (String.eqb_spec a b); subst end;
    repeat (apply elem_of_cons in Hx as [->|Hx]); try by apply elem_of_nil in Hx.
  all: by split; try done; vm_compute.
Qed.

Lemma spells_clean w v x : spells w v → x ∈ w → x ≠ LF ∧ x ≠ CR.
Proof.
  induction 1 as [|c w v _ IH|w v _ IH].
  - by intros H%elem_of_nil.
  - intros [H|H]%elem_of_app; [by eapply escape_char_clean|auto].
  - intros [->|[->|H]%elem_of_cons]%elem_of_cons; [by vm_compute..|auto].
Qed.

Lemma escape_last v : value_ok v → ∃ c, list.last (escape v) = Some c ∧ is_whitespace c = false.
Proof.
  intros (c & Hc & Hw). destruct (space_core v) as (a & m & b & -> & Hm & Hb). rewrite escape_shape by done.
  assert (∀ n, list.last (spaces (S n)) = Some "s") as Hs.
  { induction n as [|n IH]; [done|]. change (spaces (S (S n))) with ([BACKSLASH; "s"] ++ spaces (S n))%list.
    by rewrite list.last_app, IH. }
  rewrite !list.last_app in Hc |- *. destruct b as [|b]; [|exists "s"; by rewrite Hs]. cbn [repeat list.last] in *.
  cbn [spaces repeat concat]. destruct (list.last m) as [d|] eqn:Hd.
  - injection Hc as ->. apply list.last_Some in Hd as [m' ->]. rewrite map_app, concat_app. cbn [map concat].
    rewrite app_nil_r, list.last_app. assert (is_space c = false) as Hsp by (apply Hm; by rewrite list.last_snoc).
    unfold escape_char. destruct (String.eqb_spec c BACKSLASH) as [->|]; [by exists BACKSLASH|].
    destruct (String.eqb_spec c LF) as [->|Hlf]; [by exists "n"|].
    destruct (String.eqb_spec c TAB) as [->|Htab]; [by exists "t"|].
    destruct (String.eqb_spec c CR) as [->|Hcr]; [by exists "r"|].
    exists c. split; [done|]. destruct Hw as [Hw|Hw]; [done|]. exfalso.
    apply elem_of_cons in Hw as [->|[->|[->|[->|Hw%elem_of_nil]%elem_of_cons]%elem_of_cons]%elem_of_cons];
      [discriminate Hsp|by apply Hlf|by apply Htab|by apply Hcr|done].
  - apply list.last_None in Hd as ->. cbn [map concat list.last]. destruct a as [|a]; [done|]. rewrite Hs. by exists "s".
Qed.

Lemma trim_end_id l c : list.last l = Some c → is_whitespace c = false → trim_end l = l.
Proof.
  intros Hl Hc. unfold trim_end. apply list.last_Some in Hl as [m ->]. rewrite rev_app_distr. cbn. rewrite Hc. cbn.
  by rewrite rev_involutive.
Qed.

Lemma lines_app l r rest : Forall (fun c => c ≠ LF) l →
  lines_from r (l ++ LF :: rest)%list = without_cr (rev l ++ r)%list :: lines rest.
Proof.
  revert r. induction l as [|c l IH]; intros r Hl; [done|]. cbn [app lines_from].
  pose proof (Forall_inv Hl) as Hc. cbn in Hc. apply String.eqb_neq in Hc. rewrite Hc, IH by by apply (Forall_inv_tail Hl).
  cbn. by rewrite <- app_assoc.
Qed.

Lemma chars_start_app p r : chars_start p (p ++ r)%list = true.
Proof. induction p as [|c p IH]; [done|]. cbn. by rewrite String.eqb_refl. Qed.

Lemma split_first p k r : Forall (fun c => is_whitespace c = false) k →
  split_at_text (" " :: p) (k ++ (" " :: p) ++ r)%list = Some (k, r).
Proof.
  induction 1 as [|c k Hc _ IH].
  - change ([] ++ (" " :: p) ++ r)%list with ((" " :: p) ++ r)%list. pose proof (chars_start_app (" " :: p) r) as Hs.
    change ((" " :: p) ++ r)%list with (" " :: (p ++ r))%list in *. cbn [split_at_text]. rewrite Hs.
    cbn [length drop]. by rewrite drop_app_length.
  - change ((c :: k) ++ (" " :: p) ++ r)%list with (c :: (k ++ (" " :: p) ++ r))%list. cbn [split_at_text].
    rewrite IH. replace (chars_start _ _) with false; [done|].
    cbn [chars_start]. destruct (String.eqb_spec " " c) as [<-|]; [by vm_compute in Hc|done].
Qed.

Lemma trim_id l : l ≠ [] → Forall (fun c => is_whitespace c = false) l → trim l = l.
Proof.
  intros Hn Hl. unfold trim. assert (trim_start l = l) as ->.
  { destruct l as [|c l]; [done|]. cbn. pose proof (Forall_inv Hl) as Hc. cbn in Hc. by rewrite Hc. }
  destruct (list.last l) as [c|] eqn:Hc; [|by apply list.last_None in Hc].
  apply (trim_end_id l c); [done|]. apply list.last_Some in Hc as [m ->]. apply Forall_app in Hl as [_ Hl]. exact (Forall_inv Hl).
Qed.

Lemma chars_start_blank k r : k ≠ [] → Forall (fun c => is_whitespace c = false) k → trim_start (k ++ r)%list = (k ++ r)%list.
Proof. intros Hn Hk. destruct Hk as [|c k Hc _]; [done|]. cbn. by rewrite Hc. Qed.

Lemma without_cr_id l c : list.last l = Some c → c ≠ CR → without_cr (rev l) = l.
Proof.
  intros [m ->]%list.last_Some Hc. rewrite rev_app_distr. cbn. apply String.eqb_neq in Hc. rewrite Hc.
  by rewrite rev_involutive.
Qed.

Lemma entry_line_clean e : key_ok e.1 → Forall (fun c => c ≠ LF) (entry_line e).
Proof.
  intros (_ & _ & Hk). unfold entry_line. repeat apply Forall_app_2.
  - eapply Forall_impl; [|exact Hk]. intros c Hc ->. by vm_compute in Hc.
  - by repeat constructor.
  - apply List.Forall_forall. intros x Hx. apply list_elem_of_In in Hx.
    by eapply spells_clean; [apply escape_spells|].
Qed.

Lemma parse_entry_line e : key_ok e.1 → value_ok e.2 → parse_line (entry_line e) = Ok (Some e).
Proof.
  destruct e as [k v]. cbn [fst snd]. intros (Hk & Hh & Hw) Hv. unfold parse_line, entry_line. cbn [fst snd].
  destruct (escape_last v Hv) as (c & Hl & Hc).
  rewrite (trim_end_id _ c), (chars_start_blank k) by (rewrite ?list.last_app, ?Hl; done).
  destruct k as [|x k]; [done|]. cbn [app]. replace (String.eqb x "#") with false; cycle 1.
  { symmetry. apply String.eqb_neq. intros ->. by apply Hh. }
  change (x :: k ++ chars " = " ++ escape v)%list with ((x :: k) ++ (" " :: ["="; " "]) ++ escape v)%list.
  change (chars " = ") with (" " :: ["="; " "]). rewrite split_first by done. cbn [ok_or mbind res_bind].
  rewrite unescape_spells with (v := v) by apply escape_spells. by rewrite trim_id.
Qed.

(** A catalog file with one line per entry, the value escaped, is read back
    as these entries. *)
Theorem parse_written entries : Forall (fun e => key_ok e.1 ∧ value_ok e.2) entries →
  parse (written entries) = Ok entries.
Proof.
  unfold parse, lines. induction 1 as [|e entries [Hk Hv] _ IH]; [done|].
  unfold written in *. cbn [map concat]. rewrite <- app_assoc. cbn [app].
  rewrite lines_app by by apply entry_line_clean.
  rewrite app_nil_r. destruct (escape_last e.2 Hv) as (c & Hl & Hc).
  rewrite (without_cr_id (entry_line e) c); [| |by intros ->].
  2:{ unfold entry_line. by rewrite !list.last_app, Hl. }
  cbn [parse_lines]. rewrite parse_entry_line by done. cbn [mbind res_bind]. unfold lines. by rewrite IH.
Qed.

(** U+00A0, a blank without an escape. *)
Definition NBSP : Char := utf8_encode 160.

(** An empty value and a value that ends in another blank have an escape, but
    the line of the first is refused and the second comes back shortened: the
    line is trimmed before the value is read. *)
Theorem edge_values_lost :
  unescape (escape []) = Ok [] ∧
  parse (written [(["k"], [])]) = Err "`k =` is not `key = value`" ∧
  unescape (escape ["v"; NBSP]) = Ok ["v"; NBSP] ∧
  parse (written [(["k"], ["v"; NBSP])]) = Ok [(["k"], ["v"])].
Proof. split_and!; vm_compute; reflexivity. Qed.

Lemma parse_written_witness :
  Forall (fun e => key_ok e.1 ∧ value_ok e.2) [(chars "a.b", chars " x"); (chars "c", chars "y ")] ∧
  parse (written [(chars "a.b", chars " x"); (chars "c", chars "y ")])
    = Ok [(chars "a.b", chars " x"); (chars "c", chars "y ")].
Proof.
  assert (Forall (fun e => key_ok e.1 ∧ value_ok e.2) [(chars "a.b", chars " x"); (chars "c", chars "y ")]) as H.
  { repeat constructor; try done; cbn.
    - exists "x". split; [done|]. by left.
    - exists " ". split; [done|]. right. apply elem_of_cons. by left. }
  split; [exact H|]. exact (parse_written _ H).
Defined.

(** ** Templates *)

(** A template is text and holes, then an end without a hole. *)
Inductive Piece := PText (text : Line) | PHole (name : Line).

Definition piece_ok (p : Piece) : Prop :=
  match p with PText l => "{" ∉ l | PHole name => "}" ∉ name end.
Definition end_ok (l : Line) : Prop := "{" ∉ l ∨ ∃ a b, l = (a ++ "{" :: b)%list ∧ "{" ∉ a ∧ "}" ∉ b.

Definition piece_text (p : Piece) : Line :=
  match p with PText l => l | PHole name => ("{" :: name ++ ["}"])%list end.
Definition piece_filled (values : list (Line * Line)) (p : Piece) : Line :=
  match p with
  | PText l => l
  | PHole name => match value_of values name with Some value => value | None => piece_text p end
  end.

Lemma split_at_char_None c l : split_at_text [c] l = None ↔ c ∉ l.
Proof.
  induction l as [|d l IH].
  - split; [intros _ H; by apply elem_of_nil in H|done].
  - change (split_at_text [c] (d :: l))
      with (if String.eqb c d && true then Some ([], l)
            else match split_at_text [c] l with Some (a, b) => Some (d :: a, b) | None => None end).
    rewrite elem_of_cons. destruct (String.eqb_spec c d) as [->|]; cbn [andb]; [naive_solver|].
    destruct (split_at_text [c] l) as [[a b]|]; naive_solver.
Qed.

Lemma split_at_char_Some c l a b : split_at_text [c] l = Some (a, b) ↔ l = (a ++ c :: b)%list ∧ c ∉ a.
Proof.
  revert a. induction l as [|d l IH]; intros a.
  - split; [done|]. intros [H _]. by destruct a.
  - change (split_at_text [c] (d :: l))
      with (if String.eqb c d && true then Some ([], l)
            else match split_at_text [c] l with Some (a, b) => Some (d :: a, b) | None => None end).
    destruct (String.eqb_spec c d) as [->|Hn]; cbn [andb].
    + split; [intros [= <- <-]; split; [done|by intros H%elem_of_nil]|].
      intros [He Hc]. destruct a as [|x a]; [by injection He as ->|]. injection He as <- _.
      destruct Hc. apply elem_of_cons. by left.
    + split.
      * destruct (split_at_text [c] l) as [[a' b']|]; [|done]. intros [= <- <-].
        destruct (proj1 (IH a') eq_refl) as [-> Hc]. split; [done|]. rewrite elem_of_cons. naive_solver.
      * intros [He Hc]. destruct a as [|x a]; [injection He as -> _; done|]. injection He as <- ->.
        rewrite (proj2 (IH a)); [done|]. split; [done|]. intros H. apply Hc. apply elem_of_cons. by right.
Qed.

(** Every template has such a reading. *)
Lemma template_pieces n : ∀ t, (length t <= n)%nat →
  ∃ ps l, t = (concat (map piece_text ps) ++ l)%list ∧ Forall piece_ok ps ∧ end_ok l.
Proof.
  induction n as [|n IH]; intros t Ht.
  - destruct t; [|cbn in Ht; lia]. exists [], []. split; [done|]. split; [apply Forall_nil_2|]. left. by intros H%elem_of_nil.
  - destruct (split_at_text ["{"] t) as [[before after]|] eqn:Ho.
    2:{ exists [], t. split; [done|]. split; [apply Forall_nil_2|]. left. by apply split_at_char_None. }
    apply split_at_char_Some in Ho as [-> Hb].
    destruct (split_at_text ["}"] after) as [[name rest]|] eqn:Hc.
    2:{ exists [], (before ++ "{" :: after)%list. split; [done|]. split; [apply Forall_nil_2|]. right.
        exists before, after. split; [done|]. split; [done|]. by apply split_at_char_None. }
    apply split_at_char_Some in Hc as [-> Hn]. rewrite !length_app in Ht. cbn in Ht. rewrite length_app in Ht. cbn in Ht.
    destruct (IH rest) as (ps & l & -> & Hps & Hl); [lia|].
    exists (PText before :: PHole name :: ps), l. split; [|split; [by repeat apply Forall_cons_2|done]].
    cbn [map concat piece_text]. rewrite <- !app_assoc. cbn [app]. by rewrite <- app_assoc.
Qed.

Lemma format_loop_pieces values ps l : Forall piece_ok ps → end_ok l → ∀ fuel pending out, "{" ∉ pending →
  (length (pending ++ concat (map piece_text ps) ++ l)%list < fuel)%nat →
  format_loop fuel values out (pending ++ concat (map piece_text ps) ++ l)%list
    = Ok (out ++ pending ++ concat (map (piece_filled values) ps) ++ l)%list.
Proof.
  intros Hps Hl. induction Hps as [|p ps Hp _ IH]; intros fuel pending out Hpend Hf; (destruct fuel as [|fuel]; [lia|]).
  - cbn [map concat app] in *. destruct Hl as [Hl|(a & b & -> & Ha & Hb)]; cbn [format_loop].
    + rewrite (proj2 (split_at_char_None _ _)); [done|]. by intros [?|?]%elem_of_app.
    + rewrite (proj2 (split_at_char_Some "{" _ (pending ++ a)%list b)).
      * rewrite (proj2 (split_at_char_None _ _)) by done. by rewrite <- !app_assoc.
      * split; [by rewrite <- !app_assoc|]. by intros [?|?]%elem_of_app.
  - destruct p as [t|name]; cbn [map concat piece_text piece_filled] in *.
    + rewrite <- !app_assoc in *. rewrite (app_assoc pending), IH.
      * by rewrite <- !app_assoc.
      * by intros [?|?]%elem_of_app.
      * by rewrite <- !app_assoc.
    + cbn [format_loop]. rewrite <- !app_assoc in *. cbn [app] in *. rewrite <- !app_assoc in *. cbn [app] in *.
      rewrite (proj2 (split_at_char_Some "{" _ pending (name ++ "}" :: concat (map piece_text ps) ++ l)%list)) by done.
      rewrite (proj2 (split_at_char_Some "}" _ name (concat (map piece_text ps) ++ l)%list)) by done.
      change (concat (map piece_text ps) ++ l)%list with ([] ++ concat (map piece_text ps) ++ l)%list.
      rewrite IH.
      * by rewrite <- !app_assoc.
      * by intros ?%elem_of_nil.
      * cbn [app]. rewrite !length_app in Hf. cbn in Hf. rewrite !length_app in *. cbn in Hf. rewrite length_app in Hf. lia.
Qed.

(** [format] ends on every template, which is text and holes up to an end
    without a hole; each hole that has a value is replaced by it, and
    everything else stays as written, the values included: what a value brings
    in is not read as a hole. *)
Theorem format_fills t values : ∃ ps l,
  t = (concat (map piece_text ps) ++ l)%list ∧ Forall piece_ok ps ∧ end_ok l ∧
  format t values = Ok (concat (map (piece_filled values) ps) ++ l)%list.
Proof.
  destruct (template_pieces (length t) t) as (ps & l & -> & Hps & Hl); [lia|].
  exists ps, l. split; [done|]. split; [done|]. split; [done|].
  apply (format_loop_pieces values ps l Hps Hl _ []); [by intros ?%elem_of_nil|]. cbn [app]. lia.
Qed.

(** ** The table *)

Lemma file_entries_spec d entries : ∀ names r, file_entries d names entries = Ok r →
  r = map (fun e => mkEntry d e.1 e.2) entries ∧ NoDup entries.*1 ∧
  ∀ k, k ∈ entries.*1 → names !! const_name k = None.
Proof.
  induction entries as [|[k v] entries IH]; intros names r; cbn [file_entries].
  - intros [= <-]. split; [done|]. split; [apply NoDup_nil_2|]. by intros k H%elem_of_nil.
  - destruct (names !! const_name k) as [|] eqn:Hk; [done|]. intros (rest & Hr & [= <-])%res_bind_Ok.
    apply IH in Hr as (-> & Hn & Hf). split; [done|]. cbn [fmap list_fmap]. split.
    + apply NoDup_cons_2; [|done]. intros Hin. apply Hf in Hin. by rewrite lookup_insert_eq in Hin.
    + intros k' [->|Hin]%elem_of_cons; [done|]. apply Hf in Hin. by apply lookup_insert_None in Hin as [? _].
Qed.

Lemma read_file_spec file r : read_file file = Ok r →
  ∃ entries, parse file.2 = Ok entries ∧ r = map (fun e => mkEntry file.1 e.1 e.2) entries ∧ NoDup entries.*1.
Proof.
  unfold read_file. intros (d & Hd & H)%res_bind_Ok. assert (d = file.1) as ->.
  { unfold domain in Hd. destruct file.1 as [|a s]; [done|]. cbv zeta in Hd. by destruct (_ && _); [injection Hd|]. }
  destruct (parse file.2) as [entries| | |]; try done. exists entries. apply file_entries_spec in H as (-> & Hn & _). done.
Qed.

Lemma built_entry files table d k v : build files = Ok table →
  mkEntry d k v ∈ table ↔ ∃ contents entries, (d, contents) ∈ files ∧ parse contents = Ok entries ∧ (k, v) ∈ entries.
Proof.
  unfold build. intros (tables & Ht & [= <-])%res_bind_Ok. apply mapR_Forall2 in Ht.
  rewrite merge_sort_Permutation. induction Ht as [|file r files tables Hr _ IH].
  - split; [by intros H%elem_of_nil|]. intros (c & es & H%elem_of_nil & _). done.
  - apply read_file_spec in Hr as (entries & Hp & -> & _). cbn [concat]. rewrite elem_of_app, IH. split.
    + intros [([k' v'] & He & Hin)%list_elem_of_fmap|(c & es & Hc & Hp' & Hin)].
      * cbn in He. injection He as -> -> ->. exists file.2, entries. split; [|done].
        apply elem_of_cons. left. by destruct file.
      * exists c, es. split; [|done]. apply elem_of_cons. by right.
    + intros (c & es & [<-|Hc]%elem_of_cons & Hp' & Hin); [left|right; by exists c, es].
      cbn [snd] in Hp. rewrite Hp in Hp'. injection Hp' as <-. apply list_elem_of_fmap. by exists (k, v).
Qed.

Lemma value_unique {A B} (entries : list (A * B)) k v v' : NoDup entries.*1 → (k, v) ∈ entries → (k, v') ∈ entries → v = v'.
Proof.
  intros Hn H1 H2. induction entries as [|[a b] entries IH]; [by apply elem_of_nil in H1|].
  cbn in Hn. inversion Hn as [|? ? Ha Hn']; subst.
  apply elem_of_cons in H1 as [[= <- <-]|H1]; apply elem_of_cons in H2 as [[= <-]|H2]; auto.
  - destruct Ha. apply list_elem_of_fmap. by exists (k, v').
  - subst. destruct Ha. apply list_elem_of_fmap. by exists (k, v).
Qed.

Lemma built_keys files table d c es : build files = Ok table → (d, c) ∈ files → parse c = Ok es → NoDup es.*1.
Proof.
  unfold build. intros (tables & Ht & _)%res_bind_Ok. apply mapR_Forall2 in Ht. intros Hc Hp.
  induction Ht as [|file r files tables Hr _ IH]; [by apply elem_of_nil in Hc|].
  apply elem_of_cons in Hc as [<-|Hc]; [|by apply IH].
  apply read_file_spec in Hr as (es' & He & _ & Hn). cbn [snd] in He. by assert (es = es') as -> by congruence.
Qed.

(** What the build makes of the catalog files, one of each name, [text] reads
    back: exactly the entries of the file of the domain. *)
Theorem text_of_built files table d k v : NoDup files.*1 → build files = Ok table →
  text table d k = Ok v ↔ ∃ contents entries, (d, contents) ∈ files ∧ parse contents = Ok entries ∧ (k, v) ∈ entries.
Proof.
  intros Hn Hb. rewrite <- (built_entry files table d k v Hb). unfold text.
  destruct (list_find _ table) as [[i e]|] eqn:Hf.
  - apply list_find_Some in Hf as (Hi & [Hd Hk] & _). destruct e as [d' k' v']. cbn in *. subst.
    apply list_elem_of_lookup_2 in Hi. split; [by intros [= <-]|]. intros Hv. f_equal.
    apply (built_entry _ _ _ _ _ Hb) in Hi as (c & es & Hc & Hp & Hin), Hv as (c' & es' & Hc' & Hp' & Hin').
    assert (c = c') as <- by by eapply (value_unique files). assert (es = es') as <- by congruence.
    eapply value_unique; [|done..]. by eapply built_keys.
  - apply list_find_None in Hf. split; [done|]. intros Hin. rewrite List.Forall_forall in Hf.
    apply list_elem_of_In in Hin. by destruct (Hf _ Hin).
Qed.

Lemma text_of_built_witness : ∃ table,
  build [("json", chars ("k = v" +:+ LF)); ("arc", chars ("k = w\s" +:+ LF))] = Ok table ∧
  text table "arc" ["k"] = Ok ["w"; " "].
Proof.
  eexists. split; [vm_compute; reflexivity|].
  eapply (text_of_built [("json", chars ("k = v" +:+ LF)); ("arc", chars ("k = w\s" +:+ LF))]).
  - cbn. repeat (apply NoDup_cons_2; [by intros H; repeat apply elem_of_cons in H as [|H]; try by apply elem_of_nil in H|]).
    apply NoDup_nil_2.
  - vm_compute. reflexivity.
  - eexists _, _. split; [apply elem_of_cons; right; apply elem_of_cons; by left|].
    split; [vm_compute; reflexivity|]. apply elem_of_cons. by left.
Defined.
