(* ===== verification/Diag.v ===== *)
(** * Diag: source spans and runtime diagnostics

    Models [bn_source] (spans) and the part of [bn_diag] the interpreter uses:
    the registry rows of its identities with their typed argument schemas, the
    validation of a structured diagnostic, and the constructors of
    [crates/bn_interp/src/lib.rs]. *)

From S2P Require Import Prelude Text.

#[local] Open Scope string_scope.
#[local] Open Scope Z_scope.

(** ** Texts of the catalog

    [bn_catalog::text(domain, key)] returns the text of a key of the catalog
    files of the repository; each text below is the entry of one key. *)

Definition msg_pointer_to_prefix : string := "POINTER TO ".
Definition msg_dataframe_index_cause : string := "index is outside valid row/column bounds".

Definition type_crypto_bytes : string := "BNCrypto.Bytes".
Definition type_crypto_key : string := "BNCrypto.Key".
Definition type_compress_bytes : string := "BNCompress.Bytes".
Definition type_compress_zip_archive : string := "BNCompress.ZipArchive".

Definition builtin_asc_operation : string := "ASC".
Definition builtin_asc_cause : string := "the string is empty".
Definition builtin_char_operation : string := "CHAR".
Definition builtin_char_cause : string := "the code is not a Unicode scalar value".

Definition msg_timezone_not_supported : string := "is not a supported time-zone identifier".
Definition msg_timestamp_out_of_range : string := "TIMESTAMP is outside civil range".
Definition msg_non_date_value : string := "non-DATE value".
Definition msg_non_time_value : string := "non-TIME value".
Definition msg_non_timezone_value : string := "non-TIMEZONE value".

Definition msg_plus_or_an_ordering_operator : string := "Plus or an ordering operator".
Definition msg_key_just_listed : string := "key just listed".
Definition msg_no_host_capability_owns_this_handle : string := "no HOST capability owns this handle".
Definition msg_integer_overflow_cause : string := "integer overflow".
Definition capability_num_procs : string := "HOST.NumProcs".
Definition msg_session_cancelled : string := "execution cancelled by user".
Definition msg_host_filesystem_not_provided : string :=
  "HOST.FileSystem is not provided by this host".
Definition msg_session_start_not_found : string := "executable module requires FUNCTION Start".
Definition lexer_escape_unsupported : string :=
  "unsupported string escape; use \" +:+ String (Ascii.ascii_of_nat 34) " or \\".

(** ** Spans ([crates/bn_source/src/lib.rs]) *)

Record Position := mkPosition {
  source_id : Z;
  revision : Z;
  offset : Z;
  line : Z;
  column : Z;
}.

Record Span := mkSpan { span_start : Position; span_end : Position }.

Definition default_span : Span :=
  mkSpan (mkPosition 0 0 0 1 1) (mkPosition 0 0 0 1 1).

(** ** The registry ([crates/bn_diag/src/lib.rs]) *)

Inductive DiagId :=
| ALLOCATION_SIZE_INVALID | ALLOCATION_SIZE_OVERFLOW | ALLOCATION_TOO_LARGE
| DEBUG_TERMINATED | DISPATCH | DIVISION_BY_ZERO | DOUBLE_RELEASE
| FORMAT_OUT_OF_RANGE | FUNCTION_NOT_FOUND | HOST_CAPABILITY_UNAVAILABLE
| INDEX_OUT_OF_BOUNDS | INPUT_ERROR | INVALID_DATE | INVALID_EXIT_CODE
| INVALID_EXPONENT | INVALID_FOR_STEP | INVALID_IR | INVALID_NUMERIC_CONVERSION
| INVALID_SHIFT_COUNT | INVALID_START | INVALID_TIME | INVALID_TIMEZONE
| INVALID_VECTOR_DIMENSION | LIBRARY_PROVIDER_UNAVAILABLE | NAME_NOT_FOUND
| NULL_POINTER_ACCESS | NUMERIC_OVERFLOW | OUTPUT_ERROR | PARSE_ERROR
| POINTER_LENGTH_MISMATCH | POINTER_TYPE_MISMATCH | STACK_OVERFLOW
| START_NOT_FOUND | STATIC_INITIALIZATION_CYCLE | TYPE_MISMATCH
| UNINITIALIZED_VALUE | USE_AFTER_RELEASE | VECTOR_LENGTH_MISMATCH.

#[global] Instance DiagId_eq_dec : EqDecision DiagId.
Proof. solve_decision. Defined.

Definition schema_LEGACY_MESSAGE : list string := ["message"].
Definition schema_NAME : list string := ["name"].
Definition schema_NAME_CONTEXT : list string := ["name"; "context"].
Definition schema_OPERATION : list string := ["operation"].
Definition schema_INDEX_OUT_OF_BOUNDS : list string := ["index"; "bound"; "context"].
Definition schema_TYPE_MISMATCH : list string := ["expected"; "actual"; "context"].
Definition schema_DETAIL : list string := ["detail"].

(** [DiagId::argument_schema]; every argument of these rows is a text. *)
Definition argument_schema (id : DiagId) : list string :=
  match id with
  | ALLOCATION_SIZE_INVALID | ALLOCATION_SIZE_OVERFLOW | ALLOCATION_TOO_LARGE
  | DISPATCH | DOUBLE_RELEASE | FUNCTION_NOT_FOUND | HOST_CAPABILITY_UNAVAILABLE
  | INPUT_ERROR | INVALID_DATE | INVALID_EXIT_CODE | INVALID_EXPONENT | INVALID_IR
  | INVALID_SHIFT_COUNT | INVALID_START | INVALID_TIME | INVALID_TIMEZONE
  | LIBRARY_PROVIDER_UNAVAILABLE | USE_AFTER_RELEASE => schema_DETAIL
  | DEBUG_TERMINATED | FORMAT_OUT_OF_RANGE | INVALID_FOR_STEP
  | INVALID_NUMERIC_CONVERSION | INVALID_VECTOR_DIMENSION | NULL_POINTER_ACCESS
  | OUTPUT_ERROR | PARSE_ERROR | POINTER_LENGTH_MISMATCH | POINTER_TYPE_MISMATCH
  | START_NOT_FOUND | STATIC_INITIALIZATION_CYCLE | UNINITIALIZED_VALUE
  | VECTOR_LENGTH_MISMATCH => schema_LEGACY_MESSAGE
  | DIVISION_BY_ZERO | NUMERIC_OVERFLOW => schema_OPERATION
  | INDEX_OUT_OF_BOUNDS => schema_INDEX_OUT_OF_BOUNDS
  | NAME_NOT_FOUND => schema_NAME_CONTEXT
  | TYPE_MISMATCH => schema_TYPE_MISMATCH
  | STACK_OVERFLOW => schema_NAME
  end.

Record Diagnostic := mkDiagnostic {
  d_id : DiagId;
  d_message : string;
  d_span : Span;
  d_args : list (string * string);
}.

Abbreviation result A := (res Diagnostic A).

(** [validate_arguments]: no duplicate name, every name in the schema, no
    schema name missing. *)
Definition validate_arguments (id : DiagId) (args : list (string * string)) : bool :=
  let names := args.*1 in
  bool_decide (NoDup names)
  && forallb (fun n => bool_decide (n ∈ argument_schema id)) names
  && forallb (fun n => bool_decide (n ∈ names)) (argument_schema id).

(** [render_structured_message], for the identities above (not the lexer's and
    the parser's, which render their own shape). *)
Definition render_structured_message (args : list (string * string)) : string :=
  match list_find (fun a : string * string => a.1 = "message") args with
  | Some (_, (_, v)) => v
  | None => join ", " args.*2
  end.

Definition structured (id : DiagId) (args : list (string * string)) (span : Span)
    : option Diagnostic :=
  if validate_arguments id args
  then Some (mkDiagnostic id (render_structured_message args) span args)
  else None.

(** ** The constructors of the interpreter *)

(** [Err(runtime_error(id, message, span))]: one free-text fact; a panic for an
    identity whose schema has another number of arguments. *)
Definition runtime_error {A} (id : DiagId) (message : string) (span : Span) : result A :=
  match argument_schema id with
  | [only] =>
      d ← expect "runtime compatibility diagnostic schema"
            (structured id [(only, message)] span);
      Err d
  | _ => Panic "needs its typed constructor"
  end.

Definition name_not_found {A} (name context : string) (span : Span) : result A :=
  d ← expect "name-not-found diagnostic schema"
        (structured NAME_NOT_FOUND [("name", name); ("context", context)] span);
  Err d.

Definition index_out_of_bounds {A} (index bound : Z) (context : string) (span : Span)
    : result A :=
  d ← expect "index-out-of-bounds diagnostic schema"
        (structured INDEX_OUT_OF_BOUNDS
           [("index", dec_of_Z index); ("bound", dec_of_Z bound); ("context", context)] span);
  Err d.

Definition type_mismatch {A} (expected actual context : string) (span : Span) : result A :=
  d ← expect "type-mismatch diagnostic schema"
        (structured TYPE_MISMATCH
           [("expected", expected); ("actual", actual); ("context", context)] span);
  Err d.

Definition numeric_overflow {A} (operation : string) (span : Span) : result A :=
  d ← expect "numeric-overflow diagnostic schema"
        (structured NUMERIC_OVERFLOW [("operation", operation)] span);
  Err d.

Definition integer_overflow {A} (span : Span) : result A :=
  numeric_overflow "converting a value to INTEGER" span.

Definition stack_overflow {A} (name : string) (span : Span) : result A :=
  match structured STACK_OVERFLOW [("name", name)] span with
  | Some d => Err d
  | None => Panic "unreachable"
  end.

(** [r] is the diagnostic [id] at [span]. *)
Definition raises {A} (r : result A) (id : DiagId) (span : Span) : Prop :=
  match r with Err d => d_id d = id ∧ d_span d = span | _ => False end.

(** The identities [runtime_error] accepts. *)
Definition one_fact (id : DiagId) : bool :=
  match argument_schema id with [_] => true | _ => false end.

Lemma runtime_error_raises {A} id m span :
  one_fact id = true → raises (@runtime_error A id m span) id span.
Proof. by destruct id. Qed.

Lemma type_mismatch_raises {A} e a c span :
  raises (@type_mismatch A e a c span) TYPE_MISMATCH span.
Proof. done. Qed.

Lemma name_not_found_raises {A} n c span :
  raises (@name_not_found A n c span) NAME_NOT_FOUND span.
Proof. done. Qed.

Lemma index_out_of_bounds_raises {A} i b c span :
  raises (@index_out_of_bounds A i b c span) INDEX_OUT_OF_BOUNDS span.
Proof. done. Qed.

Lemma numeric_overflow_raises {A} o span :
  raises (@numeric_overflow A o span) NUMERIC_OVERFLOW span.
Proof. done. Qed.

Lemma stack_overflow_raises {A} n span :
  raises (@stack_overflow A n span) STACK_OVERFLOW span.
Proof. done. Qed.

#[export] Hint Resolve runtime_error_raises type_mismatch_raises name_not_found_raises
  index_out_of_bounds_raises numeric_overflow_raises stack_overflow_raises : bn.
