(* ===== verification/Reading.v ===== *)
(** * Reading: the lexer reads back printed tokens

    [print] writes tokens as text with a blank after each.  The theorem shows
    that the lexer of [Lexer.v] reads the text of any tokens as these tokens:
    no spelling is lost, split, joined to its neighbour or taken for another. *)

From S2P Require Import Prelude Text Scalars Diag Lexer.

#[local] Open Scope string_scope.
#[local] Open Scope Z_scope.

(** ** Printing *)

Definition escape (c : Char) : list Char :=
  if String.eqb c QUOTE || String.eqb c BACKSLASH then [BACKSLASH; c] else [c].

Definition symbol_text (s : Symbol) : list Char :=
  match s with
  | Assign => ["="] | Equal => [] | NotEqual => ["<"; ">"] | Less => ["<"] | LessEqual => ["<"; "="]
  | Greater => [">"] | GreaterEqual => [">"; "="] | Plus => ["+"] | Minus => ["-"] | Star => ["*"]
  | Power => ["*"; "*"] | Slash => ["/"] | Percent => ["%"] | PlusAssign => ["+"; "="]
  | MinusAssign => ["-"; "="] | Increment => ["+"; "+"] | Decrement => ["-"; "-"]
  | StarAssign => ["*"; "="] | PowerAssign => ["*"; "*"; "="] | SlashAssign => ["/"; "="]
  | PercentAssign => ["%"; "="] | LeftParen => ["("] | RightParen => [")"] | LeftBracket => ["["]
  | RightBracket => ["]"] | Comma => [","] | Colon => [":"] | Dot => ["."]
  end.

Definition print_kind (k : TokenKind) : list Char :=
  match k with
  | TkIdentifier t | TkInteger t | TkFloat t | TkKeyword t | TkSpecial t => chars t
  | TkString v => (QUOTE :: flat_map escape (chars v) ++ [QUOTE])%list
  | TkSymbol s => symbol_text s
  | TkNewline => [LF]
  | TkEof => []
  end.

Definition print (ks : list TokenKind) : list Char := flat_map (fun k => print_kind k ++ [" "])%list ks.

Section Reading.
Variables (source revision_ : Z) (reserved_words special_float_literals : list string).
#[local] Abbreviation word_kind := (word_kind reserved_words special_float_literals).
#[local] Abbreviation lex_one := (lex_one source revision_ reserved_words special_float_literals).

(** What can be told of [a] by a test on it. *)
Definition passes (p : Char → bool) (t : string) : bool :=
  forallb p (chars t) && forallb is_char (chars t) && String.eqb (text_of (chars t)) t.

(** A token of the language. *)
Definition lexical (k : TokenKind) : bool :=
  match k with
  | TkIdentifier t | TkKeyword t | TkSpecial t =>
      passes is_identifier_continue t
      && match chars t with c :: _ => is_identifier_start c | [] => false end
      && match k, word_kind t with
         | TkIdentifier _, TkIdentifier _ | TkKeyword _, TkKeyword _ | TkSpecial _, TkSpecial _ => true
         | _, _ => false
         end
  | TkInteger t | TkFloat t =>
      passes is_number_continue t && match chars t with c :: _ => is_digit c | [] => false end && valid_number t
      && match k with TkFloat _ => contains_char "." t | _ => negb (contains_char "." t) end
  | TkString v => passes (fun c => negb (is_control c)) v
  | TkSymbol Equal | TkEof => false
  | TkSymbol _ | TkNewline => true
  end.

(** ** One token *)

Lemma pass_while_exact p w c r s : Forall (fun c => p c = true) w → p c = false → l_rest s = (w ++ c :: r)%list →
  ∃ s', pass_while p (w ++ c :: r)%list s = (text_of w, s') ∧ l_rest s' = c :: r ∧ l_tokens s' = l_tokens s.
Proof.
  intros Hw Hc. revert s. induction w as [|d w IH]; intros s Hr; cbn [app pass_while text_of].
  { rewrite Hc. by exists s. }
  pose proof (Forall_inv Hw) as Hd; cbn beta in Hd; apply Forall_inv_tail in Hw. rewrite Hd. destruct (IH Hw (advance s)) as (s' & -> & Hr' & Ht).
  { unfold advance. by rewrite Hr. }
  exists s'. split; [done|]. split; [done|]. rewrite Ht. unfold advance. by rewrite Hr.
Qed.

(** The lexer reads the token [k] and stands before the blank after it. *)
Definition reads (k : TokenKind) : Prop :=
  ∀ s r, l_rest s = (print_kind k ++ " " :: r)%list →
  ∃ c s' span, head (l_rest s) = Some c ∧ lex_one c s = Ok s' ∧ l_rest s' = " " :: r
    ∧ l_tokens s' = (l_tokens s ++ [mkToken k span])%list.

(** A scalar that a test tells from the given ones. *)
Lemma apart (p : Char → bool) c d : p c = true → p d = false → String.eqb c d = false.
Proof. intros Hc Hd. destruct (String.eqb_spec c d) as [->|]; [congruence|done]. Qed.

Lemma starts_apart (p : Char → bool) c d q s r : p c = true → p d = false → l_rest s = c :: r →
  starts (d :: q) s = false.
Proof.
  intros Hc Hd Hr. unfold starts. rewrite Hr. cbn. destruct (String.eqb_spec d c) as [->|]; [congruence|done].
Qed.

Lemma identifier_start_apart c : is_identifier_start c = true → is_digit c = false.
Proof.
  unfold is_identifier_start, is_digit, is_ascii. destruct c as [|a [|b c]]; try done.
  intros [Ha|Ha%String.eqb_eq]%orb_prop; [|injection Ha as ->; reflexivity].
  unfold is_ascii_alphabetic, is_ascii_digit in *. unfold in_range in *. lia.
Qed.

Lemma passes_spec p t : passes p t = true →
  Forall (fun c => p c = true) (chars t) ∧ Forall (fun c => is_char c = true) (chars t) ∧ text_of (chars t) = t.
Proof.
  unfold passes. intros [[H1 H2]%andb_prop H3%String.eqb_eq]%andb_prop.
  rewrite forallb_forall in H1, H2. split; [|split; [|done]]; apply Forall_forall; intros c Hc;
    by first [apply H1 | apply H2].
Qed.

Lemma lex_identifier c s : l_rest s = c :: l_rest (advance s) → is_identifier_start c = true →
  lex_one c s = Ok (identifier source revision_ reserved_words special_float_literals s).
Proof.
  intros Hr Hc. unfold Lexer.lex_one.
  rewrite !(apart is_identifier_start c) by done. cbn [orb].
  rewrite !(starts_apart is_identifier_start c _ _ s _ Hc) by done.
  rewrite (identifier_start_apart c Hc), Hc. done.
Qed.

Lemma lex_number c s : l_rest s = c :: l_rest (advance s) → is_digit c = true →
  lex_one c s = number source revision_ s.
Proof.
  intros Hr Hc. unfold Lexer.lex_one.
  rewrite !(apart is_digit c) by done. cbn [orb].
  rewrite !(starts_apart is_digit c _ _ s _ Hc) by done. by rewrite Hc.
Qed.

Lemma reads_word t : passes is_identifier_continue t = true →
  match chars t with c :: _ => is_identifier_start c | [] => false end = true →
  ∀ s r, l_rest s = (chars t ++ " " :: r)%list → ∃ c s' span, head (l_rest s) = Some c ∧ lex_one c s = Ok s'
    ∧ l_rest s' = " " :: r ∧ l_tokens s' = (l_tokens s ++ [mkToken (word_kind t) span])%list.
Proof.
  intros (Hf & _ & Ht)%passes_spec Hc s r Hr.
  destruct (pass_while_exact is_identifier_continue (chars t) " " r s Hf eq_refl Hr) as (s' & Hp & Hr' & Hk).
  destruct (chars t) as [|c w] eqn:Et; [done|].
  exists c, (push source revision_ (word_kind t) (position source revision_ s) s').
  exists (span_from source revision_ (position source revision_ s) s').
  rewrite Hr. split; [done|]. split; [|split; [done|cbn; by rewrite Hk]].
  rewrite lex_identifier; [|unfold advance; by rewrite Hr|done].
  unfold identifier, advance_while. rewrite Hr, Hp. by rewrite Ht.
Qed.

Lemma reads_number t : passes is_number_continue t = true →
  match chars t with c :: _ => is_digit c | [] => false end = true → valid_number t = true →
  ∀ s r, l_rest s = (chars t ++ " " :: r)%list → ∃ c s' span, head (l_rest s) = Some c ∧ lex_one c s = Ok s'
    ∧ l_rest s' = " " :: r
    ∧ l_tokens s' = (l_tokens s ++ [mkToken (if contains_char "." t then TkFloat t else TkInteger t) span])%list.
Proof.
  intros (Hf & _ & Ht)%passes_spec Hc Hv s r Hr.
  destruct (pass_while_exact is_number_continue (chars t) " " r s Hf eq_refl Hr) as (s' & Hp & Hr' & Hk).
  destruct (chars t) as [|c w] eqn:Et; [done|].
  exists c, (push source revision_ (if contains_char "." t then TkFloat t else TkInteger t)
              (position source revision_ s) s').
  exists (span_from source revision_ (position source revision_ s) s').
  rewrite Hr. split; [done|]. split; [|split; [done|cbn; by rewrite Hk]].
  rewrite lex_number; [|unfold advance; by rewrite Hr|done].
  unfold number, advance_while. rewrite Hr, Hp, Ht, Hv. done.
Qed.

Lemma string_loop_exact fuel start vs value s r : Forall (fun c => negb (is_control c) = true) vs →
  l_rest s = (flat_map escape vs ++ QUOTE :: r)%list → (length (l_rest s) <= fuel)%nat →
  ∃ s', string_loop source revision_ fuel start value s
        = Ok (push source revision_ (TkString (value +:+ text_of vs)) start s')
    ∧ l_rest s' = r ∧ l_tokens s' = l_tokens s.
Proof.
  revert fuel value s. induction vs as [|c vs IH]; intros fuel value s Hf Hr Hn.
  - cbn in Hr. rewrite Hr in Hn. destruct fuel as [|fuel]; [cbn in Hn; lia|]. cbn [string_loop text_of].
    unfold peek. rewrite Hr. cbn [head]. rewrite str_append_nil. exists (advance s). split; [done|].
    unfold advance. by rewrite Hr.
  - pose proof (Forall_inv Hf) as Hc. cbn beta in Hc. apply negb_true_iff in Hc. apply Forall_inv_tail in Hf.
    cbn [flat_map] in Hr. rewrite <- app_assoc in Hr. cbn [text_of]. rewrite <- str_append_assoc.
    assert (String.eqb c LF = false ∧ String.eqb c CR = false ∧ String.eqb c (char_at 127) = false) as (E1 & E2 & E3).
    { repeat split; apply (apart (fun c => negb (is_control c))); rewrite ?Hc; done. }
    assert (escape c = if String.eqb c QUOTE || String.eqb c BACKSLASH then [BACKSLASH; c] else [c]) as Ee by done.
    rewrite Ee in Hr. clear Ee. destruct (String.eqb c QUOTE || String.eqb c BACKSLASH) eqn:He; cbn [app] in Hr.
    + set (s2 := advance (advance s)).
      assert (l_rest s2 = (flat_map escape vs ++ QUOTE :: r)%list ∧ l_tokens s2 = l_tokens s) as [Hr2 Ht2].
      { subst s2. unfold advance. rewrite Hr. done. }
      rewrite Hr in Hn. destruct fuel as [|fuel]; [cbn in Hn; lia|].
      destruct (IH fuel (value +:+ c) s2 Hf Hr2) as (s' & Hs & Hr' & Ht'); [rewrite Hr2; cbn [length] in Hn; lia|].
      exists s'. split; [|split; [done|congruence]]. cbn [string_loop]. unfold peek. rewrite Hr. cbn [head].
      change (String.eqb BACKSLASH LF || String.eqb BACKSLASH CR) with false.
      change (String.eqb BACKSLASH QUOTE) with false. change (String.eqb BACKSLASH BACKSLASH) with true.
      cbn match. assert (l_rest (advance s) = c :: flat_map escape vs ++ QUOTE :: r)%list as -> by (unfold advance; by rewrite Hr).
      cbn [head]. rewrite He. exact Hs.
    + apply orb_false_iff in He as [He1 He2].
      assert (l_rest (advance s) = (flat_map escape vs ++ QUOTE :: r)%list ∧ l_tokens (advance s) = l_tokens s) as [Hr2 Ht2].
      { unfold advance. rewrite Hr. done. }
      rewrite Hr in Hn. destruct fuel as [|fuel]; [cbn in Hn; lia|].
      destruct (IH fuel (value +:+ c) (advance s) Hf Hr2) as (s' & Hs & Hr' & Ht'); [rewrite Hr2; cbn [length] in Hn; lia|].
      exists s'. split; [|split; [done|congruence]]. cbn [string_loop]. unfold peek. rewrite Hr. cbn [head].
      rewrite E1, E2, He1, He2, Hc, E3. exact Hs.
Qed.

Lemma reads_string v : passes (fun c => negb (is_control c)) v = true → reads (TkString v).
Proof.
  intros (Hf & _ & Ht)%passes_spec s r Hr. cbn [print_kind app] in Hr. rewrite <- app_assoc in Hr. cbn [app] in Hr.
  destruct (string_loop_exact (length (l_rest s)) (position source revision_ s) (chars v) "" (advance s) (" " :: r) Hf)
    as (s' & Hs & Hr' & Hk).
  { unfold advance. by rewrite Hr. }
  { unfold advance. rewrite Hr. cbn. lia. }
  exists QUOTE, (push source revision_ (TkString v) (position source revision_ s) s').
  exists (span_from source revision_ (position source revision_ s) s').
  rewrite Hr. split; [done|]. split; [|split; [done|cbn; rewrite Hk; unfold advance; by rewrite Hr]].
  unfold Lexer.lex_one. unfold starts. rewrite Hr. cbn -[string_].
  unfold string_. rewrite Hs. cbn. by rewrite Ht.
Qed.

Lemma reads_symbol k : lexical (TkSymbol k) = true → reads (TkSymbol k).
Proof.
  intros Hk s r. destruct s as [rest o li co ts]. cbn [l_rest]. intros ->.
  destruct k; try discriminate Hk; cbn [print_kind symbol_text app];
    eexists _, _, _; (split; [reflexivity|]); (split; [reflexivity|]); split; reflexivity.
Qed.

Lemma reads_newline : reads TkNewline.
Proof.
  intros s r. destruct s as [rest o li co ts]. cbn [l_rest]. intros ->. cbn [print_kind app].
  eexists _, _, _. split; [reflexivity|]. split; [reflexivity|]. split; reflexivity.
Qed.

Lemma lexical_reads k : lexical k = true → reads k.
Proof.
  destruct k as [t|t|t|v|t|t|k| |]; cbn [lexical].
  1,5,6: intros [[Hp Hc]%andb_prop Hk]%andb_prop s r Hr;
    destruct (reads_word t Hp Hc s r Hr) as (c & s' & span & H1 & H2 & H3 & H4);
    destruct (word_kind_cases reserved_words special_float_literals t) as [E|[E|E]];
    rewrite E in H4, Hk; try discriminate Hk; by exists c, s', span.
  1,2: intros [[[Hp Hc]%andb_prop Hv]%andb_prop Hd]%andb_prop s r Hr;
    destruct (reads_number t Hp Hc Hv s r Hr) as (c & s' & span & H1 & H2 & H3 & H4);
    destruct (contains_char "." t); try discriminate Hd; by exists c, s', span.
  - apply reads_string.
  - apply reads_symbol.
  - intros _. apply reads_newline.
  - done.
Qed.

(** ** Many tokens *)

Lemma loop_reads ks fuel s : forallb lexical ks = true → l_rest s = print ks → (length (l_rest s) <= fuel)%nat →
  ∃ s', lex_loop source revision_ reserved_words special_float_literals fuel s = Ok (finish source revision_ s')
    ∧ map t_kind (l_tokens s') = (map t_kind (l_tokens s) ++ ks)%list.
Proof.
  revert fuel s. induction ks as [|k ks IH]; intros fuel s Hk Hr Hn; cbn [print flat_map] in Hr.
  { exists s. rewrite app_nil_r. split; [|done]. destruct fuel; cbn [lex_loop]; unfold peek; by rewrite Hr. }
  cbn [forallb] in Hk. apply andb_prop in Hk as [Hk Hks]. rewrite <- app_assoc in Hr. cbn [app] in Hr.
  destruct (lexical_reads k Hk s _ Hr) as (c & s1 & span & Hc & H1 & Hr1 & Ht1).
  assert (length (print ks) + 2 <= length (l_rest s))%nat as Hlen.
  { rewrite Hr, length_app. cbn. rewrite Hr in Hc. destruct (print_kind k) eqn:E; [|cbn; unfold print; lia].
    exfalso. revert E Hk. clear. destruct k as [t|t|t|v|t|t|k| |]; cbn [print_kind lexical]; try done;
      try (intros ->; rewrite ?andb_false_r; done).
    destruct k; done. }
  destruct fuel as [|[|fuel]]; [lia|lia|].
  destruct (IH fuel (advance s1) Hks) as (s' & Hs & Ht).
  { unfold advance. by rewrite Hr1. }
  { unfold advance. rewrite Hr1. cbn. unfold print in *. lia. }
  exists s'. split.
  - cbn [lex_loop]. unfold peek. rewrite Hc, H1. cbn [mbind res_bind lex_loop]. unfold peek. rewrite Hr1. cbn [head].
    exact Hs.
  - rewrite Ht. unfold advance. rewrite Hr1. cbn. rewrite Ht1, map_app, <- app_assoc. done.
Qed.

Lemma print_kind_chars k : lexical k = true → Forall (fun c => is_char c = true) (print_kind k).
Proof.
  destruct k as [t|t|t|v|t|t|k| |]; cbn [lexical print_kind].
  1,5,6: intros [[(_ & Hc & _)%passes_spec _]%andb_prop _]%andb_prop; exact Hc.
  1,2: intros [[[(_ & Hc & _)%passes_spec _]%andb_prop _]%andb_prop _]%andb_prop; exact Hc.
  - intros (_ & Hc & _)%passes_spec. apply Forall_cons_2; [done|]. apply Forall_app_2.
    + induction Hc as [|c l Hc Hl IH]; [apply Forall_nil_2|]. cbn [flat_map]. apply Forall_app_2; [|exact IH].
      unfold escape. destruct (_ || _); repeat (apply Forall_cons_2; [done|]); apply Forall_nil_2.
    + apply Forall_cons_2; [done|apply Forall_nil_2].
  - intros _. destruct k; cbn; repeat (apply Forall_cons_2; [done|]); apply Forall_nil_2.
  - intros _. apply Forall_cons_2; [done|apply Forall_nil_2].
  - intros _. apply Forall_nil_2.
Qed.

Lemma print_chars ks : forallb lexical ks = true → chars (text_of (print ks)) = print ks.
Proof.
  intros Hk. apply chars_text. induction ks as [|k ks IH]; [apply Forall_nil_2|].
  cbn [forallb] in Hk. apply andb_prop in Hk as [Hk Hks]. cbn [print flat_map]. rewrite <- app_assoc.
  apply Forall_app_2; [by apply print_kind_chars|]. apply Forall_cons_2; [done|by apply IH].
Qed.
End Reading.

(** What the end of the source adds to the kinds of the tokens. *)
Definition closing_kinds (ks : list TokenKind) : list TokenKind :=
  match list.last ks with
  | None | Some TkNewline => [TkEof]
  | Some _ => [TkNewline; TkEof]
  end.

Lemma finish_kinds source revision s : map t_kind (finish source revision s)
  = (map t_kind (l_tokens s) ++ closing_kinds (map t_kind (l_tokens s)))%list.
Proof.
  unfold finish, closing_kinds. change (map t_kind (l_tokens s)) with (t_kind <$> l_tokens s). rewrite fmap_last.
  destruct (list.last (l_tokens s)) as [t|]; cbn; [destruct (t_kind t)|];
    cbn; rewrite ?map_app, <- ?app_assoc; done.
Qed.

Lemma lex_printed source revision reserved special ks :
  forallb (lexical reserved special) ks = true →
  ∃ ts, lex source revision reserved special (text_of (print ks)) = Ok ts
    ∧ map t_kind ts = (ks ++ closing_kinds ks)%list.
Proof.
  intros Hk. unfold lex, lexer_new. rewrite (print_chars reserved special ks Hk).
  destruct (loop_reads source revision reserved special ks (length (print ks)) (mkLexer (print ks) 0 1 1 []) Hk)
    as (s' & Hs & Ht); [done|done|].
  exists (finish source revision s'). split; [exact Hs|]. by rewrite finish_kinds, Ht.
Qed.

(** C7: Reading back printed tokens gives these tokens, and the newline and the end
    the source lacks: the lexer loses no token, splits none, joins no two, and
    takes none for another, whatever the reserved words are. *)
Theorem lex_print source revision reserved special ks :
  forallb (lexical reserved special) ks = true →
  ∃ ts, lex source revision reserved special (text_of (print ks)) = Ok ts
    ∧ map t_kind ts = (ks ++ closing_kinds ks)%list.
Proof. apply lex_printed. Qed.

(** A program of one line, with a text that holds a quote. *)
Definition sample_words : list string := ["AND"; "DIM"; "PRINT"; "WHILE"].
Definition sample_kinds : list TokenKind :=
  [TkKeyword "DIM"; TkIdentifier "x_1"; TkSymbol Assign; TkInteger "0x1F"; TkSymbol Power; TkFloat "2.5"; TkNewline;
   TkKeyword "PRINT"; TkString (QUOTE +:+ "a" +:+ BACKSLASH); TkSymbol Comma; TkSpecial "NAN"].

Lemma lex_print_witness : ∃ ts,
  lex 1 0 sample_words ["INF"; "NAN"] (text_of (print sample_kinds)) = Ok ts
  ∧ map t_kind ts = (sample_kinds ++ [TkNewline; TkEof])%list.
Proof. apply (lex_print 1 0 sample_words ["INF"; "NAN"] sample_kinds). vm_compute. reflexivity. Defined.

Lemma lex_covers_witness : ∃ ts ts0,
  lex 1 0 sample_words ["INF"; "NAN"] "PRINT /* a */ 1 // b" = Ok ts ∧ length ts = 4%nat
  ∧ covers 1 0 sample_words ["INF"; "NAN"] false (chars "PRINT /* a */ 1 // b") ts0
  ∧ ts = (ts0 ++ closing (position_after 1 0 (chars "PRINT /* a */ 1 // b")) ts0)%list.
Proof.
  destruct (lex 1 0 sample_words ["INF"; "NAN"] "PRINT /* a */ 1 // b") as [ts|e|w|] eqn:Hl;
    [|vm_compute in Hl; discriminate Hl..].
  destruct (lex_covers 1 0 sample_words ["INF"; "NAN"] _ ts Hl) as (ts0 & Hc & Ht).
  exists ts, ts0. split; [reflexivity|]. split; [vm_compute in Hl; by injection Hl as <-|]. by split.
Defined.
