(* ===== verification/Types.v ===== *)
(** * Types: the language's type identities ([crates/bn_types])

    [lib.rs] (types, widths, sizes), [alternatives.rs] (member codes),
    [pointers.rs] (pointer restoration and [IS POINTER TO] tests),
    [class_model.rs] (nominal subtyping), [literals.rs] (literal alternatives),
    [numeric_abi.rs] (element codes) and [text.rs] (canonical scalar text). *)

From S2P Require Import Prelude Text.

#[local] Open Scope string_scope.
#[local] Open Scope Z_scope.

(** ** Data *)

Inductive IntegerType := Byte | Int8 | Int16 | Int32 | Int64 | UInt16 | UInt32 | UInt64.
Inductive FloatType := Float32 | Float64.
Inductive PointerLength := PLOne | PLFixed (n : Z) | PLDynamic.

Definition ModuleId := Z.

(** [enum Type]; [T] prefixes keep the constructors apart from the values'. *)
Inductive BType :=
| TBoolean
| TInteger (k : IntegerType)
| TIntegerLiteral (text : string)
| TFloat (k : FloatType)
| TFloatLiteral
| TString
| TNull
| TNotAvailable
| TEndOfFile
| THostClock
| THostRandom
| THostConsole
| THostFileSystem
| THostNet
| THostExec
| THostEnv
| THostArgs
| TNamed (name : string)
| TTypeName (name : string)
| TImportedNamed (module : ModuleId) (name : string)
| TImportedTypeName (module : ModuleId) (name : string)
| TModule (module : ModuleId)
| TFunction (parameters : list BType) (return_type : BType)
| TVector (element : BType) (dimensions : list Z)
| TPointer (element : BType) (length : PointerLength)
| TAlternative (types : list BType)
| TUnknown.

#[global] Instance IntegerType_eq_dec : EqDecision IntegerType.
Proof. solve_decision. Defined.
#[global] Instance FloatType_eq_dec : EqDecision FloatType.
Proof. solve_decision. Defined.
#[global] Instance PointerLength_eq_dec : EqDecision PointerLength.
Proof. solve_decision. Defined.

(** A type with no type inside. *)
Definition type_leaf (t : BType) : bool :=
  match t with
  | TFunction _ _ | TVector _ _ | TPointer _ _ | TAlternative _ => false
  | _ => true
  end.

Section BType_ind'.
Variable P : BType → Prop.
Hypothesis Hfun : ∀ ps r, Forall P ps → P r → P (TFunction ps r).
Hypothesis Hvec : ∀ e d, P e → P (TVector e d).
Hypothesis Hptr : ∀ e l, P e → P (TPointer e l).
Hypothesis Halt : ∀ ts, Forall P ts → P (TAlternative ts).
Hypothesis Hleaf : ∀ t, type_leaf t = true → P t.

(** Induction through the nested lists of types. *)
Fixpoint BType_ind' (t : BType) : P t :=
  let all := fix all (l : list BType) : Forall P l :=
    match l with
    | [] => Forall_nil_2 P
    | t :: l => Forall_cons_2 P t l (BType_ind' t) (all l)
    end in
  match t with
  | TFunction ps r => Hfun ps r (all ps) (BType_ind' r)
  | TVector e d => Hvec e d (BType_ind' e)
  | TPointer e l => Hptr e l (BType_ind' e)
  | TAlternative ts => Halt ts (all ts)
  | t => Hleaf t eq_refl
  end.
End BType_ind'.

(** The derived [PartialEq]. *)
Fixpoint type_eqb (a b : BType) {struct a} : bool :=
  let list_eqb := fix list_eqb (l m : list BType) : bool :=
    match l, m with
    | [], [] => true
    | x :: l, y :: m => type_eqb x y && list_eqb l m
    | _, _ => false
    end in
  match a, b with
  | TBoolean, TBoolean | TFloatLiteral, TFloatLiteral | TString, TString
  | TNull, TNull | TNotAvailable, TNotAvailable | TEndOfFile, TEndOfFile
  | THostClock, THostClock | THostRandom, THostRandom | THostConsole, THostConsole
  | THostFileSystem, THostFileSystem | THostNet, THostNet | THostExec, THostExec
  | THostEnv, THostEnv | THostArgs, THostArgs | TUnknown, TUnknown => true
  | TInteger k, TInteger k' => bool_decide (k = k')
  | TFloat k, TFloat k' => bool_decide (k = k')
  | TIntegerLiteral s, TIntegerLiteral s' | TNamed s, TNamed s'
  | TTypeName s, TTypeName s' => bool_decide (s = s')
  | TImportedNamed m s, TImportedNamed m' s'
  | TImportedTypeName m s, TImportedTypeName m' s' => (m =? m') && bool_decide (s = s')
  | TModule m, TModule m' => m =? m'
  | TFunction ps r, TFunction ps' r' => list_eqb ps ps' && type_eqb r r'
  | TVector e d, TVector e' d' => type_eqb e e' && bool_decide (d = d')
  | TPointer e l, TPointer e' l' => type_eqb e e' && bool_decide (l = l')
  | TAlternative ts, TAlternative ts' => list_eqb ts ts'
  | _, _ => false
  end.

Lemma type_eqb_spec a b : type_eqb a b = true ↔ a = b.
Proof.
  revert b. induction a as [ps r IHps IHr|e d IH|e l IH|ts IHts|t Ht] using BType_ind'.
  - intros b. destruct b as [| | | | | | | | | | | | | | | | | | | | | |ps' r'| | | |]; try by split.
    simpl. rewrite andb_true_iff, IHr.
    assert (∀ ps', (fix list_eqb (l m : list BType) : bool :=
      match l, m with
      | [], [] => true
      | x :: l0, y :: m0 => type_eqb x y && list_eqb l0 m0
      | _, _ => false
      end) ps ps' = true ↔ ps = ps') as Hl.
    { clear -IHps. induction IHps as [|x l Hx _ IH]; intros [|y m]; try by split.
      rewrite andb_true_iff, Hx, IH. split; [by intros [-> ->] | by intros [= -> ->]]. }
    rewrite Hl. split; [by intros [-> ->] | by intros [= -> ->]].
  - intros b. destruct b; try by split.
    simpl. rewrite andb_true_iff, IH, bool_decide_eq_true.
    split; [by intros [-> ->] | by intros [= -> ->]].
  - intros b. destruct b; try by split.
    simpl. rewrite andb_true_iff, IH, bool_decide_eq_true.
    split; [by intros [-> ->] | by intros [= -> ->]].
  - intros b. destruct b; try by split. simpl.
    revert types. induction IHts as [|x l Hx _ IH]; intros [|y m]; try by split.
    rewrite andb_true_iff, Hx, IH. split; [by intros [-> [= ->]] | by intros [= -> ->]].
  - destruct t; try discriminate Ht; intros b; destruct b; try by split; simpl;
      rewrite ?andb_true_iff, ?bool_decide_eq_true, ?Z.eqb_eq;
      naive_solver.
Qed.

#[global] Instance BType_eq_dec : EqDecision BType.
Proof.
  intros a b. destruct (type_eqb a b) eqn:E.
  - left. by apply type_eqb_spec.
  - right. intros ->. assert (type_eqb b b = true) by by apply type_eqb_spec. congruence.
Defined.

(** ** Widths, names and sizes ([lib.rs]) *)

Definition width (k : IntegerType) : Z :=
  match k with
  | Byte | Int8 => 8
  | Int16 | UInt16 => 16
  | Int32 | UInt32 => 32
  | Int64 | UInt64 => 64
  end.

Definition import_test_matches (module : ModuleId) (name test : string) : bool :=
  String.eqb test name || String.eqb test ("#" +:+ dec_of_Z module +:+ "." +:+ name).

Definition scalar_test_type (test : string) : option BType :=
  match test with
  | "INTEGER" | "INT32" => Some (TInteger Int32)
  | "BYTE" => Some (TInteger Byte)
  | "INT8" => Some (TInteger Int8)
  | "INT16" => Some (TInteger Int16)
  | "INT64" | "TIMESTAMP" => Some (TInteger Int64)
  | "UINT16" => Some (TInteger UInt16)
  | "UINT32" => Some (TInteger UInt32)
  | "UINT64" => Some (TInteger UInt64)
  | "FLOAT" | "FLOAT64" => Some (TFloat Float64)
  | "FLOAT32" => Some (TFloat Float32)
  | "BOOLEAN" => Some TBoolean
  | "STRING" => Some TString
  | _ => None
  end.

Definition operator_spelling (operator : string) : string :=
  match operator with
  | "Percent" => "%" | "Slash" => "/" | "Plus" => "+" | "Minus" => "-"
  | "Star" => "*" | "Power" => "**" | "Assign" => "=" | "NotEqual" => "<>"
  | "Less" => "<" | "LessEqual" => "<=" | "Greater" => ">" | "GreaterEqual" => ">="
  | other => other
  end.

Definition integer_type_name (k : IntegerType) : string :=
  match k with
  | Byte => "BYTE" | Int8 => "INT8" | Int16 => "INT16" | Int32 => "INT32"
  | Int64 => "INT64" | UInt16 => "UINT16" | UInt32 => "UINT32" | UInt64 => "UINT64"
  end.

Definition integer_byte_size (k : IntegerType) : Z :=
  match k with
  | Byte | Int8 => 1
  | Int16 | UInt16 => 2
  | Int32 | UInt32 => 4
  | Int64 | UInt64 => 8
  end.

(** [iter().try_fold(1u64, |p, d| p.checked_mul(d))] *)
Fixpoint checked_product (acc : Z) (ds : list Z) : option Z :=
  match ds with
  | [] => Some acc
  | d :: ds => p ← u64_checked_mul acc d; checked_product p ds
  end.

Definition dimension_product (dimensions : list Z) : option Z :=
  if existsb (Z.eqb u64_MAX) dimensions then None
  else checked_product 1 dimensions.

Fixpoint static_size_of (ty : BType) : option Z :=
  match ty with
  | TBoolean => Some 1
  | TInteger k => Some (integer_byte_size k)
  | TIntegerLiteral _ | TFloat Float32 => Some 4
  | TFloat Float64 | TFloatLiteral => Some 8
  | TNamed name =>
      if String.eqb name "DATE" || String.eqb name "TIME" then Some 4 else None
  | TVector element dimensions =>
      element ← static_size_of element;
      product ← dimension_product dimensions;
      u64_checked_mul product element
  | _ => None
  end.

(** ** Member codes ([alternatives.rs]) *)

Definition OBJECT : Z := 32.
Definition FUNCTION : Z := 33.
Definition VECTOR : Z := 256.
Definition POINTER : Z := 512.

Definition named_code (name : string) : Z :=
  match name with
  | "Error" => 16
  | "DATE" => 17
  | "TIME" => 18
  | "TIMEZONE" => 19
  | _ => OBJECT
  end.

Definition integer_code (k : IntegerType) : Z :=
  match k with
  | Byte => 1 | Int8 => 2 | Int16 => 3 | Int32 => 4
  | Int64 => 5 | UInt16 => 6 | UInt32 => 7 | UInt64 => 8
  end.

Fixpoint member_code (member : BType) : option Z :=
  (* [element_code]: an element's code fits below [VECTOR]. *)
  let element_code (element : BType) :=
    code ← member_code element; if code <? VECTOR then Some code else None in
  match member with
  | TInteger k => Some (integer_code k)
  | TFloat Float32 => Some 9
  | TFloat Float64 => Some 10
  | TBoolean => Some 11
  | TString => Some 12
  | TNull => Some 13
  | TNotAvailable => Some 14
  | TEndOfFile => Some 15
  | TNamed name | TTypeName name => Some (named_code name)
  | TImportedNamed _ name | TImportedTypeName _ name =>
      Some (if String.eqb name "Error" then 16 else OBJECT)
  | TFunction _ _ => Some FUNCTION
  | TVector element _ => code ← element_code element; Some (VECTOR + code)
  | TPointer element _ => code ← element_code element; Some (POINTER + code)
  | _ => None
  end.

(** ** Pointer restoration and [IS POINTER TO] ([pointers.rs]) *)

Inductive RestoreCheck := RestoreOk | TypeMismatch | LengthMismatch.

Definition check_restore (from_code from_len to_code : Z) (to_len : option Z) : RestoreCheck :=
  if negb (from_code =? to_code) then TypeMismatch
  else match to_len with
       | Some expected => if negb (from_len =? expected) then LengthMismatch else RestoreOk
       | None => RestoreOk
       end.

Record PointerIsTest := mkPointerIsTest {
  pit_void : bool;
  pit_element : BType;
  pit_length : PointerLength;
}.

Definition is_bracket (c : string) : bool := String.eqb c "[" || String.eqb c "]".

(** [compact_pointer_test]'s loop over the scalars: [previous] is the last
    scalar that is not a white space. *)
Fixpoint compact_loop (previous : option string) (compact : string) (cs : list string) : string :=
  match cs with
  | [] => compact
  | c :: cs =>
      if is_whitespace c then
        let next := List.find (fun d => negb (is_whitespace d)) cs in
        let near := match previous with Some p => is_bracket p | None => false end
                    || match next with Some n => is_bracket n | None => false end in
        if near then compact_loop previous compact cs
        else if ends_with " " compact then compact_loop previous compact cs
        else compact_loop previous (compact +:+ " ") cs
      else compact_loop (Some c) (compact +:+ c) cs
  end.

Definition compact_pointer_test (test : string) : string :=
  let spelled := str_replace "RightBracket" "]" (str_replace "LeftBracket" "[" test) in
  compact_loop None "" (chars spelled).

Definition parse_u64 (s : string) : option Z := from_str_radix 0 u64_MAX 10 s.
Definition all_digits (s : string) : bool := forallb is_ascii_digit (str_bytes s).

(** The element's name and the length of a compact [rest]. *)
Definition parse_pointer_element (rest : string) : option (string * PointerLength) :=
  match strip_suffix "[]" rest with
  | Some name => Some (name, PLDynamic)
  | None =>
      let bracketed :=
        '(name, bracket) ← rsplit_once "["%char rest;
        number ← strip_suffix "]" bracket;
        if negb (String.eqb name "") && negb (String.eqb number "") && all_digits number
        then Some (name, number) else None in
      match bracketed with
      | Some (name, number) => n ← parse_u64 number; Some (name, PLFixed n)
      | None => if contains_char "["%char rest then None else Some (rest, PLOne)
      end
  end.

Definition parse_pointer_is (test : string) : option PointerIsTest :=
  rest ← strip_prefix "POINTER" (compact_pointer_test test);
  rest ← strip_prefix " TO " rest;
  if String.eqb rest "" then None
  else if String.eqb rest "VOID" then
    Some (mkPointerIsTest true (TNamed "VOID") PLDynamic)
  else
    '(name, length) ← parse_pointer_element rest;
    if String.eqb name "" then None
    else Some (mkPointerIsTest false (default (TNamed name) (scalar_test_type name)) length).

Definition pointer_is_holds (from_code from_len : Z) (test : string) : option bool :=
  spec ← parse_pointer_is test;
  if pit_void spec then Some true
  else
    let to_code := default u32_MAX (member_code (pit_element spec)) in
    let to_len := match pit_length spec with
                  | PLFixed n => Some n
                  | PLOne => Some 1
                  | PLDynamic => None
                  end in
    Some (match check_restore from_code from_len to_code to_len with
          | RestoreOk => true
          | _ => false
          end).

Definition elements_match (element : BType) (spec : PointerIsTest) : bool :=
  if bool_decide (element = pit_element spec) then true
  else
    match pit_element spec with
    | TNamed test_name | TTypeName test_name =>
        match element with
        | TImportedNamed module name | TImportedTypeName module name =>
            import_test_matches module name test_name
        | _ => false
        end
    | _ => false
    end.

Definition pointer_member_matches (member : BType) (test : string) : bool :=
  match member with
  | TPointer element length =>
      match parse_pointer_is test with
      | None => false
      | Some spec =>
          if pit_void spec then
            match element with TNamed name => String.eqb name "VOID" | _ => false end
          else bool_decide (length = pit_length spec) && elements_match element spec
      end
  | _ => false
  end.

Definition pointer_element_matches (member : BType) (test : string) : bool :=
  match member with
  | TPointer element _ =>
      match parse_pointer_is test with
      | None => false
      | Some spec => negb (pit_void spec) && elements_match element spec
      end
  | _ => false
  end.
