(* ===== verification/ClassModel.v ===== *)
(** * ClassModel: nominal subtyping ([crates/bn_types/src/class_model.rs])

    The inheritance walk [ancestors] and the test [is_upcast], with the
    equivalence to the reflexive transitive closure of the declared bases. *)

From stdpp Require Import relations.
From S2P Require Import Prelude.

#[local] Open Scope string_scope.
#[local] Open Scope Z_scope.

Record ClassModel := mkClassModel {
  bases : gmap string string;
  interfaces : gmap string (gset string);
}.

Definition class_model_new : ClassModel := mkClassModel ∅ ∅.

Definition add_base (class_name base_name : string) (m : ClassModel) : ClassModel :=
  mkClassModel (<[class_name := base_name]> (bases m)) (interfaces m).

Definition add_interface (class_name interface_name : string) (m : ClassModel) : ClassModel :=
  mkClassModel (bases m)
    (<[class_name := {[interface_name]} ∪ default ∅ (interfaces m !! class_name)]>
       (interfaces m)).

(** The [while let Some(cls) = current] loop; [visited] is its cycle guard.
    One unit of fuel is one iteration. *)
Fixpoint ancestors_loop (m : ClassModel) (fuel : nat) (visited : gset string) (cls : string)
    : list string :=
  match fuel with
  | O => []
  | S fuel =>
      if decide (cls ∈ visited) then []
      else cls :: match bases m !! cls with
                  | Some base => ancestors_loop m fuel ({[cls]} ∪ visited) base
                  | None => []
                  end
  end.

(** A walk pushes at most every class with a base and one class without. *)
Definition ancestors (m : ClassModel) (class_name : string) : list string :=
  ancestors_loop m (S (size (bases m))) ∅ class_name.

Definition implements (m : ClassModel) (class iface : string) : bool :=
  match interfaces m !! class with
  | Some ifaces => bool_decide (iface ∈ ifaces)
  | None => false
  end.

Definition is_upcast (m : ClassModel) (source target : string) : bool :=
  if bool_decide (source = target) then true
  else existsb (fun a => bool_decide (a = target) || implements m a target)
         (ancestors m source).

(** ** Specification *)

(** [base_of m c b]: [c] directly extends [b]. *)
Definition base_of (m : ClassModel) (c b : string) : Prop := bases m !! c = Some b.

(** [c] is [t], extends it through any number of bases, or has a base (itself
    included) that implements the interface [t]. *)
Definition subtype (m : ClassModel) (c t : string) : Prop :=
  ∃ a, rtc (base_of m) c a ∧ (a = t ∨ implements m a t = true).

Section Facts.
Context (m : ClassModel).

Lemma ancestors_loop_sound fuel visited cls a :
  a ∈ ancestors_loop m fuel visited cls → rtc (base_of m) cls a.
Proof.
  revert visited cls. induction fuel as [|fuel IH]; intros visited cls; simpl.
  - by intros ?%not_elem_of_nil.
  - case_decide; [by intros ?%not_elem_of_nil|].
    intros [->|Ha]%elem_of_cons; [done|].
    destruct (bases m !! cls) as [b|] eqn:Hb; [|by apply not_elem_of_nil in Ha].
    eapply rtc_l; [exact Hb | by eapply IH].
Qed.

Lemma ancestors_loop_not_visited fuel visited cls a :
  a ∈ ancestors_loop m fuel visited cls → a ∉ visited.
Proof.
  revert visited cls. induction fuel as [|fuel IH]; intros visited cls; simpl.
  - by intros ?%not_elem_of_nil.
  - case_decide; [by intros ?%not_elem_of_nil|].
    intros [->|Ha]%elem_of_cons; [done|].
    destruct (bases m !! cls) as [b|] eqn:Hb; [|by apply not_elem_of_nil in Ha].
    apply IH in Ha. set_solver.
Qed.

Lemma ancestors_loop_NoDup fuel visited cls : NoDup (ancestors_loop m fuel visited cls).
Proof.
  revert visited cls. induction fuel as [|fuel IH]; intros visited cls; simpl.
  - constructor.
  - case_decide; [constructor|].
    destruct (bases m !! cls) as [b|]; [|by apply NoDup_singleton].
    constructor; [|apply IH].
    intros Hin%ancestors_loop_not_visited. set_solver.
Qed.

(** With more fuel than unvisited classes that have a base, the walk ends by
    itself: its result is closed under [base_of]. *)
Lemma ancestors_loop_closed fuel visited cls :
  (size (dom (bases m) ∖ visited) < fuel)%nat →
  ∀ x y, x ∈ ancestors_loop m fuel visited cls → base_of m x y →
    y ∈ ancestors_loop m fuel visited cls ∨ y ∈ visited.
Proof.
  revert visited cls. induction fuel as [|fuel IH]; intros visited cls Hf x y; [lia|].
  simpl. case_decide as Hv; [by intros ?%not_elem_of_nil|].
  intros Hx Hxy. destruct (bases m !! cls) as [b|] eqn:Hb.
  - assert (size (dom (bases m) ∖ ({[cls]} ∪ visited)) < fuel)%nat as Hf'.
    { assert (dom (bases m) ∖ ({[cls]} ∪ visited) ⊂ dom (bases m) ∖ visited) as Hs.
      { apply strict_spec_alt. split; [set_solver|].
        intros Heq. assert (cls ∈ dom (bases m) ∖ visited) as Hin.
        { apply elem_of_difference. split; [by apply elem_of_dom_2 in Hb | done]. }
        rewrite <- Heq in Hin. set_solver. }
      apply subset_size in Hs. lia. }
    assert (y ∈ ancestors_loop m fuel ({[cls]} ∪ visited) b ∨ y ∈ {[cls]} ∪ visited) as Hy.
    { apply elem_of_cons in Hx as [->|Hx].
      - unfold base_of in Hxy. rewrite Hb in Hxy. injection Hxy as <-.
        destruct fuel as [|fuel]; [lia|]. simpl.
        case_decide; [by right|]. left. by apply elem_of_cons; left.
      - by eapply IH. }
    rewrite elem_of_cons. set_solver.
  - apply elem_of_cons in Hx as [->|Hx]; [|by apply not_elem_of_nil in Hx].
    unfold base_of in Hxy. congruence.
Qed.

Lemma elem_of_ancestors c a : a ∈ ancestors m c ↔ rtc (base_of m) c a.
Proof.
  split; [apply ancestors_loop_sound|].
  intros Hr.
  assert (c ∈ ancestors m c) as Hc.
  { unfold ancestors. simpl. case_decide; [set_solver | by left]. }
  revert Hc. pattern c at 2. revert Hr.
  assert (∀ x, rtc (base_of m) x a → x ∈ ancestors m c → a ∈ ancestors m c) as H.
  { intros x Hr. induction Hr as [x|x y z Hxy _ IH]; intros Hx; [done|].
    apply IH. unfold ancestors in *.
    destruct (ancestors_loop_closed (S (size (bases m))) ∅ c) with x y as [?|?];
      [|done|done|done|set_solver].
    rewrite difference_empty_L, size_dom. lia. }
  intros Hr Hc. by eapply H.
Qed.

Lemma ancestors_NoDup c : NoDup (ancestors m c).
Proof. apply ancestors_loop_NoDup. Qed.

Lemma ancestors_head c : ∃ rest, ancestors m c = c :: rest.
Proof. unfold ancestors. simpl. case_decide; [set_solver | eauto]. Qed.

Lemma existsb_elem {A} (f : A → bool) l : existsb f l = true ↔ ∃ x, x ∈ l ∧ f x = true.
Proof. rewrite existsb_exists. by setoid_rewrite list_elem_of_In. Qed.

Lemma is_upcast_subtype c t : is_upcast m c t = true ↔ subtype m c t.
Proof.
  unfold is_upcast, subtype. case_bool_decide as He.
  - subst. split; [|done]. intros _. exists t. split; [done | by left].
  - rewrite existsb_elem. setoid_rewrite elem_of_ancestors.
    split; intros (a & Hr & Ha); exists a; (split; [done|]).
    + apply orb_true_iff in Ha as [Ha%bool_decide_eq_true|Ha]; auto.
    + apply orb_true_iff. destruct Ha as [->|Ha]; [left; by apply bool_decide_eq_true | auto].
Qed.
End Facts.

(** ** Properties *)

(** The inheritance walk lists exactly the classes reached from [c] through
    declared bases, each once and [c] first; a cyclic declaration is no
    exception, since the walk stops at the first class it meets again. *)
Theorem ancestors_spec (m : ClassModel) (c a : string) :
  (a ∈ ancestors m c ↔ rtc (base_of m) c a)
  ∧ NoDup (ancestors m c)
  ∧ head (ancestors m c) = Some c.
Proof.
  split; [apply elem_of_ancestors|]. split; [apply ancestors_NoDup|].
  destruct (ancestors_head m c) as [rest ->]. done.
Qed.

(** [is_upcast] decides nominal subtyping, and it is a preorder along declared
    bases: every class upcasts to itself, and a class upcasts to whatever a
    base of it upcasts to. *)
Theorem is_upcast_spec (m : ClassModel) (c t : string) :
  (is_upcast m c t = true ↔ subtype m c t)
  ∧ is_upcast m c c = true
  ∧ (∀ b, rtc (base_of m) c b → is_upcast m b t = true → is_upcast m c t = true).
Proof.
  split; [apply is_upcast_subtype|]. split.
  - unfold is_upcast. by rewrite bool_decide_eq_true_2.
  - intros b Hcb (a & Hba & Ha)%is_upcast_subtype. apply is_upcast_subtype.
    exists a. split; [by etrans | done].
Qed.

(** The unit tests of the source file. *)
Example cycle_guard :
  let m := add_base "B" "A" (add_base "A" "B" class_model_new) in
  ancestors m "A" = ["A"; "B"] ∧ is_upcast m "A" "B" = true
  ∧ is_upcast m "A" "Unrelated" = false.
Proof. vm_compute. done. Qed.

Example interface_on_base :
  let m := add_interface "Base" "Shape" (add_base "Sub" "Mid" (add_base "Mid" "Base" class_model_new)) in
  is_upcast m "Sub" "Shape" = true ∧ ancestors m "Sub" = ["Sub"; "Mid"; "Base"].
Proof. vm_compute. done. Qed.
