(* ===== verification/Rooted.v ===== *)
(** * Rooted: files below a pinned directory ([crates/bn_rt/src/secure_fs.rs], [secure_fs_entries.rs], on Unix)

    The rooted walk of a filesystem policy: paths are split into components,
    matched against the path of a root, and followed component by component
    from the descriptor of the root.  An operation is a tree of the calls it
    makes to the operating system ([Prog]); the answers are those of whatever
    kernel runs it, other processes changing the files meanwhile. *)

From S2P Require Import Prelude Text.

#[local] Open Scope string_scope.
#[local] Open Scope Z_scope.

(** ** Paths ([std::path] on Unix) *)

Inductive Component := RootDir | ParentDir | CurDir | Normal (name : string).
#[export] Instance Component_eq_dec : EqDecision Component.
Proof. solve_decision. Defined.

Definition part_component (part : string) : option Component :=
  if String.eqb part "" || String.eqb part "." then None
  else if String.eqb part ".." then Some ParentDir else Some (Normal part).

(** [Path::components] *)
Definition components (path : string) : list Component :=
  let parts := split "/" path in
  let body := omap part_component parts in
  if starts_with "/" path then RootDir :: body
  else match parts with part :: _ => if String.eqb part "." then CurDir :: body else body | [] => body end.

(** [Path::strip_prefix] *)
Fixpoint strip_components (prefix path : list Component) : option (list Component) :=
  match prefix, path with
  | [], _ => Some path
  | c :: prefix, d :: path => if bool_decide (c = d) then strip_components prefix path else None
  | _ :: _, [] => None
  end.

(** [Path::parent] and [Path::file_name] *)
Definition parent_components (path : list Component) : option (list Component) :=
  match list.last path with None | Some RootDir => None | Some _ => Some (removelast path) end.
Definition file_name (path : list Component) : option string :=
  match list.last path with Some (Normal name) => Some name | _ => None end.

(** ** The operating system *)

Inductive Errno := ENOENT | EEXIST | ENOTDIR | ENOTEMPTY | EXDEV | ELOOP | EACCES | EINTR | EOTHER (code : Z).

Inductive Flag :=
| O_WRONLY | O_CREAT | O_TRUNC | O_APPEND | O_EXCL | O_DIRECTORY | O_NOFOLLOW | O_NONBLOCK | O_CLOEXEC.
#[export] Instance Flag_eq_dec : EqDecision Flag.
Proof. solve_decision. Defined.

Inductive EntryKind := KFile | KDirectory | KSymlink | KOther.
#[export] Instance EntryKind_eq_dec : EqDecision EntryKind.
Proof. solve_decision. Defined.

(** The calls, with the type of their answers.  A descriptor stands for the
    file or directory it was opened on; device and inode are its identity. *)
Inductive Call (Fd : Type) : Type → Type :=
| GetCwd : Call Fd (Errno + string)
| Dup (d : Fd) : Call Fd (Errno + Fd)
| OpenAt (d : Fd) (name : string) (flags : list Flag) (mode : Z) : Call Fd (Errno + Fd)
| MkdirAt (d : Fd) (name : string) (mode : Z) : Call Fd (Errno + unit)
| UnlinkAt (d : Fd) (name : string) (directory : bool) : Call Fd (Errno + unit)
| StatAt (d : Fd) (name : string) : Call Fd (Errno + Z)
| RenameAt (d : Fd) (name : string) (d' : Fd) (name' : string) : Call Fd (Errno + unit)
| Fchdir (d : Fd) : Call Fd (Errno + unit)
| Fchmod (d : Fd) (mode : Z) : Call Fd (Errno + unit)
| Fstat (d : Fd) : Call Fd (Errno + (Z * (Z * Z)))
| OpenPath (path : list Component) (flags : list Flag) : Call Fd (Errno + Fd)
| UnlinkPath (path : list Component) : Call Fd (Errno + unit)
| MkdirsPath (path : list Component) : Call Fd (Errno + unit)
| StatPath (path : list Component) : Call Fd (Errno + (Z * (Z * Z)))
| Canonicalize (path : list Component) : Call Fd (Errno + list Component)
| CopyData (d d' : Fd) : Call Fd (Errno + unit)
| SyncAll (d : Fd) : Call Fd (Errno + unit).
Arguments GetCwd {Fd}.
Arguments Dup {Fd} d.
Arguments OpenAt {Fd} d name flags mode.
Arguments MkdirAt {Fd} d name mode.
Arguments UnlinkAt {Fd} d name directory.
Arguments StatAt {Fd} d name.
Arguments RenameAt {Fd} d name d' name'.
Arguments Fchdir {Fd} d.
Arguments Fchmod {Fd} d mode.
Arguments Fstat {Fd} d.
Arguments OpenPath {Fd} path flags.
Arguments UnlinkPath {Fd} path.
Arguments MkdirsPath {Fd} path.
Arguments StatPath {Fd} path.
Arguments Canonicalize {Fd} path.
Arguments CopyData {Fd} d d'.
Arguments SyncAll {Fd} d.

(** [io::Error]: of the system, a refusal of the policy ([PolicyRefusal]), or
    made by the code. *)
Inductive IoError :=
| Os (e : Errno)
| Refusal (message : string)
| InvalidInput (message : string)
| InvalidData (message : string)
| AlreadyExists
| NotPrivate (message : string).

Inductive ErrorKind :=
| NotFound | KindAlreadyExists | NotADirectory | DirectoryNotEmpty | CrossesDevices | PermissionDenied
| KindInvalidInput | KindInvalidData | Interrupted | KindOther.
#[export] Instance ErrorKind_eq_dec : EqDecision ErrorKind.
Proof. solve_decision. Defined.

(** [io::Error::kind] *)
Definition error_kind (e : IoError) : ErrorKind :=
  match e with
  | Os ENOENT => NotFound
  | Os EEXIST | AlreadyExists => KindAlreadyExists
  | Os ENOTDIR => NotADirectory
  | Os ENOTEMPTY => DirectoryNotEmpty
  | Os EXDEV => CrossesDevices
  | Os EACCES | Refusal _ | NotPrivate _ => PermissionDenied
  | Os ELOOP | Os (EOTHER _) => KindOther
  | InvalidInput _ => KindInvalidInput
  | InvalidData _ => KindInvalidData
  | Os EINTR => Interrupted
  end.

Definition denied (message : string) : IoError := Refusal message.
Definition is_policy_refusal (e : IoError) : bool := match e with Refusal _ => true | _ => false end.

(** A computation that makes calls. *)
Inductive Prog (Fd A : Type) : Type :=
| Done (r : res IoError A)
| Ask {X : Type} (c : Call Fd X) (k : X → Prog Fd A).
Arguments Done {Fd A} r.
Arguments Ask {Fd A X} c k.

Fixpoint prog_bind {Fd A B} (f : A → Prog Fd B) (p : Prog Fd A) : Prog Fd B :=
  match p with
  | Done (Ok a) => f a
  | Done (Err e) => Done (Err e)
  | Done (Panic w) => Done (Panic w)
  | Done Fuel => Done Fuel
  | Ask c k => Ask c (fun x => prog_bind f (k x))
  end.
#[export] Instance Prog_bind {Fd} : MBind (Prog Fd) := fun A B => @prog_bind Fd A B.
#[export] Instance Prog_ret {Fd} : MRet (Prog Fd) := fun A a => Done (Ok a).

(** The error as a value. *)
Fixpoint attempt {Fd A} (p : Prog Fd A) : Prog Fd (IoError + A) :=
  match p with
  | Done (Ok a) => Done (Ok (inr a))
  | Done (Err e) => Done (Ok (inl e))
  | Done (Panic w) => Done (Panic w)
  | Done Fuel => Done Fuel
  | Ask c k => Ask c (fun x => attempt (k x))
  end.

Section Operations.
Context {Fd : Type}.
#[local] Abbreviation Prog := (Prog Fd).

Definition fails {A} (e : IoError) : Prog A := Done (Err e).
(** A call whose error is reported as it is. *)
Definition os {A} (c : Call Fd (Errno + A)) : Prog A :=
  Ask c (fun r => Done (match r with inl e => Err (Os e) | inr a => Ok a end)).

Definition traversal_error (e : Errno) : IoError :=
  match e with ELOOP | ENOTDIR => denied "filesystem path traverses a symlink" | _ => Os e end.
(** A call of the walk. *)
Definition traverse {A} (c : Call Fd (Errno + A)) : Prog A :=
  Ask c (fun r => Done (match r with inl e => Err (traversal_error e) | inr a => Ok a end)).

(** [std::path::absolute] *)
Definition absolute (path : string) : Prog (list Component) :=
  if String.eqb path "" then fails (InvalidInput "cannot make an empty path absolute")
  else
    let body := filter (fun c => c ≠ CurDir) (components path) in
    if starts_with "/" path then Done (Ok body)
    else cwd ← os GetCwd; Done (Ok (components cwd ++ body)%list).

Record RootedDir := mkRooted {
  path : list Component;
  canonical_path : list Component;
  directory : Fd;
}.

(** [st_mode] *)
Definition S_IFMT : Z := 61440.
Definition S_IFREG : Z := 32768.
Definition S_IFDIR : Z := 16384.
Definition S_IFLNK : Z := 40960.
Definition kind_of_mode (mode : Z) : EntryKind :=
  let format := Z.land mode S_IFMT in
  if format =? S_IFREG then KFile else if format =? S_IFDIR then KDirectory
  else if format =? S_IFLNK then KSymlink else KOther.

Definition NOT_A_DIRECTORY : string := "filesystem policy root is not a directory".

(** [RootedDir::new] *)
Definition rooted_new (root : string) : Prog RootedDir :=
  configured_path ← absolute root;
  canonical_path ← os (Canonicalize configured_path);
  status ← attempt (os (StatPath canonical_path));
  match status with
  | inr (mode, _) =>
      if bool_decide (kind_of_mode mode = KDirectory) then
        '(_, expected) ← os (StatPath canonical_path);
        directory ← os (OpenPath canonical_path [O_CLOEXEC; O_DIRECTORY; O_NOFOLLOW]);
        '(_, actual) ← os (Fstat directory);
        if bool_decide (expected = actual) then Done (Ok (mkRooted configured_path canonical_path directory))
        else fails (denied "filesystem policy root changed while it was opened")
      else fails (InvalidInput NOT_A_DIRECTORY)
  | inl _ => fails (InvalidInput NOT_A_DIRECTORY)
  end.

Definition leaves (c : Component) : bool := match c with ParentDir | RootDir => true | _ => false end.

(** The part of an absolute path below the root. *)
Definition relative_to (root : RootedDir) (absolute : list Component) : res IoError (list Component) :=
  match strip_components (path root) absolute, strip_components (canonical_path root) absolute with
  | Some relative, _ | None, Some relative =>
      if bool_decide (relative = []) || existsb leaves relative then
        Err (denied "filesystem path contains invalid traversal")
      else Ok relative
  | None, None => Err (denied "filesystem path is outside the configured root")
  end.
Definition relative (root : RootedDir) (name : string) : Prog (list Component) :=
  absolute_path ← absolute name; Done (relative_to root absolute_path).

Definition is_root (root : RootedDir) (name : string) : Prog bool :=
  absolute_path ← absolute name;
  Done (Ok (bool_decide (absolute_path = path root) || bool_decide (absolute_path = canonical_path root))).

Definition contains (root : RootedDir) (name : string) : Prog bool :=
  found ← attempt (relative root name); Done (Ok (match found with inr _ => true | inl _ => false end)).

Definition covers (root : RootedDir) (name : string) : Prog bool :=
  inside ← contains root name;
  if inside : bool then Done (Ok true)
  else found ← attempt (is_root root name); Done (Ok (match found with inr b => b | inl _ => false end)).

Definition starts_with_components (prefix path : list Component) : bool :=
  match strip_components prefix path with Some _ => true | None => false end.

(** [contains_resolved] *)
Definition contains_resolved (root : RootedDir) (name : string) : Prog bool :=
  let path := components name in
  exists_ ← attempt (os (StatPath path));
  candidate ←
    match exists_ with
    | inr _ => attempt (os (Canonicalize path))
    | inl e =>
        match parent_components path with
        | None => Done (Ok (inl e))
        | Some parent =>
            resolved ← attempt (os (Canonicalize parent));
            Done (Ok (match resolved, file_name path with
                      | inr parent, Some name => inr (parent ++ [Normal name])%list
                      | _, _ => inl e
                      end))
        end
    end;
  Done (Ok (match candidate with inr path => starts_with_components (canonical_path root) path | inl _ => false end)).

(** ** The walk *)

Definition NUL : ascii := "000"%char.
Definition c_name (name : string) : Prog string :=
  if contains_char NUL name then fails (InvalidInput "filesystem path contains NUL") else Done (Ok name).

Definition open_directory_at (parent : Fd) (name : string) : Prog Fd :=
  traverse (OpenAt parent name [O_CLOEXEC; O_DIRECTORY; O_NOFOLLOW] 0).

Definition NEW_DIRECTORY_MODE : Z := 511.
Definition open_or_make_directory_at (parent : Fd) (name : string) : Prog Fd :=
  opened ← attempt (open_directory_at parent name);
  match opened with
  | inr directory => Done (Ok directory)
  | inl error =>
      if bool_decide (error_kind error = NotFound) then
        made ← attempt (os (MkdirAt parent name NEW_DIRECTORY_MODE));
        match made with
        | inl error =>
            if bool_decide (error_kind error = KindAlreadyExists) then open_directory_at parent name else fails error
        | inr _ => open_directory_at parent name
        end
      else fails error
  end.

Inductive OpenMode := Read | Write | Append.
#[export] Instance OpenMode_eq_dec : EqDecision OpenMode.
Proof. solve_decision. Defined.

Definition open_flags (mode : OpenMode) : list Flag :=
  (match mode with Read => [] | Write => [O_WRONLY; O_CREAT; O_TRUNC] | Append => [O_WRONLY; O_CREAT; O_APPEND] end
   ++ [O_CLOEXEC; O_NOFOLLOW])%list.
Definition CREATE_MODE : Z := 438.

(** The loops over the components: the directories on the way, then [last] on
    the final name. *)
Fixpoint walk {A} (last : Fd → string → Prog A) (none : Fd → Prog A) (d : Fd) (relative : list Component) : Prog A :=
  match relative with
  | [] => none d
  | Normal name :: rest =>
      name ← c_name name;
      match rest with
      | [] => last d name
      | _ => d ← open_directory_at d name; walk last none d rest
      end
  | _ :: rest => walk last none d rest
  end.

Definition no_component {A} (d : Fd) : Prog A := fails (denied "filesystem path has no file component").

Definition open_unix (root : RootedDir) (relative : list Component) (mode : OpenMode) : Prog Fd :=
  d ← os (Dup (directory root));
  walk (fun d name => traverse (OpenAt d name (open_flags mode) CREATE_MODE)) no_component d relative.

Definition remove_unix (root : RootedDir) (relative : list Component) : Prog unit :=
  d ← os (Dup (directory root));
  walk (fun d name =>
          target ← traverse (OpenAt d name [O_CLOEXEC; O_NOFOLLOW] 0);
          '(mode, _) ← os (Fstat target);
          if bool_decide (kind_of_mode mode = KFile) then os (UnlinkAt d name false)
          else fails (denied "filesystem deletion target is not a regular file"))
    no_component d relative.

Definition rooted_open (root : RootedDir) (name : string) (mode : OpenMode) : Prog Fd :=
  relative ← relative root name; open_unix root relative mode.
Definition rooted_remove_file (root : RootedDir) (name : string) : Prog unit :=
  relative ← relative root name; remove_unix root relative.

Fixpoint make_directories (d : Fd) (relative : list Component) : Prog unit :=
  match relative with
  | [] => Done (Ok tt)
  | Normal name :: rest =>
      name ← c_name name; d ← open_or_make_directory_at d name; make_directories d rest
  | _ :: rest => make_directories d rest
  end.

Definition rooted_create_dir_all (root : RootedDir) (name : string) : Prog unit :=
  root_itself ← is_root root name;
  if root_itself : bool then Done (Ok tt)
  else relative ← relative root name; d ← os (Dup (directory root)); make_directories d relative.

(** ** Entry operations ([secure_fs_entries.rs]) *)

Definition PRIVATE_DIRECTORY_MODE : Z := 448.
Definition PRIVATE_FILE_MODE : Z := 384.
Definition SHARED_PERMISSION_BITS : Z := 63.

(** Where an operation acts: the parent directory and the final name, or a
    directory with no name to act on. *)
Record Anchor := mkAnchor { a_directory : Fd; a_name : option string }.

Definition normal_name (c : Component) : option string := match c with Normal name => Some name | _ => None end.

Fixpoint anchor_walk (d : Fd) (names : list string) : Prog Anchor :=
  match names with
  | [] => Done (Ok (mkAnchor d None))
  | name :: rest =>
      name ← c_name name;
      match rest with
      | [] => Done (Ok (mkAnchor d (Some name)))
      | _ => d ← open_directory_at d name; anchor_walk d rest
      end
  end.

(** [RootedDir::anchor] *)
Definition rooted_anchor (root : RootedDir) (name : string) : Prog Anchor :=
  root_itself ← is_root root name;
  if root_itself : bool then d ← os (Dup (directory root)); Done (Ok (mkAnchor d None))
  else
    relative ← relative root name;
    d ← os (Dup (directory root));
    anchor_walk d (omap normal_name relative).

Definition open_directory (path : list Component) : Prog Fd := os (OpenPath path [O_DIRECTORY; O_CLOEXEC]).

Definition anchor_unrooted (name : string) : Prog Anchor :=
  absolute_path ← absolute name;
  match parent_components absolute_path, file_name absolute_path with
  | Some parent, Some name =>
      d ← open_directory parent; name ← c_name name; Done (Ok (mkAnchor d (Some name)))
  | _, _ => d ← open_directory absolute_path; Done (Ok (mkAnchor d None))
  end.

(** The text [entry.root_not_target] of the catalog. *)
Definition ROOT_NOT_TARGET : string := "the policy root itself is not a write target".

Definition target_name (a : Anchor) : Prog string :=
  match a_name a with Some name => Done (Ok name) | None => fails (denied ROOT_NOT_TARGET) end.

Definition anchor_kind (a : Anchor) : Prog EntryKind :=
  match a_name a with
  | None => Done (Ok KDirectory)
  | Some name => mode ← os (StatAt (a_directory a) name); Done (Ok (kind_of_mode mode))
  end.

Definition is_private (mode : Z) : bool := Z.land mode SHARED_PERMISSION_BITS =? 0.

Definition NOT_PRIVATE : string := 
  "the new entry kept group or other permission bits after it was made owner-only".

Definition make_private (entry : Fd) (mode : Z) : Prog unit :=
  _ ← os (Fchmod entry mode);
  '(mode, _) ← os (Fstat entry);
  if is_private mode then Done (Ok tt) else fails (NotPrivate NOT_PRIVATE).

(** [Anchor::unlink]: the result is ignored. *)
Definition unlink_created (a : Anchor) (name : string) (directory : bool) : Prog unit :=
  _ ← attempt (os (UnlinkAt (a_directory a) name directory)); Done (Ok tt).

Definition anchor_create_private_directory (a : Anchor) : Prog unit :=
  match a_name a with
  | None => fails AlreadyExists
  | Some name =>
      _ ← os (MkdirAt (a_directory a) name PRIVATE_DIRECTORY_MODE);
      created ← attempt (d ← open_directory_at (a_directory a) name; make_private d PRIVATE_DIRECTORY_MODE);
      match created with
      | inr _ => Done (Ok tt)
      | inl error => _ ← unlink_created a name true; fails error
      end
  end.

Definition anchor_create_private_file (a : Anchor) : Prog Fd :=
  match a_name a with
  | None => fails AlreadyExists
  | Some name =>
      file ← os (OpenAt (a_directory a) name [O_WRONLY; O_CREAT; O_EXCL; O_NOFOLLOW; O_CLOEXEC] PRIVATE_FILE_MODE);
      made ← attempt (make_private file PRIVATE_FILE_MODE);
      match made with
      | inr _ => Done (Ok file)
      | inl error => _ ← unlink_created a name false; fails error
      end
  end.

Definition anchor_open_read (a : Anchor) : Prog Fd :=
  match a_name a with
  | None => os (Dup (a_directory a))
  | Some name => os (OpenAt (a_directory a) name [O_NOFOLLOW; O_NONBLOCK; O_CLOEXEC] 0)
  end.

Definition anchor_remove_empty_directory (a : Anchor) : Prog unit :=
  name ← target_name a; os (UnlinkAt (a_directory a) name true).

Definition anchor_rename_to (a target : Anchor) : Prog unit :=
  source ← target_name a;
  destination ← target_name target;
  kind ← attempt (anchor_kind target);
  let rename := os (RenameAt (a_directory a) source (a_directory target) destination) in
  match kind with
  | inr KFile => rename
  | inr _ => fails AlreadyExists
  | inl error => if bool_decide (error_kind error = NotFound) then rename else fails error
  end.

(** [open_final_directory]: a link is not a directory. *)
Definition open_final_directory (a : Anchor) (name : string) : Prog Fd :=
  Ask (OpenAt (a_directory a) name [O_DIRECTORY; O_NOFOLLOW; O_CLOEXEC] 0)
    (fun r => Done (match r with
                    | inl ELOOP => Err (Os ENOTDIR)
                    | inl e => Err (Os e)
                    | inr d => Ok d
                    end)).

Definition anchor_change_directory (a : Anchor) : Prog unit :=
  d ← match a_name a with
      | None => os (Dup (a_directory a))
      | Some name => open_final_directory a name
      end;
  os (Fchdir d).
End Operations.
Arguments Anchor : clear implicits.
Arguments RootedDir : clear implicits.
