(* ===== verification/Policy.v ===== *)
(** * Policy: the execution policy ([crates/bn_rt/src/policy.rs])

    The capability bits under their ceiling, the limits of [HOST.Exec], and
    the decision on every path of [HOST.FileSystem]; the environment can only
    narrow it.  The file operations are trees of system calls ([Rooted]). *)

From S2P Require Import Prelude Text Types Rooted.

#[local] Open Scope string_scope.
#[local] Open Scope Z_scope.

Definition POLICY_CLOCK : Z := Z.shiftl 1 0.
Definition POLICY_CONSOLE : Z := Z.shiftl 1 1.
Definition POLICY_FILESYSTEM : Z := Z.shiftl 1 2.
Definition POLICY_NET : Z := Z.shiftl 1 3.
Definition POLICY_DISPATCH : Z := Z.shiftl 1 4.
Definition POLICY_RANDOM : Z := Z.shiftl 1 5.
Definition POLICY_EXEC : Z := Z.shiftl 1 6.
Definition POLICY_ENV : Z := Z.shiftl 1 7.
Definition POLICY_ALL : Z :=
  Z.lor (Z.lor (Z.lor (Z.lor (Z.lor (Z.lor (Z.lor POLICY_CLOCK POLICY_CONSOLE) POLICY_FILESYSTEM) POLICY_NET)
    POLICY_DISPATCH) POLICY_RANDOM) POLICY_EXEC) POLICY_ENV.
Definition POLICY_VERSION : Z := 1.
Definition POLICY_OK : Z := 0.
Definition POLICY_INVALID : Z := 2.

(** [!mask] of a [u64] *)
Definition u64_not (mask : Z) : Z := Z.lxor mask u64_MAX.

(** Durations, in nanoseconds. *)
Definition from_secs (s : Z) : Z := s * 1000000000.
Definition from_millis (ms : Z) : Z := ms * 1000000.

Definition EXEC_CAPTURE_DEFAULT : Z := 16 * 1024 * 1024.
Definition EXEC_TIMEOUT_DEFAULT : Z := from_secs 60.

Definition FS_OUTSIDE_POLICY : string := "filesystem path is outside execution policy".
Definition FS_WRITES_DENIED : string := "filesystem writes are denied by execution policy".

Section Policy.
Context {Fd : Type}.
#[local] Abbreviation Prog := (Prog Fd).
#[local] Abbreviation RootedDir := (RootedDir Fd).

(** ** The filesystem decision *)

Inductive Scope := Unrestricted | Rooted (roots : list RootedDir).

Definition denies_everything (s : Scope) : bool := match s with Rooted [] => true | _ => false end.

(** [iter().any(p)] with calls. *)
Fixpoint any_root (p : RootedDir → Prog bool) (roots : list RootedDir) : Prog bool :=
  match roots with
  | [] => Done (Ok false)
  | root :: roots => found ← p root; if found : bool then Done (Ok true) else any_root p roots
  end.

Definition names_root (name : string) (root : RootedDir) : Prog bool :=
  covered ← covers root name;
  if covered : bool then inside ← contains root name; Done (Ok (negb inside)) else Done (Ok false).
Definition scope_names_a_root (s : Scope) (name : string) : Prog bool :=
  match s with Unrestricted => Done (Ok false) | Rooted roots => any_root (names_root name) roots end.

(** The last of the deepest roots that cover the path. *)
Fixpoint deepest_root (name : string) (best : option RootedDir) (roots : list RootedDir) : Prog (option RootedDir) :=
  match roots with
  | [] => Done (Ok best)
  | root :: roots =>
      covered ← covers root name;
      let best :=
        if covered : bool then
          match best with
          | Some found => if (length (path found) <=? length (path root))%nat then Some root else best
          | None => Some root
          end
        else best in
      deepest_root name best roots
  end.
Definition root_for (s : Scope) (name : string) : Prog (option RootedDir) :=
  match s with
  | Unrestricted => Done (Ok None)
  | Rooted roots =>
      found ← deepest_root name None roots;
      match found with Some root => Done (Ok (Some root)) | None => fails (denied FS_OUTSIDE_POLICY) end
  end.

Record FsPolicy := mkFs { fs_read : Scope; fs_write : Scope; read_only : bool }.

Definition fs_unrestricted : FsPolicy := mkFs Unrestricted Unrestricted false.
Definition fs_denied : FsPolicy := mkFs (Rooted []) (Rooted []) false.
Definition fs_rooted (read_roots write_roots : list RootedDir) : FsPolicy :=
  mkFs (Rooted read_roots) (Rooted write_roots) false.
Definition scope_of (p : FsPolicy) (write : bool) : Scope := if write then fs_write p else fs_read p.

Definition widen (s : Scope) (root : RootedDir) : Scope :=
  match s with Rooted roots => Rooted (roots ++ [root]) | Unrestricted => Rooted [root] end.
Definition add_root (p : FsPolicy) (write : bool) (root : RootedDir) : FsPolicy :=
  if write then mkFs (fs_read p) (widen (fs_write p) root) (read_only p)
  else mkFs (widen (fs_read p) root) (fs_write p) (read_only p).
Definition set_read_only (p : FsPolicy) : FsPolicy := mkFs (fs_read p) (fs_write p) true.

Definition allows_capability (p : FsPolicy) : bool :=
  negb (denies_everything (fs_read p)) || negb (read_only p || denies_everything (fs_write p)).

Definition denial_reason (p : FsPolicy) (write : bool) : string :=
  if write && read_only p then "the execution policy allows reads only"
  else if denies_everything (scope_of p write) then "the execution policy denies file access"
  else "the path is outside the directories the execution policy allows".

Definition allows_path (p : FsPolicy) (name : string) (write : bool) : Prog bool :=
  if write && read_only p then Done (Ok false)
  else match scope_of p write with
       | Unrestricted => Done (Ok true)
       | Rooted roots => any_root (fun root => contains_resolved root name) roots
       end.

Definition is_write (mode : OpenMode) : bool := match mode with Read => false | Write | Append => true end.
Definition plain_flags (mode : OpenMode) : list Flag :=
  (match mode with Read => [] | Write => [O_WRONLY; O_CREAT; O_TRUNC] | Append => [O_WRONLY; O_CREAT; O_APPEND] end
   ++ [O_CLOEXEC])%list.

Definition fs_open (p : FsPolicy) (name : string) (mode : OpenMode) : Prog Fd :=
  let write := is_write mode in
  if write && read_only p then fails (denied FS_WRITES_DENIED)
  else
    root ← root_for (scope_of p write) name;
    match root with
    | Some root => rooted_open root name mode
    | None => os (OpenPath (components name) (plain_flags mode))
    end.

Definition fs_remove_file (p : FsPolicy) (name : string) : Prog unit :=
  if read_only p then fails (denied FS_WRITES_DENIED)
  else
    root ← root_for (fs_write p) name;
    match root with
    | Some root => rooted_remove_file root name
    | None => os (UnlinkPath (components name))
    end.

Definition fs_create_dir_all (p : FsPolicy) (name : string) : Prog unit :=
  if read_only p then fails (denied FS_WRITES_DENIED)
  else
    root ← root_for (fs_write p) name;
    match root with
    | Some root => rooted_create_dir_all root name
    | None => os (MkdirsPath (components name))
    end.

Definition fs_anchor (p : FsPolicy) (name : string) (write : bool) : Prog (Anchor Fd) :=
  if write && read_only p then fails (denied FS_WRITES_DENIED)
  else
    root ← root_for (scope_of p write) name;
    match root with Some root => rooted_anchor root name | None => anchor_unrooted name end.

Definition entry_kind (p : FsPolicy) (name : string) : Prog EntryKind :=
  a ← fs_anchor p name false; anchor_kind a.
Definition writable_entry_kind (p : FsPolicy) (name : string) : Prog EntryKind :=
  a ← fs_anchor p name true; anchor_kind a.

Definition names_a_root (p : FsPolicy) (name : string) : Prog bool :=
  found ← scope_names_a_root (fs_read p) name;
  if found : bool then Done (Ok true) else scope_names_a_root (fs_write p) name.

Definition create_private_directory (p : FsPolicy) (name : string) : Prog unit :=
  a ← fs_anchor p name true; anchor_create_private_directory a.
Definition create_private_file (p : FsPolicy) (name : string) : Prog Fd :=
  a ← fs_anchor p name true; anchor_create_private_file a.
Definition open_entry (p : FsPolicy) (name : string) : Prog Fd :=
  a ← fs_anchor p name false; anchor_open_read a.
Definition remove_empty_directory (p : FsPolicy) (name : string) : Prog unit :=
  a ← fs_anchor p name true; anchor_remove_empty_directory a.
Definition rename_entry (p : FsPolicy) (from to : string) : Prog unit :=
  source ← fs_anchor p from true; target ← fs_anchor p to true; anchor_rename_to source target.
Definition change_directory (p : FsPolicy) (name : string) : Prog unit :=
  a ← fs_anchor p name false; anchor_change_directory a.

(** ** The policy of a process *)

Record Policy := mkPolicy {
  ceiling : Z;
  effective : Z;
  exec_timeout : Z;
  exec_capture_limit : Z;
  fs : FsPolicy;
}.

Record PolicyError := mkPolicyError { variable : string; value : string; expected : string }.
Definition policy_error_text (e : PolicyError) : string :=
  "invalid " +:+ variable e +:+ " '" +:+ value e +:+ "' (expected " +:+ expected e +:+ ")".

Definition unrestricted : Policy := mkPolicy POLICY_ALL POLICY_ALL EXEC_TIMEOUT_DEFAULT EXEC_CAPTURE_DEFAULT fs_unrestricted.

Definition allows (p : Policy) (capability : Z) : bool := Z.land (effective p) capability =? capability.

(** [exec] and [env] *)
Record ExecPolicy := mkExec { exec_allowed : bool; timeout : Z; capture_limit : Z }.
Definition exec (p : Policy) : ExecPolicy := mkExec (allows p POLICY_EXEC) (exec_timeout p) (exec_capture_limit p).
Definition env_allowed (p : Policy) : bool := allows p POLICY_ENV.

Definition with_effective (mask : Z) (p : Policy) : Policy :=
  mkPolicy (ceiling p) mask (exec_timeout p) (exec_capture_limit p) (fs p).
Definition with_fs (f : FsPolicy) (p : Policy) : Policy :=
  mkPolicy (ceiling p) (effective p) (exec_timeout p) (exec_capture_limit p) f.

Definition install_ceiling (mask : Z) (p : Policy) : Policy :=
  let ceiling := Z.land (ceiling p) mask in
  mkPolicy ceiling (Z.land (effective p) ceiling) (exec_timeout p) (exec_capture_limit p) (fs p).
Definition restrict (mask : Z) (p : Policy) : Policy :=
  with_effective (Z.land (effective p) (Z.land mask (ceiling p))) p.
Definition deny_exec (p : Policy) : Policy := restrict (u64_not POLICY_EXEC) p.
Definition deny_env (p : Policy) : Policy := restrict (u64_not POLICY_ENV) p.
Definition deny_filesystem (p : Policy) : Policy := with_fs fs_denied (restrict (u64_not POLICY_FILESYSTEM) p).
Definition reduce_exec_timeout (t : Z) (p : Policy) : Policy :=
  mkPolicy (ceiling p) (effective p) (Z.min (exec_timeout p) t) (exec_capture_limit p) (fs p).
Definition reduce_exec_capture_limit (bytes : Z) (p : Policy) : Policy :=
  if bytes <? exec_capture_limit p then mkPolicy (ceiling p) (effective p) (exec_timeout p) bytes (fs p) else p.

(** *** The environment *)

Section Environment.
Variable get : string → option string.

(** An input that is set and not empty. *)
Definition text_input (variable : string) : option string :=
  match get variable with Some value => if String.eqb value "" then None else Some value | None => None end.

Definition integer_input (variable : string) : PolicyError + option Z :=
  match text_input variable with
  | None => inr None
  | Some value =>
      match parse_u64 value with
      | Some n => inr (Some n)
      | None => inl (mkPolicyError variable value "a non-negative integer")
      end
  end.

(** [Some true]: deny, [Some false]: read only. *)
Definition fs_input : PolicyError + option bool :=
  match text_input "BN_FS_POLICY" with
  | None => inr None
  | Some value =>
      if String.eqb value "deny" then inr (Some true)
      else if String.eqb value "read-only" then inr (Some false)
      else inl (mkPolicyError "BN_FS_POLICY" value "deny or read-only")
  end.

Definition deny_input (variable : string) : PolicyError + bool :=
  match text_input variable with
  | None => inr false
  | Some value => if String.eqb value "deny" then inr true else inl (mkPolicyError variable value "deny")
  end.

(** The inputs, all of them read before one is applied. *)
Record Inputs := mkInputs {
  in_fs : option bool;
  in_exec : bool;
  in_env : bool;
  in_capture : option Z;
  in_timeout : option Z;
}.

Definition inputs : PolicyError + Inputs :=
  match fs_input with
  | inl e => inl e
  | inr f =>
      match deny_input "BN_EXEC_POLICY" with
      | inl e => inl e
      | inr x =>
          match deny_input "BN_ENV_POLICY" with
          | inl e => inl e
          | inr v =>
              match integer_input "BN_EXEC_CAPTURE_LIMIT" with
              | inl e => inl e
              | inr c =>
                  match integer_input "BN_EXEC_TIMEOUT_MS" with
                  | inl e => inl e
                  | inr t => inr (mkInputs f x v c t)
                  end
              end
          end
      end
  end.

Definition apply_inputs (i : Inputs) (p : Policy) : Policy :=
  let p := match in_fs i with
           | Some true => with_fs fs_denied p
           | Some false => with_fs (set_read_only (fs p)) p
           | None => p
           end in
  let p := if in_exec i then deny_exec p else p in
  let p := if in_env i then deny_env p else p in
  let p := match in_capture i with Some bytes => reduce_exec_capture_limit bytes p | None => p end in
  match in_timeout i with Some ms => reduce_exec_timeout (from_millis ms) p | None => p end.

(** [narrow_from_env]: the policy after it, and the first malformed input. *)
Definition narrow_from_env (p : Policy) : Policy * option PolicyError :=
  match inputs with inl e => (p, Some e) | inr i => (apply_inputs i p, None) end.

(** *** The exports a compiled image calls *)

Definition bn_rt_policy_init (version mask : Z) (p : Policy) : Policy * Z :=
  if negb (version =? POLICY_VERSION) || negb (Z.land mask (u64_not POLICY_ALL) =? 0) then (p, POLICY_INVALID)
  else
    match narrow_from_env (install_ceiling mask p) with
    | (next, None) => (next, POLICY_OK)
    | (_, Some _) => (p, POLICY_INVALID)
    end.

Definition bn_rt_policy_filesystem_sandboxed (p : Policy) : Policy * Z :=
  ((narrow_from_env (with_fs fs_denied p)).1, POLICY_OK).

(** [None]: a null or unreadable path. *)
Definition bn_rt_policy_filesystem_root (write : Z) (path : option string) (p : Policy) : Prog (Policy * Z) :=
  match path with
  | None => Done (Ok (p, POLICY_INVALID))
  | Some path =>
      made ← attempt (rooted_new path);
      match made with
      | inl _ => Done (Ok (p, POLICY_INVALID))
      | inr root =>
          Done (Ok ((narrow_from_env (with_fs (add_root (fs p) (negb (write =? 0)) root) p)).1, POLICY_OK))
      end
  end.
End Environment.
End Policy.
Arguments Scope : clear implicits.
Arguments FsPolicy : clear implicits.
Arguments Policy : clear implicits.
