(* ===== verification/Confine.v ===== *)
(** * Confine: a rooted policy reaches nothing outside its roots

    The operations of a policy with roots act on the system through
    descriptors alone, each reached from a pinned root by opening one plain
    name at a time, never through a symbolic link.  So whatever region of the
    file system holds the roots and everything their directories list, the
    operations stay in it, while other processes rename, replace and link
    files as they like. *)

From S2P Require Import Prelude Text Types Rooted Policy.

#[local] Open Scope string_scope.
#[local] Open Scope Z_scope.

(** ** Names *)

(** A name that means one entry of a directory, and no other directory. *)
Definition plain_name (n : string) : Prop :=
  n ≠ "" ∧ n ≠ "." ∧ n ≠ ".." ∧ contains_char "/" n = false ∧ contains_char NUL n = false.

(** A component as [components] makes them. *)
Definition proper (c : Component) : Prop :=
  match c with Normal n => n ≠ "" ∧ n ≠ "." ∧ n ≠ ".." ∧ contains_char "/" n = false | _ => True end.

Lemma split_contains c s p : In p (split c s) → contains_char c p = false.
Proof.
  revert p. induction s as [|a s IH]; intros p; cbn [split].
  - intros [<-|[]]. done.
  - destruct (Ascii.eqb a c) eqn:Ha; [intros [<-|H]; [done|by apply IH]|].
    destruct (split c s) as [|w ws]; cbn [In]; intros [<-|H].
    + unfold contains_char. cbn. by rewrite Ascii.eqb_sym, Ha.
    + done.
    + unfold contains_char in *. cbn. rewrite Ascii.eqb_sym, Ha. apply IH. by left.
    + apply IH. by right.
Qed.

Lemma part_proper p c : contains_char "/" p = false → part_component p = Some c → proper c.
Proof.
  unfold part_component. intros Hp. destruct (String.eqb_spec p ""); [done|]. destruct (String.eqb_spec p "."); [done|].
  cbn. destruct (String.eqb_spec p ".."); intros [= <-]; done.
Qed.

Lemma components_proper s : Forall proper (components s).
Proof.
  assert (Forall proper (omap part_component (split "/" s))) as H.
  { apply list.Forall_forall. intros c (p & Hp & Hc)%list_elem_of_omap. apply (part_proper p); [|done].
    by apply (split_contains "/" s), list_elem_of_In. }
  unfold components. destruct (starts_with _ _); [by apply Forall_cons_2|].
  destruct (split "/" s) as [|p ps]; [done|]. case_match; [by apply Forall_cons_2|done].
Qed.

Lemma strip_suffix_Forall (P : Component → Prop) prefix path rest :
  strip_components prefix path = Some rest → Forall P path → Forall P rest.
Proof.
  revert path. induction prefix as [|c prefix IH]; intros path; cbn [strip_components]; [by intros [= ->]|].
  destruct path as [|d path]; [done|]. case_bool_decide; [|done]. intros Hs Hp. inversion_clear Hp. by apply (IH path).
Qed.

Section Confine.
Context {Fd : Type}.
#[local] Abbreviation Prog := (Prog Fd).

(** ** Calls within a region *)

Section Region.
Variables (region : Fd → Prop) (writable : bool).

(** Whether the call can change the file system. *)
Definition modifies {X} (c : Call Fd X) : bool :=
  match c with
  | OpenAt _ _ flags _ => existsb (fun f => bool_decide (f ∈ [O_WRONLY; O_CREAT; O_TRUNC; O_APPEND])) flags
  | MkdirAt _ _ _ | UnlinkAt _ _ _ | RenameAt _ _ _ _ | Fchmod _ _ | UnlinkPath _ | MkdirsPath _ | CopyData _ _ => true
  | _ => false
  end.

(** Whether the call stays within the region: it names no path, one plain name
    in a directory of the region at most, and follows no symbolic link. *)
Definition within {X} (c : Call Fd X) : Prop :=
  match c with
  | GetCwd => True
  | Dup d | Fchdir d | Fchmod d _ | Fstat d | SyncAll d => region d
  | OpenAt d n flags _ => region d ∧ plain_name n ∧ O_NOFOLLOW ∈ flags
  | MkdirAt d n _ | UnlinkAt d n _ | StatAt d n => region d ∧ plain_name n
  | RenameAt d n d' n' => (region d ∧ plain_name n) ∧ region d' ∧ plain_name n'
  | CopyData d d' => region d ∧ region d'
  | OpenPath _ _ | UnlinkPath _ | MkdirsPath _ | StatPath _ | Canonicalize _ => False
  end.
Definition allowed {X} (c : Call Fd X) : Prop := within c ∧ (modifies c = true → writable = true).

(** The descriptors a call hands out are in the region. *)
Definition handed {X} (c : Call Fd X) : X → Prop :=
  match c in Call _ X return X → Prop with
  | Dup _ | OpenAt _ _ _ _ => fun r => match r with inr d => region d | inl _ => True end
  | _ => fun _ => True
  end.

(** Every call of the computation is allowed, whatever the answers; its result
    has [P], and it does not panic. *)
Fixpoint safe {A} (P : A → Prop) (p : Prog A) : Prop :=
  match p with
  | Done (Ok a) => P a
  | Done (Err _) => True
  | Done _ => False
  | Ask c k => allowed c ∧ ∀ x, handed c x → safe P (k x)
  end.

Lemma safe_bind {A B} (P : A → Prop) (Q : B → Prop) p (f : A → Prog B) :
  safe P p → (∀ a, P a → safe Q (f a)) → safe Q (p ≫= f).
Proof.
  intros Hp Hf. change (safe Q (prog_bind f p)). revert Hp. induction p as [[a|e|w|]|X c k IH]; cbn; try done; [apply Hf|].
  intros [Hc Hk]. split; [done|]. intros x Hx. by apply IH, Hk.
Qed.

Lemma safe_mono {A} (P Q : A → Prop) p : (∀ a, P a → Q a) → safe P p → safe Q p.
Proof.
  intros H. induction p as [[a|e|w|]|X c k IH]; cbn; try done; [apply H|]. intros [Hc Hk]. split; [done|]. auto.
Qed.

Lemma safe_attempt {A} (P : A → Prop) (p : Prog A) :
  safe P p → safe (fun r => match r with inr a => P a | inl _ => True end) (attempt p).
Proof.
  induction p as [[a|e|w|]|X c k IH]; cbn; try done. intros [Hc Hk]. split; [done|]. auto.
Qed.

(** The answer of a call that can fail. *)
Definition answer {A} (c : Call Fd (Errno + A)) (a : A) : Prop := handed c (inr a).

Lemma safe_os {A} (c : Call Fd (Errno + A)) : allowed c → safe (answer c) (os c).
Proof. intros H. split; [done|]. by intros [e|a] Ha. Qed.
Lemma safe_traverse {A} (c : Call Fd (Errno + A)) : allowed c → safe (answer c) (traverse c).
Proof. intros H. split; [done|]. by intros [e|a] Ha. Qed.

(** *** Paths *)

Lemma safe_absolute name : safe (Forall proper) (absolute name).
Proof.
  unfold absolute. destruct (String.eqb _ _); [done|].
  assert (Forall proper (filter (fun c => c ≠ CurDir) (components name))) as Hb.
  { apply list.Forall_forall. intros c [_ Hc]%list_elem_of_filter. by apply (proj1 (list.Forall_forall _ _) (components_proper name)). }
  destruct (starts_with _ _); [done|]. eapply safe_bind; [by apply safe_os|]. intros cwd _. cbn.
  apply Forall_app. split; [apply components_proper|done].
Qed.

(** Names below a root: at least one, all of them proper. *)
Definition below (relative : list Component) : Prop :=
  relative ≠ [] ∧ Forall (fun c => match c with Normal _ => proper c | CurDir => True | _ => False end) relative.

Lemma relative_to_below (root : RootedDir Fd) absolute_path relative : Forall proper absolute_path →
  relative_to root absolute_path = Ok relative → below relative.
Proof.
  intros Hp. unfold relative_to.
  assert (∀ r, Forall proper r → (if bool_decide (r = []) || existsb leaves r
     then Err (denied "filesystem path contains invalid traversal") else Ok r) = Ok relative → below relative) as H.
  { intros r Hr. case_bool_decide as He; [done|]. destruct (existsb leaves r) eqn:Hl; [done|]. intros [= <-]. split; [done|].
    apply list.Forall_forall. intros c Hc. pose proof (proj1 (list.Forall_forall _ _) Hr c Hc) as Hq.
    destruct c; try done; exfalso; (assert (existsb leaves r = true) as E; [|congruence]); apply existsb_exists;
      eexists; (split; [by apply list_elem_of_In, Hc|done]). }
  destruct (strip_components (path root) absolute_path) as [r|] eqn:H1; [apply H; by eapply strip_suffix_Forall|].
  destruct (strip_components (canonical_path root) absolute_path) as [r|] eqn:H2; [|done].
  apply H. by eapply strip_suffix_Forall.
Qed.

Lemma safe_relative (root : RootedDir Fd) name : safe below (relative root name).
Proof.
  unfold relative. eapply safe_bind; [apply safe_absolute|]. intros a Ha. cbn.
  destruct (relative_to root a) eqn:Hr; try done; [by eapply relative_to_below| |];
    exfalso; unfold relative_to in Hr; repeat case_match; discriminate Hr.
Qed.

Lemma safe_is_root (root : RootedDir Fd) name : safe (fun _ => True) (is_root root name).
Proof. unfold is_root. eapply safe_bind; [apply safe_absolute|]. done. Qed.

Lemma safe_contains (root : RootedDir Fd) name : safe (fun _ => True) (contains root name).
Proof. unfold contains. eapply safe_bind; [apply safe_attempt, safe_relative|]. done. Qed.

Lemma safe_covers (root : RootedDir Fd) name : safe (fun _ => True) (covers root name).
Proof.
  unfold covers. eapply safe_bind; [apply safe_contains|]. intros [|] _; [done|].
  eapply safe_bind; [apply safe_attempt, safe_is_root|]. done.
Qed.

(** *** The walk *)

Lemma safe_c_name n : proper (Normal n) → safe plain_name (c_name n).
Proof.
  intros (H1 & H2 & H3 & H4). unfold c_name. destruct (contains_char NUL n) eqn:Hn; [done|]. by repeat split.
Qed.

Lemma safe_open_directory d n : region d → plain_name n → safe region (open_directory_at d n).
Proof. intros Hd Hn. apply safe_traverse. split; [|done]. split; [done|]. split; [done|]. set_solver. Qed.

Lemma safe_walk {A} (P : A → Prop) last none relative : ∀ d, region d → below relative ∨ relative = [] →
  (∀ d n, region d → plain_name n → safe P (last d n)) → (∀ d, region d → safe P (none d)) →
  safe P (walk last none d relative).
Proof.
  induction relative as [|c relative IH]; intros d Hd Hr Hlast Hnone; cbn [walk]; [by apply Hnone|].
  destruct Hr as [[_ Hr]|]; [|done]. apply list.Forall_cons in Hr as [Hc Hr].
  assert (below relative ∨ relative = []) as Hrest by (destruct relative; [by right|left; split; done]).
  destruct c as [| | |n]; try done; [by apply IH|]. eapply safe_bind; [by apply safe_c_name|]. intros n' Hn.
  destruct relative as [|c' relative]; [by apply Hlast|].
  eapply safe_bind; [by apply safe_open_directory|]. intros d' Hd'. by apply IH.
Qed.

Lemma safe_dup d : region d → safe region (os (Dup d)).
Proof. intros Hd. by apply safe_os. Qed.

Section Root.
Variable root : RootedDir Fd.
Hypothesis pinned : region (directory root).

Lemma safe_open name mode : (is_write mode = true → writable = true) → safe region (rooted_open root name mode).
Proof.
  intros Hw. unfold rooted_open, open_unix. eapply safe_bind; [apply safe_relative|]. intros r Hr.
  eapply safe_bind; [by apply safe_dup|]. intros d Hd. apply safe_walk; [done|by left| |done].
  intros d' n Hd' Hn. apply safe_traverse. split.
  - split; [done|]. split; [done|]. unfold open_flags. set_solver.
  - destruct mode; [done|intros _; by apply Hw..].
Qed.

Lemma safe_fstat d : region d → safe (fun _ => True) (os (Fstat d)).
Proof. intros Hd. eapply safe_mono; [|by apply safe_os]. done. Qed.
Lemma safe_unlink d n b : region d → plain_name n → writable = true → safe (fun _ => True) (os (UnlinkAt d n b)).
Proof. intros Hd Hn Hw. eapply safe_mono; [|by apply safe_os]. done. Qed.

Lemma safe_remove_file name : writable = true → safe (fun _ => True) (rooted_remove_file root name).
Proof.
  intros Hw. unfold rooted_remove_file, remove_unix. eapply safe_bind; [apply safe_relative|]. intros r Hr.
  eapply safe_bind; [by apply safe_dup|]. intros d Hd. apply safe_walk; [done|by left| |done]. intros d' n Hd' Hn.
  eapply safe_bind; [apply safe_traverse; split; [|done]; split; [done|]; split; [done|set_solver]|].
  intros t Ht. eapply safe_bind; [by apply safe_fstat|]. intros [mode id] _. case_bool_decide; [by apply safe_unlink|done].
Qed.

Lemma safe_open_or_make d n : region d → plain_name n → writable = true → safe region (open_or_make_directory_at d n).
Proof.
  intros Hd Hn Hw. unfold open_or_make_directory_at.
  eapply safe_bind; [by apply safe_attempt, safe_open_directory|]. intros [e|d'] Hd'; [|done].
  case_bool_decide; [|done]. eapply safe_bind; [by apply safe_attempt, safe_os|].
  intros [e'|] _; [case_bool_decide; [|done]|]; by apply safe_open_directory.
Qed.

Lemma safe_create_dir_all name : writable = true → safe (fun _ => True) (rooted_create_dir_all root name).
Proof.
  intros Hw. unfold rooted_create_dir_all. eapply safe_bind; [apply safe_is_root|]. intros [|] _; [done|].
  eapply safe_bind; [apply safe_relative|]. intros r Hr. eapply safe_bind; [by apply safe_dup|].
  destruct Hr as [_ Hr]. intros d Hd. revert d Hd. induction r as [|c r IH]; intros d Hd; [done|].
  apply list.Forall_cons in Hr as [Hc Hr]. cbn [make_directories].
  destruct c as [| | |n]; try done; [by apply IH|]. eapply safe_bind; [by apply safe_c_name|]. intros n' Hn.
  eapply safe_bind; [by apply safe_open_or_make|]. intros d' Hd'. by apply IH.
Qed.

(** *** Anchors *)

Definition anchored (a : Anchor Fd) : Prop :=
  region (a_directory a) ∧ match a_name a with Some n => plain_name n | None => True end.

Lemma safe_anchor_walk names : ∀ d, region d → Forall (fun n => proper (Normal n)) names → safe anchored (anchor_walk d names).
Proof.
  induction names as [|n names IH]; intros d Hd Hn; cbn [anchor_walk]; [done|].
  apply list.Forall_cons in Hn as [Hn Hrest]. eapply safe_bind; [by apply safe_c_name|]. intros n' Hn'.
  destruct names as [|m names]; [done|]. eapply safe_bind; [by apply safe_open_directory|]. intros d' Hd'. by apply IH.
Qed.

Lemma safe_anchor name : safe anchored (rooted_anchor root name).
Proof.
  unfold rooted_anchor. eapply safe_bind; [apply safe_is_root|]. intros [|] _.
  - eapply safe_bind; [by apply safe_dup|]. intros d Hd. by split.
  - eapply safe_bind; [apply safe_relative|]. intros r [_ Hr]. eapply safe_bind; [by apply safe_dup|]. intros d Hd.
    apply safe_anchor_walk; [done|]. apply list.Forall_forall. intros n (c & Hc & Hn)%list_elem_of_omap.
    pose proof (proj1 (list.Forall_forall _ _) Hr c Hc) as Hp. destruct c; try done. by injection Hn as <-.
Qed.
End Root.

Section Anchors.
Variable a : Anchor Fd.
Hypothesis at_anchor : anchored a.

Lemma safe_kind : safe (fun _ => True) (anchor_kind a).
Proof.
  destruct at_anchor as [Hd Hn]. unfold anchor_kind. destruct (a_name a); [|done].
  eapply safe_bind; [by apply safe_os|]. done.
Qed.

Lemma safe_make_private d mode : region d → writable = true → safe (fun _ => True) (make_private d mode).
Proof.
  intros Hd Hw. unfold make_private. eapply safe_bind; [by apply safe_os|]. intros _ _.
  eapply safe_bind; [by apply safe_fstat|]. intros [m id] _. by destruct (is_private m).
Qed.

Lemma safe_unlink_created n b : plain_name n → writable = true → safe (fun _ => True) (unlink_created a n b).
Proof.
  intros Hn Hw. unfold unlink_created. eapply safe_bind; [|done]. apply safe_attempt, safe_unlink; [apply at_anchor|done..].
Qed.

Lemma safe_private_directory : writable = true → safe (fun _ => True) (anchor_create_private_directory a).
Proof.
  intros Hw. destruct at_anchor as [Hd Hn]. unfold anchor_create_private_directory. destruct (a_name a) as [n|]; [|done].
  eapply safe_bind; [by apply safe_os|]. intros _ _.
  eapply safe_bind.
  - apply (safe_attempt (fun _ => True)). eapply safe_bind; [by apply safe_open_directory|]. intros d Hd'. by apply safe_make_private.
  - intros [e|] _; [|done]. eapply safe_bind; [by apply safe_unlink_created|]. done.
Qed.

Lemma safe_private_file : writable = true → safe region (anchor_create_private_file a).
Proof.
  intros Hw. destruct at_anchor as [Hd Hn]. unfold anchor_create_private_file. destruct (a_name a) as [n|]; [|done].
  eapply safe_bind; [apply safe_os; split; [split; [done|]; split; [done|set_solver]|done]|]. intros file Hfile.
  eapply safe_bind; [by apply safe_attempt, safe_make_private|]. intros [e|] _; [|done].
  eapply safe_bind; [by apply safe_unlink_created|]. done.
Qed.

Lemma safe_open_read : safe region (anchor_open_read a).
Proof.
  destruct at_anchor as [Hd Hn]. unfold anchor_open_read. destruct (a_name a) as [n|]; [|by apply safe_dup].
  apply safe_os. split; [|done]. split; [done|]. split; [done|set_solver].
Qed.

Lemma safe_remove_directory : writable = true → safe (fun _ => True) (anchor_remove_empty_directory a).
Proof.
  intros Hw. destruct at_anchor as [Hd Hn]. unfold anchor_remove_empty_directory, target_name.
  destruct (a_name a) as [n|]; [|done]. by apply safe_unlink.
Qed.

Lemma safe_change_directory : safe (fun _ => True) (anchor_change_directory a).
Proof.
  destruct at_anchor as [Hd Hn]. unfold anchor_change_directory. eapply (safe_bind region).
  - destruct (a_name a) as [n|]; [|by apply safe_dup]. split.
    + split; [|done]. split; [done|]. split; [done|set_solver].
    + intros [[]|d] H; try done.
  - intros d Hd'. eapply safe_mono; [|by apply safe_os]. done.
Qed.
End Anchors.

Lemma safe_rename a b : anchored a → anchored b → writable = true → safe (fun _ => True) (anchor_rename_to a b).
Proof.
  intros Ha Hb Hw. unfold anchor_rename_to, target_name.
  pose proof Ha as [Hd Hn]. pose proof Hb as [Hd' Hn']. destruct (a_name a) as [n|]; [|done]. cbn [mbind Prog_bind prog_bind].
  destruct (a_name b) as [n'|] eqn:Eb; [|done]. cbn [mbind Prog_bind prog_bind].
  assert (safe (fun _ => True) (os (RenameAt (a_directory a) n (a_directory b) n'))) as Hr.
  { eapply safe_mono; [|by apply safe_os]. done. }
  eapply safe_bind; [by apply safe_attempt, safe_kind|]. intros [e|[]] _; try done. by case_bool_decide.
Qed.

(** ** The operations of a policy with roots *)

Section Roots.
Variable roots : list (RootedDir Fd).
Hypothesis roots_in : ∀ root, root ∈ roots → region (directory root).

Lemma safe_deepest name l : ∀ best, l ⊆ roots → (∀ r, best = Some r → r ∈ roots) →
  safe (fun o => ∀ r, o = Some r → r ∈ roots) (deepest_root name best l).
Proof.
  induction l as [|root l IH]; intros best Hl Hbest; cbn [deepest_root]; [done|].
  eapply safe_bind; [apply safe_covers|]. intros covered _. apply IH; [set_solver|].
  assert (root ∈ roots) as Hroot by set_solver. intros r. destruct covered; [|apply Hbest].
  destruct best as [found|]; [|by intros [= <-]]. case_match; [by intros [= <-]|apply Hbest].
Qed.

Lemma safe_root_for name : safe (fun o => ∃ root, o = Some root ∧ root ∈ roots) (root_for (Rooted roots) name).
Proof.
  unfold root_for. eapply safe_bind; [by apply safe_deepest|]. intros [root|] H; [|done]. exists root. auto.
Qed.

Lemma safe_fs_anchor p name write : scope_of p write = Rooted roots → safe anchored (fs_anchor p name write).
Proof.
  intros Hs. unfold fs_anchor. destruct (_ && _); [done|]. rewrite Hs.
  eapply safe_bind; [apply safe_root_for|]. intros ? (root & -> & Hr). by apply safe_anchor, roots_in.
Qed.

(** An operation on the anchor of a path. *)
Lemma safe_at_anchor {A} (P : A → Prop) p name write (f : Anchor Fd → Prog A) : scope_of p write = Rooted roots →
  (∀ a, anchored a → safe P (f a)) → safe P (a ← fs_anchor p name write; f a).
Proof. intros Hs Hf. eapply safe_bind; [by apply safe_fs_anchor|]. exact Hf. Qed.
End Roots.
End Region.

(** The file operations of a policy. *)
Inductive FsOp :=
| FOpen (name : string) (mode : OpenMode)
| FRemoveFile (name : string)
| FCreateDirAll (name : string)
| FEntryKind (name : string)
| FWritableEntryKind (name : string)
| FCreatePrivateDirectory (name : string)
| FCreatePrivateFile (name : string)
| FOpenEntry (name : string)
| FRemoveEmptyDirectory (name : string)
| FRename (from to : string)
| FChangeDirectory (name : string).

(** Whether the write roots decide on it. *)
Definition writes (o : FsOp) : bool :=
  match o with
  | FOpen _ mode => is_write mode
  | FEntryKind _ | FOpenEntry _ | FChangeDirectory _ => false
  | _ => true
  end.

Definition perform (p : FsPolicy Fd) (o : FsOp) : Prog (option Fd) :=
  match o with
  | FOpen name mode => d ← fs_open p name mode; Done (Ok (Some d))
  | FRemoveFile name => _ ← fs_remove_file p name; Done (Ok None)
  | FCreateDirAll name => _ ← fs_create_dir_all p name; Done (Ok None)
  | FEntryKind name => _ ← entry_kind p name; Done (Ok None)
  | FWritableEntryKind name => _ ← writable_entry_kind p name; Done (Ok None)
  | FCreatePrivateDirectory name => _ ← create_private_directory p name; Done (Ok None)
  | FCreatePrivateFile name => d ← create_private_file p name; Done (Ok (Some d))
  | FOpenEntry name => d ← open_entry p name; Done (Ok (Some d))
  | FRemoveEmptyDirectory name => _ ← remove_empty_directory p name; Done (Ok None)
  | FRename from to => _ ← rename_entry p from to; Done (Ok None)
  | FChangeDirectory name => _ ← change_directory p name; Done (Ok None)
  end.

Section Perform.
Variables (region : Fd → Prop) (p : FsPolicy Fd) (roots : list (RootedDir Fd)).
Hypothesis roots_in : ∀ root, root ∈ roots → region (directory root).

(** The descriptor an operation hands out is in the region. *)
Definition result_in (r : option Fd) : Prop := match r with Some d => region d | None => True end.

Lemma safe_result w (m : Prog unit) : safe region w (fun _ => True) m → safe region w result_in (_ ← m; Done (Ok None)).
Proof. intros H. eapply safe_bind; [exact H|]. done. Qed.
Lemma safe_kind_result w (m : Prog EntryKind) :
  safe region w (fun _ => True) m → safe region w result_in (_ ← m; Done (Ok None)).
Proof. intros H. eapply safe_bind; [exact H|]. done. Qed.
Lemma safe_fd_result w (m : Prog Fd) : safe region w region m → safe region w result_in (d ← m; Done (Ok (Some d))).
Proof. intros H. eapply safe_bind; [exact H|]. done. Qed.

Lemma perform_safe o : scope_of p (writes o) = Rooted roots → safe region (writes o) result_in (perform p o).
Proof.
  intros Hs. destruct o as [name mode|name|name|name|name|name|name|name|name|from to|name]; cbn [writes perform] in *.
  - apply safe_fd_result. unfold fs_open. destruct (_ && _); [done|]. rewrite Hs.
    eapply safe_bind; [by apply safe_root_for|]. intros ? (root & -> & Hr). apply safe_open; [by apply roots_in|done].
  - apply safe_result. unfold fs_remove_file. destruct (read_only p); [done|]. change (fs_write p) with (scope_of p true). rewrite Hs.
    eapply safe_bind; [by apply safe_root_for|]. intros ? (root & -> & Hr). apply safe_remove_file; [by apply roots_in|done].
  - apply safe_result. unfold fs_create_dir_all. destruct (read_only p); [done|]. change (fs_write p) with (scope_of p true). rewrite Hs.
    eapply safe_bind; [by apply safe_root_for|]. intros ? (root & -> & Hr). apply safe_create_dir_all; [by apply roots_in|done].
  - apply safe_kind_result, (safe_at_anchor _ _ roots roots_in); [done|]. intros. by apply safe_kind.
  - apply safe_kind_result, (safe_at_anchor _ _ roots roots_in); [done|]. intros. by apply safe_kind.
  - apply safe_result, (safe_at_anchor _ _ roots roots_in); [done|]. intros. by apply safe_private_directory.
  - apply safe_fd_result, (safe_at_anchor _ _ roots roots_in); [done|]. intros. by apply safe_private_file.
  - apply safe_fd_result, (safe_at_anchor _ _ roots roots_in); [done|]. intros. by apply safe_open_read.
  - apply safe_result, (safe_at_anchor _ _ roots roots_in); [done|]. intros. by apply safe_remove_directory.
  - apply safe_result. unfold rename_entry. apply (safe_at_anchor _ _ roots roots_in); [done|]. intros a Ha.
    apply (safe_at_anchor _ _ roots roots_in); [done|]. intros b Hb. by apply safe_rename.
  - apply safe_result, (safe_at_anchor _ _ roots roots_in); [done|]. intros. by apply safe_change_directory.
Qed.

(** A read-only policy refuses what the write roots decide on, before any call. *)
Lemma read_only_refuses o : read_only p = true → writes o = true → perform p o = Done (Err (denied FS_WRITES_DENIED)).
Proof.
  intros Hr Hw. destruct o as [name mode|name|name|name|name|name|name|name|name|from to|name]; cbn [writes] in Hw; try done;
    cbn [perform]; unfold fs_open, fs_remove_file, fs_create_dir_all, writable_entry_kind, create_private_directory,
      create_private_file, remove_empty_directory, rename_entry, fs_anchor; rewrite ?Hw, Hr; done.
Qed.
End Perform.
End Confine.

(** ** Under a kernel, with other processes *)

(** What the walk relies on: a descriptor opened at one plain name of a
    directory, not following links, is the entry of that name and no symbolic
    link; a duplicate names the same directory.  [environment] is what other
    processes do to the file system. *)
Class Kernel (Fd State : Type) := {
  sys : ∀ {X}, State → Call Fd X → X → State → Prop;
  entry : State → Fd → string → option Fd;
  symlink : State → Fd → bool;
  environment : State → State → Prop;
  openat_entry s d n flags mode i s' : sys s (OpenAt d n flags mode) (inr i) s' →
    plain_name n → O_NOFOLLOW ∈ flags → entry s' d n = Some i ∧ symlink s' i = false;
  dup_same s d d' s' : sys s (Dup d) (inr d') s' → d' = d;
}.

Record Event (Fd State : Type) := mkEvent {
  ev_answer : Type;
  ev_call : Call Fd ev_answer;
  ev_after : State;
}.
Arguments mkEvent {Fd State} _ _ _.
Arguments ev_answer {Fd State} _.
Arguments ev_call {Fd State} _.
Arguments ev_after {Fd State} _.

Section Run.
Context {Fd State : Type} `{K : !Kernel Fd State}.

(** A run: calls of the computation, answered by the kernel, and steps of the
    environment between them. *)
Inductive run {A} : State → Prog Fd A → list (Event Fd State) → res IoError A → State → Prop :=
| run_done s r : run s (Done r) [] r s
| run_call s X (c : Call Fd X) k (x : X) s' tr r s'' :
    sys s c x s' → run s' (k x) tr r s'' → run s (Ask c k) (mkEvent X c s' :: tr) r s''
| run_environment s s' p tr r s'' : environment s s' → run s' p tr r s'' → run s p tr r s''.

(** The region holds what its directories list. *)
Definition closed (region : Fd → Prop) (s : State) : Prop :=
  ∀ d n i, region d → plain_name n → entry s d n = Some i → symlink s i = false → region i.

Lemma sys_handed region X (c : Call Fd X) s x s' : within region c → closed region s' → sys s c x s' → handed region c x.
Proof.
  intros Hc Hs H. destruct c; try exact I; cbn in *; destruct x as [e|i]; try exact I.
  - apply dup_same in H as ->. exact Hc.
  - destruct Hc as (Hd & Hn & Hf). apply openat_entry in H as [He Hl]; [|done..]. by apply (Hs d name i).
Qed.

Lemma run_safe region w {A} (P : A → Prop) s (p : Prog Fd A) tr r s' : run s p tr r s' → safe region w P p →
  Forall (fun e => closed region (ev_after e)) tr →
  Forall (fun e => allowed region w (ev_call e)) tr ∧ match r with Ok a => P a | Err _ => True | _ => False end.
Proof.
  induction 1 as [s r|s X c k x s1 tr r s2 Hc Hr IH|s s1 p tr r s2 He Hr IH]; intros Hs Ht.
  - split; [apply Forall_nil_2|]. by destruct r.
  - destruct Hs as [Ha Hk]. apply list.Forall_cons in Ht as [Ht1 Ht]. cbn in Ht1.
    destruct IH as [H1 H2]; [by apply Hk, (sys_handed region X c s x s1); [apply Ha|..]|done|].
    split; [by apply Forall_cons_2|done].
  - by apply IH.
Qed.

(** C21: A rooted policy confines: an operation acts through calls that name one
    plain entry of a directory in the region and follow no symbolic link, ends
    without a panic, and hands out a descriptor of the region; what may change
    the file system is called only by the operations the write roots decide
    on.  The region is any set of files that holds the roots and, in each state
    the calls leave, whatever its directories list; other processes may rename
    and link inside and outside it between any two calls. *)
Theorem rooted_confined (region : Fd → Prop) (p : FsPolicy Fd) roots o s tr r s' :
  scope_of p (writes o) = Rooted roots → (∀ root, root ∈ roots → region (directory root)) →
  run s (perform p o) tr r s' → Forall (fun e => closed region (ev_after e)) tr →
  Forall (fun e => allowed region (writes o) (ev_call e)) tr
  ∧ match r with Ok (Some d) => region d | Ok None | Err _ => True | _ => False end.
Proof.
  intros Hs Hroots Hr Hc. destruct (run_safe region (writes o) (result_in region) s (perform p o) tr r s' Hr) as [H1 H2];
    [by apply (perform_safe region p roots)|done|]. split; [done|]. by destruct r as [[d|]| | |].
Qed.
End Run.

(** ** A small kernel

    Directories by their entries and the set of symbolic links; a call that
    opens with [O_CREAT] makes the missing entry. *)
Record Tree := mkTree { entries : gmap (Z * string) Z; links : gset Z; next : Z }.

Definition tree_open (s : Tree) (d : Z) (n : string) (flags : list Flag) : (Errno + Z) * Tree :=
  match entries s !! (d, n) with
  | Some i => (if bool_decide (i ∈ links s) then inl ELOOP else inr i, s)
  | None =>
      if bool_decide (O_CREAT ∈ flags ∧ next s ∉ links s) then
        (inr (next s), mkTree (<[(d, n) := next s]> (entries s)) (links s) (next s + 1))
      else (inl ENOENT, s)
  end.

Definition tree_sys {X} (s : Tree) (c : Call Z X) : X → Tree → Prop :=
  match c in Call _ X return X → Tree → Prop with
  | GetCwd => fun x s' => x = inr "/" ∧ s' = s
  | Dup d => fun x s' => x = inr d ∧ s' = s
  | OpenAt d n flags _ => fun x s' => (x, s') = tree_open s d n flags
  | _ => fun _ _ => False
  end.

#[export] Program Instance tree_kernel : Kernel Z Tree := {
  sys X := @tree_sys X;
  entry s d n := entries s !! (d, n);
  symlink s i := bool_decide (i ∈ links s);
  environment _ _ := True;
}.
Next Obligation.
  cbn. unfold tree_open. intros s d n flags mode i s' H _ _. destruct (entries s !! (d, n)) as [j|] eqn:He.
  - case_bool_decide as Hl; [done|]. injection H as <- ->. by rewrite He, bool_decide_eq_false_2.
  - case_bool_decide as Hc; [|done]. injection H as Hi ->. subst i. cbn.
    rewrite lookup_insert_eq, bool_decide_eq_false_2; [done|]. apply Hc.
Qed.
Next Obligation. cbn. by intros s d d' s' [[= ->] _]. Qed.

(** [/data], the only root, holds the directory [a] with the file [f]. *)
Definition data : RootedDir Z := mkRooted [RootDir; Normal "data"] [RootDir; Normal "data"] 1.
Definition data_policy : FsPolicy Z := fs_rooted [data] [data].
Definition before : Tree := mkTree {[ (1, "a") := 2; (2, "f") := 3 ]} {[ 9 ]} 20.
(** Another process puts a link in the place of [b]. *)
Definition linked : Tree := mkTree (<[(1, "b") := 9]> (entries before)) (links before) (next before).
Definition inside (d : Z) : Prop := d ∈ [1; 2; 3].

Lemma inside_closed : closed inside linked.
Proof.
  intros d n i _ _. cbn. unfold linked, before. cbn. rewrite !lookup_insert_Some, lookup_singleton_Some. unfold inside.
  intros [[_ <-]|[_ [[_ <-]|[_ [_ <-]]]]]; [by vm_compute|set_solver..].
Qed.

Lemma data_run : ∃ tr, run before (perform data_policy (FOpen "/data/a/f" Read)) tr (Ok (Some 3)) linked
  ∧ length tr = 3%nat ∧ Forall (fun e => closed inside (ev_after e)) tr.
Proof.
  eexists. split; [|split].
  - eapply run_environment; [exact I|]. eapply (run_call linked); [split; reflexivity|].
    eapply (run_call linked); [vm_compute; reflexivity|]. eapply (run_call linked); [vm_compute; reflexivity|].
    eapply run_done.
  - reflexivity.
  - repeat (apply Forall_cons_2; [apply inside_closed|]). apply Forall_nil_2.
Qed.

Lemma rooted_confined_witness : ∃ tr, run before (perform data_policy (FOpen "/data/a/f" Read)) tr (Ok (Some 3)) linked
  ∧ Forall (fun e => allowed inside false (ev_call e)) tr ∧ inside 3.
Proof.
  destruct data_run as (tr & Hr & _ & Hc). exists tr. split; [exact Hr|].
  apply (rooted_confined inside data_policy [data] (FOpen "/data/a/f" Read) before tr (Ok (Some 3)) linked);
    [reflexivity| |exact Hr|exact Hc].
  intros root [->|[]%not_elem_of_nil]%elem_of_cons. unfold inside. cbn. set_solver.
Defined.

(** A link in the place of a directory on the way is refused. *)
Lemma link_refused : ∃ tr,
  run linked (perform data_policy (FOpen "/data/b/secret" Write)) tr
    (Err (denied "filesystem path traverses a symlink")) linked ∧ length tr = 2%nat.
Proof.
  eexists. split.
  - eapply (run_call linked); [split; reflexivity|]. eapply (run_call linked); [vm_compute; reflexivity|]. eapply run_done.
  - reflexivity.
Qed.
