(* ===== verification/Narrow.v ===== *)
(** * Narrow: what the operations of a policy do to what it allows

    Every operation on a policy but the export that names a directory leaves one
    that allows no more: fewer capabilities, smaller limits, fewer roots.  That
    export adds its directory, for its access, and widens nothing else.  What
    the environment denies stays denied through the exports a compiled image
    calls, the added directories included. *)

From S2P Require Import Prelude Text Types Rooted Policy.

#[local] Open Scope string_scope.
#[local] Open Scope Z_scope.

Section Narrow.
Context {Fd : Type}.
#[local] Abbreviation Policy := (Policy Fd).
#[local] Abbreviation FsPolicy := (FsPolicy Fd).
#[local] Abbreviation Scope := (Scope Fd).

(** ** The order *)

Definition mask_le (a b : Z) : Prop := Z.land a b = a.

Definition scope_le (a b : Scope) : Prop :=
  match b with
  | Unrestricted => True
  | Rooted rb => match a with Rooted ra => ra ⊆ rb | Unrestricted => False end
  end.

(** The directories an access may use. *)
Definition grants (p : FsPolicy) (write : bool) : Scope := if write && read_only p then Rooted [] else scope_of p write.
Definition fs_le (a b : FsPolicy) : Prop := ∀ write, scope_le (grants a write) (grants b write).

(** [a] allows no more than [b]. *)
Record policy_le (a b : Policy) : Prop := mkLe {
  le_effective : mask_le (effective a) (effective b);
  le_ceiling : mask_le (ceiling a) (ceiling b);
  le_timeout : exec_timeout a <= exec_timeout b;
  le_capture : exec_capture_limit a <= exec_capture_limit b;
  le_fs : fs_le (fs a) (fs b);
}.

#[export] Instance mask_le_preorder : PreOrder mask_le.
Proof.
  split; [intros a; apply Z.land_diag|]. intros a b c H1 H2. unfold mask_le in *. rewrite <- H1 at 1. by rewrite <- Z.land_assoc, H2.
Qed.
#[export] Instance scope_le_preorder : PreOrder scope_le.
Proof. split; [intros [|r]; cbn; done|]. intros [|a] [|b] [|c]; cbn; try done. set_solver. Qed.
#[export] Instance fs_le_preorder : PreOrder fs_le.
Proof. split; [intros a w; reflexivity|]. intros a b c H1 H2 w. etransitivity; [apply H1|apply H2]. Qed.
#[export] Instance policy_le_preorder : PreOrder policy_le.
Proof.
  split; [intros a; split; reflexivity || lia|]. intros a b c [] []. split; try lia; by etransitivity.
Qed.

Lemma mask_le_land_l a b : mask_le (Z.land a b) a.
Proof. unfold mask_le. by rewrite <- Z.land_assoc, (Z.land_comm b a), Z.land_assoc, Z.land_diag. Qed.
Lemma mask_le_land_r a b : mask_le (Z.land a b) b.
Proof. rewrite Z.land_comm. apply mask_le_land_l. Qed.
Lemma mask_le_land a b c : mask_le a b → mask_le a c → mask_le a (Z.land b c).
Proof. unfold mask_le. intros H1 H2. by rewrite Z.land_assoc, H1. Qed.

(** What a policy allows, one that allows more allows too. *)
Lemma mask_allows (a b : Policy) c : mask_le (effective a) (effective b) → allows a c = true → allows b c = true.
Proof.
  intros H. unfold allows. rewrite !Z.eqb_eq. intros Ha.
  rewrite Z.land_comm. change (mask_le c (effective b)).
  transitivity (effective a); [|exact H]. unfold mask_le. by rewrite Z.land_comm.
Qed.
Lemma allows_mono a b c : policy_le a b → allows a c = true → allows b c = true.
Proof. intros [H _ _ _ _]. by apply mask_allows. Qed.

(** ** The operations *)

Lemma with_effective_le m (p : Policy) : mask_le m (effective p) → policy_le (with_effective m p) p.
Proof. intros H. split; cbn; try reflexivity; done || lia. Qed.
Lemma with_fs_le f (p : Policy) : fs_le f (fs p) → policy_le (with_fs f p) p.
Proof. intros H. split; cbn; try reflexivity; done || lia. Qed.
Lemma fs_denied_le (f : FsPolicy) : fs_le fs_denied f.
Proof. intros w. unfold grants. cbn. destruct (_ && _), w, (if _ : bool then _ else _); cbn; try done; apply list_subseteq_nil. Qed.
Lemma set_read_only_le (f : FsPolicy) : fs_le (set_read_only f) f.
Proof.
  intros w. unfold grants, set_read_only, scope_of. cbn. destruct w; cbn; [|done].
  destruct (read_only f); cbn; [done|]. destruct (fs_write f); cbn; [done|apply list_subseteq_nil].
Qed.

Lemma restrict_le m (p : Policy) : policy_le (restrict m p) p.
Proof. apply with_effective_le, mask_le_land_l. Qed.
Lemma install_ceiling_le m (p : Policy) : policy_le (install_ceiling m p) p.
Proof. split; cbn; try done; try lia; apply mask_le_land_l. Qed.
Lemma deny_filesystem_le (p : Policy) : policy_le (deny_filesystem p) p.
Proof.
  unfold deny_filesystem. transitivity (restrict (u64_not POLICY_FILESYSTEM) p); [|apply restrict_le].
  apply with_fs_le, fs_denied_le.
Qed.
Lemma reduce_timeout_le t (p : Policy) : policy_le (reduce_exec_timeout t p) p.
Proof. split; cbn; try done; lia. Qed.
Lemma reduce_capture_le b (p : Policy) : policy_le (reduce_exec_capture_limit b p) p.
Proof. unfold reduce_exec_capture_limit. destruct (Z.ltb_spec b (exec_capture_limit p)); [|done]. split; cbn; try done; lia. Qed.

Lemma apply_inputs_le i (p : Policy) : policy_le (apply_inputs i p) p.
Proof.
  unfold apply_inputs.
  set (p1 := match in_fs i with Some true => with_fs fs_denied p | Some false => _ | None => p end).
  set (p2 := if in_exec i then deny_exec p1 else p1). set (p3 := if in_env i then deny_env p2 else p2).
  set (p4 := match in_capture i with Some b => reduce_exec_capture_limit b p3 | None => p3 end).
  assert (policy_le p1 p) as H1.
  { unfold p1. destruct (in_fs i) as [[|]|]; [apply with_fs_le, fs_denied_le|apply with_fs_le, set_read_only_le|done]. }
  assert (policy_le p2 p1) as H2 by (unfold p2; destruct (in_exec i); [apply restrict_le|done]).
  assert (policy_le p3 p2) as H3 by (unfold p3; destruct (in_env i); [apply restrict_le|done]).
  assert (policy_le p4 p3) as H4 by (unfold p4; destruct (in_capture i); [apply reduce_capture_le|done]).
  transitivity p1; [|exact H1]. transitivity p2; [|exact H2]. transitivity p3; [|exact H3]. transitivity p4; [|exact H4].
  destruct (in_timeout i); [apply reduce_timeout_le|done].
Qed.

Lemma narrow_le get (p : Policy) : policy_le (narrow_from_env get p).1 p.
Proof. unfold narrow_from_env. destruct (inputs get); [done|apply apply_inputs_le]. Qed.

(** One operation of [Policy] or one of its exports, the one that names a directory apart. *)
Inductive narrowing : Policy → Policy → Prop :=
| narrow_ceiling mask p : narrowing p (install_ceiling mask p)
| narrow_restrict mask p : narrowing p (restrict mask p)
| narrow_exec p : narrowing p (deny_exec p)
| narrow_env p : narrowing p (deny_env p)
| narrow_filesystem p : narrowing p (deny_filesystem p)
| narrow_timeout t p : narrowing p (reduce_exec_timeout t p)
| narrow_capture bytes p : narrowing p (reduce_exec_capture_limit bytes p)
| narrow_read_only p : narrowing p (with_fs (set_read_only (fs p)) p)
| narrow_environment get p : narrowing p (narrow_from_env get p).1
| narrow_init get version mask p : narrowing p (bn_rt_policy_init get version mask p).1
| narrow_sandboxed get p : narrowing p (bn_rt_policy_filesystem_sandboxed get p).1.

Lemma narrowing_le p q : narrowing p q → policy_le q p.
Proof.
  destruct 1 as [| | | | | | | | |get version m p|].
  - apply install_ceiling_le.
  - apply restrict_le.
  - apply restrict_le.
  - apply restrict_le.
  - apply deny_filesystem_le.
  - apply reduce_timeout_le.
  - apply reduce_capture_le.
  - apply with_fs_le, set_read_only_le.
  - apply narrow_le.
  - unfold bn_rt_policy_init. destruct (_ || _); [done|]. pose proof (narrow_le get (install_ceiling m p)) as H.
    destruct (narrow_from_env get _) as [next [e|]]; cbn in *; [done|]. etransitivity; [exact H|apply install_ceiling_le].
  - etransitivity; [apply narrow_le|]. apply with_fs_le, fs_denied_le.
Qed.

(** Bits in force are bits of the ceiling, and the ceiling has no unknown one. *)
Definition bounded (p : Policy) : Prop := mask_le (effective p) (ceiling p) ∧ mask_le (ceiling p) POLICY_ALL.

Lemma restrict_bounded m (p : Policy) : bounded p → bounded (restrict m p).
Proof.
  intros [H1 H2]. split; [|exact H2]. cbn. etransitivity; [apply mask_le_land_r|]. apply mask_le_land_r.
Qed.
Lemma apply_inputs_bounded i (p : Policy) : bounded p → bounded (apply_inputs i p).
Proof.
  intros H. unfold apply_inputs.
  set (p1 := match in_fs i with Some true => with_fs fs_denied p | Some false => _ | None => p end).
  assert (bounded p1) as H1 by (unfold p1; destruct (in_fs i) as [[|]|]; exact H).
  set (p2 := if in_exec i then deny_exec p1 else p1).
  assert (bounded p2) as H2 by (unfold p2; destruct (in_exec i); [by apply restrict_bounded|done]).
  set (p3 := if in_env i then deny_env p2 else p2).
  assert (bounded p3) as H3 by (unfold p3; destruct (in_env i); [by apply restrict_bounded|done]).
  unfold reduce_exec_capture_limit. destruct (in_capture i) as [b|]; [destruct (b <? _)|]; destruct (in_timeout i); exact H3.
Qed.
Lemma narrow_bounded get (p : Policy) : bounded p → bounded (narrow_from_env get p).1.
Proof. intros H. unfold narrow_from_env. destruct (inputs get); [done|by apply apply_inputs_bounded]. Qed.
Lemma ceiling_bounded m (p : Policy) : bounded p → bounded (install_ceiling m p).
Proof.
  intros [H1 H2]. split; cbn; [apply mask_le_land_r|]. etransitivity; [apply mask_le_land_l|exact H2].
Qed.

Lemma narrowing_bounded p q : narrowing p q → bounded p → bounded q.
Proof.
  destruct 1 as [| | | | | | | | |get version m p|]; intros Hb; try done.
  - by apply ceiling_bounded.
  - by apply restrict_bounded.
  - by apply restrict_bounded.
  - by apply restrict_bounded.
  - apply (restrict_bounded (u64_not POLICY_FILESYSTEM)) in Hb as [H1 H2]. by split.
  - unfold reduce_exec_capture_limit. case_match; exact Hb.
  - by apply narrow_bounded.
  - unfold bn_rt_policy_init. destruct (_ || _); [done|]. pose proof (narrow_bounded get (install_ceiling m p)) as H.
    destruct (narrow_from_env get _) as [next [e|]]; cbn in *; [done|]. by apply H, ceiling_bounded.
  - by apply narrow_bounded.
Qed.

(** The result of a computation, whatever the answers to its calls. *)
Fixpoint may_yield {A} (p : Prog Fd A) (a : A) : Prop :=
  match p with Done r => r = Ok a | Ask c k => ∃ x, may_yield (k x) a end.

Lemma may_yield_bind {A B} (p : Prog Fd A) (f : A → Prog Fd B) b : may_yield (p ≫= f) b → ∃ a, may_yield p a ∧ may_yield (f a) b.
Proof.
  change (may_yield (prog_bind f p) b → ∃ a, may_yield p a ∧ may_yield (f a) b).
  induction p as [[a|e|w|]|X c k IH]; cbn; try done; [intros H; by exists a|].
  intros [x Hx]. apply IH in Hx as (a & Ha & Hb). exists a. split; [by exists x|done].
Qed.

Lemma may_yield_attempt {A} (p : Prog Fd A) a : may_yield (attempt p) (inr a) → may_yield p a.
Proof. induction p as [[x|e|w|]|X c k IH]; cbn; try done; [by intros [= ->]|]. intros [x Hx]. exists x. by apply IH. Qed.

Lemma root_result get write path p q status :
  may_yield (bn_rt_policy_filesystem_root get write path p) (q, status) →
  q = p ∨ ∃ name root, path = Some name ∧ may_yield (rooted_new name) root ∧
    q = (narrow_from_env get (with_fs (add_root (fs p) (negb (write =? 0)) root) p)).1.
Proof.
  unfold bn_rt_policy_filesystem_root. destruct path as [path|]; [|intros [= <- _]; by left].
  intros ([e|root] & Ha & [= <- _])%may_yield_bind; [by left|right]. exists path, root. split; [done|]. split; [|done].
  by apply may_yield_attempt.
Qed.

(** A directory of [a] is one of [b] or one of the named ones. *)
Definition scope_within (named : RootedDir Fd → Prop) (a b : Scope) : Prop :=
  match b with
  | Unrestricted => True
  | Rooted rb => match a with Rooted ra => ∀ root, root ∈ ra → root ∈ rb ∨ named root | Unrestricted => False end
  end.

Lemma scope_within_trans (N M : RootedDir Fd → Prop) a b c :
  scope_within N a b → scope_within M b c → scope_within (λ root, M root ∨ N root) a c.
Proof.
  destruct a as [|a], b as [|b], c as [|c]; cbn; try done. intros H1 H2 root Hr.
  destruct (H1 root Hr) as [Hb|?]; [|tauto]. destruct (H2 root Hb); tauto.
Qed.
Lemma scope_within_mono (N M : RootedDir Fd → Prop) a b : (∀ root, N root → M root) → scope_within N a b → scope_within M a b.
Proof. intros HNM. destruct a as [|a], b as [|b]; cbn; try done. intros H root Hr. destruct (H root Hr); auto. Qed.
Lemma scope_le_within N a b : scope_le a b → scope_within N a b.
Proof. destruct a as [|a], b as [|b]; cbn; try done. intros H root Hr. left. by apply H. Qed.

Lemma add_root_within (f : FsPolicy) write root access :
  scope_within (λ r, access = write ∧ r = root) (grants (add_root f write root) access) (grants f access).
Proof.
  unfold grants, add_root. destruct write, access; cbn; try by apply scope_le_within.
  - destruct (read_only f); [by apply scope_le_within|]. destruct (fs_write f) as [|roots]; cbn; [done|].
    intros r [Hr|Hr%list_elem_of_singleton]%elem_of_app; auto.
  - destruct (fs_read f) as [|roots]; cbn; [done|]. intros r [Hr|Hr%list_elem_of_singleton]%elem_of_app; auto.
Qed.

(** Operations one after the other, with the accesses and paths they name
    directories for. *)
Inductive operated : list (bool * string) → Policy → Policy → Prop :=
| operated_end p : operated [] p p
| operated_narrowing named p q r : narrowing p q → operated named q r → operated named p r
| operated_root get write path status named p q r :
    may_yield (bn_rt_policy_filesystem_root get write path p) (q, status) → operated named q r →
    operated (match path with Some path => [(negb (write =? 0), path)] | None => [] end ++ named)%list p r.

(** Everything but the directories. *)
Definition rest_le (q p : Policy) : Prop :=
  mask_le (effective q) (effective p) ∧ mask_le (ceiling q) (ceiling p) ∧ exec_timeout q <= exec_timeout p
  ∧ exec_capture_limit q <= exec_capture_limit p.
Lemma policy_le_rest a b : policy_le a b → rest_le a b.
Proof. by intros [H1 H2 H3 H4 _]. Qed.
Lemma rest_le_trans a b c : rest_le a b → rest_le b c → rest_le a c.
Proof. intros (?&?&?&?) (?&?&?&?). repeat split; try lia; by etransitivity. Qed.

(** The directories that a path named for an access may have become. *)
Definition named_roots (named : list (bool * string)) (access : bool) (root : RootedDir Fd) : Prop :=
  ∃ path, (access, path) ∈ named ∧ may_yield (rooted_new path) root.

Lemma root_export_widens get write path p q status : may_yield (bn_rt_policy_filesystem_root get write path p) (q, status) →
  rest_le q p ∧ (bounded p → bounded q) ∧
  ∀ access, scope_within (named_roots (match path with Some path => [(negb (write =? 0), path)] | None => [] end) access)
              (grants (fs q) access) (grants (fs p) access).
Proof.
  intros [->|(name & root & -> & Hr & ->)]%root_result.
  { split; [by apply policy_le_rest|]. split; [done|]. intros access. by apply scope_le_within. }
  set (p1 := with_fs _ p). pose proof (narrow_le get p1) as Hle. split; [|split].
  - apply (rest_le_trans _ p1); [by apply policy_le_rest|]. by repeat split.
  - intros Hb. by apply narrow_bounded.
  - intros access. eapply scope_within_mono; [|eapply (scope_within_trans (λ _, False)); [apply scope_le_within, (le_fs _ _ Hle)|apply add_root_within]].
    intros r [[-> ->]|[]]. exists name. split; [by left|done].
Qed.


(** ** What the environment denies *)

(** The inputs are in force. *)
Record in_force (i : Inputs) (p : Policy) : Prop := mkInForce {
  force_fs : match in_fs i with
             | Some true => ∀ write, grants (fs p) write = Rooted []
             | Some false => grants (fs p) true = Rooted []
             | None => True
             end;
  force_exec : in_exec i = true → exec_allowed (exec p) = false;
  force_env : in_env i = true → env_allowed p = false;
  force_capture : match in_capture i with Some bytes => exec_capture_limit p <= bytes | None => True end;
  force_timeout : match in_timeout i with Some ms => exec_timeout p <= from_millis ms | None => True end;
}.

Lemma scope_le_nil (s : Scope) : scope_le s (Rooted []) → s = Rooted [].
Proof. destruct s as [|r]; [done|]. cbn. intros H. by apply list_nil_subseteq in H as ->. Qed.

Lemma in_force_mono i p q : policy_le q p → in_force i p → in_force i q.
Proof.
  intros Hle [H1 H2 H3 H4 H5]. pose proof Hle as [_ _ Ht Hc Hf]. split.
  - destruct (in_fs i) as [[|]|]; [|..|done].
    + intros w. apply scope_le_nil. rewrite <- (H1 w). apply Hf.
    + apply scope_le_nil. rewrite <- H1. apply Hf.
  - intros Hi. specialize (H2 Hi). cbn in *. apply not_true_is_false. intros Ha. by rewrite (allows_mono _ _ _ Hle Ha) in H2.
  - intros Hi. specialize (H3 Hi). unfold env_allowed in *. apply not_true_is_false. intros Ha.
    by rewrite (allows_mono _ _ _ Hle Ha) in H3.
  - destruct (in_capture i); [lia|done].
  - destruct (in_timeout i); [lia|done].
Qed.

Lemma restrict_denies bit m (p : Policy) : bit ≠ 0 → Z.land m bit = 0 → allows (restrict m p) bit = false.
Proof.
  intros Hb Hm. unfold allows. cbn. apply Z.eqb_neq. intros H. apply Hb. rewrite <- H.
  rewrite <- !Z.land_assoc, (Z.land_comm (ceiling p) bit), (Z.land_assoc m bit), Hm. by rewrite Z.land_0_l, Z.land_0_r.
Qed.

(** Each input is applied by one step, and the later ones only narrow. *)
Lemma apply_inputs_force i (p : Policy) : in_force i (apply_inputs i p).
Proof.
  unfold apply_inputs.
  set (p1 := match in_fs i with Some true => with_fs fs_denied p | Some false => _ | None => p end).
  set (p2 := if in_exec i then deny_exec p1 else p1). set (p3 := if in_env i then deny_env p2 else p2).
  set (p4 := match in_capture i with Some b => reduce_exec_capture_limit b p3 | None => p3 end).
  set (p5 := match in_timeout i with Some ms => reduce_exec_timeout (from_millis ms) p4 | None => p4 end).
  assert (policy_le p2 p1) as H2 by (unfold p2; destruct (in_exec i); [apply restrict_le|done]).
  assert (policy_le p3 p2) as H3 by (unfold p3; destruct (in_env i); [apply restrict_le|done]).
  assert (policy_le p4 p3) as H4 by (unfold p4; destruct (in_capture i); [apply reduce_capture_le|done]).
  assert (policy_le p5 p4) as H5 by (unfold p5; destruct (in_timeout i); [apply reduce_timeout_le|done]).
  assert (policy_le p5 p3) as H53 by by etransitivity. assert (policy_le p5 p2) as H52 by by etransitivity.
  assert (policy_le p5 p1) as H51 by by etransitivity. split.
  - destruct (in_fs i) as [[|]|] eqn:Hf; [| |done].
    + intros w. apply scope_le_nil. etransitivity; [apply H51|]. unfold p1. destruct w; reflexivity.
    + apply scope_le_nil. etransitivity; [apply H51|]. unfold p1. reflexivity.
  - intros Hi. apply not_true_is_false. intros Ha. apply (allows_mono _ _ _ H52) in Ha. revert Ha. unfold p2. rewrite Hi.
    unfold deny_exec. by rewrite (restrict_denies POLICY_EXEC).
  - intros Hi. apply not_true_is_false. intros Ha. apply (allows_mono _ _ _ H53) in Ha. revert Ha. unfold p3. rewrite Hi.
    unfold deny_env. by rewrite (restrict_denies POLICY_ENV).
  - destruct (in_capture i) as [b|] eqn:Hb; [|done]. etransitivity; [apply (le_capture _ _ H5)|]. unfold p4.
    unfold reduce_exec_capture_limit. destruct (Z.ltb_spec b (exec_capture_limit p3)); cbn; lia.
  - destruct (in_timeout i) as [ms|] eqn:Hms; [|done]. unfold p5. cbn. lia.
Qed.

(** A compiled image: [bn_rt_policy_init], then the exports that name the
    directories it may use, in any order, the environment unchanged. *)
Inductive configured (get : string → option string) (mask : Z) : Policy → Prop :=
| configured_init version p q : bounded p → bn_rt_policy_init get version mask p = (q, POLICY_OK) → configured get mask q
| configured_sandboxed p : configured get mask p →
    configured get mask (bn_rt_policy_filesystem_sandboxed get p).1
| configured_root p write path q status : configured get mask p →
    may_yield (bn_rt_policy_filesystem_root get write path p) (q, status) → configured get mask q.

(** What the environment of a compiled image denies is in force from
    [bn_rt_policy_init] on, however many directories the image then names: a
    denied file system grants no directory, a read-only one none to write, the
    denied capabilities are off, the limits are at most the given ones.  The
    capabilities stay within the ceiling of the image, and a malformed input
    configures nothing. *)
Theorem environment_in_force get mask p : configured get mask p →
  ∃ i, inputs get = inr i ∧ in_force i p ∧ bounded p ∧ mask_le (effective p) mask.
Proof.
  assert (∀ f p, bounded p → bounded (with_fs f p)) as Hfs by done.
  induction 1 as [version p q Hb Hi|p Hc (i & Hi & Hf & Hb & Hm)|p write path q status Hc (i & Hi & Hf & Hb & Hm) Hy].
  - unfold bn_rt_policy_init in Hi. destruct (_ || _); [done|]. unfold narrow_from_env in Hi.
    destruct (inputs get) as [e|i] eqn:He; [done|]. injection Hi as <-. exists i. split; [done|].
    split; [apply apply_inputs_force|]. split; [by apply apply_inputs_bounded, ceiling_bounded|].
    etransitivity; [apply apply_inputs_le|]. cbn. etransitivity; [apply mask_le_land_r|apply mask_le_land_r].
  - exists i. split; [done|]. unfold bn_rt_policy_filesystem_sandboxed, narrow_from_env. rewrite Hi. cbn.
    split; [apply apply_inputs_force|]. split; [by apply apply_inputs_bounded, Hfs|].
    etransitivity; [apply apply_inputs_le|]. exact Hm.
  - apply root_result in Hy as [->|(name & root & _ & _ & ->)]; exists i; [done|]. split; [done|]. unfold narrow_from_env. rewrite Hi. cbn.
    split; [apply apply_inputs_force|]. split; [by apply apply_inputs_bounded, Hfs|].
    etransitivity; [apply apply_inputs_le|]. exact Hm.
Qed.
End Narrow.

(** The files are read only; the image then asks to write under [/data]. *)
Definition locked_down (variable : string) : option string :=
  if String.eqb variable "BN_FS_POLICY" then Some "read-only"
  else if String.eqb variable "BN_EXEC_TIMEOUT_MS" then Some "250"
  else None.
Definition image_root : RootedDir nat :=
  let path := [RootDir; Normal "data"] in mkRooted path path 3%nat.
Definition image_policy : Policy nat :=
  let sandboxed := (bn_rt_policy_filesystem_sandboxed locked_down (bn_rt_policy_init locked_down 1 POLICY_ALL unrestricted).1).1 in
  (narrow_from_env locked_down (with_fs (add_root (fs sandboxed) true image_root) sandboxed)).1.

Lemma environment_in_force_witness :
  configured locked_down POLICY_ALL image_policy ∧
  (∃ i, inputs locked_down = inr i ∧ in_force i image_policy ∧ bounded image_policy ∧
    mask_le (effective image_policy) POLICY_ALL) ∧
  fs_write (fs image_policy) = Rooted [image_root] ∧ grants (fs image_policy) true = Rooted [].
Proof.
  assert (configured locked_down POLICY_ALL image_policy) as H.
  { eapply (configured_root _ _ _ 1 (Some "/data")).
    - eapply configured_sandboxed, (configured_init _ _ 1 unrestricted); [by split|vm_compute; reflexivity].
    - cbn. exists (inr [RootDir; Normal "data"]). cbn. exists (inr (S_IFDIR, (1, 2))). cbn.
      exists (inr (S_IFDIR, (1, 2))). cbn. exists (inr 3%nat). cbn. exists (inr (S_IFDIR, (1, 2))). vm_compute. reflexivity. }
  split; [exact H|]. split; [exact (environment_in_force _ _ _ H)|]. split; vm_compute; reflexivity.
Defined.

(** A process that may do everything: the children denied, the directories
    closed, then [/data] opened for writing. *)
Definition data_policy : Policy nat :=
  let p := (bn_rt_policy_filesystem_sandboxed (fun _ => None) (deny_exec unrestricted)).1 in
  with_fs (add_root (fs p) true image_root) p.
