(* ===== verification/FileError.v ===== *)
(** * FileError: a failed file operation and its BN error ([crates/bn_rt/src/file_error.rs])

    Why an operation of [HOST.FileSystem] failed, and the code, operation,
    message and cause of the [Error] it becomes.  The texts are those of the
    catalog; what the system says about an error is a parameter. *)

From S2P Require Import Prelude Text Scalars Entries Rooted.

#[local] Open Scope string_scope.
#[local] Open Scope Z_scope.

(** The codes of [error_codes::fs]. *)
Module fs.
Definition INVALID_ARGUMENT : Z := 1.
Definition NOT_FOUND : Z := 2.
Definition PERMISSION_DENIED : Z := 3.
Definition IS_DIRECTORY : Z := 4.
Definition CLOSED : Z := 5.
Definition WRONG_FAMILY : Z := 6.
Definition INVALID_UTF8 : Z := 7.
Definition IO_FAILED : Z := 8.
Definition POLICY_DENIED : Z := 9.
Definition IS_NOT_DIRECTORY : Z := 10.
Definition DIRECTORY_NOT_EMPTY : Z := 11.
Definition ALREADY_EXISTS : Z := 12.
End fs.

Inductive FsOperation :=
| OpOpen | OpExists | OpDeleteFile | OpClose | OpReadLine | OpReadAll | OpWrite | OpWriteLine | OpReadBytes | OpWriteBytes
| OpGetCurrentDirectory | OpSetCurrentDirectory | OpCreateDirectory | OpRemoveDirectory | OpIsDirectory | OpOpenNew
| OpCopy | OpMove.
#[export] Instance FsOperation_eq_dec : EqDecision FsOperation.
Proof. solve_decision. Defined.

(** [FsOperation::name] *)
Definition operation_name (o : FsOperation) : string :=
  match o with
  | OpOpen => "HOST.FileSystem.Open"
  | OpExists => "HOST.FileSystem.Exists"
  | OpDeleteFile => "HOST.FileSystem.DeleteFile"
  | OpClose => "HOST.FileSystem.File.Close"
  | OpReadLine => "HOST.FileSystem.File.ReadLine"
  | OpReadAll => "HOST.FileSystem.File.ReadAll"
  | OpWrite => "HOST.FileSystem.File.Write"
  | OpWriteLine => "HOST.FileSystem.File.WriteLine"
  | OpReadBytes => "HOST.FileSystem.File.ReadBytes"
  | OpWriteBytes => "HOST.FileSystem.File.WriteBytes"
  | OpGetCurrentDirectory => "HOST.FileSystem.GetCurrentDirectory"
  | OpSetCurrentDirectory => "HOST.FileSystem.SetCurrentDirectory"
  | OpCreateDirectory => "HOST.FileSystem.CreateDirectory"
  | OpRemoveDirectory => "HOST.FileSystem.RemoveDirectory"
  | OpIsDirectory => "HOST.FileSystem.IsDirectory"
  | OpOpenNew => "HOST.FileSystem.OpenNew"
  | OpCopy => "HOST.FileSystem.Copy"
  | OpMove => "HOST.FileSystem.Move"
  end.

(** [FsOperation::action] *)
Definition action (o : FsOperation) : res string string :=
  match o with
  | OpClose => Ok "flush"
  | OpReadLine => Ok "read a line from"
  | OpReadAll => Ok "read"
  | OpWrite | OpWriteLine => Ok "write to"
  | OpReadBytes => Ok "read bytes from"
  | OpWriteBytes => Ok "write bytes to"
  | OpOpen => Ok "open"
  | OpExists => Ok "check"
  | OpDeleteFile => Ok "delete"
  | OpGetCurrentDirectory | OpSetCurrentDirectory | OpCreateDirectory | OpRemoveDirectory | OpIsDirectory | OpOpenNew
  | OpCopy | OpMove => Panic "the 0.6.12 operations take their message from the catalog"
  end.

Inductive Failure :=
| UnknownMode (mode : Z)
| PolicyDenied (reason : string)
| Directory
| Closed
| WrongFamily (binary_in_use : bool)
| InvalidUtf8 (bytes : list ascii)
| NotDirectory (symlink : bool)
| NotEmpty
| EntryExists
| NotRegularSource
| CrossDevice
| WrongMode (writing : bool)
| Io (error : IoError).

Inductive Subject :=
| SPath (path : string) (mode : option OpenMode)
| SFile (path : option string)
| SPair (source destination : string)
| SProcess.

Record FileError := mkFileError { operation : FsOperation; subject : Subject; failure_of : Failure }.

Definition on_path (o : FsOperation) (path : string) (mode : option OpenMode) (f : Failure) : FileError :=
  mkFileError o (SPath path mode) f.
Definition on_pair (o : FsOperation) (source destination : string) (f : Failure) : FileError :=
  mkFileError o (SPair source destination) f.
Definition on_process (o : FsOperation) (f : Failure) : FileError := mkFileError o SProcess f.
Definition on_file (o : FsOperation) (path : option string) (f : Failure) : FileError := mkFileError o (SFile path) f.

Definition mode_name (mode : OpenMode) : string :=
  match mode with Read => "READ" | Write => "WRITE" | Append => "APPEND" end.

(** [FileError::code] *)
Definition file_code (e : FileError) : Z :=
  match failure_of e with
  | UnknownMode _ | NotRegularSource => fs.INVALID_ARGUMENT
  | PolicyDenied _ => fs.POLICY_DENIED
  | Directory => fs.IS_DIRECTORY
  | Closed => fs.CLOSED
  | WrongFamily _ => fs.WRONG_FAMILY
  | InvalidUtf8 _ => fs.INVALID_UTF8
  | WrongMode _ | CrossDevice => fs.IO_FAILED
  | NotDirectory _ => fs.IS_NOT_DIRECTORY
  | NotEmpty => fs.DIRECTORY_NOT_EMPTY
  | EntryExists => fs.ALREADY_EXISTS
  | Io error =>
      match error_kind error with
      | NotFound => fs.NOT_FOUND
      | PermissionDenied => fs.PERMISSION_DENIED
      | _ => fs.IO_FAILED
      end
  end.

Definition quoted (s : string) : string := QUOTE +:+ s +:+ QUOTE.

(** [FileError::entry_message] *)
Definition entry_message (e : FileError) : option string :=
  let '(path, destination) :=
    match subject e with
    | SPath path _ | SFile (Some path) => (path, "")
    | SPair source destination => (source, destination)
    | SFile None | SProcess => ("", "")
    end in
  let about text := Some (filled text [("path", path)]) in
  let between text := Some (filled text [("source", path); ("destination", destination)]) in
  match operation e with
  | OpGetCurrentDirectory => Some "cannot read the current directory"
  | OpSetCurrentDirectory => about ("cannot change the current directory to " +:+ quoted "{path}")
  | OpCreateDirectory => about ("cannot create the directory " +:+ quoted "{path}")
  | OpRemoveDirectory => about ("cannot remove the directory " +:+ quoted "{path}")
  | OpIsDirectory => about ("cannot check whether " +:+ quoted "{path}" +:+ " is a directory")
  | OpOpenNew => about ("cannot create the file " +:+ quoted "{path}")
  | OpCopy => between ("cannot copy " +:+ quoted "{source}" +:+ " to " +:+ quoted "{destination}")
  | OpMove => between ("cannot move " +:+ quoted "{source}" +:+ " to " +:+ quoted "{destination}")
  | _ => None
  end.

(** [FileError::message] *)
Definition file_message (e : FileError) : res string string :=
  match entry_message e with
  | Some message => Ok message
  | None =>
      action ← action (operation e);
      match subject e, failure_of e with
      | SPath path _, UnknownMode mode =>
          Ok (filled ("cannot open " +:+ quoted "{path}" +:+ " in mode {mode}") [("path", path); ("mode", dec_of_Z mode)])
      | SPath path (Some mode), _ =>
          Ok (filled ("cannot open " +:+ quoted "{path}" +:+ " for {purpose}") [("path", path); ("purpose", mode_name mode)])
      | SPath path None, _ =>
          if bool_decide (operation e = OpExists) then
            Ok (filled ("cannot check whether " +:+ quoted "{path}" +:+ " exists") [("path", path)])
          else Ok ("cannot " +:+ action +:+ " " +:+ quoted path)
      | SFile (Some path), _ => Ok ("cannot " +:+ action +:+ " " +:+ quoted path)
      | SFile None, _ => Ok ("cannot " +:+ action +:+ " a file")
      | SPair _ _, _ | SProcess, _ => Panic "only the 0.6.12 operations name two paths or none"
      end
  end.

Section Cause.
(** The texts of the standard library and the system. *)
Variables (utf8_error_text : list ascii → string) (io_error_text : IoError → string).

(** [FileError::cause] *)
Definition file_cause (e : FileError) : string :=
  match failure_of e with
  | UnknownMode _ => "the mode must be FS.READ (0), FS.WRITE (1), or FS.APPEND (2)"
  | PolicyDenied reason => reason
  | Directory => "the path is a directory, not a file"
  | Closed =>
      match subject e with
      | SFile None => "the file was never opened (NEW FS.File() makes a closed file)"
      | _ => "the file is closed"
      end
  | WrongFamily binary_in_use =>
      filled "the file is in {family} use; a file keeps the family of its first successful method until Close"
        [("family", if binary_in_use : bool then "binary" else "text")]
  | InvalidUtf8 bytes => "the bytes are not UTF-8: " +:+ utf8_error_text bytes
  | WrongMode true => "the file is open for READ; open it with FS.WRITE or FS.APPEND to write"
  | WrongMode false => "the file is open for writing; open it with FS.READ to read"
  | NotDirectory false => "the path is not a directory"
  | NotDirectory true => "the path is a symbolic link, which is not followed"
  | NotEmpty => "the directory has entries"
  | EntryExists => "the path already exists, and an existing entry is never replaced or changed"
  | NotRegularSource => "the source is a symbolic link or not a regular file, and a link is not followed"
  | CrossDevice => "the source and the destination are on different file systems, and a move does not copy"
  | Io error => io_error_text error
  end.
End Cause.

Example open_message :
  file_message (on_path OpOpen "a.txt" (Some Append) Directory) = Ok ("cannot open " +:+ quoted "a.txt" +:+ " for APPEND").
Proof. vm_compute. reflexivity. Qed.
Example never_opened :
  file_message (on_file OpReadAll None Closed) = Ok "cannot read a file".
Proof. vm_compute. reflexivity. Qed.

(** Two paths, or none, only with the operations whose message is in the
    catalog: no other error can be told. *)
Definition told (e : FileError) : Prop :=
  match subject e with SPair _ _ | SProcess => is_Some (entry_message e) | _ => True end.

Lemma told_message e : told e → ∃ message, file_message e = Ok message.
Proof.
  unfold told, file_message. destruct (entry_message e) as [m|] eqn:He; [by exists m|].
  assert (∃ a, action (operation e) = Ok a) as [a ->].
  { revert He. unfold entry_message. destruct (match subject e with SPair _ _ => _ | _ => _ end) as [a b].
    destruct (operation e); try done; intros _; by eexists. }
  cbn. destruct (subject e) as [path [mode|]|[path|]|s d|], (failure_of e); try (intros [? [=]]); intros _;
    try case_bool_decide; by eexists.
Qed.

(** Every code is one of the twelve of [error_codes::fs]. *)
Lemma file_code_range e : 1 ≤ file_code e ≤ 12.
Proof. unfold file_code. destruct (failure_of e) as [| | | | | | | | | | | |error]; try by vm_compute. by destruct (error_kind error). Qed.
