(* ===== verification/Files.v ===== *)
(** * Files: an open file ([OpenFile] of [crates/bn_rt/src/file.rs])

    Reading lines through a buffer of 8 KB, reading the rest, bytes, writing,
    and closing, with the text or binary family of a file.  The handle is a
    stream: the system answers each call with some of the bytes or an error,
    as it pleases. *)

From S2P Require Import Prelude Text Scalars Rooted FileError.

#[local] Open Scope string_scope.
#[local] Open Scope Z_scope.

Abbreviation Bytes := (list ascii).

(** ** The handle ([std::fs::File]) *)

(** The next answers of the system: so many bytes at most, or an error. *)
Inductive Reply := Count (n : nat) | Fails (e : IoError).
Definition counts (r : Reply) : bool := match r with Count _ => true | Fails _ => false end.

(** The bytes ahead of a reader or behind a writer.  Without a reply left the
    system does all that is asked. *)
Record Stream := mkStream { bytes : Bytes; replies : list Reply }.

(** [Read::read] into a buffer of [size] bytes: none only at the end. *)
Definition read (size : nat) (f : Stream) : (IoError + Bytes) * Stream :=
  match replies f with
  | [] => (inr (take size (bytes f)), mkStream (drop size (bytes f)) [])
  | Count n :: more => let n := (size `min` S n)%nat in (inr (take n (bytes f)), mkStream (drop n (bytes f)) more)
  | Fails e :: more => (inl e, mkStream (bytes f) more)
  end.

Definition interrupted (e : IoError) : bool := bool_decide (error_kind e = Interrupted).

(** [Read::read_to_end]: an interrupted read is made again. *)
Fixpoint to_end (replies : list Reply) (bytes : Bytes) : (IoError + Bytes) * Stream :=
  match replies with
  | [] => (inr bytes, mkStream [] [])
  | Count n :: more =>
      match bytes with
      | [] => (inr [], mkStream [] more)
      | _ =>
          let '(result, f) := to_end more (drop (S n) bytes) in
          (match result with inr rest => inr (take (S n) bytes ++ rest)%list | inl e => inl e end, f)
      end
  | Fails e :: more => if interrupted e then to_end more bytes else (inl e, mkStream bytes more)
  end.
Definition read_to_end (f : Stream) : (IoError + Bytes) * Stream := to_end (replies f) (bytes f).

Definition WRITE_ZERO : IoError := Os (EOTHER 0).

(** [Write::write_all]: what is written before an error stays written. *)
Fixpoint write_loop (replies : list Reply) (written data : Bytes) : (IoError + unit) * Stream :=
  match data with
  | [] => (inr tt, mkStream written replies)
  | _ =>
      match replies with
      | [] => (inr tt, mkStream (written ++ data) [])
      | Count O :: more => (inl WRITE_ZERO, mkStream written more)
      | Count n :: more => write_loop more (written ++ take n data) (drop n data)
      | Fails e :: more => if interrupted e then write_loop more written data else (inl e, mkStream written more)
      end
  end%list.
Definition write_all (data : Bytes) (f : Stream) : (IoError + unit) * Stream := write_loop (replies f) (bytes f) data.

(** [File::sync_all] *)
Fixpoint sync_loop (replies : list Reply) : IoError + unit :=
  match replies with
  | Fails e :: more => if interrupted e then sync_loop more else inl e
  | _ => inr tt
  end.
Definition sync_all (f : Stream) : IoError + unit := sync_loop (replies f).

(** ** [OpenFile] *)

Inductive Family := FText | FBinary.
#[export] Instance Family_eq_dec : EqDecision Family.
Proof. solve_decision. Defined.

(** An [FS.File]; the handle is a stream, or the descriptor it stands for. *)
Record OpenFile (F : Type) := mkOpen {
  file : option F;
  file_path : option string;
  file_writable : bool;
  family : option Family;
  buffer : Bytes;
  buffer_pos : nat;
}.
Arguments mkOpen {F} file file_path file_writable family buffer buffer_pos.
Arguments file {F} o.
Arguments file_path {F} o.
Arguments file_writable {F} o.
Arguments family {F} o.
Arguments buffer {F} o.
Arguments buffer_pos {F} o.

(** [open] and [open_new] make it; [Default] is the closed file. *)
Definition opened {F} (handle : F) (path : string) (writable : bool) : OpenFile F :=
  mkOpen (Some handle) (Some path) writable None [] 0.
Definition never_opened {F} : OpenFile F := mkOpen None None false None [] 0.

Abbreviation StreamFile := (OpenFile Stream).

Definition with_file (f : option Stream) (o : StreamFile) : StreamFile :=
  mkOpen f (file_path o) (file_writable o) (family o) (buffer o) (buffer_pos o).
Definition with_family (f : option Family) (o : StreamFile) : StreamFile :=
  mkOpen (file o) (file_path o) (file_writable o) f (buffer o) (buffer_pos o).
Definition with_buffer (b : Bytes) (pos : nat) (o : StreamFile) : StreamFile :=
  mkOpen (file o) (file_path o) (file_writable o) (family o) b pos.

Definition file_error (o : StreamFile) (operation : FsOperation) (f : Failure) : FileError :=
  on_file operation (file_path o) f.

(** [file_for]: the handle, for the family and the direction. *)
Definition file_for (wanted : Family) (writing : bool) (o : StreamFile) : res Failure Stream :=
  match file o with
  | None => Err Closed
  | Some f =>
      match family o with
      | Some current => if bool_decide (current = wanted) then if Bool.eqb writing (file_writable o) then Ok f else Err (WrongMode writing)
                        else Err (WrongFamily (bool_decide (current = FBinary)))
      | None => if Bool.eqb writing (file_writable o) then Ok f else Err (WrongMode writing)
      end
  end.

(** What a method gives, with the file after it. *)
Abbreviation Done_with A := (res Failure A * StreamFile)%type.

(** The failure as an error of the operation. *)
Definition reported {A} (operation : FsOperation) (r : Done_with A) : res FileError A * StreamFile :=
  (match r.1 with
   | Ok a => Ok a
   | Err f => Err (file_error r.2 operation f)
   | Panic w => Panic w
   | Fuel => Fuel
   end, r.2).

Definition and_then {A B} (r : Done_with A) (k : A → StreamFile → Done_with B) : Done_with B :=
  match r with
  | (Ok a, o) => k a o
  | (Err f, o) => (Err f, o)
  | (Panic w, o) => (Panic w, o)
  | (Fuel, o) => (Fuel, o)
  end.
Definition borrow (wanted : Family) (writing : bool) (o : StreamFile) : Done_with Stream := (file_for wanted writing o, o).

(** [Close()] *)
Definition close (o : StreamFile) : res FileError unit * StreamFile :=
  let cleared := with_file None (with_buffer [] 0 (with_family None o)) in
  match file o with
  | None => (Ok tt, cleared)
  | Some f =>
      if negb (file_writable o) then (Ok tt, cleared)
      else
        match sync_all f with
        | inr _ => (Ok tt, cleared)
        | inl e => (Err (file_error cleared OpClose (Io e)), cleared)
        end
  end.

Definition LINE_FEED : ascii := byte_of 10.
Definition CARRIAGE_RETURN : ascii := byte_of 13.
Definition BUFFER_SIZE : nat := 8192.

(** [Vec::resize] with zeros *)
Definition resize (n : nat) (b : Bytes) : Bytes := (take n b ++ replicate (n - length b) (byte_of 0))%list.

(** The bytes before the first line feed. *)
Fixpoint before_feed (b : Bytes) : option Bytes :=
  match b with
  | [] => None
  | c :: b => if Ascii.eqb c LINE_FEED then Some []
              else match before_feed b with Some line => Some (c :: line) | None => None end
  end.

(** The end of a round: the next bytes into the buffer, and another round when
    there are any. *)
Definition refill (again : StreamFile → Done_with (Bytes * bool)) (line : Bytes) (read_any : bool) (o : StreamFile) :
    Done_with (Bytes * bool) :=
  let o := with_buffer (resize BUFFER_SIZE (buffer o)) (buffer_pos o) o in
  match file o with
  | None => (Panic "file verified by file_for", o)
  | Some f =>
      match read BUFFER_SIZE f with
      | (inl e, f) => (Err (Io e), with_file (Some f) o)
      | (inr got, f) =>
          let o := with_buffer got 0 (with_file (Some f) o) in
          match got with [] => (Ok (line, read_any), o) | _ => again o end
      end
  end.

(** The loop of [read_line_bytes]: the bytes of the line, and whether any was
    read. *)
Fixpoint line_loop (fuel : nat) (line : Bytes) (read_any : bool) (o : StreamFile) : Done_with (Bytes * bool) :=
  match fuel with
  | O => (Fuel, o)
  | S fuel =>
      if (buffer_pos o <? length (buffer o))%nat then
        let available := drop (buffer_pos o) (buffer o) in
        match before_feed available with
        | Some start =>
            (Ok ((line ++ start)%list, true), with_buffer (buffer o) (buffer_pos o + length start + 1) o)
        | None =>
            let line := (line ++ available)%list in
            refill (line_loop fuel line true) line true (with_buffer (buffer o) (length (buffer o)) o)
        end
      else refill (line_loop fuel line read_any) line read_any o
  end.

(** A line loses the carriage return at its end. *)
Definition without_return (line : Bytes) : Bytes :=
  match list.last line with
  | Some c => if Ascii.eqb c CARRIAGE_RETURN then removelast line else line
  | None => line
  end.

Definition text_of_line (line : Bytes) (o : StreamFile) : Done_with (option string) :=
  match from_utf8 line with
  | Some text => (Ok (Some text), with_family (Some FText) o)
  | None => (Err (InvalidUtf8 line), o)
  end.

(** Each round but the first takes bytes from the file. *)
Definition line_fuel (o : StreamFile) : nat :=
  match file o with Some f => S (length (bytes f)) | None => 1 end.

Definition read_line_bytes (o : StreamFile) : Done_with (option string) :=
  and_then (borrow FText false o) (fun _ o =>
  and_then (line_loop (line_fuel o) [] false o) (fun '(line, read_any) o =>
    if read_any : bool then text_of_line (without_return line) o else (Ok None, with_family (Some FText) o))).
Definition read_line (o : StreamFile) : res FileError (option string) * StreamFile := reported OpReadLine (read_line_bytes o).

Definition read_all_text (o : StreamFile) : Done_with string :=
  and_then (borrow FText false o) (fun f o =>
    let ahead := drop (buffer_pos o) (buffer o) in
    let o := if (buffer_pos o <? length (buffer o))%nat then with_buffer (buffer o) (length (buffer o)) o else o in
    match read_to_end f with
    | (inl e, f) => (Err (Io e), with_file (Some f) o)
    | (inr rest, f) =>
        let o := with_file (Some f) o in
        match from_utf8 (ahead ++ rest)%list with
        | Some text => (Ok text, with_family (Some FText) o)
        | None => (Err (InvalidUtf8 (ahead ++ rest)%list), o)
        end
    end).
Definition read_all (o : StreamFile) : res FileError string * StreamFile := reported OpReadAll (read_all_text o).

(** [write_all] on the handle. *)
Definition put (data : Bytes) (f : Stream) (o : StreamFile) : Done_with Stream :=
  match write_all data f with
  | (inl e, f) => (Err (Io e), with_file (Some f) o)
  | (inr _, f) => (Ok f, with_file (Some f) o)
  end.

(** [write_text]: the line feed is a second write. *)
Definition write_text (text : string) (line : bool) (o : StreamFile) : Done_with unit :=
  and_then (borrow FText true o) (fun f o =>
  and_then (put (str_bytes text) f o) (fun f o =>
  and_then (if line then put [LINE_FEED] f o else (Ok f, o)) (fun _ o => (Ok tt, with_family (Some FText) o)))).
Definition write (text : string) (line : bool) (o : StreamFile) : res FileError unit * StreamFile :=
  reported (if line then OpWriteLine else OpWrite) (write_text text line o).

(** [ReadBytes] into a buffer of [size] bytes: what it got, [None] at the end. *)
Definition read_into (size : nat) (o : StreamFile) : Done_with (option Bytes) :=
  and_then (borrow FBinary false o) (fun f o =>
    match read size f with
    | (inl e, f) => (Err (Io e), with_file (Some f) o)
    | (inr got, f) =>
        (Ok (match got with [] => None | _ => Some got end), with_family (Some FBinary) (with_file (Some f) o))
    end).
Definition read_bytes (size : nat) (o : StreamFile) : res FileError (option Bytes) * StreamFile :=
  reported OpReadBytes (read_into size o).

Definition write_from (data : Bytes) (o : StreamFile) : Done_with unit :=
  and_then (borrow FBinary true o) (fun f o =>
  and_then (put data f o) (fun _ o => (Ok tt, with_family (Some FBinary) o))).
Definition write_bytes (data : Bytes) (o : StreamFile) : res FileError unit * StreamFile :=
  reported OpWriteBytes (write_from data o).

Definition ascii_bytes (s : string) : Bytes := str_bytes s.
Definition sample : StreamFile :=
  opened (mkStream (ascii_bytes "one" ++ [CARRIAGE_RETURN; LINE_FEED] ++ ascii_bytes "two") [Count 1; Count 0])%list "a.txt" false.
Example sample_lines :
  let r := read_line sample in let s := read_line r.2 in let e := read_line s.2 in
  (r.1, s.1, e.1) = (Ok (Some "one"), Ok (Some "two"), Ok None).
Proof. vm_compute. reflexivity. Qed.

(** ** Reading in order *)

(** The bytes not yet given out. *)
Definition pending (o : StreamFile) : Bytes :=
  (drop (buffer_pos o) (buffer o) ++ match file o with Some f => bytes f | None => [] end)%list.

(** Open for reading, not in binary use, and the system reports no error. *)
Record reading (path : string) (o : StreamFile) : Prop := mkReading {
  r_file : ∃ f, file o = Some f ∧ forallb counts (replies f) = true;
  r_path : file_path o = Some path;
  r_mode : file_writable o = false;
  r_family : family o = None ∨ family o = Some FText;
  r_pos : (buffer_pos o <= length (buffer o))%nat;
}.

(** The first line, without its end, and what follows it. *)
Definition cut (b : Bytes) : Bytes * Bytes :=
  match before_feed b with Some line => (line, drop (S (length line)) b) | None => (b, []) end.

(** Reference: the text cut after each line feed. *)
Fixpoint lines_from (line b : Bytes) : list Bytes :=
  match b with
  | [] => match line with [] => [] | _ => [line] end
  | c :: b => if Ascii.eqb c LINE_FEED then line :: lines_from [] b else lines_from (line ++ [c]) b
  end%list.
Definition file_lines (b : Bytes) : list Bytes := map without_return (lines_from [] b).

Lemma before_feed_app a b : before_feed (a ++ b)%list =
  match before_feed a with
  | Some line => Some line
  | None => match before_feed b with Some line => Some (a ++ line)%list | None => None end
  end.
Proof.
  induction a as [|c a IH]; cbn [before_feed app]; [by destruct (before_feed b)|]. destruct (Ascii.eqb c LINE_FEED); [done|].
  rewrite IH. destruct (before_feed a); [done|]. by destruct (before_feed b).
Qed.

Lemma before_feed_length b line : before_feed b = Some line → (length line < length b)%nat.
Proof.
  revert line. induction b as [|c b IH]; intros line; cbn [before_feed]; [done|]. destruct (Ascii.eqb c LINE_FEED); [intros [= <-]; cbn; lia|].
  destruct (before_feed b) as [l|]; [|done]. intros [= <-]. cbn. specialize (IH l eq_refl). lia.
Qed.

Lemma lines_from_cut line b : (line ++ b)%list ≠ [] →
  lines_from line b = (line ++ (cut b).1)%list :: lines_from [] (cut b).2.
Proof.
  unfold cut. revert line. induction b as [|c b IH]; intros line Hne; cbn [lines_from before_feed].
  { rewrite app_nil_r in *. by destruct line. }
  destruct (Ascii.eqb c LINE_FEED) eqn:Hc; cbn; [by rewrite app_nil_r, drop_0|].
  rewrite IH by (by destruct line). rewrite <- app_assoc. destruct (before_feed b); done.
Qed.

Lemma read_counts size f : forallb counts (replies f) = true → (0 < size)%nat →
  ∃ n more, (0 < n)%nat ∧ read size f = (inr (take n (bytes f)), mkStream (drop n (bytes f)) more) ∧ forallb counts more = true.
Proof.
  unfold read. intros H Hs. destruct (replies f) as [|[n|e] more]; [exists size, []; auto| |done].
  exists (size `min` S n)%nat, more. split; [lia|]. done.
Qed.

Lemma buffer_size_pos : (0 < BUFFER_SIZE)%nat.
Proof. by apply Nat.ltb_lt. Qed.

(** One round of the loop gives the rest of the line, whatever the answers. *)
Lemma line_loop_spec path fuel : ∀ line read_any o f, reading path o → file o = Some f → (length (bytes f) < fuel)%nat →
  ∃ o', line_loop fuel line read_any o =
      (Ok ((line ++ (cut (pending o)).1)%list, read_any || bool_decide (pending o ≠ [])), o')
    ∧ pending o' = (cut (pending o)).2 ∧ reading path o'.
Proof.
  induction fuel as [|fuel IH]; intros line read_any o f Hr Hf Hlen; [lia|]. cbn [line_loop].
  assert (∀ line read_any o, reading path o → file o = Some f → buffer_pos o = length (buffer o) →
    ∃ o', refill (line_loop fuel line read_any) line read_any o = (Ok ((line ++ (cut (bytes f)).1)%list, read_any || bool_decide (bytes f ≠ [])), o')
      ∧ pending o' = (cut (bytes f)).2 ∧ reading path o') as Hrefill.
  { clear - IH Hlen. intros line read_any o [(f' & Hf' & Hcounts) Hp Hm Hfam Hpos] Hf Hend. rewrite Hf in Hf'. injection Hf' as <-.
    unfold refill. cbn [file with_buffer]. rewrite Hf. destruct (read_counts BUFFER_SIZE f Hcounts) as (n & more & Hn & -> & Hmore); [apply buffer_size_pos|].
    assert (∀ got b, reading path (mkOpen (Some (mkStream b more)) (file_path o) (file_writable o) (family o) got 0)) as Hnext.
    { intros got b. split; cbn; [eexists; split; [done|done]|done|done|done|lia]. }
    destruct (bytes f) as [|c b] eqn:Hb.
    { rewrite take_nil. eexists. split; [cbn; by rewrite app_nil_r, orb_false_r|]. cbn. rewrite drop_nil in *.
      split; [done|]. apply Hnext. }
    destruct n as [|n]; [lia|]. cbn [take]. set (o1 := with_buffer _ _ _).
    destruct (IH line read_any o1 (mkStream (drop (S n) (c :: b)) more)) as (o' & He & Hp' & Hr'); [apply Hnext|done| |].
    { cbn. cbn in Hlen. rewrite length_drop. lia. }
    assert (pending o1 = c :: b) as Hpend by (cbn; by rewrite take_drop). rewrite Hpend in *.
    exists o'. done. }
  pose proof Hr as [_ Hp Hm Hfam Hpos].
  destruct (Nat.ltb_spec (buffer_pos o) (length (buffer o))) as [Hlt|Hge].
  - assert (drop (buffer_pos o) (buffer o) ≠ []) as Hne by (intros E; apply (f_equal length) in E; rewrite length_drop in E; cbn in E; lia).
    assert (pending o = drop (buffer_pos o) (buffer o) ++ bytes f)%list as Hpend by (unfold pending; by rewrite Hf).
    assert (bool_decide (pending o ≠ []) = true) as -> by (apply bool_decide_eq_true; rewrite Hpend; by destruct (drop _ _)).
    unfold cut. rewrite Hpend, before_feed_app.
    destruct (before_feed (drop (buffer_pos o) (buffer o))) as [start|] eqn:Hs.
    + eexists. split; [by rewrite orb_true_r|]. pose proof (before_feed_length _ _ Hs) as Hl. rewrite length_drop in Hl.
      split.
      * unfold pending. cbn. rewrite Hf. rewrite drop_app_le by (rewrite length_drop; lia). rewrite drop_drop. do 2 f_equal. lia.
      * destruct Hr as [Hfile _ _ _ _]. split; cbn; try done. lia.
    + destruct (Hrefill (line ++ drop (buffer_pos o) (buffer o))%list true (with_buffer (buffer o) (length (buffer o)) o)) as (o' & He & Hp' & Hr');
        [destruct Hr as [Hfile _ _ _ _]; by split; cbn|done|done|].
      exists o'. rewrite He, orb_true_r. unfold cut in *. destruct (before_feed (bytes f)); cbn in *;
        (split; [by rewrite app_assoc|]); (split; [|done]).
      * rewrite Hp'. rewrite length_app, drop_app_ge by lia. f_equal. lia.
      * done.
  - destruct (Hrefill line read_any o Hr Hf) as (o' & He & Hp' & Hr'); [lia|].
    assert (pending o = bytes f) as Hpend by (unfold pending; rewrite Hf, drop_ge by lia; done). rewrite Hpend. by exists o'.
Qed.

Lemma borrow_reading path o : reading path o → ∃ f, file o = Some f ∧ forallb counts (replies f) = true ∧
  borrow FText false o = (Ok f, o).
Proof.
  intros [(f & Hf & Hc) _ Hm Hfam _]. exists f. split; [done|]. split; [done|]. unfold borrow, file_for.
  rewrite Hf, Hm. by destruct Hfam as [-> | ->].
Qed.

Lemma reading_family path o : reading path o → reading path (with_family (Some FText) o).
Proof. intros []. split; cbn; auto. Qed.

Definition told_line (path : string) (line : Bytes) : res FileError (option string) :=
  match from_utf8 line with
  | Some text => Ok (Some text)
  | None => Err (on_file OpReadLine (Some path) (InvalidUtf8 line))
  end.

Lemma read_line_spec path o : reading path o →
  ∃ o', read_line o = (match pending o with [] => Ok None | p => told_line path (without_return (cut p).1) end, o')
    ∧ pending o' = (cut (pending o)).2 ∧ reading path o'.
Proof.
  intros Hr. destruct (borrow_reading _ _ Hr) as (f & Hf & _ & Hb). unfold read_line, read_line_bytes. rewrite Hb. cbn [and_then].
  unfold line_fuel. rewrite Hf. destruct (line_loop_spec path (S (length (bytes f))) [] false o f Hr Hf) as (o' & He & Hp & Hr'); [lia|].
  rewrite He. cbn [and_then app orb]. destruct (pending o) as [|c p] eqn:Hpend.
  { cbn. exists (with_family (Some FText) o'). split; [done|]. split; [done|by apply reading_family]. }
  rewrite bool_decide_true by done. unfold text_of_line, told_line.
  destruct (from_utf8 _) as [text|]; cbn -[cut].
  - exists (with_family (Some FText) o'). split; [done|]. split; [done|by apply reading_family].
  - exists o'. unfold reported, file_error. cbn -[cut]. by rewrite (r_path _ _ Hr').
Qed.

Fixpoint read_lines (n : nat) (o : StreamFile) : list (res FileError (option string)) * StreamFile :=
  match n with
  | O => ([], o)
  | S n => let '(r, o) := read_line o in let '(rs, o) := read_lines n o in (r :: rs, o)
  end.

(** What is left after [n] lines. *)
Fixpoint after_lines (n : nat) (b : Bytes) : Bytes :=
  match n with O => b | S n => after_lines n (cut b).2 end.

Lemma read_lines_spec path n : ∀ o, reading path o →
  (read_lines n o).1 = take n (map (told_line path) (file_lines (pending o)) ++ replicate n (Ok None))%list
  ∧ pending (read_lines n o).2 = after_lines n (pending o) ∧ reading path (read_lines n o).2.
Proof.
  induction n as [|n IH]; intros o Hr; [done|]. destruct (read_line_spec path o Hr) as (o' & He & Hp & Hr').
  cbn [read_lines after_lines]. rewrite He. destruct (IH o' Hr') as (Hl & Hp' & Hr''). destruct (read_lines n o') as [rs o''].
  cbn [fst snd] in *. rewrite Hl, Hp', Hp. split; [|done]. destruct (pending o) as [|c p] eqn:Hpend.
  { done. }
  unfold file_lines at 2. rewrite (lines_from_cut []) by done. cbn [map app take]. f_equal.
  replace (replicate (S n) (@Ok FileError _ (@None string))) with (replicate n (@Ok FileError _ (@None string)) ++ [Ok None])%list
    by (by rewrite <- replicate_S_end).
  rewrite app_assoc. rewrite (take_app_le _ [_]); [done|]. rewrite length_app, length_replicate. lia.
Qed.

(** A file just opened. *)
Lemma opened_reading content replies path : forallb counts replies = true →
  reading path (opened (mkStream content replies) path false).
Proof. intros H. split; cbn; auto. by eexists. Qed.

Lemma to_end_counts replies : ∀ b, forallb counts replies = true → ∃ f, to_end replies b = (inr b, f).
Proof.
  induction replies as [|[n|e] more IH]; intros b; cbn [to_end forallb counts andb]; [by eexists| |done]. intros H.
  destruct b as [|c b]; [by eexists|]. destruct (IH (drop (S n) (c :: b)) H) as [f ->]. rewrite take_drop. by eexists.
Qed.

Lemma read_all_spec path o : reading path o →
  (read_all o).1 = match from_utf8 (pending o) with
                   | Some text => Ok text
                   | None => Err (on_file OpReadAll (Some path) (InvalidUtf8 (pending o)))
                   end.
Proof.
  intros Hr. destruct (borrow_reading _ _ Hr) as (f & Hf & Hc & Hb). unfold read_all, read_all_text. rewrite Hb. cbn [and_then].
  unfold read_to_end. destruct (to_end_counts (replies f) (bytes f) Hc) as [f' ->]. unfold pending. rewrite Hf.
  destruct (from_utf8 _); [done|]. unfold reported, file_error. cbn. by case_match; cbn; rewrite (r_path _ _ Hr).
Qed.

(** Whatever pieces the system hands the file out in, [ReadLine] gives its
    lines in order, each without its line feed and one carriage return, then
    EOF again and again; a line that is not UTF-8 is an error of its own and
    the reading goes on after it.  [ReadAll] gives exactly what the lines read
    so far leave. *)
Theorem reads_in_order content replies path n : forallb counts replies = true →
  let r := read_lines n (opened (mkStream content replies) path false) in
  r.1 = take n (map (told_line path) (file_lines content) ++ replicate n (Ok None))%list ∧
  (read_all r.2).1 = match from_utf8 (after_lines n content) with
                     | Some text => Ok text
                     | None => Err (on_file OpReadAll (Some path) (InvalidUtf8 (after_lines n content)))
                     end.
Proof.
  intros H. destruct (read_lines_spec path n _ (opened_reading content replies path H)) as (Hl & Hp & Hr).
  split; [exact Hl|]. rewrite (read_all_spec path) by exact Hr. rewrite Hp. done.
Qed.

(** ** Written and read back *)

(** The system may take a write in pieces and interrupt it, but not fail it. *)
Definition patient (r : Reply) : bool :=
  match r with Count O => false | Count _ => true | Fails e => interrupted e end.

Lemma write_loop_patient replies : ∀ written data, forallb patient replies = true →
  ∃ more, write_loop replies written data = (inr tt, mkStream (written ++ data)%list more) ∧ forallb patient more = true.
Proof.
  induction replies as [|[[|n]|e] more IH]; intros written data H; destruct data as [|c data];
    cbn [write_loop] in *; rewrite ?app_nil_r; eauto; cbn [forallb patient] in H; try done.
  - apply andb_prop in H as [_ H]. destruct (IH (written ++ take (S n) (c :: data))%list (drop (S n) (c :: data)) H) as (m & -> & Hm).
    exists m. by rewrite <- app_assoc, take_drop.
  - apply andb_prop in H as [He H]. rewrite He. by apply IH.
Qed.

(** Open for writing text, with these bytes written. *)
Record writing (o : StreamFile) (written : Bytes) : Prop := mkWriting {
  w_file : ∃ more, file o = Some (mkStream written more) ∧ forallb patient more = true;
  w_mode : file_writable o = true;
  w_family : family o = None ∨ family o = Some FText;
}.

Lemma put_patient o written data more : writing o written → forallb patient more = true →
  ∃ f o', put data (mkStream written more) o = (Ok f, o') ∧ writing o' (written ++ data)%list ∧ file o' = Some f
    ∧ ∃ more', f = mkStream (written ++ data)%list more' ∧ forallb patient more' = true.
Proof.
  intros [_ Hm Hfam] H. unfold put, write_all. cbn. destruct (write_loop_patient more written data H) as (m & -> & Hm').
  eexists _, _. split; [done|]. split; [|split; [done|by eexists]]. split; cbn; [by eexists|done|done].
Qed.

Lemma write_spec text o written : writing o written →
  ∃ o', write text true o = (Ok tt, o') ∧ writing o' (written ++ str_bytes text ++ [LINE_FEED])%list.
Proof.
  intros Hw. pose proof Hw as [(more & Hf & Hp) Hm Hfam]. unfold write, write_text.
  assert (borrow FText true o = (Ok (mkStream written more), o)) as ->.
  { unfold borrow, file_for. rewrite Hf, Hm. by destruct Hfam as [-> | ->]. }
  cbn [and_then]. destruct (put_patient o written (str_bytes text) more Hw Hp) as (f & o1 & -> & Hw1 & Hf1 & more1 & -> & Hp1).
  cbn [and_then]. destruct (put_patient o1 _ [LINE_FEED] more1 Hw1 Hp1) as (f2 & o2 & -> & [Hf2 Hm2 _] & _).
  cbn [and_then]. eexists. split; [done|]. rewrite app_assoc. split; cbn; auto.
Qed.

Fixpoint write_lines (texts : list string) (o : StreamFile) : list (res FileError unit) * StreamFile :=
  match texts with
  | [] => ([], o)
  | t :: texts => let '(r, o) := write t true o in let '(rs, o) := write_lines texts o in (r :: rs, o)
  end.

Definition lines_bytes (texts : list string) : Bytes := concat (map (fun t => str_bytes t ++ [LINE_FEED])%list texts).

Lemma write_lines_spec texts : ∀ o written, writing o written →
  (write_lines texts o).1 = map (fun _ => Ok tt) texts ∧
  writing (write_lines texts o).2 (written ++ lines_bytes texts)%list.
Proof.
  induction texts as [|t texts IH]; intros o written Hw; cbn [write_lines map]; [unfold lines_bytes; cbn; by rewrite app_nil_r|].
  destruct (write_spec t o written Hw) as (o' & -> & Hw'). destruct (IH o' _ Hw') as [Hl Hr].
  destruct (write_lines texts o') as [rs o'']. cbn [fst snd] in *. rewrite Hl. split; [done|].
  unfold lines_bytes in *. cbn [map concat]. by rewrite app_assoc.
Qed.

(** A text that is one line of its own. *)
Definition is_line (t : string) : bool :=
  is_utf8 t && bool_decide (before_feed (str_bytes t) = None) && bool_decide (without_return (str_bytes t) = str_bytes t).

Lemma lines_from_free line a b : before_feed a = None → lines_from line (a ++ LINE_FEED :: b)%list = (line ++ a)%list :: lines_from [] b.
Proof.
  revert line. induction a as [|c a IH]; intros line; cbn [before_feed lines_from app].
  { intros _. by rewrite Ascii.eqb_refl, app_nil_r. }
  destruct (Ascii.eqb c LINE_FEED); [done|]. destruct (before_feed a); [done|]. intros _. rewrite IH by done.
  by rewrite <- app_assoc.
Qed.

Lemma of_str_bytes s : of_bytes (str_bytes s) = s.
Proof. induction s as [|c s IH]; cbn; [done|]. by rewrite IH. Qed.

Lemma file_lines_written path texts : Forall (fun t => is_line t = true) texts →
  map (told_line path) (file_lines (lines_bytes texts)) = map (fun t => Ok (Some t)) texts.
Proof.
  unfold lines_bytes, file_lines. induction 1 as [|t texts Ht _ IH]; [done|]. cbn [map concat].
  rewrite <- app_assoc. unfold is_line in Ht. rewrite !andb_true_iff, !bool_decide_eq_true in Ht. destruct Ht as [[Hu Hf] Hr].
  cbn [app]. rewrite lines_from_free by done. cbn [map app]. rewrite Hr, IH. f_equal. unfold told_line, from_utf8.
  by rewrite of_str_bytes, Hu.
Qed.

(** The texts [WriteLine] writes, line by line, whatever pieces the system
    takes them in and however often it interrupts a write, are the lines
    [ReadLine] gives of that file, then EOF; each text must be one line: valid,
    without a line feed and without a carriage return at its end. *)
Theorem written_lines_read_back texts path wr rr :
  forallb patient wr = true → forallb counts rr = true → Forall (fun t => is_line t = true) texts →
  let w := write_lines texts (opened (mkStream [] wr) path true) in
  w.1 = map (fun _ => Ok tt) texts ∧
  ∃ f, file w.2 = Some f ∧
    (read_lines (S (length texts)) (opened (mkStream (bytes f) rr) path false)).1 = (map (fun t => Ok (Some t)) texts ++ [Ok None])%list.
Proof.
  intros Hw Hr Ht. destruct (write_lines_spec texts (opened (mkStream [] wr) path true) []) as [Hl [(more & Hf & _) _ _]].
  { split; cbn; eauto. }
  split; [exact Hl|]. eexists. split; [exact Hf|]. cbn [bytes app].
  destruct (read_lines_spec path (S (length texts)) _ (opened_reading (lines_bytes texts) rr path Hr)) as (-> & _).
  change (pending _) with (lines_bytes texts). rewrite file_lines_written by done.
  replace (replicate _ _) with (([Ok None] : list (res FileError (option string))) ++ replicate (length texts) (Ok None))%list by done.
  rewrite app_assoc. rewrite take_app_length'; [done|]. rewrite length_app, length_map. cbn. lia.
Qed.

(** ** The family of a file *)

(** What the file is in use for decides on every method until [Close]. *)
Lemma other_family wanted writing o current f : file o = Some f → family o = Some current → current ≠ wanted →
  file_for wanted writing o = Err (WrongFamily (bool_decide (current = FBinary))).
Proof. intros Hf Hc Hne. unfold file_for. rewrite Hf, Hc. by rewrite bool_decide_false. Qed.

Lemma closed_answers wanted writing o : file o = None → file_for wanted writing o = Err Closed.
Proof. unfold file_for. by intros ->. Qed.

(** [Close] releases the handle even when the flush fails, and again succeeds
    afterwards. *)
Lemma close_closes o : file (close o).2 = None ∧ (close (close o).2).1 = Ok tt.
Proof. unfold close. destruct (file o); [|done]. destruct (negb _); [done|]. by destruct (sync_all _). Qed.

(** ** Where it goes wrong *)

(** A read that fails leaves the buffer filled with zeros in front of the
    file: the next line starts with 8192 NUL characters. *)
Definition interrupted_file : StreamFile :=
  opened (mkStream (ascii_bytes "hi" ++ [LINE_FEED]) [Fails (Os EINTR)])%list "a.txt" false.
Example nul_line :
  let r := read_line interrupted_file in
  (r.1, (read_line r.2).1) =
  (Err (on_file OpReadLine (Some "a.txt") (Io (Os EINTR))),
   Ok (Some (of_bytes (replicate 8192 (byte_of 0)) +:+ "hi"))).
Proof. vm_compute. reflexivity. Qed.

(** A line that is not UTF-8 leaves the file without a family: [ReadBytes] is
    accepted, and what the buffer holds is lost to it. *)
Definition binary_file : StreamFile :=
  opened (mkStream ([byte_of 255; LINE_FEED] ++ ascii_bytes "abc") [])%list "a.bin" false.
Example buffered_bytes_lost :
  let r := read_line binary_file in
  (r.1, (read_bytes 3 r.2).1) =
  (Err (on_file OpReadLine (Some "a.bin") (InvalidUtf8 [byte_of 255])), Ok None).
Proof. vm_compute. reflexivity. Qed.

(** The last line loses a carriage return although no line feed follows it. *)
Example last_return_lost :
  (read_line (opened (mkStream (ascii_bytes "a" ++ [CARRIAGE_RETURN]) [])%list "a.txt" false)).1 = Ok (Some "a").
Proof. vm_compute. reflexivity. Qed.

(** ** Witnesses *)

Definition two_lines : Bytes := (ascii_bytes "one" ++ [CARRIAGE_RETURN; LINE_FEED] ++ ascii_bytes "two")%list.
Lemma reads_in_order_witness :
  let r := read_lines 1 (opened (mkStream two_lines [Count 1; Count 0])%list "a.txt" false) in
  r.1 = [Ok (Some "one")] ∧ (read_all r.2).1 = Ok "two".
Proof. exact (reads_in_order two_lines [Count 1; Count 0] "a.txt" 1 eq_refl). Defined.

Lemma written_lines_read_back_witness :
  let w := write_lines ["one"; ""] (opened (mkStream [] [Count 2; Fails (Os EINTR); Count 1]) "a.txt" true) in
  w.1 = [Ok tt; Ok tt] ∧
  ∃ f, file w.2 = Some f ∧
    (read_lines 3 (opened (mkStream (bytes f) [Count 0]) "a.txt" false)).1 = [Ok (Some "one"); Ok (Some ""); Ok None].
Proof.
  apply (written_lines_read_back ["one"; ""] "a.txt" [Count 2; Fails (Os EINTR); Count 1] [Count 0]); [reflexivity|reflexivity|].
  repeat (apply list.Forall_cons; split; [vm_compute; reflexivity|]). apply list.Forall_nil. done.
Defined.
