(* ===== verification/FileOps.v ===== *)
(** * FileOps: the operations of [HOST.FileSystem] on paths ([crates/bn_rt/src/file.rs], [file_entries.rs])

    Opening, existence, deletion, directories, private creation, copy and
    move, over the entry operations of the policy.  Each is a tree of system
    calls whose result is a value or the error the program sees. *)

From S2P Require Import Prelude Text Scalars Rooted Policy FileError Files.

#[local] Open Scope string_scope.
#[local] Open Scope Z_scope.

Definition ROOT_REFUSAL : Failure := PolicyDenied ROOT_NOT_TARGET.
Definition PATH_NOT_TEXT : string := "the path of the current directory is not valid text".

(** The mode of [FS.READ], [FS.WRITE] and [FS.APPEND]. *)
Definition open_mode (path : string) (mode : Z) : FileError + OpenMode :=
  if mode =? 0 then inr Read
  else if mode =? 1 then inr Write
  else if mode =? 2 then inr Append
  else inl (on_path OpOpen path None (UnknownMode mode)).

(** [not_a_directory] *)
Definition not_a_directory (kind : EntryKind) : option Failure :=
  match kind with
  | KDirectory => None
  | KSymlink => Some (NotDirectory true)
  | KFile | KOther => Some (NotDirectory false)
  end.

Section Operations.
Context {Fd : Type}.
#[local] Abbreviation Prog := (Prog Fd).
Variable policy : FsPolicy Fd.

Definition gives {A} (a : A) : Prog (FileError + A) := Done (Ok (inr a)).
Definition refuses {A} (e : FileError) : Prog (FileError + A) := Done (Ok (inl e)).

(** [Path::is_dir] *)
Definition is_dir (path : string) : Prog bool :=
  status ← attempt (os (StatPath (components path)));
  Done (Ok (match status with inr (mode, _) => bool_decide (kind_of_mode mode = KDirectory) | inl _ => false end)).

(** [failure]: why an open or a removal failed. *)
Definition failure (path : string) (write : bool) (error : IoError) : Prog Failure :=
  if negb (bool_decide (error_kind error = PermissionDenied)) then Done (Ok (Io error))
  else
    allowed ← allows_path policy path write;
    if negb allowed then Done (Ok (PolicyDenied (denial_reason policy write)))
    else
      directory ← is_dir path;
      Done (Ok (if directory : bool then Directory else Io error)).

(** [entry_failure] *)
Definition entry_failure (path : string) (write : bool) (error : IoError) : Prog Failure :=
  match error_kind error with
  | KindAlreadyExists => Done (Ok EntryExists)
  | NotADirectory => Done (Ok (NotDirectory false))
  | DirectoryNotEmpty => Done (Ok NotEmpty)
  | CrossesDevices => Done (Ok CrossDevice)
  | _ => failure path write error
  end.

(** [map_err]: the error of the system, classified, as the error of the operation. *)
Definition or_failure {A B} (m : Prog A) (classify : IoError → Prog Failure) (fail : Failure → FileError)
    (k : A → Prog (FileError + B)) : Prog (FileError + B) :=
  r ← attempt m;
  match r with
  | inr a => k a
  | inl e => f ← classify e; refuses (fail f)
  end.

(** [metadata().is_ok_and(...)] of an open file *)
Definition open_kind (d : Fd) : Prog (option EntryKind) :=
  status ← attempt (os (Fstat d));
  Done (Ok (match status with inr (mode, _) => Some (kind_of_mode mode) | inl _ => None end)).

(** [FS.Open] *)
Definition open (path : string) (mode : OpenMode) : Prog (FileError + OpenFile Fd) :=
  let write := is_write mode in
  let fail := on_path OpOpen path (Some mode) in
  or_failure (fs_open policy path mode) (failure path write) fail (fun d =>
    kind ← open_kind d;
    if bool_decide (kind = Some KDirectory) then refuses (fail Directory)
    else gives (opened d path write)).

(** [FS.Exists] *)
Definition exists_ (path : string) : Prog (FileError + bool) :=
  r ← attempt (fs_open policy path Read);
  match r with
  | inr d => kind ← open_kind d; gives (bool_decide (kind = Some KFile))
  | inl e =>
      if bool_decide (error_kind e = NotFound) then gives false
      else
        f ← failure path false e;
        match f with
        | Directory => gives false
        | f => refuses (on_path OpExists path None f)
        end
  end.

(** [FS.DeleteFile] *)
Definition delete_file (path : string) : Prog (FileError + unit) :=
  or_failure (fs_remove_file policy path) (failure path true) (on_path OpDeleteFile path None) gives.

(** [FS.GetCurrentDirectory] *)
Definition get_current_directory : Prog (FileError + string) :=
  let fail := on_process OpGetCurrentDirectory in
  r ← attempt (os GetCwd);
  match r with
  | inl e => refuses (fail (Io e))
  | inr directory =>
      allowed ← allows_path policy directory false;
      if negb allowed then refuses (fail (PolicyDenied (denial_reason policy false)))
      else if is_utf8 directory then gives directory
      else refuses (fail (Io (InvalidData PATH_NOT_TEXT)))
  end.

(** [FS.SetCurrentDirectory] *)
Definition set_current_directory (path : string) : Prog (FileError + unit) :=
  let fail := on_path OpSetCurrentDirectory path None in
  or_failure (entry_kind policy path) (entry_failure path false) fail (fun kind =>
    match not_a_directory kind with
    | Some f => refuses (fail f)
    | None => or_failure (change_directory policy path) (entry_failure path false) fail gives
    end).

(** [FS.CreateDirectory] *)
Definition create_directory (path : string) : Prog (FileError + unit) :=
  or_failure (create_private_directory policy path) (entry_failure path true) (on_path OpCreateDirectory path None) gives.

(** [FS.OpenNew] *)
Definition open_new (path : string) : Prog (FileError + OpenFile Fd) :=
  or_failure (create_private_file policy path) (entry_failure path true) (on_path OpOpenNew path None)
    (fun d => gives (opened d path true)).

(** [FS.RemoveDirectory] *)
Definition remove_directory (path : string) : Prog (FileError + unit) :=
  let fail := on_path OpRemoveDirectory path None in
  root ← names_a_root policy path;
  if root : bool then refuses (fail ROOT_REFUSAL)
  else
    or_failure (writable_entry_kind policy path) (entry_failure path true) fail (fun kind =>
      match not_a_directory kind with
      | Some f => refuses (fail f)
      | None => or_failure (remove_empty_directory policy path) (entry_failure path true) fail gives
      end).

(** [FS.IsDirectory] *)
Definition is_directory (path : string) : Prog (FileError + bool) :=
  or_failure (entry_kind policy path) (entry_failure path false) (on_path OpIsDirectory path None)
    (fun kind => gives (bool_decide (kind = KDirectory))).

(** [FS.Copy] *)
Definition copy_data (input output : Fd) : Prog unit := _ ← os (CopyData input output); os (SyncAll output).
Definition copy (source destination : string) : Prog (FileError + unit) :=
  let fail := on_pair OpCopy source destination in
  or_failure (entry_kind policy source) (entry_failure source false) fail (fun kind =>
    match kind with
    | KDirectory => refuses (fail Directory)
    | KSymlink | KOther => refuses (fail NotRegularSource)
    | KFile =>
        or_failure (open_entry policy source) (entry_failure source false) fail (fun input =>
          kind ← open_kind input;
          if negb (bool_decide (kind = Some KFile)) then refuses (fail NotRegularSource)
          else
            or_failure (create_private_file policy destination) (entry_failure destination true) fail (fun output =>
              r ← attempt (copy_data input output);
              match r with
              | inr _ => gives tt
              | inl e => _ ← attempt (fs_remove_file policy destination); refuses (fail (Io e))
              end))
    end).

(** [FS.Move] *)
Definition move_entry (source destination : string) : Prog (FileError + unit) :=
  let fail := on_pair OpMove source destination in
  root ← names_a_root policy source;
  root ← (if root : bool then Done (Ok true) else names_a_root policy destination);
  if root : bool then refuses (fail ROOT_REFUSAL)
  else
    or_failure (writable_entry_kind policy source) (entry_failure source true) fail (fun _ =>
      or_failure (rename_entry policy source destination)
        (fun e =>
           allowed ← allows_path policy source true;
           entry_failure (if allowed : bool then destination else source) true e)
        fail gives).
End Operations.
