(* ===== verification/FileSafety.v ===== *)
(** * FileSafety: what the file operations answer and where they act

    Whatever the system answers, an operation of [HOST.FileSystem] gives a
    value or an error that has its code, message and cause; under a policy with
    roots it acts below the roots only.  Both follow from one interface that
    the policy's own operations meet ([Orderly]). *)

From S2P Require Import Prelude Text Scalars Rooted Policy Confine FileError Files FileOps.

#[local] Open Scope string_scope.
#[local] Open Scope Z_scope.

Section Safety.
Context {Fd : Type}.
#[local] Abbreviation Prog := (Prog Fd).

(** ** The operations *)
Inductive FileOp :=
| DoOpen (path : string) (mode : OpenMode)
| DoExists (path : string)
| DoDeleteFile (path : string)
| DoGetCurrentDirectory
| DoSetCurrentDirectory (path : string)
| DoCreateDirectory (path : string)
| DoOpenNew (path : string)
| DoRemoveDirectory (path : string)
| DoIsDirectory (path : string)
| DoCopy (source destination : string)
| DoMove (source destination : string).

Definition operation_of (o : FileOp) : FsOperation :=
  match o with
  | DoOpen _ _ => OpOpen
  | DoExists _ => OpExists
  | DoDeleteFile _ => OpDeleteFile
  | DoGetCurrentDirectory => OpGetCurrentDirectory
  | DoSetCurrentDirectory _ => OpSetCurrentDirectory
  | DoCreateDirectory _ => OpCreateDirectory
  | DoOpenNew _ => OpOpenNew
  | DoRemoveDirectory _ => OpRemoveDirectory
  | DoIsDirectory _ => OpIsDirectory
  | DoCopy _ _ => OpCopy
  | DoMove _ _ => OpMove
  end.

(** The result of an operation: the error, or the handle of an opened file. *)
Definition handle {A} (f : A → option Fd) (m : Prog (FileError + A)) : Prog (FileError + option Fd) :=
  r ← m; Done (Ok (match r with inl e => inl e | inr a => inr (f a) end)).
Definition perform_file (p : FsPolicy Fd) (o : FileOp) : Prog (FileError + option Fd) :=
  match o with
  | DoOpen path mode => handle file (open p path mode)
  | DoExists path => handle (fun _ => None) (exists_ p path)
  | DoDeleteFile path => handle (fun _ => None) (delete_file p path)
  | DoGetCurrentDirectory => handle (fun _ => None) (get_current_directory p)
  | DoSetCurrentDirectory path => handle (fun _ => None) (set_current_directory p path)
  | DoCreateDirectory path => handle (fun _ => None) (create_directory p path)
  | DoOpenNew path => handle file (open_new p path)
  | DoRemoveDirectory path => handle (fun _ => None) (remove_directory p path)
  | DoIsDirectory path => handle (fun _ => None) (is_directory p path)
  | DoCopy source destination => handle (fun _ => None) (copy p source destination)
  | DoMove source destination => handle (fun _ => None) (move_entry p source destination)
  end.

(** ** Computations whose calls are all [ok] *)

Section Calls.
Variables (region : Fd → Prop) (ok : ∀ X, Call Fd X → Prop).

(** The result has [P]; it may fail, not panic. *)
Fixpoint orderly {A} (P : A → Prop) (p : Prog A) : Prop :=
  match p with
  | Done (Ok a) => P a
  | Done (Err _) => True
  | Done _ => False
  | Ask c k => ok _ c ∧ ∀ x, handed region c x → orderly P (k x)
  end.

(** The result has [P], in every case. *)
Fixpoint answers {A} (P : A → Prop) (p : Prog A) : Prop :=
  match p with
  | Done (Ok a) => P a
  | Done _ => False
  | Ask c k => ok _ c ∧ ∀ x, handed region c x → answers P (k x)
  end.

Lemma orderly_bind {A B} (P : A → Prop) (Q : B → Prop) p (f : A → Prog B) :
  orderly P p → (∀ a, P a → orderly Q (f a)) → orderly Q (p ≫= f).
Proof.
  intros Hp Hf. change (orderly Q (prog_bind f p)). revert Hp.
  induction p as [[a|e|w|]|X c k IH]; cbn; try done; [apply Hf|]. intros [Hc Hk]. split; [done|]. intros x Hx. by apply IH, Hk.
Qed.
Lemma answers_bind {A B} (P : A → Prop) (Q : B → Prop) p (f : A → Prog B) :
  answers P p → (∀ a, P a → answers Q (f a)) → answers Q (p ≫= f).
Proof.
  intros Hp Hf. change (answers Q (prog_bind f p)). revert Hp.
  induction p as [[a|e|w|]|X c k IH]; cbn; try done; [apply Hf|]. intros [Hc Hk]. split; [done|]. intros x Hx. by apply IH, Hk.
Qed.
Lemma answers_attempt {A} (P : A → Prop) (p : Prog A) :
  orderly P p → answers (fun r => match r with inr a => P a | inl _ => True end) (attempt p).
Proof. induction p as [[a|e|w|]|X c k IH]; cbn; try done. intros [Hc Hk]. split; [done|]. auto. Qed.
Lemma answers_orderly {A} (P : A → Prop) (p : Prog A) : answers P p → orderly P p.
Proof. induction p as [[a|e|w|]|X c k IH]; cbn; try done. intros [Hc Hk]. split; [done|]. auto. Qed.
Lemma orderly_mono {A} (P Q : A → Prop) p : (∀ a, P a → Q a) → orderly P p → orderly Q p.
Proof. intros H. induction p as [[a|e|w|]|X c k IH]; cbn; try done; [apply H|]. intros [Hc Hk]. split; [done|]. auto. Qed.

Lemma answers_mono {A} (P Q : A → Prop) p : (∀ a, P a → Q a) → answers P p → answers Q p.
Proof. intros H. induction p as [[a|e|w|]|X c k IH]; cbn; try done; [apply H|]. intros [Hc Hk]. split; [done|]. auto. Qed.

Lemma safe_orderly w {A} (P : A → Prop) p : (∀ X (c : Call Fd X), allowed region w c → ok X c) → safe region w P p → orderly P p.
Proof. intros H. induction p as [[a|e|m|]|X c k IH]; cbn; try done. intros [Hc Hk]. split; [by apply H|]. auto. Qed.
Lemma attempt_answers {A} (P : A → Prop) (p : Prog A) : orderly P p → answers (fun _ => True) (attempt p).
Proof. intros H. eapply answers_mono; [|by apply answers_attempt]. done. Qed.
Lemma os_orderly {A} (c : Call Fd (Errno + A)) : ok _ c → orderly (fun _ => True) (os c).
Proof. intros H. split; [done|]. by intros [e|a] _. Qed.

(** What the file operations need of a policy. *)
Class Orderly (p : FsPolicy Fd) : Prop := {
  o_allowed : ∀ w X (c : Call Fd X), allowed region w c → (w = true → read_only p = false) → ok X c;
  o_stat : ∀ path, ok _ (StatPath path);
  o_canonicalize : ∀ path, ok _ (Canonicalize path);
  o_open : ∀ name mode, orderly region (fs_open p name mode);
  o_remove : ∀ name, orderly (fun _ => True) (fs_remove_file p name);
  o_anchor : ∀ name write, orderly (fun a => anchored region a ∧ (write = true → read_only p = false)) (fs_anchor p name write);
}.

Section Policy.
Context (p : FsPolicy Fd) `{!Orderly p}.

Lemma quiet_ok X (c : Call Fd X) : allowed region false c → ok X c.
Proof. intros H. by apply (o_allowed false). Qed.

(** An operation on the anchor of a path. *)
Lemma at_anchor {A} (P : A → Prop) name write (f : Anchor Fd → Prog A) :
  (∀ a, anchored region a → safe region write P (f a)) → orderly P (a ← fs_anchor p name write; f a).
Proof.
  intros Hf. eapply orderly_bind; [apply o_anchor|]. cbn. intros a [Ha Hw]. apply (safe_orderly write); [|by apply Hf].
  intros X c Hc. by apply (o_allowed write).
Qed.

Lemma entry_kind_orderly name write : orderly (fun _ => True) (a ← fs_anchor p name write; anchor_kind a).
Proof. apply at_anchor. intros a Ha. by apply safe_kind. Qed.
Lemma private_file_orderly name :
  orderly (fun d => region d ∧ read_only p = false) (create_private_file p name).
Proof.
  unfold create_private_file. eapply orderly_bind; [apply o_anchor|]. cbn. intros a [Ha Hw]. specialize (Hw eq_refl).
  apply (safe_orderly true); [intros X c Hc; by apply (o_allowed true)|].
  eapply safe_mono; [|by apply safe_private_file]. cbn. auto.
Qed.
Lemma rename_orderly from to : orderly (fun _ => True) (rename_entry p from to).
Proof.
  unfold rename_entry. eapply orderly_bind; [apply o_anchor|]. cbn. intros a [Ha Hw].
  apply at_anchor. intros b Hb. by apply safe_rename.
Qed.

Lemma cwd_ok : ok _ GetCwd.
Proof. by apply quiet_ok. Qed.

(** *** Questions about paths *)

Lemma stat_answers path : answers (fun _ => True) (attempt (os (StatPath path) : Prog (Z * (Z * Z)))).
Proof. eapply attempt_answers, os_orderly, o_stat. Qed.
Lemma canonicalize_answers path : answers (fun _ => True) (attempt (os (Canonicalize path) : Prog (list Component))).
Proof. eapply attempt_answers, os_orderly, o_canonicalize. Qed.

Lemma contains_resolved_answers (root : RootedDir Fd) name : answers (fun _ => True) (contains_resolved root name).
Proof.
  unfold contains_resolved. eapply answers_bind; [apply stat_answers|]. intros status _.
  eapply (answers_bind (fun _ => True)); [|done]. destruct status as [e|a]; [|apply canonicalize_answers].
  destruct (parent_components _); [|done]. eapply answers_bind; [apply canonicalize_answers|]. done.
Qed.

Lemma any_root_answers (test : RootedDir Fd → Prog bool) roots : (∀ root, answers (fun _ => True) (test root)) →
  answers (fun _ => True) (any_root test roots).
Proof.
  intros H. induction roots as [|root roots IH]; cbn [any_root]; [done|]. eapply answers_bind; [apply H|].
  by intros [|] _.
Qed.

Lemma allows_path_answers name write : answers (fun _ => True) (allows_path p name write).
Proof.
  unfold allows_path. destruct (_ && _); [done|]. destruct (scope_of p write); [done|].
  apply any_root_answers. intros root. apply contains_resolved_answers.
Qed.

(** A computation of [Confine] that cannot fail. *)
Lemma absolute_orderly name : orderly (fun _ => True) (absolute name : Prog _).
Proof. eapply orderly_mono; [|eapply (safe_orderly false); [apply quiet_ok|apply (safe_absolute region)]]. done. Qed.
Lemma relative_orderly (root : RootedDir Fd) name : orderly (fun _ => True) (relative root name).
Proof. eapply orderly_mono; [|eapply (safe_orderly false); [apply quiet_ok|apply (safe_relative region)]]. done. Qed.
Lemma is_root_orderly (root : RootedDir Fd) name : orderly (fun _ => True) (is_root root name).
Proof. eapply (safe_orderly false); [apply quiet_ok|apply (safe_is_root region)]. Qed.

Lemma contains_answers (root : RootedDir Fd) name : answers (fun _ => True) (contains root name).
Proof. unfold contains. eapply answers_bind; [eapply attempt_answers, relative_orderly|]. done. Qed.
Lemma covers_answers (root : RootedDir Fd) name : answers (fun _ => True) (covers root name).
Proof.
  unfold covers. eapply answers_bind; [apply contains_answers|]. intros [|] _; [done|].
  eapply answers_bind; [eapply attempt_answers, is_root_orderly|]. done.
Qed.

Lemma names_a_root_answers name : answers (fun _ => True) (names_a_root p name).
Proof.
  assert (∀ s, answers (fun _ => True) (scope_names_a_root s name : Prog bool)) as Hs.
  { intros [|roots]; [done|]. apply any_root_answers. intros root. unfold names_root.
    eapply answers_bind; [apply covers_answers|]. intros [|] _; [|done]. by eapply answers_bind; [apply contains_answers|]. }
  unfold names_a_root. eapply answers_bind; [apply Hs|]. intros [|] _; [done|apply Hs].
Qed.

(** *** Why it failed *)

Lemma is_dir_answers path : answers (fun _ => True) (is_dir path : Prog bool).
Proof. unfold is_dir. by eapply answers_bind; [apply stat_answers|]. Qed.

Lemma failure_answers path write e : answers (fun _ => True) (failure p path write e).
Proof.
  unfold failure. destruct (negb _); [done|]. eapply answers_bind; [apply allows_path_answers|]. intros [|] _; cbn [negb]; [|done].
  by eapply answers_bind; [apply is_dir_answers|].
Qed.
Lemma entry_failure_answers path write e : answers (fun _ => True) (entry_failure p path write e).
Proof. unfold entry_failure. destruct (error_kind e); try done; apply failure_answers. Qed.

(** A value with [P], or an error that names the operation and can be told. *)
Definition tells {A} (o : FsOperation) (P : A → Prop) (r : FileError + A) : Prop :=
  match r with
  | inl e => operation e = o ∧ told e ∧ 1 ≤ file_code e ≤ 12
  | inr a => P a
  end.
Definition tells_of (o : FsOperation) (fail : Failure → FileError) : Prop := ∀ f, operation (fail f) = o ∧ told (fail f).

Lemma refuses_tells {A} (P : A → Prop) o fail f : tells_of o fail → answers (tells o P) (refuses (A := A) (fail f)).
Proof. intros H. destruct (H f). cbn. auto using file_code_range. Qed.

Lemma or_failure_tells {A B} (P : A → Prop) (Q : B → Prop) o (m : Prog A) classify fail (k : A → Prog (FileError + B)) : tells_of o fail →
  orderly P m → (∀ e, answers (fun _ => True) (classify e)) → (∀ a, P a → answers (tells o Q) (k a)) →
  answers (tells o Q) (or_failure m classify fail k).
Proof.
  intros Hf Hm Hc Hk. unfold or_failure. eapply answers_bind; [by apply answers_attempt|]. intros [e|a] Ha; [|by apply Hk].
  eapply answers_bind; [apply Hc|]. intros f _. by apply refuses_tells.
Qed.

Lemma open_kind_answers d : region d → answers (fun _ => True) (open_kind d).
Proof.
  intros Hd. unfold open_kind. eapply (answers_bind (fun _ => True)); [|done].
  eapply attempt_answers, (safe_orderly false); [apply quiet_ok|by apply (safe_fstat region)].
Qed.

(** The result of an operation. *)
Definition handed_out (r : option Fd) : Prop := match r with Some d => region d | None => True end.

Lemma handle_tells {A} (P : A → Prop) (f : A → option Fd) o m : (∀ a, P a → handed_out (f a)) →
  answers (tells o P) m → answers (tells o handed_out) (handle f m).
Proof. intros H Hm. unfold handle. eapply answers_bind; [exact Hm|]. intros [e|a]; cbn; auto. Qed.

Lemma on_path_tells o path mode : tells_of o (on_path o path mode).
Proof. by intros f. Qed.
Lemma on_pair_tells o source destination : (∃ m, ∀ f, entry_message (on_pair o source destination f) = Some m) →
  tells_of o (on_pair o source destination).
Proof. intros [m H] f. split; [done|]. change (is_Some (entry_message (on_pair o source destination f))). rewrite H. by eexists. Qed.

#[local] Hint Resolve failure_answers entry_failure_answers on_path_tells : file.

Lemma open_tells path mode : answers (tells OpOpen (fun o => handed_out (file o))) (open p path mode).
Proof.
  unfold open. eapply or_failure_tells; eauto with file; [apply o_open|]. intros d Hd.
  eapply answers_bind; [by apply open_kind_answers|]. intros kind _. case_bool_decide; [|done]. apply refuses_tells, on_path_tells.
Qed.

Lemma exists_tells path : answers (tells OpExists (fun _ => True)) (exists_ p path).
Proof.
  unfold exists_. eapply answers_bind; [eapply answers_attempt, o_open|]. intros [e|d] Hd.
  - case_bool_decide; [done|]. eapply answers_bind; [apply failure_answers|].
    intros [] _; try apply (refuses_tells _ _ (on_path OpExists path None)), on_path_tells. done.
  - by eapply answers_bind; [by apply open_kind_answers|].
Qed.

Lemma delete_tells path : answers (tells OpDeleteFile (fun _ => True)) (delete_file p path).
Proof. eapply or_failure_tells; eauto with file; [apply o_remove|]. done. Qed.

Lemma get_current_tells : answers (tells OpGetCurrentDirectory (fun _ => True)) (get_current_directory p).
Proof.
  assert (tells_of OpGetCurrentDirectory (on_process OpGetCurrentDirectory)) as Ht.
  { intros f. split; [done|]. by eexists. }
  unfold get_current_directory. eapply answers_bind; [eapply attempt_answers, os_orderly, cwd_ok|]. intros [e|d] _; [by apply refuses_tells|].
  eapply answers_bind; [apply allows_path_answers|]. intros [|] _; cbn [negb]; [|by apply refuses_tells].
  destruct (is_utf8 d); [done|by apply refuses_tells].
Qed.

Lemma set_current_tells path : answers (tells OpSetCurrentDirectory (fun _ => True)) (set_current_directory p path).
Proof.
  unfold set_current_directory. eapply or_failure_tells; eauto with file; [apply entry_kind_orderly|]. intros kind _.
  destruct (not_a_directory kind); [apply refuses_tells, on_path_tells|].
  eapply or_failure_tells; eauto with file; [|done]. apply at_anchor. intros a Ha. by apply safe_change_directory.
Qed.

Lemma create_directory_tells path : answers (tells OpCreateDirectory (fun _ => True)) (create_directory p path).
Proof.
  eapply or_failure_tells; eauto with file; [|done]. apply at_anchor. intros a Ha. by apply safe_private_directory.
Qed.

Lemma open_new_tells path : answers (tells OpOpenNew (fun o => handed_out (file o))) (open_new p path).
Proof. eapply or_failure_tells; eauto with file; [apply private_file_orderly|]. by intros d [Hd _]. Qed.

Lemma remove_directory_tells path : answers (tells OpRemoveDirectory (fun _ => True)) (remove_directory p path).
Proof.
  unfold remove_directory. eapply answers_bind; [apply names_a_root_answers|]. intros [|] _; [apply refuses_tells, on_path_tells|].
  eapply or_failure_tells; eauto with file; [apply entry_kind_orderly|]. intros kind _.
  destruct (not_a_directory kind); [apply refuses_tells, on_path_tells|].
  eapply or_failure_tells; eauto with file; [|done]. apply at_anchor. intros a Ha. by apply safe_remove_directory.
Qed.

Lemma is_directory_tells path : answers (tells OpIsDirectory (fun _ => True)) (is_directory p path).
Proof. eapply or_failure_tells; eauto with file; [apply entry_kind_orderly|]. done. Qed.

Lemma copy_data_orderly input output : region input → region output → read_only p = false →
  orderly (fun _ => True) (copy_data input output).
Proof.
  intros Hi Ho Hw. unfold copy_data. eapply orderly_bind; [apply os_orderly, (o_allowed true); done|]. intros _ _.
  apply os_orderly, quiet_ok. done.
Qed.

Lemma copy_tells source destination : answers (tells OpCopy (fun _ => True)) (copy p source destination).
Proof.
  assert (tells_of OpCopy (on_pair OpCopy source destination)) as Ht by (apply on_pair_tells; by eexists).
  unfold copy. eapply or_failure_tells; eauto with file; [apply entry_kind_orderly|]. intros kind _.
  destruct kind; try (by apply refuses_tells).
  eapply or_failure_tells; eauto with file; [apply at_anchor; intros a Ha; by apply safe_open_read|]. intros input Hi.
  eapply answers_bind; [by apply open_kind_answers|]. intros kind _. destruct (negb _); [by apply refuses_tells|].
  eapply or_failure_tells; eauto with file; [apply private_file_orderly|]. intros output [Ho Hw].
  eapply answers_bind; [by eapply attempt_answers, copy_data_orderly|]. intros [e|[]] _; [|done].
  eapply answers_bind; [eapply attempt_answers, o_remove|]. intros _ _. by apply refuses_tells.
Qed.

Lemma move_tells source destination : answers (tells OpMove (fun _ => True)) (move_entry p source destination).
Proof.
  assert (tells_of OpMove (on_pair OpMove source destination)) as Ht by (apply on_pair_tells; by eexists).
  unfold move_entry. eapply answers_bind; [apply names_a_root_answers|]. intros root _.
  eapply (answers_bind (fun _ => True)); [destruct root; [done|apply names_a_root_answers]|]. intros [|] _; [by apply refuses_tells|].
  eapply or_failure_tells; eauto with file; [apply entry_kind_orderly|]. intros _ _.
  eapply or_failure_tells; eauto; [apply rename_orderly| |done]. intros e.
  eapply answers_bind; [apply allows_path_answers|]. intros allowed _. apply entry_failure_answers.
Qed.

Lemma perform_file_tells o : answers (tells (operation_of o) handed_out) (perform_file p o).
Proof.
  destruct o; cbn [perform_file operation_of]; (eapply handle_tells; [|eauto using open_tells, exists_tells, delete_tells,
    get_current_tells, set_current_tells, create_directory_tells, open_new_tells, remove_directory_tells, is_directory_tells,
    copy_tells, move_tells]); cbn; auto.
Qed.
End Policy.

(** ** Policies that meet the interface *)

(** Either every directory the policy allows is in the region, or all is
    allowed of the scope without roots. *)
Record fits (p : FsPolicy Fd) : Prop := mkFits {
  fits_allowed : ∀ w X (c : Call Fd X), allowed region w c → (w = true → read_only p = false) → ok X c;
  fits_stat : ∀ path, ok _ (StatPath path);
  fits_canonicalize : ∀ path, ok _ (Canonicalize path);
  fits_roots : ∀ write roots root, scope_of p write = Rooted roots → root ∈ roots → region (directory root);
  fits_paths : ∀ write, scope_of p write = Unrestricted → (∀ d, region d) ∧ ∀ X (c : Call Fd X), ok X c;
}.

Section Fits.
Context (p : FsPolicy Fd) (H : fits p).

Lemma fits_safe {A} (P : A → Prop) w m : (w = true → read_only p = false) → safe region w P m → orderly P m.
Proof. intros Hw. apply safe_orderly. intros X c Hc. by apply (fits_allowed _ H w). Qed.

(** What [root_for] gives: a root of the region, or none without roots. *)
Lemma root_for_orderly write name :
  orderly (fun o => match o with
                    | Some root => region (directory root)
                    | None => scope_of p write = Unrestricted
                    end) (root_for (scope_of p write) name).
Proof.
  destruct (scope_of p write) as [|roots] eqn:Hs; [done|]. apply (fits_safe _ false); [done|].
  eapply safe_mono; [|apply (safe_root_for region false roots)].
  - cbn. intros ? (root & -> & Hr). by apply (fits_roots _ H write roots).
  - intros root. by apply (fits_roots _ H write roots).
Qed.

Lemma fs_open_orderly name mode : orderly region (fs_open p name mode).
Proof.
  unfold fs_open. destruct (is_write mode && read_only p) eqn:Hw; [done|]. eapply orderly_bind; [apply root_for_orderly|].
  intros [root|] Hr.
  - apply (fits_safe _ (is_write mode)); [intros Hm; by rewrite Hm in Hw|]. by apply safe_open.
  - destruct (fits_paths _ H _ Hr) as [Hregion Hok]. split; [apply Hok|]. by intros [e|d] _; cbn.
Qed.

Lemma fs_remove_orderly name : orderly (fun _ => True) (fs_remove_file p name).
Proof.
  unfold fs_remove_file. destruct (read_only p) eqn:Hw; [done|]. eapply orderly_bind; [apply (root_for_orderly true)|].
  intros [root|] Hr.
  - apply (fits_safe _ true); [done|]. by apply safe_remove_file.
  - destruct (fits_paths _ H _ Hr) as [Hregion Hok]. apply os_orderly, Hok.
Qed.

Lemma file_name_proper l n : Forall proper l → file_name l = Some n → proper (Normal n).
Proof.
  unfold file_name. intros Hl Hn. destruct (list.last l) as [c|] eqn:Hc; [|done].
  apply last_Some in Hc as [l' ->]. apply list.Forall_app in Hl as [_ Hc]. apply Forall_inv in Hc.
  destruct c; try done. by injection Hn as ->.
Qed.

Lemma anchor_unrooted_orderly name : (∀ d, region d) → (∀ X (c : Call Fd X), ok X c) →
  orderly (anchored region) (anchor_unrooted name).
Proof.
  intros Hregion Hok. unfold anchor_unrooted, open_directory.
  eapply orderly_bind; [apply (fits_safe _ false); [done|apply (safe_absolute region)]|]. intros l Hl.
  assert (∀ path k, (∀ d, orderly (anchored region) (k d)) →
    orderly (anchored region) (d ← (os (OpenPath path [O_DIRECTORY; O_CLOEXEC]) : Prog Fd); k d)) as Hopen.
  { intros path k Hk. eapply orderly_bind; [apply os_orderly, Hok|]. intros d _. apply Hk. }
  destruct (parent_components l) as [parent|]; [|apply Hopen; by split].
  destruct (file_name l) as [n|] eqn:Hn; [|apply Hopen; by split]. apply Hopen. intros d.
  eapply orderly_bind; [apply (fits_safe _ false); [done|]; apply (safe_c_name region), (file_name_proper l); done|].
  intros n' Hn'. by split; cbn.
Qed.

Lemma fs_anchor_orderly name write :
  orderly (fun a => anchored region a ∧ (write = true → read_only p = false)) (fs_anchor p name write).
Proof.
  unfold fs_anchor. destruct (write && read_only p) eqn:Hw; [done|].
  assert (write = true → read_only p = false) as Hro by (intros ->; done).
  eapply orderly_mono; [intros a Ha; exact (conj Ha Hro)|]. eapply orderly_bind; [apply root_for_orderly|].
  intros [root|] Hr.
  - apply (fits_safe _ false); [done|]. by apply safe_anchor.
  - destruct (fits_paths _ H _ Hr) as [Hregion Hok]. by apply anchor_unrooted_orderly.
Qed.

#[export] Instance fits_orderly : Orderly p.
Proof.
  split; [apply (fits_allowed _ H)|apply (fits_stat _ H)|apply (fits_canonicalize _ H)|apply fs_open_orderly
         |apply fs_remove_orderly|apply fs_anchor_orderly].
Qed.
End Fits.
End Calls.

(** What a program can tell of an error: its operation, code and message. *)
Definition answered {A} (o : FileOp) (P : A → Prop) (r : FileError + A) : Prop :=
  match r with
  | inl e => operation e = operation_of o ∧ (∃ message, file_message e = Ok message) ∧ 1 ≤ file_code e ≤ 12
  | inr a => P a
  end.

Lemma tells_answered {A} o (P : A → Prop) r : tells (operation_of o) P r → answered o P r.
Proof. destruct r as [e|a]; cbn; [|done]. intros (H1 & H2 & H3). eauto using told_message. Qed.

(** Whatever the system answers, an operation of [HOST.FileSystem] comes to
    an end with a value, or with an error that names the operation, has one of
    the codes of [error_codes::fs] and a message: no failure of the system, and
    no combination of failures, is left untold or makes it panic. *)
Theorem file_operations_answer (p : FsPolicy Fd) o :
  answers (fun _ => True) (fun _ _ => True) (answered o (fun _ => True)) (perform_file p o).
Proof.
  assert (fits (fun _ => True) (fun _ _ => True) p) as H by done.
  eapply answers_mono; [|apply (perform_file_tells _ _ p (Orderly0 := fits_orderly _ _ p H))]. intros r Hr.
  apply tells_answered. destruct r; cbn in *; auto.
Qed.

(** A call of a file operation under roots: it stays within the region, and
    changes nothing under a read-only policy; or it asks for the status or the
    real path of a name, to classify a failure or to check the working directory. *)
Definition file_call (region : Fd → Prop) (p : FsPolicy Fd) X (c : Call Fd X) : Prop :=
  allowed region (negb (read_only p)) c ∨ match c with StatPath _ | Canonicalize _ => True | _ => False end.

(** C23: Under a policy with roots, every call an operation of
    [HOST.FileSystem] makes acts below the roots, by plain names from
    descriptors reached from them without following a link, and changes nothing
    when the policy is read only; the only other calls ask for the status or
    the real path of a name.  A file it opens lies below a root. *)
Theorem file_operations_confined (region : Fd → Prop) (p : FsPolicy Fd) read_roots write_roots o :
  fs_read p = Rooted read_roots → fs_write p = Rooted write_roots →
  (∀ root, root ∈ read_roots ∨ root ∈ write_roots → region (directory root)) →
  answers region (file_call region p) (answered o (handed_out region)) (perform_file p o).
Proof.
  intros Hr Hw Hroots. assert (fits region (file_call region p) p) as H.
  { split.
    - intros w X c [Hin Hc] Hro. left. split; [done|]. intros Hm. by rewrite Hro by auto.
    - by right.
    - by right.
    - intros [|] roots root; cbn; [rewrite Hw|rewrite Hr]; intros [= <-]; auto.
    - intros [|]; cbn; [rewrite Hw|rewrite Hr]; done. }
  eapply answers_mono; [|apply (perform_file_tells _ _ p (Orderly0 := fits_orderly _ _ p H))]. intros r. apply tells_answered.
Qed.
End Safety.

Lemma file_operations_confined_witness :
  answers inside (file_call inside data_policy) (answered (DoCopy "/data/a/f" "/data/g") (handed_out inside))
    (perform_file data_policy (DoCopy "/data/a/f" "/data/g")).
Proof.
  apply (file_operations_confined inside data_policy [data] [data]); [reflexivity|reflexivity|].
  intros root Hroot. assert (root = data) as ->.
  { destruct Hroot as [Hroot|Hroot]; apply elem_of_cons in Hroot as [->|[]%not_elem_of_nil]; reflexivity. }
  unfold inside. cbn. set_solver.
Defined.
