(* ===== verification/Floats.v ===== *)
(** * Floats: Rust's [f64] and [f32]

    IEEE 754 binary64 and binary32 on the Standard Library's [spec_float]
    (executable, no axiom): rounding conversions, saturating integer casts,
    decimal parsing and the shortest decimal text ([to_string]).

    [powf] and the Unicode case maps are not defined by the program or by a
    bit-exact specification; they are the fields of [Platform]. *)

From Stdlib Require Export SpecFloat.
From S2P Require Import Prelude Text Types.

#[local] Open Scope string_scope.
#[local] Open Scope Z_scope.

Definition f64 := spec_float.

Class Platform := {
  powf : f64 → f64 → f64;
  to_lowercase : string → string;
  to_uppercase : string → string;
}.

#[global] Instance spec_float_eq_dec : EqDecision f64.
Proof. unfold EqDecision, f64. intros x y. unfold Decision. repeat decide equality. Defined.

Definition f64_add : f64 → f64 → f64 := SFadd 53 1024.
Definition f64_sub : f64 → f64 → f64 := SFsub 53 1024.
Definition f64_mul : f64 → f64 → f64 := SFmul 53 1024.
Definition f64_div : f64 → f64 → f64 := SFdiv 53 1024.
Definition f64_neg : f64 → f64 := SFopp.
Definition f64_eq : f64 → f64 → bool := SFeqb.
Definition f64_lt : f64 → f64 → bool := SFltb.
Definition f64_le : f64 → f64 → bool := SFleb.
Definition f64_zero : f64 := S754_zero false.
Definition f64_inf : f64 := S754_infinity false.
Definition f64_neg_inf : f64 := S754_infinity true.

Definition is_nan (x : f64) : bool := match x with S754_nan => true | _ => false end.
Definition is_finite (x : f64) : bool :=
  match x with S754_zero _ | S754_finite _ _ _ => true | _ => false end.
Definition is_infinite (x : f64) : bool :=
  match x with S754_infinity _ => true | _ => false end.

(** [value as f64] of an [i128]. *)
Definition f64_of_Z (z : Z) : f64 := binary_normalize 53 1024 z 0 false.

Definition renormalize (prec emax : Z) (x : f64) : f64 :=
  match x with
  | S754_finite s m e => binary_normalize prec emax (cond_Zopp s (Zpos m)) e s
  | _ => x
  end.
(** [value as f32] and [f64::from(value)]. *)
Definition f64_to_f32 : f64 → spec_float := renormalize 24 128.
Definition f32_to_f64 : spec_float → f64 := renormalize 53 1024.

(** [value.trunc() as i128]: toward zero, saturating, [NaN] is zero. *)
Definition f64_trunc_i128 (x : f64) : Z :=
  match x with
  | S754_zero _ | S754_nan => 0
  | S754_infinity s => if s then i128_MIN else i128_MAX
  | S754_finite s m e =>
      let a := if 0 <=? e then Z.shiftl (Zpos m) e else Z.shiftr (Zpos m) (- e) in
      Z.max i128_MIN (Z.min i128_MAX (if s then - a else a))
  end.

(** ** Decimal text *)

(** The correctly rounded value of [c * 10 ^ q], [c >= 0]. *)
Definition float_of_decimal (prec emax : Z) (s : bool) (c q : Z) : spec_float :=
  if c =? 0 then S754_zero s
  else if 0 <=? q then
    renormalize prec emax (S754_finite s (Z.to_pos (c * 10 ^ q)) 0)
  else
    let '(mz, ez, lz) := SFdiv_core_binary prec emax c 0 (10 ^ (- q)) 0 in
    binary_round_aux prec emax s mz ez lz.

(** The numerator and denominator of a finite magnitude. *)
Definition ratio (m : positive) (e : Z) : Z * Z :=
  if 0 <=? e then (Zpos m * 2 ^ e, 1) else (Zpos m, 2 ^ (- e)).

(** The exponent [k] with [10 ^ (k - 1) <= n / d < 10 ^ k], from an estimate
    [k0] that is at most one off on each side. *)
Definition ge_pow10 (n d k : Z) : bool :=
  if 0 <=? k then (d * 10 ^ k <=? n) else (d <=? n * 10 ^ (- k)).
Fixpoint decimal_exponent (fuel : nat) (n d k : Z) : Z :=
  match fuel with
  | O => k
  | S fuel =>
      if ge_pow10 n d k then decimal_exponent fuel n d (k + 1)
      else if ge_pow10 n d (k - 1) then k else decimal_exponent fuel n d (k - 1)
  end.

(** The shortest digits that round back to [x], the closest ones among those:
    the two [len]-digit neighbours of the value are tried for growing [len]. *)
Fixpoint shortest_digits (prec emax : Z) (fuel : nat) (x : spec_float) (n d k len : Z) : Z * Z :=
  match fuel with
  | O => (0, 0)
  | S fuel =>
      let q := k - len in
      let num := if 0 <=? q then n else n * 10 ^ (- q) in
      let den := if 0 <=? q then d * 10 ^ q else d in
      let lo := num / den in
      let rem := num - lo * den in
      let back c := bool_decide (float_of_decimal prec emax false c q = x) in
      let nearer_lo := (2 * rem <? den) || ((2 * rem =? den) && Z.even lo) in
      if back lo && back (lo + 1) then (if nearer_lo then lo else lo + 1, q)
      else if back lo then (lo, q)
      else if back (lo + 1) then (lo + 1, q)
      else shortest_digits prec emax fuel x n d k (len + 1)
  end.

(** The positional text of [c * 10 ^ q] ([Display] never uses an exponent). *)
Definition positional (c q : Z) : string :=
  let ds := dec_of_Z c in
  if 0 <=? q then ds +:+ zeros (Z.to_nat q)
  else
    let places := Z.to_nat (- q) in
    let ds := zeros (S places - String.length ds) +:+ ds in
    let split_at := (String.length ds - places)%nat in
    String.substring 0 split_at ds +:+ "." +:+ String.substring split_at places ds.

Definition float_to_string (prec emax : Z) (x : spec_float) : string :=
  match x with
  | S754_nan => "NaN"
  | S754_infinity s => if s then "-inf" else "inf"
  | S754_zero s => if s then "-0" else "0"
  | S754_finite s m e =>
      let '(n, d) := ratio m e in
      let k0 := (Z.log2 n - Z.log2 d) * 30103 / 100000 + 1 in
      let k := decimal_exponent 8 n d k0 in
      let '(c, q) := shortest_digits prec emax 18 (S754_finite false m e) n d k 1 in
      (if s then "-" else "") +:+ positional c q
  end.
Definition f64_to_string : f64 → string := float_to_string 53 1024.
Definition f32_to_string : spec_float → string := float_to_string 24 128.

(** [text.parse::<f64>()] for a literal the frontend accepts: digits, an
    optional fraction and an optional exponent, with an optional sign. *)
Fixpoint take_digits (s : string) : string * string :=
  match s with
  | String c r =>
      if is_ascii_digit c then let '(ds, rest) := take_digits r in (String c ds, rest)
      else ("", s)
  | EmptyString => ("", "")
  end.
Fixpoint digits_value (acc : Z) (s : string) : Z :=
  match s with
  | EmptyString => acc
  | String c s => digits_value (acc * 10 + (byte_val c - 48)) s
  end.

Definition parse_f64 (text : string) : option f64 :=
  let '(neg, body) := match text with
                      | String "-" r => (true, r)
                      | String "+" r => (false, r)
                      | _ => (false, text)
                      end in
  let '(int, rest) := take_digits body in
  let '(frac, rest) := match rest with
                       | String "." r => take_digits r
                       | _ => ("", rest)
                       end in
  if String.eqb int "" && String.eqb frac "" then None
  else
    let exponent :=
      match rest with
      | EmptyString => Some 0
      | String c r =>
          if Ascii.eqb c "e" || Ascii.eqb c "E" then
            let '(sign, r) := match r with
                              | String "-" r => (-1, r)
                              | String "+" r => (1, r)
                              | _ => (1, r)
                              end in
            let '(ds, rest) := take_digits r in
            if String.eqb ds "" || negb (String.eqb rest "") then None
            else Some (sign * digits_value 0 ds)
          else None
      end in
    e ← exponent;
    Some (float_of_decimal 53 1024 neg (digits_value 0 (int +:+ frac))
            (e - Z.of_nat (String.length frac))).

(** ** Canonical text ([crates/bn_types/src/text.rs]) *)

Definition text_integer (value : Z) : string := dec_of_Z value.

Definition text_float (value : f64) (ty : FloatType) : string :=
  if is_nan value then "NAN"
  else if f64_eq value f64_inf then "INF"
  else if f64_eq value f64_neg_inf then "-INF"
  else
    let text := match ty with
                | Float32 => f32_to_string (f64_to_f32 value)
                | Float64 => f64_to_string value
                end in
    if contains_char "."%char text || contains_char "e"%char text || contains_char "E"%char text
    then text else text +:+ ".0".

Definition text_boolean (value : bool) : string := if value then "TRUE" else "FALSE".

Definition text_error (code : Z) (operation message cause : string) : string :=
  "Error " +:+ dec_of_Z code
  +:+ (if String.eqb operation "" then "" else " in " +:+ operation)
  +:+ ": " +:+ message
  +:+ (if String.eqb cause "" then "" else " (cause: " +:+ cause +:+ ")").

Definition timezone_part (part : string) : bool :=
  match str_bytes part with
  | [] => false
  | first :: rest =>
      is_ascii_alphabetic first
      && forallb (fun c => is_ascii_alphanumeric c || Ascii.eqb c "_" || Ascii.eqb c "-"
                           || Ascii.eqb c "+") rest
  end.

Definition is_timezone_id (text : string) : bool :=
  String.eqb text "UTC"
  || ((2 <=? length (split "/"%char text))%nat && forallb timezone_part (split "/"%char text)).

Example text_tests :
  option_map (fun x => text_float x Float64) (parse_f64 "2") = Some "2.0"
  ∧ (x ← parse_f64 "0.1"; y ← parse_f64 "0.2"; Some (text_float (f64_add x y) Float64))
      = Some "0.30000000000000004"
  ∧ option_map (fun x => text_float (f32_to_f64 (f64_to_f32 x)) Float32) (parse_f64 "0.1")
      = Some "0.1"
  ∧ option_map (fun x => text_float x Float64) (parse_f64 "-2.5e-3") = Some "-0.0025"
  ∧ option_map (fun x => text_float x Float64) (parse_f64 "1e21") = Some "1000000000000000000000.0"
  ∧ option_map (fun x => text_float x Float64) (parse_f64 "5e-324") = Some ("0." +:+ zeros 323 +:+ "5")
  ∧ text_float f64_neg_inf Float64 = "-INF"
  ∧ text_error 2 "HOST.FileSystem.Open" "cannot open" "not found"
      = "Error 2 in HOST.FileSystem.Open: cannot open (cause: not found)"
  ∧ is_timezone_id "America/Sao_Paulo" = true ∧ is_timezone_id "Europe/" = false.
Proof. vm_compute. repeat split. Qed.
