(* ===== verification/Literals.v ===== *)
(** * Literals: numeric literals, ABI codes and the random generator

    [crates/bn_types/src/literals.rs], [numeric_abi.rs] and [random.rs]. *)

From S2P Require Import Prelude Text Types Floats.

#[local] Open Scope string_scope.
#[local] Open Scope Z_scope.

(** ** Integer literals *)

Definition parse_integer (text : string) : option Z :=
  match strip_prefix "0b" text with
  | Some digits => from_str_radix i128_MIN i128_MAX 2 digits
  | None =>
      match strip_prefix "0x" text with
      | Some digits => from_str_radix i128_MIN i128_MAX 16 digits
      | None => from_str_radix i128_MIN i128_MAX 10 text
      end
  end.

(** [(value as f32) as i128 == value] and the [f64] one: [trunc] of the
    rounded value, saturating. *)
Definition float_exact (kind : FloatType) (value : Z) : bool :=
  match kind with
  | Float32 => f64_trunc_i128 (f32_to_f64 (binary_normalize 24 128 value 0 false)) =? value
  | Float64 => f64_trunc_i128 (f64_of_Z value) =? value
  end.

Definition integer_literal_as_float (text : string) (kind : FloatType) : option string :=
  let '(negative, digits) := match strip_prefix "-" text with
                             | Some digits => (true, digits)
                             | None => (false, text)
                             end in
  magnitude ← parse_integer digits;
  let value := if (negative : bool) then wrap_i128 (- magnitude) else magnitude in
  if float_exact kind value then Some (dec_of_Z value +:+ ".0") else None.

(** ** The alternative a literal takes *)

Inductive NumericClass := NCInteger | NCFloat.

Definition of_literal (ty : BType) : option NumericClass :=
  match ty with
  | TIntegerLiteral _ => Some NCInteger
  | TFloatLiteral => Some NCFloat
  | _ => None
  end.

Definition default_type (c : NumericClass) : BType :=
  match c with NCInteger => TInteger Int32 | NCFloat => TFloat Float64 end.

Definition class_contains (c : NumericClass) (ty : BType) : bool :=
  match c, ty with
  | NCInteger, TInteger _ | NCFloat, TFloat _ => true
  | _, _ => false
  end.

Definition numeric_alternative (alternatives : list BType) (c : NumericClass) : option BType :=
  match List.find (fun ty => bool_decide (ty = default_type c)) alternatives with
  | Some found => Some found
  | None =>
      match List.filter (class_contains c) alternatives with
      | [only] => Some only
      | _ => None
      end
  end.

(** ** The numeric element and statistic codes of the native ABI *)

Inductive NumericElement := NEInteger (k : IntegerType) | NEFloat (k : FloatType).

#[global] Instance NumericElement_eq_dec : EqDecision NumericElement.
Proof. solve_decision. Defined.

Definition ELEMENTS : list NumericElement :=
  [NEInteger Byte; NEInteger Int8; NEInteger Int16; NEInteger Int32; NEInteger Int64;
   NEInteger UInt16; NEInteger UInt32; NEInteger UInt64; NEFloat Float32; NEFloat Float64].

Definition STATISTICS : list string :=
  ["MEAN"; "MEDIAN"; "QUARTILE1"; "QUARTILE3"; "RANGE"; "STDEV"; "VARIANCE"; "MODE";
   "PVariance"; "PStdev"; "Skewness"; "Kurtosis"; "PSkewness"; "PKurtosis"].

Definition position {A} `{EqDecision A} (x : A) (l : list A) : option Z :=
  option_map (fun p : nat * A => Z.of_nat p.1) (list_find (fun y => y = x) l).

Definition element_of (ty : BType) : option NumericElement :=
  match ty with
  | TInteger k => Some (NEInteger k)
  | TFloat k => Some (NEFloat k)
  | _ => None
  end.

(** [NumericElement::code]; [None] is the [expect] that never fails. *)
Definition element_to_code (e : NumericElement) : option Z := position e ELEMENTS.

Definition element_from_code (code : Z) : option NumericElement :=
  if code <? 0 then None else ELEMENTS !! Z.to_nat code.

Definition statistic_code (name : string) : option Z := position name STATISTICS.

Definition statistic_name (code : Z) : option string :=
  if code <? 0 then None else STATISTICS !! Z.to_nat code.

(** ** [HOST.Random]: xorshift64* *)

Definition XORSHIFT64_STAR_MULTIPLIER : Z := 2685821657736338717.
Definition wrap_u64 (z : Z) : Z := z mod 2 ^ 64.

Definition seed_state (seed : Z) : Z :=
  let state := wrap_u64 seed in if state =? 0 then 1 else state.

Definition xorshift_mix (state : Z) : Z :=
  let next := Z.lxor state (Z.shiftr state 12) in
  let next := Z.lxor next (wrap_u64 (Z.shiftl next 25)) in
  Z.lxor next (Z.shiftr next 27).

Definition next_state (state : Z) : Z :=
  wrap_u64 (xorshift_mix state * XORSHIFT64_STAR_MULTIPLIER).

(** [(state >> 11) as f64 / (1 << 53) as f64] *)
Definition unit_interval (state : Z) : f64 :=
  f64_div (f64_of_Z (Z.shiftr state 11)) (f64_of_Z (2 ^ 53)).

(** ** Lemmas *)

Lemma dec_digits_value fuel n acc r :
  0 ≤ n → n < 10 ^ Z.of_nat fuel → (0 < fuel)%nat →
  ∃ k, 0 ≤ k ∧
  digits_value r (dec_digits fuel n acc) = digits_value (r * 10 ^ k + n) acc.
Proof.
  revert n acc. induction fuel as [|fuel IH]; intros n acc Hn Hlt Hf; [lia|].
  simpl dec_digits.
  assert (byte_val (digit_char (n mod 10)) - 48 = n mod 10) as Hd.
  { unfold digit_char. pose proof (Z.mod_pos_bound n 10).
    change (ascii_of_N (Z.to_N (48 + n mod 10))) with (byte_of (48 + n mod 10)).
    rewrite byte_val_byte_of; lia. }
  pose proof (Z.div_mod n 10). pose proof (Z.mod_pos_bound n 10).
  destruct (n / 10 =? 0) eqn:E; z_bools.
  - exists 1. split; [lia|]. simpl. rewrite Hd. f_equal. lia.
  - destruct (IH (n / 10) (String (digit_char (n mod 10)) acc)) as (k & Hk & Heq).
    + apply Z.div_pos; lia.
    + rewrite Nat2Z.inj_succ, Z.pow_succ_r in Hlt by lia.
      apply Z.div_lt_upper_bound; lia.
    + destruct fuel; [|lia]. simpl in Hlt.
      rewrite Z.div_small in E; lia.
    + exists (k + 1). split; [lia|]. rewrite Heq. simpl. rewrite Hd. f_equal.
      rewrite Z.pow_add_r by lia. lia.
Qed.

Lemma to_digit_10 c : is_ascii_digit c = true → to_digit 10 c = Some (byte_val c - 48).
Proof.
  unfold is_ascii_digit, to_digit. intros H.
  rewrite H. apply in_range_spec in H.
  destruct (_ <? _) eqn:E; z_bools; [done | lia].
Qed.

Lemma digits_value_ge acc s :
  forallb is_ascii_digit (str_bytes s) = true → 0 ≤ acc → acc ≤ digits_value acc s.
Proof.
  revert acc. induction s as [|c s IH]; intros acc; simpl; [lia|].
  intros [Hc Hs]%andb_prop Ha. apply in_range_spec in Hc.
  specialize (IH (acc * 10 + (byte_val c - 48)) Hs). lia.
Qed.

(** The digit loop computes the value, whatever the sign, when it fits. *)
Lemma radix_loop_digits sign lo hi acc s :
  forallb is_ascii_digit (str_bytes s) = true → 0 ≤ acc → (sign = 1 ∨ sign = -1) →
  lo ≤ 0 ≤ hi → lo ≤ sign * digits_value acc s ≤ hi →
  radix_loop 10 sign lo hi (sign * acc) s = Some (sign * digits_value acc s).
Proof.
  revert acc. induction s as [|c s IH]; intros acc; [done|].
  simpl. intros [Hc Hs]%andb_prop Ha Hsign Hlh Hr.
  rewrite to_digit_10 by done. apply in_range_spec in Hc.
  set (acc' := acc * 10 + (byte_val c - 48)) in *.
  pose proof (digits_value_ge acc' s Hs) as Hge.
  assert (lo ≤ sign * acc * 10 ≤ hi) as H1 by (destruct Hsign as [-> | ->]; lia).
  assert (lo ≤ sign * acc * 10 + sign * (byte_val c - 48) ≤ hi) as H2
    by (destruct Hsign as [-> | ->]; lia).
  apply in_range_spec in H1 as ->. apply in_range_spec in H2 as ->.
  replace (sign * acc * 10 + sign * (byte_val c - 48)) with (sign * acc') by lia.
  apply IH; try done. lia.
Qed.

Lemma dec_digits_digits fuel n acc :
  0 ≤ n → forallb is_ascii_digit (str_bytes acc) = true →
  forallb is_ascii_digit (str_bytes (dec_digits fuel n acc)) = true.
Proof.
  revert n acc. induction fuel as [|fuel IH]; intros n acc Hn Ha; [done|].
  simpl. assert (is_ascii_digit (digit_char (n mod 10)) = true) as Hd.
  { unfold is_ascii_digit, digit_char. pose proof (Z.mod_pos_bound n 10).
    change (ascii_of_N (Z.to_N (48 + n mod 10))) with (byte_of (48 + n mod 10)).
    rewrite byte_val_byte_of by lia. apply in_range_spec. lia. }
  destruct (_ =? 0); [simpl; by rewrite Hd|].
  apply IH; [apply Z.div_pos; lia | simpl; by rewrite Hd].
Qed.

Lemma dec_digits_nonempty fuel n c acc :
  ∃ d s, dec_digits fuel n (String c acc) = String d s.
Proof.
  revert n c acc. induction fuel as [|fuel IH]; intros n c acc; simpl; [eauto|].
  destruct (_ =? 0); eauto.
Qed.

Lemma dec_digits_cons n : ∃ c s, dec_digits (dec_fuel n) n "" = String c s.
Proof.
  unfold dec_fuel. simpl. destruct (_ =? 0); [eauto | apply dec_digits_nonempty].
Qed.

Lemma dec_digits_correct n : 0 ≤ n → digits_value 0 (dec_digits (dec_fuel n) n "") = n.
Proof.
  intros Hn.
  destruct (dec_digits_value (dec_fuel n) n "" 0) as (k & _ & ->); [lia| |unfold dec_fuel; lia|].
  - unfold dec_fuel. rewrite Nat2Z.inj_succ, Z2Nat.id by apply Z.log2_nonneg.
    destruct (Z.eq_dec n 0) as [->|]; [done|].
    eapply Z.lt_le_trans; [apply Z.log2_spec; lia|].
    apply Z.pow_le_mono_l. lia.
  - simpl. lia.
Qed.

#[local] Arguments Ascii.eqb : simpl never.

(** A text of digits only is parsed as a decimal. *)
Lemma digit_not_special c : is_ascii_digit c = true →
  c ≠ "+"%char ∧ c ≠ "-"%char ∧ c ≠ "b"%char ∧ c ≠ "x"%char.
Proof. intros H. repeat split; intros ->; by vm_compute in H. Qed.

Lemma strip_prefix_digits c s (p : ascii) :
  forallb is_ascii_digit (str_bytes (String c s)) = true → is_ascii_digit p = false →
  strip_prefix (String "0" (String p "")) (String c s) = None.
Proof.
  intros [_ Hs]%andb_prop Hp. simpl.
  destruct (Ascii.eqb "0" c); [|done]. destruct s as [|d s]; [done|]. simpl in Hs.
  apply andb_prop in Hs as [Hd _].
  destruct (Ascii.eqb_spec p d) as [->|]; [congruence | done].
Qed.

Lemma from_str_radix_digits lo hi c s :
  forallb is_ascii_digit (str_bytes (String c s)) = true →
  lo ≤ 0 → digits_value 0 (String c s) ≤ hi →
  from_str_radix lo hi 10 (String c s) = Some (digits_value 0 (String c s)).
Proof.
  intros Hd Hlo Hhi.
  assert (from_str_radix lo hi 10 (String c s) = radix_loop 10 1 lo hi 0 (String c s)) as ->.
  { assert (is_ascii_digit c = true) as Hc by (simpl in Hd; by apply andb_prop in Hd as [? _]).
    apply digit_not_special in Hc as (Hp & Hm & _).
    destruct c as [[] [] [] [] [] [] [] []]; try reflexivity; exfalso; auto. }
  pose proof (digits_value_ge 0 (String c s) Hd).
  pose proof (radix_loop_digits 1 lo hi 0 (String c s)) as H1.
  rewrite Z.mul_0_r, Z.mul_1_l in H1. apply H1; auto; lia.
Qed.

Lemma dec_of_Z_neg_parse v :
  i128_MIN ≤ v < 0 →
  radix_loop 10 (-1) i128_MIN i128_MAX 0 (dec_digits (dec_fuel (- v)) (- v) "") = Some v.
Proof.
  intros Hv.
  pose proof (radix_loop_digits (-1) i128_MIN i128_MAX 0
                (dec_digits (dec_fuel (- v)) (- v) "")) as H1.
  rewrite Z.mul_0_r, dec_digits_correct in H1 by lia.
  replace (-1 * - v) with v in H1 by lia.
  apply H1; unfold i128_MIN, i128_MAX in *; try lia.
  apply dec_digits_digits; [lia | done].
Qed.

(** Canonical integer text and literal parsing are inverse on every [i128]. *)
Theorem parse_integer_dec_of_Z (v : Z) (Hv : i128_MIN ≤ v ≤ i128_MAX) :
  parse_integer (text_integer v) = Some v.
Proof.
  unfold text_integer, dec_of_Z. destruct (v <? 0) eqn:E; z_bools.
  - destruct (dec_digits_cons (- v)) as (c & s & Hcs).
    assert (from_str_radix i128_MIN i128_MAX 10
              (String "-" (dec_digits (dec_fuel (- v)) (- v) "")) = Some v) as H.
    { rewrite <- (dec_of_Z_neg_parse v) by lia. rewrite Hcs. done. }
    unfold parse_integer. simpl. exact H.
  - destruct (dec_digits_cons v) as (c & s & Hcs).
    pose proof (dec_digits_correct v ltac:(lia)) as Hval.
    pose proof (dec_digits_digits (dec_fuel v) v "" ltac:(lia) eq_refl) as Hdig.
    rewrite Hcs in *. unfold parse_integer.
    rewrite !strip_prefix_digits by done.
    rewrite from_str_radix_digits; [by rewrite Hval|done|done|lia].
Qed.

Lemma parse_integer_dec_of_Z_witness :
  parse_integer (text_integer (- 2 ^ 127)) = Some (- 2 ^ 127).
Proof. apply (parse_integer_dec_of_Z (- 2 ^ 127)). vm_compute. split; discriminate. Defined.

(** ** The codes of the native ABI *)

Lemma position_Some {A} `{EqDecision A} (x : A) l c :
  position x l = Some c → 0 ≤ c ∧ l !! Z.to_nat c = Some x.
Proof.
  unfold position. destruct (list_find _ l) as [[i y]|] eqn:Hf; simpl; [|discriminate].
  intros [= <-]. apply list_find_Some in Hf as (Hi & -> & _).
  rewrite Nat2Z.id. split; [lia | done].
Qed.

(** Element types and their codes are in bijection: what the compiler writes
    is what the runtime reads back, and no other code is accepted. *)
Theorem element_code_roundtrip (e : NumericElement) (c : Z) :
  element_to_code e = Some c ↔ element_from_code c = Some e.
Proof.
  split.
  - intros [Hc Hl]%position_Some. unfold element_from_code.
    destruct (c <? 0) eqn:E; z_bools; [lia | done].
  - unfold element_from_code. destruct (c <? 0) eqn:E; z_bools; [discriminate|].
    intros Hl. assert (Z.of_nat (Z.to_nat c) = c) as <- by lia. revert Hl.
    generalize (Z.to_nat c). intros i Hi.
    do 10 (destruct i as [|i]; [injection Hi as <-; reflexivity|]). destruct i; discriminate.
Qed.

(** Every element type has a code in [0, 10). *)
Theorem element_code_total (e : NumericElement) :
  ∃ c, element_to_code e = Some c ∧ 0 ≤ c < 10.
Proof.
  destruct e as [[]|[]]; eexists;
    (split; [reflexivity | split; [discriminate | reflexivity]]).
Qed.

(** ** The alternative of a literal *)

(** A literal takes an alternative only when the choice is unambiguous: the
    default type of its class if declared, else the single alternative of its
    class; otherwise the store is rejected. *)
Theorem numeric_alternative_spec (alts : list BType) (c : NumericClass) :
  match numeric_alternative alts c with
  | Some ty => ty ∈ alts ∧ class_contains c ty = true
      ∧ (default_type c ∈ alts → ty = default_type c)
      ∧ (default_type c ∉ alts → List.filter (class_contains c) alts = [ty])
  | None => default_type c ∉ alts ∧ length (List.filter (class_contains c) alts) ≠ 1%nat
  end.
Proof.
  unfold numeric_alternative.
  destruct (List.find _ alts) as [found|] eqn:Hf.
  - apply List.find_some in Hf as [Hin Heq%bool_decide_eq_true]. subst found.
    apply list_elem_of_In in Hin.
    split; [done|]. split; [by destruct c|]. by split.
  - assert (default_type c ∉ alts) as Hnot.
    { intros Hin%list_elem_of_In. eapply List.find_none in Hf; [|exact Hin].
      by apply bool_decide_eq_false in Hf. }
    destruct (List.filter (class_contains c) alts) as [|ty [|ty' rest]] eqn:Hfil.
    + by split.
    + assert (In ty alts ∧ class_contains c ty = true) as [H1 H2].
      { apply List.filter_In. rewrite Hfil. by left. }
      split; [by apply list_elem_of_In|]. split; [done|]. by split.
    + split; [done | simpl; lia].
Qed.

(** ** The random generator *)

Lemma lxor_bound a b n :
  0 ≤ a < 2 ^ n → 0 ≤ b < 2 ^ n → 0 ≤ n → 0 ≤ Z.lxor a b < 2 ^ n.
Proof.
  intros [Ha Ha'] [Hb Hb'] Hn.
  assert (0 ≤ Z.lxor a b) as H0 by (apply Z.lxor_nonneg; lia).
  split; [done|].
  destruct (Z.eq_dec (Z.lxor a b) 0) as [->|Hne]; [lia|].
  apply Z.log2_lt_pow2; [lia|].
  eapply Z.le_lt_trans; [apply Z.log2_lxor; lia|].
  destruct (Z.eq_dec a 0) as [->|]; destruct (Z.eq_dec b 0) as [->|].
  - rewrite Z.lxor_nilpotent in Hne. lia.
  - rewrite Z.max_r by (apply Z.log2_nonneg). apply Z.log2_lt_pow2; lia.
  - rewrite Z.max_l by (apply Z.log2_nonneg). apply Z.log2_lt_pow2; lia.
  - apply Z.max_lub_lt; apply Z.log2_lt_pow2; lia.
Qed.

Lemma lxor_ne a b : a ≠ b → Z.lxor a b ≠ 0.
Proof. intros H E. by apply Z.lxor_eq in E. Qed.

(** A product by an odd number is not a multiple of [2 ^ 64] unless the other
    factor is. *)
Lemma odd_mul_mod_ne m x :
  Z.gcd m (2 ^ 64) = 1 → 0 < x < 2 ^ 64 → (x * m) mod 2 ^ 64 ≠ 0.
Proof.
  intros Hg Hx Hm. apply Z.mod_divide in Hm; [|lia].
  rewrite Z.mul_comm in Hm. apply Z.gauss in Hm; [|by rewrite Z.gcd_comm].
  apply Z.divide_pos_le in Hm; lia.
Qed.

Lemma shiftr_ne x n : 0 < x → 0 < n → x ≠ Z.shiftr x n.
Proof.
  intros Hx Hn. rewrite Z.shiftr_div_pow2 by lia.
  assert (1 < 2 ^ n) by (apply Z.pow_gt_1; lia).
  pose proof (Z.div_lt x (2 ^ n)). lia.
Qed.

Lemma shiftr_bound x n : 0 ≤ x < 2 ^ 64 → 0 ≤ n → 0 ≤ Z.shiftr x n < 2 ^ 64.
Proof.
  intros Hx Hn. rewrite Z.shiftr_div_pow2 by lia.
  assert (0 < 2 ^ n) by (apply Z.pow_pos_nonneg; lia).
  assert (x / 2 ^ n ≤ x) by (apply Z.div_le_upper_bound; nia).
  split; [apply Z.div_pos; lia | lia].
Qed.

Lemma xorshift_mix_nonzero s : 0 < s < 2 ^ 64 → 0 < xorshift_mix s < 2 ^ 64.
Proof.
  intros Hs. unfold xorshift_mix.
  set (a := Z.lxor s (Z.shiftr s 12)).
  assert (0 < a < 2 ^ 64) as Ha.
  { pose proof (lxor_bound s (Z.shiftr s 12) 64).
    pose proof (shiftr_bound s 12). pose proof (lxor_ne _ _ (shiftr_ne s 12 ltac:(lia) ltac:(lia))).
    fold a in H, H1. lia. }
  set (b := Z.lxor a (wrap_u64 (Z.shiftl a 25))).
  assert (0 < b < 2 ^ 64) as Hb.
  { assert (a ≠ wrap_u64 (Z.shiftl a 25)) as Hne.
    { unfold wrap_u64. rewrite Z.shiftl_mul_pow2 by lia. intros E.
      apply (odd_mul_mod_ne (2 ^ 25 - 1) a); [reflexivity | done |].
      replace (a * (2 ^ 25 - 1)) with (a * 2 ^ 25 - a) by lia.
      rewrite Zminus_mod, <- E, (Z.mod_small a) by lia. by rewrite Z.sub_diag. }
    pose proof (lxor_bound a (wrap_u64 (Z.shiftl a 25)) 64) as H.
    pose proof (Z.mod_pos_bound (Z.shiftl a 25) (2 ^ 64)).
    pose proof (lxor_ne _ _ Hne). unfold wrap_u64 in *. fold b in H, H1. lia. }
  pose proof (lxor_bound b (Z.shiftr b 27) 64).
  pose proof (shiftr_bound b 27).
  pose proof (lxor_ne _ _ (shiftr_ne b 27 ltac:(lia) ltac:(lia))). lia.
Qed.

(** The generator never reaches the zero state, from which it could not leave:
    seeding gives a non-zero 64-bit state and a step keeps it one. *)
Theorem random_state_never_zero (seed state : Z) (Hstate : 0 < state < 2 ^ 64) :
  0 < seed_state seed < 2 ^ 64 ∧ 0 < next_state state < 2 ^ 64.
Proof.
  split.
  - unfold seed_state, wrap_u64. pose proof (Z.mod_pos_bound seed (2 ^ 64)).
    destruct (_ =? 0) eqn:E; z_bools; lia.
  - unfold next_state, wrap_u64.
    pose proof (xorshift_mix_nonzero state Hstate) as Hx.
    pose proof (Z.mod_pos_bound (xorshift_mix state * XORSHIFT64_STAR_MULTIPLIER) (2 ^ 64)).
    pose proof (odd_mul_mod_ne XORSHIFT64_STAR_MULTIPLIER (xorshift_mix state) eq_refl Hx). lia.
Qed.

Lemma random_state_never_zero_witness :
  0 < seed_state (-5) < 2 ^ 64 ∧ 0 < next_state 1 < 2 ^ 64.
Proof. apply (random_state_never_zero (-5) 1). split; reflexivity. Defined.
