(* ===== verification/Syntax.v ===== *)
(** * Syntax: the syntax tree of BN ([crates/bn_frontend/src/ast.rs])

    Expressions, types, statements and declarations as the parser builds them,
    each with the span of its text, and the diagnostics the parser ends with. *)

From S2P Require Import Prelude Text Diag Lexer.

#[local] Open Scope string_scope.
#[local] Open Scope Z_scope.

(** ** Diagnostics *)

Definition CONTEXT : string := "the current declaration or statement".

(** [Diagnostic::parse_facts], [parse_rule_facts] and [lexical]. *)
Inductive ParseDiagnostic :=
| ParseFacts (expected context : string) (span : Span)
| ParseRule (rule : string) (span : Span)
| LexicalRule (message : string) (span : Span).

Abbreviation presult A := (res ParseDiagnostic A).

(** [Diagnostic::parse_message] *)
Definition parse_message (message : string) (span : Span) : ParseDiagnostic :=
  match strip_prefix "expected " message with
  | Some expected => ParseFacts expected CONTEXT span
  | None => ParseRule message span
  end.

(** ** Expressions and types *)

Inductive Literal :=
| LInteger (text : string)
| LFloat (text : string)
| LString (value : string)
| LTypeName (name : string)
| LSpecial (name : string)
| LBoolean (b : bool)
| LNull
| LNotAvailable
| LEndOfFile.

Inductive Expression := mkExpression (kind : ExpressionKind) (span : Span)
with ExpressionKind :=
| ELiteral (l : Literal)
| EName (name : string)
| ESuper
| EInput (prompt : option Expression)
| EHostCapability (name : string)
| ELength (operand : Expression)
| ESizeOf (operand : Expression)
| ETypeTest (type_ref : TypeReference)
| EVector (values : list Expression)
| ENew (type_name : string) (arguments : list Expression)
| EUnary (operator : string) (operand : Expression)
| EBinary (operator : string) (left right : Expression)
| ECall (callee : Expression) (arguments : list Expression)
| EMember (object : Expression) (name : string)
| EIndex (object index : Expression)
| ECast (value : Expression) (type_ref : TypeReference)
| EIncrement (target : Expression) (delta : Z) (prefix : bool)
with TypeReference := mkTypeReference (alternatives : list TypeAtom) (span : Span)
with TypeAtom := mkTypeAtom (name : string) (parts : list string) (dimensions : list VectorDimension) (span : Span)
with VectorDimension :=
| DLiteral (value : string) (span : Span)
| DExpression (e : Expression).

Definition e_kind (e : Expression) : ExpressionKind := let 'mkExpression kind _ := e in kind.
Definition e_span (e : Expression) : Span := let 'mkExpression _ span := e in span.
Definition tr_alternatives (t : TypeReference) : list TypeAtom := let 'mkTypeReference l _ := t in l.
Definition tr_span (t : TypeReference) : Span := let 'mkTypeReference _ span := t in span.
Definition ta_span (t : TypeAtom) : Span := let 'mkTypeAtom _ _ _ span := t in span.

(** ** Statements *)

Inductive Visibility := Public | Private | Protected.

Inductive ForHeader :=
| Counted (variable : string) (type_ref : option TypeReference) (variable_span : Span) (start end_ : Expression)
    (step : option Expression)
| Each (variable : string) (type_ref : option TypeReference) (variable_span : Span) (iterable : Expression).

Record Parameter_ := mkParameter { p_name : string; p_type : TypeReference; p_span : Span }.

Record FunctionSignature := mkSignature {
  fs_parameters : list Parameter_;
  fs_return : TypeReference;
  fs_span : Span;
}.

Record DestructuringBinding := mkDestructuring {
  db_name : string;
  db_type : option TypeReference;
  db_span : Span;
}.

Inductive Statement :=
| SIf (branches : list IfBranch) (otherwise : option Block) (span : Span)
| SWhile (condition : Expression) (body : Block) (span : Span)
| SRepeat (body : Block) (condition : Expression) (span : Span)
| SFor (header : ForHeader) (body : Block) (span : Span)
| SBinding (constant : bool) (visibility : option Visibility) (is_static : bool) (name : string)
    (additional_names : list string) (additional_name_spans : list Span) (type_ref : TypeReference)
    (initialized : bool) (initializer : option Expression) (additional_initializers : list Expression) (span : Span)
| SDestructuring (bindings : list DestructuringBinding) (source : Expression) (span : Span)
| SAssignment (target : Expression) (operator : string) (value : Expression) (span : Span)
| SReturn (value : option Expression) (span : Span)
| SPrint (values : list Expression) (span : Span)
| SInput (prompt : option Expression) (target : Expression) (span : Span)
| SClearScreen (console : Expression) (span : Span)
| SBeep (console : Expression) (span : Span)
| SRelease (value : Expression) (span : Span)
| SStop (code : Expression) (span : Span)
| SControl (kind target : string) (span : Span)
| SCall (e : Expression) (span : Span)
| SMemberFunction (name : string) (visibility : option Visibility) (is_static is_override : bool)
    (parameters : list Parameter_) (signature : option FunctionSignature) (body : option Block) (span : Span)
with IfBranch := mkBranch (condition : Expression) (body : Block) (span : Span)
with Block := mkBlock (statements : list Statement) (span : Span).

Inductive DeclarationKind := DFunction | DClass | DStruct | DInterface.

Inductive Item :=
| Import (exported : bool) (path : list string) (alias : string) (span : Span)
| ConstantItem (exported : bool) (name : string) (type_ref : TypeReference) (initializer : Expression) (span : Span)
| Declaration (exported asynchronous : bool) (kind : DeclarationKind) (name : string)
    (base_class : option TypeReference) (interfaces : list string) (signature : option FunctionSignature)
    (statements : list Statement) (span : Span).

Record Program := mkProgram { source_name : option string; items : list Item }.

Definition compound_binary_operator (operator : string) : option string :=
  if String.eqb operator "PlusAssign" then Some "Plus"
  else if String.eqb operator "MinusAssign" then Some "Minus"
  else if String.eqb operator "StarAssign" then Some "Star"
  else if String.eqb operator "SlashAssign" then Some "Slash"
  else if String.eqb operator "PercentAssign" then Some "Percent"
  else if String.eqb operator "PowerAssign" then Some "Power"
  else None.

(** [Statement::assignment]: a compound assignment reads its target again, just
    after it. *)
Definition assignment (target : Expression) (operator : string) (value : Expression) (span : Span) : Statement :=
  match compound_binary_operator operator with
  | None => SAssignment target operator value span
  | Some binary_operator =>
      let read := mkExpression (e_kind target) (mkSpan (span_end (e_span target)) (span_end (e_span target))) in
      let binary :=
        mkExpression (EBinary binary_operator read value)
          (mkSpan (span_start (e_span target)) (span_end (e_span value))) in
      SAssignment target operator binary span
  end.
