(* ===== verification/ExprParser.v ===== *)
(** * ExprParser: the expression parser ([crates/bn_frontend/src/parser/expressions.rs])

    Precedence climbing over the tokens of one expression.  The state is the
    list of the tokens from the cursor on; past its end the parser sees [EOF]
    and takes spans from [final], the last token of the slice.  The fuel counts
    nested calls and loop rounds; [Grammar.v] shows that four times the number of
    tokens is enough, [Printing.v] that printed expressions are read back. *)

From S2P Require Import Prelude Text Scalars Diag Lexer Types Literals Syntax.

#[local] Open Scope string_scope.
#[local] Open Scope Z_scope.

#[export] Instance Symbol_eq_dec : EqDecision Symbol.
Proof. solve_decision. Defined.

(** The derived [Debug] of [Symbol]. *)
Definition symbol_debug (s : Symbol) : string :=
  match s with
  | Assign => "Assign" | Equal => "Equal" | NotEqual => "NotEqual" | Less => "Less"
  | LessEqual => "LessEqual" | Greater => "Greater" | GreaterEqual => "GreaterEqual" | Plus => "Plus"
  | Minus => "Minus" | Star => "Star" | Power => "Power" | Slash => "Slash" | Percent => "Percent"
  | PlusAssign => "PlusAssign" | MinusAssign => "MinusAssign" | Increment => "Increment"
  | Decrement => "Decrement" | StarAssign => "StarAssign" | PowerAssign => "PowerAssign"
  | SlashAssign => "SlashAssign" | PercentAssign => "PercentAssign" | LeftParen => "LeftParen"
  | RightParen => "RightParen" | LeftBracket => "LeftBracket" | RightBracket => "RightBracket"
  | Comma => "Comma" | Colon => "Colon" | Dot => "Dot"
  end.

Definition kind_text (k : TokenKind) : string :=
  match k with
  | TkKeyword v | TkIdentifier v | TkInteger v | TkFloat v | TkString v | TkSpecial v => v
  | TkSymbol s => symbol_debug s
  | TkNewline | TkEof => ""
  end.
Definition text (t : Token) : string := kind_text (t_kind t).

Definition one_of (words : list string) (word : string) : bool := existsb (String.eqb word) words.

Definition is_keyword (word : string) (k : TokenKind) : bool :=
  match k with TkKeyword value => String.eqb value word | _ => false end.
Definition is_keyword_of (words : list string) (k : TokenKind) : bool :=
  match k with TkKeyword word => one_of words word | _ => false end.
Definition is_symbol (s : Symbol) (k : TokenKind) : bool :=
  match k with TkSymbol value => bool_decide (value = s) | _ => false end.
Definition is_identifier (k : TokenKind) : bool := match k with TkIdentifier _ => true | _ => false end.
Definition is_integer (k : TokenKind) : bool := match k with TkInteger _ => true | _ => false end.

Definition expression_atom (k : TokenKind) : ExpressionKind :=
  match k with
  | TkIdentifier name => EName name
  | TkInteger value => ELiteral (LInteger value)
  | TkFloat value => ELiteral (LFloat value)
  | TkString value => ELiteral (LString value)
  | TkSpecial value => ELiteral (LSpecial value)
  | TkKeyword word =>
      if String.eqb word "TRUE" then ELiteral (LBoolean true)
      else if String.eqb word "FALSE" then ELiteral (LBoolean false)
      else if String.eqb word "NULL" then ELiteral LNull
      else if String.eqb word "NA" then ELiteral LNotAvailable
      else if String.eqb word "EOF" then ELiteral LEndOfFile
      else if String.eqb word "SELF" then EName word
      else if String.eqb word "SUPER" then ESuper
      else ELiteral (LTypeName word)
  | TkSymbol _ | TkNewline | TkEof => ELiteral (LString (kind_text k))
  end.

Definition NUMERIC : list string :=
  ["BYTE"; "INT8"; "INT16"; "INT32"; "INT64"; "UINT16"; "UINT32"; "UINT64"; "FLOAT32"; "FLOAT64";
   "INTEGER"; "FLOAT"; "TIMESTAMP"].

(** The tokens [prefix] takes as one expression. *)
Definition is_atom (k : TokenKind) : bool :=
  match k with
  | TkIdentifier _ | TkInteger _ | TkFloat _ | TkString _ | TkSpecial _ => true
  | _ => is_keyword_of (["TRUE"; "FALSE"; "NULL"; "NA"; "EOF"; "SELF"; "SUPER"; "BOOLEAN"; "STRING"; "SYSTEM"]
                          ++ NUMERIC)%list k
  end.

Definition is_cast_type (k : TokenKind) : bool := is_keyword_of (["BOOLEAN"; "STRING"] ++ NUMERIC)%list k.
Definition type_test_start (k : TokenKind) : bool :=
  is_identifier k
  || is_keyword_of (["BOOLEAN"; "STRING"; "DATE"; "TIME"; "TIMEZONE"; "SYSTEM"; "POINTER"] ++ NUMERIC)%list k.

Definition POWER_PRECEDENCE : nat := 10.
Definition U8_MAX : nat := 255.

(** [binary]: precedence, and whether it associates to the right. *)
Definition binary (k : TokenKind) : option (nat * bool) :=
  match k with
  | TkKeyword word =>
      if String.eqb word "OR" then Some (1%nat, false)
      else if String.eqb word "XOR" then Some (2%nat, false)
      else if String.eqb word "AND" then Some (3%nat, false)
      else if String.eqb word "IS" then Some (4%nat, false)
      else if String.eqb word "SHL" || String.eqb word "SHR" then Some (6%nat, false)
      else if String.eqb word "DIV" then Some (8%nat, false)
      else None
  | TkSymbol (Assign | NotEqual) => Some (4%nat, false)
  | TkSymbol (Less | LessEqual | Greater | GreaterEqual) => Some (5%nat, false)
  | TkSymbol (Plus | Minus) => Some (7%nat, false)
  | TkSymbol (Star | Slash | Percent) => Some (8%nat, false)
  | TkSymbol Power => Some (POWER_PRECEDENCE, true)
  | _ => None
  end.

Definition is_upper (c : ascii) : bool := in_range 65 90 (byte_val c).

Definition capital_message : string := "host capability names after HOST. must start with a capital letter".
Definition starts_capital (name : string) : bool :=
  match name with String c _ => is_upper c | "" => false end.

(** ** The parser *)

Section Expressions.
Variable final : Token.
Abbreviation tokens_left := (list Token).

Definition peek_kind (ts : tokens_left) : TokenKind := match ts with t :: _ => t_kind t | [] => TkEof end.
Definition peek (ts : tokens_left) : Token := match ts with t :: _ => t | [] => final end.
Definition at_end (ts : tokens_left) : bool := match ts with [] => true | _ => false end.
Definition take_token (ts : tokens_left) : Token * tokens_left := (peek ts, tail ts).

Definition syntax_error {A} (message : string) (span : Span) : presult A := Err (parse_message message span).
Definition error_at {A} (message : string) (ts : tokens_left) : presult A := syntax_error message (t_span (peek ts)).

Definition keyword (word : string) (ts : tokens_left) : bool := is_keyword word (peek_kind ts).
Definition symbol (s : Symbol) (ts : tokens_left) : bool := is_symbol s (peek_kind ts).

Definition expect_symbol (s : Symbol) (ts : tokens_left) : presult (Span * tokens_left) :=
  if symbol s ts then let '(t, ts) := take_token ts in Ok (t_span t, ts)
  else error_at "expected punctuation" ts.

Definition identifier_token (ts : tokens_left) : presult (Token * tokens_left) :=
  if is_identifier (peek_kind ts) then Ok (take_token ts) else error_at "expected identifier" ts.

Definition is_target (k : ExpressionKind) : bool :=
  match k with EName _ | EMember _ _ | EIndex _ _ => true | _ => false end.

Definition increment (target : Expression) (token : Token) (prefix : bool) : presult Expression :=
  match e_kind target with
  | EIncrement _ _ _ => syntax_error "++ and -- cannot be chained" (t_span token)
  | k =>
      if is_target k then
        let delta := if is_symbol Increment (t_kind token) then 1 else -1 in
        let span := if prefix then mkSpan (span_start (t_span token)) (span_end (e_span target))
                    else mkSpan (span_start (e_span target)) (span_end (t_span token)) in
        Ok (mkExpression (EIncrement target delta prefix) span)
      else syntax_error "++ and -- require an assignment target (an identifier, member, or index)" (t_span token)
  end.

(** The [.name] parts of a type: their tokens and what is left. *)
Fixpoint dotted (ts : tokens_left) : presult (list Token * tokens_left) :=
  match ts with
  | dot :: rest =>
      if is_symbol Dot (t_kind dot) then
        match rest with
        | name :: ts =>
            if is_identifier (t_kind name) then '(l, ts) ← dotted ts; Ok (dot :: name :: l, ts)
            else error_at "expected identifier" rest
        | [] => error_at "expected identifier" rest
        end
      else Ok ([], ts)
  | [] => Ok ([], ts)
  end.

(** The [[n]] groups of a vector type test. *)
Fixpoint literal_dimensions (ts : tokens_left) : list VectorDimension * list Token * tokens_left :=
  match ts with
  | open :: size :: close :: rest =>
      if is_symbol LeftBracket (t_kind open) && is_symbol RightBracket (t_kind close) then
        match t_kind size with
        | TkInteger value =>
            let '(dimensions, tokens, ts) := literal_dimensions rest in
            (DLiteral value (mkSpan (span_start (t_span open)) (span_end (t_span close))) :: dimensions,
             open :: size :: close :: tokens, ts)
        | _ => ([], [], ts)
        end
      else ([], [], ts)
  | _ => ([], [], ts)
  end.

(** The tokens after [POINTER]. *)
Definition pointer_test (ts : tokens_left) : presult (list Token * tokens_left) :=
  if keyword "TO" ts then
    let '(to, ts) := take_token ts in
    '(element, ts) ←
      (if is_keyword_of ("VOID" :: NUMERIC) (peek_kind ts) then let '(t, ts) := take_token ts in Ok ([t], ts)
       else if is_identifier (peek_kind ts) then
         let '(t, ts) := take_token ts in '(names, ts) ← dotted ts; Ok (t :: names, ts)
       else error_at "POINTER type test requires a numeric, named, or VOID element type" ts);
    if symbol LeftBracket ts then
      let '(open, ts) := take_token ts in
      '(size, ts) ←
        (if symbol RightBracket ts then Ok ([], ts)
         else if is_integer (peek_kind ts) then let '(t, ts) := take_token ts in Ok ([t], ts)
         else error_at "pointer shape requires an integer literal" ts);
      if symbol RightBracket ts then
        let '(close, ts) := take_token ts in Ok (to :: element ++ open :: size ++ [close], ts)%list
      else error_at "expected ] in pointer type test" ts
    else Ok (to :: element, ts)
  else error_at "expected TO in POINTER type test" ts.

Definition type_test (ts : tokens_left) : presult (Expression * tokens_left) :=
  let '(first, ts) := take_token ts in
  '(tokens, dimensions, ts) ←
    (if is_keyword "POINTER" (t_kind first) then '(tokens, ts) ← pointer_test ts; Ok (tokens, [], ts)
     else
       '(names, ts) ← (if is_identifier (t_kind first) then dotted ts else Ok ([], ts));
       let '(dimensions, groups, ts) := literal_dimensions ts in Ok ((names ++ groups)%list, dimensions, ts));
  let span := mkSpan (span_start (t_span first)) (span_end (t_span (List.last tokens first))) in
  let atom := mkTypeAtom (text first) (map text tokens) dimensions span in
  Ok (mkExpression (ETypeTest (mkTypeReference [atom] span)) span, ts).

Definition cast (value : Expression) (ts : tokens_left) : presult (Expression * tokens_left) :=
  let ts := tail ts in
  if is_cast_type (peek_kind ts) then
    let '(t, ts) := take_token ts in
    let type_ref := mkTypeReference [mkTypeAtom (text t) [] [] (t_span t)] (t_span t) in
    Ok (mkExpression (ECast value type_ref) (mkSpan (span_start (e_span value)) (span_end (t_span t))), ts)
  else error_at "expected numeric type, BOOLEAN, or STRING after AS" ts.

Definition member (object : Expression) (ts : tokens_left) : presult (Expression * tokens_left) :=
  '(t, ts) ← identifier_token (tail ts);
  Ok (mkExpression (EMember object (text t)) (mkSpan (span_start (e_span object)) (span_end (t_span t))), ts).

(** The type of [NEW]: its name and what is left. *)
Definition new_type (ts : tokens_left) : presult (string * Token * bool * tokens_left) :=
  let '(type_token, ts) := take_token ts in
  let type_name := text type_token in
  if String.eqb type_name "" then error_at "expected type after NEW" ts
  else
    let numeric := one_of NUMERIC type_name in
    if negb numeric && negb (is_identifier (t_kind type_token)) then
      error_at "NEW requires a numeric type or CLASS name" ts
    else if numeric then Ok (type_name, type_token, true, ts)
    else
      '(parts, ts) ← dotted ts;
      Ok (foldl (fun name t => if is_identifier (t_kind t) then name +:+ "." +:+ text t else name) type_name parts,
          type_token, false, ts).

Definition host_capability (start : Position) (ts : tokens_left) : presult (Expression * tokens_left) :=
  '(_, ts) ← expect_symbol Dot ts;
  let '(name_token, ts) := take_token ts in
  match t_kind name_token with
  | TkIdentifier name =>
      if starts_capital name then
        Ok (mkExpression (EHostCapability name) (mkSpan start (span_end (t_span name_token))), ts)
      else error_at capital_message ts
  | _ => error_at "expected host capability name" ts
  end.

Definition start_of (ts : tokens_left) : Position := span_start (t_span (peek ts)).

Fixpoint expression (fuel : nat) (minimum : nat) (ts : tokens_left) : presult (Expression * tokens_left) :=
  match fuel with
  | O => Fuel
  | S fuel => '(e, ts) ← prefix fuel ts; operators fuel minimum e ts
  end
(** The loop of [expression]. *)
with operators (fuel : nat) (minimum : nat) (left : Expression) (ts : tokens_left)
    : presult (Expression * tokens_left) :=
  match fuel with
  | O => Fuel
  | S fuel =>
      if at_end ts then Ok (left, ts)
      else if symbol Increment ts || symbol Decrement ts then
        let '(token, ts) := take_token ts in
        e ← increment left token false; operators fuel minimum e ts
      else if symbol LeftParen ts then
        '(arguments, close, ts) ← arguments_ fuel RightParen (tail ts);
        operators fuel minimum
          (mkExpression (ECall left arguments) (mkSpan (span_start (e_span left)) (span_end close))) ts
      else if symbol Dot ts then '(e, ts) ← member left ts; operators fuel minimum e ts
      else if symbol LeftBracket ts then
        '(index, ts) ← expression fuel 0 (tail ts);
        '(close, ts) ← expect_symbol RightBracket ts;
        operators fuel minimum
          (mkExpression (EIndex left index) (mkSpan (span_start (e_span left)) (span_end close))) ts
      else if keyword "AS" ts then '(e, ts) ← cast left ts; operators fuel minimum e ts
      else
        match binary (peek_kind ts) with
        | None => Ok (left, ts)
        | Some (precedence, right_associative) =>
            if (precedence <? minimum)%nat then Ok (left, ts)
            else
              let '(token, ts) := take_token ts in
              let operator := text token in
              '(e, ts) ←
                (if String.eqb operator "IS" && type_test_start (peek_kind ts) then type_test ts
                 else expression fuel (if right_associative then precedence else S precedence) ts);
              operators fuel minimum
                (mkExpression (EBinary operator left e)
                   (mkSpan (span_start (e_span left)) (span_end (e_span e)))) ts
        end
  end
with prefix (fuel : nat) (ts : tokens_left) : presult (Expression * tokens_left) :=
  match fuel with
  | O => Fuel
  | S fuel =>
      let start := start_of ts in
      if symbol Increment ts || symbol Decrement ts then
        let '(token, ts) := take_token ts in
        '(operand, ts) ← expression fuel U8_MAX ts;
        e ← increment operand token true; Ok (e, ts)
      else if keyword "ASYNC" ts then
        '(queue, ts) ← prefix fuel (tail ts);
        '(target, ts) ← identifier_token ts;
        '(_, ts) ← expect_symbol LeftParen ts;
        '(arguments, close, ts) ← arguments_ fuel RightParen ts;
        let member := mkExpression (EMember queue "Async")
                        (mkSpan (span_start (e_span queue)) (span_end (t_span target))) in
        let first := mkExpression (EName (text target)) (t_span target) in
        Ok (mkExpression (ECall member (first :: arguments)) (mkSpan start (span_end close)), ts)
      else if keyword "AWAIT" ts then
        '(ticket, ts) ← prefix fuel (tail ts);
        '(_, ts) ← expect_symbol LeftParen ts;
        '(timeout, ts) ← expression fuel 0 ts;
        '(close, ts) ← expect_symbol RightParen ts;
        let member := mkExpression (EMember ticket "Wait")
                        (mkSpan (span_start (e_span ticket)) (span_start (e_span timeout))) in
        Ok (mkExpression (ECall member [timeout]) (mkSpan start (span_end close)), ts)
      else if keyword "INPUT" ts then
        '(_, ts) ← expect_symbol LeftParen (tail ts);
        '(close, ts) ← expect_symbol RightParen ts;
        Ok (mkExpression (EInput None) (mkSpan start (span_end close)), ts)
      else if keyword "LEN" ts then
        '(operand, close, ts) ← operand_form fuel (tail ts);
        Ok (mkExpression (ELength operand) (mkSpan start (span_end close)), ts)
      else if keyword "SIZEOF" ts then
        '(operand, close, ts) ← operand_form fuel (tail ts);
        Ok (mkExpression (ESizeOf operand) (mkSpan start (span_end close)), ts)
      else if keyword "HOST" ts then host_capability start (tail ts)
      else if keyword "NEW" ts then
        '(type_name, type_token, numeric, ts) ← new_type (tail ts);
        if symbol LeftBracket ts then
          if negb numeric then error_at "CLASS construction requires parentheses" ts
          else
            '(size, ts) ← expression fuel 0 (tail ts);
            '(close, ts) ← expect_symbol RightBracket ts;
            Ok (mkExpression (ENew type_name [size]) (mkSpan start (span_end close)), ts)
        else if symbol LeftParen ts then
          if numeric then error_at "numeric NEW does not use parentheses" ts
          else
            '(arguments, close, ts) ← arguments_ fuel RightParen (tail ts);
            Ok (mkExpression (ENew type_name arguments) (mkSpan start (span_end close)), ts)
        else if negb numeric then error_at "CLASS construction requires parentheses" ts
        else Ok (mkExpression (ENew type_name []) (mkSpan start (span_end (t_span type_token))), ts)
      else if symbol LeftBracket ts then
        '(values, close, ts) ← arguments_ fuel RightBracket (tail ts);
        Ok (mkExpression (EVector values) (mkSpan start (span_end close)), ts)
      else if keyword "NOT" ts || symbol Minus ts then
        let '(token, ts) := take_token ts in
        '(operand, ts) ← expression fuel POWER_PRECEDENCE ts;
        Ok (mkExpression (EUnary (text token) operand) (mkSpan start (span_end (e_span operand))), ts)
      else if symbol LeftParen ts then
        '(e, ts) ← expression fuel 0 (tail ts);
        '(_, ts) ← expect_symbol RightParen ts;
        Ok (e, ts)
      else if is_atom (peek_kind ts) then
        let '(token, ts) := take_token ts in
        Ok (mkExpression (expression_atom (t_kind token)) (t_span token), ts)
      else error_at "expected expression" ts
  end
(** Expressions between commas up to [close]: of a call, a vector, a [NEW]. *)
with arguments_ (fuel : nat) (close : Symbol) (ts : tokens_left) : presult (list Expression * Span * tokens_left) :=
  match fuel with
  | O => Fuel
  | S fuel =>
      if symbol close ts then '(span, ts) ← expect_symbol close ts; Ok ([], span, ts)
      else more_arguments fuel close ts
  end
with more_arguments (fuel : nat) (close : Symbol) (ts : tokens_left) : presult (list Expression * Span * tokens_left) :=
  match fuel with
  | O => Fuel
  | S fuel =>
      '(e, ts) ← expression fuel 0 ts;
      if symbol Comma ts then
        '(l, span, ts) ← more_arguments fuel close (tail ts); Ok (e :: l, span, ts)
      else '(span, ts) ← expect_symbol close ts; Ok ([e], span, ts)
  end
with operand_form (fuel : nat) (ts : tokens_left) : presult (Expression * Span * tokens_left) :=
  match fuel with
  | O => Fuel
  | S fuel =>
      '(_, ts) ← expect_symbol LeftParen ts;
      '(operand, ts) ← expression fuel 0 ts;
      '(close, ts) ← expect_symbol RightParen ts;
      Ok (operand, close, ts)
  end.
End Expressions.

(** [Position] of an empty slice. *)
Definition unknown_position : Position := mkPosition 0 0 0 1 1.

Definition expression_fuel (tokens : list Token) : nat := (4 * length tokens + 4)%nat.

Definition parse_expression (tokens : list Token) : presult Expression :=
  match list.last tokens with
  | None => Err (ParseFacts "an expression" CONTEXT (mkSpan unknown_position unknown_position))
  | Some final =>
      '(e, ts) ← expression final (expression_fuel tokens) 0 tokens;
      match peek_kind ts with
      | TkNewline | TkEof => Ok e
      | _ => error_at final "unexpected token after expression" ts
      end
  end.

(** ** Literal initialisers ([parser.rs]) *)

Definition integer_literal_value (text : string) : option Z :=
  let '(negative, digits) := match strip_prefix "-" text with Some digits => (true, digits) | None => (false, text) end in
  magnitude ← (match strip_prefix "0x" digits with
               | Some digits => from_str_radix i128_MIN i128_MAX 16 digits
               | None =>
                   match strip_prefix "0b" digits with
                   | Some digits => from_str_radix i128_MIN i128_MAX 2 digits
                   | None => from_str_radix i128_MIN i128_MAX 10 digits
                   end
               end);
  Some (if negative then - magnitude else magnitude).

Definition negative_literal (initializer : Expression) : Expression :=
  match e_kind initializer with
  | EUnary operator operand =>
      if String.eqb operator (symbol_debug Minus) then
        match e_kind operand with
        | ELiteral (LInteger text) =>
            match integer_literal_value text with
            | Some value => mkExpression (ELiteral (LInteger (dec_of_Z (- value)))) (e_span initializer)
            | None => initializer
            end
        | ELiteral (LFloat text) => mkExpression (ELiteral (LFloat (String "-" text))) (e_span initializer)
        | _ => initializer
        end
      else initializer
  | _ => initializer
  end.
