(* ===== verification/Printing.v ===== *)
(** * Printing: expressions as text, read back

    [show] writes an expression, with parentheses where its operators need them;
    parsing the tokens gives the same expression, whatever the positions of
    the tokens.  With the lexer this is the round trip from the
    expression to its text and back. *)

From S2P Require Import Prelude Text Scalars Diag Lexer Reading Types Literals Syntax ExprParser Grammar.

#[local] Open Scope string_scope.
#[local] Open Scope nat_scope.

(** ** Expressions without positions *)

Definition nowhere : Span := mkSpan unknown_position unknown_position.

(** The same expression, all positions forgotten. *)
Fixpoint erase (e : Expression) : Expression :=
  match e with mkExpression k _ => mkExpression (erase_kind k) nowhere end
with erase_kind (k : ExpressionKind) : ExpressionKind :=
  match k with
  | ELiteral _ | EName _ | ESuper | EHostCapability _ => k
  | EInput prompt => EInput (match prompt with Some e => Some (erase e) | None => None end)
  | ELength e => ELength (erase e)
  | ESizeOf e => ESizeOf (erase e)
  | ETypeTest t => ETypeTest (erase_type t)
  | EVector l => EVector (map erase l)
  | ENew name l => ENew name (map erase l)
  | EUnary op e => EUnary op (erase e)
  | EBinary op a b => EBinary op (erase a) (erase b)
  | ECall f l => ECall (erase f) (map erase l)
  | EMember e name => EMember (erase e) name
  | EIndex e i => EIndex (erase e) (erase i)
  | ECast e t => ECast (erase e) (erase_type t)
  | EIncrement e delta prefix => EIncrement (erase e) delta prefix
  end
with erase_type (t : TypeReference) : TypeReference :=
  match t with mkTypeReference l _ => mkTypeReference (map erase_atom l) nowhere end
with erase_atom (a : TypeAtom) : TypeAtom :=
  match a with mkTypeAtom name parts dimensions _ => mkTypeAtom name parts (map erase_dimension dimensions) nowhere end
with erase_dimension (d : VectorDimension) : VectorDimension :=
  match d with DLiteral v _ => DLiteral v nowhere | DExpression e => DExpression (erase e) end.

(** The expressions right under an expression. *)
Definition children (k : ExpressionKind) : list Expression :=
  match k with
  | ELiteral _ | EName _ | ESuper | EHostCapability _ | ETypeTest _ | EInput None => []
  | EInput (Some e) | ELength e | ESizeOf e | EUnary _ e | EMember e _ | ECast e _ | EIncrement e _ _ => [e]
  | EVector l | ENew _ l => l
  | EBinary _ a b | EIndex a b => [a; b]
  | ECall f l => f :: l
  end.

Lemma expression_children (P : Expression → Prop) :
  (∀ k span, Forall P (children k) → P (mkExpression k span)) → ∀ e, P e.
Proof.
  intros H. fix IH 1. intros [k span]. apply H. clear H.
  destruct k as [| | |[p|]| | | | |values|name values|op a|op a b|f values| | | |]; cbn [children].
  all: try (apply Forall_nil_2; fail).
  all: try (repeat (apply Forall_cons_2; [apply IH|]); apply Forall_nil_2).
  3: apply Forall_cons_2; [apply IH|].
  all: revert values; fix go 1; intros [|x l]; [apply Forall_nil_2|apply Forall_cons_2; [apply IH|apply go]].
Qed.

(** ** Writing *)

Definition NAMED : list string := (["BOOLEAN"; "STRING"] ++ NUMERIC)%list.

Definition operator_kinds : list TokenKind :=
  (map TkKeyword ["OR"; "XOR"; "AND"; "IS"; "SHL"; "SHR"; "DIV"]
   ++ map TkSymbol [Assign; NotEqual; Less; LessEqual; Greater; GreaterEqual; Plus; Minus; Star; Slash; Percent; Power])%list.
Definition operator_kind (operator : string) : TokenKind :=
  default TkEof (List.find (fun k => String.eqb (kind_text k) operator) operator_kinds).

(** The levels of the grammar, [or-expression] first, and whether operators of
    the level group to the right.  [is-expression] and [equality-expression] have
    one number: the first is the looser ([left_level]). *)
Definition precedence (operator : string) : nat * bool :=
  if one_of ["OR"] operator then (1, false)
  else if one_of ["XOR"] operator then (2, false)
  else if one_of ["AND"] operator then (3, false)
  else if one_of ["IS"; "Assign"; "NotEqual"] operator then (4, false)
  else if one_of ["Less"; "LessEqual"; "Greater"; "GreaterEqual"] operator then (5, false)
  else if one_of ["SHL"; "SHR"] operator then (6, false)
  else if one_of ["Plus"; "Minus"] operator then (7, false)
  else if one_of ["Star"; "Slash"; "Percent"; "DIV"] operator then (8, false)
  else if one_of ["Power"] operator then (10, true)
  else (0, false).

Definition literal_kind (l : Literal) : TokenKind :=
  match l with
  | LInteger v => TkInteger v
  | LFloat v => TkFloat v
  | LString v => TkString v
  | LSpecial v => TkSpecial v
  | LBoolean b => TkKeyword (if b then "TRUE" else "FALSE")
  | LNull => TkKeyword "NULL"
  | LNotAvailable => TkKeyword "NA"
  | LEndOfFile => TkKeyword "EOF"
  | LTypeName word => TkKeyword word
  end.
Definition name_kind (name : string) : TokenKind := if String.eqb name "SELF" then TkKeyword name else TkIdentifier name.
Definition unary_kind (operator : string) : TokenKind :=
  if String.eqb operator "NOT" then TkKeyword operator else TkSymbol Minus.

(** The name of a type of one name. *)
Definition type_name (t : TypeReference) : string :=
  match tr_alternatives t with mkTypeAtom name _ _ _ :: _ => name | [] => "" end.
Definition tested_words : list string := (["BOOLEAN"; "STRING"; "DATE"; "TIME"; "TIMEZONE"; "SYSTEM"] ++ NUMERIC)%list.
Definition tested_kind (name : string) : TokenKind :=
  if one_of tested_words name then TkKeyword name else TkIdentifier name.

Definition is_type_test (e : Expression) : bool := match e_kind e with ETypeTest _ => true | _ => false end.

(** [NULL], [NA], [EOF], [NAN], [INF] and [-INF], which [IS] takes as they are. *)
Definition special_value (e : Expression) : bool :=
  match e_kind e with
  | ELiteral (LNull | LNotAvailable | LEndOfFile | LSpecial _) => true
  | EUnary operator (mkExpression (ELiteral (LSpecial value)) _) => String.eqb operator "Minus" && String.eqb value "INF"
  | _ => false
  end.

(** How tightly the expression binds: [POSTFIX] what may take a call, a member,
    an index, a cast or an increment after it. *)
Definition POSTFIX : nat := 12.
Definition level (k : ExpressionKind) : nat :=
  match k with
  | EBinary operator _ _ => (precedence operator).1
  | EUnary _ _ => POWER_PRECEDENCE
  | EIncrement _ _ _ => 11
  | ENew name [] => if one_of NUMERIC name then 11 else POSTFIX
  | _ => POSTFIX
  end.

Definition is_operation (e : Expression) : bool :=
  match e_kind e with EBinary operator _ _ => String.eqb operator "IS" | _ => false end.

(** The levels at which the sides of an operator are written.  Both sides of an
    equality bind tighter than [IS], and so does the left side of an [IS], which
    is not repeated: there an [IS] is written in parentheses. *)
Definition left_level (operator : string) (left_side : Expression) : nat :=
  let '(p, right_associative) := precedence operator in
  if right_associative || ((p =? 4) && is_operation left_side) then S p else p.
Definition right_level (operator : string) (right_side : Expression) : nat :=
  let '(p, right_associative) := precedence operator in
  if String.eqb operator "IS" then (if is_type_test right_side then p else S p)
  else if right_associative : bool then p else S p.

Fixpoint commas (l : list (list TokenKind)) : list TokenKind :=
  match l with
  | [] => []
  | [ks] => ks
  | ks :: l => (ks ++ TkSymbol Comma :: commas l)%list
  end.

Definition between (open close : Symbol) (ks : list TokenKind) : list TokenKind :=
  (TkSymbol open :: ks ++ [TkSymbol close])%list.

Fixpoint show (minimum : nat) (e : Expression) : list TokenKind :=
  match e with
  | mkExpression k _ => if level k <? minimum then between LeftParen RightParen (show_kind k) else show_kind k
  end
with show_kind (k : ExpressionKind) : list TokenKind :=
  match k with
  | ELiteral l => [literal_kind l]
  | EName name => [name_kind name]
  | ESuper => [TkKeyword "SUPER"]
  | EInput _ => [TkKeyword "INPUT"; TkSymbol LeftParen; TkSymbol RightParen]
  | EHostCapability name => [TkKeyword "HOST"; TkSymbol Dot; TkIdentifier name]
  | ELength e => TkKeyword "LEN" :: between LeftParen RightParen (show 0 e)
  | ESizeOf e => TkKeyword "SIZEOF" :: between LeftParen RightParen (show 0 e)
  | ETypeTest t => [tested_kind (type_name t)]
  | EVector l => between LeftBracket RightBracket (commas (map (show 0) l))
  | ENew name l =>
      if one_of NUMERIC name then
        TkKeyword "NEW" :: TkKeyword name :: match l with [] => [] | e :: _ => between LeftBracket RightBracket (show 0 e) end
      else TkKeyword "NEW" :: TkIdentifier name :: between LeftParen RightParen (commas (map (show 0) l))
  | EUnary operator e => unary_kind operator :: show POWER_PRECEDENCE e
  | EBinary operator a b =>
      (show (left_level operator a) a ++ operator_kind operator :: show (right_level operator b) b)%list
  | ECall f l => (show POSTFIX f ++ between LeftParen RightParen (commas (map (show 0) l)))%list
  | EMember e name => (show POSTFIX e ++ [TkSymbol Dot; TkIdentifier name])%list
  | EIndex e i => (show POSTFIX e ++ between LeftBracket RightBracket (show 0 i))%list
  | ECast e t => (show POSTFIX e ++ [TkKeyword "AS"; TkKeyword (type_name t)])%list
  | EIncrement e delta prefix =>
      let operator := TkSymbol (if (delta =? 1)%Z then Increment else Decrement) in
      if prefix : bool then operator :: show POSTFIX e else (show POSTFIX e ++ [operator])%list
  end.

(** ** What can be written

    Every form of the language's grammar, with these exceptions: [ASYNC] and
    [AWAIT], which the parser turns into calls; types of several parts after [IS]
    and [NEW].  After [IS] stands a type or a special value. *)

Definition plain_type (words : list string) (t : TypeReference) : bool :=
  match tr_alternatives t with [mkTypeAtom name [] [] _] => one_of words name | _ => false end.
Definition testable_type (t : TypeReference) : bool :=
  match tr_alternatives t with [mkTypeAtom _ [] [] _] => true | _ => false end.

Definition ATOM_TYPES : list string := ("SYSTEM" :: NAMED).

Fixpoint showable (e : Expression) : bool :=
  match e with mkExpression k _ => showable_kind k end
with showable_kind (k : ExpressionKind) : bool :=
  match k with
  | ELiteral (LTypeName word) => one_of ATOM_TYPES word
  | ELiteral _ | EName _ | ESuper | EInput None => true
  | EInput (Some _) | ETypeTest _ => false
  | EHostCapability name => starts_capital name
  | ELength e | ESizeOf e => showable e
  | EVector l => forallb showable l
  | ENew name l =>
      if one_of NUMERIC name then (length l <=? 1) && forallb showable l
      else negb (String.eqb name "") && forallb showable l
  | EUnary operator e => one_of ["NOT"; "Minus"] operator && showable e
  | EBinary operator a b =>
      match binary (operator_kind operator) with Some _ => true | None => false end && showable a
      && match b with
         | mkExpression (ETypeTest t) _ => String.eqb operator "IS" && testable_type t
         | _ => (negb (String.eqb operator "IS") || special_value b) && showable b
         end
  | ECall f l => showable f && forallb showable l
  | EMember e _ => showable e
  | EIndex e i => showable e && showable i
  | ECast e t => showable e && plain_type NAMED t
  | EIncrement e delta _ => showable e && is_target (e_kind e) && ((delta =? 1)%Z || (delta =? -1)%Z)
  end.

(** ** Tokens of given kinds *)

Lemma kinds_cons k ks tp : map t_kind tp = k :: ks → ∃ s r, tp = mkToken k s :: r ∧ map t_kind r = ks.
Proof. intros ([k' s] & r & -> & <- & <-)%map_eq_cons. by exists s, r. Qed.
Lemma kinds_one k tp : map t_kind tp = [k] → ∃ s, tp = [mkToken k s].
Proof. intros (s & r & -> & H%map_eq_nil)%kinds_cons. exists s. by rewrite H. Qed.
Lemma kinds_between open close ks tp : map t_kind tp = between open close ks →
  ∃ s r s', tp = (mkToken (TkSymbol open) s :: r ++ [mkToken (TkSymbol close) s'])%list ∧ map t_kind r = ks.
Proof.
  intros (s & r & -> & Hk)%kinds_cons. apply map_eq_app in Hk as (l & l' & -> & <- & (s' & ->)%kinds_one).
  by exists s, l, s'.
Qed.

(** Arithmetic on the lengths of tokens. *)
Ltac sizes := repeat rewrite ?length_app, ?length_cons in *; cbn [length] in *; lia.

(** Evaluates the tests of a token whose constructor is known. *)
Ltac tests :=
  unfold symbol, keyword;
  repeat match goal with
  | |- context [peek_kind (mkToken ?k ?s :: ?l)] => change (peek_kind (mkToken k s :: l)) with k
  | |- context [is_symbol ?s ?k] =>
      let b := eval vm_compute in (is_symbol s k) in
      lazymatch b with true => idtac | false => idtac end; change (is_symbol s k) with b
  | |- context [is_keyword ?s ?k] =>
      let b := eval vm_compute in (is_keyword s k) in
      lazymatch b with true => idtac | false => idtac end; change (is_keyword s k) with b
  end.

Lemma one_of_In words word : one_of words word = true ↔ In word words.
Proof.
  unfold one_of. rewrite existsb_exists. split; [by intros (x & Hx & ->%String.eqb_eq)|].
  intros H. exists word. by rewrite String.eqb_refl.
Qed.

Lemma binary_cases k p a : binary k = Some (p, a) → p = POWER_PRECEDENCE ∧ a = true ∨ p ≤ 8 ∧ a = false.
Proof. destruct k as [w| | | | | |[]| |]; cbn; repeat case_match; intros [= <- <-]; unfold POWER_PRECEDENCE; auto with lia. Qed.

(** What may not stand after an expression that is not [POSTFIX]. *)
Definition continues (k : TokenKind) : bool :=
  match k with
  | TkSymbol (Increment | Decrement | LeftParen | Dot | LeftBracket) => true
  | TkKeyword word => String.eqb word "AS"
  | _ => false
  end.

(** The parser of the operators at [minimum] stops at the tokens. *)
Definition stops (minimum : nat) (ts : list Token) : Prop :=
  continues (peek_kind ts) = false ∧ ∀ p a, binary (peek_kind ts) = Some (p, a) → p < minimum.

(** The precedence that an expression of the level still takes on its right. *)
Definition edge (l : nat) : nat := if l =? POWER_PRECEDENCE then POWER_PRECEDENCE else S l.

Definition follows (l : nat) (ts : list Token) : Prop :=
  (l < POSTFIX → continues (peek_kind ts) = false) ∧ ∀ p a, binary (peek_kind ts) = Some (p, a) → p < edge l.

Lemma edge_mono m l : m ≤ l → edge m ≤ edge l.
Proof. unfold edge, POWER_PRECEDENCE. intros. destruct (Nat.eqb_spec m 10), (Nat.eqb_spec l 10); lia. Qed.
Lemma follows_mono m l ts : m ≤ l → follows m ts → follows l ts.
Proof.
  intros Hl [H1 H2]. split; [intros; apply H1; lia|]. intros p a Hp. apply H2 in Hp. pose proof (edge_mono _ _ Hl). lia.
Qed.
Lemma follows_postfix l ts : POSTFIX ≤ l → follows l ts.
Proof.
  unfold POSTFIX. intros Hl. split; [unfold POSTFIX; lia|]. intros p a Hp. pose proof (edge_mono _ _ Hl) as He.
  apply binary_cases in Hp. change (edge 12) with 13 in He. unfold POWER_PRECEDENCE in Hp. lia.
Qed.
Lemma follows_stops l m ts : l < POSTFIX → edge l ≤ m → follows l ts → stops m ts.
Proof. intros Hl Hm [H1 H2]. split; [by apply H1|]. intros p a Hp. apply H2 in Hp. lia. Qed.
Lemma stops_follows l ts : stops 0 ts → follows l ts.
Proof. intros [H1 H2]. split; [done|]. intros p a Hp. apply H2 in Hp. lia. Qed.
Lemma stops_closer t ts : is_symbol RightParen (t_kind t) || is_symbol RightBracket (t_kind t) || is_symbol Comma (t_kind t) = true →
  stops 0 (t :: ts).
Proof. unfold stops. cbn [peek_kind]. destruct (t_kind t) as [| | | | | |[]| |]; try done. Qed.

Lemma level_cases k : level k ≤ 8 ∨ level k = 10 ∨ level k = 11 ∨ level k = POSTFIX.
Proof.
  destruct k as [| | | | | | | | |name [|x l]| |op ? ?| | | | |? ? [|]]; cbn [level]; unfold POSTFIX, POWER_PRECEDENCE; try lia.
  - destruct (one_of NUMERIC name); lia.
  - unfold precedence. repeat case_match; cbn; lia.
Qed.

(** *** Operators *)

Lemma operator_kind_in operator p a : binary (operator_kind operator) = Some (p, a) →
  In (operator_kind operator) operator_kinds ∧ kind_text (operator_kind operator) = operator.
Proof.
  unfold operator_kind. destruct (List.find _ _) as [k|] eqn:Hf; [|done]. intros _. cbn [default]. unfold id.
  apply find_some in Hf as [Hi Hk%String.eqb_eq]. done.
Qed.

Lemma operator_kind_tests k : In k operator_kinds → continues k = false.
Proof. intros H. repeat destruct H as [<-|H]; [reflexivity..|done]. Qed.

(** ** Reading back *)

Section Reads.
Variable final : Token.
#[local] Abbreviation expression := (expression final).
#[local] Abbreviation operators := (operators final).
#[local] Abbreviation prefix := (prefix final).

Lemma operators_stop fuel m e ts : 1 ≤ fuel → stops m ts → operators fuel m e ts = Ok (e, ts).
Proof.
  intros Hf [Hc Hb]. destruct fuel as [|fuel]; [lia|]. destruct ts as [|t r]; [done|].
  cbn [ExprParser.operators at_end]. unfold symbol, keyword. cbn [peek_kind] in *.
  assert (is_symbol Increment (t_kind t) || is_symbol Decrement (t_kind t) = false
    ∧ is_symbol LeftParen (t_kind t) = false ∧ is_symbol Dot (t_kind t) = false
    ∧ is_symbol LeftBracket (t_kind t) = false ∧ is_keyword "AS" (t_kind t) = false) as (-> & -> & -> & -> & ->).
  { destruct (t_kind t) as [| | | | | |[]| |]; done. }
  destruct (binary (t_kind t)) as [[p a]|] eqn:Hp; [|done]. pose proof (Hb _ _ eq_refl) as Hlt.
  by apply Nat.ltb_lt in Hlt as ->.
Qed.

(** The parser takes what is written and goes on with the operators after it. *)
Definition goes_on (m : nat) (fuel : nat) (ts : list Token) (e : Expression) (rest : list Token) : Prop :=
  ∃ ast fuel', erase ast = e ∧ 4 * length rest + 1 ≤ fuel' ∧ expression fuel m ts = operators fuel' m ast rest.

Definition reads_kind (k : ExpressionKind) : Prop := ∀ m fuel tp tr,
  map t_kind tp = show_kind k → m ≤ level k ∨ POSTFIX ≤ level k → follows (level k) tr →
  4 * length (tp ++ tr) + 2 ≤ fuel → goes_on m fuel (tp ++ tr) (mkExpression (erase_kind k) nowhere) tr.

Definition reads (e : Expression) : Prop := ∀ l m fuel tp tr,
  map t_kind tp = show l e → m ≤ l ∨ POSTFIX ≤ l → follows l tr →
  4 * length (tp ++ tr) + 2 ≤ fuel → goes_on m fuel (tp ++ tr) (erase e) tr.

(** A form that [prefix] takes whole. *)
Definition reads_prefix (k : ExpressionKind) : Prop := ∀ fuel tp tr,
  map t_kind tp = show_kind k → follows (level k) tr → 4 * length (tp ++ tr) + 1 ≤ fuel →
  ∃ ast, erase ast = mkExpression (erase_kind k) nowhere ∧ prefix fuel (tp ++ tr) = Ok (ast, tr).

Lemma prefix_reads k : reads_prefix k → reads_kind k.
Proof.
  intros H m fuel tp tr Hk _ Hf Hfuel. destruct fuel as [|fuel]; [lia|].
  destruct (H fuel tp tr Hk Hf) as (ast & He & Hp); [lia|].
  exists ast, fuel. split; [done|]. rewrite length_app in Hfuel. split; [lia|]. cbn [ExprParser.expression]. by rewrite Hp.
Qed.

(** An expression that ends where the operators of the minimum stop. *)
Lemma reads_whole e l m fuel tp tr : reads e →
  map t_kind tp = show l e → m ≤ l ∨ POSTFIX ≤ l → follows l tr → stops m tr → 4 * length (tp ++ tr) + 2 ≤ fuel →
  ∃ ast, erase ast = erase e ∧ expression fuel m (tp ++ tr) = Ok (ast, tr).
Proof.
  intros H Hk Hm Hf Hs Hfuel. destruct (H l m fuel tp tr Hk Hm Hf Hfuel) as (ast & fuel' & He & Hl & ->).
  exists ast. split; [done|]. apply operators_stop; [lia|done].
Qed.

(** An expression in brackets. *)
Lemma reads_inside e fuel tp t tr : reads e → map t_kind tp = show 0 e → stops 0 (t :: tr) →
  4 * length (tp ++ t :: tr) + 2 ≤ fuel → ∃ ast, erase ast = erase e ∧ expression fuel 0 (tp ++ t :: tr) = Ok (ast, t :: tr).
Proof. intros H Hk Hs Hfuel. apply (reads_whole e 0 0 fuel tp (t :: tr) H Hk); [lia|by apply stops_follows|done|done]. Qed.

Lemma expect_symbol_ok s t tr : t_kind t = TkSymbol s → expect_symbol final s (t :: tr) = Ok (t_span t, tr).
Proof. unfold expect_symbol, symbol. cbn. intros ->. cbn. by rewrite bool_decide_true. Qed.

Lemma show_between m k span : m > level k → show m (mkExpression k span) = between LeftParen RightParen (show_kind k).
Proof. intros H. cbn [show]. apply Nat.ltb_lt in H. by rewrite H. Qed.

(** Parentheses. *)
Lemma kind_reads k span : reads_kind k → reads (mkExpression k span).
Proof.
  intros H l m fuel tp tr Hk Hm Hf Hfuel. cbn [show] in Hk. destruct (Nat.ltb_spec (level k) l) as [Hl|Hl].
  - apply kinds_between in Hk as (s & body & s' & -> & Hk). rewrite <- app_comm_cons, <- app_assoc in *. cbn [app] in *.
    cbn [length] in Hfuel. rewrite length_app in Hfuel. cbn [length] in Hfuel.
    destruct fuel as [|[|fuel]]; [lia..|]. destruct (H 0 fuel body (mkToken (TkSymbol RightParen) s' :: tr)) as (ast & fuel' & He & Hl' & Hx);
      [done|lia|apply stops_follows, stops_closer; reflexivity|rewrite length_app; cbn [length]; lia|].
    exists ast, (S fuel). split; [exact He|]. split; [lia|]. cbn [ExprParser.expression ExprParser.prefix]. tests. cbn [orb].
    cbn [tail]. rewrite Hx, operators_stop; [|lia|by apply stops_closer]. cbn [mbind res_bind].
    rewrite expect_symbol_ok by done. done.
  - destruct (H m fuel tp tr Hk) as (ast & fuel' & He & Hl' & Hx); [destruct Hm; [left|right]; lia|by eapply follows_mono|done|].
    exists ast, fuel'. split; [exact He|]. done.
Qed.

(** *** One token *)

Lemma atom_reads k kind : show_kind k = [kind] → is_atom kind = true →
  erase_kind (expression_atom kind) = erase_kind k → reads_prefix k.
Proof.
  intros Hk Ha He fuel tp tr Htp _ Hfuel. rewrite Hk in Htp. apply kinds_one in Htp as [s ->]. cbn [app length] in *.
  destruct fuel as [|fuel]; [lia|]. exists (mkExpression (expression_atom kind) s). cbn [erase]. split.
  - by rewrite He.
  - cbn [ExprParser.prefix]. unfold symbol, keyword. cbn [peek_kind t_kind].
    assert (is_symbol Increment kind || is_symbol Decrement kind = false ∧ is_keyword "ASYNC" kind = false
      ∧ is_keyword "AWAIT" kind = false ∧ is_keyword "INPUT" kind = false ∧ is_keyword "LEN" kind = false
      ∧ is_keyword "SIZEOF" kind = false ∧ is_keyword "HOST" kind = false ∧ is_keyword "NEW" kind = false
      ∧ is_symbol LeftBracket kind = false ∧ is_keyword "NOT" kind || is_symbol Minus kind = false
      ∧ is_symbol LeftParen kind = false) as (-> & -> & -> & -> & -> & -> & -> & -> & -> & -> & ->); [|by rewrite Ha].
    destruct kind as [w| | | | | | | |]; try done. cbn [is_atom is_keyword_of is_symbol is_keyword orb] in *.
    apply one_of_In in Ha. repeat destruct Ha as [<-|Ha]; [by repeat split..|done].
Qed.

Lemma literal_reads l : showable_kind (ELiteral l) = true → reads_prefix (ELiteral l).
Proof.
  intros Hs. destruct l as [| | |word| |[]| | |].
  all: try (by eapply atom_reads).
  change (one_of ATOM_TYPES word = true) in Hs. apply one_of_In in Hs.
  repeat destruct Hs as [<-|Hs]; [by eapply atom_reads..|done].
Qed.

Lemma name_reads name : reads_prefix (EName name).
Proof.
  eapply atom_reads; [reflexivity|..]; unfold name_kind; destruct (String.eqb_spec name "SELF") as [->|]; done.
Qed.

(** *** Forms of fixed tokens *)

Lemma input_reads : reads_prefix (EInput None).
Proof.
  intros fuel tp tr Hk _ Hfuel. cbn [show_kind] in Hk.
  apply kinds_cons in Hk as (s1 & r1 & -> & Hk). apply kinds_cons in Hk as (s2 & r2 & -> & Hk).
  apply kinds_one in Hk as [s3 ->]. cbn [app length] in *. destruct fuel as [|fuel]; [lia|].
  eexists. split; [|cbn [ExprParser.prefix]; tests; cbn [orb tail]; rewrite !expect_symbol_ok by done; cbn [mbind res_bind];
    rewrite !expect_symbol_ok by done; reflexivity]. done.
Qed.

Lemma host_reads name : starts_capital name = true → reads_prefix (EHostCapability name).
Proof.
  intros Hn fuel tp tr Hk _ Hfuel. cbn [show_kind] in Hk.
  apply kinds_cons in Hk as (s1 & r1 & -> & Hk). apply kinds_cons in Hk as (s2 & r2 & -> & Hk).
  apply kinds_one in Hk as [s3 ->]. cbn [app length] in *. destruct fuel as [|fuel]; [lia|].
  eexists. split; [|cbn [ExprParser.prefix]; tests; cbn [orb tail]; unfold host_capability; rewrite expect_symbol_ok by done;
    cbn [mbind res_bind take_token peek tail t_kind]; rewrite Hn; reflexivity]. done.
Qed.

(** *** Forms with sub-expressions *)

Lemma operand_reads e fuel tp tr : reads e → map t_kind tp = between LeftParen RightParen (show 0 e) →
  4 * length (tp ++ tr) + 2 ≤ fuel →
  ∃ ast span, erase ast = erase e ∧ operand_form final fuel (tp ++ tr) = Ok (ast, span, tr).
Proof.
  intros H Hk Hfuel. apply kinds_between in Hk as (s & body & s' & -> & Hk). rewrite <- app_comm_cons, <- app_assoc in *.
  cbn [app length] in *. destruct fuel as [|fuel]; [lia|].
  destruct (reads_inside e fuel body (mkToken (TkSymbol RightParen) s') tr H Hk) as (ast & He & Hx);
    [by apply stops_closer|lia|].
  exists ast, s'. split; [done|]. cbn [operand_form]. rewrite expect_symbol_ok by done. cbn [mbind res_bind]. rewrite Hx.
  cbn [mbind res_bind]. by rewrite expect_symbol_ok.
Qed.

Lemma length_reads e : reads e → reads_prefix (ELength e).
Proof.
  intros H fuel tp tr Hk _ Hfuel. cbn [show_kind] in Hk. apply kinds_cons in Hk as (s & r & -> & Hk).
  cbn [app length] in *. destruct fuel as [|fuel]; [lia|].
  destruct (operand_reads e fuel r tr H Hk) as (ast & span & He & Hx); [lia|].
  eexists. split; [|cbn [ExprParser.prefix]; tests; cbn [orb tail]; rewrite Hx; reflexivity]. cbn. by rewrite He.
Qed.

Lemma sizeof_reads e : reads e → reads_prefix (ESizeOf e).
Proof.
  intros H fuel tp tr Hk _ Hfuel. cbn [show_kind] in Hk. apply kinds_cons in Hk as (s & r & -> & Hk).
  cbn [app length] in *. destruct fuel as [|fuel]; [lia|].
  destruct (operand_reads e fuel r tr H Hk) as (ast & span & He & Hx); [lia|].
  eexists. split; [|cbn [ExprParser.prefix]; tests; cbn [orb tail]; rewrite Hx; reflexivity]. cbn. by rewrite He.
Qed.

(** **** Lists of expressions *)

Definition closer (s : Symbol) : bool := match s with RightParen | RightBracket => true | _ => false end.

Lemma closer_stops s span tr : closer s = true → stops 0 (mkToken (TkSymbol s) span :: tr).
Proof. by destruct s. Qed.

(** No expression starts with a closing bracket. *)
Lemma closer_refused fuel s ts r : closer s = true → symbol s ts = true → expression fuel 0 ts ≠ Ok r.
Proof.
  unfold symbol. intros Hc Hs. destruct ts as [|[k span] ts]; [done|]. cbn in Hs. destruct k as [| | | | | |s'| |]; try done.
  apply bool_decide_eq_true in Hs as ->. destruct fuel as [|[|fuel]]; [done..|]. cbn [ExprParser.expression ExprParser.prefix].
  by destruct s; tests.
Qed.

Lemma more_reads close : closer close = true → ∀ l, l ≠ [] → Forall reads l → ∀ fuel tp s tr,
  map t_kind tp = commas (map (show 0) l) → 4 * length (tp ++ mkToken (TkSymbol close) s :: tr) + 3 ≤ fuel →
  ∃ asts, map erase asts = map erase l
    ∧ more_arguments final fuel close (tp ++ mkToken (TkSymbol close) s :: tr) = Ok (asts, s, tr).
Proof.
  intros Hc. induction l as [|e l IH]; [done|]. intros _ Hl fuel tp s tr Hk Hfuel. inversion_clear Hl as [|? ? He Hl'].
  destruct fuel as [|fuel]; [lia|]. cbn [more_arguments]. destruct l as [|e' l].
  - destruct (reads_inside e fuel tp (mkToken (TkSymbol close) s) tr He Hk) as (ast & Ha & Hx); [by apply closer_stops|lia|].
    rewrite Hx. cbn [mbind res_bind]. exists [ast]. cbn [map]. split; [by rewrite Ha|].
    assert (symbol Comma (mkToken (TkSymbol close) s :: tr) = false) as -> by by destruct close.
    by rewrite expect_symbol_ok.
  - cbn [map commas] in Hk. apply map_eq_app in Hk as (tp1 & tp2 & -> & Hk1 & Hk2).
    apply kinds_cons in Hk2 as (s2 & r & -> & Hk2). rewrite <- app_assoc in *. cbn [app] in *.
    rewrite !length_app in Hfuel. cbn [length] in Hfuel.
    destruct (reads_inside e fuel tp1 (mkToken (TkSymbol Comma) s2) (r ++ mkToken (TkSymbol close) s :: tr) He Hk1)
      as (ast & Ha & Hx); [by apply stops_closer|rewrite length_app; cbn [length]; lia|].
    rewrite Hx. cbn [mbind res_bind]. unfold symbol. cbn [peek_kind t_kind tail]. change (is_symbol Comma (TkSymbol Comma)) with true.
    cbn match. destruct (IH ltac:(done) Hl' fuel r s tr Hk2) as (asts & Has & Hy); [sizes|].
    rewrite Hy. exists (ast :: asts). split; [|done]. cbn [map] in Has |- *. by rewrite Ha, Has.
Qed.

Lemma arguments_read close l : closer close = true → Forall reads l → ∀ fuel tp s tr,
  map t_kind tp = commas (map (show 0) l) → 4 * length (tp ++ mkToken (TkSymbol close) s :: tr) + 4 ≤ fuel →
  ∃ asts, map erase asts = map erase l
    ∧ arguments_ final fuel close (tp ++ mkToken (TkSymbol close) s :: tr) = Ok (asts, s, tr).
Proof.
  intros Hc Hl fuel tp s tr Hk Hfuel. destruct fuel as [|fuel]; [lia|]. cbn [arguments_]. destruct l as [|e l].
  - cbn in Hk. apply map_eq_nil in Hk as ->. exists []. split; [done|]. cbn [app]. rewrite expect_symbol_ok by done.
    unfold symbol. cbn. by rewrite bool_decide_true.
  - destruct (more_reads close Hc (e :: l) ltac:(done) Hl fuel tp s tr Hk) as (asts & Has & Hx); [lia|].
    exists asts. split; [done|]. destruct (symbol close _) eqn:Hs; [|done]. exfalso.
    destruct fuel as [|fuel]; [lia|]. cbn [more_arguments] in Hx.
    destruct (expression fuel 0 (tp ++ mkToken (TkSymbol close) s :: tr)) eqn:Hy; try done.
    by apply (closer_refused fuel close _ _ Hc Hs) in Hy.
Qed.

Lemma vector_reads l : Forall reads l → reads_prefix (EVector l).
Proof.
  intros H fuel tp tr Hk _ Hfuel. cbn [show_kind] in Hk. apply kinds_between in Hk as (s & body & s' & -> & Hk).
  rewrite <- app_comm_cons, <- app_assoc in *. cbn [app] in *. destruct fuel as [|fuel]; [sizes|].
  destruct (arguments_read RightBracket l eq_refl H fuel body s' tr Hk) as (asts & Ha & Hx); [sizes|].
  eexists. split; [|cbn [ExprParser.prefix]; tests; cbn [orb tail]; rewrite Hx; reflexivity]. cbn. by rewrite Ha.
Qed.

Lemma new_reads name l : showable_kind (ENew name l) = true → Forall reads l → reads_prefix (ENew name l).
Proof.
  intros Hs H fuel tp tr Hk Hf Hfuel. cbn [show_kind showable_kind] in Hk, Hs. destruct (one_of NUMERIC name) eqn:Hn.
  - apply kinds_cons in Hk as (s & r & -> & Hk). apply kinds_cons in Hk as (s1 & r1 & -> & Hk). cbn [app] in *.
    destruct fuel as [|fuel]; [sizes|]. cbn [ExprParser.prefix]. tests. cbn [orb tail].
    assert (new_type final (mkToken (TkKeyword name) s1 :: r1 ++ tr)
      = Ok (name, mkToken (TkKeyword name) s1, true, (r1 ++ tr)%list)) as ->.
    { unfold new_type. cbn [take_token peek tail text t_kind kind_text]. rewrite Hn.
      destruct (String.eqb_spec name "") as [->|]; [done|]. cbn [negb andb]. done. }
    cbn [mbind res_bind]. destruct l as [|e l].
    + apply map_eq_nil in Hk as ->. cbn [app] in *. destruct Hf as [Hc _]. cbn [level] in Hc. rewrite Hn in Hc.
      specialize (Hc ltac:(unfold POSTFIX; lia)). destruct tr as [|[k sp] tr].
      * eexists. split; [|reflexivity]. done.
      * cbn [peek_kind t_kind] in *. eexists. split; [|destruct k as [| | | | | |[]| |]; try done; reflexivity]. done.
    + apply kinds_between in Hk as (s2 & body & s' & -> & Hk). rewrite <- app_comm_cons, <- app_assoc in *. cbn [app] in *.
      inversion_clear H as [|? ? He Hl].
      destruct (reads_inside e fuel body (mkToken (TkSymbol RightBracket) s') tr He Hk) as (ast & Ha & Hx);
        [by apply stops_closer|sizes|].
      tests. cbn [negb tail]. rewrite Hx. cbn [mbind res_bind]. rewrite expect_symbol_ok by done.
      destruct l; [|by cbn in Hs]. eexists. split; [|reflexivity]. cbn. by rewrite Ha.
  - apply kinds_cons in Hk as (s & r & -> & Hk). apply kinds_cons in Hk as (s1 & r1 & -> & Hk).
    apply kinds_between in Hk as (s2 & body & s' & -> & Hk). cbn [app] in *. rewrite <- app_assoc in *. cbn [app] in *.
    destruct fuel as [|fuel]; [sizes|]. cbn [ExprParser.prefix]. tests. cbn [orb tail].
    apply andb_prop in Hs as [Hne _].
    assert (new_type final (mkToken (TkIdentifier name) s1 :: mkToken (TkSymbol LeftParen) s2 :: body
                              ++ mkToken (TkSymbol RightParen) s' :: tr)
      = Ok (name, mkToken (TkIdentifier name) s1, false,
            mkToken (TkSymbol LeftParen) s2 :: body ++ mkToken (TkSymbol RightParen) s' :: tr)%list) as ->.
    { unfold new_type. cbn [take_token peek tail text t_kind kind_text]. rewrite Hn.
      destruct (String.eqb name ""); [done|]. cbn [negb andb is_identifier dotted t_kind]. tests. done. }
    cbn [mbind res_bind]. tests. cbn [tail].
    destruct (arguments_read RightParen l eq_refl H fuel body s' tr Hk) as (asts & Ha & Hx); [sizes|].
    rewrite Hx. eexists. split; [|reflexivity]. cbn. by rewrite Ha.
Qed.

Lemma unary_reads operator e : one_of ["NOT"; "Minus"] operator = true → reads e → reads_prefix (EUnary operator e).
Proof.
  intros Ho H fuel tp tr Hk Hf Hfuel. cbn [show_kind] in Hk. apply kinds_cons in Hk as (s & r & -> & Hk).
  destruct fuel as [|fuel]; [sizes|]. cbn [app] in *.
  destruct (reads_whole e POWER_PRECEDENCE POWER_PRECEDENCE fuel r tr H Hk) as (ast & Ha & Hx);
    [by left|done|by apply (follows_stops POWER_PRECEDENCE); [unfold POSTFIX, POWER_PRECEDENCE; lia|..]|sizes|].
  apply one_of_In in Ho. destruct Ho as [<-|[<-|[]]].
  all: eexists; split; [|cbn [ExprParser.prefix unary_kind String.eqb Ascii.eqb Bool.eqb]; tests;
    cbn [orb take_token tail]; rewrite Hx; reflexivity].
  all: cbn; by rewrite Ha.
Qed.

(** *** Targets *)

Lemma erase_is_target a e : erase a = erase e → is_target (e_kind a) = is_target (e_kind e).
Proof.
  destruct a as [ka ?], e as [ke ?]. cbn. intros [= H]. by destruct ka, ke.
Qed.

Lemma increment_ok a e delta k span prefix : erase a = erase e → is_target (e_kind e) = true →
  k = TkSymbol (if (delta =? 1)%Z then Increment else Decrement) → ((delta =? 1)%Z || (delta =? -1)%Z) = true →
  ∃ ast, increment a (mkToken k span) prefix = Ok ast ∧ erase ast = mkExpression (EIncrement (erase e) delta prefix) nowhere.
Proof.
  intros Ha Ht -> Hd. rewrite <- (erase_is_target _ _ Ha) in Ht. unfold increment.
  assert (delta = if is_symbol Increment (TkSymbol (if (delta =? 1)%Z then Increment else Decrement)) then 1%Z else (-1)%Z) as Hdelta.
  { destruct (Z.eqb_spec delta 1); [done|]. cbn. destruct (Z.eqb_spec delta (-1)); done. }
  cbn [t_kind]. destruct (e_kind a); try done; cbn match; (eexists; split; [reflexivity|]); cbn [erase erase_kind];
    by rewrite Ha, <- Hdelta.
Qed.

Lemma increment_reads e delta : showable_kind (EIncrement e delta true) = true → reads e → reads_prefix (EIncrement e delta true).
Proof.
  intros Hs H fuel tp tr Hk Hf Hfuel. cbn [show_kind showable_kind] in Hk, Hs. apply kinds_cons in Hk as (s & r & -> & Hk).
  apply andb_prop in Hs as [[_ Ht]%andb_prop Hd]. destruct fuel as [|fuel]; [sizes|]. cbn [app] in *.
  destruct (reads_whole e POSTFIX U8_MAX fuel r tr H Hk) as (ast & Ha & Hx);
    [by right|by apply follows_postfix|by apply (follows_stops 11); [unfold POSTFIX; lia|cbn; unfold U8_MAX; lia|]|sizes|].
  destruct (increment_ok ast e delta _ s true Ha Ht eq_refl Hd) as (ast' & Hi & He).
  exists ast'. split; [exact He|]. cbn [ExprParser.prefix].
  destruct (delta =? 1)%Z; tests; cbn [orb take_token peek tail]; rewrite Hx; cbn [mbind res_bind]; by rewrite Hi.
Qed.

(** *** After an expression *)

(** What is written after an expression: the parser of operators takes it. *)
Definition reads_postfix (e : Expression) (suffix : list TokenKind) (k : ExpressionKind) : Prop :=
  ∀ m fuel ast tp tr, erase ast = erase e → map t_kind tp = suffix → 4 * length (tp ++ tr) + 1 ≤ fuel →
  ∃ ast' fuel', erase ast' = mkExpression (erase_kind k) nowhere ∧ 4 * length tr + 1 ≤ fuel'
    ∧ operators fuel m ast (tp ++ tr) = operators fuel' m ast' tr.

Lemma postfix_reads e suffix k : show_kind k = (show POSTFIX e ++ suffix)%list → reads e → reads_postfix e suffix k →
  reads_kind k.
Proof.
  intros Hshow H Hp m fuel tp tr Hk _ _ Hfuel. rewrite Hshow in Hk. apply map_eq_app in Hk as (t1 & t2 & -> & Hk1 & Hk2).
  rewrite <- app_assoc in *. destruct (H POSTFIX m fuel t1 (t2 ++ tr)%list Hk1) as (ast & fuel' & Ha & Hl & Hx);
    [by right|by apply follows_postfix|done|].
  destruct (Hp m fuel' ast t2 tr Ha Hk2 Hl) as (ast' & f & He & Hl' & Hy). exists ast', f.
  split; [done|]. split; [done|]. by rewrite Hx.
Qed.

Lemma call_reads f l : reads f → Forall reads l → reads_kind (ECall f l).
Proof.
  intros H Hl. eapply postfix_reads; [reflexivity|exact H|]. intros m fuel ast tp tr Ha Hk Hfuel.
  apply kinds_between in Hk as (s & body & s' & -> & Hk). rewrite <- app_comm_cons, <- app_assoc in *. cbn [app] in *.
  destruct fuel as [|fuel]; [sizes|].
  destruct (arguments_read RightParen l eq_refl Hl fuel body s' tr Hk) as (asts & Has & Hx); [sizes|].
  eexists _, fuel. split; [|split; [|cbn [ExprParser.operators at_end]; tests; cbn [orb tail]; rewrite Hx; reflexivity]].
  - cbn. by rewrite Ha, Has.
  - sizes.
Qed.

Lemma index_reads e i : reads e → reads i → reads_kind (EIndex e i).
Proof.
  intros H Hi. eapply postfix_reads; [reflexivity|exact H|]. intros m fuel ast tp tr Ha Hk Hfuel.
  apply kinds_between in Hk as (s & body & s' & -> & Hk). rewrite <- app_comm_cons, <- app_assoc in *. cbn [app] in *.
  destruct fuel as [|fuel]; [sizes|].
  destruct (reads_inside i fuel body (mkToken (TkSymbol RightBracket) s') tr Hi Hk) as (ai & Hai & Hx);
    [by apply stops_closer|sizes|].
  eexists _, fuel. split; [|split; [|cbn [ExprParser.operators at_end]; tests; cbn [orb tail]; rewrite Hx; cbn [mbind res_bind];
    rewrite expect_symbol_ok by done; reflexivity]].
  - cbn. by rewrite Ha, Hai.
  - sizes.
Qed.

Lemma member_reads e name : reads e → reads_kind (EMember e name).
Proof.
  intros H. eapply postfix_reads; [reflexivity|exact H|]. intros m fuel ast tp tr Ha Hk Hfuel.
  apply kinds_cons in Hk as (s & r & -> & Hk). apply kinds_one in Hk as [s' ->]. cbn [app] in *. destruct fuel as [|fuel]; [sizes|].
  eexists _, fuel. split; [|split; [|cbn [ExprParser.operators at_end]; tests; cbn [orb tail]; reflexivity]].
  - cbn. by rewrite Ha.
  - sizes.
Qed.

Lemma cast_reads e t : plain_type NAMED t = true → reads e → reads_kind (ECast e t).
Proof.
  intros Ht H. eapply postfix_reads; [reflexivity|exact H|]. intros m fuel ast tp tr Ha Hk Hfuel.
  apply kinds_cons in Hk as (s & r & -> & Hk). apply kinds_one in Hk as [s' ->]. cbn [app] in *. destruct fuel as [|fuel]; [sizes|].
  unfold plain_type in Ht. destruct t as [[|[name [|] [|] ?] [|]] ?]; try done. cbn [type_name tr_alternatives] in *.
  eexists _, fuel. split; [|split; [|cbn [ExprParser.operators at_end]; tests; cbn [orb]; unfold cast;
    cbn [tail peek_kind is_cast_type is_keyword_of t_kind]; unfold is_cast_type, is_keyword_of; change (["BOOLEAN"; "STRING"] ++ NUMERIC)%list with NAMED; rewrite Ht; reflexivity]].
  - cbn. by rewrite Ha.
  - sizes.
Qed.

Lemma step_reads e delta : showable_kind (EIncrement e delta false) = true → reads e → reads_kind (EIncrement e delta false).
Proof.
  intros Hs H. cbn [showable_kind] in Hs. apply andb_prop in Hs as [[_ Ht]%andb_prop Hd].
  eapply postfix_reads; [reflexivity|exact H|]. intros m fuel ast tp tr Ha Hk Hfuel.
  apply kinds_one in Hk as [s ->]. cbn [app] in *. destruct fuel as [|fuel]; [sizes|].
  destruct (increment_ok ast e delta _ s false Ha Ht eq_refl Hd) as (ast' & Hi & He). exists ast', fuel.
  split; [exact He|]. split; [sizes|]. cbn [ExprParser.operators at_end].
  destruct (delta =? 1)%Z; tests; cbn [orb take_token peek tail]; by rewrite Hi.
Qed.

(** *** Binary operators *)

(** One round of the loop, at an operator. *)
Lemma operators_binary fuel m left_side k s ts p a right_side tr :
  continues k = false → binary k = Some (p, a) → m ≤ p →
  (if String.eqb (kind_text k) "IS" && type_test_start (peek_kind ts) then type_test final ts
   else expression fuel (if a : bool then p else S p) ts) = Ok (right_side, tr) →
  ∃ span, operators (S fuel) m left_side (mkToken k s :: ts)
    = operators fuel m (mkExpression (EBinary (kind_text k) left_side right_side) span) tr.
Proof.
  intros Hc Hb Hm Hr. eexists. cbn [ExprParser.operators at_end]. unfold symbol, keyword. cbn [peek_kind t_kind].
  assert (is_symbol Increment k || is_symbol Decrement k = false
    ∧ is_symbol LeftParen k = false ∧ is_symbol Dot k = false
    ∧ is_symbol LeftBracket k = false ∧ is_keyword "AS" k = false) as (-> & -> & -> & -> & ->).
  { destruct k as [| | | | | |[]| |]; done. }
  rewrite Hb. assert (p <? m = false) as -> by (apply Nat.ltb_ge; lia). cbn [take_token peek tail text t_kind].
  unfold text. cbn [t_kind]. rewrite Hr. reflexivity.
Qed.

Lemma type_test_reads t sp tp tr : testable_type t = true → map t_kind tp = show_kind (ETypeTest t) →
  continues (peek_kind tr) = false →
  type_test_start (peek_kind (tp ++ tr)) = true
  ∧ ∃ ast, erase ast = erase (mkExpression (ETypeTest t) sp) ∧ type_test final (tp ++ tr) = Ok (ast, tr).
Proof.
  intros Ht Hk Hc. cbn [show_kind] in Hk. apply kinds_one in Hk as [s ->].
  unfold testable_type in Ht. destruct t as [[|[name [|] [|] asp] [|]] tsp]; try done. cbn [type_name tr_alternatives app peek_kind t_kind].
  assert (type_test_start (tested_kind name) = true ∧ is_keyword "POINTER" (tested_kind name) = false
    ∧ kind_text (tested_kind name) = name) as (Hs & Hp & Hn).
  { unfold tested_kind. destruct (one_of tested_words name) eqn:Hw; [|done].
    apply one_of_In in Hw. repeat destruct Hw as [<-|Hw]; [by repeat split..|done]. }
  split; [done|]. unfold type_test. cbn [take_token peek tail t_kind]. rewrite Hp.
  assert (dotted final tr = Ok ([], tr) ∧ literal_dimensions tr = ([], [], tr)) as [Hd Hl].
  { destruct tr as [|[k s'] tr]; [done|]. cbn [peek_kind t_kind dotted literal_dimensions] in *.
    destruct k as [| | | | | |[]| |]; try done; (split; [done|]); by destruct tr as [|? [|? ?]]. }
  rewrite Hd. assert ((if is_identifier (tested_kind name) then Ok ([], tr) else Ok ([], tr) : presult (list Token * list Token)) = Ok ([], tr)) as ->
    by by destruct (is_identifier _).
  cbn [mbind res_bind]. rewrite Hl. eexists. split; [|reflexivity]. cbn. unfold text. cbn [t_kind]. by rewrite Hn.
Qed.

Lemma precedence_eq operator p a : binary (operator_kind operator) = Some (p, a) → precedence operator = (p, a).
Proof.
  intros Hb. destruct (operator_kind_in _ _ _ Hb) as [Hi Ht]. revert Hb. rewrite <- Ht. clear Ht.
  repeat destruct Hi as [<-|Hi]; [by intros [= <- <-]..|done].
Qed.

(** A special value does not start a type. *)
Lemma special_starts b tp tr : special_value b = true → map t_kind tp = show 5 b → type_test_start (peek_kind (tp ++ tr)) = false.
Proof.
  unfold special_value. destruct b as [k sp]. cbn [e_kind show]. destruct k as [l| | | | | | | | | |op [[l| | | | | | | | | | | | | | | |] ?]| | | | | |];
    try done; cbn [level show_kind]; change (POSTFIX <? 5) with false; change (POWER_PRECEDENCE <? 5) with false.
  - intros Hl (s & r & -> & _)%kinds_cons. by destruct l.
  - intros _ (s & r & -> & _)%kinds_cons. cbn [app peek_kind t_kind]. unfold unary_kind. destruct (String.eqb_spec op "NOT") as [->|]; done.
Qed.

(** The right side of an operator, read at the precedence the parser uses. *)
Lemma right_reads operator p a b fuel tp tr : binary (operator_kind operator) = Some (p, a) →
  (if is_type_test b then operator = "IS" ∧ ∃ t, testable_type t = true ∧ e_kind b = ETypeTest t
   else (operator = "IS" → special_value b = true) ∧ reads b) →
  map t_kind tp = show (right_level operator b) b → follows p tr → 4 * length (tp ++ tr) + 2 ≤ fuel →
  ∃ ast, erase ast = erase b
    ∧ (if String.eqb operator "IS" && type_test_start (peek_kind (tp ++ tr)) then type_test final (tp ++ tr)
       else expression fuel (if a : bool then p else S p) (tp ++ tr)) = Ok (ast, tr).
Proof.
  intros Hb Hr Hk Hf Hfuel. pose proof (binary_cases _ _ _ Hb) as Hp. unfold POWER_PRECEDENCE in Hp.
  assert (p < POSTFIX) as Hlt by (unfold POSTFIX; lia).
  unfold right_level in Hk. rewrite (precedence_eq _ _ _ Hb) in Hk. destruct (String.eqb_spec operator "IS") as [->|Hne].
  - cbn in Hb. injection Hb as <- <-. destruct (is_type_test b) eqn:Ht.
    + destruct Hr as (_ & t & Hty & He). destruct b as [k sp]. cbn [e_kind] in He. subst k. cbn [show level] in Hk.
      destruct (type_test_reads t sp tp tr Hty Hk) as [-> (ast & Ha & Hx)]; [by apply Hf|]. by exists ast.
    + destruct Hr as [Hv Hr]. rewrite (special_starts b tp tr (Hv eq_refl) Hk). cbn [andb].
      destruct (reads_whole b 5 5 fuel tp tr Hr Hk) as (ast & Ha & Hx);
        [by left|by apply (follows_mono 4); [lia|]|by apply (follows_stops 4)|done|]. by exists ast.
  - cbn [andb]. assert (is_type_test b = false) as Ht by (destruct (is_type_test b); [by destruct Hr|done]). rewrite Ht in Hr. destruct Hr as [_ Hr].
    apply (reads_whole b (if a then p else S p)); [done|done|by left| |apply (follows_stops p); [done| |done]|done].
    + apply (follows_mono p); [destruct a; lia|done].
    + unfold edge, POWER_PRECEDENCE. destruct Hp as [[-> ->]|[H8 ->]]; [done|]. destruct (Nat.eqb_spec p 10); lia.
Qed.

Lemma binary_reads operator a b : showable_kind (EBinary operator a b) = true → reads a → (showable b = true → reads b) →
  reads_kind (EBinary operator a b).
Proof.
  intros Hs Ha Hb m fuel tp tr Hk Hm Hf Hfuel. cbn [showable_kind show_kind level] in *.
  apply andb_prop in Hs as [[Hop _]%andb_prop Hr]. destruct (binary (operator_kind operator)) as [[p ra]|] eqn:Hbin; [|done].
  rewrite (precedence_eq _ _ _ Hbin) in Hm, Hf. cbn [fst] in Hm, Hf.
  pose proof (binary_cases _ _ _ Hbin) as Hp. unfold POWER_PRECEDENCE, POSTFIX in *.
  destruct (operator_kind_in _ _ _ Hbin) as [Hin Htext]. pose proof (operator_kind_tests _ Hin) as Hc.
  apply map_eq_app in Hk as (t1 & t2 & -> & Hk1 & Hk2). apply kinds_cons in Hk2 as (s & r & -> & Hk2).
  rewrite <- app_assoc in *. cbn [app] in *.
  assert (left_level operator a = S p ∨ left_level operator a = p ∧ p ≤ 8) as Hll.
  { unfold left_level. rewrite (precedence_eq _ _ _ Hbin). destruct (ra || _) eqn:Hra; [by left|right].
    destruct ra; [done|]. split; [done|]. by destruct Hp as [[_ ?]|[? _]]. }
  destruct (Ha (left_level operator a) m fuel t1 (mkToken (operator_kind operator) s :: r ++ tr) Hk1) as (asta & fuel' & Hea & Hl & Hx).
  { lia. }
  { split; cbn [peek_kind t_kind]; [done|]. rewrite Hbin. intros ? ? [= <- <-].
    unfold edge, POWER_PRECEDENCE. destruct (Nat.eqb_spec (left_level operator a) 10); lia. }
  { exact Hfuel. }
  destruct fuel' as [|fuel']; [lia|].
  destruct (right_reads operator p ra b fuel' r tr Hbin) as (astb & Heb & Hy); [|exact Hk2|exact Hf|cbn [length] in Hl; lia|].
  { destruct b as [kb sb]. unfold is_type_test. cbn [e_kind]. destruct kb;
      first [apply andb_prop in Hr as [->%String.eqb_eq Ht]; split; [done|]; by eexists
            |apply andb_prop in Hr as [Hv Hr]; split; [|by apply Hb]; by intros ->]. }
  destruct (operators_binary fuel' m asta (operator_kind operator) s (r ++ tr) p ra astb tr Hc Hbin) as [span Hz]; [lia| |].
  { rewrite Htext. exact Hy. }
  exists (mkExpression (EBinary (kind_text (operator_kind operator)) asta astb) span), fuel'.
  split; [|split; [sizes|by rewrite Hx]]. cbn [erase erase_kind]. by rewrite Htext, Hea, Heb.
Qed.

Lemma all_read e : showable e = true → reads e.
Proof.
  induction e as [k span H] using expression_children. intros Hs. apply kind_reads. cbn [showable] in Hs.
  assert (∀ l, Forall (fun e => showable e = true → reads e) l → forallb showable l = true → Forall reads l) as Hall.
  { intros l. induction 1 as [|x l Hx Hl IH]; [intros; apply Forall_nil_2|]. cbn. intros [? ?]%andb_prop.
    apply Forall_cons_2; auto. }
  destruct k as [l|name| |[p|]|name|e|e|t|l|name l|op e|op a b|f l|e name|e i|e t|e delta [|]]; cbn [children] in H;
    repeat match goal with
    | H : Forall _ (_ :: _) |- _ => apply list.Forall_cons in H as [? H]
    end; try done.
  - by apply prefix_reads, literal_reads.
  - apply prefix_reads, name_reads.
  - apply prefix_reads. by eapply atom_reads.
  - apply prefix_reads, input_reads.
  - by apply prefix_reads, host_reads.
  - apply prefix_reads, length_reads. auto.
  - apply prefix_reads, sizeof_reads. auto.
  - apply prefix_reads, vector_reads. auto.
  - apply prefix_reads, new_reads; [done|]. cbn [showable_kind] in Hs. apply Hall; [done|].
    destruct (one_of NUMERIC name); by apply andb_prop in Hs as [_ Hs].
  - cbn [showable_kind] in Hs. apply andb_prop in Hs as [Ho Hs]. apply prefix_reads, unary_reads; auto.
  - apply binary_reads; auto. cbn [showable_kind] in Hs. apply andb_prop in Hs as [[_ Hs]%andb_prop _]. auto.
  - cbn [showable_kind] in Hs. apply andb_prop in Hs as [Hf Hl]. apply call_reads; auto.
  - apply member_reads. auto.
  - cbn [showable_kind] in Hs. apply andb_prop in Hs as [He Hi]. apply index_reads; auto.
  - cbn [showable_kind] in Hs. apply andb_prop in Hs as [He Ht]. apply cast_reads; auto.
  - apply prefix_reads, increment_reads; [done|]. cbn [showable_kind] in Hs.
    apply andb_prop in Hs as [[He _]%andb_prop _]. auto.
  - apply step_reads; [done|]. cbn [showable_kind] in Hs. apply andb_prop in Hs as [[He _]%andb_prop _]. auto.
Qed.
End Reads.

(** Tokens written for an expression parse to it. *)
Theorem show_parses e tp tr : showable e = true → map t_kind tp = show 0 e →
  match peek_kind tr with TkNewline | TkEof => True | _ => False end →
  ∃ ast, parse_expression (tp ++ tr) = Ok ast ∧ erase ast = erase e.
Proof.
  intros Hs Hk Hr. unfold parse_expression. destruct (list.last (tp ++ tr)) as [final|] eqn:Hlast.
  - destruct (reads_whole final e 0 0 (expression_fuel (tp ++ tr)) tp tr) as (ast & He & Hx);
      [by apply all_read|done|lia|apply stops_follows|..].
    1,2: unfold stops; by destruct (peek_kind tr).
    { unfold expression_fuel. lia. }
    exists ast. split; [|done]. rewrite Hx. cbn [mbind res_bind]. by destruct (peek_kind tr).
  - apply list.last_None in Hlast. apply app_eq_nil in Hlast as [-> ->]. cbn [map] in Hk.
    destruct (all_read (mkToken TkEof nowhere) e Hs 0 0 2 [] [] Hk) as (ast & fuel' & _ & _ & Hx);
      [lia|by split|cbn; lia|]. exfalso. destruct fuel' as [|f]; discriminate Hx.
Qed.


(** *** Samples *)

Definition plain (k : ExpressionKind) : Expression := mkExpression k nowhere.
Definition variable (name : string) : Expression := plain (EName name).
Definition number (text : string) : Expression := plain (ELiteral (LInteger text)).
Definition int8 : TypeReference := mkTypeReference [mkTypeAtom "INT8" [] [] nowhere] nowhere.

(** [NOT (a + b * (c - 2) ** -f(x, [1, 2])\[0\] IS INT8 OR (p OR q.t AS INT8))] *)
Definition sample_expression : Expression :=
  let call := plain (ECall (variable "f") [variable "x"; plain (EVector [number "1"; number "2"])]) in
  let power := plain (EBinary "Power" (plain (EBinary "Minus" (variable "c") (number "2")))
                        (plain (EUnary "Minus" (plain (EIndex call (number "0")))))) in
  let sum := plain (EBinary "Plus" (variable "a") (plain (EBinary "Star" (variable "b") power))) in
  let cast := plain (ECast (plain (EMember (variable "q") "t")) int8) in
  plain (EUnary "NOT" (plain (EBinary "OR" (plain (EBinary "IS" sum (plain (ETypeTest int8))))
                         (plain (EBinary "OR" (variable "p") cast))))).

Definition sample_reserved : list string := ["AS"; "INT8"; "IS"; "NOT"; "OR"].

Lemma sample_text : text_of (print (show 0 sample_expression))
  = "NOT ( a + b * ( c - 2 ) ** - f ( x , [ 1 , 2 ] ) [ 0 ] IS INT8 OR ( p OR q . t AS INT8 ) ) ".
Proof. vm_compute. reflexivity. Qed.

(** [IS] is the looser of [IS] and [=]. *)
Lemma is_level :
  let test := plain (EBinary "IS" (variable "a") (plain (ETypeTest int8))) in
  let equal := plain (EBinary "Assign" (variable "a") (variable "b")) in
  text_of (print (show 0 (plain (EBinary "Assign" test (variable "b"))))) = "( a IS INT8 ) = b "
  ∧ text_of (print (show 0 (plain (EBinary "IS" equal (plain (ETypeTest int8)))))) = "a = b IS INT8 ".
Proof. split; vm_compute; reflexivity. Qed.


(** The grammar puts [IS] below [=] and allows one of it; for the parser both
    have one level, so a test may be an operand of [=] and of another [IS]. *)
Definition shape (text : string) : option (list TokenKind) :=
  match lex 1 0 sample_reserved [] text with
  | Ok ts => match parse_expression ts with Ok e => Some (show_kind (e_kind e)) | _ => None end
  | _ => None
  end.
Lemma is_chained :
  (∃ e, shape "a IS INT8 = b" = Some (show 0 e) ∧
     match e_kind e with EBinary "Assign" (mkExpression (EBinary "IS" _ _) _) _ => true | _ => false end = true)
  ∧ (∃ e, shape "a IS INT8 IS INT8" = Some (show 0 e) ∧
       match e_kind e with EBinary "IS" (mkExpression (EBinary "IS" _ _) _) _ => true | _ => false end = true).
Proof.
  split.
  - exists (plain (EBinary "Assign" (plain (EBinary "IS" (variable "a") (plain (ETypeTest int8)))) (variable "b"))).
    split; vm_compute; reflexivity.
  - exists (plain (EBinary "IS" (plain (EBinary "IS" (variable "a") (plain (ETypeTest int8)))) (plain (ETypeTest int8)))).
    split; vm_compute; reflexivity.
Qed.
