(* ===== verification/Parser.v ===== *)
(** * Parser: declarations, statements and types ([crates/bn_frontend/src/parser.rs], [parser/phase1.rs] to [phase4.rs])

    The statement parser walks an index over the tokens and reads each line as
    a slice; [Panic] is a slice or an index out of range, an [expect] or an
    [unreachable!].  The fuel counts nested calls and loop rounds.  [Parsing.v]
    shows that neither happens on what the lexer hands over. *)

From S2P Require Import Prelude Text Scalars Diag Lexer Types Literals Syntax ExprParser.

#[local] Open Scope string_scope.
#[local] Open Scope nat_scope.

(** [&l[a..b]], [&l[a..]] and [l[i]] *)
Definition slice {A} (l : list A) (a b : nat) : presult (list A) :=
  if (a <=? b) && (b <=? length l) then Ok (take (b - a) (drop a l)) else Panic "slice index out of range".
Definition slice_from {A} (l : list A) (a : nat) : presult (list A) := slice l a (length l).
Definition nth_token (l : list Token) (i : nat) : presult Token := expect "index out of bounds" (l !! i).

(** [iter().position(p)] *)
Fixpoint position_of (p : TokenKind → bool) (l : list Token) : option nat :=
  match l with
  | [] => None
  | t :: l => if p (t_kind t) then Some 0 else S <$> position_of p l
  end.

(** [split(p)] *)
Fixpoint split_on (p : TokenKind → bool) (l : list Token) : list (list Token) :=
  match l with
  | [] => [[]]
  | t :: l =>
      if p (t_kind t) then [] :: split_on p l
      else match split_on p l with [] => [[t]] | part :: parts => (t :: part) :: parts end
  end.

(** [line.get(i)] is of the kind *)
Definition get_is (p : TokenKind → bool) (l : list Token) (i : nat) : bool :=
  match l !! i with Some t => p (t_kind t) | None => false end.

Definition opens (k : TokenKind) : bool := is_symbol LeftParen k || is_symbol LeftBracket k.
Definition closes (k : TokenKind) : bool := is_symbol RightParen k || is_symbol RightBracket k.

Definition end_word_of (k : DeclarationKind) : string :=
  match k with DFunction => "FUNCTION" | DClass => "CLASS" | DStruct => "STRUCT" | DInterface => "INTERFACE" end.

(** ** Initialisers *)

Definition float_literal_initializer (type_ref : TypeReference) (initializer : Expression) : Expression :=
  match tr_alternatives type_ref with
  | [mkTypeAtom name [] [] _] =>
      let kind :=
        if String.eqb name "FLOAT32" then Some Float32
        else if String.eqb name "FLOAT" || String.eqb name "FLOAT64" then Some Float64 else None in
      match kind with
      | Some kind =>
          let initializer := negative_literal initializer in
          match e_kind initializer with
          | ELiteral (LInteger text) =>
              match integer_literal_as_float text kind with
              | Some float_text => mkExpression (ELiteral (LFloat float_text)) (e_span initializer)
              | None => initializer
              end
          | _ => initializer
          end
      | None => initializer
      end
  | _ => initializer
  end.

Definition inferred_constant_type (initializer : Expression) : presult TypeReference :=
  let span := e_span initializer in
  let named name := Ok (mkTypeReference [mkTypeAtom name [] [] span] span) in
  match e_kind initializer with
  | ELiteral (LBoolean _) => named "BOOLEAN"
  | ELiteral (LInteger _) => named "INTEGER"
  | ELiteral (LFloat _) => named "FLOAT"
  | ELiteral (LString _) => named "STRING"
  | ELiteral _ => Err (LexicalRule "CONST inference does not support this literal; use AS TYPE" span)
  | _ => Err (LexicalRule "CONST inference supports only BOOLEAN, INTEGER, FLOAT, and STRING literals" span)
  end.

(** ** One line

    [here] is the token at the cursor, where errors are reported. *)
Section Line.
Variable here : Token.

Definition fail {A} (message : string) : presult A := Err (parse_message message (t_span here)).
Definition ok_or_fail {A} (message : string) (o : option A) : presult A := ok_or (parse_message message (t_span here)) o.

Definition expression_in (tokens : list Token) : presult Expression :=
  match tokens with [] => fail "expected expression" | _ => parse_expression tokens end.

(** The content of one pair of brackets: an empty one has no dimension. *)
Definition dimension (allow_expressions : bool) (content : list Token) (span : Span) : presult (list VectorDimension) :=
  match content with
  | [] => Ok []
  | [t] =>
      match t_kind t with
      | TkInteger value => Ok [DLiteral value span]
      | _ =>
          if allow_expressions then e ← expression_in content; Ok [DExpression e]
          else fail "vector dimensions in signatures and fields require an integer literal"
      end
  | _ =>
      if allow_expressions then e ← expression_in content; Ok [DExpression e]
      else fail "vector dimensions in signatures and fields require an integer literal"
  end.

(** [vector_dimensions]: [within] holds the open bracket, the depth and the
    tokens since, the last first. *)
Fixpoint vector_dimensions (allow_expressions : bool) (within : option (Token * nat * list Token)) (tokens : list Token)
    : presult (list VectorDimension) :=
  match tokens with
  | [] => match within with Some _ => fail "expected ']' in vector type" | None => Ok [] end
  | t :: tokens =>
      match within with
      | None =>
          if is_symbol LeftBracket (t_kind t) then vector_dimensions allow_expressions (Some (t, 1, [])) tokens
          else vector_dimensions allow_expressions None tokens
      | Some (open, depth, content) =>
          if is_symbol LeftBracket (t_kind t) then
            vector_dimensions allow_expressions (Some (open, S depth, t :: content)) tokens
          else if is_symbol RightBracket (t_kind t) then
            match depth with
            | S (S depth) => vector_dimensions allow_expressions (Some (open, S depth, t :: content)) tokens
            | _ =>
                found ← dimension allow_expressions (rev content)
                          (mkSpan (span_start (t_span open)) (span_end (t_span t)));
                rest ← vector_dimensions allow_expressions None tokens;
                Ok (found ++ rest)%list
            end
          else vector_dimensions allow_expressions (Some (open, depth, t :: content)) tokens
      end
  end.

Definition type_atom (allow_expression_dimensions : bool) (part : list Token) : presult (list TypeAtom) :=
  match part with
  | [] => Ok []
  | first :: rest =>
      let name := text first in
      dimensions ← (if one_of ["POINTER"; "FUNCTION"] name then Ok []
                    else vector_dimensions allow_expression_dimensions None part);
      Ok [mkTypeAtom name (map text rest) dimensions
            (mkSpan (span_start (t_span first)) (span_end (t_span (List.last rest first))))]
  end.

(** The types between [OR]s, up to an [=]. *)
Definition type_reference (tokens : list Token) (allow_expression_dimensions : bool) : presult TypeReference :=
  let until := match position_of (is_symbol Assign) tokens with Some i => take i tokens | None => tokens end in
  atoms ← mapR (type_atom allow_expression_dimensions) (split_on (is_keyword "OR") until);
  let alternatives := concat atoms in
  let span := match alternatives with
              | first :: rest => mkSpan (span_start (ta_span first)) (span_end (ta_span (List.last rest first)))
              | [] => t_span here
              end in
  Ok (mkTypeReference alternatives span).

(** *** Signatures *)

(** The index of the parenthesis that closes the first one opened. *)
Fixpoint closing_paren (parentheses : Z) (index : nat) (line : list Token) : option nat :=
  match line with
  | [] => None
  | t :: line =>
      if is_symbol LeftParen (t_kind t) then closing_paren (parentheses + 1)%Z (S index) line
      else if is_symbol RightParen (t_kind t) then
        if (parentheses - 1 =? 0)%Z then Some index else closing_paren (parentheses - 1)%Z (S index) line
      else closing_paren parentheses (S index) line
  end.

(** The first comma outside brackets. *)
Fixpoint type_end_in (nested : Z) (tokens : list Token) : option nat :=
  match tokens with
  | [] => None
  | t :: tokens =>
      if is_symbol Comma (t_kind t) && (nested =? 0)%Z then Some 0
      else
        let nested := (if opens (t_kind t) then nested + 1
                       else if closes (t_kind t) then nested - 1 else nested)%Z in
        S <$> type_end_in nested tokens
  end.

(** The parameters of [line] from [index] up to [close]; [type_end] finds the
    end of a type. *)
Fixpoint parameters_loop (fuel : nat) (type_end : list Token → option nat) (line : list Token) (close index : nat)
    : presult (list Parameter_) :=
  match fuel with
  | O => Fuel
  | S fuel =>
      if index <? close then
        t ← nth_token line index;
        if is_symbol Comma (t_kind t) then parameters_loop fuel type_end line close (S index)
        else
          match t_kind t with
          | TkIdentifier name =>
              if get_is (is_keyword "AS") line (S index) then
                let index := S (S index) in
                rest ← slice line index close;
                let ends := match type_end rest with Some offset => index + offset | None => close end in
                type_tokens ← slice line index ends;
                type_ref ← type_reference type_tokens false;
                parameters ← parameters_loop fuel type_end line close ends;
                Ok (mkParameter name type_ref (mkSpan (span_start (t_span t)) (span_end (tr_span type_ref))) :: parameters)
              else fail "expected AS in parameter"
          | _ => fail "expected parameter name"
          end
      else Ok []
  end.

Definition function_signature_from (line : list Token) : presult FunctionSignature :=
  let start := span_start (t_span (match line with t :: _ => t | [] => here end)) in
  close ← ok_or_fail "expected ')' in function declaration" (closing_paren 0 0 line);
  as_index ← ok_or_fail "expected AS return type in function declaration"
               ((fun i => S close + i) <$> position_of (is_keyword "AS") (drop (S close) line));
  if get_is (is_symbol Comma) line (close - 1) then fail "trailing comma in FUNCTION parameters"
  else
    parameters ← parameters_loop (S (length line)) (type_end_in 0) line close 1;
    return_tokens ← slice_from line (S as_index);
    return_type ← type_reference return_tokens false;
    Ok (mkSignature parameters return_type (mkSpan start (span_end (tr_span return_type)))).

Definition function_index (line : list Token) : presult nat :=
  ok_or_fail "expected FUNCTION" (position_of (is_keyword "FUNCTION") line).

Definition SPECIAL_MEMBERS : list string := ["CONSTRUCTOR"; "DESTRUCTOR"].

Definition member_function_signature (line : list Token) : presult (option FunctionSignature) :=
  function ← function_index line;
  if get_is (is_keyword_of SPECIAL_MEMBERS) line (S function) then Ok None
  else header ← slice_from line (function + 2); s ← function_signature_from header; Ok (Some s).

Definition member_function_parameters (line : list Token) : presult (list Parameter_) :=
  function ← function_index line;
  header ← slice_from line (function + 2);
  close ← ok_or_fail "expected ')' in function declaration" (position_of (is_symbol RightParen) header);
  parameters_loop (S (length header)) (position_of (is_symbol Comma)) header close 1.

Definition member_function_name (line : list Token) : presult string :=
  function ← function_index line;
  t ← ok_or_fail "expected function name" (line !! S function);
  match t_kind t with
  | TkIdentifier name => Ok name
  | TkKeyword name => if one_of SPECIAL_MEMBERS name then Ok name else fail "expected function name"
  | _ => fail "expected function name"
  end.

Definition override_modifier (line : list Token) : presult bool :=
  match position_of (is_keyword "OVERRIDE") line with
  | None => Ok false
  | Some position =>
      if get_is (is_keyword "FUNCTION") line (S position) then Ok true
      else fail "OVERRIDE immediately before FUNCTION (PUBLIC OVERRIDE FUNCTION Name)"
  end.

Definition visibility_word (k : TokenKind) : option Visibility :=
  if is_keyword "PUBLIC" k then Some Public
  else if is_keyword "PRIVATE" k then Some Private
  else if is_keyword "PROTECTED" k then Some Protected else None.

Fixpoint visibility_in (line : list Token) : option Visibility :=
  match line with
  | [] => None
  | t :: line => match visibility_word (t_kind t) with Some v => Some v | None => visibility_in line end
  end.

Definition static_in (line : list Token) : bool := existsb (fun t => is_keyword "STATIC" (t_kind t)) line.

Definition member_modifiers (line : list Token) : option Visibility * bool := (visibility_in line, static_in line).

(** [EXTENDS] and [IMPLEMENTS] *)

Definition base_class (line : list Token) : presult (option TypeReference) :=
  match position_of (is_keyword "EXTENDS") line with
  | None => Ok None
  | Some extends =>
      rest ← slice_from line (S extends);
      let ends := match position_of (is_keyword "IMPLEMENTS") rest with
                  | Some offset => S extends + offset
                  | None => length line
                  end in
      if S extends =? ends then fail "EXTENDS requires a class name"
      else tokens ← slice line (S extends) ends; t ← type_reference tokens false; Ok (Some t)
  end.

(** The [.name] parts of an interface, from the cursor on. *)
Fixpoint interface_parts (fuel : nat) (line : list Token) (interface : string) (index : nat) : presult (string * nat) :=
  match fuel with
  | O => Fuel
  | S fuel =>
      if get_is (is_symbol Dot) line index then
        match line !! S index with
        | Some (mkToken (TkIdentifier name) _) => interface_parts fuel line (interface +:+ "." +:+ name) (S (S index))
        | _ => fail "expected interface name after '.'"
        end
      else Ok (interface, index)
  end.

Fixpoint interfaces_loop (fuel : nat) (line : list Token) (index : nat) : presult (list string) :=
  match fuel with
  | O => Fuel
  | S fuel =>
      if index <? length line then
        t ← nth_token line index;
        match t_kind t with
        | TkIdentifier name =>
            '(interface, index) ← interface_parts fuel line name (S index);
            if index =? length line then Ok [interface]
            else
              t ← nth_token line index;
              if is_symbol Comma (t_kind t) then
                interfaces ← interfaces_loop fuel line (S index); Ok (interface :: interfaces)
              else fail "expected ',' between interface names"
        | _ => fail "expected interface name after IMPLEMENTS"
        end
      else Ok []
  end.

Definition implemented_interfaces (line : list Token) : presult (list string) :=
  match position_of (is_keyword "IMPLEMENTS") line with
  | None => Ok []
  | Some implements =>
      interfaces ← interfaces_loop (S (S (length line))) line (S implements);
      match interfaces with [] => fail "IMPLEMENTS requires an interface name" | _ => Ok interfaces end
  end.

(** [named_type] of [valid_class_header]: what follows the name, if it is one. *)
Fixpoint named_tail (tokens : list Token) : option (list Token) :=
  match tokens with
  | dot :: rest =>
      if is_symbol Dot (t_kind dot) then
        match rest with
        | name :: rest => if is_identifier (t_kind name) then named_tail rest else None
        | [] => None
        end
      else Some tokens
  | [] => Some tokens
  end.
Definition named_type (tokens : list Token) : option (list Token) :=
  match tokens with t :: rest => if is_identifier (t_kind t) then named_tail rest else None | [] => None end.

Fixpoint more_interfaces (fuel : nat) (tokens : list Token) : bool :=
  match fuel with
  | O => false
  | S fuel =>
      match tokens with
      | [] => true
      | t :: rest =>
          is_symbol Comma (t_kind t)
          && match named_type rest with Some rest => more_interfaces fuel rest | None => false end
      end
  end.

Definition valid_class_header (tokens : list Token) : bool :=
  let implements tokens :=
    match tokens with
    | t :: rest =>
        is_keyword "IMPLEMENTS" (t_kind t)
        && match named_type rest with Some rest => more_interfaces (S (length rest)) rest | None => false end
    | [] => true
    end in
  match tokens with
  | t :: rest =>
      if is_keyword "EXTENDS" (t_kind t) then
        match named_type rest with Some rest => implements rest | None => false end
      else implements tokens
  | [] => true
  end.
End Line.

(** ** Statements of one line ([phase3.rs]) *)

Section Statements.
Variable here : Token.
#[local] Abbreviation fail := (fail here).
#[local] Abbreviation ok_or_fail := (ok_or_fail here).
#[local] Abbreviation expression_in := (expression_in here).
#[local] Abbreviation type_reference := (type_reference here).

(** The parts of a list at the commas outside brackets. *)
Fixpoint comma_parts (depth : Z) (tokens : list Token) : list (list Token) :=
  match tokens with
  | [] => [[]]
  | t :: tokens =>
      if is_symbol Comma (t_kind t) && (depth =? 0)%Z then [] :: comma_parts depth tokens
      else
        let depth := (if opens (t_kind t) then depth + 1 else if closes (t_kind t) then depth - 1 else depth)%Z in
        match comma_parts depth tokens with [] => [[t]] | part :: parts => (t :: part) :: parts end
  end.

Definition expression_list (tokens : list Token) : presult (list Expression) :=
  match tokens with [] => Ok [] | _ => mapR expression_in (comma_parts 0 tokens) end.

Definition is_assignment (k : TokenKind) : bool :=
  match k with
  | TkSymbol (Assign | PlusAssign | MinusAssign | StarAssign | PowerAssign | SlashAssign | PercentAssign) => true
  | _ => false
  end.

Fixpoint assignment_operator (depth : Z) (tokens : list Token) : option nat :=
  match tokens with
  | [] => None
  | t :: tokens =>
      let k := t_kind t in
      if is_assignment k && (depth =? 0)%Z then Some 0
      else S <$> assignment_operator (if opens k then depth + 1 else if closes k then depth - 1 else depth)%Z tokens
  end.

Definition MSG_EXPECTED_BINDING_NAME : string := "expected binding name".

Definition destructuring_binding (tokens : list Token) : presult DestructuringBinding :=
  match tokens with
  | mkToken (TkIdentifier name) name_span :: rest =>
      type_ref ←
        (if get_is (is_keyword "AS") tokens 1 then
           if length tokens =? 2 then fail "expected type"
           else type_tokens ← slice_from tokens 2; t ← type_reference type_tokens true; Ok (Some t)
         else if length tokens =? 1 then Ok None
         else fail "destructuring binding is a name or a name AS type");
      let ends := match list.last tokens with Some t => span_end (t_span t) | None => span_end name_span end in
      Ok (mkDestructuring name type_ref (mkSpan (span_start name_span) ends))
  | _ => fail MSG_EXPECTED_BINDING_NAME
  end.

(** The index of the bracket that closes [LET \[]. *)
Fixpoint closing_bracket (depth : Z) (index : nat) (tokens : list Token) : option nat :=
  match tokens with
  | [] => None
  | t :: tokens =>
      if opens (t_kind t) then closing_bracket (depth + 1)%Z (S index) tokens
      else if closes (t_kind t) then
        if (depth - 1 =? 0)%Z then Some index else closing_bracket (depth - 1)%Z (S index) tokens
      else closing_bracket depth (S index) tokens
  end.

Definition destructuring_let (line : list Token) (span : Span) : presult Statement :=
  match closing_bracket 1 2 (drop 2 line) with
  | None => fail "destructuring LET requires a closing bracket"
  | Some close =>
      if get_is (is_symbol Assign) line (S close) then
        source_tokens ← slice_from line (close + 2);
        source ← expression_in source_tokens;
        interior ← slice line 2 close;
        match interior with
        | [] => fail "destructuring LET requires a binding"
        | _ =>
            bindings ← mapR destructuring_binding (comma_parts 0 interior);
            Ok (SDestructuring bindings source span)
        end
      else fail "destructuring LET requires an initializer"
  end.

Definition is_step (k : TokenKind) : bool := is_symbol Increment k || is_symbol Decrement k.

(** A line that is one target and one [++] or [--]. *)
Definition bare_increment (line : list Token) : presult (option (list Token * Token)) :=
  match list.last line, line with
  | Some last, first :: rest =>
      if (2 <=? length line) && is_step (t_kind last) then
        target ← slice line 0 (length line - 1); Ok (Some (target, last))
      else if (2 <=? length line) && is_step (t_kind first) then Ok (Some (rest, first))
      else Ok None
  | _, _ => Ok None
  end.

Definition increment_statement (line : list Token) (span : Span) : presult (option Statement) :=
  found ← bare_increment line;
  match found with
  | None => Ok None
  | Some (target_tokens, operator_token) =>
      match expression_in target_tokens with
      | Ok target =>
          if is_target (e_kind target) then
            let operator := if is_symbol Increment (t_kind operator_token) then "PlusAssign" else "MinusAssign" in
            Ok (Some (assignment target operator
                        (mkExpression (ELiteral (LInteger "1")) (t_span operator_token)) span))
          else Ok None
      | Err _ => Ok None
      | Panic w => Panic w
      | Fuel => Fuel
      end
  end.

(** [VOID] before a bracket. *)
Fixpoint void_vector (line : list Token) : bool :=
  match line with
  | a :: rest =>
      match rest with
      | b :: _ => (is_keyword "VOID" (t_kind a) && is_symbol LeftBracket (t_kind b)) || void_vector rest
      | [] => false
      end
  | [] => false
  end.

Fixpoint modifiers_count (line : list Token) : nat :=
  match line with
  | t :: line => if is_keyword_of ["PUBLIC"; "PRIVATE"; "PROTECTED"; "STATIC"] (t_kind t) then S (modifiers_count line) else 0
  | [] => 0
  end.

(** The expression after the first [=] of the line. *)
Definition initializer_of (line : list Token) : presult (option Expression) :=
  match position_of (is_symbol Assign) line with
  | Some index => tokens ← slice_from line (S index); e ← expression_in tokens; Ok (Some e)
  | None => Ok None
  end.

Definition field_binding (line : list Token) (field_start : nat) (name : string) (span : Span) : presult Statement :=
  type_tokens ← slice_from line (field_start + 2);
  type_ref ← type_reference type_tokens false;
  if void_vector line then fail "VOID cannot be used as a vector element type"
  else
    initializer ← initializer_of line;
    modifiers ← slice line 0 field_start;
    Ok (SBinding false (visibility_in modifiers) (static_in modifiers) name [] [] type_ref
          (match initializer with Some _ => true | None => false end) initializer [] span).

Definition binding_name (part : list Token) : presult (string * Span) :=
  match part with
  | [mkToken (TkIdentifier name) span] => Ok (name, span)
  | _ => fail MSG_EXPECTED_BINDING_NAME
  end.

Definition inferred_const (line : list Token) (span : Span) : presult Statement :=
  assign ← ok_or_fail "CONST requires an initializer" (position_of (is_symbol Assign) line);
  if negb (assign =? 2) || (length line <=? assign + 1) then fail "inferred CONST requires one name and one literal"
  else
    t ← nth_token line 1;
    match t_kind t with
    | TkIdentifier name =>
        tokens ← slice_from line (S assign);
        e ← expression_in tokens;
        let initializer := negative_literal e in
        type_ref ← inferred_constant_type initializer;
        Ok (SBinding true None false name [] [] type_ref true (Some initializer) [] span)
    | _ => fail MSG_EXPECTED_BINDING_NAME
    end.

Definition typed_binding (line : list Token) (constant : bool) (as_index : nat) (span : Span) : presult Statement :=
  name_tokens ← slice line 1 as_index;
  name_parts ← mapR binding_name (split_on (is_symbol Comma) name_tokens);
  match name_parts with
  | [] => fail MSG_EXPECTED_BINDING_NAME
  | (name, _) :: additional =>
      if constant && negb (bool_decide (additional = [])) then fail "CONST accepts one binding name"
      else
        type_tokens ← slice_from line (S as_index);
        type_ref ← type_reference type_tokens true;
        if void_vector line then fail "VOID cannot be used as a vector element type"
        else
          let assign := position_of (is_symbol Assign) line in
          initializers ←
            match assign with
            | Some index => tokens ← slice_from line (S index); expression_list tokens
            | None => Ok []
            end;
          let has_initializer := match assign with Some _ => true | None => false end in
          if has_initializer && (length initializers =? 0) then fail "expected expression"
          else if negb (length initializers =? 0) && negb (length initializers =? length additional + 1)
          then fail "initializer count must match binding count"
          else if constant && negb has_initializer then fail "CONST requires an initializer"
          else
            let initializers := map (float_literal_initializer type_ref) initializers in
            Ok (SBinding constant None false name additional.*1 additional.*2 type_ref has_initializer
                  (head initializers) (tail initializers) span)
  end.

Definition input_statement (line : list Token) (span : Span) : presult Statement :=
  '(prompt, target_tokens) ←
    match position_of (is_symbol Comma) line with
    | Some comma =>
        if (comma <=? 1) || (length line <=? comma + 1) then fail "INPUT prompt requires a target"
        else
          prompt_tokens ← slice line 1 comma;
          prompt ← expression_in prompt_tokens;
          target ← slice_from line (S comma);
          Ok (Some prompt, target)
    | None =>
        if negb (length line =? 2) then fail "INPUT requires a target or prompt and target"
        else target ← slice_from line 1; Ok (None, target)
    end;
  target ← expression_in target_tokens;
  if is_target (e_kind target) then Ok (SInput prompt target span) else fail "INPUT target must be assignable".

(** The expression that is the rest of the line. *)
Definition rest_expression (line : list Token) : presult Expression :=
  tokens ← slice_from line 1; expression_in tokens.

Definition control_statement (line : list Token) (span : Span) : presult Statement :=
  match line with
  | [kind; target] =>
      if is_keyword_of ["FOR"; "WHILE"; "REPEAT"] (t_kind target) then Ok (SControl (text kind) (text target) span)
      else fail "EXIT and CONTINUE must name FOR, WHILE, or REPEAT"
  | _ => fail "EXIT and CONTINUE must name FOR, WHILE, or REPEAT"
  end.

Definition assignment_statement (line : list Token) (operator : nat) (span : Span) : presult Statement :=
  if (operator =? 0) || (operator + 1 =? length line) then fail "assignment requires a target and expression"
  else
    target_tokens ← slice line 0 operator;
    target ← expression_in target_tokens;
    if is_target (e_kind target) then
      t ← nth_token line operator;
      value_tokens ← slice_from line (S operator);
      value ← expression_in value_tokens;
      Ok (assignment target (text t) value span)
    else fail "an assignment target must be an identifier, member, or index".

Definition keyword_here (word : string) : bool := is_keyword word (t_kind here).

(** The statements that a keyword at the cursor starts, and the rest. *)
Definition simple_statement (line : list Token) (span : Span) : presult Statement :=
  if keyword_here "RETURN" then
    if length line =? 1 then Ok (SReturn None span) else value ← rest_expression line; Ok (SReturn (Some value) span)
  else if keyword_here "INPUT" then input_statement line span
  else if keyword_here "PRINT" then
    tokens ← slice_from line 1; values ← expression_list tokens; Ok (SPrint values span)
  else if keyword_here "RELEASE" then
    if length line =? 1 then fail "RELEASE requires an expression"
    else value ← rest_expression line; Ok (SRelease value span)
  else if keyword_here "STOP" then
    if length line =? 1 then fail "STOP requires an exit-code expression"
    else code ← rest_expression line; Ok (SStop code span)
  else if get_is (is_keyword_of ["IF"; "WHILE"; "REPEAT"; "FOR"; "EXIT"; "CONTINUE"]) line 0 then
    control_statement line span
  else
    match assignment_operator 0 line with
    | Some operator => assignment_statement line operator span
    | None =>
        e ← expression_in line;
        match e_kind e with
        | ECall _ _ => Ok (SCall e span)
        | _ => fail "expected a call statement"
        end
    end.

Definition statement_node (line : list Token) : presult Statement :=
  match line with
  | [] => fail "expected statement"
  | first :: rest =>
      let span := mkSpan (span_start (t_span first)) (span_end (t_span (List.last rest first))) in
      stepped ← increment_statement line span;
      match stepped with
      | Some statement => Ok statement
      | None =>
          let field_start := modifiers_count line in
          match line !! field_start, get_is (is_keyword "AS") line (S field_start) with
          | Some (mkToken (TkIdentifier name) _), true => field_binding line field_start name span
          | _, _ =>
              if keyword_here "LET" && get_is (is_symbol LeftBracket) line 1 then destructuring_let line span
              else if keyword_here "LET" || keyword_here "CONST" then
                match position_of (is_keyword "AS") line with
                | None =>
                    if keyword_here "CONST" then inferred_const line span
                    else fail "a binding declaration requires AS TYPE"
                | Some as_index => typed_binding line (keyword_here "CONST") as_index span
                end
              else simple_statement line span
          end
      end
  end.

(** *** Loop headers ([phase2.rs]) *)

Definition MSG_FOR : string := "expected FOR name [AS type] = start TO end [STEP step]".
Definition MSG_IN : string := "expected IN in FOR EACH".

Definition variable_of (t : Token) : presult (string * Span) :=
  match t_kind t with
  | TkIdentifier name => Ok (name, t_span t)
  | _ => fail "expected FOR variable name"
  end.

Definition each_header (line : list Token) : presult ForHeader :=
  variable_token ← ok_or_fail "expected FOR EACH variable" (line !! 2);
  '(variable, variable_span) ← variable_of variable_token;
  in_index ← ok_or_fail MSG_IN (position_of (is_keyword "IN") line);
  type_ref ←
    (if get_is (is_keyword "AS") line 3 then
       if in_index <=? 4 then fail "expected a type in FOR EACH"
       else tokens ← slice line 4 in_index; t ← type_reference tokens false; Ok (Some t)
     else if in_index =? 3 then Ok None else fail MSG_IN);
  iterable_tokens ← slice_from line (S in_index);
  iterable ← expression_in iterable_tokens;
  Ok (Each variable type_ref variable_span iterable).

Definition counted_header (line : list Token) : presult ForHeader :=
  variable_token ← ok_or_fail "expected FOR variable" (line !! 1);
  '(variable, variable_span) ← variable_of variable_token;
  equal ← ok_or_fail "expected = in FOR" (position_of (is_symbol Assign) line);
  to ← ok_or_fail "expected TO in FOR" (position_of (is_keyword "TO") line);
  let step := position_of (is_keyword "STEP") line in
  type_ref ←
    (if get_is (is_keyword "AS") line 2 then
       if equal <=? 3 then fail MSG_FOR
       else tokens ← slice line 3 equal; t ← type_reference tokens false; Ok (Some t)
     else if equal =? 2 then Ok None else fail MSG_FOR);
  if (to <=? equal) || (match step with Some step => step <=? to | None => false end) then fail MSG_FOR
  else
    start_tokens ← slice line (S equal) to;
    start ← expression_in start_tokens;
    end_tokens ← slice line (S to) (default (length line) step);
    end_ ← expression_in end_tokens;
    step ← match step with
           | Some index => tokens ← slice_from line (S index); e ← expression_in tokens; Ok (Some e)
           | None => Ok None
           end;
    Ok (Counted variable type_ref variable_span start end_ step).

Definition for_header (line : list Token) : presult ForHeader :=
  if get_is (is_keyword "EACH") line 1 then each_header line else counted_header line.
End Statements.

(** [inline_simple_statement]: a parser of its own on the tokens and a newline. *)
Definition inline_simple_statement (here : Token) (tokens : list Token) : presult Statement :=
  match tokens with
  | [] => fail here "single-line IF requires a statement after THEN/ELSE"
  | first :: _ =>
      if is_keyword_of ["IF"; "WHILE"; "REPEAT"; "FOR"] (t_kind first) then
        fail here "single-line IF branches cannot contain compound statements"
      else statement_node first tokens
  end.

(** ** Blocks and declarations ([phase1.rs], [phase2.rs]) *)

Inductive BlockTerm :=
| BtEnd (position : Position)
| BtElse
| BtUntil (condition : Expression).

Section Program.
Variables (tokens : list Token) (final : Token).
Abbreviation index_ := nat.

Definition token_at (i : index_) : Token := match tokens !! i with Some t => t | None => final end.
Definition kind_at (i : index_) : TokenKind := t_kind (token_at i).
Definition keyword_at (word : string) (i : index_) : bool := is_keyword word (kind_at i).
Definition newline_at (i : index_) : bool := match kind_at i with TkNewline => true | _ => false end.
Definition eof_at (i : index_) : bool := match kind_at i with TkEof => true | _ => false end.
Definition start_at (i : index_) : Position := span_start (t_span (token_at i)).

Definition previous (i : index_) : presult Token :=
  match i with O => Panic "index underflow" | S i => expect "index out of bounds" (tokens !! i) end.

Definition ends_line (k : TokenKind) : bool := match k with TkNewline | TkEof => true | _ => false end.

Definition line_tokens (i : index_) : presult (list Token) :=
  rest ← slice_from tokens i;
  slice tokens i (i + default 0 (position_of ends_line rest)).

Definition fail_at {A} (message : string) (i : index_) : presult A := fail (token_at i) message.

Definition newline (i : index_) : presult (Position * index_) :=
  if newline_at i then Ok (span_end (t_span (token_at i)), S i) else fail_at "expected end of line" i.

(** [newlines] and [consume_to_newline]: the loops go through the tokens. *)
Fixpoint newlines (fuel : nat) (i : index_) : presult index_ :=
  match fuel with
  | O => Fuel
  | S fuel => if newline_at i then newlines fuel (S i) else Ok i
  end.
Fixpoint consume_to_newline (fuel : nat) (i : index_) : presult index_ :=
  match fuel with
  | O => Fuel
  | S fuel =>
      if newline_at i || eof_at i then '(_, i) ← newline i; Ok i else consume_to_newline fuel (S i)
  end.

Definition identifier_name (i : index_) : presult (string * index_) :=
  match kind_at i with TkIdentifier name => Ok (name, S i) | _ => fail_at "expected identifier" i end.

Definition expect_keyword (word : string) (i : index_) : presult index_ :=
  if keyword_at word i then Ok (S i) else Err (ParseFacts word CONTEXT (t_span (token_at i))).
Definition expect_punctuation (s : Symbol) (i : index_) : presult index_ :=
  if is_symbol s (kind_at i) then Ok (S i) else fail_at "expected punctuation" i.

Definition END_WORDS : list string := ["FUNCTION"; "CLASS"; "STRUCT"; "INTERFACE"; "IF"; "WHILE"; "REPEAT"; "FOR"].
Definition end_word (i : index_) : presult (string * index_) :=
  match kind_at i with
  | TkKeyword word => if one_of END_WORDS word then Ok (word, S i) else fail_at "expected a compound form after END" i
  | _ => fail_at "expected a compound form after END" i
  end.

(** [function_member_start]: [FUNCTION] after modifiers. *)
Fixpoint member_start (l : list Token) : bool :=
  match l with
  | t :: l =>
      if is_keyword_of ["PUBLIC"; "PRIVATE"; "PROTECTED"; "STATIC"; "OVERRIDE"] (t_kind t) then member_start l
      else is_keyword "FUNCTION" (t_kind t)
  | [] => false
  end.
Definition function_member_start (i : index_) : bool := member_start (drop i tokens).

(** The fuel of the loops over the tokens. *)
Definition scan_fuel : nat := S (length tokens).

Definition interface_function (i : index_) : presult (Statement * index_) :=
  line ← line_tokens i;
  let here := token_at i in
  name ← member_function_name here line;
  let '(visibility, is_static) := member_modifiers line in
  is_override ← override_modifier here line;
  if is_override : bool then fail here "no OVERRIDE on INTERFACE functions (they are implemented, not overridden)"
  else
    parameters ← member_function_parameters here line;
    signature ← member_function_signature here line;
    let start := start_at i in
    i ← consume_to_newline scan_fuel (S i);
    last ← previous i;
    Ok (SMemberFunction name visibility is_static false parameters signature None (mkSpan start (span_end (t_span last))), i).

(** The condition of an [UNTIL] line. *)
Definition until_condition (i : index_) : presult (Expression * index_) :=
  line ← line_tokens i;
  if length line =? 1 then fail_at "UNTIL requires an expression" i
  else
    condition_tokens ← slice_from line 1;
    condition ← expression_in (token_at i) condition_tokens;
    i ← consume_to_newline scan_fuel i;
    Ok (condition, i).

(** [END word] with its line. *)
Definition end_of_block (outer_end : string) (i : index_) : presult (Position * index_) :=
  '(word, i) ← end_word (S i);
  last ← previous i;
  if negb (String.eqb word outer_end) then fail_at ("expected END " +:+ outer_end +:+ ", found END " +:+ word) i
  else '(_, i) ← newline i; Ok (span_end (t_span last), i).

(** An [IF] on one line. *)
Definition inline_if (line : list Token) (then_ : nat) (condition : Expression) (i : index_) : presult (Statement * index_) :=
  let start := start_at i in
  let here := token_at (S i) in
  rest ← slice_from line (S then_);
  let else_index := (fun j => j + then_ + 1) <$> position_of (is_keyword "ELSE") rest in
  true_tokens ← slice line (S then_) (default (length line) else_index);
  true_statement ← inline_simple_statement here true_tokens;
  last ← expect "if line" (list.last line);
  let ends := span_end (t_span last) in
  let span := mkSpan start ends in
  otherwise ←
    match else_index with
    | Some index =>
        false_tokens ← slice_from line (S index);
        false_statement ← inline_simple_statement here false_tokens;
        Ok (Some (mkBlock [false_statement] span))
    | None => Ok None
    end;
  i ← consume_to_newline scan_fuel (S i);
  Ok (SIf [mkBranch condition (mkBlock [true_statement] span) span] otherwise span, i).

(** The spans of the branches, once the end is known. *)
Definition closed_branch (span : Span) (b : Expression * list Statement) : IfBranch :=
  mkBranch b.1 (mkBlock b.2 span) span.

Definition loop_body_span (start ends : Position) : Span := mkSpan start ends.

Fixpoint block_until (fuel : nat) (outer_end : string) (stop_at_else : bool) (i : index_)
    : presult (BlockTerm * list Statement * index_) :=
  match fuel with
  | O => Fuel
  | S fuel =>
      let push (statement : Statement) (i : index_) :=
        '(term, statements, i) ← block_until fuel outer_end stop_at_else i;
        Ok (term, statement :: statements, i) in
      if eof_at i then fail_at ("expected END " +:+ outer_end +:+ " before end of file") i
      else if newline_at i then block_until fuel outer_end stop_at_else (S i)
      else if stop_at_else && keyword_at "ELSE" i then Ok (BtElse, [], i)
      else if String.eqb outer_end "REPEAT" && keyword_at "UNTIL" i then
        '(condition, i) ← until_condition i; Ok (BtUntil condition, [], i)
      else if keyword_at "END" i then '(position, i) ← end_of_block outer_end i; Ok (BtEnd position, [], i)
      else if keyword_at "WHILE" i then '(s, i) ← loop_statement fuel "WHILE" i; push s i
      else if keyword_at "IF" i then '(s, i) ← if_statement fuel i; push s i
      else if keyword_at "REPEAT" i then '(s, i) ← loop_statement fuel "REPEAT" i; push s i
      else if keyword_at "FOR" i then '(s, i) ← loop_statement fuel "FOR" i; push s i
      else if String.eqb outer_end "CLASS" && function_member_start i then '(s, i) ← class_method fuel i; push s i
      else if String.eqb outer_end "INTERFACE" && keyword_at "FUNCTION" i then '(s, i) ← interface_function i; push s i
      else
        line ← line_tokens i;
        statement ← statement_node (token_at i) line;
        i ← consume_to_newline scan_fuel i;
        push statement i
  end
with block (fuel : nat) (outer_end : string) (i : index_) : presult (Position * list Statement * index_) :=
  match fuel with
  | O => Fuel
  | S fuel =>
      '(term, statements, i) ← block_until fuel outer_end false i;
      match term with BtEnd position => Ok (position, statements, i) | _ => Panic "unreachable" end
  end
with class_method (fuel : nat) (i : index_) : presult (Statement * index_) :=
  match fuel with
  | O => Fuel
  | S fuel =>
      line ← line_tokens i;
      let here := token_at i in
      let start := start_at i in
      name ← member_function_name here line;
      let '(visibility, is_static) := member_modifiers line in
      is_override ← override_modifier here line;
      parameters ← member_function_parameters here line;
      signature ← member_function_signature here line;
      i ← consume_to_newline scan_fuel i;
      '(ends, body, i) ← block fuel "FUNCTION" i;
      let span := mkSpan start ends in
      Ok (SMemberFunction name visibility is_static is_override parameters signature (Some (mkBlock body span)) span, i)
  end
(** The loop keyword at the cursor is [kind]. *)
with loop_statement (fuel : nat) (kind : string) (i : index_) : presult (Statement * index_) :=
  match fuel with
  | O => Fuel
  | S fuel =>
      line ← line_tokens i;
      let here := token_at i in
      condition ← (if String.eqb kind "WHILE" then
                     tokens ← slice_from line 1; e ← expression_in here tokens; Ok (Some e)
                   else Ok None);
      header ← (if String.eqb kind "FOR" then h ← for_header here line; Ok (Some h) else Ok None);
      let start := start_at i in
      i ← consume_to_newline scan_fuel (S i);
      '(ends, repeat_condition, body, i) ←
        (if String.eqb kind "REPEAT" then
           '(term, body, i) ← block_until fuel "REPEAT" false i;
           match term with
           | BtUntil repeat =>
               i ← expect_keyword "END" i;
               '(word, i) ← end_word i;
               if negb (String.eqb word "REPEAT") then fail_at "expected END REPEAT" i
               else
                 last ← previous i;
                 '(_, i) ← newline i;
                 Ok (span_end (t_span last), Some repeat, body, i)
           | _ => fail_at "expected UNTIL before END REPEAT" i
           end
         else '(ends, body, i) ← block fuel kind i; Ok (ends, None, body, i));
      let span := mkSpan start ends in
      let body := mkBlock body span in
      statement ←
        (if String.eqb kind "WHILE" then c ← expect "while condition" condition; Ok (SWhile c body span)
         else if String.eqb kind "REPEAT" then c ← expect "repeat condition" repeat_condition; Ok (SRepeat body c span)
         else if String.eqb kind "FOR" then h ← expect "for header" header; Ok (SFor h body span)
         else Panic "unreachable");
      Ok (statement, i)
  end
with if_statement (fuel : nat) (i : index_) : presult (Statement * index_) :=
  match fuel with
  | O => Fuel
  | S fuel =>
      line ← line_tokens i;
      then_ ← ok_or_fail (token_at i) "expected THEN after IF condition" (position_of (is_keyword "THEN") line);
      condition_tokens ← slice line 1 then_;
      condition ← expression_in (token_at i) condition_tokens;
      if S then_ <? length line then inline_if line then_ condition i
      else
        let start := start_at i in
        i ← consume_to_newline scan_fuel (S i);
        '(term, body, i) ← block_until fuel "IF" true i;
        '(term, branches, otherwise, i) ← else_branches fuel term None i;
        match term with
        | BtEnd ends =>
            let span := mkSpan start ends in
            Ok (SIf (map (closed_branch span) ((condition, body) :: branches))
                  ((fun statements => mkBlock statements span) <$> otherwise) span, i)
        | _ => Panic "unreachable"
        end
  end
(** The loop over [ELSE] and [ELSE IF]: the branches and the last [ELSE] block. *)
with else_branches (fuel : nat) (term : BlockTerm) (otherwise : option (list Statement)) (i : index_)
    : presult (BlockTerm * list (Expression * list Statement) * option (list Statement) * index_) :=
  match fuel with
  | O => Fuel
  | S fuel =>
      match term with
      | BtElse =>
          let i := S i in
          if keyword_at "IF" i then
            let i := S i in
            line ← line_tokens i;
            then_ ← ok_or_fail (token_at i) "expected THEN after ELSE IF condition" (position_of (is_keyword "THEN") line);
            condition_tokens ← slice line 0 then_;
            condition ← expression_in (token_at i) condition_tokens;
            i ← consume_to_newline scan_fuel i;
            '(next, body, i) ← block_until fuel "IF" true i;
            '(term, branches, otherwise, i) ← else_branches fuel next otherwise i;
            Ok (term, (condition, body) :: branches, otherwise, i)
          else
            '(_, i) ← newline i;
            '(next, body, i) ← block_until fuel "IF" false i;
            else_branches fuel next (Some body) i
      | _ => Ok (term, [], otherwise, i)
      end
  end.

(** *** Declarations *)

Definition HOST : string := "HOST".

Definition path_part_name (i : index_) : presult (string * index_) :=
  if keyword_at HOST i then Ok (HOST, S i) else identifier_name i.

Fixpoint path_rest (fuel : nat) (i : index_) : presult (list string * index_) :=
  match fuel with
  | O => Fuel
  | S fuel =>
      if is_symbol Dot (kind_at i) then
        '(name, i) ← identifier_name (S i); '(names, i) ← path_rest fuel i; Ok (name :: names, i)
      else Ok ([], i)
  end.

Definition import (i : index_) : presult (Item * index_) :=
  let start := start_at i in
  let exported := keyword_at "EXPORT" i in
  i ← expect_keyword "IMPORT" (if exported then S i else i);
  '(first, i) ← path_part_name i;
  let host_import := String.eqb first HOST in
  if exported && host_import then fail_at "EXPORT IMPORT re-exports a module, not a HOST capability" i
  else
    '(path, i) ←
      (if host_import || is_symbol Dot (kind_at i) then
         i ← expect_punctuation Dot i;
         '(capability, i) ← path_part_name i;
         if host_import && negb (starts_capital capability) then fail_at capital_message i
         else '(names, i) ← path_rest scan_fuel i; Ok (first :: capability :: names, i)
       else Ok ([first], i));
    i ← expect_keyword "AS" i;
    '(alias, i) ← identifier_name i;
    '(ends, i) ← newline i;
    Ok (Import exported path alias (mkSpan start ends), i).

Definition constant (i : index_) : presult (Item * index_) :=
  let start := start_at i in
  let exported := keyword_at "EXPORT" i in
  i ← expect_keyword "CONST" (if exported then S i else i);
  '(name, i) ← identifier_name i;
  line ← line_tokens i;
  let here := token_at i in
  assign ← ok_or_fail here "CONST requires an initializer" (position_of (is_symbol Assign) line);
  if length line <=? assign + 1 then fail here "CONST requires an initializer"
  else
    tokens ← slice_from line (S assign);
    e ← expression_in here tokens;
    let initializer := negative_literal e in
    '(type_ref, initializer) ←
      (if 0 <? assign then
         first ← nth_token line 0;
         if negb (is_keyword "AS" (t_kind first)) then fail here "CONST requires AS before an explicit type"
         else if assign =? 1 then fail here "CONST requires a type and initializer"
         else
           type_tokens ← slice line 1 assign;
           type_ref ← type_reference here type_tokens false;
           Ok (type_ref, float_literal_initializer type_ref initializer)
       else type_ref ← inferred_constant_type initializer; Ok (type_ref, initializer));
    '(ends, i) ← newline (i + length line);
    match e_kind initializer with
    | ELiteral _ => Ok (ConstantItem exported name type_ref initializer (mkSpan start ends), i)
    | _ => fail_at "module constants require a literal initializer" i
    end.

Definition declaration_kind (i : index_) : option DeclarationKind :=
  if keyword_at "FUNCTION" i then Some DFunction
  else if keyword_at "CLASS" i then Some DClass
  else if keyword_at "STRUCT" i then Some DStruct
  else if keyword_at "INTERFACE" i then Some DInterface else None.

Definition is_class (k : DeclarationKind) : bool := match k with DClass => true | _ => false end.
Definition is_function (k : DeclarationKind) : bool := match k with DFunction => true | _ => false end.

Definition declaration (fuel : nat) (i : index_) : presult (Item * index_) :=
  let start := start_at i in
  let exported := keyword_at "EXPORT" i in
  let i := if exported then S i else i in
  let asynchronous := keyword_at "ASYNC" i in
  let i := if asynchronous then S i else i in
  kind ← ok_or_fail (token_at i) "expected IMPORT or a top-level declaration" (declaration_kind i);
  if asynchronous && negb (is_function kind) then fail_at "ASYNC can only modify FUNCTION declarations" i
  else
    '(name, i) ← identifier_name (S i);
    line ← line_tokens i;
    let here := token_at i in
    base ← (if is_class kind then base_class here line else Ok None);
    interfaces ← (if is_class kind then implemented_interfaces here line else Ok []);
    signature ← (if is_function kind then s ← function_signature_from here line; Ok (Some s) else Ok None);
    let header_ok :=
      match kind with
      | DFunction => true
      | DClass => valid_class_header line
      | DStruct | DInterface => length line =? 0
      end in
    if negb header_ok then fail here "unexpected token after declaration name"
    else
      i ← consume_to_newline scan_fuel i;
      '(ends, statements, i) ← block fuel (end_word_of kind) i;
      Ok (Declaration exported asynchronous kind name base interfaces signature statements (mkSpan start ends), i).

Definition export_of (word : string) (i : index_) : bool :=
  keyword_at "EXPORT" i && get_is (is_keyword word) tokens (S i).

(** The loop of [program]. *)
Fixpoint items_loop (fuel : nat) (saw_declaration : bool) (i : index_) : presult (list Item) :=
  match fuel with
  | O => Fuel
  | S fuel =>
      if eof_at i then Ok []
      else
        '(item, saw, i) ←
          (if keyword_at "IMPORT" i || export_of "IMPORT" i then
             if saw_declaration then fail_at "IMPORT declarations must precede all declarations" i
             else '(item, i) ← import i; Ok (item, saw_declaration, i)
           else if keyword_at "CONST" i || export_of "CONST" i then '(item, i) ← constant i; Ok (item, true, i)
           else '(item, i) ← declaration fuel i; Ok (item, true, i));
        i ← newlines scan_fuel i;
        rest ← items_loop fuel saw i;
        Ok (item :: rest)
  end.
End Program.

Definition program_fuel (tokens : list Token) : nat := (4 * length tokens + 8)%nat.

(** [parse_named] and [parse] *)
Definition parse_program (tokens : list Token) (source_name : option string) : presult Program :=
  match list.last tokens with
  | None => Panic "token stream is not empty"
  | Some final =>
      i ← newlines tokens final (scan_fuel tokens) 0;
      items ← items_loop tokens final (program_fuel tokens) false i;
      Ok (mkProgram source_name items)
  end.
