(* ===== verification/Parsing.v ===== *)
(** * Parsing: the parser of programs ends without a panic

    On every list of tokens that ends in [EOF] the parser ends, with a program
    or with a diagnostic: no slice or index is out of range, no [expect] fails
    and no [unreachable!] is reached, and [program_fuel] is enough.  Every
    source text the lexer accepts gives such a list. *)

From S2P Require Import Prelude Text Scalars Diag Lexer Reading Types Literals Syntax ExprParser Grammar Parser.

#[local] Open Scope string_scope.
#[local] Open Scope nat_scope.

(** The computation ends, whatever its result. *)
#[local] Abbreviation ok := (settles (fun _ => True)).

Lemma settles_ok {A} (P : A → Prop) (r : presult A) : settles P r → ok r.
Proof. by apply settles_mono. Qed.

(** Binds whose first part only has to end. *)
Lemma ok_bind {A B} (Q : B → Prop) (m : presult A) (f : A → presult B) :
  ok m → (∀ a, settles Q (f a)) → settles Q (m ≫= f).
Proof. intros Hm Hf. eapply settles_bind; [exact Hm|]. auto. Qed.

(** A bind on a value that is there. *)
Lemma Ok_bind {A B} (Q : B → Prop) (P : A → Prop) (m : presult A) (f : A → presult B) :
  settles P m → (∀ a, m = Ok a → P a → settles Q (f a)) → settles Q (m ≫= f).
Proof. intros Hm Hf. destruct m; cbn in *; try done. by apply Hf. Qed.

(** ** Slices and positions *)

Lemma slice_settles {A} (l : list A) a b : a ≤ b → b ≤ length l → settles (fun r => r = take (b - a) (drop a l)) (slice l a b).
Proof.
  intros H1 H2. unfold slice. apply Nat.leb_le in H1 as ->. apply Nat.leb_le in H2 as ->. done.
Qed.
Lemma slice_ok {A} (l : list A) a b : a ≤ b → b ≤ length l → ok (slice l a b).
Proof. intros. by eapply settles_ok, slice_settles. Qed.
Lemma slice_from_ok {A} (l : list A) a : a ≤ length l → ok (slice_from l a).
Proof. intros. by apply slice_ok. Qed.
Lemma slice_from_settles {A} (l : list A) a : a ≤ length l → settles (fun r => r = drop a l) (slice_from l a).
Proof.
  intros H. unfold slice_from. eapply settles_mono; [|apply slice_settles; [exact H|done]].
  intros r ->. rewrite take_ge; [done|]. rewrite length_drop. lia.
Qed.

Lemma position_of_Some p l i : position_of p l = Some i → ∃ t, l !! i = Some t ∧ p (t_kind t) = true.
Proof.
  revert i. induction l as [|t l IH]; intros i; cbn; [done|]. destruct (p (t_kind t)) eqn:Hp.
  - intros [= <-]. by exists t.
  - destruct (position_of p l) as [j|]; [|done]. intros [= <-]. by apply IH.
Qed.
Lemma position_of_lt p l i : position_of p l = Some i → i < length l.
Proof. intros (t & Ht & _)%position_of_Some. by apply lookup_lt_Some in Ht. Qed.

Lemma get_is_Some p l i : get_is p l i = true ↔ ∃ t, l !! i = Some t ∧ p (t_kind t) = true.
Proof. unfold get_is. destruct (l !! i) as [t|]; naive_solver. Qed.
Lemma get_is_lt p l i : get_is p l i = true → i < length l.
Proof. intros (t & Ht & _)%get_is_Some. by apply lookup_lt_Some in Ht. Qed.

Lemma nth_token_ok l i : i < length l → settles (fun t => l !! i = Some t) (nth_token l i).
Proof. intros [t Ht]%lookup_lt_is_Some_2. unfold nth_token. by rewrite Ht. Qed.

Lemma mapR_ok {A B} (f : A → presult B) l : (∀ x, ok (f x)) → ok (mapR f l).
Proof.
  intros Hf. induction l as [|x l IH]; cbn; [done|]. apply ok_bind; [apply Hf|]. intros y.
  apply ok_bind; [done|]. done.
Qed.

Lemma ok_or_fail_settles {A} here message (o : option A) :
  settles (fun a => o = Some a) (ok_or_fail here message o).
Proof. by destruct o. Qed.

(** ** Lines *)

Section Line.
Variable here : Token.
#[local] Abbreviation fail := (fail here).

Lemma fail_settles {A} (P : A → Prop) message : settles P (fail message).
Proof. done. Qed.

Lemma expression_in_ok l : ok (expression_in here l).
Proof. destruct l; [done|]. apply parse_expression_ends. Qed.
#[local] Hint Resolve expression_in_ok : core.

Lemma dimension_ok allow content span : ok (dimension here allow content span).
Proof.
  unfold dimension. destruct content as [|t [|u l]]; [done| |].
  - destruct (t_kind t); try done; destruct allow; try done; (apply ok_bind; [auto|done]).
  - destruct allow; [|done]. apply ok_bind; [auto|done].
Qed.

Lemma vector_dimensions_ok allow l : ∀ within, ok (vector_dimensions here allow within l).
Proof.
  induction l as [|t l IH]; intros within; cbn [vector_dimensions].
  - by destruct within.
  - destruct within as [[[open depth] content]|]; [|by destruct (is_symbol _ _)].
    destruct (is_symbol LeftBracket _); [done|]. destruct (is_symbol RightBracket _); [|done].
    destruct depth as [|[|depth]]; try done; (apply ok_bind; [apply dimension_ok|]; intros found; apply ok_bind; done).
Qed.

Lemma type_atom_ok allow part : ok (type_atom here allow part).
Proof.
  unfold type_atom. destruct part as [|first rest]; [done|]. apply ok_bind; [|done].
  destruct (one_of _ _); [done|]. apply vector_dimensions_ok.
Qed.

Lemma type_reference_ok l allow : ok (type_reference here l allow).
Proof. unfold type_reference. apply ok_bind; [|done]. apply mapR_ok. intros. apply type_atom_ok. Qed.
#[local] Hint Resolve type_reference_ok : core.

(** *** Signatures *)

Lemma closing_paren_Some n base l i : closing_paren n base l = Some i →
  base ≤ i ∧ ∃ t, l !! (i - base) = Some t ∧ is_symbol RightParen (t_kind t) = true.
Proof.
  revert n base. induction l as [|t l IH]; intros n base; cbn [closing_paren]; [done|].
  assert (∀ n, closing_paren n (S base) l = Some i →
    base ≤ i ∧ ∃ u, (t :: l) !! (i - base) = Some u ∧ is_symbol RightParen (t_kind u) = true) as Hrec.
  { intros m (Hle & u & Hu & Hk)%IH. split; [lia|]. exists u. replace (i - base) with (S (i - S base)) by lia. done. }
  destruct (is_symbol LeftParen _); [apply Hrec|]. destruct (is_symbol RightParen (t_kind t)) eqn:Hp; [|apply Hrec].
  destruct (_ =? _)%Z; [|apply Hrec]. intros [= <-]. split; [done|]. exists t. by rewrite Nat.sub_diag.
Qed.

Lemma type_end_in_lt n l i : type_end_in n l = Some i → i < length l.
Proof.
  revert n i. induction l as [|t l IH]; intros n i; cbn [type_end_in length]; [done|].
  destruct (_ && _); [intros [= <-]; lia|]. set (m := if opens _ then _ else _).
  destruct (type_end_in m l) as [j|] eqn:Hj; [|done]. intros [= <-]. apply IH in Hj. lia.
Qed.

Lemma parameters_loop_ok type_end line close : (∀ l i, type_end l = Some i → i < length l) →
  get_is (is_symbol RightParen) line close = true →
  ∀ fuel index, close - index < fuel → ok (parameters_loop here fuel type_end line close index).
Proof.
  intros Hend Hclose. pose proof (get_is_lt _ _ _ Hclose) as Hlt.
  induction fuel as [|fuel IH]; intros index Hf; [lia|]. cbn [parameters_loop].
  destruct (Nat.ltb_spec index close) as [Hi|]; [|done].
  eapply settles_bind; [apply nth_token_ok; lia|]. intros t Ht. cbn beta in Ht.
  destruct (is_symbol Comma _); [apply IH; lia|]. destruct (t_kind t); try done.
  destruct (get_is (is_keyword "AS") line (S index)) eqn:Has; [|done].
  assert (S (S index) ≤ close) as Hle.
  { destruct (decide (S index = close)) as [He|]; [|lia]. subst close.
    apply get_is_Some in Has as (u & Hu & Hk). apply get_is_Some in Hclose as (u' & Hu' & Hk').
    assert (u = u') as <- by congruence. by destruct (t_kind u). }
  eapply settles_bind; [apply slice_settles; lia|]. intros rest ->.
  set (ends := match type_end _ with Some _ => _ | None => _ end).
  assert (S (S index) ≤ ends ≤ close) as He.
  { unfold ends. destruct (type_end _) eqn:Hte; [|lia]. apply Hend in Hte. rewrite length_take, length_drop in Hte. lia. }
  apply ok_bind; [apply slice_ok; lia|]. intros type_tokens. apply ok_bind; [auto|]. intros type_ref.
  apply ok_bind; [apply IH; lia|]. done.
Qed.

Lemma function_signature_from_ok line : ok (function_signature_from here line).
Proof.
  unfold function_signature_from.
  eapply settles_bind; [apply ok_or_fail_settles|]. intros close Hc. cbn beta in Hc.
  apply closing_paren_Some in Hc as (_ & t & Ht & Hk). rewrite Nat.sub_0_r in Ht.
  eapply settles_bind; [apply ok_or_fail_settles|]. intros as_index Ha. cbn beta in Ha.
  destruct (position_of _ _) as [j|] eqn:Hj; [|done]. injection Ha as <-. apply position_of_lt in Hj. rewrite length_drop in Hj.
  destruct (get_is _ _ _); [done|]. apply ok_bind.
  - apply parameters_loop_ok; [apply type_end_in_lt|apply get_is_Some; eauto|]. apply lookup_lt_Some in Ht. lia.
  - intros parameters. apply ok_bind; [apply slice_from_ok; lia|]. intros tokens. apply ok_bind; [auto|done].
Qed.

Lemma member_function_name_settles line :
  settles (fun _ => ∃ i, position_of (is_keyword "FUNCTION") line = Some i ∧ S i < length line)
    (member_function_name here line).
Proof.
  unfold member_function_name, function_index.
  eapply settles_bind; [apply ok_or_fail_settles|]. intros i Hi. cbn beta in Hi.
  eapply settles_bind; [apply ok_or_fail_settles|]. intros t Ht. cbn beta in Ht.
  assert (∃ i, position_of (is_keyword "FUNCTION") line = Some i ∧ S i < length line) as H.
  { exists i. split; [done|]. by apply lookup_lt_Some in Ht. }
  destruct (t_kind t) as [| | | |word| | | |]; try done. by destruct (one_of SPECIAL_MEMBERS word).
Qed.

Lemma member_function_signature_ok line i : position_of (is_keyword "FUNCTION") line = Some i → S i < length line →
  ok (member_function_signature here line).
Proof.
  intros Hi Hl. unfold member_function_signature, function_index. rewrite Hi. cbn.
  destruct (get_is _ _ _); [done|]. apply ok_bind; [apply slice_from_ok; lia|]. intros h.
  apply ok_bind; [apply function_signature_from_ok|]. done.
Qed.

Lemma member_function_parameters_ok line i : position_of (is_keyword "FUNCTION") line = Some i → S i < length line →
  ok (member_function_parameters here line).
Proof.
  intros Hi Hl. unfold member_function_parameters, function_index. rewrite Hi. cbn [ok_or_fail ok_or mbind res_bind].
  apply ok_bind; [apply slice_from_ok; lia|]. intros header.
  eapply settles_bind; [apply ok_or_fail_settles|]. intros close Hc. cbn beta in Hc.
  apply parameters_loop_ok; [apply position_of_lt|apply get_is_Some; by apply position_of_Some in Hc|].
  apply position_of_lt in Hc. lia.
Qed.

Lemma override_modifier_ok line : ok (override_modifier here line).
Proof. unfold override_modifier. destruct (position_of _ _); [|done]. by destruct (get_is _ _ _). Qed.

Lemma base_class_ok line : ok (base_class here line).
Proof.
  unfold base_class. destruct (position_of (is_keyword "EXTENDS") line) as [i|] eqn:Hi; [|done]. apply position_of_lt in Hi.
  eapply settles_bind; [apply slice_from_settles; lia|]. intros rest ->.
  set (ends := match _ with Some _ => _ | None => _ end).
  assert (S i ≤ ends ≤ length line) as He.
  { unfold ends. destruct (position_of _ _) eqn:Hp; [|lia]. apply position_of_lt in Hp. rewrite length_drop in Hp. lia. }
  destruct (_ =? _); [done|]. apply ok_bind; [apply slice_ok; lia|]. intros l. apply ok_bind; [auto|done].
Qed.

Lemma interface_parts_settles line : ∀ fuel name i, length line - i < fuel → i ≤ length line →
  settles (fun r => i ≤ r.2 ≤ length line) (interface_parts here fuel line name i).
Proof.
  induction fuel as [|fuel IH]; intros name i Hf Hi; [lia|]. cbn [interface_parts].
  destruct (get_is _ _ _) eqn:Hd; [|cbn; lia]. apply get_is_lt in Hd.
  destruct (line !! S i) as [[[] ?]|] eqn:Hn; try done. apply lookup_lt_Some in Hn.
  eapply settles_mono; [|apply IH; lia]. intros [? ?]. cbn. lia.
Qed.

Lemma interfaces_loop_ok line : ∀ fuel i, length line - i < fuel → ok (interfaces_loop here fuel line i).
Proof.
  induction fuel as [|fuel IH]; intros i Hf; [lia|]. cbn [interfaces_loop].
  destruct (Nat.ltb_spec i (length line)) as [Hi|]; [|done].
  eapply settles_bind; [by apply nth_token_ok|]. intros t _. destruct (t_kind t); try done.
  eapply settles_bind; [apply interface_parts_settles; lia|]. intros [name j] Hj. cbn in Hj.
  destruct (Nat.eqb_spec j (length line)) as [|Hn]; [done|].
  eapply settles_bind; [apply nth_token_ok; lia|]. intros u _. destruct (is_symbol _ _); [|done].
  apply ok_bind; [apply IH; lia|]. done.
Qed.

Lemma implemented_interfaces_ok line : ok (implemented_interfaces here line).
Proof.
  unfold implemented_interfaces. destruct (position_of _ _) as [i|]; [|done].
  apply ok_bind; [apply interfaces_loop_ok; lia|]. by intros [|].
Qed.
End Line.
#[local] Hint Resolve expression_in_ok type_reference_ok : core.

(** ** Statements *)

Section Statements.
Variable here : Token.

Lemma expression_list_ok l : ok (expression_list here l).
Proof. unfold expression_list. destruct l; [done|]. apply mapR_ok. auto. Qed.

Lemma assignment_operator_lt n l i : assignment_operator n l = Some i → i < length l.
Proof.
  revert n i. induction l as [|t l IH]; intros n i; cbn [assignment_operator length]; [done|].
  destruct (_ && _); [intros [= <-]; lia|]. set (m := if opens _ then _ else _).
  destruct (assignment_operator m l) as [j|] eqn:Hj; [|done]. intros [= <-]. apply IH in Hj. lia.
Qed.

Lemma destructuring_binding_ok l : ok (destructuring_binding here l).
Proof.
  unfold destructuring_binding. destruct l as [|[[] ?] l]; try done. apply ok_bind; [|done].
  destruct (get_is _ _ _) eqn:Ha; [|by destruct (_ =? _)]. apply get_is_lt in Ha.
  destruct (_ =? _); [done|]. apply ok_bind; [apply slice_from_ok; lia|]. intros ?. apply ok_bind; [auto|done].
Qed.

Lemma closing_bracket_lt n base l i : closing_bracket n base l = Some i → base ≤ i < base + length l.
Proof.
  revert n base. induction l as [|t l IH]; intros n base; cbn [closing_bracket length]; [done|].
  assert (∀ n, closing_bracket n (S base) l = Some i → base ≤ i < base + S (length l)) as Hrec.
  { intros m H%IH. lia. }
  destruct (opens _); [apply Hrec|]. destruct (closes _); [|apply Hrec].
  destruct (_ =? _)%Z; [intros [= <-]; lia|apply Hrec].
Qed.

Lemma destructuring_let_ok line span : 2 ≤ length line → ok (destructuring_let here line span).
Proof.
  intros Hl. unfold destructuring_let. destruct (closing_bracket _ _ _) as [close|] eqn:Hc; [|done].
  apply closing_bracket_lt in Hc. rewrite length_drop in Hc. destruct (get_is _ _ _) eqn:Ha; [|done]. apply get_is_lt in Ha.
  apply ok_bind; [apply slice_from_ok; lia|]. intros tokens. apply ok_bind; [auto|]. intros source.
  apply ok_bind; [apply slice_ok; lia|]. intros [|t interior]; [done|].
  apply ok_bind; [apply mapR_ok; intros; apply destructuring_binding_ok|]. done.
Qed.

Lemma increment_statement_ok line span : ok (increment_statement here line span).
Proof.
  unfold increment_statement. apply ok_bind.
  - unfold bare_increment. destruct (list.last line) as [last|]; [|done]. destruct line as [|first rest]; [done|].
    destruct (_ && _) eqn:H.
    + apply ok_bind; [apply slice_ok; cbn; lia|done].
    + case_match; done.
  - intros [[tokens operator]|]; [|done]. pose proof (expression_in_ok here tokens) as H.
    destruct (expression_in here tokens); try done. by destruct (is_target _).
Qed.

Lemma initializer_of_ok line : ok (initializer_of here line).
Proof.
  unfold initializer_of. destruct (position_of _ _) as [i|] eqn:Hi; [|done]. apply position_of_lt in Hi.
  apply ok_bind; [apply slice_from_ok; lia|]. intros ?. apply ok_bind; [auto|done].
Qed.

Lemma field_binding_ok line start name span : start + 2 ≤ length line → ok (field_binding here line start name span).
Proof.
  intros Hl. unfold field_binding. apply ok_bind; [apply slice_from_ok; lia|]. intros ?.
  apply ok_bind; [auto|]. intros ?. destruct (void_vector _); [done|].
  apply ok_bind; [apply initializer_of_ok|]. intros ?. apply ok_bind; [apply slice_ok; lia|done].
Qed.

Lemma inferred_constant_type_ok e : ok (inferred_constant_type e).
Proof. unfold inferred_constant_type. destruct (e_kind e) as [[]| | | | | | | | | | | | | | | |]; done. Qed.

Lemma inferred_const_ok line span : ok (inferred_const here line span).
Proof.
  unfold inferred_const. eapply settles_bind; [apply ok_or_fail_settles|]. intros assign Ha. cbn beta in Ha.
  destruct (negb _ || _) eqn:Hc; [done|]. apply orb_false_iff in Hc as [H1 H2].
  apply negb_false_iff, Nat.eqb_eq in H1. apply Nat.leb_gt in H2.
  eapply settles_bind; [apply nth_token_ok; lia|]. intros t _. destruct (t_kind t); try done.
  apply ok_bind; [apply slice_from_ok; lia|]. intros ?. apply ok_bind; [auto|]. intros ?.
  apply ok_bind; [apply inferred_constant_type_ok|done].
Qed.

Lemma typed_binding_ok line constant i span : 1 ≤ i < length line → ok (typed_binding here line constant i span).
Proof.
  intros Hi. unfold typed_binding. apply ok_bind; [apply slice_ok; lia|]. intros names.
  apply ok_bind; [apply mapR_ok; intros part; unfold binding_name; by destruct part as [|[[] ?] [|]]|].
  intros [|[name ?] additional]; [done|]. destruct (_ && _); [done|].
  apply ok_bind; [apply slice_from_ok; lia|]. intros types. apply ok_bind; [auto|]. intros type_ref.
  destruct (void_vector _); [done|]. apply ok_bind.
  - destruct (position_of _ _) as [j|] eqn:Hj; [|done]. apply position_of_lt in Hj.
    apply ok_bind; [apply slice_from_ok; lia|]. intros ?. apply expression_list_ok.
  - intros initializers. destruct (_ && _); [done|]. destruct (_ && _); [done|]. by destruct (_ && _).
Qed.

Lemma input_statement_ok line span : ok (input_statement here line span).
Proof.
  unfold input_statement. apply ok_bind.
  - destruct (position_of _ _) as [comma|] eqn:Hc.
    + apply position_of_lt in Hc. destruct (_ || _) eqn:Hb; [done|]. apply orb_false_iff in Hb as [H1 H2].
      apply Nat.leb_gt in H1, H2. apply ok_bind; [apply slice_ok; lia|]. intros ?. apply ok_bind; [auto|]. intros ?.
      apply ok_bind; [apply slice_from_ok; lia|done].
    + destruct (negb _) eqn:Hn; [done|]. apply negb_false_iff, Nat.eqb_eq in Hn.
      apply ok_bind; [apply slice_from_ok; lia|done].
  - intros [prompt target]. apply ok_bind; [auto|]. intros e. by destruct (is_target _).
Qed.

Lemma rest_expression_ok line : 1 ≤ length line → ok (rest_expression here line).
Proof. intros H. unfold rest_expression. apply ok_bind; [by apply slice_from_ok|]. auto. Qed.

Lemma control_statement_ok line span : ok (control_statement here line span).
Proof. unfold control_statement. destruct line as [|? [|t [|]]]; try done. by destruct (is_keyword_of _ _). Qed.

Lemma assignment_statement_ok line i span : i < length line → ok (assignment_statement here line i span).
Proof.
  intros Hi. unfold assignment_statement. destruct (_ || _); [done|].
  apply ok_bind; [apply slice_ok; lia|]. intros ?. apply ok_bind; [auto|]. intros target.
  destruct (is_target _); [|done]. eapply settles_bind; [by apply nth_token_ok|]. intros t _.
  apply ok_bind; [apply slice_from_ok; lia|]. intros ?. apply ok_bind; [auto|done].
Qed.

Lemma simple_statement_ok line span : 1 ≤ length line → ok (simple_statement here line span).
Proof.
  intros Hl. unfold simple_statement.
  destruct (keyword_here here "RETURN").
  { destruct (_ =? _); [done|]. apply ok_bind; [by apply rest_expression_ok|done]. }
  destruct (keyword_here here "INPUT"); [apply input_statement_ok|].
  destruct (keyword_here here "PRINT").
  { apply ok_bind; [apply slice_from_ok; lia|]. intros ?. apply ok_bind; [apply expression_list_ok|done]. }
  destruct (keyword_here here "RELEASE").
  { destruct (_ =? _); [done|]. apply ok_bind; [by apply rest_expression_ok|done]. }
  destruct (keyword_here here "STOP").
  { destruct (_ =? _); [done|]. apply ok_bind; [by apply rest_expression_ok|done]. }
  destruct (get_is _ _ _); [apply control_statement_ok|].
  destruct (assignment_operator 0 line) as [i|] eqn:Hi.
  - apply assignment_statement_ok. by apply assignment_operator_lt in Hi.
  - apply ok_bind; [auto|]. intros e. by destruct (e_kind e).
Qed.
End Statements.

Lemma keyword_position word t l i : position_of (is_keyword word) (t :: l) = Some i → is_keyword word (t_kind t) = false → 1 ≤ i.
Proof. cbn. intros H Hk. rewrite Hk in H. destruct (position_of _ l); [|done]. injection H as <-. lia. Qed.

(** The cursor stands on the first token of the line. *)
Lemma statement_node_ok here line : (∀ t, head line = Some t → t = here) → ok (statement_node here line).
Proof.
  intros Hhere. destruct line as [|first rest]; [done|]. pose proof (Hhere first eq_refl) as ->.
  cbn [statement_node]. set (span := mkSpan _ _). apply ok_bind; [apply increment_statement_ok|]. intros [statement|]; [done|].
  assert (ok (if keyword_here here "LET" && get_is (is_symbol LeftBracket) (here :: rest) 1
              then destructuring_let here (here :: rest) span
              else if keyword_here here "LET" || keyword_here here "CONST" then
                match position_of (is_keyword "AS") (here :: rest) with
                | None =>
                    if keyword_here here "CONST" then inferred_const here (here :: rest) span
                    else fail here "a binding declaration requires AS TYPE"
                | Some as_index => typed_binding here (here :: rest) (keyword_here here "CONST") as_index span
                end
              else simple_statement here (here :: rest) span)) as Hrest.
  { destruct (_ && _) eqn:Hd.
    { apply andb_prop in Hd as [_ Hd]. apply get_is_lt in Hd. by apply destructuring_let_ok. }
    destruct (_ || _) eqn:Hlet; [|by apply simple_statement_ok; cbn; lia].
    destruct (position_of _ _) as [i|] eqn:Hi; [|by destruct (keyword_here here "CONST"); [apply inferred_const_ok|]].
    apply typed_binding_ok. split; [|by apply position_of_lt in Hi].
    apply (keyword_position _ _ _ _ Hi). unfold keyword_here in Hlet. destruct (t_kind here); try done. cbn in *.
    destruct (String.eqb_spec word "AS") as [->|]; [done|done]. }
  destruct ((here :: rest) !! _) as [[[] ?]|]; try exact Hrest.
  destruct (get_is (is_keyword "AS") _ _) eqn:Ha; [|exact Hrest].
  apply get_is_lt in Ha. apply field_binding_ok. lia.
Qed.

Lemma inline_simple_statement_ok here l : ok (inline_simple_statement here l).
Proof.
  unfold inline_simple_statement. destruct l as [|first l]; [done|]. destruct (is_keyword_of _ _); [done|].
  apply statement_node_ok. by intros t [= ->].
Qed.

Section Headers.
Variable here : Token.

Lemma variable_of_ok t : ok (variable_of here t).
Proof. unfold variable_of. by destruct (t_kind t). Qed.

Lemma for_header_ok line : ok (for_header here line).
Proof.
  unfold for_header. destruct (get_is (is_keyword "EACH") _ _).
  - unfold each_header. eapply settles_bind; [apply ok_or_fail_settles|]. intros t _.
    apply ok_bind; [apply variable_of_ok|]. intros [variable span].
    eapply settles_bind; [apply ok_or_fail_settles|]. intros i Hi. cbn beta in Hi. apply position_of_lt in Hi.
    apply ok_bind.
    + destruct (get_is _ _ _); [|by destruct (_ =? _)]. destruct (Nat.leb_spec i 4); [done|].
      apply ok_bind; [apply slice_ok; lia|]. intros ?. apply ok_bind; [auto|done].
    + intros type_ref. apply ok_bind; [apply slice_from_ok; lia|]. intros ?. apply ok_bind; [auto|done].
  - unfold counted_header. eapply settles_bind; [apply ok_or_fail_settles|]. intros t _.
    apply ok_bind; [apply variable_of_ok|]. intros [variable span].
    eapply settles_bind; [apply ok_or_fail_settles|]. intros equal He. cbn beta in He. apply position_of_lt in He.
    eapply settles_bind; [apply ok_or_fail_settles|]. intros to Ht. cbn beta in Ht. apply position_of_lt in Ht.
    apply ok_bind.
    + destruct (get_is _ _ _); [|by destruct (_ =? _)]. destruct (Nat.leb_spec equal 3); [done|].
      apply ok_bind; [apply slice_ok; lia|]. intros ?. apply ok_bind; [auto|done].
    + intros type_ref. destruct (_ || _) eqn:Hc; [done|]. apply orb_false_iff in Hc as [H1 H2]. apply Nat.leb_gt in H1.
      apply ok_bind; [apply slice_ok; lia|]. intros ?. apply ok_bind; [auto|]. intros start.
      destruct (position_of (is_keyword "STEP") line) as [step|] eqn:Hs; cbn [default].
      * apply Nat.leb_gt in H2. apply position_of_lt in Hs. unfold id.
        apply ok_bind; [apply slice_ok; lia|]. intros ?. apply ok_bind; [auto|]. intros ends.
        apply ok_bind; [|done]. apply ok_bind; [apply slice_from_ok; lia|]. intros ?. apply ok_bind; [auto|done].
      * apply ok_bind; [apply slice_ok; lia|]. intros ?. apply ok_bind; [auto|]. intros ends. done.
Qed.
End Headers.

(** ** Blocks *)

Section Program.
Variables (tokens : list Token) (final : Token).
Hypothesis ends_in_eof : list.last tokens = Some final ∧ t_kind final = TkEof.
#[local] Abbreviation size := (length tokens).
#[local] Abbreviation keyword_at := (keyword_at tokens final).
#[local] Abbreviation kind_at := (kind_at tokens final).

(** The cursor on a token that is not [EOF] is not past the end. *)
Lemma not_eof_lt i : kind_at i ≠ TkEof → i < size.
Proof.
  unfold kind_at, token_at. destruct (tokens !! i) as [t|] eqn:Ht; [by apply lookup_lt_Some in Ht|].
  by destruct ends_in_eof as [_ ->].
Qed.
Lemma keyword_lt word i : keyword_at word i = true → i < size.
Proof. unfold keyword_at. intros H. apply not_eof_lt. by destruct (kind_at i). Qed.
Lemma symbol_lt s i : is_symbol s (kind_at i) = true → i < size.
Proof. intros H. apply not_eof_lt. by destruct (kind_at i). Qed.

(** What a function that reads from [i] on leaves behind. *)
Definition after (i j : nat) : Prop := i < j ∧ j ≤ size.
Definition from (i j : nat) : Prop := i ≤ j ∧ j ≤ size.

Lemma newline_settles i : settles (fun r : Position * nat => r.2 = S i ∧ i < size) (newline tokens final i).
Proof.
  unfold newline, newline_at. destruct (kind_at i) eqn:Hk; try done. split; [done|]. apply not_eof_lt. by rewrite Hk.
Qed.

Lemma newlines_settles : ∀ fuel i, size - i < fuel → i ≤ size → settles (from i) (newlines tokens final fuel i).
Proof.
  unfold from. induction fuel as [|fuel IH]; intros i Hf Hi; [lia|]. cbn [newlines]. unfold newline_at.
  destruct (kind_at i) eqn:Hk; try (cbn; lia). assert (i < size) by (apply not_eof_lt; by rewrite Hk).
  eapply settles_mono; [|apply IH; lia]. cbn. lia.
Qed.

Lemma consume_settles : ∀ fuel i, size - i < fuel → i ≤ size → settles (after i) (consume_to_newline tokens final fuel i).
Proof.
  unfold after. induction fuel as [|fuel IH]; intros i Hf Hi; [lia|]. cbn [consume_to_newline].
  destruct (newline_at _ _ _ || eof_at _ _ _) eqn:Hn.
  - eapply settles_bind; [apply newline_settles|]. intros [p j]. cbn. lia.
  - assert (i < size). { apply not_eof_lt. apply orb_false_iff in Hn as [_ Hn]. unfold eof_at in Hn. by destruct (kind_at i). }
    eapply settles_mono; [|apply IH; lia]. cbn. lia.
Qed.
Lemma consume_line i : i ≤ size → settles (after i) (consume_to_newline tokens final (scan_fuel tokens) i).
Proof. intros. apply consume_settles; unfold scan_fuel; lia. Qed.

Lemma position_of_first p l t : head l = Some t → p (t_kind t) = false → position_of p l ≠ Some 0.
Proof. destruct l as [|u l]; [done|]. cbn. intros [= ->] ->. by destruct (position_of p l). Qed.

(** The line at the cursor: it starts there, and stays within the tokens. *)
Record is_line (i : nat) (line : list Token) : Prop := mkIsLine {
  is_line_head t : head line = Some t → t = token_at tokens final i;
  is_line_nonempty : ends_line (kind_at i) = false → i < size → 1 ≤ length line;
  is_line_within : i + length line ≤ size;
}.

Lemma line_tokens_settles i : i ≤ size → settles (is_line i) (line_tokens tokens i).
Proof.
  intros Hi. unfold line_tokens. eapply settles_bind; [by apply slice_from_settles|]. intros rest ->.
  set (n := default 0 _).
  assert (n ≤ length (drop i tokens)) as Hn.
  { unfold n. destruct (position_of _ _) eqn:Hp; cbn; [apply position_of_lt in Hp; unfold id; lia|lia]. }
  rewrite length_drop in Hn. eapply settles_mono; [|apply slice_settles; lia].
  intros line ->. replace (i + n - i) with n by lia. split.
  - intros t Ht. unfold token_at. destruct n as [|n']; [done|].
    assert (tokens !! i = Some t) as ->; [|done]. rewrite <- (Nat.add_0_r i), <- lookup_drop.
    destruct (drop i tokens); [done|exact Ht].
  - intros He Hlt. rewrite length_take, length_drop. destruct n as [|n'] eqn:Hz; [|lia]. exfalso.
    unfold n in Hz. destruct (position_of ends_line (drop i tokens)) as [j|] eqn:Hp.
    + cbn in Hz. unfold id in Hz. subst j. destruct (drop i tokens) as [|t l] eqn:Hd; [done|].
      assert (tokens !! i = Some t) as Ht by (rewrite <- (Nat.add_0_r i), <- lookup_drop, Hd; done).
      unfold kind_at, token_at in He. rewrite Ht in He. cbn in Hp. rewrite He in Hp. by destruct (position_of _ _).
    + destruct ends_in_eof as [Hlast Hk]. apply list.last_Some in Hlast as [l Hl].
      assert (final ∈ drop i tokens) as Hin.
      { rewrite Hl in Hlt |- *. rewrite length_app in Hlt. cbn in Hlt. rewrite drop_app_le by lia.
        apply elem_of_app. right. by left. }
      clear -Hp Hin Hk. induction (drop i tokens) as [|t l' IH]; [by apply elem_of_nil in Hin|].
      cbn in Hp. destruct (ends_line (t_kind t)) eqn:Ht; [done|].
      apply elem_of_cons in Hin as [->|Hin]; [by rewrite Hk in Ht|]. apply IH; [by destruct (position_of _ l')|done].
  - rewrite length_take, length_drop. lia.
Qed.

Lemma keyword_line word i line : keyword_at word i = true → is_line i line → 1 ≤ length line.
Proof.
  intros Hk Hl. apply (is_line_nonempty i line Hl); [|by eapply keyword_lt]. unfold keyword_at in Hk. by destruct (kind_at i).
Qed.

Lemma previous_ok i : i < size → ok (previous tokens (S i)).
Proof. intros [t Ht]%lookup_lt_is_Some_2. unfold previous. by rewrite Ht. Qed.

Lemma identifier_name_settles i : settles (fun r : string * nat => r.2 = S i ∧ i < size) (identifier_name tokens final i).
Proof.
  unfold identifier_name. destruct (kind_at i) eqn:Hk; try done. split; [done|]. apply not_eof_lt. by rewrite Hk.
Qed.
Lemma expect_keyword_settles word i : settles (fun j => j = S i ∧ i < size) (expect_keyword tokens final word i).
Proof. unfold expect_keyword. destruct (keyword_at word i) eqn:Hk; [|done]. split; [done|]. by eapply keyword_lt. Qed.
Lemma expect_punctuation_settles s i : settles (fun j => j = S i ∧ i < size) (expect_punctuation tokens final s i).
Proof. unfold expect_punctuation. destruct (is_symbol _ _) eqn:Hk; [|done]. split; [done|]. by eapply symbol_lt. Qed.
Lemma end_word_settles i : settles (fun r : string * nat => r.2 = S i ∧ i < size) (end_word tokens final i).
Proof.
  unfold end_word. destruct (kind_at i) eqn:Hk; try done. destruct (one_of _ _); [|done]. split; [done|].
  apply not_eof_lt. by rewrite Hk.
Qed.

(** *** Lines that leave the cursor after them *)

Lemma interface_function_settles i : i < size →
  settles (fun r : Statement * nat => after i r.2) (interface_function tokens final i).
Proof.
  intros Hi. unfold interface_function. eapply settles_bind; [apply line_tokens_settles; lia|]. intros line Hl.
  eapply settles_bind; [apply member_function_name_settles|]. intros name (j & Hj & Hlen).
  destruct (member_modifiers line) as [visibility is_static].
  apply ok_bind; [apply override_modifier_ok|]. intros [|]; [done|].
  apply ok_bind; [by eapply member_function_parameters_ok|]. intros ps.
  apply ok_bind; [by eapply member_function_signature_ok|]. intros signature.
  eapply settles_bind; [apply consume_line; lia|]. intros k [Hk1 Hk2].
  destruct k as [|k]; [lia|]. apply ok_bind; [apply previous_ok; lia|]. intros t. unfold after. cbn. lia.
Qed.

Lemma until_condition_settles i : keyword_at "UNTIL" i = true →
  settles (fun r : Expression * nat => after i r.2) (until_condition tokens final i).
Proof.
  intros Hu. pose proof (keyword_lt _ _ Hu) as Hi. unfold until_condition.
  eapply settles_bind; [apply line_tokens_settles; lia|]. intros line Hl. pose proof (keyword_line _ _ _ Hu Hl) as Hn.
  destruct (_ =? _); [done|]. apply ok_bind; [by apply slice_from_ok|]. intros ?. apply ok_bind; [auto|]. intros e.
  eapply settles_bind; [apply consume_line; lia|]. intros j Hj. exact Hj.
Qed.

Lemma end_of_block_settles outer i : settles (fun r : Position * nat => after i r.2) (end_of_block tokens final outer i).
Proof.
  unfold end_of_block. eapply settles_bind; [apply end_word_settles|]. intros [word j] [Hj Hi]. cbn in Hj. subst j.
  apply ok_bind; [by apply previous_ok|]. intros last. destruct (negb _); [done|].
  eapply settles_bind; [apply newline_settles|]. intros [p j] [Hj Hlt]. cbn in Hj. subst j. unfold after. cbn. lia.
Qed.

Lemma inline_if_settles i line then_ condition : i < size → S then_ < length line →
  settles (fun r : Statement * nat => after i r.2) (inline_if tokens final line then_ condition i).
Proof.
  intros Hi Ht. unfold inline_if. eapply settles_bind; [apply slice_from_settles; lia|]. intros rest ->.
  set (e := _ <$> position_of _ _).
  assert (∀ j, e = Some j → S then_ ≤ j < length line) as He.
  { intros j. unfold e. destruct (position_of _ _) eqn:Hp; [|done]. intros [= <-]. apply position_of_lt in Hp.
    rewrite length_drop in Hp. lia. }
  apply ok_bind.
  { apply slice_ok; destruct e as [j|]; cbn; unfold id; try (destruct (He j eq_refl)); lia. }
  intros true_tokens. apply ok_bind; [apply inline_simple_statement_ok|]. intros true_statement.
  apply ok_bind.
  { destruct (list.last line) eqn:Hlast; [done|]. apply list.last_None in Hlast. subst line. cbn in Ht. lia. }
  intros last. apply ok_bind.
  { destruct e as [j|]; [|done]. destruct (He j eq_refl). apply ok_bind; [apply slice_from_ok; lia|]. intros ?.
    apply ok_bind; [apply inline_simple_statement_ok|done]. }
  intros otherwise. eapply settles_bind; [apply consume_line; lia|]. intros j [H1 H2]. unfold after. cbn. lia.
Qed.
(** *** The mutually recursive functions *)

#[local] Abbreviation block_until := (block_until tokens final).
#[local] Abbreviation block := (block tokens final).
#[local] Abbreviation class_method := (class_method tokens final).
#[local] Abbreviation loop_statement := (loop_statement tokens final).
#[local] Abbreviation if_statement := (if_statement tokens final).
#[local] Abbreviation else_branches := (else_branches tokens final).

(** How a block can end: at an [ELSE] only where the caller waits for one, at
    an [UNTIL] only in a [REPEAT]. *)
Definition ends_as (outer : string) (stop : bool) (term : BlockTerm) (i : nat) : Prop :=
  match term with
  | BtEnd _ => True
  | BtElse => stop = true ∧ keyword_at "ELSE" i = true
  | BtUntil _ => outer = "REPEAT"
  end.
Definition block_ends (outer : string) (stop : bool) (i : nat) (r : BlockTerm * list Statement * nat) : Prop :=
  from i r.2 ∧ ends_as outer stop r.1.1 r.2.
Definition statement_ends (i : nat) (r : Statement * nat) : Prop := after i r.2.

(** What each function needs of its fuel, and what it leaves. *)
Record blocks (fuel : nat) : Prop := mkBlocks {
  blocks_until outer stop i : i ≤ size → 4 * (size - i) + 1 ≤ fuel →
    settles (block_ends outer stop i) (block_until fuel outer stop i);
  blocks_block outer i : i ≤ size → outer ≠ "REPEAT" → 4 * (size - i) + 2 ≤ fuel →
    settles (fun r : Position * list Statement * nat => from i r.2) (block fuel outer i);
  blocks_method i : i < size → 4 * (size - i) - 1 ≤ fuel →
    settles (statement_ends i) (class_method fuel i);
  blocks_loop kind i : keyword_at kind i = true → kind ∈ ["WHILE"; "REPEAT"; "FOR"] → 4 * (size - i) - 1 ≤ fuel →
    settles (statement_ends i) (loop_statement fuel kind i);
  blocks_if i : keyword_at "IF" i = true → 4 * (size - i) - 1 ≤ fuel →
    settles (statement_ends i) (if_statement fuel i);
  blocks_else term otherwise i : i ≤ size → ends_as "IF" true term i → 4 * (size - i) + 1 ≤ fuel →
    settles (fun r : BlockTerm * list (Expression * list Statement) * option (list Statement) * nat =>
               from i r.2 ∧ ∃ position, r.1.1.1 = BtEnd position) (else_branches fuel term otherwise i);
}.

Section Step.
Variable fuel : nat.
Hypothesis IH : blocks fuel.

Lemma block_until_step outer stop i : i ≤ size → 4 * (size - i) + 1 ≤ S fuel →
  settles (block_ends outer stop i) (block_until (S fuel) outer stop i).
Proof.
  intros Hi Hf. cbn [Parser.block_until].
  destruct (eof_at _ _ _) eqn:Heof; [done|].
  assert (i < size) as Hlt. { apply not_eof_lt. unfold eof_at in Heof. by destruct (kind_at i). }
  assert (∀ s j, after i j → settles (block_ends outer stop i)
            ('(term, statements, i) ← block_until fuel outer stop j; Ok (term, s :: statements, i))) as Hpush.
  { intros s j [H1 H2]. eapply settles_bind; [apply (blocks_until _ IH); lia|].
    intros [[term l] k] [[H3 H4] H5]. split; [|exact H5]. unfold from. cbn in *. lia. }
  assert (∀ m, settles (statement_ends i) m → settles (block_ends outer stop i)
            ('(s, j) ← m; '(term, statements, i) ← block_until fuel outer stop j; Ok (term, s :: statements, i))) as Hstep.
  { intros m Hm. eapply settles_bind; [exact Hm|]. intros [s j] Hj. by apply Hpush. }
  destruct (newline_at _ _ _) eqn:Hnl.
  { eapply settles_mono; [|apply (blocks_until _ IH); lia]. intros r [[H1 H2] H3]. split; [|exact H3]. unfold from. lia. }
  destruct (stop && _) eqn:Helse.
  { apply andb_prop in Helse. repeat split; try apply Helse; cbn; lia. }
  destruct (String.eqb outer "REPEAT" && _) eqn:Huntil.
  { apply andb_prop in Huntil as [->%String.eqb_eq Hu].
    eapply settles_bind; [by apply until_condition_settles|]. intros [c j] [H1 H2]. split; [|done]. split; cbn in *; lia. }
  destruct (keyword_at "END" i).
  { eapply settles_bind; [apply end_of_block_settles|]. intros [p j] [H1 H2]. split; [|done]. split; cbn in *; lia. }
  destruct (keyword_at "WHILE" i) eqn:Hw; [apply Hstep, (blocks_loop _ IH); [done|set_solver|lia]|].
  destruct (keyword_at "IF" i) eqn:Hif; [apply Hstep, (blocks_if _ IH); [done|lia]|].
  destruct (keyword_at "REPEAT" i) eqn:Hr; [apply Hstep, (blocks_loop _ IH); [done|set_solver|lia]|].
  destruct (keyword_at "FOR" i) eqn:Hfor; [apply Hstep, (blocks_loop _ IH); [done|set_solver|lia]|].
  destruct (_ && function_member_start _ _); [apply Hstep, (blocks_method _ IH); lia|].
  destruct (String.eqb outer "INTERFACE" && _); [by apply Hstep, interface_function_settles|].
  eapply settles_bind; [by apply line_tokens_settles|]. intros line Hl.
  apply ok_bind; [apply statement_node_ok; intros t; apply (is_line_head _ _ Hl)|]. intros s.
  eapply settles_bind; [by apply consume_line|]. intros j. apply Hpush.
Qed.

Lemma method_step i : i < size → 4 * (size - i) - 1 ≤ S fuel →
  settles (statement_ends i) (class_method (S fuel) i).
Proof.
  intros Hi Hf. cbn [Parser.class_method]. eapply settles_bind; [apply line_tokens_settles; lia|]. intros line Hl.
  eapply settles_bind; [apply member_function_name_settles|]. intros name (j & Hj & Hlen).
  destruct (member_modifiers line) as [visibility is_static].
  apply ok_bind; [apply override_modifier_ok|]. intros is_override.
  apply ok_bind; [by eapply member_function_parameters_ok|]. intros ps.
  apply ok_bind; [by eapply member_function_signature_ok|]. intros signature.
  eapply settles_bind; [apply consume_line; lia|]. intros k [Hk1 Hk2].
  eapply settles_bind; [apply (blocks_block _ IH); [lia|done|lia]|]. intros [[e body] m] [H1 H2].
  split; cbn in *; lia.
Qed.

(** [REPEAT]: the body ends at its [UNTIL]. *)
Lemma repeat_body i : i ≤ size → 4 * (size - i) + 1 ≤ fuel →
  settles (fun r : Position * option Expression * list Statement * nat => from i r.2 ∧ is_Some r.1.1.2)
    ('(term, body, i) ← block_until fuel "REPEAT" false i;
     match term with
     | BtUntil repeat =>
         i ← expect_keyword tokens final "END" i;
         '(word, i) ← end_word tokens final i;
         if negb (String.eqb word "REPEAT") then fail_at tokens final "expected END REPEAT" i
         else
           last ← previous tokens i;
           '(_, i) ← newline tokens final i;
           Ok (span_end (t_span last), Some repeat, body, i)
     | _ => fail_at tokens final "expected UNTIL before END REPEAT" i
     end).
Proof.
  intros Hi Hf. eapply settles_bind; [apply (blocks_until _ IH); lia|]. intros [[term body] j] [[H1 H2] _].
  destruct term; [done|done|]. cbn in H1, H2.
  eapply settles_bind; [apply expect_keyword_settles|]. intros k [-> Hk].
  eapply settles_bind; [apply end_word_settles|]. intros [word m] [Hm Hm']. cbn in Hm. subst m.
  destruct (negb _); [done|]. apply ok_bind; [by apply previous_ok|]. intros last.
  eapply settles_bind; [apply newline_settles|]. intros [p q] [Hq Hq']. cbn in Hq. subst q.
  split; [split; cbn; lia|by eexists].
Qed.

Lemma loop_step kind i : keyword_at kind i = true → kind ∈ ["WHILE"; "REPEAT"; "FOR"] → 4 * (size - i) - 1 ≤ S fuel →
  settles (statement_ends i) (loop_statement (S fuel) kind i).
Proof.
  intros Hk Hin Hf. pose proof (keyword_lt _ _ Hk) as Hi. cbn [Parser.loop_statement].
  eapply settles_bind; [apply line_tokens_settles; lia|]. intros line Hl. pose proof (keyword_line _ _ _ Hk Hl) as Hn.
  eapply (settles_bind (fun c => kind = "WHILE" → is_Some c)).
  { destruct (String.eqb_spec kind "WHILE") as [He|]; [|by cbn; intros]. apply ok_bind; [by apply slice_from_ok|]. intros ?.
    apply ok_bind; [auto|]. intros v. cbn. by eexists. }
  intros condition Hc. eapply (settles_bind (fun h => kind = "FOR" → is_Some h)).
  { destruct (String.eqb_spec kind "FOR") as [He|]; [|by cbn; intros]. apply ok_bind; [apply for_header_ok|]. intros v. cbn. by eexists. }
  intros header Hh. eapply settles_bind; [apply consume_line; lia|]. intros j [Hj1 Hj2].
  eapply (settles_bind (fun r : Position * option Expression * list Statement * nat =>
            from j r.2 ∧ (kind = "REPEAT" → is_Some r.1.1.2))).
  { destruct (String.eqb_spec kind "REPEAT") as [->|Hne].
    - eapply settles_mono; [|apply repeat_body; lia]. intros r [H1 H2]. by split.
    - eapply settles_bind; [apply (blocks_block _ IH); [lia|done|lia]|]. intros [[e body] m] Hm. by split. }
  intros [[[ends repeat] body] m] [[Hm1 Hm2] Hr]. cbn in Hm1, Hm2, Hr.
  apply ok_bind; [|intros s; split; cbn; lia].
  set_unfold in Hin. destruct Hin as [->|[->|[->|[]]]]; cbn.
  - destruct (Hc eq_refl) as [c ->]. done.
  - destruct (Hr eq_refl) as [c ->]. done.
  - destruct (Hh eq_refl) as [h ->]. done.
Qed.

Lemma if_step i : keyword_at "IF" i = true → 4 * (size - i) - 1 ≤ S fuel →
  settles (statement_ends i) (if_statement (S fuel) i).
Proof.
  intros Hk Hf. pose proof (keyword_lt _ _ Hk) as Hi. cbn [Parser.if_statement].
  eapply settles_bind; [apply line_tokens_settles; lia|]. intros line Hl. pose proof (keyword_line _ _ _ Hk Hl) as Hn.
  eapply settles_bind; [apply ok_or_fail_settles|]. intros then_ Ht. cbn beta in Ht.
  assert (1 ≤ then_) as H1.
  { destruct line as [|t line]; [by cbn in Hn|]. apply (keyword_position _ _ _ _ Ht).
    pose proof (is_line_head _ _ Hl t eq_refl) as ->. unfold keyword_at, kind_at in Hk.
    destruct (t_kind (token_at _ _ _)); try done. cbn in *. apply String.eqb_eq in Hk as ->. done. }
  apply position_of_lt in Ht. apply ok_bind; [apply slice_ok; lia|]. intros ?. apply ok_bind; [auto|]. intros condition.
  destruct (Nat.ltb_spec (S then_) (length line)) as [Hlt|]; [by apply inline_if_settles|].
  eapply settles_bind; [apply consume_line; lia|]. intros j [Hj1 Hj2].
  eapply settles_bind; [apply (blocks_until _ IH); lia|]. intros [[term body] m] [[Hm1 Hm2] Hterm]. cbn in Hm1, Hm2, Hterm.
  eapply settles_bind; [apply (blocks_else _ IH); [done|exact Hterm|lia]|].
  intros [[[term' branches] otherwise] q] [[Hq1 Hq2] [position Hp]]. cbn in Hp, Hq1, Hq2. subst term'. split; cbn; lia.
Qed.

Lemma else_step term otherwise i : i ≤ size → ends_as "IF" true term i → 4 * (size - i) + 1 ≤ S fuel →
  settles (fun r : BlockTerm * list (Expression * list Statement) * option (list Statement) * nat =>
             from i r.2 ∧ ∃ position, r.1.1.1 = BtEnd position) (else_branches (S fuel) term otherwise i).
Proof.
  intros Hi Hterm Hf. cbn [Parser.else_branches]. destruct term as [position| |c]; [|clear Hi|done].
  { split; [by split|by eexists]. }
  destruct Hterm as [_ Hk]. pose proof (keyword_lt _ _ Hk) as Hi. destruct (keyword_at "IF" (S i)) eqn:Hif.
  - pose proof (keyword_lt _ _ Hif) as Hi'. eapply settles_bind; [apply line_tokens_settles; lia|]. intros line Hl.
    eapply settles_bind; [apply ok_or_fail_settles|]. intros then_ Ht%position_of_lt.
    apply ok_bind; [apply slice_ok; lia|]. intros ?. apply ok_bind; [auto|]. intros condition.
    eapply settles_bind; [apply consume_line; lia|]. intros j [Hj1 Hj2].
    eapply settles_bind; [apply (blocks_until _ IH); lia|]. intros [[next body] m] [[Hm1 Hm2] Hnext]. cbn in Hm1, Hm2, Hnext.
    eapply settles_bind; [apply (blocks_else _ IH); [done|exact Hnext|lia]|].
    intros [[[term' branches] o] q] [[Hq1 Hq2] Hp]. cbn in *. split; [split; cbn; lia|done].
  - eapply settles_bind; [apply newline_settles|]. intros [p j] [Hj1 Hj2]. cbn in Hj1. subst j.
    eapply settles_bind; [apply (blocks_until _ IH); lia|]. intros [[next body] m] [[Hm1 Hm2] Hnext]. cbn in Hm1, Hm2, Hnext.
    eapply settles_mono; [|apply (blocks_else _ IH); [done| |lia]].
    + intros [[[term' branches] o] q] [[Hq1 Hq2] Hp]. cbn in *. split; [split; cbn; lia|done].
    + destruct next; [done| |done]. by destruct Hnext.
Qed.
End Step.

Lemma all_blocks fuel : blocks fuel.
Proof.
  induction fuel as [|fuel IH]; split; try lia.
  - intros kind i Hk Hin Hf. pose proof (keyword_lt _ _ Hk). lia.
  - intros i Hk Hf. pose proof (keyword_lt _ _ Hk). lia.
  - by apply block_until_step.
  - intros outer i Hi Hne Hf. cbn [Parser.block]. eapply settles_bind; [apply (blocks_until _ IH); lia|].
    intros [[term body] j] [Hj Hterm]. cbn in Hj, Hterm. destruct term; [exact Hj|by destruct Hterm|done].
  - by apply method_step.
  - by apply loop_step.
  - by apply if_step.
  - by apply else_step.
Qed.
(** *** Items *)

Lemma path_part_settles i : settles (fun r : string * nat => r.2 = S i ∧ i < size) (path_part_name tokens final i).
Proof.
  unfold path_part_name. destruct (keyword_at HOST i) eqn:Hk; [|apply identifier_name_settles].
  split; [done|]. by eapply keyword_lt.
Qed.

Lemma path_rest_settles : ∀ fuel i, size - i < fuel → i ≤ size →
  settles (fun r : list string * nat => from i r.2) (path_rest tokens final fuel i).
Proof.
  induction fuel as [|fuel IH]; intros i Hf Hi; [lia|]. cbn [path_rest].
  destruct (is_symbol _ _); [|split; cbn; lia].
  eapply settles_bind; [apply identifier_name_settles|]. intros [name j] [Hj Hlt]. cbn in Hj. subst j.
  eapply settles_bind; [apply IH; lia|]. intros [names k] [H1 H2]. split; cbn in *; lia.
Qed.

Definition item_ends (i : nat) (r : Item * nat) : Prop := after i r.2.

Lemma import_settles i : settles (item_ends i) (import tokens final i).
Proof.
  unfold import. set (i0 := if keyword_at "EXPORT" i then S i else i).
  assert (i ≤ i0) as Hi0 by (unfold i0; case_match; lia).
  eapply settles_bind; [apply expect_keyword_settles|]. intros j [-> Hj].
  eapply settles_bind; [apply path_part_settles|]. intros [first k] [Hk Hlt]. cbn in Hk. subst k.
  destruct (_ && _); [done|].
  eapply (settles_bind (fun r : list string * nat => from (S (S i0)) r.2)).
  - destruct (_ || _); [|split; cbn; lia].
    eapply settles_bind; [apply expect_punctuation_settles|]. intros k [-> Hk].
    eapply settles_bind; [apply path_part_settles|]. intros [capability m] [Hm Hm']. cbn in Hm. subst m.
    destruct (_ && _); [done|].
    eapply settles_bind; [apply path_rest_settles; unfold scan_fuel; lia|]. intros [names m] [H1 H2]. split; cbn in *; lia.
  - intros [path m] [H1 H2]. cbn in H1, H2.
    eapply settles_bind; [apply expect_keyword_settles|]. intros k [-> Hk].
    eapply settles_bind; [apply identifier_name_settles|]. intros [alias k] [Hk1 Hk2]. cbn in Hk1. subst k.
    eapply settles_bind; [apply newline_settles|]. intros [ends k] [Hk1 Hk3]. cbn in Hk1. subst k. split; cbn; lia.
Qed.

Lemma inferred_type_ok e : ok (inferred_constant_type e).
Proof. unfold inferred_constant_type. destruct (e_kind e) as [l| | | | | | | | | | | | | | | |]; try done. by destruct l. Qed.

Lemma constant_settles i : settles (item_ends i) (constant tokens final i).
Proof.
  unfold constant. set (i0 := if keyword_at "EXPORT" i then S i else i).
  assert (i ≤ i0) as Hi0 by (unfold i0; case_match; lia).
  eapply settles_bind; [apply expect_keyword_settles|]. intros j [-> Hj].
  eapply settles_bind; [apply identifier_name_settles|]. intros [name k] [Hk Hlt]. cbn in Hk. subst k.
  eapply settles_bind; [apply line_tokens_settles; lia|]. intros line Hl.
  eapply settles_bind; [apply ok_or_fail_settles|]. intros assign Ha%position_of_lt.
  destruct (_ <=? _); [done|]. apply ok_bind; [apply slice_from_ok; lia|]. intros ?.
  apply ok_bind; [auto|]. intros e. apply ok_bind.
  - destruct (Nat.ltb_spec 0 assign) as [H0|]; [|apply ok_bind; [apply inferred_type_ok|done]].
    eapply settles_bind; [apply nth_token_ok; lia|]. intros t _. destruct (negb _); [done|].
    destruct (_ =? _); [done|]. apply ok_bind; [apply slice_ok; lia|]. intros ?. apply ok_bind; [auto|done].
  - intros [type_ref initializer].
    eapply settles_bind; [apply newline_settles|]. intros [ends m] [Hm Hm']. cbn in Hm. subst m.
    destruct (e_kind initializer); try done. split; cbn; lia.
Qed.

Lemma declaration_settles fuel i : i ≤ size → 4 * (size - i) ≤ fuel → settles (item_ends i) (declaration tokens final fuel i).
Proof.
  intros Hi Hf. unfold declaration. set (i0 := if keyword_at "EXPORT" i then S i else i).
  assert (i ≤ i0) as Hi0 by (unfold i0; case_match; lia).
  set (i1 := if keyword_at "ASYNC" i0 then S i0 else i0). assert (i0 ≤ i1) as Hi1 by (unfold i1; case_match; lia).
  eapply settles_bind; [apply ok_or_fail_settles|]. intros kind _. destruct (_ && _); [done|].
  eapply settles_bind; [apply identifier_name_settles|]. intros [name j] [Hj Hlt]. cbn in Hj. subst j.
  eapply settles_bind; [apply line_tokens_settles; lia|]. intros line Hl.
  apply ok_bind; [destruct (is_class kind); [apply base_class_ok|done]|]. intros base.
  apply ok_bind; [destruct (is_class kind); [apply implemented_interfaces_ok|done]|]. intros interfaces.
  apply ok_bind; [destruct (is_function kind); [apply ok_bind; [apply function_signature_from_ok|done]|done]|].
  intros signature. destruct (negb _); [done|].
  eapply settles_bind; [apply consume_line; lia|]. intros k [Hk1 Hk2].
  eapply settles_bind; [apply all_blocks; [lia|by destruct kind|lia]|]. intros [[ends l] m] [H1 H2]. split; cbn in *; lia.
Qed.

Lemma items_settle : ∀ fuel saw i, i ≤ size → 4 * (size - i) + 1 ≤ fuel → ok (items_loop tokens final fuel saw i).
Proof.
  induction fuel as [|fuel IH]; intros saw i Hi Hf; [lia|]. cbn [items_loop].
  destruct (eof_at _ _ _) eqn:He; [done|].
  eapply (settles_bind (fun r : Item * bool * nat => after i r.2)).
  - destruct (_ || _).
    + destruct saw; [done|]. eapply settles_bind; [apply import_settles|]. by intros [item j].
    + destruct (_ || _).
      * eapply settles_bind; [apply constant_settles|]. by intros [item j].
      * eapply settles_bind; [apply declaration_settles; lia|]. by intros [item j].
  - intros [[item saw'] j] [H1 H2]. cbn in H1, H2.
    eapply settles_bind; [apply newlines_settles; unfold scan_fuel; lia|]. intros k [H3 H4].
    apply ok_bind; [apply IH; lia|done].
Qed.
End Program.

(** On a list of tokens that ends in [EOF] the parser gives a program or a
    diagnostic: it neither panics nor runs out of fuel. *)
Theorem parse_program_ends tokens final name :
  list.last tokens = Some final → t_kind final = TkEof → ok (parse_program tokens name).
Proof.
  intros Hlast Hk. unfold parse_program. rewrite Hlast. assert (list.last tokens = Some final ∧ t_kind final = TkEof) as H by done.
  eapply settles_bind; [apply (newlines_settles _ _ H); unfold scan_fuel; lia|]. intros i [_ Hi].
  apply ok_bind; [|done]. apply (items_settle _ _ H); [done|]. unfold program_fuel. lia.
Qed.

(** C8: Every source text is accepted or refused: lexed and parsed, it gives a
    program or one diagnostic of the lexer or of the parser.  Neither panics,
    indexes out of its tokens or runs on for ever, whatever the words of the
    language are.  (The depth of the machine stack is not part of the model.) *)
Theorem source_parses source revision reserved special text name :
  settles (fun tokens => settles (fun _ => True) (parse_program tokens name))
    (lex source revision reserved special text).
Proof.
  pose proof (lex_spec source revision reserved special text) as [Hend Hcovers].
  destruct (lex source revision reserved special text) as [ts| | |]; [|done..].
  destruct (Hcovers ts eq_refl) as (ts0 & _ & ->). unfold closing. rewrite app_assoc.
  eapply parse_program_ends; [apply list.last_snoc|done].
Qed.

(** ** Samples and corner cases *)

Section Samples.
Definition parser_words : list string :=
  ["AS"; "CLASS"; "CONSTRUCTOR"; "ELSE"; "END"; "FUNCTION"; "IF"; "INTEGER"; "LET"; "NEW"; "OR"; "PRINT"; "THEN"; "VOID"].
Definition tokens_of (text : string) : list Token :=
  match lex 1 0 parser_words [] text with Ok tokens => tokens | _ => [] end.
Definition lines (l : list string) : string := foldr (fun line rest => line +:+ LF +:+ rest) "" l.
Definition program_of (l : list string) : presult Program := parse_program (tokens_of (lines l)) None.

(** The statements of the first declaration. *)
Definition first_body (r : presult Program) : option (list Statement) :=
  match r with
  | Ok p => match items p with Declaration _ _ _ _ _ _ _ body _ :: _ => Some body | _ => None end
  | _ => None
  end.
Definition names (l : list Parameter_) : list string := map p_name l.
Definition member_names (r : presult Program) : option (list (string * list string)) :=
  map (fun s => match s with SMemberFunction name _ _ _ ps _ _ _ => (name, names ps) | _ => ("", []) end)
    <$> first_body r.
Definition signature_names (r : presult Program) : option (list string) :=
  match r with
  | Ok p => match items p with
            | Declaration _ _ _ _ _ _ (Some s) _ _ :: _ => Some (names (fs_parameters s)) | _ => None end
  | _ => None
  end.

(** The grammar asks for one comma between two parameters; the parser skips any
    number of them anywhere but before the closing parenthesis. *)
Lemma empty_parameters :
  signature_names (program_of ["FUNCTION f(,,a AS INTEGER,,b AS INTEGER) AS VOID"; "END FUNCTION"]) = Some ["a"; "b"]
  ∧ signature_names (program_of ["FUNCTION f(a AS INTEGER,) AS VOID"; "END FUNCTION"]) = None.
Proof. split; vm_compute; reflexivity. Qed.

(** The parameters of a constructor end at the first closing parenthesis: those
    after a callback are lost without a diagnostic, where a function keeps them. *)
Lemma constructor_parameters :
  member_names (program_of ["CLASS A"; "FUNCTION CONSTRUCTOR(cb AS FUNCTION(INTEGER) AS INTEGER, n AS INTEGER)";
                            "END FUNCTION"; "END CLASS"]) = Some [("CONSTRUCTOR", ["cb"])]
  ∧ signature_names (program_of ["FUNCTION f(cb AS FUNCTION(INTEGER) AS INTEGER, n AS INTEGER) AS VOID";
                                 "END FUNCTION"]) = Some ["cb"; "n"].
Proof. split; vm_compute; reflexivity. Qed.

(** A text that spells a numeric type stands for this type after [NEW]. *)
Lemma quoted_type :
  match parse_expression (tokens_of ("NEW " +:+ QUOTE +:+ "INT8" +:+ QUOTE +:+ "[3]")) with
  | Ok e => match e_kind e with ENew "INT8" [_] => true | _ => false end
  | _ => false
  end = true.
Proof. vm_compute. reflexivity. Qed.

(** An alternative of a type may be missing. *)
Lemma missing_alternative :
  match first_body (program_of ["FUNCTION f() AS VOID"; "LET a AS INTEGER OR"; "END FUNCTION"]) with
  | Some [SBinding _ _ _ _ _ _ t _ _ _ _] => map (fun a => let 'mkTypeAtom name _ _ _ := a in name) (tr_alternatives t)
  | _ => []
  end = ["INTEGER"].
Proof. vm_compute. reflexivity. Qed.

(** Statements of one line and of many. *)
Lemma sample_program :
  match first_body (program_of ["FUNCTION f(x AS INTEGER) AS VOID"; "IF x THEN"; "PRINT 1, x"; "ELSE IF 2 THEN"; "x += 1";
                                "ELSE"; "x++"; "END IF"; "END FUNCTION"]) with
  | Some [SIf [_; _] (Some (mkBlock [SAssignment _ op _ _] _)) _] => op
  | _ => ""
  end = "PlusAssign".
Proof. vm_compute. reflexivity. Qed.
End Samples.
