(* ===== verification/Civil.v ===== *)
(** * Civil: calendar arithmetic ([crates/bn_core_text/src/civil.rs])

    Day counts since 1970-01-01, the proleptic Gregorian calendar of years
    0001 through 9999, and [TIMESTAMP]s in milliseconds.  The theorems show
    that [civil_from_days] and [days_from_civil] are inverse on the civil
    range. *)

From S2P Require Import Prelude Text.

#[local] Open Scope string_scope.
#[local] Open Scope Z_scope.

Definition DAY_MS : Z := 86400000.
Definition MIN_YEAR : Z := 1.
Definition MAX_YEAR : Z := 9999.
Definition RANGE_ERROR : string := "civil time must be in years 0001 through 9999".

Record CivilDate := mkCivilDate { c_year : Z; c_month : Z; c_day : Z }.

#[global] Instance CivilDate_eq_dec : EqDecision CivilDate.
Proof. solve_decision. Defined.

(** [u32::try_from(v).unwrap_or(d)] and its kin. *)
Definition try_from (lo hi v : Z) : option Z := if in_range lo hi v then Some v else None.
Definition try_from_or (lo hi d v : Z) : Z := if in_range lo hi v then v else d.

Definition civil_from_days (days : Z) : CivilDate :=
  let z := days + 719468 in
  let era := div_euclid (if 0 <=? z then z else z - 146096) 146097 in
  let doe := try_from_or 0 u32_MAX 0 (z - era * 146097) in
  let yoe := (doe - doe / 1460 + doe / 36524 - doe / 146096) / 365 in
  let year := yoe + era * 400 in
  let doy := doe - (365 * yoe + yoe / 4 - yoe / 100) in
  let month_prime := (5 * doy + 2) / 153 in
  let day := doy - (153 * month_prime + 2) / 5 + 1 in
  let month := if month_prime <? 10 then month_prime + 3 else month_prime - 9 in
  mkCivilDate (try_from_or i32_MIN i32_MAX i32_MAX (year + Z.b2z (month <=? 2))) month day.

Definition civil_time (millis : Z) : Z * Z * Z * Z :=
  (millis / 3600000, millis mod 3600000 / 60000, millis mod 60000 / 1000, millis mod 1000).

Definition format_date (days : Z) : string :=
  let '(mkCivilDate year month day) := civil_from_days days in
  pad0 4 year +:+ "-" +:+ pad0 2 month +:+ "-" +:+ pad0 2 day.

Definition format_time (millis : Z) : string :=
  let '(hour, minute, second, millis) := civil_time millis in
  pad0 2 hour +:+ ":" +:+ pad0 2 minute +:+ ":" +:+ pad0 2 second +:+ "." +:+ pad0 3 millis.

Definition in_range_days (days : Z) : bool :=
  in_range MIN_YEAR MAX_YEAR (c_year (civil_from_days days)).

(** [civil::split] *)
Definition split_timestamp (timestamp : Z) : option (Z * Z) :=
  days ← try_from i32_MIN i32_MAX (div_euclid timestamp DAY_MS);
  millis ← try_from 0 u32_MAX (rem_euclid timestamp DAY_MS);
  if in_range_days days then Some (days, millis) else None.

Definition rfc3339 (timestamp : Z) : option string :=
  '(days, millis) ← split_timestamp timestamp;
  Some (format_date days +:+ "T" +:+ format_time millis +:+ "Z").

Definition totimestamp (days millis : Z) : Z :=
  let millis := try_from_or 0 u32_MAX 0 millis in
  try_from_or i64_MIN i64_MAX 0 (days * DAY_MS + millis).

Definition is_leap (year : Z) : bool :=
  (Z.rem year 4 =? 0) && (negb (Z.rem year 100 =? 0) || (Z.rem year 400 =? 0)).

Definition days_in_month (year month : Z) : option Z :=
  if (month =? 1) || (month =? 3) || (month =? 5) || (month =? 7) || (month =? 8)
     || (month =? 10) || (month =? 12) then Some 31
  else if (month =? 4) || (month =? 6) || (month =? 9) || (month =? 11) then Some 30
  else if month =? 2 then Some (if is_leap year then 29 else 28)
  else None.

Definition days_from_civil (year month day : Z) : option Z :=
  if negb (in_range MIN_YEAR MAX_YEAR year) || negb (in_range 1 12 month) || (day =? 0)
  then None
  else
    last ← days_in_month year month;
    if last <? day then None
    else
      let y := if month <=? 2 then year - 1 else year in
      let era := div_euclid (if 0 <=? y then y else y - 399) 400 in
      yoe ← try_from 0 u32_MAX (y - era * 400);
      let month_index := if 2 <? month then month - 3 else month + 9 in
      let doy := (153 * month_index + 2) / 5 + day - 1 in
      let doe := yoe * 365 + yoe / 4 - yoe / 100 + doy in
      doe ← try_from i32_MIN i32_MAX doe;
      Some (era * 146097 + doe - 719468).

Example civil_tests :
  days_from_civil 2024 2 29 = Some 19782 ∧ days_from_civil 2023 2 29 = None
  ∧ days_from_civil 10000 1 1 = None ∧ civil_from_days 2932896 = mkCivilDate 9999 12 31
  ∧ split_timestamp 400000000000000 = None
  ∧ rfc3339 1790593503042 = Some "2026-09-28T11:05:03.042Z".
Proof. repeat split; reflexivity. Qed.

#[local] Ltac Zify.zify_post_hook ::= Z.to_euclidean_division_equations.

(** ** Years of an era

    An era is 400 years or 146097 days, counted from a March first.  Year
    [yoe] of the era starts at day [year_start yoe]. *)

Definition year_start (yoe : Z) : Z := 365 * yoe + yoe / 4 - yoe / 100.

(** The day of the era at which year [yoe + 1] starts. *)
Definition year_end (yoe : Z) : Z := if yoe =? 399 then 146097 else year_start (yoe + 1).

Definition year_of (doe : Z) : Z :=
  (doe - doe / 1460 + doe / 36524 - doe / 146096) / 365.

Fixpoint forall_from (f : Z → bool) (n : nat) (i : Z) : bool :=
  match n with O => true | S n => f i && forall_from f n (i + 1) end.

(** A property checked on every number below [n]. *)
Lemma forall_below (f : Z → bool) (n : nat) (i : Z) :
  forall_from f n 0 = true → 0 ≤ i < Z.of_nat n → f i = true.
Proof.
  enough (∀ k, forall_from f n k = true → k ≤ i < k + Z.of_nat n → f i = true) by (intros; eauto).
  induction n as [|n IH]; intros k Hf Hi; [lia|].
  apply andb_prop in Hf as [Hk Hf]. destruct (Z.eq_dec i k) as [->|]; [done|].
  apply (IH (k + 1)); [done | lia].
Qed.

Lemma year_of_mono a b : 0 ≤ a ≤ b → b < 146097 →
  a - a / 1460 + a / 36524 - a / 146096 ≤ b - b / 1460 + b / 36524 - b / 146096.
Proof.
  intros Hab Hb.
  assert (a / 36524 ≤ b / 36524) by (apply Z.div_le_mono; lia).
  assert (a - a / 1460 ≤ b - b / 1460) by lia.
  assert (b < 146096 ∨ b = 146096) as [?| ->] by lia.
  - rewrite !(Z.div_small _ 146096) by lia. lia.
  - change (146096 / 1460) with 100 in *. change (146096 / 146096) with 1.
    change (146096 / 36524) with 4 in *. destruct (Z.eq_dec a 146096) as [->|]; [done|].
    assert (a / 146096 = 0) as -> by (apply Z.div_small; lia).
    assert (a / 36524 < 4) by (apply Z.div_lt_upper_bound; lia). lia.
Qed.

Lemma year_bounds_checked :
  forall_from (fun y => (y <=? year_of (year_start y)) && (year_of (year_end y - 1) <=? y)
    && (year_end y =? year_start y + (if is_leap (y + 1) then 366 else 365))) 400 0 = true.
Proof. vm_compute. reflexivity. Qed.

Lemma year_bounds y : 0 ≤ y < 400 →
  y ≤ year_of (year_start y) ∧ year_of (year_end y - 1) ≤ y
  ∧ year_end y = year_start y + (if is_leap (y + 1) then 366 else 365).
Proof.
  intros Hy. pose proof (forall_below _ 400 y year_bounds_checked Hy) as H. simpl in H.
  z_bools. done.
Qed.

Lemma year_start_range y : 0 ≤ y < 400 → 0 ≤ year_start y < year_end y ∧ year_end y ≤ 146097.
Proof.
  intros Hy. pose proof (year_bounds y Hy) as (_ & _ & H).
  assert (0 ≤ year_start y) by (unfold year_start; lia).
  split; [destruct (is_leap _); lia|].
  unfold year_end, year_start. destruct (y =? 399) eqn:E; z_bools; lia.
Qed.

(** The year formula finds the year of every day of the era. *)
Lemma year_of_day y doe :
  0 ≤ y < 400 → year_start y ≤ doe < year_end y → year_of doe = y.
Proof.
  intros Hy Hd. pose proof (year_bounds y Hy) as (H1 & H2 & _).
  pose proof (year_start_range y Hy).
  pose proof (year_of_mono (year_start y) doe) as M1.
  pose proof (year_of_mono doe (year_end y - 1)) as M2.
  unfold year_of in *. apply Z.le_antisymm.
  - etrans; [apply Z.div_le_mono; [lia | apply M2; lia] | done].
  - etrans; [done | apply Z.div_le_mono; [lia | apply M1; lia]].
Qed.

Lemma year_exists doe : 0 ≤ doe < 146097 →
  ∃ y, 0 ≤ y < 400 ∧ year_start y ≤ doe < year_end y.
Proof.
  intros Hd.
  assert (∀ n : nat, (n < 400)%nat → doe < year_end (Z.of_nat n) →
    ∃ y, 0 ≤ y < 400 ∧ year_start y ≤ doe < year_end y) as H.
  { induction n as [|n IH]; intros Hn He.
    - exists 0. change (year_start 0) with 0. split; [lia | split; [lia|done]].
    - destruct (Z.lt_ge_cases doe (year_start (Z.of_nat (S n)))) as [Hlt|Hge].
      + apply IH; [lia|]. unfold year_end. destruct (_ =? 399) eqn:E; z_bools; [lia|].
        by replace (Z.of_nat n + 1) with (Z.of_nat (S n)) by lia.
      + exists (Z.of_nat (S n)). split; [lia | done]. }
  apply (H 399%nat); [lia|]. change (year_end (Z.of_nat 399)) with 146097. lia.
Qed.

(** ** Months of a year *)

Definition month_prime_of (doy : Z) : Z := (5 * doy + 2) / 153.
Definition month_of (mp : Z) : Z := if mp <? 10 then mp + 3 else mp - 9.
Definition month_index_of (month : Z) : Z := if 2 <? month then month - 3 else month + 9.

Definition month_table_ok (doy : Z) : bool :=
  let mp := month_prime_of doy in
  let day := doy - (153 * mp + 2) / 5 + 1 in
  in_range 1 12 (month_of mp) && (month_index_of (month_of mp) =? mp) && (1 <=? day)
  && match days_in_month 2024 (month_of mp) with
     | Some n => (day <=? n) && ((doy <? 365) || (day =? 29))
     | None => false
     end
  && (negb (doy <? 365) || negb (month_of mp =? 2) || (day <=? 28)).

Lemma month_table_checked : forall_from month_table_ok 366 0 = true.
Proof. vm_compute. reflexivity. Qed.

Definition day_table_ok (i : Z) : bool :=
  let month := i / 31 + 1 in
  let day := i mod 31 + 1 in
  let doy := (153 * month_index_of month + 2) / 5 + day - 1 in
  match days_in_month 2024 month with
  | Some n =>
      (n <? day) ||
      ((month_prime_of doy =? month_index_of month) && in_range 0 365 doy
       && ((doy <? 365) || ((month =? 2) && (day =? 29)))
       && (month_of (month_index_of month) =? month))
  | None => false
  end.

Lemma day_table_checked : forall_from day_table_ok 372 0 = true.
Proof. vm_compute. reflexivity. Qed.

Lemma days_in_month_leap year month n :
  days_in_month 2024 month = Some n →
  days_in_month year month = Some (if (month =? 2) && negb (is_leap year) then 28 else n).
Proof.
  unfold days_in_month. change (is_leap 2024) with true.
  destruct (Z.eq_dec month 2) as [->|Hm].
  - intros [= <-]. by destruct (is_leap year).
  - assert (month =? 2 = false) as -> by lia. by repeat case_match.
Qed.

Lemma is_leap_era yoe era : 0 ≤ yoe → 0 ≤ era → is_leap (yoe + era * 400) = is_leap yoe.
Proof.
  intros Hy He. unfold is_leap. rewrite !Z.rem_mod_nonneg by lia.
  f_equal; [|f_equal; [f_equal|]]; f_equal; lia.
Qed.

(** ** The calendar is a bijection *)

(** [civil_from_days] in terms of the era, the year and the day of the year. *)
Lemma civil_from_days_parts era y doy :
  0 ≤ era < 100000 → 0 ≤ y < 400 → 0 ≤ doy < year_end y - year_start y →
  civil_from_days (era * 146097 + (year_start y + doy) - 719468) =
  mkCivilDate (y + era * 400 + Z.b2z (month_of (month_prime_of doy) <=? 2))
    (month_of (month_prime_of doy)) (doy - (153 * month_prime_of doy + 2) / 5 + 1).
Proof.
  intros He Hy Hd. pose proof (year_start_range y Hy) as [Hs Hend].
  unfold civil_from_days.
  replace (_ - 719468 + 719468) with (era * 146097 + (year_start y + doy)) by lia.
  assert (0 <=? era * 146097 + (year_start y + doy) = true) as -> by lia.
  change (div_euclid ?a 146097) with (a / 146097).
  assert ((era * 146097 + (year_start y + doy)) / 146097 = era) as -> by lia.
  replace (_ - era * 146097) with (year_start y + doy) by lia.
  assert (try_from_or 0 u32_MAX 0 (year_start y + doy) = year_start y + doy) as ->.
  { unfold try_from_or. assert (in_range 0 u32_MAX (year_start y + doy) = true) as ->; [|done].
    apply in_range_spec. unfold u32_MAX. lia. }
  fold (year_of (year_start y + doy)). rewrite (year_of_day y) by lia.
  fold (year_start y). replace (year_start y + doy - year_start y) with doy by lia.
  fold (month_prime_of doy). fold (month_of (month_prime_of doy)).
  f_equal. unfold try_from_or.
  assert (in_range i32_MIN i32_MAX (y + era * 400 + Z.b2z (month_of (month_prime_of doy) <=? 2))
          = true) as ->; [|done].
  apply in_range_spec. unfold i32_MIN, i32_MAX. destruct (_ <=? 2); simpl Z.b2z; lia.
Qed.

(** The month and day of a day of the year exist in the calendar. *)
Lemma month_table doy : 0 ≤ doy < 366 →
  let mp := month_prime_of doy in
  let month := month_of mp in
  let day := doy - (153 * mp + 2) / 5 + 1 in
  1 ≤ month ≤ 12 ∧ month_index_of month = mp ∧ 1 ≤ day
  ∧ (month ≤ 2 ↔ 306 ≤ doy)
  ∧ ∃ n, days_in_month 2024 month = Some n ∧ day ≤ n
      ∧ (doy < 365 → month = 2 → day ≤ 28).
Proof.
  intros Hd. pose proof (forall_below _ 366 doy month_table_checked Hd) as H.
  unfold month_table_ok in H. cbv zeta in H |- *.
  destruct (days_in_month 2024 _) as [n|] eqn:Hn; [|by rewrite andb_false_r in H].
  rewrite !andb_true_iff, !orb_true_iff, !negb_true_iff, in_range_spec in H.
  split; [tauto|]. split; [lia|]. split; [lia|]. split.
  { unfold month_of, month_prime_of in *. destruct (_ <? 10) eqn:E; z_bools; lia. }
  exists n. split; [done|]. split; [lia|]. intros ??. lia.
Qed.

Lemma day_table month day n :
  1 ≤ month ≤ 12 → days_in_month 2024 month = Some n → 1 ≤ day ≤ n →
  let doy := (153 * month_index_of month + 2) / 5 + day - 1 in
  month_prime_of doy = month_index_of month ∧ 0 ≤ doy < 366
  ∧ month_of (month_index_of month) = month
  ∧ (365 ≤ doy → month = 2 ∧ day = 29).
Proof.
  intros Hm Hn Hd. cbv zeta.
  assert (n ≤ 31) as Hn31.
  { revert Hn. unfold days_in_month. repeat case_match; intros [= <-]; lia. }
  pose proof (forall_below _ 372 ((month - 1) * 31 + (day - 1)) day_table_checked
                ltac:(lia)) as H.
  unfold day_table_ok in H.
  assert (((month - 1) * 31 + (day - 1)) / 31 + 1 = month) as E1 by lia.
  assert (((month - 1) * 31 + (day - 1)) mod 31 + 1 = day) as E2 by lia.
  rewrite E1, E2, Hn in H. cbv zeta in H.
  assert (n <? day = false) as Hlt by lia. rewrite Hlt in H. simpl in H.
  rewrite !andb_true_iff, orb_true_iff, andb_true_iff, in_range_spec in H.
  split; [lia|]. split; [lia|]. split; [lia|]. lia.
Qed.

(** [days_from_civil] in terms of the era, the year and the day of the year. *)
Lemma days_from_civil_parts era y month day n :
  0 ≤ era → 0 ≤ y < 400 → 1 ≤ month ≤ 12 →
  let year := y + era * 400 + Z.b2z (month <=? 2) in
  MIN_YEAR ≤ year ≤ MAX_YEAR → days_in_month year month = Some n → 1 ≤ day ≤ n →
  days_from_civil year month day =
    Some (era * 146097 + (year_start y + ((153 * month_index_of month + 2) / 5 + day - 1))
          - 719468).
Proof.
  cbv zeta. intros He Hy Hm HY Hn Hd. unfold days_from_civil.
  set (year := y + era * 400 + Z.b2z (month <=? 2)) in *.
  rewrite Hn. unfold MIN_YEAR, MAX_YEAR in *.
  assert (in_range 1 9999 year = true) as -> by (apply in_range_spec; lia).
  assert (in_range 1 12 month = true) as -> by (apply in_range_spec; lia).
  assert (day =? 0 = false) as -> by lia. simpl.
  assert (n <? day = false) as -> by lia.
  assert ((if month <=? 2 then year - 1 else year) = y + era * 400) as ->.
  { unfold year. destruct (month <=? 2); simpl Z.b2z; lia. }
  assert (0 <=? y + era * 400 = true) as -> by lia.
  change (div_euclid ?a 400) with (a / 400).
  assert ((y + era * 400) / 400 = era) as -> by lia.
  replace (y + era * 400 - era * 400) with y by lia. unfold try_from.
  assert (in_range 0 u32_MAX y = true) as -> by (apply in_range_spec; unfold u32_MAX; lia).
  simpl. change (if 2 <? month then month - 3 else month + 9) with (month_index_of month).
  assert (0 ≤ (153 * month_index_of month + 2) / 5 + day - 1 ≤ 400).
  { assert (n ≤ 31). { revert Hn. unfold days_in_month. repeat case_match; intros [= <-]; lia. }
    unfold month_index_of. destruct (2 <? month) eqn:E; z_bools; lia. }
  assert (in_range i32_MIN i32_MAX (y * 365 + y / 4 - y / 100
    + ((153 * month_index_of month + 2) / 5 + day - 1)) = true) as ->.
  { apply in_range_spec. unfold i32_MIN, i32_MAX. lia. }
  simpl. f_equal. unfold year_start. lia.
Qed.

Lemma year_length era y : 0 ≤ era → 0 ≤ y →
  is_leap (y + 1) = is_leap (y + era * 400 + 1).
Proof.
  intros He Hy. rewrite <- (is_leap_era (y + 1) era) by lia. f_equal. lia.
Qed.

Lemma days_in_month_bound year month n : days_in_month year month = Some n → 28 ≤ n ≤ 31.
Proof. unfold days_in_month. repeat case_match; intros [= <-]; lia. Qed.

(** Day counts of the civil range: 0001-01-01 and 9999-12-31. *)
Definition MIN_DAYS : Z := -719162.
Definition MAX_DAYS : Z := 2932896.

Lemma era_of_days days : MIN_DAYS ≤ days ≤ MAX_DAYS →
  ∃ era y doy, 0 ≤ era < 25 ∧ 0 ≤ y < 400 ∧ 0 ≤ doy < year_end y - year_start y ∧
    days = era * 146097 + (year_start y + doy) - 719468.
Proof.
  unfold MIN_DAYS, MAX_DAYS. intros Hd.
  destruct (year_exists ((days + 719468) mod 146097)) as (y & Hy & Hdoe); [lia|].
  exists ((days + 719468) / 146097), y, ((days + 719468) mod 146097 - year_start y). lia.
Qed.

Lemma civil_from_days_valid days : MIN_DAYS ≤ days ≤ MAX_DAYS →
  let date := civil_from_days days in
  (days_from_civil (c_year date) (c_month date) (c_day date) = Some days
   ∧ in_range_days days = true) ∧ 1 ≤ c_day date.
Proof.
  intros Hdays. destruct (era_of_days days Hdays) as (era & y & doy & He & Hy & Hdoy & ->).
  pose proof (year_bounds y Hy) as (_ & _ & Hlen). pose proof (year_start_range y Hy).
  assert (0 ≤ doy < 366) as Hdoy' by (destruct (is_leap (y + 1)); lia).
  destruct (month_table doy Hdoy') as (Hm & Hidx & Hday & Hjan & n & Hn & Hle & Hfeb).
  cbv zeta in *. unfold in_range_days. rewrite civil_from_days_parts by lia.
  simpl c_year; simpl c_month; simpl c_day.
  set (month := month_of (month_prime_of doy)) in *.
  assert (MIN_YEAR ≤ y + era * 400 + Z.b2z (month <=? 2) ≤ MAX_YEAR) as HY.
  { unfold MIN_DAYS, MAX_DAYS, MIN_YEAR, MAX_YEAR in *.
    assert (Z.b2z (month <=? 2) = if 306 <=? doy then 1 else 0) as ->.
    { destruct (month <=? 2) eqn:E1, (306 <=? doy) eqn:E2; z_bools; simpl; lia. }
    unfold year_start in *. destruct (306 <=? doy) eqn:E; z_bools; lia. }
  split; [|lia]. split; [|by apply in_range_spec].
  rewrite (days_from_civil_parts era y month _
             (if (month =? 2) && negb (is_leap (y + era * 400 + Z.b2z (month <=? 2)))
              then 28 else n)); [|lia|done|done|done|by apply days_in_month_leap|].
  - f_equal. rewrite Hidx. lia.
  - split; [lia|]. destruct (month =? 2) eqn:E; [|simpl; lia]. z_bools.
    rewrite E in *. change (Z.b2z (2 <=? 2)) with 1 in *.
    rewrite <- year_length by lia. destruct (is_leap (y + 1)); simpl; [lia|].
    apply Hfeb; [lia | done].
Qed.

Lemma civil_from_days_fields days : MIN_DAYS ≤ days ≤ MAX_DAYS →
  let date := civil_from_days days in
  MIN_YEAR ≤ c_year date ≤ MAX_YEAR ∧ 1 ≤ c_month date ≤ 12 ∧ 1 ≤ c_day date ≤ 31.
Proof.
  intros Hd. destruct (civil_from_days_valid days Hd) as [[Hr Hin] Hday]. cbv zeta in *.
  apply in_range_spec in Hin. split; [done|].
  destruct (civil_from_days days) as [y m d]. simpl in *.
  unfold days_from_civil in Hr.
  destruct (_ || _)%bool eqn:Hg; [discriminate|]. z_bools.
  rewrite !negb_false_iff, !in_range_spec in *. split; [done|].
  destruct (days_in_month y m) as [n|] eqn:Hn; [|discriminate]. simpl in Hr.
  apply days_in_month_bound in Hn. destruct (n <? d) eqn:E; [discriminate|]. z_bools. lia.
Qed.

(** Every day of the civil range is a date of the calendar, and the date's day
    count is that day. *)
Theorem civil_from_days_round_trip (days : Z) (Hdays : MIN_DAYS ≤ days ≤ MAX_DAYS) :
  let date := civil_from_days days in
  days_from_civil (c_year date) (c_month date) (c_day date) = Some days
  ∧ in_range_days days = true.
Proof. exact (proj1 (civil_from_days_valid days Hdays)). Qed.

Lemma civil_from_days_round_trip_witness :
  let date := civil_from_days 19782 in
  days_from_civil (c_year date) (c_month date) (c_day date) = Some 19782
  ∧ in_range_days 19782 = true.
Proof. apply (civil_from_days_round_trip 19782). split; discriminate. Defined.

Lemma days_from_civil_valid year month day days :
  0 ≤ day → days_from_civil year month day = Some days →
  civil_from_days days = mkCivilDate year month day ∧ MIN_DAYS ≤ days ≤ MAX_DAYS.
Proof.
  intros Hdate Hdays.
  pose proof Hdays as Hgot. unfold days_from_civil in Hdays.
  destruct (_ || _)%bool eqn:Hg; [discriminate|]. z_bools.
  rewrite !negb_false_iff, !in_range_spec in *. unfold MIN_YEAR, MAX_YEAR in *.
  destruct (days_in_month year month) as [n|] eqn:Hn; [|discriminate]. simpl in Hdays.
  destruct (n <? day) eqn:Hlast; [discriminate|]. z_bools. clear Hdays.
  set (yy := year - Z.b2z (month <=? 2)).
  assert (0 ≤ yy ≤ 9999) by (unfold yy; destruct (month <=? 2) eqn:E; simpl; lia).
  assert (year = yy mod 400 + yy / 400 * 400 + Z.b2z (month <=? 2)) as EY.
  { unfold yy. destruct (month <=? 2); simpl; lia. }
  assert (∃ n', days_in_month 2024 month = Some n' ∧
    n = (if (month =? 2) && negb (is_leap year) then 28 else n')) as (n' & Hn' & En).
  { destruct (days_in_month 2024 month) as [n'|] eqn:Hn'.
    - exists n'. split; [done|]. pose proof (days_in_month_leap year month n' Hn') as E. congruence.
    - revert Hn Hn'. unfold days_in_month. repeat case_match; congruence. }
  pose proof (days_in_month_bound _ _ _ Hn').
  assert (n ≤ n') as Hnn by (rewrite En; destruct (_ && _)%bool; lia).
  destruct (day_table month day n') as (Hmp & Hdoy & Hmo & Hleap); [done|done|lia|].
  set (doy := (153 * month_index_of month + 2) / 5 + day - 1) in *.
  pose proof (year_bounds (yy mod 400) ltac:(lia)) as (_ & _ & Hlen).
  assert (doy < year_end (yy mod 400) - year_start (yy mod 400)) as Hlt.
  { destruct (Z.lt_ge_cases doy 365) as [|H365]; [destruct (is_leap (yy mod 400 + 1)); lia|].
    destruct (Hleap H365) as [-> ->]. simpl in En, EY.
    rewrite EY, <- year_length in En by lia.
    destruct (is_leap (yy mod 400 + 1)); simpl in En; lia. }
  pose proof (days_from_civil_parts (yy / 400) (yy mod 400) month day n
    ltac:(lia) ltac:(lia) ltac:(done)) as Hparts.
  cbv zeta in Hparts. rewrite <- EY in Hparts. unfold MIN_YEAR, MAX_YEAR in Hparts.
  rewrite Hparts in Hgot by (try done; lia). injection Hgot as <-. fold doy.
  split.
  - assert (doy - (153 * month_index_of month + 2) / 5 + 1 = day) as Eday by (unfold doy; lia).
    clearbody doy. rewrite civil_from_days_parts by lia. by rewrite Hmp, Hmo, <- EY, Eday.
  - pose proof (year_start_range (yy mod 400) ltac:(lia)).
    unfold MIN_DAYS, MAX_DAYS, year_start in *.
    assert (month ≤ 2 → 306 ≤ doy).
    { unfold doy, month_index_of. destruct (2 <? month) eqn:E; z_bools; lia. }
    assert (2 < month → doy < 306).
    { unfold month_of in Hmo. destruct (_ <? 10) eqn:E; z_bools; [|lia].
      intros _. rewrite <- Hmp in E. unfold month_prime_of in E. lia. }
    unfold yy in *. destruct (month <=? 2) eqn:E; z_bools; simpl Z.b2z in *; lia.
Qed.

(** A date that exists is the date of its day count, a day of the civil range. *)
Theorem days_from_civil_round_trip (year month day days : Z)
    (Hdate : 0 ≤ day) (Hdays : days_from_civil year month day = Some days) :
  civil_from_days days = mkCivilDate year month day ∧ MIN_DAYS ≤ days ≤ MAX_DAYS.
Proof. exact (days_from_civil_valid year month day days Hdate Hdays). Qed.

Lemma days_from_civil_round_trip_witness :
  civil_from_days 19782 = mkCivilDate 2024 2 29 ∧ MIN_DAYS ≤ 19782 ≤ MAX_DAYS.
Proof. apply (days_from_civil_round_trip 2024 2 29 19782); [discriminate | reflexivity]. Defined.

(** Before the first era the year comes out at most 0, and so out of range. *)
Lemma year_before_eras days : days < -719468 → ¬ MIN_YEAR ≤ c_year (civil_from_days days) ≤ MAX_YEAR.
Proof.
  intros Hz. unfold civil_from_days. simpl c_year.
  assert (0 <=? days + 719468 = false) as -> by lia.
  change (div_euclid ?a 146097) with (a / 146097).
  set (era := (days + 719468 - 146096) / 146097).
  set (doe := days + 719468 - era * 146097).
  assert (146096 ≤ doe < 292193 ∧ era ≤ -1 ∧ (era = -1 → doe = 146096)) as (Hdoe & Hera & He1)
    by (unfold doe, era; lia).
  assert (try_from_or 0 u32_MAX 0 doe = doe) as ->.
  { unfold try_from_or. assert (in_range 0 u32_MAX doe = true) as ->; [|done].
    apply in_range_spec. unfold u32_MAX. lia. }
  fold (year_of doe).
  assert (year_of doe + era * 400 ≤ -1) as Hy.
  { destruct (Z.eq_dec era (-1)) as [E|].
    - rewrite E, (He1 E). vm_compute. discriminate.
    - assert (year_of doe ≤ 799) as Hyoe by (clear -Hdoe; unfold year_of; lia). lia. }
  unfold try_from_or. destruct (in_range _ _ _) eqn:E; [|vm_compute; intros [_ H]; by apply H].
  destruct (_ <=? 2); simpl Z.b2z; unfold MIN_YEAR; lia.
Qed.

(** No day before the calendar is taken for a day of it, whatever the era
    arithmetic makes of it. *)
Lemma in_range_days_iff days :
  i32_MIN ≤ days ≤ i32_MAX → in_range_days days = true ↔ MIN_DAYS ≤ days ≤ MAX_DAYS.
Proof.
  intros Hd. split; [|intros H; by apply civil_from_days_valid].
  intros Hr%in_range_spec.
  destruct (Z.lt_ge_cases days (-719468)) as [Hlt|Hge].
  { by apply year_before_eras in Hlt. }
  set (z := days + 719468). unfold i32_MIN, i32_MAX in Hd.
  destruct (year_exists (z mod 146097)) as (y & Hy & Hdoe); [lia|].
  set (doy := z mod 146097 - year_start y).
  assert (days = z / 146097 * 146097 + (year_start y + doy) - 719468) as E by (unfold z, doy; lia).
  pose proof (year_bounds y Hy) as (_ & _ & Hlen). pose proof (year_start_range y Hy).
  assert (0 ≤ doy < year_end y - year_start y) as Hdoy by (unfold doy; lia).
  assert (doy < 366) as H366 by (destruct (is_leap (y + 1)); lia).
  destruct (month_table doy) as (_ & _ & _ & Hjan & _); [lia|].
  cbv zeta in Hjan. rewrite E in Hr. rewrite civil_from_days_parts in Hr by (unfold z in *; lia).
  simpl in Hr. clearbody doy z. unfold MIN_DAYS, MAX_DAYS, MIN_YEAR, MAX_YEAR, year_start in *.
  assert (Z.b2z (month_of (month_prime_of doy) <=? 2) = if 306 <=? doy then 1 else 0) as Eb.
  { destruct (month_of (month_prime_of doy) <=? 2) eqn:E1, (306 <=? doy) eqn:E2; z_bools; simpl; lia. }
  rewrite Eb in Hr. clear Hlen Hjan Eb Hdoe. subst days.
  assert (z / 146097 = 0 ∧ y = 0 ∨ z / 146097 = 24 ∧ y = 399
    ∨ 365 ≤ z / 146097 * 146097 + 365 * y + y / 4 - y / 100
      ∧ z / 146097 * 146097 + 365 * y + y / 4 - y / 100 ≤ 3651694) as Hcase.
  { destruct (306 <=? doy); simpl in Hr; lia. }
  destruct (306 <=? doy) eqn:E1; z_bools; lia.
Qed.

(** The day and the time of day of a timestamp in the calendar. *)
Lemma split_timestamp_Some timestamp days millis :
  i64_MIN ≤ timestamp ≤ i64_MAX →
  split_timestamp timestamp = Some (days, millis) ↔
  MIN_DAYS ≤ days ≤ MAX_DAYS ∧ 0 ≤ millis < DAY_MS ∧ timestamp = days * DAY_MS + millis.
Proof.
  intros Ht. unfold split_timestamp.
  change (div_euclid timestamp DAY_MS) with (timestamp / 86400000).
  change (rem_euclid timestamp DAY_MS) with (timestamp mod 86400000).
  unfold DAY_MS, try_from.
  assert (in_range 0 u32_MAX (timestamp mod 86400000) = true) as ->.
  { apply in_range_spec. unfold u32_MAX. lia. }
  destruct (in_range i32_MIN i32_MAX (timestamp / 86400000)) eqn:E; simpl.
  - apply in_range_spec in E. pose proof (in_range_days_iff _ E) as Hin.
    destruct (in_range_days (timestamp / 86400000)) eqn:E2.
    + destruct Hin as [Hin _]. split.
      * intros [= <- <-]. split; [by apply Hin | lia].
      * intros (Hd & Hm & ->). repeat f_equal; lia.
    + split; [discriminate|]. intros (Hd & Hm & ->).
      assert ((days * 86400000 + millis) / 86400000 = days) as Hq by lia.
      rewrite Hq in Hin. destruct Hin as [_ Hin]. discriminate (Hin Hd).
  - split; [discriminate|]. intros (Hd & Hm & ->). apply in_range_false in E.
    unfold MIN_DAYS, MAX_DAYS, i32_MIN, i32_MAX in *. lia.
Qed.

(** Before the first era the era correction, made for a truncating division,
    is applied to a Euclidean one: two consecutive days get the same date. *)
Theorem civil_from_days_before_eras :
  civil_from_days (-719469) = mkCivilDate 0 2 29 ∧ civil_from_days (-719470) = mkCivilDate 0 2 29.
Proof. split; vm_compute; reflexivity. Qed.
