(* ===== verification/Temporal.v ===== *)
(** * Temporal: the text of dates, times and timestamps

    [crates/bn_core_text/src/temporal.rs] (the parsers) and
    [crates/bn_interp/src/temporal.rs] (the same functions with the language's
    diagnostics).  The theorems show that what [Timestamp.Format] and the
    rendering of a [TIME] print is read back by [Timestamp.Parse] and
    [Time.Parse], and that a time outside the calendar is never produced. *)

From S2P Require Import Prelude Text Diag Floats Civil.

#[local] Open Scope string_scope.
#[local] Open Scope Z_scope.

(** An [Option] of code that may panic: [None] is [Err tt]. *)
Abbreviation opt A := (res unit A).

Definition of_opt {A} (o : option A) : opt A := ok_or tt o.

(** [option.ok_or_else(error)] *)
Definition opt_or_else {E A} (o : opt A) (error : res E A) : res E A :=
  match o with
  | Ok a => Ok a
  | Err _ => error
  | Panic w => Panic w
  | Fuel => Fuel
  end.

(** [&text[i..j]] *)
Definition slice_ {E} (text : string) (i j : nat) : res E string :=
  expect "byte index is not a char boundary" (slice text i j).

Definition byte_at (text : string) (i : nat) : option ascii := str_bytes text !! i.
Definition byte_is (text : string) (i : nat) (c : ascii) : bool :=
  match byte_at text i with Some b => Ascii.eqb b c | None => false end.

(** ** The parsers ([bn_core_text::temporal]) *)

Definition parse_digits (text : string) : option Z :=
  match text with
  | EmptyString => None
  | _ =>
      if forallb is_ascii_digit (str_bytes text)
      then from_str_radix i64_MIN i64_MAX 10 text else None
  end.

Definition parse_ymd (text : string) : opt (Z * Z * Z) :=
  if negb (str_len text =? 10) || negb (byte_is text 4 "-") || negb (byte_is text 7 "-")
  then Err tt
  else
    s ← slice_ text 0 4; year ← of_opt (parse_digits s);
    s ← slice_ text 5 7; m ← of_opt (parse_digits s); month ← of_opt (try_from 0 u32_MAX m);
    s ← slice_ text 8 10; d ← of_opt (parse_digits s); day ← of_opt (try_from 0 u32_MAX d);
    year ← of_opt (try_from i32_MIN i32_MAX year);
    Ok (year, month, day).

Definition parse_date (text : string) : opt Z :=
  '(year, month, day) ← parse_ymd text;
  of_opt (days_from_civil year month day).

(** The value of the first three digits of a fraction, padded with zeros. *)
Definition fraction_millis (fraction : list ascii) : Z :=
  fold_left (fun value b => value * 10 + (byte_val b - 48))
    (take 3 fraction ++ replicate (3 - length fraction) "0"%char) 0.

Definition fraction_refused (fraction : list ascii) (require_millis : bool) : bool :=
  match fraction with
  | [] => true
  | _ =>
      negb (forallb is_ascii_digit fraction)
      || (require_millis && negb (length fraction =? 3)%nat)
      || negb (forallb (Ascii.eqb "0") (drop 3 fraction))
  end.

Definition parse_hms (text : string) (require_millis : bool) : opt Z :=
  if (str_len text <? 8) || negb (byte_is text 2 ":") || negb (byte_is text 5 ":")
  then Err tt
  else
    s ← slice_ text 0 2; h ← of_opt (parse_digits s); hour ← of_opt (try_from 0 u32_MAX h);
    s ← slice_ text 3 5; m ← of_opt (parse_digits s); minute ← of_opt (try_from 0 u32_MAX m);
    s ← slice_ text 6 8; n ← of_opt (parse_digits s); second ← of_opt (try_from 0 u32_MAX n);
    if (23 <? hour) || (59 <? minute) || (59 <? second) then Err tt
    else
      millis ←
        (if (str_len text =? 8) && negb require_millis then Ok 0
         else if byte_is text 8 "." then
           let fraction := drop 9 (str_bytes text) in
           if fraction_refused fraction require_millis then Err tt
           else Ok (fraction_millis fraction)
         else Err tt);
      Ok (hour * 3600000 + minute * 60000 + second * 1000 + millis).

(** [text.rfind(['+', '-'])] *)
Fixpoint rfind_sign (s : string) : option nat :=
  match s with
  | EmptyString => None
  | String c s =>
      match rfind_sign s with
      | Some i => Some (S i)
      | None => if Ascii.eqb c "+" || Ascii.eqb c "-" then Some O else None
      end
  end.

Definition split_offset (text : string) : opt (string * Z) :=
  match strip_suffix "Z" text with
  | Some time => Ok (time, 0)
  | None =>
      sign_index ← of_opt (rfind_sign text);
      if (sign_index <? 8)%nat then Err tt
      else
        let time := String.substring 0 sign_index text in
        let offset := String.substring sign_index (String.length text - sign_index) text in
        let sign := if starts_with "+" offset then 1 else -1 in
        let offset := String.substring 1 (String.length offset - 1) offset in
        if negb (str_len offset =? 5) || negb (byte_is offset 2 ":") then Err tt
        else
          s ← slice_ offset 0 2; h ← of_opt (parse_digits s);
          hours ← of_opt (try_from i32_MIN i32_MAX h);
          s ← slice_ offset 3 5; m ← of_opt (parse_digits s);
          minutes ← of_opt (try_from i32_MIN i32_MAX m);
          if (23 <? hours) || (59 <? minutes) then Err tt
          else Ok (time, sign * (hours * 3600000 + minutes * 60000))
  end.

Definition parse_rfc3339 (text : string) : opt Z :=
  '(date, rest) ← of_opt (split_once "T" text);
  '(time, offset) ← split_offset rest;
  '(year, month, day) ← parse_ymd date;
  days ← of_opt (days_from_civil year month day);
  millis ← parse_hms time false;
  let utc := days * DAY_MS + millis - offset in
  timestamp ← of_opt (try_from i64_MIN i64_MAX utc);
  utc_days ← of_opt (try_from i32_MIN i32_MAX (div_euclid timestamp DAY_MS));
  if in_range_days utc_days then Ok timestamp else Err tt.

Example temporal_parse_tests :
  parse_date "2024-02-29" = Ok 19782 ∧ parse_date "2023-02-29" = Err tt
  ∧ parse_hms "01:02:03.004" true = Ok 3723004 ∧ parse_hms "01:02:03" true = Err tt
  ∧ parse_rfc3339 "1970-01-01T01:00:00.000+01:00" = Ok 0
  ∧ parse_rfc3339 "1970-01-01T00:00:00.5Z" = Ok 500.
Proof. repeat split; reflexivity. Qed.

(** ** Digits *)

(** A fixed-width field of decimal digits and its value. *)
Definition digits_ok (w : nat) (text : string) (n : Z) : bool :=
  (String.length text =? w)%nat && forallb is_ascii_digit (str_bytes text)
  && bool_decide (parse_digits text = Some n).

Lemma digits2_checked :
  forall_from (fun n => digits_ok 2 (pad0 2 n) n) 100 0 = true.
Proof. vm_compute. reflexivity. Qed.

Lemma digits3_checked :
  forall_from (fun n => digits_ok 3 (pad0 3 n) n
    && (fraction_millis (str_bytes (pad0 3 n)) =? n)) 1000 0 = true.
Proof. vm_compute. reflexivity. Qed.

Lemma digits4_checked :
  forall_from (fun n => digits_ok 4 (pad0 4 n) n) 10000 0 = true.
Proof. vm_compute. reflexivity. Qed.

Lemma digit_facts (c : ascii) :
  is_ascii_digit c = true →
  is_continuation c = false ∧ Ascii.eqb c "T" = false ∧ Ascii.eqb c "Z" = false.
Proof. destruct c as [[] [] [] [] [] [] [] []]; vm_compute; auto; discriminate. Qed.

Lemma digits2 n : 0 ≤ n < 100 →
  ∃ a b, pad0 2 n = String a (String b "") ∧
    is_ascii_digit a = true ∧ is_ascii_digit b = true ∧
    parse_digits (String a (String b "")) = Some n.
Proof.
  intros Hn. pose proof (forall_below _ 100 n digits2_checked Hn) as H.
  unfold digits_ok in H. destruct (pad0 2 n) as [|a [|b [|c s]]]; try discriminate H.
  apply andb_prop in H as [H Hp%bool_decide_eq_true]. simpl in H.
  apply andb_prop in H as [Ha [Hb _]%andb_prop]. by exists a, b.
Qed.

Lemma digits3 n : 0 ≤ n < 1000 →
  ∃ a b c, pad0 3 n = String a (String b (String c "")) ∧
    is_ascii_digit a = true ∧ is_ascii_digit b = true ∧ is_ascii_digit c = true ∧
    fraction_millis [a; b; c] = n.
Proof.
  intros Hn. pose proof (forall_below _ 1000 n digits3_checked Hn) as H.
  unfold digits_ok in H. destruct (pad0 3 n) as [|a [|b [|c [|d s]]]]; try discriminate H.
  apply andb_prop in H as [H Hm]. apply Z.eqb_eq in Hm.
  apply andb_prop in H as [H _]. simpl in H.
  apply andb_prop in H as [Ha [Hb [Hc _]%andb_prop]%andb_prop]. by exists a, b, c.
Qed.

Lemma digits4 n : 0 ≤ n < 10000 →
  ∃ a b c d, pad0 4 n = String a (String b (String c (String d ""))) ∧
    is_ascii_digit a = true ∧ is_ascii_digit b = true ∧ is_ascii_digit c = true ∧
    is_ascii_digit d = true ∧ parse_digits (pad0 4 n) = Some n.
Proof.
  intros Hn. pose proof (forall_below _ 10000 n digits4_checked Hn) as H.
  unfold digits_ok in H. destruct (pad0 4 n) as [|a [|b [|c [|d [|e s]]]]]; try discriminate H.
  apply andb_prop in H as [H Hp%bool_decide_eq_true]. simpl in H.
  apply andb_prop in H as [Ha [Hb [Hc [Hd _]%andb_prop]%andb_prop]%andb_prop].
  by exists a, b, c, d.
Qed.

(** ** Round trips *)

Lemma civil_time_range millis : 0 ≤ millis < DAY_MS →
  let '(h, m, s, ms) := civil_time millis in
  0 ≤ h < 24 ∧ 0 ≤ m < 60 ∧ 0 ≤ s < 60 ∧ 0 ≤ ms < 1000
  ∧ h * 3600000 + m * 60000 + s * 1000 + ms = millis.
Proof. unfold DAY_MS, civil_time. intros H. Z.to_euclidean_division_equations. lia. Qed.

#[local] Arguments parse_digits : simpl never.
#[local] Arguments days_from_civil : simpl never.
#[local] Arguments civil_from_days : simpl never.
#[local] Arguments parse_hms : simpl never.
#[local] Arguments parse_ymd : simpl never.
#[local] Arguments format_date : simpl never.
#[local] Arguments format_time : simpl never.
#[local] Arguments try_from : simpl never.
#[local] Arguments Z.mul : simpl never.
#[local] Arguments Z.add : simpl never.
#[local] Arguments Z.div : simpl never.

(** A slice between two bytes that start scalars. *)
Lemma slice_at {E} (text out : string) (i j : nat) (a : ascii) :
  (i <= j)%nat → str_bytes text !! i = Some a → is_continuation a = false →
  ((∃ b, str_bytes text !! j = Some b ∧ is_continuation b = false)
   ∨ str_bytes text !! j = None ∧ j = String.length text) →
  String.substring i (j - i) text = out → @slice_ E text i j = Ok out.
Proof.
  intros Hij Ha Hca Hb Hout. unfold slice_, slice, is_char_boundary. rewrite Ha, Hca.
  apply Nat.leb_le in Hij. rewrite Hij.
  destruct Hb as [(b & -> & ->)|[-> ->]]; simpl; [|rewrite Nat.eqb_refl]; by rewrite Hout.
Qed.

Ltac slices :=
  repeat (erewrite slice_at;
    [ | lia | reflexivity | eassumption || reflexivity
      | first [left; eexists; split; [reflexivity | eassumption || reflexivity] | right; split; reflexivity]
      | reflexivity ]).

Ltac step_opt := cbv beta iota delta [mbind res_bind of_opt ok_or].

Lemma small_u32 n : 0 ≤ n < 10000 → try_from 0 u32_MAX n = Some n.
Proof.
  intros Hn. unfold try_from. assert (in_range 0 u32_MAX n = true) as ->; [|done].
  apply in_range_spec. unfold u32_MAX. lia.
Qed.

(** What [format_time] prints is read back, with or without the strict
    fraction. *)
Lemma parse_hms_format_time millis strict :
  0 ≤ millis < DAY_MS → parse_hms (format_time millis) strict = Ok millis.
Proof.
  intros Hms. pose proof (civil_time_range millis Hms) as H.
  unfold format_time. destruct (civil_time millis) as [[[h m] s] ms].
  destruct H as (Hh & Hm & Hs & Hf & Hsum).
  destruct (digits2 h) as (h1 & h2 & -> & Hh1 & Hh2 & Ph); [lia|].
  destruct (digits2 m) as (m1 & m2 & -> & Hm1 & Hm2 & Pm); [lia|].
  destruct (digits2 s) as (s1 & s2 & -> & Hs1 & Hs2 & Ps); [lia|].
  destruct (digits3 ms) as (f1 & f2 & f3 & -> & Hf1 & Hf2 & Hf3 & Pf); [lia|].
  apply digit_facts in Hh1 as (? & _), Hh2 as (? & _), Hm1 as (? & _), Hm2 as (? & _),
    Hs1 as (? & _), Hs2 as (? & _).
  cbv beta iota delta [String.append]. unfold parse_hms.
  set (text := String h1 _).
  change (str_len text <? 8) with false. change (str_len text =? 8) with false.
  change (byte_is text 2 ":") with true. change (byte_is text 5 ":") with true.
  change (byte_is text 8 ".") with true.
  change (drop 9 (str_bytes text)) with [f1; f2; f3].
  assert (fraction_refused [f1; f2; f3] strict = false) as ->.
  { simpl. rewrite Hf1, Hf2, Hf3. by destruct strict. }
  simpl negb. cbv iota. simpl orb. cbv iota.
  slices.
  change (String.substring 0 (2 - 0) text) with (String h1 (String h2 "")).
  change (String.substring 3 (5 - 3) text) with (String m1 (String m2 "")).
  change (String.substring 6 (8 - 6) text) with (String s1 (String s2 "")).
  simpl. rewrite Ph, Pm, Ps. simpl. rewrite !small_u32 by lia. simpl.
  assert (23 <? h = false) as -> by lia. assert (59 <? m = false) as -> by lia.
  assert (59 <? s = false) as -> by lia. simpl. rewrite Pf. f_equal. lia.
Qed.

Lemma parse_ymd_format_date days :
  MIN_DAYS ≤ days ≤ MAX_DAYS →
  let date := civil_from_days days in
  parse_ymd (format_date days) = Ok (c_year date, c_month date, c_day date).
Proof.
  intros Hd. cbv zeta.
  destruct (civil_from_days_fields days Hd) as (Hy & Hm & Hday). unfold MIN_YEAR, MAX_YEAR in Hy.
  unfold format_date. destruct (civil_from_days days) as [y m d]. simpl in Hy, Hm, Hday |- *.
  destruct (digits4 y) as (y1 & y2 & y3 & y4 & Ey & Hy1 & Hy2 & Hy3 & Hy4 & Py); [lia|].
  rewrite Ey in *.
  destruct (digits2 m) as (m1 & m2 & -> & Hm1 & Hm2 & Pm); [lia|].
  destruct (digits2 d) as (d1 & d2 & -> & Hd1 & Hd2 & Pd); [lia|].
  apply digit_facts in Hy1 as (? & _), Hm1 as (? & _), Hd1 as (? & _).
  cbv beta iota delta [String.append]. unfold parse_ymd.
  set (text := String y1 _).
  change (str_len text =? 10) with true. change (byte_is text 4 "-") with true.
  change (byte_is text 7 "-") with true. simpl negb. cbv iota. simpl orb. cbv iota.
  slices.
  change (String.substring 0 (4 - 0) text) with (String y1 (String y2 (String y3 (String y4 "")))).
  change (String.substring 5 (7 - 5) text) with (String m1 (String m2 "")).
  change (String.substring 8 (10 - 8) text) with (String d1 (String d2 "")).
  simpl. rewrite Py, Pm, Pd. simpl. rewrite !small_u32 by lia. simpl.
  unfold try_from. assert (in_range i32_MIN i32_MAX y = true) as ->; [|done].
  apply in_range_spec. unfold i32_MIN, i32_MAX. lia.
Qed.

(** The ['T'] of a timestamp is the first one: a date has none. *)
Lemma split_date_time days rest :
  MIN_DAYS ≤ days ≤ MAX_DAYS →
  split_once "T" (format_date days +:+ "T" +:+ rest) = Some (format_date days, rest).
Proof.
  intros Hd. destruct (civil_from_days_fields days Hd) as (Hy & Hm & Hday).
  unfold MIN_YEAR, MAX_YEAR in Hy.
  unfold format_date. destruct (civil_from_days days) as [y m d]. simpl in Hy, Hm, Hday |- *.
  destruct (digits4 y) as (y1 & y2 & y3 & y4 & -> & Hy1 & Hy2 & Hy3 & Hy4 & _); [lia|].
  destruct (digits2 m) as (m1 & m2 & -> & Hm1 & Hm2 & _); [lia|].
  destruct (digits2 d) as (d1 & d2 & -> & Hd1 & Hd2 & _); [lia|].
  cbv beta iota delta [String.append]. simpl.
  apply digit_facts in Hy1 as (_ & -> & _), Hy2 as (_ & -> & _), Hy3 as (_ & -> & _),
    Hy4 as (_ & -> & _), Hm1 as (_ & -> & _), Hm2 as (_ & -> & _), Hd1 as (_ & -> & _),
    Hd2 as (_ & -> & _).
  done.
Qed.

Lemma split_offset_utc time : split_offset (time +:+ "Z") = Ok (time, 0).
Proof.
  unfold split_offset. assert (strip_suffix "Z" (time +:+ "Z") = Some time) as ->; [|done].
  by apply strip_suffix_Some.
Qed.

(** The canonical text of every timestamp in the calendar is read back as that
    timestamp. *)
Theorem parse_rfc3339_format (timestamp : Z) (text : string)
    (Hts : i64_MIN ≤ timestamp ≤ i64_MAX) (Htext : rfc3339 timestamp = Some text) :
  parse_rfc3339 text = Ok timestamp.
Proof.
  unfold rfc3339 in Htext.
  destruct (split_timestamp timestamp) as [[days millis]|] eqn:Hsplit; [|discriminate].
  apply (inj Some) in Htext as <-. apply split_timestamp_Some in Hsplit as (Hd & Hm & Hsum); [|done].
  unfold parse_rfc3339. rewrite split_date_time by done. step_opt.
  rewrite split_offset_utc. step_opt. rewrite parse_ymd_format_date by done. step_opt.
  destruct (civil_from_days_valid days Hd) as [[-> Hin] _]. step_opt.
  rewrite parse_hms_format_time by done. step_opt.
  replace (days * DAY_MS + millis - 0) with timestamp by lia.
  unfold try_from. assert (in_range i64_MIN i64_MAX timestamp = true) as -> by by apply in_range_spec.
  step_opt. change (div_euclid timestamp DAY_MS) with (timestamp / DAY_MS).
  assert (timestamp / DAY_MS = days) as -> by (unfold DAY_MS in *; Z.to_euclidean_division_equations; lia).
  assert (in_range i32_MIN i32_MAX days = true) as ->.
  { apply in_range_spec. unfold MIN_DAYS, MAX_DAYS, i32_MIN, i32_MAX in *. lia. }
  step_opt. by rewrite Hin.
Qed.

Lemma parse_rfc3339_format_witness : parse_rfc3339 "2026-09-28T11:05:03.042Z" = Ok 1790593503042.
Proof.
  apply (parse_rfc3339_format 1790593503042); [split; discriminate | reflexivity].
Defined.

(** ** Bounds *)

Lemma of_opt_Ok {A} (o : option A) a : of_opt o = Ok a ↔ o = Some a.
Proof. apply ok_or_Ok. Qed.

Lemma try_from_Some lo hi v w : try_from lo hi v = Some w ↔ w = v ∧ lo ≤ v ≤ hi.
Proof.
  unfold try_from. destruct (in_range lo hi v) eqn:E.
  - apply in_range_spec in E. split; [by intros [= <-] | by intros [-> _]].
  - apply in_range_false in E. split; [discriminate | lia].
Qed.

Lemma digit_val c : is_ascii_digit c = true → 0 ≤ byte_val c - 48 ≤ 9.
Proof. unfold is_ascii_digit. rewrite in_range_spec. lia. Qed.

Lemma fraction_millis_range fraction strict :
  fraction_refused fraction strict = false → 0 ≤ fraction_millis fraction < 1000.
Proof.
  intros Href.
  assert (fraction ≠ [] ∧ forallb is_ascii_digit fraction = true) as [Hne Hdig].
  { destruct fraction as [|a f]; [discriminate|]. split; [done|].
    unfold fraction_refused in Href. apply orb_false_iff in Href as [Href _].
    by apply orb_false_iff in Href as [Href%negb_false_iff _]. }
  clear Href. unfold fraction_millis.
  destruct fraction as [|a [|b [|c rest]]]; [done| | |]; simpl in Hdig |- *;
    repeat match type of Hdig with _ && _ = true =>
      let Hc := fresh in apply andb_prop in Hdig as [Hc Hdig]; apply digit_val in Hc end;
    change (byte_val "0") with 48; try rewrite take_0; simpl fold_left; lia.
Qed.

(** A date or a time of day that parses is in the calendar. *)
Theorem parsed_values_in_range (text : string) (strict : bool) :
  (∀ days, parse_date text = Ok days → MIN_DAYS ≤ days ≤ MAX_DAYS)
  ∧ (∀ millis, parse_hms text strict = Ok millis → 0 ≤ millis < DAY_MS).
Proof.
  split.
  - intros days H. unfold parse_date in H. inv_ok. destruct a as [[year month] day].
    apply of_opt_Ok in H. apply (days_from_civil_valid year month day); [|done].
    unfold parse_ymd in Ha. destruct (_ || _)%bool; [discriminate|]. inv_ok.
    repeat match goal with X : of_opt _ = Ok _ |- _ => apply of_opt_Ok in X end.
    repeat match goal with X : try_from _ _ _ = Some _ |- _ => apply try_from_Some in X as [-> X] end.
    congruence || lia.
  - intros millis H. unfold parse_hms in H. destruct (_ || _)%bool; [discriminate|]. inv_ok.
    destruct (_ || _)%bool eqn:Hb; [discriminate|]. z_bools. inv_ok.
    repeat match goal with X : of_opt _ = Ok _ |- _ => apply of_opt_Ok in X end.
    repeat match goal with X : try_from _ _ _ = Some _ |- _ => apply try_from_Some in X as [-> X] end.
    match goal with X : (if _ then _ else _) = Ok ?v |- _ => assert (0 ≤ v < 1000) end.
    { bool_cases; inv_ok; [lia|]. by eapply fraction_millis_range. }
    unfold DAY_MS. lia.
Qed.

(** A text whose ninth byte is inside a scalar makes the parser slice that
    scalar in half: it panics instead of refusing the text. *)
Theorem parse_hms_panics_inside_a_scalar :
  parse_hms ("00:00:0" +:+ utf8_encode 233) true = Panic "byte index is not a char boundary".
Proof. vm_compute. reflexivity. Qed.
