(* ===== verification/TimeZone.v ===== *)
(** * TimeZone: time zones and daylight saving
    ([crates/bn_core_text/src/timezone.rs])

    The zone table, the five daylight-saving rules and the conversions between
    UTC timestamps and local civil time, with the diagnostics
    [crates/bn_interp/src/temporal.rs] adds.  Offsets are [i32] seconds and
    timestamps [i64] milliseconds; every sum below stays in those types, so the
    code's unchecked additions neither wrap nor trap. *)

From S2P Require Import Prelude Text Diag Floats Civil Temporal.

#[local] Open Scope string_scope.
#[local] Open Scope Z_scope.

Definition SECONDS_PER_MINUTE : Z := 60.
Definition SECONDS_PER_HOUR : Z := 3600.
Definition MILLIS_PER_SECOND : Z := 1000.
Definition MILLIS_PER_HOUR : Z := SECONDS_PER_HOUR * MILLIS_PER_SECOND.
Definition MILLIS_PER_DAY : Z := 24 * MILLIS_PER_HOUR.
Definition ONE_HOUR_DST_SECS : Z := SECONDS_PER_HOUR.

Inductive DstRule := RuleNone | RuleUsCanada | RuleEuUk | RuleBrazil | RuleAuEast | RuleNz.
Record TimeZoneInfo := mkZone { base_offset : Z; rule : DstRule }.

Definition TIMEZONES : list (string * TimeZoneInfo) :=
  [
   ("UTC", mkZone 0 RuleNone);
   ("Etc/UTC", mkZone 0 RuleNone);
   ("Etc/GMT", mkZone 0 RuleNone);
   ("GMT", mkZone 0 RuleNone);
   ("America/New_York", mkZone (-5 * SECONDS_PER_HOUR) RuleUsCanada);
   ("America/Detroit", mkZone (-5 * SECONDS_PER_HOUR) RuleUsCanada);
   ("America/Chicago", mkZone (-6 * SECONDS_PER_HOUR) RuleUsCanada);
   ("America/Denver", mkZone (-7 * SECONDS_PER_HOUR) RuleUsCanada);
   ("America/Phoenix", mkZone (-7 * SECONDS_PER_HOUR) RuleNone);
   ("America/Los_Angeles", mkZone (-8 * SECONDS_PER_HOUR) RuleUsCanada);
   ("America/Anchorage", mkZone (-9 * SECONDS_PER_HOUR) RuleUsCanada);
   ("America/Honolulu", mkZone (-10 * SECONDS_PER_HOUR) RuleNone);
   ("America/Toronto", mkZone (-5 * SECONDS_PER_HOUR) RuleUsCanada);
   ("America/Vancouver", mkZone (-8 * SECONDS_PER_HOUR) RuleUsCanada);
   ("Europe/London", mkZone 0 RuleEuUk);
   ("Europe/Dublin", mkZone 0 RuleEuUk);
   ("Europe/Lisbon", mkZone 0 RuleEuUk);
   ("Europe/Paris", mkZone SECONDS_PER_HOUR RuleEuUk);
   ("Europe/Berlin", mkZone SECONDS_PER_HOUR RuleEuUk);
   ("Europe/Rome", mkZone SECONDS_PER_HOUR RuleEuUk);
   ("Europe/Madrid", mkZone SECONDS_PER_HOUR RuleEuUk);
   ("Europe/Amsterdam", mkZone SECONDS_PER_HOUR RuleEuUk);
   ("Europe/Brussels", mkZone SECONDS_PER_HOUR RuleEuUk);
   ("Europe/Vienna", mkZone SECONDS_PER_HOUR RuleEuUk);
   ("Europe/Stockholm", mkZone SECONDS_PER_HOUR RuleEuUk);
   ("Europe/Oslo", mkZone SECONDS_PER_HOUR RuleEuUk);
   ("Europe/Copenhagen", mkZone SECONDS_PER_HOUR RuleEuUk);
   ("Europe/Warsaw", mkZone SECONDS_PER_HOUR RuleEuUk);
   ("Europe/Prague", mkZone SECONDS_PER_HOUR RuleEuUk);
   ("Europe/Budapest", mkZone SECONDS_PER_HOUR RuleEuUk);
   ("Europe/Athens", mkZone (2 * SECONDS_PER_HOUR) RuleEuUk);
   ("Europe/Helsinki", mkZone (2 * SECONDS_PER_HOUR) RuleEuUk);
   ("Europe/Bucharest", mkZone (2 * SECONDS_PER_HOUR) RuleEuUk);
   ("Europe/Kyiv", mkZone (2 * SECONDS_PER_HOUR) RuleEuUk);
   ("America/Sao_Paulo", mkZone (-3 * SECONDS_PER_HOUR) RuleBrazil);
   ("America/Buenos_Aires", mkZone (-3 * SECONDS_PER_HOUR) RuleNone);
   ("America/Argentina/Buenos_Aires", mkZone (-3 * SECONDS_PER_HOUR) RuleNone);
   ("America/Santiago", mkZone (-4 * SECONDS_PER_HOUR) RuleNone);
   ("America/Bogota", mkZone (-5 * SECONDS_PER_HOUR) RuleNone);
   ("America/Lima", mkZone (-5 * SECONDS_PER_HOUR) RuleNone);
   ("America/Montevideo", mkZone (-3 * SECONDS_PER_HOUR) RuleNone);
   ("Asia/Tokyo", mkZone (9 * SECONDS_PER_HOUR) RuleNone);
   ("Asia/Seoul", mkZone (9 * SECONDS_PER_HOUR) RuleNone);
   ("Asia/Shanghai", mkZone (8 * SECONDS_PER_HOUR) RuleNone);
   ("Asia/Hong_Kong", mkZone (8 * SECONDS_PER_HOUR) RuleNone);
   ("Asia/Singapore", mkZone (8 * SECONDS_PER_HOUR) RuleNone);
   ("Asia/Taipei", mkZone (8 * SECONDS_PER_HOUR) RuleNone);
   ("Asia/Manila", mkZone (8 * SECONDS_PER_HOUR) RuleNone);
   ("Asia/Kolkata", mkZone (5 * SECONDS_PER_HOUR + 30 * SECONDS_PER_MINUTE) RuleNone);
   ("Asia/Bangkok", mkZone (7 * SECONDS_PER_HOUR) RuleNone);
   ("Asia/Jakarta", mkZone (7 * SECONDS_PER_HOUR) RuleNone);
   ("Asia/Dubai", mkZone (4 * SECONDS_PER_HOUR) RuleNone);
   ("Australia/Sydney", mkZone (10 * SECONDS_PER_HOUR) RuleAuEast);
   ("Australia/Melbourne", mkZone (10 * SECONDS_PER_HOUR) RuleAuEast);
   ("Australia/Brisbane", mkZone (10 * SECONDS_PER_HOUR) RuleNone);
   ("Australia/Perth", mkZone (8 * SECONDS_PER_HOUR) RuleNone);
   ("Australia/Adelaide", mkZone (9 * SECONDS_PER_HOUR + 30 * SECONDS_PER_MINUTE) RuleAuEast);
   ("Pacific/Auckland", mkZone (12 * SECONDS_PER_HOUR) RuleNz);
   ("Pacific/Honolulu", mkZone (-10 * SECONDS_PER_HOUR) RuleNone);
   ("Pacific/Fiji", mkZone (12 * SECONDS_PER_HOUR) RuleNone);
   ("Africa/Cairo", mkZone (2 * SECONDS_PER_HOUR) RuleNone);
   ("Africa/Johannesburg", mkZone (2 * SECONDS_PER_HOUR) RuleNone);
   ("Africa/Lagos", mkZone SECONDS_PER_HOUR RuleNone);
   ("Africa/Nairobi", mkZone (3 * SECONDS_PER_HOUR) RuleNone)].

(** [s.split_at(1)]: a panic inside a multi-byte scalar. *)
Definition split_at1 (s : string) : opt (string * string) :=
  l ← slice_ s 0 1; r ← slice_ s 1 (String.length s); Ok (l, r).

Definition lookup_timezone (name : string) : opt TimeZoneInfo :=
  match List.find (fun z : string * TimeZoneInfo => String.eqb z.1 name) TIMEZONES with
  | Some (_, info) => Ok info
  | None =>
      match strip_prefix "Etc/GMT" name with
      | Some EmptyString => Ok (mkZone 0 RuleNone)
      | Some suffix =>
          '(sign, digits) ← split_at1 suffix;
          hours ← of_opt (from_str_radix i32_MIN i32_MAX 10 digits);
          if in_range 1 14 hours then
            match sign with
            | "+" => Ok (mkZone (- hours * SECONDS_PER_HOUR) RuleNone)
            | "-" => Ok (mkZone (hours * SECONDS_PER_HOUR) RuleNone)
            | _ => Err tt
            end
          else Err tt
      | None => Err tt
      end
  end.

(** [lookup_timezone(name).is_some()] *)
Definition is_known_timezone (name : string) : opt bool :=
  match lookup_timezone name with
  | Ok _ => Ok true
  | Err _ => Ok false
  | Panic w => Panic w
  | Fuel => Fuel
  end.

Definition weekday_sunday_zero (days : Z) : Z := rem_euclid (days + 4) 7.

Definition nth_sunday_of_month (year month n : Z) : option Z :=
  first_day ← days_from_civil year month 1;
  let w := weekday_sunday_zero first_day in
  let first_sunday := 1 + (7 - w) mod 7 in
  Some (first_sunday + (n - 1) * 7).

Definition last_sunday_of_month (year month : Z) : option Z :=
  last_day_num ← days_in_month year month;
  last_day ← days_from_civil year month last_day_num;
  Some (last_day_num - weekday_sunday_zero last_day).

(** [let Some(x) = o else { return false }] *)
Definition or_false {A} (o : option A) (k : A → bool) : bool :=
  match o with Some a => k a | None => false end.

Definition us_canada_dst (base_offset year timestamp : Z) : bool :=
  or_false (nth_sunday_of_month year 3 2) (fun start_day =>
  or_false (days_from_civil year 3 start_day) (fun start_days =>
  let start_utc_ms := start_days * MILLIS_PER_DAY + 2 * MILLIS_PER_HOUR
                      - base_offset * MILLIS_PER_SECOND in
  or_false (nth_sunday_of_month year 11 1) (fun end_day =>
  or_false (days_from_civil year 11 end_day) (fun end_days =>
  let end_utc_ms := end_days * MILLIS_PER_DAY + 2 * MILLIS_PER_HOUR
                    - (base_offset + ONE_HOUR_DST_SECS) * MILLIS_PER_SECOND in
  (start_utc_ms <=? timestamp) && (timestamp <? end_utc_ms))))).

Definition eu_uk_dst (year timestamp : Z) : bool :=
  or_false (last_sunday_of_month year 3) (fun start_day =>
  or_false (days_from_civil year 3 start_day) (fun start_days =>
  let start_utc_ms := start_days * MILLIS_PER_DAY + MILLIS_PER_HOUR in
  or_false (last_sunday_of_month year 10) (fun end_day =>
  or_false (days_from_civil year 10 end_day) (fun end_days =>
  let end_utc_ms := end_days * MILLIS_PER_DAY + MILLIS_PER_HOUR in
  (start_utc_ms <=? timestamp) && (timestamp <? end_utc_ms))))).

Definition brazil_dst (year timestamp : Z) : bool :=
  if 2019 <=? year then false else
  or_false (nth_sunday_of_month year 10 3) (fun start_day =>
  or_false (days_from_civil year 10 start_day) (fun start_days =>
  let start_utc_ms := start_days * MILLIS_PER_DAY + 3 * MILLIS_PER_HOUR in
  or_false (nth_sunday_of_month (year + 1) 2 3) (fun end_day =>
  or_false (days_from_civil (year + 1) 2 end_day) (fun end_days =>
  let end_utc_ms := end_days * MILLIS_PER_DAY + 2 * MILLIS_PER_HOUR in
  if (start_utc_ms <=? timestamp) && (timestamp <? end_utc_ms) then true else
  or_false (nth_sunday_of_month year 2 3) (fun prev_end_day =>
  or_false (days_from_civil year 2 prev_end_day) (fun prev_end_days =>
  let prev_end_utc_ms := prev_end_days * MILLIS_PER_DAY + 2 * MILLIS_PER_HOUR in
  timestamp <? prev_end_utc_ms)))))).

(** The common end of the southern rules: summer time that ends on the first
    Sunday of April, 03:00 local summer time. *)
Definition southern_dst (base_offset year timestamp start_utc_ms : Z) : bool :=
  or_false (nth_sunday_of_month (year + 1) 4 1) (fun end_day =>
  or_false (days_from_civil (year + 1) 4 end_day) (fun end_days =>
  let end_utc_ms := end_days * MILLIS_PER_DAY + 3 * MILLIS_PER_HOUR
                    - (base_offset + ONE_HOUR_DST_SECS) * MILLIS_PER_SECOND in
  if (start_utc_ms <=? timestamp) && (timestamp <? end_utc_ms) then true else
  or_false (nth_sunday_of_month year 4 1) (fun prev_end_day =>
  or_false (days_from_civil year 4 prev_end_day) (fun prev_end_days =>
  let prev_end_utc_ms := prev_end_days * MILLIS_PER_DAY + 3 * MILLIS_PER_HOUR
                         - (base_offset + ONE_HOUR_DST_SECS) * MILLIS_PER_SECOND in
  timestamp <? prev_end_utc_ms)))).

Definition au_east_dst (base_offset year timestamp : Z) : bool :=
  or_false (nth_sunday_of_month year 10 1) (fun start_day =>
  or_false (days_from_civil year 10 start_day) (fun start_days =>
  southern_dst base_offset year timestamp
    (start_days * MILLIS_PER_DAY + 2 * MILLIS_PER_HOUR - base_offset * MILLIS_PER_SECOND))).

Definition nz_dst (base_offset year timestamp : Z) : bool :=
  or_false (last_sunday_of_month year 9) (fun start_day =>
  or_false (days_from_civil year 9 start_day) (fun start_days =>
  southern_dst base_offset year timestamp
    (start_days * MILLIS_PER_DAY + 2 * MILLIS_PER_HOUR - base_offset * MILLIS_PER_SECOND))).

Definition is_dst_active (info : TimeZoneInfo) (timestamp : Z) : bool :=
  or_false (split_timestamp timestamp) (fun '(days, _) =>
  let year := c_year (civil_from_days days) in
  match rule info with
  | RuleNone => false
  | RuleUsCanada => us_canada_dst (base_offset info) year timestamp
  | RuleEuUk => eu_uk_dst year timestamp
  | RuleBrazil => brazil_dst year timestamp
  | RuleAuEast => au_east_dst (base_offset info) year timestamp
  | RuleNz => nz_dst (base_offset info) year timestamp
  end).

(** The offset of a zone at a timestamp (the body of [timezone_offset]). *)
Definition zone_offset (info : TimeZoneInfo) (timestamp : Z) : Z :=
  if is_dst_active info timestamp then base_offset info + ONE_HOUR_DST_SECS
  else base_offset info.

Definition timezone_offset (name : string) (timestamp : Z) : opt Z :=
  info ← lookup_timezone name; Ok (zone_offset info timestamp).

Definition timezone_is_dst (name : string) (timestamp : Z) : opt bool :=
  info ← lookup_timezone name; Ok (is_dst_active info timestamp).

Definition format_at_zone (timestamp : Z) (timezone_name : string) : opt string :=
  offset_secs ← timezone_offset timezone_name timestamp;
  local_timestamp ←
    of_opt (try_from i64_MIN i64_MAX (timestamp + offset_secs * MILLIS_PER_SECOND));
  '(days, millis) ← of_opt (split_timestamp local_timestamp);
  let date_str := format_date days in
  let time_str := format_time millis in
  if offset_secs =? 0 then Ok (date_str +:+ "T" +:+ time_str +:+ "Z")
  else
    let sign := if offset_secs <? 0 then "-" else "+" in
    let abs_secs := Z.abs offset_secs in
    let hours := abs_secs / SECONDS_PER_HOUR in
    let minutes := (abs_secs mod SECONDS_PER_HOUR) / SECONDS_PER_MINUTE in
    Ok (date_str +:+ "T" +:+ time_str +:+ sign +:+ pad0 2 hours +:+ ":" +:+ pad0 2 minutes).

Definition timestamp_from_local (days millis : Z) (timezone_name : string) : opt Z :=
  info ← lookup_timezone timezone_name;
  let local_ms := totimestamp days millis in
  let approx_utc := local_ms - base_offset info * MILLIS_PER_SECOND in
  offset1 ← timezone_offset timezone_name approx_utc;
  let utc1 := local_ms - offset1 * MILLIS_PER_SECOND in
  offset2 ← timezone_offset timezone_name utc1;
  let final_utc := if offset2 =? offset1 then utc1
                   else local_ms - offset2 * MILLIS_PER_SECOND in
  '(utc_days, _) ← of_opt (split_timestamp final_utc);
  if in_range_days utc_days then Ok final_utc else Err tt.

Example timezone_tests :
  timezone_offset "America/New_York" (totimestamp 20468 43200000) = Ok (-18000)
  ∧ format_at_zone (totimestamp 20649 43200000) "America/New_York"
      = Ok "2026-07-15T08:00:00.000-04:00"
  ∧ format_at_zone (totimestamp 20649 43200000) "Europe/London"
      = Ok "2026-07-15T13:00:00.000+01:00"
  ∧ timezone_offset "Etc/GMT+3" 0 = Ok (-10800)
  ∧ timestamp_from_local 20687 26430000 "America/Sao_Paulo" = Ok (totimestamp 20687 37230000).
Proof. repeat split; vm_compute; reflexivity. Qed.

(** ** The interpreter's diagnostics ([crates/bn_interp/src/temporal.rs]) *)

Definition default_date : Z := 0.
Definition default_time : Z := 0.

(** [Err(temporal_error(id, message, span))] *)
Definition temporal_error {A} (id : DiagId) (message : string) (span : Span) : result A :=
  match argument_schema id with
  | [only] =>
      d ← expect "runtime compatibility diagnostic schema"
            (structured id [(only, message)] span);
      Err d
  | _ => Panic "needs an explicit argument mapping"
  end.

Definition out_of_range {A} (span : Span) : result A :=
  temporal_error FORMAT_OUT_OF_RANGE RANGE_ERROR span.

Definition unsupported_timezone {A} (tz : string) (span : Span) : result A :=
  temporal_error INVALID_TIMEZONE
    ("'" +:+ tz +:+ "' " +:+ msg_timezone_not_supported) span.

Definition interp_parse_date (text : string) (span : Span) : result Z :=
  '(year, month, day) ← opt_or_else (parse_ymd text)
    (temporal_error INVALID_DATE "DATE must be YYYY-MM-DD" span);
  opt_or_else (of_opt (days_from_civil year month day))
    (temporal_error INVALID_DATE (text +:+ " is not a valid DATE") span).

Definition interp_parse_time (text : string) (span : Span) : result Z :=
  opt_or_else (parse_hms text true) (temporal_error INVALID_TIME "TIME must be HH:MM:SS.mmm" span).

Definition parse_timezone (text : string) (span : Span) : result string :=
  if is_timezone_id text then Ok text
  else temporal_error INVALID_TIMEZONE
         ("'" +:+ text +:+ "' is not a canonical IANA time-zone identifier") span.

Definition interp_parse_rfc3339 (text : string) (span : Span) : result Z :=
  opt_or_else (parse_rfc3339 text)
    (temporal_error PARSE_ERROR ("'" +:+ text +:+ "' is not an RFC 3339 TIMESTAMP") span).

Definition format_rfc3339 (timestamp : Z) (span : Span) : result string :=
  opt_or_else (of_opt (rfc3339 timestamp)) (out_of_range span).

Definition interp_timezone_offset (tz : string) (timestamp : Z) (span : Span) : result Z :=
  opt_or_else (timezone_offset tz timestamp) (unsupported_timezone tz span).

Definition interp_timezone_is_dst (tz : string) (timestamp : Z) (span : Span) : result bool :=
  opt_or_else (timezone_is_dst tz timestamp) (unsupported_timezone tz span).

(** [if is_known_timezone(tz) { out_of_range } else { unsupported }] *)
Definition zone_error {A} (tz : string) (span : Span) : result A :=
  known ← opt_or_else (is_known_timezone tz) (Ok false);
  if known : bool then out_of_range span else unsupported_timezone tz span.

Definition interp_format_at_zone (timestamp : Z) (tz : string) (span : Span) : result string :=
  opt_or_else (format_at_zone timestamp tz) (zone_error tz span).

Definition interp_timestamp_from_local (days millis : Z) (tz : string) (span : Span)
    : result Z :=
  opt_or_else (timestamp_from_local days millis tz) (zone_error tz span).

Definition interp_split_timestamp (timestamp : Z) (span : Span) : result (Z * Z) :=
  opt_or_else (of_opt (split_timestamp timestamp)) (out_of_range span).

Definition date_from_timestamp (timestamp : Z) (span : Span) : result Z :=
  p ← interp_split_timestamp timestamp span; Ok p.1.

Definition time_from_timestamp (timestamp : Z) (span : Span) : result Z :=
  p ← interp_split_timestamp timestamp span; Ok p.2.

Definition require_civil_date (days : Z) (span : Span) : result unit :=
  if in_range_days days then Ok tt else out_of_range span.

Definition timestamp_from_date_time (days millis : Z) (span : Span) : result Z :=
  require_civil_date days span ;;
  if 86399999 <? millis then
    temporal_error INVALID_TIME "TIME must be in 00:00:00.000..23:59:59.999" span
  else
    opt_or_else (of_opt (try_from i64_MIN i64_MAX (days * DAY_MS + millis)))
      (temporal_error FORMAT_OUT_OF_RANGE "TIMESTAMP is outside 0001-01-01..9999-12-31" span).

(** ** Theorems *)

(** The offsets of a zone are its base offset and one hour more. *)
Lemma zone_offset_cases info ts :
  zone_offset info ts = base_offset info ∨ zone_offset info ts = base_offset info + 3600.
Proof. unfold zone_offset. destruct (is_dst_active info ts); auto. Qed.

(** The local reading of a UTC timestamp in a zone. *)
Definition local_reading (info : TimeZoneInfo) (ts : Z) : Z := ts + zone_offset info ts * 1000.

(** [Timestamp.FromLocal] finds an instant whose local reading is the given
    date and time.  When none exists (the hour summer time skips) the result
    reads one hour later. *)
Theorem timestamp_from_local_spec (days millis ts : Z) (name : string) (info : TimeZoneInfo)
    (Hzone : lookup_timezone name = Ok info)
    (Hday : MIN_DAYS ≤ days ≤ MAX_DAYS) (Htime : 0 ≤ millis < DAY_MS)
    (Hts : timestamp_from_local days millis name = Ok ts) :
  let local := days * DAY_MS + millis in
  local_reading info ts = local
  ∨ (∀ u, local_reading info u ≠ local) ∧ local_reading info ts = local + 3600000.
Proof.
  cbv zeta. assert (totimestamp days millis = days * DAY_MS + millis) as Elocal.
  { unfold totimestamp, try_from_or, DAY_MS, MIN_DAYS, MAX_DAYS in *.
    assert (in_range 0 u32_MAX millis = true) as ->.
    { apply in_range_spec. unfold u32_MAX. lia. }
    assert (in_range i64_MIN i64_MAX (days * 86400000 + millis) = true) as ->; [|done].
    apply in_range_spec. unfold i64_MIN, i64_MAX. lia. }
  set (local := days * DAY_MS + millis) in *.
  set (A := local - base_offset info * 1000).
  assert (∀ u, local_reading info u = local → u = A ∨ u = A - 3600000) as Huniq.
  { intros u. unfold local_reading, A. destruct (zone_offset_cases info u) as [-> | ->]; lia. }
  unfold timestamp_from_local, timezone_offset in Hts. rewrite Hzone in Hts.
  cbv beta iota zeta delta [mbind res_bind] in Hts. rewrite Elocal in Hts.
  change MILLIS_PER_SECOND with 1000 in Hts. fold A in Hts.
  set (o1 := zone_offset info A) in *.
  destruct (zone_offset_cases info A) as [E1|E1]; fold o1 in E1.
  - replace (local - o1 * 1000) with A in Hts by (unfold A; lia).
    fold o1 in Hts. rewrite Z.eqb_refl in Hts.
    assert (ts = A) as -> by (destruct (of_opt _) as [[d ?]| | |]; [|discriminate..];
      destruct (in_range_days d); congruence).
    left. unfold local_reading. fold o1. unfold A. lia.
  - replace (local - o1 * 1000) with (A - 3600000) in Hts by (unfold A; lia).
    set (o2 := zone_offset info (A - 3600000)) in *.
    destruct (zone_offset_cases info (A - 3600000)) as [E2|E2]; fold o2 in E2.
    + assert (o2 =? o1 = false) as Ene by lia. rewrite Ene in Hts.
      assert (ts = A) as ->.
      { replace (local - o2 * 1000) with A in Hts by (unfold A; lia).
        destruct (of_opt _) as [[d ?]| | |]; [|discriminate..]. destruct (in_range_days d); congruence. }
      right. split.
      * intros u Hu. destruct (Huniq u Hu) as [-> | ->];
          unfold local_reading, A in Hu; fold A in Hu; fold o1 o2 in Hu; unfold A in Hu; lia.
      * unfold local_reading. fold o1. unfold A. lia.
    + assert (o2 =? o1 = true) as Ene by lia. rewrite Ene in Hts.
      assert (ts = A - 3600000) as ->
        by (destruct (of_opt _) as [[d ?]| | |]; [|discriminate..];
            destruct (in_range_days d); congruence).
      left. unfold local_reading. fold o2. unfold A. lia.
Qed.

Lemma timestamp_from_local_spec_witness :
  let info := mkZone (-5 * SECONDS_PER_HOUR) RuleUsCanada in
  local_reading info (totimestamp 20649 43200000) = 20649 * DAY_MS + 28800000
  ∨ (∀ u, local_reading info u ≠ 20649 * DAY_MS + 28800000)
    ∧ local_reading info (totimestamp 20649 43200000) = 20649 * DAY_MS + 28800000 + 3600000.
Proof.
  apply (timestamp_from_local_spec 20649 28800000 (totimestamp 20649 43200000)
           "America/New_York").
  - reflexivity.
  - split; discriminate.
  - split; [discriminate | reflexivity].
  - vm_compute. reflexivity.
Defined.

(** The southern summer of Brazil crosses the year, and the code cuts the last
    one short: 2018-12-31 is in summer time, whose computed end is the third
    Sunday of February 2019, yet 2019-01-01 is not. *)
Theorem brazil_last_summer_cut :
  timezone_is_dst "America/Sao_Paulo" (totimestamp 17896 43200000) = Ok true
  ∧ timezone_is_dst "America/Sao_Paulo" (totimestamp 17897 43200000) = Ok false
  ∧ nth_sunday_of_month 2019 2 3 = Some 17
  ∧ civil_from_days 17897 = mkCivilDate 2019 1 1.
Proof. repeat split; vm_compute; reflexivity. Qed.
