(* ===== verification/Arc.v ===== *)
(** * Arc: the reference-counting core ([crates/bn_rt/src/arc.rs])

    Strong counts and liveness of every object and region.  An [ObjectId] is
    its [u64] bits: the slot index in the high half, the slot's generation in
    the low half.  The trace lines the code writes to standard error are the
    [trace_log] of the model.  The theorems state the core's contract as a map
    from ids to [Live n] or [Destroying], and that every operation refines it. *)

From S2P Require Import Prelude Text.

#[local] Open Scope string_scope.
#[local] Open Scope Z_scope.

(** ** Identities *)

Definition ObjectId := Z.

Definition from_parts (index generation : Z) : ObjectId :=
  Z.lor (Z.shiftl index 32) generation.
Definition id_index (id : ObjectId) : Z := Z.shiftr id 32.
Definition id_generation (id : ObjectId) : Z := Z.land id (Z.ones 32).
Definition from_bits (bits : Z) : ObjectId := bits.

Inductive ArcError := NotAlive (id : ObjectId).

Record Site := mkSite { site_line : Z; site_column : Z }.
Definition default_site : Site := mkSite 0 0.

Definition show_id (id : ObjectId) : string := "#" +:+ dec_of_Z (id_index id).
Definition show_site (at_ : Site) : string :=
  dec_of_Z (site_line at_) +:+ ":" +:+ dec_of_Z (site_column at_).

(** ** The core *)

Record Slot := mkSlot {
  generation : Z;
  strong : Z;
  destroying : bool;
  s_class : string;
  s_address : Z;
}.

Record ArcCore := mkArcCore {
  slots : list Slot;
  (** A stack: the head is the next index [register] reuses. *)
  free : list Z;
  tracing : bool;
  first_generation : Z;
  trace_log : list string;
}.

Definition set_slots (c : ArcCore) (s : list Slot) : ArcCore :=
  mkArcCore s (free c) (tracing c) (first_generation c) (trace_log c).
Definition set_free (c : ArcCore) (f : list Z) : ArcCore :=
  mkArcCore (slots c) f (tracing c) (first_generation c) (trace_log c).
Definition put_slot (c : ArcCore) (i : Z) (s : Slot) : ArcCore :=
  set_slots c (<[Z.to_nat i := s]> (slots c)).

Definition with_first_generation (g : Z) : ArcCore :=
  mkArcCore [] [] false (if g =? 0 then 1 else g) [].
Definition new : ArcCore := with_first_generation 1.
Definition set_trace (trace : bool) (c : ArcCore) : ArcCore :=
  mkArcCore (slots c) (free c) trace (first_generation c) (trace_log c).

Definition trace_enabled (value : option string) : bool :=
  match value with
  | Some v => negb (String.eqb v "") && negb (String.eqb v "0")
  | None => false
  end.

Definition trace_line (event class : string) (id : ObjectId) (strong : Z) (at_ : Site)
    : string :=
  "arc " +:+ event +:+ " " +:+ class +:+ show_id id +:+ " strong=" +:+ dec_of_Z strong
  +:+ " at " +:+ show_site at_.

Abbreviation arc A := (st ArcError ArcCore A).

(** [trace]; the slot access panics for an index outside the slots. *)
Definition trace (event : string) (id : ObjectId) (at_ : Site) : arc unit := fun c =>
  if tracing c then
    match slots c !! Z.to_nat (id_index id) with
    | Some s =>
        (mkArcCore (slots c) (free c) (tracing c) (first_generation c)
           (trace_log c ++ [trace_line event (s_class s) id (strong s) at_]), Ok tt)
    | None => (c, Panic "index out of bounds")
    end
  else (c, Ok tt).

Definition u32_wrapping_add (a b : Z) : Z := (a + b) mod 2 ^ 32.

(** The generation of a slot's next object. *)
Definition next_generation (g : Z) : Z := Z.max (u32_wrapping_add g 1) 1.

Definition register (class : string) (address : Z) (at_ : Site) : arc ObjectId :=
  c ← get;
  id ← (match free c with
        | index :: rest =>
            match slots c !! Z.to_nat index with
            | Some s =>
                modify (fun c => put_slot (set_free c rest) index
                  (mkSlot (generation s) 1 false class address)) ;;
                mret (from_parts index (generation s))
            | None => lift (Panic "index out of bounds")
            end
        | [] =>
            if Z.of_nat (length (slots c)) <=? u32_MAX then
              modify (fun c => set_slots c
                (slots c ++ [mkSlot (first_generation c) 1 false class address])) ;;
              mret (from_parts (Z.of_nat (length (slots c))) (first_generation c))
            else lift (Panic "fewer than 2^32 live objects")
        end);
  trace "new" id at_ ;;
  mret id.

Definition live_addresses (c : ArcCore) : list Z :=
  map s_address (List.filter (fun s => 0 <? strong s) (slots c)).

(** [ArcCore::slot]: a live object, or one whose destructor is running. *)
Definition slot_ok (s : Slot) (id : ObjectId) : bool :=
  (generation s =? id_generation id) && ((0 <? strong s) || destroying s).

Definition slot_of (c : ArcCore) (id : ObjectId) : option Slot :=
  match slots c !! Z.to_nat (id_index id) with
  | Some s => if slot_ok s id then Some s else None
  | None => None
  end.

Definition slot (id : ObjectId) : arc Slot :=
  reads (fun c => ok_or (NotAlive id) (slot_of c id)).

(** [slot.strong += 1] on a [u64] of a release build. *)
Definition u64_wrapping_add (a b : Z) : Z := (a + b) mod 2 ^ 64.

Definition retain (id : ObjectId) (at_ : Site) : arc Z :=
  s ← slot id;
  if destroying s then mret (strong s)
  else
    let n := u64_wrapping_add (strong s) 1 in
    modify (fun c => put_slot c (id_index id)
      (mkSlot (generation s) n (destroying s) (s_class s) (s_address s))) ;;
    trace "retain" id at_ ;;
    mret n.

Definition release (id : ObjectId) (at_ : Site) : arc bool :=
  s ← slot id;
  if destroying s then mret false
  else
    let n := strong s - 1 in
    let last := n =? 0 in
    modify (fun c => put_slot c (id_index id)
      (mkSlot (generation s) n last (s_class s) (s_address s))) ;;
    trace "release" id at_ ;;
    (if last then trace "destroy" id at_ else mret tt) ;;
    mret last.

Definition finish_destroy (id : ObjectId) : arc unit :=
  s ← slot id;
  if negb (destroying s) then lift (Err (NotAlive id))
  else
    modify (fun c => set_free (put_slot c (id_index id)
        (mkSlot (next_generation (generation s)) (strong s) false "" (s_address s)))
      (id_index id :: free c)).

Definition alive (c : ArcCore) (id : ObjectId) : bool :=
  match slots c !! Z.to_nat (id_index id) with
  | Some s => (generation s =? id_generation id) && (0 <? strong s)
  | None => false
  end.

Definition address (c : ArcCore) (id : ObjectId) : Z :=
  if alive c id then
    match slots c !! Z.to_nat (id_index id) with Some s => s_address s | None => 0 end
  else 0.

Record ObjectInfo := mkInfo { i_id : ObjectId; i_class : string; i_strong : Z }.

Definition info (c : ArcCore) (id : ObjectId) : option ObjectInfo :=
  if alive c id then
    match slots c !! Z.to_nat (id_index id) with
    | Some s => Some (mkInfo id (s_class s) (strong s))
    | None => None
    end
  else None.

Definition snapshot (c : ArcCore) : list ObjectInfo :=
  map (fun p : nat * Slot =>
         mkInfo (from_parts (Z.of_nat p.1) (generation p.2)) (s_class p.2) (strong p.2))
    (List.filter (fun p : nat * Slot => 0 <? strong p.2)
       (imap (fun i s => (i, s)) (slots c))).

Example arc_tests :
  let run := a ← register "A" 7 default_site;
    b ← register "B" 9 default_site;
    n ← retain b default_site;
    last ← release a default_site;
    r ← attempt (retain a default_site);
    finish_destroy a ;;
    dead ← attempt (retain a default_site);
    c ← register "C" 11 default_site;
    mret (a, b, c, n, last, r, dead) in
  let '(core, out) := run new in
  out = Ok (1, 4294967297, 2, 2, true, Ok 0, Err (NotAlive 1))
  ∧ map i_class (snapshot core) = ["C"; "B"] ∧ live_addresses core = [11; 9]
  ∧ address core 1 = 0 ∧ address core 2 = 11.
Proof. vm_compute. repeat split. Qed.

(** ** Identities round-trip *)

Lemma from_parts_sum i g : 0 ≤ g < 2 ^ 32 → from_parts i g = i * 2 ^ 32 + g.
Proof.
  intros Hg. unfold from_parts. rewrite <- (Z.shiftl_mul_pow2 i 32) by lia.
  assert (Z.land (Z.shiftl i 32) g = 0) as Hdisj.
  { apply Z.bits_inj'. intros n Hn. rewrite Z.land_spec, Z.bits_0.
    destruct (Z.lt_ge_cases n 32).
    - by rewrite Z.shiftl_spec_low.
    - rewrite (Z.bits_above_log2 g n), andb_false_r; [done | lia|].
      destruct (Z.eq_dec g 0) as [->|]; [simpl; lia|].
      apply Z.log2_lt_pow2; [lia|]. eapply Z.lt_le_trans; [apply Hg|].
      apply Z.pow_le_mono_r; lia. }
  pose proof (Z.add_lor_land (Z.shiftl i 32) g). lia.
Qed.

Lemma id_index_spec id : id_index id = id / 2 ^ 32.
Proof. unfold id_index. by rewrite Z.shiftr_div_pow2 by lia. Qed.

Lemma id_generation_spec id : id_generation id = id mod 2 ^ 32.
Proof. unfold id_generation. by rewrite Z.land_ones by lia. Qed.

Lemma from_parts_inv i g :
  0 ≤ g < 2 ^ 32 → id_index (from_parts i g) = i ∧ id_generation (from_parts i g) = g.
Proof.
  intros Hg. rewrite id_index_spec, id_generation_spec, from_parts_sum by done.
  split; Z.to_euclidean_division_equations; lia.
Qed.

Lemma id_ext a b : id_index a = id_index b → id_generation a = id_generation b → a = b.
Proof.
  rewrite !id_index_spec, !id_generation_spec. intros.
  rewrite (Z.div_mod a (2 ^ 32)), (Z.div_mod b (2 ^ 32)) by lia. congruence.
Qed.

Lemma id_bounds id : 0 ≤ id ≤ u64_MAX → 0 ≤ id_index id < 2 ^ 32 ∧ 0 ≤ id_generation id < 2 ^ 32.
Proof.
  unfold u64_MAX. rewrite id_index_spec, id_generation_spec. intros H.
  Z.to_euclidean_division_equations. lia.
Qed.

(** Ids are never zero, and the handle halves rebuild the id. *)
Theorem from_parts_round_trip (index generation : Z)
    (Hindex : 0 ≤ index < 2 ^ 32) (Hgen : 1 ≤ generation < 2 ^ 32) :
  let id := from_parts index generation in
  0 < id ≤ u64_MAX ∧ id_index id = index ∧ id_generation id = generation.
Proof.
  cbv zeta. rewrite from_parts_sum at 1 2 by lia. unfold u64_MAX.
  split; [lia|]. apply from_parts_inv. lia.
Qed.

Lemma from_parts_round_trip_witness :
  let id := from_parts 3 (2 ^ 32 - 1) in
  0 < id ≤ u64_MAX ∧ id_index id = 3 ∧ id_generation id = 2 ^ 32 - 1.
Proof. apply from_parts_round_trip; lia. Defined.

(** ** The contract *)

Inductive ObjState := Live (count : Z) | Destroying.

(** What the core promises: the state of every id. *)
Definition Objects := ObjectId → option ObjState.

Definition state_of (s : Slot) : ObjState :=
  if destroying s then Destroying else Live (strong s).

Definition lookup_obj (c : ArcCore) : Objects := fun id =>
  if in_range 0 u64_MAX id then option_map state_of (slot_of c id) else None.

Definition put_obj (m : Objects) (id : ObjectId) (o : option ObjState) : Objects :=
  fun j => if j =? id then o else m j.

Inductive op :=
| OpRegister (class : string) (address : Z)
| OpRetain (id : ObjectId)
| OpRelease (id : ObjectId)
| OpFinish (id : ObjectId).

Inductive outcome :=
| ONew (id : ObjectId)
| OCount (n : Z)
| OLast (last : bool)
| ODone
| ORefused (e : ArcError).

Inductive arc_spec (m : Objects) : op → outcome → Objects → Prop :=
| SRegister class address id :
    0 < id ≤ u64_MAX → m id = None →
    arc_spec m (OpRegister class address) (ONew id) (put_obj m id (Some (Live 1)))
| SRetain id n : m id = Some (Live n) →
    arc_spec m (OpRetain id) (OCount (n + 1)) (put_obj m id (Some (Live (n + 1))))
| SRetainFrozen id : m id = Some Destroying →
    arc_spec m (OpRetain id) (OCount 0) m
| SReleaseLast id : m id = Some (Live 1) →
    arc_spec m (OpRelease id) (OLast true) (put_obj m id (Some Destroying))
| SRelease id n : m id = Some (Live n) → 1 < n →
    arc_spec m (OpRelease id) (OLast false) (put_obj m id (Some (Live (n - 1))))
| SReleaseFrozen id : m id = Some Destroying →
    arc_spec m (OpRelease id) (OLast false) m
| SFinish id : m id = Some Destroying →
    arc_spec m (OpFinish id) ODone (put_obj m id None)
| SFinishLive id n : m id = Some (Live n) →
    arc_spec m (OpFinish id) (ORefused (NotAlive id)) m
| SRetainDead id : m id = None →
    arc_spec m (OpRetain id) (ORefused (NotAlive id)) m
| SReleaseDead id : m id = None →
    arc_spec m (OpRelease id) (ORefused (NotAlive id)) m
| SFinishDead id : m id = None →
    arc_spec m (OpFinish id) (ORefused (NotAlive id)) m.

(** One operation of the core at a source position, and its outcome. *)
Definition run_op_at (at_ : Site) (o : op) (c : ArcCore) : ArcCore * res ArcError outcome :=
  let out := match o with
    | OpRegister class address => id ← register class address at_; mret (ONew id)
    | OpRetain id => n ← retain id at_; mret (OCount n)
    | OpRelease id => b ← release id at_; mret (OLast b)
    | OpFinish id => finish_destroy id ;; mret ODone
    end in
  match out c with
  | (c', Err e) => (c', Ok (ORefused e))
  | r => r
  end.

Abbreviation run_op := (run_op_at default_site).

Definition valid_op (o : op) : Prop :=
  match o with
  | OpRegister _ _ => True
  | OpRetain id | OpRelease id | OpFinish id => 0 ≤ id ≤ u64_MAX
  end.

(** ** The invariant *)

Record wf (c : ArcCore) : Prop := {
  wf_len : Z.of_nat (length (slots c)) ≤ 2 ^ 32;
  wf_slot : ∀ i s, slots c !! i = Some s →
    1 ≤ generation s < 2 ^ 32 ∧ 0 ≤ strong s < 2 ^ 64 ∧ (destroying s = true → strong s = 0);
  wf_free : ∀ i, i ∈ free c →
    0 ≤ i ∧ ∃ s, slots c !! Z.to_nat i = Some s ∧ strong s = 0 ∧ destroying s = false;
  wf_nodup : NoDup (free c);
  wf_first : 1 ≤ first_generation c < 2 ^ 32;
}.

(** The operation has room: no slot index or count is exhausted. *)
Definition has_room (o : op) (c : ArcCore) : Prop :=
  match o with
  | OpRegister _ _ => Z.of_nat (length (slots c)) < 2 ^ 32 ∨ free c ≠ []
  | OpRetain id => ∀ s, slot_of c id = Some s → strong s < u64_MAX
  | _ => True
  end.

(** ** Refinement *)

(** The parts of a core the contract depends on. *)
Definition same_core (c c' : ArcCore) : Prop :=
  slots c' = slots c ∧ free c' = free c ∧ first_generation c' = first_generation c.

Lemma trace_same event id at_ c s :
  slots c !! Z.to_nat (id_index id) = Some s →
  ∃ c', trace event id at_ c = (c', Ok tt) ∧ same_core c c'.
Proof.
  intros Hs. unfold trace, same_core. destruct (tracing c).
  - rewrite Hs. by eexists.
  - by exists c.
Qed.

Lemma same_core_lookup c c' id : same_core c c' → lookup_obj c' id = lookup_obj c id.
Proof. intros (E & _). unfold lookup_obj, slot_of. by rewrite E. Qed.

Lemma same_core_wf c c' : same_core c c' → wf c → wf c'.
Proof. intros (E1 & E2 & E3) [H1 H2 H3 H4 H5]. split; rewrite ?E1, ?E2, ?E3; assumption. Qed.

Lemma slot_of_Some c id s :
  slot_of c id = Some s →
  slots c !! Z.to_nat (id_index id) = Some s ∧ generation s = id_generation id
  ∧ (0 < strong s ∨ destroying s = true).
Proof.
  unfold slot_of. destruct (slots c !! _) as [s'|]; [|discriminate].
  destruct (slot_ok s' id) eqn:E; [|discriminate]. intros [= ->].
  unfold slot_ok in E. apply andb_prop in E as [Hg Ho]. apply Z.eqb_eq in Hg.
  apply orb_prop in Ho as [Ho%Z.ltb_lt|Ho]; auto.
Qed.

(** Writing a slot changes the object [id] that owned it, and no other,
    provided the slot then answers no id of another generation. *)
Lemma lookup_put_slot c id s s' :
  0 ≤ id ≤ u64_MAX → slots c !! Z.to_nat (id_index id) = Some s →
  (∀ j, j ≠ id → id_index j = id_index id → slot_ok s j = false ∧ slot_ok s' j = false) →
  ∀ j, lookup_obj (put_slot c (id_index id) s') j =
    put_obj (lookup_obj c) id (if slot_ok s' id then Some (state_of s') else None) j.
Proof.
  intros Hid Hs Hother j.
  unfold lookup_obj, put_obj, slot_of, put_slot, set_slots. cbn [slots].
  pose proof (id_bounds id Hid) as [Hi _].
  destruct (j =? id) eqn:Ej; z_bools.
  - subst j. apply in_range_spec in Hid. rewrite Hid.
    rewrite list_lookup_insert_eq by exact (lookup_lt_Some _ _ _ Hs).
    by destruct (slot_ok s' id).
  - destruct (in_range 0 u64_MAX j) eqn:Hj; [|done]. apply in_range_spec in Hj.
    pose proof (id_bounds j Hj) as [Hij _].
    destruct (Z.eq_dec (id_index j) (id_index id)) as [E|E].
    + destruct (Hother j Ej E) as [E1 E2]. rewrite E, Hs, E1.
      rewrite list_lookup_insert_eq by exact (lookup_lt_Some _ _ _ Hs). by rewrite E2.
    + rewrite list_lookup_insert_ne by lia. done.
Qed.

Lemma slot_ok_generation s id j :
  generation s = id_generation id → j ≠ id → id_index j = id_index id → slot_ok s j = false.
Proof.
  intros Hg Hne Hi. unfold slot_ok. destruct (_ =? _) eqn:E; [|done]. apply Z.eqb_eq in E.
  destruct Hne. apply id_ext; congruence.
Qed.

Lemma slot_ok_dead s j : strong s = 0 → destroying s = false → slot_ok s j = false.
Proof. intros E1 E2. unfold slot_ok. rewrite E1, E2. by rewrite andb_false_r. Qed.

(** A core whose slot [id_index id] is rewritten keeps the invariant. *)
Lemma wf_put_slot c id s s' :
  wf c → slots c !! Z.to_nat (id_index id) = Some s → 0 ≤ id ≤ u64_MAX →
  0 < strong s ∨ destroying s = true →
  1 ≤ generation s' < 2 ^ 32 → 0 ≤ strong s' < 2 ^ 64 →
  (destroying s' = true → strong s' = 0) →
  wf (put_slot c (id_index id) s').
Proof.
  intros [H1 H2 H3 H4 H5] Hs Hid Hlive Hg Hst Hd. pose proof (id_bounds id Hid) as [Hi _].
  unfold put_slot, set_slots.
  split; cbn [slots free first_generation]; [by rewrite length_insert| | |done|done].
  - intros i si. destruct (decide (i = Z.to_nat (id_index id))) as [->|Hne].
    + rewrite list_lookup_insert_eq by exact (lookup_lt_Some _ _ _ Hs). intros [= <-]. done.
    + rewrite list_lookup_insert_ne by done. apply H2.
  - intros i Hfree. destruct (H3 i Hfree) as (Hi0 & si & Hsi & Hz & Hnd). split; [done|].
    exists si. destruct (decide (Z.to_nat i = Z.to_nat (id_index id))) as [E|Hne].
    + rewrite E, Hs in Hsi. injection Hsi as ->. rewrite Hz, Hnd in Hlive.
      destruct Hlive; [lia | discriminate].
    + by rewrite list_lookup_insert_ne by done.
Qed.

Section At.
Context (at_ : Site).

(** What each operation must establish. *)
Definition refines_step (o : op) (c : ArcCore) : Prop :=
  ∃ c' out m', run_op_at at_ o c = (c', Ok out) ∧ arc_spec (lookup_obj c) o out m'
    ∧ (∀ j, lookup_obj c' j = m' j) ∧ wf c'.

Lemma lookup_obj_slot c id s :
  0 ≤ id ≤ u64_MAX → slot_of c id = Some s → lookup_obj c id = Some (state_of s).
Proof.
  intros Hid Hs. unfold lookup_obj. apply in_range_spec in Hid. by rewrite Hid, Hs.
Qed.

Lemma lookup_obj_none c id : slot_of c id = None → lookup_obj c id = None.
Proof. intros Hs. unfold lookup_obj. rewrite Hs. by destruct (in_range _ _ id). Qed.

Lemma slot_run id c :
  slot id c = (c, match slot_of c id with Some s => Ok s | None => Err (NotAlive id) end).
Proof. unfold slot, reads. by destruct (slot_of c id). Qed.

Lemma put_same m id o j : m id = o → put_obj m id o j = m j.
Proof. intros H. unfold put_obj. destruct (j =? id) eqn:E; z_bools; congruence. Qed.

(** A write to the slot of [id] followed by trace lines. *)
Lemma write_trace c id s s' o out c' :
  wf c → 0 ≤ id ≤ u64_MAX → slot_of c id = Some s →
  generation s' = generation s → 0 ≤ strong s' < 2 ^ 64 →
  (destroying s' = true → strong s' = 0) → slot_ok s' id = true →
  same_core (put_slot c (id_index id) s') c' →
  run_op_at at_ o c = (c', Ok out) →
  arc_spec (lookup_obj c) o out (put_obj (lookup_obj c) id (Some (state_of s'))) →
  refines_step o c.
Proof.
  intros Hwf Hid Hs Hg Hst Hd Hok Hsame Hrun Hspec.
  pose proof (slot_of_Some c id s Hs) as (Hl & Hgen & Hlive).
  exists c', out, (put_obj (lookup_obj c) id (Some (state_of s'))).
  split; [done|]. split; [done|]. split.
  - intros j. rewrite (same_core_lookup _ _ j Hsame), (lookup_put_slot c id s s' Hid Hl).
    + by rewrite Hok.
    + intros k Hk Hi. split; apply (slot_ok_generation _ id); congruence.
  - apply (same_core_wf _ _ Hsame). apply (wf_put_slot c id s s'); try done.
    rewrite Hg. by apply (wf_slot c Hwf _ _ Hl).
Qed.

Lemma slots_put_slot c id s s' :
  slots c !! Z.to_nat (id_index id) = Some s →
  slots (put_slot c (id_index id) s') !! Z.to_nat (id_index id) = Some s'.
Proof.
  intros Hs. unfold put_slot, set_slots. cbn [slots].
  apply list_lookup_insert_eq. exact (lookup_lt_Some _ _ _ Hs).
Qed.

Lemma same_core_trans a b c : same_core a b → same_core b c → same_core a c.
Proof. unfold same_core. intros (-> & -> & ->) (-> & -> & ->). done. Qed.

Lemma retain_refines c id :
  wf c → 0 ≤ id ≤ u64_MAX → has_room (OpRetain id) c → refines_step (OpRetain id) c.
Proof.
  intros Hwf Hid Hroom. unfold has_room in Hroom.
  assert (run_op_at at_ (OpRetain id) c = match retain id at_ c with
    | (c', Ok n) => (c', Ok (OCount n)) | (c', Err e) => (c', Ok (ORefused e))
    | (c', Panic w) => (c', Panic w) | (c', Fuel) => (c', Fuel) end) as Hrun.
  { unfold run_op_at, mbind, st_bind. by destruct (retain id at_ c) as [? []]. }
  unfold retain in Hrun. unfold mbind, st_bind in Hrun. rewrite slot_run in Hrun.
  destruct (slot_of c id) as [s|] eqn:Hs.
  - pose proof (slot_of_Some c id s Hs) as (Hl & Hg & Hlive).
    pose proof (wf_slot c Hwf _ _ Hl) as (Hgen & Hst & Hdz).
    destruct (destroying s) eqn:Hdes.
    + rewrite (Hdz eq_refl) in Hrun. eexists _, _, _. split; [exact Hrun|].
      split; [|done]. apply SRetainFrozen. rewrite (lookup_obj_slot c id s Hid Hs).
      unfold state_of. by rewrite Hdes.
    + specialize (Hroom s eq_refl).
      assert (u64_wrapping_add (strong s) 1 = strong s + 1) as Ewrap.
      { unfold u64_wrapping_add, u64_MAX in *. rewrite Z.mod_small; lia. }
      rewrite Ewrap in Hrun.
      set (s' := mkSlot _ _ _ _ _) in Hrun.
      destruct (trace_same "retain" id at_ (put_slot c (id_index id) s') s'
        (slots_put_slot c id s s' Hl)) as (c' & Ht & Hsame).
      unfold modify in Hrun. cbv beta iota in Hrun. rewrite Ht in Hrun.
      assert (0 < strong s) by (destruct Hlive; [done | congruence]).
      eapply (write_trace c id s s' (OpRetain id) (OCount (strong s + 1))); try done.
      * unfold u64_MAX in Hroom. change (strong s') with (strong s + 1). lia.
      * unfold slot_ok. subst s'. cbn [generation strong destroying].
        rewrite Hg, Z.eqb_refl. apply orb_true_iff. left. apply Z.ltb_lt. lia.
      * apply SRetain. rewrite (lookup_obj_slot c id s Hid Hs). unfold state_of. by rewrite Hdes.
  - eexists _, _, _. split; [exact Hrun|]. split; [|done].
    apply SRetainDead. by apply lookup_obj_none.
Qed.

Lemma release_refines c id :
  wf c → 0 ≤ id ≤ u64_MAX → refines_step (OpRelease id) c.
Proof.
  intros Hwf Hid.
  assert (run_op_at at_ (OpRelease id) c = match release id at_ c with
    | (c', Ok n) => (c', Ok (OLast n)) | (c', Err e) => (c', Ok (ORefused e))
    | (c', Panic w) => (c', Panic w) | (c', Fuel) => (c', Fuel) end) as Hrun.
  { unfold run_op_at, mbind, st_bind. by destruct (release id at_ c) as [? []]. }
  unfold release in Hrun. unfold mbind, st_bind in Hrun. rewrite slot_run in Hrun.
  destruct (slot_of c id) as [s|] eqn:Hs.
  - pose proof (slot_of_Some c id s Hs) as (Hl & Hg & Hlive).
    pose proof (wf_slot c Hwf _ _ Hl) as (Hgen & Hst & Hdz).
    destruct (destroying s) eqn:Hdes.
    + eexists _, _, _. split; [exact Hrun|]. split; [|done].
      apply SReleaseFrozen. rewrite (lookup_obj_slot c id s Hid Hs).
      unfold state_of. by rewrite Hdes.
    + assert (0 < strong s) by (destruct Hlive; [done | congruence]).
      assert (lookup_obj c id = Some (Live (strong s))) as Hlook.
      { rewrite (lookup_obj_slot c id s Hid Hs). unfold state_of. by rewrite Hdes. }
      set (s' := mkSlot _ _ _ _ _) in Hrun.
      destruct (trace_same "release" id at_ (put_slot c (id_index id) s') s'
        (slots_put_slot c id s s' Hl)) as (c1 & Ht1 & Hsame1).
      unfold modify in Hrun. cbv beta iota in Hrun. rewrite Ht1 in Hrun.
      assert (slots c1 !! Z.to_nat (id_index id) = Some s') as Hl1.
      { destruct Hsame1 as (-> & _). by apply slots_put_slot with s. }
      destruct (strong s - 1 =? 0) eqn:Hlast; z_bools.
      * destruct (trace_same "destroy" id at_ c1 s' Hl1) as (c2 & Ht2 & Hsame2).
        rewrite Ht2 in Hrun.
        eapply (write_trace c id s s' (OpRelease id) (OLast true) c2); try done.
        -- change (strong s') with (strong s - 1). lia.
        -- unfold slot_ok. subst s'. cbn [generation strong destroying].
           rewrite Hg, Z.eqb_refl. by apply orb_true_iff; right.
        -- by apply (same_core_trans _ c1).
        -- apply SReleaseLast. rewrite Hlook. do 2 f_equal. lia.
      * eapply (write_trace c id s s' (OpRelease id) (OLast false) c1); try done.
        -- change (strong s') with (strong s - 1). lia.
        -- unfold slot_ok. subst s'. cbn [generation strong destroying].
           rewrite Hg, Z.eqb_refl. apply orb_true_iff. left. apply Z.ltb_lt. lia.
        -- apply SRelease; [done | lia].
  - eexists _, _, _. split; [exact Hrun|]. split; [|done].
    apply SReleaseDead. by apply lookup_obj_none.
Qed.

Lemma next_generation_range g : 1 ≤ g < 2 ^ 32 → 1 ≤ next_generation g < 2 ^ 32.
Proof.
  intros Hg. unfold next_generation, u32_wrapping_add.
  pose proof (Z.mod_pos_bound (g + 1) (2 ^ 32)). lia.
Qed.

Lemma finish_refines c id :
  wf c → 0 ≤ id ≤ u64_MAX → refines_step (OpFinish id) c.
Proof.
  intros Hwf Hid.
  assert (run_op_at at_ (OpFinish id) c = match finish_destroy id c with
    | (c', Ok n) => (c', Ok ODone) | (c', Err e) => (c', Ok (ORefused e))
    | (c', Panic w) => (c', Panic w) | (c', Fuel) => (c', Fuel) end) as Hrun.
  { unfold run_op_at, mbind, st_bind. by destruct (finish_destroy id c) as [? []]. }
  unfold finish_destroy in Hrun. unfold mbind, st_bind in Hrun. rewrite slot_run in Hrun.
  destruct (slot_of c id) as [s|] eqn:Hs.
  - pose proof (slot_of_Some c id s Hs) as (Hl & Hg & Hlive).
    pose proof (wf_slot c Hwf _ _ Hl) as (Hgen & Hst & Hdz).
    pose proof (id_bounds id Hid) as [Hi _].
    destruct (destroying s) eqn:Hdes; cbv beta iota delta [negb modify lift] in Hrun.
    + set (s' := mkSlot _ _ _ _ _) in Hrun.
      assert (∀ j, slot_ok s' j = false) as Hdead.
      { intros j. apply slot_ok_dead; [by apply Hdz | done]. }
      eexists _, _, (put_obj (lookup_obj c) id None). split; [exact Hrun|]. split; [|split].
      * apply SFinish. rewrite (lookup_obj_slot c id s Hid Hs). unfold state_of. by rewrite Hdes.
      * intros j.
        assert (lookup_obj (set_free (put_slot c (id_index id) s') (id_index id :: free c)) j
          = lookup_obj (put_slot c (id_index id) s') j) as -> by done.
        rewrite (lookup_put_slot c id s s' Hid Hl).
        -- by rewrite Hdead.
        -- intros k Hk Hik. split; [by apply (slot_ok_generation _ id) | apply Hdead].
      * assert (wf (put_slot c (id_index id) s')) as [H1 H2 H3 H4 H5].
        { apply (wf_put_slot c id s s'); try done.
          - by right.
          - by apply next_generation_range. }
        split; [exact H1 | exact H2| | |exact H5].
        -- intros i. unfold set_free. cbn [slots free]. intros [->|Hi']%elem_of_cons.
           ++ split; [lia|]. exists s'. split; [by apply (slots_put_slot c id s)|].
              split; [by apply Hdz | done].
           ++ by apply H3.
        -- unfold set_free. cbn [free]. apply NoDup_cons_2; [|exact H4].
           intros Hin. destruct (wf_free c Hwf _ Hin) as (_ & s0 & Hs0 & _ & Hnd).
           rewrite Hl in Hs0. injection Hs0 as <-. congruence.
    + eexists _, _, _. split; [exact Hrun|]. split; [|done].
      apply (SFinishLive _ id (strong s)). rewrite (lookup_obj_slot c id s Hid Hs).
      unfold state_of. by rewrite Hdes.
  - eexists _, _, _. split; [exact Hrun|]. split; [|done].
    apply SFinishDead. by apply lookup_obj_none.
Qed.

Lemma slot_of_free_none c id s :
  slots c !! Z.to_nat (id_index id) = Some s → strong s = 0 → destroying s = false →
  slot_of c id = None.
Proof. intros Hl H1 H2. unfold slot_of. by rewrite Hl, slot_ok_dead. Qed.

(** A freshly initialised slot is the only change [register] makes. *)
Lemma register_done c c1 c2 class address index g :
  wf c1 → same_core c1 c2 → 0 ≤ index < 2 ^ 32 → 1 ≤ g < 2 ^ 32 →
  slot_of c (from_parts index g) = None →
  run_op_at at_ (OpRegister class address) c = (c2, Ok (ONew (from_parts index g))) →
  (∀ j, lookup_obj c1 j = put_obj (lookup_obj c) (from_parts index g) (Some (Live 1)) j) →
  refines_step (OpRegister class address) c.
Proof.
  intros Hwf Hsame Hi Hg Hnone Hrun Hlook.
  eexists _, _, _. split; [exact Hrun|]. split; [|split].
  - apply SRegister; [|by apply lookup_obj_none].
    rewrite from_parts_sum by lia. unfold u64_MAX. lia.
  - intros j. rewrite (same_core_lookup _ _ j Hsame). apply Hlook.
  - by apply (same_core_wf _ _ Hsame).
Qed.

Lemma register_refines c class address :
  wf c → has_room (OpRegister class address) c → refines_step (OpRegister class address) c.
Proof.
  intros Hwf Hroom.
  assert (run_op_at at_ (OpRegister class address) c = match register class address at_ c with
    | (c', Ok n) => (c', Ok (ONew n)) | (c', Err e) => (c', Ok (ORefused e))
    | (c', Panic w) => (c', Panic w) | (c', Fuel) => (c', Fuel) end) as Hrun.
  { unfold run_op_at, mbind, st_bind. by destruct (register class address at_ c) as [? []]. }
  unfold register in Hrun. unfold mbind, st_bind, get in Hrun. cbv beta iota in Hrun.
  destruct (free c) as [|index rest] eqn:Hfree.
  - destruct Hroom as [Hroom|]; [|done].
    assert (Z.of_nat (length (slots c)) <=? u32_MAX = true) as E by (unfold u32_MAX; lia).
    rewrite E in Hrun. clear E. unfold modify, mret, st_ret in Hrun. cbv beta iota in Hrun.
    pose proof (wf_first c Hwf) as Hg.
    set (index := Z.of_nat (length (slots c))) in *. set (g := first_generation c) in *.
    set (s' := mkSlot g 1 false class address) in *.
    destruct (from_parts_inv index g) as [Ei Eg]; [lia|].
    assert (Z.to_nat index = length (slots c)) as Eidx by (unfold index; lia).
    set (c1 := set_slots c (slots c ++ [s'])) in *.
    destruct (trace_same "new" (from_parts index g) at_ c1 s') as (c2 & Ht & Hsame).
    { rewrite Ei, Eidx. unfold c1, set_slots. cbn [slots].
      rewrite lookup_app_r by lia. by rewrite Nat.sub_diag. }
    rewrite Ht in Hrun.
    assert (slot_of c (from_parts index g) = None) as Hnone.
    { unfold slot_of. by rewrite Ei, Eidx, lookup_ge_None_2. }
    assert (wf c1) as Hwf1.
    { destruct Hwf as [H1 H2 H3 H4 H5]. split; unfold c1, set_slots; cbn [slots free first_generation].
      - rewrite length_app. simpl length. unfold index in *. lia.
      - intros i s Hl. apply lookup_app_Some in Hl as [Hl|[_ Hl]]; [by apply (H2 i)|].
        apply list_lookup_singleton_Some in Hl as [_ <-].
        split; [exact Hg|]. split; [|discriminate]. change (strong s') with 1. lia.
      - intros i Hin. rewrite Hfree in Hin. by apply elem_of_nil in Hin.
      - exact H4.
      - exact H5. }
    apply (register_done c c1 c2 class address index g); try done; [lia|].
    intros j. unfold lookup_obj, put_obj, slot_of, c1, set_slots. cbn [slots].
    destruct (j =? from_parts index g) eqn:Ej; z_bools.
    + subst j. rewrite Ei, Eidx, lookup_app_r, Nat.sub_diag by lia.
      assert (in_range 0 u64_MAX (from_parts index g) = true) as ->.
      { apply in_range_spec. rewrite from_parts_sum by lia. unfold u64_MAX. lia. }
      simpl. unfold slot_ok, s'. cbn [generation strong]. by rewrite Eg, Z.eqb_refl.
    + destruct (in_range 0 u64_MAX j) eqn:Hj; [|done]. apply in_range_spec in Hj.
      pose proof (id_bounds j Hj) as [Hij _].
      destruct (Z.eq_dec (id_index j) index) as [E|E].
      * rewrite E, Eidx. rewrite lookup_app_r, Nat.sub_diag by lia. simpl.
        rewrite (slot_ok_generation s' (from_parts index g) j); [|done|done|congruence].
        by rewrite lookup_ge_None_2.
      * destruct (Nat.lt_ge_cases (Z.to_nat (id_index j)) (length (slots c))).
        -- by rewrite lookup_app_l.
        -- rewrite !lookup_ge_None_2; [done|lia|]. rewrite length_app. simpl length. lia.
  - destruct (wf_free c Hwf index) as (Hi0 & s & Hl & Hz & Hnd); [rewrite Hfree; apply list_elem_of_here|].
    rewrite Hl in Hrun. unfold modify, mret, st_ret in Hrun. cbv beta iota in Hrun.
    pose proof (wf_slot c Hwf _ _ Hl) as (Hg & _ & _).
    pose proof (wf_len c Hwf) as Hlen. pose proof (lookup_lt_Some _ _ _ Hl) as Hlt.
    set (g := generation s) in *. set (s' := mkSlot g 1 false class address) in *.
    destruct (from_parts_inv index g) as [Ei Eg]; [lia|].
    assert (0 ≤ index < 2 ^ 32) as Hidx by lia.
    assert (0 ≤ from_parts index g ≤ u64_MAX) as Hid.
    { rewrite from_parts_sum by lia. unfold u64_MAX. lia. }
    set (c1 := put_slot (set_free c rest) index s') in *.
    destruct (trace_same "new" (from_parts index g) at_ c1 s') as (c2 & Ht & Hsame).
    { rewrite Ei. unfold c1, put_slot, set_slots, set_free. cbn [slots].
      by rewrite list_lookup_insert_eq. }
    rewrite Ht in Hrun.
    assert (slot_of c (from_parts index g) = None) as Hnone.
    { apply (slot_of_free_none _ _ s); [by rewrite Ei|done..]. }
    assert (∀ k, lookup_obj c1 k = lookup_obj (put_slot c (id_index (from_parts index g)) s') k)
      as Hc1.
    { intros k. rewrite Ei. done. }
    apply (register_done c c1 c2 class address index g); try done.
    + destruct Hwf as [H1 H2 H3 H4 H5]. unfold c1, put_slot, set_slots, set_free.
      split; cbn [slots free first_generation]; [by rewrite length_insert| | | |done].
      * intros i si. destruct (decide (i = Z.to_nat index)) as [->|Hne].
        -- rewrite list_lookup_insert_eq by done. intros [= <-].
           split; [exact Hg|]. split; [|discriminate]. change (strong s') with 1. lia.
        -- rewrite list_lookup_insert_ne by done. apply H2.
      * intros i Hin. rewrite Hfree in H3, H4.
        destruct (H3 i) as (Hi1 & si & Hsi & Hr); [by apply list_elem_of_further|].
        split; [done|]. exists si. split; [|done]. rewrite list_lookup_insert_ne; [done|].
        intros Eq. assert (i = index) as -> by lia.
        apply NoDup_cons_1_1 in H4. contradiction.
      * rewrite Hfree in H4. by apply NoDup_cons_1_2 in H4.
    + intros j. rewrite Hc1. rewrite (lookup_put_slot c (from_parts index g) s s' Hid).
      * f_equal. unfold slot_ok, s'. cbn [generation strong]. by rewrite Eg, Z.eqb_refl.
      * by rewrite Ei.
      * intros k Hk Hik. split; [by apply slot_ok_dead|]. by apply (slot_ok_generation _ (from_parts index g)).
Qed.
End At.

Lemma new_wf g : 0 ≤ g < 2 ^ 32 → wf (with_first_generation g).
Proof.
  intros Hg. split; simpl; try done.
  - intros i Hi. by apply elem_of_nil in Hi.
  - constructor.
  - destruct (g =? 0) eqn:E; z_bools; simpl; lia.
Qed.

(** C1: The core implements its contract: from a well-formed core every operation
    returns the outcome the contract allows, leaves exactly the objects the
    contract says, and keeps the core well formed. *)
Theorem arc_refines (at_ : Site) (o : op) (c : ArcCore)
    (Hwf : wf c) (Hop : valid_op o) (Hroom : has_room o c) :
  ∃ c' out m', run_op_at at_ o c = (c', Ok out) ∧ arc_spec (lookup_obj c) o out m'
    ∧ (∀ id, lookup_obj c' id = m' id) ∧ wf c'.
Proof.
  destruct o; simpl in Hop.
  - by apply register_refines.
  - by apply retain_refines.
  - by apply release_refines.
  - by apply finish_refines.
Qed.

Lemma arc_refines_witness :
  ∃ c' out m', run_op (OpRegister "Box" 0) new = (c', Ok out)
    ∧ arc_spec (lookup_obj new) (OpRegister "Box" 0) out m'
    ∧ (∀ id, lookup_obj c' id = m' id) ∧ wf c'.
Proof.
  apply (arc_refines default_site (OpRegister "Box" 0) new).
  - apply new_wf. split; [discriminate | reflexivity].
  - exact I.
  - left. reflexivity.
Defined.

(** ** Dead ids *)

Definition run_ops (ops : list op) (c : ArcCore) : ArcCore :=
  fold_left (fun c o => (run_op o c).1) ops c.

Lemma trace_slots event id at_ c : slots (trace event id at_ c).1 = slots c.
Proof. unfold trace. destruct (tracing c); [|done]. by destruct (slots c !! _). Qed.

(** A slot keeps its generation, or moves to the next. *)
Definition gen_step (s s' : Slot) : Prop :=
  generation s' = generation s ∨ generation s' = next_generation (generation s).

Lemma put_slot_gen c i s0 s0' k s :
  slots c !! Z.to_nat i = Some s0 → gen_step s0 s0' → slots c !! k = Some s →
  ∃ s', slots (put_slot c i s0') !! k = Some s' ∧ gen_step s s'.
Proof.
  intros H0 Hg Hk. unfold put_slot, set_slots. cbn [slots].
  destruct (decide (k = Z.to_nat i)) as [->|Hne].
  - rewrite list_lookup_insert_eq by exact (lookup_lt_Some _ _ _ H0).
    rewrite H0 in Hk. injection Hk as <-. by exists s0'.
  - rewrite list_lookup_insert_ne by done. exists s. split; [done|]. by left.
Qed.

Lemma run_op_gen o c k s :
  slots c !! k = Some s → ∃ s', slots (run_op o c).1 !! k = Some s' ∧ gen_step s s'.
Proof.
  intros Hk.
  assert (∃ s', slots c !! k = Some s' ∧ gen_step s s') as Hsame by (exists s; split; [done|by left]).
  destruct o as [class address|id|id|id]; unfold run_op_at, mbind, st_bind.
  - unfold register, mbind, st_bind, get. destruct (free c) as [|index rest].
    + destruct (_ <=? u32_MAX); [|exact Hsame]. unfold modify, mret, st_ret. cbv beta iota.
      set (c1 := set_slots c _).
      pose proof (trace_slots "new" (from_parts (Z.of_nat (length (slots c))) (first_generation c))
        default_site c1) as Ht.
      destruct (trace _ _ _ c1) as [c2 [|[]| |]]; cbn [fst] in Ht |- *; rewrite Ht;
        exists s; (split; [by apply lookup_app_l_Some | by left]).
    + destruct (slots c !! Z.to_nat index) as [s0|] eqn:Hl; [|exact Hsame].
      unfold modify, mret, st_ret. cbv beta iota. set (c1 := put_slot _ index _).
      pose proof (trace_slots "new" (from_parts index (generation s0)) default_site c1) as Ht.
      destruct (put_slot_gen (set_free c rest) index s0 (mkSlot (generation s0) 1 false class address)
        k s Hl) as (s' & Hs' & Hg); [by left|done|].
      destruct (trace _ _ _ c1) as [c2 [|[]| |]]; cbn [fst] in Ht |- *; rewrite Ht; exact (ex_intro _ s' (conj Hs' Hg)).
  - unfold retain, mbind, st_bind. rewrite slot_run. destruct (slot_of c id) as [s0|] eqn:Hs0;
      [|exact Hsame]. apply slot_of_Some in Hs0 as (Hl & _).
    destruct (destroying s0) eqn:Hd; [exact Hsame|]. unfold modify, mret, st_ret. cbv beta iota.
    set (c1 := put_slot _ _ _). pose proof (trace_slots "retain" id default_site c1) as Ht.
    destruct (put_slot_gen c (id_index id) s0 (mkSlot (generation s0)
      (u64_wrapping_add (strong s0) 1) false (s_class s0) (s_address s0)) k s Hl)
      as (s' & Hs' & Hg); [by left|done|].
    destruct (trace _ _ _ c1) as [c2 [|[]| |]]; cbn [fst] in Ht |- *; rewrite Ht; exact (ex_intro _ s' (conj Hs' Hg)).
  - unfold release, mbind, st_bind. rewrite slot_run. destruct (slot_of c id) as [s0|] eqn:Hs0;
      [|exact Hsame]. apply slot_of_Some in Hs0 as (Hl & _).
    destruct (destroying s0) eqn:Hd; [exact Hsame|]. unfold modify, mret, st_ret. cbv beta iota.
    set (c1 := put_slot _ _ _). pose proof (trace_slots "release" id default_site c1) as Ht.
    destruct (put_slot_gen c (id_index id) s0 (mkSlot (generation s0)
      (strong s0 - 1) (strong s0 - 1 =? 0) (s_class s0) (s_address s0)) k s Hl)
      as (s' & Hs' & Hg); [by left|done|].
    destruct (trace "release" _ _ c1) as [c2 [[]|[]| |]]; cbn [fst] in Ht |- *; try (rewrite Ht; exact (ex_intro _ s' (conj Hs' Hg))).
    destruct (strong s0 - 1 =? 0); [|cbn [fst]; rewrite Ht; exact (ex_intro _ s' (conj Hs' Hg))].
    pose proof (trace_slots "destroy" id default_site c2) as Ht2.
    destruct (trace "destroy" _ _ c2) as [c3 [[]|[]| |]]; cbn [fst] in Ht2 |- *; rewrite Ht2, Ht; exact (ex_intro _ s' (conj Hs' Hg)).
  - unfold finish_destroy, mbind, st_bind. rewrite slot_run. destruct (slot_of c id) as [s0|] eqn:Hs0;
      [|exact Hsame]. apply slot_of_Some in Hs0 as (Hl & _).
    destruct (destroying s0) eqn:Hd; [|exact Hsame]. cbv beta iota delta [negb modify mret st_ret].
    apply (put_slot_gen c (id_index id) s0); [done|by right|done].
Qed.

(** A slot whose generation is past an id never answers that id again, until
    the 32-bit generation wraps. *)
Lemma passed_id_dead ops c id s :
  slots c !! Z.to_nat (id_index id) = Some s →
  0 ≤ id_generation id < generation s → generation s + Z.of_nat (length ops) < 2 ^ 32 →
  slot_of (run_ops ops c) id = None ∧ alive (run_ops ops c) id = false.
Proof.
  revert c s. induction ops as [|o ops IH]; intros c s Hs Hg Hbound.
  - simpl. unfold slot_of, alive. rewrite Hs. unfold slot_ok.
    assert (generation s =? id_generation id = false) as -> by lia. done.
  - destruct (run_op_gen o c _ s Hs) as (s' & Hs' & Hstep). simpl length in Hbound.
    apply (IH _ s' Hs').
    + destruct Hstep as [-> | ->]; [done|]. unfold next_generation, u32_wrapping_add.
      rewrite Z.mod_small; lia.
    + destruct Hstep as [-> | ->]; [lia|]. unfold next_generation, u32_wrapping_add.
      rewrite Z.mod_small; lia.
Qed.

Lemma finish_slot c c' id :
  wf c → 0 ≤ id ≤ u64_MAX → run_op (OpFinish id) c = (c', Ok ODone) →
  ∃ s, slots c' !! Z.to_nat (id_index id) = Some s ∧
    generation s = next_generation (id_generation id).
Proof.
  intros Hwf Hid. unfold run_op_at, finish_destroy, mbind, st_bind. rewrite slot_run.
  destruct (slot_of c id) as [s|] eqn:Hs; [|discriminate].
  apply slot_of_Some in Hs as (Hl & Hg & _).
  destruct (destroying s); cbv beta iota delta [negb modify mret st_ret lift]; [|discriminate].
  intros [= <-]. eexists. split.
  - unfold set_free. cbn [slots]. apply (slots_put_slot c id s). exact Hl.
  - cbn [generation]. by rewrite Hg.
Qed.

(** Use after free is impossible: once an object's destruction ends, no
    sequence of operations makes its id name a live object again, as long as
    the 32-bit generation of its slot does not wrap. *)
Theorem finished_id_never_alive (c c' : ArcCore) (id : ObjectId) (ops : list op)
    (Hwf : wf c) (Hid : 0 ≤ id ≤ u64_MAX)
    (Hdone : run_op (OpFinish id) c = (c', Ok ODone))
    (Hwrap : id_generation id + 1 + Z.of_nat (length ops) < 2 ^ 32) :
  alive (run_ops ops c') id = false ∧ address (run_ops ops c') id = 0
  ∧ (run_op (OpRetain id) (run_ops ops c')).2 = Ok (ORefused (NotAlive id)).
Proof.
  destruct (finish_slot c c' id Hwf Hid Hdone) as (s & Hs & Hg).
  pose proof (id_bounds id Hid) as [_ Hgen].
  assert (next_generation (id_generation id) = id_generation id + 1) as En.
  { unfold next_generation, u32_wrapping_add. rewrite Z.mod_small; lia. }
  destruct (passed_id_dead ops c' id s Hs) as [Hslot Halive]; [lia | lia|].
  split; [done|]. split; [unfold address; by rewrite Halive|].
  unfold run_op_at, retain, mbind, st_bind. by rewrite slot_run, Hslot.
Qed.

Lemma finished_id_never_alive_witness :
  let c := run_ops [OpRegister "Box" 0; OpRelease 1] new in
  let c' := (run_op (OpFinish 1) c).1 in
  alive (run_ops [OpRegister "Node" 0] c') 1 = false
  ∧ address (run_ops [OpRegister "Node" 0] c') 1 = 0
  ∧ (run_op (OpRetain 1) (run_ops [OpRegister "Node" 0] c')).2 = Ok (ORefused (NotAlive 1)).
Proof.
  apply (finished_id_never_alive (run_ops [OpRegister "Box" 0; OpRelease 1] new) _ 1).
  - split; simpl.
    + discriminate.
    + intros i s. destruct i as [|i]; [|discriminate]. intros [= <-].
      split; [split; [discriminate | reflexivity]|]. split; [split; [discriminate | reflexivity]|done].
    + intros i Hi. by apply elem_of_nil in Hi.
    + constructor.
    + split; [discriminate | reflexivity].
  - split; discriminate.
  - vm_compute. reflexivity.
  - reflexivity.
Defined.

(** ** The wrap of the generation

    A core with one free slot, and the operations that create and destroy one
    object in it. *)
Definition one_free (g : Z) : ArcCore := mkArcCore [mkSlot g 0 false "" 0] [0] false 1 [].

Definition cycle_ops (g : Z) : list op :=
  [OpRegister "" 0; OpRelease (from_parts 0 g); OpFinish (from_parts 0 g)].

Lemma slot_of_single s f t n l : 1 ≤ generation s < 2 ^ 32 →
  (0 <? strong s) || destroying s = true →
  slot_of (mkArcCore [s] f t n l) (from_parts 0 (generation s)) = Some s.
Proof.
  intros Hg Ho. destruct (from_parts_inv 0 (generation s)) as [Ei Eg]; [lia|].
  unfold slot_of, slot_ok. cbn [slots]. rewrite Ei, Eg.
  change ([s] !! Z.to_nat 0) with (Some s). cbv beta iota. by rewrite Z.eqb_refl, Ho.
Qed.

Lemma cycle_run g : 1 ≤ g < 2 ^ 32 → run_ops (cycle_ops g) (one_free g) = one_free (next_generation g).
Proof.
  intros Hg. destruct (from_parts_inv 0 g) as [Ei Eg]; [lia|].
  unfold run_ops, cycle_ops, one_free. cbn [fold_left].
  assert ((run_op (OpRegister "" 0) (mkArcCore [mkSlot g 0 false "" 0] [0] false 1 [])).1
    = mkArcCore [mkSlot g 1 false "" 0] [] false 1 []) as -> by reflexivity.
  assert ((run_op (OpRelease (from_parts 0 g)) (mkArcCore [mkSlot g 1 false "" 0] [] false 1 [])).1
    = mkArcCore [mkSlot g 0 true "" 0] [] false 1 []) as ->.
  { unfold run_op_at, release, mbind, st_bind.
    rewrite slot_run, (slot_of_single (mkSlot g 1 false "" 0)), Ei by done. reflexivity. }
  unfold run_op_at, finish_destroy, mbind, st_bind.
  rewrite slot_run, (slot_of_single (mkSlot g 0 true "" 0)), Ei by done. reflexivity.
Qed.

Lemma cycles_run n g : 1 ≤ g < 2 ^ 32 →
  ∃ ops, run_ops ops (one_free g) = one_free (Nat.iter n next_generation g)
    ∧ 1 ≤ Nat.iter n next_generation g < 2 ^ 32.
Proof.
  intros Hg. induction n as [|n (ops & Hops & Hr)].
  - exists []. done.
  - exists (ops ++ cycle_ops (Nat.iter n next_generation g))%list. split.
    + unfold run_ops in *. rewrite fold_left_app, Hops. by apply cycle_run.
    + simpl. by apply next_generation_range.
Qed.

Lemma next_generation_iter n g : 1 ≤ g < 2 ^ 32 → Z.of_nat n ≤ 2 ^ 32 - 1 →
  Nat.iter n next_generation g =
    if g + Z.of_nat n <? 2 ^ 32 then g + Z.of_nat n else g + Z.of_nat n - (2 ^ 32 - 1).
Proof.
  intros Hg. induction n as [|n IH]; intros Hn.
  - rewrite Z.add_0_r. destruct (g <? 2 ^ 32) eqn:E; z_bools; [done | lia].
  - change (Nat.iter (S n) next_generation g) with (next_generation (Nat.iter n next_generation g)). rewrite IH by lia. unfold next_generation, u32_wrapping_add.
    destruct (g + Z.of_nat n <? 2 ^ 32) eqn:E1, (g + Z.of_nat (S n) <? 2 ^ 32) eqn:E2; z_bools;
      [rewrite Z.mod_small; lia | | lia | rewrite Z.mod_small; lia].
    assert (g + Z.of_nat n + 1 = 2 ^ 32) as -> by lia. rewrite Z.mod_same by lia. lia.
Qed.

(** The guarantee is not absolute: after [2 ^ 32 - 1] destructions in one slot
    the generation repeats, and the id of a destroyed object names the new
    one. *)
Theorem stale_id_revived (g : Z) (Hg : 1 ≤ g < 2 ^ 32) :
  let id := from_parts 0 g in
  slot_of (one_free (next_generation g)) id = None
  ∧ ∃ ops, alive (run_ops ops (one_free (next_generation g))) id = true.
Proof.
  cbv zeta. destruct (from_parts_inv 0 g) as [Ei Eg]; [lia|]. split.
  { unfold slot_of. rewrite Ei. simpl. by rewrite slot_ok_dead. }
  pose proof (next_generation_range g Hg) as Hn.
  destruct (cycles_run (Z.to_nat (2 ^ 32 - 2)) (next_generation g) Hn) as (ops & Hops & _).
  exists (ops ++ [OpRegister "" 0])%list. unfold run_ops in *. rewrite fold_left_app, Hops.
  assert (Nat.iter (Z.to_nat (2 ^ 32 - 2)) next_generation (next_generation g) = g) as ->.
  { rewrite <- Nat.iter_succ_r.
    rewrite next_generation_iter by lia.
    rewrite <- Z2Nat.inj_succ by lia. rewrite Z2Nat.id by lia.
    destruct (_ <? _) eqn:E; z_bools; lia. }
  change (fold_left _ _ _) with (mkArcCore [mkSlot g 1 false "" 0] [] false 1 []).
  unfold alive. cbn [slots]. rewrite Ei, Eg.
  change ([?s] !! Z.to_nat 0) with (Some s). cbn [generation]. by rewrite Z.eqb_refl.
Qed.

Lemma stale_id_revived_witness :
  slot_of (one_free 8) (from_parts 0 7) = None
  ∧ ∃ ops, alive (run_ops ops (one_free 8)) (from_parts 0 7) = true.
Proof. apply (stale_id_revived 7). split; [discriminate | reflexivity]. Defined.
