(* ===== verification/Heap.v ===== *)
(** * Heap: the payloads of live allocations ([crates/bn_runtime/src/heap.rs])

    Payloads are indexed by the slot of the handle the reference-counting core
    issued, each with the generation of the handle that owns it.  The theorems
    show that a handle reads and writes its own payload only, and that a stale
    handle is diagnosed, never followed. *)

From S2P Require Import Prelude Text Diag.

#[local] Open Scope string_scope.
#[local] Open Scope Z_scope.

(** [struct Handle] ([crates/bn_value/src/lib.rs]). *)
Record Handle := mkHandle { h_slot : Z; h_generation : Z }.

#[global] Instance Handle_eq_dec : EqDecision Handle.
Proof. solve_decision. Defined.

(** What the memory allocator answers to [try_reserve_exact(length)]. *)
Class Allocator := can_reserve : Z → bool.

(** [struct Heap<T>] *)
Abbreviation Heap T := (list (option (Z * list T))).

Section Heap.
Context {T : Type}.

(** [Err(heap_error(id, message, span))] *)
Definition heap_error {A} (id : DiagId) (message : string) (span : Span) : result A :=
  match argument_schema id with
  | [only] =>
      d ← expect "runtime compatibility diagnostic schema"
            (structured id [(only, message)] span);
      Err d
  | _ => Panic "needs an explicit argument mapping"
  end.

Definition stale {A} (span : Span) : result A :=
  heap_error USE_AFTER_RELEASE "allocation handle refers to released memory" span.

Definition region_index_error {A} (index length : Z) (span : Span) : result A :=
  index_out_of_bounds index length "region" span.

Definition count (h : Heap T) : Z :=
  Z.of_nat (length (List.filter (fun s => match s with Some _ => true | None => false end) h)).

Definition allocation_payload `{Allocator} (length : Z) (initial : T) (span : Span)
    : result (list T) :=
  if can_reserve length then Ok (replicate (Z.to_nat length) initial)
  else heap_error ALLOCATION_TOO_LARGE "allocation payload cannot be reserved" span.

(** [allocations.resize_with(n, || None)] when the vector is shorter. *)
Definition grow (h : Heap T) (n : nat) : Heap T := (h ++ replicate (n - length h) None)%list.

Definition insert `{Allocator} (h : Heap T) (handle : Handle) (length : Z) (initial : T)
    (span : Span) : Heap T * result unit :=
  match allocation_payload length initial span with
  | Ok payload =>
      let slot := Z.to_nat (h_slot handle) in
      let h := grow h (S slot) in
      match h !! slot with
      | Some None => (<[slot := Some (h_generation handle, payload)]> h, Ok tt)
      | _ => (h, Panic "the ARC core issued a handle whose slot is still in use")
      end
  | Err e => (h, Err e)
  | Panic w => (h, Panic w)
  | Fuel => (h, Fuel)
  end.

(** The payload [handle] owns: its slot with its generation. *)
Definition owned (h : Heap T) (handle : Handle) : option (list T) :=
  match h !! Z.to_nat (h_slot handle) with
  | Some (Some (generation, payload)) =>
      if generation =? h_generation handle then Some payload else None
  | _ => None
  end.

Definition remove (h : Heap T) (handle : Handle) : Heap T * option (list T) :=
  match owned h handle with
  | Some payload => (<[Z.to_nat (h_slot handle) := None]> h, Some payload)
  | None => (h, None)
  end.

Definition payload (h : Heap T) (handle : Handle) (span : Span) : result (list T) :=
  match owned h handle with
  | Some payload => Ok payload
  | None => stale span
  end.

Definition heap_get (h : Heap T) (handle : Handle) (index : Z) (span : Span) : result T :=
  payload ← payload h handle span;
  match payload !! Z.to_nat index with
  | Some v => Ok v
  | None => region_index_error index (Z.of_nat (length payload)) span
  end.

(** [*heap.get_mut(handle, index, span)? = value] *)
Definition heap_set (h : Heap T) (handle : Handle) (index : Z) (value : T) (span : Span)
    : Heap T * result unit :=
  match payload h handle span with
  | Ok payload =>
      match payload !! Z.to_nat index with
      | Some _ =>
          (<[Z.to_nat (h_slot handle) :=
               Some (h_generation handle, <[Z.to_nat index := value]> payload)]> h, Ok tt)
      | None => (h, region_index_error index (Z.of_nat (length payload)) span)
      end
  | Err e => (h, Err e)
  | Panic w => (h, Panic w)
  | Fuel => (h, Fuel)
  end.

Definition len (h : Heap T) (handle : Handle) (span : Span) : result Z :=
  payload ← payload h handle span; Ok (Z.of_nat (length payload)).

(** ** Lemmas *)

Lemma stale_raises {A} span :
  @stale A span = Err (mkDiagnostic USE_AFTER_RELEASE
    "allocation handle refers to released memory" span
    [("detail", "allocation handle refers to released memory")]).
Proof. reflexivity. Qed.

Lemma grow_lookup h n i p : grow h n !! i = Some (Some p) ↔ h !! i = Some (Some p).
Proof.
  unfold grow. destruct (Nat.lt_ge_cases i (length h)).
  - by rewrite lookup_app_l.
  - rewrite lookup_app_r by done. rewrite (lookup_ge_None_2 h i) by done.
    split; [|discriminate]. intros Hi. apply lookup_replicate in Hi as [? _]. discriminate.
Qed.

Lemma grow_length h n : (n <= length (grow h n))%nat.
Proof. unfold grow. rewrite length_app, length_replicate. lia. Qed.

Lemma grow_owned h n handle : owned (grow h n) handle = owned h handle.
Proof.
  unfold owned. destruct (grow h n !! _) as [[p|]|] eqn:E.
  - apply grow_lookup in E. by rewrite E.
  - destruct (h !! _) as [[q|]|] eqn:E2; try done. apply (grow_lookup h n) in E2. congruence.
  - destruct (h !! _) as [[q|]|] eqn:E2; try done. apply (grow_lookup h n) in E2. congruence.
Qed.

Lemma owned_put h slot g p handle :
  0 ≤ slot → 0 ≤ h_slot handle → (Z.to_nat slot < length h)%nat →
  owned (<[Z.to_nat slot := Some (g, p)]> h) handle =
    if h_slot handle =? slot then (if g =? h_generation handle then Some p else None)
    else owned h handle.
Proof.
  intros Hs Hh Hlt. unfold owned. destruct (h_slot handle =? slot) eqn:E; z_bools.
  - rewrite E, list_lookup_insert_eq by done. done.
  - by rewrite list_lookup_insert_ne by lia.
Qed.
End Heap.

(** ** Theorems *)

Lemma insert_inv {T} `{Allocator} (h h' : Heap T) handle length initial span :
  insert h handle length initial span = (h', Ok tt) →
  h' = <[Z.to_nat (h_slot handle) :=
          Some (h_generation handle, replicate (Z.to_nat length) initial)]>
         (grow h (S (Z.to_nat (h_slot handle))))
  ∧ grow h (S (Z.to_nat (h_slot handle))) !! Z.to_nat (h_slot handle) = Some None.
Proof.
  unfold insert, allocation_payload. destruct (can_reserve length); [|discriminate].
  destruct (grow h _ !! _) as [[e|]|] eqn:E; [discriminate| |discriminate].
  by intros [= <-].
Qed.

Lemma insert_reads {T} `{Allocator} (h h' : Heap T) (handle other : Handle)
    (length : Z) (initial : T) (span span' : Span) (index : Z)
    (Hslot : 0 ≤ h_slot handle) (Hother : 0 ≤ h_slot other) (Hindex : 0 ≤ index)
    (Hinsert : insert h handle length initial span = (h', Ok tt)) :
  heap_get h' other index span' =
    if decide (other = handle) then
      if index <? length then Ok initial
      else region_index_error index (Z.max 0 length) span'
    else heap_get h other index span'.
Proof.
  apply insert_inv in Hinsert as [-> Hnone]. unfold heap_get, payload.
  rewrite owned_put by (try done; pose proof (grow_length h (S (Z.to_nat (h_slot handle)))); lia).
  destruct (decide (other = handle)) as [->|Hne].
  - rewrite !Z.eqb_refl. simpl. destruct (index <? length) eqn:E; z_bools.
    + rewrite lookup_replicate_2 by lia. done.
    + rewrite (lookup_ge_None_2 (replicate _ _)) by (rewrite length_replicate; lia).
      rewrite length_replicate. f_equal. lia.
  - destruct (h_slot other =? h_slot handle) eqn:E; z_bools; [|by rewrite grow_owned].
    destruct (h_generation handle =? h_generation other) eqn:E2; z_bools.
    { destruct Hne. destruct other, handle; simpl in *; congruence. }
    assert (owned h other = None) as ->; [|done].
    rewrite <- (grow_owned h (S (Z.to_nat (h_slot handle)))). unfold owned. by rewrite E, Hnone.
Qed.

(** A new payload holds [length] copies of the initial value, exactly for its
    own handle; every other handle reads what it read before. *)
Theorem heap_insert_spec {T} `{Allocator} (h h' : Heap T) (handle other : Handle)
    (length : Z) (initial : T) (span span' : Span) (index : Z)
    (Hslot : 0 ≤ h_slot handle) (Hother : 0 ≤ h_slot other) (Hindex : 0 ≤ index)
    (Hinsert : insert h handle length initial span = (h', Ok tt)) :
  heap_get h' other index span' =
    if decide (other = handle) then
      if index <? length then Ok initial
      else region_index_error index (Z.max 0 length) span'
    else heap_get h other index span'.
Proof. by apply (insert_reads h h' handle other length initial span). Qed.

Definition test_allocator : Allocator := fun n => n <=? 1000.

Lemma heap_insert_spec_witness :
  heap_get (insert (H := test_allocator) [] (mkHandle 2 7) 3 5 default_span).1
    (mkHandle 2 7) 1 default_span =
    (if decide (mkHandle 2 7 = mkHandle 2 7) then
       if 1 <? 3 then Ok 5 else region_index_error 1 (Z.max 0 3) default_span
     else heap_get [] (mkHandle 2 7) 1 default_span).
Proof.
  apply (@heap_insert_spec Z test_allocator [] _ (mkHandle 2 7) (mkHandle 2 7) 3 5 default_span);
    [discriminate.. | reflexivity].
Defined.

(** After [remove] the handle owns nothing; the others own what they owned. *)
Lemma owned_remove {T} (h : Heap T) handle other :
  0 ≤ h_slot handle → 0 ≤ h_slot other →
  owned (remove h handle).1 other = if decide (other = handle) then None else owned h other.
Proof.
  intros Hslot Hother. unfold remove. destruct (owned h handle) as [p|] eqn:Hown; cbn [fst].
  - unfold owned in Hown |- *.
    destruct (h !! Z.to_nat (h_slot handle)) as [[[g q]|]|] eqn:Hl; try discriminate.
    destruct (g =? h_generation handle) eqn:Hg; [|discriminate]. z_bools.
    destruct (Z.eq_dec (h_slot other) (h_slot handle)) as [E|E].
    + rewrite E, list_lookup_insert_eq by exact (lookup_lt_Some _ _ _ Hl). rewrite Hl.
      destruct (decide (other = handle)) as [->|Hne]; [done|].
      destruct (g =? h_generation other) eqn:E2; z_bools; [|done].
      destruct Hne. destruct other, handle; simpl in *; congruence.
    + rewrite list_lookup_insert_ne by lia. rewrite decide_False by congruence. done.
  - destruct (decide (other = handle)) as [->|Hne]; done.
Qed.

Lemma heap_get_unowned {T} (h : Heap T) handle index span :
  owned h handle = None → raises (heap_get h handle index span) USE_AFTER_RELEASE span.
Proof. intros Hn. unfold heap_get, payload. by rewrite Hn. Qed.

Lemma heap_get_owned {T} (h h' : Heap T) handle index span :
  owned h handle = owned h' handle → heap_get h handle index span = heap_get h' handle index span.
Proof. intros E. unfold heap_get, payload. by rewrite E. Qed.

(** After [remove] every access through the handle is diagnosed as a use after
    release, whatever the slot is reused for under other generations. *)
Theorem heap_remove_spec {T} (h h' : Heap T) (handle other : Handle) (data : list T)
    (index : Z) (span : Span) (Hslot : 0 ≤ h_slot handle) (Hother : 0 ≤ h_slot other)
    (Hremove : remove h handle = (h', Some data)) :
  raises (heap_get h' handle index span) USE_AFTER_RELEASE span
  ∧ remove h' handle = (h', None)
  ∧ (other ≠ handle → heap_get h' other index span = heap_get h other index span).
Proof.
  assert (h' = (remove h handle).1) as -> by (by rewrite Hremove).
  pose proof (owned_remove h handle handle Hslot Hslot) as Hown. rewrite decide_True in Hown by done.
  split; [by apply heap_get_unowned|]. split; [unfold remove at 1; by rewrite Hown|].
  intros Hne. apply heap_get_owned. rewrite owned_remove by done. by rewrite decide_False.
Qed.

Lemma heap_remove_spec_witness :
  raises (heap_get (T := Z) [None] (mkHandle 0 1) 0 default_span) USE_AFTER_RELEASE default_span
  ∧ remove (T := Z) [None] (mkHandle 0 1) = ([None], None)
  ∧ (mkHandle 0 2 ≠ mkHandle 0 1 →
     heap_get (T := Z) [None] (mkHandle 0 2) 0 default_span
     = heap_get [Some (1, [4])] (mkHandle 0 2) 0 default_span).
Proof.
  apply (heap_remove_spec [Some (1, [4])] [None] (mkHandle 0 1) (mkHandle 0 2) [4]);
    [discriminate.. | reflexivity].
Defined.

Lemma set_reads {T} (h : Heap T) (handle other : Handle) (index j : Z) (value : T)
    (span : Span) (Hslot : 0 ≤ h_slot handle) (Hother : 0 ≤ h_slot other)
    (Hindex : 0 ≤ index) (Hj : 0 ≤ j) :
  match heap_set h handle index value span with
  | (h', Ok _) =>
      heap_get h' other j span =
        if decide (other = handle ∧ j = index) then Ok value else heap_get h other j span
  | (h', r) => h' = h ∧ ∀ w, r ≠ Panic w
  end.
Proof.
  unfold heap_set, payload. destruct (owned h handle) as [p|] eqn:Hown; [|done].
  destruct (p !! Z.to_nat index) as [old|] eqn:Hp; [|done].
  unfold owned in Hown. destruct (h !! Z.to_nat (h_slot handle)) as [[[g q]|]|] eqn:Hl; try discriminate.
  destruct (g =? h_generation handle) eqn:Hg; [|discriminate]. injection Hown as ->. z_bools. subst g.
  unfold heap_get, payload. rewrite owned_put by (try done; exact (lookup_lt_Some _ _ _ Hl)).
  destruct (h_slot other =? h_slot handle) eqn:E; z_bools.
  - destruct (h_generation handle =? h_generation other) eqn:E2; z_bools.
    + assert (other = handle) as -> by (destruct other, handle; simpl in *; congruence).
      assert (owned h handle = Some p) as -> by (unfold owned; by rewrite Hl, Z.eqb_refl).
      simpl. destruct (decide (handle = handle ∧ j = index)) as [[_ ->]|Hne].
      * by rewrite list_lookup_insert_eq by exact (lookup_lt_Some _ _ _ Hp).
      * rewrite list_lookup_insert_ne by (intros Eq; apply Hne; split; [done|lia]).
        by rewrite length_insert.
    + rewrite decide_False by (intros [-> _]; congruence).
      unfold owned. rewrite E, Hl. apply Z.eqb_neq in E2. by rewrite E2.
  - rewrite decide_False by (intros [-> _]; congruence). done.
Qed.

(** A write changes the element it names and nothing else, and refuses an
    index outside the region without changing the heap. *)
Theorem heap_set_spec {T} (h : Heap T) (handle other : Handle) (index j : Z) (value : T)
    (span : Span) (Hslot : 0 ≤ h_slot handle) (Hother : 0 ≤ h_slot other)
    (Hindex : 0 ≤ index) (Hj : 0 ≤ j) :
  match heap_set h handle index value span with
  | (h', Ok _) =>
      heap_get h' other j span =
        if decide (other = handle ∧ j = index) then Ok value else heap_get h other j span
  | (h', r) => h' = h ∧ ∀ w, r ≠ Panic w
  end.
Proof. by apply set_reads. Qed.

Lemma heap_set_spec_witness :
  match heap_set [Some (1, [4; 5])] (mkHandle 0 1) 1 9 default_span with
  | (h', Ok _) =>
      heap_get h' (mkHandle 0 1) 1 default_span =
        if decide (mkHandle 0 1 = mkHandle 0 1 ∧ 1 = 1) then Ok 9
        else heap_get [Some (1, [4; 5])] (mkHandle 0 1) 1 default_span
  | (h', r) => h' = [Some (1, [4; 5])] ∧ ∀ w, r ≠ Panic w
  end.
Proof. apply (heap_set_spec [Some (1, [4; 5])]); discriminate. Defined.
