(* ===== verification/Values.v ===== *)
(** * Values: runtime values and the operations on one value

    [crates/bn_value] (the values) and the interpreter's [numeric.rs],
    [allocation.rs], [collections.rs], [render.rs] and [compare.rs].  A vector
    or record is a list: the code shares the storage copy-on-write
    ([Arc::make_mut]), so a write is never seen through another copy and a
    pure list has the same observations. *)

From S2P Require Import Prelude Text Diag Types ClassModel Floats Literals Civil Temporal TimeZone Heap.

#[local] Open Scope string_scope.
#[local] Open Scope Z_scope.

(** ** Values ([crates/bn_value/src/lib.rs]) *)

Inductive Value :=
| VInteger (v : Z) (kind : IntegerType)
| VFloat (f : f64) (kind : FloatType)
| VBoolean (b : bool)
| VString (s : string)
| VVector (items : list Value)
| VFunction (name : string)
| VType (name : string)
| VNull
| VNotAvailable
| VEndOfFile
| VError (code : Z) (message : string) (detail : option (string * string))
| VHostConsole
| VHostArgs
| VTcpStream (id : Z)
| VTcpListener (id : Z)
| VUdpSocket (id : Z)
| VLogFields (id : Z)
| VLogEntry (id : Z)
| VLogLogger (id : Z)
| VJson (id : Z)
| VCryptoBytes (id : Z)
| VCryptoKey (id : Z)
| VCompressBytes (id : Z)
| VCompressZip (id : Z)
| VDispatchQueue (id : Z)
| VDispatchTicket (id : Z)
| VDispatchGroup (id : Z)
| VDispatchBarrier (id : Z)
| VDispatchSemaphore (id : Z)
| VDispatchMutex (id : Z)
| VFile (id : Z)
| VDataFrame (id : Z)
| VHandle (type_name : string)
| VRecord (type_name : string) (fields : list Value)
| VObject (handle : Handle) (class : string)
| VPointer (handle : Handle) (element : Z)
| VDate (days : Z)
| VTime (millis : Z)
| VTimeZone (name : string).

(** A value with no value inside. *)
Definition value_leaf (v : Value) : bool :=
  match v with VVector _ | VRecord _ _ => false | _ => true end.

Section Value_ind'.
Variable P : Value → Prop.
Hypothesis Hvec : ∀ l, Forall P l → P (VVector l).
Hypothesis Hrec : ∀ n l, Forall P l → P (VRecord n l).
Hypothesis Hleaf : ∀ v, value_leaf v = true → P v.

(** Induction through the nested lists of values. *)
Fixpoint Value_ind' (v : Value) : P v :=
  let all := fix all (l : list Value) : Forall P l :=
    match l with
    | [] => Forall_nil_2 P
    | x :: l => Forall_cons_2 P x l (Value_ind' x) (all l)
    end in
  match v with
  | VVector l => Hvec l (all l)
  | VRecord n l => Hrec n l (all l)
  | v => Hleaf v eq_refl
  end.
End Value_ind'.

(** [Value::error] and [Value::error_report] *)
Definition value_error (code : Z) (message : string) : Value := VError code message None.
Definition error_report (code : Z) (operation message cause : string) : Value :=
  VError code message (Some (operation, cause)).

Definition error_detail_field (detail : option (string * string)) (cause : bool) : string :=
  match detail with
  | None => ""
  | Some (operation, c) => if cause then c else operation
  end.

(** [RecordValue::get] and [RecordValue::replace] *)
Definition record_get (fields : list Value) (slot : Z) : option Value :=
  fields !! Z.to_nat slot.
Definition record_replace (fields : list Value) (slot : Z) (v : Value)
    : list Value * option Value :=
  match fields !! Z.to_nat slot with
  | Some old => (<[Z.to_nat slot := v]> fields, Some old)
  | None => (fields, None)
  end.

(** ** Numbers ([crates/bn_interp/src/numeric.rs]) *)

Definition integer (value : Value) (span : Span) : result (Z * IntegerType) :=
  match value with
  | VInteger v kind => Ok (v, kind)
  | _ => type_mismatch "integral value" "non-integral value" "integer operation" span
  end.

Definition boolean (value : Value) (span : Span) : result bool :=
  match value with
  | VBoolean b => Ok b
  | _ => type_mismatch "BOOLEAN" "non-BOOLEAN value" "boolean operation" span
  end.

(** A float as its type stores it. *)
Definition at_kind (f : f64) (kind : FloatType) : f64 :=
  match kind with Float32 => f32_to_f64 (f64_to_f32 f) | Float64 => f end.

Definition number_as_float (value : Value) (span : Span) : result f64 :=
  match value with
  | VInteger v _ => Ok (f64_of_Z v)
  | VFloat f kind => Ok (at_kind f kind)
  | _ => type_mismatch "numeric value" "non-numeric value" "numeric operation" span
  end.

(** [bn_core_text::parse_val] (the [VAL] built-in): the longest numeric prefix. *)
Fixpoint trim_start_chars (cs : list string) : list string :=
  match cs with
  | c :: cs' => if is_whitespace c then trim_start_chars cs' else cs
  | [] => []
  end.
Definition trim_start (s : string) : string := fold_right String.append "" (trim_start_chars (chars s)).

Definition parse_val (text : string) : f64 :=
  let text := trim_start text in
  let '(sign, body) := match text with
    | String "+" r => ("+", r)
    | String "-" r => ("-", r)
    | _ => ("", text)
    end in
  let '(int, rest) := take_digits body in
  let '(frac, dot) := match rest with
    | String "." r => ((take_digits r).1, true)
    | _ => ("", false)
    end in
  if String.eqb int "" && String.eqb frac "" then f64_zero
  else default f64_zero
         (parse_f64 (sign +:+ int +:+ (if dot then "." else "") +:+ frac)).

Definition is_float_value (value : Value) : bool :=
  match value with VFloat _ _ => true | _ => false end.

Definition integer_kind (ty : BType) : option IntegerType :=
  match ty with TInteger kind => Some kind | _ => None end.

Definition float_kind (ty : BType) : FloatType :=
  match ty with TFloat kind => kind | _ => Float64 end.

Definition float_value (value : f64) (kind : FloatType) : Value := VFloat (at_kind value kind) kind.

Definition integer_range (kind : IntegerType) : Z * Z :=
  match kind with
  | Byte => (0, 2 ^ 8 - 1)
  | Int8 => (- 2 ^ 7, 2 ^ 7 - 1)
  | Int16 => (- 2 ^ 15, 2 ^ 15 - 1)
  | Int32 => (i32_MIN, i32_MAX)
  | Int64 => (i64_MIN, i64_MAX)
  | UInt16 => (0, 2 ^ 16 - 1)
  | UInt32 => (0, u32_MAX)
  | UInt64 => (0, u64_MAX)
  end.

Definition parse_float (value : string) : res Diagnostic f64 :=
  match value with
  | "NAN" => Ok S754_nan
  | "INF" => Ok f64_inf
  | "-INF" => Ok f64_neg_inf
  | _ => expect "validated FLOAT literal" (parse_f64 value)
  end.

Definition exit_code (code : Z) (span : Span) : result Z :=
  match try_from 0 255 code with
  | Some c => Ok c
  | None => runtime_error INVALID_EXIT_CODE "exit code must be in 0..255" span
  end.

(** [ordered] on any type with a total order. *)
Definition ordered (operator : string) (compared : comparison) (span : Span) : result Value :=
  match operator with
  | "Less" => Ok (VBoolean (match compared with Lt => true | _ => false end))
  | "LessEqual" => Ok (VBoolean (match compared with Gt => false | _ => true end))
  | "Greater" => Ok (VBoolean (match compared with Gt => true | _ => false end))
  | "GreaterEqual" => Ok (VBoolean (match compared with Lt => false | _ => true end))
  | _ => type_mismatch "ordered comparison operator" operator "numeric ordered comparison" span
  end.

(** ** Regions ([allocation.rs], [collections.rs]) *)

Definition pointer_element_default (element : BType) (span : Span) : result Value :=
  match element with
  | TInteger kind => Ok (VInteger 0 kind)
  | TFloat kind => Ok (VFloat f64_zero kind)
  | _ => type_mismatch "numeric pointer element" "non-numeric type" "pointer allocation" span
  end.

Definition pointer_element_size (element : BType) : option Z :=
  match element with
  | TInteger kind => Some (integer_byte_size kind)
  | TFloat Float32 => Some 4
  | TFloat Float64 => Some 8
  | _ => None
  end.

(** [format!("{kind:?}")] *)
Definition integer_debug (k : IntegerType) : string :=
  match k with
  | Byte => "Byte" | Int8 => "Int8" | Int16 => "Int16" | Int32 => "Int32"
  | Int64 => "Int64" | UInt16 => "UInt16" | UInt32 => "UInt32" | UInt64 => "UInt64"
  end.

Definition display_element (element : BType) : string :=
  match element with
  | TInteger kind => integer_debug kind
  | TFloat Float32 => "Float32"
  | TFloat Float64 => "Float64"
  | _ => "POINTER"
  end.

Definition add_sizes (total : Z) (size : Value) (span : Span) : result Z :=
  match size with
  | VInteger size _ =>
      match try_from 0 u64_MAX size with
      | None => integer_overflow span
      | Some size =>
          match u64_checked_add total size with
          | Some t => Ok t
          | None => integer_overflow span
          end
      end
  | _ => type_mismatch "INTEGER size" "non-integer value" "allocation size" span
  end.

Definition dataframe_index_error : Value :=
  error_report 1 "DataFrame" "DataFrame index out of bounds" msg_dataframe_index_cause.

Fixpoint unsigned_indices (values : list Z) : option (list Z) :=
  match values with
  | [] => Some []
  | v :: vs =>
      v ← try_from 0 usize_MAX v; vs ← unsigned_indices vs; Some (v :: vs)
  end.

Definition collect_indices (value : Value) (memory : Heap Value) (span : Span)
    : result (list Z) :=
  values ←
    (match value with
     | VVector values => Ok values
     | VPointer handle _ =>
         n ← len memory handle span;
         mapR (fun i => heap_get memory handle (Z.of_nat i) span) (List.seq 0 (Z.to_nat n))
     | _ => type_mismatch "INTEGER vector" "non-vector value" "index collection" span
     end);
  mapR (fun v => p ← integer v span; Ok p.1) values.

(** ** Text ([render.rs]) *)

Fixpoint render (value : Value) : string :=
  match value with
  | VInteger v _ => text_integer v
  | VFloat f ty => text_float f ty
  | VBoolean b => text_boolean b
  | VString s => s
  | VNull => "NULL"
  | VNotAvailable => "NA"
  | VEndOfFile => "EOF"
  | VVector values => "[" +:+ join ", " (map render values) +:+ "]"
  | VFunction name | VType name | VTimeZone name => name
  | VHostConsole => "HOST.Console"
  | VHostArgs => "HOST.Args"
  | VTcpStream _ => "HOST.Net.TCPStream"
  | VTcpListener _ => "HOST.Net.TCPListener"
  | VUdpSocket _ => "HOST.Net.UDPSocket"
  | VLogFields _ => "BNLog.Fields"
  | VLogEntry _ => "BNLog.Entry"
  | VLogLogger _ => "BNLog.Logger"
  | VJson _ => "BNJson.Json"
  | VCryptoBytes _ => "BNCrypto.Bytes"
  | VCryptoKey _ => type_crypto_key
  | VCompressBytes _ => type_compress_bytes
  | VCompressZip _ => type_compress_zip_archive
  | VDispatchQueue _ => "BNDispatch.Queue"
  | VDispatchTicket id => "BNDispatch.Ticket#" +:+ dec_of_Z id
  | VDispatchGroup id => "BNDispatch.Group#" +:+ dec_of_Z id
  | VDispatchBarrier id => "BNDispatch.Barrier#" +:+ dec_of_Z id
  | VDispatchSemaphore id => "BNDispatch.Semaphore#" +:+ dec_of_Z id
  | VDispatchMutex id => "BNDispatch.Mutex#" +:+ dec_of_Z id
  | VHandle type_name => type_name
  | VRecord type_name _ => type_name
  | VObject _ class => rsplit_last "." class
  | VPointer _ _ => "POINTER"
  | VFile _ => "FS.File"
  | VDataFrame _ => "DataFrame"
  | VDate days => format_date days
  | VTime millis => format_time millis
  | VError code message detail =>
      text_error code (error_detail_field detail false) message (error_detail_field detail true)
  end.

(** ** Comparison ([compare.rs]) *)

Definition handle_eqb (a b : Handle) : bool :=
  (h_slot a =? h_slot b) && (h_generation a =? h_generation b).

Fixpoint equals (left right : Value) {struct left} : bool :=
  let all := fix all (l m : list Value) : bool :=
    match l, m with
    | x :: l, y :: m => equals x y && all l m
    | _, _ => true
    end in
  match left, right with
  | VInteger l _, VInteger r _ => l =? r
  | VFloat l _, VFloat r _ => f64_eq l r
  | VInteger l _, VFloat r _ => f64_eq (f64_of_Z l) r
  | VFloat l _, VInteger r _ => f64_eq l (f64_of_Z r)
  | VBoolean l, VBoolean r => Bool.eqb l r
  | VString l, VString r => String.eqb l r
  | VFunction l, VFunction r => String.eqb l r
  | VNull, VNull | VNotAvailable, VNotAvailable | VEndOfFile, VEndOfFile
  | VHostConsole, VHostConsole => true
  | VHandle l, VHandle r => String.eqb l r
  | VFile l, VFile r => l =? r
  | VDataFrame l, VDataFrame r => l =? r
  | VError lc lm _, VError rc rm _ => (lc =? rc) && String.eqb lm rm
  | VObject l _, VObject r _ => handle_eqb l r
  | VPointer l _, VPointer r _ => handle_eqb l r
  | VDate l, VDate r => l =? r
  | VTime l, VTime r => l =? r
  | VTimeZone l, VTimeZone r => String.eqb l r
  | VRecord ln l, VRecord rn r =>
      String.eqb ln rn && (length l =? length r)%nat && all l r
  | VVector l, VVector r => (length l =? length r)%nat && all l r
  | _, _ => false
  end.

Definition is_host_file_type (name : string) : bool :=
  String.eqb name "FS.File" || (ends_with ".File" name && negb (starts_with "#" name)).

Definition is_host_file_method (name : string) : bool :=
  match rsplit_once "." name with
  | Some (owner, method) =>
      is_host_file_type owner
      && bool_decide (method ∈ ["Close"; "ReadLine"; "ReadAll"; "Write"; "ReadBytes";
                                "WriteBytes"; "WriteLine"])
  | None => false
  end.

Definition one_of (test : string) (names : list string) : bool :=
  existsb (String.eqb test) names.

(** The scalar type of a value, for a scalar test. *)
Definition scalar_type_of (value : Value) : option BType :=
  match value with
  | VInteger _ kind => Some (TInteger kind)
  | VFloat _ kind => Some (TFloat kind)
  | VBoolean _ => Some TBoolean
  | VString _ => Some TString
  | _ => None
  end.

(** [ELEMENT[n]...]: the dimension and the type of one element. *)
Definition vector_test (test : string) : option (string * string) :=
  if ends_with "]" test then
    match split_once "[" test with
    | Some (head, rest) =>
        match split_once "]" rest with
        | Some (dimension, tail) => Some (dimension, head +:+ tail)
        | None => None
        end
    | None => None
    end
  else None.

(** The last arm of [is_value]: a named type. *)
Definition is_named_value (value : Value) (test : string) (classes : ClassModel) : bool :=
  match value with
  | VFile _ => is_host_file_type test
  | VDataFrame _ =>
      String.eqb test "DataFrame" || (ends_with ".DataFrame" test && negb (starts_with "#" test))
  | VLogFields _ => one_of test ["BNLog.Fields"; "Fields"]
  | VLogEntry _ => one_of test ["BNLog.Entry"; "Entry"]
  | VLogLogger _ => one_of test ["BNLog.Logger"; "Logger"]
  | VJson _ => one_of test ["BNJson.Json"; "Json"]
  | VCryptoBytes _ => one_of test [type_crypto_bytes; "Bytes"; type_compress_bytes]
  | VCryptoKey _ => one_of test [type_crypto_key; "Key"]
  | VCompressBytes _ => one_of test [type_compress_bytes; "Bytes"; type_crypto_bytes]
  | VCompressZip _ => one_of test [type_compress_zip_archive; "ZipArchive"]
  | VDispatchQueue _ => one_of test ["BNDispatch.Queue"; "Queue"]
  | VDispatchTicket _ => one_of test ["BNDispatch.Ticket"; "Ticket"]
  | VDispatchGroup _ => one_of test ["BNDispatch.Group"; "Group"]
  | VDispatchBarrier _ => one_of test ["BNDispatch.Barrier"; "Barrier"]
  | VDispatchSemaphore _ => one_of test ["BNDispatch.Semaphore"; "Semaphore"]
  | VDispatchMutex _ => one_of test ["BNDispatch.Mutex"; "Mutex"]
  | VTcpStream _ => String.eqb test "HOST.Net.TCPStream"
  | VTcpListener _ => String.eqb test "HOST.Net.TCPListener"
  | VUdpSocket _ => String.eqb test "HOST.Net.UDPSocket"
  | VObject _ class =>
      String.eqb class test || String.eqb (rsplit_last "." class) test
      || is_upcast classes class test
  | VRecord type_name _ => String.eqb type_name test
  | _ => false
  end.

Fixpoint is_value (value : Value) (test : string) (classes : ClassModel)
    (pointer_len : option Z) {struct value} : bool :=
  let all := fix all (l : list Value) (element : string) : bool :=
    match l with
    | [] => true
    | item :: l => is_value item element classes None && all l element
    end in
  match scalar_test_type test with
  | Some ty =>
      match scalar_type_of value with
      | Some actual => bool_decide (actual = ty)
      | None => false
      end
  | None =>
      match test with
      | "NAN" => match value with VFloat f _ => is_nan f | _ => false end
      | "INF" => match value with VFloat f _ => f64_eq f f64_inf | _ => false end
      | "-INF" => match value with VFloat f _ => f64_eq f f64_neg_inf | _ => false end
      | "NULL" => match value with VNull => true | _ => false end
      | "NA" => match value with VNotAvailable => true | _ => false end
      | "EOF" => match value with VEndOfFile => true | _ => false end
      | "Error" => match value with VError _ _ _ => true | _ => false end
      | "DATE" => match value with VDate _ => true | _ => false end
      | "TIME" => match value with VTime _ => true | _ => false end
      | "TIMEZONE" => match value with VTimeZone _ => true | _ => false end
      | _ =>
          if starts_with msg_pointer_to_prefix test then
            match value with
            | VPointer _ element =>
                default false (pointer_is_holds element (default 0 pointer_len) test)
            | _ => false
            end
          else
            match vector_test test with
            | Some (dimension, element) =>
                match value with
                | VVector items =>
                    bool_decide (from_str_radix 0 usize_MAX 10 dimension
                                 = Some (Z.of_nat (length items)))
                    && all items element
                | _ => false
                end
            | None => is_named_value value test classes
            end
      end
  end.

(** The name of a nominal type; [name_of3] leaves local type names out. *)
Definition name_of3 (ty : BType) : option string :=
  match ty with
  | TNamed name | TImportedNamed _ name | TImportedTypeName _ name => Some name
  | _ => None
  end.
Definition name_of4 (ty : BType) : option string :=
  match ty with TTypeName name => Some name | _ => name_of3 ty end.

Definition named_as (name : option string) (p : string → bool) : bool :=
  match name with Some n => p n | None => false end.

(** A library type under its full name, its short name or an alias of it. *)
Definition library_name (full short : string) (name : string) : bool :=
  String.eqb name full || String.eqb name short || ends_with ("." +:+ short) name.

Definition value_matches_type (value : Value) (ty : BType) : bool :=
  match value, ty with
  | VInteger _ _, TInteger _ | VFloat _ _, TFloat _ | VBoolean _, TBoolean
  | VFunction _, TFunction _ _ | VString _, TString | VVector _, TVector _ _
  | VNull, TNull | VNotAvailable, TNotAvailable | VEndOfFile, TEndOfFile
  | VObject _ _, (TNamed _ | TTypeName _ | TImportedNamed _ _ | TImportedTypeName _ _)
  | VPointer _ _, TPointer _ _ => true
  | VDate _, TNamed name => String.eqb name "DATE"
  | VTime _, TNamed name => String.eqb name "TIME"
  | VTimeZone _, TNamed name => String.eqb name "TIMEZONE"
  | VError _ _ _, TNamed name => String.eqb name "Error"
  | VTcpStream _, TNamed name => String.eqb name "HOST.Net.TCPStream"
  | VTcpListener _, TNamed name => String.eqb name "HOST.Net.TCPListener"
  | VUdpSocket _, TNamed name => String.eqb name "HOST.Net.UDPSocket"
  | VFile _, (TNamed name | TTypeName name) => is_host_file_type name
  | VDataFrame _, _ =>
      named_as (name_of4 ty) (fun n => String.eqb n "DataFrame" || ends_with ".DataFrame" n)
  | VNull, TNamed name => String.eqb name "VOID"
  | VRecord type_name _, _ =>
      named_as (name_of4 ty) (fun n =>
        String.eqb type_name n || String.eqb (rsplit_last "." type_name) n
        || (starts_with "Net." n && String.eqb type_name ("HOST." +:+ n)))
  | VLogFields _, _ => named_as (name_of3 ty) (library_name "BNLog.Fields" "Fields")
  | VLogEntry _, _ => named_as (name_of3 ty) (library_name "BNLog.Entry" "Entry")
  | VLogLogger _, _ => named_as (name_of3 ty) (library_name "BNLog.Logger" "Logger")
  | VJson _, _ => named_as (name_of3 ty) (library_name "BNJson.Json" "Json")
  | VCryptoBytes _, _ =>
      named_as (name_of3 ty) (fun n =>
        library_name type_crypto_bytes "Bytes" n || String.eqb n type_compress_bytes)
  | VCryptoKey _, _ => named_as (name_of3 ty) (library_name type_crypto_key "Key")
  | VCompressBytes _, _ =>
      named_as (name_of3 ty) (fun n =>
        library_name type_compress_bytes "Bytes" n || String.eqb n type_crypto_bytes)
  | VCompressZip _, _ => named_as (name_of3 ty) (library_name type_compress_zip_archive "ZipArchive")
  | VDispatchQueue _, _ => named_as (name_of3 ty) (library_name "BNDispatch.Queue" "Queue")
  | VDispatchTicket _, _ => named_as (name_of3 ty) (library_name "BNDispatch.Ticket" "Ticket")
  | VDispatchGroup _, _ => named_as (name_of3 ty) (library_name "BNDispatch.Group" "Group")
  | VDispatchBarrier _, _ => named_as (name_of3 ty) (library_name "BNDispatch.Barrier" "Barrier")
  | VDispatchSemaphore _, _ =>
      named_as (name_of3 ty) (library_name "BNDispatch.Semaphore" "Semaphore")
  | VDispatchMutex _, _ => named_as (name_of3 ty) (library_name "BNDispatch.Mutex" "Mutex")
  | _, _ => false
  end.

Example value_tests :
  render (VVector [VInteger 1 Int32; VFloat f64_zero Float64; VNull]) = "[1, 0.0, NULL]"
  ∧ render (VObject (mkHandle 0 1) "#2.Shapes.Circle") = "Circle"
  ∧ equals (VInteger 2 Int32) (VFloat (f64_of_Z 2) Float32) = true
  ∧ equals (VRecord "P" [VInteger 1 Int32]) (VRecord "P" [VInteger 2 Int32]) = false
  ∧ is_value (VVector [VInteger 1 Int32; VInteger 2 Int32]) "INTEGER[2]" class_model_new None = true
  ∧ is_value (VVector [VVector [VInteger 1 Byte]; VVector [VInteger 2 Byte]]) "BYTE[2][1]"
      class_model_new None = true
  ∧ is_value (VFloat S754_nan Float64) "NAN" class_model_new None = true
  ∧ value_matches_type (VRecord "HOST.Net.Address" []) (TNamed "Net.Address") = true
  ∧ parse_val "  -45.5abc" = f64_neg (f64_div (f64_of_Z 91) (f64_of_Z 2)).
Proof. vm_compute. repeat split. Qed.

(** ** Theorems *)

Lemma f64_eq_sym x y : f64_eq x y = f64_eq y x.
Proof.
  unfold f64_eq, SFeqb, SFcompare.
  destruct x as [s| s| |s m e], y as [t|t| |t n f]; try (destruct s); try (destruct t); try done.
  - rewrite (Z.compare_antisym f e). destruct (f ?= e) eqn:E; simpl; try done.
    change (Pos.compare_cont Eq m n) with (m ?= n)%positive.
    change (Pos.compare_cont Eq n m) with (n ?= m)%positive.
    rewrite (Pos.compare_antisym n m). by destruct (n ?= m)%positive.
  - rewrite (Z.compare_antisym f e). destruct (f ?= e) eqn:E; simpl; try done.
    change (Pos.compare_cont Eq m n) with (m ?= n)%positive.
    change (Pos.compare_cont Eq n m) with (n ?= m)%positive.
    rewrite (Pos.compare_antisym n m). by destruct (n ?= m)%positive.
Qed.

Lemma handle_eqb_spec a b : handle_eqb a b = true ↔ a = b.
Proof.
  unfold handle_eqb. rewrite andb_true_iff, !Z.eqb_eq. destruct a, b; simpl. naive_solver.
Qed.

Lemma handle_eqb_sym a b : handle_eqb a b = handle_eqb b a.
Proof. unfold handle_eqb. by rewrite (Z.eqb_sym (h_slot a)), (Z.eqb_sym (h_generation a)). Qed.

(** The element-wise comparison inside [equals]. *)
Fixpoint all_equal (l m : list Value) : bool :=
  match l, m with
  | x :: l, y :: m => equals x y && all_equal l m
  | _, _ => true
  end.

Lemma equals_vector l m :
  equals (VVector l) (VVector m) = (length l =? length m)%nat && all_equal l m.
Proof. reflexivity. Qed.

Lemma equals_record n l n' m :
  equals (VRecord n l) (VRecord n' m) =
  String.eqb n n' && (length l =? length m)%nat && all_equal l m.
Proof. reflexivity. Qed.

Lemma all_equal_sym l :
  Forall (λ x, ∀ y, equals x y = equals y x) l → ∀ m, all_equal l m = all_equal m l.
Proof.
  induction 1 as [|x l Hx _ IH]; intros [|y m]; simpl; try done. by rewrite Hx, IH.
Qed.

(** Equality of values is symmetric, the mixed comparisons of integers and
    floats included. *)
Theorem equals_sym (a b : Value) : equals a b = equals b a.
Proof.
  revert b. induction a as [l IH|n l IH|v Hv] using Value_ind'.
  - intros b. destruct b; try reflexivity.
    by rewrite !equals_vector, (all_equal_sym l IH), Nat.eqb_sym.
  - intros b. destruct b; try reflexivity.
    by rewrite !equals_record, (all_equal_sym l IH), Nat.eqb_sym, String.eqb_sym.
  - intros b. destruct v; try discriminate Hv; destruct b; try reflexivity; simpl;
      first [apply Z.eqb_sym | apply String.eqb_sym | apply f64_eq_sym | apply handle_eqb_sym | idtac].
    + match goal with |- Bool.eqb ?x ?y = _ => destruct x, y end; done.
    + by rewrite Z.eqb_sym, String.eqb_sym.
Qed.

(** A value that holds no NaN, no type and no library handle equals itself. *)
Definition plain_scalar (v : Value) : bool :=
  match v with
  | VFloat f _ => negb (is_nan f)
  | VInteger _ _ | VBoolean _ | VString _ | VFunction _ | VNull | VNotAvailable | VEndOfFile
  | VHostConsole | VHandle _ | VFile _ | VDataFrame _ | VError _ _ _ | VObject _ _
  | VPointer _ _ | VDate _ | VTime _ | VTimeZone _ => true
  | _ => false
  end.

Fixpoint comparable (v : Value) : bool :=
  match v with
  | VVector l | VRecord _ l => forallb comparable l
  | _ => plain_scalar v
  end.

Lemma f64_eq_refl x : is_nan x = false → f64_eq x x = true.
Proof.
  unfold f64_eq, SFeqb, SFcompare. destruct x as [s| s| |s m e];
    [by destruct s | by destruct s | discriminate |].
  intros _. rewrite Z.compare_refl. change (Pos.compare_cont Eq m m) with (m ?= m)%positive.
  rewrite Pos.compare_refl. by destruct s.
Qed.

Lemma all_equal_refl l :
  Forall (λ x, comparable x = true → equals x x = true) l →
  forallb comparable l = true → all_equal l l = true.
Proof.
  induction 1 as [|x l Hx _ IH]; simpl; [done|]. intros [H1 H2]%andb_prop.
  by rewrite Hx, IH.
Qed.

(** Comparable values equal themselves. *)
Theorem equals_refl (a : Value) (Ha : comparable a = true) : equals a a = true.
Proof.
  revert Ha. induction a as [l IH|n l IH|v Hv] using Value_ind'; intros Ha.
  - by rewrite equals_vector, Nat.eqb_refl, (all_equal_refl l IH Ha).
  - by rewrite equals_record, Nat.eqb_refl, String.eqb_refl, (all_equal_refl l IH Ha).
  - destruct v; try discriminate Hv; try discriminate Ha; simpl in Ha |- *;
      rewrite ?Z.eqb_refl, ?String.eqb_refl; try done.
    + by apply f64_eq_refl, negb_true_iff.
    + by destruct b.
    + by apply handle_eqb_spec.
    + by apply handle_eqb_spec.
Qed.

Lemma equals_refl_witness :
  equals (VVector [VInteger 1 Int32; VString "a"]) (VVector [VInteger 1 Int32; VString "a"]) = true.
Proof. apply equals_refl. reflexivity. Defined.
