(* ===== verification/Operators.v ===== *)
(** * Operators: the arithmetic, comparison and conversion of values

    [crates/bn_interp/src/executor.rs] and [executor/helpers.rs]: unary and
    binary operators, shifts, casts, the coercion to a declared type, the
    counted [FOR] intrinsics and the text built-ins.  Integers are computed in
    [i128] and range-checked against their declared width. *)

From S2P Require Import Prelude Text Diag Types ClassModel Floats Literals Civil Temporal TimeZone Heap Values.

#[local] Open Scope string_scope.
#[local] Open Scope Z_scope.

Definition FOR_CONDITION : string := "$for_condition".
Definition FOR_FITS : string := "$for_fits".

(** ** Checked integers *)

Definition checked_integer (value : option Z) (ty : BType) (span : Span) : result Value :=
  match value with
  | None => numeric_overflow "performing an integer operation" span
  | Some value =>
      let kind := default Int32 (integer_kind ty) in
      let '(minimum, maximum) := integer_range kind in
      if in_range minimum maximum value then Ok (VInteger value kind)
      else numeric_overflow
             ("converting " +:+ dec_of_Z value +:+ " to " +:+ integer_type_name kind) span
  end.

Definition unary (operator : string) (operand : Value) (ty : BType) (span : Span)
    : result Value :=
  match operator, operand with
  | "Minus", VInteger value _ => checked_integer (checked_neg value) ty span
  | "Minus", VFloat value _ => Ok (float_value (f64_neg value) (float_kind ty))
  | "NOT", VBoolean value => Ok (VBoolean (negb value))
  | "NOT", VInteger value _ => checked_integer (Some (Z.lnot value)) ty span
  | _, _ => type_mismatch "numeric or BOOLEAN operand" "incompatible value"
              ("unary " +:+ operator) span
  end.

Definition division_by_zero {A} (operator : string) (span : Span) : result A :=
  d ← expect "division-by-zero diagnostic schema"
        (structured DIVISION_BY_ZERO [("operation", operator_spelling operator)] span);
  Err d.

Definition shift (value count : Z) (ty : BType) (left : bool) (span : Span) : result Value :=
  let width := width (default Int32 (integer_kind ty)) in
  if (count <? 0) || (width <=? count) then
    runtime_error INVALID_SHIFT_COUNT ("shift count must be in 0.." +:+ dec_of_Z width) span
  else if left then checked_integer (checked_shl value count) ty span
  else
    let mask := Z.shiftl 1 width - 1 in
    checked_integer (Some (Z.shiftr (Z.land value mask) count)) ty span.

Definition bool_order (operator : string) (c : comparison) : option bool :=
  match operator with
  | "Less" => Some (match c with Lt => true | _ => false end)
  | "LessEqual" => Some (match c with Gt => false | _ => true end)
  | "Greater" => Some (match c with Gt => true | _ => false end)
  | "GreaterEqual" => Some (match c with Lt => false | _ => true end)
  | _ => None
  end.

Section Binary.
Context `{Platform}.

Definition boolean_binary (operator : string) (left right : bool) (span : Span)
    : result Value :=
  match operator with
  | "AND" => Ok (VBoolean (left && right))
  | "OR" => Ok (VBoolean (left || right))
  | "XOR" => Ok (VBoolean (xorb left right))
  | _ => type_mismatch "AND, OR or XOR" operator "BOOLEAN operation" span
  end.

Definition string_binary (operator left right : string) (span : Span) : result Value :=
  match operator with
  | "Plus" => Ok (VString (left +:+ right))
  | _ =>
      match bool_order operator (str_cmp left right) with
      | Some b => Ok (VBoolean b)
      | None => type_mismatch msg_plus_or_an_ordering_operator operator "STRING operation" span
      end
  end.

Definition float_binary (operator : string) (left right : f64) (ty : BType) (span : Span)
    : result Value :=
  let float v := Ok (float_value v (float_kind ty)) in
  match operator with
  | "Plus" => float (f64_add left right)
  | "Minus" => float (f64_sub left right)
  | "Star" => float (f64_mul left right)
  | "Slash" => float (f64_div left right)
  | "Power" => float (powf left right)
  | "Less" => Ok (VBoolean (f64_lt left right))
  | "LessEqual" => Ok (VBoolean (f64_le left right))
  | "Greater" => Ok (VBoolean (f64_lt right left))
  | "GreaterEqual" => Ok (VBoolean (f64_le right left))
  | _ => type_mismatch "numeric operator" operator "floating operation" span
  end.

Definition integer_binary (operator : string) (left right : Z) (ty : BType) (span : Span)
    : result Value :=
  match operator with
  | "Plus" => checked_integer (checked_add left right) ty span
  | "Minus" => checked_integer (checked_sub left right) ty span
  | "Star" => checked_integer (checked_mul left right) ty span
  | "DIV" =>
      if right =? 0 then division_by_zero operator span
      else checked_integer (checked_div_euclid left right) ty span
  | "Percent" =>
      if right =? 0 then division_by_zero operator span
      else checked_integer (checked_rem_euclid left right) ty span
  | "Power" =>
      if 0 <=? right then
        match try_from 0 u32_MAX right with
        | Some n => checked_integer (checked_pow left n) ty span
        | None => runtime_error INVALID_EXPONENT "integer exponent is too large" span
        end
      else runtime_error INVALID_EXPONENT "integer exponent cannot be negative" span
  | "AND" => checked_integer (Some (Z.land left right)) ty span
  | "OR" => checked_integer (Some (Z.lor left right)) ty span
  | "XOR" => checked_integer (Some (Z.lxor left right)) ty span
  | "SHL" => shift left right ty true span
  | "SHR" => shift left right ty false span
  | _ =>
      match bool_order operator (Z.compare left right) with
      | Some b => Ok (VBoolean b)
      | None => type_mismatch "integer operator" operator "integer operation" span
      end
  end.

Definition is_float_type (ty : BType) : bool :=
  match ty with TFloat _ => true | _ => false end.

(** The numeric arms of [binary]. *)
Definition numeric_binary (operator : string) (left right : Value) (ty : BType) (span : Span)
    : result Value :=
  if is_float_value left || is_float_value right || String.eqb operator "Slash" then
    l ← number_as_float left span;
    r ← number_as_float right span;
    float_binary operator l r ty span
  else
    l ← integer left span;
    r ← integer right span;
    integer_binary operator l.1 r.1 ty span.

Definition binary (operator : string) (left right : Value) (ty : BType) (span : Span)
    (classes : ClassModel) (pointer_len : option Z) : result Value :=
  if String.eqb operator "IS" then
    match right with
    | VType test => Ok (VBoolean (is_value left test classes pointer_len))
    | _ => runtime_error INVALID_IR "IS requires a type operand" span
    end
  else if String.eqb operator "Assign" then Ok (VBoolean (equals left right))
  else if String.eqb operator "NotEqual" then Ok (VBoolean (negb (equals left right)))
  else
    match left, right with
    | VBoolean l, VBoolean r => boolean_binary operator l r span
    | VString l, VString r => string_binary operator l r span
    | _, _ =>
        if String.eqb operator "Power" && is_float_type ty then
          l ← number_as_float left span;
          r ← number_as_float right span;
          Ok (float_value (powf l r) (float_kind ty))
        else
          match left, right with
          | VDate l, VDate r => ordered operator (Z.compare l r) span
          | VTime l, VTime r => ordered operator (Z.compare l r) span
          | _, _ => numeric_binary operator left right ty span
          end
    end.
End Binary.

(** ** Conversions *)

Definition finite_float (value : f64) (kind : FloatType) (span : Span) : result Value :=
  match kind with
  | Float32 =>
      let narrowed := f64_to_f32 value in
      if is_finite value && is_infinite narrowed then
        numeric_overflow "FLOAT64 value does not fit FLOAT32" span
      else Ok (float_value value kind)
  | Float64 => Ok (float_value value kind)
  end.

Definition cast (value : Value) (ty : BType) (span : Span) : result Value :=
  match ty with
  | TBoolean =>
      Ok (VBoolean (match value with
        | VBoolean b => b
        | VInteger v _ => negb (v =? 0)
        | VFloat f _ => negb (f64_eq f f64_zero)
        | VString s => negb (String.eqb s "")
        | VNull | VNotAvailable | VEndOfFile => false
        | _ => true
        end))
  | TInteger _ =>
      match value with
      | VInteger v _ => checked_integer (Some v) ty span
      | VFloat f _ =>
          if is_finite f then checked_integer (Some (f64_trunc_i128 f)) ty span
          else runtime_error INVALID_NUMERIC_CONVERSION
                 "NAN and infinity cannot convert to an integer" span
      | _ => type_mismatch "INTEGER" "non-integer-compatible value" "integer conversion" span
      end
  | TFloat _ => f ← number_as_float value span; finite_float f (float_kind ty) span
  | TString =>
      match value with
      | VString _ => Ok value
      | VInteger _ _ | VFloat _ _ | VBoolean _ => Ok (VString (render value))
      | _ => type_mismatch "number or BOOLEAN" "incompatible value" "text conversion" span
      end
  | TNamed _ | TImportedNamed _ _ =>
      match value with
      | VObject _ _ | VRecord _ _ | VHandle _ | VNull => Ok value
      | _ => type_mismatch "named value" "incompatible value" "named conversion" span
      end
  | _ =>
      if value_matches_type value ty then Ok value
      else type_mismatch "supported conversion target" "incompatible value or type"
             "value conversion" span
  end.

Definition same_numeric_kind (value : Value) (ty : BType) : bool :=
  match value, ty with
  | VInteger _ kind, TInteger expected => bool_decide (kind = expected)
  | VFloat _ kind, TFloat expected => bool_decide (kind = expected)
  | _, _ => false
  end.

Definition numeric_class_matches (value : Value) (ty : BType) : bool :=
  match value, ty with
  | VInteger _ _, TInteger _ | VFloat _ _, TFloat _ => true
  | _, _ => false
  end.

Definition widened_alternative (value : Value) (types : list BType) : option BType :=
  match value with
  | VInteger _ _ | VFloat _ _ =>
      if existsb (same_numeric_kind value) types then None
      else
        match List.filter (numeric_class_matches value) types with
        | [target] => Some target
        | _ => None
        end
  | _ => None
  end.

Definition is_void (ty : BType) : bool :=
  match ty with TNamed name => String.eqb name "VOID" | _ => false end.

(** The arms of [coerce] for a type that is not an alternative. *)
Definition coerce_plain (value : Value) (ty : BType) (span : Span) : result Value :=
  match value, ty with
  | VInteger number _, TInteger _ => checked_integer (Some number) ty span
  | VFloat number _, TFloat _ => finite_float number (float_kind ty) span
  | VBoolean _, TBoolean
  | VString _, TString
  | VVector _, TVector _ _
  | VFunction _, TFunction _ _
  | VNull, TNull
  | VNotAvailable, TNotAvailable
  | VEndOfFile, TEndOfFile
  | VHostConsole, THostConsole
  | VHandle _, (TNamed _ | TPointer _ _)
  | VPointer _ _, TPointer _ _
  | (VRecord _ _ | VObject _ _ | VTcpStream _ | VTcpListener _ | VUdpSocket _ | VLogFields _
     | VLogEntry _ | VLogLogger _ | VJson _ | VCryptoBytes _ | VCryptoKey _ | VCompressBytes _
     | VCompressZip _),
    (TNamed _ | TTypeName _ | TImportedNamed _ _ | TImportedTypeName _ _)
  | (VDispatchQueue _ | VDispatchTicket _ | VDispatchGroup _ | VDispatchBarrier _
     | VDispatchSemaphore _ | VDispatchMutex _), (TNamed _ | TImportedNamed _ _)
  | VFile _, (TNamed _ | TImportedNamed _ _ | TTypeName _ | TImportedTypeName _ _)
  | VDataFrame _, (TNamed _ | TImportedNamed _ _ | TTypeName _ | TImportedTypeName _ _)
  | VType _, (THostClock | THostRandom | THostFileSystem | THostNet | THostExec | THostEnv) =>
      Ok value
  | VDate _, TNamed "DATE" => Ok value
  | VTime _, TNamed "TIME" => Ok value
  | VTimeZone _, TNamed "TIMEZONE" => Ok value
  | VNull, TNamed "VOID" => Ok value
  | VError _ _ _, TNamed "Error" => Ok value
  | _, _ => type_mismatch "IR destination type" "runtime value" "IR coercion" span
  end.

Definition coerce (value : Value) (ty : BType) (span : Span) : result Value :=
  match ty with
  | TAlternative types =>
      match widened_alternative value types with
      | Some target => coerce_plain value target span
      | None =>
          if existsb (value_matches_type value) types then Ok value
          else if negb (match value with VError _ _ _ => true | _ => false end)
                  && existsb is_void types then Ok VNull
          else coerce_plain value ty span
      end
  | _ => coerce_plain value ty span
  end.

(** ** Intrinsics and built-ins *)

Definition for_condition (current end_ step : Value) (span : Span) : result Value :=
  current ← integer current span;
  end_ ← integer end_ span;
  step ← integer step span;
  let '(current, end_, step) := (current.1, end_.1, step.1) in
  if step =? 0 then runtime_error INVALID_FOR_STEP "FOR STEP cannot be zero" span
  else Ok (VBoolean (if 0 <? step then current <=? end_ else end_ <=? current)).

Definition for_fits (current step : Value) (span : Span) : result Value :=
  '(current, kind) ← integer current span;
  '(step, _) ← integer step span;
  let fits := match checked_add current step with
    | Some sum => let '(minimum, maximum) := integer_range kind in in_range minimum maximum sum
    | None => false
    end in
  Ok (VBoolean fits).

(** [arguments[i]]: a panic past the end. *)
Definition argument (arguments : list Value) (i : nat) : result Value :=
  expect "index out of bounds" (arguments !! i).

Definition failure_cause (operation : string) : string :=
  if String.eqb operation builtin_asc_operation then builtin_asc_cause
  else if String.eqb operation builtin_char_operation then builtin_char_cause
  else "".

Definition builtin `{Platform} (name : string) (arguments : list Value) (span : Span)
    : result Value :=
  if String.eqb name FOR_CONDITION then
    a ← argument arguments 0; b ← argument arguments 1; c ← argument arguments 2;
    for_condition a b c span
  else if String.eqb name FOR_FITS then
    a ← argument arguments 0; b ← argument arguments 1; for_fits a b span
  else if String.eqb name "ASC" then
    a ← argument arguments 0;
    match a with
    | VString text =>
        match chars text with
        | [] => Ok (error_report 1 builtin_asc_operation "ASC requires a non-empty STRING"
                      (failure_cause builtin_asc_operation))
        | c :: _ => Ok (VInteger (code_point c) Int32)
        end
    | _ => type_mismatch "STRING" "non-STRING value" "ASC" span
    end
  else if String.eqb name "CHAR" then
    a ← argument arguments 0;
    code ← integer a span;
    match c ← try_from 0 u32_MAX code.1; char_from_u32 c with
    | Some text => Ok (VString text)
    | None => Ok (error_report 1 builtin_char_operation "CHAR code is not a Unicode scalar"
                    (failure_cause builtin_char_operation))
    end
  else if String.eqb name "TOLOWER" then
    a ← argument arguments 0;
    match a with
    | VString text => Ok (VString (to_lowercase text))
    | _ => type_mismatch "STRING" "non-STRING value" "TOLOWER" span
    end
  else if String.eqb name "TOUPPER" then
    a ← argument arguments 0;
    match a with
    | VString text => Ok (VString (to_uppercase text))
    | _ => type_mismatch "STRING" "non-STRING value" "TOUPPER" span
    end
  else name_not_found name "builtin dispatch" span.

(** ** Counts ([executor/helpers.rs]) *)

Definition integer_from_i128_count (count : Z) (span : Span) : result Value :=
  if in_range 0 i32_MAX count then Ok (VInteger count Int32) else integer_overflow span.

Definition integer_from_count (count : Z) (span : Span) : result Value :=
  match try_from i128_MIN i128_MAX count with
  | Some count => integer_from_i128_count count span
  | None => integer_overflow span
  end.

Definition integer_from_u64 (count : Z) (span : Span) : result Value :=
  if 2147483647 <? count then integer_overflow span else Ok (VInteger count Int32).

Definition require_console (value : Value) (span : Span) : result unit :=
  match value with
  | VHostConsole => Ok tt
  | _ => type_mismatch "HOST.Console" "non-console value" "console operation" span
  end.

Definition test_platform : Platform :=
  {| powf := fun x _ => x; to_lowercase := fun s => s; to_uppercase := fun s => s |}.

Example operator_tests :
  let b op l r ty := binary (H := test_platform) op l r ty default_span class_model_new None in
  b "DIV" (VInteger (-7) Int32) (VInteger 2 Int32) (TInteger Int32) = Ok (VInteger (-4) Int32)
  ∧ b "Percent" (VInteger (-7) Int32) (VInteger (-2) Int32) (TInteger Int32)
      = Ok (VInteger 1 Int32)
  ∧ b "SHR" (VInteger (-8) Int8) (VInteger 1 Int8) (TInteger Int8) = Ok (VInteger 124 Int8)
  ∧ b "Slash" (VInteger 7 Int32) (VInteger 2 Int32) (TFloat Float64)
      = Ok (VFloat (f64_div (f64_of_Z 7) (f64_of_Z 2)) Float64)
  ∧ b "Less" (VString "Z") (VString "a") TBoolean = Ok (VBoolean true)
  ∧ coerce (VInteger 5 Int32) (TAlternative [TInteger Int64; TNamed "Error"]) default_span
      = Ok (VInteger 5 Int64)
  ∧ cast (VFloat (f64_neg (f64_div (f64_of_Z 7) (f64_of_Z 2))) Float64) (TInteger Int8)
      default_span = Ok (VInteger (-3) Int8)
  ∧ builtin (H := test_platform) "CHAR" [VInteger 233 Int32] default_span
      = Ok (VString (utf8_encode 233)).
Proof. vm_compute. repeat split. Qed.

(** ** Integer arithmetic is exact or diagnosed *)

Definition in_kind (kind : IntegerType) (v : Z) : bool :=
  in_range (integer_range kind).1 (integer_range kind).2 v.

Lemma in_kind_spec kind v :
  in_kind kind v = true ↔ (integer_range kind).1 ≤ v ≤ (integer_range kind).2.
Proof. apply in_range_spec. Qed.

(** The bounds of each integer type, as numbers. *)
Ltac kind_cases kind :=
  destruct kind; cbn [integer_range fst snd] in *;
  unfold i32_MIN, i32_MAX, u32_MAX, i64_MIN, i64_MAX, u64_MAX in *.

(** Every integer type fits in 65 signed bits. *)
Lemma kind_bounds kind v : in_kind kind v = true → - 2 ^ 63 ≤ v < 2 ^ 64.
Proof. rewrite in_kind_spec. kind_cases kind; lia. Qed.

Lemma checked_integer_eq v kind span :
  checked_integer (Some v) (TInteger kind) span =
  if in_kind kind v then Ok (VInteger v kind)
  else numeric_overflow
         ("converting " +:+ dec_of_Z v +:+ " to " +:+ integer_type_name kind) span.
Proof. unfold checked_integer, in_kind. simpl. by destruct (integer_range kind). Qed.

(** [r] is the exact value of an operation, or its overflow. *)
Definition exact_or_overflow (r : result Value) (kind : IntegerType) (v : Z) (span : Span)
    : Prop :=
  if in_kind kind v then r = Ok (VInteger v kind) else raises r NUMERIC_OVERFLOW span.

Lemma checked_exact v kind span :
  exact_or_overflow (checked_integer (Some v) (TInteger kind) span) kind v span.
Proof.
  unfold exact_or_overflow. rewrite checked_integer_eq. destruct (in_kind kind v); [done|].
  apply numeric_overflow_raises.
Qed.

Lemma guard_exact v kind span :
  exact_or_overflow (checked_integer (guard_i128 v) (TInteger kind) span) kind v span.
Proof.
  destruct (guard_i128 v) as [w|] eqn:E.
  - apply guard_i128_Some in E as [-> _]. apply checked_exact.
  - unfold exact_or_overflow. destruct (in_kind kind v) eqn:Hk.
    + apply kind_bounds in Hk. unfold guard_i128, in_i128 in E.
      assert (in_range i128_MIN i128_MAX v = true) as Hr; [|by rewrite Hr in E].
      apply in_range_spec. unfold i128_MIN, i128_MAX. lia.
    + apply numeric_overflow_raises.
Qed.

Section Arithmetic.
Context `{Platform}.

Definition ibinary (operator : string) (kind : IntegerType) (l r : Z) (span : Span)
    : result Value :=
  binary operator (VInteger l kind) (VInteger r kind) (TInteger kind) span class_model_new None.

(** C39: Addition, subtraction, multiplication and the bitwise operators compute
    the mathematical result in every integer type, or report the overflow:
    none wraps around. *)
Theorem integer_operators_exact (kind : IntegerType) (l r : Z) (span : Span) :
  exact_or_overflow (ibinary "Plus" kind l r span) kind (l + r) span
  ∧ exact_or_overflow (ibinary "Minus" kind l r span) kind (l - r) span
  ∧ exact_or_overflow (ibinary "Star" kind l r span) kind (l * r) span
  ∧ exact_or_overflow (ibinary "AND" kind l r span) kind (Z.land l r) span
  ∧ exact_or_overflow (ibinary "OR" kind l r span) kind (Z.lor l r) span
  ∧ exact_or_overflow (ibinary "XOR" kind l r span) kind (Z.lxor l r) span
  ∧ exact_or_overflow (unary "Minus" (VInteger l kind) (TInteger kind) span) kind (- l) span.
Proof.
  repeat split; first [apply guard_exact | apply checked_exact].
Qed.

(** Powers: exact or overflow for a count that fits [u32]; a diagnostic for
    a negative or larger exponent. *)
Theorem integer_power_exact (kind : IntegerType) (l r : Z) (span : Span) :
  if in_range 0 u32_MAX r then
    exact_or_overflow (ibinary "Power" kind l r span) kind (l ^ r) span
  else raises (ibinary "Power" kind l r span) INVALID_EXPONENT span.
Proof.
  unfold ibinary, binary. simpl. unfold numeric_binary, integer_binary. simpl.
  unfold try_from. destruct (in_range 0 u32_MAX r) eqn:E.
  - assert (0 <=? r = true) as ->. { apply in_range_spec in E. lia. }
    apply guard_exact.
  - destruct (0 <=? r); by apply runtime_error_raises.
Qed.

Lemma ibinary_div kind l r span :
  r ≠ 0 → ibinary "DIV" kind l r span =
    checked_integer (guard_i128 (div_euclid l r)) (TInteger kind) span.
Proof.
  intros Hr. unfold ibinary, binary. simpl. unfold numeric_binary, integer_binary. simpl.
  apply Z.eqb_neq in Hr as E. rewrite E. unfold checked_div_euclid. by rewrite E.
Qed.

Lemma ibinary_rem kind l r span :
  r ≠ 0 → - 2 ^ 63 ≤ l → ibinary "Percent" kind l r span =
    checked_integer (Some (rem_euclid l r)) (TInteger kind) span.
Proof.
  intros Hr Hl. unfold ibinary, binary. simpl. unfold numeric_binary, integer_binary. simpl.
  apply Z.eqb_neq in Hr as E. rewrite E. unfold checked_rem_euclid. rewrite E.
  assert (l =? i128_MIN = false) as ->; [|done]. unfold i128_MIN. lia.
Qed.

(** [DIV] and [%] are Euclidean division: the remainder is always a value of
    the type, never negative and below the divisor's magnitude, and the
    quotient is exact, save [MIN DIV -1], which overflows.  Division by zero
    is diagnosed. *)
Theorem div_rem_law (kind : IntegerType) (l r : Z) (span : Span)
    (Hl : in_kind kind l = true) (Hr : in_kind kind r = true) :
  if r =? 0 then
    raises (ibinary "DIV" kind l r span) DIVISION_BY_ZERO span
    ∧ raises (ibinary "Percent" kind l r span) DIVISION_BY_ZERO span
  else
    ∃ q m, l = q * r + m ∧ 0 ≤ m < Z.abs r
      ∧ ibinary "Percent" kind l r span = Ok (VInteger m kind)
      ∧ exact_or_overflow (ibinary "DIV" kind l r span) kind q span
      ∧ (in_kind kind q = false → l = (integer_range kind).1 ∧ r = -1).
Proof.
  destruct (r =? 0) eqn:E; z_bools.
  { subst r. by split. }
  pose proof (div_euclid_spec l r E) as [Hdiv Hrem].
  exists (div_euclid l r), (rem_euclid l r). split; [done|]. split; [done|].
  pose proof (kind_bounds kind l Hl).
  rewrite ibinary_rem, ibinary_div by (done || lia).
  rewrite in_kind_spec in Hl, Hr. split; [|split].
  - rewrite checked_integer_eq. assert (in_kind kind (rem_euclid l r) = true) as ->; [|done].
    apply in_kind_spec. revert Hrem. generalize (rem_euclid l r). intros m Hm.
    kind_cases kind; lia.
  - apply guard_exact.
  - intros Hq.
    assert (¬ (integer_range kind).1 ≤ div_euclid l r ≤ (integer_range kind).2) as Hout.
    { rewrite <- in_kind_spec. congruence. }
    pose proof (div_euclid_bound l r E) as Habs. revert Hdiv Hrem Hout Habs.
    generalize (div_euclid l r), (rem_euclid l r). intros q m Hdiv Hrem Hout Habs.
    kind_cases kind; nia.
Qed.
End Arithmetic.

Lemma div_rem_law_witness :
  if -2 =? 0 then
    raises (ibinary (H := test_platform) "DIV" Int32 (-7) (-2) default_span) DIVISION_BY_ZERO default_span
    ∧ raises (ibinary (H := test_platform) "Percent" Int32 (-7) (-2) default_span) DIVISION_BY_ZERO default_span
  else
    ∃ q m, -7 = q * -2 + m ∧ 0 ≤ m < Z.abs (-2)
      ∧ ibinary (H := test_platform) "Percent" Int32 (-7) (-2) default_span = Ok (VInteger m Int32)
      ∧ exact_or_overflow (ibinary (H := test_platform) "DIV" Int32 (-7) (-2) default_span) Int32 q default_span
      ∧ (in_kind Int32 q = false → -7 = (integer_range Int32).1 ∧ -2 = -1).
Proof. apply div_rem_law; reflexivity. Defined.

(** ** Shifts *)

Section Shifts.
Context `{Platform}.

Lemma width_range kind : 8 ≤ width kind ≤ 64.
Proof. destruct kind; simpl; lia. Qed.

Lemma ibinary_shift (left : bool) kind v c span :
  ibinary (if left then "SHL" else "SHR") kind v c span = shift v c (TInteger kind) left span.
Proof. by destruct left. Qed.

Lemma checked_shl_exact kind v c :
  in_kind kind v = true → 0 ≤ c < width kind → checked_shl v c = Some (v * 2 ^ c).
Proof.
  intros Hv%kind_bounds Hc. pose proof (width_range kind). unfold checked_shl.
  assert (c <? 128 = true) as -> by lia.
  rewrite Z.shiftl_mul_pow2 by lia. f_equal. apply wrap_i128_id.
  assert (0 < 2 ^ c ≤ 2 ^ 63) as Hp.
  { split; [apply Z.pow_pos_nonneg; lia | apply Z.pow_le_mono_r; lia]. }
  unfold i128_MIN, i128_MAX. nia.
Qed.

Lemma shr_value kind v c :
  0 ≤ c → Z.shiftr (Z.land v (Z.shiftl 1 (width kind) - 1)) c = (v mod 2 ^ width kind) / 2 ^ c.
Proof.
  intros Hc. pose proof (width_range kind).
  rewrite Z.shiftl_1_l. replace (2 ^ width kind - 1) with (Z.ones (width kind))
    by (rewrite Z.ones_equiv; lia).
  rewrite Z.land_ones, Z.shiftr_div_pow2 by lia. done.
Qed.

(** [SHL] multiplies by a power of two, or reports the overflow when a set
    bit or the sign would be lost; [SHR] by at least one is the logical shift
    of the value's bits and always fits; a count outside the width is
    diagnosed. *)
Theorem shifts_spec (kind : IntegerType) (v c : Z) (span : Span)
    (Hv : in_kind kind v = true) :
  if in_range 0 (width kind - 1) c then
    exact_or_overflow (ibinary "SHL" kind v c span) kind (v * 2 ^ c) span
    ∧ (0 < c → ibinary "SHR" kind v c span
               = Ok (VInteger ((v mod 2 ^ width kind) / 2 ^ c) kind))
  else
    raises (ibinary "SHL" kind v c span) INVALID_SHIFT_COUNT span
    ∧ raises (ibinary "SHR" kind v c span) INVALID_SHIFT_COUNT span.
Proof.
  pose proof (width_range kind) as Hw.
  rewrite (ibinary_shift true), (ibinary_shift false). unfold shift. cbn [integer_kind].
  change (default Int32 (Some kind)) with kind. cbv zeta.
  destruct (in_range 0 (width kind - 1) c) eqn:E.
  - apply in_range_spec in E.
    assert ((c <? 0) || (width kind <=? c) = false) as -> by (apply orb_false_iff; lia).
    split.
    + rewrite (checked_shl_exact kind v c Hv) by lia. apply checked_exact.
    + intros Hc. rewrite shr_value, checked_integer_eq by lia.
      assert (in_kind kind ((v mod 2 ^ width kind) / 2 ^ c) = true) as ->; [|done].
      apply in_kind_spec.
      assert (0 ≤ v mod 2 ^ width kind < 2 ^ width kind) as Hm
        by (apply Z.mod_pos_bound, Z.pow_pos_nonneg; lia).
      assert (0 ≤ (v mod 2 ^ width kind) / 2 ^ c < 2 ^ (width kind - 1)) as Hq.
      { split; [apply Z.div_pos; [lia | apply Z.pow_pos_nonneg; lia]|].
        apply Z.div_lt_upper_bound; [apply Z.pow_pos_nonneg; lia|].
        rewrite <- Z.pow_add_r by lia.
        eapply Z.lt_le_trans; [apply Hm | apply Z.pow_le_mono_r; lia]. }
      clear Hm. revert Hq. generalize ((v mod 2 ^ width kind) / 2 ^ c). intros q Hq.
      clear Hv Hw. kind_cases kind; cbn [width] in Hq; lia.
  - apply in_range_false in E.
    assert ((c <? 0) || (width kind <=? c) = true) as -> by (apply orb_true_iff; lia).
    split; by apply runtime_error_raises.
Qed.


(** A logical shift by zero should be the identity, but the interpreter
    refuses it on every negative value: the masked value is not brought back
    into the signed type before the range check. *)
Theorem shr_zero_of_negative (kind : IntegerType) (v : Z) (span : Span)
    (Hv : in_kind kind v = true) :
  if v <? 0 then raises (ibinary "SHR" kind v 0 span) NUMERIC_OVERFLOW span
  else ibinary "SHR" kind v 0 span = Ok (VInteger v kind).
Proof.
  pose proof (width_range kind) as Hw.
  rewrite (ibinary_shift false). unfold shift. cbn [integer_kind].
  change (default Int32 (Some kind)) with kind. cbv zeta.
  assert ((0 <? 0) || (width kind <=? 0) = false) as -> by (apply orb_false_iff; lia).
  rewrite shr_value, Z.pow_0_r, Z.div_1_r by lia.
  pose proof Hv as Hb. rewrite in_kind_spec in Hb.
  destruct (v <? 0) eqn:E; z_bools.
  - assert (v mod 2 ^ width kind = v + 2 ^ width kind) as ->.
    { symmetry. apply Z.mod_unique with (-1); [|lia]. left.
      clear Hv Hw. kind_cases kind; cbn [width]; lia. }
    rewrite checked_integer_eq.
    assert (in_kind kind (v + 2 ^ width kind) = false) as ->; [|apply numeric_overflow_raises].
    apply not_true_iff_false. rewrite in_kind_spec.
    clear Hv Hw. kind_cases kind; cbn [width]; lia.
  - rewrite Z.mod_small, checked_integer_eq, Hv; [done|].
    clear Hv Hw. kind_cases kind; cbn [width]; lia.
Qed.
End Shifts.

Lemma shifts_spec_witness :
  if in_range 0 (width Int8 - 1) 1 then
    exact_or_overflow (ibinary (H := test_platform) "SHL" Int8 (-8) 1 default_span) Int8 (-8 * 2 ^ 1) default_span
    ∧ (0 < 1 → ibinary (H := test_platform) "SHR" Int8 (-8) 1 default_span
               = Ok (VInteger ((-8 mod 2 ^ width Int8) / 2 ^ 1) Int8))
  else
    raises (ibinary (H := test_platform) "SHL" Int8 (-8) 1 default_span) INVALID_SHIFT_COUNT default_span
    ∧ raises (ibinary (H := test_platform) "SHR" Int8 (-8) 1 default_span) INVALID_SHIFT_COUNT default_span.
Proof. apply shifts_spec. reflexivity. Defined.

Lemma shr_zero_of_negative_witness :
  if -8 <? 0 then raises (ibinary (H := test_platform) "SHR" Int8 (-8) 0 default_span) NUMERIC_OVERFLOW default_span
  else ibinary (H := test_platform) "SHR" Int8 (-8) 0 default_span = Ok (VInteger (-8) Int8).
Proof. apply shr_zero_of_negative. reflexivity. Defined.

(** ** Coercion *)

Lemma coerce_plain_alternative v types span v' :
  coerce_plain v (TAlternative types) span ≠ Ok v'.
Proof. by destruct v. Qed.

Lemma coerce_plain_number v ty span v' :
  numeric_class_matches v ty = true → coerce_plain v ty span = Ok v' →
  value_matches_type v' ty = true.
Proof.
  intros Hn. destruct v; try discriminate Hn; destruct ty; try discriminate Hn; unfold coerce_plain.
  - rewrite checked_integer_eq. destruct (in_kind _ _); [|discriminate]. by intros [= <-].
  - unfold finite_float, float_value, float_kind. destruct k.
    + destruct (_ && _)%bool; [discriminate|]. by intros [= <-].
    + by intros [= <-].
Qed.

Lemma widened_alternative_Some v types target :
  widened_alternative v types = Some target →
  In target types ∧ numeric_class_matches v target = true
  ∧ existsb (same_numeric_kind v) types = false.
Proof.
  unfold widened_alternative. intros Hw.
  assert ((if existsb (same_numeric_kind v) types then None
           else match List.filter (numeric_class_matches v) types with
                | [t] => Some t | _ => None end) = Some target) as Hm.
  { destruct v; try discriminate; exact Hw. }
  destruct (existsb _ types); [discriminate|].
  destruct (List.filter _ types) as [|t [|? ?]] eqn:Hf; try discriminate. injection Hm as ->.
  assert (In target types ∧ numeric_class_matches v target = true) as []; [|done].
  apply List.filter_In. rewrite Hf. by left.
Qed.

(** A value stored into an alternative type is a value of one of its
    alternatives. *)
Theorem coerce_alternative_sound (v v' : Value) (types : list BType) (span : Span)
    (Hc : coerce v (TAlternative types) span = Ok v') :
  existsb (value_matches_type v') types = true.
Proof.
  unfold coerce in Hc. destruct (widened_alternative v types) as [target|] eqn:Hw.
  - apply widened_alternative_Some in Hw as (Hin & Hn & _). apply existsb_exists.
    exists target. split; [done|]. by eapply coerce_plain_number.
  - destruct (existsb (value_matches_type v) types) eqn:Hm; [by injection Hc as <-|].
    destruct (_ && _)%bool eqn:Hv.
    + injection Hc as <-. apply andb_prop in Hv as [_ Hv]. apply existsb_exists in Hv as (ty & Hin & Ht).
      apply existsb_exists. exists ty. split; [done|]. destruct ty; try discriminate Ht. exact Ht.
    + by apply coerce_plain_alternative in Hc.
Qed.

Lemma coerce_alternative_sound_witness :
  existsb (value_matches_type (VInteger 5 Int64)) [TInteger Int64; TNamed "Error"] = true.
Proof.
  apply (coerce_alternative_sound (VInteger 5 Int32) (VInteger 5 Int64)
           [TInteger Int64; TNamed "Error"] default_span).
  reflexivity.
Defined.

(** Storing an integer into an integer type keeps its value and takes the
    declared width, or overflows; nothing else is an integer. *)
Theorem coerce_integer_spec (v : Value) (kind : IntegerType) (span : Span) :
  match v with
  | VInteger n _ => exact_or_overflow (coerce v (TInteger kind) span) kind n span
  | _ => raises (coerce v (TInteger kind) span) TYPE_MISMATCH span
  end.
Proof.
  destruct v; [apply checked_exact | split; reflexivity ..].
Qed.

(** ** The counted [FOR]

    The blocks [for_statement] emits
    ([crates/bn_frontend/src/lowering/builder/control_flow.rs]): store the
    start, test the variable, run the body, leave when the next value would not
    fit, else add the step, store the sum and test again.  The variable is read
    back each time, so what the body assigned to it counts.  [St] is what else
    the body works on; a RETURN, a STOP or a jump to an outer loop is an [Out]. *)

Section CountedFor.
Context `{Platform} {St Out : Type}.

(** How a run of the body ends: at its end or by CONTINUE, by EXIT, or it leaves
    the statement. *)
Inductive BodyEnd := BodyNext | BodyExit | BodyLeave (out : Out).

(** From the value of the variable and the state: the way, and both after it. *)
Definition Body : Type := Value → St → result (BodyEnd * Value * St).

(** From [condition_block] on; [None]: control goes on after the statement. *)
Fixpoint for_loop (fuel : nat) (ty : BType) (end_ step : Value) (span : Span) (body : Body) (current : Value) (s : St)
    : result (option Out * St) :=
  match fuel with
  | O => Fuel
  | S fuel =>
      condition ← for_condition current end_ step span;
      go ← boolean condition span;
      if go : bool then
        '(way, current, s) ← body current s;
        match way with
        | BodyNext =>
            fits ← for_fits current step span;
            more ← boolean fits span;
            if more : bool then
              next ← binary "Plus" current step ty span class_model_new None;
              stored ← coerce next ty span;
              for_loop fuel ty end_ step span body stored s
            else Ok (None, s)
        | BodyExit => Ok (None, s)
        | BodyLeave out => Ok (Some out, s)
        end
      else Ok (None, s)
  end.

Definition counted_for (fuel : nat) (ty : BType) (start end_ step : Value) (span : Span) (body : Body) (s : St)
    : result (option Out * St) :=
  current ← coerce start ty span;
  for_loop fuel ty end_ step span body current s.

(** How often the body runs. *)
Definition trip_count (start end_ step : Z) : Z :=
  Z.max 0 (if 0 <? step then (end_ - start) / step + 1 else (start - end_) / (- step) + 1).

Definition in_loop (current end_ step : Z) : bool :=
  if 0 <? step then current <=? end_ else end_ <=? current.

Lemma trip_count_out current end_ step :
  step ≠ 0 → in_loop current end_ step = false → trip_count current end_ step = 0.
Proof.
  unfold in_loop, trip_count. intros Hs Hin. destruct (0 <? step) eqn:E; z_bools.
  - assert ((end_ - current) / step < 0) by (apply Z.div_lt_upper_bound; lia). lia.
  - assert ((current - end_) / - step < 0) by (apply Z.div_lt_upper_bound; lia). lia.
Qed.

Lemma trip_count_in current end_ step :
  step ≠ 0 → in_loop current end_ step = true →
  trip_count current end_ step = trip_count (current + step) end_ step + 1
  ∧ 1 ≤ trip_count current end_ step.
Proof.
  unfold in_loop, trip_count. intros Hs Hin. destruct (0 <? step) eqn:E; z_bools.
  - replace (end_ - (current + step)) with (end_ - current + -1 * step) by lia.
    rewrite Z.div_add by lia.
    assert (0 ≤ (end_ - current) / step) by (apply Z.div_pos; lia). lia.
  - replace (current + step - end_) with (current - end_ + -1 * - step) by lia.
    rewrite Z.div_add by lia.
    assert (0 ≤ (current - end_) / - step) by (apply Z.div_pos; lia). lia.
Qed.

Definition progression (kind : IntegerType) (start step : Z) (n : nat) : list Value :=
  map (fun i => VInteger (start + Z.of_nat i * step) kind) (List.seq 0 n).

Lemma progression_S kind start step n :
  progression kind start step (S n) =
  VInteger start kind :: progression kind (start + step) step n.
Proof.
  unfold progression. rewrite <- cons_seq, <- seq_shift, map_cons, map_map. simpl. f_equal.
  - f_equal. lia.
  - apply map_ext. intros i. f_equal. lia.
Qed.

(** The body run for each of the values, until it leaves: what the statement
    does when the body does not assign the variable. *)
Fixpoint for_each (body : Body) (values : list Value) (s : St) : result (option Out * St) :=
  match values with
  | [] => Ok (None, s)
  | v :: values =>
      '(way, _, s) ← body v s;
      match way with BodyNext => for_each body values s | BodyExit => Ok (None, s) | BodyLeave out => Ok (Some out, s) end
  end.

Section Loop.
Variables (kind ke ks : IntegerType) (end_ step : Z) (span : Span).
Hypothesis step_kind : in_kind ks step = true.
Hypothesis step_not_zero : step ≠ 0.
#[local] Abbreviation loop fuel body n s :=
  (for_loop fuel (TInteger kind) (VInteger end_ ke) (VInteger step ks) span body (VInteger n kind) s).

(** One round, of any body that leaves an integer of the type in the variable. *)
Lemma for_round fuel (body : Body) n s :
  (∀ way v s', body (VInteger n kind) s = Ok (way, v, s') → ∃ n', v = VInteger n' kind ∧ in_kind kind n' = true) →
  loop (S fuel) body n s =
  if in_loop n end_ step then
    '(way, v, s') ← body (VInteger n kind) s;
    match way with
    | BodyNext => match v with
              | VInteger n' _ => if in_kind kind (n' + step) then loop fuel body (n' + step) s' else Ok (None, s')
              | _ => Fuel
              end
    | BodyExit => Ok (None, s')
    | BodyLeave out => Ok (Some out, s')
    end
  else Ok (None, s).
Proof.
  intros Hb. cbn [for_loop]. unfold for_condition. cbn [integer mbind res_bind fst snd].
  rewrite (proj2 (Z.eqb_neq step 0) step_not_zero). cbn [mbind res_bind boolean]. fold (in_loop n end_ step).
  destruct (in_loop n end_ step); [|done]. destruct (body (VInteger n kind) s) as [[[way v] s']| | |] eqn:E; try done.
  destruct (Hb way v s' eq_refl) as (n' & -> & Hn). cbn [mbind res_bind]. destruct way; try done.
  unfold for_fits. cbn [integer mbind res_bind].
  assert (checked_add n' step = Some (n' + step)) as Hadd.
  { apply guard_i128_Some. split; [done|]. apply kind_bounds in Hn, step_kind. unfold i128_MIN, i128_MAX. lia. }
  rewrite Hadd. assert ((let '(minimum, maximum) := integer_range kind in
           in_range minimum maximum (n' + step)) = in_kind kind (n' + step)) as ->.
  { unfold in_kind. by destruct (integer_range kind). }
  cbn [boolean mbind res_bind]. destruct (in_kind kind (n' + step)) eqn:Hfit; [|done].
  change (binary "Plus" (VInteger n' kind) (VInteger step ks) (TInteger kind) span class_model_new None)
    with (checked_integer (checked_add n' step) (TInteger kind) span).
  rewrite Hadd, checked_integer_eq, Hfit. cbn [mbind res_bind].
  change (coerce (VInteger (n' + step) kind) (TInteger kind) span)
    with (checked_integer (Some (n' + step)) (TInteger kind) span).
  rewrite checked_integer_eq, Hfit. done.
Qed.

(** The body leaves the variable alone. *)
Definition keeps_variable (body : Body) : Prop := ∀ v s way v' s', body v s = Ok (way, v', s') → v' = v.
(** It assigns values of its type at most. *)
Definition typed_body (body : Body) : Prop :=
  ∀ n s way v s', in_kind kind n = true → body (VInteger n kind) s = Ok (way, v, s') →
    ∃ n', v = VInteger n' kind ∧ in_kind kind n' = true.

Lemma for_loop_each fuel body n s : keeps_variable body → in_kind kind n = true → in_kind ke end_ = true → ke = kind →
  trip_count n end_ step < Z.of_nat fuel →
  loop fuel body n s = for_each body (progression kind n step (Z.to_nat (trip_count n end_ step))) s.
Proof.
  intros Hb Hn He Hke. rewrite Hke in He. revert n s Hn. induction fuel as [|fuel IH]; intros n s Hn Hf.
  { unfold trip_count in Hf. lia. }
  rewrite for_round; [|intros way v s' E; apply Hb in E as ->; by exists n].
  destruct (in_loop n end_ step) eqn:Hin; [|by rewrite (trip_count_out _ _ _ step_not_zero Hin)].
  destruct (trip_count_in _ _ _ step_not_zero Hin) as [Ht Ht1].
  replace (Z.to_nat (trip_count n end_ step)) with (S (Z.to_nat (trip_count (n + step) end_ step))) by lia.
  rewrite progression_S. cbn [for_each]. destruct (body (VInteger n kind) s) as [[[way v] s']| | |] eqn:E; try done.
  apply Hb in E as ->. cbn [mbind res_bind]. destruct way; try done.
  destruct (in_kind kind (n + step)) eqn:Hfit; [apply IH; [done|lia]|].
  assert (in_loop (n + step) end_ step = false) as Hout; [|by rewrite (trip_count_out _ _ _ step_not_zero Hout)].
  apply not_true_iff_false. intros Hin2. apply not_true_iff_false in Hfit. apply Hfit.
  rewrite in_kind_spec in *. unfold in_loop in Hin, Hin2. destruct (0 <? step) eqn:E; z_bools; lia.
Qed.

(** Two bodies that agree on the values within the bound: the loop has no use
    for what they do outside. *)
Lemma for_loop_within fuel body body' n s : typed_body body → in_kind kind n = true →
  (∀ n s, in_kind kind n = true → in_loop n end_ step = true → body' (VInteger n kind) s = body (VInteger n kind) s) →
  loop fuel body' n s = loop fuel body n s.
Proof.
  intros Hb Hn Hsame. revert n s Hn. induction fuel as [|fuel IH]; intros n s Hn; [done|].
  destruct (in_loop n end_ step) eqn:Hin.
  - rewrite !for_round; [|intros; by eapply Hb|intros way v s' E; rewrite (Hsame _ _ Hn Hin) in E; by eapply Hb].
    rewrite Hin, (Hsame _ _ Hn Hin). destruct (body (VInteger n kind) s) as [[[way v] s']| | |]; try done. cbn [mbind res_bind].
    destruct way; try done. destruct v; try done. destruct (in_kind kind (v + step)) eqn:Hk; [by apply IH|done].
  - cbn [for_loop]. unfold for_condition. cbn [integer mbind res_bind fst snd].
    rewrite (proj2 (Z.eqb_neq step 0) step_not_zero). cbn [mbind res_bind boolean]. fold (in_loop n end_ step). by rewrite Hin.
Qed.

(** The statement has no error of its own. *)
Lemma for_loop_errors fuel body n s d : typed_body body → in_kind kind n = true → loop fuel body n s = Err d →
  ∃ n' s', in_kind kind n' = true ∧ in_loop n' end_ step = true ∧ body (VInteger n' kind) s' = Err d.
Proof.
  intros Hb. revert n s. induction fuel as [|fuel IH]; intros n s Hn; [done|].
  rewrite for_round by (intros; by eapply Hb). destruct (in_loop n end_ step) eqn:Hin; [|done].
  destruct (body (VInteger n kind) s) as [[[way v] s']|e| |] eqn:E; cbn [mbind res_bind]; try done.
  - destruct way; try done. destruct v; try done. destruct (in_kind kind (v + step)) eqn:Hk; [by apply IH|done].
  - intros [= ->]. by exists n, s.
Qed.
End Loop.

End CountedFor.
Arguments BodyEnd : clear implicits.
Arguments BodyNext {Out}.
Arguments BodyExit {Out}.

(** A body that keeps the values it sees, and leaves by EXIT at 254. *)
Definition collecting (exits : bool) : Body (St := list Value) (Out := unit) := fun v seen =>
  Ok (if exits && match v with VInteger 254 Byte => true | _ => false end then BodyExit else BodyNext, v, (seen ++ [v])%list).


(** The body adds one to the variable as well, so the values are three apart. *)
Example assigned_variable :
  let body : Body (St := list Z) (Out := unit) := fun v seen =>
    match v with VInteger n k => Ok (BodyNext, VInteger (n + 1) k, (seen ++ [n])%list) | _ => Ok (BodyNext, v, seen) end in
  counted_for (H := test_platform) 10 (TInteger Int32) (VInteger 1 Int32) (VInteger 9 Int32) (VInteger 2 Int32) default_span body []
  = Ok (None, [1; 4; 7]).
Proof. vm_compute. reflexivity. Qed.

(** ** [ASC] and [CHAR] *)

Lemma byte_of_val_range u lo hi :
  0 ≤ u < 256 → in_range lo hi (byte_val (byte_of u)) = in_range lo hi u.
Proof. intros Hu. by rewrite byte_val_byte_of. Qed.

Lemma chars_cons_start c s : is_continuation c = false →
  chars (String c s) = chars_from (String c "") s.
Proof. unfold chars. simpl. by intros ->. Qed.

Lemma continuation_byte u : 128 ≤ u < 192 → is_continuation (byte_of u) = true.
Proof. intros Hu. unfold is_continuation. rewrite byte_of_val_range, in_range_spec by lia. lia. Qed.

Lemma start_byte u : 0 ≤ u < 256 → ¬ 128 ≤ u < 192 → is_continuation (byte_of u) = false.
Proof.
  intros Hu Hn. unfold is_continuation. rewrite byte_of_val_range, in_range_false by lia. lia.
Qed.

(** One scalar's text is one character, whose code point is the scalar. *)
Lemma chars_utf8_encode u : 0 ≤ u ≤ 1114111 →
  chars (utf8_encode u) = [utf8_encode u] ∧ code_point (utf8_encode u) = u.
Proof.
  intros Hu. unfold utf8_encode.
  destruct (u <? 128) eqn:E1; [|destruct (u <? 2048) eqn:E2; [|destruct (u <? 65536) eqn:E3]];
    z_bools; cbn [map of_bytes]; (split; [|unfold code_point; cbn [str_bytes map];
      rewrite !byte_val_byte_of by (Z.to_euclidean_division_equations; lia);
      Z.to_euclidean_division_equations; lia]);
    rewrite chars_cons_start by (apply start_byte; Z.to_euclidean_division_equations; lia);
    cbn [chars_from];
    rewrite ?continuation_byte by (Z.to_euclidean_division_equations; lia);
    reflexivity.
Qed.

(** [ASC] undoes [CHAR] on every Unicode scalar value, and [CHAR] of anything
    else is an [Error] value, not a failure. *)
Theorem asc_char_round_trip `{Platform} (u : Z) (kind : IntegerType) (span : Span) :
  ∃ v, builtin "CHAR" [VInteger u kind] span = Ok v ∧
    if is_scalar u then builtin "ASC" [v] span = Ok (VInteger u Int32)
    else ∃ message cause, v = error_report 1 "CHAR" message cause.
Proof.
  assert (builtin "CHAR" [VInteger u kind] span =
    match c ← try_from 0 u32_MAX u; char_from_u32 c with
    | Some text => Ok (VString text)
    | None => Ok (error_report 1 builtin_char_operation "CHAR code is not a Unicode scalar"
                    (failure_cause builtin_char_operation))
    end) as -> by reflexivity.
  destruct (is_scalar u) eqn:Hs.
  - assert (0 ≤ u ≤ 1114111) as Hu.
    { unfold is_scalar in Hs. rewrite orb_true_iff, !in_range_spec in Hs. lia. }
    assert (try_from 0 u32_MAX u = Some u) as ->.
    { apply try_from_Some. unfold u32_MAX. lia. }
    unfold char_from_u32. cbn [mbind option_bind]. rewrite Hs. eexists. split; [done|].
    destruct (chars_utf8_encode u Hu) as [Hc Hp].
    change (builtin "ASC" [VString (utf8_encode u)] span) with
      (match chars (utf8_encode u) with
       | [] => Ok (error_report 1 builtin_asc_operation "ASC requires a non-empty STRING"
                    (failure_cause builtin_asc_operation)) : result Value
       | c :: _ => Ok (VInteger (code_point c) Int32)
       end).
    by rewrite Hc, Hp.
  - destruct (try_from 0 u32_MAX u) as [c|] eqn:Hc; cbn [mbind option_bind].
    + apply try_from_Some in Hc as [-> _]. unfold char_from_u32. rewrite Hs.
      eexists. split; [done|]. by eexists _, _.
    + eexists. split; [done|]. by eexists _, _.
Qed.
