(* ===== verification/Ir.v ===== *)
(** * Ir: the intermediate representation the executor runs ([crates/bn_ir])

    [model.rs] (modules, functions, blocks, instructions, layouts),
    [dispatch.rs] (virtual method resolution) and [names.rs] (the
    function-name protocol).  The theorems show that resolution picks the
    most-derived implementation and that the dispatch table lists every class
    a receiver can have. *)

From stdpp Require Import sorting.
From S2P Require Import Prelude Text Diag Types ClassModel.

#[local] Open Scope string_scope.
#[local] Open Scope Z_scope.

(** ** Data ([model.rs]) *)

Definition BlockId := Z.
Definition ValueId := Z.
Definition SymbolId := Z.
Definition FieldId := Z.
Definition FieldSlot := Z.

Record FieldRef := mkFieldRef { f_owner : string; f_id : FieldId; f_slot : FieldSlot }.

Record FieldLayoutEntry := mkFieldLayoutEntry {
  e_id : FieldId;
  e_slot : FieldSlot;
  e_ty : BType;
  e_declaring_owner : string;
  e_weak : bool;
  e_span : Span;
}.

Record FieldLayout := mkFieldLayout {
  l_owner : string;
  l_fields : list FieldLayoutEntry;
  l_span : Span;
}.

Inductive FunctionKind :=
| User | Entry | Constructor | Destructor | FieldInit | Init | Default | ReleaseFields.

#[global] Instance FunctionKind_eq_dec : EqDecision FunctionKind.
Proof. solve_decision. Defined.

Inductive Constant :=
| CInteger (text : string)
| CFloat (text : string)
| CString (text : string)
| CBoolean (b : bool)
| CNull
| CNotAvailable
| CEndOfFile
| CFunction (name : string)
| CType (name : string)
| CHostConsole
| CHostArgs.

Inductive Instruction :=
| IConstant (destination : ValueId) (value : Constant) (ty : BType) (span : Span)
| IDefault (destination : ValueId) (ty : BType) (dimensions : list Z)
    (dynamic_dimensions : list ValueId) (span : Span)
| IPhi (destination : ValueId) (incoming : list (BlockId * ValueId)) (ty : BType) (span : Span)
| ILoad (destination : ValueId) (symbol : SymbolId) (ty : BType) (span : Span)
| IRetain (destination value : ValueId) (ty : BType) (span : Span)
| ITake (destination : ValueId) (symbol : SymbolId) (ty : BType) (span : Span)
| ITakeMember (destination object : ValueId) (field : option FieldRef) (name owner : string)
    (ty : BType) (span : Span)
| IEndBinding (symbol : SymbolId) (span : Span)
| IStore (symbol : SymbolId) (value : ValueId) (previous : option ValueId) (ty : BType)
    (span : Span)
| ICopy (destination source : ValueId) (ty : BType) (span : Span)
| IUnary (destination : ValueId) (operator : string) (operand : ValueId) (ty : BType)
    (span : Span)
| IBinary (destination : ValueId) (operator : string) (left right : ValueId) (ty : BType)
    (span : Span)
| ICast (destination value : ValueId) (ty : BType) (span : Span)
| ICall (destination callee : ValueId) (arguments : list ValueId) (ty : BType) (span : Span)
| IDispatchSubmit (destination callee queue task : ValueId) (arguments : list ValueId)
    (ty : BType) (span : Span)
| IDispatchAwait (destination callee ticket timeout : ValueId) (ty : BType) (span : Span)
| IInput (destination : ValueId) (prompt : option ValueId) (ty : BType) (span : Span)
| IVector (destination : ValueId) (values : list ValueId) (ty : BType) (span : Span)
| IIndex (destination object index : ValueId) (ty : BType) (span : Span)
| IMember (destination object : ValueId) (field : option FieldRef) (name owner : string)
    (ty : BType) (span : Span)
| ISetIndex (symbol : SymbolId) (indices : list ValueId) (value : ValueId)
    (previous : option ValueId) (ty : BType) (span : Span)
| ISetMemberIndex (object : ValueId) (field : option FieldRef) (name owner : string)
    (indices : list ValueId) (value : ValueId) (previous : option ValueId) (ty : BType)
    (span : Span)
| ISetFieldIndex (symbol : SymbolId) (root_owner : string) (path : list string)
    (fields : option (list FieldRef)) (indices : list ValueId) (value : ValueId)
    (previous : option ValueId) (ty : BType) (span : Span)
| ISetStaticIndex (class field : string) (indices : list ValueId) (value : ValueId)
    (previous : option ValueId) (ty : BType) (span : Span)
| ILength (destination vector : ValueId) (span : Span)
| ISizeOf (destination value : ValueId) (span : Span)
| IPrint (values : list ValueId) (span : Span)
| IClearScreen (console : ValueId) (span : Span)
| IBeep (console : ValueId) (span : Span)
| IAllocate (destination : ValueId) (type_name : string) (arguments : list ValueId)
    (ty : BType) (span : Span)
| IRelease (value : ValueId) (destructor : option string) (span : Span)
| ISetMember (object : ValueId) (field : option FieldRef) (name owner : string)
    (value : ValueId) (previous : option ValueId) (ty : BType) (span : Span)
| ISetField (symbol : SymbolId) (root_owner : string) (path : list string)
    (fields : option (list FieldRef)) (value : ValueId) (previous : option ValueId)
    (ty : BType) (span : Span)
| IEnsureClass (class : string) (span : Span)
| ILoadStatic (destination : ValueId) (class field : string) (ty : BType) (span : Span)
| IStoreStatic (class field : string) (value : ValueId) (previous : option ValueId)
    (ty : BType) (span : Span).

Inductive Terminator :=
| TJump (target : BlockId)
| TBranch (condition : ValueId) (then_block else_block : BlockId)
| TReturn (value : option ValueId)
| TStop (code : ValueId).

Record BasicBlock := mkBlock {
  b_id : BlockId;
  b_instructions : list Instruction;
  b_terminator : Terminator;
}.

Record Function := mkFunction {
  fn_name : string;
  fn_kind : FunctionKind;
  fn_owner : option string;
  fn_asynchronous : bool;
  fn_parameters : list SymbolId;
  fn_weak_symbols : gset SymbolId;
  fn_return_type : BType;
  fn_entry : BlockId;
  fn_blocks : list BasicBlock;
  fn_span : Span;
}.

Record Module_ := mkModule {
  functions : list Function;
  field_names : list string;
  field_layouts : gmap string FieldLayout;
  class_model : ClassModel;
  module_interfaces : gset string;
  bndata_providers : gset ModuleId;
  bnmath_providers : gset ModuleId;
  bnlog_providers : gset ModuleId;
  bnjson_providers : gset ModuleId;
  bnweb_providers : gset ModuleId;
  bndispatch_providers : gset ModuleId;
  bncrypto_providers : gset ModuleId;
  bncompress_providers : gset ModuleId;
  bnsqlite_providers : gset ModuleId;
  bnffi_providers : gset ModuleId;
  filesystem_import : option Span;
}.

Definition instruction_span (i : Instruction) : Span :=
  match i with
  | IConstant _ _ _ span | IDefault _ _ _ _ span | IPhi _ _ _ span | ILoad _ _ _ span
  | IRetain _ _ _ span | ITake _ _ _ span | ITakeMember _ _ _ _ _ _ span | IEndBinding _ span
  | IStore _ _ _ _ span | ICopy _ _ _ span | IUnary _ _ _ _ span | IBinary _ _ _ _ _ span
  | ICast _ _ _ span | ICall _ _ _ _ span | IDispatchSubmit _ _ _ _ _ _ span
  | IDispatchAwait _ _ _ _ _ span | IInput _ _ _ span | IVector _ _ _ span
  | IIndex _ _ _ _ span | IMember _ _ _ _ _ _ span | ISetIndex _ _ _ _ _ span
  | ISetMemberIndex _ _ _ _ _ _ _ _ span | ISetFieldIndex _ _ _ _ _ _ _ _ span
  | ISetStaticIndex _ _ _ _ _ _ span | ILength _ _ span | ISizeOf _ _ span | IPrint _ span
  | IClearScreen _ span | IBeep _ span | IAllocate _ _ _ _ span | IRelease _ _ span
  | ISetMember _ _ _ _ _ _ _ span | ISetField _ _ _ _ _ _ _ span | IEnsureClass _ span
  | ILoadStatic _ _ _ _ span | IStoreStatic _ _ _ _ _ span => span
  end.

(** ** Lookups *)

Definition field_ref (m : Module_) (owner name : string) : option FieldRef :=
  layout ← field_layouts m !! owner;
  entry ← List.find (fun entry =>
            match field_names m !! Z.to_nat (e_id entry) with
            | Some n => String.eqb n name
            | None => false
            end) (l_fields layout);
  Some (mkFieldRef owner (e_id entry) (e_slot entry)).

Definition field_is_weak (m : Module_) (field : FieldRef) : bool :=
  match layout ← field_layouts m !! f_owner field; l_fields layout !! Z.to_nat (f_slot field) with
  | Some entry => e_weak entry && (e_id entry =? f_id field)
  | None => false
  end.

Definition entry (m : Module_) : option Function :=
  List.find (fun f => bool_decide (fn_kind f = Entry)) (functions m).

Definition function_of_kind (m : Module_) (kind : FunctionKind) (owner : string)
    : option Function :=
  List.find (fun f => bool_decide (fn_kind f = kind) && bool_decide (fn_owner f = Some owner))
    (functions m).

Definition standard_library_of (m : Module_) (id : ModuleId) : option string :=
  option_map snd
    (List.find (fun p : gset ModuleId * string => bool_decide (id ∈ p.1))
       [(bnmath_providers m, "BNMath"); (bndata_providers m, "BNData");
        (bnlog_providers m, "BNLog"); (bnjson_providers m, "BNJson");
        (bnweb_providers m, "BNWeb"); (bndispatch_providers m, "BNDispatch");
        (bncrypto_providers m, "BNCrypto"); (bncompress_providers m, "BNCompress");
        (bnsqlite_providers m, "BNSqlite"); (bnffi_providers m, "BNFfi")]).

Definition find_function (m : Module_) (name : string) : option Function :=
  List.find (fun f => String.eqb (fn_name f) name) (functions m).

Definition kind_of (m : Module_) (name : string) : option FunctionKind :=
  option_map fn_kind (find_function m name).

(** ** Virtual dispatch ([dispatch.rs]) *)

Fixpoint first_implementation (m : Module_) (classes : list string) (method : string)
    : option string :=
  match classes with
  | [] => None
  | ancestor :: classes =>
      let symbol := ancestor +:+ "." +:+ method in
      match find_function m symbol with
      | Some f => Some (fn_name f)
      | None => first_implementation m classes method
      end
  end.

Definition resolve_method (m : Module_) (runtime_class method : string) : option string :=
  first_implementation m (ancestors (class_model m) runtime_class) method.

(** The keys of a [BTreeMap], in byte order. *)
Definition str_le (a b : string) : Prop := str_cmp a b ≠ Gt.

#[global] Instance str_le_dec : RelDecision str_le.
Proof. intros a b. unfold str_le, Decision. destruct (str_cmp a b); auto; right; auto. Defined.

Definition sorted_keys {A} (map : gmap string A) : list string :=
  merge_sort str_le (map_to_list map).*1.

Definition dispatch_targets (m : Module_) (static_type method : string)
    : list (string * string) :=
  omap (fun class =>
          if String.eqb class static_type || is_upcast (class_model m) class static_type then
            target ← resolve_method m class method; Some (class, target)
          else None)
    (sorted_keys (field_layouts m)).

(** ** The name protocol ([names.rs]) *)

Inductive EmittedNameKind :=
| EEntry | EConstructor | EDestructor | EFieldInit | EInit | EDefault | EReleaseFields | EUser.

Definition SYNTHESISED_SUFFIXES : list (string * EmittedNameKind) :=
  [("CONSTRUCTOR", EConstructor); ("DESTRUCTOR", EDestructor); ("$fields", EFieldInit);
   ("$init", EInit); ("$default", EDefault); ("$release", EReleaseFields)].

Definition ENTRY : string := "Start".
Definition SESSION_ENTRY : string := "__session_entry".
Definition SUPER_PREFIX : string := "@super:".
Definition STOPPING : string := "$stopping".
Definition STOP_CODE : string := "$stop_code".
Definition INTRINSICS : list string := ["$for_condition"; "$for_fits"; STOPPING; STOP_CODE].

Definition is_intrinsic (name : string) : bool := existsb (String.eqb name) INTRINSICS.

Definition is_word (c : ascii) : bool := is_ascii_alphanumeric c || Ascii.eqb c "_".

Definition is_identifier (text : string) : bool :=
  match str_bytes text with
  | [] => false
  | first :: rest => (is_ascii_alphabetic first || Ascii.eqb first "_") && forallb is_word rest
  end.

(** The part of a name after its module prefix [#<id>.]. *)
Definition name_body (name : string) : option string :=
  match strip_prefix "#" name with
  | Some rest =>
      match split_once "." rest with
      | Some (id, rest) =>
          if String.eqb id "" || negb (forallb is_ascii_digit (str_bytes id)) then None
          else Some rest
      | None => None
      end
  | None => Some name
  end.

Definition classify (name : string) : option EmittedNameKind :=
  let name := default name (strip_prefix SUPER_PREFIX name) in
  if String.eqb name ENTRY || String.eqb name SESSION_ENTRY then Some EEntry
  else
    body ← name_body name;
    if String.eqb body "" || starts_with "." body || ends_with "." body then None
    else
      match split "." body with
      | head :: tail =>
          if negb (is_identifier head) then None
          else
            match tail with
            | [] => Some EUser
            | [member] =>
                match List.find (fun p : string * EmittedNameKind => String.eqb p.1 member)
                        SYNTHESISED_SUFFIXES with
                | Some (_, kind) => Some kind
                | None => if is_identifier member then Some EUser else None
                end
            | _ => None
            end
      | [] => None
      end.

Example classify_tests :
  classify "Start" = Some EEntry ∧ classify "#3.Box.$default" = Some EDefault
  ∧ classify "@super:Animal.DESTRUCTOR" = Some EDestructor ∧ classify "Helper" = Some EUser
  ∧ forallb (fun n => match classify n with None => true | Some _ => false end)
      [""; "."; "Counter."; ".Inc"; "Counter.$bogus"; "Counter.$fields.extra"; "#x.Name"; "#.Name";
       "3Name"; "Counter.Inc.Twice"; "$bogus_intrinsic"; "$for_condition"] = true.
Proof. vm_compute. repeat split. Qed.

(** ** Theorems *)

Lemma first_implementation_spec m classes method target :
  first_implementation m classes method = Some target ↔
  ∃ before c after, classes = (before ++ c :: after)%list
    ∧ target = c +:+ "." +:+ method
    ∧ is_Some (find_function m target)
    ∧ Forall (fun d => find_function m (d +:+ "." +:+ method) = None) before.
Proof.
  revert target. induction classes as [|c classes IH]; intros target; simpl.
  - split; [discriminate|]. intros (before & c & after & H & _). by destruct before.
  - destruct (find_function m (c +:+ "." +:+ method)) as [f|] eqn:Hf.
    + assert (fn_name f = c +:+ "." +:+ method) as Hname.
      { apply List.find_some in Hf as [_ Hf]. by apply String.eqb_eq in Hf. }
      split.
      * intros [= <-]. exists [], c, classes. rewrite Hname, Hf. split; [done|]. split; [done|].
        split; [by eexists | constructor].
      * intros (before & d & after & Heq & -> & _ & Hall). destruct before as [|b before].
        { injection Heq as <- <-. by rewrite Hname. }
        injection Heq as -> ->. inversion Hall. congruence.
    + rewrite IH. split.
      * intros (before & d & after & -> & Ht & Hs & Hall).
        exists (c :: before), d, after. split; [done|]. split; [done|]. split; [done|].
        by constructor.
      * intros (before & d & after & Heq & -> & [g Hg] & Hall). destruct before as [|b before].
        { injection Heq as <- <-. congruence. }
        injection Heq as -> ->. inversion Hall; subst. exists before, d, after. eauto.
Qed.

(** Virtual dispatch runs the implementation of the nearest ancestor of the
    receiver's class that has one. *)
Theorem resolve_method_spec (m : Module_) (runtime_class method target : string) :
  resolve_method m runtime_class method = Some target ↔
  ∃ before c after, ancestors (class_model m) runtime_class = (before ++ c :: after)%list
    ∧ target = c +:+ "." +:+ method
    ∧ is_Some (find_function m target)
    ∧ Forall (fun d => find_function m (d +:+ "." +:+ method) = None) before.
Proof. apply first_implementation_spec. Qed.

(** The dispatch table of a static type pairs every class of the module that
    is that type, or reaches it, with its own resolution, and nothing else:
    compiled dispatch and interpreted dispatch select the same function. *)
Theorem dispatch_targets_spec (m : Module_) (static_type method class target : string) :
  (class, target) ∈ dispatch_targets m static_type method ↔
  is_Some (field_layouts m !! class)
  ∧ (class = static_type ∨ is_upcast (class_model m) class static_type = true)
  ∧ resolve_method m class method = Some target.
Proof.
  unfold dispatch_targets. rewrite list_elem_of_omap.
  assert (∀ c, c ∈ sorted_keys (field_layouts m) ↔ is_Some (field_layouts m !! c)) as Hkeys.
  { intros c. unfold sorted_keys. rewrite merge_sort_Permutation, list_elem_of_fmap. split.
    - intros ([k l] & -> & Hin). apply elem_of_map_to_list in Hin. by eexists.
    - intros [l Hl]. exists (c, l). split; [done|]. by apply elem_of_map_to_list. }
  split.
  - intros (c & Hin & Hc). apply Hkeys in Hin.
    destruct (_ || _)%bool eqn:E; [|discriminate].
    destruct (resolve_method m c method) as [t|] eqn:Ht; [|discriminate].
    simpl in Hc. injection Hc as <- <-. split; [done|]. split; [|done].
    apply orb_prop in E as [E%String.eqb_eq|E]; auto.
  - intros (Hin & Hc & Ht). exists class. split; [by apply Hkeys|].
    assert (String.eqb class static_type || is_upcast (class_model m) class static_type = true) as ->.
    { destruct Hc as [-> | ->]; [by rewrite str_eqb_refl | by rewrite orb_true_r]. }
    by rewrite Ht.
Qed.
