(* ===== verification/Machine.v ===== *)
(** * Machine: the executor's state and the seams it reaches the host through

    The record [Executor] of [crates/bn_interp/src/lib.rs] without its debugger
    and event hooks, the provider traits of [provider.rs], and the primitives of
    [executor/ownership.rs] that name objects.  The module being run, the
    stack limits and the host's arguments do not change during a run; they are
    fields of the [World].

    Code outside the interpreter appears as parameters: the input and output
    streams, the answers of the operating system, and the providers.  A
    provider is a trait object that reaches the executor only through
    [CoreContext]; a call of one is therefore a tree of [CoreContext] requests
    ([Prog]), which the executor answers one by one. *)

From S2P Require Import Prelude Text Diag Types ClassModel Civil Arc Heap Values Ir Frames.

#[local] Open Scope string_scope.
#[local] Open Scope Z_scope.

(** ** The world *)

(** What the executor is created with, and the streams and providers it is
    given.  [stack_base] and [stack_budget] bound the native stack. *)
Class World := {
  Provider : Type;
  Input : Type;
  Output : Type;
  module : Module_;
  (** [BufRead::read_line]: the line with its end, or the error's text. *)
  read_line : Input → Input * (string + string);
  (** [Write::write_str] and [Write::flush]: the error's text, if any. *)
  write_text : Output → string → Output * option string;
  flush : Output → Output * option string;
  host_arguments : list string;
  provides_filesystem : bool;
  (** [available_parallelism]: the count, or the error's text. *)
  parallelism : Z + string;
  stack_base : Z;
  stack_budget : Z;
}.

Inductive ClassInit := Running | Ready.

(** [struct Instance] *)
Definition Instance := list Value.

Record OwnershipFrame := mkOwnershipFrame {
  released_symbols : gset SymbolId;
  weak_symbols : gset SymbolId;
}.

Definition is_released (frame : OwnershipFrame) (symbol : SymbolId) : bool :=
  bool_decide (symbol ∈ released_symbols frame).
Definition is_weak (frame : OwnershipFrame) (symbol : SymbolId) : bool :=
  negb (bool_decide (weak_symbols frame = ∅)) && bool_decide (symbol ∈ weak_symbols frame).

Inductive Flow := FReturn (v : option Value) | FStop (code : Z).

(** The flag shared with the signal handlers: its value, and whether another
    thread sets it before each of the next loads. *)
Record CancelFlag := mkCancelFlag { cancelled : bool; later_cancels : list bool }.

(** A load: what it sees, and the flag after it. *)
Definition cancel_load (flag : CancelFlag) : CancelFlag * bool :=
  let now := cancelled flag || default false (head (later_cancels flag)) in
  (mkCancelFlag now (tail (later_cancels flag)), now).

Section Core.
Context `{World}.

(** [struct Executor] *)
Record Core := mkCore {
  input : Input;
  output : Output;
  stop_code : option Z;
  unwinding : option Z;
  statics : gmap (string * string) Value;
  class_init : gmap string ClassInit;
  arc_core : ArcCore;
  objects : Heap Instance;
  memory : Heap Value;
  (** A stack: the head was pushed last. *)
  pinned_dispatch : list (Handle * string);
  libraries : gmap string Provider;
  hosts : gmap string Provider;
  call_depth : Z;
  (** A stack: the head is the running call's frame. *)
  ownership_frames : list OwnershipFrame;
  frame_pool : FramePool;
  session_bindings : Symbols;
  session_restored_symbols : gset SymbolId;
  session_captured_symbols : option Symbols;
  cancel_flag : option CancelFlag;
}.

Definition with_input (v : Input) (c : Core) : Core :=
  mkCore v (output c) (stop_code c) (unwinding c) (statics c) (class_init c) (arc_core c) (objects c)
    (memory c) (pinned_dispatch c) (libraries c) (hosts c) (call_depth c) (ownership_frames c)
    (frame_pool c) (session_bindings c) (session_restored_symbols c) (session_captured_symbols
    c) (cancel_flag c).
Definition with_output (v : Output) (c : Core) : Core :=
  mkCore (input c) v (stop_code c) (unwinding c) (statics c) (class_init c) (arc_core c) (objects c)
    (memory c) (pinned_dispatch c) (libraries c) (hosts c) (call_depth c) (ownership_frames c)
    (frame_pool c) (session_bindings c) (session_restored_symbols c) (session_captured_symbols
    c) (cancel_flag c).
Definition with_stop_code (v : option Z) (c : Core) : Core :=
  mkCore (input c) (output c) v (unwinding c) (statics c) (class_init c) (arc_core c) (objects c)
    (memory c) (pinned_dispatch c) (libraries c) (hosts c) (call_depth c) (ownership_frames c)
    (frame_pool c) (session_bindings c) (session_restored_symbols c) (session_captured_symbols
    c) (cancel_flag c).
Definition with_unwinding (v : option Z) (c : Core) : Core :=
  mkCore (input c) (output c) (stop_code c) v (statics c) (class_init c) (arc_core c) (objects c)
    (memory c) (pinned_dispatch c) (libraries c) (hosts c) (call_depth c) (ownership_frames c)
    (frame_pool c) (session_bindings c) (session_restored_symbols c) (session_captured_symbols
    c) (cancel_flag c).
Definition with_statics (v : gmap (string * string) Value) (c : Core) : Core :=
  mkCore (input c) (output c) (stop_code c) (unwinding c) v (class_init c) (arc_core c) (objects c)
    (memory c) (pinned_dispatch c) (libraries c) (hosts c) (call_depth c) (ownership_frames c)
    (frame_pool c) (session_bindings c) (session_restored_symbols c) (session_captured_symbols
    c) (cancel_flag c).
Definition with_class_init (v : gmap string ClassInit) (c : Core) : Core :=
  mkCore (input c) (output c) (stop_code c) (unwinding c) (statics c) v (arc_core c) (objects c)
    (memory c) (pinned_dispatch c) (libraries c) (hosts c) (call_depth c) (ownership_frames c)
    (frame_pool c) (session_bindings c) (session_restored_symbols c) (session_captured_symbols
    c) (cancel_flag c).
Definition with_arc_core (v : ArcCore) (c : Core) : Core :=
  mkCore (input c) (output c) (stop_code c) (unwinding c) (statics c) (class_init c) v (objects c)
    (memory c) (pinned_dispatch c) (libraries c) (hosts c) (call_depth c) (ownership_frames c)
    (frame_pool c) (session_bindings c) (session_restored_symbols c) (session_captured_symbols
    c) (cancel_flag c).
Definition with_objects (v : Heap Instance) (c : Core) : Core :=
  mkCore (input c) (output c) (stop_code c) (unwinding c) (statics c) (class_init c) (arc_core c) v
    (memory c) (pinned_dispatch c) (libraries c) (hosts c) (call_depth c) (ownership_frames c)
    (frame_pool c) (session_bindings c) (session_restored_symbols c) (session_captured_symbols
    c) (cancel_flag c).
Definition with_memory (v : Heap Value) (c : Core) : Core :=
  mkCore (input c) (output c) (stop_code c) (unwinding c) (statics c) (class_init c) (arc_core c)
    (objects c) v (pinned_dispatch c) (libraries c) (hosts c) (call_depth c) (ownership_frames
    c) (frame_pool c) (session_bindings c) (session_restored_symbols c)
    (session_captured_symbols c) (cancel_flag c).
Definition with_pinned_dispatch (v : list (Handle * string)) (c : Core) : Core :=
  mkCore (input c) (output c) (stop_code c) (unwinding c) (statics c) (class_init c) (arc_core c)
    (objects c) (memory c) v (libraries c) (hosts c) (call_depth c) (ownership_frames c)
    (frame_pool c) (session_bindings c) (session_restored_symbols c) (session_captured_symbols
    c) (cancel_flag c).
Definition with_libraries (v : gmap string Provider) (c : Core) : Core :=
  mkCore (input c) (output c) (stop_code c) (unwinding c) (statics c) (class_init c) (arc_core c)
    (objects c) (memory c) (pinned_dispatch c) v (hosts c) (call_depth c) (ownership_frames c)
    (frame_pool c) (session_bindings c) (session_restored_symbols c) (session_captured_symbols
    c) (cancel_flag c).
Definition with_hosts (v : gmap string Provider) (c : Core) : Core :=
  mkCore (input c) (output c) (stop_code c) (unwinding c) (statics c) (class_init c) (arc_core c)
    (objects c) (memory c) (pinned_dispatch c) (libraries c) v (call_depth c) (ownership_frames
    c) (frame_pool c) (session_bindings c) (session_restored_symbols c)
    (session_captured_symbols c) (cancel_flag c).
Definition with_call_depth (v : Z) (c : Core) : Core :=
  mkCore (input c) (output c) (stop_code c) (unwinding c) (statics c) (class_init c) (arc_core c)
    (objects c) (memory c) (pinned_dispatch c) (libraries c) (hosts c) v (ownership_frames c)
    (frame_pool c) (session_bindings c) (session_restored_symbols c) (session_captured_symbols
    c) (cancel_flag c).
Definition with_ownership_frames (v : list OwnershipFrame) (c : Core) : Core :=
  mkCore (input c) (output c) (stop_code c) (unwinding c) (statics c) (class_init c) (arc_core c)
    (objects c) (memory c) (pinned_dispatch c) (libraries c) (hosts c) (call_depth c) v
    (frame_pool c) (session_bindings c) (session_restored_symbols c) (session_captured_symbols
    c) (cancel_flag c).
Definition with_frame_pool (v : FramePool) (c : Core) : Core :=
  mkCore (input c) (output c) (stop_code c) (unwinding c) (statics c) (class_init c) (arc_core c)
    (objects c) (memory c) (pinned_dispatch c) (libraries c) (hosts c) (call_depth c)
    (ownership_frames c) v (session_bindings c) (session_restored_symbols c)
    (session_captured_symbols c) (cancel_flag c).
Definition with_session_bindings (v : Symbols) (c : Core) : Core :=
  mkCore (input c) (output c) (stop_code c) (unwinding c) (statics c) (class_init c) (arc_core c)
    (objects c) (memory c) (pinned_dispatch c) (libraries c) (hosts c) (call_depth c)
    (ownership_frames c) (frame_pool c) v (session_restored_symbols c) (session_captured_symbols
    c) (cancel_flag c).
Definition with_session_restored_symbols (v : gset SymbolId) (c : Core) : Core :=
  mkCore (input c) (output c) (stop_code c) (unwinding c) (statics c) (class_init c) (arc_core c)
    (objects c) (memory c) (pinned_dispatch c) (libraries c) (hosts c) (call_depth c)
    (ownership_frames c) (frame_pool c) (session_bindings c) v (session_captured_symbols c)
    (cancel_flag c).
Definition with_session_captured_symbols (v : option Symbols) (c : Core) : Core :=
  mkCore (input c) (output c) (stop_code c) (unwinding c) (statics c) (class_init c) (arc_core c)
    (objects c) (memory c) (pinned_dispatch c) (libraries c) (hosts c) (call_depth c)
    (ownership_frames c) (frame_pool c) (session_bindings c) (session_restored_symbols c) v
    (cancel_flag c).
Definition with_cancel_flag (v : option CancelFlag) (c : Core) : Core :=
  mkCore (input c) (output c) (stop_code c) (unwinding c) (statics c) (class_init c) (arc_core c)
    (objects c) (memory c) (pinned_dispatch c) (libraries c) (hosts c) (call_depth c)
    (ownership_frames c) (frame_pool c) (session_bindings c) (session_restored_symbols c)
    (session_captured_symbols c) v.


(** ** Requests of a provider ([trait CoreContext]) *)

(** [Ok] or [Err] as a provider sees them. *)
Definition Answer (A : Type) : Type := A + Diagnostic.

Inductive Prog (A : Type) : Type :=
| PRet (a : A)
| PMemory (k : Heap Value → Prog A)
| PMemoryMut (f : Heap Value → Heap Value) (k : Prog A)
| PCallFunction (name : string) (arguments : list Value) (span : Span)
    (k : Answer Value → Prog A)
| PLibraryCall (library member : string) (arguments : list Value) (span : Span)
    (k : Answer Value → Prog A)
| PWrite (text : string) (k : option string → Prog A)
| PFlush (k : option string → Prog A)
| PAllocateObject (class : string) (span : Span) (k : Answer Value → Prog A)
| PLibraryAllocate (library class : string) (span : Span) (k : option (Answer Value) → Prog A)
| PLibraryRelease (v : Value) (span : Span) (k : option (Answer unit) → Prog A)
| PLibraryTake (library : string) (k : option Provider → Prog A)
| PLibraryInsert (library : string) (provider : Provider) (k : Prog A).
End Core.

Arguments PRet {_ A} a.
Arguments PMemory {_ A} k.
Arguments PMemoryMut {_ A} f k.
Arguments PCallFunction {_ A} name arguments span k.
Arguments PLibraryCall {_ A} library member arguments span k.
Arguments PWrite {_ A} text k.
Arguments PFlush {_ A} k.
Arguments PAllocateObject {_ A} class span k.
Arguments PLibraryAllocate {_ A} library class span k.
Arguments PLibraryRelease {_ A} v span k.
Arguments PLibraryTake {_ A} library k.
Arguments PLibraryInsert {_ A} library provider k.

(** [trait Provider], and the two answers of the platform that depend on the
    state: the native stack's address, and the order in which a [HashMap] of
    providers is visited (any order of its keys). *)
Class Seam `{World} := {
  p_call : Provider → string → list Value → Span → Prog (Provider * result Value);
  p_allocate : Provider → string → Span → Provider * option (result Value);
  p_release : Provider → Value → Span → Provider * option (result unit);
  p_retain : Provider → Value → Span → Provider * option (result unit);
  p_object_destroyed : Provider → Handle → Provider;
  stack_address : Core → Z;
  key_order : gmap string Provider → list string;
  key_order_keys : ∀ m k, k ∈ key_order m ↔ is_Some (m !! k);
}.

Abbreviation exec A := (st Diagnostic Core A).

Section Primitives.
Context `{World}.

Definition fetch {A} (f : Core → A) : exec A := fun c => (c, Ok (f c)).

(** ** Primitive accesses *)

(** [self.objects.get(handle, 0, span)?.fields] *)
Definition object_get (handle : Handle) (span : Span) : exec Instance :=
  reads (fun c => heap_get (objects c) handle 0 span).

(** Stores the instance that [self.objects.get_mut(handle, 0, span)?] gave. *)
Definition object_put (handle : Handle) (instance : Instance) (span : Span) : exec unit :=
  fun c => let '(h, r) := heap_set (objects c) handle 0 instance span in (with_objects h c, r).

Definition memory_len (handle : Handle) (span : Span) : exec Z :=
  reads (fun c => len (memory c) handle span).
Definition memory_get (handle : Handle) (index : Z) (span : Span) : exec Value :=
  reads (fun c => heap_get (memory c) handle index span).
Definition memory_set (handle : Handle) (index : Z) (v : Value) (span : Span) : exec unit :=
  fun c => let '(h, r) := heap_set (memory c) handle index v span in (with_memory h c, r).

Definition objects_remove (handle : Handle) : exec unit :=
  modify (fun c => with_objects (remove (objects c) handle).1 c).
Definition memory_remove (handle : Handle) : exec unit :=
  modify (fun c => with_memory (remove (memory c) handle).1 c).

(** [write!(self.output, "{text}")] with the executor's error. *)
Definition write_output (text : string) (span : Span) : exec unit := fun c =>
  let '(o, r) := write_text (output c) text in
  (with_output o c,
   match r with
   | None => Ok tt
   | Some error => runtime_error OUTPUT_ERROR ("cannot write output: " +:+ error) span
   end).

(** ** Objects of the counting core ([executor/ownership.rs]) *)

Definition id_of (handle : Handle) : ObjectId := from_parts (h_slot handle) (h_generation handle).
Definition handle_of (id : ObjectId) : Handle := mkHandle (id_index id) (id_generation id).

Definition site (span : Span) : Site :=
  mkSite (try_from_or 0 u32_MAX u32_MAX (line (span_start span)))
         (try_from_or 0 u32_MAX u32_MAX (column (span_start span))).

(** [impl Display for ArcError] *)
Definition show_arc_error (e : ArcError) : string :=
  match e with
  | NotAlive id => "ARC operation on object " +:+ show_id id +:+ ", which is not alive"
  end.

Definition arc_error {A} (error : ArcError) (span : Span) : result A :=
  runtime_error INVALID_IR (show_arc_error error) span.

(** [self.arc.operation(..).map_err(|error| arc_error(error, span))?] *)
Definition arc_run {A} (m : st ArcError ArcCore A) (span : Span) : exec A := fun c =>
  let '(a, r) := m (arc_core c) in
  (with_arc_core a c,
   match r with
   | Ok x => Ok x
   | Err e => arc_error e span
   | Panic w => Panic w
   | Fuel => Fuel
   end).

Definition register_allocation (class : string) (span : Span) : exec Handle :=
  id ← arc_run (register class 0 (site span)) span; mret (handle_of id).

Definition weak_read (v : Value) : exec Value :=
  fetch (fun c =>
    match v with
    | VObject handle _ => if alive (arc_core c) (id_of handle) then v else VNull
    | _ => v
    end).

(** [self.function_index]: the first position of each name. *)
Fixpoint function_positions (fs : list Function) (position : nat) (index : gmap string nat)
    : gmap string nat :=
  match fs with
  | [] => index
  | f :: fs =>
      function_positions fs (S position)
        (match index !! fn_name f with
         | Some _ => index
         | None => <[fn_name f := position]> index
         end)
  end.

Definition function_index : gmap string nat := function_positions (functions module) 0 ∅.
End Primitives.
