(* ===== verification/Places.v ===== *)
(** * Places: allocations, indices, members and field paths

    [crates/bn_interp/src/executor/part10.rs] (allocation, indexing),
    [part11.rs] (coercion to a declared type, members, field paths, sizes) and
    the reads of [ownership.rs].  A Rust place ([&mut Value]) is passed in and
    returned.  The theorems show that what is written through a chain of
    indices or a path of record fields is what is read back, and that nothing
    else of the value changes. *)

From S2P Require Import Prelude Text Diag Types ClassModel Civil Arc Heap Values Operators Ir Frames Machine.

#[local] Open Scope string_scope.
#[local] Open Scope Z_scope.

(** ** Indices *)

Definition STRING_INDEX_CONTEXT : string := "string".
Definition POINTER_LENGTH_HOST : string := "pointer length does not fit INTEGER".
Definition NULL_POINTER_INDEX : string := "cannot index a NULL pointer".
Definition HOST_ARGS_CONTEXT : string := "HOST.Args".

Definition checked_index (index length : Z) (context : string) (span : Span) : result Z :=
  match try_from 0 usize_MAX index with
  | Some i => if i <? length then Ok i else index_out_of_bounds index length context span
  | None => index_out_of_bounds index length context span
  end.

Definition string_character (text : string) (index : Z) (span : Span) : result Value :=
  if str_is_ascii text then
    i ← checked_index index (str_len text) STRING_INDEX_CONTEXT span;
    c ← expect "string slice" (slice text (Z.to_nat i) (S (Z.to_nat i)));
    Ok (VString c)
  else
    match position ← try_from 0 usize_MAX index; chars text !! Z.to_nat position with
    | Some character => Ok (VString character)
    | None => index_out_of_bounds index (chars_count text) STRING_INDEX_CONTEXT span
    end.

(** [vector[i]] after its bound was checked. *)
Definition element (items : list Value) (i : Z) : result Value :=
  expect "index out of bounds" (items !! Z.to_nat i).

Fixpoint indexed_value (v : Value) (indices : list Z) (span : Span) : result Value :=
  match indices with
  | [] => Ok v
  | index :: remaining =>
      match v with
      | VVector items =>
          i ← checked_index index (Z.of_nat (length items)) "vector" span;
          item ← element items i;
          indexed_value item remaining span
      | _ => type_mismatch "indexable value" "non-indexable value" "nested index operation" span
      end
  end.

(** [field_slot]: a slot is a [u32], so it fits [usize]. *)
Definition field_slot (field : option FieldRef) (span : Span) : result Z :=
  match field with
  | Some field => Ok (f_slot field)
  | None => runtime_error INVALID_IR "record/object member lacks a resolved field slot" span
  end.

(** [record.replace(slot, v).ok_or_else(..)?] *)
Definition record_store (fields : list Value) (slot : Z) (v : Value) (absent : result Value)
    (rebuild : list Value → Value) : result Value :=
  match record_replace fields slot v with
  | (fields, Some _) => Ok (rebuild fields)
  | (_, None) => absent
  end.

Fixpoint size_of_value (v : Value) (span : Span) {struct v} : result Value :=
  let total := fix total (acc : Z) (l : list Value) {struct l} : result Z :=
    match l with
    | [] => Ok acc
    | x :: l => size ← size_of_value x span; acc ← add_sizes acc size span; total acc l
    end in
  size ← (match v with
    | VInteger _ kind => Ok (integer_byte_size kind)
    | VFloat _ Float32 | VDate _ | VTime _ => Ok 4
    | VFloat _ Float64 => Ok 8
    | VBoolean _ => Ok 1
    | VString text => Ok (str_len text)
    | VVector items => total 0 items
    | VRecord _ fields => total 0 fields
    | _ => type_mismatch "sized value" "unsized value" "SIZE operation" span
    end);
  integer_from_u64 size span.

Section Places.
Context `{World} `{Allocator}.

(** ** Allocation *)

Definition objects_insert (handle : Handle) (instance : Instance) (span : Span) : exec unit :=
  fun c => let '(h, r) := insert (objects c) handle 1 instance span in (with_objects h c, r).

Definition memory_insert (handle : Handle) (count : Z) (initial : Value) (span : Span)
    : exec unit :=
  fun c => let '(h, r) := insert (memory c) handle count initial span in (with_memory h c, r).

Definition allocate_object (class : string) (span : Span) : exec Value :=
  let field_count := match field_layouts module !! class with
    | Some layout => length (l_fields layout)
    | None => 0%nat
    end in
  handle ← register_allocation class span;
  objects_insert handle (replicate field_count VNull) span ;;
  mret (VObject handle class).

(** The length a [NEW T[n]] asks for. *)
Definition region_count (arguments : list ValueId) (frame : Frame) (span : Span) : result Z :=
  match arguments with
  | argument :: _ =>
      count ← integer_at frame argument span;
      if count <? 0 then
        runtime_error ALLOCATION_SIZE_INVALID "numeric NEW length cannot be negative" span
      else
        match try_from 0 usize_MAX count with
        | Some count => Ok count
        | None =>
            runtime_error ALLOCATION_SIZE_OVERFLOW "allocation length does not fit the host" span
        end
  | [] => Ok 1
  end.

Definition allocate_region (element : BType) (arguments : list ValueId) (frame : Frame)
    (span : Span) : exec Value :=
  count ← lift (region_count arguments frame span);
  element_size ← lift (match pointer_element_size element with
    | Some size => Ok size
    | None => type_mismatch "numeric pointer element" "non-numeric type" "pointer allocation" span
    end);
  bytes ← lift (match u64_checked_mul count element_size with
    | Some bytes => Ok bytes
    | None => runtime_error ALLOCATION_SIZE_OVERFLOW "allocation byte size overflowed" span
    end);
  if isize_MAX <? bytes then
    lift (runtime_error ALLOCATION_TOO_LARGE "allocation exceeds the host limit" span)
  else
    initial ← lift (pointer_element_default element span);
    handle ← register_allocation (display_element element) span;
    memory_insert handle count initial span ;;
    mret (VPointer handle (default 0 (member_code element))).

(** ** Reads *)

Definition index_value (object : Value) (index : Z) (span : Span) : exec Value :=
  match object with
  | VNull => lift (runtime_error NULL_POINTER_ACCESS NULL_POINTER_INDEX span)
  | VVector items =>
      i ← lift (checked_index index (Z.of_nat (length items)) "vector" span);
      lift (element items i)
  | VPointer handle _ =>
      length ← memory_len handle span;
      i ← lift (checked_index index length "region" span);
      memory_get handle i span
  | VString text => lift (string_character text index span)
  | VHostArgs =>
      i ← lift (checked_index index (Z.of_nat (length host_arguments)) HOST_ARGS_CONTEXT span);
      a ← lift (expect "index out of bounds" (host_arguments !! Z.to_nat i));
      mret (VString a)
  | _ => lift (type_mismatch "indexable value" "non-indexable value" "index operation" span)
  end.

Definition element_at (target : Value) (indices : list Z) (span : Span) : exec Value :=
  match target, indices with
  | VNull, _ => mret VNull
  | VPointer _ _, [index] => index_value target index span
  | _, _ => lift (indexed_value target indices span)
  end.

Definition field_absent {A} (span : Span) : result A :=
  runtime_error INVALID_IR "field path slot is absent" span.

Fixpoint field_at (current : Value) (fields : list FieldRef) (span : Span) : exec Value :=
  match fields with
  | [] => mret current
  | field :: fields =>
      let slot := f_slot field in
      next ← (match current with
        | VRecord _ record => lift (match record_get record slot with
            | Some v => Ok v
            | None => field_absent span
            end)
        | VObject handle _ =>
            instance ← object_get handle span;
            lift (match instance !! Z.to_nat slot with Some v => Ok v | None => field_absent span end)
        | _ => lift (field_absent span)
        end);
      field_at next fields span
  end.

Definition member_of (object : Value) (name : string) (field : option FieldRef) (span : Span)
    : exec Value :=
  match object with
  | VError code message detail =>
      if String.eqb name "Code" then mret (VInteger code Int32)
      else if String.eqb name "Message" then mret (VString message)
      else if String.eqb name "Operation" || String.eqb name "Cause" then
        mret (VString (error_detail_field detail (String.eqb name "Cause")))
      else lift (name_not_found name "member lookup" span)
  | VRecord _ record =>
      match field with
      | None => lift (runtime_error INVALID_IR "record member lacks a field slot" span)
      | Some field =>
          lift (match record_get record (f_slot field) with
            | Some v => Ok v
            | None => name_not_found name "record member" span
            end)
      end
  | VObject handle _ =>
      instance ← object_get handle span;
      slot ← lift (field_slot field span);
      member ← lift (match instance !! Z.to_nat slot with
        | Some v => Ok v
        | None => name_not_found name "object member" span
        end);
      match field with
      | Some field => if field_is_weak module field then weak_read member else mret member
      | None => mret member
      end
  | _ => lift (name_not_found name "member lookup" span)
  end.

(** ** Writes *)

Fixpoint set_index (target : Value) (indices : list Z) (stored : Value) (span : Span)
    : exec Value :=
  match indices with
  | [] => mret stored
  | index :: remaining =>
      match target with
      | VNull => lift (runtime_error NULL_POINTER_ACCESS NULL_POINTER_INDEX span)
      | VPointer handle _ =>
          match remaining with
          | [] =>
              length ← memory_len handle span;
              i ← lift (checked_index index length "region" span);
              memory_set handle i stored span ;;
              mret target
          | _ =>
              lift (index_out_of_bounds (Z.of_nat (length remaining) + 1) 1 "pointer indexing" span)
          end
      | VVector items =>
          i ← lift (checked_index index (Z.of_nat (length items)) "vector" span);
          item ← lift (element items i);
          item ← set_index item remaining stored span;
          mret (VVector (<[Z.to_nat i := item]> items))
      | _ =>
          lift (type_mismatch "indexable value" "non-indexable value" "assignment index operation"
                  span)
      end
  end.

(** Stores into one slot of an object's instance, which may have changed since
    it was read. *)
Definition object_store (handle : Handle) (slot : exec Z) (name context : string) (stored : Value)
    (span : Span) : exec unit :=
  instance ← object_get handle span;
  slot ← slot;
  match instance !! Z.to_nat slot with
  | Some _ => object_put handle (<[Z.to_nat slot := stored]> instance) span
  | None => lift (name_not_found name context span)
  end.

(** One slot of an object's instance. *)
Definition object_load (handle : Handle) (slot : exec Z) (name context : string) (span : Span)
    : exec Value :=
  instance ← object_get handle span;
  slot ← slot;
  lift (match instance !! Z.to_nat slot with
    | Some v => Ok v
    | None => name_not_found name context span
    end).

Definition set_member_value (frame : Frame) (object : ValueId) (name : string)
    (field : option FieldRef) (stored : Value) (span : Span) : exec Frame :=
  match slots_get (values frame) object with
  | Some (VObject handle _) =>
      object_store handle (lift (field_slot field span)) name "object member" stored span ;;
      mret frame
  | Some (VRecord type_name record) =>
      field ← lift (match field with
        | Some field => Ok field
        | None => runtime_error INVALID_IR "record member store lacks a field slot" span
        end);
      v ← lift (record_store record (f_slot field) stored
                  (name_not_found name "record member" span) (VRecord type_name));
      mret (mkFrame (symbols frame) (slots_set (values frame) object v))
  | _ => lift (name_not_found name "member assignment" span)
  end.

Definition set_member_index_value (frame : Frame) (object : ValueId) (name : string)
    (field : option FieldRef) (indices : list Z) (stored : Value) (span : Span) : exec Frame :=
  match slots_get (values frame) object with
  | Some (VObject handle _) =>
      target ← object_load handle (lift (field_slot field span)) name "object member" span;
      target ← set_index target indices stored span;
      object_store handle (lift (field_slot field span)) name "object member" target span ;;
      mret frame
  | Some (VRecord type_name record) =>
      field ← lift (match field with
        | Some field => Ok field
        | None => runtime_error INVALID_IR "record member store lacks a field slot" span
        end);
      target ← lift (match record_get record (f_slot field) with
        | Some v => Ok v
        | None => name_not_found name "record member" span
        end);
      target ← set_index target indices stored span;
      v ← lift (record_store record (f_slot field) target
                  (runtime_error INVALID_IR "record field slot is absent" span)
                  (VRecord type_name));
      mret (mkFrame (symbols frame) (slots_set (values frame) object v))
  | _ => lift (name_not_found name "indexed member assignment" span)
  end.

Fixpoint set_field_index_path (target : Value) (path : list string) (fields : list FieldRef)
    (indices : list Z) (stored : Value) (span : Span) : exec Value :=
  match path, fields with
  | [], _ => set_index target indices stored span
  | _ :: _, [] => lift (runtime_error INVALID_IR "field path lacks a resolved slot" span)
  | name :: rest, field :: remaining_fields =>
      let slot := f_slot field in
      match target with
      | VRecord type_name record =>
          nested ← lift (match record_get record slot with
            | Some v => Ok v
            | None => name_not_found name "nested record member" span
            end);
          nested ← set_field_index_path nested rest remaining_fields indices stored span;
          lift (record_store record slot nested
                  (runtime_error INVALID_IR "record field slot is absent" span)
                  (VRecord type_name))
      | VObject handle _ =>
          nested ← object_load handle (mret slot) name "nested object member" span;
          nested ← set_field_index_path nested rest remaining_fields indices stored span;
          object_store handle (mret slot) name "nested object member" nested span ;;
          mret target
      | _ =>
          lift (type_mismatch "record or object" "value without fields" "field index assignment"
                  span)
      end
  end.

Fixpoint set_field_path (target : Value) (path : list string) (fields : list FieldRef)
    (stored : Value) (span : Span) : exec Value :=
  match path, fields with
  | [], _ => mret stored
  | _ :: _, [] => lift (runtime_error INVALID_IR "field path lacks a resolved slot" span)
  | name :: rest, field :: remaining_fields =>
      let slot := f_slot field in
      match target with
      | VRecord type_name record =>
          match rest with
          | [] =>
              lift (record_store record slot stored
                      (runtime_error INVALID_IR "record field slot is absent" span)
                      (VRecord type_name))
          | _ =>
              nested ← lift (match record_get record slot with
                | Some v => Ok v
                | None => name_not_found name "nested record member" span
                end);
              nested ← set_field_path nested rest remaining_fields stored span;
              lift (record_store record slot nested
                      (runtime_error INVALID_IR "record field slot is absent" span)
                      (VRecord type_name))
          end
      | VObject handle _ =>
          match rest with
          | [] => object_store handle (mret slot) name "object member" stored span ;; mret target
          | _ =>
              nested ← object_load handle (mret slot) name "nested object member" span;
              nested ← set_field_path nested rest remaining_fields stored span;
              object_store handle (mret slot) name "nested object member" nested span ;;
              mret target
          end
      | _ =>
          lift (type_mismatch "record or object" "value without fields" "field assignment" span)
      end
  end.

(** ** Storing into a declared type *)

Definition is_void_pointee (element : BType) : bool :=
  match element with TNamed name => String.eqb name "VOID" | _ => false end.

(** The element type and length a pointer must have to be stored. *)
Definition check_pointer (handle : Handle) (code : Z) (target : BType) (length : PointerLength)
    (span : Span) : exec unit :=
  let to_code := default 0 (member_code target) in
  n ← memory_len handle span;
  actual_len ← lift (match try_from 0 u64_MAX n with
    | Some n => Ok n
    | None => runtime_error POINTER_LENGTH_MISMATCH POINTER_LENGTH_HOST span
    end);
  let to_len := match length with
    | PLFixed expected => Some expected
    | PLOne => Some 1
    | PLDynamic => None
    end in
  lift (match check_restore code actual_len to_code to_len with
    | RestoreOk => Ok tt
    | TypeMismatch =>
        runtime_error POINTER_TYPE_MISMATCH
          "pointer element type does not match destination type" span
    | LengthMismatch =>
        runtime_error POINTER_LENGTH_MISMATCH
          ("pointer length " +:+ dec_of_Z actual_len +:+ " does not match "
           +:+ dec_of_Z (default actual_len to_len)) span
    end).

Definition coerce_to (v : Value) (ty : BType) (span : Span) : exec Value :=
  match ty with
  | TUnknown => mret v
  | _ =>
      (match v, ty with
       | VPointer handle code, TPointer target length =>
           if is_void_pointee target then mret tt else check_pointer handle code target length span
       | _, _ => mret tt
       end) ;;
      lift (coerce v ty span)
  end.

(** [empty_named_value]: names the language represents as scalars first. *)
Definition empty_named_value (ir_name : string) : Value :=
  if bool_decide (ir_name ∈ ["DATE"; "TIME"; "TIMEZONE"; "VOID"; "Error"]) then
    empty_named ir_name
  else
    match field_layouts module !! ir_name with
    | None => empty_named ir_name
    | Some layout => VRecord ir_name (replicate (length (l_fields layout)) VNull)
    end.
End Places.

(** ** Indices read back *)

Section Index_specs.
Context `{World} `{Allocator}.

Lemma checked_index_Ok index length context span i :
  checked_index index length context span = Ok i →
  i = index ∧ 0 ≤ index < length.
Proof.
  unfold checked_index, try_from. destruct (in_range 0 usize_MAX index) eqn:E; [|discriminate].
  apply in_range_spec in E. destruct (index <? length) eqn:E2; [|discriminate].
  intros [= <-]. z_bools. lia.
Qed.

Lemma element_Ok items i v : element items i = Ok v ↔ items !! Z.to_nat i = Some v.
Proof. unfold element. apply expect_Ok. Qed.

Lemma indexed_cons v index rest span w :
  indexed_value v (index :: rest) span = Ok w →
  ∃ items item, v = VVector items ∧ 0 ≤ index < Z.of_nat (length items)
    ∧ checked_index index (Z.of_nat (length items)) "vector" span = Ok index
    ∧ items !! Z.to_nat index = Some item ∧ indexed_value item rest span = Ok w.
Proof.
  simpl. destruct v; try discriminate. intros Hok. inv_ok.
  pose proof (checked_index_Ok _ _ _ _ _ Ha) as [-> Hr]. apply element_Ok in Ha0.
  eexists _, _. done.
Qed.

(** The paths part before either ends. *)
Definition diverge (p q : list Z) : Prop := ¬ p `prefix_of` q ∧ ¬ q `prefix_of` p.

Lemma diverge_cons x p y q : diverge (x :: p) (y :: q) → x ≠ y ∨ (x = y ∧ diverge p q).
Proof.
  intros [H1 H2]. destruct (decide (x = y)) as [->|]; [right | by left].
  split; [done|]. split; intros [k Hk]; [apply H1 | apply H2]; exists k; simpl; by rewrite Hk.
Qed.

(** [SET v[i][j] = x] on vectors, at any depth: the element reads back, every
    element off the path is untouched, and no other state changes. *)
Theorem set_index_vector (target stored old : Value) (indices : list Z) (span : Span) (c : Core)
    (Hpath : indexed_value target indices span = Ok old) :
  ∃ target', set_index target indices stored span c = (c, Ok target')
    ∧ indexed_value target' indices span = Ok stored
    ∧ ∀ other, diverge indices other →
        indexed_value target' other span = indexed_value target other span.
Proof.
  revert target Hpath. induction indices as [|index rest IH]; intros target Hpath.
  - exists stored. split; [done|]. split; [done|]. intros other [Hp _]. by destruct Hp; apply prefix_nil.
  - apply indexed_cons in Hpath as (items & item & -> & Hr & Hci & Hitem & Hrest).
    destruct (IH item Hrest) as (item' & Hset & Hread & Hother).
    assert (Z.to_nat index < length items)%nat as Hlt by lia.
    exists (VVector (<[Z.to_nat index := item']> items)). split; [|split].
    + simpl. unfold mbind, st_bind, lift. rewrite Hci. unfold element. rewrite Hitem. simpl.
      by rewrite Hset.
    + simpl. rewrite length_insert, Hci. simpl. unfold element.
      by rewrite list_lookup_insert_eq by done.
    + intros [|o other] Hdiv; [by destruct Hdiv as [_ []]; apply prefix_nil|].
      simpl. rewrite length_insert.
      destruct (checked_index o (Z.of_nat (length items)) "vector" span) as [i|e|w|] eqn:Eo; simpl; try done.
      apply checked_index_Ok in Eo as [-> Hor].
      apply diverge_cons in Hdiv as [Hne|[<- Hdiv]].
      * unfold element. by rewrite list_lookup_insert_ne by lia.
      * unfold element. rewrite list_lookup_insert_eq by done. rewrite Hitem. simpl. by apply Hother.
Qed.

(** ** Field paths read back *)

(** The objects a field path goes through, from the root. *)
Fixpoint path_objects (c : Core) (v : Value) (fields : list FieldRef) (span : Span)
    : list Handle :=
  match fields with
  | [] => []
  | field :: rest =>
      match v with
      | VRecord _ record =>
          match record_get record (f_slot field) with
          | Some v => path_objects c v rest span
          | None => []
          end
      | VObject handle _ =>
          handle ::
          match heap_get (objects c) handle 0 span with
          | Ok instance =>
              match instance !! Z.to_nat (f_slot field) with
              | Some v => path_objects c v rest span
              | None => []
              end
          | _ => []
          end
      | _ => []
      end
  end.

Lemma field_at_agree v fields span (c1 c2 : Core) :
  (∀ h, h ∈ path_objects c1 v fields span →
     heap_get (objects c2) h 0 span = heap_get (objects c1) h 0 span) →
  (field_at v fields span c2).2 = (field_at v fields span c1).2
  ∧ path_objects c2 v fields span = path_objects c1 v fields span.
Proof.
  revert v. induction fields as [|f fields IH]; intros v Hag; [done|].
  destruct v; try done; simpl in *.
  - unfold mbind, st_bind, lift. destruct (record_get fields0 (f_slot f)) as [w|]; [|done]. by apply IH.
  - unfold mbind, st_bind, object_get, reads, lift.
    rewrite (Hag handle) by apply list_elem_of_here.
    destruct (heap_get (objects c1) handle 0 span) as [inst|e|w|]; try done.
    destruct (inst !! Z.to_nat (f_slot f)) as [w|]; [|done].
    destruct (IH w) as [E1 E2]; [intros h Hh; apply Hag; by apply list_elem_of_further|].
    by rewrite E1, E2.
Qed.

(** What writing one field of an object does to the heap of objects. *)
Lemma object_store_spec handle (slot : FieldSlot) name context v span (c : Core) inst old :
  0 ≤ h_slot handle → heap_get (objects c) handle 0 span = Ok inst →
  inst !! Z.to_nat slot = Some old →
  ∃ h, object_store handle (mret slot) name context v span c = (with_objects h c, Ok tt)
    ∧ ∀ other, 0 ≤ h_slot other → heap_get h other 0 span =
        if decide (other = handle) then Ok (<[Z.to_nat slot := v]> inst)
        else heap_get (objects c) other 0 span.
Proof.
  intros Hs Hget Hold. unfold object_store, object_get, reads, mbind, st_bind, mret, st_ret.
  rewrite Hget, Hold. unfold object_put.
  pose proof (λ other Ho, set_reads (objects c) handle other 0 0 (<[Z.to_nat slot := v]> inst) span
    Hs Ho (Z.le_refl 0) (Z.le_refl 0)) as Hset.
  destruct (heap_set (objects c) handle 0 (<[Z.to_nat slot := v]> inst) span) as [h [[]|e|w|]] eqn:E.
  - exists h. split; [done|]. intros other Ho. rewrite (Hset other Ho).
    destruct (decide (other = handle)) as [->|Hne].
    + by rewrite decide_True.
    + rewrite decide_False; [done|]. by intros [? _].
  - unfold heap_set, heap_get in *. destruct (payload (objects c) handle span) as [p|e'|w|]; try discriminate.
    simpl in Hget. destruct (p !! Z.to_nat 0); discriminate.
  - unfold heap_set, heap_get in *. destruct (payload (objects c) handle span) as [p|e'|w'|]; try discriminate.
    simpl in Hget. destruct (p !! Z.to_nat 0); discriminate.
  - unfold heap_set, heap_get in *. destruct (payload (objects c) handle span) as [p|e'|w'|]; try discriminate.
    simpl in Hget. destruct (p !! Z.to_nat 0); discriminate.
Qed.

Lemma record_load_store type_name record slot old v absent :
  record_get record slot = Some old →
  record_store record slot v absent (VRecord type_name)
    = Ok (VRecord type_name (<[Z.to_nat slot := v]> record))
  ∧ record_get (<[Z.to_nat slot := v]> record) slot = Some v.
Proof.
  unfold record_store, record_replace, record_get. intros Hg. rewrite Hg. split; [done|].
  apply list_lookup_insert_eq. by eapply lookup_lt_Some.
Qed.

Lemma object_load_spec handle (slot : FieldSlot) name context span (c : Core) inst v :
  heap_get (objects c) handle 0 span = Ok inst → inst !! Z.to_nat slot = Some v →
  object_load handle (mret slot) name context span c = (c, Ok v).
Proof.
  intros Hget Hv. unfold object_load, object_get, reads, mbind, st_bind, mret, st_ret, lift.
  by rewrite Hget, Hv.
Qed.

Lemma set_field_path_record type_name record name name' path f fields stored span :
  set_field_path (VRecord type_name record) (name :: name' :: path) (f :: fields) stored span =
  (nested ← lift (match record_get record (f_slot f) with
     | Some v => Ok v
     | None => name_not_found name "nested record member" span
     end);
   nested ← set_field_path nested (name' :: path) fields stored span;
   lift (record_store record (f_slot f) nested
           (runtime_error INVALID_IR "record field slot is absent" span) (VRecord type_name))).
Proof. reflexivity. Qed.

Lemma set_field_path_object handle class name name' path f fields stored span :
  set_field_path (VObject handle class) (name :: name' :: path) (f :: fields) stored span =
  (nested ← object_load handle (mret (f_slot f)) name "nested object member" span;
   nested ← set_field_path nested (name' :: path) fields stored span;
   object_store handle (mret (f_slot f)) name "nested object member" nested span ;;
   mret (VObject handle class)).
Proof. reflexivity. Qed.

(** Everything [set_field_path] promises, in the form its induction needs. *)
Definition path_written (target stored : Value) (path : list string) (fields : list FieldRef)
    (span : Span) (c : Core) : Prop :=
  ∃ h target', set_field_path target path fields stored span c = (with_objects h c, Ok target')
    ∧ (field_at target' fields span (with_objects h c)).2 = Ok stored
    ∧ path_objects (with_objects h c) target' fields span = path_objects c target fields span
    ∧ ∀ other, 0 ≤ h_slot other → other ∉ path_objects c target fields span →
        heap_get h other 0 span = heap_get (objects c) other 0 span.

Lemma path_written_record type_name record name path f fields stored span c v :
  record_get record (f_slot f) = Some v →
  path ≠ [] → path_written v stored path fields span c →
  path_written (VRecord type_name record) stored (name :: path) (f :: fields) span c.
Proof.
  intros Hv Hne (h & v' & Hset & Hread & Hpath & Hother). exists h.
  destruct (record_load_store type_name record (f_slot f) v v'
    (runtime_error INVALID_IR "record field slot is absent" span) Hv) as [Hst Hld].
  exists (VRecord type_name (<[Z.to_nat (f_slot f) := v']> record)).
  destruct path as [|name' path]; [done|].
  split; [|split; [|split]].
  - rewrite set_field_path_record. unfold mbind, st_bind, lift. rewrite Hv, Hset. by rewrite Hst.
  - simpl. unfold mbind, st_bind, lift. by rewrite Hld.
  - simpl. by rewrite Hld, Hv.
  - simpl. by rewrite Hv.
Qed.

Lemma path_written_object handle class inst name path f fields stored span c v :
  0 ≤ h_slot handle → (∀ o, o ∈ path_objects c v fields span → 0 ≤ h_slot o) →
  heap_get (objects c) handle 0 span = Ok inst → inst !! Z.to_nat (f_slot f) = Some v →
  path ≠ [] → handle ∉ path_objects c v fields span →
  path_written v stored path fields span c →
  path_written (VObject handle class) stored (name :: path) (f :: fields) span c.
Proof.
  intros Hs Hpos Hget Hv Hne Hnotin (h & v' & Hset & Hread & Hpath & Hother).
  assert (heap_get h handle 0 span = Ok inst) as Hget1 by (by rewrite Hother).
  destruct (object_store_spec handle (f_slot f) name "nested object member" v' span
    (with_objects h c) inst v Hs Hget1 Hv) as (h2 & Hst & Hh2). cbn [objects with_objects] in Hh2.
  change (with_objects h2 (with_objects h c)) with (with_objects h2 c) in Hst.
  assert (heap_get h2 handle 0 span = Ok (<[Z.to_nat (f_slot f) := v']> inst)) as Hget2.
  { rewrite Hh2 by done. by rewrite decide_True. }
  assert (<[Z.to_nat (f_slot f) := v']> inst !! Z.to_nat (f_slot f) = Some v') as Hld.
  { apply list_lookup_insert_eq. by eapply lookup_lt_Some. }
  destruct (field_at_agree v' fields span (with_objects h c) (with_objects h2 c)) as [Eat Epath].
  { intros o Ho. cbn [objects with_objects]. rewrite Hpath in Ho.
    rewrite Hh2 by auto. rewrite decide_False; [done|]. by intros ->. }
  exists h2, (VObject handle class). destruct path as [|name' path]; [done|].
  split; [|split; [|split]].
  - rewrite set_field_path_object. unfold mbind, st_bind.
    rewrite (object_load_spec handle (f_slot f) name _ span c inst v Hget Hv), Hset.
    cbv beta iota. by rewrite Hst.
  - simpl. unfold mbind, st_bind, object_get, reads, lift. cbn [objects with_objects].
    rewrite Hget2, Hld. by rewrite Eat.
  - simpl. cbn [objects with_objects]. by rewrite Hget2, Hld, Hget, Hv, Epath, Hpath.
  - intros other Ho Hnot. simpl in Hnot. rewrite Hget, Hv in Hnot.
    apply not_elem_of_cons in Hnot as [Hne' Hnot].
    rewrite Hh2 by done. rewrite decide_False by done. by apply Hother.
Qed.

Lemma with_own_objects (c : Core) : with_objects (objects c) c = c.
Proof. by destruct c. Qed.

(** The last field of a path: the write itself. *)
Lemma path_written_leaf target old stored name f span c :
  (∀ o, o ∈ path_objects c target [f] span → 0 ≤ h_slot o) →
  (field_at target [f] span c).2 = Ok old →
  path_written target stored [name] [f] span c.
Proof.
  intros Hpos Hat. destruct target; try discriminate; simpl in Hat; unfold mbind, st_bind in Hat.
  - unfold lift in Hat. destruct (record_get fields (f_slot f)) as [v|] eqn:Hv; [|discriminate].
    destruct (record_load_store type_name fields (f_slot f) v stored
      (runtime_error INVALID_IR "record field slot is absent" span) Hv) as [Hst Hld].
    exists (objects c), (VRecord type_name (<[Z.to_nat (f_slot f) := stored]> fields)).
    rewrite with_own_objects. split; [|split; [|split]]; simpl.
    + unfold lift. by rewrite Hst.
    + unfold mbind, st_bind, lift. by rewrite Hld.
    + by rewrite Hld, Hv.
    + done.
  - unfold object_get, reads, lift in Hat.
    destruct (heap_get (objects c) handle 0 span) as [inst|e|w|] eqn:Hget; try discriminate.
    destruct (inst !! Z.to_nat (f_slot f)) as [v|] eqn:Hv; [|discriminate].
    assert (0 ≤ h_slot handle) as Hs.
    { apply Hpos. simpl. apply list_elem_of_here. }
    destruct (object_store_spec handle (f_slot f) name "object member" stored span c inst v Hs Hget Hv)
      as (h & Hst & Hh).
    assert (heap_get h handle 0 span = Ok (<[Z.to_nat (f_slot f) := stored]> inst)) as Hget2.
    { rewrite Hh by done. by rewrite decide_True. }
    assert (<[Z.to_nat (f_slot f) := stored]> inst !! Z.to_nat (f_slot f) = Some stored) as Hld.
    { apply list_lookup_insert_eq. by eapply lookup_lt_Some. }
    exists h, (VObject handle class). split; [|split; [|split]].
    + simpl. unfold mbind, st_bind. by rewrite Hst.
    + simpl. unfold mbind, st_bind, object_get, reads, lift. cbn [objects with_objects].
      by rewrite Hget2, Hld.
    + simpl. cbn [objects with_objects]. by rewrite Hget2, Hld, Hget, Hv.
    + intros other Ho Hnot. simpl in Hnot. rewrite Hget, Hv in Hnot.
      apply not_elem_of_cons in Hnot as [Hne _]. rewrite Hh by done. by rewrite decide_False.
Qed.

Lemma set_field_path_written fields : ∀ target old stored path span c,
  length path = length fields → fields ≠ [] →
  NoDup (path_objects c target fields span) →
  (∀ o, o ∈ path_objects c target fields span → 0 ≤ h_slot o) →
  (field_at target fields span c).2 = Ok old →
  path_written target stored path fields span c.
Proof.
  induction fields as [|f fields IH]; intros target old stored path span c Hlen Hne Hdup Hpos Hat; [done|].
  destruct path as [|name path]; [done|]. injection Hlen as Hlen.
  destruct fields as [|f' fields].
  - destruct path; [|done]. by apply (path_written_leaf target old).
  - assert (path ≠ []) as Hpne by (by destruct path).
    destruct target; try discriminate.
    + cbn [field_at] in Hat. unfold mbind at 1, st_bind at 1, lift at 1 in Hat.
      simpl in Hdup, Hpos.
      destruct (record_get fields0 (f_slot f)) as [v|] eqn:Hv; [|discriminate].
      apply (path_written_record _ _ _ _ _ _ _ _ _ v Hv Hpne). by apply (IH v old).
    + cbn [field_at] in Hat. unfold object_get, reads, lift, mbind, st_bind in Hat.
      cbn [path_objects] in Hdup, Hpos.
      destruct (heap_get (objects c) handle 0 span) as [inst|e|w|] eqn:Hget; try discriminate.
      destruct (inst !! Z.to_nat (f_slot f)) as [v|] eqn:Hv; [|discriminate].
      apply NoDup_cons_1_1 in Hdup as Hnotin. apply NoDup_cons_1_2 in Hdup.
      assert (∀ o, o ∈ path_objects c v (f' :: fields) span → 0 ≤ h_slot o) as Hpos'.
      { intros o Ho. apply Hpos. by apply list_elem_of_further. }
      apply (path_written_object handle class inst _ _ _ _ _ _ _ v); try done.
      * apply Hpos, list_elem_of_here.
      * by apply (IH v old).
Qed.

(** [SET a.f.g = x] along records and objects, when the path does not come back
    to an object it has left: the path then reads [x], and only objects of the
    path change. *)
Theorem set_field_path_reads (target old stored : Value) (path : list string)
    (fields : list FieldRef) (span : Span) (c : Core)
    (Hlen : length path = length fields) (Hne : fields ≠ [])
    (Hdup : NoDup (path_objects c target fields span))
    (Hpos : ∀ o, o ∈ path_objects c target fields span → 0 ≤ h_slot o)
    (Hat : (field_at target fields span c).2 = Ok old) :
  ∃ h target', set_field_path target path fields stored span c = (with_objects h c, Ok target')
    ∧ (field_at target' fields span (with_objects h c)).2 = Ok stored
    ∧ ∀ other, 0 ≤ h_slot other → other ∉ path_objects c target fields span →
        heap_get h other 0 span = heap_get (objects c) other 0 span.
Proof.
  destruct (set_field_path_written fields target old stored path span c Hlen Hne Hdup Hpos Hat)
    as (h & target' & H1 & H2 & _ & H3).
  by exists h, target'.
Qed.

(** When the path comes back to the object it starts from, the write is lost:
    for an object whose field refers to the object itself ([n.next] is [n]),
    [SET n.next.next = x] changes nothing. *)
Theorem set_field_path_alias_lost (handle : Handle) (class class' : string) (stored : Value)
    (names : string * string) (f : FieldRef) (span : Span) (c : Core) (inst : Instance)
    (Hs : 0 ≤ h_slot handle)
    (Hget : heap_get (objects c) handle 0 span = Ok inst)
    (Hself : inst !! Z.to_nat (f_slot f) = Some (VObject handle class')) :
  ∃ h, set_field_path (VObject handle class) [names.1; names.2] [f; f] stored span c
         = (with_objects h c, Ok (VObject handle class))
    ∧ ∀ other, 0 ≤ h_slot other →
        heap_get h other 0 span = heap_get (objects c) other 0 span.
Proof.
  destruct (object_store_spec handle (f_slot f) names.2 "object member" stored span c inst _ Hs Hget Hself)
    as (h1 & Hst1 & Hh1).
  assert (heap_get h1 handle 0 span = Ok (<[Z.to_nat (f_slot f) := stored]> inst)) as Hget1.
  { rewrite Hh1 by done. by rewrite decide_True. }
  assert (<[Z.to_nat (f_slot f) := stored]> inst !! Z.to_nat (f_slot f) = Some stored) as Hld.
  { apply list_lookup_insert_eq. by eapply lookup_lt_Some. }
  destruct (object_store_spec handle (f_slot f) names.1 "nested object member" (VObject handle class')
    span (with_objects h1 c) _ _ Hs Hget1 Hld) as (h2 & Hst2 & Hh2).
  cbn [objects with_objects] in Hh2.
  exists h2. split.
  - rewrite set_field_path_object. unfold mbind, st_bind.
    rewrite (object_load_spec handle (f_slot f) names.1 _ span c inst _ Hget Hself).
    cbn [set_field_path]. unfold mbind, st_bind. rewrite Hst1. cbv beta iota. unfold mret at 1, st_ret at 1.
    by rewrite Hst2.
  - intros other Ho. rewrite Hh2 by done. destruct (decide (other = handle)) as [->|Hno].
    + rewrite Hget. f_equal.
      exact (eq_trans (list_insert_insert_eq inst _ _ _) (list_insert_id inst _ _ Hself)).
    + rewrite Hh1 by done. by rewrite decide_False.
Qed.
End Index_specs.
