(* ===== verification/Providers.v ===== *)
(** * Providers: the seam between the executor and its libraries and host

    [crates/bn_interp/src/executor/part3.rs] (routing to a provider, which is
    taken out of its registry while it serves a call) and [part7.rs] (members
    of [HOST] the language serves itself).  [run_prog] answers the requests a
    provider makes while it serves a call, as [impl CoreContext for Executor]
    does. *)

From S2P Require Import Prelude Text Diag Types ClassModel Civil Arc Heap Values Operators Ir Frames Machine Places.

#[local] Open Scope string_scope.
#[local] Open Scope Z_scope.

(** The executor methods that call each other: a level of the machine is
    defined from the level below it. *)
Record Rec `{World} := mkRec {
  r_call : string → list Value → Span → exec Value;
  r_library_call : string → string → list Value → Span → exec Value;
  r_function : Function → list Value → exec Flow;
}.
Arguments mkRec {_} r_call r_library_call r_function.

Definition host_unavailable {A} (capability : string) (span : Span) : result A :=
  runtime_error HOST_CAPABILITY_UNAVAILABLE
    ("HOST." +:+ capability +:+ " is not provided by this host") span.

(** [#<module>.<member>] when the IR says a standard library provides the
    module. *)
Definition library_callee `{World} (name : string) : option (string * string) :=
  rest ← strip_prefix "#" name;
  '(id, member) ← split_once "." rest;
  id ← from_str_radix 0 u32_MAX 10 id;
  library ← standard_library_of module id;
  Some (library, member).

(** [HOST] members that are language surface ([part7.rs]). *)
Definition host_call `{World} (name : string) (arguments : list Value) (span : Span)
    : result Value :=
  if String.eqb name capability_num_procs then
    require_arity name arguments 0 span ;;
    match parallelism with
    | inl count =>
        match try_from i32_MIN i32_MAX count with
        | Some count => Ok (VInteger count Int32)
        | None =>
            Ok (error_report 1 capability_num_procs
                  "available processor count exceeds INTEGER range" msg_integer_overflow_cause)
        end
    | inr error =>
        Ok (error_report 1 capability_num_procs
              ("available processor count is unavailable: " +:+ error) error)
    end
  else
    runtime_error HOST_CAPABILITY_UNAVAILABLE
      ("host function '" +:+ name +:+ "' is not available") span.

(** The state one registry keeps, and how to write it back. *)
Definition Registry `{World} := gmap string Provider.

Section Providers.
Context `{World} `{!Seam} `{Allocator}.

(** ** Handles a provider owns *)

(** [NEW <class>()] on a named library; [None] when it has no such class. *)
Definition library_allocate_in (library class : string) (span : Span)
    : exec (option (result Value)) :=
  c ← get;
  match libraries c !! library with
  | None => mret None
  | Some provider =>
      let '(provider, result) := p_allocate provider class span in
      modify (with_libraries (<[library := provider]> (delete library (libraries c)))) ;;
      mret result
  end.

Definition library_allocate (type_name : string) (span : Span)
    : exec (option (result Value)) :=
  match library_callee type_name with
  | Some (library, class) => library_allocate_in library class span
  | None => mret None
  end.

Definition host_allocate (capability class : string) (span : Span) : exec Value :=
  c ← get;
  match hosts c !! capability with
  | None => lift (host_unavailable capability span)
  | Some provider =>
      let '(provider, result) := p_allocate provider class span in
      modify (with_hosts (<[capability := provider]> (delete capability (hosts c)))) ;;
      lift (match result with Some result => result | None => host_unavailable capability span end)
  end.

(** Asks the providers [keys] in turn until one claims the value; [missing] is
    what the caller does for a key without a provider. *)
Fixpoint ask_libraries (missing : exec unit)
    (ask : Provider → Provider * option (result unit)) (keys : list string)
    : exec (option (result unit)) :=
  match keys with
  | [] => mret None
  | key :: keys =>
      c ← get;
      match libraries c !! key with
      | None => missing ;; ask_libraries missing ask keys
      | Some provider =>
          let '(provider, result) := ask provider in
          modify (with_libraries (<[key := provider]> (delete key (libraries c)))) ;;
          match result with
          | Some result => mret (Some result)
          | None => ask_libraries missing ask keys
          end
      end
  end.

Definition library_release (v : Value) (span : Span) : exec (option (result unit)) :=
  c ← get;
  ask_libraries (lift (Panic msg_key_just_listed)) (fun p => p_release p v span)
    (key_order (libraries c)).

Definition library_retain (v : Value) (span : Span) : exec (option (result unit)) :=
  c ← get;
  ask_libraries (mret tt) (fun p => p_retain p v span) (key_order (libraries c)).

Fixpoint ask_hosts (ask : Provider → Provider * option (result unit)) (keys : list string)
    (span : Span) : exec unit :=
  match keys with
  | [] =>
      lift (runtime_error HOST_CAPABILITY_UNAVAILABLE msg_no_host_capability_owns_this_handle span)
  | key :: keys =>
      c ← get;
      match hosts c !! key with
      | None => lift (Panic msg_key_just_listed)
      | Some provider =>
          let '(provider, result) := ask provider in
          modify (with_hosts (<[key := provider]> (delete key (hosts c)))) ;;
          match result with
          | Some result => lift result
          | None => ask_hosts ask keys span
          end
      end
  end.

Definition host_retain (v : Value) (span : Span) : exec unit :=
  c ← get; ask_hosts (fun p => p_retain p v span) (key_order (hosts c)) span.

Definition host_release (v : Value) (span : Span) : exec unit :=
  c ← get; ask_hosts (fun p => p_release p v span) (key_order (hosts c)) span.

(** [for provider in self.libraries.values_mut()] *)
Definition notify_object_destroyed (handle : Handle) : exec unit :=
  modify (fun c => with_libraries ((fun p => p_object_destroyed p handle) <$> libraries c) c).

(** ** Serving a request ([impl CoreContext for Executor]) *)

(** Runs a request's answer, an [Err] included, as data. *)
Definition answer {A} (m : exec A) : exec (Answer A) :=
  r ← attempt m;
  match r with
  | Ok a => mret (inl a)
  | Err e => mret (inr e)
  | Panic w => lift (Panic w)
  | Fuel => lift Fuel
  end.

Definition answer_option {A} (m : exec (option (result A))) : exec (option (Answer A)) :=
  r ← m;
  match r with
  | None => mret None
  | Some r => a ← answer (lift r); mret (Some a)
  end.

Fixpoint run_prog (R : Rec) {A} (p : Prog A) : exec A :=
  match p with
  | PRet a => mret a
  | PMemory k => c ← get; run_prog R (k (memory c))
  | PMemoryMut f k => modify (fun c => with_memory (f (memory c)) c) ;; run_prog R k
  | PCallFunction name arguments span k =>
      a ← answer (r_call R name arguments span); run_prog R (k a)
  | PLibraryCall library member arguments span k =>
      a ← answer (r_library_call R library member arguments span); run_prog R (k a)
  | PWrite text k =>
      c ← get;
      let '(o, error) := write_text (output c) text in
      modify (with_output o) ;; run_prog R (k error)
  | PFlush k =>
      c ← get;
      let '(o, error) := flush (output c) in
      modify (with_output o) ;; run_prog R (k error)
  | PAllocateObject class span k =>
      a ← answer (allocate_object class span); run_prog R (k a)
  | PLibraryAllocate library class span k =>
      a ← answer_option (library_allocate_in library class span); run_prog R (k a)
  | PLibraryRelease v span k =>
      a ← answer_option (library_release v span); run_prog R (k a)
  | PLibraryTake library k =>
      c ← get;
      modify (with_libraries (delete library (libraries c))) ;;
      run_prog R (k (libraries c !! library))
  | PLibraryInsert library provider k =>
      modify (fun c => with_libraries (<[library := provider]> (libraries c)) c) ;;
      run_prog R k
  end.

(** ** Calls *)

Definition library_call (R : Rec) (library member : string) (arguments : list Value)
    (span : Span) : exec Value :=
  c ← get;
  match libraries c !! library with
  | None =>
      lift (runtime_error LIBRARY_PROVIDER_UNAVAILABLE (library +:+ " provider unavailable") span)
  | Some provider =>
      modify (with_libraries (delete library (libraries c))) ;;
      '(provider, result) ← run_prog R (p_call provider member arguments span);
      modify (fun c => with_libraries (<[library := provider]> (libraries c)) c) ;;
      lift result
  end.

Definition host_provider_call (R : Rec) (capability member : string) (arguments : list Value)
    (span : Span) : exec Value :=
  c ← get;
  match hosts c !! capability with
  | None => lift (host_unavailable capability span)
  | Some provider =>
      modify (with_hosts (delete capability (hosts c))) ;;
      '(provider, result) ← run_prog R (p_call provider member arguments span);
      modify (fun c => with_hosts (<[capability := provider]> (hosts c)) c) ;;
      lift result
  end.
End Providers.
