(* ===== verification/TemporalOps.v ===== *)
(** * TemporalOps: the temporal built-ins ([crates/bn_interp/src/temporal_ops.rs])

    [Date.Parse], [Timestamp.Format] and their kin as the executor calls them:
    the number and the kinds of the arguments are checked, then the calendar
    does the work.  The theorems show that formatting and parsing a timestamp
    are inverse through the calls a program makes. *)

From S2P Require Import Prelude Text Diag Types Civil Temporal TimeZone Heap Values Operators Frames.

#[local] Open Scope string_scope.
#[local] Open Scope Z_scope.

Definition temporal_builtins : list string :=
  ["Date.Parse"; "Time.Parse"; "TimeZone.Parse"; "TimeZone.Offset"; "TimeZone.IsDST";
   "Timestamp.Parse"; "Timestamp.Format"; "Timestamp.AtZone"; "Timestamp.FromLocal"].

Definition is_temporal_builtin (name : string) : bool :=
  existsb (String.eqb name) temporal_builtins.

Definition string_argument (arguments : list Value) (i : nat) (name : string) (span : Span)
    : result string :=
  v ← argument arguments i;
  match v with
  | VString text => Ok text
  | _ => type_mismatch "STRING" "non-STRING value" name span
  end.

Definition timezone_argument (arguments : list Value) (i : nat) (name : string) (span : Span)
    : result string :=
  v ← argument arguments i;
  match v with
  | VTimeZone tz => Ok tz
  | _ => type_mismatch "TIMEZONE" msg_non_timezone_value name span
  end.

Definition date_argument (arguments : list Value) (i : nat) (name : string) (span : Span)
    : result Z :=
  v ← argument arguments i;
  match v with
  | VDate days => Ok days
  | _ => type_mismatch "DATE" msg_non_date_value name span
  end.

Definition time_argument (arguments : list Value) (i : nat) (name : string) (span : Span)
    : result Z :=
  v ← argument arguments i;
  match v with
  | VTime millis => Ok millis
  | _ => type_mismatch "TIME" msg_non_time_value name span
  end.

(** An integer argument as [i64], or [FORMAT_OUT_OF_RANGE] with the text. *)
Definition timestamp_argument (arguments : list Value) (i : nat) (message : string) (span : Span)
    : result Z :=
  v ← argument arguments i;
  n ← integer v span;
  match try_from i64_MIN i64_MAX n.1 with
  | Some ts => Ok ts
  | None => runtime_error FORMAT_OUT_OF_RANGE message span
  end.

Definition temporal_call (name : string) (arguments : list Value) (span : Span) : result Value :=
  match name with
  | "Date.Parse" =>
      require_arity name arguments 1 span ;;
      text ← string_argument arguments 0 name span;
      days ← interp_parse_date text span;
      Ok (VDate days)
  | "Time.Parse" =>
      require_arity name arguments 1 span ;;
      text ← string_argument arguments 0 name span;
      millis ← interp_parse_time text span;
      Ok (VTime millis)
  | "TimeZone.Parse" =>
      require_arity name arguments 1 span ;;
      text ← string_argument arguments 0 name span;
      tz ← parse_timezone text span;
      Ok (VTimeZone tz)
  | "Timestamp.Parse" =>
      require_arity name arguments 1 span ;;
      text ← string_argument arguments 0 name span;
      ts ← interp_parse_rfc3339 text span;
      Ok (VInteger ts Int64)
  | "Timestamp.Format" =>
      require_arity name arguments 1 span ;;
      ts ← timestamp_argument arguments 0 "TIMESTAMP is outside 0001-01-01..9999-12-31" span;
      text ← format_rfc3339 ts span;
      Ok (VString text)
  | "TimeZone.Offset" =>
      require_arity name arguments 2 span ;;
      tz ← timezone_argument arguments 0 name span;
      ts ← timestamp_argument arguments 1 msg_timestamp_out_of_range span;
      offset ← interp_timezone_offset tz ts span;
      Ok (VInteger offset Int32)
  | "TimeZone.IsDST" =>
      require_arity name arguments 2 span ;;
      tz ← timezone_argument arguments 0 name span;
      ts ← timestamp_argument arguments 1 msg_timestamp_out_of_range span;
      is_dst ← interp_timezone_is_dst tz ts span;
      Ok (VBoolean is_dst)
  | "Timestamp.AtZone" =>
      require_arity name arguments 2 span ;;
      ts ← timestamp_argument arguments 0 msg_timestamp_out_of_range span;
      tz ← timezone_argument arguments 1 name span;
      formatted ← interp_format_at_zone ts tz span;
      Ok (VString formatted)
  | "Timestamp.FromLocal" =>
      require_arity name arguments 3 span ;;
      days ← date_argument arguments 0 name span;
      millis ← time_argument arguments 1 name span;
      tz ← timezone_argument arguments 2 name span;
      ts ← interp_timestamp_from_local days (try_from_or i32_MIN i32_MAX 0 millis) tz span;
      Ok (VInteger ts Int64)
  | _ => name_not_found name "temporal function" span
  end.

(** ** Theorems *)

(** A timestamp has a text when its day is in the calendar. *)
Lemma rfc3339_in_range ts text :
  i64_MIN ≤ ts ≤ i64_MAX → rfc3339 ts = Some text → in_range MIN_DAYS MAX_DAYS (ts / DAY_MS) = true.
Proof.
  intros Hi Ht. unfold rfc3339 in Ht. destruct (split_timestamp ts) as [[days millis]|] eqn:E; [|done].
  apply split_timestamp_Some in E as (Hd & Hm & Hts); [|done].
  replace (ts / DAY_MS) with days by (unfold DAY_MS in *; Z.to_euclidean_division_equations; lia).
  by apply in_range_spec.
Qed.

Lemma rfc3339_covers ts :
  i64_MIN ≤ ts ≤ i64_MAX → in_range MIN_DAYS MAX_DAYS (ts / DAY_MS) = true → ∃ text, rfc3339 ts = Some text.
Proof.
  intros Hi Hd. apply in_range_spec in Hd.
  assert (split_timestamp ts = Some (ts / DAY_MS, ts mod DAY_MS)) as E.
  { apply split_timestamp_Some; [done|]. split; [done|].
    unfold DAY_MS in *. Z.to_euclidean_division_equations. lia. }
  unfold rfc3339. rewrite E. by eexists.
Qed.

Lemma timestamp_argument_integer ts kind message span :
  timestamp_argument [VInteger ts kind] 0 message span =
  if in_range i64_MIN i64_MAX ts then Ok ts else runtime_error FORMAT_OUT_OF_RANGE message span.
Proof. unfold timestamp_argument, try_from. simpl. by destruct (in_range i64_MIN i64_MAX ts). Qed.

(** [Timestamp.Format] gives a text for exactly the timestamps of the calendar,
    and [Timestamp.Parse] reads each of those texts back as the timestamp. *)
Theorem format_parse_call (ts : Z) (kind : IntegerType) (span : Span) :
  if in_range i64_MIN i64_MAX ts && in_range MIN_DAYS MAX_DAYS (ts / DAY_MS) then
    ∃ text, temporal_call "Timestamp.Format" [VInteger ts kind] span = Ok (VString text)
      ∧ temporal_call "Timestamp.Parse" [VString text] span = Ok (VInteger ts Int64)
  else raises (temporal_call "Timestamp.Format" [VInteger ts kind] span) FORMAT_OUT_OF_RANGE span.
Proof.
  unfold temporal_call. simpl. rewrite timestamp_argument_integer.
  destruct (in_range i64_MIN i64_MAX ts) eqn:Hi; simpl; [|by split].
  apply in_range_spec in Hi. unfold format_rfc3339, interp_parse_rfc3339.
  destruct (rfc3339 ts) as [text|] eqn:Ht.
  - rewrite (rfc3339_in_range ts text Hi Ht). exists text. split; [done|].
    by rewrite (parse_rfc3339_format ts text Hi Ht).
  - destruct (in_range MIN_DAYS MAX_DAYS (ts / DAY_MS)) eqn:Hd; [|by split].
    apply (rfc3339_covers ts Hi) in Hd as [text Htext]. congruence.
Qed.
