(* ===== verification/Exec.v ===== *)
(** * Exec: calls, instructions and blocks

    The mutually recursive part of the executor:
    [crates/bn_interp/src/executor/part1.rs] (the block loop, class
    initialisation), [part2.rs] (one instruction), [part3.rs] (calls by name),
    [part10.rs] (dispatch), [part11.rs] (release, defaults), [ownership.rs]
    (retain, release, destruction), [arc_verifier.rs] and the entry points of
    [lib.rs].

    The methods call each other without bound.  Each is defined from a level
    [R] of the machine that serves the calls it makes; [machine] closes the
    loop, one level per unit of fuel, and the block loop has the same fuel. *)

From S2P Require Import Prelude Text Diag Types ClassModel Civil Arc Heap Values Operators Ir Frames Machine Places Providers TemporalOps.

#[local] Open Scope string_scope.
#[local] Open Scope Z_scope.

Section Exec.
Context `{World} `{!Seam} `{Allocator} `{Floats.Platform}.

(** ** Retain ([ownership.rs]) *)

Fixpoint retain_owned_value (v : Value) (span : Span) {struct v} : exec unit :=
  match v with
  | VObject handle _ | VPointer handle _ =>
      arc_run (retain (id_of handle) (site span)) span ;; mret tt
  | VVector items => each (fun v => retain_owned_value v span) items
  | VRecord _ fields => each (fun v => retain_owned_value v span) fields
  | VFile _ => host_retain v span
  | other =>
      r ← library_retain other span;
      lift (match r with Some r => r | None => Ok tt end)
  end.

(** ** Dispatch ([part10.rs], [helpers.rs]) *)

(** The class the innermost running constructor, destructor or field
    initialiser of an object pins its dispatch to. *)
Definition pinned_class (pinned : list (Handle * string)) (handle : Handle) : option string :=
  option_map snd (List.find (fun p : Handle * string => handle_eqb p.1 handle) pinned).

Definition dispatch_name (name : string) (arguments : list Value) (c : Core) : string :=
  match kind_of module name with
  | Some FieldInit | Some Constructor | Some Destructor | Some ReleaseFields => name
  | _ =>
      match arguments with
      | VObject handle class :: _ =>
          let method := rsplit_last "." name in
          let runtime_class := default class (pinned_class (pinned_dispatch c) handle) in
          default name (resolve_method module runtime_class method)
      | _ => name
      end
  end.

Definition lifecycle_dispatch (function : Function) (arguments : list Value)
    : option (Handle * string) :=
  match fn_kind function, arguments with
  | (Constructor | Destructor | FieldInit), VObject handle _ :: _ =>
      owner ← fn_owner function; Some (handle, owner)
  | _, _ => None
  end.

(** ** Calls by name ([part3.rs]) *)

(** [$stopping]: whether a STOP is pending; its code starts to unwind. *)
Definition intrinsic_stopping : exec Value :=
  c ← get;
  let code := stop_code c in
  modify (fun c => with_unwinding code (with_stop_code None c)) ;;
  mret (VBoolean (match code with Some _ => true | None => false end)).

Definition intrinsic_stop_code : exec Value :=
  c ← get;
  modify (with_unwinding None) ;;
  mret (VInteger (default 0 (unwinding c)) Int32).

Definition push_pinned (pinned : option (Handle * string)) : exec unit :=
  match pinned with
  | Some p => modify (fun c => with_pinned_dispatch (p :: pinned_dispatch c) c)
  | None => mret tt
  end.

Definition pop_pinned (pinned : option (Handle * string)) : exec unit :=
  match pinned with
  | Some _ => modify (fun c => with_pinned_dispatch (tail (pinned_dispatch c)) c)
  | None => mret tt
  end.

(** One call deeper, with the receiver's dispatch pinned; the result of the
    call is kept until the depth and the pin are restored. *)
Definition one_deeper {A} (pinned : option (Handle * string)) (m : exec A)
    : exec (res Diagnostic A) :=
  push_pinned pinned ;;
  modify (fun c => with_call_depth (call_depth c + 1) c) ;;
  result ← attempt m;
  modify (fun c => with_call_depth (Z.max 0 (call_depth c - 1)) c) ;;
  pop_pinned pinned ;;
  mret result.

(** The call of a function of the module, once its name is resolved. *)
Definition call_function (R : Rec) (callee : Function) (arguments : list Value) (span : Span)
    : exec Value :=
  c ← get;
  if stack_budget <? Z.abs (stack_base - stack_address c) then
    lift (stack_overflow (fn_name callee) span)
  else
    result ← one_deeper (lifecycle_dispatch callee arguments) (r_function R callee arguments);
    match result with
    | Ok (FReturn v) => mret (default VNull v)
    | Ok (FStop code) => modify (with_stop_code (Some code)) ;; mret VNull
    | Err e => lift (Err e)
    | Panic w => lift (Panic w)
    | Fuel => lift Fuel
    end.

(** The names below the intrinsics, the host and the libraries. *)
Definition call_resolved (R : Rec) (name : string) (arguments : list Value) (span : Span)
    : exec Value :=
  c ← get;
  let resolved := match strip_prefix SUPER_PREFIX name with
    | Some name => name
    | None => dispatch_name name arguments c
    end in
  match function_index !! resolved with
  | None => lift (name_not_found resolved "function dispatch" span)
  | Some index =>
      callee ← lift (expect "index out of bounds" (functions module !! index));
      call_function R callee arguments span
  end.

Definition is_plain_builtin (name : string) : bool :=
  existsb (String.eqb name) ["ASC"; "CHAR"; "TOLOWER"; "TOUPPER"; FOR_CONDITION; FOR_FITS].

Definition call_host_name (R : Rec) (name rest : string) (arguments : list Value) (span : Span)
    : exec Value :=
  c ← get;
  match split_once "." rest with
  | Some (capability, member) =>
      match hosts c !! capability with
      | Some _ => host_provider_call R capability member arguments span
      | None => lift (host_call name arguments span)
      end
  | None => lift (host_call name arguments span)
  end.

Definition call_named (R : Rec) (name : string) (arguments : list Value) (span : Span)
    : exec Value :=
  if String.eqb name STOPPING then intrinsic_stopping
  else if String.eqb name STOP_CODE then intrinsic_stop_code
  else if is_plain_builtin name then lift (builtin name arguments span)
  else
    match strip_prefix "HOST." name with
    | Some rest => call_host_name R name rest arguments span
    | None =>
        if is_host_file_method name then
          host_provider_call R "FileSystem" ("File." +:+ rsplit_last "." name) arguments span
        else
          match library_callee name, function_index !! name with
          | Some (library, member), None => library_call R library member arguments span
          | _, _ =>
              if is_temporal_builtin name then lift (temporal_call name arguments span)
              else call_resolved R name arguments span
          end
    end.

(** ** Release ([ownership.rs], [part11.rs]) *)

(** One step of a destruction: the function the class has of a kind. *)
Definition destroy_step (R : Rec) (kind : FunctionKind) (target : Value) (class : string)
    (span : Span) : exec (res Diagnostic unit) :=
  match function_of_kind module kind class with
  | Some function =>
      attempt (r_call R (fn_name function) [target] span ;; mret tt)
  | None => mret (Ok tt)
  end.

Definition destroy_object (R : Rec) (handle : Handle) (class : string) (span : Span)
    : exec unit :=
  let target := VObject handle class in
  destructor ← destroy_step R Destructor target class span;
  notify_object_destroyed handle ;;
  fields ← destroy_step R ReleaseFields target class span;
  objects_remove handle ;;
  arc_run (finish_destroy (id_of handle)) span ;;
  lift (destructor ;; fields).

Fixpoint release_owned_value (R : Rec) (v : Value) (span : Span) {struct v} : exec unit :=
  match v with
  | VObject handle class =>
      last ← arc_run (release (id_of handle) (site span)) span;
      if last : bool then destroy_object R handle class span else mret tt
  | VPointer handle _ =>
      last ← arc_run (release (id_of handle) (site span)) span;
      if last : bool then
        memory_remove handle ;; arc_run (finish_destroy (id_of handle)) span
      else mret tt
  | VVector items => each (fun v => release_owned_value R v span) items
  | VRecord _ fields => each_rev (fun v => release_owned_value R v span) fields
  | _ => mret tt
  end.

(** Whether a library may own the value: it has no field layout, or no place
    in the heaps at all. *)
Definition is_native (target : Value) : bool :=
  match target with
  | VObject _ class => match field_layouts module !! class with Some _ => false | None => true end
  | VPointer _ _ | VVector _ | VRecord _ _ => false
  | _ => true
  end.

Definition release_value (R : Rec) (target : Value) (span : Span) : exec unit :=
  match target with
  | VFile _ => host_release target span
  | _ =>
      released ← (if is_native target then library_release target span else mret None);
      match released with
      | Some released => lift released
      | None => release_owned_value R target span
      end
  end.

(** ** Defaults ([part11.rs]) *)

Definition default_named (R : Rec) (ir_name : string) (span : Span) : exec Value :=
  match function_of_kind module Default ir_name with
  | Some function => r_call R (fn_name function) [] span
  | None => mret (empty_named_value ir_name)
  end.

(** [dimensions.iter().try_fold(size, checked_mul)] *)
Fixpoint checked_total (size : Z) (dimensions : list Z) : option Z :=
  match dimensions with
  | [] => Some size
  | length :: dimensions => size ← u64_checked_mul size length; checked_total size dimensions
  end.

Definition total_fits (size : option Z) : bool :=
  match size with Some size => size <=? isize_MAX | None => false end.

(** Nests the value once per dimension, the last one innermost. *)
Definition fill_dimensions (dimensions : list Z) (v : Value) : Value :=
  fold_right (fun length v => VVector (replicate (Z.to_nat length) v)) v dimensions.

Fixpoint default_value (R : Rec) (ty : BType) (dimensions : list Z) (span : Span) {struct ty}
    : exec Value :=
  match ty with
  | TBoolean => mret (VBoolean false)
  | TInteger kind => mret (VInteger 0 kind)
  | TFloat kind => mret (VFloat Floats.f64_zero kind)
  | TString => mret (VString "")
  | TVector element declared_dimensions =>
      let dimensions := match dimensions with [] => declared_dimensions | _ => dimensions end in
      match dimensions with
      | [] => lift (runtime_error INVALID_IR "vector default is missing its dimension" span)
      | _ =>
          let element_size := default 1 (static_size_of element) in
          if negb (total_fits (checked_total element_size dimensions)) then
            lift (runtime_error NUMERIC_OVERFLOW "vector allocation size overflowed" span)
          else
            v ← (match default_function_owner element with
                 | Some name => default_named R name span
                 | None => default_value R element [] span
                 end);
            mret (fill_dimensions dimensions v)
      end
  | TAlternative types =>
      match types with
      | TNull :: _ => mret VNull
      | TNotAvailable :: _ => mret VNotAvailable
      | TEndOfFile :: _ => mret VEndOfFile
      | first :: _ => default_value R first dimensions span
      | [] => lift (runtime_error INVALID_IR "empty alternative type" span)
      end
  | TNamed name | TTypeName name => mret (empty_named_value name)
  | TImportedNamed id name | TImportedTypeName id name =>
      mret (empty_named_value (imported_name id name))
  | THostClock => mret (VType "HOST.Clock")
  | THostRandom => mret (VType "HOST.Random")
  | THostFileSystem => mret (VType "HOST.FileSystem")
  | THostNet => mret (VType "HOST.Net")
  | THostExec => mret (VType "HOST.Exec")
  | THostEnv => mret (VType "HOST.Env")
  | _ => lift (runtime_error UNINITIALIZED_VALUE "type has no default value" span)
  end.

(** ** Instructions ([part2.rs])

    One definition per group of arms; each returns the frame after it.  The
    value slots and bindings of a call that fails are dropped, so an error
    carries no frame. *)

(** [indices.iter().map(|index| integer(value(..)?)?.0).collect()] *)
Definition integers_at (frame : Frame) (indices : list ValueId) (span : Span)
    : result (list Z) :=
  mapR (fun index => integer_at frame index span) indices.

Definition values_at (frame : Frame) (ids : list ValueId) (span : Span) : result (list Value) :=
  mapR (fun id => value frame id span) ids.

(** [self.coerce_to(value(values, *source, *span)?.clone(), ty, *span)?] *)
Definition coerced_at (frame : Frame) (source : ValueId) (ty : BType) (span : Span)
    : exec Value :=
  v ← lift (value frame source span); coerce_to v ty span.

Definition binding (frame : Frame) (symbol : SymbolId) (span : Span) : result Value :=
  match symbols frame !! symbol with
  | Some v => Ok v
  | None => runtime_error UNINITIALIZED_VALUE "binding has no value" span
  end.

Definition resolved_fields (fields : option (list FieldRef)) (span : Span)
    : result (list FieldRef) :=
  match fields with
  | Some fields => Ok fields
  | None => runtime_error INVALID_IR "field path store lacks resolved fields" span
  end.

(** The replaced value, read only when the IR asks for it. *)
Definition when_previous (previous : option ValueId) (read : exec Value) : exec (option Value) :=
  match previous with
  | Some _ => v ← read; mret (Some v)
  | None => mret None
  end.

Definition store_previous (frame : Frame) (previous : option ValueId) (replaced : option Value)
    : Frame :=
  match previous, replaced with
  | Some previous, Some replaced => set frame previous replaced
  | _, _ => frame
  end.

(** [self.ownership_frames.last_mut().expect(..)] *)
Definition ownership_frame : exec OwnershipFrame :=
  c ← get;
  match ownership_frames c with
  | frame :: _ => mret frame
  | [] => lift (Panic "instruction executes in an ownership frame")
  end.

Definition put_ownership_frame (frame : OwnershipFrame) : exec unit :=
  modify (fun c => with_ownership_frames (frame :: tail (ownership_frames c)) c).

(** A top-level binding of a session, captured as it changes. *)
Definition capture (f : Symbols → Symbols) : exec unit :=
  modify (fun c =>
    if call_depth c =? 0 then
      with_session_captured_symbols (option_map f (session_captured_symbols c)) c
    else c).

Definition i_retain (destination source : ValueId) (span : Span) (frame : Frame) : exec Frame :=
  retained ← lift (value frame source span);
  retain_owned_value retained span ;;
  mret (set frame destination retained).

Definition i_take (destination : ValueId) (symbol : SymbolId) (frame : Frame) : exec Frame :=
  let taken := default VNull (symbols frame !! symbol) in
  mret (set (set_symbols frame (delete symbol (symbols frame))) destination taken).

Definition i_take_member (destination object : ValueId) (field : option FieldRef) (name : string)
    (span : Span) (frame : Frame) : exec Frame :=
  v ← lift (value frame object span);
  match v with
  | VObject handle _ =>
      slot ← lift (field_slot field span);
      taken ← object_load handle (mret slot) name "object member" span;
      object_store handle (mret slot) name "object member" VNull span ;;
      mret (set frame destination taken)
  | _ => lift (runtime_error INVALID_IR "TakeMember needs an object" span)
  end.

Definition i_end_binding (symbol : SymbolId) (span : Span) (frame : Frame) : exec Frame :=
  owner ← ownership_frame;
  put_ownership_frame
    (mkOwnershipFrame ({[symbol]} ∪ released_symbols owner) (weak_symbols owner)) ;;
  if is_released owner symbol then
    lift (runtime_error DOUBLE_RELEASE "binding was already released" span)
  else capture (delete symbol) ;; mret frame.

Definition i_constant (destination : ValueId) (constant : Constant) (ty : BType) (span : Span)
    (frame : Frame) : exec Frame :=
  match slots_get (values frame) destination with
  | Some _ => mret frame
  | None => v ← lift (constant_value constant ty span); mret (set frame destination v)
  end.

Definition dynamic_dimension (frame : Frame) (span : Span) (dimension : ValueId) : result Z :=
  v ← (match slots_get (values frame) dimension with
       | Some v => Ok v
       | None => runtime_error UNINITIALIZED_VALUE "vector dimension is unavailable" span
       end);
  n ← integer v span;
  match try_from 0 usize_MAX n.1 with
  | Some n => Ok n
  | None =>
      runtime_error (if n.1 <? 0 then INVALID_VECTOR_DIMENSION else NUMERIC_OVERFLOW)
        "vector dimension must be a non-negative size" span
  end.

Definition i_default (R : Rec) (destination : ValueId) (ty : BType) (dimensions : list Z)
    (dynamic_dimensions : list ValueId) (span : Span) (frame : Frame) : exec Frame :=
  evaluated ← lift (mapR (dynamic_dimension frame span) dynamic_dimensions);
  v ← default_value R ty (dimensions ++ evaluated)%list span;
  mret (set frame destination v).

Definition i_load (destination : ValueId) (symbol : SymbolId) (span : Span) (frame : Frame)
    : exec Frame :=
  c ← get;
  let '(released, weak) := match ownership_frames c with
    | owner :: _ => (is_released owner symbol, is_weak owner symbol)
    | [] => (false, false)
    end in
  if released then lift (runtime_error USE_AFTER_RELEASE "binding was released" span)
  else
    loaded ← lift (binding frame symbol span);
    loaded ← (if weak then weak_read loaded else mret loaded);
    mret (set frame destination loaded).

(** The declared length of a vector binding cannot change. *)
Definition same_length (previous : option Value) (stored : Value) : bool :=
  match previous, stored with
  | Some (VVector previous), VVector next => (length previous =? length next)%nat
  | _, _ => true
  end.

Definition i_store (symbol : SymbolId) (source : ValueId) (previous : option ValueId)
    (ty : BType) (span : Span) (frame : Frame) : exec Frame :=
  c ← get;
  if bool_decide (symbol ∈ session_restored_symbols c) then
    modify (with_session_restored_symbols (session_restored_symbols c ∖ {[symbol]})) ;;
    mret frame
  else
    stored ← coerced_at frame source ty span;
    if negb (same_length (symbols frame !! symbol) stored) then
      lift (runtime_error VECTOR_LENGTH_MISMATCH
              "assigned vector length differs from the declared length" span)
    else
      capture (<[symbol := stored]>) ;;
      let replaced := default VNull (symbols frame !! symbol) in
      let frame := set_symbols frame (<[symbol := stored]> (symbols frame)) in
      owner ← ownership_frame;
      put_ownership_frame
        (mkOwnershipFrame (released_symbols owner ∖ {[symbol]}) (weak_symbols owner)) ;;
      mret (set_previous frame previous replaced).

Definition i_copy (destination source : ValueId) (ty : BType) (span : Span) (frame : Frame)
    : exec Frame :=
  copied ← coerced_at frame source ty span; mret (set frame destination copied).

Definition i_unary (destination : ValueId) (operator : string) (operand : ValueId) (ty : BType)
    (span : Span) (frame : Frame) : exec Frame :=
  v ← lift (value frame operand span);
  result ← lift (unary operator v ty span);
  mret (set frame destination result).

Definition i_binary (destination : ValueId) (operator : string) (left right : ValueId)
    (ty : BType) (span : Span) (frame : Frame) : exec Frame :=
  left_value ← lift (value frame left span);
  pointer_len ← (match left_value with
    | VPointer handle _ =>
        n ← memory_len handle span;
        lift (match try_from 0 u64_MAX n with
          | Some n => Ok (Some n)
          | None => runtime_error POINTER_LENGTH_MISMATCH POINTER_LENGTH_HOST span
          end)
    | _ => mret None
    end);
  right_value ← lift (value frame right span);
  result ← lift (binary operator left_value right_value ty span (class_model module) pointer_len);
  mret (set frame destination result).

Definition i_cast (destination source : ValueId) (ty : BType) (span : Span) (frame : Frame)
    : exec Frame :=
  v ← lift (value frame source span);
  result ← lift (cast v ty span);
  mret (set frame destination result).

Definition i_call (R : Rec) (destination callee : ValueId) (arguments : list ValueId)
    (ty : BType) (span : Span) (frame : Frame) : exec Frame :=
  f ← lift (value frame callee span);
  match f with
  | VFunction name =>
      result ← (match borrowed_intrinsic name arguments frame span with
        | Some result => lift result
        | None =>
            arguments ← lift (values_at frame arguments span);
            r_call R name arguments span
        end);
      c ← get;
      result ← (match stop_code c with
        | Some _ => mret result
        | None => coerce_to result ty span
        end);
      mret (set frame destination result)
  | _ => lift (type_mismatch "FUNCTION" "non-callable value" "function call" span)
  end.

(** Drops the line end that [read_line] keeps. *)
Fixpoint trim_line_end (reversed : list ascii) : list ascii :=
  match reversed with
  | c :: rest =>
      if Ascii.eqb c "010" || Ascii.eqb c "013" then trim_line_end rest else reversed
  | [] => []
  end.

Definition trim_line (line : string) : string :=
  of_bytes (rev (trim_line_end (rev (str_bytes line)))).

Definition input_prompt (prompt : option ValueId) (span : Span) (frame : Frame) : exec unit :=
  match prompt with
  | None => mret tt
  | Some prompt =>
      v ← lift (value frame prompt span);
      write_output (render v) span ;;
      c ← get;
      let '(o, error) := flush (output c) in
      modify (with_output o) ;;
      lift (match error with
        | None => Ok tt
        | Some error => runtime_error OUTPUT_ERROR ("cannot flush output: " +:+ error) span
        end)
  end.

Definition i_input (destination : ValueId) (prompt : option ValueId) (ty : BType) (span : Span)
    (frame : Frame) : exec Frame :=
  input_prompt prompt span frame ;;
  c ← get;
  let '(i, r) := read_line (input c) in
  modify (with_input i) ;;
  match r with
  | inr error => lift (runtime_error INPUT_ERROR ("cannot read input: " +:+ error) span)
  | inl line =>
      mret (set frame destination
        (if String.eqb line "" then
           (match ty with TString => VString "" | _ => VEndOfFile end)
         else VString (trim_line line)))
  end.

Definition i_vector (destination : ValueId) (elements : list ValueId) (span : Span)
    (frame : Frame) : exec Frame :=
  items ← lift (values_at frame elements span); mret (set frame destination (VVector items)).

Definition i_index (destination object index : ValueId) (span : Span) (frame : Frame)
    : exec Frame :=
  index ← lift (integer_at frame index span);
  object ← lift (value frame object span);
  element ← index_value object index span;
  mret (set frame destination element).

Definition i_member (destination object : ValueId) (field : option FieldRef) (name : string)
    (span : Span) (frame : Frame) : exec Frame :=
  object ← lift (value frame object span);
  member ← member_of object name field span;
  mret (set frame destination member).

Definition i_set_index (symbol : SymbolId) (indices : list ValueId) (source : ValueId)
    (previous : option ValueId) (ty : BType) (span : Span) (frame : Frame) : exec Frame :=
  indices ← lift (integers_at frame indices span);
  stored ← coerced_at frame source ty span;
  target ← lift (binding frame symbol span);
  replaced ← when_previous previous (element_at target indices span);
  target ← set_index target indices stored span;
  mret (store_previous (set_symbols frame (<[symbol := target]> (symbols frame))) previous replaced).

Definition i_set_member_index (object : ValueId) (field : option FieldRef) (name : string)
    (indices : list ValueId) (source : ValueId) (previous : option ValueId) (ty : BType)
    (span : Span) (frame : Frame) : exec Frame :=
  indices ← lift (integers_at frame indices span);
  stored ← coerced_at frame source ty span;
  replaced ← when_previous previous
    (v ← lift (value frame object span);
     member ← member_of v name field span;
     element_at member indices span);
  frame ← set_member_index_value frame object name field indices stored span;
  mret (store_previous frame previous replaced).

Definition i_set_field_index (symbol : SymbolId) (path : list string)
    (fields : option (list FieldRef)) (indices : list ValueId) (source : ValueId)
    (previous : option ValueId) (ty : BType) (span : Span) (frame : Frame) : exec Frame :=
  indices ← lift (integers_at frame indices span);
  stored ← coerced_at frame source ty span;
  fields ← lift (resolved_fields fields span);
  root ← lift (binding frame symbol span);
  replaced ← when_previous previous
    (field ← field_at root fields span; element_at field indices span);
  root ← set_field_index_path root path fields indices stored span;
  mret (store_previous (set_symbols frame (<[symbol := root]> (symbols frame))) previous replaced).

Definition length_of (v : Value) (span : Span) : exec Value :=
  match v with
  | VVector elements => lift (integer_from_count (Z.of_nat (length elements)) span)
  | VString text => lift (integer_from_count (chars_count text) span)
  | VHostArgs => lift (integer_from_count (Z.of_nat (length host_arguments)) span)
  | VPointer handle _ => n ← memory_len handle span; lift (integer_from_count n span)
  | VNull =>
      lift (runtime_error NULL_POINTER_ACCESS "cannot read the length of a NULL pointer" span)
  | VInteger _ _ | VFloat _ _ => mret (VInteger 1 Int32)
  | _ => lift (type_mismatch "length-bearing value" "value without length" "LEN" span)
  end.

Definition i_length (destination vector : ValueId) (span : Span) (frame : Frame) : exec Frame :=
  v ← lift (value frame vector span);
  n ← length_of v span;
  mret (set frame destination n).

Definition i_size_of (destination source : ValueId) (span : Span) (frame : Frame) : exec Frame :=
  v ← lift (value frame source span);
  size ← lift (size_of_value v span);
  mret (set frame destination size).

(** The values of a [PRINT], a space before each but the first. *)
Fixpoint print_values (frame : Frame) (first : bool) (printed : list ValueId) (span : Span)
    : exec unit :=
  match printed with
  | [] => mret tt
  | p :: printed =>
      (if first then mret tt else write_output " " span) ;;
      v ← lift (value frame p span);
      write_output (render v) span ;;
      print_values frame false printed span
  end.

Definition newline : string := String "010" "".
Definition clear_sequence : string := String "027" ("[2J" +:+ String "027" "[H").
Definition bell : string := String "007" "".

Definition i_print (printed : list ValueId) (span : Span) (frame : Frame) : exec Frame :=
  print_values frame true printed span ;; write_output newline span ;; mret frame.

Definition i_console (console : ValueId) (text : string) (span : Span) (frame : Frame)
    : exec Frame :=
  v ← lift (value frame console span);
  lift (require_console v span) ;;
  write_output text span ;;
  mret frame.

Definition allocate (type_name : string) (arguments : list ValueId) (ty : BType) (span : Span)
    (frame : Frame) : exec Value :=
  match ty with
  | TPointer element _ => allocate_region element arguments frame span
  | _ =>
      if is_host_file_type type_name then host_allocate "FileSystem" "File" span
      else
        allocated ← library_allocate type_name span;
        match allocated with
        | Some allocated => lift allocated
        | None => allocate_object type_name span
        end
  end.

Definition i_allocate (destination : ValueId) (type_name : string) (arguments : list ValueId)
    (ty : BType) (span : Span) (frame : Frame) : exec Frame :=
  v ← allocate type_name arguments ty span frame; mret (set frame destination v).

Definition i_release (R : Rec) (released : ValueId) (span : Span) (frame : Frame) : exec Frame :=
  target ← lift (value frame released span); release_value R target span ;; mret frame.

Definition i_set_member (object : ValueId) (field : option FieldRef) (name : string)
    (source : ValueId) (previous : option ValueId) (ty : BType) (span : Span) (frame : Frame)
    : exec Frame :=
  stored ← coerced_at frame source ty span;
  replaced ← when_previous previous
    (v ← lift (value frame object span); member_of v name field span);
  frame ← set_member_value frame object name field stored span;
  mret (store_previous frame previous replaced).

Definition i_set_field (symbol : SymbolId) (path : list string) (fields : option (list FieldRef))
    (source : ValueId) (previous : option ValueId) (ty : BType) (span : Span) (frame : Frame)
    : exec Frame :=
  stored ← coerced_at frame source ty span;
  fields ← lift (resolved_fields fields span);
  root ← lift (binding frame symbol span);
  replaced ← when_previous previous (field_at root fields span);
  root ← set_field_path root path fields stored span;
  mret (store_previous (set_symbols frame (<[symbol := root]> (symbols frame))) previous replaced).

Definition static_value (class field : string) (span : Span) (c : Core) : result Value :=
  match statics c !! (class, field) with
  | Some v => Ok v
  | None =>
      runtime_error UNINITIALIZED_VALUE
        ("STATIC " +:+ class +:+ "." +:+ field +:+ " has no value") span
  end.

Definition i_load_static (destination : ValueId) (class field : string) (span : Span)
    (frame : Frame) : exec Frame :=
  loaded ← reads (static_value class field span); mret (set frame destination loaded).

Definition i_store_static (class field : string) (source : ValueId) (previous : option ValueId)
    (ty : BType) (span : Span) (frame : Frame) : exec Frame :=
  stored ← coerced_at frame source ty span;
  c ← get;
  let replaced := default VNull (statics c !! (class, field)) in
  modify (with_statics (<[(class, field) := stored]> (statics c))) ;;
  mret (set_previous frame previous replaced).

Definition i_set_static_index (class field : string) (indices : list ValueId) (source : ValueId)
    (previous : option ValueId) (ty : BType) (span : Span) (frame : Frame) : exec Frame :=
  indices ← lift (integers_at frame indices span);
  stored ← coerced_at frame source ty span;
  target ← reads (static_value class field span);
  replaced ← when_previous previous (element_at target indices span);
  target ← set_index target indices stored span;
  modify (fun c => with_statics (<[(class, field) := target]> (statics c)) c) ;;
  mret (store_previous frame previous replaced).

(** ** Classes ([part1.rs]) *)

(** [EnsureClass]: the static initialiser of a class runs once, and not from
    within itself. *)
Definition ensure_class (R : Rec) (class : string) (span : Span) : exec unit :=
  c ← get;
  match class_init c !! class with
  | Some Ready => mret tt
  | Some Running =>
      lift (runtime_error STATIC_INITIALIZATION_CYCLE
              ("STATIC initialization of " +:+ class +:+ " reentered") span)
  | None =>
      modify (with_class_init (<[class := Running]> (class_init c))) ;;
      (match function_of_kind module Init class with
       | Some function =>
           flow ← r_function R function [];
           match flow with
           | FStop code => modify (with_stop_code (Some code))
           | FReturn _ => mret tt
           end
       | None => mret tt
       end) ;;
      modify (fun c => with_class_init (<[class := Ready]> (class_init c)) c)
  end.

Definition instruction (R : Rec) (i : Instruction) (frame : Frame) : exec Frame :=
  match i with
  | IRetain destination source _ span => i_retain destination source span frame
  | ITake destination symbol _ _ => i_take destination symbol frame
  | ITakeMember destination object field name _ _ span =>
      i_take_member destination object field name span frame
  | IEndBinding symbol span => i_end_binding symbol span frame
  | IConstant destination constant ty span => i_constant destination constant ty span frame
  | IDefault destination ty dimensions dynamic_dimensions span =>
      i_default R destination ty dimensions dynamic_dimensions span frame
  | IPhi _ _ _ span =>
      lift (runtime_error INVALID_IR "Phi must be resolved by the executor control-flow loop" span)
  | ILoad destination symbol _ span => i_load destination symbol span frame
  | IStore symbol source previous ty span => i_store symbol source previous ty span frame
  | ICopy destination source ty span => i_copy destination source ty span frame
  | IUnary destination operator operand ty span =>
      i_unary destination operator operand ty span frame
  | IBinary destination operator l r ty span => i_binary destination operator l r ty span frame
  | ICast destination source ty span => i_cast destination source ty span frame
  | ICall destination callee arguments ty span =>
      i_call R destination callee arguments ty span frame
  | IDispatchSubmit destination callee queue task arguments ty span =>
      i_call R destination callee (queue :: task :: arguments) ty span frame
  | IDispatchAwait destination callee ticket timeout ty span =>
      i_call R destination callee [ticket; timeout] ty span frame
  | IInput destination prompt ty span => i_input destination prompt ty span frame
  | IVector destination elements _ span => i_vector destination elements span frame
  | IIndex destination object index _ span => i_index destination object index span frame
  | IMember destination object field name _ _ span =>
      i_member destination object field name span frame
  | ISetIndex symbol indices source previous ty span =>
      i_set_index symbol indices source previous ty span frame
  | ISetMemberIndex object field name _ indices source previous ty span =>
      i_set_member_index object field name indices source previous ty span frame
  | ISetFieldIndex symbol _ path fields indices source previous ty span =>
      i_set_field_index symbol path fields indices source previous ty span frame
  | ISetStaticIndex class field indices source previous ty span =>
      i_set_static_index class field indices source previous ty span frame
  | ILength destination vector span => i_length destination vector span frame
  | ISizeOf destination source span => i_size_of destination source span frame
  | IPrint printed span => i_print printed span frame
  | IClearScreen console span => i_console console clear_sequence span frame
  | IBeep console span => i_console console bell span frame
  | IAllocate destination type_name arguments ty span =>
      i_allocate destination type_name arguments ty span frame
  | IRelease released _ span => i_release R released span frame
  | ISetMember object field name _ source previous ty span =>
      i_set_member object field name source previous ty span frame
  | ISetField symbol _ path fields source previous ty span =>
      i_set_field symbol path fields source previous ty span frame
  | IEnsureClass class span => ensure_class R class span ;; mret frame
  | ILoadStatic destination class field _ span => i_load_static destination class field span frame
  | IStoreStatic class field source previous ty span =>
      i_store_static class field source previous ty span frame
  end.

(** ** Blocks and functions ([part1.rs]) *)

(** The function constant of a [$stopping] check, which the lowering emits
    right after a call that may stop. *)
Definition is_stop_check (i : Instruction) : bool :=
  match i with
  | IConstant _ (CFunction name) _ _ => String.eqb name STOPPING
  | _ => false
  end.

(** The load of the cancellation flag before an instruction. *)
Definition check_cancel (span : Span) : exec unit :=
  c ← get;
  match cancel_flag c with
  | Some flag =>
      let '(flag, cancelled) := cancel_load flag in
      modify (with_cancel_flag (Some flag)) ;;
      if cancelled : bool then lift (runtime_error DEBUG_TERMINATED msg_session_cancelled span)
      else mret tt
  | None => mret tt
  end.

(** A [Phi] reads the value of the block control came from. *)
Definition phi (previous_block : option BlockId) (destination : ValueId)
    (incoming : list (BlockId * ValueId)) (span : Span) (frame : Frame) : result Frame :=
  predecessor ← (match previous_block with
    | Some b => Ok b
    | None => runtime_error INVALID_IR "Phi cannot execute in the function entry block" span
    end);
  source ← (match List.find (fun p : BlockId * ValueId => p.1 =? predecessor) incoming with
    | Some p => Ok p.2
    | None =>
        runtime_error INVALID_IR "Phi has no incoming value for the predecessor block" span
    end);
  selected ← value frame source span;
  Ok (set frame destination selected).

(** A STOP at [i] that no following [$stopping] check will handle. *)
Definition stops_at_once (i : Instruction) (rest : list Instruction) (c : Core) : option Z :=
  match stop_code c with
  | Some code =>
      if is_stop_check i then None
      else match rest with
           | next :: _ => if is_stop_check next then None else Some code
           | [] => Some code
           end
  | None => None
  end.

(** The instructions of a block: the frame after them, or the code of a STOP
    that ends the function at once. *)
Fixpoint run_instructions (R : Rec) (previous_block : option BlockId) (l : list Instruction)
    (frame : Frame) : exec (Frame + Z) :=
  match l with
  | [] => mret (inl frame)
  | i :: rest =>
      check_cancel (instruction_span i) ;;
      frame ← (match i with
        | IPhi destination incoming _ span =>
            lift (phi previous_block destination incoming span frame)
        | _ => instruction R i frame
        end);
      c ← get;
      match stops_at_once i rest c with
      | Some code => modify (with_stop_code None) ;; mret (inr code)
      | None => run_instructions R previous_block rest frame
      end
  end.

Definition pop_ownership_frame : exec unit :=
  modify (fun c => with_ownership_frames (tail (ownership_frames c)) c).

Definition give_back (frame : Frame) : exec unit :=
  modify (fun c => with_frame_pool (pool_give_back (frame_pool c) frame) c).

(** The end of a call: a session keeps the bindings of its top level. *)
Definition finish_return (function : Function) (returned : option ValueId) (frame : Frame)
    : exec Flow :=
  returned ← lift (match returned with
    | Some id => v ← value frame id (fn_span function); Ok (Some v)
    | None => Ok None
    end);
  pop_ownership_frame ;;
  c ← get;
  (match call_depth c =? 0, session_captured_symbols c with
   | true, Some captured =>
       modify (with_session_captured_symbols (Some (symbols frame ∪ captured)))
   | _, _ => give_back frame
   end) ;;
  mret (FReturn returned).

Definition finish_stop (function : Function) (code : ValueId) (frame : Frame) : exec Flow :=
  code ← lift (integer_at frame code (fn_span function));
  pop_ownership_frame ;;
  give_back frame ;;
  mret (FStop code).

Fixpoint run_blocks (R : Rec) (fuel : nat) (function : Function) (block : BlockId)
    (previous_block : option BlockId) (frame : Frame) : exec Flow :=
  match fuel with
  | O => lift Fuel
  | S fuel =>
      current ← lift (find_block function block);
      r ← run_instructions R previous_block (b_instructions current) frame;
      match r with
      | inr code => mret (FStop code)
      | inl frame =>
          match b_terminator current with
          | TJump target => run_blocks R fuel function target (Some block) frame
          | TBranch condition then_block else_block =>
              v ← lift (value frame condition (fn_span function));
              b ← lift (boolean v (fn_span function));
              run_blocks R fuel function (if b : bool then then_block else else_block) (Some block)
                frame
          | TReturn returned => finish_return function returned frame
          | TStop code => finish_stop function code frame
          end
      end
  end.

(** The bindings a call starts with: its parameters, and at the top level of
    a session the variables of earlier submissions. *)
Definition bind_parameters (function : Function) (arguments : list Value) (s : Symbols)
    : Symbols :=
  fold_left (fun s (p : SymbolId * Value) => <[p.1 := p.2]> s)
    (combine (fn_parameters function) arguments) s.

Definition enter (function : Function) (arguments : list Value) : exec Frame :=
  c ← get;
  let '(pool, frame) := pool_take (frame_pool c) in
  modify (with_frame_pool pool) ;;
  let s := bind_parameters function arguments (symbols frame) in
  s ← (if call_depth c =? 0 then
         modify (with_session_bindings ∅) ;; mret (session_bindings c ∪ s)
       else mret s);
  modify (fun c => with_ownership_frames
            (mkOwnershipFrame ∅ (fn_weak_symbols function) :: ownership_frames c) c) ;;
  mret (mkFrame s (values frame)).

Definition function (R : Rec) (fuel : nat) (f : Function) (arguments : list Value) : exec Flow :=
  let expected := Z.of_nat (length (fn_parameters f)) in
  let actual := Z.of_nat (length arguments) in
  if negb (actual =? expected) then
    lift (type_mismatch (dec_of_Z expected +:+ " argument(s)") (dec_of_Z actual +:+ " argument(s)")
            ("FUNCTION " +:+ fn_name f) (fn_span f))
  else
    frame ← enter f arguments;
    run_blocks R fuel f (fn_entry f) None frame.

(** ** The machine *)

(** The level that has no fuel. *)
Definition exhausted : Rec :=
  mkRec (fun _ _ _ => lift Fuel) (fun _ _ _ _ => lift Fuel) (fun _ _ => lift Fuel).

Fixpoint machine (fuel : nat) : Rec :=
  match fuel with
  | O => exhausted
  | S fuel =>
      let R := machine fuel in
      mkRec (call_named R) (library_call R) (function R fuel)
  end.

(** ** The verifier of the counts ([arc_verifier.rs]) *)

(** Adds one for each object or region the value holds. *)
Fixpoint count_references (v : Value) (held : gmap Z Z) {struct v} : gmap Z Z :=
  match v with
  | VObject handle _ | VPointer handle _ =>
      <[id_of handle := default 0 (held !! id_of handle) + 1]> held
  | VVector items => fold_left (fun held v => count_references v held) items held
  | VRecord _ fields => fold_left (fun held v => count_references v held) fields held
  | _ => held
  end.

Definition slot_is_weak (class : string) (slot : nat) : bool :=
  match layout ← field_layouts module !! class; l_fields layout !! slot with
  | Some entry => e_weak entry
  | None => false
  end.

(** The references one live allocation holds. *)
Definition count_allocation (span : Span) (c : Core) (held : gmap Z Z) (i : ObjectInfo)
    : gmap Z Z :=
  let handle := handle_of (i_id i) in
  match heap_get (objects c) handle 0 span with
  | Ok instance =>
      fold_left (fun held v => count_references v held)
        (map snd (List.filter (fun p : nat * Value => negb (slot_is_weak (i_class i) p.1))
           (imap (fun slot v => (slot, v)) instance))) held
  | _ =>
      match payload (memory c) handle span with
      | Ok elements => fold_left (fun held v => count_references v held) elements held
      | _ => held
      end
  end.

Definition held_references (span : Span) (c : Core) : gmap Z Z :=
  fold_left (count_allocation span c) (snapshot (arc_core c))
    (fold_left (fun held v => count_references v held) (map_to_list (statics c)).*2 ∅).

(** A library class is held by its provider, which the program cannot see. *)
Definition library_object (span : Span) (c : Core) (i : ObjectInfo) : bool :=
  match heap_get (objects c) (handle_of (i_id i)) 0 span, field_layouts module !! i_class i with
  | Ok _, None => true
  | _, _ => false
  end.

(** A live object whose count differs from the references held. *)
Definition count_mismatch (span : Span) (c : Core) (i : ObjectInfo) : bool :=
  negb (library_object span c i)
  && negb (default 0 (held_references span c !! i_id i) =? i_strong i).

Definition verify_arc (span : Span) (c : Core) : result unit :=
  match List.find (count_mismatch span c) (snapshot (arc_core c)) with
  | Some i =>
      runtime_error INVALID_IR
        ("ARC verifier: " +:+ i_class i +:+ show_id (i_id i) +:+ " has strong count "
         +:+ dec_of_Z (i_strong i) +:+ " but the program holds "
         +:+ dec_of_Z (default 0 (held_references span c !! i_id i)) +:+ " strong reference(s)")
        span
  | None => Ok tt
  end.

(** ** Running a program ([lib.rs]) *)

(** A fresh executor. *)
Definition new_core (tracing_variable : option string) (i : Input) (o : Output)
    (library_providers host_providers : gmap string Provider) : Core :=
  mkCore i o None None ∅ ∅ (set_trace (trace_enabled tracing_variable) Arc.new) [] [] []
    library_providers host_providers 0 [] [] ∅ ∅ None None.

(** The checks made before anything runs. *)
Definition start_function : result Function :=
  (match filesystem_import module with
   | Some span =>
       if provides_filesystem then Ok tt
       else runtime_error HOST_CAPABILITY_UNAVAILABLE msg_host_filesystem_not_provided span
   | None => Ok tt
   end) ;;
  match entry module with
  | Some start => Ok start
  | None => runtime_error START_NOT_FOUND msg_session_start_not_found default_span
  end.

(** The exit code of a finished program. *)
Definition exit_status (start : Function) (flow : Flow) : result Z :=
  match flow with
  | FReturn None | FReturn (Some VNull) => Ok 0
  | FReturn (Some (VInteger code _)) | FStop code => exit_code code (fn_span start)
  | FReturn (Some (VError code message _)) =>
      runtime_error DISPATCH (dec_of_Z code +:+ ": " +:+ message) (fn_span start)
  | FReturn (Some _) =>
      runtime_error INVALID_START "FUNCTION Start must return VOID or INTEGER" (fn_span start)
  end.

(** [execute_with_host_inner]; [debug_assertions] is the build's. *)
Definition execute (fuel : nat) (debug_assertions : bool) (c : Core) : Core * result Z :=
  match start_function with
  | Ok start =>
      if negb (bool_decide (fn_parameters start = [])) then
        (c, runtime_error INVALID_START "FUNCTION Start cannot declare parameters" (fn_span start))
      else
        (flow ← r_function (machine fuel) start [];
         c ← get;
         (if debug_assertions then lift (verify_arc (fn_span start) c) else mret tt) ;;
         lift (exit_status start flow)) c
  | Err e => (c, Err e)
  | Panic w => (c, Panic w)
  | Fuel => (c, Fuel)
  end.
End Exec.
