(* ===== verification/Sample.v ===== *)
(** * Sample: a concrete world, and programs that run in it

    One instance of every parameter of the executor (streams, providers, host
    answers), and small modules built from the IR's constructors.  The
    witnesses of the theorems about runs evaluate them. *)

From S2P Require Import Prelude Text Diag Types ClassModel Arc Heap Values Operators Ir Frames Machine Places Providers Exec.

#[local] Open Scope string_scope.
#[local] Open Scope Z_scope.

(** Output is the text written; input is a list of lines; a provider is
    stateless and answers every call with [NULL]. *)
Definition sample_world (m : Module_) : World := {|
  Provider := unit;
  Input := list string;
  Output := string;
  module := m;
  read_line := fun i => match i with [] => ([], inl "") | l :: i => (i, inl l) end;
  write_text := fun o t => (o +:+ t, None);
  flush := fun o => (o, None);
  host_arguments := ["bn"; "run"];
  provides_filesystem := true;
  parallelism := inl 4;
  stack_base := 0;
  stack_budget := 100;
|}.

Lemma map_keys_spec {A} (m : gmap string A) k :
  k ∈ (map_to_list m).*1 ↔ is_Some (m !! k).
Proof.
  rewrite list_elem_of_fmap. split.
  - intros ([k' p] & -> & Hin). apply elem_of_map_to_list in Hin. by eexists.
  - intros [p Hp]. exists (k, p). split; [done|]. by apply elem_of_map_to_list.
Qed.

(** The stack grows by one address per call. *)
Definition sample_seam (m : Module_) : @Seam (sample_world m) :=
  @Build_Seam (sample_world m)
    (fun p _ _ _ => PRet (p, Ok VNull)) (fun p _ _ => (p, None)) (fun p _ _ => (p, None))
    (fun p _ _ => (p, None)) (fun p _ => p) (fun c => call_depth c)
    (fun libraries => (map_to_list libraries).*1) (fun libraries k => map_keys_spec libraries k).

(** A module of functions and nothing else. *)
Definition functions_module (fs : list Function) : Module_ :=
  mkModule fs [] ∅ class_model_new ∅ ∅ ∅ ∅ ∅ ∅ ∅ ∅ ∅ ∅ ∅ None.

Definition sample_core (m : Module_) : @Core (sample_world m) :=
  new_core (H := sample_world m) None [] "" ∅ ∅.

Definition sample_run (m : Module_) (fuel : nat) : @Core (sample_world m) * result Z :=
  execute (H := sample_world m) (H0 := sample_seam m) (H1 := test_allocator)
    (H2 := test_platform) fuel true (sample_core m).

#[local] Abbreviation sp := default_span.
Definition int32 : BType := TInteger Int32.

(** [FUNCTION Fact(n)], recursive. *)
Definition fact_function : Function :=
  mkFunction "Fact" User None false [1] ∅ int32 0
    [mkBlock 0
       [IConstant 0 (CInteger "1") int32 sp; ILoad 1 1 int32 sp;
        IBinary 2 "LessEqual" 1 0 TBoolean sp] (TBranch 2 1 2);
     mkBlock 1 [] (TReturn (Some 0));
     mkBlock 2
       [IConstant 3 (CFunction "Fact") TUnknown sp; IBinary 4 "Minus" 1 0 int32 sp;
        ICall 5 3 [4] int32 sp; IBinary 6 "Star" 1 5 int32 sp] (TReturn (Some 6))] sp.

(** Prints [Fact(10)] and returns 7. *)
Definition fact_start : Function :=
  mkFunction "Start" Entry None false [] ∅ int32 0
    [mkBlock 0
       [IConstant 0 (CInteger "10") int32 sp; IConstant 1 (CFunction "Fact") TUnknown sp;
        ICall 2 1 [0] int32 sp; IPrint [0; 2] sp; IConstant 3 (CInteger "7") int32 sp]
       (TReturn (Some 3))] sp.

Definition fact_module : Module_ := functions_module [fact_start; fact_function].

Example fact_runs :
  let '(c, r) := sample_run fact_module 40 in
  @output (sample_world fact_module) c = "10 3628800" +:+ newline ∧ r = Ok 7.
Proof. vm_compute. split; reflexivity. Qed.

(** A class whose initialiser sets [B.count], and one whose initialiser asks
    for its own class. *)
Definition init_B : Function :=
  mkFunction "B.$init" Init (Some "B") false [] ∅ int32 0
    [mkBlock 0
       [IConstant 0 (CInteger "3") int32 sp; IStoreStatic "B" "count" 0 None int32 sp]
       (TReturn None)] sp.
Definition init_A : Function :=
  mkFunction "A.$init" Init (Some "A") false [] ∅ int32 0
    [mkBlock 0 [IEnsureClass "A" sp] (TReturn None)] sp.

Definition class_module : Module_ := functions_module [init_A; init_B].

(** ** Places of the sample world *)

Definition nodes_core : @Core (sample_world class_module) :=
  with_objects (H := sample_world class_module)
    [Some (1, [[VObject (mkHandle 1 1) "Node"]]); Some (1, [[VObject (mkHandle 1 1) "Node"]])]
    (sample_core class_module).

Lemma set_index_vector_witness :
  let target := VVector [VVector [VNull; VBoolean true]; VVector []] in
  indexed_value target [0; 1] sp = Ok (VBoolean true) ∧
  ∃ target', set_index (H := sample_world class_module) target [0; 1] VNull sp nodes_core
      = (nodes_core, Ok target')
    ∧ indexed_value target' [0; 1] sp = Ok VNull
    ∧ ∀ other, diverge [0; 1] other → indexed_value target' other sp = indexed_value target other sp.
Proof.
  split; [reflexivity|].
  apply (set_index_vector (H := sample_world class_module) _ _ (VBoolean true)). reflexivity.
Defined.

(** [a.next.next = NULL] where [a.next] is another node. *)
Lemma set_field_path_reads_witness :
  let W := sample_world class_module in
  let next := mkFieldRef "Node" 0 0 in
  let a := VObject (mkHandle 0 1) "Node" in
  ∃ h a', set_field_path (H := W) a ["next"; "next"] [next; next] VNull sp nodes_core
      = (with_objects (H := W) h nodes_core, Ok a')
    ∧ (field_at (H := W) a' [next; next] sp (with_objects (H := W) h nodes_core)).2 = Ok VNull
    ∧ ∀ other, 0 ≤ h_slot other →
        other ∉ path_objects (H := W) nodes_core a [next; next] sp →
        heap_get h other 0 sp = heap_get (objects (H := W) nodes_core) other 0 sp.
Proof.
  apply (set_field_path_reads (H := sample_world class_module) _ (VObject (mkHandle 1 1) "Node")).
  - reflexivity.
  - discriminate.
  - change (NoDup [mkHandle 0 1; mkHandle 1 1]).
    apply NoDup_cons_2; [|apply NoDup_singleton]. rewrite list_elem_of_singleton. discriminate.
  - change (∀ o, o ∈ [mkHandle 0 1; mkHandle 1 1] → 0 ≤ h_slot o).
    intros o Ho. rewrite !elem_of_cons, elem_of_nil in Ho. by destruct Ho as [->|[->|[]]].
  - reflexivity.
Defined.

(** [n.next.next = NULL] where [n.next] is [n]: the program has set nothing. *)
Lemma set_field_path_alias_lost_witness :
  let W := sample_world class_module in
  let next := mkFieldRef "Node" 0 0 in
  let n := VObject (mkHandle 1 1) "Node" in
  ∃ h, set_field_path (H := W) n ["next"; "next"] [next; next] VNull sp nodes_core
      = (with_objects (H := W) h nodes_core, Ok n)
    ∧ ∀ other, 0 ≤ h_slot other →
        heap_get h other 0 sp = heap_get (objects (H := W) nodes_core) other 0 sp.
Proof.
  apply (set_field_path_alias_lost (H := sample_world class_module) (mkHandle 1 1) "Node" "Node" VNull
    ("next", "next") (mkFieldRef "Node" 0 0) sp nodes_core [VObject (mkHandle 1 1) "Node"]);
    [discriminate | reflexivity | reflexivity].
Defined.

(** [G] stops; [F] calls it and has no [$stopping] check, so that it stops at
    once. *)
Definition stop_G : Function :=
  mkFunction "G" User None false [] ∅ int32 0
    [mkBlock 0 [IConstant 0 (CInteger "3") int32 sp] (TStop 0)] sp.
Definition stop_F : Function :=
  mkFunction "F" User None false [] ∅ int32 0
    [mkBlock 0 [IConstant 0 (CFunction "G") TUnknown sp; ICall 1 0 [] int32 sp] (TReturn None)] sp.
Definition stop_module : Module_ := functions_module [stop_F; stop_G].

(** The call of [F] leaves its ownership frame on the stack; the call of [G],
    which ends in its own STOP, does not. *)
Theorem stop_leaves_ownership_frame :
  let W := sample_world stop_module in
  let run name := r_call (machine (H := W) (H0 := sample_seam _) (H1 := test_allocator)
    (H2 := test_platform) 10) name [] sp (sample_core stop_module) in
  stop_code (H := W) (run "F").1 = Some 3 ∧ length (ownership_frames (H := W) (run "F").1) = 1%nat
  ∧ stop_code (H := W) (run "G").1 = Some 3 ∧ ownership_frames (H := W) (run "G").1 = [].
Proof. vm_compute. repeat split. Qed.
