(* ===== verification/Fuel.v ===== *)
(** * Fuel: the machine is one deterministic function

    A run of [Exec.machine] that finishes with some fuel finishes with the same
    state and the same outcome with more.  The outcome of a program is thus a
    property of the program, not of the fuel chosen to compute it. *)

From S2P Require Import Prelude Text Diag Types ClassModel Arc Heap Values Operators Ir Frames Machine Places Providers TemporalOps Exec Sample.

#[local] Open Scope string_scope.
#[local] Open Scope Z_scope.

Section Less.
Context `{World}.

(** [m'] answers what [m] answers wherever [m] has enough fuel. *)
Definition less {A} (m m' : exec A) : Prop := ∀ c, (m c).2 ≠ Fuel → m' c = m c.

Lemma less_refl {A} (m : exec A) : less m m.
Proof. done. Qed.

Lemma less_fuel {A} (m : exec A) : less (lift Fuel) m.
Proof. by intros c []. Qed.

Lemma less_bind {A B} (m m' : exec A) (f f' : A → exec B) :
  less m m' → (∀ a, less (f a) (f' a)) → less (m ≫= f) (m' ≫= f').
Proof.
  intros Hm Hf c. unfold mbind, st_bind. intros Hc.
  assert ((m c).2 ≠ Fuel) as Hne by (intros E; destruct (m c) as [c1 r]; simpl in *; by subst).
  rewrite (Hm c Hne). destruct (m c) as [c1 [a|e|w|]]; try done. by apply Hf.
Qed.

Lemma less_attempt {A} (m m' : exec A) : less m m' → less (attempt m) (attempt m').
Proof.
  intros Hm c. unfold attempt. intros Hc.
  assert ((m c).2 ≠ Fuel) as Hne by (intros E; destruct (m c) as [c1 r]; simpl in *; by subst).
  by rewrite (Hm c Hne).
Qed.

Lemma less_trans {A} (m1 m2 m3 : exec A) : less m1 m2 → less m2 m3 → less m1 m3.
Proof. intros H1 H2 c Hc. rewrite (H2 c); [by apply H1 | by rewrite (H1 c Hc)]. Qed.

Lemma less_each {A} (f f' : A → exec unit) l :
  Forall (λ x, less (f x) (f' x)) l → less (each f l) (each f' l).
Proof. induction 1; simpl; [apply less_refl|]. apply less_bind; [done|]. intros _. done. Qed.

Lemma less_each_rev {A} (f f' : A → exec unit) l :
  Forall (λ x, less (f x) (f' x)) l → less (each_rev f l) (each_rev f' l).
Proof. induction 1; simpl; [apply less_refl|]. apply less_bind; [done|]. intros _. done. Qed.

(** [R'] serves every call at least as well as [R]. *)
Record rec_less (R R' : Rec) : Prop := {
  call_less name arguments span : less (r_call R name arguments span) (r_call R' name arguments span);
  library_less library member arguments span :
    less (r_library_call R library member arguments span)
         (r_library_call R' library member arguments span);
  function_less f arguments : less (r_function R f arguments) (r_function R' f arguments);
}.
End Less.

#[local] Hint Resolve less_refl less_fuel call_less library_less function_less : less.

(** Follows the structure both computations share. *)
Ltac less_step :=
  match goal with
  | |- less ?m ?m => apply less_refl
  | |- less _ _ => solve [eauto with less]
  | |- less (_ ≫= _) (_ ≫= _) => apply less_bind; [|intros ?]
  | |- less (attempt _) (attempt _) => apply less_attempt
  | |- less (match ?x with _ => _ end) (match ?x with _ => _ end) => destruct x
  end.
Ltac less_solve := repeat less_step.

Section Fuel.
Context `{World} `{!Seam} `{Allocator} `{Floats.Platform}.
Context (R R' : Rec) (HR : rec_less R R').

#[local] Hint Resolve HR : less.

Lemma run_prog_less {A} (p : Prog A) : less (run_prog R p) (run_prog R' p).
Proof.
  induction p; simpl; unfold answer; less_solve.
Qed.

Lemma library_call_less library member arguments span :
  less (library_call R library member arguments span)
       (library_call R' library member arguments span).
Proof. unfold library_call. less_solve. apply run_prog_less. Qed.

Lemma host_provider_call_less capability member arguments span :
  less (host_provider_call R capability member arguments span)
       (host_provider_call R' capability member arguments span).
Proof. unfold host_provider_call. less_solve. apply run_prog_less. Qed.

#[local] Hint Resolve library_call_less host_provider_call_less : less.

Lemma call_function_less callee arguments span :
  less (call_function R callee arguments span) (call_function R' callee arguments span).
Proof. unfold call_function, one_deeper. less_solve. Qed.

#[local] Hint Resolve call_function_less : less.

Lemma call_named_less name arguments span :
  less (call_named R name arguments span) (call_named R' name arguments span).
Proof. unfold call_named, call_host_name, call_resolved. less_solve. Qed.

Lemma destroy_object_less handle class span :
  less (destroy_object R handle class span) (destroy_object R' handle class span).
Proof. unfold destroy_object, destroy_step. less_solve. Qed.

#[local] Hint Resolve destroy_object_less : less.

Lemma release_owned_value_less v span :
  less (release_owned_value R v span) (release_owned_value R' v span).
Proof.
  induction v as [l IH|n l IH|v Hv] using Value_ind'; simpl.
  - by apply less_each.
  - by apply less_each_rev.
  - destruct v; try discriminate; simpl; less_solve.
Qed.

#[local] Hint Resolve release_owned_value_less : less.

Lemma release_value_less v span : less (release_value R v span) (release_value R' v span).
Proof. unfold release_value. less_solve. Qed.

Lemma default_named_less name span : less (default_named R name span) (default_named R' name span).
Proof. unfold default_named. less_solve. Qed.

#[local] Hint Resolve release_value_less default_named_less : less.

Lemma default_value_less ty dimensions span :
  less (default_value R ty dimensions span) (default_value R' ty dimensions span).
Proof.
  revert dimensions. induction ty as [ps r _ _|e d IH|e l _|ts IH|t Ht] using BType_ind';
    intros dimensions; simpl; try apply less_refl.
  - less_solve.
  - destruct IH as [|t ts Ht _]; [apply less_refl|]. destruct t; less_solve.
  - destruct t; try discriminate; simpl; less_solve.
Qed.

Lemma ensure_class_less class span : less (ensure_class R class span) (ensure_class R' class span).
Proof. unfold ensure_class. less_solve. Qed.

#[local] Hint Resolve default_value_less ensure_class_less : less.

Lemma instruction_less i frame : less (instruction R i frame) (instruction R' i frame).
Proof.
  destruct i; simpl; try apply less_refl; unfold i_default, i_call, i_release; less_solve.
Qed.

#[local] Hint Resolve instruction_less : less.

Lemma run_instructions_less previous l frame :
  less (run_instructions R previous l frame) (run_instructions R' previous l frame).
Proof.
  revert frame. induction l as [|i l IH]; intros frame; simpl; [apply less_refl|]. less_solve.
Qed.

#[local] Hint Resolve run_instructions_less : less.

Lemma run_blocks_less n n' f block previous frame :
  (n <= n')%nat → less (run_blocks R n f block previous frame) (run_blocks R' n' f block previous frame).
Proof.
  revert n' block previous frame. induction n as [|n IH]; intros [|n'] block previous frame Hn;
    simpl; try apply less_fuel; [lia|].
  assert (n <= n')%nat by lia. less_solve.
Qed.

Lemma exec_function_less n n' f arguments :
  (n <= n')%nat → less (function R n f arguments) (function R' n' f arguments).
Proof.
  intros Hn. unfold function. less_solve. by apply run_blocks_less.
Qed.
End Fuel.

Lemma machine_step `{World} `{!Seam} `{Allocator} `{Floats.Platform} n n' :
  (n <= n')%nat → rec_less (machine n) (machine n').
Proof.
  revert n'. induction n as [|n IH]; intros [|n'] Hn; try lia; [split; intros; apply less_refl|..].
  - split; intros; apply less_fuel.
  - assert (n <= n')%nat as Hle by lia. specialize (IH n' Hle). split; intros; cbn [machine r_call r_library_call r_function].
    + by apply call_named_less.
    + by apply library_call_less.
    + by apply exec_function_less.
Qed.

(** More fuel never changes a run that finished: its final state and outcome
    are those of every larger machine. *)
Theorem fuel_monotone `{World} `{!Seam} `{Allocator} `{Floats.Platform} (n n' : nat)
    (debug_assertions : bool) (c c' : Core) (r : result Z)
    (Hn : (n <= n')%nat) (Hr : r ≠ Fuel)
    (Hrun : execute n debug_assertions c = (c', r)) :
  execute n' debug_assertions c = (c', r).
Proof.
  revert Hrun. unfold execute. destruct start_function as [start|e|w|]; try done.
  destruct (negb _); [done|]. intros Hrun.
  rewrite <- Hrun.
  pose proof (machine_step n n' Hn) as HR.
  match type of Hrun with
  | (_ ≫= ?f) _ = _ =>
      assert (less (r_function (machine n) start [] ≫= f) (r_function (machine n') start [] ≫= f))
        as Hl by (apply less_bind; [apply HR | intros; apply less_refl])
  end.
  apply Hl. by rewrite Hrun.
Qed.

Lemma fuel_monotone_witness :
  sample_run fact_module 60 = ((sample_run fact_module 40).1, Ok 7).
Proof.
  assert ((Ok 7 : result Z) ≠ Fuel) as Hne by discriminate.
  assert (40 <= 60)%nat as Hle by (apply Nat.leb_le; reflexivity).
  apply (fuel_monotone (H := sample_world fact_module) (H0 := sample_seam fact_module)
           (H1 := test_allocator) (H2 := test_platform) 40 60 true (sample_core fact_module)
           (sample_run fact_module 40).1 (Ok 7) Hle Hne).
  vm_compute. reflexivity.
Defined.
