(* ===== verification/Runs.v ===== *)
(** * Runs: what every run of the machine keeps

    Whatever a program does, and however a call ends, the executor's call depth
    and dispatch pins are those from before the call, the host capabilities
    are the same, a class that has been initialised stays initialised, and the
    frame pool holds empty frames only.  Proved once for every operation by a
    relation between the states before and after it. *)

From S2P Require Import Prelude Text Diag Types ClassModel Arc Heap Values Operators Ir Frames Machine Places Providers TemporalOps Exec Sample.

#[local] Open Scope string_scope.
#[local] Open Scope Z_scope.

(** ** The pool of frames *)

(** No frame of the pool shows a value of an earlier call. *)
Definition pool_ok (pool : FramePool) : Prop :=
  (length pool <= FRAME_POOL_CAPACITY)%nat ∧ Forall (eq empty_frame) pool.

Lemma pool_take_ok pool pool' frame :
  pool_ok pool → pool_take pool = (pool', frame) → pool_ok pool' ∧ frame = empty_frame.
Proof.
  intros [Hlen Hall] Htake. destruct pool as [|f pool]; injection Htake as <- <-.
  - by split; [split|].
  - inversion Hall; subst. split; [split; [simpl in Hlen; lia | done] | done].
Qed.

Lemma pool_give_back_ok pool frame : pool_ok pool → pool_ok (pool_give_back pool frame).
Proof.
  intros [Hlen Hall]. unfold pool_give_back. destruct (_ <? _)%nat eqn:E; [|done].
  apply Nat.ltb_lt in E. split; [simpl; lia | by constructor].
Qed.

(** ** Computations that keep a relation *)

Definition finished {A} (r : result A) : Prop :=
  match r with Ok _ | Err _ => True | _ => False end.

Section Keeps.
Context `{World} (P : Core → Core → Prop) `{!PreOrder P}.

Definition keeps_at {A} (c : Core) (m : exec A) : Prop :=
  ∀ c' r, m c = (c', r) → finished r → P c c'.
Definition keeps {A} (m : exec A) : Prop := ∀ c, keeps_at c m.

Lemma keeps_bind {A B} (m : exec A) (f : A → exec B) :
  keeps m → (∀ a, keeps (f a)) → keeps (m ≫= f).
Proof.
  intros Hm Hf c c' r. unfold mbind, st_bind. specialize (Hm c).
  destruct (m c) as [c1 [a|e|w|]] eqn:E; intros Hr Hfin; try (injection Hr as <- <-; done).
  - etrans; [apply (Hm c1 (Ok a)); done|]. by eapply Hf.
  - injection Hr as <- <-. by apply (Hm c1 (Err e)).
Qed.

Lemma keeps_state {A} (m : exec A) : (∀ c, (m c).1 = c) → keeps m.
Proof. intros Hm c c' r Hr _. rewrite <- (Hm c), Hr. reflexivity. Qed.

Lemma keeps_ret {A} (a : A) : keeps (mret a).
Proof. by apply keeps_state. Qed.
Lemma keeps_lift {A} (r : result A) : keeps (lift r).
Proof. by apply keeps_state. Qed.
Lemma keeps_reads {A} (f : Core → result A) : keeps (reads f).
Proof. by apply keeps_state. Qed.
Lemma keeps_fetch {A} (f : Core → A) : keeps (fetch f).
Proof. by apply keeps_state. Qed.

Lemma keeps_modify f : (∀ c, P c (f c)) → keeps (modify f).
Proof. intros Hf c c' r [= <- <-] _. apply Hf. Qed.

Lemma keeps_attempt {A} (m : exec A) : keeps m → keeps (attempt m).
Proof.
  intros Hm c c' r. unfold attempt. specialize (Hm c).
  destruct (m c) as [c1 [a|e|w|]] eqn:E; intros Hr Hfin; injection Hr as <- <-; try done.
  - by apply (Hm c1 (Ok a)).
  - by apply (Hm c1 (Err e)).
Qed.

(** [get] tells the continuation the state it starts in. *)
Lemma keeps_get {A} (f : Core → exec A) : (∀ c, keeps_at c (f c)) → keeps (get ≫= f).
Proof. intros Hf c c' r Hr. by apply (Hf c c' r). Qed.

Lemma keeps_at_modify {A} (g : Core → Core) (m : exec A) c :
  P c (g c) → keeps m → keeps_at c (modify g ;; m).
Proof. intros Hg Hm c' r Hr Hfin. etrans; [exact Hg|]. by eapply Hm. Qed.

Lemma keeps_here {A} (m : exec A) c : keeps m → keeps_at c m.
Proof. intros Hm. apply Hm. Qed.

Lemma keeps_each {A} (f : A → exec unit) l : Forall (λ x, keeps (f x)) l → keeps (each f l).
Proof. induction 1; simpl; [apply keeps_ret|]. apply keeps_bind; [done|]. by intros _. Qed.

Lemma keeps_each_rev {A} (f : A → exec unit) l :
  Forall (λ x, keeps (f x)) l → keeps (each_rev f l).
Proof. induction 1; simpl; [apply keeps_ret|]. apply keeps_bind; [done|]. by intros _. Qed.
End Keeps.

(** ** The relation *)

Section Kept.
Context `{World}.

Record kept (c c' : Core) : Prop := {
  kept_depth : 0 ≤ call_depth c → call_depth c' = call_depth c;
  kept_pinned : pinned_dispatch c' = pinned_dispatch c;
  kept_classes : class_init c ⊆ class_init c';
  kept_hosts : ∀ k, is_Some (hosts c' !! k) ↔ is_Some (hosts c !! k);
  kept_pool : pool_ok (frame_pool c) → pool_ok (frame_pool c');
  kept_restored : session_restored_symbols c' ⊆ session_restored_symbols c;
}.

#[global] Instance kept_preorder : PreOrder kept.
Proof.
  split.
  - intros c. by split.
  - intros a b c [H1 H2 H3 H4 H5 H6] [J1 J2 J3 J4 J5 J6]. split.
    + intros Ha. rewrite J1, H1; auto. by rewrite H1.
    + congruence.
    + by etrans.
    + intros k. by rewrite J4.
    + auto.
    + by etrans.
Qed.

(** A change of the parts [kept] does not speak of. *)
Lemma kept_same c c' :
  call_depth c' = call_depth c → pinned_dispatch c' = pinned_dispatch c →
  class_init c' = class_init c → hosts c' = hosts c → frame_pool c' = frame_pool c →
  session_restored_symbols c' = session_restored_symbols c → kept c c'.
Proof. intros E1 E2 E3 E4 E5 E6. split; rewrite ?E1, ?E2, ?E3, ?E4, ?E5, ?E6; done. Qed.
End Kept.

Create HintDb keeps discriminated.
#[export] Hint Resolve keeps_ret keeps_lift keeps_reads keeps_fetch : keeps.

(** Goes through a computation, leaving the steps that change what [kept]
    speaks of. *)
Ltac keeps_step :=
  match goal with
  | |- keeps _ _ => solve [eauto with keeps typeclass_instances]
  | |- keeps _ (get ≫= _) => apply keeps_get; intros ?
  | |- keeps _ (_ ≫= _) => apply keeps_bind; [apply _| |intros ?]
  | |- keeps_at _ _ (modify _ ;; _) =>
      apply keeps_at_modify; [apply _| solve [by apply kept_same] |]
  | |- keeps _ (modify _) => apply keeps_modify; intros ?; solve [by apply kept_same]
  | |- keeps _ (attempt _) => apply keeps_attempt
  | |- keeps _ (match ?x with _ => _ end) => destruct x
  | |- keeps_at _ _ (match ?x with _ => _ end) => destruct x eqn:?
  | |- keeps_at _ _ _ => apply keeps_here
  | |- keeps _ (fun _ => _) => intros ?
  end.
Ltac keeps_solve := repeat keeps_step.

Section Runs.
Context `{World} `{!Seam} `{Allocator} `{Floats.Platform}.

Abbreviation K m := (keeps kept m).

(** ** Primitives *)

Lemma object_put_keeps handle instance span : K (object_put handle instance span).
Proof.
  intros c c' r. unfold object_put. destruct (heap_set _ _ _ _ _). intros [= <- <-] _. by apply kept_same.
Qed.
Lemma memory_set_keeps handle i v span : K (memory_set handle i v span).
Proof.
  intros c c' r. unfold memory_set. destruct (heap_set _ _ _ _ _). intros [= <- <-] _. by apply kept_same.
Qed.
Lemma objects_insert_keeps handle i span : K (objects_insert handle i span).
Proof.
  intros c c' r. unfold objects_insert. destruct (insert _ _ _ _ _). intros [= <- <-] _.
  by apply kept_same.
Qed.
Lemma memory_insert_keeps handle n v span : K (memory_insert handle n v span).
Proof.
  intros c c' r. unfold memory_insert. destruct (insert _ _ _ _ _). intros [= <- <-] _.
  by apply kept_same.
Qed.
Lemma write_output_keeps text span : K (write_output text span).
Proof.
  intros c c' r. unfold write_output. destruct (write_text _ _). intros [= <- <-] _.
  by apply kept_same.
Qed.
Lemma arc_run_keeps {A} (m : st ArcError ArcCore A) span : K (arc_run m span).
Proof.
  intros c c' r. unfold arc_run. destruct (m _). intros [= <- <-] _. by apply kept_same.
Qed.
#[local] Hint Resolve object_put_keeps memory_set_keeps objects_insert_keeps memory_insert_keeps
  write_output_keeps arc_run_keeps : keeps.

Lemma memory_len_keeps handle span : K (memory_len handle span).
Proof. apply keeps_reads, _. Qed.
Lemma object_get_keeps handle span : K (object_get handle span).
Proof. apply keeps_reads, _. Qed.
Lemma memory_get_keeps handle i span : K (memory_get handle i span).
Proof. apply keeps_reads, _. Qed.
Lemma weak_read_keeps v : K (weak_read v).
Proof. apply keeps_fetch, _. Qed.
#[local] Hint Resolve memory_len_keeps object_get_keeps memory_get_keeps weak_read_keeps : keeps.

Lemma allocate_object_keeps class span : K (allocate_object class span).
Proof. unfold allocate_object, register_allocation. keeps_solve. Qed.
Lemma allocate_region_keeps element arguments frame span :
  K (allocate_region element arguments frame span).
Proof. unfold allocate_region, register_allocation. keeps_solve. Qed.
#[local] Hint Resolve allocate_object_keeps allocate_region_keeps : keeps.

(** ** Places *)

Lemma index_value_keeps object index span : K (index_value object index span).
Proof. unfold index_value. keeps_solve. Qed.
#[local] Hint Resolve index_value_keeps : keeps.
Lemma element_at_keeps target indices span : K (element_at target indices span).
Proof. unfold element_at. keeps_solve. Qed.
Lemma field_at_keeps v fields span : K (field_at v fields span).
Proof. revert v. induction fields as [|f fields IH]; intros v; simpl; keeps_solve. Qed.
Lemma member_of_keeps object name field span : K (member_of object name field span).
Proof. unfold member_of. keeps_solve. Qed.
#[local] Hint Resolve element_at_keeps field_at_keeps member_of_keeps : keeps.
Lemma object_store_keeps handle slot name context v span :
  K slot → K (object_store handle slot name context v span).
Proof. intros Hs. unfold object_store. keeps_solve. Qed.
Lemma object_load_keeps handle slot name context span :
  K slot → K (object_load handle slot name context span).
Proof. intros Hs. unfold object_load. keeps_solve. Qed.
#[local] Hint Resolve object_store_keeps object_load_keeps : keeps.
Lemma set_index_keeps target indices v span : K (set_index target indices v span).
Proof. revert target. induction indices as [|i rest IH]; intros target; simpl; keeps_solve. Qed.
#[local] Hint Resolve set_index_keeps : keeps.
Lemma set_member_value_keeps frame object name field v span :
  K (set_member_value frame object name field v span).
Proof. unfold set_member_value. keeps_solve. Qed.
Lemma set_member_index_value_keeps frame object name field indices v span :
  K (set_member_index_value frame object name field indices v span).
Proof. unfold set_member_index_value. keeps_solve. Qed.
Lemma set_field_index_path_keeps target path fields indices v span :
  K (set_field_index_path target path fields indices v span).
Proof.
  revert target fields. induction path as [|n path IH]; intros target [|f fields]; simpl; keeps_solve.
Qed.
Lemma set_field_path_keeps target path fields v span :
  K (set_field_path target path fields v span).
Proof.
  revert target fields. induction path as [|n path IH]; intros target [|f fields]; simpl; keeps_solve.
Qed.
Lemma coerce_to_keeps v ty span : K (coerce_to v ty span).
Proof. unfold coerce_to, check_pointer. keeps_solve. Qed.
#[local] Hint Resolve set_member_value_keeps set_member_index_value_keeps set_field_index_path_keeps
  set_field_path_keeps coerce_to_keeps : keeps.

(** ** Providers *)

Lemma hosts_put_kept (c : Core) key p p' :
  hosts c !! key = Some p → kept c (with_hosts (<[key := p']> (delete key (hosts c))) c).
Proof.
  intros Hp. split; try done. intros k. cbn [hosts with_hosts].
  destruct (decide (k = key)) as [->|Hne].
  - rewrite lookup_insert_eq, Hp. by split; eexists.
  - by rewrite lookup_insert_ne, lookup_delete_ne.
Qed.

Lemma ask_libraries_keeps missing ask keys : K missing → K (ask_libraries missing ask keys).
Proof.
  intros Hm. induction keys as [|key keys IH]; simpl; [keeps_solve|].
  apply keeps_get. intros c. destruct (libraries c !! key) as [p|]; [|keeps_solve].
  destruct (ask p) as [p' r]. keeps_solve.
Qed.

Lemma ask_hosts_keeps ask keys span : K (ask_hosts ask keys span).
Proof.
  induction keys as [|key keys IH]; simpl; [keeps_solve|].
  apply keeps_get. intros c. destruct (hosts c !! key) as [p|] eqn:Hp; [|keeps_solve].
  destruct (ask p) as [p' r]. apply keeps_at_modify; [apply _|by eapply hosts_put_kept|].
  destruct r; keeps_solve.
Qed.
#[local] Hint Resolve ask_libraries_keeps ask_hosts_keeps : keeps.

Lemma library_allocate_in_keeps library class span : K (library_allocate_in library class span).
Proof. unfold library_allocate_in. keeps_solve. Qed.
#[local] Hint Resolve library_allocate_in_keeps : keeps.
Lemma library_allocate_keeps type_name span : K (library_allocate type_name span).
Proof. unfold library_allocate. keeps_solve. Qed.
Lemma library_release_keeps v span : K (library_release v span).
Proof. unfold library_release. keeps_solve. Qed.
Lemma library_retain_keeps v span : K (library_retain v span).
Proof. unfold library_retain. keeps_solve. Qed.
Lemma host_retain_keeps v span : K (host_retain v span).
Proof. unfold host_retain. keeps_solve. Qed.
Lemma host_release_keeps v span : K (host_release v span).
Proof. unfold host_release. keeps_solve. Qed.
Lemma host_allocate_keeps capability class span : K (host_allocate capability class span).
Proof.
  unfold host_allocate. apply keeps_get. intros c.
  destruct (hosts c !! capability) as [p|] eqn:Hp; [|keeps_solve].
  destruct (p_allocate p class span) as [p' r].
  apply keeps_at_modify; [apply _|by eapply hosts_put_kept|]. destruct r; keeps_solve.
Qed.
Lemma notify_object_destroyed_keeps handle : K (notify_object_destroyed handle).
Proof. unfold notify_object_destroyed. keeps_solve. Qed.
#[local] Hint Resolve library_allocate_keeps library_release_keeps library_retain_keeps
  host_retain_keeps host_release_keeps host_allocate_keeps notify_object_destroyed_keeps : keeps.

(** ** Calls *)

(** Every call [R] serves keeps the relation. *)
Record rec_kept (R : Rec) : Prop := {
  call_kept name arguments span : K (r_call R name arguments span);
  library_kept library member arguments span : K (r_library_call R library member arguments span);
  function_kept f arguments : K (r_function R f arguments);
}.

Context (R : Rec) (HR : rec_kept R).
#[local] Hint Resolve HR call_kept library_kept function_kept : keeps.

Lemma answer_keeps {A} (m : exec A) : K m → K (answer m).
Proof. intros Hm. unfold answer. keeps_solve. Qed.
Lemma answer_option_keeps {A} (m : exec (option (result A))) : K m → K (answer_option m).
Proof. intros Hm. unfold answer_option, answer. keeps_solve. Qed.
#[local] Hint Resolve answer_keeps answer_option_keeps : keeps.

Lemma run_prog_keeps {A} (p : Prog A) : K (run_prog R p).
Proof. induction p; simpl; keeps_solve. Qed.

Lemma answer_no_err {A} (m : exec A) c c' e : answer m c ≠ (c', Err e).
Proof.
  unfold answer, attempt, mbind, st_bind. by destruct (m c) as [c1 [a|e1|w|]].
Qed.

(** A provider always answers: an error of a request is data to it. *)
Lemma run_prog_no_err {A} (p : Prog A) c c' e : run_prog R p c ≠ (c', Err e).
Proof.
  assert (∀ B C (m : exec B) (f : B → exec C) c c' e,
    (∀ c' e, m c ≠ (c', Err e)) → (∀ b c c' e, f b c ≠ (c', Err e)) → (m ≫= f) c ≠ (c', Err e))
    as Hbind.
  { clear. intros B C m f c c' e Hm Hf. unfold mbind, st_bind. specialize (Hm c' e).
    destruct (m c) as [c1 [b|e1|w|]]; try congruence. apply Hf. }
  assert (∀ B (m : exec (option (result B))) c c' e,
    (∀ c c' e, m c ≠ (c', Err e)) → answer_option m c ≠ (c', Err e)) as Hopt.
  { intros B m c2 c2' e2 Hm. unfold answer_option. apply Hbind; [intros; apply Hm|].
    intros [r|] c3 c3' e3; [|done]. apply Hbind; [intros; apply answer_no_err|done]. }
  assert (∀ l cl sp c c' e, library_allocate_in l cl sp c ≠ (c', Err e)) as Hall.
  { clear. intros l cl sp c c' e. unfold library_allocate_in, get, mbind, st_bind.
    destruct (libraries c !! l) as [p|]; [|done]. by destruct (p_allocate p cl sp). }
  assert (∀ v sp c c' e, library_release v sp c ≠ (c', Err e)) as Hrel.
  { clear. intros v sp c c' e. unfold library_release. unfold get, mbind at 1, st_bind at 1.
    generalize (key_order (libraries c)) as keys. intros keys. revert c.
    induction keys as [|k keys IH]; intros c; simpl; [done|].
    unfold get, modify, mbind, st_bind. destruct (libraries c !! k) as [p|]; [|done].
    destruct (p_release p v sp) as [p' [r|]]; [done|]. apply IH. }
  revert c c' e.
  induction p as [a|k IH|f k IH|name args sp k IH|l m args sp k IH|t k IH|k IH|cl sp k IH
                 |l cl sp k IH|v sp k IH|l k IH|l p k IH]; intros c c' e; simpl.
  - done.
  - apply IH.
  - apply Hbind; [done | intros; apply IH].
  - apply Hbind; [intros; apply answer_no_err | intros; apply IH].
  - apply Hbind; [intros; apply answer_no_err | intros; apply IH].
  - unfold get, modify, mbind, st_bind. destruct (write_text _ _). apply IH.
  - unfold get, modify, mbind, st_bind. destruct (flush _). apply IH.
  - apply Hbind; [intros; apply answer_no_err | intros; apply IH].
  - apply Hbind; [intros; by apply Hopt | intros; apply IH].
  - apply Hbind; [intros; by apply Hopt | intros; apply IH].
  - unfold get, modify, mbind, st_bind. apply IH.
  - apply Hbind; [done | intros; apply IH].
Qed.

#[local] Hint Resolve run_prog_keeps : keeps.

Lemma library_call_keeps library member arguments span :
  K (library_call R library member arguments span).
Proof. unfold library_call. keeps_solve. Qed.

(** A capability is out of the registry while it serves a call, and back in it
    afterwards. *)
Lemma host_provider_call_keeps capability member arguments span :
  K (host_provider_call R capability member arguments span).
Proof.
  intros c c' r. unfold host_provider_call, get, modify, mbind at 1, st_bind at 1.
  destruct (hosts c !! capability) as [p|] eqn:Hp; [|intros [= <- <-] _; reflexivity].
  unfold mbind, st_bind. cbv beta.
  match goal with |- context [run_prog R _ ?x] => set (c1 := x) end.
  pose proof (run_prog_keeps (p_call p member arguments span) c1) as Hk.
  pose proof (run_prog_no_err (p_call p member arguments span) c1) as He.
  destruct (run_prog R _ c1) as [c2 [[p' v]|e|w|]] eqn:E;
    [| by destruct (He c2 e) | by intros [= <- <-] | by intros [= <- <-]].
  intros [= <- <-] _. destruct (Hk c2 (Ok (p', v)) E I) as [H1' H2' H3' H4' H5'].
  split; try done. intros k. cbn [hosts with_hosts].
  destruct (decide (k = capability)) as [->|Hne].
  - rewrite lookup_insert_eq, Hp. by split; eexists.
  - rewrite lookup_insert_ne by done. rewrite H4'. unfold c1. cbn [hosts with_hosts].
    by rewrite lookup_delete_ne.
Qed.

(** The depth and the pin a call adds are gone when it returns, also when it
    fails. *)
Lemma one_deeper_keeps {A} pinned (m : exec A) : K m → K (one_deeper pinned m).
Proof.
  intros Hm c c' r.
  assert (one_deeper pinned m c =
    let pins := match pinned with Some p => p :: pinned_dispatch c | None => pinned_dispatch c end in
    let '(c2, res) := attempt m (with_call_depth (call_depth c + 1) (with_pinned_dispatch pins c)) in
    match res with
    | Ok res =>
        let c3 := with_call_depth (Z.max 0 (call_depth c2 - 1)) c2 in
        (match pinned with
         | Some _ => with_pinned_dispatch (tail (pinned_dispatch c3)) c3
         | None => c3
         end, Ok res)
    | Err e => (c2, Err e)
    | Panic w => (c2, Panic w)
    | Fuel => (c2, Fuel)
    end) as ->.
  { destruct c, pinned as [p|]; unfold one_deeper; cbv [push_pinned pop_pinned modify mbind st_bind mret st_ret];
      by destruct (attempt m _) as [c2 [res|e|w|]]. }
  cbv zeta. set (c1 := with_call_depth _ (with_pinned_dispatch _ c)).
  unfold attempt. destruct (m c1) as [c2 res] eqn:E.
  destruct res as [a|e|w|]; intros [= <- <-] Hf; try done;
    (destruct (Hm c1 c2 _ E I) as [K1 K2 K3 K4 K5 K6]; unfold c1 in *; cbn in K1, K2, K3, K4, K5, K6;
     destruct pinned; split; cbn; first [done | intros Hd; rewrite K1; lia | by rewrite K2]).
Qed.

Lemma call_function_keeps callee arguments span : K (call_function R callee arguments span).
Proof.
  unfold call_function. apply keeps_get. intros c. destruct (_ <? _); apply keeps_here; [keeps_solve|].
  apply keeps_bind; [apply _|apply one_deeper_keeps; keeps_solve|]. intros a. keeps_solve.
Qed.

#[local] Hint Resolve library_call_keeps host_provider_call_keeps call_function_keeps : keeps.

Lemma intrinsic_stopping_keeps : K intrinsic_stopping.
Proof. unfold intrinsic_stopping. keeps_solve. Qed.
Lemma intrinsic_stop_code_keeps : K intrinsic_stop_code.
Proof. unfold intrinsic_stop_code. keeps_solve. Qed.
#[local] Hint Resolve intrinsic_stopping_keeps intrinsic_stop_code_keeps : keeps.

Lemma call_named_keeps name arguments span : K (call_named R name arguments span).
Proof. unfold call_named, call_host_name, call_resolved. keeps_solve. Qed.

(** ** Ownership *)

Lemma retain_owned_value_keeps v span : K (retain_owned_value v span).
Proof.
  induction v as [l IH|n l IH|v Hv] using Value_ind'; simpl.
  - by apply keeps_each; [apply _|].
  - by apply keeps_each; [apply _|].
  - destruct v; try discriminate; simpl; keeps_solve.
Qed.

Lemma memory_remove_keeps handle : K (memory_remove handle).
Proof. unfold memory_remove. keeps_solve. Qed.
Lemma objects_remove_keeps handle : K (objects_remove handle).
Proof. unfold objects_remove. keeps_solve. Qed.
#[local] Hint Resolve retain_owned_value_keeps memory_remove_keeps objects_remove_keeps : keeps.

Lemma destroy_object_keeps handle class span : K (destroy_object R handle class span).
Proof. unfold destroy_object, destroy_step. keeps_solve. Qed.
#[local] Hint Resolve destroy_object_keeps : keeps.

Lemma release_owned_value_keeps v span : K (release_owned_value R v span).
Proof.
  induction v as [l IH|n l IH|v Hv] using Value_ind'; simpl.
  - by apply keeps_each; [apply _|].
  - by apply keeps_each_rev; [apply _|].
  - destruct v; try discriminate; simpl; keeps_solve.
Qed.
#[local] Hint Resolve release_owned_value_keeps : keeps.

Lemma release_value_keeps v span : K (release_value R v span).
Proof. unfold release_value. keeps_solve. Qed.
Lemma default_named_keeps name span : K (default_named R name span).
Proof. unfold default_named. keeps_solve. Qed.
#[local] Hint Resolve release_value_keeps default_named_keeps : keeps.

Lemma default_value_keeps ty dimensions span : K (default_value R ty dimensions span).
Proof.
  revert dimensions. induction ty as [ps r _ _|e d IH|e l _|ts IH|t Ht] using BType_ind';
    intros dimensions; simpl.
  - keeps_solve.
  - keeps_solve.
  - keeps_solve.
  - destruct IH as [|t ts Ht _]; [keeps_solve|]. destruct t; first [apply Ht | keeps_solve].
  - destruct t; try discriminate; simpl; keeps_solve.
Qed.
#[local] Hint Resolve default_value_keeps : keeps.

(** ** Instructions *)

(** A computation between two changes of the state. *)
Lemma keeps_around {A} (g h : Core → Core) (m : exec A) c :
  (∀ c2, kept (g c) c2 → kept c c2 ∧ kept c (h c2)) → K m →
  keeps_at kept c (modify g ;; m ;; modify h).
Proof.
  intros Hgh Hm c' r. unfold modify, mbind, st_bind. destruct (m (g c)) as [c2 [a|e|w|]] eqn:E;
    intros [= <- <-] Hf; try done.
  - apply Hgh. by apply (Hm (g c) c2 (Ok a)).
  - apply Hgh. by apply (Hm (g c) c2 (Err e)).
Qed.

(** Initialising a class changes no status but its own, which had none. *)
Lemma ensure_class_keeps class span : K (ensure_class R class span).
Proof.
  unfold ensure_class. apply keeps_get. intros c. destruct (class_init c !! class) as [[]|] eqn:Hi;
    [apply keeps_here; keeps_solve..|].
  apply keeps_around; [|keeps_solve]. intros c2 [K1 K2 K3 K4 K5 K6]. cbn in K1, K2, K3, K4, K5, K6.
  assert (class_init c ⊆ class_init c2) as Hsub by (etrans; [by apply insert_subseteq | exact K3]).
  split; split; cbn; try done. by apply insert_subseteq_r.
Qed.

Lemma ownership_frame_keeps : K ownership_frame.
Proof. unfold ownership_frame. keeps_solve. Qed.
Lemma put_ownership_frame_keeps f : K (put_ownership_frame f).
Proof. unfold put_ownership_frame. keeps_solve. Qed.
Lemma capture_keeps f : K (capture f).
Proof.
  unfold capture. apply keeps_modify. intros c. destruct (_ =? _); by apply kept_same.
Qed.
Lemma when_previous_keeps previous read : K read → K (when_previous previous read).
Proof. intros Hr. unfold when_previous. keeps_solve. Qed.
Lemma coerced_at_keeps frame source ty span : K (coerced_at frame source ty span).
Proof. unfold coerced_at. keeps_solve. Qed.
#[local] Hint Resolve ensure_class_keeps ownership_frame_keeps put_ownership_frame_keeps
  capture_keeps when_previous_keeps coerced_at_keeps : keeps.

Lemma i_load_keeps destination symbol span frame : K (i_load destination symbol span frame).
Proof. unfold i_load. keeps_solve. Qed.
Lemma i_store_keeps symbol source previous ty span frame :
  K (i_store symbol source previous ty span frame).
Proof.
  unfold i_store. apply keeps_get. intros c. destruct (bool_decide _); [|apply keeps_here; keeps_solve].
  apply keeps_at_modify; [apply _| |keeps_solve]. split; cbn; try done. set_solver.
Qed.
Lemma i_binary_keeps destination operator left right ty span frame :
  K (i_binary destination operator left right ty span frame).
Proof. unfold i_binary. keeps_solve. Qed.
Lemma i_input_keeps destination prompt ty span frame : K (i_input destination prompt ty span frame).
Proof. unfold i_input, input_prompt. keeps_solve. Qed.
Lemma i_print_keeps printed span frame : K (i_print printed span frame).
Proof.
  unfold i_print. assert (∀ first, K (print_values frame first printed span)) as Hp.
  { induction printed as [|p printed IH]; intros first; simpl; keeps_solve. }
  keeps_solve.
Qed.
Lemma allocate_keeps type_name arguments ty span frame :
  K (allocate type_name arguments ty span frame).
Proof. unfold allocate. keeps_solve. Qed.
Lemma length_of_keeps v span : K (length_of v span).
Proof. unfold length_of. keeps_solve. Qed.
#[local] Hint Resolve i_load_keeps i_store_keeps i_binary_keeps i_input_keeps i_print_keeps
  allocate_keeps length_of_keeps : keeps.

Lemma instruction_keeps i frame : K (instruction R i frame).
Proof.
  destruct i; simpl; try solve [keeps_solve];
    unfold i_default, i_retain, i_take, i_take_member, i_end_binding, i_constant, i_copy, i_unary,
      i_cast, i_call, i_vector, i_index, i_member, i_set_index, i_set_member_index,
      i_set_field_index, i_set_static_index, i_length, i_size_of, i_console, i_allocate, i_release,
      i_set_member, i_set_field, i_load_static, i_store_static; keeps_solve;
    apply when_previous_keeps; keeps_solve.
Qed.
#[local] Hint Resolve instruction_keeps : keeps.

(** ** Functions *)

Lemma check_cancel_keeps span : K (check_cancel span).
Proof. unfold check_cancel. keeps_solve. Qed.
#[local] Hint Resolve check_cancel_keeps : keeps.

Lemma run_instructions_keeps previous l frame : K (run_instructions R previous l frame).
Proof.
  revert frame. induction l as [|i l IH]; intros frame; simpl; [keeps_solve|].
  apply keeps_bind; [apply _|keeps_solve|]. intros _. apply keeps_bind; [apply _| |].
  - destruct i; keeps_solve.
  - intros frame'. keeps_solve.
Qed.
#[local] Hint Resolve run_instructions_keeps : keeps.

Lemma give_back_keeps frame : K (give_back frame).
Proof.
  unfold give_back. apply keeps_modify. intros c. split; try done. apply pool_give_back_ok.
Qed.
Lemma pop_ownership_frame_keeps : K pop_ownership_frame.
Proof. unfold pop_ownership_frame. keeps_solve. Qed.
#[local] Hint Resolve give_back_keeps pop_ownership_frame_keeps : keeps.

Lemma run_blocks_keeps n f block previous frame : K (run_blocks R n f block previous frame).
Proof.
  revert block previous frame. induction n as [|n IH]; intros block previous frame; simpl;
    [keeps_solve|].
  unfold finish_return, finish_stop. keeps_solve.
Qed.

Lemma enter_keeps f arguments : K (enter f arguments).
Proof.
  unfold enter. apply keeps_get. intros c. destruct (pool_take (frame_pool c)) as [pool frame] eqn:Hp.
  apply keeps_at_modify; [apply _| |keeps_solve].
  split; try done. intros Hok. by apply (pool_take_ok _ _ _ Hok Hp).
Qed.

Lemma exec_function_keeps n f arguments : K (function R n f arguments).
Proof.
  unfold function. destruct (negb _); [keeps_solve|].
  apply keeps_bind; [apply _|apply enter_keeps|]. intros frame. apply run_blocks_keeps.
Qed.
End Runs.

Lemma machine_keeps `{World} `{!Seam} `{Allocator} `{Floats.Platform} n : rec_kept (machine n).
Proof.
  induction n as [|n IH]; split; intros; cbn [machine exhausted r_call r_library_call r_function];
    try apply keeps_lift, _.
  - by apply call_named_keeps.
  - by apply library_call_keeps.
  - by apply exec_function_keeps.
Qed.

(** C2: Whatever a call does and however it ends, it leaves the call depth, the
    dispatch pins and the set of host capabilities as they were, undoes no
    class initialisation, and gives the pool empty frames only. *)
Theorem run_kept `{World} `{!Seam} `{Allocator} `{Floats.Platform} (n : nat) (name : string)
    (arguments : list Value) (span : Span) (c c' : Core) (r : result Value)
    (Hrun : r_call (machine n) name arguments span c = (c', r)) (Hr : finished r) :
  (0 ≤ call_depth c → call_depth c' = call_depth c)
  ∧ pinned_dispatch c' = pinned_dispatch c
  ∧ class_init c ⊆ class_init c'
  ∧ (∀ capability, is_Some (hosts c' !! capability) ↔ is_Some (hosts c !! capability))
  ∧ (pool_ok (frame_pool c) → pool_ok (frame_pool c')).
Proof.
  destruct (call_kept _ (machine_keeps n) name arguments span c c' r Hrun Hr). done.
Qed.

(** A call starts with empty value slots and its own parameters only, whatever
    frame the pool lent it. *)
Theorem enter_fresh `{World} (f : Function) (arguments : list Value) (c c' : Core) (frame : Frame)
    (Hpool : pool_ok (frame_pool c)) (Hdepth : call_depth c ≠ 0)
    (Henter : enter f arguments c = (c', Ok frame)) :
  values frame = [] ∧ symbols frame = bind_parameters f arguments ∅
  ∧ ownership_frames c' = mkOwnershipFrame ∅ (fn_weak_symbols f) :: ownership_frames c
  ∧ pool_ok (frame_pool c').
Proof.
  revert Henter. unfold enter, get, modify, mbind, st_bind.
  destruct (pool_take (frame_pool c)) as [pool lent] eqn:Hp.
  destruct (pool_take_ok _ _ _ Hpool Hp) as [Hpool' ->].
  apply Z.eqb_neq in Hdepth. rewrite Hdepth. intros [= <- <-]. done.
Qed.

(** The static initialiser of a class runs at most once: [EnsureClass] does
    nothing for a class that is ready, diagnoses one that is being
    initialised, and otherwise runs the initialiser and leaves the class ready,
    or, when the initialiser fails, marked as running for good.  No other
    class loses its status meanwhile. *)
Theorem ensure_class_spec `{World} `{!Seam} `{Allocator} `{Floats.Platform} (n : nat)
    (class : string) (span : Span) (c c' : Core) (r : result unit)
    (Hrun : ensure_class (machine n) class span c = (c', r)) (Hr : finished r) :
  match class_init c !! class with
  | Some Ready => c' = c ∧ r = Ok tt
  | Some Running => c' = c ∧ raises r STATIC_INITIALIZATION_CYCLE span
  | None =>
      class_init c' !! class = Some (match r with Ok _ => Ready | _ => Running end)
      ∧ class_init c ⊆ class_init c'
  end.
Proof.
  pose proof (kept_classes _ _ (ensure_class_keeps (machine n) (machine_keeps n) class span c c' r Hrun Hr))
    as Hsub.
  unfold ensure_class, get, mbind at 1, st_bind at 1 in Hrun.
  destruct (class_init c !! class) as [[]|] eqn:Hi.
  - injection Hrun as <- <-. done.
  - injection Hrun as <- <-. done.
  - split; [|done]. set (c1 := with_class_init (<[class:=Running]> (class_init c)) c) in *.
    match type of Hrun with (_ ≫= (λ _, ?m ≫= _)) _ = _ =>
      assert (keeps kept m) as Hm
    end.
    { destruct (function_of_kind module Init class) as [f|]; [|apply keeps_ret, _].
      apply keeps_bind; [apply _|apply (function_kept _ (machine_keeps n))|].
      intros [v|code]; [apply keeps_ret, _|]. apply keeps_modify. intros c2. by apply kept_same. }
    match type of Hm with keeps kept ?m => set (init := m) in * end.
    unfold modify, mbind, st_bind in Hrun. fold c1 in Hrun.
    destruct (init c1) as [c2 [[]|e|w|]] eqn:E; injection Hrun as <- <-; try done.
    + cbn. by rewrite lookup_insert_eq.
    + pose proof (kept_classes _ _ (Hm c1 c2 (Err e) E I)) as Hk.
      apply (lookup_weaken (class_init c1)); [|done]. cbn. by rewrite lookup_insert_eq.
Qed.

(** ** Witnesses *)

Lemma run_kept_witness :
  let W := sample_world fact_module in
  let S := sample_seam fact_module in
  let run := r_call (machine (H := W) (H0 := S) (H1 := test_allocator) (H2 := test_platform) 30)
               "Fact" [VInteger 5 Int32] default_span (sample_core fact_module) in
  let c := sample_core fact_module in
  (0 ≤ call_depth (H := W) c → call_depth (H := W) run.1 = call_depth (H := W) c)
  ∧ pinned_dispatch (H := W) run.1 = pinned_dispatch (H := W) c
  ∧ class_init (H := W) c ⊆ class_init (H := W) run.1
  ∧ (∀ capability, is_Some (hosts (H := W) run.1 !! capability) ↔ is_Some (hosts (H := W) c !! capability))
  ∧ (pool_ok (frame_pool (H := W) c) → pool_ok (frame_pool (H := W) run.1)).
Proof.
  cbv zeta.
  apply (run_kept (H := sample_world fact_module) (H0 := sample_seam fact_module)
           (H1 := test_allocator) (H2 := test_platform) 30 "Fact" [VInteger 5 Int32] default_span
           (sample_core fact_module) _ (Ok (VInteger 120 Int32))).
  - vm_compute. reflexivity.
  - exact I.
Defined.

Lemma enter_fresh_witness :
  let W := sample_world fact_module in
  let c := with_call_depth (H := W) 1 (with_frame_pool (H := W) [empty_frame] (sample_core fact_module)) in
  let '(c', r) := enter (H := W) fact_function [VInteger 5 Int32] c in
  match r with
  | Ok frame =>
      values frame = [] ∧ symbols frame = bind_parameters fact_function [VInteger 5 Int32] ∅
      ∧ ownership_frames (H := W) c'
        = mkOwnershipFrame ∅ (fn_weak_symbols fact_function) :: ownership_frames (H := W) c
      ∧ pool_ok (frame_pool (H := W) c')
  | _ => False
  end.
Proof.
  cbv zeta.
  match goal with |- let '(_, _) := ?e in _ => destruct e as [c' [frame|d|w|]] eqn:E end;
    [|discriminate E..].
  eapply (enter_fresh (H := sample_world fact_module) fact_function [VInteger 5 Int32] _ c' frame);
    [|discriminate|exact E].
  split; [cbn; unfold FRAME_POOL_CAPACITY; lia | by constructor].
Defined.

Lemma ensure_class_spec_witness :
  let W := sample_world class_module in
  let S := sample_seam class_module in
  let M := machine (H := W) (H0 := S) (H1 := test_allocator) (H2 := test_platform) 30 in
  let c := sample_core class_module in
  class_init (H := W) (ensure_class (H := W) M "B" default_span c).1 !! "B" = Some Ready
  ∧ class_init (H := W) (ensure_class (H := W) M "A" default_span c).1 !! "A" = Some Running.
Proof.
  cbv zeta. split.
  - destruct (ensure_class (machine 30) "B" default_span (sample_core class_module)) as [c' r] eqn:E.
    assert (r = Ok tt) as -> by (vm_compute in E; by injection E as <- <-).
    apply (ensure_class_spec (H := sample_world class_module) (H0 := sample_seam class_module)
             (H1 := test_allocator) (H2 := test_platform) 30 "B" default_span
             (sample_core class_module) c' (Ok tt) E I).
  - destruct (ensure_class (machine 30) "A" default_span (sample_core class_module)) as [c' r] eqn:E.
    assert (∃ d, r = Err d) as [d ->] by (vm_compute in E; injection E as <- <-; by eexists).
    apply (ensure_class_spec (H := sample_world class_module) (H0 := sample_seam class_module)
             (H1 := test_allocator) (H2 := test_platform) 30 "A" default_span
             (sample_core class_module) c' (Err d) E I).
Defined.
