(* ===== verification/Ownership.v ===== *)
(** * Ownership: allocation, retain and release keep the heaps and the counts together

    The executor keeps the payloads of objects and regions in two heaps, and
    their reference counts in the core of [Arc].  [coherent] says that every
    payload belongs to an allocation the core knows.  The theorems show that
    allocation gives a handle nobody holds, that retaining and releasing a
    value change the counts by the references the value holds, and that the
    last release frees exactly what it names. *)

From S2P Require Import Prelude Text Diag Types ClassModel Civil Arc Heap Values Operators Ir Frames Machine Places Providers Exec Sample.

#[local] Open Scope string_scope.
#[local] Open Scope Z_scope.

(** ** Coherence *)

(** The core knows the owner of every payload. *)
Definition backed {T} (h : Heap T) (a : ArcCore) : Prop :=
  ∀ i g p, h !! i = Some (Some (g, p)) →
    1 ≤ g < 2 ^ 32 ∧ Z.of_nat i < 2 ^ 32 ∧ is_Some (lookup_obj a (from_parts (Z.of_nat i) g)).

Definition valid_handle (handle : Handle) : Prop :=
  0 ≤ h_slot handle < 2 ^ 32 ∧ 1 ≤ h_generation handle < 2 ^ 32.

Record coherent `{World} (c : Core) : Prop := {
  co_arc : wf (arc_core c);
  co_objects : backed (objects c) (arc_core c);
  co_memory : backed (memory c) (arc_core c);
}.

(** ** Handles and ids *)

Lemma id_of_range handle : valid_handle handle → 0 < id_of handle ≤ u64_MAX.
Proof.
  intros [Hs Hg]. unfold id_of. rewrite from_parts_sum by lia. unfold u64_MAX. lia.
Qed.

Lemma id_of_parts handle : valid_handle handle →
  id_index (id_of handle) = h_slot handle ∧ id_generation (id_of handle) = h_generation handle.
Proof. intros [Hs Hg]. unfold id_of. apply from_parts_inv. lia. Qed.

Lemma handle_of_id_of handle : valid_handle handle → handle_of (id_of handle) = handle.
Proof.
  intros Hv. unfold handle_of. destruct (id_of_parts handle Hv) as [-> ->]. by destruct handle.
Qed.

Lemma id_of_inj a b : valid_handle a → valid_handle b → id_of a = id_of b → a = b.
Proof.
  intros Ha Hb E. rewrite <- (handle_of_id_of a Ha), <- (handle_of_id_of b Hb). by rewrite E.
Qed.

Lemma id_of_handle_of id : 0 ≤ id ≤ u64_MAX → id_of (handle_of id) = id.
Proof.
  intros Hid. pose proof (id_bounds id Hid) as [H1 H2].
  destruct (from_parts_inv (id_index id) (id_generation id) H2) as [E1 E2].
  unfold id_of, handle_of. cbn [h_slot h_generation]. by apply id_ext.
Qed.

Lemma lookup_obj_range a id st : lookup_obj a id = Some st → 0 ≤ id ≤ u64_MAX.
Proof.
  unfold lookup_obj. destruct (in_range 0 u64_MAX id) eqn:E; [|discriminate].
  intros _. by apply in_range_spec.
Qed.

(** A slot holds one object at a time. *)
Lemma lookup_obj_unique a i j si sj :
  lookup_obj a i = Some si → lookup_obj a j = Some sj → id_index i = id_index j → i = j.
Proof.
  intros Hi Hj E. apply id_ext; [done|]. unfold lookup_obj in *.
  destruct (in_range 0 u64_MAX i), (in_range 0 u64_MAX j); try discriminate.
  destruct (slot_of a i) as [s|] eqn:H1; [|discriminate].
  destruct (slot_of a j) as [t|] eqn:H2; [|discriminate].
  apply slot_of_Some in H1 as (L1 & G1 & _). apply slot_of_Some in H2 as (L2 & G2 & _).
  rewrite E in L1. rewrite L1 in L2. injection L2 as ->. congruence.
Qed.

(** A payload's handle is the one the heap owns it under. *)
Lemma owned_backed {T} (h : Heap T) a handle p :
  backed h a → 0 ≤ h_slot handle → owned h handle = Some p →
  valid_handle handle ∧ is_Some (lookup_obj a (id_of handle)).
Proof.
  intros Hb Hs. unfold owned. destruct (h !! _) as [[[g q]|]|] eqn:Hl; try discriminate.
  destruct (g =? h_generation handle) eqn:E; [|discriminate]. z_bools. intros [= ->]. subst g.
  destruct (Hb _ _ _ Hl) as (Hg & Hi & Hk). rewrite Z2Nat.id in * by done.
  split; [by split|]. exact Hk.
Qed.

(** A change of the counts that forgets no object of the heap. *)
Lemma backed_mono {T} (h : Heap T) a a' :
  backed h a →
  (∀ i g p, h !! i = Some (Some (g, p)) → is_Some (lookup_obj a (from_parts (Z.of_nat i) g)) →
     is_Some (lookup_obj a' (from_parts (Z.of_nat i) g))) →
  backed h a'.
Proof. intros Hb Hk i g p Hl. destruct (Hb i g p Hl) as (H1 & H2 & H3). eauto 6. Qed.

(** ** Operations of the core, inside the executor *)

Section Arc_ops.
Context `{World}.

Lemma arc_run_refines o span (c : Core) :
  wf (arc_core c) → valid_op o → has_room o (arc_core c) →
  ∃ a out m', run_op_at (site span) o (arc_core c) = (a, Ok out)
    ∧ arc_spec (lookup_obj (arc_core c)) o out m' ∧ (∀ j, lookup_obj a j = m' j) ∧ wf a.
Proof.
  intros Hwf Hop Hroom. destruct o; simpl in Hop.
  - by apply register_refines.
  - by apply retain_refines.
  - by apply release_refines.
  - by apply finish_refines.
Qed.

Lemma register_spec class span (c : Core) :
  wf (arc_core c) → has_room (OpRegister class 0) (arc_core c) →
  ∃ a handle, register_allocation class span c = (with_arc_core a c, Ok handle)
    ∧ valid_handle handle ∧ lookup_obj (arc_core c) (id_of handle) = None ∧ wf a
    ∧ (∀ j, lookup_obj a j = put_obj (lookup_obj (arc_core c)) (id_of handle) (Some (Live 1)) j).
Proof.
  intros Hwf Hroom.
  destruct (arc_run_refines (OpRegister class 0) span c Hwf I Hroom) as (a & out & m' & Hrun & Hspec & Hl & Hwf').
  inversion Hspec as [? ? id Hid Hnone| | | | | | | | | |]; subst.
  assert (valid_handle (handle_of id)) as Hv.
  { pose proof (Hl id) as Hlid. unfold put_obj in Hlid. rewrite Z.eqb_refl in Hlid.
    pose proof Hlid as Hin. unfold lookup_obj in Hin. destruct (in_range _ _ id); [|discriminate].
    destruct (slot_of a id) as [s|] eqn:Es; [|discriminate].
    apply slot_of_Some in Es as (Hs & Hg & _). destruct (wf_slot a Hwf' _ _ Hs) as (Hgen & _).
    pose proof (id_bounds id ltac:(lia)). unfold valid_handle, handle_of. cbn. lia. }
  exists a, (handle_of id).
  rewrite id_of_handle_of by lia. split; [|done].
  unfold register_allocation, arc_run, mbind, st_bind. unfold run_op_at, mbind, st_bind in Hrun.
  destruct (register class 0 (site span) (arc_core c)) as [a' [i|e|w|]]; try discriminate.
  injection Hrun as -> ->. done.
Qed.
(** The outcome an operation's contract gives, as the executor sees it. *)
Lemma retain_live id n span (c : Core) :
  wf (arc_core c) → lookup_obj (arc_core c) id = Some (Live n) → n < u64_MAX →
  ∃ a, arc_run (retain id (site span)) span c = (with_arc_core a c, Ok (n + 1)) ∧ wf a
    ∧ ∀ j, lookup_obj a j = put_obj (lookup_obj (arc_core c)) id (Some (Live (n + 1))) j.
Proof.
  intros Hwf Hl Hn. pose proof (lookup_obj_range _ _ _ Hl) as Hid.
  destruct (arc_run_refines (OpRetain id) span c Hwf Hid) as (a & out & m' & Hrun & Hspec & Hm & Hwf').
  { intros s Hs. pose proof (lookup_obj_slot _ _ _ Hid Hs) as Hl'. rewrite Hl in Hl'.
    unfold state_of in Hl'. destruct (destroying s); [discriminate|]. by injection Hl' as ->. }
  unfold run_op_at, mbind, st_bind in Hrun. unfold arc_run.
  destruct (retain id (site span) (arc_core c)) as [a' [k|e|w|]]; try discriminate;
    injection Hrun as -> <-; inversion Hspec; subst; try congruence.
  exists a. assert (n0 = n) as -> by congruence. done.
Qed.

Lemma release_last id span (c : Core) :
  wf (arc_core c) → lookup_obj (arc_core c) id = Some (Live 1) →
  ∃ a, arc_run (release id (site span)) span c = (with_arc_core a c, Ok true) ∧ wf a
    ∧ ∀ j, lookup_obj a j = put_obj (lookup_obj (arc_core c)) id (Some Destroying) j.
Proof.
  intros Hwf Hl. pose proof (lookup_obj_range _ _ _ Hl) as Hid.
  destruct (arc_run_refines (OpRelease id) span c Hwf Hid I) as (a & out & m' & Hrun & Hspec & Hm & Hwf').
  unfold run_op_at, mbind, st_bind in Hrun. unfold arc_run.
  destruct (release id (site span) (arc_core c)) as [a' [k|e|w|]]; try discriminate;
    injection Hrun as -> <-; inversion Hspec; subst; try congruence.
  - by exists a.
  - assert (n = 1) as -> by congruence. lia.
Qed.

Lemma release_live id n span (c : Core) :
  wf (arc_core c) → lookup_obj (arc_core c) id = Some (Live n) → 1 < n →
  ∃ a, arc_run (release id (site span)) span c = (with_arc_core a c, Ok false) ∧ wf a
    ∧ ∀ j, lookup_obj a j = put_obj (lookup_obj (arc_core c)) id (Some (Live (n - 1))) j.
Proof.
  intros Hwf Hl Hn. pose proof (lookup_obj_range _ _ _ Hl) as Hid.
  destruct (arc_run_refines (OpRelease id) span c Hwf Hid I) as (a & out & m' & Hrun & Hspec & Hm & Hwf').
  unfold run_op_at, mbind, st_bind in Hrun. unfold arc_run.
  destruct (release id (site span) (arc_core c)) as [a' [k|e|w|]]; try discriminate;
    injection Hrun as -> <-; inversion Hspec; subst; try congruence.
  - assert (n = 1) by congruence. lia.
  - exists a. assert (n0 = n) as -> by congruence. done.
Qed.

Lemma finish_last id span (c : Core) :
  wf (arc_core c) → lookup_obj (arc_core c) id = Some Destroying →
  ∃ a, arc_run (finish_destroy id) span c = (with_arc_core a c, Ok tt) ∧ wf a
    ∧ ∀ j, lookup_obj a j = put_obj (lookup_obj (arc_core c)) id None j.
Proof.
  intros Hwf Hl. pose proof (lookup_obj_range _ _ _ Hl) as Hid.
  destruct (arc_run_refines (OpFinish id) span c Hwf Hid I) as (a & out & m' & Hrun & Hspec & Hm & Hwf').
  unfold run_op_at, mbind, st_bind in Hrun. unfold arc_run.
  destruct (finish_destroy id (arc_core c)) as [a' [[]|e|w|]]; try discriminate;
    injection Hrun as -> <-; inversion Hspec; subst; try congruence.
  by exists a.
Qed.

Lemma release_frozen id span (c : Core) :
  wf (arc_core c) → lookup_obj (arc_core c) id = Some Destroying →
  ∃ a, arc_run (release id (site span)) span c = (with_arc_core a c, Ok false) ∧ wf a
    ∧ ∀ j, lookup_obj a j = lookup_obj (arc_core c) j.
Proof.
  intros Hwf Hl. pose proof (lookup_obj_range _ _ _ Hl) as Hid.
  destruct (arc_run_refines (OpRelease id) span c Hwf Hid I) as (a & out & m' & Hrun & Hspec & Hm & Hwf').
  unfold run_op_at, mbind, st_bind in Hrun. unfold arc_run.
  destruct (release id (site span) (arc_core c)) as [a' [k|e|w|]]; try discriminate;
    injection Hrun as -> <-; inversion Hspec; subst; try congruence.
  by exists a.
Qed.

Lemma release_dead id span (c : Core) :
  wf (arc_core c) → 0 ≤ id ≤ u64_MAX → lookup_obj (arc_core c) id = None →
  ∃ a d, arc_run (release id (site span)) span c = (with_arc_core a c, Err d)
    ∧ d_id d = INVALID_IR ∧ d_span d = span ∧ wf a
    ∧ ∀ j, lookup_obj a j = lookup_obj (arc_core c) j.
Proof.
  intros Hwf Hid Hl.
  destruct (arc_run_refines (OpRelease id) span c Hwf Hid I) as (a & out & m' & Hrun & Hspec & Hm & Hwf').
  unfold run_op_at, mbind, st_bind in Hrun. unfold arc_run.
  destruct (release id (site span) (arc_core c)) as [a' [k|e|w|]]; try discriminate;
    injection Hrun as -> <-; inversion Hspec; subst; try congruence.
  eexists a, _. split; [reflexivity|]. done.
Qed.

Lemma alive_lookup a id :
  0 ≤ id ≤ u64_MAX → wf a → alive a id = true ↔ ∃ n, lookup_obj a id = Some (Live n).
Proof.
  intros Hid Hwf. unfold alive, lookup_obj, slot_of. apply in_range_spec in Hid. rewrite Hid.
  destruct (slots a !! _) as [s|] eqn:Hs; [|split; [discriminate | by intros [n [=]]]].
  destruct (wf_slot a Hwf _ _ Hs) as (_ & Hst & Hd). unfold slot_ok, state_of.
  destruct (generation s =? id_generation id); simpl; [|split; [discriminate | by intros [n [=]]]].
  destruct (0 <? strong s) eqn:E; z_bools; simpl.
  - destruct (destroying s) eqn:D; [rewrite Hd in E by done; lia|]. rewrite ?D. split; eauto.
  - clear. destruct (destroying s) eqn:D; simpl; rewrite ?D;
      (split; [discriminate | intros [n Hn]; discriminate Hn]).
Qed.
End Arc_ops.

(** ** Allocation *)

Section Allocation.
Context `{World} `{Allocator}.

(** A handle the core has just issued names no payload: its slot is free in
    every backed heap. *)
Lemma insert_fresh {T} (h : Heap T) a a' handle length (initial : T) span :
  backed h a → valid_handle handle → lookup_obj a (id_of handle) = None →
  (∀ j, lookup_obj a' j = put_obj (lookup_obj a) (id_of handle) (Some (Live 1)) j) →
  can_reserve length = true →
  ∃ h', insert h handle length initial span = (h', Ok tt) ∧ backed h' a' ∧ backed h a'
    ∧ owned h handle = None.
Proof.
  intros Hb Hv Hnone Ha' Hres. destruct Hv as [Hslot Hgen].
  assert (Hkeep : ∀ id, is_Some (lookup_obj a id) → is_Some (lookup_obj a' id)).
  { intros id Hid. rewrite Ha'. unfold put_obj. by destruct (id =? _). }
  assert (Hnew : lookup_obj a' (id_of handle) = Some (Live 1)).
  { rewrite Ha'. unfold put_obj. by rewrite Z.eqb_refl. }
  assert (Hempty : ∀ p, h !! Z.to_nat (h_slot handle) ≠ Some (Some p)).
  { intros [g p] Hl. destruct (Hb _ _ _ Hl) as (Hg & _ & Hk).
    rewrite Z2Nat.id in Hk by lia. destruct (Hkeep _ Hk) as [st Hst].
    assert (from_parts (h_slot handle) g = id_of handle) as E.
    { apply (lookup_obj_unique a' _ _ st (Live 1) Hst Hnew).
      unfold id_of. destruct (from_parts_inv (h_slot handle) g) as [-> _]; [lia|].
      by destruct (from_parts_inv (h_slot handle) (h_generation handle)) as [-> _]; [lia|]. }
    rewrite E, Hnone in Hk. by destruct Hk. }
  assert (Hback : backed h a') by (apply (backed_mono h a a' Hb); intros; by apply Hkeep).
  set (slot := Z.to_nat (h_slot handle)) in *.
  assert (Hgrow : grow h (S slot) !! slot = Some None).
  { destruct (grow h (S slot) !! slot) as [[p|]|] eqn:E; [|done|].
    - apply grow_lookup in E. by apply Hempty in E.
    - apply lookup_ge_None_1 in E. pose proof (grow_length h (S slot)). lia. }
  exists (<[slot := Some (h_generation handle, replicate (Z.to_nat length) initial)]> (grow h (S slot))).
  split.
  { unfold insert, allocation_payload. rewrite Hres. fold slot. by rewrite Hgrow. }
  split; [|split; [exact Hback|]].
  - intros i g p. destruct (decide (i = slot)) as [->|Hne].
    + rewrite list_lookup_insert_eq by exact (lookup_lt_Some _ _ _ Hgrow). intros [= <- <-].
      unfold slot. rewrite Z2Nat.id by lia. split; [lia|]. split; [lia|].
      change (from_parts _ _) with (id_of handle). rewrite Hnew. by eexists.
    + rewrite list_lookup_insert_ne by done. intros Hl. apply grow_lookup in Hl. by apply Hback in Hl.
  - unfold owned. fold slot. destruct (h !! slot) as [[[g p]|]|]; try done.
    by destruct (Hempty (g, p)).
Qed.

(** [NEW Class()]: the object has a handle no object or region had, one
    reference and its fields [NULL]; nothing else changes. *)
Theorem allocate_object_spec (class : string) (span : Span) (c : Core)
    (Hc : coherent c) (Hroom : has_room (OpRegister class 0) (arc_core c))
    (Hres : can_reserve 1 = true) :
  let count := match field_layouts module !! class with
    | Some layout => length (l_fields layout)
    | None => 0%nat
    end in
  ∃ c' handle, allocate_object class span c = (c', Ok (VObject handle class))
    ∧ coherent c' ∧ valid_handle handle
    ∧ lookup_obj (arc_core c) (id_of handle) = None
    ∧ (∀ id, lookup_obj (arc_core c') id
             = put_obj (lookup_obj (arc_core c)) (id_of handle) (Some (Live 1)) id)
    ∧ (∀ other, 0 ≤ h_slot other →
         heap_get (objects c') other 0 span =
         if decide (other = handle) then Ok (replicate count VNull)
         else heap_get (objects c) other 0 span)
    ∧ memory c' = memory c ∧ statics c' = statics c.
Proof.
  intros count. destruct Hc as [Hwf Hobj Hmem].
  destruct (register_spec class span c Hwf Hroom) as (a & handle & Hreg & Hv & Hnone & Hwf' & Ha).
  destruct (insert_fresh (objects c) _ a handle 1 (replicate count VNull) span Hobj Hv Hnone Ha Hres)
    as (h' & Hins & Hb' & _ & _).
  exists (with_objects h' (with_arc_core a c)), handle.
  split; [|split; [|split; [done|split; [done|split; [done|split; [|done]]]]]].
  - unfold allocate_object. fold count. unfold mbind, st_bind. rewrite Hreg.
    unfold objects_insert. cbn [objects with_arc_core]. by rewrite Hins.
  - split; cbn; [done|done|]. apply (backed_mono _ (arc_core c)); [done|].
    intros i g p _ Hk. rewrite Ha. unfold put_obj. by destruct (_ =? _).
  - intros other Hother. cbn [objects with_objects].
    rewrite (insert_reads (objects c) h' handle other 1 (replicate count VNull) span span 0);
      first [done | apply Hv].
Qed.

(** [NEW T[n]] of a numeric element: [n] zeros under a new handle, whatever
    the count the program computed, as long as the host can hold them. *)
Theorem allocate_region_spec (element : BType) (count size : Z) (zero : Value) (span : Span)
    (frame : Frame) (argument : ValueId) (c : Core)
    (Hc : coherent c) (Hroom : has_room (OpRegister (display_element element) 0) (arc_core c))
    (Hcount : integer_at frame argument span = Ok count) (Hrange : 0 ≤ count)
    (Hsize : pointer_element_size element = Some size) (Hfits : count * size ≤ isize_MAX)
    (Hzero : pointer_element_default element span = Ok zero)
    (Hres : can_reserve count = true) :
  ∃ c' handle, allocate_region element [argument] frame span c
      = (c', Ok (VPointer handle (default 0 (member_code element))))
    ∧ coherent c' ∧ valid_handle handle
    ∧ lookup_obj (arc_core c) (id_of handle) = None
    ∧ (∀ id, lookup_obj (arc_core c') id
             = put_obj (lookup_obj (arc_core c)) (id_of handle) (Some (Live 1)) id)
    ∧ (∀ other i, 0 ≤ h_slot other → 0 ≤ i →
         heap_get (memory c') other i span =
         if decide (other = handle) then
           if i <? count then Ok zero else region_index_error i (Z.max 0 count) span
         else heap_get (memory c) other i span)
    ∧ objects c' = objects c ∧ statics c' = statics c.
Proof.
  destruct Hc as [Hwf Hobj Hmem].
  assert (1 ≤ size) as Hsize1.
  { destruct element; try discriminate; simpl in Hsize; destruct k; injection Hsize as <-; simpl; lia. }
  unfold isize_MAX, i64_MAX in Hfits.
  assert (count ≤ usize_MAX) as Hu by (unfold usize_MAX, u64_MAX; nia).
  destruct (register_spec (display_element element) span c Hwf Hroom)
    as (a & handle & Hreg & Hv & Hnone & Hwf' & Ha).
  destruct (insert_fresh (memory c) _ a handle count zero span Hmem Hv Hnone Ha Hres)
    as (h' & Hins & Hb' & _ & _).
  exists (with_memory h' (with_arc_core a c)), handle.
  split; [|split; [|split; [done|split; [done|split; [done|split; [|done]]]]]].
  - unfold allocate_region, region_count. rewrite Hcount. cbn [mbind res_bind].
    assert (count <? 0 = false) as -> by (apply Z.ltb_ge; lia).
    unfold try_from. assert (in_range 0 usize_MAX count = true) as -> by (by apply in_range_spec).
    unfold mbind, st_bind, lift. cbv beta iota. rewrite Hsize. cbv beta iota.
    unfold u64_checked_mul. assert (count * size <=? u64_MAX = true) as -> by (unfold u64_MAX; apply Z.leb_le; lia).
    cbv beta iota. assert (isize_MAX <? count * size = false) as -> by (unfold isize_MAX, i64_MAX; apply Z.ltb_ge; lia).
    rewrite Hzero. cbv beta iota. rewrite Hreg. unfold memory_insert. cbn [memory with_arc_core].
    by rewrite Hins.
  - split; cbn; [done| |done]. apply (backed_mono _ (arc_core c)); [done|].
    intros i g p _ Hk. rewrite Ha. unfold put_obj. by destruct (_ =? _).
  - intros other i Hother Hi. cbn [memory with_memory].
    rewrite (insert_reads (memory c) h' handle other count zero span span i);
      first [done | apply Hv].
Qed.
End Allocation.

(** ** References a value holds *)

(** The ids of the objects and regions in a value, once per occurrence. *)
Fixpoint ids (v : Value) : list ObjectId :=
  match v with
  | VObject handle _ | VPointer handle _ => [id_of handle]
  | VVector l | VRecord _ l => flat_map ids l
  | _ => []
  end.

Definition occurrences (id : ObjectId) (l : list ObjectId) : Z :=
  Z.of_nat (count_occ Z.eq_dec l id).

Lemma occurrences_app id l m : occurrences id (l ++ m) = occurrences id l + occurrences id m.
Proof. unfold occurrences. by rewrite count_occ_app, Nat2Z.inj_add. Qed.

Lemma occurrences_nonneg id l : 0 ≤ occurrences id l.
Proof. unfold occurrences. lia. Qed.

Lemma occurrences_in id l : id ∈ l → 1 ≤ occurrences id l.
Proof.
  intros Hin. apply list_elem_of_In in Hin. apply (count_occ_In Z.eq_dec) in Hin.
  unfold occurrences. lia.
Qed.

Lemma occurrences_not_in id l : id ∉ l → occurrences id l = 0.
Proof.
  intros Hin. rewrite list_elem_of_In in Hin. apply (count_occ_not_In Z.eq_dec) in Hin.
  unfold occurrences. lia.
Qed.

Lemma occurrences_perm id l m : l ≡ₚ m → occurrences id l = occurrences id m.
Proof.
  intros Hp. unfold occurrences. f_equal.
  apply (proj1 (Permutation_count_occ Z.eq_dec l m) Hp).
Qed.

(** The count of a live object after [k] more references. *)
Definition bump (k : Z) (o : option ObjState) : option ObjState :=
  match o with Some (Live n) => Some (Live (n + k)) | o => o end.

Lemma bump_0 o : bump 0 o = o.
Proof. destruct o as [[n|]|]; simpl; [|done..]. by rewrite Z.add_0_r. Qed.

Lemma bump_bump j k o : bump j (bump k o) = bump (k + j) o.
Proof. destruct o as [[n|]|]; simpl; [|done..]. by rewrite Z.add_assoc. Qed.

Section Counts.
Context `{World} `{!Seam} `{Allocator} `{Floats.Platform}.

(** What the counts must be for [sign] times the references [l] to be added
    without exhausting a count or giving up the last reference. *)
Definition admits (sign : Z) (a : ArcCore) (l : list ObjectId) : Prop :=
  ∀ id, id ∈ l → ∃ n, lookup_obj a id = Some (Live n)
    ∧ 1 ≤ n + sign * occurrences id l ≤ u64_MAX.

(** [m] adds [sign] times the references [l] to the counts, and does nothing
    else. *)
Definition adds (sign : Z) (m : exec unit) (l : list ObjectId) : Prop :=
  ∀ c, wf (arc_core c) → admits sign (arc_core c) l →
    ∃ a, m c = (with_arc_core a c, Ok tt) ∧ wf a
      ∧ ∀ id, lookup_obj a id = bump (sign * occurrences id l) (lookup_obj (arc_core c) id).

Lemma with_own_arc_core (c : Core) : with_arc_core (arc_core c) c = c.
Proof. by destruct c. Qed.

Lemma adds_nothing sign m : (∀ c, m c = (c, Ok tt)) → adds sign m [].
Proof.
  intros Hm c Hwf _. exists (arc_core c). rewrite with_own_arc_core. split; [apply Hm|].
  split; [done|]. intros id. replace (sign * _) with 0 by (unfold occurrences; simpl; lia).
  by rewrite bump_0.
Qed.

Lemma adds_seq sign m1 m2 l1 l2 :
  sign = 1 ∨ sign = -1 →
  adds sign m1 l1 → adds sign m2 l2 → adds sign (m1 ;; m2) (l1 ++ l2).
Proof.
  intros Hsign Hm1 Hm2 c Hwf Hadm. destruct (Hm1 c Hwf) as (a1 & E1 & W1 & L1).
  { intros id Hin. destruct (Hadm id) as (n & Hn & Hr); [by apply elem_of_app; left|].
    exists n. split; [done|]. rewrite occurrences_app in Hr.
    pose proof (occurrences_nonneg id l1). pose proof (occurrences_nonneg id l2).
    assert (1 ≤ n ≤ u64_MAX).
    { unfold lookup_obj in Hn. destruct (in_range _ _ id); [|discriminate].
      destruct (slot_of (arc_core c) id) as [s|] eqn:Es; [|discriminate].
      apply slot_of_Some in Es as (Hs & _ & Hl). destruct (wf_slot _ Hwf _ _ Hs) as (_ & Hst & _).
      simpl in Hn. unfold state_of in Hn. destruct (destroying s) eqn:D; [discriminate|].
      injection Hn as <-. destruct Hl; [|congruence]. unfold u64_MAX. lia. }
    destruct Hsign as [-> | ->]; lia. }
  destruct (Hm2 (with_arc_core a1 c)) as (a2 & E2 & W2 & L2); cbn [arc_core with_arc_core].
  { done. }
  { intros id Hin. destruct (Hadm id) as (n & Hn & Hr); [by apply elem_of_app; right|].
    exists (n + sign * occurrences id l1). rewrite L1, Hn. split; [done|].
    rewrite occurrences_app in Hr. lia. }
  exists a2. split; [|split; [done|]].
  - unfold mbind, st_bind. rewrite E1, E2. done.
  - intros id. rewrite L2. cbn [arc_core with_arc_core]. rewrite L1, bump_bump, occurrences_app.
    f_equal. lia.
Qed.

Lemma adds_perm sign m l l' : l ≡ₚ l' → adds sign m l → adds sign m l'.
Proof.
  intros Hp Hm c Hwf Hadm. destruct (Hm c Hwf) as (a & E & W & L).
  { intros id Hin. destruct (Hadm id) as (n & Hn & Hr); [by rewrite <- Hp|].
    exists n. by rewrite (occurrences_perm id l l' Hp). }
  exists a. split; [done|]. split; [done|]. intros id. by rewrite L, (occurrences_perm id l l' Hp).
Qed.

Lemma adds_each sign f l : sign = 1 ∨ sign = -1 →
  Forall (λ v, adds sign (f v) (ids v)) l → adds sign (each f l) (flat_map ids l).
Proof.
  intros Hsign. induction 1 as [|v l Hv _ IH]; simpl; [by apply adds_nothing|].
  by apply adds_seq.
Qed.

Lemma adds_each_rev sign f l : sign = 1 ∨ sign = -1 →
  Forall (λ v, adds sign (f v) (ids v)) l → adds sign (each_rev f l) (flat_map ids l).
Proof.
  intros Hsign. induction 1 as [|v l Hv _ IH]; simpl; [by apply adds_nothing|].
  apply (adds_perm _ _ (flat_map ids l ++ ids v)); [apply Permutation_app_comm|].
  by apply adds_seq.
Qed.

Lemma adds_one sign m id :
  (∀ n c, wf (arc_core c) → lookup_obj (arc_core c) id = Some (Live n) →
     1 ≤ n + sign ≤ u64_MAX →
     ∃ a, m c = (with_arc_core a c, Ok tt) ∧ wf a ∧
       ∀ j, lookup_obj a j = put_obj (lookup_obj (arc_core c)) id (Some (Live (n + sign))) j) →
  adds sign m [id].
Proof.
  intros Hm c Hwf Hadm. destruct (Hadm id) as (n & Hn & Hr); [apply list_elem_of_here|].
  assert (occurrences id [id] = 1) as Hone.
  { unfold occurrences. simpl. by destruct (Z.eq_dec id id). }
  rewrite Hone in Hr. destruct (Hm n c Hwf Hn) as (a & E & W & L); [lia|].
  exists a. split; [done|]. split; [done|]. intros j. rewrite L. unfold put_obj.
  destruct (j =? id) eqn:Ej; z_bools.
  - subst j. rewrite Hone, Hn. simpl. do 2 f_equal. lia.
  - rewrite occurrences_not_in; [by rewrite Z.mul_0_r, bump_0|].
    intros Hin. apply list_elem_of_singleton in Hin. done.
Qed.
(** ** Retaining and releasing a value *)

(** A value no provider and no counter owns. *)
Definition plain (v : Value) : bool :=
  match v with
  | VInteger _ _ | VFloat _ _ | VBoolean _ | VString _ | VFunction _ | VType _ | VNull
  | VNotAvailable | VEndOfFile | VError _ _ _ | VHostConsole | VHostArgs | VHandle _ | VDate _
  | VTime _ | VTimeZone _ => true
  | _ => false
  end.

(** A value made of plain values, objects and regions. *)
Fixpoint counted (v : Value) : bool :=
  match v with
  | VVector l | VRecord _ l => forallb counted l
  | VObject _ _ | VPointer _ _ => true
  | v => plain v
  end.

Lemma counted_forall (P : Value → Prop) l :
  Forall (λ v, counted v = true → P v) l → forallb counted l = true → Forall P l.
Proof.
  induction 1 as [|v l Hv _ IH]; simpl; [constructor|].
  intros [H1' H2']%andb_prop. constructor; auto.
Qed.

(** [Provider::retain] answers [None] for a value that is not the provider's. *)
Hypothesis Hquiet : ∀ p v span, plain v = true → p_retain p v span = (p, None).

Lemma ask_libraries_quiet missing ask keys c :
  (∀ k p, libraries c !! k = Some p → ask p = (p, None)) →
  (∀ k, k ∈ keys → is_Some (libraries c !! k)) →
  ask_libraries missing ask keys c = (c, Ok None).
Proof.
  intros Hask Hkeys. induction keys as [|k keys IH]; [done|]. simpl.
  destruct (Hkeys k) as [p Hp]; [apply list_elem_of_here|].
  unfold get, modify, mbind at 1, st_bind at 1. rewrite Hp, (Hask k p Hp).
  unfold mbind, st_bind.
  assert (with_libraries (<[k:=p]> (delete k (libraries c))) c = c) as ->.
  { rewrite insert_delete_id by done. by destruct c. }
  apply IH. intros k' Hk'. apply Hkeys. by apply list_elem_of_further.
Qed.

Lemma library_retain_plain v span c :
  plain v = true → library_retain v span c = (c, Ok None).
Proof.
  intros Hv. unfold library_retain, get, mbind, st_bind. apply ask_libraries_quiet.
  - intros k p _. by apply Hquiet.
  - intros k Hk. by apply key_order_keys.
Qed.

Lemma retain_adds v span :
  counted v = true → adds 1 (retain_owned_value v span) (ids v).
Proof.
  assert (∀ handle, adds 1 (arc_run (retain (id_of handle) (site span)) span ;; mret tt)
            [id_of handle]) as Hone.
  { intros handle. apply adds_one. intros n c Hwf Hl Hr.
    destruct (retain_live _ n span c Hwf Hl) as (a & E & W & L); [lia|].
    exists a. split; [|done]. unfold mbind, st_bind. by rewrite E. }
  induction v as [l IH|n l IH|v Hv] using Value_ind'; simpl; intros Hc.
  - apply adds_each; [by left|]. by apply counted_forall.
  - apply adds_each; [by left|]. by apply counted_forall.
  - destruct v; try discriminate; simpl; try apply Hone;
      (apply adds_nothing; intros c; unfold mbind, st_bind; by rewrite library_retain_plain).
Qed.

Lemma release_adds R v span :
  counted v = true → adds (-1) (release_owned_value R v span) (ids v).
Proof.
  assert (∀ handle m, adds (-1)
            (last ← arc_run (release (id_of handle) (site span)) span;
             if last : bool then m else mret tt) [id_of handle]) as Hone.
  { intros handle m. apply adds_one. intros n c Hwf Hl Hr.
    destruct (release_live _ n span c Hwf Hl) as (a & E & W & L); [lia|].
    exists a. split; [|done]. unfold mbind, st_bind. by rewrite E. }
  induction v as [l IH|n l IH|v Hv] using Value_ind'; simpl; intros Hc.
  - apply adds_each; [by right|]. by apply counted_forall.
  - apply adds_each_rev; [by right|]. by apply counted_forall.
  - destruct v; try discriminate; simpl; try apply Hone; by apply adds_nothing.
Qed.

(** Retaining a value adds one reference per object and region in it, and
    releasing it takes exactly these back: no destructor runs, and the heaps
    are not touched. *)
Theorem retain_release_round_trip (R : Rec) (v : Value) (span : Span) (c : Core)
    (Hwf : wf (arc_core c)) (Hcounted : counted v = true)
    (Hlive : ∀ id, id ∈ ids v → ∃ n, lookup_obj (arc_core c) id = Some (Live n)
       ∧ 1 ≤ n ∧ n + occurrences id (ids v) ≤ u64_MAX) :
  ∃ a1 a2, retain_owned_value v span c = (with_arc_core a1 c, Ok tt)
    ∧ (∀ id, lookup_obj a1 id = bump (occurrences id (ids v)) (lookup_obj (arc_core c) id))
    ∧ release_owned_value R v span (with_arc_core a1 c) = (with_arc_core a2 c, Ok tt)
    ∧ (∀ id, lookup_obj a2 id = lookup_obj (arc_core c) id) ∧ wf a2.
Proof.
  destruct (retain_adds v span Hcounted c Hwf) as (a1 & E1 & W1 & L1).
  { intros id Hin. destruct (Hlive id Hin) as (n & Hn & Hr). exists n. split; [done|].
    pose proof (occurrences_nonneg id (ids v)). lia. }
  destruct (release_adds R v span Hcounted (with_arc_core a1 c)) as (a2 & E2 & W2 & L2).
  { done. }
  { intros id Hin. destruct (Hlive id Hin) as (n & Hn & Hr). cbn [arc_core with_arc_core].
    exists (n + 1 * occurrences id (ids v)). rewrite L1, Hn. split; [done|].
    pose proof (occurrences_nonneg id (ids v)). lia. }
  exists a1, a2. split; [done|]. split; [intros id; by rewrite L1, Z.mul_1_l|].
  split; [done|]. split; [|done]. intros id. rewrite L2. cbn [arc_core with_arc_core].
  rewrite L1, bump_bump. replace (_ + _) with 0 by lia. apply bump_0.
Qed.
End Counts.

(** ** The last release *)

Section Destruction.
Context `{World} `{!Seam} `{Allocator} `{Floats.Platform}.

Lemma remove_lookup {T} (h : Heap T) handle i g p :
  (remove h handle).1 !! i = Some (Some (g, p)) → h !! i = Some (Some (g, p)).
Proof.
  unfold remove. destruct (owned h handle); cbn [fst]; [|done].
  intros Hl. destruct (decide (i = Z.to_nat (h_slot handle))) as [->|Hne].
  - apply list_lookup_insert_Some in Hl as [(_ & [=] & _)|(Hne & _)]. done.
  - by rewrite list_lookup_insert_ne in Hl.
Qed.

(** Freeing the id of [handle] keeps a heap backed, once the heap has no
    payload of it. *)
Lemma backed_free {T} (h : Heap T) a a' handle :
  backed h a → valid_handle handle → owned h handle = None →
  (∀ j, lookup_obj a' j = put_obj (lookup_obj a) (id_of handle) None j) → backed h a'.
Proof.
  intros Hb Hv Hown Ha. apply (backed_mono h a a' Hb). intros i g p Hl Hk.
  rewrite Ha. unfold put_obj. destruct (_ =? _) eqn:E; [|done]. z_bools.
  destruct (Hb _ _ _ Hl) as (Hg & Hi & _).
  assert (mkHandle (Z.of_nat i) g = handle) as <-.
  { apply id_of_inj; [split; cbn; lia|done|exact E]. }
  unfold owned in Hown. cbn in Hown. by rewrite Nat2Z.id, Hl, Z.eqb_refl in Hown.
Qed.

Lemma backed_remove {T} (h : Heap T) a handle : backed h a → backed (remove h handle).1 a.
Proof. intros Hb i g p Hl. apply remove_lookup in Hl. by apply Hb in Hl. Qed.

(** The last release of a region frees it at once: the core forgets it, every
    access to it is diagnosed, a second release is diagnosed too, and every
    other allocation is as before. *)
Theorem release_region_last (R : Rec) (handle : Handle) (element : Z) (span : Span) (c : Core)
    (Hc : coherent c) (Hv : valid_handle handle)
    (Hlast : lookup_obj (arc_core c) (id_of handle) = Some (Live 1))
    (Hkind : owned (objects c) handle = None) :
  ∃ c', release_owned_value R (VPointer handle element) span c = (c', Ok tt)
    ∧ coherent c'
    ∧ (∀ id, lookup_obj (arc_core c') id
             = put_obj (lookup_obj (arc_core c)) (id_of handle) None id)
    ∧ (∀ i, raises (heap_get (memory c') handle i span) USE_AFTER_RELEASE span)
    ∧ raises (release_owned_value R (VPointer handle element) span c').2 INVALID_IR span
    ∧ (∀ other i, 0 ≤ h_slot other → other ≠ handle →
         heap_get (memory c') other i span = heap_get (memory c) other i span)
    ∧ objects c' = objects c.
Proof.
  destruct Hc as [Hwf Hobj Hmem]. pose proof (id_of_range handle Hv) as Hid.
  destruct (release_last _ span c Hwf Hlast) as (a1 & E1 & W1 & L1).
  set (c1 := with_memory (remove (memory c) handle).1 (with_arc_core a1 c)).
  assert (lookup_obj (arc_core c1) (id_of handle) = Some Destroying) as Hd.
  { cbn. rewrite L1. unfold put_obj. by rewrite Z.eqb_refl. }
  destruct (finish_last _ span c1 W1 Hd) as (a2 & E2 & W2 & L2).
  assert (Ha2 : ∀ id, lookup_obj a2 id = put_obj (lookup_obj (arc_core c)) (id_of handle) None id).
  { intros id. rewrite L2. cbn [arc_core c1 with_memory with_arc_core]. unfold put_obj.
    destruct (id =? _) eqn:E; [done|]. rewrite L1. unfold put_obj. by rewrite E. }
  destruct Hv as [Hs Hg].
  pose proof (owned_remove (memory c) handle handle ltac:(lia) ltac:(lia)) as Hown.
  rewrite decide_True in Hown by done.
  exists (with_arc_core a2 c1). split; [|split; [|split; [exact Ha2|split; [|split; [|split; [|done]]]]]].
  - cbn [release_owned_value]. unfold mbind, st_bind. rewrite E1. unfold memory_remove, modify.
    cbn [memory with_arc_core]. fold c1. by rewrite E2.
  - split; cbn [arc_core objects memory with_arc_core with_memory c1]; [done| |].
    + by apply (backed_free _ (arc_core c) a2 handle).
    + apply (backed_free _ (arc_core c) a2 handle); [by apply backed_remove|done|done|done].
  - intros i. by apply heap_get_unowned.
  - assert (lookup_obj a2 (id_of handle) = None) as Hnone.
    { rewrite Ha2. unfold put_obj. by rewrite Z.eqb_refl. }
    destruct (release_dead (id_of handle) span (with_arc_core a2 c1) W2 ltac:(lia) Hnone)
      as (a3 & d & E3 & Hid3 & Hsp & _).
    cbn [release_owned_value]. unfold mbind, st_bind. rewrite E3. done.
  - intros other i Ho Hne. apply heap_get_owned. cbn [memory with_arc_core with_memory c1].
    rewrite owned_remove by lia. by rewrite decide_False.
Qed.

(** The last release of an object starts its destruction: from the first
    instruction of its destructor weak references to it read [NULL], although
    its fields are still there. *)
Theorem release_object_last (R : Rec) (handle : Handle) (class : string) (span : Span) (c : Core)
    (Hc : coherent c) (Hv : valid_handle handle)
    (Hlast : lookup_obj (arc_core c) (id_of handle) = Some (Live 1)) :
  ∃ c1, release_owned_value R (VObject handle class) span c = destroy_object R handle class span c1
    ∧ coherent c1
    ∧ (∀ id, lookup_obj (arc_core c1) id
             = put_obj (lookup_obj (arc_core c)) (id_of handle) (Some Destroying) id)
    ∧ (∀ alias, weak_read (VObject handle alias) c1 = (c1, Ok VNull))
    ∧ objects c1 = objects c ∧ memory c1 = memory c.
Proof.
  destruct Hc as [Hwf Hobj Hmem]. pose proof (id_of_range handle Hv) as Hid.
  destruct (release_last _ span c Hwf Hlast) as (a1 & E1 & W1 & L1).
  assert (Hkeep : ∀ id, is_Some (lookup_obj (arc_core c) id) → is_Some (lookup_obj a1 id)).
  { intros id Hk. rewrite L1. unfold put_obj. by destruct (id =? _). }
  exists (with_arc_core a1 c). split; [|split; [|split; [exact L1|split; [|done]]]].
  - cbn [release_owned_value]. unfold mbind at 1, st_bind at 1. by rewrite E1.
  - split; cbn; [done|..]; (apply (backed_mono _ (arc_core c)); [done|]; intros; by apply Hkeep).
  - intros alias. unfold weak_read, fetch. cbn [arc_core with_arc_core].
    destruct (alive a1 (id_of handle)) eqn:E; [|done].
    apply alive_lookup in E as [n Hn]; [|lia|done]. rewrite L1 in Hn. unfold put_obj in Hn.
    by rewrite Z.eqb_refl in Hn.
Qed.
End Destruction.

(** ** The verifier of the counts *)

Section Verifier.
Context `{World}.

Lemma count_references_all (l : list Value) :
  Forall (λ v, ∀ held id, default 0 (count_references v held !! id)
                          = default 0 (held !! id) + occurrences id (ids v)) l →
  ∀ held id, default 0 (fold_left (λ held v, count_references v held) l held !! id)
             = default 0 (held !! id) + occurrences id (flat_map ids l).
Proof.
  induction 1 as [|v l Hv _ IH]; intros held id; simpl.
  - unfold occurrences. simpl. lia.
  - rewrite IH, Hv, occurrences_app. lia.
Qed.

Lemma count_references_spec v : ∀ held id,
  default 0 (count_references v held !! id) = default 0 (held !! id) + occurrences id (ids v).
Proof.
  assert (∀ handle held id,
    default 0 ((<[id_of handle := default 0 (held !! id_of handle) + 1]> held : gmap Z Z) !! id)
    = default 0 (held !! id) + occurrences id [id_of handle]) as Hone.
  { intros handle held id. unfold occurrences. simpl.
    destruct (Z.eq_dec (id_of handle) id) as [<-|Hne].
    - rewrite lookup_insert_eq. simpl. lia.
    - rewrite lookup_insert_ne by done. lia. }
  induction v as [l IH|n l IH|v Hv] using Value_ind'; intros held id.
  - by apply count_references_all.
  - by apply count_references_all.
  - destruct v; try discriminate; try apply Hone; simpl; unfold occurrences; simpl; lia.
Qed.

(** The values a live allocation holds strongly. *)
Definition held_values (span : Span) (c : Core) (i : ObjectInfo) : list Value :=
  let handle := handle_of (i_id i) in
  match heap_get (objects c) handle 0 span with
  | Ok instance =>
      map snd (List.filter (fun p : nat * Value => negb (slot_is_weak (i_class i) p.1))
        (imap (fun slot v => (slot, v)) instance))
  | _ => match payload (memory c) handle span with Ok elements => elements | _ => [] end
  end.

(** Every reference the program holds: in statics, in the strong fields of
    live objects and in the elements of live regions. *)
Definition program_references (span : Span) (c : Core) : list ObjectId :=
  flat_map ids (map_to_list (statics c)).*2
  ++ flat_map (fun i => flat_map ids (held_values span c i)) (snapshot (arc_core c)).

Lemma count_allocation_spec span c held i id :
  default 0 (count_allocation span c held i !! id)
  = default 0 (held !! id) + occurrences id (flat_map ids (held_values span c i)).
Proof.
  unfold count_allocation, held_values.
  assert (∀ l, Forall (λ v, ∀ held id, default 0 (count_references v held !! id)
                          = default 0 (held !! id) + occurrences id (ids v)) l) as Hall.
  { intros l. apply Forall_forall. intros v _. apply count_references_spec. }
  destruct (heap_get (objects c) _ _ _); [by apply count_references_all|..];
    (destruct (payload (memory c) _ _); [by apply count_references_all|..];
     unfold occurrences; simpl; lia).
Qed.

Lemma held_references_spec span c id :
  default 0 (held_references span c !! id) = occurrences id (program_references span c).
Proof.
  unfold held_references, program_references. rewrite occurrences_app.
  assert (∀ l held, default 0 (fold_left (count_allocation span c) l held !! id)
    = default 0 (held !! id) + occurrences id (flat_map (λ i, flat_map ids (held_values span c i)) l))
    as Hfold.
  { induction l as [|i l IH]; intros held; simpl.
    - unfold occurrences. simpl. lia.
    - rewrite IH, count_allocation_spec, occurrences_app. lia. }
  rewrite Hfold, count_references_all.
  - by rewrite lookup_empty.
  - apply Forall_forall. intros v _. apply count_references_spec.
Qed.

(** The verifier accepts a state exactly when every live object has as many
    strong references as the program holds, the objects of library classes
    apart. *)
Theorem verify_arc_spec (span : Span) (c : Core) :
  verify_arc span c = Ok tt ↔
  ∀ i, i ∈ snapshot (arc_core c) →
    library_object span c i = true
    ∨ i_strong i = occurrences (i_id i) (program_references span c).
Proof.
  assert (∀ i, count_mismatch span c i = false ↔ library_object span c i = true
    ∨ i_strong i = occurrences (i_id i) (program_references span c)) as Hok.
  { intros i. unfold count_mismatch. rewrite held_references_spec.
    destruct (library_object span c i); simpl; [naive_solver|].
    destruct (_ =? _) eqn:E; z_bools; simpl; [naive_solver lia | naive_solver lia]. }
  unfold verify_arc. destruct (List.find _ _) as [i|] eqn:Hf.
  - apply List.find_some in Hf as [Hin Hi]. split; [discriminate|]. intros Hall.
    apply list_elem_of_In in Hin. apply Hall, Hok in Hin. congruence.
  - split; [|done]. intros _ i Hin. apply Hok. apply list_elem_of_In in Hin.
    by apply (List.find_none _ _ Hf).
Qed.
End Verifier.

(** ** Witnesses *)

#[local] Abbreviation empty_module := (functions_module []).
#[local] Existing Instance test_allocator.
#[local] Existing Instance test_platform.

Definition empty_core : @Core (sample_world empty_module) := sample_core empty_module.

(** One region of two numbers under the id 1, with [n] references. *)
Definition region_core (n : Z) : @Core (sample_world empty_module) :=
  with_memory (H := sample_world empty_module) [Some (1, [VInteger 4 Int32; VInteger 5 Int32])]
    (with_arc_core (mkArcCore [mkSlot 1 n false "Int32" 0] [] false 1 []) empty_core).

(** One object without fields under the id 1, with [n] references. *)
Definition object_core (n : Z) : @Core (sample_world empty_module) :=
  with_objects (H := sample_world empty_module) [Some (1, [[]])]
    (with_arc_core (mkArcCore [mkSlot 1 n false "Box" 0] [] false 1 []) empty_core).

Lemma one_slot_wf n class : 1 ≤ n < 2 ^ 64 →
  wf (mkArcCore [mkSlot 1 n false class 0] [] false 1 []).
Proof.
  intros Hn. split; simpl; try lia.
  - intros [|i] s; simpl; [intros [= <-]; simpl; split; [lia|split; [lia|done]] | by destruct i].
  - intros i Hi. by apply elem_of_nil in Hi.
  - constructor.
Qed.

Lemma one_slot_backed {T} n class (data : list T) :
  1 ≤ n → backed [Some (1, data)] (mkArcCore [mkSlot 1 n false class 0] [] false 1 []).
Proof.
  intros Hn [|i] g p; simpl; [|by destruct i]. intros [= <- <-]. split; [lia|]. split; [lia|].
  change (from_parts 0 1) with 1. unfold lookup_obj, slot_of. change (in_range 0 u64_MAX 1) with true.
  change (id_index 1) with 0. simpl. unfold slot_ok. simpl. assert (0 <? n = true) as -> by lia.
  by eexists.
Qed.

Lemma nothing_backed {T} a : backed (T := T) [] a.
Proof. intros i g p. by destruct i. Qed.

Lemma empty_coherent : coherent (H := sample_world empty_module) empty_core.
Proof.
  split; [|apply nothing_backed..]. apply (new_wf 1). split; [discriminate | reflexivity].
Qed.

Lemma region_coherent n : 1 ≤ n < 2 ^ 64 → coherent (H := sample_world empty_module) (region_core n).
Proof. intros Hn. split; [by apply one_slot_wf | apply nothing_backed | apply one_slot_backed; lia]. Qed.

Lemma object_coherent n : 1 ≤ n < 2 ^ 64 → coherent (H := sample_world empty_module) (object_core n).
Proof. intros Hn. split; [by apply one_slot_wf | apply one_slot_backed; lia | apply nothing_backed]. Qed.

Lemma allocate_object_spec_witness :
  let W := sample_world empty_module in
  let count := match field_layouts (@module W) !! "Box" with
    | Some layout => length (l_fields layout)
    | None => 0%nat
    end in
  ∃ c' handle, allocate_object (H := W) "Box" default_span empty_core = (c', Ok (VObject handle "Box"))
    ∧ coherent (H := W) c' ∧ valid_handle handle
    ∧ lookup_obj (arc_core (H := W) empty_core) (id_of handle) = None
    ∧ (∀ id, lookup_obj (arc_core (H := W) c') id
             = put_obj (lookup_obj (arc_core (H := W) empty_core)) (id_of handle) (Some (Live 1)) id)
    ∧ (∀ other, 0 ≤ h_slot other →
         heap_get (objects (H := W) c') other 0 default_span =
         if decide (other = handle) then Ok (replicate count VNull)
         else heap_get (objects (H := W) empty_core) other 0 default_span)
    ∧ memory (H := W) c' = memory (H := W) empty_core
    ∧ statics (H := W) c' = statics (H := W) empty_core.
Proof.
  apply (allocate_object_spec (H := sample_world empty_module) "Box" default_span empty_core).
  - exact empty_coherent.
  - left. reflexivity.
  - reflexivity.
Defined.

(** A frame whose slot 0 holds the count 3. *)
Definition count_frame : Frame := set empty_frame 0 (VInteger 3 Int32).

Lemma allocate_region_spec_witness :
  let W := sample_world empty_module in
  ∃ c' handle, allocate_region (H := W) (TInteger Int32) [0] count_frame default_span empty_core
      = (c', Ok (VPointer handle (default 0 (member_code (TInteger Int32)))))
    ∧ coherent (H := W) c' ∧ valid_handle handle
    ∧ lookup_obj (arc_core (H := W) empty_core) (id_of handle) = None
    ∧ (∀ id, lookup_obj (arc_core (H := W) c') id
             = put_obj (lookup_obj (arc_core (H := W) empty_core)) (id_of handle) (Some (Live 1)) id)
    ∧ (∀ other i, 0 ≤ h_slot other → 0 ≤ i →
         heap_get (memory (H := W) c') other i default_span =
         if decide (other = handle) then
           if i <? 3 then Ok (VInteger 0 Int32) else region_index_error i (Z.max 0 3) default_span
         else heap_get (memory (H := W) empty_core) other i default_span)
    ∧ objects (H := W) c' = objects (H := W) empty_core
    ∧ statics (H := W) c' = statics (H := W) empty_core.
Proof.
  apply (allocate_region_spec (H := sample_world empty_module) (TInteger Int32) 3 4 (VInteger 0 Int32)
           default_span count_frame 0 empty_core); try reflexivity.
  - exact empty_coherent.
  - left. reflexivity.
  - discriminate.
  - discriminate.
Defined.

Lemma retain_release_round_trip_witness :
  let W := sample_world empty_module in
  let v := VVector [VPointer (mkHandle 0 1) 4; VInteger 1 Int32; VPointer (mkHandle 0 1) 4] in
  ∃ a1 a2, retain_owned_value (H := W) (H0 := sample_seam _) v default_span (region_core 1)
      = (with_arc_core (H := W) a1 (region_core 1), Ok tt)
    ∧ (∀ id, lookup_obj a1 id
             = bump (occurrences id (ids v)) (lookup_obj (arc_core (H := W) (region_core 1)) id))
    ∧ release_owned_value (H := W) (H0 := sample_seam _) (@exhausted W) v default_span
        (with_arc_core (H := W) a1 (region_core 1)) = (with_arc_core (H := W) a2 (region_core 1), Ok tt)
    ∧ (∀ id, lookup_obj a2 id = lookup_obj (arc_core (H := W) (region_core 1)) id) ∧ wf a2.
Proof.
  apply (retain_release_round_trip (H := sample_world empty_module)); try done.
  - apply region_coherent. lia.
  - intros id Hin. exists 1.
    assert (id = 1) as -> by (simpl in Hin; rewrite !elem_of_cons, elem_of_nil in Hin; naive_solver).
    split; [reflexivity|]. split; [lia|]. vm_compute. discriminate.
Defined.

Lemma release_region_last_witness :
  let W := sample_world empty_module in
  ∃ c', release_owned_value (H := W) (H0 := sample_seam _) (@exhausted W)
          (VPointer (mkHandle 0 1) 4) default_span (region_core 1) = (c', Ok tt)
    ∧ coherent (H := W) c'
    ∧ (∀ id, lookup_obj (arc_core (H := W) c') id
             = put_obj (lookup_obj (arc_core (H := W) (region_core 1))) (id_of (mkHandle 0 1)) None id)
    ∧ (∀ i, raises (heap_get (memory (H := W) c') (mkHandle 0 1) i default_span)
              USE_AFTER_RELEASE default_span)
    ∧ raises (release_owned_value (H := W) (H0 := sample_seam _) (@exhausted W)
                (VPointer (mkHandle 0 1) 4) default_span c').2 INVALID_IR default_span
    ∧ (∀ other i, 0 ≤ h_slot other → other ≠ mkHandle 0 1 →
         heap_get (memory (H := W) c') other i default_span
         = heap_get (memory (H := W) (region_core 1)) other i default_span)
    ∧ objects (H := W) c' = objects (H := W) (region_core 1).
Proof.
  apply (release_region_last (H := sample_world empty_module)); try done.
  apply region_coherent. lia.
Defined.

Lemma release_object_last_witness :
  let W := sample_world empty_module in
  ∃ c1, release_owned_value (H := W) (H0 := sample_seam _) (@exhausted W)
          (VObject (mkHandle 0 1) "Box") default_span (object_core 1)
        = destroy_object (H := W) (H0 := sample_seam _) (@exhausted W) (mkHandle 0 1) "Box"
            default_span c1
    ∧ coherent (H := W) c1
    ∧ (∀ id, lookup_obj (arc_core (H := W) c1) id
             = put_obj (lookup_obj (arc_core (H := W) (object_core 1))) (id_of (mkHandle 0 1))
                 (Some Destroying) id)
    ∧ (∀ alias, weak_read (H := W) (VObject (mkHandle 0 1) alias) c1 = (c1, Ok VNull))
    ∧ objects (H := W) c1 = objects (H := W) (object_core 1)
    ∧ memory (H := W) c1 = memory (H := W) (object_core 1).
Proof.
  apply (release_object_last (H := sample_world empty_module)); try done.
  apply object_coherent. lia.
Defined.
