(* ===== verification/Session.v ===== *)
(** * Session: turns of an interactive session ([crates/bn_interp/src/session.rs])

    A session keeps the executor's memory, the providers and the values of the
    top-level variables between submissions.  A submission runs the entry
    function of its module in an executor that takes that state over, and
    either commits the state the run left or, when the run raises an error,
    restores the snapshot made before it. *)

From S2P Require Import Prelude Text Diag Types ClassModel Civil Arc Heap Values Operators Ir Frames Machine Places Providers Exec Sample.

#[local] Open Scope string_scope.
#[local] Open Scope Z_scope.

(** ** The state *)

(** [struct ExecutionResult] *)
Record ExecutionResult := mkExecutionResult {
  turn_exit_code : Z;
  returned_value : option Value;
  updated_variables : gmap string Value;
}.

(** [struct SessionState] *)
Record SessionState := mkSessionState {
  s_statics : gmap (string * string) Value;
  s_class_init : gmap string ClassInit;
  s_arc : ArcCore;
  s_objects : Heap Instance;
  s_memory : Heap Value;
  s_pinned_dispatch : list (Handle * string);
  variable_values : gmap string Value;
}.

(** [SessionState::default] *)
Definition default_state : SessionState := mkSessionState ∅ ∅ Arc.new [] [] [] ∅.

(** [struct InteractiveSession]; the host's environment is in the [World]. *)
Record InteractiveSession (Provider : Type) := mkSession {
  state : SessionState;
  session_libraries : gmap string Provider;
  session_hosts : gmap string Provider;
  session_cancel_flag : bool;
}.
Arguments mkSession {Provider}.
Arguments state {Provider}.
Arguments session_libraries {Provider}.
Arguments session_hosts {Provider}.
Arguments session_cancel_flag {Provider}.

(** What [HostEnv] instantiates the providers of a session from. *)
Record Registries (Provider : Type) := mkRegistries {
  instantiate_libraries : gmap string Provider;
  instantiate_hosts : gmap string Provider;
}.
Arguments instantiate_libraries {Provider}.
Arguments instantiate_hosts {Provider}.

(** The names and symbols of a submission's top-level variables, in the order
    the hash map is iterated in. *)
Definition VariableSymbols := list (string * SymbolId).

(** [live_objects], [total_live_objects], [live_memory_allocations] and
    [live_instances] of [struct ArcInspection] *)
Record ArcInspection := mkArcInspection {
  live_objects : list ObjectInfo;
  total_live_objects : Z;
  live_memory_allocations : Z;
  live_instances : Z;
}.

Section Session.
Context {Provider : Type}.
Implicit Type s : InteractiveSession Provider.

Definition session_new (host : Registries Provider) : InteractiveSession Provider :=
  mkSession default_state (instantiate_libraries host) (instantiate_hosts host) false.

Definition cancel s : InteractiveSession Provider :=
  mkSession (state s) (session_libraries s) (session_hosts s) true.

Definition reset (host : Registries Provider) s : InteractiveSession Provider :=
  mkSession default_state (instantiate_libraries host) (instantiate_hosts host) false.

Definition variables s : gmap string Value := variable_values (state s).

Definition with_variables (v : gmap string Value) (s : SessionState) : SessionState :=
  mkSessionState (s_statics s) (s_class_init s) (s_arc s) (s_objects s) (s_memory s)
    (s_pinned_dispatch s) v.

Definition remove_variable (name : string) s : InteractiveSession Provider :=
  mkSession (with_variables (delete name (variables s)) (state s)) (session_libraries s)
    (session_hosts s) (session_cancel_flag s).

Definition arc_inspection s : ArcInspection :=
  let live := snapshot (s_arc (state s)) in
  mkArcInspection live (Z.of_nat (length live)) (count (s_memory (state s)))
    (count (s_objects (state s))).
End Session.

(** The bindings the executor starts with: the variables the session knows. *)
Definition restore_binding (variables : gmap string Value) (b : Symbols) (p : string * SymbolId)
    : Symbols :=
  match variables !! p.1 with Some v => <[p.2 := v]> b | None => b end.
Definition restored_bindings (variables : gmap string Value) (names : VariableSymbols) : Symbols :=
  fold_left (restore_binding variables) names ∅.
Definition restored_symbols (variables : gmap string Value) (names : VariableSymbols)
    : gset SymbolId :=
  fold_left (fun b (p : string * SymbolId) =>
    match variables !! p.1 with Some _ => {[p.2]} ∪ b | None => b end) names ∅.

(** The variables after a run that captured [captured]: those it updated, and
    those the session keeps. *)
Definition extract_variable (captured : Symbols) (acc : gmap string Value * gmap string Value)
    (p : string * SymbolId) : gmap string Value * gmap string Value :=
  match captured !! p.2 with
  | Some v => (<[p.1 := v]> acc.1, <[p.1 := v]> acc.2)
  | None => (acc.1, delete p.1 acc.2)
  end.
Definition extract_variables (captured : Symbols) (names : VariableSymbols)
    (variables : gmap string Value) : gmap string Value * gmap string Value :=
  fold_left (extract_variable captured) names (∅, variables).

(** [u8::try_from(code).unwrap_or(0)] *)
Definition session_exit (code : Z) : Z := if in_range 0 255 code then code else 0.

(** The exit code and value of a finished turn. *)
Definition turn_outcome (start : Function) (flow : Flow) : result (Z * option Value) :=
  match flow with
  | FReturn None | FReturn (Some VNull) => Ok (0, None)
  | FReturn (Some (VInteger code kind)) => Ok (session_exit code, Some (VInteger code kind))
  | FStop code => Ok (session_exit code, Some (VInteger code Int32))
  | FReturn (Some (VError code message _)) =>
      runtime_error DISPATCH (dec_of_Z code +:+ ": " +:+ message) (fn_span start)
  | FReturn (Some other) => Ok (0, Some other)
  end.

Section Turn.
Context `{World} `{!Seam} `{Allocator} `{Floats.Platform}.
Implicit Type s : InteractiveSession Provider.

(** The executor of a turn.  [cancels] says before which loads of the flag
    another thread sets it. *)
Definition turn_core (s : InteractiveSession Provider) (names : VariableSymbols)
    (cancels : list bool) (i : Input) (o : Output) : Core :=
  let st := state s in
  let bindings := restored_bindings (variable_values st) names in
  mkCore i o None None (s_statics st) (s_class_init st) (s_arc st) (s_objects st) (s_memory st)
    (s_pinned_dispatch st) (session_libraries s) (session_hosts s) 0 [] [] bindings
    (restored_symbols (variable_values st) names) (Some bindings)
    (Some (mkCancelFlag (session_cancel_flag s) cancels)).

(** The session while its executor runs, which is what a panic leaves. *)
Definition taken (s : InteractiveSession Provider) (c : Core) : InteractiveSession Provider :=
  mkSession (with_variables (variables s) default_state) ∅ ∅
    (match cancel_flag c with Some flag => cancelled flag | None => session_cancel_flag s end).

Definition rolled_back (s : InteractiveSession Provider) (c : Core) : InteractiveSession Provider :=
  mkSession (state s) (libraries c) (hosts c) false.

Definition committed (c : Core) (variables : gmap string Value) : InteractiveSession Provider :=
  mkSession (mkSessionState (statics c) (class_init c) (arc_core c) (objects c) (memory c)
    (pinned_dispatch c) variables) (libraries c) (hosts c) false.

(** [execute_submission]: the session, the streams and the result. *)
Definition execute_submission (fuel : nat) (s : InteractiveSession Provider)
    (names : VariableSymbols) (cancels : list bool) (i : Input) (o : Output)
    : InteractiveSession Provider * (Input * Output) * result ExecutionResult :=
  match start_function with
  | Ok start =>
      let '(c, r) := r_function (machine fuel) start [] (turn_core s names cancels i o) in
      let streams := (input c, output c) in
      match (flow ← r; turn_outcome start flow) with
      | Ok (code, returned) =>
          let '(updated, variables) :=
            extract_variables (default ∅ (session_captured_symbols c)) names (variables s) in
          (committed c variables, streams, Ok (mkExecutionResult code returned updated))
      | Err e => (rolled_back s c, streams, Err e)
      | Panic w => (taken s c, streams, Panic w)
      | Fuel => (taken s c, streams, Fuel)
      end
  | Err e => (s, (i, o), Err e)
  | Panic w => (s, (i, o), Panic w)
  | Fuel => (s, (i, o), Fuel)
  end.
End Turn.

(** ** Variables across a turn *)

Lemma restored_fold (variables : gmap string Value) names : ∀ b : Symbols, NoDup names.*2 →
  (∀ name id, (name, id) ∈ names → is_Some (variables !! name) →
     fold_left (restore_binding variables) names b !! id
     = variables !! name)
  ∧ (∀ id, id ∉ names.*2 →
     fold_left (restore_binding variables) names b !! id
     = b !! id).
Proof.
  induction names as [|[n i] names IH]; intros b Hdup; simpl.
  - split; [|done]. intros name id Hin. by apply elem_of_nil in Hin.
  - apply NoDup_cons_1_1 in Hdup as Hi. apply NoDup_cons_1_2 in Hdup. simpl in Hi.
    destruct (IH (restore_binding variables b (n, i)) Hdup) as [IH1 IH2].
    split.
    + intros name id Hin Hsome. apply elem_of_cons in Hin as [[= -> ->]|Hin]; [|by apply IH1].
      rewrite IH2 by done.
      destruct Hsome as [v Hv]. unfold restore_binding. simpl. rewrite Hv. apply lookup_insert_eq.
    + intros id Hnot. apply not_elem_of_cons in Hnot as [Hne Hnot]. simpl in Hne. rewrite IH2 by done.
      unfold restore_binding. simpl. destruct (variables !! n); [by apply lookup_insert_ne|done].
Qed.

Lemma restored_lookup (variables : gmap string Value) names name id v :
  NoDup names.*2 → (name, id) ∈ names → variables !! name = Some v →
  restored_bindings variables names !! id = Some v.
Proof.
  intros Hdup Hin Hv. destruct (restored_fold variables names ∅ Hdup) as [H _].
  unfold restored_bindings. rewrite (H name id Hin), Hv; [done|]. by eexists.
Qed.

Lemma extract_fold (captured : Symbols) names : ∀ acc, NoDup names.*1 →
  let acc' := fold_left (extract_variable captured) names acc in
  (∀ name id, (name, id) ∈ names → acc'.2 !! name = captured !! id
     ∧ acc'.1 !! name = match captured !! id with Some v => Some v | None => acc.1 !! name end)
  ∧ (∀ name, name ∉ names.*1 → acc'.2 !! name = acc.2 !! name ∧ acc'.1 !! name = acc.1 !! name).
Proof.
  induction names as [|[n i] names IH]; intros acc Hdup; simpl.
  - split; [|done]. intros name id Hin. by apply elem_of_nil in Hin.
  - apply NoDup_cons_1_1 in Hdup as Hn. apply NoDup_cons_1_2 in Hdup. simpl in Hn.
    destruct (IH (extract_variable captured acc (n, i)) Hdup) as [IH1 IH2].
    split.
    + intros name id Hin. apply elem_of_cons in Hin as [[= -> ->]|Hin].
      * destruct (IH2 n Hn) as [E2 E1]. split; [refine (eq_trans E2 _) | refine (eq_trans E1 _)];
          unfold extract_variable; simpl; destruct (captured !! i) as [v|]; simpl; try done;
          [apply lookup_insert_eq | apply lookup_delete_eq | apply lookup_insert_eq].
      * destruct (IH1 name id Hin) as [E2 E1]. split; [exact E2|]. refine (eq_trans E1 _).
        destruct (captured !! id); [done|].
        assert (name ≠ n) as Hne.
        { intros ->. apply Hn. apply list_elem_of_fmap. by exists (n, id). }
        unfold extract_variable. simpl. destruct (captured !! i); simpl; [|done].
        by apply lookup_insert_ne.
    + intros name Hnot. apply not_elem_of_cons in Hnot as [Hne Hnot]. simpl in Hne.
      destruct (IH2 name Hnot) as [E2 E1].
      split; [refine (eq_trans E2 _) | refine (eq_trans E1 _)];
        unfold extract_variable; simpl; destruct (captured !! i); simpl; try done;
        [by apply lookup_insert_ne | by apply lookup_delete_ne | by apply lookup_insert_ne].
Qed.

Lemma extract_variables_kept captured names variables name :
  NoDup names.*1 → name ∉ names.*1 →
  (extract_variables captured names variables).2 !! name = variables !! name.
Proof. intros Hdup Hnot. apply (extract_fold captured names (∅, variables) Hdup). done. Qed.

Lemma extract_variables_spec captured names variables name id :
  NoDup names.*1 → (name, id) ∈ names →
  (extract_variables captured names variables).2 !! name = captured !! id
  ∧ (extract_variables captured names variables).1 !! name = captured !! id.
Proof.
  intros Hdup Hin.
  destruct (proj1 (extract_fold captured names (∅, variables) Hdup) name id Hin) as [E2 E1].
  split; [exact E2|]. refine (eq_trans E1 _).
  destruct (captured !! id); [done|apply lookup_empty].
Qed.

Lemma session_exit_range code : 0 ≤ session_exit code ≤ 255.
Proof. unfold session_exit. destruct (in_range 0 255 code) eqn:E; [by apply in_range_spec in E|lia]. Qed.

Lemma turn_outcome_range start flow code v : turn_outcome start flow = Ok (code, v) → 0 ≤ code ≤ 255.
Proof.
  intros E. destruct flow as [[[]|]|]; simpl in E; try done;
    injection E as <- _; try lia; apply session_exit_range.
Qed.

(** ** Theorems *)

(** The same host with the module of another submission. *)
Definition with_module (m : Module_) (W : World) : World := {|
  Provider := @Provider W; Input := @Input W; Output := @Output W; module := m;
  read_line := @read_line W; write_text := @write_text W; flush := @flush W;
  host_arguments := @host_arguments W; provides_filesystem := @provides_filesystem W;
  parallelism := @parallelism W; stack_base := @stack_base W; stack_budget := @stack_budget W;
|}.

Lemma fresh_top_level `{World} f c c' frame :
  frame_pool c = [] → call_depth c = 0 →
  enter f [] c = (c', Ok frame) → symbols frame = session_bindings c.
Proof.
  unfold enter, mbind, st_bind, get, modify, mret, st_ret. intros -> Hd. simpl. rewrite Hd. simpl.
  unfold bind_parameters. rewrite combine_nil. simpl. intros [= _ <-]. simpl.
  apply map_union_empty.
Qed.

(** A turn that raises an error leaves the memory and the variables of the
    session as it found them.  What its run did to the providers stays: they
    are no part of the snapshot. *)
Theorem failed_turn_rolls_back `{World} `{!Seam} `{Allocator} `{Floats.Platform} (fuel : nat)
    (s s' : InteractiveSession Provider) (names : VariableSymbols) (cancels : list bool)
    (i : Input) (o : Output) (streams : Input * Output) (e : Diagnostic)
    (Hturn : execute_submission fuel s names cancels i o = (s', streams, Err e)) :
  state s' = state s
  ∧ (s' = s ∨ ∃ start c r, r_function (machine fuel) start [] (turn_core s names cancels i o) = (c, r)
      ∧ session_libraries s' = libraries c ∧ session_hosts s' = hosts c
      ∧ session_cancel_flag s' = false).
Proof.
  unfold execute_submission in Hturn.
  destruct start_function as [start|e'|w|]; try done.
  - destruct (r_function _ _ _ _) as [c r] eqn:Hrun.
    destruct (r ≫= _) as [[code returned]|e'|w|] eqn:Hr; try done.
    + by destruct (extract_variables _ _ _).
    + injection Hturn as <- <- <-. split; [done|]. right. by exists start, c, r.
  - injection Hturn as <- <- <-. split; [done|by left].
Qed.

(** A turn that succeeds commits the memory its run left.  Each variable of the
    submission has the value the run captured for its symbol, and no other
    variable changes. *)
Theorem turn_commits `{World} `{!Seam} `{Allocator} `{Floats.Platform} (fuel : nat)
    (s s' : InteractiveSession Provider) (names : VariableSymbols) (cancels : list bool)
    (i : Input) (o : Output) (streams : Input * Output) (r : ExecutionResult)
    (Hnames : NoDup names.*1)
    (Hturn : execute_submission fuel s names cancels i o = (s', streams, Ok r)) :
  ∃ start c flow,
    start_function = Ok start
    ∧ r_function (machine fuel) start [] (turn_core s names cancels i o) = (c, Ok flow)
    ∧ s' = committed c (variables s') ∧ streams = (input c, output c)
    ∧ turn_outcome start flow = Ok (turn_exit_code r, returned_value r)
    ∧ 0 ≤ turn_exit_code r ≤ 255
    ∧ (∀ name id, (name, id) ∈ names →
         variables s' !! name = default ∅ (session_captured_symbols c) !! id
         ∧ updated_variables r !! name = default ∅ (session_captured_symbols c) !! id)
    ∧ (∀ name, name ∉ names.*1 → variables s' !! name = variables s !! name).
Proof.
  unfold execute_submission in Hturn.
  destruct start_function as [start|e'|w|] eqn:Hstart; try done.
  destruct (r_function _ _ _ _) as [c r'] eqn:Hrun.
  destruct (r' ≫= _) as [[code returned]|e'|w|] eqn:Hr; try done.
  apply res_bind_Ok in Hr as (flow & -> & Hflow).
  destruct (extract_variables _ _ _) as [updated vars] eqn:Hx.
  injection Hturn as <- <- <-.
  exists start, c, flow. do 5 (split; [done|]).
  split; [by apply (turn_outcome_range start flow code returned)|]. unfold variables at 1 3.
  cbn [committed state variable_values updated_variables]. split.
  - intros name id Hin.
    pose proof (extract_variables_spec (default ∅ (session_captured_symbols c)) names (variables s)
      name id Hnames Hin) as E. by rewrite Hx in E.
  - intros name Hnot.
    pose proof (extract_variables_kept (default ∅ (session_captured_symbols c)) names (variables s)
      name Hnames Hnot) as E. by rewrite Hx in E.
Qed.

(** A variable a turn leaves with the value [v] starts with [v] in the next
    turn, under whatever symbol that submission's module gives it. *)
Theorem turn_carries_variables `{W : World} `{!Seam} `{Allocator} `{Floats.Platform} (fuel : nat)
    (s s' : InteractiveSession Provider) (names names' : VariableSymbols)
    (cancels cancels' : list bool) (i i' : Input) (o o' : Output) (streams : Input * Output)
    (r : ExecutionResult) (name : string) (id' : SymbolId) (v : Value)
    (m : Module_) (f : Function) (c' : @Core (with_module m W)) (frame : Frame)
    (Hnames : NoDup names.*1) (Hids : NoDup names'.*2)
    (Hturn : execute_submission fuel s names cancels i o = (s', streams, Ok r))
    (Hv : updated_variables r !! name = Some v ∨ (name ∉ names.*1 ∧ variables s !! name = Some v))
    (Hin : (name, id') ∈ names')
    (Henter : enter (H := with_module m W) f []
                (turn_core (H := with_module m W) s' names' cancels' i' o') = (c', Ok frame)) :
  symbols frame !! id' = Some v.
Proof.
  assert (variables s' !! name = Some v) as Hs'.
  { unfold execute_submission in Hturn.
    destruct start_function as [start|e|w|]; try done.
    destruct (r_function _ _ _ _) as [c r'].
    destruct (r' ≫= _) as [[code returned]|e|w|]; try done.
    destruct (extract_variables _ _ _) as [updated vars] eqn:Hx. injection Hturn as <- _ <-.
    unfold variables at 1. simpl in Hv |- *.
    destruct Hv as [Hv|[Hnot Hv]].
    2: { pose proof (extract_variables_kept (default ∅ (session_captured_symbols c)) names
           (variables s) name Hnames Hnot) as E. rewrite Hx in E. exact (eq_trans E Hv). }
    destruct (decide (name ∈ names.*1)) as [Hname|Hname].
    - apply list_elem_of_fmap in Hname as ([? id] & -> & Hp).
      destruct (extract_variables_spec (default ∅ (session_captured_symbols c)) names (variables s)
        s0 id Hnames Hp) as [E2 E1]. rewrite Hx in E1, E2. exact (eq_trans E2 (eq_trans (eq_sym E1) Hv)).
    - destruct (extract_fold (default ∅ (session_captured_symbols c)) names (∅, variables s) Hnames)
        as [_ H2]. destruct (H2 name Hname) as [_ E1].
      unfold extract_variables in Hx. rewrite Hx in E1. simpl in E1. rewrite E1 in Hv.
      rewrite lookup_empty in Hv. discriminate. }
  apply fresh_top_level in Henter; [|done|done]. rewrite Henter.
  by apply (restored_lookup _ _ name).
Qed.

(** A session and a program run give the same exit code whenever the program
    run gives one; where the program run refuses the code or the value, the
    session's turn ends with 0. *)
Theorem turn_exit_agrees `{World} (start : Function) (flow : Flow) :
  match exit_status start flow with
  | Ok code => ∃ v, turn_outcome start flow = Ok (code, v)
  | Err e => turn_outcome start flow = Err e ∨ ∃ v, turn_outcome start flow = Ok (0, v)
  | _ => False
  end.
Proof.
  destruct flow as [[[]|]|code]; simpl; try (by eexists); try (by right; eexists); try (by left);
    unfold exit_code, try_from, session_exit; destruct (in_range 0 255 _) eqn:E; try (by eexists); right; by eexists.
Qed.

(** ** Witnesses *)

#[local] Abbreviation sp := default_span.
#[local] Existing Instance test_allocator.
#[local] Existing Instance test_platform.

(** The declaration of [x], which keeps the restored value, and [x = 8]. *)
Definition set_x : Function :=
  mkFunction "Start" Entry None false [] ∅ int32 0
    [mkBlock 0
       [IConstant 0 (CInteger "0") int32 sp; IStore 5 0 None int32 sp;
        IConstant 1 (CInteger "8") int32 sp; IStore 5 1 None int32 sp] (TReturn None)] sp.
(** The same with [x = 1] and a division by zero. *)
Definition fail_x : Function :=
  mkFunction "Start" Entry None false [] ∅ int32 0
    [mkBlock 0
       [IConstant 0 (CInteger "0") int32 sp; IStore 5 0 None int32 sp;
        IConstant 1 (CInteger "1") int32 sp; IStore 5 1 None int32 sp;
        IBinary 2 "DIV" 1 0 int32 sp] (TReturn None)] sp.
(** [RETURN x], where the module of the turn gives [x] the symbol 9. *)
Definition read_x : Function :=
  mkFunction "Start" Entry None false [] ∅ int32 0
    [mkBlock 0
       [IConstant 0 (CInteger "0") int32 sp; IStore 9 0 None int32 sp; ILoad 1 9 int32 sp]
       (TReturn (Some 1))] sp.

Definition set_world : World := sample_world (functions_module [set_x]).
Definition fail_world : World := sample_world (functions_module [fail_x]).
Definition read_module : Module_ := functions_module [read_x].

Definition x_session : InteractiveSession unit :=
  mkSession (with_variables {[ "x" := VInteger 3 Int32; "y" := VBoolean true ]} default_state) ∅ ∅ false.

Definition set_turn := execute_submission (H := set_world) (H0 := sample_seam _) 10 x_session
  [("x", 5)] [] [] "".
Definition fail_turn := execute_submission (H := fail_world) (H0 := sample_seam _) 10 x_session
  [("x", 5)] [] [] "".
Definition read_turn (s : InteractiveSession unit) :=
  execute_submission (H := sample_world read_module) (H0 := sample_seam _) 10 s
    [("x", 9); ("y", 1)] [] [] "".

(** A successful turn and the turn after it. *)
Example turns_in_sequence :
  let s := set_turn.1.1 in
  variables s !! "x" = Some (VInteger 8 Int32) ∧ variables s !! "y" = Some (VBoolean true)
  ∧ turn_exit_code <$> (read_turn s).2 = Ok 8.
Proof. vm_compute. repeat split. Qed.

Definition turn_error {S A} (r : S * result A) (d : Diagnostic) : Diagnostic :=
  match r.2 with Err e => e | _ => d end.
Definition no_diagnostic : Diagnostic := mkDiagnostic INVALID_IR "" sp [].
Definition turn_result {S A} (r : S * result A) (d : A) : A :=
  match r.2 with Ok a => a | _ => d end.
Definition no_result : ExecutionResult := mkExecutionResult 0 None ∅.

Lemma failed_turn_rolls_back_witness :
  let s' := fail_turn.1.1 in
  fail_turn = (s', fail_turn.1.2, Err (turn_error fail_turn no_diagnostic))
  ∧ state s' = state x_session
  ∧ (s' = x_session ∨ ∃ start c r,
      r_function (machine (H := fail_world) (H0 := sample_seam _) 10) start []
        (turn_core (H := fail_world) x_session [("x", 5)] [] [] "") = (c, r)
      ∧ session_libraries s' = libraries (H := fail_world) c
      ∧ session_hosts s' = hosts (H := fail_world) c
      ∧ session_cancel_flag s' = false).
Proof.
  split; [vm_compute; reflexivity|].
  apply (failed_turn_rolls_back (H := fail_world) (H0 := sample_seam _) 10 x_session _ [("x", 5)] []
    [] "" fail_turn.1.2 (turn_error fail_turn no_diagnostic)).
  vm_compute. reflexivity.
Defined.

Lemma turn_commits_witness :
  let s' := set_turn.1.1 in
  let r := turn_result set_turn no_result in
  let W := set_world in
  ∃ start c flow,
    start_function (H := W) = Ok start
    ∧ r_function (machine (H := W) (H0 := sample_seam _) 10) start []
        (turn_core (H := W) x_session [("x", 5)] [] [] "") = (c, Ok flow)
    ∧ s' = committed (H := W) c (variables s') ∧ set_turn.1.2 = (input (H := W) c, output (H := W) c)
    ∧ turn_outcome start flow = Ok (turn_exit_code r, returned_value r)
    ∧ 0 ≤ turn_exit_code r ≤ 255
    ∧ (∀ name id, (name, id) ∈ [("x", 5)] →
         variables s' !! name = default ∅ (session_captured_symbols (H := W) c) !! id
         ∧ updated_variables r !! name = default ∅ (session_captured_symbols (H := W) c) !! id)
    ∧ (∀ name, name ∉ ([("x", 5)]).*1 → variables s' !! name = variables x_session !! name).
Proof.
  apply (turn_commits (H := set_world) (H0 := sample_seam _) 10 x_session _ [("x", 5)] [] [] "").
  - apply NoDup_singleton.
  - vm_compute. reflexivity.
Defined.

Lemma turn_carries_variables_witness :
  let W := with_module read_module set_world in
  let next := turn_core (H := W) set_turn.1.1 [("x", 9); ("y", 1)] [] [] "" in
  let frame := mkFrame {[ 9 := VInteger 8 Int32; 1 := VBoolean true ]} [] in
  (enter (H := W) read_x [] next).2 = Ok frame ∧ symbols frame !! 9 = Some (VInteger 8 Int32).
Proof.
  split; [vm_compute; reflexivity|].
  apply (turn_carries_variables (W := set_world) (H := sample_seam _) 10 x_session set_turn.1.1
    [("x", 5)] [("x", 9); ("y", 1)] [] [] [] [] "" "" set_turn.1.2 (turn_result set_turn no_result)
    "x" 9 (VInteger 8 Int32) read_module read_x
    (enter (H := with_module read_module set_world) read_x []
      (turn_core (H := with_module read_module set_world) set_turn.1.1 [("x", 9); ("y", 1)] [] [] "")).1).
  - apply NoDup_singleton.
  - apply NoDup_cons_2; [|apply NoDup_singleton]. simpl. rewrite list_elem_of_singleton. discriminate.
  - vm_compute. reflexivity.
  - left. vm_compute. reflexivity.
  - apply list_elem_of_here.
  - vm_compute. reflexivity.
Defined.
