(* ===== verification/Compat.v ===== *)
(** * Compat: which types a store, a call, a return and an index accept

    The operand tables of [crates/bn_ir/src/validate/operands.rs], the
    compatibility rules of [upcast.rs] and [index.rs], and the type predicates
    of [validate.rs]. *)

From S2P Require Import Prelude Text Diag Types ClassModel Ir.

#[local] Open Scope string_scope.
#[local] Open Scope Z_scope.

(** ** What an instruction defines, reads and types ([validate/operands.rs]) *)

(** [invalid_ir] ([lib.rs]) *)
Definition invalid_ir {A} (message : string) (span : Span) : result A :=
  d ← expect "invalid IR diagnostic schema is registered"
        (structured INVALID_IR [("detail", message)] span);
  Err d.

Lemma invalid_ir_raises {A} message span : raises (@invalid_ir A message span) INVALID_IR span.
Proof. by split. Qed.

(** [if wrong { return Err(invalid_ir(message, span)) }] *)
Definition refuse_if (wrong : bool) (message : string) (span : Span) : result unit :=
  if wrong then invalid_ir message span else Ok tt.

Lemma refuse_if_Ok wrong message span : refuse_if wrong message span = Ok tt ↔ wrong = false.
Proof. destruct wrong; simpl; split; done. Qed.

Definition instruction_defines (i : Instruction) : option ValueId :=
  match i with
  | IConstant destination _ _ _ | IDefault destination _ _ _ _ | IPhi destination _ _ _
  | ILoad destination _ _ _ | ICopy destination _ _ _ | IUnary destination _ _ _ _
  | IBinary destination _ _ _ _ _ | ICast destination _ _ _ | ICall destination _ _ _ _
  | IDispatchSubmit destination _ _ _ _ _ _ | IDispatchAwait destination _ _ _ _ _
  | IInput destination _ _ _ | IVector destination _ _ _ | IIndex destination _ _ _ _
  | IMember destination _ _ _ _ _ _ | ILength destination _ _ | ISizeOf destination _ _
  | IAllocate destination _ _ _ _ | IRetain destination _ _ _ | ITake destination _ _ _
  | ITakeMember destination _ _ _ _ _ _ | ILoadStatic destination _ _ _ _ => Some destination
  | IStore _ _ previous _ _ | ISetIndex _ _ _ previous _ _ | ISetMemberIndex _ _ _ _ _ _ previous _ _
  | ISetFieldIndex _ _ _ _ _ _ previous _ _ | ISetStaticIndex _ _ _ _ previous _ _
  | ISetMember _ _ _ _ _ previous _ _ | ISetField _ _ _ _ _ previous _ _
  | IStoreStatic _ _ _ previous _ _ => previous
  | IPrint _ _ | IClearScreen _ _ | IBeep _ _ | IRelease _ _ _ | IEndBinding _ _
  | IEnsureClass _ _ => None
  end.

Definition instruction_uses (i : Instruction) : list ValueId :=
  match i with
  | ICopy _ source _ _ | IUnary _ _ source _ _ | ICast _ source _ _ | ILength _ source _
  | ISizeOf _ source _ | IStore _ source _ _ _ | IRetain _ source _ _ | IRelease source _ _ =>
      [source]
  | IBinary _ _ l r _ _ => [l; r]
  | ICall _ callee arguments _ _ => callee :: arguments
  | IDispatchSubmit _ callee queue task arguments _ _ => callee :: queue :: task :: arguments
  | IDispatchAwait _ callee ticket timeout _ _ => [callee; ticket; timeout]
  | IVector _ values _ _ | IPrint values _ => values
  | IIndex _ object index _ _ => [object; index]
  | IMember _ object _ _ _ _ _ | ITakeMember _ object _ _ _ _ _ | IClearScreen object _
  | IBeep object _ => [object]
  | ISetIndex _ indices value _ _ _ | ISetFieldIndex _ _ _ _ indices value _ _ _
  | ISetStaticIndex _ _ indices value _ _ _ => (indices ++ [value])%list
  | ISetMemberIndex object _ _ _ indices value _ _ _ => (object :: indices ++ [value])%list
  | ISetMember object _ _ _ value _ _ _ => [object; value]
  | ISetField _ _ _ _ value _ _ _ | IStoreStatic _ _ value _ _ _ => [value]
  | IAllocate _ _ arguments _ _ => arguments
  | IDefault _ _ _ dynamic_dimensions _ => dynamic_dimensions
  | IPhi _ incoming _ _ => incoming.*2
  | IInput _ prompt _ _ => match prompt with Some v => [v] | None => [] end
  | IEnsureClass _ _ | ILoadStatic _ _ _ _ _ | IConstant _ _ _ _ | ITake _ _ _ _
  | IEndBinding _ _ | ILoad _ _ _ _ => []
  end.

(** A write defines its previous content, of the written type. *)
Definition instruction_type (i : Instruction) : option BType :=
  match i with
  | IConstant _ _ ty _ | IDefault _ ty _ _ _ | IPhi _ _ ty _ | ILoad _ _ ty _ | ICopy _ _ ty _
  | IUnary _ _ _ ty _ | IBinary _ _ _ _ ty _ | ICast _ _ ty _ | ICall _ _ _ ty _
  | IDispatchSubmit _ _ _ _ _ ty _ | IDispatchAwait _ _ _ _ ty _ | IInput _ _ ty _
  | IVector _ _ ty _ | IIndex _ _ _ ty _ | IMember _ _ _ _ _ ty _ | IAllocate _ _ _ ty _
  | IRetain _ _ ty _ | ITake _ _ ty _ | ITakeMember _ _ _ _ _ ty _ | ILoadStatic _ _ _ ty _ =>
      Some ty
  | IStore _ _ previous ty _ | ISetIndex _ _ _ previous ty _ | ISetMemberIndex _ _ _ _ _ _ previous ty _
  | ISetFieldIndex _ _ _ _ _ _ previous ty _ | ISetStaticIndex _ _ _ _ previous ty _
  | ISetMember _ _ _ _ _ previous ty _ | ISetField _ _ _ _ _ previous ty _
  | IStoreStatic _ _ _ previous ty _ => option_map (fun _ => ty) previous
  | _ => None
  end.

Definition instruction_result (i : Instruction) : option (ValueId * BType) :=
  match instruction_defines i, instruction_type i with
  | Some destination, Some ty => Some (destination, ty)
  | _, _ => None
  end.

(** ** Predicates ([validate.rs]) *)

Definition is_integer_type (ty : BType) : bool :=
  match ty with TInteger _ | TIntegerLiteral _ => true | _ => false end.
Definition is_float_type (ty : BType) : bool :=
  match ty with TFloat _ | TFloatLiteral => true | _ => false end.
Definition is_numeric_type (ty : BType) : bool := is_integer_type ty || is_float_type ty.
Definition is_boolean_type (ty : BType) : bool :=
  match ty with TBoolean => true | _ => false end.
Definition is_string_type (ty : BType) : bool :=
  match ty with TString => true | _ => false end.
Definition is_type_test_type (ty : BType) : bool :=
  match ty with TTypeName _ | TImportedTypeName _ _ => true | _ => false end.
Definition is_numeric_pair (l r : BType) : bool := is_numeric_type l && is_numeric_type r.
Definition is_integer_pair (l r : BType) : bool := is_integer_type l && is_integer_type r.
Definition is_void_type (ty : BType) : bool :=
  match ty with TNamed name => String.eqb name "VOID" | _ => false end.
Definition is_named_value_type (ty : BType) : bool :=
  match ty with TNamed _ | TImportedNamed _ _ => true | _ => false end.

Fixpoint contains_named_type (ty : BType) (name : string) {struct ty} : bool :=
  match ty with
  | TNamed actual | TTypeName actual | TImportedNamed _ actual | TImportedTypeName _ actual =>
      String.eqb actual name
  | TAlternative options => existsb (fun option => contains_named_type option name) options
  | _ => false
  end.

Definition is_dispatch_wait_handle (ty : BType) : bool :=
  existsb (contains_named_type ty) ["Ticket"; "Group"; "Barrier"; "Semaphore"; "Mutex"].

(** ** Compatibility ([upcast.rs]) *)

(** Equal dimensions, [u64::MAX] standing for an unknown one. *)
Definition dimensions_match (actual expected : list Z) : bool :=
  (length actual =? length expected)%nat
  && forallb (fun p : Z * Z => (p.1 =? p.2) || (p.1 =? u64_MAX) || (p.2 =? u64_MAX))
       (combine actual expected).

Definition length_fits (actual expected : PointerLength) : bool :=
  bool_decide (actual = expected)
  || match expected with PLDynamic => true | _ => false end.

Fixpoint types_compatible (actual expected : BType) {struct expected} : bool :=
  bool_decide (actual = expected)
  || match actual, expected with
     | TImportedNamed _ actual, TNamed expected | TNamed expected, TImportedNamed _ actual =>
         String.eqb (rsplit_last "." expected) actual
     | TImportedNamed _ actual, TImportedNamed _ expected => String.eqb actual expected
     | TIntegerLiteral _, TInteger _ => true
     | TFloatLiteral, TFloat _ => true
     | TPointer _ _, TNamed name => String.eqb name "POINTER"
     | TPointer actual_element actual_length, TPointer expected_element expected_length =>
         is_void_type actual_element || is_void_type expected_element
         || (types_compatible actual_element expected_element
             && length_fits actual_length expected_length)
     | TVector actual_element actual_dimensions, TVector expected_element expected_dimensions =>
         types_compatible actual_element expected_element
         && dimensions_match actual_dimensions expected_dimensions
     | TPointer actual_element _, TVector expected_element dimensions =>
         (length dimensions =? 1)%nat && is_numeric_type actual_element
         && is_numeric_type expected_element
     | _, _ => false
     end
  || match expected with
     | TAlternative expected_options =>
         match actual with
         | TAlternative actual_options =>
             (length actual_options =? length expected_options)%nat
             && forallb (fun a => existsb (fun e => types_compatible a e) expected_options)
                  actual_options
             && forallb (fun e => existsb (fun a => types_compatible a e) actual_options)
                  expected_options
         | _ => false
         end
         || existsb (fun option => types_compatible actual option) expected_options
     | _ => false
     end.

Definition alternative_widens (actual expected : BType) : bool :=
  match actual, expected with
  | TAlternative members, TAlternative accepted =>
      forallb (fun member => existsb (types_compatible member) accepted) members
  | _, _ => false
  end.

Definition nominal_name (ty : BType) : option string :=
  match ty with
  | TNamed name => Some name
  | TImportedNamed module name => Some ("#" +:+ dec_of_Z module +:+ "." +:+ name)
  | _ => None
  end.

Definition type_is_upcast (m : Module_) (actual expected : BType) : bool :=
  match nominal_name actual, nominal_name expected with
  | Some actual, Some expected => is_upcast (class_model m) actual expected
  | _, _ => false
  end.

Fixpoint upcast_compatible (m : Module_) (actual expected : BType) {struct expected} : bool :=
  type_is_upcast m actual expected
  || match actual, expected with
     | TVector actual_element actual_dimensions, TVector expected_element expected_dimensions =>
         (types_compatible actual_element expected_element
          || upcast_compatible m actual_element expected_element)
         && dimensions_match actual_dimensions expected_dimensions
     | _, _ => false
     end.

Definition assignment_types_compatible (actual expected : BType) : bool :=
  match actual with TUnknown => true | _ => false end
  || match expected with TUnknown => true | _ => false end
  || types_compatible actual expected
  || alternative_widens actual expected
  || (is_named_value_type actual && is_named_value_type expected)
  || match actual, expected with
     | TPointer actual_element _, TPointer expected_element _ =>
         types_compatible actual_element expected_element
     | _, _ => false
     end.

Definition store_compatible (m : Module_) (actual expected : BType) : bool :=
  assignment_types_compatible actual expected || upcast_compatible m actual expected.

Definition element_compatible (m : Module_) (actual expected : BType) : bool :=
  types_compatible actual expected || upcast_compatible m actual expected.

(** [call_types_compatible_with_module] *)
Fixpoint call_types_compatible (m : Module_) (actual expected : BType) {struct expected} : bool :=
  types_compatible actual expected || alternative_widens actual expected
  || (is_numeric_type actual && is_numeric_type expected)
  || type_is_upcast m actual expected
  || match actual with
     | TVector element dimensions =>
         (length dimensions =? 1)%nat && is_numeric_type element && is_numeric_type expected
     | _ => false
     end
  || match actual, expected with
     | TVector actual_element actual_dimensions, TVector expected_element expected_dimensions =>
         call_types_compatible m actual_element expected_element
         && dimensions_match actual_dimensions expected_dimensions
     | _, _ => false
     end.

(** ** Indexing ([index.rs]) *)

Definition is_null_type (ty : BType) : bool := match ty with TNull => true | _ => false end.

Definition nullable_pointer_element (members : list BType) (res : BType) : bool :=
  if negb (length members =? 2)%nat || negb (existsb is_null_type members) then false
  else match List.find (fun t => match t with TPointer _ _ => true | _ => false end) members with
       | Some (TPointer element _) => types_compatible element res
       | _ => false
       end.

(** The type of one element of a vector. *)
Definition vector_element_type (element : BType) (dimensions : list Z) : BType :=
  if (1 <? length dimensions)%nat then TVector element (tail dimensions) else element.

Definition index_result_matches (object res : BType) : bool :=
  match object with
  | TVector element dimensions => types_compatible (vector_element_type element dimensions) res
  | TPointer element _ => types_compatible element res
  | TAlternative members => nullable_pointer_element members res
  | TString | THostArgs => match res with TString => true | _ => false end
  | TUnknown => true
  | _ => false
  end.
