(* ===== verification/Fields.v ===== *)
(** * Fields: validation of layouts, field references, classes and function kinds

    [crates/bn_ir/src/validate/fields.rs] and [kinds.rs].  The theorems show
    that a module these checks accept has an acyclic class hierarchy, on which
    the walks of the validator terminate, and layouts in which every reference
    it resolves names the slot the executor reads. *)

From stdpp Require Import sorting.
From S2P Require Import Prelude Text Diag Types ClassModel Ir Compat.

#[local] Open Scope string_scope.
#[local] Open Scope Z_scope.

Section Fields.
Variable m : Module_.

Definition module_span : Span :=
  match functions m with f :: _ => fn_span f | [] => default_span end.

(** ** Classes *)

(** [while let Some(parent) = bases.get(current)] with its [seen] guard; one
    unit of fuel is one iteration.  [false]: the walk met a class twice. *)
Fixpoint bases_end (fuel : nat) (seen : gset string) (current : string) : bool :=
  match fuel with
  | O => false
  | S fuel =>
      match bases (class_model m) !! current with
      | None => true
      | Some parent =>
          if bool_decide (current ∈ seen) then false else bases_end fuel ({[current]} ∪ seen) parent
      end
  end.

(** More iterations than the guard allows. *)
Definition bases_fuel : nat := S (S (size (bases (class_model m)))).

Definition has_fields_function (identity : string) : bool :=
  existsb (fun f => String.eqb (fn_name f) (identity +:+ ".$fields")) (functions m).

Definition validate_class_base (class : string) : result unit :=
  match bases (class_model m) !! class with
  | None => Ok tt
  | Some base =>
      refuse_if (String.eqb class "" || String.eqb base "")
        "class and base identities cannot be empty" module_span ;;
      refuse_if (negb (bases_end bases_fuel ∅ class))
        "class inheritance metadata must be acyclic" module_span ;;
      eachR (fun identity =>
        refuse_if (negb (has_fields_function identity))
          ("class layout metadata references missing class '" +:+ identity +:+ "'") module_span)
        [class; base]
  end.

Definition validate_class_bases : result unit :=
  eachR validate_class_base (sorted_keys (bases (class_model m))).

(** [layout_owner_contains] and [owner_is_or_derives_from]: the walk has no
    guard, so [None] is a walk that does not end. *)
Fixpoint derives_loop (fuel : nat) (current target : string) : option bool :=
  match fuel with
  | O => None
  | S fuel =>
      if String.eqb current target then Some true
      else match bases (class_model m) !! current with
           | None => Some false
           | Some base => derives_loop fuel base target
           end
  end.

Definition derives_from (current target : string) : bool :=
  default false (derives_loop bases_fuel current target).

(** ** Layouts *)

Fixpoint validate_field_names (seen : gset string) (names : list string) : result unit :=
  match names with
  | [] => Ok tt
  | name :: names =>
      refuse_if (String.eqb name "") "field names cannot be empty" module_span ;;
      refuse_if (bool_decide (name ∈ seen)) "field names must be unique" module_span ;;
      validate_field_names ({[name]} ∪ seen) names
  end.

(** The fields of one layout, from the position [index] on. *)
Fixpoint validate_entries (owner : string) (index : Z) (ids : gset FieldId)
    (entries : list FieldLayoutEntry) : result unit :=
  match entries with
  | [] => Ok tt
  | field :: entries =>
      refuse_if (negb (e_slot field =? index))
        "field layout slots must be dense and ordered" (e_span field) ;;
      refuse_if (match field_names m !! Z.to_nat (e_id field) with Some _ => false | None => true end)
        "field ID is absent from the name table" (e_span field) ;;
      refuse_if (bool_decide (e_id field ∈ ids))
        "field layout contains a duplicate field ID" (e_span field) ;;
      refuse_if (String.eqb (e_declaring_owner field) ""
                 || negb (derives_from owner (e_declaring_owner field)))
        "field declaring owner is not in the layout hierarchy" (e_span field) ;;
      validate_entries owner (index + 1) ({[e_id field]} ∪ ids) entries
  end.

Definition same_layout_field (derived base : FieldLayoutEntry) : bool :=
  (e_id derived =? e_id base) && (e_slot derived =? e_slot base)
  && bool_decide (e_ty derived = e_ty base)
  && String.eqb (e_declaring_owner derived) (e_declaring_owner base)
  && Bool.eqb (e_weak derived) (e_weak base).

(** A derived layout starts with the layout of its base. *)
Definition extends_base (layout base_layout : FieldLayout) : bool :=
  (length (l_fields base_layout) <=? length (l_fields layout))%nat
  && forallb (fun p : FieldLayoutEntry * FieldLayoutEntry => same_layout_field p.1 p.2)
       (combine (l_fields layout) (l_fields base_layout)).

Definition validate_field_layout (owner : string) : result unit :=
  match field_layouts m !! owner with
  | None => Ok tt
  | Some layout =>
      refuse_if (String.eqb owner "" || String.eqb (l_owner layout) ""
                 || negb (String.eqb (l_owner layout) owner))
        "field layout owner must be non-empty and match its module key" (l_span layout) ;;
      validate_entries owner 0 ∅ (l_fields layout) ;;
      match base_owner ← bases (class_model m) !! owner; field_layouts m !! base_owner with
      | Some base_layout =>
          refuse_if (negb (extends_base layout base_layout))
            "derived field layout must preserve the base layout prefix" (l_span layout)
      | None => Ok tt
      end
  end.

Definition validate_field_layouts : result unit :=
  validate_field_names ∅ (field_names m) ;;
  eachR validate_field_layout (sorted_keys (field_layouts m)).

(** ** Resolved references *)

Definition record_owner_for_type (current_owner : string) (ty : BType) : option string :=
  match ty with
  | TImportedNamed module name =>
      let owner := "#" +:+ dec_of_Z module +:+ "." +:+ name in
      match field_layouts m !! owner with Some _ => Some owner | None => None end
  | TNamed name =>
      match field_layouts m !! name with
      | Some _ => Some name
      | None =>
          let prefix := match rsplit_once "." current_owner with
            | Some (prefix, _) => prefix
            | None => ""
            end in
          let owner := if String.eqb prefix "" then name else prefix +:+ "." +:+ name in
          match field_layouts m !! owner with Some _ => Some owner | None => None end
      end
  | _ => None
  end.

Definition field_ref_eqb (a b : FieldRef) : bool :=
  String.eqb (f_owner a) (f_owner b) && (f_id a =? f_id b) && (f_slot a =? f_slot b).

(** The type of the field [name] of [owner], to which [field] must refer; the
    messages are those of the caller. *)
Definition resolved_entry (owner name : string) (field : FieldRef) (span : Span)
    (unresolved different no_layout absent : string) : result BType :=
  match field_ref m owner name with
  | None => invalid_ir unresolved span
  | Some expected =>
      refuse_if (negb (field_ref_eqb field expected)) different span ;;
      match field_layouts m !! owner with
      | None => invalid_ir no_layout span
      | Some layout =>
          match l_fields layout !! Z.to_nat (f_slot field) with
          | Some entry => Ok (e_ty entry)
          | None => invalid_ir absent span
          end
      end
  end.

Definition validate_field_reference (owner name : string) (field : FieldRef) (span : Span)
    : result BType :=
  resolved_entry owner name field span "member field does not resolve in its owner layout"
    "resolved member field does not match its owner layout" "member owner has no field layout"
    "resolved member slot is absent".

(** The components of a path, from [owner] on; the last one gives the type. *)
Fixpoint resolve_path (owner : string) (path : list string) (fields : list FieldRef)
    (span : Span) : result BType :=
  match path, fields with
  | name :: path, field :: fields =>
      ty ← resolved_entry owner name field span "field path does not resolve in its owner layout"
             "resolved field path does not match its owner layout" "field path owner has no layout"
             "resolved field slot is absent";
      match path with
      | [] => Ok ty
      | _ =>
          match record_owner_for_type owner ty with
          | Some owner => resolve_path owner path fields span
          | None => invalid_ir "non-final field path component is not a record" span
          end
      end
  | _, _ => invalid_ir "field path has no terminal field" span
  end.

Definition validate_resolved_field_path (root_owner : string) (path : list string)
    (fields : option (list FieldRef)) (span : Span) : result BType :=
  refuse_if (String.eqb root_owner "" || (length path =? 0)%nat || existsb (String.eqb "") path)
    "field path cannot be empty" span ;;
  match fields with
  | None => invalid_ir "field path store must carry resolved fields" span
  | Some fields =>
      refuse_if (negb (length fields =? length path)%nat)
        "resolved field path length must match its spelling path" span ;;
      resolve_path root_owner path fields span
  end.

Fixpoint receiver_matches_owner (receiver : BType) (owner : string) {struct receiver} : bool :=
  match receiver with
  | TImportedNamed module name => derives_from ("#" +:+ dec_of_Z module +:+ "." +:+ name) owner
  | TNamed name | TTypeName name =>
      existsb (fun candidate =>
        (String.eqb candidate name
         || match strip_suffix name candidate with
            | Some prefix => ends_with "." prefix
            | None => false
            end)
        && derives_from candidate owner) (sorted_keys (field_layouts m))
  | TAlternative options => existsb (fun option => receiver_matches_owner option owner) options
  | _ => false
  end.

(** ** Function kinds ([kinds.rs]) *)

Definition needs_owner (kind : FunctionKind) : bool :=
  match kind with
  | Constructor | Destructor | FieldInit | Init | ReleaseFields => true
  | _ => false
  end.

Definition has_parameters (f : Function) : bool :=
  negb (length (fn_parameters f) =? 0)%nat.
Definition has_owner (f : Function) : bool :=
  match fn_owner f with Some _ => true | None => false end.

(** The [entries] counted so far include this function. *)
Definition validate_function_kind (entries : Z) (f : Function) : result Z :=
  match fn_kind f with
  | User => Ok entries
  | Entry =>
      refuse_if (1 <? entries + 1) "module declares more than one entry function" (fn_span f) ;;
      refuse_if (has_parameters f) "entry function must not take parameters" (fn_span f) ;;
      Ok (entries + 1)
  | Default =>
      refuse_if (negb (has_owner f)) "default constructor needs an owner struct" (fn_span f) ;;
      refuse_if (has_parameters f) "default constructor must not take parameters" (fn_span f) ;;
      Ok entries
  | kind =>
      refuse_if (negb (has_owner f))
        "constructor, destructor, field-init, field-release and init functions need an owner class"
        (fn_span f) ;;
      refuse_if (negb (bool_decide (kind = Init)) && negb (has_parameters f))
        "constructor, destructor, field-init and field-release functions take SELF first"
        (fn_span f) ;;
      refuse_if (match kind with Destructor | ReleaseFields => negb (is_void_type (fn_return_type f))
                 | _ => false end)
        (if bool_decide (kind = Destructor) then "destructor must return VOID"
         else "field release must return VOID") (fn_span f) ;;
      Ok entries
  end.

Definition validate_function_kinds : result unit :=
  foldR validate_function_kind 0 (functions m) ;; Ok tt.
End Fields.

(** ** Theorems *)

Lemma elem_of_sorted_keys {A} (map : gmap string A) k : k ∈ sorted_keys map ↔ is_Some (map !! k).
Proof.
  unfold sorted_keys. rewrite merge_sort_Permutation, list_elem_of_fmap. split.
  - intros ([k' v] & -> & Hin). apply elem_of_map_to_list in Hin. by eexists.
  - intros [v Hv]. exists (k, v). split; [done|]. by apply elem_of_map_to_list.
Qed.

Section Facts.
Variable m : Module_.
Notation step := (base_of (class_model m)).

(** Where the guarded walk ends, so does the walk without a guard. *)
Lemma bases_end_derives fuel seen c target :
  bases_end m fuel seen c = true → ∃ b, derives_loop m fuel c target = Some b.
Proof.
  revert seen c. induction fuel as [|fuel IH]; intros seen c; simpl; [done|].
  destruct (String.eqb c target); [by eexists|].
  destruct (bases (class_model m) !! c) as [b|]; [|by eexists].
  destruct (bool_decide (c ∈ seen)); [done|]. apply IH.
Qed.

Lemma derives_loop_spec fuel c target b :
  derives_loop m fuel c target = Some b → b = true ↔ rtc step c target.
Proof.
  revert c. induction fuel as [|fuel IH]; intros c; simpl; [done|].
  destruct (String.eqb_spec c target) as [->|Hne]; [by intros [= <-]|].
  destruct (bases (class_model m) !! c) as [base|] eqn:Hb.
  - intros H. rewrite (IH base H). split.
    + intros Hr. by apply rtc_l with base.
    + intros Hr. inversion Hr as [|? y ? Hy Hr']; subst; [done|].
      unfold base_of in Hy. rewrite Hb in Hy. by injection Hy as <-.
  - intros [= <-]. split; [done|]. intros Hr. inversion Hr as [|? y ? Hy Hr']; subst; [done|].
    unfold base_of in Hy. congruence.
Qed.

(** No class above [c] is its own ancestor. *)
Lemma acyclic_tc c : Acc (flip step) c → ¬ tc step c c.
Proof.
  induction 1 as [c _ IH]. intros Hc.
  assert (∃ b, step c b ∧ rtc step b c) as (b & Hb & Hbc).
  { inversion Hc as [? ? Hs|? b ? Hs Ht]; subst; [by exists c|]. exists b. split; [done|]. by apply tc_rtc. }
  apply (IH b Hb). apply tc_rtc_l with c; [done|]. by apply tc_once.
Qed.

Lemma bases_end_sound fuel seen c : bases_end m fuel seen c = true → Acc (flip step) c.
Proof.
  revert seen c. induction fuel as [|fuel IH]; intros seen c; simpl; [done|].
  intros H. constructor. intros b Hb. unfold flip, base_of in Hb. rewrite Hb in H.
  destruct (bool_decide (c ∈ seen)); [done|]. by apply (IH ({[c]} ∪ seen)).
Qed.

Lemma bases_end_complete c : Acc (flip step) c → ∀ fuel seen,
  (∀ d, d ∈ seen → ¬ rtc step c d) →
  (size (dom (bases (class_model m)) ∖ seen) < fuel)%nat → bases_end m fuel seen c = true.
Proof.
  induction 1 as [c Hacc IH]. intros fuel seen Hseen Hfuel.
  destruct fuel as [|fuel]; [lia|]. simpl.
  destruct (bases (class_model m) !! c) as [b|] eqn:Hb; [|done].
  rewrite bool_decide_eq_false_2 by (intros Hc; by apply (Hseen c)).
  assert (step c b) as Hstep by done. apply (IH b Hstep).
  - intros d [->%elem_of_singleton|Hd]%elem_of_union Hr.
    + apply (acyclic_tc c); [by constructor|]. by apply tc_rtc_r with b; [apply tc_once|].
    + apply (Hseen d Hd). by apply rtc_l with b.
  - assert (dom (bases (class_model m)) ∖ ({[c]} ∪ seen) ⊂ dom (bases (class_model m)) ∖ seen) as Hs.
    { apply strict_spec_alt. split; [set_solver|]. intros Heq.
      assert (c ∈ dom (bases (class_model m)) ∖ seen) as Hin.
      { apply elem_of_difference. split; [by apply elem_of_dom_2 in Hb|].
        intros Hc. by apply (Hseen c). }
      rewrite <- Heq in Hin. set_solver. }
    apply subset_size in Hs. lia.
Qed.

(** ** Layouts *)

Lemma validate_field_names_Ok seen names :
  validate_field_names m seen names = Ok tt → NoDup names ∧ ∀ n, n ∈ names → n ∉ seen.
Proof.
  revert seen. induction names as [|n names IH]; intros seen; simpl.
  - intros _. split; [constructor|]. intros n Hn. by apply elem_of_nil in Hn.
  - intros ([] & _ & ([] & Hseen & Hrest)%res_bind_Ok)%res_bind_Ok.
    apply refuse_if_Ok, bool_decide_eq_false in Hseen. apply IH in Hrest as [Hdup Hnot].
    split.
    + constructor; [|done]. intros Hn. apply (Hnot n Hn). set_solver.
    + intros x [->|Hx]%elem_of_cons; [done|]. specialize (Hnot x Hx). set_solver.
Qed.

(** What the check of a layout's entries guarantees of the entry at [i]. *)
Record entry_ok (owner : string) (first : Z) (entries : list FieldLayoutEntry) (i : nat)
    (e : FieldLayoutEntry) : Prop := {
  entry_slot : e_slot e = first + Z.of_nat i;
  entry_named : is_Some (field_names m !! Z.to_nat (e_id e));
  entry_declared : derives_from m owner (e_declaring_owner e) = true;
  entry_unique : ∀ j e', entries !! j = Some e' → e_id e' = e_id e → j = i;
}.

Lemma validate_entries_ids owner index ids entries :
  validate_entries m owner index ids entries = Ok tt →
  ∀ i e, entries !! i = Some e → e_id e ∉ ids.
Proof.
  revert index ids. induction entries as [|e entries IH]; intros index ids; simpl; [done|].
  intros ([] & _ & ([] & _ & ([] & Hid & ([] & _ & Hrest)%res_bind_Ok)%res_bind_Ok)%res_bind_Ok)%res_bind_Ok.
  apply refuse_if_Ok, bool_decide_eq_false in Hid.
  intros [|i] e'; simpl; [by intros [= <-]|]. intros He'. specialize (IH _ _ Hrest i e' He'). set_solver.
Qed.

Lemma validate_entries_Ok owner index ids entries :
  validate_entries m owner index ids entries = Ok tt →
  ∀ i e, entries !! i = Some e → entry_ok owner index entries i e.
Proof.
  revert index ids. induction entries as [|e entries IH]; intros index ids; simpl; [done|].
  intros ([] & Hslot & ([] & Hname & ([] & Hid & ([] & Hdecl & Hrest)%res_bind_Ok)%res_bind_Ok)%res_bind_Ok)%res_bind_Ok.
  apply refuse_if_Ok, negb_false_iff, Z.eqb_eq in Hslot. apply refuse_if_Ok in Hname.
  apply refuse_if_Ok, orb_false_iff in Hdecl as [_ Hdecl%negb_false_iff].
  pose proof (validate_entries_ids _ _ _ _ Hrest) as Hids.
  intros [|i] e'; simpl.
  - intros [= <-]. split.
    + lia.
    + destruct (field_names m !! Z.to_nat (e_id e)); [by eexists|done].
    + done.
    + intros [|j] e'; simpl; [done|]. intros He' Heq. apply Hids in He'. set_solver.
  - intros He'. destruct (IH _ _ Hrest i e' He') as [H1 H2 H3 H4]. split; [lia|done|done|].
    intros [|j] e2; simpl.
    + intros [= <-] Heq. apply Hids in He'. set_solver.
    + intros Hj Heq. f_equal. by apply (H4 j e2).
Qed.

(** The validated layout of an owner. *)
Lemma validate_field_layouts_Ok owner layout :
  validate_field_layouts m = Ok tt → field_layouts m !! owner = Some layout →
  NoDup (field_names m) ∧ l_owner layout = owner
  ∧ (∀ i e, l_fields layout !! i = Some e → entry_ok owner 0 (l_fields layout) i e)
  ∧ (∀ base base_layout, step owner base → field_layouts m !! base = Some base_layout →
       extends_base layout base_layout = true).
Proof.
  intros ([] & Hnames & Hall)%res_bind_Ok Hlayout.
  apply validate_field_names_Ok in Hnames as [Hdup _]. split; [done|].
  rewrite eachR_Ok in Hall. specialize (Hall owner).
  unfold validate_field_layout in Hall. rewrite Hlayout in Hall.
  assert (owner ∈ sorted_keys (field_layouts m)) as Hin by (apply elem_of_sorted_keys; by eexists).
  apply Hall in Hin as ([] & Howner & ([] & Hentries & Hbase)%res_bind_Ok)%res_bind_Ok.
  apply refuse_if_Ok, orb_false_iff in Howner as [_ Howner%negb_false_iff%String.eqb_eq].
  split; [done|]. split; [by apply (validate_entries_Ok owner 0 ∅)|].
  intros base base_layout Hstep Hb. unfold base_of in Hstep. rewrite Hstep in Hbase. simpl in Hbase.
  rewrite Hb in Hbase. by apply refuse_if_Ok, negb_false_iff in Hbase.
Qed.

(** The entry of a name: [field_ref] finds the only one. *)
Lemma field_ref_Some owner name r :
  field_ref m owner name = Some r ↔
  ∃ layout e, field_layouts m !! owner = Some layout
    ∧ List.find (fun e => match field_names m !! Z.to_nat (e_id e) with
        | Some n => String.eqb n name | None => false end) (l_fields layout) = Some e
    ∧ r = mkFieldRef owner (e_id e) (e_slot e).
Proof.
  unfold field_ref. destruct (field_layouts m !! owner) as [layout|]; simpl.
  - destruct (List.find _ _) as [e|] eqn:E; simpl.
    + split; [intros [= <-]; by exists layout, e|]. intros (? & ? & [= <-] & He & ->).
      rewrite E in He. by injection He as <-.
    + split; [done|]. intros (? & ? & [= <-] & He & ->). congruence.
  - split; [done|]. by intros (? & ? & ? & _).
Qed.

Lemma same_layout_field_spec d b : same_layout_field d b = true →
  e_id d = e_id b ∧ e_slot d = e_slot b ∧ e_ty d = e_ty b ∧ e_weak d = e_weak b.
Proof.
  unfold same_layout_field. intros H. z_bools.
  apply bool_decide_eq_true in H2. apply Bool.eqb_prop in H0. done.
Qed.

(** The slot of a resolved reference holds the field. *)
Lemma field_ref_entry owner name r :
  validate_field_layouts m = Ok tt → field_ref m owner name = Some r →
  ∃ layout e, field_layouts m !! owner = Some layout
    ∧ l_fields layout !! Z.to_nat (f_slot r) = Some e ∧ e_id e = f_id r.
Proof.
  intros Hv (layout & e & Hl & He & ->)%field_ref_Some. exists layout, e. split; [done|].
  apply List.find_some in He as [Hin _]. apply list_elem_of_In, list_elem_of_lookup in Hin as [i Hi].
  destruct (validate_field_layouts_Ok owner layout Hv Hl) as (_ & _ & Hok & _).
  destruct (Hok i e Hi) as [Hslot _ _ _]. simpl. by rewrite Hslot, Z.add_0_l, Nat2Z.id.
Qed.

(** The first match of a list is the first match of every list it extends. *)
Lemma find_prefix (f : FieldLayoutEntry → bool) base derived e :
  (∀ d b, same_layout_field d b = true → f d = f b) →
  (length base <= length derived)%nat →
  forallb (fun p : FieldLayoutEntry * FieldLayoutEntry => same_layout_field p.1 p.2)
    (combine derived base) = true →
  List.find f base = Some e → ∃ d, List.find f derived = Some d ∧ same_layout_field d e = true.
Proof.
  intros Hf. revert derived. induction base as [|b base IH]; intros derived; simpl; [done|].
  destruct derived as [|d derived]; simpl; [lia|].
  intros Hlen [Hsame Hrest]%andb_prop. rewrite (Hf d b Hsame). destruct (f b).
  - intros [= <-]. by exists d.
  - apply IH; [lia|done].
Qed.

(** One class of a chain whose classes have layouts. *)
Definition extends (d b : string) : Prop := step d b ∧ is_Some (field_layouts m !! d).

Lemma inherited_step d b name r :
  validate_field_layouts m = Ok tt → extends d b → field_ref m b name = Some r →
  ∃ r', field_ref m d name = Some r' ∧ f_slot r' = f_slot r ∧ f_id r' = f_id r.
Proof.
  intros Hv [Hstep [layout Hlayout]] (base_layout & e & Hb & He & ->)%field_ref_Some.
  destruct (validate_field_layouts_Ok d layout Hv Hlayout) as (_ & _ & _ & Hbase).
  specialize (Hbase b base_layout Hstep Hb). unfold extends_base in Hbase.
  apply andb_prop in Hbase as [Hlen%Nat.leb_le Hsame].
  eapply find_prefix in He as (e' & He' & Hs); [|clear; intros x y H|exact Hlen|exact Hsame].
  2: { by rewrite (proj1 (same_layout_field_spec x y H)). }
  apply same_layout_field_spec in Hs as (Hid & Hslot & _).
  exists (mkFieldRef d (e_id e') (e_slot e')). split; [|by simpl].
  apply field_ref_Some. by exists layout, e'.
Qed.
End Facts.

(** ** Properties *)

(** In a module whose classes are accepted no class is its own ancestor, and the
    validator's unguarded walks end with the answer to whether a class extends
    another. *)
Theorem class_bases_acyclic (m : Module_) (Hm : validate_class_bases m = Ok tt) :
  (∀ c, ¬ tc (base_of (class_model m)) c c)
  ∧ ∀ c target, ∃ b, derives_loop m (bases_fuel m) c target = Some b
      ∧ (b = true ↔ rtc (base_of (class_model m)) c target).
Proof.
  assert (∀ c, bases_end m (bases_fuel m) ∅ c = true) as Hend.
  { intros c. destruct (bases (class_model m) !! c) as [b|] eqn:Hb; [|by unfold bases_fuel; simpl; rewrite Hb].
    unfold validate_class_bases in Hm. rewrite eachR_Ok in Hm. specialize (Hm c).
    unfold validate_class_base in Hm. rewrite Hb in Hm.
    assert (c ∈ sorted_keys (bases (class_model m))) as Hin by (apply elem_of_sorted_keys; by eexists).
    apply Hm in Hin as ([] & _ & ([] & Hin & _)%res_bind_Ok)%res_bind_Ok.
    by apply refuse_if_Ok, negb_false_iff in Hin. }
  split.
  - intros c. apply acyclic_tc. by apply (bases_end_sound m (bases_fuel m) ∅ c).
  - intros c target. destruct (bases_end_derives m (bases_fuel m) ∅ c target (Hend c)) as [b Hb].
    exists b. split; [done|]. by apply (derives_loop_spec m (bases_fuel m) c target).
Qed.

(** The guard of the walk over the bases refuses cycles and nothing else. *)
Theorem bases_end_spec (m : Module_) (c : string) :
  bases_end m (bases_fuel m) ∅ c = true ↔ Acc (flip (base_of (class_model m))) c.
Proof.
  split; [apply bases_end_sound|]. intros Hc. apply bases_end_complete; [done| |].
  - intros d Hd. by apply elem_of_empty in Hd.
  - unfold bases_fuel. rewrite difference_empty_L, size_dom. lia.
Qed.

(** A field keeps its slot and its identity in every class that extends its
    owner, so the slot a method of the base class reads is the field's slot in
    each object the method can be called on. *)
Theorem inherited_field_slot (m : Module_) (derived base name : string) (r : FieldRef)
    (Hm : validate_field_layouts m = Ok tt) (Hext : rtc (extends m) derived base)
    (Hr : field_ref m base name = Some r) :
  ∃ r', field_ref m derived name = Some r' ∧ f_slot r' = f_slot r ∧ f_id r' = f_id r
    ∧ ∃ layout e, field_layouts m !! derived = Some layout
        ∧ l_fields layout !! Z.to_nat (f_slot r) = Some e ∧ e_id e = f_id r.
Proof.
  assert (∃ r', field_ref m derived name = Some r' ∧ f_slot r' = f_slot r ∧ f_id r' = f_id r)
    as (r' & Hr' & Hs & Hi).
  { induction Hext as [c|d b c Hstep _ IH]; [by exists r|].
    destruct (IH Hr) as (r1 & Hr1 & Hs1 & Hi1).
    destruct (inherited_step m d b name r1 Hm Hstep Hr1) as (r' & Hr' & Hs & Hi).
    exists r'. split; [done|]. split; congruence. }
  exists r'. split; [done|]. split; [done|]. split; [done|].
  destruct (field_ref_entry m derived name r' Hm Hr') as (layout & e & Hl & He & Hid).
  exists layout, e. rewrite <- Hs, <- Hi. done.
Qed.

(** ** Witnesses *)

(** [CLASS Animal (age)], [CLASS Dog EXTENDS Animal (age, name)]. *)
Definition sample_hierarchy : Module_ :=
  let field owner id ty := mkFieldLayoutEntry id id ty owner false default_span in
  let fields_of name := mkFunction (name +:+ ".$fields") FieldInit (Some name) false [0] ∅ (TNamed "VOID") 0
    [mkBlock 0 [] (TReturn None)] default_span in
  mkModule [fields_of "Animal"; fields_of "Dog"] ["age"; "name"]
    {["Animal" := mkFieldLayout "Animal" [field "Animal" 0 (TInteger Int32)] default_span;
      "Dog" := mkFieldLayout "Dog"
                 [field "Animal" 0 (TInteger Int32); field "Dog" 1 TString] default_span]}
    (add_base "Dog" "Animal" class_model_new) ∅ ∅ ∅ ∅ ∅ ∅ ∅ ∅ ∅ ∅ ∅ None.

Lemma class_bases_acyclic_witness :
  validate_class_bases sample_hierarchy = Ok tt
  ∧ ¬ tc (base_of (class_model sample_hierarchy)) "Dog" "Dog".
Proof.
  split; [vm_compute; reflexivity|].
  apply (class_bases_acyclic sample_hierarchy). vm_compute. reflexivity.
Defined.

Lemma inherited_field_slot_witness :
  validate_field_layouts sample_hierarchy = Ok tt
  ∧ field_ref sample_hierarchy "Animal" "age" = Some (mkFieldRef "Animal" 0 0)
  ∧ ∃ r', field_ref sample_hierarchy "Dog" "age" = Some r' ∧ f_slot r' = 0.
Proof.
  split; [vm_compute; reflexivity|]. split; [vm_compute; reflexivity|].
  destruct (inherited_field_slot sample_hierarchy "Dog" "Animal" "age" (mkFieldRef "Animal" 0 0))
    as (r' & Hr & Hs & _).
  - vm_compute. reflexivity.
  - apply rtc_once. split; [vm_compute; reflexivity|by eexists].
  - vm_compute. reflexivity.
  - exists r'. split; [exact Hr|exact Hs].
Defined.
