(* ===== verification/Balance.v ===== *)
(** * Balance: the ownership rule of the IR ([crates/bn_ir/src/validate/ownership.rs])

    A value of a counted type is owned when it carries one strong reference.
    Every owned value is consumed exactly once on every path that returns, and
    nothing reads it afterwards. *)

From S2P Require Import Prelude Text Diag Types ClassModel Ir Compat.

#[local] Open Scope string_scope.
#[local] Open Scope Z_scope.

Section Module_.
Variable m : Module_.

Definition is_declared (name : string) : bool :=
  bool_decide (name ∈ module_interfaces m)
  || match function_of_kind m FieldInit name with Some _ => true | None => false end
  || match function_of_kind m Default name with Some _ => true | None => false end.

Definition BNLOG_COUNTED_CLASS : string := "Logger".

Fixpoint is_arc_type (ty : BType) : bool :=
  match ty with
  | TString | TPointer _ _ => true
  | TNamed name => String.eqb name "FS.File" || is_declared name
  | TImportedNamed id name =>
      match standard_library_of m id with
      | Some _ => bool_decide (id ∈ bnlog_providers m) && String.eqb name BNLOG_COUNTED_CLASS
      | None => is_declared ("#" +:+ dec_of_Z id +:+ "." +:+ name)
      end
  | TVector element _ => is_arc_type element
  | TAlternative members => existsb is_arc_type members
  | _ => false
  end.

Fixpoint counts_only_string_buffers (ty : BType) : bool :=
  match ty with
  | TString => true
  | TVector element _ => counts_only_string_buffers element
  | TAlternative members =>
      forallb (fun member => negb (is_arc_type member) || counts_only_string_buffers member) members
  | _ => false
  end.

Section Function_.
Variable f : Function.

(** The type each value's instruction gives it. *)
Definition value_types (l : list Instruction) : gmap ValueId BType :=
  fold_left (fun types i =>
    match instruction_defines i, instruction_type i with
    | Some v, Some ty => <[v := ty]> types
    | _, _ => types
    end) l ∅.

Variable types : gmap ValueId BType.

Definition counted_value (v : ValueId) : bool :=
  match types !! v with Some ty => is_arc_type ty | None => false end.

Definition last_field_weak (fields : list FieldRef) : bool :=
  match head (rev fields) with Some field => field_is_weak m field | None => false end.

(** The values an instruction consumes. *)
Definition consumed_by (i : Instruction) : list ValueId :=
  List.filter counted_value
    (match i with
     | IStore symbol value _ _ _ =>
         if bool_decide (symbol ∈ fn_weak_symbols f) then [] else [value]
     | ISetMember _ (Some field) _ _ value _ _ _ => if field_is_weak m field then [] else [value]
     | ISetMember _ None _ _ value _ _ _ => [value]
     | ISetField _ _ _ (Some fields) value _ _ _ => if last_field_weak fields then [] else [value]
     | ISetField _ _ _ None value _ _ _ => [value]
     | IVector _ values _ _ => values
     | IRelease value _ _ | ISetIndex _ _ value _ _ _ | ISetMemberIndex _ _ _ _ _ value _ _ _
     | ISetFieldIndex _ _ _ _ _ value _ _ _ | ISetStaticIndex _ _ _ value _ _ _
     | IStoreStatic _ _ value _ _ _ => [value]
     | _ => []
     end).

Definition yields_new_string (i : Instruction) (source : option BType) : bool :=
  match i with
  | IBinary _ _ _ _ ty _ => bool_decide (ty = TString)
  | ICast _ _ ty _ => bool_decide (ty = TString) && negb (bool_decide (source = Some TString))
  | _ => false
  end.

(** Whether the value an instruction defines is owned. *)
Definition produces_owned (i : Instruction) : bool :=
  match i with
  | IAllocate _ _ _ ty _ | ICall _ _ _ ty _ | IDispatchSubmit _ _ _ _ _ ty _
  | IDispatchAwait _ _ _ _ ty _ | IVector _ _ ty _ | IDefault _ ty _ _ _ | ITake _ _ ty _
  | ITakeMember _ _ _ _ _ ty _ | IInput _ _ ty _ => is_arc_type ty
  | IIndex _ object _ ty _ =>
      is_arc_type ty
      && match types !! object with Some THostArgs | Some TString => true | _ => false end
  | IRetain _ _ _ _ => true
  | IBinary _ _ _ _ _ _ => yields_new_string i None
  | ICast _ value _ _ => yields_new_string i (types !! value)
  | IStore _ _ _ _ _ | ISetIndex _ _ _ _ _ _ | ISetMemberIndex _ _ _ _ _ _ _ _ _
  | ISetFieldIndex _ _ _ _ _ _ _ _ _ | ISetStaticIndex _ _ _ _ _ _ _ | ISetMember _ _ _ _ _ _ _ _
  | ISetField _ _ _ _ _ _ _ _ | IStoreStatic _ _ _ _ _ _ =>
      match instruction_defines i with Some _ => true | None => false end
  | _ => false
  end.

(** The owned values alive at a point, and the values consumed before it. *)
Record OwnState := mkOwnState { owned : gset ValueId; consumed : gset ValueId }.

Definition consume (span : Span) (s : OwnState) (v : ValueId) : result OwnState :=
  refuse_if (negb (bool_decide (v ∈ owned s)))
    "a consumed value must be owned and not yet consumed (retain a borrowed value first)" span ;;
  Ok (mkOwnState (owned s ∖ {[v]}) ({[v]} ∪ consumed s)).

Definition check_instruction (s : OwnState) (i : Instruction) : result OwnState :=
  let span := instruction_span i in
  refuse_if (match i with
    | IPhi _ _ ty _ => is_arc_type ty && negb (counts_only_string_buffers ty)
    | _ => false
    end) "a phi of ARC values is not supported under explicit ownership" span ;;
  eachR (fun used =>
    refuse_if (bool_decide (used ∈ consumed s)) "an owned value is used after it was consumed" span)
    (instruction_uses i) ;;
  refuse_if (match i with
    | IRetain _ value ty _ =>
        match types !! value with Some actual => negb (bool_decide (actual = ty)) | None => false end
    | _ => false
    end) "retain type must match the retained value" span ;;
  s ← foldR (consume span) s (consumed_by i);
  Ok (match instruction_defines i with
      | Some v => if produces_owned i then mkOwnState ({[v]} ∪ owned s) (consumed s) else s
      | None => s
      end).

(** [index_of]: the first block with the id. *)
Definition index_of (id : BlockId) : option nat :=
  fst <$> list_find (fun block => b_id block = id) (fn_blocks f).

Record Walk := mkWalk { entry_state : gmap nat OwnState; pending : list nat }.

(** Every path into a block carries the same owned values; what one path
    consumed stays unreadable. *)
Definition merge (s : OwnState) (w : Walk) (target : BlockId) : result Walk :=
  match index_of target with
  | None => invalid_ir "branch target is missing" (fn_span f)
  | Some target =>
      match entry_state w !! target with
      | Some existing =>
          refuse_if (negb (bool_decide (owned existing = owned s)))
            "paths that join hold different owned values" (fn_span f) ;;
          Ok (mkWalk (<[target := mkOwnState (owned existing) (consumed s ∪ consumed existing)]>
                        (entry_state w)) (pending w))
      | None => Ok (mkWalk (<[target := s]> (entry_state w)) (pending w ++ [target])%list)
      end
  end.

Definition leave (s : OwnState) (w : Walk) (t : Terminator) : result Walk :=
  match t with
  | TReturn value =>
      owned ← (match value with
        | Some v =>
            if counted_value v then
              refuse_if (negb (bool_decide (v ∈ owned s)))
                "a returned ARC value must be owned (retain a borrowed value first)" (fn_span f) ;;
              Ok (owned s ∖ {[v]})
            else Ok (owned s)
        | None => Ok (owned s)
        end);
      refuse_if (negb (bool_decide (owned = ∅)))
        "an owned value is never consumed on a path that returns" (fn_span f) ;;
      Ok w
  | TStop _ => Ok w
  | TJump target => merge s w target
  | TBranch _ then_block else_block => w ← merge s w then_block; merge s w else_block
  end.

(** [while let Some(index) = pending.pop_front()]: one unit of fuel is one
    block. *)
Fixpoint walk (fuel : nat) (done_ : gset nat) (w : Walk) : result Walk :=
  match pending w with
  | [] => Ok w
  | index :: rest =>
      match fuel with
      | O => Fuel
      | S fuel =>
          let w := mkWalk (entry_state w) rest in
          if bool_decide (index ∈ done_) then walk fuel done_ w
          else
            block ← expect "index out of bounds" (fn_blocks f !! index);
            s ← expect "no entry state" (entry_state w !! index);
            s ← foldR check_instruction s (b_instructions block);
            w ← leave s w (b_terminator block);
            walk fuel ({[index]} ∪ done_) w
      end
  end.
End Function_.

Definition initial_state : OwnState := mkOwnState ∅ ∅.

Definition validate_function_ownership (f : Function) : result unit :=
  match index_of f (fn_entry f) with
  | None => invalid_ir "entry block is missing" (fn_span f)
  | Some entry =>
      walk f (value_types (flat_map b_instructions (fn_blocks f))) (S (length (fn_blocks f))) ∅
        (mkWalk {[entry := initial_state]} [entry]) ;;
      Ok tt
  end.

Definition validate_ownership : result unit := eachR validate_function_ownership (functions m).
End Module_.
