(* ===== verification/Validate.v ===== *)
(** * Validate: the language-level contract of the IR ([crates/bn_ir/src/validate.rs])

    Structure (dense blocks, successors in bounds), definite assignment (a
    dataflow analysis over the blocks a function can reach), phis, and the type
    of every instruction. *)

From S2P Require Import Prelude Text Diag Types ClassModel Ir Compat Fields Balance.

#[local] Open Scope string_scope.
#[local] Open Scope Z_scope.

Definition ValueTypes := gmap ValueId BType.
Definition Values := gset ValueId.

Definition has_type (p : BType → bool) (types : ValueTypes) (v : ValueId) : bool :=
  match types !! v with Some ty => p ty | None => false end.

(** ** Instructions *)

Definition constant_matches_type (value : Constant) (ty : BType) : bool :=
  match value with
  | CInteger _ => is_integer_type ty
  | CFloat _ => is_float_type ty
  | CString _ => is_string_type ty
  | CBoolean _ => is_boolean_type ty
  | CNull => match ty with TNull | TPointer _ _ => true | _ => is_void_type ty end
  | CNotAvailable => match ty with TNotAvailable => true | _ => false end
  | CEndOfFile => match ty with TEndOfFile => true | _ => false end
  | CFunction _ => match ty with TFunction _ _ | TUnknown => true | _ => false end
  | CType _ =>
      match ty with
      | TTypeName _ | TImportedTypeName _ _ | TNamed _ | TModule _ | THostClock | THostRandom
      | THostFileSystem | THostNet | THostExec | THostEnv => true
      | _ => false
      end
  | CHostConsole => match ty with THostConsole => true | _ => false end
  | CHostArgs => match ty with THostArgs => true | _ => false end
  end.

Definition is_comparable (l r : BType) : bool :=
  types_compatible l r || types_compatible r l || is_numeric_pair l r.

Definition is_one_of (operator : string) (operators : list string) : bool :=
  existsb (String.eqb operator) operators.

Definition valid_binary_types (operator : string) (l r res : BType) : bool :=
  if is_one_of operator ["Assign"; "NotEqual"] then is_comparable l r && is_boolean_type res
  else if is_one_of operator ["Less"; "LessEqual"; "Greater"; "GreaterEqual"] then
    is_boolean_type res && (is_numeric_pair l r || (is_string_type l && is_string_type r))
  else if is_one_of operator ["AND"; "OR"; "XOR"] then
    (is_boolean_type l && is_boolean_type r && is_boolean_type res)
    || (is_integer_pair l r && is_integer_type res)
  else if is_one_of operator ["DIV"; "Percent"; "SHL"; "SHR"] then
    is_integer_pair l r && is_integer_type res
  else if String.eqb operator "Plus" && (is_string_type l || is_string_type r) then
    is_string_type l && is_string_type r && is_string_type res
  else if is_one_of operator ["Plus"; "Minus"; "Star"; "Power"] then
    is_numeric_pair l r && is_numeric_type res
  else if String.eqb operator "Slash" then is_numeric_pair l r && is_float_type res
  else if String.eqb operator "IS" then is_type_test_type r && is_boolean_type res
  else false.

Definition valid_unary_types (operator : string) (operand ty : BType) : bool :=
  if String.eqb operator "Minus" then is_numeric_type operand && is_numeric_type ty
  else if String.eqb operator "NOT" then
    (is_boolean_type operand && is_boolean_type ty)
    || (is_integer_type operand && is_integer_type ty)
  else false.

Definition valid_cast_types (source target : BType) : bool :=
  bool_decide (source = target)
  || is_numeric_type source && (is_numeric_type target || is_boolean_type target)
  || is_string_type source && is_boolean_type target
  || (is_numeric_type source || is_boolean_type source) && is_string_type target
  || match source with TNull | TNotAvailable | TEndOfFile => is_boolean_type target | _ => false end.

Definition is_function_type (ty : BType) : bool :=
  match ty with TFunction _ _ => true | _ => false end.

Section Instructions.
Variables (m : Module_) (types : ValueTypes).

Definition integers (indices : list ValueId) : bool :=
  forallb (has_type is_integer_type types) indices.

(** The rule all stores share. *)
Definition check_store (value : ValueId) (ty : BType) (span : Span) : result unit :=
  refuse_if (negb (has_type (fun actual => store_compatible m actual ty) types value))
    "stored value does not match its declared type" span.

Definition check_member_names (name owner : string) (span : Span) : result unit :=
  refuse_if (String.eqb name "" || String.eqb owner "")
    "member name and owner class cannot be empty" span.

Definition check_receiver (object : ValueId) (owner message : string) (span : Span) : result unit :=
  refuse_if (negb (has_type (fun receiver => receiver_matches_owner m receiver owner) types object))
    message span.

Definition unresolved_store {A} (span : Span) : result A :=
  invalid_ir "record member store must carry a resolved field" span.

(** [Member] and [TakeMember] with a resolved field of a data type. *)
Definition check_member_read (object : ValueId) (field : FieldRef) (name owner : string)
    (ty : BType) (span : Span) : result unit :=
  field_ty ← validate_field_reference m owner name field span;
  check_receiver object owner "member receiver does not match its owner layout" span ;;
  refuse_if (negb (types_compatible field_ty ty))
    "member result type does not match its field layout" span.

Definition check_indices (indices : list ValueId) (message : string) (span : Span) : result unit :=
  refuse_if ((length indices =? 0)%nat || negb (integers indices)) message span.

(** The one-vector form of a two-parameter reduction. *)
Definition vector_overload (parameters : list BType) (arguments : list ValueId) : bool :=
  match arguments with
  | [argument] =>
      (length parameters =? 2)%nat
      && has_type (fun ty =>
           match ty with
           | TVector element dimensions => (length dimensions =? 1)%nat && is_numeric_type element
           | TPointer element _ => is_numeric_type element
           | _ => false
           end) types argument
  | _ => false
  end.

Definition check_call (callee : ValueId) (arguments : list ValueId) (ty : BType) (span : Span)
    : result unit :=
  match types !! callee with
  | None => invalid_ir "call callee has no type" span
  | Some (TFunction parameters return_type) =>
      let overload := vector_overload parameters arguments in
      refuse_if
        ((negb overload && negb (length parameters =? length arguments)%nat)
         || existsb (fun p : ValueId * BType =>
              match types !! p.1 with
              | None => true
              | Some argument_type =>
                  negb overload && negb (call_types_compatible m argument_type p.2)
              end) (combine arguments parameters)
         || negb (call_types_compatible m return_type ty))
        "call arguments or result do not match the callee signature" span
  | Some TUnknown => Ok tt
  | Some _ => invalid_ir "call callee must have a function type" span
  end.

Definition check_vector (values : list ValueId) (ty : BType) (span : Span) : result unit :=
  match ty with
  | TVector element dimensions =>
      refuse_if (match dimensions with
        | dimension :: _ =>
            negb (dimension =? u64_MAX) && negb (dimension =? Z.of_nat (length values))
        | [] => false
        end) "vector value count does not match its first dimension" span ;;
      refuse_if (negb (forallb (has_type (fun actual =>
                   element_compatible m actual (vector_element_type element dimensions)) types) values))
        "vector element does not match the vector element type" span
  | _ => invalid_ir "vector instruction must produce a vector type" span
  end.

Definition validate_instruction_types (i : Instruction) : result unit :=
  match i with
  | IConstant _ value ty span =>
      refuse_if (negb (constant_matches_type value ty))
        "constant value does not match its declared type" span
  | ILength destination _ span | ISizeOf destination _ span =>
      refuse_if (negb (has_type is_integer_type types destination))
        "length and sizeof results must have an integer type" span
  | ICopy _ source ty span =>
      refuse_if (negb (has_type (fun actual => types_compatible actual ty) types source))
        "copied value does not match its type" span
  | IStore _ value _ ty span => check_store value ty span
  | IDefault _ _ _ dynamic_dimensions span =>
      refuse_if (negb (integers dynamic_dimensions))
        "dynamic vector dimensions must have integer type" span
  | IVector _ values ty span => check_vector values ty span
  | IUnary _ operator operand ty span =>
      match types !! operand with
      | None => invalid_ir "unary operand has no type" span
      | Some operand_type =>
          refuse_if (negb (valid_unary_types operator operand_type ty))
            ("unary operator " +:+ operator +:+ " has incompatible operand/result types") span
      end
  | IBinary _ operator l r ty span =>
      match types !! l, types !! r with
      | Some left_type, Some right_type =>
          refuse_if (negb (valid_binary_types operator left_type right_type ty))
            ("binary operator " +:+ operator +:+ " has incompatible operand/result types") span
      | _, _ => invalid_ir "binary operand has no type" span
      end
  | ICast _ value ty span =>
      match types !! value with
      | None => invalid_ir "cast source has no type" span
      | Some source_type =>
          refuse_if (negb (valid_cast_types source_type ty))
            "cast source and target types are not convertible" span
      end
  | ICall _ callee arguments ty span => check_call callee arguments ty span
  | IDispatchSubmit _ _ queue task _ _ span =>
      refuse_if (match types !! queue with
        | Some ty => negb (contains_named_type ty "Queue") | None => false end)
        "dispatch submission requires a BNDispatch.Queue" span ;;
      refuse_if (match types !! task with
        | Some (TFunction _ _) | Some TUnknown | None => false | Some _ => true end)
        "dispatch submission task must be a function" span
  | IDispatchAwait _ _ ticket timeout _ span =>
      refuse_if (match types !! ticket with
        | Some ty => negb (is_dispatch_wait_handle ty) | None => false end)
        "dispatch wait requires a BNDispatch synchronization handle" span ;;
      refuse_if (negb (has_type is_integer_type types timeout))
        "dispatch await timeout must have an integer type" span
  | IClearScreen console span | IBeep console span =>
      refuse_if (negb (has_type (fun ty => match ty with THostConsole => true | _ => false end)
                         types console))
        "console control instruction requires HOST.Console" span
  | IMember _ object field name owner ty span =>
      check_member_names name owner span ;;
      match field with
      | None =>
          refuse_if (negb (is_function_type ty))
            "record member access must carry a resolved field" span
      | Some field =>
          if is_function_type ty then Ok tt else check_member_read object field name owner ty span
      end
  | ITakeMember _ object field name owner ty span =>
      check_member_names name owner span ;;
      match field with
      | None => unresolved_store span
      | Some field =>
          if is_function_type ty then Ok tt else check_member_read object field name owner ty span
      end
  | ISetMember object field name owner value _ ty span =>
      check_store value ty span ;;
      check_member_names name owner span ;;
      match field with
      | None => unresolved_store span
      | Some field =>
          field_ty ← validate_field_reference m owner name field span;
          check_receiver object owner "member receiver does not match its owner layout" span ;;
          refuse_if (negb (types_compatible ty field_ty))
            "member store type does not match its field layout" span
      end
  | ISetMemberIndex object field name owner indices value _ ty span =>
      check_store value ty span ;;
      check_member_names name owner span ;;
      match field with
      | None => unresolved_store span
      | Some field =>
          field_ty ← validate_field_reference m owner name field span;
          check_receiver object owner
            "indexed member store receiver does not match its owner layout" span ;;
          refuse_if (negb (index_result_matches field_ty ty))
            "indexed member store type does not match its field layout" span ;;
          check_indices indices "indexed store requires at least one integer index" span
      end
  | ILoadStatic _ class field _ span =>
      refuse_if (String.eqb class "" || String.eqb field "")
        "static member class and field names cannot be empty" span
  | IStoreStatic class field value _ ty span =>
      check_store value ty span ;;
      refuse_if (String.eqb class "" || String.eqb field "")
        "static member class and field names cannot be empty" span
  | ISetStaticIndex class field indices value _ ty span =>
      check_store value ty span ;;
      refuse_if (String.eqb class "" || String.eqb field "")
        "static member class and field names cannot be empty" span ;;
      check_indices indices "indexed store requires at least one integer index" span
  | IEnsureClass class span =>
      refuse_if (String.eqb class "") "class name cannot be empty" span
  | IAllocate _ type_name _ _ span =>
      refuse_if (String.eqb type_name "") "allocated type name cannot be empty" span
  | IRelease _ (Some destructor) span =>
      refuse_if (String.eqb destructor "") "destructor name cannot be empty" span
  | ISetField _ root_owner path fields value _ ty span =>
      check_store value ty span ;;
      field_ty ← validate_resolved_field_path m root_owner path fields span;
      refuse_if (negb (types_compatible ty field_ty))
        "field store type does not match its field layout" span
  | ISetFieldIndex _ root_owner path fields indices value _ ty span =>
      check_store value ty span ;;
      field_ty ← validate_resolved_field_path m root_owner path fields span;
      refuse_if (negb (index_result_matches field_ty ty))
        "indexed field store type does not match its field layout" span ;;
      check_indices indices "indices must be non-empty integers" span
  | IIndex _ object index ty span =>
      refuse_if (negb (has_type is_integer_type types index)) "index must have an integer type" span ;;
      refuse_if (match types !! object with
        | Some object_type => negb (index_result_matches object_type ty) | None => false end)
        "indexed object and result types are incompatible" span
  | ISetIndex _ indices value _ ty span =>
      check_store value ty span ;;
      check_indices indices "indexed store requires at least one integer index" span
  | _ => Ok tt
  end.
End Instructions.

(** ** Blocks *)

Definition block_successors (t : Terminator) : list BlockId :=
  match t with
  | TJump target => [target]
  | TBranch _ then_block else_block => [then_block; else_block]
  | TReturn _ | TStop _ => []
  end.

(** [validate_successor_bounds] *)
Definition validate_successor_bounds (block : BasicBlock) (block_count : Z) (span : Span)
    : result unit :=
  refuse_if (existsb (fun target => block_count <=? target) (block_successors (b_terminator block)))
    "terminator references a basic block that does not exist" span.

Section Blocks.
Variable f : Function.

Definition block_count : Z := Z.of_nat (length (fn_blocks f)).

Fixpoint validate_block_ids (index : Z) (blocks : list BasicBlock) : result unit :=
  match blocks with
  | [] => Ok tt
  | block :: blocks =>
      refuse_if (negb (b_id block =? index)) "basic block IDs must be dense and ordered" (fn_span f) ;;
      validate_successor_bounds block block_count (fn_span f) ;;
      validate_block_ids (index + 1) blocks
  end.

Definition validate_structure : result unit :=
  refuse_if (u32_MAX <? block_count) "function has too many basic blocks" (fn_span f) ;;
  refuse_if (block_count <=? fn_entry f) "function entry block does not exist" (fn_span f) ;;
  validate_block_ids 0 (fn_blocks f).

Definition block_at (index : nat) : option BasicBlock := fn_blocks f !! index.
Definition entry_index : nat := Z.to_nat (fn_entry f).

(** [successors[index]] *)
Definition successors (index : nat) : list nat :=
  match block_at index with
  | Some block => map Z.to_nat (block_successors (b_terminator block))
  | None => []
  end.

(** [predecessors[index]]: the blocks that jump to it, in order, once per edge. *)
Definition predecessors (index : nat) : list nat :=
  flat_map (fun p => map (fun _ => p) (filter (fun t => t = index) (successors p)))
    (seq 0 (length (fn_blocks f))).

(** [reachable_blocks]: the stack's top is the head of [pending]; the flags
    that are set are a set of positions.  One unit of fuel is one iteration. *)
Fixpoint reachable_loop (fuel : nat) (reachable : gset nat) (pending : list nat)
    : option (gset nat) :=
  match pending with
  | [] => Some reachable
  | index :: pending =>
      match fuel with
      | O => None
      | S fuel =>
          if bool_decide (index ∈ reachable) then reachable_loop fuel reachable pending
          else reachable_loop fuel ({[index]} ∪ reachable) (rev (successors index) ++ pending)%list
      end
  end.

(** One iteration per edge, and one for the entry. *)
Definition reachable_fuel : nat :=
  S (length (flat_map successors (seq 0 (length (fn_blocks f))))).

Definition reachable_blocks : option (gset nat) := reachable_loop reachable_fuel ∅ [entry_index].

(** The values the instructions of a block define. *)
Definition defined_by (instructions : list Instruction) : Values :=
  list_to_set (omap instruction_defines instructions).

Definition all_instructions : list Instruction := flat_map b_instructions (fn_blocks f).

(** Every value is defined once, and has the type its instruction gives it. *)
Fixpoint collect_values (all_values : Values) (types : ValueTypes) (l : list Instruction)
    : result (Values * ValueTypes) :=
  match l with
  | [] => Ok (all_values, types)
  | i :: l =>
      match instruction_defines i with
      | None => collect_values all_values types l
      | Some destination =>
          refuse_if (bool_decide (destination ∈ all_values))
            ("value %" +:+ dec_of_Z destination
             +:+ " is defined by more than one instruction in function " +:+ fn_name f)
            (instruction_span i) ;;
          let types := match instruction_type i with
            | Some ty => <[destination := ty]> types
            | None =>
                match i with
                | ILength _ _ _ | ISizeOf _ _ _ => <[destination := TInteger Int32]> types
                | _ => types
                end
            end in
          collect_values ({[destination]} ∪ all_values) types l
      end
  end.

(** ** Definite assignment: the dataflow analysis

    [incoming] and [outgoing] hold one set per block.  A round recomputes the
    blocks in order, in place, and the loop ends with a round that changes
    nothing. *)

Record Flow_ := mkFlow_ { incoming : list Values; outgoing : list Values }.

Definition set_at (l : list Values) (index : nat) : Values := default ∅ (l !! index).

(** The values on every path into the block: the intersection over its
    reachable predecessors, or nothing. *)
Definition joined (reachable : gset nat) (outgoing : list Values) (index : nat) : Values :=
  match filter (fun p => p ∈ reachable) (predecessors index) with
  | first :: paths =>
      fold_left (fun intersection p => intersection ∩ set_at outgoing p) paths (set_at outgoing first)
  | [] => ∅
  end.

Definition generated (index : nat) : Values :=
  match block_at index with Some block => defined_by (b_instructions block) | None => ∅ end.

(** One block of a round, and whether it changed anything. *)
Definition flow_block (reachable : gset nat) (acc : Flow_ * bool) (index : nat) : Flow_ * bool :=
  let '(s, changed) := acc in
  if bool_decide (index ∈ reachable) then
    let next := if bool_decide (index = entry_index) then ∅ else joined reachable (outgoing s) index in
    let next' := next ∪ generated index in
    (mkFlow_ (<[index := next]> (incoming s)) (<[index := next']> (outgoing s)),
     changed || bool_decide (next ≠ set_at (incoming s) index)
             || bool_decide (next' ≠ set_at (outgoing s) index))
  else (s, changed).

Definition flow_round (reachable : gset nat) (s : Flow_) : Flow_ * bool :=
  fold_left (flow_block reachable) (seq 0 (length (fn_blocks f))) (s, false).

(** [loop { .. if !changed { break } }]: one unit of fuel is one round. *)
Fixpoint flow_loop (reachable : gset nat) (fuel : nat) (s : Flow_) : option Flow_ :=
  match fuel with
  | O => None
  | S fuel =>
      let '(s, changed) := flow_round reachable s in
      if changed : bool then flow_loop reachable fuel s else Some s
  end.

Definition flow_start (reachable : gset nat) (all_values : Values) : Flow_ :=
  let initial := map (fun index =>
    if bool_decide (index ∈ reachable) && negb (bool_decide (index = entry_index)) then all_values
    else ∅) (seq 0 (length (fn_blocks f))) in
  mkFlow_ initial initial.

(** Enough rounds when the entry is the first block: each one removes a value
    from some set. *)
Definition flow_fuel (all_values : Values) : nat :=
  (4 + 2 * length (fn_blocks f) * size all_values)%nat.
End Blocks.

(** ** Phis and blocks *)

Section Checks.
Variables (m : Module_) (f : Function) (reachable : gset nat) (outgoing : list Values)
  (types : ValueTypes).

(** The edges of a phi: each names a reachable predecessor once, and a value
    defined where that block ends. *)
Fixpoint check_incoming (block : nat) (actual : gset nat) (l : list (BlockId * ValueId))
    : result (gset nat) :=
  match l with
  | [] => Ok actual
  | (predecessor_id, value) :: l =>
      let predecessor := Z.to_nat predecessor_id in
      refuse_if ((length (fn_blocks f) <=? predecessor)%nat
                 || negb (bool_decide (predecessor ∈ reachable))
                 || bool_decide (predecessor ∈ actual)
                 || negb (bool_decide (value ∈ set_at outgoing predecessor)))
        ("Phi in block " +:+ dec_of_Z (Z.of_nat block) +:+ " has invalid incoming predecessor "
         +:+ dec_of_Z (Z.of_nat predecessor) +:+ " and value %" +:+ dec_of_Z value) (fn_span f) ;;
      check_incoming block ({[predecessor]} ∪ actual) l
  end.

Definition validate_phi (block : nat) (l : list (BlockId * ValueId)) (ty : BType) (span : Span)
    : result unit :=
  actual ← check_incoming block ∅ l;
  let expected : gset nat := list_to_set (filter (fun p => p ∈ reachable) (predecessors f block)) in
  refuse_if (negb (bool_decide (actual = expected)))
    "Phi incoming edges must match the block predecessors exactly" (fn_span f) ;;
  refuse_if (negb (forallb (fun p : BlockId * ValueId =>
               has_type (fun incoming_type => types_compatible incoming_type ty) types p.2) l))
    "Phi incoming values must match the Phi result type" span.

Definition define (i : Instruction) (defined : Values) : Values :=
  match instruction_defines i with Some destination => {[destination]} ∪ defined | None => defined end.

(** The instructions of a block, from the values defined before them. *)
Fixpoint check_instructions (block : nat) (saw_non_phi : bool) (defined : Values)
    (l : list Instruction) : result Values :=
  match l with
  | [] => Ok defined
  | i :: l =>
      match i with
      | IPhi _ phi_incoming ty span =>
          refuse_if saw_non_phi "Phi instructions must precede other instructions in a block" span ;;
          validate_phi block phi_incoming ty span ;;
          check_instructions block saw_non_phi (define i defined) l
      | _ =>
          eachR (fun used =>
            refuse_if (negb (bool_decide (used ∈ defined))
                       && negb (bool_decide (instruction_defines i = Some used)))
              "instruction uses a value that is not defined on every executable path" (fn_span f))
            (instruction_uses i) ;;
          validate_instruction_types m types i ;;
          check_instructions block true (define i defined) l
      end
  end.

Definition is_void (ty : BType) : bool := is_void_type ty.

Definition validate_return_type (value : option ValueId) : result unit :=
  let void_only := is_void (fn_return_type f) in
  let allows_void := void_only
    || match fn_return_type f with TAlternative values => existsb is_void values | _ => false end in
  match value with
  | Some value =>
      if void_only then invalid_ir "VOID function cannot return a value" (fn_span f)
      else refuse_if (negb (has_type (fun value_type =>
               types_compatible value_type (fn_return_type f)
               || alternative_widens value_type (fn_return_type f)
               || type_is_upcast m value_type (fn_return_type f)) types value))
             "return value does not match the function return type" (fn_span f)
  | None =>
      refuse_if (negb void_only && negb allows_void) "non-VOID function must return a value" (fn_span f)
  end.

Definition check_terminator (defined : Values) (t : Terminator) : result unit :=
  match t with
  | TJump _ => Ok tt
  | TBranch condition _ _ =>
      refuse_if (negb (bool_decide (condition ∈ defined))) "branch condition is not defined"
        (fn_span f) ;;
      refuse_if (negb (has_type is_boolean_type types condition))
        "branch condition must have BOOLEAN type" (fn_span f)
  | TReturn value =>
      refuse_if (match value with Some v => negb (bool_decide (v ∈ defined)) | None => false end)
        "terminator value is not defined" (fn_span f) ;;
      validate_return_type value
  | TStop code =>
      refuse_if (negb (bool_decide (code ∈ defined))) "terminator value is not defined" (fn_span f) ;;
      refuse_if (negb (has_type is_integer_type types code)) "stop code must have an integer type"
        (fn_span f)
  end.

Definition check_block (incoming : list Values) (index : nat) : result unit :=
  match block_at f index with
  | None => Ok tt
  | Some block =>
      if bool_decide (index ∈ reachable) then
        defined ← check_instructions index false (set_at incoming index) (b_instructions block);
        check_terminator defined (b_terminator block)
      else Ok tt
  end.
End Checks.

(** What [validate] computes for a function before it checks the blocks. *)
Definition analyse (f : Function) : result (gset nat * ValueTypes * Flow_) :=
  validate_structure f ;;
  match reachable_blocks f with
  | None => Fuel
  | Some reachable =>
      '(all_values, types) ← collect_values f ∅ ∅ (all_instructions f);
      match flow_loop f reachable (flow_fuel f all_values) (flow_start f reachable all_values) with
      | None => Fuel
      | Some flow => Ok (reachable, types, flow)
      end
  end.

Definition validate_function (m : Module_) (f : Function) : result unit :=
  '(reachable, types, flow) ← analyse f;
  eachR (check_block m f reachable (outgoing flow) types (incoming flow))
    (seq 0 (length (fn_blocks f))).

(** [validate] *)
Definition validate (m : Module_) : result unit :=
  validate_class_bases m ;;
  validate_ownership m ;;
  validate_field_layouts m ;;
  validate_function_kinds m ;;
  eachR (validate_function m) (functions m).
