(* ===== verification/Assign.v ===== *)
(** * Assign: the dataflow analysis of [validate] computes definite assignment

    The reachable blocks are those the entry reaches, the analysis ends when
    the entry is the first block, and its result holds exactly the values that
    every path into a block defines.  With another entry block the loop of the
    source need not end; a closed function shows it. *)

From S2P Require Import Prelude Text Diag Types ClassModel Ir Compat Fields Balance Validate Sample.

#[local] Open Scope string_scope.
#[local] Open Scope Z_scope.

Section Graph.
Variable f : Function.

Definition edge (i j : nat) : Prop := j ∈ successors f i.

(** [path p j]: control can arrive at [j] after running the blocks [p]. *)
Inductive path : list nat → nat → Prop :=
| path_entry : path [] (entry_index f)
| path_step p i j : path p i → edge i j → path (p ++ [i]) j.

Lemma path_reachable p j : path p j → rtc edge (entry_index f) j.
Proof. induction 1 as [|p i j _ IH He]; [done|]. by apply rtc_r with i. Qed.

Lemma reachable_path j : rtc edge (entry_index f) j → ∃ p, path p j.
Proof.
  revert j. apply rtc_ind_r; [exists []; constructor|]. intros i j _ He [p Hp].
  exists (p ++ [i])%list. by apply path_step.
Qed.

Lemma edge_bound i j : edge i j → (i < length (fn_blocks f))%nat.
Proof.
  unfold edge, successors, block_at. destruct (fn_blocks f !! i) eqn:E.
  - intros _. by apply lookup_lt_Some in E.
  - intros Hj. by apply elem_of_nil in Hj.
Qed.

Lemma elem_of_predecessors i j : i ∈ predecessors f j ↔ edge i j.
Proof.
  unfold predecessors. rewrite list_elem_of_In, in_flat_map. split.
  - intros (p & _ & Hp). rewrite in_map_iff in Hp. destruct Hp as (t & -> & Ht).
    apply list_elem_of_In, list_elem_of_filter in Ht as [-> Ht]. done.
  - intros He. exists i. split.
    + apply List.in_seq. pose proof (edge_bound i j He). lia.
    + apply in_map_iff. exists j. split; [done|]. apply list_elem_of_In, list_elem_of_filter. done.
Qed.

(** ** Reachable blocks *)

Lemma reachable_loop_sound fuel R pending S :
  (∀ i, i ∈ R → rtc edge (entry_index f) i) → (∀ i, i ∈ pending → rtc edge (entry_index f) i) →
  (∀ i j, i ∈ R → edge i j → j ∈ R ∨ j ∈ pending) →
  reachable_loop f fuel R pending = Some S →
  (∀ i, i ∈ S → rtc edge (entry_index f) i) ∧ (∀ i j, i ∈ S → edge i j → j ∈ S) ∧ R ⊆ S
  ∧ ∀ i, i ∈ pending → i ∈ S.
Proof.
  revert R pending. induction fuel as [|fuel IH]; intros R [|k pending] HR Hp Hc; simpl; try done.
  - intros [= <-]. split; [done|]. split.
    { intros i j Hi He. destruct (Hc i j Hi He) as [?|H0]; [done|by apply elem_of_nil in H0]. }
    split; [done|]. intros i Hi. by apply elem_of_nil in Hi.
  - intros [= <-]. split; [done|]. split.
    { intros i j Hi He. destruct (Hc i j Hi He) as [?|H0]; [done|by apply elem_of_nil in H0]. }
    split; [done|]. intros i Hi. by apply elem_of_nil in Hi.
  - destruct (bool_decide (k ∈ R)) eqn:Hk.
    + apply bool_decide_eq_true in Hk. intros H. apply IH in H as (H1 & H2 & H3 & H4); [|done| |].
      * split; [done|]. split; [done|]. split; [done|]. intros i [->|Hi]%elem_of_cons; auto.
      * intros i Hi. apply Hp. by apply list_elem_of_further.
      * intros i j Hi He. destruct (Hc i j Hi He) as [?|[->|?]%elem_of_cons]; auto.
    + intros H. apply IH in H as (H1 & H2 & H3 & H4).
      * split; [done|]. split; [done|]. split; [set_solver|].
        intros i [->|Hi]%elem_of_cons; [set_solver|]. apply H4, elem_of_app. by right.
      * intros i [->%elem_of_singleton|Hi]%elem_of_union; [apply Hp, list_elem_of_here|by apply HR].
      * intros i [Hi|Hi]%elem_of_app; [|by apply Hp, list_elem_of_further].
        apply list_elem_of_In, in_rev, list_elem_of_In in Hi.
        apply rtc_r with k; [apply Hp, list_elem_of_here|done].
      * intros i j [->%elem_of_singleton|Hi]%elem_of_union He.
        { right. apply elem_of_app. left. apply list_elem_of_In. rewrite <- in_rev.
          by apply list_elem_of_In. }
        destruct (Hc i j Hi He) as [?|[->|?]%elem_of_cons]; [set_solver|set_solver|].
        right. apply elem_of_app. by right.
Qed.

Lemma filter_union_notin k (R : gset nat) (l : list nat) : k ∉ l →
  filter (fun i => i ∉ {[k]} ∪ R) l = filter (fun i => i ∉ R) l.
Proof.
  induction l as [|x l IH]; [done|]. intros [Hx Hl]%not_elem_of_cons. rewrite !filter_cons, IH by done.
  destruct (decide (x ∈ R)); [rewrite !decide_False by set_solver|rewrite !decide_True by set_solver]; done.
Qed.

Lemma filter_outside_all (R : gset nat) (l : list nat) : R = ∅ → filter (fun i => i ∉ R) l = l.
Proof.
  intros HR. induction l as [|x l IH]; [done|]. rewrite filter_cons, decide_True by set_solver.
  by rewrite IH.
Qed.

(** The edges that leave a set of blocks that have not run. *)
Definition edges_outside (R : gset nat) : nat :=
  length (flat_map (successors f) (filter (fun i => i ∉ R) (seq 0 (length (fn_blocks f))))).

Lemma edges_outside_step R k : (k < length (fn_blocks f))%nat → k ∉ R →
  (edges_outside ({[k]} ∪ R) + length (successors f k) = edges_outside R)%nat.
Proof.
  intros Hk HR. unfold edges_outside.
  assert (∀ l : list nat, NoDup l →
    (length (flat_map (successors f) (filter (fun i => i ∉ {[k]} ∪ R) l))
      + (if bool_decide (k ∈ l) then length (successors f k) else 0)
     = length (flat_map (successors f) (filter (fun i => i ∉ R) l)))%nat) as Hl.
  { induction l as [|x l IH]; intros Hdup; simpl; [done|].
    apply NoDup_cons_1_1 in Hdup as Hx. apply NoDup_cons_1_2 in Hdup. specialize (IH Hdup).
    rewrite !filter_cons. destruct (decide (x = k)) as [->|Hne].
    - rewrite decide_False by set_solver. rewrite decide_True by done. simpl. rewrite length_app.
      rewrite bool_decide_eq_false_2 in IH by done. rewrite bool_decide_eq_true_2 by set_solver. lia.
    - assert (bool_decide (k ∈ x :: l) = bool_decide (k ∈ l)) as ->.
      { apply bool_decide_ext. rewrite elem_of_cons. split; [intros [?|?]; congruence|auto]. }
      destruct (decide (x ∈ R)) as [Hin|Hin].
      + rewrite !decide_False by set_solver. done.
      + rewrite !decide_True by set_solver. simpl. rewrite !length_app. lia. }
  rewrite <- (Hl (seq 0 (length (fn_blocks f)))); [|apply NoDup_seq].
  rewrite bool_decide_eq_true_2; [done|]. apply elem_of_seq. lia.
Qed.

Lemma reachable_loop_total fuel R pending :
  (length pending + edges_outside R <= fuel)%nat → is_Some (reachable_loop f fuel R pending).
Proof.
  revert R pending. induction fuel as [|fuel IH]; intros R [|k pending]; simpl; try by eexists.
  { intros H. lia. }
  intros Hf. destruct (bool_decide (k ∈ R)) eqn:Hk; [apply IH; lia|].
  apply bool_decide_eq_false in Hk. apply IH. rewrite length_app, length_rev.
  destruct (decide (k < length (fn_blocks f))%nat) as [Hn|Hn].
  - pose proof (edges_outside_step R k Hn Hk). lia.
  - assert (successors f k = []) as ->.
    { unfold successors, block_at. by rewrite lookup_ge_None_2 by lia. }
    simpl. enough (edges_outside ({[k]} ∪ R) <= edges_outside R)%nat by lia.
    unfold edges_outside. rewrite (filter_union_notin k); [done|]. rewrite elem_of_seq. lia.
Qed.

Lemma reachable_blocks_exact :
  ∃ R, reachable_blocks f = Some R ∧ ∀ j, j ∈ R ↔ rtc edge (entry_index f) j.
Proof.
  destruct (reachable_loop_total (reachable_fuel f) ∅ [entry_index f]) as [R HR].
  { assert (edges_outside ∅ = length (flat_map (successors f) (seq 0 (length (fn_blocks f))))) as ->.
    { unfold edges_outside. do 2 f_equal. by apply filter_outside_all. }
    unfold reachable_fuel. simpl. lia. }
  exists R. split; [done|].
  apply reachable_loop_sound in HR as (H1 & H2 & _ & H4); [|set_solver| |set_solver].
  2: { by intros i ->%list_elem_of_singleton. }
  intros j. split; [apply H1|]. revert j. apply rtc_ind_r; [apply H4, list_elem_of_here|].
  intros i j _ He Hi. by apply (H2 i).
Qed.

(** ** The values a path defines *)

Definition defined_on (p : list nat) (v : ValueId) : Prop := Exists (fun i => v ∈ generated f i) p.

Lemma defined_on_snoc p i v : defined_on (p ++ [i]) v ↔ defined_on p v ∨ v ∈ generated f i.
Proof. unfold defined_on. rewrite Exists_app, Exists_cons, Exists_nil. tauto. Qed.

Lemma elem_of_joined R o j v : v ∈ joined f R o j ↔
  (∃ i, i ∈ R ∧ edge i j) ∧ ∀ i, i ∈ R → edge i j → v ∈ set_at o i.
Proof.
  assert (∀ i, i ∈ filter (fun p => p ∈ R) (predecessors f j) ↔ i ∈ R ∧ edge i j) as Hin.
  { intros i. by rewrite list_elem_of_filter, elem_of_predecessors. }
  unfold joined. destruct (filter _ _) as [|p l].
  { split; [set_solver|]. intros [(i & Hi) _]. apply Hin, elem_of_nil in Hi. done. }
  assert (∀ acc, v ∈ fold_left (fun x q => x ∩ set_at o q) l acc
            ↔ v ∈ acc ∧ ∀ i, i ∈ l → v ∈ set_at o i) as Hfold.
  { clear. induction l as [|q l IH]; intros acc; simpl; [split; [set_solver|tauto]|].
    rewrite IH, elem_of_intersection. setoid_rewrite elem_of_cons. naive_solver. }
  rewrite Hfold. setoid_rewrite elem_of_cons in Hin. split.
  - intros [Hp Hl]. split; [exists p; apply Hin; by left|]. intros i HR He.
    destruct (proj2 (Hin i)) as [->|?]; auto.
  - intros [_ Hall]. split; [|intros i Hi]; apply Hall; apply Hin; auto.
Qed.

Lemma joined_mono R o o' j : (∀ i, i ∈ R → set_at o i ⊆ set_at o' i) →
  joined f R o j ⊆ joined f R o' j.
Proof.
  intros Ho v. rewrite !elem_of_joined. intros [He Hv]. split; [done|].
  intros i Hi Hij. apply Ho; auto.
Qed.

(** ** One round *)

(** What a round computes for a block. *)
Definition next_in (R : gset nat) (o : list Values) (i : nat) : Values :=
  if bool_decide (i = entry_index f) then ∅ else joined f R o i.

Lemma flow_changed R l s : snd (fold_left (flow_block f R) l (s, true)) = true.
Proof.
  revert s. induction l as [|i l IH]; intros s; simpl; [done|].
  destruct (bool_decide (i ∈ R)); simpl; apply IH.
Qed.

Lemma set_at_insert l i x j : (i < length l)%nat →
  set_at (<[i := x]> l) j = if decide (j = i) then x else set_at l j.
Proof.
  intros Hi. unfold set_at. destruct (decide (j = i)) as [->|Hne].
  - by rewrite list_lookup_insert_eq.
  - by rewrite list_lookup_insert_ne by congruence.
Qed.

Lemma insert_same (l : list Values) i x : x = set_at l i → <[i := x]> l = l.
Proof.
  intros ->. unfold set_at. destruct (l !! i) as [y|] eqn:E.
  - by apply list_insert_id.
  - apply list_insert_ge. by apply lookup_ge_None.
Qed.

Lemma flow_block_same R i s s' : flow_block f R (s, false) i = (s', false) →
  s' = s ∧ (i ∈ R → set_at (incoming s) i = next_in R (outgoing s) i
                  ∧ set_at (outgoing s) i = next_in R (outgoing s) i ∪ generated f i).
Proof.
  unfold flow_block. destruct (bool_decide (i ∈ R)) eqn:Hi.
  2: { intros [= <-]. split; [done|]. intros H. by apply bool_decide_eq_false in Hi. }
  cbv zeta. intros [= Hs Hc]. apply orb_false_iff in Hc as [Hc1 Hc2]. simpl in Hc1.
  apply bool_decide_eq_false, dec_stable in Hc1.
  apply bool_decide_eq_false, dec_stable in Hc2.
  split; [|intros _; unfold next_in; by rewrite <- Hc2, <- Hc1].
  rewrite insert_same, insert_same in Hs by done. by destruct s.
Qed.

Lemma flow_fold_same R l s s' : fold_left (flow_block f R) l (s, false) = (s', false) →
  s' = s ∧ ∀ i, i ∈ l → i ∈ R → set_at (incoming s) i = next_in R (outgoing s) i
    ∧ set_at (outgoing s) i = next_in R (outgoing s) i ∪ generated f i.
Proof.
  induction l as [|i l IH]; cbn [fold_left].
  - intros [= <-]. split; [done|]. intros i Hi. by apply elem_of_nil in Hi.
  - destruct (flow_block f R (s, false) i) as [s1 []] eqn:E.
    { intros H. pose proof (flow_changed R l s1) as Hc. rewrite H in Hc. done. }
    apply flow_block_same in E as [-> Hi]. intros [-> Hl]%IH. split; [done|].
    intros j [->|Hj]%elem_of_cons; auto.
Qed.

Lemma flow_loop_same R fuel s s' : flow_loop f R fuel s = Some s' →
  flow_round f R s' = (s', false).
Proof.
  revert s. induction fuel as [|fuel IH]; intros s; [done|]. cbn [flow_loop].
  destruct (flow_round f R s) as [s1 []] eqn:E; [apply IH|].
  intros [= <-]. unfold flow_round in E |- *. pose proof (flow_fold_same _ _ _ _ E) as [-> _]. done.
Qed.

(** ** What one block of a round does *)

Definition shape (s : Flow_) : Prop :=
  length (incoming s) = length (fn_blocks f) ∧ length (outgoing s) = length (fn_blocks f).

(** The block [i] of a round, without the flag. *)
Definition step (R : gset nat) (s : Flow_) (i : nat) : Flow_ := fst (flow_block f R (s, false) i).

Lemma flow_block_step R s c i : fst (flow_block f R (s, c) i) = step R s i.
Proof. unfold step, flow_block. by destruct (bool_decide (i ∈ R)). Qed.

Lemma flow_fold_step R l s c : fst (fold_left (flow_block f R) l (s, c)) = fold_left (step R) l s.
Proof.
  revert s c. induction l as [|i l IH]; intros s c; cbn [fold_left]; [done|].
  rewrite <- (flow_block_step R s c i). destruct (flow_block f R (s, c) i) as [s1 c1]. apply IH.
Qed.

Lemma step_out R s i : i ∉ R → step R s i = s.
Proof. intros Hi. unfold step, flow_block. by rewrite bool_decide_eq_false_2. Qed.

Lemma step_in R s i : i ∈ R →
  step R s i = mkFlow_ (<[i := next_in R (outgoing s) i]> (incoming s))
                       (<[i := next_in R (outgoing s) i ∪ generated f i]> (outgoing s)).
Proof. intros Hi. unfold step, flow_block. by rewrite bool_decide_eq_true_2. Qed.

Lemma step_shape R s i : shape s → shape (step R s i).
Proof.
  intros [H1 H2]. destruct (decide (i ∈ R)) as [Hi|Hi]; [|by rewrite step_out].
  rewrite step_in by done. split; simpl; by rewrite length_insert.
Qed.

(** A property that every step on a block of the function keeps holds after a round. *)
Lemma steps_keep (P : Flow_ → Prop) R l s :
  (∀ i, i ∈ l → (i < length (fn_blocks f))%nat) →
  (∀ s i, (i < length (fn_blocks f))%nat → i ∈ R → P s → P (step R s i)) →
  P s → P (fold_left (step R) l s).
Proof.
  intros Hl Hstep. revert s. induction l as [|i l IH]; intros s Hs; cbn [fold_left]; [done|].
  apply IH; [intros j Hj; apply Hl; by right|].
  destruct (decide (i ∈ R)); [|by rewrite step_out]. apply Hstep; [apply Hl; by left|done|done].
Qed.

(** ** Soundness *)

(** The analysis has nothing left to change. *)
Definition settled (R : gset nat) (s : Flow_) : Prop :=
  ∀ i, (i < length (fn_blocks f))%nat → i ∈ R →
    set_at (incoming s) i = next_in R (outgoing s) i
    ∧ set_at (outgoing s) i = next_in R (outgoing s) i ∪ generated f i.

Lemma flow_loop_settled R fuel s s' : flow_loop f R fuel s = Some s' → settled R s'.
Proof.
  intros H%flow_loop_same i Hi HR. apply flow_fold_same in H as [_ H].
  apply H; [apply elem_of_seq; lia|done].
Qed.

Lemma settled_sound R s p j v :
  (∀ i, rtc edge (entry_index f) i → i ∈ R ∧ (i < length (fn_blocks f))%nat) →
  settled R s → path p j → v ∈ set_at (incoming s) j → defined_on p v.
Proof.
  intros HR Hs Hp. revert v. induction Hp as [|p i j Hp IH He]; intros v.
  - destruct (HR (entry_index f)) as [H1 H2]; [constructor|]. rewrite (proj1 (Hs _ H2 H1)).
    unfold next_in. rewrite bool_decide_eq_true_2 by done. set_solver.
  - pose proof (path_reachable p i Hp) as Hri. destruct (HR i Hri) as [Hi1 Hi2].
    destruct (HR j) as [Hj1 Hj2]; [by apply rtc_r with i|].
    rewrite (proj1 (Hs j Hj2 Hj1)). unfold next_in.
    destruct (bool_decide (j = entry_index f)); [set_solver|].
    rewrite elem_of_joined. intros [_ Hall]. specialize (Hall i Hi1 He).
    destruct (Hs i Hi2 Hi1) as [Hin Hout]. rewrite Hout, <- Hin in Hall.
    apply defined_on_snoc. apply elem_of_union in Hall as [Hall|Hall]; auto.
Qed.

(** ** Completeness *)

(** The sets hold at least the values every path defines. *)
Definition covers (R : gset nat) (s : Flow_) : Prop :=
  shape s ∧ ∀ i v, i ∈ R →
    ((∀ p, path p i → defined_on p v) → v ∈ set_at (incoming s) i)
    ∧ ((∀ p, path p i → defined_on (p ++ [i]) v) → v ∈ set_at (outgoing s) i).

Lemma next_in_covers R o i v :
  (∀ j, j ∈ R ↔ rtc edge (entry_index f) j) →
  (∀ j v, j ∈ R → (∀ p, path p j → defined_on (p ++ [j]) v) → v ∈ set_at o j) →
  i ∈ R → (∀ p, path p i → defined_on p v) → v ∈ next_in R o i.
Proof.
  intros HR Ho Hi Hv. unfold next_in. destruct (decide (i = entry_index f)) as [Heq|Hne].
  { subst i. specialize (Hv [] path_entry). by apply Exists_nil in Hv. }
  rewrite bool_decide_eq_false_2 by done. apply elem_of_joined. split.
  - apply HR in Hi. apply rtc_inv_r in Hi as [Hi|(k & Hk & He)]; [by symmetry in Hi|].
    exists k. by rewrite HR.
  - intros j Hj He. apply Ho; [done|]. intros p Hp. by apply Hv, path_step.
Qed.

Lemma defined_after i v : (∀ p, path p i → defined_on (p ++ [i]) v) →
  v ∈ generated f i ∨ ∀ p, path p i → defined_on p v.
Proof.
  intros Hv. destruct (decide (v ∈ generated f i)) as [?|Hn]; [by left|right].
  intros p Hp. by destruct (proj1 (defined_on_snoc p i v) (Hv p Hp)).
Qed.

Lemma covers_step R s i : (∀ j, j ∈ R ↔ rtc edge (entry_index f) j) →
  (i < length (fn_blocks f))%nat → i ∈ R → covers R s → covers R (step R s i).
Proof.
  intros HR Hi HiR [Hs Hc]. split; [by apply step_shape|].
  assert (∀ v, (∀ p, path p i → defined_on p v) → v ∈ next_in R (outgoing s) i) as Hnext.
  { intros v. apply next_in_covers; [done| |done]. intros j w Hj. by apply Hc. }
  destruct Hs as [Hs1 Hs2]. rewrite step_in by done. intros j v Hj. simpl.
  rewrite !set_at_insert by lia. destruct (decide (j = i)) as [->|_]; [|by apply Hc].
  split; [apply Hnext|]. intros [?|?]%defined_after; apply elem_of_union; auto.
Qed.

Lemma set_at_start R V i : (i < length (fn_blocks f))%nat →
  set_at (incoming (flow_start f R V)) i = (if bool_decide (i ∈ R) && negb (bool_decide (i = entry_index f)) then V else ∅)
  ∧ outgoing (flow_start f R V) = incoming (flow_start f R V).
Proof.
  intros Hi. split; [|done]. unfold flow_start, set_at. cbn [incoming].
  rewrite list_lookup_fmap, lookup_seq_lt by done. done.
Qed.

Lemma start_shape R V : shape (flow_start f R V).
Proof. split; simpl; by rewrite length_map, length_seq. Qed.

(** After the entry, which is the first block a round runs when its index is 0. *)
Lemma start_covers R V : (∀ j, j ∈ R ↔ rtc edge (entry_index f) j) →
  (∀ k, generated f k ⊆ V) → (∀ j, j ∈ R → (j < length (fn_blocks f))%nat) →
  covers R (step R (flow_start f R V) (entry_index f)).
Proof.
  intros HR HV Hb. set (e := entry_index f). assert (e ∈ R) as He by (apply HR; constructor).
  split; [apply step_shape, start_shape|]. destruct (start_shape R V) as [Hs1 Hs2].
  pose proof (Hb e He) as Hel.
  assert (∀ j, j ∈ R → j ≠ e → ∀ v, (∃ p, path p j ∧ defined_on (p ++ [j]) v) →
            v ∈ set_at (incoming (flow_start f R V)) j) as Hother.
  { intros j Hj Hne v (p & _ & Hv). rewrite (proj1 (set_at_start R V j (Hb j Hj))).
    rewrite bool_decide_eq_true_2, bool_decide_eq_false_2 by done. simpl.
    apply Exists_exists in Hv as (k & _ & Hk). by apply (HV k). }
  rewrite step_in by done. intros j v Hj. cbn [incoming outgoing].
  rewrite !set_at_insert by (by rewrite ?Hs1, ?Hs2). destruct (decide (j = e)) as [->|Hne].
  - split.
    + intros Hv. specialize (Hv [] path_entry). by apply Exists_nil in Hv.
    + intros Hv. specialize (Hv [] path_entry). apply defined_on_snoc in Hv as [Hv|Hv].
      * by apply Exists_nil in Hv.
      * apply elem_of_union. by right.
  - rewrite (proj2 (set_at_start R V j (Hb j Hj))).
    destruct (reachable_path j) as [p Hp]; [by apply HR|].
    split; intros Hv; apply Hother; try done; exists p; (split; [done|]).
    + apply defined_on_snoc. left. by apply Hv.
    + by apply Hv.
Qed.

(** ** The sets only shrink *)

Definition weight (s : Flow_) : nat :=
  (sum_list_with size (incoming s) + sum_list_with size (outgoing s))%nat.

Lemma sum_insert (l : list Values) i x : (i < length l)%nat →
  (sum_list_with size (<[i := x]> l) + size (set_at l i) = sum_list_with size l + size x)%nat.
Proof.
  unfold set_at. revert i. induction l as [|y l IH]; intros [|i]; simpl; intros Hi; try lia.
  specialize (IH i ltac:(lia)). change (list_insert i x l) with (<[i := x]> l). simpl in IH. lia.
Qed.

(** What the next step computes for a block is no more than its sets hold. *)
Definition descending (R : gset nat) (s : Flow_) : Prop :=
  shape s ∧ ∀ i, (i < length (fn_blocks f))%nat → i ∈ R →
    next_in R (outgoing s) i ⊆ set_at (incoming s) i
    ∧ set_at (incoming s) i ∪ generated f i ⊆ set_at (outgoing s) i.

Lemma next_in_entry R o : next_in R o (entry_index f) = ∅.
Proof. unfold next_in. by rewrite bool_decide_eq_true_2. Qed.

Lemma next_in_mono R o o' i : (∀ j, j ∈ R → set_at o j ⊆ set_at o' j) →
  next_in R o i ⊆ next_in R o' i.
Proof. intros Ho. unfold next_in. case_bool_decide; [done|]. by apply joined_mono. Qed.

Lemma descending_step R s i : (i < length (fn_blocks f))%nat → i ∈ R →
  descending R s → descending R (step R s i).
Proof.
  intros Hi HiR [Hs Hd]. split; [by apply step_shape|]. destruct Hs as [Hs1 Hs2].
  destruct (Hd i Hi HiR) as [Hd1 Hd2]. rewrite step_in by done.
  assert (∀ j, j ∈ R → set_at (<[i := next_in R (outgoing s) i ∪ generated f i]> (outgoing s)) j
                       ⊆ set_at (outgoing s) j) as Hle.
  { intros j Hj. rewrite set_at_insert by lia. destruct (decide (j = i)) as [->|]; set_solver. }
  intros j Hj HjR. cbn [incoming outgoing]. destruct (Hd j Hj HjR) as [Hj1 Hj2].
  pose proof (next_in_mono R _ _ j Hle) as Hn. rewrite !set_at_insert by lia.
  destruct (decide (j = i)) as [->|]; [done|]. split; [|done]. by etrans.
Qed.

Lemma subset_size_changed (X Y : Values) : X ⊆ Y → X ≠ Y → (size X < size Y)%nat.
Proof. intros H1 H2. apply subset_size. split; [done|]. intros H3. apply H2. set_solver. Qed.

Lemma flow_block_weight R s c i s' c' : (i < length (fn_blocks f))%nat → descending R s →
  flow_block f R (s, c) i = (s', c') →
  (weight s' <= weight s)%nat ∧ (c' = true → c = true ∨ (weight s' < weight s)%nat).
Proof.
  intros Hi [[Hs1 Hs2] Hd]. unfold flow_block. destruct (bool_decide (i ∈ R)) eqn:HiR.
  2: { intros [= <- <-]. split; [lia|auto]. }
  apply bool_decide_eq_true in HiR. destruct (Hd i Hi HiR) as [Hd1 Hd2].
  change (if bool_decide (i = entry_index f) then ∅ else joined f R (outgoing s) i)
    with (next_in R (outgoing s) i). set (x := next_in R (outgoing s) i) in *.
  cbv zeta. intros [= <- <-]. unfold weight. cbn [incoming outgoing].
  pose proof (sum_insert (incoming s) i x ltac:(lia)).
  pose proof (sum_insert (outgoing s) i (x ∪ generated f i) ltac:(lia)).
  assert (x ∪ generated f i ⊆ set_at (outgoing s) i) as Ho by set_solver.
  pose proof (subseteq_size _ _ Hd1) as H1. pose proof (subseteq_size _ _ Ho) as H2.
  split; [lia|]. intros [[?|Hc]%orb_true_iff|Hc]%orb_true_iff; [by left|right|right].
  - apply bool_decide_eq_true in Hc. pose proof (subset_size_changed _ _ Hd1 Hc). lia.
  - apply bool_decide_eq_true in Hc. pose proof (subset_size_changed _ _ Ho Hc). lia.
Qed.

Lemma flow_fold_weight R l : (∀ i, i ∈ l → (i < length (fn_blocks f))%nat) → ∀ s c s' c',
  descending R s → fold_left (flow_block f R) l (s, c) = (s', c') →
  descending R s' ∧ (weight s' <= weight s)%nat
  ∧ (c' = true → c = true ∨ (weight s' < weight s)%nat).
Proof.
  induction l as [|i l IH]; intros Hl s c s' c' Hd; cbn [fold_left].
  { intros [= <- <-]. auto. }
  destruct (flow_block f R (s, c) i) as [s1 c1] eqn:E. intros H.
  assert (i < length (fn_blocks f))%nat as Hi by (apply Hl; by left).
  pose proof (flow_block_weight R s c i s1 c1 Hi Hd E) as [Hw Hc].
  assert (descending R s1) as Hd1.
  { replace s1 with (fst (flow_block f R (s, c) i)) by by rewrite E. rewrite flow_block_step.
    destruct (decide (i ∈ R)); [by apply descending_step|by rewrite step_out]. }
  apply IH in H as (H1 & H2 & H3); [|intros j Hj; apply Hl; by right|done].
  split; [done|]. split; [lia|]. intros [->|?]%H3; [|right; lia].
  destruct (Hc eq_refl); [by left|right; lia].
Qed.

Lemma flow_loop_total R s fuel : descending R s → (weight s < fuel)%nat →
  is_Some (flow_loop f R fuel s).
Proof.
  revert s. induction fuel as [|fuel IH]; intros s Hd Hf; [lia|]. cbn [flow_loop].
  destruct (flow_round f R s) as [s1 c] eqn:E. unfold flow_round in E.
  apply flow_fold_weight in E as (Hd1 & _ & Hc); [|intros i Hi; apply elem_of_seq in Hi; lia|done].
  destruct c; [|by eexists]. apply IH; [done|]. destruct (Hc eq_refl); [done|lia].
Qed.

Lemma sum_bound (l : list Values) b : (∀ x, x ∈ l → (size x <= b)%nat) →
  (sum_list_with size l <= length l * b)%nat.
Proof.
  induction l as [|x l IH]; simpl; [lia|]. intros Hb.
  assert (size x <= b)%nat by (apply Hb; by left).
  enough (sum_list_with size l <= length l * b)%nat by lia. apply IH. intros y Hy. apply Hb. by right.
Qed.

(** ** From the start *)

Section Start.
Context (R : gset nat) (V : Values).
Context (reached : ∀ j, j ∈ R ↔ rtc edge (entry_index f) j).
Context (bounded : ∀ j, j ∈ R → (j < length (fn_blocks f))%nat).
Context (all : ∀ k, generated f k ⊆ V).

Definition started : Flow_ := step R (flow_start f R V) (entry_index f).

Lemma entry_reached : entry_index f ∈ R.
Proof. apply reached. constructor. Qed.

Lemma started_inside j : set_at (incoming started) j ⊆ V ∧ set_at (outgoing started) j ⊆ V.
Proof.
  unfold started. destruct (start_shape R V) as [H1 H2]. pose proof (bounded _ entry_reached) as He.
  assert (∀ k, set_at (incoming (flow_start f R V)) k ⊆ V) as Hin.
  { intros k. destruct (decide (k < length (fn_blocks f))%nat) as [Hk|Hk].
    - rewrite (proj1 (set_at_start R V k Hk)). destruct (_ && _); set_solver.
    - unfold set_at. rewrite lookup_ge_None_2 by lia. simpl. set_solver. }
  rewrite step_in by apply entry_reached. cbn [incoming outgoing]. rewrite !set_at_insert by lia.
  unfold next_in. rewrite bool_decide_eq_true_2 by done. pose proof (all (entry_index f)).
  destruct (decide (j = entry_index f)); [set_solver|]. split; apply Hin.
Qed.

Lemma started_descending : descending R started.
Proof.
  split; [apply step_shape, start_shape|]. intros i Hi HiR. pose proof (all i) as Hg.
  assert (next_in R (outgoing started) i ⊆ V) as Hn.
  { unfold next_in. case_bool_decide; [set_solver|]. intros v Hv. apply elem_of_joined in Hv.
    destruct Hv as [(k & Hk & He) Hv]. apply (proj2 (started_inside k)). auto. }
  revert Hn. unfold started. destruct (start_shape R V) as [H1 H2].
  pose proof (bounded _ entry_reached) as He.
  rewrite step_in by apply entry_reached. cbn [incoming outgoing].
  rewrite !set_at_insert by lia. rewrite !(next_in_entry R (outgoing (flow_start f R V))).
  destruct (decide (i = entry_index f)) as [->|Hne].
  - intros _. rewrite next_in_entry. set_solver.
  - intros Hn. rewrite (proj2 (set_at_start R V i Hi)), (proj1 (set_at_start R V i Hi)).
    rewrite bool_decide_eq_true_2, bool_decide_eq_false_2 by done. simpl.
    split; [done|]. set_solver.
Qed.

Lemma started_weight : (weight started <= 2 * length (fn_blocks f) * size V)%nat.
Proof.
  destruct started_descending as [[H1 H2] _]. unfold weight.
  assert (∀ l : list Values, (∀ j, set_at l j ⊆ V) → (sum_list_with size l <= length l * size V)%nat) as Hl.
  { intros l Hl. apply sum_bound. intros x [j Hj]%list_elem_of_lookup. apply subseteq_size.
    specialize (Hl j). unfold set_at in Hl. by rewrite Hj in Hl. }
  pose proof (Hl (incoming started) (fun j => proj1 (started_inside j))).
  pose proof (Hl (outgoing started) (fun j => proj2 (started_inside j))). lia.
Qed.

(** The first round starts with the entry, when that is block 0. *)
Lemma first_round : fn_entry f = 0 → ∃ c,
  flow_round f R (flow_start f R V)
  = fold_left (flow_block f R) (seq 1 (length (fn_blocks f) - 1)) (started, c).
Proof.
  intros He. pose proof (bounded _ entry_reached) as Hb. unfold flow_round.
  destruct (flow_block f R (flow_start f R V, false) 0) as [s c] eqn:E. exists c.
  assert (s = started) as ->.
  { unfold started. rewrite <- (flow_block_step R _ false). unfold entry_index. rewrite He.
    change (Z.to_nat 0) with 0%nat. by rewrite E. }
  destruct (length (fn_blocks f)) as [|k]; [lia|]. cbn [seq fold_left]. rewrite E.
  by rewrite Nat.sub_succ, Nat.sub_0_r.
Qed.

(** With block 0 as the entry the loop ends within the fuel, and what it ends
    with covers what every path defines. *)
Lemma start_total : fn_entry f = 0 →
  ∃ s, flow_loop f R (flow_fuel f V) (flow_start f R V) = Some s ∧ covers R s.
Proof.
  intros He. destruct (first_round He) as [c E]. unfold flow_fuel.
  set (k := (2 * length (fn_blocks f) * size V)%nat). change (4 + k)%nat with (S (3 + k)).
  cbn [flow_loop]. rewrite E.
  destruct (fold_left _ _ (started, c)) as [s c1] eqn:E1.
  assert (∀ i, i ∈ seq 1 (length (fn_blocks f) - 1) → (i < length (fn_blocks f))%nat) as Hl.
  { intros i Hi%elem_of_seq. lia. }
  pose proof (flow_fold_weight R _ Hl _ _ _ _ started_descending E1) as (Hd & Hw & _).
  pose proof started_weight as Hw0. fold k in Hw0.
  assert (covers R s) as Hcov.
  { replace s with (fst (fold_left (flow_block f R) (seq 1 (length (fn_blocks f) - 1)) (started, c)))
      by by rewrite E1.
    rewrite flow_fold_step. apply steps_keep; [done| |by apply start_covers].
    intros s0 i Hi HiR. by apply covers_step. }
  destruct c1; [|by exists s].
  destruct (flow_loop_total R s (3 + k) Hd) as [s' Hs']; [lia|]. exists s'. split; [done|].
  clear -Hs' Hcov reached. revert s Hs' Hcov. induction (3 + k)%nat as [|m IH]; [done|].
  intros s. cbn [flow_loop]. destruct (flow_round f R s) as [s1 c] eqn:E. intros H Hs.
  assert (covers R s1) as Hs1.
  { unfold flow_round in E.
    replace s1 with (fst (fold_left (flow_block f R) (seq 0 (length (fn_blocks f))) (s, false)))
      by by rewrite E.
    rewrite flow_fold_step. apply steps_keep; [|intros s0 i Hi HiR; by apply covers_step|done].
    intros i Hi%elem_of_seq. lia. }
  destruct c; [by apply (IH s1)|]. by injection H as <-.
Qed.
End Start.

(** ** What [validate_structure] and [collect_values] establish *)

Lemma validate_block_ids_bounds index l : validate_block_ids f index l = Ok tt →
  ∀ b, b ∈ l → ∀ t, t ∈ block_successors (b_terminator b) → t < block_count f.
Proof.
  revert index. induction l as [|b l IH]; intros index; cbn [validate_block_ids].
  { intros _ b Hb. by apply elem_of_nil in Hb. }
  intros (? & _ & ([] & H1 & H2)%res_bind_Ok)%res_bind_Ok b' [->|Hb]%elem_of_cons t Ht.
  - unfold validate_successor_bounds in H1. apply refuse_if_Ok in H1.
    destruct (Z.ltb_spec t (block_count f)); [done|].
    assert (existsb (fun target => block_count f <=? target) (block_successors (b_terminator b)) = true).
    { apply existsb_exists. exists t. split; [by apply list_elem_of_In|]. by apply Z.leb_le. }
    congruence.
  - by apply (IH _ H2 b' Hb).
Qed.

Lemma structure_bounds : 0 <= fn_entry f → validate_structure f = Ok tt →
  ∀ j, rtc edge (entry_index f) j → (j < length (fn_blocks f))%nat.
Proof.
  intros He. unfold validate_structure. intros (? & _ & ([] & H1 & H2)%res_bind_Ok)%res_bind_Ok.
  apply refuse_if_Ok in H1. apply Z.leb_gt in H1. unfold block_count in H1.
  apply rtc_ind_r; [unfold entry_index; lia|]. intros i j _ Hij Hi.
  unfold edge, successors, block_at in Hij. destruct (fn_blocks f !! i) as [b|] eqn:Eb.
  2: { by apply elem_of_nil in Hij. }
  apply list_elem_of_In, in_map_iff in Hij as (t & <- & Ht). apply list_elem_of_In in Ht.
  pose proof (validate_block_ids_bounds 0 _ H2 b (list_elem_of_lookup_2 _ _ _ Eb) t Ht) as Hb.
  unfold block_count in Hb. lia.
Qed.

Lemma collect_values_all l A T A' T' : collect_values f A T l = Ok (A', T') →
  A' = A ∪ defined_by l.
Proof.
  revert A T. induction l as [|i l IH]; intros A T; cbn [collect_values].
  { intros [= <- <-]. unfold defined_by. simpl. set_solver. }
  unfold defined_by. simpl. destruct (instruction_defines i) as [d|]; [|apply IH].
  intros (? & _ & H)%res_bind_Ok. apply IH in H as ->. simpl. unfold defined_by. set_solver.
Qed.

Lemma generated_all k : generated f k ⊆ defined_by (all_instructions f).
Proof.
  unfold generated, block_at. destruct (fn_blocks f !! k) as [b|] eqn:E; [|set_solver].
  intros v. unfold defined_by, all_instructions.
  rewrite !elem_of_list_to_set, !list_elem_of_omap. intros (i & Hi & Hv). exists i. split; [|done].
  apply list_elem_of_In, in_flat_map. exists b. split; apply list_elem_of_In; [|done].
  by apply list_elem_of_lookup_2 in E.
Qed.
End Graph.

(** ** The analysis as a whole *)

Lemma analyse_inv f R types s : analyse f = Ok (R, types, s) →
  ∃ V, validate_structure f = Ok tt ∧ reachable_blocks f = Some R
    ∧ (∀ k, generated f k ⊆ V)
    ∧ flow_loop f R (flow_fuel f V) (flow_start f R V) = Some s.
Proof.
  unfold analyse. intros ([] & Hs & H)%res_bind_Ok. destruct (reachable_blocks f) as [R'|]; [|done].
  apply res_bind_Ok in H as ([V T] & HV & H). apply collect_values_all in HV as ->.
  destruct (flow_loop _ _ _ _) as [s'|] eqn:E; [|done]. injection H as -> _ ->.
  eexists. split; [done|]. split; [done|]. split; [|done].
  intros k. pose proof (generated_all f k). set_solver.
Qed.

Lemma refuse_if_ends wrong message span : refuse_if wrong message span ≠ Fuel.
Proof. by destruct wrong. Qed.

(** A result that is a value or a refusal: neither a panic nor a loop cut short. *)
Definition answers {A} (r : result A) : Prop := match r with Ok _ | Err _ => True | _ => False end.

Lemma answered_bind {A B} (r : result A) (k : A → result B) :
  answers r → (∀ a, r = Ok a → answers (k a)) → answers (r ≫= k).
Proof. destruct r; cbn; auto. Qed.

Lemma refuse_if_answers wrong message span : answers (refuse_if wrong message span).
Proof. by destruct wrong. Qed.

Lemma validate_structure_answers f : answers (validate_structure f).
Proof.
  unfold validate_structure. apply answered_bind; [apply refuse_if_answers|]. intros _ _.
  apply answered_bind; [apply refuse_if_answers|]. intros _ _.
  generalize 0. induction (fn_blocks f) as [|b l IH]; intros k; [done|]. cbn [validate_block_ids].
  do 2 (apply answered_bind; [apply refuse_if_answers|]; intros _ _). apply IH.
Qed.

Lemma collect_values_answers f A T l : answers (collect_values f A T l).
Proof.
  revert A T. induction l as [|i l IH]; intros A T; cbn [collect_values]; [done|].
  destruct (instruction_defines i); [|apply IH].
  apply answered_bind; [apply refuse_if_answers|]. intros _ _. apply IH.
Qed.

(** What the result of the analysis says of control paths, used by the
    theorems about validated functions. *)
Lemma analyse_sound f R types s : 0 <= fn_entry f → analyse f = Ok (R, types, s) →
  (∀ j, j ∈ R ↔ rtc (edge f) (entry_index f) j)
  ∧ (∀ j, j ∈ R → (j < length (fn_blocks f))%nat)
  ∧ settled f R s
  ∧ ∀ p j, path f p j → ∀ v, v ∈ set_at (incoming s) j → defined_on f p v.
Proof.
  intros He (V & Hs & HR & HV & Hl)%analyse_inv.
  destruct (reachable_blocks_exact f) as (R' & HR' & Hex). rewrite HR in HR'. injection HR' as <-.
  pose proof (structure_bounds f He Hs) as Hb.
  split; [done|]. split; [intros j Hj; by apply Hb, Hex|].
  pose proof (flow_loop_settled f R _ _ _ Hl) as Hset. split; [done|].
  intros p j Hp v Hv. apply (settled_sound f R s p j v); [|done..].
  intros i Hi. split; [by apply Hex|by apply Hb].
Qed.

(** The analysis of a function whose entry is block 0 ends: enough fuel is a
    round for each value of each set, whatever the blocks are. *)
Theorem analyse_ends f : fn_entry f = 0 → answers (analyse f).
Proof.
  intros H0. unfold analyse. apply answered_bind; [apply validate_structure_answers|].
  intros [] Hs. destruct (reachable_blocks_exact f) as (R & -> & Hex).
  apply answered_bind; [apply collect_values_answers|].
  intros [V T] HV. apply collect_values_all in HV as ->.
  destruct (start_total f R (∅ ∪ defined_by (all_instructions f)) Hex) as (s & -> & _); [| |done|done].
  - intros j Hj. apply (structure_bounds f); [lia|done|by apply Hex].
  - intros k. pose proof (generated_all f k). set_solver.
Qed.

(** C4: With block 0 as the entry (as every module the front end lowers has) the
    analysis ends, with a refusal or a result, and a result is exact: the blocks
    it marks are the ones control reaches, and the values it lets such a block
    use are those that every path from the entry to it defines.  With another
    entry the loop may not end ([analyse_diverges]); where it does, the marks
    are exact and every value a block may use is defined on every path. *)
Theorem analyse_exact f : 0 <= fn_entry f →
  (fn_entry f = 0 → answers (analyse f))
  ∧ ∀ R types s, analyse f = Ok (R, types, s) →
    ∀ j, (j ∈ R ↔ ∃ p, path f p j)
    ∧ ∀ v, (v ∈ set_at (incoming s) j → ∀ p, path f p j → defined_on f p v)
         ∧ (fn_entry f = 0 → j ∈ R → (∀ p, path f p j → defined_on f p v) → v ∈ set_at (incoming s) j).
Proof.
  intros He. split; [apply analyse_ends|]. intros R types s Ha j.
  pose proof (analyse_sound f R types s He Ha) as (Hex & Hb & Hset & Hsound).
  split.
  { rewrite Hex. split; [apply reachable_path|]. intros [p Hp]. by apply path_reachable in Hp. }
  intros v. split; [intros Hv p Hp; by apply (Hsound p j)|].
  intros H0 Hj Hv. apply analyse_inv in Ha as (V & Hs & HR & HV & Hl).
  destruct (start_total f R V Hex Hb HV H0) as (s' & Hs' & Hcov). rewrite Hl in Hs'.
  injection Hs' as <-. by apply Hcov.
Qed.

(** ** An entry that is not block 0 *)

#[local] Abbreviation sp := default_span.

(** Blocks in a ring, 0 → 2 → 1 → 0, entered from block 3. *)
Definition ring_function : Function :=
  mkFunction "Ring" User None false [] ∅ (TAlternative []) 3
    [mkBlock 0 [] (TJump 2); mkBlock 1 [] (TJump 0); mkBlock 2 [] (TJump 1);
     mkBlock 3 [IConstant 7 (CBoolean true) TBoolean sp] (TJump 0)] sp.

(** The states of its rounds, which come back to the first one's. *)
Definition ring_state (rounds : nat) : Flow_ :=
  Nat.iter rounds (fun s => fst (flow_round ring_function {[0; 1; 2; 3]}%nat s))
    (flow_start ring_function {[0; 1; 2; 3]}%nat {[7]}).

Lemma ring_rounds :
  flow_round ring_function {[0; 1; 2; 3]}%nat (ring_state 0) = (ring_state 1, true)
  ∧ flow_round ring_function {[0; 1; 2; 3]}%nat (ring_state 1) = (ring_state 2, true)
  ∧ flow_round ring_function {[0; 1; 2; 3]}%nat (ring_state 2) = (ring_state 1, true).
Proof. vm_compute. auto. Qed.

Lemma ring_loop fuel :
  flow_loop ring_function {[0; 1; 2; 3]}%nat fuel (ring_state 1) = None
  ∧ flow_loop ring_function {[0; 1; 2; 3]}%nat fuel (ring_state 2) = None.
Proof.
  destruct ring_rounds as (_ & H1 & H2).
  induction fuel as [|fuel [IH1 IH2]]; [done|]. cbn [flow_loop]. by rewrite H1, H2.
Qed.

(** The loop of [validate] has no bound of its own, and on this function it
    has none: its rounds come back to a state that is not settled, so
    [validate] does not return, though each structural check of the function
    passes. *)
Theorem analyse_diverges :
  validate_structure ring_function = Ok tt
  ∧ reachable_blocks ring_function = Some {[0; 1; 2; 3]}%nat
  ∧ collect_values ring_function ∅ ∅ (all_instructions ring_function)
    = Ok ({[7]}, {[7 := TBoolean]})
  ∧ ∀ fuel, flow_loop ring_function {[0; 1; 2; 3]}%nat fuel
              (flow_start ring_function {[0; 1; 2; 3]}%nat {[7]}) = None.
Proof.
  do 3 (split; [vm_compute; reflexivity|]). destruct ring_rounds as (H0 & _ & _).
  intros [|fuel]; [done|]. cbn [flow_loop]. change (flow_start _ _ _) with (ring_state 0).
  rewrite H0. apply ring_loop.
Qed.

(** ** Witnesses *)

Lemma analyse_exact_witness : answers (analyse fact_function)
  ∧ ∃ R types s, analyse fact_function = Ok (R, types, s)
    ∧ ∀ p, path fact_function p 2 → defined_on fact_function p 0.
Proof.
  assert (0 <= fn_entry fact_function) as H0 by (vm_compute; discriminate).
  pose proof (analyse_exact fact_function H0) as [Hends Hexact]. split; [by apply Hends|].
  assert (match analyse fact_function with
          | Ok (_, _, s) => bool_decide (0 ∈ set_at (incoming s) 2) | _ => false end = true) as Hc
    by (vm_compute; reflexivity).
  destruct (analyse fact_function) as [[[R types] s]| | |] eqn:E; [|discriminate Hc..].
  exists R, types, s. split; [reflexivity|].
  apply bool_decide_eq_true in Hc.
  exact (proj1 (proj2 (Hexact R types s eq_refl 2%nat) 0) Hc).
Defined.

Lemma analyse_ends_witness : fn_entry fact_function = 0 ∧ answers (analyse fact_function).
Proof. split; [reflexivity|]. apply (analyse_ends fact_function). reflexivity. Defined.
