(* ===== verification/Reach.v ===== *)
(** * Reach: a validated function uses no undefined value when it runs

    The points a call of [crates/bn_interp/src/executor/part1.rs] reaches, as a
    relation on the executor's own steps, and the theorem that joins the
    validator to the executor: at every such point of a function that
    [validate] accepted, the operands of the next instruction and of the
    terminator hold values, every block control moves to exists, and a phi has
    the edge control came by. *)

From S2P Require Import Prelude Text Diag Types ClassModel Arc Heap Values Operators Ir Frames Machine Places Providers TemporalOps Exec Sample Runs Compat Fields Balance Validate Assign.

#[local] Open Scope string_scope.
#[local] Open Scope Z_scope.

(** ** What an instruction leaves in the slots *)

(** The slot of [v] holds a value. *)
Definition set_in (frame : Frame) (v : ValueId) : Prop := is_Some (slots_get (values frame) v).

Lemma slots_get_lookup vs v : is_Some (slots_get vs v) ↔ ∃ x, vs !! Z.to_nat v = Some (Some x).
Proof.
  unfold slots_get. destruct (vs !! Z.to_nat v) as [[x|]|]; split; intros [y Hy]; eauto; discriminate.
Qed.

Lemma set_in_set frame d x v : set_in frame v ∨ v = d → set_in (set frame d x) v.
Proof.
  unfold set_in, set, slots_insert. cbn [values]. rewrite !slots_get_lookup.
  destruct (decide (Z.to_nat v = Z.to_nat d)) as [E|E].
  - intros _. rewrite E. exists x. apply list_lookup_insert_eq. rewrite length_app, length_replicate. lia.
  - intros [[y Hy]| ->]; [|done]. exists y. etrans; [apply list_lookup_insert_ne; congruence|].
    by apply lookup_app_l_Some.
Qed.

Section Grows.
Context `{World} `{!Seam} `{Allocator} `{Floats.Platform}.

(** Every frame a computation returns keeps the slots of [frame], and sets [d]. *)
Definition grows (frame : Frame) (d : option ValueId) (frame' : Frame) : Prop :=
  ∀ v, set_in frame v ∨ d = Some v → set_in frame' v.

Definition yields {A} (P : A → Prop) (m : exec A) : Prop := ∀ c c' a, m c = (c', Ok a) → P a.

Lemma yields_any {A} (m : exec A) : yields (fun _ => True) m.
Proof. done. Qed.

Lemma yields_bind {A B} (Q : A → Prop) (P : B → Prop) (m : exec A) (f : A → exec B) :
  yields Q m → (∀ a, Q a → yields P (f a)) → yields P (m ≫= f).
Proof. intros Hm Hf c c' b. rewrite st_bind_Ok. intros (c1 & a & Em & Ef).
  by apply (Hf a (Hm _ _ _ Em) c1 c'). Qed.

Lemma yields_ret {A} (P : A → Prop) (a : A) : P a → yields P (mret a).
Proof. by intros Ha c c' a' [= _ <-]. Qed.

Lemma yields_fail {A} (P : A → Prop) r : (∀ a, r ≠ Ok a) → yields P (lift r).
Proof. intros Hr c c' a [= _ ->]. by destruct (Hr a). Qed.

Lemma grows_refl frame : grows frame None frame.
Proof. by intros v [?|?]. Qed.
Lemma grows_set frame d x : grows frame (Some d) (set frame d x).
Proof. intros v [?|[= ->]]; apply set_in_set; auto. Qed.
Lemma grows_set_symbols frame s d x : grows frame (Some d) (set (set_symbols frame s) d x).
Proof. intros v [?|[= ->]]; apply set_in_set; auto. Qed.
Lemma grows_set_previous frame s previous x :
  grows frame previous (set_previous (set_symbols frame s) previous x).
Proof. destruct previous; [apply grows_set_symbols|]. by intros v [?|?]. Qed.
Lemma grows_set_previous_same frame previous x : grows frame previous (set_previous frame previous x).
Proof. destruct previous; [apply grows_set|apply grows_refl]. Qed.

(** The replaced value is there when the IR asks for it. *)
Lemma when_previous_yields previous read :
  yields (fun replaced => is_Some previous → is_Some replaced) (when_previous previous read).
Proof.
  destruct previous; unfold when_previous; [|apply yields_ret; by intros []].
  eapply yields_bind; [apply yields_any|]. intros a _. apply yields_ret. by eexists.
Qed.

Lemma grows_store frame frame1 previous replaced :
  grows frame None frame1 → (is_Some previous → is_Some replaced) →
  grows frame previous (store_previous frame1 previous replaced).
Proof.
  intros Hg Hr. destruct previous as [d|]; [|done]. destruct Hr as [x ->]; [by eexists|].
  intros v Hv. apply set_in_set. destruct Hv as [Hv|[= ->]]; [|by right]. left. apply Hg. by left.
Qed.

Lemma grows_symbols frame s : grows frame None (set_symbols frame s).
Proof. by intros v [?|?]. Qed.

Lemma grows_slots_set frame d x : grows frame None (mkFrame (symbols frame) (slots_set (values frame) d x)).
Proof.
  intros v [Hv|?]; [|done]. unfold set_in, slots_set in *. cbn [values].
  destruct (slots_get (values frame) d) as [y|] eqn:E; [|done]. rewrite !slots_get_lookup in *.
  destruct Hv as [z Hz]. destruct (decide (Z.to_nat v = Z.to_nat d)) as [Ed|Ed].
  - exists x. rewrite Ed. apply list_lookup_insert_eq. rewrite <- Ed. by eapply lookup_lt_Some.
  - exists z. etrans; [apply list_lookup_insert_ne; congruence|done].
Qed.

#[local] Hint Resolve grows_refl grows_set grows_set_symbols grows_set_previous
  grows_set_previous_same grows_symbols grows_slots_set grows_store : core.

Ltac yields_step :=
  match goal with
  | |- yields _ (mret _) => apply yields_ret; solve [eauto]
  | |- yields _ (lift (runtime_error _ _ _)) => apply yields_fail; intros ?; discriminate
  | |- yields _ (lift (name_not_found _ _ _)) => apply yields_fail; intros ?; discriminate
  | |- yields _ (lift (type_mismatch _ _ _ _)) => apply yields_fail; intros ?; discriminate
  | |- yields _ (when_previous _ _ ≫= _) =>
      eapply yields_bind; [apply when_previous_yields|cbv beta; intros ? ?]
  | |- yields _ (_ ≫= _) => eapply yields_bind; [apply yields_any|intros ? _]
  | |- yields _ (match ?x with _ => _ end) => destruct x
  end.

Lemma set_member_value_yields frame object name field v span :
  yields (grows frame None) (set_member_value frame object name field v span).
Proof. unfold set_member_value. repeat yields_step. Qed.

Lemma set_member_index_value_yields frame object name field indices v span :
  yields (grows frame None) (set_member_index_value frame object name field indices v span).
Proof. unfold set_member_index_value. repeat yields_step. Qed.

#[local] Hint Resolve set_member_value_yields set_member_index_value_yields : core.

(** A member store returns a frame of its own, then the replaced value is set. *)
Lemma store_yields frame m previous replaced :
  yields (grows frame None) m → (is_Some previous → is_Some replaced) →
  yields (grows frame previous) (frame1 ← m; mret (store_previous frame1 previous replaced)).
Proof.
  intros Hm Hr. eapply yields_bind; [exact Hm|]. intros frame1 Hg. cbv beta. apply yields_ret.
  by apply grows_store.
Qed.

Lemma i_store_yields symbol source previous ty span frame c c' frame' :
  session_restored_symbols c = ∅ →
  i_store symbol source previous ty span frame c = (c', Ok frame') → grows frame previous frame'.
Proof.
  intros Hr. unfold i_store, get, mbind at 1, st_bind at 1.
  rewrite bool_decide_eq_false_2 by (rewrite Hr; set_solver). revert c c' frame' Hr.
  assert (yields (grows frame previous)
    (stored ← coerced_at frame source ty span;
     if negb (same_length (symbols frame !! symbol) stored) then
       lift (runtime_error VECTOR_LENGTH_MISMATCH
               "assigned vector length differs from the declared length" span)
     else
       capture (<[symbol := stored]>) ;;
       let replaced := default VNull (symbols frame !! symbol) in
       let frame := set_symbols frame (<[symbol := stored]> (symbols frame)) in
       owner ← ownership_frame;
       put_ownership_frame
         (mkOwnershipFrame (released_symbols owner ∖ {[symbol]}) (weak_symbols owner)) ;;
       mret (set_previous frame previous replaced))) as Hy by (cbv zeta; repeat yields_step).
  intros c c' frame' _. apply Hy.
Qed.

Lemma i_constant_yields destination constant ty span frame :
  yields (grows frame (Some destination)) (i_constant destination constant ty span frame).
Proof.
  unfold i_constant. destruct (slots_get _ _) as [v|] eqn:E; [|repeat yields_step].
  apply yields_ret. intros w [?|[= <-]]; [done|]. by exists v.
Qed.

Lemma instruction_yields (R : Rec) i frame :
  (∀ symbol source previous ty span, i ≠ IStore symbol source previous ty span) →
  yields (grows frame (instruction_defines i)) (instruction R i frame).
Proof.
  intros Hi. destruct i; try (by destruct (Hi symbol value previous ty span));
    cbn [instruction instruction_defines]; try apply i_constant_yields;
    unfold i_default, i_load, i_retain, i_take, i_take_member, i_end_binding, i_copy, i_unary,
      i_binary, i_cast, i_call, i_input, i_print, i_vector, i_index, i_member, i_set_index,
      i_set_member_index, i_set_field_index, i_set_static_index, i_length, i_size_of, i_console,
      i_allocate, i_release, i_set_member, i_set_field, i_load_static, i_store_static;
    cbv zeta; repeat first
      [ match goal with
        | |- yields _ (set_member_value _ _ _ _ _ _ ≫= _) => apply store_yields; solve [auto]
        | |- yields _ (set_member_index_value _ _ _ _ _ _ _ ≫= _) => apply store_yields; solve [auto]
        end
      | yields_step ].
Qed.

Lemma instruction_grows (R : Rec) i frame c c' frame' :
  session_restored_symbols c = ∅ → instruction R i frame c = (c', Ok frame') →
  grows frame (instruction_defines i) frame'.
Proof.
  intros Hr Hrun. destruct i; try (eapply instruction_yields; [|exact Hrun]; intros; discriminate).
  by apply (i_store_yields _ _ _ _ _ _ _ _ _ Hr Hrun).
Qed.
End Grows.

(** ** The points a call reaches *)

Section Reached.
Context `{World} `{!Seam} `{Allocator} `{Floats.Platform}.
Variables (R : Rec) (f : Function).

(** One instruction, as the loop of [run_instructions] executes it. *)
Definition execute_one (previous : option BlockId) (i : Instruction) (frame : Frame) : exec Frame :=
  match i with
  | IPhi destination incoming _ span => lift (phi previous destination incoming span frame)
  | _ => instruction R i frame
  end.

(** The blocks the end of a block may move to, with the values of [frame]. *)
Definition moves_to (frame : Frame) (t : Terminator) (target : BlockId) : Prop :=
  match t with
  | TJump next => target = next
  | TBranch condition then_block else_block =>
      ∃ v b, value frame condition (fn_span f) = Ok v ∧ boolean v (fn_span f) = Ok b
        ∧ target = if b : bool then then_block else else_block
  | TReturn _ | TStop _ => False
  end.

(** [reached a c0 block previous l c frame]: a call of [f] with [a] from [c0]
    comes, in state [c], to the instructions [l] of [block], which control
    entered from [previous]. *)
Inductive reached (arguments : list Value) (c0 : Core)
    : BlockId → option BlockId → list Instruction → Core → Frame → Prop :=
| reached_entry c frame block :
    enter f arguments c0 = (c, Ok frame) → find_block f (fn_entry f) = Ok block →
    reached arguments c0 (fn_entry f) None (b_instructions block) c frame
| reached_next block previous i rest c c1 c2 frame frame' :
    reached arguments c0 block previous (i :: rest) c frame →
    check_cancel (instruction_span i) c = (c1, Ok tt) →
    execute_one previous i frame c1 = (c2, Ok frame') →
    stops_at_once i rest c2 = None →
    reached arguments c0 block previous rest c2 frame'
| reached_jump block previous c frame current target next :
    reached arguments c0 block previous [] c frame →
    find_block f block = Ok current → moves_to frame (b_terminator current) target →
    find_block f target = Ok next →
    reached arguments c0 target (Some block) (b_instructions next) c frame.

(** A failure, as the failure of a caller. *)
Definition failure {A B} (r : result A) : result B := _ ← r; Fuel.

(** How a call ends at a point. *)
Definition ends_at (block : BlockId) (previous : option BlockId) (l : list Instruction) (c : Core)
    (frame : Frame) (c' : Core) (r : result Flow) : Prop :=
  match l with
  | i :: rest =>
      (∃ r0, check_cancel (instruction_span i) c = (c', r0) ∧ r0 ≠ Ok tt ∧ r = failure r0)
      ∨ ∃ c1, check_cancel (instruction_span i) c = (c1, Ok tt)
        ∧ ((∃ r0, execute_one previous i frame c1 = (c', r0) ∧ (∀ frame', r0 ≠ Ok frame')
                  ∧ r = failure r0)
           ∨ ∃ c2 frame' code, execute_one previous i frame c1 = (c2, Ok frame')
               ∧ stops_at_once i rest c2 = Some code ∧ c' = with_stop_code None c2
               ∧ r = Ok (FStop code))
  | [] =>
      ∃ current, find_block f block = Ok current
        ∧ match b_terminator current with
          | TReturn returned => finish_return f returned frame c = (c', r)
          | TStop code => finish_stop f code frame c = (c', r)
          | TJump target => c' = c ∧ (∀ next, find_block f target ≠ Ok next) ∧ r = failure (find_block f target)
          | TBranch condition then_block else_block =>
              c' = c
              ∧ let r0 := (v ← value frame condition (fn_span f);
                           b ← boolean v (fn_span f);
                           find_block f (if b : bool then then_block else else_block)) in
                (∀ next, r0 ≠ Ok next) ∧ r = failure r0
          end
  end.

Lemma run_instructions_reaches arguments c0 block previous l c frame c' r :
  reached arguments c0 block previous l c frame →
  run_instructions R previous l frame c = (c', r) →
  (∃ frame', r = Ok (inl frame') ∧ reached arguments c0 block previous [] c' frame')
  ∨ ∃ l1 c1 frame1 r1, reached arguments c0 block previous l1 c1 frame1
    ∧ ends_at block previous l1 c1 frame1 c' r1
    ∧ ((∃ code, r = Ok (inr code) ∧ r1 = Ok (FStop code)) ∨ (∀ a, r ≠ Ok a) ∧ r1 = failure r).
Proof.
  revert c frame. induction l as [|i rest IH]; intros c frame Hr; cbn [run_instructions].
  { intros [= <- <-]. left. by exists frame. }
  change (match i with
          | IPhi destination incoming _ span => lift (phi previous destination incoming span frame)
          | _ => instruction R i frame end) with (execute_one previous i frame).
  unfold mbind at 1, st_bind at 1.
  destruct (check_cancel (instruction_span i) c) as [c1 [[]|e|w|]] eqn:Ec.
  2-4: intros [= <- <-]; right; exists (i :: rest), c, frame; eexists; split; [done|];
    (split; [left; eexists; split; [exact Ec|done]|right; done]).
  unfold mbind at 1, st_bind at 1. destruct (execute_one previous i frame c1) as [c2 [frame'|e|w|]] eqn:Ee.
  2-4: intros [= <- <-]; right; exists (i :: rest), c, frame; eexists; split; [done|];
    (split; [right; exists c1; split; [done|]; left; eexists; split; [exact Ee|done]|right; done]).
  unfold get, mbind at 1, st_bind at 1. destruct (stops_at_once i rest c2) as [code|] eqn:Es.
  - intros [= <- <-]. right. exists (i :: rest), c, frame, (Ok (FStop code)). split; [done|].
    split; [|left; by exists code]. right. exists c1. split; [done|]. right. by exists c2, frame', code.
  - apply IH. by apply (reached_next _ _ block previous i rest c c1 c2 frame frame').
Qed.

(** Entering a block ends at once without fuel or without the block. *)
Lemma run_blocks_into fuel target previous frame c c' r :
  run_blocks R fuel f target previous frame c = (c', r) →
  r = Fuel ∨ (∃ next, find_block f target = Ok next)
  ∨ (∀ next, find_block f target ≠ Ok next) ∧ c' = c ∧ r = failure (find_block f target).
Proof.
  destruct fuel as [|fuel]; cbn [run_blocks]; [by intros [= _ <-]; left|].
  unfold mbind at 1, st_bind at 1, lift at 1.
  destruct (find_block f target) as [next|e|w|]; [right; left; by eexists|..];
    intros [= <- <-]; right; right; done.
Qed.

Lemma run_blocks_reaches arguments c0 fuel block previous current c frame c' r :
  find_block f block = Ok current →
  reached arguments c0 block previous (b_instructions current) c frame →
  run_blocks R fuel f block previous frame c = (c', r) →
  r = Fuel ∨ ∃ block1 previous1 l1 c1 frame1, reached arguments c0 block1 previous1 l1 c1 frame1
    ∧ ends_at block1 previous1 l1 c1 frame1 c' r.
Proof.
  revert block previous current c frame. induction fuel as [|fuel IH];
    intros block previous current c frame Hb Hr; cbn [run_blocks].
  { intros [= _ <-]. by left. }
  rewrite Hb. unfold mbind at 1, st_bind at 1, lift at 1. unfold mbind at 1, st_bind at 1.
  destruct (run_instructions R previous (b_instructions current) frame c) as [c1 r1] eqn:Ei.
  apply (run_instructions_reaches _ _ _ _ _ _ _ _ _ Hr) in Ei
    as [(frame1 & -> & Hr1)|(l2 & c2 & frame2 & r2 & Hr2 & He2 & Hcase)].
  2: { intros Hrun. right. exists block, previous, l2, c2, frame2. split; [done|].
       destruct Hcase as [(code & -> & ->)|[Hno ->]]; [by injection Hrun as <- <-|].
       destruct r1 as [a|e|w|]; [by destruct (Hno a)|by injection Hrun as <- <-..]. }
  intros Hrun.
  destruct (b_terminator current) as [target|condition a b|returned|code] eqn:Et.
  3,4: right; exists block, previous, [], c1, frame1; split; [done|]; exists current; by rewrite Et.
  - destruct (run_blocks_into fuel target (Some block) frame1 c1 c' r Hrun) as [?|[[next En]|[Hno [-> ->]]]];
      [by left| |].
    { apply (IH target (Some block) next c1 frame1 En); [|done].
      apply (reached_jump _ _ block previous c1 frame1 current target next); try done. by rewrite Et. }
    right. exists block, previous, [], c1, frame1. split; [done|]. exists current. by rewrite Et.
  - unfold lift in Hrun. unfold mbind at 1, st_bind at 1 in Hrun.
    destruct (value frame1 condition (fn_span f)) as [v|e|w|] eqn:Ev.
    2-4: right; exists block, previous, [], c1, frame1; split; [done|]; exists current; rewrite Et, Ev;
      injection Hrun as <- <-; done.
    unfold mbind at 1, st_bind at 1 in Hrun.
    destruct (boolean v (fn_span f)) as [bv|e|w|] eqn:Ebv.
    2-4: right; exists block, previous, [], c1, frame1; split; [done|]; exists current; rewrite Et, Ev; simpl;
      rewrite Ebv; injection Hrun as <- <-; done.
    destruct (run_blocks_into fuel (if bv then a else b) (Some block) frame1 c1 c' r Hrun)
      as [?|[[next En]|[Hno [-> ->]]]]; [by left| |].
    { apply (IH (if bv then a else b) (Some block) next c1 frame1 En); [|done].
      apply (reached_jump _ _ block previous c1 frame1 current _ next); try done. rewrite Et. simpl. eauto. }
    right. exists block, previous, [], c1, frame1. split; [done|]. exists current. rewrite Et, Ev. simpl.
    by rewrite Ebv.
Qed.

(** A call comes to an end at a point it reaches, or runs out of fuel. *)
Lemma function_reaches fuel arguments c0 c' r entry :
  length arguments = length (fn_parameters f) → find_block f (fn_entry f) = Ok entry →
  function R fuel f arguments c0 = (c', r) →
  r = Fuel ∨ ∃ block previous l c frame, reached arguments c0 block previous l c frame
    ∧ ends_at block previous l c frame c' r.
Proof.
  intros Ha He. unfold function. rewrite Ha, Z.eqb_refl. cbn [negb].
  unfold mbind at 1, st_bind at 1. destruct (enter f arguments c0) as [c [frame|e|w|]] eqn:En.
  - intros Hrun. by apply (run_blocks_reaches arguments c0 fuel (fn_entry f) None entry c frame c' r He
      (reached_entry _ _ c frame entry En He)).
  - exfalso. revert En. unfold enter, get, modify. unfold mbind, st_bind. destruct (pool_take _).
    by destruct (call_depth c0 =? 0).
  - exfalso. revert En. unfold enter, get, modify. unfold mbind, st_bind. destruct (pool_take _).
    by destruct (call_depth c0 =? 0).
  - intros [= _ <-]. by left.
Qed.
End Reached.

(** ** The validator's promise *)

Section Validated.
Context `{World} `{!Seam} `{Allocator} `{Floats.Platform}.
Variables (n : nat) (f : Function).

(** The block numbers of the function are unsigned, as the code's [u32]s are. *)
Definition unsigned_ids : bool :=
  (0 <=? fn_entry f)
  && forallb (fun block =>
       forallb (fun target => 0 <=? target) (block_successors (b_terminator block))
       && forallb (fun i => match i with
            | IPhi _ incoming _ _ => forallb (fun p : BlockId * ValueId => 0 <=? p.1) incoming
            | _ => true end) (b_instructions block)) (fn_blocks f).

Variables (m : Module_) (reach : gset nat) (types : ValueTypes) (flow : Flow_).
Context (ids : unsigned_ids = true).
Context (analysed : analyse f = Ok (reach, types, flow)).
Context (checked : ∀ k, (k < length (fn_blocks f))%nat →
  check_block m f reach (outgoing flow) types (incoming flow) k = Ok tt).

(** What holds at a point control reaches. *)
Record at_point (block : BlockId) (previous : option BlockId) (l : list Instruction) (c : Core)
    (frame : Frame) : Prop := {
  point_restored : session_restored_symbols c = ∅;
  point_unsigned : 0 <= block;
  point_entry : previous = None → block = fn_entry f;
  point_reach : Z.to_nat block ∈ reach;
  point_block : ∃ current done_, find_block f block = Ok current
    ∧ b_instructions current = (done_ ++ l)%list;
  point_defined : ∃ saw defined defined',
    check_instructions m f reach (outgoing flow) types (Z.to_nat block) saw defined l = Ok defined'
    ∧ (∀ current, find_block f block = Ok current →
         check_terminator m f types defined' (b_terminator current) = Ok tt)
    ∧ (∀ v, v ∈ defined → set_in frame v)
    ∧ set_at (outgoing flow) (Z.to_nat block) ⊆ defined ∪ defined_by l;
  point_previous : ∀ p, previous = Some p → 0 <= p ∧ Z.to_nat p ∈ reach
    ∧ edge f (Z.to_nat p) (Z.to_nat block)
    ∧ ∀ v, v ∈ set_at (outgoing flow) (Z.to_nat p) → set_in frame v;
}.

Lemma find_block_at block current : find_block f block = Ok current →
  block_at f (Z.to_nat block) = Some current.
Proof.
  unfold find_block, block_at. destruct (fn_blocks f !! Z.to_nat block) as [b|]; [|done].
  destruct (b_id b =? block); [|done]. by intros [= ->].
Qed.

Lemma block_at_find k current : block_at f k = Some current → find_block f (Z.of_nat k) = Ok current.
Proof.
  intros Hk. unfold find_block. rewrite Nat2Z.id. unfold block_at in Hk. rewrite Hk.
  apply analyse_inv in analysed as (V & Hs & _). unfold validate_structure in Hs. inv_ok.
  assert (∀ l index, validate_block_ids f index l = Ok tt → ∀ k b, l !! k = Some b →
            b_id b = index + Z.of_nat k) as Hids.
  { clear. induction l as [|b l IH]; intros index Hv [|k] b' Hb; try discriminate; cbn [validate_block_ids] in Hv;
      inv_ok; destruct a; apply refuse_if_Ok in Ha; apply negb_false_iff, Z.eqb_eq in Ha.
    - injection Hb as <-. lia.
    - rewrite (IH _ Hv k b' Hb). lia. }
  rewrite (Hids _ 0 Hs k current Hk). rewrite Z.add_0_l, Z.eqb_refl. done.
Qed.

Lemma entry_unsigned : 0 <= fn_entry f.
Proof. pose proof ids as Hids. unfold unsigned_ids in Hids. by apply andb_prop in Hids as [He%Z.leb_le _]. Qed.

Lemma reached_block k : k ∈ reach → ∃ current, find_block f (Z.of_nat k) = Ok current.
Proof.
  pose proof (analyse_sound f reach types flow entry_unsigned analysed) as (_ & Hb & _).
  intros Hk. specialize (Hb k Hk). destruct (lookup_lt_is_Some_2 _ _ Hb) as [current Hc].
  exists current. by apply block_at_find.
Qed.

Lemma successor_unsigned block current target : find_block f block = Ok current →
  target ∈ block_successors (b_terminator current) → 0 <= target ∧ edge f (Z.to_nat block) (Z.to_nat target).
Proof.
  intros Hb Ht. apply find_block_at in Hb. split.
  - unfold unsigned_ids in ids. apply andb_prop in ids as [_ Hall].
    rewrite forallb_forall in Hall. specialize (Hall current).
    rewrite <- list_elem_of_In in Hall. specialize (Hall (list_elem_of_lookup_2 _ _ _ Hb)).
    apply andb_prop in Hall as [Hall _]. rewrite forallb_forall in Hall.
    apply Z.leb_le, Hall. by apply list_elem_of_In.
  - unfold edge, successors. rewrite Hb. apply list_elem_of_In, in_map_iff. exists target.
    split; [done|]. by apply list_elem_of_In.
Qed.

Lemma defined_by_cons i l v : v ∈ defined_by (i :: l) ↔ instruction_defines i = Some v ∨ v ∈ defined_by l.
Proof.
  unfold defined_by. simpl. destruct (instruction_defines i); [set_solver|].
  split; [by right|]. by intros [?|?].
Qed.

Lemma define_elem i defined v : v ∈ define i defined ↔ v ∈ defined ∨ instruction_defines i = Some v.
Proof. unfold define. destruct (instruction_defines i); set_solver. Qed.

Lemma check_instructions_cons k saw defined i l defined' :
  check_instructions m f reach (outgoing flow) types k saw defined (i :: l) = Ok defined' →
  (∃ saw', check_instructions m f reach (outgoing flow) types k saw' (define i defined) l = Ok defined')
  ∧ match i with
    | IPhi _ incoming ty span =>
        validate_phi f reach (outgoing flow) types k incoming ty span = Ok tt
    | _ => ∀ v, v ∈ instruction_uses i → v ∈ defined ∨ instruction_defines i = Some v
    end.
Proof using Type.
  clear checked analysed ids.
  assert (∀ i, eachR (fun used => refuse_if (negb (bool_decide (used ∈ defined))
      && negb (bool_decide (instruction_defines i = Some used)))
        "instruction uses a value that is not defined on every executable path" (fn_span f))
      (instruction_uses i) = Ok tt →
      ∀ v, v ∈ instruction_uses i → v ∈ defined ∨ instruction_defines i = Some v) as Huse.
  { intros j Hj v Hv. apply (proj1 (eachR_Ok _ _) Hj) in Hv. apply refuse_if_Ok in Hv.
    apply andb_false_iff in Hv as [Hv|Hv]; apply negb_false_iff, bool_decide_eq_true in Hv; auto. }
  destruct i; cbn [check_instructions]; intros Hc; inv_ok; destruct a, a0;
    (split; [by eexists|]); first [by apply Huse | done].
Qed.

(** Control arrives at a block. *)
Lemma arrive block previous current c frame :
  session_restored_symbols c = ∅ → 0 <= block → (previous = None → block = fn_entry f) →
  Z.to_nat block ∈ reach → find_block f block = Ok current →
  (∀ v, v ∈ set_at (incoming flow) (Z.to_nat block) → set_in frame v) →
  (∀ p, previous = Some p → 0 <= p ∧ Z.to_nat p ∈ reach ∧ edge f (Z.to_nat p) (Z.to_nat block)
    ∧ ∀ v, v ∈ set_at (outgoing flow) (Z.to_nat p) → set_in frame v) →
  at_point block previous (b_instructions current) c frame.
Proof.
  intros Hres Hu Hent Hr Hb Hin Hprev. split; try done.
  { exists current, []. done. }
  pose proof (analyse_sound f reach types flow entry_unsigned analysed) as (_ & Hlt & Hset & _).
  pose proof (checked _ (Hlt _ Hr)) as Hc. unfold check_block in Hc.
  rewrite (find_block_at _ _ Hb), bool_decide_eq_true_2 in Hc by done. inv_ok.
  exists false, (set_at (incoming flow) (Z.to_nat block)), a. split; [done|]. split.
  { intros current' Hb'. rewrite Hb in Hb'. by injection Hb' as <-. }
  split; [done|]. destruct (Hset _ (Hlt _ Hr) Hr) as [H3 H4]. rewrite H4, <- H3.
  unfold generated. by rewrite (find_block_at _ _ Hb).
Qed.

Lemma execute_one_grows R previous i frame c c' frame' :
  session_restored_symbols c = ∅ → execute_one R previous i frame c = (c', Ok frame') →
  grows frame (instruction_defines i) frame'.
Proof.
  intros Hr. destruct i; try apply (instruction_grows _ _ _ _ _ _ Hr). cbn [execute_one].
  unfold phi. intros Hp. inv_ok. apply grows_set.
Qed.

Lemma execute_one_keeps previous i frame : keeps kept (execute_one (machine n) previous i frame).
Proof.
  destruct i; try apply instruction_keeps, machine_keeps. apply keeps_lift. apply _.
Qed.

Lemma restored_empty c c' : kept c c' → session_restored_symbols c = ∅ → session_restored_symbols c' = ∅.
Proof. intros Hk Hr. pose proof (kept_restored _ _ Hk). set_solver. Qed.

Lemma point_next block previous i rest c c1 c2 frame frame' :
  at_point block previous (i :: rest) c frame →
  check_cancel (instruction_span i) c = (c1, Ok tt) →
  execute_one (machine n) previous i frame c1 = (c2, Ok frame') →
  at_point block previous rest c2 frame'.
Proof.
  intros [P1 P2 P3 P4 P5 P6 P7] Hc He.
  pose proof (restored_empty _ _ (check_cancel_keeps _ _ _ _ Hc I) P1) as Hr1.
  pose proof (execute_one_grows _ _ _ _ _ _ _ Hr1 He) as Hg.
  pose proof (restored_empty _ _ (execute_one_keeps _ _ _ _ _ _ He I) Hr1) as Hr2.
  split; try done.
  - destruct P5 as (current & done_ & Hb & Hl). exists current, (done_ ++ [i])%list.
    split; [done|]. by rewrite <- app_assoc.
  - destruct P6 as (saw & defined & defined' & Hi & Ht & Hd & Ho).
    apply check_instructions_cons in Hi as [[saw' Hi] _]. exists saw', (define i defined), defined'.
    split; [done|]. split; [done|]. split.
    + intros v [Hv|Hv]%define_elem; apply Hg; auto.
    + intros v Hv. specialize (Ho v Hv). rewrite elem_of_union, defined_by_cons in Ho.
      rewrite elem_of_union, define_elem. tauto.
  - intros p Hp. destruct (P7 p Hp) as (? & ? & ? & Hv). do 3 (split; [done|]). intros v Hv'.
    apply Hg. left. by apply Hv.
Qed.

Lemma point_jump block previous c frame current target next :
  at_point block previous [] c frame → find_block f block = Ok current →
  target ∈ block_successors (b_terminator current) → find_block f target = Ok next →
  at_point target (Some block) (b_instructions next) c frame.
Proof.
  intros [P1 P2 P3 P4 P5 P6 P7] Hb Ht Hn.
  destruct P6 as (saw & defined & defined' & Hi & Hterm & Hd & Ho).
  destruct (successor_unsigned _ _ _ Hb Ht) as [Hu He].
  assert (∀ v, v ∈ set_at (outgoing flow) (Z.to_nat block) → set_in frame v) as Hout.
  { intros v Hv. apply Hd. specialize (Ho v Hv). unfold defined_by in Ho. set_solver. }
  pose proof (analyse_sound f reach types flow entry_unsigned analysed) as (Hex & Hlt & Hset & _).
  assert (Z.to_nat target ∈ reach) as Hr.
  { apply Hex. apply rtc_r with (Z.to_nat block); [by apply Hex|done]. }
  apply arrive; try done.
  - intros v. rewrite (proj1 (Hset _ (Hlt _ Hr) Hr)). unfold next_in.
    case_bool_decide; [set_solver|]. rewrite elem_of_joined. intros [_ Hall]. apply Hout. by apply Hall.
  - intros p [= <-]. done.
Qed.

Lemma moves_successor frame t target : moves_to f frame t target → target ∈ block_successors t.
Proof.
  destruct t; simpl; try done.
  - intros ->. by left.
  - intros (v & b & _ & _ & ->). destruct b; [left|right; left].
Qed.

Lemma reached_point arguments c0 block previous l c frame :
  session_restored_symbols c0 = ∅ →
  reached (machine n) f arguments c0 block previous l c frame → at_point block previous l c frame.
Proof.
  intros Hr0. induction 1 as [c frame entry He Hb|block previous i rest c c1 c2 frame frame' _ IH Hc He _|
    block previous c frame current target next _ IH Hb Ht Hn].
  - pose proof (restored_empty _ _ (enter_keeps f arguments c0 c _ He I) Hr0) as Hr.
    pose proof (analyse_sound f reach types flow entry_unsigned analysed) as (Hex & Hlt & Hset & _).
    assert (Z.to_nat (fn_entry f) ∈ reach) as Hin by (apply Hex; constructor).
    apply arrive; try done; [apply entry_unsigned|].
    intros v. rewrite (proj1 (Hset _ (Hlt _ Hin) Hin)). unfold next_in, entry_index.
    rewrite bool_decide_eq_true_2 by done. set_solver.
  - by apply (point_next block previous i rest c c1 c2 frame frame').
  - apply (point_jump block previous c frame current target next IH Hb); [|done].
    by apply (moves_successor frame).
Qed.

Lemma check_incoming_spec k acc l actual : check_incoming f reach (outgoing flow) k acc l = Ok actual →
  actual = acc ∪ list_to_set (map (fun p : BlockId * ValueId => Z.to_nat p.1) l)
  ∧ ∀ q v, (q, v) ∈ l → v ∈ set_at (outgoing flow) (Z.to_nat q).
Proof using Type.
  clear checked analysed ids.
  revert acc. induction l as [|[q v] l IH]; intros acc; cbn [check_incoming].
  { intros [= <-]. split; [set_solver|]. intros q v Hq. by apply elem_of_nil in Hq. }
  intros ([] & Hq & Hl)%res_bind_Ok. apply refuse_if_Ok in Hq.
  apply orb_false_iff in Hq as [_ Hq]. apply negb_false_iff, bool_decide_eq_true in Hq.
  destruct (IH _ Hl) as [-> Hall]. split; [simpl; set_solver|].
  intros q' v' [[= -> ->]|Hin]%elem_of_cons; [done|by apply Hall].
Qed.

Lemma point_phi block p destination incoming ty span rest c frame :
  at_point block (Some p) (IPhi destination incoming ty span :: rest) c frame →
  ∃ frame', phi (Some p) destination incoming span frame = Ok frame'.
Proof using ids.
  clear checked analysed.
  intros [P1 P2 P3 P4 P5 P6 P7]. destruct (P7 p eq_refl) as (Hp & Hpr & He & Hset).
  destruct P6 as (saw & defined & defined' & Hi & _). apply check_instructions_cons in Hi as [_ Hphi].
  unfold validate_phi in Hphi. apply res_bind_Ok in Hphi as (actual & Hact & Hphi).
  apply res_bind_Ok in Hphi as ([] & Heq & _). apply refuse_if_Ok, negb_false_iff, bool_decide_eq_true in Heq.
  destruct (check_incoming_spec _ _ _ _ Hact) as [Hactual Hall].
  assert (∃ v, (p, v) ∈ incoming) as [v Hv].
  { assert (Z.to_nat p ∈ actual) as Hin.
    { rewrite Heq, elem_of_list_to_set, list_elem_of_filter, elem_of_predecessors. done. }
    rewrite Hactual, elem_of_union, elem_of_list_to_set, list_elem_of_In, in_map_iff in Hin.
    destruct Hin as [Hin|([q v] & Hq & Hin)]; [set_solver|]. apply list_elem_of_In in Hin.
    exists v. replace p with q; [done|]. cbn in Hq.
    destruct P5 as (current & done_ & Hb & Hl). pose proof ids as Hids. unfold unsigned_ids in Hids.
    apply andb_prop in Hids as [_ Hids]. rewrite forallb_forall in Hids.
    apply find_block_at in Hb. specialize (Hids current).
    rewrite <- list_elem_of_In in Hids. specialize (Hids (list_elem_of_lookup_2 _ _ _ Hb)).
    apply andb_prop in Hids as [_ Hids]. rewrite forallb_forall, Hl in Hids.
    specialize (Hids (IPhi destination incoming ty span)). rewrite in_app_iff in Hids.
    specialize (Hids (or_intror (or_introl eq_refl))). cbn in Hids.
    rewrite forallb_forall in Hids. specialize (Hids (q, v)). rewrite <- list_elem_of_In in Hids.
    apply Z.leb_le in Hids; [|done]. cbn in Hids. lia. }
  unfold phi. simpl. match goal with
  | |- context [List.find ?P incoming] => destruct (List.find P incoming) as [[q w]|] eqn:E
  end.
  - apply List.find_some in E as [Hin Hq]. apply list_elem_of_In in Hin. apply Z.eqb_eq in Hq. cbn in Hq. subst q.
    destruct (Hset w (Hall p w Hin)) as [x Hx]. exists (set frame destination x).
    simpl. unfold value. rewrite Hx. done.
  - apply list_elem_of_In in Hv. pose proof (List.find_none _ _ E _ Hv) as Hn. cbn in Hn.
    by rewrite Z.eqb_refl in Hn.
Qed.

Definition terminator_uses (t : Terminator) : list ValueId :=
  match t with
  | TJump _ => []
  | TBranch condition _ _ => [condition]
  | TReturn value => option_list value
  | TStop code => [code]
  end.

Lemma point_terminator block previous c frame : at_point block previous [] c frame →
  ∃ current, find_block f block = Ok current
    ∧ (∀ v, v ∈ terminator_uses (b_terminator current) → set_in frame v)
    ∧ ∀ target, target ∈ block_successors (b_terminator current) → ∃ next, find_block f target = Ok next.
Proof.
  intros [P1 P2 P3 P4 P5 P6 P7]. destruct P5 as (current & done_ & Hb & _). exists current.
  split; [done|]. split.
  - destruct P6 as (saw & defined & defined' & Hi & Ht & Hd & _). cbn [check_instructions] in Hi.
    injection Hi as <-. specialize (Ht current Hb). intros v Hv. apply Hd. revert Ht Hv.
    destruct (b_terminator current) as [target|condition a b|[returned|]|code]; cbn [check_terminator terminator_uses option_list];
      intros Ht Hv; try (by apply elem_of_nil in Hv); apply list_elem_of_singleton in Hv as ->;
      apply res_bind_Ok in Ht as ([] & Ht & _); apply refuse_if_Ok, negb_false_iff, bool_decide_eq_true in Ht; done.
  - intros target Ht. destruct (successor_unsigned _ _ _ Hb Ht) as [Hu He].
    pose proof (analyse_sound f reach types flow entry_unsigned analysed) as (Hex & _ & _).
    destruct (reached_block (Z.to_nat target)) as [next Hn].
    { apply Hex. apply rtc_r with (Z.to_nat block); [by apply Hex|done]. }
    exists next. by rewrite Z2Nat.id in Hn.
Qed.
End Validated.

(** ** The theorems *)

(** What the next step of a point needs is there. *)
Definition ready (f : Function) (block : BlockId) (previous : option BlockId)
    (l : list Instruction) (frame : Frame) : Prop :=
  match l with
  | IPhi destination incoming _ span :: _ =>
      (previous = None ∧ block = fn_entry f)
      ∨ ∃ frame', phi previous destination incoming span frame = Ok frame'
  | i :: _ => ∀ v, v ∈ instruction_uses i → set_in frame v ∨ instruction_defines i = Some v
  | [] =>
      ∃ current, find_block f block = Ok current
        ∧ (∀ v, v ∈ terminator_uses (b_terminator current) → set_in frame v)
        ∧ ∀ target, target ∈ block_successors (b_terminator current) →
            ∃ next, find_block f target = Ok next
  end.

Lemma at_point_ready `{World} f m reach types flow block previous l c frame :
  unsigned_ids f = true → analyse f = Ok (reach, types, flow) →
  at_point f m reach types flow block previous l c frame → ready f block previous l frame.
Proof.
  intros Hu Ha Hp. destruct l as [|i rest]; [by apply (point_terminator _ m reach types flow Hu Ha _ previous c)|].
  assert (∀ v, (∀ d inc ty sp, i ≠ IPhi d inc ty sp) → v ∈ instruction_uses i →
            set_in frame v ∨ instruction_defines i = Some v) as Hi.
  { intros v Hn Hv. destruct Hp as [_ _ _ _ _ (saw & defined & defined' & Hc & _ & Hd & _) _].
    apply check_instructions_cons in Hc as [_ Hc].
    destruct i; try (by destruct (Hn destination incoming ty span));
      (destruct (Hc v Hv) as [?|?]; [left; by apply Hd|by right]). }
  destruct i; try (intros v Hv; apply Hi; [discriminate|exact Hv]).
  destruct previous as [p|].
  - right. by eapply point_phi.
  - left. split; [done|]. by apply (point_entry _ _ _ _ _ _ _ _ _ _ Hp).
Qed.

Section Theorems.
Context `{World} `{!Seam} `{Allocator} `{Floats.Platform}.

Lemma validated_analysis m f : validate_function m f = Ok tt →
  ∃ reach types flow, analyse f = Ok (reach, types, flow)
    ∧ ∀ k, (k < length (fn_blocks f))%nat →
        check_block m f reach (outgoing flow) types (incoming flow) k = Ok tt.
Proof.
  unfold validate_function. intros ([[reach types] flow] & Ha & Hc)%res_bind_Ok.
  exists reach, types, flow. split; [done|]. intros k Hk. apply (proj1 (eachR_Ok _ _) Hc).
  apply elem_of_seq. lia.
Qed.

(** C3: Wherever a call of a validated function gets to, unless a session turn has
    bindings left to restore, what its next step needs is there: the operands of
    the instruction are set, a phi finds the edge control came by and a value on
    it, and at the end of a block the values the terminator reads are set and
    the blocks it names exist.  The cases the validator lets through are a phi
    of the entry block when the call begins there, an instruction that reads the
    value it defines itself ([validated_gaps]), and, in such a session turn, the
    store of a restored binding, which leaves its own value unset
    ([restored_store_gap]). *)
Theorem validated_ready n m f arguments c0 block previous l c frame :
  unsigned_ids f = true → validate_function m f = Ok tt → session_restored_symbols c0 = ∅ →
  reached (machine n) f arguments c0 block previous l c frame → ready f block previous l frame.
Proof.
  intros Hu Hv Hr Hp. destruct (validated_analysis m f Hv) as (reach & types & flow & Ha & Hc).
  apply (at_point_ready f m reach types flow block previous l c frame Hu Ha).
  by apply (reached_point n f m reach types flow Hu Ha Hc arguments c0).
Qed.

(** However a call of a validated function ends (with a result, a STOP or an
    error), it ends at a point it reached, where what the step needs is there;
    otherwise it ran out of fuel. *)
Theorem validated_run_ends n fuel m f arguments c0 c' r :
  unsigned_ids f = true → validate_function m f = Ok tt → session_restored_symbols c0 = ∅ →
  length arguments = length (fn_parameters f) →
  function (machine n) fuel f arguments c0 = (c', r) →
  r = Fuel ∨ ∃ block previous l c frame,
    reached (machine n) f arguments c0 block previous l c frame
    ∧ ready f block previous l frame
    ∧ ends_at (machine n) f block previous l c frame c' r.
Proof.
  intros Hu Hv Hr Hl Hrun. destruct (validated_analysis m f Hv) as (reach & types & flow & Ha & Hc).
  destruct (reached_block f reach types flow Hu Ha (entry_index f)) as [entry He].
  { pose proof (analyse_sound f reach types flow (entry_unsigned f Hu) Ha) as [Hex _]. apply Hex. constructor. }
  unfold entry_index in He. rewrite Z2Nat.id in He by by apply entry_unsigned.
  destruct (function_reaches (machine n) f fuel arguments c0 c' r entry Hl He Hrun)
    as [?|(block & previous & l & c & frame & Hp & Hend)]; [by left|right].
  exists block, previous, l, c, frame. split; [done|]. split; [|done].
  apply (at_point_ready f m reach types flow block previous l c frame Hu Ha).
  by apply (reached_point n f m reach types flow Hu Ha Hc arguments c0).
Qed.
End Theorems.

(** ** What the validator lets through *)

#[local] Abbreviation sp := default_span.

(** [%0 = Copy %0], and an entry block that starts with a phi of its own edge. *)
Definition self_copy : Function :=
  mkFunction "Start" Entry None false [] ∅ int32 0
    [mkBlock 0 [ICopy 0 0 int32 sp] (TReturn (Some 0))] sp.
Definition entry_phi : Function :=
  mkFunction "Start" Entry None false [] ∅ int32 0
    [mkBlock 0 [IPhi 0 [(0, 1)] int32 sp; IConstant 1 (CInteger "1") int32 sp;
                IConstant 2 (CBoolean true) TBoolean sp]
       (TBranch 2 0 1);
     mkBlock 1 [] (TReturn (Some 1))] sp.

(** [validate] accepts an instruction that reads its own destination and a phi
    in the entry block, and each ends the run with an error that validated IR
    is meant to rule out. *)
Theorem validated_gaps :
  validate (functions_module [self_copy]) = Ok tt
  ∧ validate (functions_module [entry_phi]) = Ok tt
  ∧ (sample_run (functions_module [self_copy]) 5).2
    = runtime_error INVALID_IR "value %0 is undefined" sp
  ∧ (sample_run (functions_module [entry_phi]) 5).2
    = runtime_error INVALID_IR "Phi cannot execute in the function entry block" sp.
Proof. vm_compute. auto. Qed.

(** ** Witnesses *)

#[local] Abbreviation W := (sample_world fact_module).
#[local] Abbreviation sample_machine n :=
  (machine (H := W) (H0 := sample_seam fact_module) (H1 := test_allocator) (H2 := test_platform) n).
#[local] Abbreviation fact_call :=
  (function (H := W) (H0 := sample_seam fact_module) (H1 := test_allocator) (H2 := test_platform)
     (sample_machine 30) 30 fact_function [VInteger 5 Int32] (sample_core fact_module)).
#[local] Abbreviation fact_reached :=
  (reached (H := W) (H0 := sample_seam fact_module) (H1 := test_allocator) (H2 := test_platform)
     (sample_machine 30) fact_function [VInteger 5 Int32] (sample_core fact_module)).

Lemma validated_run_ends_witness :
  fact_call.2 = Ok (FReturn (Some (VInteger 120 Int32)))
  ∧ ∃ block previous l c frame, fact_reached block previous l c frame
    ∧ ready fact_function block previous l frame
    ∧ ends_at (H := W) (H0 := sample_seam fact_module) (H1 := test_allocator) (H2 := test_platform)
        (sample_machine 30) fact_function block previous l c frame fact_call.1 fact_call.2.
Proof.
  assert (fact_call.2 = Ok (FReturn (Some (VInteger 120 Int32)))) as Hr by (vm_compute; reflexivity).
  split; [exact Hr|].
  destruct (validated_run_ends (H := W) (H0 := sample_seam fact_module) (H1 := test_allocator)
    (H2 := test_platform) 30 30 fact_module fact_function [VInteger 5 Int32] (sample_core fact_module)
    fact_call.1 fact_call.2) as [Hf|Hend]; [vm_compute; reflexivity..| | |].
  - destruct fact_call; reflexivity.
  - rewrite Hf in Hr. discriminate Hr.
  - exact Hend.
Defined.

(** A store that gives the value it replaced, which is then released. *)
Definition storing_function : Function :=
  mkFunction "Start" Entry None false [] ∅ int32 0
    [mkBlock 0 [IConstant 0 (CString "a") TString sp; IRetain 1 0 TString sp; IStore 0 1 (Some 2) TString sp;
                IRelease 2 None sp; IConstant 3 (CInteger "7") int32 sp] (TReturn (Some 3))] sp.

(** In a session turn that restores the binding the store is skipped and sets no
    value, though validated code may read it. *)
Theorem restored_store_gap :
  let run c := (function (H := W) (H0 := sample_seam fact_module) (H1 := test_allocator)
    (H2 := test_platform) (sample_machine 30) 30 storing_function [] c).2 in
  validate (functions_module [storing_function]) = Ok tt
  ∧ run (sample_core fact_module) = Ok (FReturn (Some (VInteger 7 Int32)))
  ∧ run (with_session_restored_symbols {[0]} (sample_core fact_module))
    = runtime_error INVALID_IR "value %2 is undefined" sp.
Proof. vm_compute. auto. Qed.

(** The call [Fact(5)] comes to the comparison of its entry block. *)
Lemma validated_ready_witness : ∃ c frame,
  fact_reached 0 None [IBinary 2 "LessEqual" 1 0 TBoolean sp] c frame
  ∧ ready fact_function 0 None [IBinary 2 "LessEqual" 1 0 TBoolean sp] frame.
Proof.
  assert (∃ c frame, fact_reached 0 None [IBinary 2 "LessEqual" 1 0 TBoolean sp] c frame)
    as (c & frame & Hp).
  { let r := eval vm_compute in (enter (H := W) fact_function [VInteger 5 Int32] (sample_core fact_module)) in
    match r with (?c0, Ok ?f0) =>
      pose proof (reached_entry (H := W) (H0 := sample_seam fact_module) (H1 := test_allocator)
        (H2 := test_platform) (sample_machine 30) fact_function [VInteger 5 Int32]
        (sample_core fact_module) c0 f0 (mkBlock 0 _ _) ltac:(vm_compute; reflexivity)
        ltac:(vm_compute; reflexivity)) as Hp
    end.
    do 2 eexists. eapply reached_next. 1: eapply reached_next. 1: exact Hp.
    1: (vm_compute; reflexivity). 1: (vm_compute; reflexivity). 1: (vm_compute; reflexivity).
    1: (vm_compute; reflexivity). 1: (vm_compute; reflexivity). vm_compute; reflexivity. }
  exists c, frame. split; [exact Hp|].
  apply (validated_ready (H := W) (H0 := sample_seam fact_module) (H1 := test_allocator)
    (H2 := test_platform) 30 fact_module fact_function [VInteger 5 Int32] (sample_core fact_module)
    0 None _ c); [vm_compute; reflexivity..|exact Hp].
Defined.
