(* ===== verification/Owning.v ===== *)
(** * Owning: what the ownership rule of the validator guarantees

    A reference definition of ownership along one path of a function, and the
    theorems that relate the breadth-first walk of
    [crates/bn_ir/src/validate/ownership.rs] to it: in an accepted function
    every path consumes each owned value once and returns owning nothing, no
    instruction but a phi reads a value after it was consumed, and the walk
    ends.  A phi can read a consumed value: a closed function shows it. *)

From S2P Require Import Prelude Text Diag Types ClassModel Ir Frames Compat Fields Balance Validate Sample Assign Reach.

#[local] Open Scope string_scope.
#[local] Open Scope Z_scope.

Section Paths.
Variables (m : Module_) (f : Function).

Definition counted_types : gmap ValueId BType := value_types (flat_map b_instructions (fn_blocks f)).
#[local] Abbreviation consumes i := (consumed_by m f counted_types i).

(** Each value of the list is owned, and is not afterwards. *)
Fixpoint take_all (held : gset ValueId) (vs : list ValueId) : option (gset ValueId) :=
  match vs with
  | [] => Some held
  | v :: vs => if decide (v ∈ held) then take_all (held ∖ {[v]}) vs else None
  end.

Definition defines_set (i : Instruction) : gset ValueId :=
  match instruction_defines i with Some v => {[v]} | None => ∅ end.
Definition produced (i : Instruction) : gset ValueId :=
  if produces_owned m counted_types i then defines_set i else ∅.

(** The owned values after one instruction, and the values consumed and not
    defined again since. *)
Definition own_step (s : OwnState) (i : Instruction) : option OwnState :=
  match take_all (owned s) (consumes i) with
  | Some held =>
      Some (mkOwnState (produced i ∪ held) ((consumed s ∪ list_to_set (consumes i)) ∖ defines_set i))
  | None => None
  end.

Fixpoint own_run (s : OwnState) (l : list Instruction) : option OwnState :=
  match l with
  | [] => Some s
  | i :: l => match own_step s i with Some s => own_run s l | None => None end
  end.

(** [trace l i]: the instructions [l] run, control arrives at block [i]. *)
Inductive trace : list Instruction → nat → Prop :=
| trace_entry i : index_of f (fn_entry f) = Some i → trace [] i
| trace_step l i b t j :
    trace l i → fn_blocks f !! i = Some b → t ∈ block_successors (b_terminator b) →
    index_of f t = Some j → trace (l ++ b_instructions b)%list j.

(** A path that returns gives its owned values away: the returned one to the
    caller, and no other is left. *)
Definition settles (s : OwnState) (t : Terminator) : Prop :=
  match t with
  | TReturn (Some v) => if counted_value m counted_types v then owned s = {[v]} else owned s = ∅
  | TReturn None => owned s = ∅
  | TStop _ | TJump _ | TBranch _ _ _ => True
  end.

(** ** One block *)

Lemma own_run_app s l1 l2 : own_run s (l1 ++ l2)%list =
  match own_run s l1 with Some s => own_run s l2 | None => None end.
Proof.
  revert s. induction l1 as [|i l1 IH]; intros s; [done|]. cbn. destruct (own_step s i); [apply IH|done].
Qed.

Lemma foldR_consume span vs s s' : foldR (consume span) s vs = Ok s' ↔
  take_all (owned s) vs = Some (owned s') ∧ consumed s' = list_to_set vs ∪ consumed s.
Proof.
  revert s. induction vs as [|v vs IH]; intros s; cbn [foldR take_all].
  { split; [intros [= <-]; split; [done|set_solver]|]. intros [[= E] Ec]. destruct s, s'. cbn in *. f_equal. f_equal; set_solver. }
  destruct (decide (v ∈ owned s)) as [Hv|Hv].
  - assert (consume span s v = Ok (mkOwnState (owned s ∖ {[v]}) ({[v]} ∪ consumed s))) as ->.
    { unfold consume. by rewrite bool_decide_eq_true_2 by done. }
    cbn [mbind res_bind]. rewrite IH. cbn. split; intros [H1 H2]; (split; [done|]); set_solver.
  - split; [|by intros [? _]]. intros (s1 & H1 & _)%res_bind_Ok. unfold consume in H1. inv_ok. destruct a.
    apply refuse_if_Ok, negb_false_iff, bool_decide_eq_true in Ha. done.
Qed.

Definition consumed_in (l : list Instruction) : gset ValueId := list_to_set (flat_map (fun i => consumes i) l).


Lemma check_instruction_Ok s i s' : check_instruction m f counted_types s i = Ok s' →
  (∀ v, v ∈ instruction_uses i → v ∉ consumed s)
  ∧ ∃ held, take_all (owned s) (consumes i) = Some held
    ∧ owned s' = produced i ∪ held ∧ consumed s' = list_to_set (consumes i) ∪ consumed s.
Proof.
  unfold check_instruction. intros ([] & _ & H)%res_bind_Ok.
  apply res_bind_Ok in H as ([] & Hu & H). apply res_bind_Ok in H as ([] & _ & H).
  apply res_bind_Ok in H as (a & Ha & [= <-]). split.
  - intros v Hv. rewrite eachR_Ok in Hu. specialize (Hu v Hv).
    by apply refuse_if_Ok, bool_decide_eq_false in Hu.
  - apply foldR_consume in Ha as [Ht Hc]. exists (owned a). split; [done|].
    unfold produced, defines_set. destruct (instruction_defines i) as [d|]; destruct (produces_owned _ _ i);
      cbn; (split; [set_solver|done]).
Qed.

(** The static check of a block follows the reference from the same owned values. *)
Lemma block_own l s s' t : foldR (check_instruction m f counted_types) s l = Ok s' → owned t = owned s →
  ∃ t', own_run t l = Some t' ∧ owned t' = owned s' ∧ consumed s' = consumed_in l ∪ consumed s
    ∧ ∀ v, v ∈ consumed t' → v ∈ consumed_in l ∨ (v ∈ consumed t ∧ v ∉ defined_by l).
Proof.
  revert s t. induction l as [|i l IH]; intros s t; cbn [foldR].
  { intros [= <-] Ho. exists t. split; [done|]. split; [done|]. unfold consumed_in, defined_by. cbn. set_solver. }
  intros (s1 & H1 & H2)%res_bind_Ok Ho. apply check_instruction_Ok in H1 as (_ & held & Ht & Ho1 & Hc1).
  set (t1 := mkOwnState (produced i ∪ held) ((consumed t ∪ list_to_set (consumes i)) ∖ defines_set i)).
  destruct (IH s1 t1 H2) as (t' & Hr & Ho' & Hc' & Hback); [by rewrite Ho1|].
  exists t'. split; [cbn [own_run]; unfold own_step; rewrite Ho, Ht; exact Hr|]. split; [done|].
  assert (consumed_in (i :: l) = list_to_set (consumes i) ∪ consumed_in l) as Ein.
  { unfold consumed_in. cbn. by rewrite list_to_set_app_L. }
  split; [rewrite Hc', Hc1, Ein; set_solver|].
  intros v Hv. destruct (Hback v Hv) as [Hin|[Hin Hnd]]; [left; set_solver|].
  cbn in Hin. rewrite Ein. unfold defines_set in Hin.
  assert (v ∈ consumed t ∨ v ∈ list_to_set (C := gset ValueId) (consumes i)) as [Hc|Hc]; [set_solver| |left; set_solver].
  right. split; [done|]. unfold defined_by in *. cbn. destruct (instruction_defines i); set_solver.
Qed.

(** ** The walk *)

(** A state the walk has for a block is that of some path to it, with more
    values marked as consumed. *)
Definition origin (s : OwnState) (j : nat) : Prop :=
  ∃ l t, trace l j ∧ own_run initial_state l = Some t ∧ owned t = owned s ∧ consumed t ⊆ consumed s.

Definition same_owned (x x' : OwnState) : Prop := owned x' = owned x ∧ consumed x ⊆ consumed x'.

Definition stays (w w' : Walk) : Prop :=
  (∀ i x, entry_state w !! i = Some x → ∃ x', entry_state w' !! i = Some x' ∧ same_owned x x')
  ∧ ∀ i, i ∈ pending w → i ∈ pending w'.

Definition enters (s : OwnState) (w : Walk) (t : BlockId) : Prop :=
  ∃ j x, index_of f t = Some j ∧ entry_state w !! j = Some x ∧ owned x = owned s.

(** Each state of [w'] was one of [w], or is [s] at a target of [ts]. *)
Definition added (s : OwnState) (ts : list BlockId) (w w' : Walk) : Prop :=
  ∀ j x', entry_state w' !! j = Some x' →
    (∃ x, entry_state w !! j = Some x ∧ same_owned x x')
    ∨ ((∃ t, t ∈ ts ∧ index_of f t = Some j) ∧ same_owned s x' ∧ j ∈ pending w').

Lemma same_owned_refl x : same_owned x x.
Proof. by split. Qed.

Lemma same_owned_trans x y z : same_owned x y → same_owned y z → same_owned x z.
Proof. intros [E1 C1] [E2 C2]. split; [by rewrite E2|]. set_solver. Qed.

Lemma stays_refl w : stays w w.
Proof. split; [|done]. intros i x Hx. exists x. split; [done|]. apply same_owned_refl. Qed.

Lemma stays_trans w1 w2 w3 : stays w1 w2 → stays w2 w3 → stays w1 w3.
Proof.
  intros [H1 P1] [H2 P2]. split; [|by auto]. intros i x Hx. destruct (H1 i x Hx) as (y & Hy & Exy).
  destruct (H2 i y Hy) as (z & Hz & Eyz). exists z. split; [done|]. by apply (same_owned_trans x y z).
Qed.

Lemma enters_stays s w w' t : enters s w t → stays w w' → enters s w' t.
Proof.
  intros (j & x & Hj & Hx & Ho) [Hs _]. destruct (Hs j x Hx) as (x' & Hx' & [E _]).
  exists j, x'. split; [done|]. split; [done|]. by rewrite E.
Qed.

Lemma merge_Ok s w t w' : merge f s w t = Ok w' → stays w w' ∧ enters s w' t ∧ added s [t] w w'.
Proof.
  unfold merge. destruct (index_of f t) as [j|] eqn:Hj; [|intros H; unfold invalid_ir in H; inv_ok].
  destruct (entry_state w !! j) as [x|] eqn:Hx.
  - intros ([] & Hc & [= <-])%res_bind_Ok. apply refuse_if_Ok, negb_false_iff, bool_decide_eq_true in Hc.
    set (x' := mkOwnState (owned x) (consumed s ∪ consumed x)).
    assert (same_owned x x') as Hxx' by (split; [done|]; cbn; set_solver).
    split; [|split].
    + split; [|done]. intros i y Hy. destruct (decide (i = j)) as [->|Hne].
      * exists x'. cbn. rewrite lookup_insert_eq. split; [done|]. congruence.
      * exists y. cbn. rewrite lookup_insert_ne by done. split; [done|]. apply same_owned_refl.
    + exists j, x'. cbn. rewrite lookup_insert_eq. auto.
    + intros i y. cbn. intros [[<- <-]|[Hne Hy]]%lookup_insert_Some; [left; by exists x|].
      left. exists y. split; [done|]. apply same_owned_refl.
  - intros [= <-]. split; [|split].
    + split; [|intros i Hi; cbn; apply elem_of_app; by left]. intros i y Hy. exists y. cbn.
      rewrite lookup_insert_ne by congruence. split; [done|]. apply same_owned_refl.
    + exists j, s. cbn. by rewrite lookup_insert_eq.
    + intros i y. cbn. intros [[<- <-]|[Hne Hy]]%lookup_insert_Some.
      * right. split; [exists t; split; [by left|done]|]. split; [apply same_owned_refl|].
        apply elem_of_app. right. by left.
      * left. exists y. split; [done|]. apply same_owned_refl.
Qed.

Lemma added_stays s t ts w1 w2 w3 : added s [t] w1 w2 → stays w2 w3 → added s ts w2 w3 →
  added s (t :: ts) w1 w3.
Proof.
  intros H1 [_ Hp] H2 j x' Hx'. destruct (H2 j x' Hx') as [(x & Hx & E)|((t' & Ht & Hj) & E & Hin)].
  - destruct (H1 j x Hx) as [(x0 & Hx0 & E0)|((t' & Ht & Hj) & E' & Hin)].
    + left. exists x0. split; [done|]. by apply (same_owned_trans x0 x x').
    + right. split; [|split; [by apply (same_owned_trans s x x')|by apply Hp]]. exists t'. split; [|done].
      apply list_elem_of_singleton in Ht as ->. by left.
  - right. split; [|by split]. exists t'. split; [by right|done].
Qed.

Lemma added_refl s ts w : added s ts w w.
Proof. intros j x Hx. left. exists x. split; [done|]. apply same_owned_refl. Qed.

Lemma only_left (X : gset ValueId) v : v ∈ X → X ∖ {[v]} = ∅ → X = {[v]}.
Proof.
  intros Hv Hd. apply set_eq. intros x. rewrite elem_of_singleton. split; [|by intros ->].
  intros Hx. destruct (decide (x = v)) as [|Hne]; [done|]. exfalso.
  apply (not_elem_of_empty (C := gset ValueId) x). rewrite <- Hd. apply elem_of_difference.
  split; [done|]. by rewrite elem_of_singleton.
Qed.

Lemma leave_Ok s w t w' : leave m f counted_types s w t = Ok w' →
  settles s t ∧ stays w w' ∧ (∀ target, target ∈ block_successors t → enters s w' target)
  ∧ added s (block_successors t) w w'.
Proof.
  destruct t; cbn [leave block_successors settles].
  - intros (Hs & He & Ha)%merge_Ok. split; [done|]. split; [done|]. split; [|done].
    intros t ->%list_elem_of_singleton. done.
  - intros (w1 & H1 & H2)%res_bind_Ok. apply merge_Ok in H1 as (Hs1 & He1 & Ha1).
    apply merge_Ok in H2 as (Hs2 & He2 & Ha2). split; [done|]. split; [by apply (stays_trans w w1 w')|].
    split; [|by apply (added_stays s _ _ w w1 w')].
    intros t [->| ->%list_elem_of_singleton]%elem_of_cons; [|done]. by apply (enters_stays s w1).
  - intros (o & Ho & H)%res_bind_Ok. apply res_bind_Ok in H as ([] & Hr & [= <-]).
    apply refuse_if_Ok, negb_false_iff, bool_decide_eq_true in Hr. subst o.
    split; [|split; [apply stays_refl|split; [intros t Ht; by apply elem_of_nil in Ht|apply added_refl]]].
    destruct value as [v|]; [|by injection Ho].
    destruct (counted_value m counted_types v); [|by injection Ho].
    apply res_bind_Ok in Ho as ([] & Hv & [= Ho]).
    apply refuse_if_Ok, negb_false_iff, bool_decide_eq_true in Hv. by apply only_left.
  - intros [= <-]. split; [done|]. split; [apply stays_refl|]. split; [|apply added_refl].
    intros t Ht. by apply elem_of_nil in Ht.
Qed.

(** A block the walk is done with. *)
Definition processed (w : Walk) (i : nat) : Prop :=
  ∃ b s s', fn_blocks f !! i = Some b ∧ origin s i
    ∧ (∃ x, entry_state w !! i = Some x ∧ owned x = owned s)
    ∧ foldR (check_instruction m f counted_types) s (b_instructions b) = Ok s'
    ∧ settles s' (b_terminator b) ∧ ∀ t, t ∈ block_successors (b_terminator b) → enters s' w t.

Record walked (done_ : gset nat) (w : Walk) : Prop := {
  walked_origin : ∀ j x, entry_state w !! j = Some x → origin x j;
  walked_done : ∀ i, i ∈ done_ → processed w i;
  walked_cover : ∀ j, is_Some (entry_state w !! j) → j ∈ done_ ∨ j ∈ pending w;
}.

Lemma processed_stays w w' i : processed w i → stays w w' → processed w' i.
Proof.
  intros (b & s & s' & Hb & Hor & (x & Hx & Ho) & Hc & Hset & Hen) Hst.
  exists b, s, s'. split; [done|]. split; [done|]. split.
  { destruct Hst as [Hst _]. destruct (Hst i x Hx) as (x' & Hx' & [E _]). exists x'. split; [done|]. congruence. }
  split; [done|]. split; [done|]. intros t Ht. apply (enters_stays s' w); auto.
Qed.

Lemma walk_walked fuel done_ w w' : walked done_ w → walk m f counted_types fuel done_ w = Ok w' →
  ∃ done', walked done' w' ∧ pending w' = [].
Proof.
  revert done_ w. induction fuel as [|fuel IH]; intros done_ w HW; cbn [walk].
  { destruct (pending w) eqn:Hp; [|done]. intros [= <-]. by exists done_. }
  destruct (pending w) as [|i rest] eqn:Hp; [intros [= <-]; by exists done_|].
  case_bool_decide as Hi.
  { apply IH. split; [apply (walked_origin _ _ HW)|apply (walked_done _ _ HW)|].
    intros j Hj. cbn. destruct (walked_cover _ _ HW j Hj) as [?|Hin]; [by left|].
    rewrite Hp in Hin. apply elem_of_cons in Hin as [->|?]; [by left|by right]. }
  intros (b & Hb & H)%res_bind_Ok. apply res_bind_Ok in H as (s & Hs & H).
  apply res_bind_Ok in H as (s' & Hc & H). apply res_bind_Ok in H as (w1 & Hl & H).
  destruct (fn_blocks f !! i) as [b'|] eqn:Hbi; [|done]. injection Hb as ->.
  cbn [entry_state] in Hs. destruct (entry_state w !! i) as [s0|] eqn:Hsi; [|done]. injection Hs as ->.
  apply leave_Ok in Hl as (Hset & Hst & Hen & Had).
  pose proof (walked_origin _ _ HW i s Hsi) as Hor.
  assert (stays (mkWalk (entry_state w) rest) w1) as Hst' by exact Hst.
  apply (IH ({[i]} ∪ done_) w1); [|done]. split.
  - intros j x Hx. destruct (Had j x Hx) as [(y & Hy & [E C])|((t & Ht & Hj) & [E C] & _)].
    + destruct (walked_origin _ _ HW j y Hy) as (l & u & Htr & Hr & Ho & Hcu).
      exists l, u. split; [done|]. split; [done|]. split; [congruence|]. set_solver.
    + destruct Hor as (l & u & Htr & Hr & Ho & Hcu).
      destruct (block_own _ s s' u Hc Ho) as (u' & Hr' & Ho' & Hcs & Hback).
      exists (l ++ b_instructions b)%list, u'. split; [by apply (trace_step l i b t j)|].
      split; [by rewrite own_run_app, Hr|]. split; [congruence|].
      intros v Hv. apply C. rewrite Hcs. destruct (Hback v Hv) as [?|[? _]]; set_solver.
  - intros j [->%elem_of_singleton|Hj]%elem_of_union.
    + exists b, s, s'. split; [done|]. split; [done|]. split; [|done].
      destruct Hst' as [Hst' _]. destruct (Hst' i s Hsi) as (x & Hx & [E _]). by exists x.
    + apply (processed_stays (mkWalk (entry_state w) rest)); [|done].
      apply (walked_done _ _ HW j Hj).
  - intros j [x Hx]. destruct (Had j x Hx) as [(y & Hy & _)|(_ & _ & Hin)]; [|by right].
    destruct (walked_cover _ _ HW j) as [?|Hin]; [by exists y|left; set_solver|].
    rewrite Hp in Hin. apply elem_of_cons in Hin as [->|Hin]; [left; set_solver|].
    right. by apply Hst'.
Qed.

(** Every block a path comes to has the path's owned values. *)
Lemma initial_walked entry : index_of f (fn_entry f) = Some entry →
  walked ∅ (mkWalk {[entry := initial_state]} [entry]).
Proof.
  intros He. split; cbn.
  - intros j x [<- <-]%lookup_singleton_Some. exists [], initial_state.
    split; [by apply trace_entry|]. done.
  - intros i Hi. by apply elem_of_empty in Hi.
  - intros j [x [<- <-]%lookup_singleton_Some]. right. by left.
Qed.

Lemma walk_stays fuel done_ w w' : walk m f counted_types fuel done_ w = Ok w' → ∀ i x, entry_state w !! i = Some x →
  ∃ x', entry_state w' !! i = Some x' ∧ same_owned x x'.
Proof.
  revert done_ w. induction fuel as [|fuel IH]; intros done_ w; cbn [walk];
    (destruct (pending w) as [|k rest]; [intros [= <-] i x Hx; exists x; split; [done|apply same_owned_refl]|]); [done|].
  case_bool_decide; [intros H1 i x Hx; by apply (IH _ _ H1)|].
  intros (b & _ & H1)%res_bind_Ok. apply res_bind_Ok in H1 as (s & _ & H1).
  apply res_bind_Ok in H1 as (s' & _ & H1). apply res_bind_Ok in H1 as (w1 & Hl & H1).
  apply leave_Ok in Hl as (_ & [Hst _] & _). intros i x Hx. destruct (Hst i x Hx) as (y & Hy & E).
  destruct (IH _ _ H1 i y Hy) as (z & Hz & E'). exists z. split; [done|]. by apply (same_owned_trans x y z).
Qed.

Lemma accepted_walk : validate_function_ownership m f = Ok tt → ∃ done_ w, walked done_ w ∧ pending w = []
  ∧ ∀ l i, trace l i → i ∈ done_ ∧ ∃ t x, own_run initial_state l = Some t
      ∧ entry_state w !! i = Some x ∧ owned x = owned t.
Proof.
  unfold validate_function_ownership. destruct (index_of f (fn_entry f)) as [entry|] eqn:He.
  2: { intros H. unfold invalid_ir in H. inv_ok. }
  intros (w & Hw & _)%res_bind_Ok. pose proof (walk_stays _ _ _ _ Hw) as Hst.
  destruct (walk_walked _ _ _ _ (initial_walked entry He) Hw) as (done_ & HW & Hp).
  exists done_, w. split; [done|]. split; [done|].
  assert (∀ j x, entry_state w !! j = Some x → j ∈ done_) as Hdone.
  { intros j x Hx. destruct (walked_cover _ _ HW j) as [?|Hin]; [by exists x|done|].
    rewrite Hp in Hin. by apply elem_of_nil in Hin. }
  intros l i. induction 1 as [i Hi|l i b t j Htr [Hid (u & x & Hr & Hx & Ho)] Hb Ht Hj].
  - rewrite He in Hi. injection Hi as <-. destruct (Hst entry initial_state) as (x & Hx & [E _]).
    { cbn. by rewrite lookup_singleton_eq. }
    split; [by apply (Hdone _ x)|]. by exists initial_state, x.
  - destruct (walked_done _ _ HW i Hid) as (b' & s & s' & Hb' & _ & (x' & Hx' & Ho') & Hc & _ & Hen).
    rewrite Hb in Hb'. injection Hb' as <-. rewrite Hx in Hx'. injection Hx' as <-.
    destruct (block_own _ s s' u Hc) as (u' & Hr' & Ho'' & _); [congruence|].
    destruct (Hen t Ht) as (j' & y & Hj' & Hy & Hoy). rewrite Hj in Hj'. injection Hj' as <-.
    split; [by apply (Hdone _ y)|]. exists u', y. rewrite own_run_app, Hr.
    split; [done|]. split; [done|]. congruence.
Qed.
End Paths.

(** C6: In a function the ownership rule accepts, along every path from the entry
    (loops included) each value an instruction consumes is owned at that
    moment, so each reference is given away at most once; and a path that
    returns owns nothing more than the value it returns, so each is given away. *)
Theorem owned_paths m f l i b :
  validate_function_ownership m f = Ok tt → trace f l i → fn_blocks f !! i = Some b →
  ∃ s, own_run m f initial_state (l ++ b_instructions b)%list = Some s ∧ settles m f s (b_terminator b).
Proof.
  intros Ha Htr Hb. destruct (accepted_walk m f Ha) as (done_ & w & HW & _ & Hall).
  destruct (Hall l i Htr) as (Hi & t & x & Hr & Hx & Ho).
  destruct (walked_done _ _ _ _ HW i Hi) as (b' & s & s' & Hb' & _ & (x' & Hx' & Ho') & Hc & Hset & _).
  rewrite Hb in Hb'. injection Hb' as <-. rewrite Hx in Hx'. injection Hx' as <-.
  destruct (block_own m f _ s s' t Hc) as (t' & Hr' & Ho'' & _); [congruence|].
  exists t'. rewrite own_run_app, Hr. split; [done|].
  clear -Hset Ho''. unfold settles in *. destruct (b_terminator b) as [| |[v|]|]; rewrite ?Ho''; done.
Qed.

(** ** The walk ends *)

Section Ends.
Variables (m : Module_) (f : Function).
#[local] Abbreviation types := (counted_types f).

(** The blocks the walk has no state for yet. *)
Definition unseen (w : Walk) : gset nat := set_seq 0 (length (fn_blocks f)) ∖ dom (entry_state w).
Definition remaining (w : Walk) : nat := (length (pending w) + size (unseen w))%nat.

Lemma index_of_bound t j : index_of f t = Some j → (j < length (fn_blocks f))%nat.
Proof.
  unfold index_of. destruct (list_find _ _) as [[k b]|] eqn:Hf; [|done]. intros [= <-].
  apply list_find_Some in Hf as (Hk & _ & _). by apply lookup_lt_Some in Hk.
Qed.

Lemma merge_remaining s w t w' : merge f s w t = Ok w' → (remaining w' <= remaining w)%nat.
Proof.
  unfold merge. destruct (index_of f t) as [j|] eqn:Hj; [|intros H; unfold invalid_ir in H; inv_ok].
  apply index_of_bound in Hj. unfold remaining, unseen.
  destruct (entry_state w !! j) as [x|] eqn:Hx.
  - intros (? & _ & [= <-])%res_bind_Ok. cbn. rewrite dom_insert_lookup_L by by exists x. done.
  - intros [= <-]. cbn. rewrite length_app, dom_insert_L. cbn.
    assert (size (set_seq (C := gset nat) 0 (length (fn_blocks f)) ∖ ({[j]} ∪ dom (entry_state w)))
      < size (set_seq (C := gset nat) 0 (length (fn_blocks f)) ∖ dom (entry_state w)))%nat; [|lia].
    apply subset_size. split.
    + set_solver.
    + intros Hsub. specialize (Hsub j). rewrite !elem_of_difference, elem_of_set_seq in Hsub.
      apply not_elem_of_dom in Hx. destruct Hsub as [_ Hn]; [split; [lia|done]|]. apply Hn. set_solver.
Qed.

Lemma leave_remaining s w t w' : leave m f types s w t = Ok w' → (remaining w' <= remaining w)%nat.
Proof.
  destruct t; cbn [leave].
  - apply merge_remaining.
  - intros (w1 & H1 & H2)%res_bind_Ok. apply merge_remaining in H1, H2. lia.
  - intros (o & _ & H)%res_bind_Ok. by apply res_bind_Ok in H as (? & _ & [= <-]).
  - by intros [= <-].
Qed.

Lemma foldR_ends {S A} (g : S → A → result S) l s : (∀ s x, g s x ≠ Fuel) → foldR g s l ≠ Fuel.
Proof.
  intros Hg. revert s. induction l as [|x l IH]; intros s; [done|]. cbn [foldR].
  apply res_bind_ends; [apply Hg|]. intros s' _. apply IH.
Qed.

Lemma eachR_ends {A} (g : A → result unit) l : (∀ x, g x ≠ Fuel) → eachR g l ≠ Fuel.
Proof.
  intros Hg. induction l as [|x l IH]; [done|]. cbn [eachR]. apply res_bind_ends; [apply Hg|]. by intros.
Qed.

Lemma check_instruction_ends s i : check_instruction m f types s i ≠ Fuel.
Proof.
  unfold check_instruction. apply res_bind_ends; [apply refuse_if_ends|]. intros _ _.
  apply res_bind_ends; [apply eachR_ends; intros; apply refuse_if_ends|]. intros _ _.
  apply res_bind_ends; [apply refuse_if_ends|]. intros _ _.
  apply res_bind_ends; [|done]. apply foldR_ends. intros s' v. unfold consume.
  apply res_bind_ends; [apply refuse_if_ends|done].
Qed.

Lemma merge_ends s w t : merge f s w t ≠ Fuel.
Proof.
  unfold merge. destruct (index_of f t); [|done]. destruct (entry_state w !! _); [|done].
  apply res_bind_ends; [apply refuse_if_ends|done].
Qed.

Lemma leave_ends s w t : leave m f types s w t ≠ Fuel.
Proof.
  destruct t; cbn [leave]; [apply merge_ends| | |done].
  - apply res_bind_ends; [apply merge_ends|]. intros. apply merge_ends.
  - apply res_bind_ends; [|intros; apply res_bind_ends; [apply refuse_if_ends|done]].
    destruct value; [|done]. destruct (counted_value _ _ _); [|done].
    apply res_bind_ends; [apply refuse_if_ends|done].
Qed.

Lemma walk_ends fuel done_ w : (remaining w <= fuel)%nat → walk m f types fuel done_ w ≠ Fuel.
Proof.
  revert done_ w. induction fuel as [|fuel IH]; intros done_ w Hr; cbn [walk]; unfold remaining in Hr.
  { destruct (pending w); [done|]. cbn in Hr. lia. }
  destruct (pending w) as [|i rest] eqn:Hp; [done|]. cbn [length] in Hr.
  assert (remaining (mkWalk (entry_state w) rest) <= fuel)%nat as Hr'.
  { unfold remaining, unseen in *. cbn. lia. }
  case_bool_decide; [by apply IH|].
  apply res_bind_ends; [unfold expect; by destruct (_ !! _)|]. intros b _.
  apply res_bind_ends; [unfold expect; by destruct (entry_state _ !! _)|]. intros s _.
  apply res_bind_ends; [apply foldR_ends, check_instruction_ends|]. intros s' _.
  apply res_bind_ends; [apply leave_ends|]. intros w1 Hl%leave_remaining. apply IH. lia.
Qed.

Lemma function_ownership_ends : validate_function_ownership m f ≠ Fuel.
Proof.
  unfold validate_function_ownership. destruct (index_of f (fn_entry f)) as [entry|] eqn:He; [|done].
  apply res_bind_ends; [|done]. apply walk_ends. unfold remaining, unseen. cbn.
  assert (size (set_seq (C := gset nat) 0 (length (fn_blocks f)) ∖ dom ({[entry := initial_state]} : gmap nat OwnState))
    <= length (fn_blocks f))%nat; [|lia].
  etrans; [apply subseteq_size, subseteq_difference_l; reflexivity|]. by rewrite size_set_seq.
Qed.
End Ends.

(** The ownership check of a module ends: the walk takes each block once. *)
Theorem validate_ownership_ends m : validate_ownership m ≠ Fuel.
Proof. apply eachR_ends. intros f. apply function_ownership_ends. Qed.

(** ** Nothing reads a consumed value *)

Section Consumed.
Variables (m : Module_) (f : Function).

Lemma take_all_spec held vs held' : take_all held vs = Some held' → held' = held ∖ list_to_set vs.
Proof.
  revert held. induction vs as [|v vs IH]; intros held; cbn [take_all]; [intros [= <-]; set_solver|].
  destruct (decide (v ∈ held)); [|done]. intros ->%IH. set_solver.
Qed.

Lemma own_step_disjoint s i s' : own_step m f s i = Some s' → owned s ## consumed s → owned s' ## consumed s'.
Proof.
  unfold own_step. destruct (take_all _ _) as [held|] eqn:Ht; [|done]. intros [= <-] Hd. cbn.
  apply take_all_spec in Ht as ->. unfold produced. destruct (produces_owned _ _ _); set_solver.
Qed.

Lemma own_run_disjoint s l s' : own_run m f s l = Some s' → owned s ## consumed s → owned s' ## consumed s'.
Proof.
  revert s. induction l as [|i l IH]; intros s; cbn [own_run]; [by intros [= <-]|].
  destruct (own_step m f s i) as [s1|] eqn:H1; [|done]. intros H2 Hd. apply (IH s1 H2).
  by apply (own_step_disjoint s i).
Qed.

Lemma own_step_tracked s i s' v : own_step m f s i = Some s' →
  v ∈ owned s' ∪ consumed s' → v ∈ owned s ∪ consumed s ∨ v ∈ produced m f i.
Proof.
  unfold own_step. destruct (take_all _ _) as [held|] eqn:Ht; [|done]. intros [= <-]. cbn.
  assert (list_to_set (C := gset ValueId) (consumed_by m f (counted_types f) i) ⊆ owned s) as Hsub.
  { revert Ht. generalize (consumed_by m f (counted_types f) i) (owned s). clear. intros vs.
    induction vs as [|u vs IH]; intros X; cbn [take_all]; [set_solver|].
    destruct (decide (u ∈ X)); [|done]. intros Ht%IH. set_solver. }
  apply take_all_spec in Ht as ->. set_solver.
Qed.

(** A tracked value was produced on the way. *)
Lemma own_run_produced l t v : own_run m f initial_state l = Some t → v ∈ owned t ∪ consumed t →
  ∃ i, i ∈ l ∧ v ∈ produced m f i.
Proof.
  assert (∀ s, own_run m f s l = Some t → v ∈ owned t ∪ consumed t →
    v ∈ owned s ∪ consumed s ∨ ∃ i, i ∈ l ∧ v ∈ produced m f i) as H.
  { induction l as [|i l IH]; intros s; cbn [own_run]; [intros [= <-]; by left|].
    destruct (own_step m f s i) as [s1|] eqn:H1; [|done]. intros H2 Hv.
    destruct (IH s1 H2 Hv) as [Hs|(j & Hj & Hp)]; [|right; exists j; split; [by right|done]].
    destruct (own_step_tracked s i s1 v H1 Hs) as [?|?]; [by left|right; exists i; split; [by left|done]]. }
  intros Hr Hv. destruct (H initial_state Hr Hv) as [Hs|?]; [|done]. cbn in Hs. set_solver.
Qed.

Lemma defined_cons i l v : v ∈ defined_by (i :: l) ↔ instruction_defines i = Some v ∨ v ∈ defined_by l.
Proof.
  unfold defined_by. simpl. destruct (instruction_defines i); [set_solver|]. split; [by right|by intros [?|?]].
Qed.

(** A value produced on the way is tracked, when its definitions produce it. *)
Lemma own_run_tracked l s t v : own_run m f s l = Some t →
  (∀ i, i ∈ l → instruction_defines i = Some v → v ∈ produced m f i) →
  v ∈ owned s ∪ consumed s ∨ v ∈ defined_by l → v ∈ owned t ∪ consumed t.
Proof.
  revert s. induction l as [|i l IH]; intros s; cbn [own_run].
  { intros [= <-] _ [?|H]; [done|]. unfold defined_by in H. cbn in H. set_solver. }
  destruct (own_step m f s i) as [s1|] eqn:H1; [|done]. intros H2 Hall Hv.
  apply (IH s1 H2); [intros j Hj; apply Hall; by right|].
  assert (instruction_defines i = Some v → v ∈ owned s1) as Hdef.
  { intros Hd. specialize (Hall i (list_elem_of_here _ _) Hd). unfold own_step in H1.
    destruct (take_all _ _); [|done]. injection H1 as <-. cbn. set_solver. }
  destruct (decide (instruction_defines i = Some v)) as [Hd|Hd]; [left; set_solver|].
  destruct Hv as [Hv|[Hv|Hv]%defined_cons]; [left|by destruct Hd|by right].
  unfold own_step in H1. destruct (take_all _ _) as [held|] eqn:Ht; [|done]. injection H1 as <-. cbn.
  apply take_all_spec in Ht as ->. assert (v ∉ defines_set i) as Hnd.
  { unfold defines_set. destruct (instruction_defines i) as [d|]; [|apply not_elem_of_empty].
    rewrite elem_of_singleton. congruence. }
  clear -Hv Hnd. destruct (decide (v ∈ list_to_set (C := gset ValueId) (consumed_by m f (counted_types f) i))); set_solver.
Qed.

(** ** Paths of blocks and of instructions *)

Lemma collected_fresh A T l A' T' i v : collect_values f A T l = Ok (A', T') → v ∈ A → i ∈ l →
  instruction_defines i ≠ Some v.
Proof.
  revert A T. induction l as [|x l IH]; intros A T; cbn [collect_values]; [intros _ _ Hi; by apply elem_of_nil in Hi|].
  destruct (instruction_defines x) as [d|] eqn:Hx.
  - intros ([] & Hd & H)%res_bind_Ok Hv [->|Hi]%elem_of_cons.
    + apply refuse_if_Ok, bool_decide_eq_false in Hd. congruence.
    + apply (IH _ _ H); [set_solver|done].
  - intros H Hv [->|Hi]%elem_of_cons; [congruence|]. by apply (IH _ _ H).
Qed.

Lemma collected_once A T l A' T' i j v : collect_values f A T l = Ok (A', T') →
  i ∈ l → j ∈ l → instruction_defines i = Some v → instruction_defines j = Some v → i = j.
Proof.
  revert A T. induction l as [|x l IH]; intros A T; cbn [collect_values]; [intros _ Hi; by apply elem_of_nil in Hi|].
  intros H Hi Hj Hdi Hdj. apply elem_of_cons in Hi, Hj.
  destruct (instruction_defines x) as [d|] eqn:Hx.
  - apply res_bind_Ok in H as ([] & _ & H).
    assert (d = v → ∀ k, k ∈ l → instruction_defines k ≠ Some v) as Hno.
    { intros -> k Hk. by apply (collected_fresh _ _ _ _ _ k v H); [set_solver|]. }
    destruct Hi as [->|Hi], Hj as [->|Hj]; [done| | |by apply (IH _ _ H)].
    + destruct (Hno ltac:(congruence) j Hj Hdj).
    + destruct (Hno ltac:(congruence) i Hi Hdi).
  - destruct Hi as [->|Hi], Hj as [->|Hj]; [done|congruence|congruence|by apply (IH _ _ H)].
Qed.

Context (Hids : unsigned_ids f = true) (reach : gset nat) (types : ValueTypes) (flow : Flow_).
Context (Ha : analyse f = Ok (reach, types, flow)).

Lemma index_of_position t j : 0 <= t → index_of f t = Some j → Z.to_nat t = j.
Proof using Ha.
  unfold index_of. destruct (list_find _ _) as [[k b]|] eqn:Hf; [|done]. intros Ht [= <-].
  apply list_find_Some in Hf as (Hk & Hid & _).
  pose proof (block_at_find f reach types flow Ha k b Hk) as Hb.
  unfold find_block in Hb. rewrite Nat2Z.id, Hk in Hb.
  destruct (Z.eqb_spec (b_id b) (Z.of_nat k)) as [E|]; [|done]. rewrite <- Hid, E. apply Nat2Z.id.
Qed.

Lemma trace_path l i : trace f l i → ∃ p, path f p i ∧ ∀ v, defined_on f p v ↔ v ∈ defined_by l.
Proof using Hids Ha.
  induction 1 as [i Hi|l i b t j Htr (p & Hp & Hv) Hb Ht Hj].
  - apply index_of_position in Hi; [|by apply entry_unsigned]. exists []. split; [rewrite <- Hi; apply path_entry|].
    intros v. unfold defined_on, defined_by. rewrite Exists_nil. cbn. set_solver.
  - assert (find_block f (Z.of_nat i) = Ok b) as Hfb by by apply (block_at_find f reach types flow).
    destruct (successor_unsigned f Hids _ _ t Hfb Ht) as [Hu He]. rewrite Nat2Z.id in He.
    apply index_of_position in Hj; [|done]. exists (p ++ [i])%list. split.
    + apply path_step; [done|]. by rewrite <- Hj.
    + intros v. rewrite defined_on_snoc, Hv. unfold generated, block_at. rewrite Hb.
      unfold defined_by. rewrite omap_app, list_to_set_app_L. set_solver.
Qed.

Lemma trace_instructions l i x : trace f l i → x ∈ l → x ∈ all_instructions f.
Proof.
  induction 1 as [|l i b t j Htr IH Hb Ht Hj]; [intros Hx; by apply elem_of_nil in Hx|].
  intros [Hx|Hx]%elem_of_app; [by apply IH|]. unfold all_instructions.
  apply list_elem_of_In, in_flat_map. exists b. split; [apply list_elem_of_In; by eapply list_elem_of_lookup_2|].
  by apply list_elem_of_In.
Qed.
End Consumed.

Lemma foldR_app {S A} (g : S → A → result S) l1 l2 s s2 : foldR g s (l1 ++ l2)%list = Ok s2 →
  ∃ s1, foldR g s l1 = Ok s1 ∧ foldR g s1 l2 = Ok s2.
Proof.
  revert s. induction l1 as [|x l1 IH]; intros s; cbn [foldR app]; [by exists s|].
  intros (s0 & H0 & H)%res_bind_Ok. destruct (IH s0 H) as (s1 & H1 & H2). exists s1. split; [|done].
  apply res_bind_Ok. by exists s0.
Qed.

Lemma produced_defines m f i v : v ∈ produced m f i → instruction_defines i = Some v.
Proof.
  unfold produced, defines_set. destruct (produces_owned _ _ i); [|intros H; by apply elem_of_empty in H].
  destruct (instruction_defines i); [by intros ->%elem_of_singleton|intros H; by apply elem_of_empty in H].
Qed.

Lemma analysed_once f R types s i j v : analyse f = Ok (R, types, s) →
  i ∈ all_instructions f → j ∈ all_instructions f →
  instruction_defines i = Some v → instruction_defines j = Some v → i = j.
Proof.
  unfold analyse. intros ([] & _ & H)%res_bind_Ok. destruct (reachable_blocks f); [|done].
  apply res_bind_Ok in H as ([V T] & HV & _). by apply (collected_once f _ _ _ _ _ i j v HV).
Qed.

(** A value an instruction reads comes from before its block, or from its block. *)
Lemma uses_defined m f R o types k x q v : (∀ d incoming ty span, x ≠ IPhi d incoming ty span) →
  v ∈ instruction_uses x → instruction_defines x ≠ Some v → ∀ p saw defined defined',
  Validate.check_instructions m f R o types k saw defined (p ++ x :: q)%list = Ok defined' →
  v ∈ defined ∨ v ∈ defined_by p.
Proof.
  intros Hphi Hu Hself. induction p as [|y p IH]; intros saw defined defined'; cbn [app].
  - intros Hc. destruct x; cbn [Validate.check_instructions] in Hc; try (by destruct (Hphi destination incoming ty span));
      apply res_bind_Ok in Hc as ([] & Hc & _); rewrite eachR_Ok in Hc; specialize (Hc v Hu);
      apply refuse_if_Ok, andb_false_iff in Hc as [Hc|Hc]; apply negb_false_iff, bool_decide_eq_true in Hc;
      first [by left | by destruct Hself].
  - intros Hc. assert (∃ saw', Validate.check_instructions m f R o types k saw' (define y defined) (p ++ x :: q)%list
      = Ok defined') as [saw' Hc'].
    { destruct y; cbn [Validate.check_instructions] in Hc; apply res_bind_Ok in Hc as ([] & _ & Hc);
        apply res_bind_Ok in Hc as ([] & _ & Hc); by eexists. }
    destruct (IH _ _ _ Hc') as [Hv|Hv]; [|right; apply defined_cons; by right].
    unfold define in Hv. rewrite defined_cons. destruct (instruction_defines y) as [d|]; [|by left].
    apply elem_of_union in Hv as [->%elem_of_singleton|?]; auto.
Qed.

(** In a function the validator accepts, along every path from the entry, no
    instruction but a phi reads a value that the path consumed and did not
    define again.  (An instruction that reads the value it defines itself is
    the validator's own gap.) *)
Theorem consumed_unread m f l i b p x q s v :
  unsigned_ids f = true → validate_function_ownership m f = Ok tt → validate_function m f = Ok tt →
  trace f l i → fn_blocks f !! i = Some b → b_instructions b = (p ++ x :: q)%list →
  own_run m f initial_state (l ++ p)%list = Some s →
  v ∈ instruction_uses x → (∀ d incoming ty span, x ≠ IPhi d incoming ty span) →
  instruction_defines x ≠ Some v → v ∉ consumed s.
Proof.
  intros Hids Hown Hval Htr Hb Hbi Hrun Huse Hphi Hself Hin.
  destruct (validated_analysis m f Hval) as (reach & types & flow & Ha & Hck).
  destruct (accepted_walk m f Hown) as (done_ & w & HW & _ & Hall).
  destruct (Hall l i Htr) as (Hi & t & xs & Hr & Hx & Ho).
  destruct (walked_done _ _ _ _ HW i Hi)
    as (b' & s0 & s' & Hb' & (lq & tq & Htq & Hrq & Hoq & Hcq) & (x' & Hx' & Ho') & Hc & _).
  rewrite Hb in Hb'. injection Hb' as <-. rewrite Hx in Hx'. injection Hx' as <-.
  rewrite Hbi in Hc. apply foldR_app in Hc as (s1 & Hp & Hc).
  cbn [foldR] in Hc. apply res_bind_Ok in Hc as (s2 & Hx2 & _).
  apply check_instruction_Ok in Hx2 as (Hunread & _). apply (Hunread v Huse). clear Hunread s2.
  destruct (block_own m f p s0 s1 t Hp) as (t' & Hr' & _ & Hc1 & Hback); [congruence|].
  rewrite own_run_app, Hr, Hr' in Hrun. injection Hrun as ->. rewrite Hc1.
  destruct (Hback v Hin) as [?|[Hct Hnd]]; [set_solver|]. clear Hback Hc1 Hr' Hin.
  apply elem_of_union. right. apply Hcq.
  assert (v ∈ owned tq ∪ consumed tq) as Htracked.
  { destruct (own_run_produced m f l t v Hr) as (y & Hy & Hpy); [set_solver|].
    assert (instruction_defines y = Some v) as Hdy.
    { by apply (produced_defines m f). }
    apply (own_run_tracked m f lq initial_state tq v Hrq).
    - intros z Hz Hdz. pose proof (analysed_once f reach types flow y z v Ha) as E.
      rewrite <- E; [done|by apply (trace_instructions f l i)|by apply (trace_instructions f lq i)|done|done].
    - right. destruct (trace_path f Hids reach types flow Ha lq i Htq) as (pq & Hpq & Hdq). apply Hdq.
      pose proof (analyse_sound f reach types flow (entry_unsigned f Hids) Ha) as (_ & _ & _ & Hsound).
      apply (Hsound pq i Hpq). specialize (Hck i (lookup_lt_Some _ _ _ Hb)). unfold check_block, block_at in Hck.
      rewrite Hb, Hbi in Hck. destruct (trace_path f Hids reach types flow Ha l i Htr) as (pl & Hpl & _).
      pose proof (analyse_sound f reach types flow (entry_unsigned f Hids) Ha) as (Hex & _).
      rewrite bool_decide_eq_true_2 in Hck by (by apply Hex, (path_reachable f pl)).
      apply res_bind_Ok in Hck as (defined' & Hck & _).
      by destruct (uses_defined _ _ _ _ _ _ _ _ _ Hphi Huse Hself _ _ _ _ Hck). }
  apply elem_of_union in Htracked as [Hot|?]; [|done]. exfalso.
  assert (owned t ## consumed t) as Hd by (apply (own_run_disjoint m f _ _ _ Hr); set_solver).
  apply (Hd v); [|done]. rewrite <- Ho, Ho', <- Hoq. done.
Qed.

(** ** What the walk misses, and witnesses *)

#[local] Abbreviation sp := default_span.

(** Two paths join in block 3; the second makes a string, releases it and hands
    it to the phi, in one block or in two. *)
Definition choice (tail : list Instruction) (target : BlockId) (hop : list Instruction) (from : BlockId) : Function :=
  mkFunction "Start" Entry None false [] ∅ (TNamed "VOID") 0
    [mkBlock 0 [IConstant 0 (CBoolean true) TBoolean sp] (TBranch 0 1 2);
     mkBlock 1 [IConstant 1 (CString "a") TString sp] (TJump 3);
     mkBlock 2 ([IConstant 2 (CString "b") TString sp; IBinary 3 "Plus" 2 2 TString sp] ++ tail)%list
       (TJump target);
     mkBlock 3 [IPhi 4 [(1, 1); (from, 3)] TString sp; IPrint [4] sp] (TReturn None);
     mkBlock 4 hop (TJump 3)] sp.
Definition early_release : Function := choice [IRelease 3 None sp] 3 [] 2.
Definition late_release : Function := choice [] 4 [IRelease 3 None sp] 4.

#[local] Abbreviation late_module := (functions_module [late_release]).

(** The instructions of the long way round. *)
Definition long_way : list Instruction :=
  [IConstant 0 (CBoolean true) TBoolean sp; IConstant 2 (CString "b") TString sp;
   IBinary 3 "Plus" 2 2 TString sp; IRelease 3 None sp].

Lemma long_way_trace : trace late_release long_way 3.
Proof.
  change long_way with (([] ++ [IConstant 0 (CBoolean true) TBoolean sp])
    ++ [IConstant 2 (CString "b") TString sp; IBinary 3 "Plus" 2 2 TString sp]
    ++ [IRelease 3 None sp])%list.
  rewrite app_assoc.
  apply (trace_step late_release _ 4 (mkBlock 4 [IRelease 3 None sp] (TJump 3)) 3); [|done|left|done].
  apply (trace_step late_release _ 2 (mkBlock 2 _ (TJump 4)) 4); [|done|left|done].
  apply (trace_step late_release _ 0 (mkBlock 0 _ (TBranch 0 1 2)) 2); [|done|right; left|done].
  by apply trace_entry.
Qed.

(** The walk takes a block once, with the values consumed on the paths that came
    to it before; its comment says that breadth first is every path.  A path
    that is longer comes too late: the module whose phi reads a released string
    is accepted, while the same module with the release one block earlier is
    refused. *)
Theorem phi_reads_consumed :
  validate late_module = Ok tt
  ∧ raises (validate (functions_module [early_release])) INVALID_IR sp
  ∧ ∃ s, own_run late_module late_release initial_state long_way = Some s ∧ 3 ∈ consumed s
    ∧ trace late_release long_way 3
    ∧ fn_blocks late_release !! 3%nat
      = Some (mkBlock 3 [IPhi 4 [(1, 1); (4, 3)] TString sp; IPrint [4] sp] (TReturn None)).
Proof.
  split; [by vm_compute|]. split; [vm_compute; by eexists|]. eexists.
  split; [vm_compute; reflexivity|]. split; [by vm_compute|]. split; [apply long_way_trace|done].
Qed.

Lemma owned_paths_witness :
  ∃ s, own_run late_module late_release initial_state
         (long_way ++ [IPhi 4 [(1, 1); (4, 3)] TString sp; IPrint [4] sp])%list = Some s
    ∧ settles late_module late_release s (TReturn None).
Proof.
  apply (owned_paths late_module late_release long_way 3 (mkBlock 3 _ (TReturn None)));
    [vm_compute; reflexivity|apply long_way_trace|reflexivity].
Defined.

Lemma consumed_unread_witness : ∃ s,
  own_run late_module late_release initial_state (long_way ++ [IPhi 4 [(1, 1); (4, 3)] TString sp])%list = Some s
  ∧ 3 ∈ consumed s ∧ 4 ∉ consumed s.
Proof.
  eexists. split; [vm_compute; reflexivity|]. split; [vm_compute; reflexivity|].
  apply (consumed_unread late_module late_release long_way 3
    (mkBlock 3 [IPhi 4 [(1, 1); (4, 3)] TString sp; IPrint [4] sp] (TReturn None))
    [IPhi 4 [(1, 1); (4, 3)] TString sp] (IPrint [4] sp) []);
    [vm_compute; reflexivity|vm_compute; reflexivity|vm_compute; reflexivity|apply long_way_trace|reflexivity
    |reflexivity|vm_compute; reflexivity|left|discriminate|discriminate].
Defined.
