(* ===== verification/Escape.v ===== *)
(** * Escape: which bindings let their content out ([crates/bn_ir/src/escape.rs])

    The analysis that finds the bindings whose text a value can carry to a
    place that outlives it.  The theorems show that its loop ends and that it
    computes exactly the smallest solution of its rules: the values that carry
    a binding's content, and the bindings carried to an instruction that keeps
    its operand or to a return. *)

From stdpp Require Import fin_maps fin_map_dom.
From S2P Require Import Prelude Text Diag Types ClassModel Ir Sample Compat.

#[local] Open Scope string_scope.
#[local] Open Scope nat_scope.

Definition carries_text (ty : BType) : bool :=
  match ty with
  | TString => true
  | TAlternative members => bool_decide (TString ∈ members)
  | _ => false
  end.

Definition all_instructions (f : Function) : list Instruction := concat (map b_instructions (fn_blocks f)).

(** The functions constants name; of two constants of one value, the last. *)
Definition callees (f : Function) : gmap ValueId string :=
  foldl (fun names i => match i with
                        | IConstant destination (CFunction name) _ _ => <[destination := name]> names
                        | _ => names
                        end) ∅ (all_instructions f).

(** A call of a function with a body may keep its argument. *)
Definition borrowing_call (m : Module_) (f : Function) (callee : ValueId) : bool :=
  match callees f !! callee with
  | Some name =>
      negb (existsb (fun g => String.eqb (fn_name g) name && negb (bool_decide (fn_blocks g = []))) (functions m))
  | None => false
  end.

(** The bindings each value carries, and those found to escape. *)
Record Flow := mkFlow { origin : gmap ValueId (gset SymbolId); escaping : gset SymbolId }.

Definition carried_by (o : gmap ValueId (gset SymbolId)) (v : ValueId) : gset SymbolId := default ∅ (o !! v).

(** [entry(destination).or_default().extend(symbols)] *)
Definition extend (d : ValueId) (s : gset SymbolId) (o : gmap ValueId (gset SymbolId)) : gmap ValueId (gset SymbolId) :=
  <[d := carried_by o d ∪ s]> o.

Definition seed (symbols : gset SymbolId) (f : Function) : gmap ValueId (gset SymbolId) :=
  foldl (fun o i => match i with
                    | ILoad destination symbol _ _ | ITake destination symbol _ _ =>
                        if bool_decide (symbol ∈ symbols) then extend destination {[symbol]} o else o
                    | _ => o
                    end) ∅ (all_instructions f).

(** [origin.values().map(HashSet::len).sum()] *)
Definition origin_size (o : gmap ValueId (gset SymbolId)) : nat := map_fold (fun _ s n => size s + n) 0 o.

Definition sources (o : gmap ValueId (gset SymbolId)) (i : Instruction) : gset SymbolId :=
  foldr (fun v s => carried_by o v ∪ s) ∅ (instruction_uses i).

Definition carried (i : Instruction) : option ValueId :=
  match i with
  | ICopy destination _ _ _ | IPhi destination _ _ _ | IRetain destination _ _ _ => Some destination
  | ICast destination _ ty _ => if carries_text ty then Some destination else None
  | _ => None
  end.

Definition borrows (m : Module_) (f : Function) (from : gset SymbolId) (i : Instruction) : bool :=
  match i with
  | IStore symbol _ _ _ _ => forallb (fun source => Z.eqb source symbol) (elements from)
  | IPrint _ _ | IBinary _ _ _ _ _ _ | IUnary _ _ _ _ _ | ICast _ _ _ _ | ILength _ _ _ | IIndex _ _ _ _ _
  | IRelease _ _ _ => true
  | ICall _ callee _ _ _ => borrowing_call m f callee
  | _ => false
  end.

Definition flow_instruction (m : Module_) (f : Function) (s : Flow) (i : Instruction) : Flow :=
  let from := sources (origin s) i in
  if bool_decide (from = ∅) then s
  else match carried i with
       | Some destination => mkFlow (extend destination from (origin s)) (escaping s)
       | None => if borrows m f from i then s else mkFlow (origin s) (escaping s ∪ from)
       end.

Definition flow_return (s : Flow) (b : BasicBlock) : Flow :=
  match b_terminator b with
  | TReturn (Some v) => mkFlow (origin s) (escaping s ∪ carried_by (origin s) v)
  | _ => s
  end.

Definition flow_pass (m : Module_) (f : Function) (s : Flow) : Flow :=
  foldl flow_return (foldl (flow_instruction m f) s (all_instructions f)) (fn_blocks f).

Definition known (s : Flow) : nat * nat := (origin_size (origin s), size (escaping s)).

Fixpoint escape_loop (fuel : nat) (m : Module_) (f : Function) (s : Flow) : option (gset SymbolId) :=
  match fuel with
  | O => None
  | S fuel =>
      let s' := flow_pass m f s in
      if bool_decide (known s' = known s) then Some (escaping s') else escape_loop fuel m f s'
  end.

Definition escaping_symbols (fuel : nat) (m : Module_) (f : Function) (symbols : gset SymbolId) : option (gset SymbolId) :=
  escape_loop fuel m f (mkFlow (seed symbols f) ∅).

(** ** The rules the analysis solves *)

Section Rules.
Variables (m : Module_) (f : Function) (symbols : gset SymbolId).
#[local] Abbreviation instructions := (all_instructions f).

(** The value [v] can be the content of the binding [s]. *)
Inductive carries : ValueId → SymbolId → Prop :=
| carries_load d s ty span : ILoad d s ty span ∈ instructions → s ∈ symbols → carries d s
| carries_take d s ty span : ITake d s ty span ∈ instructions → s ∈ symbols → carries d s
| carries_on i d v s : i ∈ instructions → carried i = Some d → v ∈ instruction_uses i → carries v s → carries d s.

(** The instruction keeps the operands it does not hand on. *)
Definition keeps (i : Instruction) : Prop :=
  match i with
  | IStore target _ _ _ _ => ∃ v s, v ∈ instruction_uses i ∧ carries v s ∧ s ≠ target
  | IPrint _ _ | IBinary _ _ _ _ _ _ | IUnary _ _ _ _ _ | ICast _ _ _ _ | ILength _ _ _ | IIndex _ _ _ _ _
  | IRelease _ _ _ => False
  | ICall _ callee _ _ _ => borrowing_call m f callee = false
  | _ => True
  end.

Inductive escapes (s : SymbolId) : Prop :=
| escapes_kept i v : i ∈ instructions → carried i = None → keeps i → v ∈ instruction_uses i → carries v s → escapes s
| escapes_returned b v : b ∈ fn_blocks f → b_terminator b = TReturn (Some v) → carries v s → escapes s.

Lemma forallb_false {A} (p : A → bool) l : forallb p l = false → ∃ x, x ∈ l ∧ p x = false.
Proof.
  induction l as [|x l IH]; cbn; [done|]. intros [H|H]%andb_false_iff; [exists x|destruct (IH H) as (y & Hy & Hp); exists y].
  - split; [by left|done].
  - split; [by right|done].
Qed.

(** ** Sizes *)

Lemma size_extend o d x : origin_size (<[d := x]> o) + size (carried_by o d) = origin_size o + size x.
Proof.
  assert (∀ o, o !! d = None → origin_size (<[d := x]> o) = size x + origin_size o) as Hnew.
  { intros o' Ho. unfold origin_size. rewrite map_fold_insert_L; [done|intros; lia|done]. }
  unfold carried_by. destruct (o !! d) as [y|] eqn:Hd; cbn [default].
  - rewrite <- (insert_delete_eq o), Hnew by apply lookup_delete_eq.
    assert (origin_size o = size y + origin_size (delete d o)) as ->; [|unfold id; lia].
    unfold origin_size. rewrite (map_fold_delete_L _ _ d y o); [done|intros; lia|done].
  - rewrite Hnew by done. unfold id. rewrite size_empty. lia.
Qed.

Lemma size_extend_le o d x : origin_size o ≤ origin_size (extend d x o).
Proof.
  unfold extend. pose proof (size_extend o d (carried_by o d ∪ x)) as H.
  assert (size (carried_by o d) ≤ size (carried_by o d ∪ x)) by (apply subseteq_size; set_solver). lia.
Qed.

Lemma size_extend_eq o d x : origin_size (extend d x o) ≤ origin_size o → x ⊆ carried_by o d.
Proof.
  unfold extend. pose proof (size_extend o d (carried_by o d ∪ x)) as H. intros Hle.
  assert (carried_by o d = carried_by o d ∪ x) as He; [|set_solver].
  apply set_subseteq_size_eq; [set_solver|lia].
Qed.

Lemma carried_by_insert o d x v : carried_by (<[d := x]> o) v = if decide (v = d) then x else carried_by o v.
Proof.
  unfold carried_by. case_decide as Hv; [subst; by rewrite lookup_insert_eq|by rewrite lookup_insert_ne].
Qed.

Lemma elem_of_sources o i s : s ∈ sources o i ↔ ∃ v, v ∈ instruction_uses i ∧ s ∈ carried_by o v.
Proof.
  unfold sources. induction (instruction_uses i) as [|v l IH]; cbn [foldr].
  - split; [by intros H%elem_of_empty|intros (v & H%elem_of_nil & _); done].
  - rewrite elem_of_union, IH. setoid_rewrite elem_of_cons. naive_solver.
Qed.

(** ** One pass *)

(** A state within the rules. *)
Definition sound (s : Flow) : Prop :=
  (∀ v x, x ∈ carried_by (origin s) v → carries v x) ∧ (∀ x, x ∈ escaping s → escapes x).

Definition flow_le (s s' : Flow) : Prop :=
  (∀ v, carried_by (origin s) v ⊆ carried_by (origin s') v) ∧ escaping s ⊆ escaping s' ∧
  origin_size (origin s) ≤ origin_size (origin s').

Lemma flow_le_refl s : flow_le s s.
Proof. by split_and!. Qed.
Lemma flow_le_trans a b c : flow_le a b → flow_le b c → flow_le a c.
Proof. intros (H1 & H2 & H3) (H4 & H5 & H6). split_and!; [|set_solver|lia]. intros v x Hx. by apply H4, H1. Qed.

Lemma flow_instruction_sound s i : i ∈ instructions → sound s → sound (flow_instruction m f s i).
Proof.
  intros Hi [Ho He]. unfold flow_instruction. case_bool_decide as Hs; [done|].
  assert (∀ x, x ∈ sources (origin s) i → ∃ v, v ∈ instruction_uses i ∧ carries v x) as Hsrc.
  { intros x (v & Hv & Hx)%elem_of_sources. eauto. }
  destruct (carried i) as [d|] eqn:Hc.
  - split; [|done]. cbn [origin]. intros v x. unfold extend. rewrite carried_by_insert.
    case_decide as Hd; [|apply Ho]. intros [H|H]%elem_of_union; [subst; by apply Ho|].
    destruct (Hsrc x H) as (u & Hu & Hx). subst. by eapply carries_on.
  - destruct (borrows _ _ _ _) eqn:Hb; [done|]. split; [done|]. cbn [escaping].
    intros x [H|H]%elem_of_union; [by apply He|]. destruct (Hsrc x H) as (u & Hu & Hx).
    apply (escapes_kept x i u); try done. destruct i; try done; cbn in Hb |- *; try done.
    apply forallb_false in Hb as (y & Hy%elem_of_elements & Hn). destruct (Hsrc y Hy) as (w & Hw & Hc').
    exists w, y. split; [done|]. split; [done|]. by apply Z.eqb_neq.
Qed.

Lemma flow_return_sound s b : b ∈ fn_blocks f → sound s → sound (flow_return s b).
Proof.
  intros Hb [Ho He]. unfold flow_return. destruct (b_terminator b) as [| |[v|]|] eqn:Ht; try done.
  split; [done|]. cbn [escaping]. intros x [H|H]%elem_of_union; [by apply He|].
  eapply escapes_returned; eauto.
Qed.

Lemma flow_instruction_le s i : flow_le s (flow_instruction m f s i).
Proof.
  unfold flow_instruction. case_bool_decide; [apply flow_le_refl|]. destruct (carried i) as [d|].
  - split_and!; cbn; [|done|apply size_extend_le]. intros v. unfold extend. rewrite carried_by_insert.
    case_decide; subst; set_solver.
  - destruct (borrows _ _ _ _); [apply flow_le_refl|]. split_and!; cbn; [done|set_solver|done].
Qed.

Lemma flow_return_le s b : flow_le s (flow_return s b).
Proof.
  unfold flow_return. destruct (b_terminator b) as [| |[v|]|]; try apply flow_le_refl.
  split_and!; cbn; [done|set_solver|done].
Qed.

(** The same bindings for every value, and the same escapes. *)
Definition same (s s' : Flow) : Prop :=
  (∀ v, carried_by (origin s) v = carried_by (origin s') v) ∧ escaping s = escaping s'.

Lemma same_trans a b c : same a b → same b c → same a c.
Proof. intros [H1 H2] [H3 H4]. split; [intros v; by rewrite H1|by rewrite H2]. Qed.

Lemma known_le s s' : flow_le s s' → origin_size (origin s) ≤ origin_size (origin s') ∧ size (escaping s) ≤ size (escaping s').
Proof. intros (_ & H & Hs). split; [done|]. by apply subseteq_size. Qed.

Lemma known_eq s s' : known s = known s' ↔
  origin_size (origin s) = origin_size (origin s') ∧ size (escaping s) = size (escaping s').
Proof. unfold known. split; [by intros [= ? ?]|by intros [-> ->]]. Qed.

Lemma escaping_same (a b : gset SymbolId) : a ⊆ b → size a = size b → a = b.
Proof. intros Hs Hz. apply set_subseteq_size_eq; [done|lia]. Qed.

Lemma flow_instruction_same s i : known s = known (flow_instruction m f s i) → same s (flow_instruction m f s i).
Proof.
  intros [Ho He]%known_eq. destruct (flow_instruction_le s i) as (_ & Hsub & _).
  split; [|by apply escaping_same]. intros v. revert Ho. unfold flow_instruction.
  case_bool_decide; [done|]. destruct (carried i) as [d|]; [|by destruct (borrows _ _ _ _)]. cbn [origin].
  intros Ho. assert (sources (origin s) i ⊆ carried_by (origin s) d) as Hd by (apply size_extend_eq; lia).
  unfold extend. rewrite carried_by_insert. case_decide; [subst; set_solver|done].
Qed.

Lemma flow_return_same s b : known s = known (flow_return s b) → same s (flow_return s b).
Proof.
  intros [Ho He]%known_eq. destruct (flow_return_le s b) as (_ & Hsub & _).
  split; [|by apply escaping_same]. intros v. unfold flow_return. by destruct (b_terminator b) as [| |[?|]|].
Qed.

Section Fold.
Context {A : Type} (step : Flow → A → Flow).
Hypothesis step_le : ∀ s a, flow_le s (step s a).
Hypothesis step_same : ∀ s a, known s = known (step s a) → same s (step s a).

Lemma foldl_le l s : flow_le s (foldl step s l).
Proof.
  revert s. induction l as [|a l IH]; intros s; [apply flow_le_refl|].
  eapply flow_le_trans; [apply step_le|apply IH].
Qed.

(** A fold that keeps the sizes changes nothing at any of its steps. *)
Lemma foldl_same l s : known s = known (foldl step s l) →
  same s (foldl step s l) ∧ ∀ a, a ∈ l → ∃ t, same s t ∧ same t (step t a).
Proof.
  revert s. induction l as [|b l IH]; intros s Hk; cbn [foldl] in *.
  - split; [done|]. by intros a H%elem_of_nil.
  - assert (known s = known (step s b) ∧ known (step s b) = known (foldl step (step s b) l)) as [H1 H2].
    { pose proof (known_le _ _ (step_le s b)). pose proof (known_le _ _ (foldl_le l (step s b))).
      apply known_eq in Hk. split; apply known_eq; lia. }
    apply step_same in H1. destruct (IH _ H2) as [Hf Ha]. split; [by eapply same_trans|].
    intros a [->|Hin]%elem_of_cons; [by exists s|]. destruct (Ha a Hin) as (t & Ht & Hst).
    exists t. split; [by eapply same_trans|done].
Qed.
End Fold.

(** ** The fixed point *)

(** What a pass that changes nothing says of its state. *)
Record closed (s : Flow) : Prop := mkClosed {
  closed_carried i d : i ∈ instructions → carried i = Some d → sources (origin s) i ⊆ carried_by (origin s) d;
  closed_kept i : i ∈ instructions → carried i = None → borrows m f (sources (origin s) i) i = false →
    sources (origin s) i ⊆ escaping s;
  closed_returned b v : b ∈ fn_blocks f → b_terminator b = TReturn (Some v) → carried_by (origin s) v ⊆ escaping s;
}.

Lemma sources_same s t i : same s t → sources (origin s) i = sources (origin t) i.
Proof. intros [H _]. unfold sources. induction (instruction_uses i) as [|v l IH]; [done|]. cbn. by rewrite IH, H. Qed.

Lemma flow_pass_le s : flow_le s (flow_pass m f s).
Proof.
  unfold flow_pass. eapply flow_le_trans; [apply (foldl_le _ flow_instruction_le)|apply (foldl_le _ flow_return_le)].
Qed.

Lemma pass_closed s : known s = known (flow_pass m f s) → same s (flow_pass m f s) ∧ closed s.
Proof.
  unfold flow_pass. set (u := foldl _ s _). intros Hk.
  assert (known s = known u ∧ known u = known (foldl flow_return u (fn_blocks f))) as [H1 H2].
  { pose proof (known_le _ _ (foldl_le _ flow_instruction_le instructions s)) as Ha.
    pose proof (known_le _ _ (foldl_le _ flow_return_le (fn_blocks f) u)) as Hb. fold u in Ha.
    apply known_eq in Hk. split; apply known_eq; lia. }
  apply (foldl_same _ flow_instruction_le flow_instruction_same) in H1 as [Hu Hi].
  apply (foldl_same _ flow_return_le flow_return_same) in H2 as [Hr Hb].
  split; [by eapply same_trans|]. split.
  - intros i d Hin Hc. destruct (Hi i Hin) as (t & Hst & Hstep). rewrite (sources_same _ _ i Hst), (proj1 Hst).
    revert Hstep. unfold flow_instruction. case_bool_decide as Hs; [rewrite Hs; intros _; apply empty_subseteq|].
    rewrite Hc. intros [H _]. specialize (H d). cbn [origin] in H. unfold extend in H. rewrite carried_by_insert in H.
    rewrite decide_True in H by done. set_solver.
  - intros i Hin Hc Hbor. destruct (Hi i Hin) as (t & Hst & Hstep). rewrite (sources_same _ _ i Hst) in *.
    rewrite (proj2 Hst). revert Hstep. unfold flow_instruction.
    case_bool_decide as Hs; [rewrite Hs; intros _; apply empty_subseteq|].
    rewrite Hc, Hbor. intros [_ H]. cbn [escaping] in H. set_solver.
  - intros b v Hin Ht. destruct (Hb b Hin) as (t & Hst & Hstep). pose proof (same_trans _ _ _ Hu Hst) as [Ho He].
    rewrite Ho, He. revert Hstep. unfold flow_return. rewrite Ht. intros [_ H]. cbn [escaping] in H. set_solver.
Qed.

(** ** The seed *)

Lemma seed_fold l o v x :
  x ∈ carried_by (foldl (fun o i => match i with
     | ILoad destination symbol _ _ | ITake destination symbol _ _ =>
         if bool_decide (symbol ∈ symbols) then extend destination {[symbol]} o else o
     | _ => o
     end) o l) v ↔
  x ∈ carried_by o v ∨ x ∈ symbols ∧ ∃ ty span, ILoad v x ty span ∈ l ∨ ITake v x ty span ∈ l.
Proof.
  revert o. induction l as [|i l IH]; intros o; cbn [foldl].
  - split; [by left|]. intros [H|(_ & ty & sp & [H%elem_of_nil|H%elem_of_nil])]; done.
  - rewrite IH. setoid_rewrite elem_of_cons.
    assert (∀ d s ty sp, (i = ILoad d s ty sp ∨ i = ITake d s ty sp) →
      x ∈ carried_by (if bool_decide (s ∈ symbols) then extend d {[s]} o else o) v ↔
      x ∈ carried_by o v ∨ x ∈ symbols ∧ v = d ∧ x = s) as Hone.
    { intros d s ty sp _. case_bool_decide as Hs; [|set_solver].
      unfold extend. rewrite carried_by_insert. case_decide as Hd; [subst; rewrite elem_of_union, elem_of_singleton|];
        naive_solver. }
    assert ((∀ d s ty sp, i ≠ ILoad d s ty sp ∧ i ≠ ITake d s ty sp) →
      (∃ ty sp, ILoad v x ty sp ∈ l ∨ ITake v x ty sp ∈ l) ↔
      ∃ ty sp, (ILoad v x ty sp = i ∨ ILoad v x ty sp ∈ l) ∨ ITake v x ty sp = i ∨ ITake v x ty sp ∈ l) as Hother.
    { intros Hi. split; intros (ty & sp & H); exists ty, sp; destruct (Hi v x ty sp); intuition congruence. }
    destruct i; try (rewrite Hother by done; done); clear Hother;
      rewrite (Hone destination symbol ty span) by auto; clear Hone; split.
    all: try (intros [[?|(? & -> & ->)]|(? & t & sp & [?|?])]; [by left|right; split; [done|]; exists ty, span; auto|right; split; [done|]; exists t, sp; auto..]).
    all: intros [?|(? & t & sp & [[[= -> -> -> ->]|?]|[[= -> -> -> ->]|?]])]; eauto 8.
Qed.

Lemma elem_of_seed v x : x ∈ carried_by (seed symbols f) v ↔
  x ∈ symbols ∧ ∃ ty span, ILoad v x ty span ∈ instructions ∨ ITake v x ty span ∈ instructions.
Proof.
  unfold seed. rewrite seed_fold. unfold carried_by at 1. rewrite lookup_empty. cbn [default]. set_solver.
Qed.

Lemma seed_sound : sound (mkFlow (seed symbols f) ∅).
Proof.
  split; [|intros x Hx; by apply elem_of_empty in Hx]. intros v x (Hx & ty & sp & [H|H])%elem_of_seed.
  - by eapply carries_load.
  - by eapply carries_take.
Qed.

Lemma foldl_sound {A} (step : Flow → A → Flow) l s :
  (∀ s a, a ∈ l → sound s → sound (step s a)) → sound s → sound (foldl step s l).
Proof.
  revert s. induction l as [|a l IH]; intros s Hstep Hs; [done|]. cbn. apply IH.
  - intros t b Hb. apply Hstep. by right.
  - apply Hstep; [by left|done].
Qed.

Lemma flow_pass_sound s : sound s → sound (flow_pass m f s).
Proof.
  intros Hs. unfold flow_pass. apply foldl_sound.
  - intros t b. apply flow_return_sound.
  - apply foldl_sound; [|done]. intros t i. apply flow_instruction_sound.
Qed.

(** A closed state above the seed holds all the rules give. *)
Lemma closed_complete s : closed s → (∀ v, carried_by (seed symbols f) v ⊆ carried_by (origin s) v) →
  (∀ v x, carries v x → x ∈ carried_by (origin s) v) ∧ ∀ x, escapes x → x ∈ escaping s.
Proof.
  intros [Hc Hk Hr] Hseed.
  assert (∀ v x, carries v x → x ∈ carried_by (origin s) v) as Hcar.
  { induction 1 as [d x ty sp Hi Hx|d x ty sp Hi Hx|i d v x Hi Hd Hv _ IH].
    - apply Hseed, elem_of_seed. eauto.
    - apply Hseed, elem_of_seed. eauto.
    - apply (Hc i d Hi Hd), elem_of_sources. eauto. }
  split; [done|]. intros x [i v Hi Hd Hkeep Hv Hx|b v Hb Ht Hx].
  - apply (Hk i Hi Hd); [|apply elem_of_sources; eauto].
    destruct i; cbn [keeps borrows] in Hkeep |- *; try done. destruct Hkeep as (w & y & Hw & Hy & Hne).
    apply not_true_iff_false. rewrite forallb_forall. intros Hall. apply Hne, Z.eqb_eq, Hall.
    apply list_elem_of_In, elem_of_elements, elem_of_sources. exists w. split; [done|by apply Hcar].
  - by apply (Hr b v Hb Ht), Hcar.
Qed.

Lemma escape_loop_exact fuel s E : sound s → (∀ v, carried_by (seed symbols f) v ⊆ carried_by (origin s) v) →
  escape_loop fuel m f s = Some E → ∀ x, x ∈ E ↔ escapes x.
Proof.
  revert s. induction fuel as [|fuel IH]; intros s Hs Hseed; [done|]. cbn [escape_loop].
  case_bool_decide as Hk.
  - intros [= <-] x. destruct (pass_closed s) as [[_ Hsame] Hcl]; [done|]. rewrite <- Hsame. split; [apply Hs|].
    by apply closed_complete.
  - apply IH; [by apply flow_pass_sound|]. intros v. etransitivity; [apply Hseed|]. apply flow_pass_le.
Qed.

(** The symbols found to escape are those the rules let out: carried by loads,
    moves, copies, phis, retains and casts to text up to an instruction that
    keeps its operand or to a return. *)
Theorem escaping_exact fuel E : escaping_symbols fuel m f symbols = Some E → ∀ x, x ∈ E ↔ escapes x.
Proof. apply escape_loop_exact; [apply seed_sound|done]. Qed.

(** ** The loop ends *)

Definition destinations : gset ValueId := list_to_set (omap instruction_defines instructions).

Record within (s : Flow) : Prop := mkWithin {
  within_dom : dom (origin s) ⊆ destinations;
  within_symbols v x : origin s !! v = Some x → x ⊆ symbols;
  within_escaping : escaping s ⊆ symbols;
}.

Lemma omap_length {A B} (g : A → option B) l : length (omap g l) ≤ length l.
Proof. induction l as [|x l IH]; cbn; [lia|]. destruct (g x); cbn; lia. Qed.

Lemma list_to_set_size (l : list ValueId) : size (list_to_set l : gset ValueId) ≤ length l.
Proof.
  induction l as [|x l IH]; cbn; [by rewrite size_empty|]. rewrite size_union_alt, size_singleton.
  assert (size ((list_to_set l : gset ValueId) ∖ {[x]}) ≤ size (list_to_set l : gset ValueId))
    by (apply subseteq_size; set_solver). lia.
Qed.

Lemma origin_bound (o : gmap ValueId (gset SymbolId)) : (∀ v x, o !! v = Some x → x ⊆ symbols) →
  origin_size o ≤ size o * size symbols.
Proof.
  induction o as [|v x o Hv IH] using map_ind; intros Ho.
  - unfold origin_size. rewrite map_fold_empty. lia.
  - pose proof (size_extend o v x) as Hs. unfold carried_by in Hs. rewrite Hv in Hs. cbn [default] in Hs.
    unfold id in Hs. rewrite size_empty in Hs. rewrite map_size_insert_None by done.
    assert (size x ≤ size symbols).
    { apply subseteq_size, (Ho v). apply lookup_insert_eq. }
    assert (origin_size o ≤ size o * size symbols).
    { apply IH. intros w y Hw. apply (Ho w). rewrite lookup_insert_ne; [done|]. intros ->. by rewrite Hw in Hv. }
    lia.
Qed.

Definition potential (s : Flow) : nat := origin_size (origin s) + size (escaping s).
Definition potential_bound : nat := length instructions * size symbols + size symbols.

Lemma within_bound s : within s → potential s ≤ potential_bound.
Proof.
  intros [Hd Hs He]. unfold potential, potential_bound. apply origin_bound in Hs.
  assert (size (origin s) ≤ length instructions).
  { rewrite <- size_dom. apply subseteq_size in Hd. etransitivity; [exact Hd|].
    etransitivity; [apply list_to_set_size|apply omap_length]. }
  apply subseteq_size in He. nia.
Qed.

Lemma within_carried s v : within s → carried_by (origin s) v ⊆ symbols.
Proof.
  intros [_ Hs _]. unfold carried_by. destruct (origin s !! v) eqn:Hv; [by eapply Hs|]. apply empty_subseteq.
Qed.

Lemma extend_within o d x : dom o ⊆ destinations → (∀ v x, o !! v = Some x → x ⊆ symbols) → d ∈ destinations →
  x ⊆ symbols → dom (extend d x o) ⊆ destinations ∧ ∀ v y, extend d x o !! v = Some y → y ⊆ symbols.
Proof.
  intros Hd Hs Hin Hx. unfold extend. rewrite dom_insert. split; [set_solver|]. intros v y.
  rewrite lookup_insert_Some. intros [[<- <-]|[_ H]]; [|by eapply Hs]. apply union_least; [|done].
  unfold carried_by. destruct (o !! d) eqn:Ho; [by eapply Hs|apply empty_subseteq].
Qed.

Lemma defined_destination i d : i ∈ instructions → instruction_defines i = Some d → d ∈ destinations.
Proof. intros Hi Hd. apply elem_of_list_to_set, list_elem_of_omap. eauto. Qed.

Lemma carried_defined i d : carried i = Some d → instruction_defines i = Some d.
Proof. destruct i; cbn; try done. by destruct (carries_text ty). Qed.

Lemma seed_within : within (mkFlow (seed symbols f) ∅).
Proof.
  unfold seed. cut (∀ l o, (∀ i, i ∈ l → i ∈ instructions) → dom o ⊆ destinations →
    (∀ v x, o !! v = Some x → x ⊆ symbols) → within (mkFlow (foldl (fun o i => match i with
       | ILoad destination symbol _ _ | ITake destination symbol _ _ =>
           if bool_decide (symbol ∈ symbols) then extend destination {[symbol]} o else o
       | _ => o
       end) o l) ∅)).
  { intros H. apply H; [done|set_solver|]. intros v x. by rewrite lookup_empty. }
  induction l as [|i l IH]; intros o Hl Hd Hs; cbn [foldl]; [split; cbn; [done|done|set_solver]|].
  assert (∀ d s, instruction_defines i = Some d → s ∈ symbols →
    dom (extend d {[s]} o) ⊆ destinations ∧ ∀ v y, extend d {[s]} o !! v = Some y → y ⊆ symbols) as He.
  { intros d s Hi Hin. apply extend_within; [done|done| |set_solver]. eapply defined_destination; [|done]. apply Hl. by left. }
  assert (∀ j, j ∈ l → j ∈ instructions) as Hl' by (intros j Hj; apply Hl; by right).
  destruct i; try by apply IH.
  - case_bool_decide as Hin; [|by apply IH]. destruct (He destination symbol) as [H1 H2]; [done..|]. by apply IH.
  - case_bool_decide as Hin; [|by apply IH]. destruct (He destination symbol) as [H1 H2]; [done..|]. by apply IH.
Qed.

Lemma sources_within s i : within s → sources (origin s) i ⊆ symbols.
Proof.
  intros Hw x (v & _ & Hx)%elem_of_sources. by eapply within_carried.
Qed.

Lemma flow_pass_within s : within s → within (flow_pass m f s).
Proof.
  intros Hw. unfold flow_pass.
  assert (∀ l t, (∀ i, i ∈ l → i ∈ instructions) → within t → within (foldl (flow_instruction m f) t l)) as H1.
  { induction l as [|i l IH]; intros t Hl Ht; [done|]. cbn [foldl]. apply IH; [intros j Hj; apply Hl; by right|].
    pose proof (sources_within t i Ht) as Hsrc. unfold flow_instruction. case_bool_decide; [done|].
    destruct (carried i) as [d|] eqn:Hc.
    - destruct Ht as [Hd Hs He]. destruct (extend_within (origin t) d (sources (origin t) i)) as [Ha Hb]; [done..| |done|].
      + eapply defined_destination; [apply Hl; by left|by apply carried_defined].
      + by split.
    - destruct (borrows _ _ _ _); [done|]. destruct Ht as [Hd Hs He]. split; cbn; [done|done|set_solver]. }
  assert (∀ l t, within t → within (foldl flow_return t l)) as H2.
  { induction l as [|b l IH]; intros t Ht; [done|]. cbn [foldl]. apply IH. unfold flow_return.
    destruct (b_terminator b) as [| |[v|]|]; try done. pose proof (within_carried t v Ht) as Hv.
    destruct Ht as [Hd Hs He]. split; cbn; [done|done|set_solver]. }
  by apply H2, H1.
Qed.

(** The loop ends: each pass but the last finds a new pair of a value and a
    symbol, or a new escape, and there are finitely many. *)
Theorem escaping_ends fuel : potential_bound < fuel → ∃ E, escaping_symbols fuel m f symbols = Some E.
Proof.
  intros Hf. unfold escaping_symbols. pose proof seed_within as Hw. revert Hw. generalize (mkFlow (seed symbols f) ∅).
  assert (∀ fuel s, within s → potential_bound < fuel + potential s → ∃ E, escape_loop fuel m f s = Some E) as H.
  { clear. induction fuel as [|fuel IH]; intros s Hw Hp.
    - pose proof (within_bound s Hw). lia.
    - cbn [escape_loop]. case_bool_decide as Hk; [eauto|]. apply IH; [by apply flow_pass_within|].
      destruct (known_le _ _ (flow_pass_le s)) as [H1 H2]. unfold potential in *.
      assert (origin_size (origin s) ≠ origin_size (origin (flow_pass m f s)) ∨
              size (escaping s) ≠ size (escaping (flow_pass m f s))) as [?|?]; [|lia|lia].
      destruct (decide (origin_size (origin s) = origin_size (origin (flow_pass m f s)))) as [He|]; [right|by left].
      intros He'. apply Hk. by apply known_eq. }
  intros s Hw. apply H; [done|lia].
Qed.

(** C5: The analysis ends, and marks exactly the symbols the rules let out: those
    carried by loads, moves, copies, phis, retains and casts to text up to an
    instruction that keeps its operand or to a return.  An earlier pass never
    hides what a later instruction lets out, and no symbol stays marked without
    such a path. *)
Theorem escape_analysis fuel : potential_bound < fuel →
  ∃ E, escaping_symbols fuel m f symbols = Some E ∧ ∀ x, x ∈ E ↔ escapes x.
Proof. intros [E HE]%escaping_ends. exists E. split; [done|]. by apply (escaping_exact fuel). Qed.
End Rules.

(** ** Closed functions *)

#[local] Abbreviation sp := default_span.
#[local] Abbreviation start instructions returned :=
  (mkFunction "Start" Entry None false [] ∅ TString 0%Z [mkBlock 0%Z instructions (TReturn returned)] sp).
#[local] Abbreviation load d s := (ILoad d%Z s%Z TString sp).

(** The fuel the loop needs. *)
Definition escape_fuel (f : Function) (symbols : gset SymbolId) : nat := S (potential_bound f symbols).
Definition escaping_of (m : Module_) (f : Function) : option (list SymbolId) :=
  elements <$> escaping_symbols (escape_fuel f {[0%Z]}) m f {[0%Z]}.

Definition calls (callee : string) : list Instruction :=
  [load 0 0; IConstant 1%Z (CFunction callee) TUnknown sp; ICall 2%Z 1%Z [0%Z] (TNamed "VOID") sp].

Example borrowed : escaping_of (functions_module []) (start [load 0 0; IPrint [0%Z] sp] None) = Some [].
Proof. vm_compute. reflexivity. Qed.
Example borrowed_by_runtime : escaping_of (functions_module []) (start (calls "HOST.Console.Write") None) = Some [].
Proof. vm_compute. reflexivity. Qed.
Example kept_by_store :
  escaping_of (functions_module []) (start [load 0 0; IStore 1%Z 0%Z None TString sp] None) = Some [0%Z].
Proof. vm_compute. reflexivity. Qed.
Example kept_by_call :
  escaping_of (functions_module [start [] None]) (start (calls "Start") None) = Some [0%Z].
Proof. vm_compute. reflexivity. Qed.
Example copied_and_returned :
  escaping_of (functions_module []) (start [load 0 0; ICopy 1%Z 0%Z TString sp] (Some 1%Z)) = Some [0%Z].
Proof. vm_compute. reflexivity. Qed.

Definition copied : Function := start [load 0 0; ICopy 1%Z 0%Z TString sp] (Some 1%Z).

Lemma escape_analysis_witness : (potential_bound copied {[0%Z]} < 4)%nat ∧
  ∃ E, escaping_symbols 4 (functions_module []) copied {[0%Z]} = Some E
    ∧ ∀ x, x ∈ E ↔ escapes (functions_module []) copied {[0%Z]} x.
Proof.
  assert (potential_bound copied {[0%Z]} < 4)%nat as H by (vm_compute; lia).
  split; [exact H|]. exact (escape_analysis (functions_module []) copied {[0%Z]} 4 H).
Defined.
