(* ===== verification/Monitor.v ===== *)
(** * Monitor: threads that wait on a condition variable

    What [std::sync::Mutex] and [Condvar] give the synchronization primitives
    of [src/libraries]: the critical sections of threads that share one state,
    one at a time and in any order; a thread that waits sleeps until it is
    notified, until its deadline, or for no reason.  A primitive is a value of
    [Monitor]: what its operations do to the state, and the loop
    [while condition { .. wait_timeout(..) .. }] around the wait. *)

From stdpp Require Import fin_maps fin_map_dom.
From S2P Require Import Prelude.

#[local] Open Scope Z_scope.

Definition ThreadId := nat.

(** Who a critical section notifies: nobody, [notify_one] or [notify_all]. *)
Inductive Wake := WakeNobody | WakeOne | WakeAll.

Record Monitor := mkMonitor {
  State : Type;
  (** What a waiting call keeps on its stack. *)
  Local : Type;
  Op : Type;
  Res : Type;
  (** The first critical section of an operation: its result, or the wait it
      enters. *)
  begin_op : ThreadId → Op → State → State * (Res + Local) * Wake;
  (** The condition of the wait: [Some] when the loop ends. *)
  proceed : ThreadId → Local → State → option (State * Res * Wake);
  (** What the loop does when the deadline has passed. *)
  expire : Local → State → State * Res * Wake;
}.
Arguments mkMonitor {_ _ _ _} _ _ _.

Section Threads.
Context {L : Type}.

(** A thread inside a wait: about to check the condition, or asleep. *)
Inductive Waiter := Awake (l : L) | Asleep (l : L).

Definition local_of (w : Waiter) : L := match w with Awake l | Asleep l => l end.
Definition awaken (w : Waiter) : Waiter := Awake (local_of w).
Definition is_awake (w : Waiter) : bool := match w with Awake _ => true | Asleep _ => false end.

#[local] Abbreviation Waiters := (gmap ThreadId Waiter).

Inductive notified : Wake → Waiters → Waiters → Prop :=
| notified_nobody ws : notified WakeNobody ws ws
| notified_all ws : notified WakeAll ws (awaken <$> ws)
| notified_one ws t l : ws !! t = Some (Asleep l) → notified WakeOne ws (<[t := Awake l]> ws)
| notified_none ws : (∀ t l, ws !! t ≠ Some (Asleep l)) → notified WakeOne ws ws.

Definition asleep (ws : Waiters) : Prop := ∃ t l, ws !! t = Some (Asleep l).

(** How many waiters satisfy a test. *)
Definition count_if (p : Waiter → bool) (ws : Waiters) : nat :=
  size (filter (fun e => p e.2 = true) ws).

(** How many threads are about to check. *)
Definition awake_count : Waiters → nat := count_if is_awake.

Lemma count_if_insert p ws t w : ws !! t = None →
  count_if p (<[t := w]> ws) = ((if p w then 1 else 0) + count_if p ws)%nat.
Proof.
  intros Ht. unfold count_if. destruct (p w) eqn:E.
  - rewrite map_filter_insert_True by done. rewrite map_size_insert_None; [done|].
    apply map_lookup_filter_None. by left.
  - rewrite map_filter_insert_False by (cbn; congruence). by rewrite delete_id.
Qed.

Lemma count_if_delete p ws t w : ws !! t = Some w →
  count_if p ws = ((if p w then 1 else 0) + count_if p (delete t ws))%nat.
Proof.
  intros Ht. rewrite <- (count_if_insert _ _ t) by apply lookup_delete_eq. by rewrite insert_delete_id.
Qed.

Lemma count_if_update p ws t w w' : ws !! t = Some w →
  (count_if p (<[t := w']> ws) + (if p w then 1 else 0)
   = count_if p ws + (if p w' then 1 else 0))%nat.
Proof.
  intros Ht. rewrite (count_if_delete p ws t w Ht), <- insert_delete_eq.
  rewrite count_if_insert by apply lookup_delete_eq. lia.
Qed.

Lemma count_if_same p ws t w w' : ws !! t = Some w → p w' = p w →
  count_if p (<[t := w']> ws) = count_if p ws.
Proof. intros Ht Hp. pose proof (count_if_update p ws t w w' Ht) as H. rewrite Hp in H. lia. Qed.

Lemma asleep_insert ws t w : asleep (<[t := w]> ws) → is_awake w = false ∨ asleep ws.
Proof.
  intros (t' & l & Hl). destruct (decide (t' = t)) as [->|Hne].
  - rewrite lookup_insert_eq in Hl. injection Hl as ->. by left.
  - rewrite lookup_insert_ne in Hl by done. right. by exists t', l.
Qed.

Lemma asleep_delete ws t : asleep (delete t ws) → asleep ws.
Proof. intros (t' & l & Hl). apply lookup_delete_Some in Hl as [_ Hl]. by exists t', l. Qed.

Lemma not_asleep_all ws : ¬ asleep (awaken <$> ws).
Proof.
  intros (t & l & Hl). rewrite lookup_fmap in Hl. destruct (ws !! t) as [w|]; [|discriminate].
  by destruct w.
Qed.

(** Notifying wakes threads and puts none to sleep. *)
Lemma notified_lookup wake ws ws' t : notified wake ws ws' →
  match ws !! t with
  | Some (Awake l) => ws' !! t = Some (Awake l)
  | Some (Asleep l) => ws' !! t = Some (Asleep l) ∨ ws' !! t = Some (Awake l)
  | None => ws' !! t = None
  end.
Proof.
  destruct 1 as [ws|ws|ws t' l' Hl'|ws Hn].
  - by destruct (ws !! t) as [[l|l]|]; auto.
  - rewrite lookup_fmap. by destruct (ws !! t) as [[l|l]|]; auto.
  - destruct (decide (t' = t)) as [->|Hne].
    + rewrite Hl', lookup_insert_eq. auto.
    + rewrite lookup_insert_ne by done. by destruct (ws !! t) as [[l|l]|]; auto.
  - by destruct (ws !! t) as [[l|l]|]; auto.
Qed.

(** [notify_one] leaves one more thread awake, when one sleeps. *)
Lemma notified_one_count ws ws' : notified WakeOne ws ws' → asleep ws' →
  awake_count ws' = S (awake_count ws) ∧ asleep ws.
Proof.
  inversion 1 as [| |ws0 t l Ht|ws0 Hn]; subst.
  - intros _. split; [|by exists t, l]. pose proof (count_if_update is_awake ws t _ (Awake l) Ht).
    unfold awake_count. simpl in *. lia.
  - intros (t & l & Hl). by destruct (Hn t l).
Qed.

(** Notifying changes no waiter but its being asleep. *)
Lemma notified_count p wake ws ws' : (∀ w, p (awaken w) = p w) → notified wake ws ws' →
  count_if p ws' = count_if p ws.
Proof.
  intros Hp. destruct 1 as [ws|ws|ws t l Ht|ws _]; [done| | |done].
  - unfold count_if. rewrite map_filter_fmap, map_size_fmap. do 2 f_equal. apply map_filter_ext.
    intros i w _. cbn. by rewrite Hp.
  - pose proof (count_if_update p ws t _ (Awake l) Ht) as H.
    change (Awake l) with (awaken (Asleep l)) in H at 2. rewrite Hp in H. lia.
Qed.
End Threads.
Arguments Waiter : clear implicits.

(** ** The steps of a monitor's threads *)

Section Steps.
Variable M : Monitor.

Record Sys := mkSys { state : State M; waiters : gmap ThreadId (Waiter (Local M)) }.

(** What the threads' callers see. *)
Inductive Event :=
| Called (t : ThreadId) (op : Op M) (r : option (Res M))
| Left (t : ThreadId) (l : Local M) (r : Res M)
| GaveUp (t : ThreadId) (l : Local M) (r : Res M)
| Silent.

Inductive mstep : Sys → Event → Sys → Prop :=
| mstep_result t op s ws s' r wake ws' :
    ws !! t = None → begin_op M t op s = (s', inl r, wake) → notified wake ws ws' →
    mstep (mkSys s ws) (Called t op (Some r)) (mkSys s' ws')
| mstep_wait t op s ws s' l wake ws' :
    ws !! t = None → begin_op M t op s = (s', inr l, wake) → notified wake ws ws' →
    mstep (mkSys s ws) (Called t op None) (mkSys s' (<[t := Awake l]> ws'))
| mstep_leave t l s ws s' r wake ws' :
    ws !! t = Some (Awake l) → proceed M t l s = Some (s', r, wake) →
    notified wake (delete t ws) ws' →
    mstep (mkSys s ws) (Left t l r) (mkSys s' ws')
| mstep_expire t l s ws s' r wake ws' :
    ws !! t = Some (Awake l) → proceed M t l s = None → expire M l s = (s', r, wake) →
    notified wake (delete t ws) ws' →
    mstep (mkSys s ws) (GaveUp t l r) (mkSys s' ws')
| mstep_sleep t l s ws :
    ws !! t = Some (Awake l) → proceed M t l s = None →
    mstep (mkSys s ws) Silent (mkSys s (<[t := Asleep l]> ws))
| mstep_wake t l s ws :
    ws !! t = Some (Asleep l) → mstep (mkSys s ws) Silent (mkSys s (<[t := Awake l]> ws)).

(** [run x events y]: the threads take [x] to [y] with the events in order. *)
Inductive run : Sys → list Event → Sys → Prop :=
| run_nil x : run x [] x
| run_snoc x es y e z : run x es y → mstep y e z → run x (es ++ [e]) z.

Lemma run_cons x e y es z : mstep x e y → run y es z → run x (e :: es) z.
Proof.
  intros He Hr. induction Hr as [y|y es z' e' z _ IH Hs]; [exact (run_snoc x [] x e y (run_nil x) He)|].
  apply (run_snoc x (e :: es) z' e' z); auto.
Qed.

Lemma run_invariant (P : Sys → Prop) x es y :
  (∀ a e b, P a → mstep a e b → P b) → P x → run x es y → P y.
Proof.
  intros Hstep Hx Hr. revert Hx. induction Hr as [|x es y e z _ IH Hs]; intros Hx; [done|].
  apply (Hstep y e); auto.
Qed.

(** An invariant that also speaks of the events. *)
Lemma run_history (P : list Event → Sys → Prop) x es y :
  (∀ es a e b, P es a → mstep a e b → P (es ++ [e])%list b) → P [] x → run x es y → P es y.
Proof.
  intros Hstep Hx Hr. revert Hx. induction Hr as [|x es y e z _ IH Hs]; intros Hx; [done|].
  apply (Hstep es y); auto.
Qed.
End Steps.
Arguments mkSys {M} _ _.
Arguments state {M} _.
Arguments waiters {M} _.
Arguments Called {M} _ _ _.
Arguments Left {M} _ _ _.
Arguments GaveUp {M} _ _ _.
Arguments Silent {M}.
