(* ===== verification/Failure.v ===== *)
(** * Failure: why a dispatch operation fails

    [src/libraries/bn_core_dispatch/src/error.rs]: the failures of queues,
    tickets and synchronization primitives with the error they become, and the
    bounds of counts and timeouts ([dispatch] of
    [src/config/0.4-bnweb-limits.toml]). *)

From S2P Require Import Prelude Text Diag Types Literals Civil.

#[local] Open Scope string_scope.
#[local] Open Scope Z_scope.

Definition worker_count_max : Z := 64.
Definition pending_tickets_max : Z := 1024.
Definition timeout_min_ms : Z := 1.
Definition timeout_max_ms : Z := 60000.
Definition output_max_bytes : Z := 65536.

Inductive DispatchFailure :=
| OutOfRange (what : string) (value min max : Z)
| Timeout (ms : Z)
| Closed (what : string)
| Saturated (pending : Z)
| Cancelled
| TaskFailed (code : Z) (message : string)
| GroupUnderflow
| ReleaseWithEveryPermit (permits : Z)
| NotOwner
| SelfWait
| Unavailable (reason : string).

#[global] Instance DispatchFailure_eq_dec : EqDecision DispatchFailure.
Proof. solve_decision. Defined.

Abbreviation dresult A := (res DispatchFailure A).

Definition failure_code (f : DispatchFailure) : Z :=
  match f with
  | OutOfRange _ _ _ _ => 1
  | Timeout _ => 2
  | Closed _ => 3
  | Saturated _ => 4
  | Cancelled => 5
  | TaskFailed _ _ => 6
  | GroupUnderflow | ReleaseWithEveryPermit _ | NotOwner | SelfWait => 7
  | Unavailable _ => 8
  end.

Definition failure_message (f : DispatchFailure) : string :=
  match f with
  | OutOfRange what value _ _ => "cannot use " +:+ dec_of_Z value +:+ " as the " +:+ what
  | Timeout ms => "timed out after " +:+ dec_of_Z ms +:+ " ms"
  | Closed what => "the " +:+ what +:+ " is closed"
  | Saturated _ => "cannot submit the task"
  | Cancelled => "the task was cancelled"
  | TaskFailed _ _ => "the task failed"
  | GroupUnderflow => "cannot leave the group"
  | ReleaseWithEveryPermit _ => "cannot release the semaphore"
  | NotOwner => "cannot unlock the mutex"
  | SelfWait => "cannot wait for the queue from its own worker"
  | Unavailable _ => "the operation is not available"
  end.

Definition failure_cause (f : DispatchFailure) : string :=
  match f with
  | OutOfRange what _ min max =>
      "the " +:+ what +:+ " must be from " +:+ dec_of_Z min +:+ " through " +:+ dec_of_Z max
  | Timeout _ => "the operation did not complete within its timeout"
  | Closed what =>
      if String.eqb what "queue" then "a closed queue accepts no more work"
      else "the " +:+ what +:+ " was closed by Close"
  | Saturated pending =>
      "the queue already holds " +:+ dec_of_Z pending +:+ " pending tickets"
  | Cancelled => "Cancel, or the queue's Close, removed it before it ran"
  | TaskFailed code message =>
      "the worker returned Error " +:+ dec_of_Z code +:+ ": " +:+ message
  | GroupUnderflow => "the group count is already 0: each Leave needs an Enter"
  | ReleaseWithEveryPermit permits =>
      if permits =? 1 then "its only permit is already available"
      else "all " +:+ dec_of_Z permits +:+ " permits are already available"
  | NotOwner => "only the task that locked the mutex can unlock it"
  | SelfWait => "the worker would wait for itself"
  | Unavailable reason => reason
  end.

(** [deadline]: the bounds of a timeout; the instant is the caller's clock. *)
Definition deadline (timeout_ms : Z) : dresult unit :=
  if in_range timeout_min_ms timeout_max_ms timeout_ms then Ok tt
  else Err (OutOfRange "timeout in milliseconds" timeout_ms timeout_min_ms timeout_max_ms).

Definition count (what : string) (value max : Z) : dresult Z :=
  match try_from 0 usize_MAX value with
  | Some count => if in_range 1 max count then Ok count else Err (OutOfRange what value 1 max)
  | None => Err (OutOfRange what value 1 max)
  end.

Definition worker_count (value : Z) : dresult Z := count "worker count" value worker_count_max.

Definition auto_worker_count (parallelism : option Z) : dresult Z :=
  match parallelism with
  | Some n => Ok (Z.min n worker_count_max)
  | None => Err (Unavailable "the system reports no processor count")
  end.

Lemma count_Ok what value max n : count what value max = Ok n → n = value ∧ 1 ≤ n ≤ max.
Proof.
  unfold count, try_from. destruct (in_range 0 usize_MAX value); [|done].
  destruct (in_range 1 max value) eqn:E; [|done]. intros [= <-]. apply in_range_spec in E. done.
Qed.
