(* ===== verification/Json.v ===== *)
(** * Json: parsed values, bounds and the document table of BNJson

    [src/libraries/bn_core_json] ([parse.rs], [documents.rs], [error.rs]).
    [serde_json] reads the text and writes it: what its deserializer hands to
    the visitor is the tree [Events], a parameter's answer, and its map is
    keyed by texts whose order no operation here observes.  The theorems show
    the bounds of a parsed value, that a failed write leaves the table as it
    was, that the table counts its holders, and what a move does. *)

From stdpp Require Import fin_maps fin_map_dom.
From S2P Require Import Prelude Text Scalars Entries.

#[local] Open Scope string_scope.
#[local] Open Scope Z_scope.

Definition MAX_DEPTH : nat := 64.
Definition MAX_BYTES : Z := 8 * 1024 * 1024.

Definition INVALID_ARGUMENT : Z := 1.
Definition NOT_FOUND : Z := 2.
Definition TYPE_MISMATCH : Z := 3.
Definition OUT_OF_RANGE : Z := 4.
Definition LIMIT : Z := 5.
Definition UNAVAILABLE : Z := 6.
Definition PARSE_FAILED : Z := 7.

(** ** Failures ([error.rs]) *)

Inductive Place := PKey (key : string) | PIndex (index : Z).

Inductive JsonFailure :=
| InvalidHandle
| Missing (key : string)
| WrongKind (place : Place) (expected found : string)
| NotContainer (expected found : string)
| OutOfRange (index length : Z)
| Depth
| NonFinite
| SelfMove
| Parse (reason : string)
| Stringify (reason : string)
| Unavailable.

Abbreviation outcome A := (res JsonFailure A).

Definition json_code (f : JsonFailure) : Z :=
  match f with
  | InvalidHandle | NonFinite | SelfMove => INVALID_ARGUMENT
  | Missing _ => NOT_FOUND
  | WrongKind _ _ _ | NotContainer _ _ => TYPE_MISMATCH
  | OutOfRange _ _ => OUT_OF_RANGE
  | Depth | Stringify _ => LIMIT
  | Unavailable => UNAVAILABLE
  | Parse _ => PARSE_FAILED
  end.

(** "a" or "an" before a kind name. *)
Definition article (kind : string) : string :=
  if existsb (fun c => starts_with c kind) ["a"; "e"; "i"; "o"; "u"] then "an" else "a".

Definition ELLIPSIS : string := of_bytes (map byte_of [226; 128; 166]).

Definition shown (key : string) : string :=
  let head := join "" (take 64 (chars key)) in
  if 64 <? chars_count key then head +:+ ELLIPSIS else head.

(** Two templates of [share/bn/catalog/json.txt]. *)
Definition MEMBER_MISSING : string := "no member " +:+ QUOTE +:+ "{key}" +:+ QUOTE.
Definition MEMBER_WRONG_KIND : string := "member " +:+ QUOTE +:+ "{key}" +:+ QUOTE +:+ " is not of type {expected}".

Definition json_message (f : JsonFailure) : string :=
  match f with
  | InvalidHandle => "cannot use the Json document"
  | Missing key => filled MEMBER_MISSING [("key", shown key)]
  | WrongKind (PKey key) expected _ => filled MEMBER_WRONG_KIND [("key", shown key); ("expected", expected)]
  | WrongKind (PIndex index) expected _ =>
      "element " +:+ dec_of_Z index +:+ " is not of type " +:+ expected
  | NotContainer expected found =>
      "the document is " +:+ article found +:+ " " +:+ found +:+ ", not an " +:+ expected
  | OutOfRange index _ => "no element " +:+ dec_of_Z index
  | Depth => "cannot write the value"
  | NonFinite => "cannot write a non-finite FLOAT"
  | SelfMove => "cannot move a document into itself"
  | Parse _ => "cannot parse the text as JSON"
  | Stringify _ => "cannot stringify the document"
  | Unavailable => "the operation is not provided"
  end.

Definition json_cause (f : JsonFailure) : string :=
  match f with
  | InvalidHandle => "the document was released"
  | Missing _ => "the object has no member with that key"
  | WrongKind _ _ found => "the value there is " +:+ article found +:+ " " +:+ found
  | NotContainer expected _ => "only an " +:+ expected +:+ " accepts this operation"
  | OutOfRange _ length =>
      "the index must be at least 0 and less than the array length " +:+ dec_of_Z length
  | Depth =>
      "the document would nest deeper than " +:+ dec_of_Z (Z.of_nat MAX_DEPTH) +:+ " levels"
  | NonFinite => "JSON has no NaN or infinity"
  | SelfMove => "a value lives in exactly one place"
  | Parse reason | Stringify reason => reason
  | Unavailable => "this build does not provide it"
  end.

(** ** Values *)

(** [Number] is [serde_json::Number]. *)
Inductive JValue {Number : Type} :=
| JNull
| JBool (b : bool)
| JNumber (n : Number)
| JString (s : string)
| JArray (items : list JValue)
| JObject (entries : list (string * JValue)).
Arguments JValue : clear implicits.

(** What the deserializer hands to the visitor: a value, or the error it stops
    with; a sequence or a map ends well or with an error of its own. *)
Inductive Events {Number : Type} :=
| EUnit
| EBool (b : bool)
| ENumber (n : option Number)
| EString (s : string)
| ESeq (items : list Events) (stop : option string)
| EMap (entries : list (string * Events)) (stop : option string)
| EError (message : string).
Arguments Events : clear implicits.

Section Json.
Context {Number : Type}.
#[local] Abbreviation Value := (JValue Number).

Definition kind_of (v : Value) : string :=
  match v with
  | JObject _ => "object" | JArray _ => "array" | JString _ => "string" | JNumber _ => "number"
  | JBool _ => "boolean" | JNull => "null"
  end.

(** [serde_json::Map]: unique keys. *)
Fixpoint map_get (key : string) (entries : list (string * Value)) : option Value :=
  match entries with
  | [] => None
  | (k, v) :: entries => if String.eqb k key then Some v else map_get key entries
  end.
Fixpoint map_insert (key : string) (value : Value) (entries : list (string * Value)) : list (string * Value) :=
  match entries with
  | [] => [(key, value)]
  | (k, v) :: entries =>
      if String.eqb k key then (k, value) :: entries else (k, v) :: map_insert key value entries
  end.
Definition map_remove (key : string) (entries : list (string * Value)) : list (string * Value) :=
  List.filter (fun p => negb (String.eqb p.1 key)) entries.

(** ** Parsing ([parse.rs]) *)

Definition too_deep : string := "JSON nesting exceeds 64 levels".

(** The visitor, at a depth.  [visit_f64] refuses a number [serde_json] cannot
    hold, here [None]. *)
Fixpoint visit (depth : nat) (e : Events Number) : res string Value :=
  match e with
  | EUnit => Ok JNull
  | EBool b => Ok (JBool b)
  | ENumber (Some n) => Ok (JNumber n)
  | ENumber None => Err "JSON number is not finite"
  | EString s => Ok (JString s)
  | EError message => Err message
  | ESeq items stop =>
      if (MAX_DEPTH <=? depth)%nat then Err too_deep
      else
        values ← (fix go (l : list (Events Number)) : res string (list Value) :=
          match l with
          | [] => Ok []
          | e :: l => v ← visit (S depth) e; vs ← go l; Ok (v :: vs)
          end) items;
        match stop with Some message => Err message | None => Ok (JArray values) end
  | EMap entries stop =>
      if (MAX_DEPTH <=? depth)%nat then Err too_deep
      else
        values ← (fix go (values : list (string * Value)) (l : list (string * Events Number))
            : res string (list (string * Value)) :=
          match l with
          | [] => Ok values
          | (key, e) :: l =>
              match map_get key values with
              | Some _ => Err "duplicate JSON object key"
              | None => v ← visit (S depth) e; go (map_insert key v values) l
              end
          end) [] entries;
        match stop with Some message => Err message | None => Ok (JObject values) end
  end.

(** [serde_json]: the events of a text, the error after its value (a data error,
    or not) and the text of an error met while reading. *)
Variable deserialize : string → Events Number.
Variable trailing : string → option (bool * string).
Variable error_text : string → string → string.
Variable to_string : Value → res string string.

Definition parse (input : string) : res string Value :=
  if MAX_BYTES <? str_len input then Err "JSON input exceeds 8 MiB"
  else
    match visit 0 (deserialize input) with
    | Ok value =>
        match trailing input with
        | Some (is_data, message) => Err (if is_data then "trailing JSON input" else message)
        | None => Ok value
        end
    | Err error => Err (error_text input error)
    | Panic w => Panic w
    | Fuel => Fuel
    end.

Fixpoint ensure_depth (v : Value) (depth : nat) : res string unit :=
  match v with
  | JArray values =>
      if (MAX_DEPTH <=? depth)%nat then Err too_deep
      else (fix go (l : list Value) : res string unit :=
        match l with [] => Ok tt | v :: l => ensure_depth v (S depth) ;; go l end) values
  | JObject entries =>
      if (MAX_DEPTH <=? depth)%nat then Err too_deep
      else (fix go (l : list (string * Value)) : res string unit :=
        match l with [] => Ok tt | (_, v) :: l => ensure_depth v (S depth) ;; go l end) entries
  | _ => Ok tt
  end.

Definition stringify (v : Value) : res string string :=
  ensure_depth v 0 ;;
  output ← to_string v;
  if MAX_BYTES <? str_len output then Err "JSON output exceeds 8 MiB" else Ok output.

(** ** The document table ([documents.rs]) *)

(** The documents of one module copy, and the process's next handle. *)
Record Documents := mkDocuments {
  values : gmap Z Value;
  holders : gmap Z Z;
  next_handle : Z;
}.

Definition with_values (m : gmap Z Value) (d : Documents) : Documents :=
  mkDocuments m (holders d) (next_handle d).

Definition store (v : Value) (d : Documents) : Documents * Z :=
  let handle := next_handle d in
  (mkDocuments (<[handle := v]> (values d)) (<[handle := 1]> (holders d)) (handle + 1), handle).

Definition document (handle : Z) (d : Documents) : option Value := values d !! handle.

Definition retain (handle : Z) (d : Documents) : Documents * bool :=
  match holders d !! handle with
  | Some count => (mkDocuments (values d) (<[handle := count + 1]> (holders d)) (next_handle d), true)
  | None => (d, false)
  end.

Definition release (handle : Z) (d : Documents) : Documents * bool :=
  match holders d !! handle with
  | Some count =>
      if count - 1 =? 0 then
        (mkDocuments (delete handle (values d)) (delete handle (holders d)) (next_handle d), true)
      else (mkDocuments (values d) (<[handle := count - 1]> (holders d)) (next_handle d), true)
  | None => (d, false)
  end.

(** The depth of a value, counting the value itself as one level. *)
Fixpoint depth_of (v : Value) : nat :=
  match v with
  | JObject entries =>
      S ((fix go (l : list (string * Value)) : nat :=
           match l with [] => 0%nat | (_, v) :: l => Nat.max (depth_of v) (go l) end) entries)
  | JArray items =>
      S ((fix go (l : list Value) : nat :=
           match l with [] => 0%nat | v :: l => Nat.max (depth_of v) (go l) end) items)
  | _ => 1
  end.

Definition lift_parse {A} (r : res string A) (wrap : string → JsonFailure) : outcome A :=
  match r with Ok a => Ok a | Err e => Err (wrap e) | Panic w => Panic w | Fuel => Fuel end.

Definition parse_document (text : string) (d : Documents) : Documents * outcome Z :=
  match lift_parse (parse text) Parse with
  | Ok v => let '(d, handle) := store v d in (d, Ok handle)
  | Err e => (d, Err e)
  | Panic w => (d, Panic w)
  | Fuel => (d, Fuel)
  end.

Definition stringify_document (handle : Z) (d : Documents) : outcome string :=
  v ← ok_or InvalidHandle (document handle d);
  lift_parse (stringify v) Stringify.

(** [number]: of what [serde_json::Number::from_f64] answers. *)
Definition number (n : option Number) : outcome Value := ok_or NonFinite (JNumber <$> n).

(** The container of a write: the old one with the value, and the one put back
    when the new one is too deep. *)
Definition write (handle : Z) (d : Documents) (change : Value → outcome (Value * Value)) : Documents * outcome unit :=
  match values d !! handle with
  | None => (d, Err InvalidHandle)
  | Some target =>
      match change target with
      | Ok (changed, restored) =>
          if (MAX_DEPTH <? depth_of changed)%nat then
            (with_values (<[handle := restored]> (values d)) d, Err Depth)
          else (with_values (<[handle := changed]> (values d)) d, Ok tt)
      | Err e => (d, Err e)
      | Panic w => (d, Panic w)
      | Fuel => (d, Fuel)
      end
  end.

Definition set_value (handle : Z) (key : string) (v : Value) (d : Documents) : Documents * outcome unit :=
  write handle d (fun target =>
    match target with
    | JObject entries =>
        let previous := map_get key entries in
        let inserted := map_insert key v entries in
        Ok (JObject inserted,
            JObject (match previous with
                     | Some previous => map_insert key previous inserted
                     | None => map_remove key inserted
                     end))
    | other => Err (NotContainer "object" (kind_of other))
    end).

Definition append_value (handle : Z) (v : Value) (d : Documents) : Documents * outcome unit :=
  write handle d (fun target =>
    match target with
    | JArray items => Ok (JArray (items ++ [v])%list, JArray (removelast (items ++ [v])%list))
    | other => Err (NotContainer "array" (kind_of other))
    end).

(** [position] *)
Definition position (items : list Value) (index : Z) : outcome nat :=
  if in_range 0 u64_MAX index && (index <? Z.of_nat (length items)) then Ok (Z.to_nat index)
  else Err (OutOfRange index (Z.of_nat (length items))).

Definition set_at (handle : Z) (index : Z) (v : Value) (d : Documents) : Documents * outcome unit :=
  write handle d (fun target =>
    match target with
    | JArray items =>
        slot ← position items index;
        previous ← expect "index out of bounds" (items !! slot);
        let replaced := <[slot := v]> items in
        Ok (JArray replaced, JArray (<[slot := previous]> replaced))
    | other => Err (NotContainer "array" (kind_of other))
    end).

(** [target.get(key)]: a member of an object. *)
Definition member (key : string) (v : Value) : option Value :=
  match v with JObject entries => map_get key entries | _ => None end.

Definition get_value {A} (handle : Z) (key expected : string) (project : Value → option A) (d : Documents)
    : outcome A :=
  target ← ok_or InvalidHandle (values d !! handle);
  v ← ok_or (Missing key) (member key target);
  ok_or (WrongKind (PKey key) expected (kind_of v)) (project v).

Definition get_string (handle : Z) (key : string) (d : Documents) : outcome string :=
  get_value handle key "STRING" (fun v => match v with JString s => Some s | _ => None end) d.

Definition kind (handle : Z) (d : Documents) : option string := kind_of <$> values d !! handle.

Definition has (handle : Z) (key : string) (d : Documents) : bool :=
  match values d !! handle with
  | Some v => match member key v with Some _ => true | None => false end
  | None => false
  end.

Definition length_ (handle : Z) (d : Documents) : outcome Z :=
  v ← ok_or InvalidHandle (values d !! handle);
  match v with
  | JObject entries => Ok (Z.min (Z.of_nat (length entries)) i64_MAX)
  | JArray items => Ok (Z.min (Z.of_nat (length items)) i64_MAX)
  | other => Err (NotContainer "object or array" (kind_of other))
  end.

Definition element {A} (handle : Z) (index : Z) (expected : string) (project : Value → option A) (d : Documents)
    : outcome A :=
  target ← ok_or InvalidHandle (values d !! handle);
  match target with
  | JArray items =>
      slot ← position items index;
      v ← expect "index out of bounds" (items !! slot);
      ok_or (WrongKind (PIndex index) expected (kind_of v)) (project v)
  | other => Err (NotContainer "array" (kind_of other))
  end.

Definition clone_document (handle : Z) (d : Documents) : Documents * option Z :=
  match document handle d with
  | Some v => let '(d, handle) := store v d in (d, Some handle)
  | None => (d, None)
  end.

Definition move_child (parent child : Z) (write : Value → Documents → Documents * outcome unit) (d : Documents)
    : Documents * outcome unit :=
  if parent =? child then (d, Err SelfMove)
  else
    match document child d with
    | None => (d, Err InvalidHandle)
    | Some v =>
        match write v d with
        | (d, Ok tt) => ((release child d).1, Ok tt)
        | (d, e) => (d, e)
        end
    end.

Definition move_into (parent : Z) (key : string) (child : Z) : Documents → Documents * outcome unit :=
  move_child parent child (set_value parent key).
Definition move_into_at (parent : Z) (index : Z) (child : Z) : Documents → Documents * outcome unit :=
  move_child parent child (set_at parent index).
Definition append_moved (parent child : Z) : Documents → Documents * outcome unit :=
  move_child parent child (append_value parent).

(** The [map(store)] of [get_json] and [get_json_at]. *)
Definition store_result (r : outcome Value) (d : Documents) : Documents * outcome Z :=
  match r with
  | Ok v => let '(d, handle) := store v d in (d, Ok handle)
  | Err e => (d, Err e)
  | Panic w => (d, Panic w)
  | Fuel => (d, Fuel)
  end.
Definition get_json (handle : Z) (key : string) (d : Documents) : Documents * outcome Z :=
  store_result (get_value handle key "Json" Some d) d.
Definition get_json_at (handle : Z) (index : Z) (d : Documents) : Documents * outcome Z :=
  store_result (element handle index "Json" Some d) d.

Definition object_ : Documents → Documents * Z := store (JObject []).
Definition array_ : Documents → Documents * Z := store (JArray []).
End Json.

(** ** Bounds of parsed values *)

Section Bounds.
Context {Number : Type}.
#[local] Abbreviation Value := (JValue Number).

(** Induction on values, with the elements of their containers. *)
Lemma value_induction (P : Value → Prop) :
  P JNull → (∀ b, P (JBool b)) → (∀ n, P (JNumber n)) → (∀ s, P (JString s)) →
  (∀ items, Forall P items → P (JArray items)) → (∀ entries, Forall (fun p => P p.2) entries → P (JObject entries)) →
  ∀ v, P v.
Proof.
  intros H1 H2 H3 H4 H5 H6. fix IH 1. intros [|b|n|s|items|entries]; [exact H1|apply H2|apply H3|apply H4| | ].
  - apply H5. induction items as [|v items IHi]; constructor; [apply IH|exact IHi].
  - apply H6. induction entries as [|[k v] entries IHe]; constructor; [apply IH|exact IHe].
Qed.

Lemma events_induction (P : Events Number → Prop) :
  P EUnit → (∀ b, P (EBool b)) → (∀ n, P (ENumber n)) → (∀ s, P (EString s)) →
  (∀ items stop, Forall P items → P (ESeq items stop)) →
  (∀ entries stop, Forall (fun p => P p.2) entries → P (EMap entries stop)) → (∀ m, P (EError m)) → ∀ e, P e.
Proof.
  intros H1 H2 H3 H4 H5 H6 H7. fix IH 1. intros [|b|n|s|items stop|entries stop|m]; [exact H1|apply H2|apply H3|apply H4| | |apply H7].
  - apply H5. induction items as [|v items IHi]; constructor; [apply IH|exact IHi].
  - apply H6. induction entries as [|[k v] entries IHe]; constructor; [apply IH|exact IHe].
Qed.

(** [nests n v]: no more than [n] containers of [v] stand in one another; every
    object has each key once. *)
Inductive nests : nat → Value → Prop :=
| nests_null n : nests n JNull
| nests_bool n b : nests n (JBool b)
| nests_number n x : nests n (JNumber x)
| nests_string n s : nests n (JString s)
| nests_array n items : Forall (nests n) items → nests (S n) (JArray items)
| nests_object n entries :
    Forall (fun p => nests n p.2) entries → NoDup entries.*1 → nests (S n) (JObject entries).

Lemma map_get_None key (entries : list (string * Value)) : map_get key entries = None ↔ key ∉ entries.*1.
Proof.
  induction entries as [|[k v] entries IH]; cbn.
  - split; [intros _ H; by apply elem_of_nil in H|done].
  - rewrite elem_of_cons. destruct (String.eqb_spec k key) as [->|Hn]; [naive_solver|]. naive_solver.
Qed.

Lemma map_insert_new key v (entries : list (string * Value)) : map_get key entries = None →
  map_insert key v entries = (entries ++ [(key, v)])%list.
Proof.
  induction entries as [|[k w] entries IH]; cbn; [done|]. destruct (String.eqb k key); [done|]. intros H. by rewrite IH.
Qed.

Lemma visit_nests (e : Events Number) : ∀ depth v, (depth <= MAX_DEPTH)%nat → visit depth e = Ok v →
  nests (MAX_DEPTH - depth) v.
Proof.
  induction e as [|b|n|s|items stop IH|entries stop IH|m] using events_induction; intros depth v Hd; cbn [visit].
  - intros [= <-]. constructor.
  - intros [= <-]. constructor.
  - destruct n; [|done]. intros [= <-]. constructor.
  - intros [= <-]. constructor.
  - destruct (Nat.leb_spec MAX_DEPTH depth) as [|Hlt]; [done|]. intros (vs & Hvs & Hstop)%res_bind_Ok.
    destruct stop; [done|]. injection Hstop as <-. replace (MAX_DEPTH - depth)%nat with (S (MAX_DEPTH - S depth)) by lia.
    apply nests_array. revert vs Hvs. induction IH as [|e items He Hitems IH]; intros vs Hvs.
    + injection Hvs as <-. apply Forall_nil_2.
    + apply res_bind_Ok in Hvs as (v & Hv & Hvs). apply res_bind_Ok in Hvs as (vs' & Hvs & [= <-]).
      apply Forall_cons_2; [by apply He|by apply IH].
  - destruct (Nat.leb_spec MAX_DEPTH depth) as [|Hlt]; [done|]. intros (vs & Hvs & Hstop)%res_bind_Ok.
    destruct stop; [done|]. injection Hstop as <-. replace (MAX_DEPTH - depth)%nat with (S (MAX_DEPTH - S depth)) by lia.
    assert (Forall (fun p : string * Value => nests (MAX_DEPTH - S depth) p.2) vs ∧ NoDup vs.*1) as [? ?];
      [|by apply nests_object].
    assert (Forall (fun p : string * Value => nests (MAX_DEPTH - S depth) p.2) [] ∧ NoDup ([] : list (string * Value)).*1) as H0.
    { split; [apply Forall_nil_2|apply NoDup_nil_2]. }
    revert Hvs H0. generalize ([] : list (string * Value)). revert vs.
    induction IH as [|[k e] entries He Hentries IH]; intros vs acc Hvs [Hf Hn].
    + by injection Hvs as <-.
    + destruct (map_get k acc) eqn:Hk; [done|]. apply res_bind_Ok in Hvs as (v & Hv & Hvs).
      apply (IH vs _ Hvs). rewrite map_insert_new by done. split.
      * apply Forall_app_2; [done|]. apply Forall_cons_2; [by apply He|apply Forall_nil_2].
      * rewrite fmap_app. apply list.NoDup_app. split; [done|]. split; [|apply list.NoDup_singleton].
        intros x Hx ->%list_elem_of_singleton. by apply map_get_None in Hk.
  - done.
Qed.

Lemma nests_ensure v : ∀ n depth, nests n v → (depth + n <= MAX_DEPTH)%nat → ensure_depth v depth = Ok tt.
Proof.
  induction v as [|b|x|s|items IH|entries IH] using value_induction; intros n depth Hn Hd; cbn [ensure_depth]; try done.
  - inversion Hn as [| | | |n' ? Hf|]; subst. destruct (Nat.leb_spec MAX_DEPTH depth) as [|Hlt]; [lia|].
    clear Hn. induction IH as [|v items Hv Hitems IH]; [done|].
    rewrite (Hv n' (S depth)); [|by apply (Forall_inv Hf)|lia]. cbn [mbind res_bind].
    apply IH. by apply (Forall_inv_tail Hf).
  - inversion Hn as [| | | | |n' ? Hf Hnd]; subst. destruct (Nat.leb_spec MAX_DEPTH depth) as [|Hlt]; [lia|].
    clear Hn Hnd. induction IH as [|[k v] entries Hv Hentries IH]; [done|].
    cbn in Hv. rewrite (Hv n' (S depth)); [|by apply (Forall_inv Hf)|lia]. cbn [mbind res_bind].
    apply IH. by apply (Forall_inv_tail Hf).
Qed.

(** A parsed value nests at most 64 containers in one another and has no key
    twice in an object, and [stringify] never finds it too deep. *)
Theorem parse_bounded deserialize trailing error_text input (v : Value) :
  parse deserialize trailing error_text input = Ok v → nests MAX_DEPTH v ∧ ensure_depth v 0 = Ok tt.
Proof.
  unfold parse. destruct (_ <? _); [done|]. destruct (visit _ _) as [w| | |] eqn:Hv; try done.
  destruct (trailing input) as [[]|]; [done|]. intros [= ->].
  apply visit_nests in Hv; [|unfold MAX_DEPTH; lia]. rewrite Nat.sub_0_r in Hv. split; [done|].
  apply (nests_ensure v MAX_DEPTH); [done|lia].
Qed.
End Bounds.

(** ** The table *)

Section Table.
Context {Number : Type}.
Variable deserialize : string → Events Number.
Variable trailing : string → option (bool * string).
Variable error_text : string → string → string.
Variable to_string : JValue Number → res string string.
#[local] Abbreviation Value := (JValue Number).
#[local] Abbreviation Docs := (@Documents Number).
Implicit Types (d : Docs) (v w : Value).

Lemma with_values_same d h v : values d !! h = Some v → with_values (<[h := v]> (values d)) d = d.
Proof. intros H. unfold with_values. rewrite insert_id by done. by destruct d. Qed.

Lemma map_insert_twice key v w entries : map_get key entries = Some w →
  map_insert key w (map_insert key v entries) = entries.
Proof.
  induction entries as [|[k u] entries IH]; cbn; [done|]. destruct (String.eqb k key) eqn:Hk; cbn; rewrite Hk.
  - by intros [= ->].
  - intros H. by rewrite IH.
Qed.

Lemma map_remove_new key v (entries : list (string * Value)) : map_get key entries = None →
  map_remove key (map_insert key v entries) = entries.
Proof.
  unfold map_remove. induction entries as [|[k u] entries IH]; cbn.
  - by rewrite String.eqb_refl.
  - destruct (String.eqb k key) eqn:Hk; cbn; [done|]. rewrite Hk. cbn. intros H. by rewrite IH.
Qed.

Lemma map_get_insert key v (entries : list (string * Value)) : map_get key (map_insert key v entries) = Some v.
Proof.
  induction entries as [|[k u] entries IH]; cbn; [by rewrite String.eqb_refl|].
  destruct (String.eqb k key) eqn:Hk; cbn; by rewrite Hk.
Qed.

Lemma removelast_snoc {A} (l : list A) (x : A) : removelast (l ++ [x])%list = l.
Proof. rewrite removelast_app by done. cbn. apply app_nil_r. Qed.

Lemma position_Ok (items : list Value) index slot :
  position items index = Ok slot ↔ slot = Z.to_nat index ∧ 0 <= index <= u64_MAX ∧ index < Z.of_nat (length items).
Proof.
  unfold position, in_range. destruct (_ && _) eqn:H; split.
  - intros [= <-]. lia.
  - by intros [-> _].
  - done.
  - lia.
Qed.

(** What a write does: it fails and leaves the table as it was, or puts a value
    within the depth bound in the document's place. *)
Inductive wrote d h : Docs * outcome unit → Prop :=
| wrote_failed e : wrote d h (d, Err e)
| wrote_value v : is_Some (values d !! h) → (depth_of v <= MAX_DEPTH)%nat →
    wrote d h (with_values (<[h := v]> (values d)) d, Ok tt).

Lemma write_wrote h d change :
  (∀ target, match change target with
             | Ok (_, restored) => restored = target | Err _ => True | Panic _ | Fuel => False end) →
  wrote d h (write h d change).
Proof.
  intros Hc. unfold write. destruct (values d !! h) as [target|] eqn:Ht; [|constructor].
  specialize (Hc target). destruct (change target) as [[changed restored]| e | |]; try done; [|constructor].
  subst restored. destruct (Nat.ltb_spec MAX_DEPTH (depth_of changed)).
  - rewrite with_values_same by done. constructor.
  - by constructor; [exists target|].
Qed.

Lemma set_value_wrote h key v d : wrote d h (set_value h key v d).
Proof.
  apply write_wrote. intros [| | | | |entries]; try done.
  destruct (map_get key entries) eqn:Hg; f_equal; [by apply map_insert_twice|by apply map_remove_new].
Qed.

Lemma append_value_wrote h v d : wrote d h (append_value h v d).
Proof. apply write_wrote. intros [| | | |items|]; try done. by rewrite removelast_snoc. Qed.

Lemma set_at_wrote h index v d : wrote d h (set_at h index v d).
Proof.
  apply write_wrote. intros [| | | |items|]; try done.
  destruct (position items index) as [slot|?| |] eqn:Hp; cbn [mbind res_bind]; try done;
    [|unfold position in Hp; by destruct (_ && _)..].
  apply position_Ok in Hp as (-> & ? & ?).
  destruct (lookup_lt_is_Some_2 items (Z.to_nat index)) as [previous Hprev]; [lia|].
  rewrite Hprev. cbn. f_equal. rewrite list_insert_insert_eq. by apply list_insert_id.
Qed.
#[local] Hint Resolve set_value_wrote append_value_wrote set_at_wrote : core.

(** A write ends without a panic; one that fails leaves the table as it was. *)
Theorem failed_write_keeps h key index v d d' e :
  set_value h key v d = (d', e) ∨ append_value h v d = (d', e) ∨ set_at h index v d = (d', e) →
  e = Ok tt ∨ (∃ f, e = Err f) ∧ d' = d.
Proof.
  intros H. assert (wrote d h (d', e)) as Hw by (destruct H as [<-|[<-|<-]]; auto).
  inversion Hw; subst; eauto.
Qed.

(** A member written is the member read back, and no other document changes. *)
Theorem set_get h key v d d' {A} expected (project : Value → option A) :
  set_value h key v d = (d', Ok tt) →
  get_value h key expected project d' = ok_or (WrongKind (PKey key) expected (kind_of v)) (project v) ∧
  ∀ h', h' ≠ h → document h' d' = document h' d.
Proof.
  unfold set_value, write, get_value, document. destruct (values d !! h) as [[| | | | |entries]|] eqn:Ht; try done.
  destruct (_ <? _)%nat; [done|]. intros [= <-]. cbn [values with_values]. split.
  - rewrite lookup_insert_eq. cbn [ok_or mbind res_bind member]. by rewrite map_get_insert.
  - intros h' Hne. by rewrite lookup_insert_ne.
Qed.

(** *** Every document is held, counted, and within the bound *)

Record counted d : Prop := mkCounted {
  counted_held h : is_Some (values d !! h) ↔ is_Some (holders d !! h);
  counted_positive h c : holders d !! h = Some c → 1 <= c;
  counted_fresh h : next_handle d <= h → values d !! h = None;
  counted_depth h v : values d !! h = Some v → ensure_depth v 0 = Ok tt;
}.

Definition empty_documents : Docs := mkDocuments ∅ ∅ 1.

(** An operation of the table, and the table it leaves. *)
Inductive doc_step d : Docs → Prop :=
| step_parse text : doc_step d (parse_document deserialize trailing error_text text d).1
| step_object : doc_step d (object_ d).1
| step_array : doc_step d (array_ d).1
| step_retain h : doc_step d (retain h d).1
| step_release h : doc_step d (release h d).1
| step_set h key v : doc_step d (set_value h key v d).1
| step_append h v : doc_step d (append_value h v d).1
| step_set_at h index v : doc_step d (set_at h index v d).1
| step_clone h : doc_step d (clone_document h d).1
| step_move parent key child : doc_step d (move_into parent key child d).1
| step_move_at parent index child : doc_step d (move_into_at parent index child d).1
| step_append_moved parent child : doc_step d (append_moved parent child d).1
| step_get h key : doc_step d (get_json h key d).1
| step_get_at h index : doc_step d (get_json_at h index d).1.

Lemma depth_ensure v : ∀ depth, (depth + depth_of v <= MAX_DEPTH)%nat → ensure_depth v depth = Ok tt.
Proof.
  induction v as [|b|x|s|items IH|entries IH] using value_induction; intros depth Hd; cbn [ensure_depth depth_of] in *;
    try done.
  - destruct (Nat.leb_spec MAX_DEPTH depth) as [|Hlt]; [lia|].
    induction IH as [|v items Hv Hitems IH]; [done|]. rewrite Hv by lia. cbn [mbind res_bind]. apply IH. lia.
  - destruct (Nat.leb_spec MAX_DEPTH depth) as [|Hlt]; [lia|].
    induction IH as [|[k v] entries Hv Hentries IH]; [done|]. cbn in Hv. rewrite Hv by lia.
    cbn [mbind res_bind]. apply IH. lia.
Qed.

Lemma ensure_weaken v : ∀ depth, ensure_depth v (S depth) = Ok tt → ensure_depth v depth = Ok tt.
Proof.
  induction v as [|b|x|s|items IH|entries IH] using value_induction; intros depth; cbn [ensure_depth]; try done.
  - destruct (Nat.leb_spec MAX_DEPTH (S depth)); [done|]. destruct (Nat.leb_spec MAX_DEPTH depth); [lia|].
    induction IH as [|v items Hv Hitems IH]; [done|]. intros ([] & H1 & H2)%res_bind_Ok.
    rewrite Hv by done. by apply IH.
  - destruct (Nat.leb_spec MAX_DEPTH (S depth)); [done|]. destruct (Nat.leb_spec MAX_DEPTH depth); [lia|].
    induction IH as [|[k v] entries Hv Hentries IH]; [done|]. intros ([] & H1 & H2)%res_bind_Ok.
    cbn in Hv. rewrite Hv by done. by apply IH.
Qed.

Lemma ensure_member entries key v depth : ensure_depth (JObject entries) depth = Ok tt →
  map_get key entries = Some v → ensure_depth v depth = Ok tt.
Proof.
  cbn [ensure_depth]. destruct (_ <=? _)%nat; [done|]. induction entries as [|[k w] entries IH]; cbn [map_get]; [done|].
  intros ([] & H1 & H2)%res_bind_Ok. destruct (String.eqb k key); [intros [= <-]; by apply ensure_weaken|by apply IH].
Qed.

Lemma ensure_element (items : list Value) slot v depth : ensure_depth (JArray items) depth = Ok tt →
  items !! slot = Some v → ensure_depth v depth = Ok tt.
Proof.
  cbn [ensure_depth]. destruct (_ <=? _)%nat; [done|]. revert slot. induction items as [|w items IH]; [done|].
  intros [|slot] ([] & H1 & H2)%res_bind_Ok; [intros [= <-]; by apply ensure_weaken|by apply IH].
Qed.

Lemma empty_counted : counted empty_documents.
Proof.
  split; cbn; intros h.
  - rewrite !lookup_empty. split; intros H; by apply is_Some_None in H.
  - intros c. by rewrite lookup_empty.
  - intros _. apply lookup_empty.
  - intros v. by rewrite lookup_empty.
Qed.

Lemma store_counted v d : ensure_depth v 0 = Ok tt → counted d → counted (store v d).1.
Proof.
  intros Hv [Hh Hp Hf Hd]. split; cbn; intros h.
  - destruct (decide (h = next_handle d)) as [->|Hn].
    + rewrite !lookup_insert_eq. split; eauto.
    + rewrite !lookup_insert_ne by done. apply Hh.
  - intros c. rewrite lookup_insert_Some. intros [[_ <-]|[_ H]]; [lia|eauto].
  - intros H. rewrite lookup_insert_ne by lia. apply Hf. lia.
  - intros w. rewrite lookup_insert_Some. intros [[_ <-]|[_ H]]; eauto.
Qed.

Lemma retain_counted h d : counted d → counted (retain h d).1.
Proof.
  intros [Hh Hp Hf Hd]. unfold retain. destruct (holders d !! h) as [count|] eqn:Hc; [|done].
  split; cbn; [| |done|done]; intros h'.
  - rewrite Hh. destruct (decide (h' = h)) as [->|Hn]; [|by rewrite lookup_insert_ne].
    rewrite lookup_insert_eq, Hc. split; eauto.
  - intros c. rewrite lookup_insert_Some. intros [[<- <-]|[_ H]]; [|eauto]. specialize (Hp h count Hc). lia.
Qed.

Lemma release_counted h d : counted d → counted (release h d).1.
Proof.
  intros [Hh Hp Hf Hd]. unfold release. destruct (holders d !! h) as [count|] eqn:Hc; [|done].
  destruct (count - 1 =? 0) eqn:Hz; split; cbn; try done; intros h'.
  - destruct (decide (h' = h)) as [->|Hn]; [by rewrite !lookup_delete_eq|by rewrite !lookup_delete_ne].
  - intros c. rewrite lookup_delete_Some. intros [_ H]. eauto.
  - intros H. rewrite lookup_delete_None. eauto.
  - intros v. rewrite lookup_delete_Some. intros [_ H]. eauto.
  - rewrite Hh. destruct (decide (h' = h)) as [->|Hn]; [|by rewrite lookup_insert_ne].
    rewrite lookup_insert_eq, Hc. split; eauto.
  - intros c. rewrite lookup_insert_Some. intros [[<- <-]|[_ H]]; [|eauto]. specialize (Hp h count Hc). lia.
Qed.

Lemma wrote_counted d h d' e : wrote d h (d', e) → counted d → counted d'.
Proof.
  intros Hw [Hh Hp Hf Hd]. inversion Hw as [|v [w Hw'] Hv]; subst; [done|]. split; cbn; [|done| |]; intros h'.
  - rewrite <- Hh. destruct (decide (h' = h)) as [->|Hn]; [|by rewrite lookup_insert_ne].
    rewrite lookup_insert_eq, Hw'. split; eauto.
  - intros H. apply lookup_insert_None. split; [eauto|]. intros <-. by rewrite Hf in Hw'.
  - intros u. rewrite lookup_insert_Some. intros [[_ <-]|[_ H]]; [|eauto]. by apply depth_ensure.
Qed.

Lemma move_counted parent child write d : (∀ v d, wrote d parent (write v d)) → counted d →
  counted (move_child parent child write d).1.
Proof.
  intros Hw Hc. unfold move_child. destruct (parent =? child); [done|]. destruct (document child d) as [v|]; [|done].
  specialize (Hw v d). destruct (write v d) as [d' e] eqn:He. apply wrote_counted in Hw; [|done].
  destruct e as [[]| | |]; [by apply release_counted|done..].
Qed.

Lemma store_result_counted (r : outcome Value) d : (∀ v, r = Ok v → ensure_depth v 0 = Ok tt) → counted d →
  counted (store_result r d).1.
Proof. intros Hr Hc. destruct r as [v| | |]; cbn; [|done..]. apply (store_counted v d); auto. Qed.

Lemma step_counted d d' : doc_step d d' → counted d → counted d'.
Proof.
  intros Hs Hc. destruct Hs; try by eapply wrote_counted; [rewrite <- surjective_pairing; auto|].
  - unfold parse_document. destruct (parse _ _ _ text) as [v|?| |] eqn:Hp; cbn; try done.
    apply (store_counted v d); [|done]. by eapply parse_bounded.
  - by apply store_counted.
  - by apply store_counted.
  - by apply retain_counted.
  - by apply release_counted.
  - unfold clone_document, document. destruct (values d !! h) as [v|] eqn:Hv; [|done]. cbn.
    apply (store_counted v d); [|done]. by eapply counted_depth.
  - apply move_counted; auto.
  - apply move_counted; auto.
  - apply move_counted; auto.
  - apply store_result_counted; [|done]. intros v. unfold get_value.
    destruct (values d !! h) as [w|] eqn:Hv; [|done]. apply counted_depth in Hv; [|done]. cbn.
    destruct w as [| | | | |entries]; cbn; try done. destruct (map_get key entries) eqn:Hg; [|done]. cbn.
    intros [= <-]. by eapply ensure_member.
  - apply store_result_counted; [|done]. intros v. unfold element.
    destruct (values d !! h) as [w|] eqn:Hv; [|done]. apply counted_depth in Hv; [|done]. cbn.
    destruct w as [| | | |items|]; cbn; try done. intros (slot & _ & H)%res_bind_Ok.
    destruct (items !! slot) eqn:Hi; [|done]. injection H as <-. by eapply ensure_element.
Qed.

(** C38: In every table the operations reach, exactly the documents with a holder
    are there, each count is at least one, no document stands at a handle yet
    to be given out, and every document passes [stringify]'s depth check. *)
Theorem reachable_counted d : rtc doc_step empty_documents d → counted d.
Proof.
  intros H. assert (∀ a b, rtc doc_step a b → counted a → counted b) as Hr.
  { induction 1 as [|a b c Hs _ IH]; [done|]. intros Ha. eauto using step_counted. }
  eapply Hr, empty_counted. done.
Qed.

(** Stringifying a live document of such a table fails only as the writer
    fails, or because the text is over 8 MiB. *)
Theorem live_stringify d h v : rtc doc_step empty_documents d → document h d = Some v →
  stringify_document to_string h d =
    lift_parse (output ← to_string v;
                if MAX_BYTES <? str_len output then Err "JSON output exceeds 8 MiB" else Ok output) Stringify.
Proof.
  intros Hr%reachable_counted Hv. unfold stringify_document, stringify. rewrite Hv. cbn [ok_or mbind res_bind].
  by rewrite (counted_depth d Hr h v Hv).
Qed.

(** *** Holders *)

Fixpoint times {A} (n : nat) (f : A → A) (a : A) : A :=
  match n with O => a | S n => f (times n f a) end.

Lemma release_n n : ∀ d h c, holders d !! h = Some c → Z.of_nat n < c →
  let d' := times n (fun d => (release h d).1) d in
  holders d' !! h = Some (c - Z.of_nat n) ∧ values d' = values d ∧ next_handle d' = next_handle d.
Proof.
  induction n as [|n IH]; intros d h c Hc Hn; cbn [times].
  - cbn. split; [|done]. rewrite Hc. f_equal. lia.
  - destruct (IH d h c) as (H1 & H2 & H3); [done|lia|]. revert H1 H2 H3.
    generalize (times n (fun d => (release h d).1) d). intros d' H1 H2 H3. unfold release. rewrite H1.
    destruct (Z.eqb_spec (c - Z.of_nat n - 1) 0); [lia|]. cbn. rewrite lookup_insert_eq.
    split; [f_equal; lia|done].
Qed.

Lemma retain_n n d h c : holders d !! h = Some c →
  let d' := times n (fun d => (retain h d).1) d in
  holders d' !! h = Some (c + Z.of_nat n) ∧ values d' = values d ∧ next_handle d' = next_handle d.
Proof.
  intros Hc. induction n as [|n (H1 & H2 & H3)]; cbn [times].
  - cbn. split; [|done]. rewrite Hc. f_equal. lia.
  - revert H1 H2 H3. generalize (times n (fun d => (retain h d).1) d).
    intros d' H1 H2 H3. unfold retain. rewrite H1. cbn. rewrite lookup_insert_eq.
    split; [f_equal; lia|done].
Qed.

(** A document lives until it is released once for its [store] and once for
    each [retain]: no release before the last frees it, the last does, and the
    next finds it gone. *)
Theorem freed_at_last_release v d n k : (k <= n)%nat →
  let '(d1, h) := store v d in
  let held := times n (fun d => (retain h d).1) d1 in
  let after := times k (fun d => (release h d).1) held in
  document h after = Some v ∧ (release h after).2 = true ∧
  (k = n → document h (release h after).1 = None ∧ (release h (release h after).1).2 = false).
Proof.
  intros Hk. unfold store. cbn [fst snd]. set (h := next_handle d). set (d1 := mkDocuments _ _ _).
  destruct (retain_n n d1 h 1) as (H1 & H2 & _); [apply lookup_insert_eq|].
  set (held := times n _ d1) in *. destruct (release_n k held h (1 + Z.of_nat n)) as (H3 & H4 & _); [done|lia|].
  set (after := times k _ held) in *. unfold document. split; [|split].
  - rewrite H4, H2. apply lookup_insert_eq.
  - unfold release. rewrite H3. by destruct (_ =? _).
  - intros ->. unfold release. rewrite H3. replace (1 + Z.of_nat n - Z.of_nat n - 1 =? 0) with true by lia. cbn.
    by rewrite !lookup_delete_eq.
Qed.


(** *** Moves *)

(** An array whose depth is over the bound takes no element. *)
Lemma append_frozen h d items v : document h d = Some (JArray items) → (MAX_DEPTH < depth_of (JArray items))%nat →
  append_value h v d = (d, Err Depth).
Proof.
  unfold document, append_value, write. intros Hh Hd. rewrite Hh, removelast_snoc, with_values_same by done.
  assert (depth_of (JArray items) <= depth_of (JArray (items ++ [v])%list))%nat as Hle.
  { clear. cbn [depth_of]. apply le_n_S. induction items as [|w items IH]; cbn; [lia|]. lia. }
  by destruct (Nat.ltb_spec MAX_DEPTH (depth_of (JArray (items ++ [v])%list))); [|lia].
Qed.

(** A child with one holder that is moved under a key stands there and no
    longer has a document of its own; a move that fails moves nothing. *)
Theorem move_moves parent key child d d' e : move_into parent key child d = (d', e) →
  match e with
  | Ok _ =>
      ∃ v, parent ≠ child ∧ document child d = Some v ∧ get_value parent key "Json" Some d' = Ok v ∧
      (holders d !! child = Some 1 → document child d' = None)
  | Err _ => d' = d
  | Panic _ | Fuel => False
  end.
Proof.
  unfold move_into, move_child. destruct (Z.eqb_spec parent child) as [|Hn]; [by intros [= <- <-]|].
  destruct (document child d) as [v|] eqn:Hv; [|by intros [= <- <-]].
  destruct (set_value parent key v d) as [d1 r] eqn:Hs. pose proof (set_value_wrote parent key v d) as Hw.
  rewrite Hs in Hw. inversion Hw as [|w Hp _]; subst; intros [= <- <-]; [done|].
  exists v. apply (set_get parent key v d _ "Json" Some) in Hs as [Hg _]. split; [done|]. split; [done|]. split.
  - destruct (release child _) as [d2 b] eqn:Hr. unfold release in Hr. revert Hg Hr. unfold get_value.
    destruct (holders _ !! child) as [c|]; [|by intros ? [= <- <-]].
    destruct (c - 1 =? 0); intros Hg [= <- <-]; cbn [fst values] in *; [|done].
    by rewrite lookup_delete_ne.
  - intros H1. unfold release. cbn [with_values holders]. rewrite H1. cbn. unfold document. cbn.
    apply lookup_delete_eq.
Qed.
End Table.

(** ** What the code does at its edges *)

Section Edges.
#[local] Abbreviation Docs := (@Documents Z).

(** Arrays nested in one another, around a number. *)
Fixpoint nested (n : nat) : Events Z :=
  match n with O => ENumber (Some 7) | S n => ESeq [nested n] None end.

Definition deserialized (_ : string) : Events Z := nested 64.
Definition ends (_ : string) : option (bool * string) := None.
Definition bare (_ message : string) : string := message.

Definition with_nested : Docs := (parse_document deserialized ends bare "" (mkDocuments ∅ ∅ 1)).1.

(** A text of 64 arrays around a number parses, and its document passes
    [stringify]'s check; but [depth_of] counts the number as a level, so no
    element can be appended, whatever its value. *)
Theorem parsed_then_frozen :
  (parse_document deserialized ends bare "" (mkDocuments ∅ ∅ 1)).2 = Ok 1 ∧
  (fun v => ensure_depth v 0) <$> document 1 with_nested = Some (Ok tt) ∧
  ∀ v, append_value 1 v with_nested = (with_nested, Err Depth).
Proof.
  split; [vm_compute; reflexivity|]. split; [vm_compute; reflexivity|]. intros v.
  assert (∃ items, document 1 with_nested = Some (JArray items) ∧ MAX_DEPTH < depth_of (JArray items))%nat
    as (items & Hi & Hd) by (eexists; split; [reflexivity|]; apply Nat.ltb_lt; vm_compute; reflexivity).
  by apply (append_frozen _ _ items).
Qed.

Definition two_docs : Docs :=
  let d := (object_ (mkDocuments ∅ ∅ 1)).1 in
  (retain 2 (object_ d).1).1.

(** A child with a second holder keeps its document after a move: its value
    then lives in two places. *)
Theorem retained_child_survives :
  ∃ d, move_into 1 "a" 2 two_docs = (d, Ok tt) ∧
  get_value 1 "a" "Json" Some d = Ok (JObject []) ∧ document 2 d = Some (JObject []).
Proof. eexists. split; [vm_compute; reflexivity|]. split; vm_compute; reflexivity. Qed.

Lemma failed_write_keeps_witness :
  ∃ e, set_value 1 "a" JNull (mkDocuments ∅ ∅ 1 : Docs) = (mkDocuments ∅ ∅ 1, e) ∧ (∃ f, e = Err f).
Proof.
  eexists. split; [reflexivity|].
  destruct (failed_write_keeps 1 "a" 0 JNull (mkDocuments ∅ ∅ 1 : Docs) (mkDocuments ∅ ∅ 1) (Err InvalidHandle))
    as [H|[H _]]; [by left|discriminate H|exact H].
Defined.

Lemma parse_bounded_witness :
  ∃ v : JValue Z, parse deserialized ends bare "" = Ok v ∧ nests MAX_DEPTH v ∧ ensure_depth v 0 = Ok tt.
Proof.
  eexists. split; [vm_compute; reflexivity|]. apply (parse_bounded deserialized ends bare ""). vm_compute. reflexivity.
Defined.

Lemma reachable_counted_witness : counted two_docs.
Proof.
  apply (reachable_counted deserialized ends bare). unfold two_docs.
  eapply rtc_l; [apply step_object|]. eapply rtc_l; [apply step_object|]. eapply rtc_l; [apply step_retain|].
  apply rtc_refl.
Defined.

Lemma live_stringify_witness :
  stringify_document (fun _ => Ok "{}") 2 two_docs = Ok "{}".
Proof.
  rewrite (live_stringify deserialized ends bare _ two_docs 2 (JObject [])); [reflexivity| |reflexivity].
  eapply rtc_l; [apply step_object|]. eapply rtc_l; [apply step_object|]. eapply rtc_l; [apply step_retain|].
  apply rtc_refl.
Defined.

Lemma freed_at_last_release_witness : (2 <= 2)%nat ∧
  document 1 (release 1 (times 2 (fun d => (release 1 d).1) (times 2 (fun d => (retain 1 d).1)
    (store JNull (mkDocuments ∅ ∅ 1 : Docs)).1))).1 = None.
Proof.
  split; [lia|]. pose proof (freed_at_last_release (JNull : JValue Z) (mkDocuments ∅ ∅ 1) 2 2) as H.
  destruct H as (_ & _ & H); [lia|]. exact (proj1 (H eq_refl)).
Defined.

Lemma move_moves_witness :
  ∃ d, move_into 1 "a" 2 (object_ (object_ (mkDocuments ∅ ∅ 1 : Docs)).1).1 = (d, Ok tt) ∧ document 2 d = None.
Proof.
  set (d := (object_ (object_ (mkDocuments ∅ ∅ 1 : Docs)).1).1).
  exists (move_into 1 "a" 2 d).1. split; [vm_compute; reflexivity|].
  destruct (move_moves 1 "a" 2 d (move_into 1 "a" 2 d).1 (Ok tt)) as (v & _ & _ & _ & H); [vm_compute; reflexivity|].
  exact (H eq_refl).
Defined.
End Edges.
