(* ===== verification/Sync.v ===== *)
(** * Sync: groups, barriers, semaphores and mutexes

    [src/libraries/bn_stdlib/src/dispatch_sync.rs], each primitive as a monitor:
    [begin] is what an operation does before it waits, [proceed] the condition
    of its loop, [expire] what it does when the deadline has passed. *)

From S2P Require Import Prelude Failure Monitor.

#[local] Open Scope string_scope.
#[local] Open Scope Z_scope.

(** Waits start by refusing a timeout out of bounds; the wait itself keeps the
    timeout for its failure. *)
Definition start_wait {S L R} (timeout_ms : Z) (s : S) (l : L) : S * (dresult R + L) * Wake :=
  match deadline timeout_ms with
  | Ok _ => (s, inr l, WakeNobody)
  | Err e => (s, inl (Err e), WakeNobody)
  | Panic w => (s, inl (Panic w), WakeNobody)
  | Fuel => (s, inl Fuel, WakeNobody)
  end.

Definition timed_out {S R} (timeout_ms : Z) (s : S) : S * dresult R * Wake :=
  (s, Err (Timeout timeout_ms), WakeNobody).

(** ** [DispatchGroup] *)

Module Group.
Inductive GroupOp := Enter | Leave | Wait (timeout_ms : Z).

Definition leave (count : Z) : Z * dresult unit * Wake :=
  if count =? 0 then (count, Err GroupUnderflow, WakeNobody) else (count - 1, Ok tt, WakeAll).

Definition begin (t : ThreadId) (op : GroupOp) (count : Z) : Z * (dresult unit + Z) * Wake :=
  match op with
  | Enter => (count + 1, inl (Ok tt), WakeNobody)
  | Leave => let '(count, r, wake) := leave count in (count, inl r, wake)
  | Wait timeout_ms => start_wait timeout_ms count timeout_ms
  end.

Definition proceed (t : ThreadId) (timeout_ms : Z) (count : Z) : option (Z * dresult unit * Wake) :=
  if negb (count =? 0) then None else Some (count, Ok tt, WakeNobody).

Definition monitor : Monitor := mkMonitor begin proceed timed_out.

Definition new : Sys monitor := mkSys (M := monitor) 0 ∅.
End Group.

(** ** [Barrier] *)

Module Barrier.
Record BarrierState := mkBarrierState {
  arrived : Z;
  generation : Z;
  broken_generation : option Z;
}.

(** The generation a thread arrived in, and its timeout. *)
Definition Waiting : Type := Z * Z.

Inductive BarrierOp := Wait (timeout_ms : Z).

Definition new (parties : Z) : dresult Z :=
  count "number of barrier parties" parties worker_count_max.

Section Parties.
Variable parties : Z.

Definition arrive (timeout_ms : Z) (s : BarrierState)
    : BarrierState * (dresult bool + Waiting) * Wake :=
  if arrived s + 1 =? parties then
    (mkBarrierState 0 (generation s + 1) (broken_generation s), inl (Ok true), WakeAll)
  else
    (mkBarrierState (arrived s + 1) (generation s) (broken_generation s),
     inr (generation s, timeout_ms), WakeNobody).

Definition begin (t : ThreadId) (op : BarrierOp) (s : BarrierState)
    : BarrierState * (dresult bool + Waiting) * Wake :=
  let 'Wait timeout_ms := op in
  match deadline timeout_ms with
  | Ok _ => arrive timeout_ms s
  | Err e => (s, inl (Err e), WakeNobody)
  | Panic w => (s, inl (Panic w), WakeNobody)
  | Fuel => (s, inl Fuel, WakeNobody)
  end.

Definition proceed (t : ThreadId) (l : Waiting) (s : BarrierState)
    : option (BarrierState * dresult bool * Wake) :=
  if l.1 =? generation s then None
  else Some (s, (if bool_decide (broken_generation s = Some l.1) then Err (Timeout l.2)
                 else Ok false), WakeNobody).

(** The first thread to time out breaks its generation. *)
Definition expire (l : Waiting) (s : BarrierState) : BarrierState * dresult bool * Wake :=
  (mkBarrierState 0 (generation s + 1) (Some l.1), Err (Timeout l.2), WakeAll).

Definition monitor : Monitor := mkMonitor begin proceed expire.

Definition start : Sys monitor := mkSys (M := monitor) (mkBarrierState 0 0 None) ∅.
End Parties.
End Barrier.

(** ** [DispatchSemaphore] *)

Module Semaphore.
Record SemaphoreState := mkSemaphoreState { initial : Z; available : Z }.

Inductive SemaphoreOp := Acquire (timeout_ms : Z) | Release.

Definition new (permits : Z) : dresult SemaphoreState :=
  permits ← count "number of semaphore permits" permits pending_tickets_max;
  Ok (mkSemaphoreState permits permits).

Definition release (s : SemaphoreState) : SemaphoreState * dresult unit * Wake :=
  if available s =? initial s then (s, Err (ReleaseWithEveryPermit (initial s)), WakeNobody)
  else (mkSemaphoreState (initial s) (available s + 1), Ok tt, WakeOne).

Definition begin (t : ThreadId) (op : SemaphoreOp) (s : SemaphoreState)
    : SemaphoreState * (dresult unit + Z) * Wake :=
  match op with
  | Acquire timeout_ms => start_wait timeout_ms s timeout_ms
  | Release => let '(s, r, wake) := release s in (s, inl r, wake)
  end.

Definition proceed (t : ThreadId) (timeout_ms : Z) (s : SemaphoreState)
    : option (SemaphoreState * dresult unit * Wake) :=
  if available s =? 0 then None
  else Some (mkSemaphoreState (initial s) (available s - 1), Ok tt, WakeNobody).

Definition monitor : Monitor := mkMonitor begin proceed timed_out.
End Semaphore.

(** ** [DispatchMutex] *)

Module Mutex.
Inductive MutexOp := Lock (timeout_ms : Z) | Unlock | UnlockIfHeldBy (thread : ThreadId).

Definition unlock (t : ThreadId) (locked : option ThreadId) : option ThreadId * dresult unit * Wake :=
  if bool_decide (locked = Some t) then (None, Ok tt, WakeOne) else (locked, Err NotOwner, WakeNobody).

Definition unlock_if_held_by (thread : ThreadId) (locked : option ThreadId) : option ThreadId * Wake :=
  if bool_decide (locked = Some thread) then (None, WakeOne) else (locked, WakeNobody).

Definition begin (t : ThreadId) (op : MutexOp) (locked : option ThreadId)
    : option ThreadId * (dresult unit + Z) * Wake :=
  match op with
  | Lock timeout_ms => start_wait timeout_ms locked timeout_ms
  | Unlock => let '(locked, r, wake) := unlock t locked in (locked, inl r, wake)
  | UnlockIfHeldBy thread =>
      let '(locked, wake) := unlock_if_held_by thread locked in (locked, inl (Ok tt), wake)
  end.

Definition proceed (t : ThreadId) (timeout_ms : Z) (locked : option ThreadId)
    : option (option ThreadId * dresult unit * Wake) :=
  match locked with
  | Some _ => None
  | None => Some (Some t, Ok tt, WakeNobody)
  end.

Definition monitor : Monitor := mkMonitor begin proceed timed_out.

Definition new : Sys monitor := mkSys (M := monitor) None ∅.
End Mutex.

(** ** Proofs *)

(** Opens a step of one of the four monitors. *)
Ltac mstep_cases H :=
  inversion H as
    [t op s ws s' r wake ws' Hthread Hbegin Hwake|t op s ws s' l wake ws' Hthread Hbegin Hwake
    |t l s ws s' r wake ws' Hthread Hgo Hwake|t l s ws s' r wake ws' Hthread Hstay Hgive Hwake
    |t l s ws Hthread Hstay|t l s ws Hthread]; subst; clear H; cbn in *.

Section Waits.
Context {S R L : Type}.

Lemma start_wait_spec (timeout_ms : Z) (s : S) (l : L) s' (o : dresult R + L) wake :
  start_wait timeout_ms s l = (s', o, wake) →
  s' = s ∧ wake = WakeNobody ∧ (o = inr l ∨ ∃ e, o = inl (Err e)).
Proof.
  unfold start_wait, deadline. destruct (in_range _ _ _); intros [= <- <- <-]; eauto.
Qed.

Lemma start_wait_exact (timeout_ms : Z) (s : S) (l : L) s' (o : dresult R + L) wake :
  start_wait timeout_ms s l = (s', o, wake) →
  s' = s ∧ wake = WakeNobody ∧
  (o = inr l ∧ deadline timeout_ms = Ok tt ∨ ∃ e, o = inl (Err e) ∧ deadline timeout_ms = Err e).
Proof.
  unfold start_wait, deadline. destruct (in_range _ _ _); intros [= <- <- <-]; repeat split; [by left|right; by eexists].
Qed.
End Waits.

(** How many events satisfy a test. *)
Definition total {A} (p : A → bool) (l : list A) : Z := Z.of_nat (length (List.filter p l)).

Lemma total_snoc {A} (p : A → bool) l x : total p (l ++ [x]) = total p l + (if p x then 1 else 0).
Proof. unfold total. rewrite List.filter_app, length_app. simpl. destruct (p x); simpl; lia. Qed.

(** A property of each event and the events before it. *)
Lemma snoc_split {A} (P : list A → A → Prop) es e :
  (∀ es1 e' es2, es = (es1 ++ e' :: es2)%list → P es1 e') → P es e →
  ∀ es1 e' es2, (es ++ [e])%list = (es1 ++ e' :: es2)%list → P es1 e'.
Proof.
  intros Hall He es1 e' es2 Heq. destruct es2 as [|e2 es2 _] using rev_ind.
  - by apply app_inj_tail in Heq as [<- <-].
  - rewrite app_comm_cons, app_assoc in Heq. apply app_inj_tail in Heq as [Heq _]. by apply (Hall es1 e' es2).
Qed.

Section SemaphoreRuns.
Import Semaphore.

Definition acquired (e : Event monitor) : bool :=
  match e with Left _ _ (Ok _) => true | _ => false end.
Definition released (e : Event monitor) : bool :=
  match e with Called _ Release (Some (Ok _)) => true | _ => false end.

Definition semaphore_ok (permits : Z) (es : list (Event monitor)) (x : Sys monitor) : Prop :=
  initial (state x) = permits
  ∧ available (state x) + total acquired es - total released es = permits
  ∧ 0 ≤ available (state x) ≤ permits
  ∧ (asleep (waiters x) → available (state x) ≤ Z.of_nat (awake_count (waiters x))).

#[local] Ltac finish := split; [lia|]; split; [lia|]; split; [lia|].

Lemma semaphore_step permits es x e y :
  semaphore_ok permits es x → mstep monitor x e y → semaphore_ok permits (es ++ [e])%list y.
Proof.
  intros (Hi & Hc & Hb & Hw) Hs. unfold semaphore_ok, awake_count in *. rewrite !total_snoc.
  mstep_cases Hs.
  - destruct op as [ms|]; cbn in Hbegin.
    + apply start_wait_spec in Hbegin as (-> & -> & [?|[e [= ->]]]); [done|].
      inversion Hwake; subst. cbn. by finish.
    + unfold release in Hbegin. destruct (Z.eqb_spec (available s) (initial s)) as [E|E];
        injection Hbegin as <- <- <-; cbn.
      * inversion Hwake; subst. by finish.
      * finish. intros Ha.
        destruct (notified_one_count _ _ Hwake Ha) as [Hcount Ha']. unfold awake_count in Hcount.
        specialize (Hw Ha'). lia.
  - destruct op as [ms|]; cbn in Hbegin.
    + apply start_wait_spec in Hbegin as (-> & -> & [[= ->]|[e ?]]); [|done].
      inversion Hwake; subst. finish. intros Ha.
      rewrite count_if_insert by done. cbn.
      apply asleep_insert in Ha as [?|Ha]; [done|]. specialize (Hw Ha). lia.
    + destruct (release s) as [[? ?] ?]. discriminate.
  - unfold proceed in Hgo. destruct (Z.eqb_spec (available s) 0); [done|]. injection Hgo as <- <- <-.
    inversion Hwake; subst. cbn. finish. intros Ha%asleep_delete.
    specialize (Hw Ha). pose proof (count_if_delete is_awake ws t _ Hthread). cbn in *. lia.
  - unfold proceed in Hstay. destruct (Z.eqb_spec (available s) 0); [|done]. injection Hgive as <- <- <-.
    inversion Hwake; subst. cbn. finish. intros _. lia.
  - unfold proceed in Hstay. destruct (Z.eqb_spec (available s) 0); [|done]. cbn. finish. intros _. lia.
  - finish. intros _.
    pose proof (count_if_update is_awake ws t _ (Awake l) Hthread). cbn in *.
    assert (asleep ws) as Ha by by exists t, l. specialize (Hw Ha). lia.
Qed.
End SemaphoreRuns.

(** C18: Whatever threads do with a semaphore of [permits] permits, and in whatever
    order they run, the permits taken and not given back never exceed
    [permits], the count never leaves its bounds, and no wake-up is lost: while
    a thread sleeps, each available permit has a thread awake that is about to
    take it. *)
Theorem semaphore_correct permits s0 es x :
  Semaphore.new permits = Ok s0 → run Semaphore.monitor (mkSys (M := Semaphore.monitor) s0 ∅) es x →
  Semaphore.available (state x) = permits - (total acquired es - total released es)
  ∧ 0 ≤ total acquired es - total released es ≤ permits
  ∧ (asleep (waiters x) → Semaphore.available (state x) ≤ Z.of_nat (awake_count (waiters x))).
Proof.
  intros Hnew Hrun. unfold Semaphore.new in Hnew. apply res_bind_Ok in Hnew as (n & [-> Hn]%count_Ok & [= <-]).
  assert (semaphore_ok permits es x) as (Hi & Hc & Hb & Hw).
  { refine (run_history _ (semaphore_ok permits) _ es x _ _ Hrun); [|split; [done|]].
    - apply semaphore_step.
    - unfold total. cbn. split; [lia|]. split; [lia|]. intros (t & l & Hl). by rewrite lookup_empty in Hl. }
  split; [lia|]. split; [lia|done].
Qed.

(** ** Mutexes *)

Section MutexRuns.
Import Mutex.

(** The specification: who holds the lock after the events, from what the
    threads were told. *)
Definition holder_step (holder : option ThreadId) (e : Event monitor) : option ThreadId :=
  match e with
  | Left t _ (Ok _) => Some t
  | Called t Unlock (Some (Ok _)) => None
  | Called _ (UnlockIfHeldBy thread) _ =>
      if bool_decide (holder = Some thread) then None else holder
  | _ => holder
  end.
Definition holder (es : list (Event monitor)) : option ThreadId := fold_left holder_step es None.

(** An event the lock's specification allows. *)
Definition allowed (h : option ThreadId) (e : Event monitor) : Prop :=
  match e with
  | Called _ (Lock ms) None => deadline ms = Ok tt
  | Called _ (Lock ms) (Some r) => ∃ f, r = Err f ∧ deadline ms = Err f
  | Called t Unlock r => r = Some (if bool_decide (h = Some t) then Ok tt else Err NotOwner)
  | Called _ (UnlockIfHeldBy _) r => r = Some (Ok tt)
  | Left _ _ r => h = None ∧ r = Ok tt
  | GaveUp _ ms r => h ≠ None ∧ r = Err (Timeout ms)
  | Silent => True
  end.

Definition mutex_ok (es : list (Event monitor)) (x : Sys monitor) : Prop :=
  state x = holder es
  ∧ (∀ es1 e es2, es = (es1 ++ e :: es2)%list → allowed (holder es1) e)
  ∧ (asleep (waiters x) → state x = None → (0 < awake_count (waiters x))%nat).

Lemma holder_snoc es e : holder (es ++ [e]) = holder_step (holder es) e.
Proof. unfold holder. by rewrite fold_left_app. Qed.

Lemma mutex_step es x e y : mutex_ok es x → mstep monitor x e y → mutex_ok (es ++ [e])%list y.
Proof.
  intros (Hs & Hall & Hw) Hstep. unfold mutex_ok. rewrite holder_snoc. cut (allowed (holder es) e ∧
    state y = holder_step (holder es) e ∧ (asleep (waiters y) → state y = None → (0 < awake_count (waiters y))%nat)).
  { intros (H1 & H2 & H3). split; [done|]. split; [|done].
    by apply (snoc_split (fun es1 e => allowed (holder es1) e)). }
  rewrite <- Hs. clear Hs Hall es. unfold awake_count in *. mstep_cases Hstep.
  - destruct op as [ms| |thread]; cbn in Hbegin.
    + apply start_wait_exact in Hbegin as (-> & -> & [[? _]|(e & [= ->] & He)]); [done|].
      inversion Hwake; subst. split; [by exists e|done].
    + unfold unlock in Hbegin. case_bool_decide; injection Hbegin as <- <- <-; cbn.
      * split; [done|]. split; [done|]. intros Ha _.
        destruct (notified_one_count _ _ Hwake Ha) as [Hc _]. unfold awake_count in Hc. lia.
      * inversion Hwake; subst. done.
    + unfold unlock_if_held_by in Hbegin. case_bool_decide; injection Hbegin as <- <- <-; cbn.
      * split; [done|]. split; [done|]. intros Ha _.
        destruct (notified_one_count _ _ Hwake Ha) as [Hc _]. unfold awake_count in Hc. lia.
      * inversion Hwake; subst. done.
  - destruct op as [ms| |thread]; cbn in Hbegin.
    + apply start_wait_exact in Hbegin as (-> & -> & [[[= ->] He]|(e & ? & _)]); [|done].
      inversion Hwake; subst. split; [done|]. split; [done|]. intros _ _.
      rewrite count_if_insert by done. cbn. lia.
    + destruct (unlock _ _) as [[? ?] ?]. discriminate.
    + destruct (unlock_if_held_by _ _) as [? ?]. discriminate.
  - destruct s; [done|]. injection Hgo as <- <- <-. by inversion Hwake; subst.
  - destruct s; [|done]. injection Hgive as <- <- <-. by inversion Hwake; subst.
  - destruct s; [|done]. done.
  - split; [done|]. split; [done|]. intros _ _.
    pose proof (count_if_update is_awake ws t _ (Awake l) Hthread). cbn in *. lia.
Qed.
End MutexRuns.

(** C20: The mutex is a lock, whatever threads do with it and in whatever order
    they run.  A [Lock] whose timeout is out of bounds is refused, any other one
    succeeds when nobody holds the lock and gives up, with its timeout, only
    while somebody does; [Unlock] succeeds for the holder and tells everyone else
    [NotOwner]; the state is the holder according to what the threads were told;
    and no wake-up is lost: while the lock is free no thread sleeps without
    another one awake to take it. *)
Theorem mutex_correct es x : run Mutex.monitor Mutex.new es x →
  state x = holder es
  ∧ (∀ es1 e es2, es = (es1 ++ e :: es2)%list → allowed (holder es1) e)
  ∧ (asleep (waiters x) → state x = None → (0 < awake_count (waiters x))%nat).
Proof.
  intros Hrun. refine (run_history _ mutex_ok _ es x mutex_step _ Hrun). split; [done|]. split.
  - intros es1 e es2 Heq. by destruct es1.
  - intros (t & l & Hl). cbn in Hl. by rewrite lookup_empty in Hl.
Qed.

(** ** Groups *)

Section GroupRuns.
Import Group.

Definition entered (e : Event monitor) : bool :=
  match e with Called _ Enter (Some _) => true | _ => false end.
Definition left_ (e : Event monitor) : bool :=
  match e with Called _ Leave (Some (Ok _)) => true | _ => false end.

(** A wait that succeeds finds everyone gone; a refused [Leave] too. *)
Definition balanced (e : Event monitor) : bool :=
  match e with
  | Left _ _ (Ok _) => true
  | Called _ Leave (Some (Err _)) => true
  | _ => false
  end.

Definition group_ok (es : list (Event monitor)) (x : Sys monitor) : Prop :=
  state x = total entered es - total left_ es
  ∧ 0 ≤ state x
  ∧ (asleep (waiters x) → 0 < state x)
  ∧ ∀ es1 e es2, es = (es1 ++ e :: es2)%list → balanced e = true → total entered es1 = total left_ es1.

Lemma group_step es x e y : group_ok es x → mstep monitor x e y → group_ok (es ++ [e])%list y.
Proof.
  intros (Hc & Hpos & Hw & Hall) Hs. unfold group_ok. rewrite !total_snoc.
  cut (state y = total entered es + (if entered e then 1 else 0) - (total left_ es + (if left_ e then 1 else 0))
       ∧ 0 ≤ state y ∧ (asleep (waiters y) → 0 < state y) ∧ (balanced e = true → state x = 0)).
  { intros (H1 & H2 & H3 & H4). split; [done|]. split; [done|]. split; [done|].
    apply (snoc_split (fun es1 e => balanced e = true → total entered es1 = total left_ es1)); [done|].
    intros He. specialize (H4 He). lia. }
  clear Hall. mstep_cases Hs.
  - destruct op as [| |ms]; cbn in Hbegin.
    + injection Hbegin as <- <- <-. inversion Hwake; subst. cbn. split; [lia|]. split; [lia|].
      split; [lia|done].
    + unfold leave in Hbegin. destruct (Z.eqb_spec s 0) as [->|E]; injection Hbegin as <- <- <-;
        inversion Hwake; subst; cbn; (split; [lia|]; split; [lia|]); [by split|].
      split; [|done]. intros Ha. by apply not_asleep_all in Ha.
    + apply start_wait_spec in Hbegin as (-> & -> & [?|[e [= ->]]]); [done|].
      inversion Hwake; subst. cbn. split; [lia|]. split; [lia|]. by split.
  - destruct op as [| |ms]; cbn in Hbegin; [discriminate| |].
    + destruct (leave s) as [[? ?] ?]. discriminate.
    + apply start_wait_spec in Hbegin as (-> & -> & [[= ->]|[e ?]]); [|done].
      inversion Hwake; subst. split; [lia|]. split; [lia|]. split; [|done].
      intros Ha. apply asleep_insert in Ha as [?|Ha]; [done|]. auto.
  - unfold proceed in Hgo. destruct (Z.eqb_spec s 0) as [->|]; [|done]. injection Hgo as <- <- <-.
    inversion Hwake; subst. split; [lia|]. split; [lia|]. split; [|done]. intros Ha%asleep_delete. auto.
  - unfold proceed in Hstay. destruct (Z.eqb_spec s 0); [done|]. injection Hgive as <- <- <-.
    inversion Hwake; subst. split; [lia|]. split; [lia|]. split; [lia|done].
  - unfold proceed in Hstay. destruct (Z.eqb_spec s 0); [done|]. split; [lia|]. split; [lia|]. split; [lia|done].
  - split; [lia|]. split; [lia|]. split; [|done]. intros _. apply Hw. by exists t, l.
Qed.
End GroupRuns.

(** The count of a group is the entries less the departures and never negative;
    a [Wait] succeeds, and a [Leave] is refused, only when they are equal; and
    no thread sleeps on an empty group. *)
Theorem group_correct es x : run Group.monitor Group.new es x →
  state x = total entered es - total left_ es
  ∧ 0 ≤ state x
  ∧ (asleep (waiters x) → 0 < state x)
  ∧ ∀ es1 e es2, es = (es1 ++ e :: es2)%list → balanced e = true → total entered es1 = total left_ es1.
Proof.
  intros Hrun. refine (run_history _ group_ok _ es x group_step _ Hrun).
  split; [done|]. split; [done|]. split.
  - intros (t & l & Hl). cbn in Hl. by rewrite lookup_empty in Hl.
  - intros es1 e es2 Heq. by destruct es1.
Qed.

(** ** Barriers *)

Section BarrierRuns.
Import Barrier.
Variable parties : Z.

(** The threads of a generation that have not returned. *)
Definition waiting_in (g : Z) (ws : gmap ThreadId (Waiter Waiting)) : Z :=
  Z.of_nat (count_if (fun w => (local_of w).1 =? g) ws).

Record barrier_ok (x : Sys (monitor parties)) : Prop := {
  barrier_arrived : arrived (state x) = waiting_in (generation (state x)) (waiters x);
  barrier_bound : arrived (state x) < parties;
  barrier_past : ∀ t w, waiters x !! t = Some w → (local_of w).1 ≤ generation (state x);
  barrier_asleep : ∀ t l, waiters x !! t = Some (Asleep l) → l.1 = generation (state x);
}.

Lemma waiting_none g ws : (∀ t w, ws !! t = Some w → (local_of w).1 ≠ g) → waiting_in g ws = 0.
Proof.
  intros Hn. unfold waiting_in, count_if. rewrite map_empty_filter_2; [by rewrite map_size_empty|].
  intros t w Hw. cbn. intros He%Z.eqb_eq. by apply (Hn t w).
Qed.

Lemma awaken_lookup (ws : gmap ThreadId (Waiter Waiting)) t w :
  (awaken <$> ws) !! t = Some w → ∃ w0, ws !! t = Some w0 ∧ w = awaken w0.
Proof. rewrite lookup_fmap, fmap_Some. done. Qed.

(** A generation that ends: nobody waits in the next one. *)
Lemma barrier_next (ws : gmap ThreadId (Waiter Waiting)) g b :
  1 ≤ parties → (∀ t w, ws !! t = Some w → (local_of w).1 ≤ g) →
  barrier_ok (mkSys (M := monitor parties) (mkBarrierState 0 (g + 1) b) (awaken <$> ws)).
Proof.
  intros Hp Hpast. split; cbn; [|lia| |].
  - symmetry. apply waiting_none. intros t w (w0 & Hw0 & ->)%awaken_lookup.
    specialize (Hpast t w0 Hw0). destruct w0; cbn in *; lia.
  - intros t w (w0 & Hw0 & ->)%awaken_lookup. specialize (Hpast t w0 Hw0). destruct w0; cbn in *; lia.
  - intros t l (w0 & Hw0 & Hl)%awaken_lookup. by destruct w0.
Qed.

Lemma barrier_step x e y : 1 ≤ parties → barrier_ok x → mstep (monitor parties) x e y → barrier_ok y.
Proof.
  intros Hp [Ha Hb Hpast Hsl] Hs. unfold waiting_in in *. mstep_cases Hs.
  - destruct op as [ms]. unfold begin, deadline in Hbegin. destruct (in_range _ _ ms).
    + unfold arrive in Hbegin. destruct (_ =? _); [|done]. injection Hbegin as <- <- <-.
      inversion Hwake; subst. by apply barrier_next.
    + injection Hbegin as <- <- <-. inversion Hwake; subst. by split.
  - destruct op as [ms]. unfold begin, deadline in Hbegin. destruct (in_range _ _ ms); [|done].
    unfold arrive in Hbegin. destruct (Z.eqb_spec (arrived s + 1) parties); [done|].
    injection Hbegin as <- <- <-. inversion Hwake; subst. split; cbn; unfold waiting_in.
    + rewrite count_if_insert by done. cbn. rewrite Z.eqb_refl. lia.
    + lia.
    + intros t' w. destruct (decide (t' = t)) as [->|Hne].
      * rewrite lookup_insert_eq. intros [= <-]. cbn. lia.
      * rewrite lookup_insert_ne by done. apply Hpast.
    + intros t' l. destruct (decide (t' = t)) as [->|Hne]; [by rewrite lookup_insert_eq|].
      rewrite lookup_insert_ne by done. apply Hsl.
  - unfold proceed in Hgo. destruct (Z.eqb_spec l.1 (generation s)); [done|]. injection Hgo as <- <- <-.
    inversion Hwake; subst. split; cbn; unfold waiting_in; [|done| |].
    + rewrite Ha. rewrite (count_if_delete _ _ _ _ Hthread). cbn.
      rewrite (proj2 (Z.eqb_neq _ _)) by done. done.
    + intros t' w [_ Hw]%lookup_delete_Some. by apply (Hpast t').
    + intros t' w [_ Hw]%lookup_delete_Some. by apply (Hsl t').
  - injection Hgive as <- <- <-. inversion Hwake; subst. apply barrier_next; [done|].
    intros t' w [_ Hw]%lookup_delete_Some. by apply (Hpast t').
  - unfold proceed in Hstay. destruct (Z.eqb_spec l.1 (generation s)) as [E|]; [|done].
    split; cbn; unfold waiting_in; [|done| |].
    + rewrite Ha. f_equal. symmetry. by apply (count_if_same _ _ _ _ (Asleep l) Hthread).
    + intros t' w. destruct (decide (t' = t)) as [->|Hne].
      * rewrite lookup_insert_eq. intros [= <-]. cbn. lia.
      * rewrite lookup_insert_ne by done. apply Hpast.
    + intros t' l'. destruct (decide (t' = t)) as [->|Hne].
      * rewrite lookup_insert_eq. by intros [= <-].
      * rewrite lookup_insert_ne by done. apply Hsl.
  - split; cbn; unfold waiting_in; [|done| |].
    + rewrite Ha. f_equal. symmetry. by apply (count_if_same _ _ _ _ (Awake l) Hthread).
    + intros t' w. destruct (decide (t' = t)) as [->|Hne].
      * rewrite lookup_insert_eq. intros [= <-]. cbn. apply (Hpast t _ Hthread).
      * rewrite lookup_insert_ne by done. apply Hpast.
    + intros t' l'. destruct (decide (t' = t)) as [->|Hne]; [by rewrite lookup_insert_eq|].
      rewrite lookup_insert_ne by done. apply Hsl.
Qed.
End BarrierRuns.

(** What an event of a barrier of [n] parties says, and what it changes. *)
Definition barrier_event (n : Z) (x y : Sys (Barrier.monitor n)) (e : Event (Barrier.monitor n)) : Prop :=
  let now := Barrier.generation (state x) in
  let waiting := waiting_in now (waiters x) in
  match e with
  | Called _ (Barrier.Wait ms) answer =>
      match deadline ms with
      | Ok _ =>
          if waiting =? n - 1 then
            answer = Some (Ok true) ∧ Barrier.generation (state y) = now + 1 ∧ ¬ asleep (waiters y)
          else
            answer = None ∧ Barrier.generation (state y) = now ∧ waiting_in now (waiters y) = waiting + 1
      | Err f => answer = Some (Err f) ∧ y = x
      | _ => False
      end
  | Left _ l answer =>
      l.1 < now ∧ state y = state x ∧
      answer = if bool_decide (Barrier.broken_generation (state x) = Some l.1) then Err (Timeout l.2) else Ok false
  | GaveUp _ l answer =>
      l.1 = now ∧ answer = Err (Timeout l.2) ∧ Barrier.generation (state y) = now + 1 ∧
      Barrier.broken_generation (state y) = Some now ∧ ¬ asleep (waiters y)
  | Silent => state y = state x
  end.


(** A barrier of three: threads 1 and 2 arrive; 1 times out, which breaks the
    generation and wakes 2; before 2 runs, 3 arrives and times out too.  The
    field that says which generation is broken holds one generation only, so 2
    is told [FALSE], as if all three had met. *)
Theorem barrier_break_forgotten : ∃ es x,
  run (Barrier.monitor 3) (Barrier.start 3) es x
  ∧ Left (M := Barrier.monitor 3) 2%nat (0, 100) (Ok false) ∈ es
  ∧ GaveUp (M := Barrier.monitor 3) 1%nat (0, 50) (Err (Timeout 50)) ∈ es
  ∧ ∀ t op b, Called (M := Barrier.monitor 3) t op (Some (Ok b)) ∉ es.
Proof.
  set (M := Barrier.monitor 3).
  exists ([Called (M := M) 1%nat (Barrier.Wait 50) None; Called (M := M) 2%nat (Barrier.Wait 100) None;
           Silent; GaveUp (M := M) 1%nat (0, 50) (Err (Timeout 50));
           Called (M := M) 3%nat (Barrier.Wait 50) None;
           GaveUp (M := M) 3%nat (1, 50) (Err (Timeout 50)); Left (M := M) 2%nat (0, 100) (Ok false)]).
  eexists. split; [|split; [|split]].
  - eapply run_cons; [by eapply mstep_wait; [| |constructor]|].
    eapply run_cons; [by eapply mstep_wait; [| |constructor]|].
    eapply run_cons; [by apply (mstep_sleep M 2%nat (0, 100))|].
    eapply run_cons; [by eapply mstep_expire; [| | |apply (notified_all (L := Barrier.Waiting))]|].
    eapply run_cons; [by eapply mstep_wait; [| |constructor]|].
    eapply run_cons; [by eapply mstep_expire; [| | |apply (notified_all (L := Barrier.Waiting))]|].
    eapply run_cons; [by eapply mstep_leave; [| |constructor]|].
    apply run_nil.
  - do 6 right. left.
  - do 3 right. left.
  - intros t op b Hin. by repeat (apply elem_of_cons in Hin as [Hin|Hin]; [discriminate|]); apply elem_of_nil in Hin.
Qed.

(** ** Witnesses *)

(** A thread takes the only permit, another one waits for it. *)
Lemma semaphore_correct_witness : ∃ s0 es x, Semaphore.new 1 = Ok s0
  ∧ run Semaphore.monitor (mkSys (M := Semaphore.monitor) s0 ∅) es x
  ∧ asleep (waiters x) ∧ total acquired es - total released es = 1
  ∧ Semaphore.available (state x) = 1 - (total acquired es - total released es).
Proof.
  set (M := Semaphore.monitor).
  assert (∃ x, run M (mkSys (M := M) (Semaphore.mkSemaphoreState 1 1) ∅)
    [Called (M := M) 1%nat (Semaphore.Acquire 5) None; Left (M := M) 1%nat 5 (Ok tt);
     Called (M := M) 2%nat (Semaphore.Acquire 5) None; Silent] x ∧ asleep (waiters x)) as (x & Hrun & Ha).
  { eexists. split.
    - eapply run_cons; [by eapply mstep_wait; [| |constructor]|].
      eapply run_cons; [by eapply mstep_leave; [| |constructor]|].
      eapply run_cons; [by eapply mstep_wait; [| |constructor]|].
      eapply run_cons; [by apply (mstep_sleep M 2%nat 5)|]. apply run_nil.
    - by exists 2%nat, 5. }
  eexists _, _, x. split; [vm_compute; reflexivity|]. split; [exact Hrun|].
  split; [exact Ha|]. split; [reflexivity|].
  exact (proj1 (semaphore_correct 1 (Semaphore.mkSemaphoreState 1 1) _ x eq_refl Hrun)).
Defined.

Lemma mutex_correct_witness : ∃ es x, run Mutex.monitor Mutex.new es x ∧ state x = Some 1%nat
  ∧ state x = holder es.
Proof.
  set (M := Mutex.monitor).
  assert (∃ x, run M Mutex.new
    [Called (M := M) 1%nat (Mutex.Lock 5) None; Left (M := M) 1%nat 5 (Ok tt)] x ∧ state x = Some 1%nat)
    as (x & Hrun & Hx).
  { eexists. split.
    - eapply run_cons; [by eapply mstep_wait; [| |constructor]|].
      eapply run_cons; [by eapply mstep_leave; [| |constructor]|]. apply run_nil.
    - reflexivity. }
  eexists _, x. split; [exact Hrun|]. split; [exact Hx|]. exact (proj1 (mutex_correct _ x Hrun)).
Defined.

Lemma group_correct_witness : ∃ es x, run Group.monitor Group.new es x ∧ asleep (waiters x)
  ∧ 0 < state x.
Proof.
  set (M := Group.monitor).
  assert (∃ x, run M Group.new
    [Called (M := M) 1%nat Group.Enter (Some (Ok tt)); Called (M := M) 2%nat (Group.Wait 5) None; Silent] x
    ∧ asleep (waiters x)) as (x & Hrun & Ha).
  { eexists. split.
    - eapply run_cons; [by eapply mstep_result; [| |constructor]|].
      eapply run_cons; [by eapply mstep_wait; [| |constructor]|].
      eapply run_cons; [by apply (mstep_sleep M 2%nat 5)|]. apply run_nil.
    - by exists 2%nat, 5. }
  eexists _, x. split; [exact Hrun|]. split; [exact Ha|].
  exact (proj1 (proj2 (proj2 (group_correct _ x Hrun))) Ha).
Defined.

