(* ===== verification/Dispatch.v ===== *)
(** * Dispatch: queues, tickets and workers

    [src/libraries/bn_core_dispatch/src/lib.rs].  The tickets and the queue as
    functions on their states, and a queue with its workers and the threads
    that call it as a step relation.  A step is one critical section; a
    critical section of the queue reads its tickets at once, which loses no
    outcome because a ticket never leaves a terminal state. *)

From stdpp Require Import fin_maps fin_map_dom.
From S2P Require Import Prelude Text Failure Monitor.

#[local] Open Scope string_scope.
#[local] Open Scope Z_scope.

(** ** Tickets *)

Definition PENDING : Z := 0.
Definition RUNNING : Z := 1.
Definition COMPLETED : Z := 2.
Definition FAILED : Z := 3.
Definition CANCELLED : Z := 4.

Record TicketState := mkTicketState {
  status : Z;
  error : option (Z * string);
  closed : bool;
  task : string;
  output : string;
}.

(** Whom a critical section of a ticket notifies: the threads that wait for the
    ticket, and those that wait for its queue ([notify_queue]). *)
Record Signal := mkSignal { to_ticket : bool; to_queue : bool }.
Definition silent : Signal := mkSignal false false.
Definition ticket_only : Signal := mkSignal true false.
Definition everyone : Signal := mkSignal true true.

Definition new_ticket (task : string) : TicketState := mkTicketState PENDING None false task "".

Definition finished_status (s : Z) : bool := (s =? COMPLETED) || (s =? FAILED) || (s =? CANCELLED).
Definition is_done (t : TicketState) : bool := finished_status (status t).
Definition is_terminal (t : TicketState) : bool := closed t || finished_status (status t).

Definition with_status (s : Z) (e : option (Z * string)) (t : TicketState) : TicketState :=
  mkTicketState s e (closed t) (task t) (output t).

Definition ticket_task (t : TicketState) : dresult string :=
  if closed t then Err (Closed "ticket") else Ok (task t).

Definition cancel_pending (t : TicketState) : TicketState * Signal :=
  if status t =? PENDING then (with_status CANCELLED (error t) t, everyone) else (t, silent).

Definition cancel (t : TicketState) : TicketState * dresult bool * Signal :=
  if closed t then (t, Err (Closed "ticket"), silent)
  else if status t =? PENDING then (with_status CANCELLED (error t) t, Ok true, everyone)
  else (t, Ok false, silent).

Definition close (t : TicketState) : TicketState * Signal :=
  (mkTicketState (status t) (error t) true "" "", ticket_only).

Definition mark_running (t : TicketState) : TicketState * dresult unit :=
  if closed t || negb (status t =? PENDING) then (t, Err (Closed "ticket"))
  else (with_status RUNNING (error t) t, Ok tt).

Definition mark_completed (t : TicketState) : TicketState * Signal :=
  if status t =? RUNNING then (with_status COMPLETED (error t) t, everyone) else (t, silent).

Definition mark_failed (code : Z) (message : string) (t : TicketState) : TicketState * Signal :=
  if status t =? RUNNING then (with_status FAILED (Some (code, message)) t, everyone)
  else (t, silent).

Definition set_output (text : string) (t : TicketState) : TicketState * dresult unit :=
  let length := Z.of_nat (String.length text) in
  if output_max_bytes <? length then
    (t, Err (OutOfRange "output length in bytes" length 0 output_max_bytes))
  else (mkTicketState (status t) (error t) (closed t) (task t) text, Ok tt).

Definition take_output (t : TicketState) : TicketState * string :=
  (mkTicketState (status t) (error t) (closed t) (task t) "", output t).

Definition task_failed (e : option (Z * string)) : DispatchFailure :=
  let '(code, message) := default (1, "the task failed") e in TaskFailed code message.

(** The loop of [wait]: [None] while the ticket runs. *)
Definition wait_outcome (t : TicketState) : option (dresult unit) :=
  if closed t then Some (Err (Closed "ticket"))
  else if status t =? COMPLETED then Some (Ok tt)
  else if status t =? FAILED then Some (Err (task_failed (error t)))
  else if status t =? CANCELLED then Some (Err Cancelled)
  else None.

(** What any holder of a ticket may do with it. *)
Inductive TicketOp :=
| OpCancel | OpClose | OpComplete | OpFail (code : Z) (message : string)
| OpSetOutput (text : string) | OpTakeOutput.

Definition run_ticket (op : TicketOp) (t : TicketState) : TicketState * Signal :=
  match op with
  | OpCancel => let '(t, _, signal) := cancel t in (t, signal)
  | OpClose => close t
  | OpComplete => mark_completed t
  | OpFail code message => mark_failed code message t
  | OpSetOutput text => ((set_output text t).1, silent)
  | OpTakeOutput => ((take_output t).1, silent)
  end.

(** ** The queue *)

(** A worker thread: in [recv], holding a job it has not started, running its
    task, back from the task ([panicked] or not), or ended. *)
Inductive Worker :=
| Idle | Took (k : nat) | Running (k : nat) | Returned (k : nat) (panicked : bool) | Exited.

#[export] Instance Worker_eq_dec : EqDecision Worker.
Proof. solve_decision. Defined.

(** A thread inside a call that waits.  [join] holds the queue's lock from its
    check to its sleep; [close] checks under the lock, releases it, and takes
    it again to sleep. *)
Inductive Client :=
| JoinCheck (ms : Z) | JoinHeld (ms : Z) | JoinAsleep (ms : Z)
| WaitCheck (k : nat) (ms : Z) | WaitAsleep (k : nat) (ms : Z)
| CloseTake (ms : Z) | CloseCheck (ms : Z) | CloseDecide (ms : Z) | CloseAsleep (ms : Z)
| CloseWorkers (ms : Z).

(** Tickets are the positions of [objects]; the map of the queue names those it
    holds.  [channel] is the bounded queue of jobs, [sender] whether its sender
    is there; [workers] stands for the joined threads too. *)
Record Dispatch := mkDispatch {
  q_closed : bool;
  tickets : gmap Z nat;
  sender : bool;
  objects : list TicketState;
  channel : list nat;
  workers : list Worker;
  lock : option ThreadId;
  clients : gmap ThreadId Client;
}.

(** [Queue::new] *)
Definition queue_new (workers : Z) : dresult Dispatch :=
  n ← worker_count workers;
  Ok (mkDispatch false ∅ true [] [] (replicate (Z.to_nat n) Idle) None ∅).

Definition object_terminal (objects : list TicketState) (k : nat) : bool :=
  match objects !! k with Some t => is_terminal t | None => true end.

(** [tickets.retain(|_, ticket| !ticket.is_terminal())] *)
Definition retain_live (objects : list TicketState) (tickets : gmap Z nat) : gmap Z nat :=
  filter (fun p => object_terminal objects p.2 = false) tickets.

(** [next_ticket_id]: eight draws of the system's random numbers, [None] when
    the system has none. *)
Fixpoint next_ticket_id (tries : nat) (draws : nat → option Z) (tickets : gmap Z nat) : dresult Z :=
  match tries with
  | O => Err (Saturated pending_tickets_max)
  | S tries =>
      match draws tries with
      | None => Err (Unavailable "the system provides no entropy for ticket identifiers")
      | Some bytes =>
          let id := Z.max (Z.land bytes 0x7fffffff) 1 in
          match tickets !! id with
          | None => Ok id
          | Some _ => next_ticket_id tries draws tickets
          end
      end
  end.

Definition with_tickets (ts : gmap Z nat) (d : Dispatch) : Dispatch :=
  mkDispatch (q_closed d) ts (sender d) (objects d) (channel d) (workers d) (lock d) (clients d).
Definition with_objects (os : list TicketState) (d : Dispatch) : Dispatch :=
  mkDispatch (q_closed d) (tickets d) (sender d) os (channel d) (workers d) (lock d) (clients d).
Definition with_worker (i : nat) (w : Worker) (d : Dispatch) : Dispatch :=
  mkDispatch (q_closed d) (tickets d) (sender d) (objects d) (channel d) (<[i := w]> (workers d))
    (lock d) (clients d).
Definition with_channel (l : list nat) (d : Dispatch) : Dispatch :=
  mkDispatch (q_closed d) (tickets d) (sender d) (objects d) l (workers d) (lock d) (clients d).
Definition with_lock (l : option ThreadId) (d : Dispatch) : Dispatch :=
  mkDispatch (q_closed d) (tickets d) (sender d) (objects d) (channel d) (workers d) l (clients d).
Definition with_clients (cs : gmap ThreadId Client) (d : Dispatch) : Dispatch :=
  mkDispatch (q_closed d) (tickets d) (sender d) (objects d) (channel d) (workers d) (lock d) cs.

(** [queue.wake.notify_all()] *)
Definition wake_queue (c : Client) : Client :=
  match c with
  | JoinAsleep ms => JoinCheck ms
  | CloseAsleep ms => CloseCheck ms
  | c => c
  end.
Definition wake_ticket (k : nat) (c : Client) : Client :=
  match c with
  | WaitAsleep k' ms => if Nat.eqb k' k then WaitCheck k' ms else c
  | c => c
  end.
Definition notify (k : nat) (signal : Signal) (c : Client) : Client :=
  let c := if to_ticket signal then wake_ticket k c else c in
  if to_queue signal then wake_queue c else c.

(** The state after a ticket's critical section. *)
Definition put_ticket (k : nat) (t : TicketState) (signal : Signal) (d : Dispatch) : Dispatch :=
  with_clients (notify k signal <$> clients d) (with_objects (<[k := t]> (objects d)) d).

(** [submit_with], under the queue's lock: the new ticket. *)
Definition submit (draws : nat → option Z) (task : string) (d : Dispatch) : Dispatch * dresult nat :=
  if q_closed d then (d, Err (Closed "queue"))
  else
    let live := retain_live (objects d) (tickets d) in
    let d := with_tickets live d in
    if pending_tickets_max <=? Z.of_nat (size live) then (d, Err (Saturated pending_tickets_max))
    else match next_ticket_id 8 draws live with
         | Ok id =>
             let k := length (objects d) in
             let inserted := with_objects (objects d ++ [new_ticket task])%list (with_tickets (<[id := k]> live) d) in
             if negb (sender d) then (inserted, Err (Closed "queue"))
             else if pending_tickets_max <=? Z.of_nat (length (channel d)) then
               (d, Err (Saturated pending_tickets_max))
             else
               (with_clients (wake_queue <$> clients d) (with_channel (channel d ++ [k])%list inserted),
                Ok k)
         | Err e => (d, Err e)
         | Panic w => (d, Panic w)
         | Fuel => (d, Fuel)
         end.

(** The bounds and the worker check of [join] and [close]. *)
Definition start_queue_wait (is_worker : bool) (ms : Z) : dresult unit :=
  if is_worker then Err SelfWait else deadline ms.

Definition all_terminal (d : Dispatch) : bool :=
  forallb (fun p : Z * nat => object_terminal (objects d) p.2) (map_to_list (tickets d)).

(** The first critical section of [close]: every pending ticket of the queue is
    cancelled. *)
Definition cancel_object (os : list TicketState) (k : nat) : list TicketState :=
  match os !! k with Some t => <[k := (cancel_pending t).1]> os | None => os end.
Definition cancelled_now (os : list TicketState) (k : nat) : bool :=
  match os !! k with Some t => status t =? PENDING | None => false end.

Definition close_begin (d : Dispatch) : Dispatch :=
  let held := map snd (map_to_list (tickets d)) in
  let signals := List.filter (cancelled_now (objects d)) held in
  mkDispatch true (tickets d) (sender d) (fold_left cancel_object held (objects d)) (channel d)
    (workers d) (lock d)
    (fold_left (fun cs k => notify k everyone <$> cs) signals (clients d)).

Definition all_exited (d : Dispatch) : bool :=
  forallb (fun w => match w with Exited => true | _ => false end) (workers d).

(** ** Steps *)

Inductive Label :=
| LWorker (i : nat)
| LStart (i k : nat)
| LTicket (k : nat) (op : TicketOp)
| LSubmit (r : dresult nat)
| LClient (t : ThreadId)
| LReturn (t : ThreadId) (r : dresult unit)
| LWake (t : ThreadId).

Definition set_client (t : ThreadId) (c : Client) (d : Dispatch) : Dispatch :=
  with_clients (<[t := c]> (clients d)) d.
Definition end_client (t : ThreadId) (d : Dispatch) : Dispatch :=
  with_clients (delete t (clients d)) d.

(** What the worker does with a ticket whose task has come back. *)
Definition finish_job (panicked : bool) (t : TicketState) : TicketState * Signal :=
  if panicked then mark_failed 1 "dispatch task panicked" t
  else if status t =? RUNNING then mark_completed t else (t, silent).

Inductive worker_step : Dispatch → Label → Dispatch → Prop :=
| worker_take i k rest d :
    workers d !! i = Some Idle → channel d = k :: rest →
    worker_step d (LWorker i) (with_worker i (Took k) (with_channel rest d))
| worker_start i k t t' d :
    workers d !! i = Some (Took k) → objects d !! k = Some t → mark_running t = (t', Ok tt) →
    worker_step d (LStart i k) (with_worker i (Running k) (with_objects (<[k := t']> (objects d)) d))
| worker_drop i k t e d :
    workers d !! i = Some (Took k) → objects d !! k = Some t → mark_running t = (t, Err e) →
    worker_step d (LWorker i) (with_worker i Idle d)
| worker_return i k panicked d :
    workers d !! i = Some (Running k) →
    worker_step d (LWorker i) (with_worker i (Returned k panicked) d)
| worker_finish i k panicked t t' signal d :
    workers d !! i = Some (Returned k panicked) → objects d !! k = Some t →
    finish_job panicked t = (t', signal) →
    worker_step d (LWorker i) (with_worker i Idle (put_ticket k t' signal d))
| worker_exit i d :
    workers d !! i = Some Idle → channel d = [] → sender d = false →
    worker_step d (LWorker i) (with_worker i Exited d).

(** The threads that call, and time. *)
Inductive client_step : Dispatch → Label → Dispatch → Prop :=
| ticket_step k op t t' signal d :
    objects d !! k = Some t → run_ticket op t = (t', signal) →
    client_step d (LTicket k op) (put_ticket k t' signal d)
| submit_step draws task d d' r :
    lock d = None → submit draws task d = (d', r) → client_step d (LSubmit r) d'
| refused_step t is_worker ms e d :
    start_queue_wait is_worker ms = Err e → client_step d (LReturn t (Err e)) d
| join_start t ms d :
    clients d !! t = None → start_queue_wait false ms = Ok tt →
    client_step d (LClient t) (set_client t (JoinCheck ms) d)
| join_done t ms d :
    clients d !! t = Some (JoinCheck ms) → lock d = None → all_terminal d = true →
    client_step d (LReturn t (Ok tt)) (end_client t d)
| join_hold t ms d :
    clients d !! t = Some (JoinCheck ms) → lock d = None → all_terminal d = false →
    client_step d (LClient t) (set_client t (JoinHeld ms) (with_lock (Some t) d))
| join_timeout t ms d :
    clients d !! t = Some (JoinHeld ms) →
    client_step d (LReturn t (Err (Timeout ms))) (end_client t (with_lock None d))
| join_sleep t ms d :
    clients d !! t = Some (JoinHeld ms) →
    client_step d (LClient t) (set_client t (JoinAsleep ms) (with_lock None d))
| join_wake t ms d :
    clients d !! t = Some (JoinAsleep ms) →
    client_step d (LWake t) (set_client t (JoinCheck ms) d)
| wait_start t k ms d :
    clients d !! t = None → deadline ms = Ok tt →
    client_step d (LClient t) (set_client t (WaitCheck k ms) d)
| wait_done t k ms o r d :
    clients d !! t = Some (WaitCheck k ms) → objects d !! k = Some o → wait_outcome o = Some r →
    client_step d (LReturn t r) (end_client t d)
| wait_timeout t k ms o d :
    clients d !! t = Some (WaitCheck k ms) → objects d !! k = Some o → wait_outcome o = None →
    client_step d (LReturn t (Err (Timeout ms))) (end_client t d)
| wait_sleep t k ms o d :
    clients d !! t = Some (WaitCheck k ms) → objects d !! k = Some o → wait_outcome o = None →
    client_step d (LClient t) (set_client t (WaitAsleep k ms) d)
| wait_wake t k ms d :
    clients d !! t = Some (WaitAsleep k ms) →
    client_step d (LWake t) (set_client t (WaitCheck k ms) d)
| close_start t ms d :
    clients d !! t = None → start_queue_wait false ms = Ok tt → lock d = None →
    client_step d (LClient t) (set_client t (CloseTake ms) (close_begin d))
| close_take t ms d :
    clients d !! t = Some (CloseTake ms) →
    client_step d (LClient t)
      (set_client t (CloseCheck ms)
         (mkDispatch (q_closed d) (tickets d) false (objects d) (channel d) (workers d) (lock d)
            (wake_queue <$> clients d)))
| close_check t ms d :
    clients d !! t = Some (CloseCheck ms) → lock d = None →
    client_step d (LClient t)
      (set_client t (if all_terminal d then CloseWorkers ms else CloseDecide ms) d)
| close_timeout t ms d :
    clients d !! t = Some (CloseDecide ms) →
    client_step d (LReturn t (Err (Timeout ms))) (end_client t d)
| close_sleep t ms d :
    clients d !! t = Some (CloseDecide ms) → lock d = None →
    client_step d (LClient t) (set_client t (CloseAsleep ms) d)
| close_wake t ms d :
    clients d !! t = Some (CloseAsleep ms) →
    client_step d (LWake t) (set_client t (CloseCheck ms) d)
| close_done t ms d :
    clients d !! t = Some (CloseWorkers ms) → all_exited d = true →
    client_step d (LReturn t (Ok tt)) (end_client t d)
| close_expired t ms d :
    clients d !! t = Some (CloseWorkers ms) → all_exited d = false →
    client_step d (LReturn t (Err (Timeout ms))) (end_client t d).

Definition step (d : Dispatch) (l : Label) (d' : Dispatch) : Prop :=
  worker_step d l d' ∨ client_step d l d'.

Inductive runs (d0 : Dispatch) : list Label → Dispatch → Prop :=
| runs_nil : runs d0 [] d0
| runs_snoc ls l d d' : runs d0 ls d → step d l d' → runs d0 (ls ++ [l]) d'.
