(* ===== verification/DispatchInv.v ===== *)
(** * DispatchInv: the invariant of a queue and its workers

    What a critical section may change of a ticket ([evolves]), the invariant
    [Inv] of the states of [Dispatch.v] and [Good], which adds what the threads
    inside [close] know; every step preserves both. *)

From stdpp Require Import fin_maps fin_map_dom.
From S2P Require Import Prelude Text Failure Monitor Dispatch.

#[local] Open Scope string_scope.
#[local] Open Scope Z_scope.

(** ** What a ticket's critical sections may change *)

Definition evolves (t t' : TicketState) : Prop :=
  (status t' = status t ∨ (status t = PENDING ∧ status t' = CANCELLED)
   ∨ (status t = RUNNING ∧ (status t' = COMPLETED ∨ status t' = FAILED)))
  ∧ (closed t = true → closed t' = true)
  ∧ (error t' = error t ∧ status t' ≠ FAILED ∨ error t' = error t ∧ status t' = status t
     ∨ is_Some (error t') ∧ status t' = FAILED).

Lemma evolves_refl t : evolves t t.
Proof. split; [by left|]. split; [done|]. right. by left. Qed.

Lemma evolves_status t t' : evolves t t' → status t' = status t → error t' = error t ∨ status t' = FAILED.
Proof. intros (_ & _ & [[? ?]|[[? ?]|[? ?]]]); auto. Qed.

Ltac status_cases :=
  repeat match goal with
  | H : context [?a =? ?b] |- _ => destruct (Z.eqb_spec a b); cbn in H
  | |- context [?a =? ?b] => destruct (Z.eqb_spec a b); cbn
  end.

Lemma cancel_pending_evolves t : evolves t (cancel_pending t).1.
Proof.
  unfold cancel_pending. status_cases; [|apply evolves_refl]. split; [right; left; done|].
  split; [done|]. by left.
Qed.

Lemma mark_completed_evolves t : evolves t (mark_completed t).1.
Proof.
  unfold mark_completed. status_cases; [|apply evolves_refl].
  split; [right; right; by split; [|left]|]. split; [done|]. by left.
Qed.

Lemma mark_failed_evolves code message t : evolves t (mark_failed code message t).1.
Proof.
  unfold mark_failed. status_cases; [|apply evolves_refl].
  split; [right; right; by split; [|right]|]. split; [done|]. right. right. split; [by eexists|done].
Qed.

Lemma run_ticket_evolves op t : evolves t (run_ticket op t).1.
Proof.
  destruct op; cbn; [| |apply mark_completed_evolves|apply mark_failed_evolves| |].
  - unfold cancel. destruct (closed t); [apply evolves_refl|].
    status_cases; [|apply evolves_refl]. split; [right; left; done|]. split; [done|]. by left.
  - split; [by left|]. split; [done|]. right. by left.
  - unfold set_output. destruct (_ <? _); [apply evolves_refl|]. split; [by left|]. split; [done|]. right. by left.
  - split; [by left|]. split; [done|]. right. by left.
Qed.

Lemma finish_job_evolves panicked t : evolves t (finish_job panicked t).1 ∧ status (finish_job panicked t).1 ≠ RUNNING.
Proof.
  unfold finish_job. destruct panicked.
  - split; [apply mark_failed_evolves|]. unfold mark_failed. by status_cases.
  - status_cases; [|by split; [apply evolves_refl|]].
    split; [apply mark_completed_evolves|]. unfold mark_completed. by status_cases.
Qed.

(** ** The invariant *)

(** The ticket a worker holds. *)
Definition hand (w : Worker) : option nat :=
  match w with Took k | Running k | Returned k _ => Some k | Idle | Exited => None end.

Definition holds (ws : list Worker) (i k : nat) : Prop := ∃ w, ws !! i = Some w ∧ hand w = Some k.

(** The job of [k] waits to start; a worker is in its task; the queue knows it. *)
Definition queued (ch : list nat) (ws : list Worker) (k : nat) : Prop :=
  k ∈ ch ∨ ∃ i, ws !! i = Some (Took k).
Definition busy (w : Worker) (k : nat) : Prop := w = Running k ∨ ∃ panicked, w = Returned k panicked.
Definition working (ws : list Worker) (k : nat) : Prop := ∃ i w, ws !! i = Some w ∧ busy w k.
Definition held (ts : gmap Z nat) (k : nat) : Prop := ∃ id, ts !! id = Some k.

(** What holds of one ticket: [q] queued, [b] in its task, [h] held, and
    [shut] when the queue is closed. *)
Record ticket_ok (q b h : Prop) (shut : bool) (t : TicketState) : Prop := {
  ticket_range : 0 ≤ status t ≤ 4;
  ticket_error : is_Some (error t) ↔ status t = FAILED;
  ticket_running : status t = RUNNING → b;
  ticket_working : b → status t = RUNNING ∨ status t = COMPLETED ∨ status t = FAILED;
  ticket_queued : q → status t = PENDING ∨ status t = CANCELLED;
  ticket_pending : status t = PENDING → closed t = false → q;
  ticket_shut : shut = true → status t = PENDING → closed t = true;
  ticket_held : is_terminal t = false → h;
}.

Record Inv (d : Dispatch) : Prop := {
  inv_tickets : ∀ k t, objects d !! k = Some t →
    ticket_ok (queued (channel d) (workers d) k) (working (workers d) k) (held (tickets d) k)
      (q_closed d) t;
  inv_channel : NoDup (channel d);
  inv_hands : ∀ i j k, holds (workers d) i k → holds (workers d) j k → i = j;
  inv_apart : ∀ i k, holds (workers d) i k → k ∉ channel d;
  inv_known : ∀ k, k ∈ channel d ∨ (∃ i, holds (workers d) i k) ∨ held (tickets d) k →
    is_Some (objects d !! k);
  inv_capacity : Z.of_nat (size (tickets d)) ≤ pending_tickets_max
    ∧ Z.of_nat (length (channel d)) ≤ pending_tickets_max;
  inv_sender : sender d = false → q_closed d = true;
  inv_exited : ∀ i, workers d !! i = Some Exited → sender d = false ∧ channel d = [];
}.

Lemma not_terminal t : is_terminal t = false ↔ closed t = false ∧ finished_status (status t) = false.
Proof. unfold is_terminal. apply orb_false_iff. Qed.

Lemma evolves_not_terminal t t' : evolves t t' → is_terminal t' = false → is_terminal t = false.
Proof.
  intros (Hs & Hc & _). rewrite !not_terminal. intros [Hc' Hf]. split.
  - destruct (closed t); [|done]. by rewrite Hc in Hc'.
  - destruct Hs as [<-|[[-> _]|[-> _]]]; done.
Qed.

Lemma ticket_ok_evolves q b h shut t t' : ticket_ok q b h shut t → evolves t t' → ticket_ok q b h shut t'.
Proof.
  intros [T1 T2 T3 T4 T5 T6 T7 T8] He. pose proof He as (Hs & Hc & Hr).
  unfold PENDING, RUNNING, COMPLETED, FAILED, CANCELLED in *.
  assert (closed t' = false → closed t = false) as Hc'.
  { intros E. destruct (closed t); [|done]. by rewrite Hc in E. }
  split; unfold PENDING, RUNNING, COMPLETED, FAILED, CANCELLED.
  - lia.
  - destruct Hr as [[-> Hn]|[[-> ->]|[Hn ->]]]; [|done|split; [done|by intros _]].
    rewrite T2. split; [|done]. intros E. lia.
  - intros E. apply T3. lia.
  - intros Hb. specialize (T4 Hb). lia.
  - intros Hq. specialize (T5 Hq). lia.
  - intros E Ec. apply T6; [lia|auto].
  - intros Esh E. apply Hc, T7; [done|lia].
  - intros E. apply T8. by apply (evolves_not_terminal t t').
Qed.

Lemma ticket_ok_iff q b h shut q' b' h' t : ticket_ok q b h shut t →
  (q ↔ q') → (b ↔ b') → (h → h') → ticket_ok q' b' h' shut t.
Proof.
  intros [T1 T2 T3 T4 T5 T6 T7 T8] Hq Hb Hh.
  split; [done|done|intros E; apply Hb; auto|intros B; apply T4, Hb, B|intros Q; apply T5, Hq, Q
         |intros; apply Hq; auto|done|auto].
Qed.

Lemma worker_lookup (ws : list Worker) i w j x : (i < length ws)%nat →
  <[i := w]> ws !! j = Some x ↔ (j = i ∧ x = w) ∨ (j ≠ i ∧ ws !! j = Some x).
Proof. intros Hi. rewrite list_lookup_insert_Some. naive_solver. Qed.

Lemma holds_insert ws i w j k : (i < length ws)%nat →
  holds (<[i := w]> ws) j k ↔ (j = i ∧ hand w = Some k) ∨ (j ≠ i ∧ holds ws j k).
Proof.
  intros Hi. unfold holds. setoid_rewrite worker_lookup; [|done]. naive_solver.
Qed.

(** One worker changes, and perhaps the channel. *)
Section OneWorker.
Context (d : Dispatch) (HI : Inv d) (i : nat) (w w' : Worker) (Hw : workers d !! i = Some w).

Lemma worker_in : (i < length (workers d))%nat.
Proof. by apply lookup_lt_Some in Hw. Qed.

Lemma holds_here k : hand w = Some k → holds (workers d) i k.
Proof. intros Hk. by exists w. Qed.

(** No other worker and no job of the channel has the ticket of this one. *)
Lemma hand_alone k j w0 : hand w = Some k → workers d !! j = Some w0 → hand w0 = Some k → j = i.
Proof.
  intros Hk Hj Hk0. apply (inv_hands d HI j i k); [by exists w0|by apply holds_here].
Qed.

Lemma hand_not_queued k : hand w = Some k → w ≠ Took k → ¬ queued (channel d) (workers d) k.
Proof.
  intros Hk Hn [Hin|[j Hj]].
  - by apply (inv_apart d HI i k (holds_here k Hk)).
  - rewrite (hand_alone k j _ Hk Hj eq_refl) in Hj. congruence.
Qed.

Lemma queued_other k : (w = Took k ↔ w' = Took k) →
  queued (channel d) (<[i := w']> (workers d)) k ↔ queued (channel d) (workers d) k.
Proof.
  intros Hk. unfold queued. setoid_rewrite worker_lookup; [|apply worker_in].
  split; (intros [?|[j Hj]]; [by left|right]); [exists (if decide (j = i) then i else j)|exists j].
  - destruct Hj as [[-> E]|[Hne Hj]]; [|by rewrite decide_False].
    rewrite decide_True by done. rewrite Hw. f_equal. by apply Hk.
  - destruct (decide (j = i)) as [->|]; [left|by right]. split; [done|]. rewrite Hw in Hj.
    symmetry. apply Hk. by injection Hj.
Qed.

Lemma working_other k : (busy w k ↔ busy w' k) →
  working (<[i := w']> (workers d)) k ↔ working (workers d) k.
Proof.
  intros Hk. unfold working. setoid_rewrite worker_lookup; [|apply worker_in]. split.
  - intros (j & v & [[-> ->]|[_ Hj]] & Hb); [exists i, w; split; [done|by apply Hk]|by exists j, v].
  - intros (j & v & Hj & Hb). destruct (decide (j = i)) as [->|Hne].
    + exists i, w'. split; [by left|]. apply Hk. rewrite Hw in Hj. by injection Hj as ->.
    + exists j, v. split; [by right|done].
Qed.

(** The worker's ticket is its old one, or one nobody has. *)
Lemma hands_insert :
  (∀ k, hand w' = Some k → hand w = Some k ∨ ∀ j, ¬ holds (workers d) j k) →
  ∀ j1 j2 k, holds (<[i := w']> (workers d)) j1 k → holds (<[i := w']> (workers d)) j2 k → j1 = j2.
Proof.
  intros Hh j1 j2 k. rewrite !holds_insert by apply worker_in.
  assert (∀ j, hand w' = Some k → holds (workers d) j k → j = i) as Hj.
  { intros j Hk Hj. destruct (Hh k Hk) as [Hk'|Hn]; [|by destruct (Hn j)].
    apply (inv_hands d HI j i k Hj). by apply holds_here. }
  intros [[-> H1]|[N1 H1]] [[-> H2]|[N2 H2]]; [done| | |by apply (inv_hands d HI j1 j2 k)].
  - by rewrite (Hj j2).
  - by rewrite (Hj j1).
Qed.

Lemma holds_sub k j :
  holds (<[i := w']> (workers d)) j k → hand w' = Some k ∨ holds (workers d) j k.
Proof. rewrite holds_insert by apply worker_in. intros [[_ ?]|[_ ?]]; auto. Qed.

(** A worker that leaves the channel alone, keeps its ticket or drops it, and
    whose tickets are well after the change. *)
Lemma one_worker_inv objects' clients' :
  (∀ k, hand w' = Some k → hand w = Some k) → (w' = Exited → sender d = false ∧ channel d = []) →
  (∀ k, is_Some (objects d !! k) → is_Some (objects' !! k)) →
  (∀ k t, objects' !! k = Some t →
    ticket_ok (queued (channel d) (<[i := w']> (workers d)) k) (working (<[i := w']> (workers d)) k)
      (held (tickets d) k) (q_closed d) t) →
  Inv (with_worker i w' (with_clients clients' (with_objects objects' d))).
Proof.
  intros Hh Hx Hk Ht. split; cbn.
  - exact Ht.
  - apply (inv_channel d HI).
  - apply hands_insert. intros k E. left. by apply Hh.
  - intros j k [E|E]%holds_sub; [|by apply (inv_apart d HI j)].
    apply (inv_apart d HI i). apply holds_here. by apply Hh.
  - intros k Hin. apply Hk, (inv_known d HI). destruct Hin as [?|[[j [E|?]%holds_sub]|?]]; [by left| | |by right; right].
    + right. left. exists i. apply holds_here. by apply Hh.
    + right. left. by exists j.
  - apply (inv_capacity d HI).
  - apply (inv_sender d HI).
  - intros j. rewrite worker_lookup by apply worker_in. intros [[_ E]|[_ E]]; [by apply Hx|].
    by apply (inv_exited d HI j).
Qed.
End OneWorker.

Lemma mark_running_Ok t t' : mark_running t = (t', Ok tt) →
  status t = PENDING ∧ closed t = false ∧ t' = with_status RUNNING (error t) t.
Proof.
  unfold mark_running. destruct (closed t); [done|]. simpl. status_cases; [|done]. by intros [= <-].
Qed.

Lemma mark_running_Err t t' e : mark_running t = (t', Err e) →
  t' = t ∧ (closed t = true ∨ status t ≠ PENDING).
Proof.
  unfold mark_running. destruct (closed t); [intros [= <-]; auto|]. simpl. status_cases; [done|].
  intros [= <-]. auto.
Qed.

Lemma with_same d : with_clients (clients d) (with_objects (objects d) d) = d.
Proof. by destruct d. Qed.

Lemma insert_known (os : list TicketState) k t j :
  is_Some (os !! j) → is_Some (<[k := t]> os !! j).
Proof. rewrite !lookup_lt_is_Some. by rewrite length_insert. Qed.

Lemma worker_step_inv d l d' : Inv d → worker_step d l d' → Inv d'.
Proof.
  intros HI. destruct 1 as [i k rest d Hw Hc|i k t t' d Hw Hk Hm|i k t e d Hw Hk Hm|i k panicked d Hw
    |i k panicked t t' signal d Hw Hk Hf|i d Hw Hc Hs].
  - pose proof (inv_channel d HI) as Hnd. rewrite Hc in Hnd.
    apply NoDup_cons_1_1 in Hnd as Hk. apply NoDup_cons_1_2 in Hnd.
    assert (∀ j, ¬ holds (workers d) j k) as Hfree.
    { intros j Hj. apply (inv_apart d HI j k Hj). rewrite Hc. by left. }
    split; cbn.
    + intros j t Ht. apply (inv_tickets d HI) in Ht. apply (ticket_ok_iff _ _ _ _ _ _ _ _ Ht); [| |done].
      * unfold queued. setoid_rewrite worker_lookup; [|by eapply worker_in]. rewrite Hc, elem_of_cons. split.
        -- intros [[->|?]|[j' Hj']]; [right; exists i; by left|by left|right; exists j'; right].
           split; [|done]. intros ->. congruence.
        -- intros [?|[j' [[_ [= ->]]|[_ ?]]]]; [auto|auto|right; by exists j'].
      * symmetry. apply (working_other d i Idle); [done|]. split; intros [?|[? ?]]; discriminate.
    + done.
    + apply (hands_insert d HI i Idle); [done|]. intros j [= <-]. by right.
    + intros j k' [[= <-]|Hj]%(holds_sub d i Idle _ Hw); [done|].
      pose proof (inv_apart d HI j k' Hj) as Hn. rewrite Hc in Hn. by apply not_elem_of_cons in Hn as [_ Hn].
    + intros j Hj. apply (inv_known d HI). rewrite Hc. destruct Hj as [?|[[j' [[= <-]|?]%(holds_sub d i Idle _ Hw)]|?]];
        [left; by right|left; by left|right; left; by exists j'|by right; right].
    + pose proof (inv_capacity d HI) as [? Hlen]. rewrite Hc in Hlen. simpl in Hlen. split; [done|lia].
    + apply (inv_sender d HI).
    + intros j. rewrite worker_lookup by by eapply worker_in. intros [[_ ?]|[_ E]]; [done|].
      destruct (inv_exited d HI j E) as [_ E']. by rewrite Hc in E'.
  - apply mark_running_Ok in Hm as (Hp & Hc & ->).
    apply (one_worker_inv d HI i (Took k) (Running k) Hw (<[k := with_status RUNNING (error t) t]> (objects d))
             (clients d)); [by intros j [= <-]|done|by apply insert_known|].
    intros j x Hx. apply list_lookup_insert_Some in Hx as [(<- & <- & _)|[Hne Hx]].
    + destruct (inv_tickets d HI k t Hk) as [T1 T2 T3 T4 T5 T6 T7 T8]. split; cbn; try done.
      * rewrite T2, Hp. done.
      * intros _. exists i, (Running k). split; [|by left]. rewrite worker_lookup by (by eapply worker_in). by left.
      * by left.
      * intros [Hin|[j Hj]]; [by destruct (inv_apart d HI i k (holds_here d i _ Hw k eq_refl))|].
        exfalso. rewrite worker_lookup in Hj by (by eapply worker_in). destruct Hj as [[_ ?]|[Hne Hj]]; [done|].
        apply Hne. by apply (hand_alone d HI i (Took k) Hw k j (Took k)).
      * intros _. apply T8. apply not_terminal. by rewrite Hp.
    + apply (inv_tickets d HI) in Hx. apply (ticket_ok_iff _ _ _ _ _ _ _ _ Hx); [| |done]; symmetry.
      * apply (queued_other d i (Took k)); [done|]. split; [congruence|discriminate].
      * apply (working_other d i (Took k)); [done|]. split; intros [?|[? ?]]; congruence.
  - apply mark_running_Err in Hm as [_ Hm].
    apply (one_worker_inv d HI i (Took k) Idle Hw (objects d) (clients d)); [done|done|done|].
    intros j x Hx. pose proof (inv_tickets d HI j x Hx) as Hx'.
    assert (working (<[i := Idle]> (workers d)) j ↔ working (workers d) j) as Hb.
    { apply (working_other d i (Took k)); [done|]. split; intros [?|[? ?]]; congruence. }
    destruct (decide (j = k)) as [->|Hne].
    + rewrite Hk in Hx. injection Hx as <-. destruct Hx' as [T1 T2 T3 T4 T5 T6 T7 T8].
      split; try done.
      * intros E. apply Hb. auto.
      * intros B. by apply T4, Hb.
      * intros _. apply T5. right. by exists i.
      * intros E1 E2. destruct Hm; congruence.
    + apply (ticket_ok_iff _ _ _ _ _ _ _ _ Hx'); [|done|done]. symmetry.
      apply (queued_other d i (Took k)); [done|]. split; [congruence|discriminate].
  - rewrite <- (with_same d). apply (one_worker_inv d HI i (Running k) (Returned k panicked) Hw);
      [by intros j [= <-]|done|done|].
    intros j x Hx. apply (inv_tickets d HI) in Hx. apply (ticket_ok_iff _ _ _ _ _ _ _ _ Hx); [| |done]; symmetry.
    + by apply (queued_other d i (Running k)).
    + apply (working_other d i (Running k)); [done|].
      split; (intros [E|[p E]]; [|]); try discriminate; injection E as <-; [right; by eexists|by left].
  - apply (one_worker_inv d HI i (Returned k panicked) Idle Hw (<[k := t']> (objects d)));
      [done|done|by apply insert_known|].
    destruct (finish_job_evolves panicked t) as [He Hn]. rewrite Hf in He, Hn. cbn in He, Hn.
    intros j x Hx. assert (queued (channel d) (<[i := Idle]> (workers d)) j ↔ queued (channel d) (workers d) j) as Hq
      by by apply (queued_other d i (Returned k panicked)).
    apply list_lookup_insert_Some in Hx as [(<- & <- & _)|[Hne Hx]].
    + pose proof (ticket_ok_evolves _ _ _ _ _ _ (inv_tickets d HI k t Hk) He) as [T1 T2 T3 T4 T5 T6 T7 T8].
      split; try done.
      * intros (j & v & Hj & Hb). rewrite worker_lookup in Hj by (by eapply worker_in).
        destruct Hj as [[_ ->]|[Hne Hj]]; [by destruct Hb as [?|[? ?]]|].
        exfalso. apply Hne, (hand_alone d HI i _ Hw k j v eq_refl Hj). by destruct Hb as [->|[? ->]].
      * intros Q. by apply T5, Hq.
      * intros E1 E2. apply Hq. auto.
    + apply (inv_tickets d HI) in Hx. apply (ticket_ok_iff _ _ _ _ _ _ _ _ Hx); [done| |done]. symmetry.
      apply (working_other d i (Returned k panicked)); [done|]. split; intros [?|[? ?]]; congruence.
  - rewrite <- (with_same d). apply (one_worker_inv d HI i Idle Exited Hw); [done|done|done|].
    intros j x Hx. apply (inv_tickets d HI) in Hx. apply (ticket_ok_iff _ _ _ _ _ _ _ _ Hx); [| |done]; symmetry.
    + by apply (queued_other d i Idle).
    + apply (working_other d i Idle); [done|]. split; intros [?|[? ?]]; discriminate.
Qed.

(** ** What a step does to a ticket *)

Lemma cancel_pending_twice t : (cancel_pending (cancel_pending t).1).1 = (cancel_pending t).1.
Proof.
  unfold cancel_pending at 2 3. destruct (status t =? PENDING) eqn:E; [done|].
  cbn. unfold cancel_pending. by rewrite E.
Qed.

Lemma fold_cancel ks os k :
  fold_left cancel_object ks os !! k
  = match os !! k with
    | Some t => Some (if decide (k ∈ ks) then (cancel_pending t).1 else t)
    | None => None
    end.
Proof.
  revert os. induction ks as [|j ks IH]; intros os; cbn [fold_left].
  { by destruct (os !! k). }
  rewrite IH. unfold cancel_object. destruct (os !! j) as [x|] eqn:Ej.
  - destruct (decide (k = j)) as [->|Hne].
    + rewrite list_lookup_insert_eq by (by eapply lookup_lt_Some). rewrite Ej.
      rewrite (decide_True (P := j ∈ j :: ks)) by apply list_elem_of_here.
      destruct (decide (j ∈ ks)); [by rewrite cancel_pending_twice|done].
    + rewrite list_lookup_insert_ne by congruence. destruct (os !! k); [|done].
      destruct (decide (k ∈ ks)) as [Hin|Hn]; [by rewrite decide_True by by right|].
      rewrite decide_False; [done|]. by intros [?|?]%elem_of_cons.
  - destruct (os !! k) as [t|] eqn:Ek; [|done]. assert (k ≠ j) by congruence.
    destruct (decide (k ∈ ks)) as [Hin|Hn]; [by rewrite decide_True by by right|].
    rewrite decide_False; [done|]. by intros [?|?]%elem_of_cons.
Qed.

Lemma submit_objects draws task d d' r : submit draws task d = (d', r) →
  objects d' = objects d ∨ objects d' = (objects d ++ [new_ticket task])%list.
Proof.
  unfold submit. destruct (q_closed d); [intros [= <- _]; auto|].
  destruct (_ <=? _); [intros [= <- _]; auto|].
  destruct (next_ticket_id _ _ _); try (intros [= <- _]; by auto).
  destruct (negb _); [intros [= <- _]; auto|].
  destruct (_ <=? _); intros [= <- _]; auto.
Qed.

(** The steps that begin the task of [k]. *)
Definition starts (k : nat) (l : Label) : bool :=
  match l with LStart _ k' => Nat.eqb k' k | _ => false end.

(** A ticket's change in one step. *)
Definition moves (l : Label) (k : nat) (t t' : TicketState) : Prop :=
  if starts k l then mark_running t = (t', Ok tt) else evolves t t'.

Lemma same_moves l k t : starts k l = false → moves l k t t.
Proof. unfold moves. intros ->. apply evolves_refl. Qed.

Lemma put_moves (os : list TicketState) l j x x' k t :
  os !! j = Some x → os !! k = Some t → starts k l = false → evolves x x' →
  ∃ t', <[j := x']> os !! k = Some t' ∧ moves l k t t'.
Proof.
  intros Hj Hk Hl He. destruct (decide (k = j)) as [->|Hne].
  - exists x'. rewrite list_lookup_insert_eq by (by eapply lookup_lt_Some). split; [done|].
    unfold moves. rewrite Hl. congruence.
  - exists t. rewrite list_lookup_insert_ne by congruence. split; [done|]. by apply same_moves.
Qed.

Lemma step_moves d l d' k t : step d l d' → objects d !! k = Some t →
  ∃ t', objects d' !! k = Some t' ∧ moves l k t t'.
Proof.
  intros Hs Hk. assert (starts k l = false → objects d' = objects d →
    ∃ t', objects d' !! k = Some t' ∧ moves l k t t') as Hsame.
  { intros Hl ->. exists t. split; [done|]. by apply same_moves. }
  destruct Hs as [Hs|Hs].
  - destruct Hs as [| i j x x' d Hw Hj Hm| | |i j panicked x x' signal d Hw Hj Hf|]; try by apply Hsame.
    + cbn [objects with_worker with_objects]. destruct (decide (k = j)) as [->|Hne].
      * exists x'. rewrite list_lookup_insert_eq by (by eapply lookup_lt_Some). split; [done|].
        unfold moves, starts. rewrite Nat.eqb_refl. congruence.
      * exists t. rewrite list_lookup_insert_ne by congruence. split; [done|]. apply same_moves.
        unfold starts. apply Nat.eqb_neq. congruence.
    + apply (put_moves _ _ _ x); [done..|]. destruct (finish_job_evolves panicked x) as [He _]. by rewrite Hf in He.
  - destruct Hs as [j op x x' signal d Hj Hr|draws tk d d' r _ Hsub| | | | | | | | | | | | |t0 ms d Hc Hst Hlk| | | | | | |];
      try by apply Hsame.
    + apply (put_moves _ _ _ x); [done..|]. pose proof (run_ticket_evolves op x) as He. by rewrite Hr in He.
    + destruct (submit_objects _ _ _ _ _ Hsub) as [E|E]; [by apply Hsame|].
      exists t. rewrite E. split; [by apply lookup_app_l_Some|]. by apply same_moves.
    + cbn [objects set_client with_clients close_begin]. rewrite fold_cancel, Hk. eexists. split; [done|].
      unfold moves. cbn [starts]. destruct (decide _); [apply cancel_pending_evolves|apply evolves_refl].
Qed.

Lemma moves_terminal l k t t' : moves l k t t' → is_terminal t = true → is_terminal t' = true.
Proof.
  unfold moves. destruct (starts k l).
  - intros (Hp & Hc & _)%mark_running_Ok. unfold is_terminal. by rewrite Hp, Hc.
  - intros He Ht. destruct (is_terminal t') eqn:E; [done|].
    by rewrite (evolves_not_terminal t t' He E) in Ht.
Qed.

(** ** The threads that close the queue *)

Definition client_ok (d : Dispatch) (c : Client) : Prop :=
  match c with
  | CloseTake _ => q_closed d = true
  | CloseCheck _ | CloseDecide _ | CloseAsleep _ => q_closed d = true ∧ sender d = false
  | CloseWorkers _ => q_closed d = true ∧ sender d = false ∧ all_terminal d = true
  | _ => True
  end.

Definition Good (d : Dispatch) : Prop :=
  Inv d ∧ ∀ t c, clients d !! t = Some c → client_ok d c.

Lemma client_ok_notify d k signal c : client_ok d c → client_ok d (notify k signal c).
Proof.
  unfold notify. destruct signal as [[] []], c; cbn; try done; by destruct (Nat.eqb _ _).
Qed.

Lemma client_ok_wake d c : client_ok d c → client_ok d (wake_queue c).
Proof. by destruct c. Qed.

Lemma client_ok_mono d d' c : client_ok d c →
  (q_closed d = true → q_closed d' = true) → (sender d = false → sender d' = false) →
  (q_closed d = true → all_terminal d = true → all_terminal d' = true) → client_ok d' c.
Proof. destruct c; cbn; naive_solver. Qed.

Lemma all_terminal_spec d : all_terminal d = true ↔
  ∀ id k, tickets d !! id = Some k → object_terminal (objects d) k = true.
Proof.
  unfold all_terminal. rewrite forallb_forall. split.
  - intros Hall id k Hk. apply (Hall (id, k)). apply list_elem_of_In, elem_of_map_to_list. done.
  - intros Hall [id k] Hin. apply list_elem_of_In, elem_of_map_to_list in Hin. by apply (Hall id).
Qed.

(** Terminal tickets stay terminal. *)
Lemma step_terminal d l d' k : Inv d → step d l d' → is_Some (objects d !! k) →
  object_terminal (objects d) k = true → object_terminal (objects d') k = true.
Proof.
  intros _ Hs [t Ht]. unfold object_terminal. rewrite Ht. intros H.
  destruct (step_moves d l d' k t Hs Ht) as (t' & -> & Hm). by apply (moves_terminal l k t t').
Qed.

Lemma step_all_terminal d l d' : Inv d → step d l d' → tickets d' = tickets d →
  all_terminal d = true → all_terminal d' = true.
Proof.
  intros HI Hs Ht. rewrite !all_terminal_spec, Ht. intros Hall id k Hk.
  apply (step_terminal d l d' k HI Hs); [|by apply (Hall id)].
  apply (inv_known d HI). right. right. by exists id.
Qed.

(** A step leaves the map of the queue alone unless it submits to an open queue. *)
Lemma step_tickets d l d' : step d l d' → q_closed d = true → tickets d' = tickets d.
Proof.
  intros [Hs|Hs] Hc; destruct Hs as [| | | | |] || destruct Hs as [|draws tk d d' r _ Hsub| | | | | | | | | | | | | | | | | | | |];
    try done. unfold submit in Hsub. rewrite Hc in Hsub. by injection Hsub as <- _.
Qed.

Lemma step_flags d l d' : step d l d' →
  (q_closed d = true → q_closed d' = true) ∧ (sender d = false → sender d' = false).
Proof.
  intros [Hs|Hs]; destruct Hs as [| | | | |] || destruct Hs as [|draws tk d d' r _ Hsub| | | | | | | | | | | | | | | | | | | |];
    try done. revert Hsub. unfold submit. destruct (q_closed d) eqn:Hc; [intros [= <- _]; split; [intros _; exact Hc|done]|].
  destruct (_ <=? _); [intros [= <- _]; done|].
  destruct (next_ticket_id _ _ _); try (intros [= <- _]; done).
  destruct (negb _); [intros [= <- _]; done|]. destruct (_ <=? _); intros [= <- _]; done.
Qed.

Lemma step_client_mono d l d' c : Inv d → step d l d' → client_ok d c → client_ok d' c.
Proof.
  intros HI Hs Hc. destruct (step_flags d l d' Hs) as [Hq Hsnd].
  apply (client_ok_mono d d' c Hc Hq Hsnd). intros Hcl. apply (step_all_terminal d l d' HI Hs).
  by apply (step_tickets d l).
Qed.

Lemma fold_notify_lookup ks (cs : gmap ThreadId Client) t c d :
  fold_left (fun cs k => notify k everyone <$> cs) ks cs !! t = Some c →
  (∀ t c, cs !! t = Some c → client_ok d c) → client_ok d c.
Proof.
  revert cs. induction ks as [|k ks IH]; intros cs; cbn [fold_left];
    [intros Hl Hall; by apply (Hall t)|].
  intros Hl Hall. apply (IH _ Hl). intros t' c' H. apply lookup_fmap_Some in H as (c0 & <- & Hc0).
  apply client_ok_notify. by apply (Hall t').
Qed.

(** Opens a lookup in the clients of the state after a step. *)
Ltac client_cases H :=
  cbn in H; first
    [ apply lookup_insert_Some in H as [[<- <-]|[_ H]]
    | apply lookup_delete_Some in H as [_ H]
    | apply lookup_fmap_Some in H as (? & <- & H)
    | idtac ].

Lemma submit_clients draws task d d' r : submit draws task d = (d', r) →
  clients d' = clients d ∨ clients d' = wake_queue <$> clients d.
Proof.
  unfold submit. destruct (q_closed d); [intros [= <- _]; auto|].
  destruct (_ <=? _); [intros [= <- _]; auto|].
  destruct (next_ticket_id _ _ _); try (intros [= <- _]; by auto).
  destruct (negb _); [intros [= <- _]; auto|].
  destruct (_ <=? _); intros [= <- _]; auto.
Qed.

Lemma step_client_ok d l d' : Good d → step d l d' → ∀ t c, clients d' !! t = Some c → client_ok d' c.
Proof.
  intros [HI Hok] Hs t c Hl.
  assert (∀ t c, clients d !! t = Some c → client_ok d' c) as Hold.
  { intros t' c' Hc'. apply (step_client_mono d l d' c' HI Hs). by apply (Hok t'). }
  clear HI. destruct Hs as [Hs|Hs].
  - destruct Hs; client_cases Hl; try (by apply (Hold t)).
    apply client_ok_notify. by apply (Hold t).
  - destruct Hs as [k op x x' signal d Hx Hr|draws tk d d' r Hlk Hsub|t0 is_worker ms e d Hst
      |t0 ms d Hc Hst|t0 ms d Hc Hlk Hall|t0 ms d Hc Hlk Hall|t0 ms d Hc|t0 ms d Hc|t0 ms d Hc
      |t0 k ms d Hc Hd|t0 k ms o r d Hc Ho Hout|t0 k ms o d Hc Ho Hout|t0 k ms o d Hc Ho Hout|t0 k ms d Hc
      |t0 ms d Hc Hst Hlk|t0 ms d Hc|t0 ms d Hc Hlk|t0 ms d Hc|t0 ms d Hc Hlk|t0 ms d Hc
      |t0 ms d Hc Hx|t0 ms d Hc Hx]; try (client_cases Hl; first [done | by apply (Hold t)]).
    + client_cases Hl. apply client_ok_notify. by apply (Hold t).
    + apply submit_clients in Hsub as [E|E]; rewrite E in Hl; [by apply (Hold t)|].
      apply lookup_fmap_Some in Hl as (c0 & <- & Hl). apply client_ok_wake. by apply (Hold t).
    + cbn in Hl. apply lookup_insert_Some in Hl as [[<- <-]|[_ Hl]]; [done|].
      by apply (fold_notify_lookup _ _ _ _ _ Hl).
    + cbn in Hl. apply lookup_insert_Some in Hl as [[<- <-]|[_ Hl]].
      * split; [exact (Hok _ _ Hc)|done].
      * apply lookup_fmap_Some in Hl as (c0 & <- & Hl). apply client_ok_wake. by apply (Hold t).
    + pose proof (Hok _ _ Hc) as [H1 H2].
      client_cases Hl; [|by apply (Hold t)]. by destruct (all_terminal d) eqn:E.
    + client_cases Hl; [|by apply (Hold t)]. exact (Hold _ _ Hc).
    + client_cases Hl; [|by apply (Hold t)]. exact (Hold _ _ Hc).
Qed.

(** ** The invariant of the client steps *)

(** A change of the tickets along their life, of the flags, and of nothing else. *)
Lemma inv_evolved d d' :
  Inv d → channel d' = channel d → workers d' = workers d → tickets d' = tickets d →
  (sender d = false → sender d' = false) → (sender d' = false → q_closed d' = true) →
  length (objects d') = length (objects d) →
  (∀ k t', objects d' !! k = Some t' → ∃ t, objects d !! k = Some t ∧ evolves t t'
     ∧ (q_closed d' = true → q_closed d = true ∨ (status t' = PENDING → closed t' = true))) →
  Inv d'.
Proof.
  intros HI Ec Ew Et Hs Hq Hlen Ho. split; rewrite ?Ec, ?Ew, ?Et.
  - intros k t' Ht'. destruct (Ho k t' Ht') as (t & Ht & He & Hsh).
    pose proof (inv_tickets d HI k t Ht) as Hok.
    pose proof (ticket_ok_evolves _ _ _ _ t t' Hok He) as [T1 T2 T3 T4 T5 T6 T7 T8].
    split; try done. intros Hc. destruct (Hsh Hc) as [?|?]; auto.
  - apply (inv_channel d HI).
  - apply (inv_hands d HI).
  - apply (inv_apart d HI).
  - intros k Hk. pose proof (inv_known d HI k Hk) as Hx. rewrite lookup_lt_is_Some in Hx |- *. by rewrite Hlen.
  - apply (inv_capacity d HI).
  - exact Hq.
  - intros i Hi. destruct (inv_exited d HI i Hi). auto.
Qed.

Lemma inv_same d d' : Inv d → channel d' = channel d → workers d' = workers d →
  tickets d' = tickets d → sender d' = sender d → q_closed d' = q_closed d → objects d' = objects d → Inv d'.
Proof.
  intros HI Ec Ew Et Es Eq Eo. apply (inv_evolved d); try done; rewrite ?Es, ?Eq, ?Eo; [done|apply (inv_sender d HI)|done|].
  intros k t Hk. exists t. split; [done|]. split; [apply evolves_refl|auto].
Qed.

Lemma close_begin_inv d : Inv d → Inv (close_begin d).
Proof.
  intros HI. apply (inv_evolved d); try done; cbn.
  - generalize (map snd (map_to_list (tickets d))) (objects d). clear.
    induction l as [|k l IH]; intros os; cbn; [done|]. rewrite IH. unfold cancel_object.
    destruct (os !! k); [by rewrite length_insert|done].
  - intros k t'. rewrite fold_cancel. destruct (objects d !! k) as [t|] eqn:Hk; [|done].
    intros [= <-]. exists t. split; [done|]. split; [destruct (decide _); [apply cancel_pending_evolves|apply evolves_refl]|].
    intros _. right. intros Hp. destruct (decide (k ∈ map snd (map_to_list (tickets d)))) as [Hin|Hn].
    + exfalso. revert Hp. unfold cancel_pending. by status_cases.
    + destruct (closed t) eqn:Hc; [done|]. exfalso. apply Hn.
      destruct (ticket_held _ _ _ _ _ (inv_tickets d HI k t Hk)) as [id Hid].
      { apply not_terminal. by rewrite Hp. }
      apply list_elem_of_In, in_map_iff. exists (id, k). split; [done|].
      by apply list_elem_of_In, elem_of_map_to_list.
Qed.

Lemma retain_live_lookup os ts id k : retain_live os ts !! id = Some k ↔
  ts !! id = Some k ∧ object_terminal os k = false.
Proof. unfold retain_live. by rewrite map_lookup_filter_Some. Qed.

Lemma next_ticket_id_free tries draws ts id : next_ticket_id tries draws ts = Ok id → ts !! id = None.
Proof.
  induction tries as [|tries IH]; [done|]. cbn -[Z.max Z.land]. destruct (draws tries) as [z|]; [|done].
  generalize (Z.max (Z.land z 2147483647) 1). intros i.
  destruct (ts !! i) eqn:E; [exact IH|]. by intros [= <-].
Qed.

Lemma new_ticket_ok q b h task : q → ¬ b → h → ticket_ok q b h false (new_ticket task).
Proof.
  intros Hq Hb Hh. split; cbn; try done; unfold PENDING; try lia.
  all: by split; [intros []|].
Qed.

(** The queue after dropping its finished tickets. *)
Lemma retained_inv d : Inv d → Inv (with_tickets (retain_live (objects d) (tickets d)) d).
Proof.
  intros HI. split; cbn; try apply HI.
  - intros k t Hk. destruct (inv_tickets d HI k t Hk) as [T1 T2 T3 T4 T5 T6 T7 T8]. split; try done.
    intros Ht. destruct (T8 Ht) as [id Hid]. exists id. apply retain_live_lookup. split; [done|].
    unfold object_terminal. by rewrite Hk.
  - intros k Hk. apply (inv_known d HI). destruct Hk as [?|[?|[id Hid]]]; [auto|auto|].
    apply retain_live_lookup in Hid as [Hid _]. right. right. by exists id.
  - destruct (inv_capacity d HI) as [Hc ?]. split; [|done]. etrans; [|exact Hc].
    apply inj_le. rewrite <- !size_dom. apply subseteq_size, dom_filter_subseteq.
Qed.

(** A queue that accepts a task. *)
Lemma accepted_inv d id task :
  Inv d → q_closed d = false → tickets d !! id = None →
  Z.of_nat (size (tickets d)) < pending_tickets_max →
  Z.of_nat (length (channel d)) < pending_tickets_max →
  Inv (with_clients (wake_queue <$> clients d)
         (with_channel (channel d ++ [length (objects d)])%list
            (with_objects (objects d ++ [new_ticket task])%list
               (with_tickets (<[id := length (objects d)]> (tickets d)) d)))).
Proof.
  intros HI Hop Hid Hsize Hlen.
  assert (objects d !! length (objects d) = None) as Hnew by by apply lookup_ge_None.
  assert (∀ k, k ∈ channel d ∨ (∃ i, holds (workers d) i k) ∨ held (tickets d) k →
    k ≠ length (objects d)) as Hne.
  { intros k Hk ->. destruct (inv_known d HI _ Hk) as [x Hx]. by rewrite Hnew in Hx. }
  split; cbn.
  - intros k t Ht. apply lookup_snoc_Some in Ht as [[Hlt Ht]|[-> <-]].
    + apply (inv_tickets d HI) in Ht. apply (ticket_ok_iff _ _ _ _ _ _ _ _ Ht); [|done|].
      * unfold queued. rewrite elem_of_app, list_elem_of_singleton.
        split; [intros [?|?]; auto|intros [[?|E]|?]; auto; lia].
      * intros [j Hj]. exists j. rewrite lookup_insert_ne; [done|]. intros <-. by rewrite Hid in Hj.
    + rewrite Hop. apply new_ticket_ok.
      * left. apply elem_of_app. right. by left.
      * intros (i & w & Hw & Hb). apply (Hne (length (objects d))); [|done]. right. left.
        exists i, w. split; [done|]. by destruct Hb as [->|[? ->]].
      * exists id. by rewrite lookup_insert_eq.
  - apply list.NoDup_app. split; [apply (inv_channel d HI)|]. split; [|apply NoDup_singleton].
    intros k Hk ->%list_elem_of_singleton. by apply (Hne (length (objects d))); [left|].
  - apply (inv_hands d HI).
  - intros i k Hi [Hin|E%list_elem_of_singleton]%elem_of_app; [by apply (inv_apart d HI i k)|].
    apply (Hne k); [|done]. right. left. by exists i.
  - intros k Hk. rewrite lookup_lt_is_Some, length_app. cbn [length].
    assert (k = length (objects d) ∨ is_Some (objects d !! k)) as [->|Hx].
    { destruct Hk as [[?|E%list_elem_of_singleton]%elem_of_app|[?|[j Hj]]]; [|by left| |].
      - right. apply (inv_known d HI). by left.
      - right. apply (inv_known d HI). by right; left.
      - apply lookup_insert_Some in Hj as [[_ <-]|[_ Hj]]; [by left|].
        right. apply (inv_known d HI). right. right. by exists j. }
    + lia.
    + apply lookup_lt_is_Some in Hx. lia.
  - rewrite length_app, map_size_insert_None by done. cbn. lia.
  - apply (inv_sender d HI).
  - intros i Hi. destruct (inv_exited d HI i Hi) as [Hs _]. by rewrite (inv_sender d HI Hs) in Hop.
Qed.

Lemma submit_inv draws task d d' r : Inv d → submit draws task d = (d', r) → Inv d'.
Proof.
  intros HI. pose proof (retained_inv d HI) as HR. unfold submit.
  destruct (q_closed d) eqn:Hop; [by intros [= <- _]|].
  set (d1 := with_tickets _ d) in *.
  destruct (pending_tickets_max <=? _) eqn:Hsz; [by intros [= <- _]|]. apply Z.leb_gt in Hsz.
  destruct (next_ticket_id _ _ _) as [id| | |] eqn:Hid; try by intros [= <- _].
  apply next_ticket_id_free in Hid.
  destruct (sender d1) eqn:Hsnd; cbn [negb].
  - destruct (pending_tickets_max <=? _) eqn:Hch; [by intros [= <- _]|]. apply Z.leb_gt in Hch.
    intros [= <- _]. by apply (accepted_inv d1 id task HR).
  - apply (inv_sender d HI) in Hsnd. congruence.
Qed.

Lemma client_step_inv d l d' : Good d → client_step d l d' → Inv d'.
Proof.
  intros [HI Hok] Hs.
  destruct Hs as [k op x x' signal d Hx Hr|draws tk d d' r Hlk Hsub| | | | | | | | | | | | |t0 ms d Hc Hst Hlk
    |t0 ms d Hc| | | | | |]; try by apply (inv_same d).
  - apply (inv_evolved d); try done; cbn; [apply (inv_sender d HI)|by rewrite length_insert|].
    intros j y Hy. apply list_lookup_insert_Some in Hy as [(<- & <- & _)|[_ Hy]].
    + exists x. split; [done|]. pose proof (run_ticket_evolves op x) as He. rewrite Hr in He. auto.
    + exists y. split; [done|]. split; [apply evolves_refl|auto].
  - by apply (submit_inv draws tk d d' r).
  - by apply (inv_same (close_begin d)); [apply close_begin_inv|..].
  - pose proof (Hok _ _ Hc) as Hq. apply (inv_evolved d); try done; cbn.
    intros j y Hy. exists y. split; [done|]. split; [apply evolves_refl|auto].
Qed.

Lemma step_good d l d' : Good d → step d l d' → Good d'.
Proof.
  intros HG Hs. split; [|by apply (step_client_ok d l d' HG Hs)].
  destruct Hs as [Hs|Hs]; [apply (worker_step_inv d l d'); [apply HG|done]|by apply (client_step_inv d l)].
Qed.

Lemma queue_new_good workers d : queue_new workers = Ok d → Good d.
Proof.
  unfold queue_new. destruct (worker_count workers) as [n| | |]; try done. intros [= <-].
  assert (∀ i w, replicate (Z.to_nat n) Idle !! i = Some w → w = Idle) as Hidle.
  { intros i w Hw. by apply lookup_replicate in Hw as [-> _]. }
  assert (∀ i k, ¬ holds (replicate (Z.to_nat n) Idle) i k) as Hfree.
  { intros i k (w & ->%Hidle & Hh). done. }
  split; [|done]. split; cbn.
  - done.
  - by apply NoDup_nil_2.
  - intros i j k Hi. by apply Hfree in Hi.
  - intros i k Hi. by apply Hfree in Hi.
  - intros k [Hk|[[i Hi]|[id Hid]]]; [by apply not_elem_of_nil in Hk|by apply Hfree in Hi|done].
  - rewrite map_size_empty. unfold pending_tickets_max. lia.
  - done.
  - intros i Hi. by apply Hidle in Hi.
Qed.

Lemma runs_good d ls d' : Good d → runs d ls d' → Good d'.
Proof. intros HG. induction 1 as [|ls l d1 d2 _ IH Hs]; [done|]. by apply (step_good d1 l). Qed.
