(* ===== verification/DispatchRun.v ===== *)
(** * DispatchRun: what a queue promises its callers

    Over every run of a queue's workers and of the threads that call it: a job
    starts as often as its ticket says, an Ok of [join], [wait] and [close]
    means what it says, the bounds, and that the workers of a closed queue
    drain it.  [fire] runs a schedule, for the concrete runs. *)

From stdpp Require Import fin_maps fin_map_dom.
From S2P Require Import Prelude Text Failure Monitor Dispatch DispatchInv.

#[local] Open Scope string_scope.
#[local] Open Scope Z_scope.

(** ** Schedules *)

Inductive Action :=
| ATake (i : nat) | AStart (i : nat) | ADrop (i : nat) | AReturn (i : nat) | AFinish (i : nat) | AExit (i : nat)
| ASubmit (draw : Z) (task : string) | ATicket (k : nat) (op : TicketOp)
| AJoin (t : ThreadId) (ms : Z) | AWait (t : ThreadId) (k : nat) (ms : Z) | AClose (t : ThreadId) (ms : Z)
| AGo (t : ThreadId).

(** A thread's next step, when its deadline is far. *)
Definition go (t : ThreadId) (d : Dispatch) : option (Label * Dispatch) :=
  match clients d !! t with
  | None => None
  | Some (JoinCheck ms) =>
      match lock d with
      | Some _ => None
      | None => if all_terminal d then Some (LReturn t (Ok tt), end_client t d)
                else Some (LClient t, set_client t (JoinHeld ms) (with_lock (Some t) d))
      end
  | Some (JoinHeld ms) => Some (LClient t, set_client t (JoinAsleep ms) (with_lock None d))
  | Some (JoinAsleep ms) => Some (LWake t, set_client t (JoinCheck ms) d)
  | Some (WaitCheck k ms) =>
      match objects d !! k with
      | None => None
      | Some o =>
          match wait_outcome o with
          | Some r => Some (LReturn t r, end_client t d)
          | None => Some (LClient t, set_client t (WaitAsleep k ms) d)
          end
      end
  | Some (WaitAsleep k ms) => Some (LWake t, set_client t (WaitCheck k ms) d)
  | Some (CloseTake ms) =>
      Some (LClient t, set_client t (CloseCheck ms)
         (mkDispatch (q_closed d) (tickets d) false (objects d) (channel d) (workers d) (lock d)
            (wake_queue <$> clients d)))
  | Some (CloseCheck ms) =>
      match lock d with
      | Some _ => None
      | None => Some (LClient t, set_client t (if all_terminal d then CloseWorkers ms else CloseDecide ms) d)
      end
  | Some (CloseDecide ms) =>
      match lock d with
      | Some _ => None
      | None => Some (LClient t, set_client t (CloseAsleep ms) d)
      end
  | Some (CloseAsleep ms) => Some (LWake t, set_client t (CloseCheck ms) d)
  | Some (CloseWorkers ms) => if all_exited d then Some (LReturn t (Ok tt), end_client t d) else None
  end.

Definition fire (a : Action) (d : Dispatch) : option (Label * Dispatch) :=
  match a with
  | ATake i =>
      match workers d !! i, channel d with
      | Some Idle, k :: rest => Some (LWorker i, with_worker i (Took k) (with_channel rest d))
      | _, _ => None
      end
  | AStart i =>
      match workers d !! i with
      | Some (Took k) =>
          match objects d !! k with
          | Some t => match mark_running t with
                      | (t', Ok tt) => Some (LStart i k, with_worker i (Running k) (with_objects (<[k := t']> (objects d)) d))
                      | _ => None
                      end
          | None => None
          end
      | _ => None
      end
  | ADrop i =>
      match workers d !! i with
      | Some (Took k) =>
          match objects d !! k with
          | Some t => match mark_running t with
                      | (_, Err _) => Some (LWorker i, with_worker i Idle d)
                      | _ => None
                      end
          | None => None
          end
      | _ => None
      end
  | AReturn i =>
      match workers d !! i with
      | Some (Running k) => Some (LWorker i, with_worker i (Returned k false) d)
      | _ => None
      end
  | AFinish i =>
      match workers d !! i with
      | Some (Returned k panicked) =>
          match objects d !! k with
          | Some t => let '(t', signal) := finish_job panicked t in
                      Some (LWorker i, with_worker i Idle (put_ticket k t' signal d))
          | None => None
          end
      | _ => None
      end
  | AExit i =>
      match workers d !! i, channel d, sender d with
      | Some Idle, [], false => Some (LWorker i, with_worker i Exited d)
      | _, _, _ => None
      end
  | ASubmit draw task =>
      match lock d with
      | Some _ => None
      | None => let '(d', r) := submit (fun _ => Some draw) task d in Some (LSubmit r, d')
      end
  | ATicket k op =>
      match objects d !! k with
      | Some t => let '(t', signal) := run_ticket op t in Some (LTicket k op, put_ticket k t' signal d)
      | None => None
      end
  | AJoin t ms =>
      match clients d !! t, start_queue_wait false ms with
      | None, Ok tt => Some (LClient t, set_client t (JoinCheck ms) d)
      | _, _ => None
      end
  | AWait t k ms =>
      match clients d !! t, deadline ms with
      | None, Ok tt => Some (LClient t, set_client t (WaitCheck k ms) d)
      | _, _ => None
      end
  | AClose t ms =>
      match clients d !! t, start_queue_wait false ms, lock d with
      | None, Ok tt, None => Some (LClient t, set_client t (CloseTake ms) (close_begin d))
      | _, _, _ => None
      end
  | AGo t => go t d
  end.

Fixpoint schedule (acts : list Action) (d : Dispatch) : option (list Label * Dispatch) :=
  match acts with
  | [] => Some ([], d)
  | a :: acts =>
      match fire a d with
      | Some (l, d) => match schedule acts d with Some (ls, d) => Some (l :: ls, d) | None => None end
      | None => None
      end
  end.

Lemma go_step t d l d' : go t d = Some (l, d') → step d l d'.
Proof.
  intros H. right. revert H. unfold go. destruct (clients d !! t) as [[ms|ms|ms|k ms|k ms|ms|ms|ms|ms|ms]|] eqn:Hc; [..|done].
  - destruct (lock d) eqn:Hl; [done|]. destruct (all_terminal d) eqn:Ha; intros [= <- <-];
      [by apply (join_done t ms)|by apply join_hold].
  - intros [= <- <-]. by apply join_sleep.
  - intros [= <- <-]. by apply join_wake.
  - destruct (objects d !! k) as [o|] eqn:Ho; [|done].
    destruct (wait_outcome o) as [r|] eqn:Hr; intros [= <- <-];
      [by apply (wait_done t k ms o)|by apply (wait_sleep t k ms o)].
  - intros [= <- <-]. by apply wait_wake.
  - intros [= <- <-]. by apply close_take.
  - destruct (lock d) eqn:Hl; [done|]. intros [= <- <-]. by apply close_check.
  - destruct (lock d) eqn:Hl; [done|]. intros [= <- <-]. by apply close_sleep.
  - intros [= <- <-]. by apply close_wake.
  - destruct (all_exited d) eqn:Ha; [|done]. intros [= <- <-]. by apply (close_done t ms).
Qed.

Lemma fire_step a d l d' : fire a d = Some (l, d') → step d l d'.
Proof.
  destruct a as [i|i|i|i|i|i|draw task|k op|t ms|t k ms|t ms|t]; cbn [fire]; intros Hf;
    [left..|right|right|right|right|right|by apply (go_step t)]; revert Hf.
  - destruct (workers d !! i) as [[]|] eqn:Hw; try done. destruct (channel d) as [|k rest] eqn:Hc; [done|].
    intros [= <- <-]. by apply worker_take.
  - destruct (workers d !! i) as [[|k| | |]|] eqn:Hw; try done. destruct (objects d !! k) as [t|] eqn:Hk; [|done].
    destruct (mark_running t) as [t' [[]| | |]] eqn:Hm; try done. intros [= <- <-]. by apply (worker_start i k t).
  - destruct (workers d !! i) as [[|k| | |]|] eqn:Hw; try done. destruct (objects d !! k) as [t|] eqn:Hk; [|done].
    destruct (mark_running t) as [t' [[]|e| |]] eqn:Hm; try done. intros [= <- <-].
    pose proof (mark_running_Err _ _ _ Hm) as [-> _]. by apply (worker_drop i k t e).
  - destruct (workers d !! i) as [[| |k| |]|] eqn:Hw; try done. intros [= <- <-]. by apply (worker_return i k false).
  - destruct (workers d !! i) as [[| | |k p|]|] eqn:Hw; try done. destruct (objects d !! k) as [t|] eqn:Hk; [|done].
    destruct (finish_job p t) as [t' signal] eqn:Hf. intros [= <- <-]. by apply (worker_finish i k p t).
  - destruct (workers d !! i) as [[]|] eqn:Hw; try done. destruct (channel d) eqn:Hc; [|done].
    destruct (sender d) eqn:Hs; [done|]. intros [= <- <-]. by apply worker_exit.
  - destruct (lock d) eqn:Hl; [done|]. destruct (submit _ task d) as [d1 r] eqn:Hs. intros [= <- <-].
    by apply (submit_step (fun _ => Some draw) task).
  - destruct (objects d !! k) as [t|] eqn:Hk; [|done]. destruct (run_ticket op t) as [t' signal] eqn:Hr.
    intros [= <- <-]. by apply (ticket_step k op t).
  - destruct (clients d !! t) eqn:Hc; [done|]. destruct (start_queue_wait false ms) as [[]| | |] eqn:Hs; try done.
    intros [= <- <-]. by apply join_start.
  - destruct (clients d !! t) eqn:Hc; [done|]. destruct (deadline ms) as [[]| | |] eqn:Hs; try done.
    intros [= <- <-]. by apply wait_start.
  - destruct (clients d !! t) eqn:Hc; [done|]. destruct (start_queue_wait false ms) as [[]| | |] eqn:Hs; try done.
    destruct (lock d) eqn:Hl; [done|]. intros [= <- <-]. by apply close_start.
Qed.

Lemma runs_cons d l d1 ls d' : step d l d1 → runs d1 ls d' → runs d (l :: ls) d'.
Proof.
  intros Hs. induction 1 as [|ls l' d2 d3 Hr IH Hs'].
  - apply (runs_snoc d [] l d d1 (runs_nil d) Hs).
  - apply (runs_snoc d (l :: ls) l' d2 d3 IH Hs').
Qed.

Lemma schedule_runs acts d ls d' : schedule acts d = Some (ls, d') → runs d ls d'.
Proof.
  revert d ls. induction acts as [|a acts IH]; intros d ls; cbn [schedule].
  { intros [= <- <-]. apply runs_nil. }
  destruct (fire a d) as [[l d1]|] eqn:Hf; [|done].
  destruct (schedule acts d1) as [[ls1 d2]|] eqn:Hs; [|done]. intros [= <- <-].
  apply (runs_cons d l d1); [by apply (fire_step a)|by apply IH].
Qed.

(** ** A job starts as often as its ticket says *)

(** Whether a task has begun, as its status tells. *)
Definition started (o : option TicketState) : nat :=
  match o with
  | Some t => if (status t =? RUNNING) || (status t =? COMPLETED) || (status t =? FAILED) then 1 else 0
  | None => 0
  end.

Definition start_count (k : nat) (ls : list Label) : nat := length (List.filter (starts k) ls).

Lemma step_unknown d l d' k : step d l d' → objects d !! k = None →
  starts k l = false ∧ (objects d' !! k = None ∨ ∃ task, objects d' !! k = Some (new_ticket task)).
Proof.
  intros Hs Hk.
  assert (∀ j (x : TicketState), <[j := x]> (objects d) !! k = None) as Hins.
  { intros j x. apply lookup_ge_None. rewrite length_insert. by apply lookup_ge_None. }
  destruct Hs as [Hs|Hs].
  - destruct Hs as [|i j x x' d Hw Hj Hm| | | |]; split; try done;
      first [by left | by left; apply Hins | idtac].
    apply Nat.eqb_neq. congruence.
  - destruct Hs as [|draws tk d d' r _ Hsub| | | | | | | | | | | | |t0 ms d Hc Hst Hlk| | | | | | |];
      split; try done;
      first [by left | by left; apply Hins | idtac].
    + destruct (submit_objects _ _ _ _ _ Hsub) as [E|E]; rewrite E; [by left|].
      destruct ((objects d ++ [new_ticket tk])%list !! k) as [t|] eqn:Ht; [|by left].
      apply lookup_snoc_Some in Ht as [[_ Ht]|[_ <-]]; [congruence|]. right. by exists tk.
    + left. cbn. by rewrite fold_cancel, Hk.
Qed.

Lemma step_started d l d' k : step d l d' →
  (started (objects d' !! k) = (if starts k l then 1 else 0) + started (objects d !! k))%nat.
Proof.
  intros Hs. destruct (objects d !! k) as [t|] eqn:Hk.
  - destruct (step_moves d l d' k t Hs Hk) as (t' & -> & Hm). unfold moves in Hm.
    cbn [started]. destruct (starts k l).
    + apply mark_running_Ok in Hm as (Hp & _ & ->). cbn. by rewrite Hp.
    + destruct Hm as ([->|[[Hp Hp']|[Hp [Hp'|Hp']]]] & _); [done|by rewrite Hp, Hp'..].
  - destruct (step_unknown d l d' k Hs Hk) as (-> & [->|[task ->]]); done.
Qed.

(** C15: A job starts exactly as often as its ticket says: once when the ticket is
    RUNNING, COMPLETED or FAILED, and never when it is PENDING or CANCELLED,
    whatever the workers, the callers and the other holders of the ticket do
    and in whatever order; no job runs twice, and no cancelled job runs. *)
Theorem starts_as_ticket_says workers d0 ls d k :
  queue_new workers = Ok d0 → runs d0 ls d → start_count k ls = started (objects d !! k).
Proof.
  intros Hn Hr. assert (objects d0 = []) as H0.
  { revert Hn. unfold queue_new. destruct (worker_count workers); try done. by intros [= <-]. }
  induction Hr as [|ls l d d' Hr IH Hs]; [by rewrite H0|].
  rewrite (step_started d l d' k Hs), <- IH. unfold start_count. rewrite List.filter_app, length_app. cbn.
  destruct (starts k l); cbn; lia.
Qed.

(** ** What an Ok means *)

Definition returns (d : Dispatch) (t : ThreadId) (d' : Dispatch) : Prop :=
  step d (LReturn t (Ok tt)) d'.

Lemma good_terminal d : Good d → all_terminal d = true → ∀ k t, objects d !! k = Some t → is_terminal t = true.
Proof.
  intros [HI _] Hall k t Hk. destruct (is_terminal t) eqn:E; [done|].
  destruct (ticket_held _ _ _ _ _ (inv_tickets d HI k t Hk) E) as [id Hid].
  pose proof (proj1 (all_terminal_spec d) Hall id k Hid) as H. unfold object_terminal in H.
  rewrite Hk in H. congruence.
Qed.

Lemma all_exited_spec d : all_exited d = true ↔ ∀ i w, workers d !! i = Some w → w = Exited.
Proof.
  unfold all_exited. rewrite forallb_forall. split.
  - intros Hall i w Hi. apply list_elem_of_lookup_2, list_elem_of_In in Hi. apply Hall in Hi. by destruct w.
  - intros Hall w Hin. apply list_elem_of_In, list_elem_of_lookup in Hin as [i Hi]. by rewrite (Hall i w Hi).
Qed.

(** What the return of Ok tells the thread, by the call it is in. *)
Definition promised (c : Client) (d : Dispatch) : Prop :=
  match c with
  | JoinCheck _ => ∀ k t, objects d !! k = Some t → is_done t = true ∨ closed t = true
  | WaitCheck k _ => ∃ t, objects d !! k = Some t ∧ closed t = false ∧ status t = COMPLETED
  | CloseWorkers _ =>
      q_closed d = true
      ∧ (∀ k t, objects d !! k = Some t → is_done t = true ∨ closed t = true ∧ status t ≠ RUNNING)
      ∧ ∀ i w, workers d !! i = Some w → w = Exited
  | _ => False
  end.

(** The queue's ended workers run no task. *)
Lemma exited_not_running d : Good d → (∀ i w, workers d !! i = Some w → w = Exited) →
  ∀ k t, objects d !! k = Some t → status t ≠ RUNNING.
Proof.
  intros [HI _] Hex k t Hk Hrun.
  destruct (ticket_running _ _ _ _ _ (inv_tickets d HI k t Hk) Hrun) as (i & w & Hw & Hb).
  apply Hex in Hw as ->. by destruct Hb as [?|[? ?]].
Qed.

(** C16: An Ok of [Queue::join] means that the ticket of every task ever
    submitted to the queue is done (completed, failed or cancelled) or was
    closed; the task of a closed ticket may still run then
    ([join_while_running]).  An Ok of [Ticket::wait] means the ticket is open
    and COMPLETED.  An Ok of [Queue::close] means the queue is closed, every
    ticket is done or was closed, no task runs, and every worker thread has
    ended.  No other call returns that way. *)
Theorem ok_means workers d0 ls d t d' :
  queue_new workers = Ok d0 → runs d0 ls d → returns d t d' →
  ∃ c, clients d !! t = Some c ∧ promised c d.
Proof.
  intros Hn Hr Hret. pose proof (runs_good _ _ _ (queue_new_good _ _ Hn) Hr) as HG.
  assert (all_terminal d = true → ∀ k t, objects d !! k = Some t → is_done t = true ∨ closed t = true) as Hend.
  { intros Ha k o Ho. pose proof (good_terminal d HG Ha k o Ho) as H. unfold is_terminal in H.
    apply orb_true_iff in H as [H|H]; [by right|by left]. }
  unfold returns in Hret. inversion Hret as [Hw|Hc]; clear Hret; [by inversion Hw|].
  inversion Hc as [| | | |? ms ? Hc1 Hl Ha| | | | | |? k ms o r ? Hc1 Ho Hout| | | | | | | | | |? ms ? Hc1 Hx|]; subst.
  - exists (JoinCheck ms). split; [done|]. exact (Hend Ha).
  - exists (WaitCheck k ms). split; [done|]. exists o. split; [done|]. revert Hout. unfold wait_outcome.
    destruct (closed o); [done|]. by status_cases.
  - exists (CloseWorkers ms). split; [done|]. destruct (proj2 HG _ _ Hc1) as (Hq & _ & Ha).
    pose proof (proj1 (all_exited_spec d) Hx) as Hw. split; [done|]. split; [|done]. intros k o Ho.
    destruct (Hend Ha k o Ho) as [?|?]; [by left|right]. split; [done|]. by apply (exited_not_running d HG Hw k).
Qed.

(** ** Bounds *)

(** The tickets that have not come to an end. *)
Definition unfinished (os : list TicketState) : list nat :=
  List.filter (fun k => negb (object_terminal os k)) (seq 0 (length os)).

Lemma unfinished_spec os k : k ∈ unfinished os ↔ ∃ t, os !! k = Some t ∧ is_terminal t = false.
Proof.
  unfold unfinished. rewrite list_elem_of_In, List.filter_In, in_seq, negb_true_iff.
  unfold object_terminal. split.
  - intros [[_ Hlt] Ht]. destruct (lookup_lt_is_Some_2 os k) as [t Hk]; [lia|]. rewrite Hk in Ht. by exists t.
  - intros (t & Hk & Ht). rewrite Hk. split; [|done]. apply lookup_lt_Some in Hk. lia.
Qed.

Lemma unfinished_bound d : Inv d → (length (unfinished (objects d)) <= size (tickets d))%nat.
Proof.
  intros HI. assert (size (tickets d) = length (map snd (map_to_list (tickets d)))) as ->.
  { by rewrite length_map, length_map_to_list. }
  apply NoDup_incl_length.
  - apply List.NoDup_filter, seq_NoDup.
  - intros k Hk%list_elem_of_In. apply unfinished_spec in Hk as (t & Hk & Ht).
    destruct (ticket_held _ _ _ _ _ (inv_tickets d HI k t Hk) Ht) as [id Hid].
    apply in_map_iff. exists (id, k). split; [done|]. by apply list_elem_of_In, elem_of_map_to_list.
Qed.

Lemma step_workers d l d' : step d l d' → length (workers d') = length (workers d).
Proof.
  intros [Hs|Hs]; destruct Hs as [| | | | |] || destruct Hs as [|draws tk d d' r _ Hsub| | | | | | | | | | | | | | | | | | | |];
    cbn; rewrite ?length_insert; try done.
  revert Hsub. unfold submit. destruct (q_closed d); [by intros [= <- _]|].
  destruct (_ <=? _); [by intros [= <- _]|].
  destruct (next_ticket_id _ _ _); try (by intros [= <- _]).
  destruct (negb _); [by intros [= <- _]|]. destruct (_ <=? _); by intros [= <- _].
Qed.

Lemma runs_workers d ls d' : runs d ls d' → length (workers d') = length (workers d).
Proof. induction 1 as [|ls l d1 d2 Hr IH Hs]; [done|]. rewrite <- IH. by apply (step_workers d1 l). Qed.

Lemma queue_new_workers n d : queue_new n = Ok d → 1 ≤ Z.of_nat (length (workers d)) ≤ worker_count_max.
Proof.
  unfold queue_new. destruct (worker_count n) as [m| | |] eqn:Hc; try done.
  intros [= <-]. cbn. rewrite length_replicate. apply count_Ok in Hc as [-> Hc]. lia.
Qed.

(** A queue has 1 to 64 workers and holds at most 64 unfinished tasks and at
    most 64 jobs that no worker has taken; each task that waits for a worker is
    in the channel or in one worker's hands and in no two; a task that runs is in
    one worker's. *)
Theorem queue_bounds workers d0 ls d :
  queue_new workers = Ok d0 → runs d0 ls d →
  1 ≤ Z.of_nat (length (Dispatch.workers d)) ≤ worker_count_max
  ∧ Z.of_nat (length (unfinished (objects d))) ≤ pending_tickets_max
  ∧ Z.of_nat (length (channel d)) ≤ pending_tickets_max
  ∧ (∀ k t, objects d !! k = Some t → status t = PENDING → closed t = false →
       queued (channel d) (Dispatch.workers d) k)
  ∧ (∀ k t, objects d !! k = Some t → status t = RUNNING →
       ∃ i, holds (Dispatch.workers d) i k ∧ ∀ j, holds (Dispatch.workers d) j k → j = i).
Proof.
  intros Hn Hr. pose proof (runs_good _ _ _ (queue_new_good _ _ Hn) Hr) as [HI _].
  split; [|split; [|split; [|split]]].
  - rewrite (runs_workers _ _ _ Hr). by apply (queue_new_workers workers).
  - pose proof (unfinished_bound d HI). pose proof (inv_capacity d HI) as [? _]. lia.
  - apply (inv_capacity d HI).
  - intros k t Hk. by apply (ticket_pending _ _ _ _ _ (inv_tickets d HI k t Hk)).
  - intros k t Hk Ht. destruct (ticket_running _ _ _ _ _ (inv_tickets d HI k t Hk) Ht) as (i & w & Hw & Hb).
    assert (holds (Dispatch.workers d) i k) as Hi by (exists w; split; [done|by destruct Hb as [->|[? ->]]]).
    exists i. split; [done|]. intros j Hj. by apply (inv_hands d HI j i k).
Qed.

(** ** A closed queue drains *)

(** The steps a worker, and the channel, still have before them. *)
Definition worker_work (w : Worker) : nat :=
  match w with Idle => 1 | Took _ => 4 | Running _ => 3 | Returned _ _ => 2 | Exited => 0 end.
Definition work (d : Dispatch) : nat :=
  4 * length (channel d) + sum_list_with worker_work (workers d).

Definition is_worker_move (l : Label) : bool :=
  match l with LWorker _ | LStart _ _ => true | _ => false end.
Definition worker_moves (ls : list Label) : nat := length (List.filter is_worker_move ls).

Lemma worker_sum_insert ws i w w' : ws !! i = Some w →
  (sum_list_with worker_work (<[i := w']> ws) + worker_work w
   = sum_list_with worker_work ws + worker_work w')%nat.
Proof.
  intros Hi. rewrite <- (take_drop_middle ws i w Hi) at 2.
  rewrite insert_take_drop by by eapply lookup_lt_Some.
  rewrite !sum_list_with_app. cbn. lia.
Qed.

Lemma worker_step_work d l d' : worker_step d l d' →
  is_worker_move l = true ∧ (work d' < work d)%nat.
Proof.
  intros Hs. destruct Hs as [i k rest d Hw Hc|i k t t' d Hw Hk Hm|i k t e d Hw Hk Hm|i k panicked d Hw
    |i k panicked t t' signal d Hw Hk Hf|i d Hw Hc Hs]; (split; [done|]); unfold work; cbn;
    pose proof (fun w' => worker_sum_insert (workers d) i _ w' Hw) as H; cbn in H.
  1: specialize (H (Took k)); rewrite Hc; cbn in *; lia.
  1: specialize (H (Running k)); cbn in H; lia.
  1: specialize (H Idle); cbn in H; lia.
  1: specialize (H (Returned k panicked)); cbn in H; lia.
  1: specialize (H Idle); cbn in H; lia.
  1: specialize (H Exited); cbn in H; lia.
Qed.

Lemma client_step_work d l d' : client_step d l d' → q_closed d = true →
  is_worker_move l = false ∧ work d' = work d.
Proof.
  intros Hs Hq. destruct Hs as [|draws tk d d' r _ Hsub| | | | | | | | | | | | | | | | | | | |]; try done.
  revert Hsub. unfold submit. rewrite Hq. by intros [= <- _].
Qed.

(** A worker that can move. *)
Lemma worker_progress d i w : Inv d → workers d !! i = Some w → w ≠ Exited →
  (w = Idle → channel d ≠ [] ∨ sender d = false) → ∃ l d', worker_step d l d'.
Proof.
  intros HI Hw Hx Hid.
  assert (∀ k, hand w = Some k → is_Some (objects d !! k)) as Hk.
  { intros k Hk. apply (inv_known d HI). right. left. exists i. by exists w. }
  destruct w as [|k|k|k p|]; [| | | |done].
  - destruct (channel d) as [|k rest] eqn:Hc.
    + destruct (Hid eq_refl) as [?|Hs]; [done|]. do 2 eexists. by apply (worker_exit i).
    + do 2 eexists. by apply (worker_take i k rest).
  - destruct (Hk k eq_refl) as [t Ht]. destruct (mark_running t) as [t' r] eqn:Hm.
    destruct r as [[]|e|w|]; [do 2 eexists; by apply (worker_start i k t t')| |exfalso|exfalso].
    + pose proof (mark_running_Err _ _ _ Hm) as [-> _]. do 2 eexists. by apply (worker_drop i k t e).
    + revert Hm. unfold mark_running. by destruct (_ || _).
    + revert Hm. unfold mark_running. by destruct (_ || _).
  - do 2 eexists. by apply (worker_return i k false).
  - destruct (Hk k eq_refl) as [t Ht]. destruct (finish_job p t) as [t' signal] eqn:Hf.
    do 2 eexists. by apply (worker_finish i k p t).
Qed.

(** Workers that cannot move have nothing left to do. *)
Lemma stuck_drained d : Inv d → workers d ≠ [] → (∀ l d', ¬ worker_step d l d') →
  (∀ k t, objects d !! k = Some t → is_terminal t = true) ∧ (sender d = false → all_exited d = true).
Proof.
  intros HI Hne Hst.
  assert (∀ i w, workers d !! i = Some w → w = Exited ∨ (w = Idle ∧ channel d = [] ∧ sender d = true)) as Hws.
  { intros i w Hw. destruct (decide (w = Exited)) as [?|Hx]; [by left|]. right.
    destruct (decide (w = Idle ∧ channel d = [] ∧ sender d = true)) as [?|Hn]; [done|].
    exfalso. destruct (worker_progress d i w HI Hw Hx) as (l & d' & Hs); [|by apply (Hst l d')].
    intros ->. destruct (decide (channel d = [])) as [Hc|?]; [right|by left].
    destruct (sender d); [|done]. by destruct Hn. }
  assert (channel d = []) as Hch.
  { destruct (workers d) as [|w ws] eqn:E; [done|].
    destruct (Hws 0%nat w eq_refl) as [->|(_ & ? & _)]; [|done].
    apply (inv_exited d HI 0%nat). by rewrite E. }
  split.
  - intros k t Hk. destruct (is_terminal t) eqn:E; [done|]. exfalso.
    pose proof (inv_tickets d HI k t Hk) as Hok. apply not_terminal in E as [Hc Hf].
    pose proof (ticket_range _ _ _ _ _ Hok) as Hr.
    assert (status t = PENDING ∨ status t = RUNNING) as [Hp|Hp].
    { revert Hf. unfold finished_status, PENDING, RUNNING, COMPLETED, FAILED, CANCELLED. intros Hf.
      apply orb_false_iff in Hf as [[?%Z.eqb_neq ?%Z.eqb_neq]%orb_false_iff ?%Z.eqb_neq]. lia. }
    + destruct (ticket_pending _ _ _ _ _ Hok Hp Hc) as [Hin|[i Hi]].
      * rewrite Hch in Hin. by apply not_elem_of_nil in Hin.
      * by destruct (Hws i _ Hi) as [?|[? _]].
    + destruct (ticket_running _ _ _ _ _ Hok Hp) as (i & w & Hw & Hb).
      destruct (Hws i w Hw) as [->|[-> _]]; by destruct Hb as [?|[? ?]].
  - intros Hs. apply all_exited_spec. intros i w Hw. destruct (Hws i w Hw) as [?|(_ & _ & ?)]; [done|congruence].
Qed.

(** C17: A closed queue drains: whatever the interleaving of its workers with any
    other threads, the workers make at most [work d] moves more, and when none
    of them can move every task has come to an end and, once the sender is
    gone, every worker has ended, so that [close] returns Ok.  (A worker can
    move while its task runs: this is the assumption that tasks return.) *)
Theorem closed_queue_drains workers d0 ls d ls' d' :
  queue_new workers = Ok d0 → runs d0 ls d → q_closed d = true → runs d ls' d' →
  (worker_moves ls' + work d' <= work d)%nat
  ∧ ((∀ l d'', ¬ worker_step d' l d'') →
     (∀ k t, objects d' !! k = Some t → is_terminal t = true)
     ∧ (sender d' = false → all_exited d' = true)).
Proof.
  intros Hn Hr Hq Hr'. pose proof (runs_good _ _ _ (queue_new_good _ _ Hn) Hr) as HG.
  pose proof (runs_good _ _ _ HG Hr') as HG'. split.
  - assert ((worker_moves ls' + work d' <= work d)%nat ∧ q_closed d' = true) as [? _]; [|done].
    clear HG HG'. induction Hr' as [|ls' l d1 d2 Hr' IH Hs]; [done|]. destruct IH as [IH Hq1].
    split; [|by apply (step_flags d1 l d2 Hs)]. unfold worker_moves in *. rewrite List.filter_app, length_app.
    cbn [List.filter]. destruct Hs as [Hs|Hs].
    + destruct (worker_step_work _ _ _ Hs) as [-> ?]. cbn [length]. lia.
    + destruct (client_step_work _ _ _ Hs Hq1) as [-> ?]. cbn [length]. lia.
  - intros Hst. apply (stuck_drained d' (proj1 HG')); [|exact Hst]. intros E.
    pose proof (runs_workers _ _ _ Hr) as H1. pose proof (runs_workers _ _ _ Hr') as H2.
    pose proof (queue_new_workers _ _ Hn). rewrite E in H2. cbn in H2. lia.
Qed.

(** ** Wake-ups that are lost *)

Definition one_worker : Dispatch := mkDispatch false ∅ true [] [] [Idle] None ∅.

(** A task ends between the check of a joiner and its sleep; the same with a
    thread that closes; and the last ticket is closed by its holder. *)
Definition join_race : list Action :=
  [ASubmit 5 "work"; ATake 0; AStart 0; AReturn 0; AJoin 0%nat 60000; AGo 0%nat; AFinish 0; AGo 0%nat].
Definition close_race : list Action :=
  [ASubmit 5 "work"; ATake 0; AStart 0; AReturn 0; AClose 0%nat 60000; AGo 0%nat; AGo 0%nat; AFinish 0;
   AGo 0%nat].
Definition ticket_close_race : list Action :=
  [ASubmit 5 "work"; AJoin 0%nat 60000; AGo 0%nat; AGo 0%nat; ATicket 0 OpClose; ATake 0; ADrop 0].

Definition resting (w : Worker) : bool := match w with Idle | Exited => true | _ => false end.

(** Thread 0 sleeps in a call whose condition holds, and no worker has a job. *)
Definition oversleeps (c : Client) (d : Dispatch) : Prop :=
  clients d !! 0%nat = Some c ∧ all_terminal d = true ∧ channel d = []
  ∧ forallb resting (workers d) = true.

Lemma oversleeps_step c d l d' : oversleeps c d → step d l d' → is_worker_move l = true → oversleeps c d'.
Proof.
  intros (Hc & Ha & Hch & Hw) Hs Hl.
  assert (∀ i w, workers d !! i = Some w → resting w = true) as Hr.
  { intros i w Hi. rewrite forallb_forall in Hw. apply Hw, list_elem_of_In. by eapply list_elem_of_lookup_2. }
  destruct Hs as [Hs|Hs]; [|by destruct Hs].
  destruct Hs as [i k rest d Hi Hk|i k t t' d Hi Hk Hm|i k t e d Hi Hk Hm|i k panicked d Hi
    |i k panicked t t' signal d Hi Hk Hf|i d Hi Hk Hx]; try by apply Hr in Hi.
  - congruence.
  - split; [done|]. split; [done|]. split; [done|]. cbn. apply forallb_forall. intros w Hin.
    apply list_elem_of_In, list_elem_of_lookup in Hin as [j Hj].
    apply list_lookup_insert_Some in Hj as [(_ & <- & _)|[_ Hj]]; [done|]. by apply (Hr j).
Qed.

Definition can_oversleep (c : Client) : Prop :=
  ∃ ls d, runs one_worker ls d ∧ oversleeps c d
    ∧ ∀ ls' d', runs d ls' d' → Forall (fun l => is_worker_move l = true) ls' → clients d' !! 0%nat = Some c.

Lemma schedule_oversleeps acts c ls d :
  schedule acts one_worker = Some (ls, d) → oversleeps c d → can_oversleep c.
Proof.
  intros Hs Ho. exists ls, d. split; [by apply (schedule_runs acts)|]. split; [done|].
  intros ls' d' Hr Hall. assert (oversleeps c d') as [? _]; [|done].
  induction Hr as [|ls1 l d1 d2 Hr IH Hst]; [done|]. apply Forall_app in Hall as [H1 H2].
  apply Forall_inv in H2. apply (oversleeps_step c d1 l d2); [by apply IH|done|exact H2].
Qed.

(** [join] and [close] can sleep to their deadline although the queue has
    drained.  A ticket's last change notifies the queue without the queue's
    lock, so it can fall between the check of [join] and its sleep; [close]
    checks, gives the lock up, and sleeps without checking again; and
    [Ticket::close] makes its ticket terminal and does not notify the queue at
    all.  In each case the caller sleeps, every task has come to an end, and
    nothing the workers still do wakes it. *)
Theorem queue_oversleeps :
  Forall (fun acts_c => ∃ ls d, schedule acts_c.1 one_worker = Some (ls, d) ∧ oversleeps acts_c.2 d)
    [(join_race, JoinAsleep 60000); (close_race, CloseAsleep 60000); (ticket_close_race, JoinAsleep 60000)]
  ∧ can_oversleep (JoinAsleep 60000) ∧ can_oversleep (CloseAsleep 60000).
Proof.
  split; [|split].
  - repeat constructor; do 2 eexists; (split; [vm_compute; reflexivity|]); repeat split.
  - eapply (schedule_oversleeps join_race); [vm_compute; reflexivity|]. repeat split.
  - eapply (schedule_oversleeps close_race); [vm_compute; reflexivity|]. repeat split.
Qed.

(** ** Cancelled jobs keep their place *)

(** The only worker runs the task of ticket 0; [n] more have been submitted and
    cancelled. *)
Record Filled (n : nat) (d : Dispatch) : Prop := {
  filled_open : q_closed d = false;
  filled_sender : sender d = true;
  filled_free : lock d = None;
  filled_objects : objects d =
    (with_status RUNNING None (new_ticket "long") :: replicate n (with_status CANCELLED None (new_ticket "work")))%list;
  filled_live : retain_live (objects d) (tickets d) = {[1 := 0%nat]};
  filled_channel : length (channel d) = n;
}.

Lemma retain_snoc os ts t id : id ≠ 1 → retain_live os ts = {[1 := 0%nat]} → (0 < length os)%nat →
  is_terminal t = true →
  retain_live (os ++ [t])%list (<[id := length os]> (retain_live os ts)) = {[1 := 0%nat]}.
Proof.
  intros Hid Hl Hlen Ht. apply map_eq. intros j. apply option_eq. intros k.
  rewrite retain_live_lookup, Hl, lookup_insert_Some, !lookup_singleton_Some. unfold object_terminal.
  split.
  - intros [[[<- <-]|[_ [<- <-]]] Hk]; [|done]. rewrite list_lookup_middle in Hk by done. congruence.
  - intros [<- <-]. assert (retain_live os ts !! 1 = Some 0%nat) as H0 by (rewrite Hl; apply lookup_singleton_eq).
    apply retain_live_lookup in H0 as [_ H0]. split; [by right|]. by rewrite lookup_app_l by done.
Qed.

Lemma fill_one n d : Filled n d → Z.of_nat n < pending_tickets_max →
  ∃ l1 l2 d', runs d [l1; l2] d' ∧ Filled (S n) d'.
Proof.
  intros [Hq Hs Hf Ho Hl Hc] Hn.
  assert (length (objects d) = S n) as Hlen by (rewrite Ho; cbn; by rewrite length_replicate).
  set (d1 := (submit (fun _ => Some 2) "work" d).1).
  assert (submit (fun _ => Some 2) "work" d = (d1, Ok (S n)) ∧
    d1 = with_clients (wake_queue <$> clients d) (with_channel (channel d ++ [S n])%list
           (with_objects (objects d ++ [new_ticket "work"])%list
              (with_tickets (<[2 := S n]> (retain_live (objects d) (tickets d))) d)))) as [Hsub E1].
  { subst d1. unfold submit. rewrite Hq, Hl. cbn [next_ticket_id with_tickets objects sender channel].
    rewrite Hs, Hc, Hlen. change (Z.max (Z.land 2 2147483647) 1) with 2.
    rewrite lookup_singleton_ne by done. rewrite map_size_singleton. cbn [negb].
    destruct (Z.leb_spec pending_tickets_max (Z.of_nat 1)) as [H1|_]; [by vm_compute in H1|].
    by destruct (Z.leb_spec pending_tickets_max (Z.of_nat n)); [lia|]. }
  clearbody d1. exists (LSubmit (Ok (S n))), (LTicket (S n) OpCancel).
  assert (objects d1 !! S n = Some (new_ticket "work")) as Hk.
  { rewrite E1. cbn. rewrite <- Hlen. by apply list_lookup_middle. }
  exists (put_ticket (S n) (with_status CANCELLED None (new_ticket "work")) everyone d1). split.
  { eapply runs_cons; [right; by apply (submit_step (fun _ => Some 2) "work" d d1)|].
    eapply runs_cons; [right; by apply (ticket_step (S n) OpCancel (new_ticket "work"))|]. apply runs_nil. }
  assert (<[S n := with_status CANCELLED None (new_ticket "work")]> (objects d1)
    = (objects d ++ [with_status CANCELLED None (new_ticket "work")])%list) as Eo.
  { rewrite E1. cbn [objects with_clients with_channel with_objects with_tickets]. rewrite <- Hlen.
    by rewrite insert_app_r_alt, Nat.sub_diag by done. }
  split; cbn [q_closed sender lock objects tickets channel put_ticket with_clients with_objects];
    rewrite ?Eo; try (rewrite E1; cbn; done).
  - rewrite Ho. cbn [app]. f_equal. by rewrite <- replicate_S_end.
  - rewrite E1. cbn. rewrite <- Hlen. apply retain_snoc; [done|done|lia|done].
  - rewrite E1. cbn. rewrite length_app, Hc. cbn. lia.
Qed.

Lemma runs_app d ls1 d1 ls2 d2 : runs d ls1 d1 → runs d1 ls2 d2 → runs d (ls1 ++ ls2)%list d2.
Proof.
  intros H1. induction 1 as [|ls l d2 d3 H2 IH Hs]; [by rewrite app_nil_r|].
  rewrite app_assoc. by apply (runs_snoc _ _ _ d2).
Qed.

Lemma fill_all n : Z.of_nat n <= pending_tickets_max → ∃ ls d, runs one_worker ls d ∧ Filled n d.
Proof.
  induction n as [|n IH]; intros Hn.
  - destruct (schedule [ASubmit 1 "long"; ATake 0; AStart 0] one_worker) as [[ls d]|] eqn:Hs;
      [|vm_compute in Hs; discriminate].
    exists ls, d. split; [by apply (schedule_runs [ASubmit 1 "long"; ATake 0; AStart 0])|].
    vm_compute in Hs. injection Hs as <- <-. by split; vm_compute.
  - destruct IH as (ls & d & Hr & HF); [lia|]. destruct (fill_one n d HF) as (l1 & l2 & d' & Hr' & HF'); [lia|].
    exists (ls ++ [l1; l2])%list, d'. split; [by apply (runs_app _ _ d)|done].
Qed.

Lemma submit_full d draws z task :
  q_closed d = false → sender d = true → draws 7%nat = Some z →
  Z.of_nat (size (retain_live (objects d) (tickets d))) < pending_tickets_max →
  retain_live (objects d) (tickets d) !! Z.max (Z.land z 0x7fffffff) 1 = None →
  pending_tickets_max <= Z.of_nat (length (channel d)) →
  (submit draws task d).2 = Err (Saturated pending_tickets_max).
Proof.
  intros Hq Hs Hz Hsz Hid Hch. unfold submit. rewrite Hq.
  destruct (Z.leb_spec pending_tickets_max (Z.of_nat (size (retain_live (objects d) (tickets d))))); [lia|].
  cbn [next_ticket_id]. rewrite Hz, Hid. cbn [sender with_tickets channel]. rewrite Hs. cbn [negb].
  by destruct (Z.leb_spec pending_tickets_max (Z.of_nat (length (channel d)))); [|lia].
Qed.

(** Cancelled jobs saturate a queue.  [cancel] leaves the job in the channel,
    which is as long as the bound on pending tickets, so a queue with one task
    running and none pending refuses every task, with an error that says it
    already holds 1024 pending tickets. *)
Theorem cancelled_jobs_saturate :
  ∃ ls d, runs one_worker ls d
    ∧ (∀ k t, objects d !! k = Some t → (k = 0%nat ∧ status t = RUNNING) ∨ status t = CANCELLED)
    ∧ failure_cause (Saturated pending_tickets_max) = "the queue already holds 1024 pending tickets"
    ∧ ∀ draws z task, draws 7%nat = Some z → Z.max (Z.land z 0x7fffffff) 1 ≠ 1 →
        (submit draws task d).2 = Err (Saturated pending_tickets_max).
Proof.
  destruct (fill_all (Z.to_nat pending_tickets_max)) as (ls & d & Hr & [Hq Hs Hf Ho Hl Hc]); [done|].
  exists ls, d. split; [done|]. split; [|split; [by vm_compute|]].
  - intros [|k] t; rewrite Ho; cbn; [intros [= <-]; by left|].
    intros [-> _]%lookup_replicate. by right.
  - intros draws z task Hz Hne. apply (submit_full d draws z task); try done; rewrite ?Hl, ?Hc.
    + rewrite map_size_singleton. by vm_compute.
    + by apply lookup_singleton_ne.
    + by vm_compute.
Qed.

(** ** Concrete runs *)

(** Two tasks of a queue of one worker, the second cancelled; a thread waits for
    the first, a second closes the queue. *)
Definition two_tasks : list Action :=
  [ASubmit 5 "a"; ASubmit 6 "b"; ATake 0; AStart 0; ATicket 1 OpCancel; AWait 1%nat 0 1000; AReturn 0; AFinish 0].
Definition closing : list Action :=
  [AClose 0%nat 1000; AGo 0%nat; AGo 0%nat; ATake 0; ADrop 0; AExit 0].

Definition reached (acts : list Action) : list Label * Dispatch :=
  default ([], one_worker) (schedule acts one_worker).

Lemma reached_runs acts : is_Some (schedule acts one_worker) → runs one_worker (reached acts).1 (reached acts).2.
Proof. intros [[ls d] Hs]. unfold reached. rewrite Hs. by apply (schedule_runs acts). Qed.

Lemma queue_new_one : queue_new 1 = Ok one_worker.
Proof. reflexivity. Qed.

(** The counts of the two tasks. *)
Lemma starts_as_ticket_says_witness :
  start_count 0 (reached two_tasks).1 = 1%nat ∧ start_count 1 (reached two_tasks).1 = 0%nat.
Proof.
  assert (is_Some (schedule two_tasks one_worker)) as Hs by (vm_compute; by eexists).
  split; (rewrite (starts_as_ticket_says 1 one_worker _ _ _ queue_new_one (reached_runs _ Hs)); reflexivity).
Defined.

(** The waiting thread returns. *)
Lemma ok_means_witness :
  ∃ c, clients (reached two_tasks).2 !! 1%nat = Some c ∧ promised c (reached two_tasks).2.
Proof.
  assert (is_Some (schedule two_tasks one_worker)) as Hs by (vm_compute; by eexists).
  apply (ok_means 1 one_worker _ _ 1%nat (end_client 1%nat (reached two_tasks).2) queue_new_one (reached_runs _ Hs)).
  apply (go_step 1%nat). vm_compute. reflexivity.
Defined.

(** A thread joins the queue with Ok while the task of a closed ticket runs. *)
Lemma join_while_running :
  let d := (reached [ASubmit 5 "a"; ATake 0; AStart 0; ATicket 0 OpClose; AJoin 1%nat 1000]).2 in
  returns d 1%nat (end_client 1%nat d)
  ∧ (∃ t, objects d !! 0%nat = Some t ∧ status t = RUNNING ∧ is_done t = false) ∧ workers d !! 0%nat = Some (Running 0).
Proof.
  cbv zeta. split; [apply (go_step 1%nat); vm_compute; reflexivity|].
  split; [eexists; split; [vm_compute; reflexivity|by split]|vm_compute; reflexivity].
Qed.

(** The bounds after the two tasks. *)
Lemma queue_bounds_witness : Z.of_nat (length (unfinished (objects (reached two_tasks).2))) ≤ pending_tickets_max.
Proof.
  assert (is_Some (schedule two_tasks one_worker)) as Hs by (vm_compute; by eexists).
  apply (queue_bounds 1 one_worker _ _ queue_new_one (reached_runs _ Hs)).
Defined.

(** Draining the closed queue. *)
Lemma closed_queue_drains_witness :
  ∃ d ls' d', d = (reached (two_tasks ++ [AClose 0%nat 1000])%list).2 ∧ runs d ls' d'
    ∧ (worker_moves ls' + work d' <= work d)%nat ∧ worker_moves ls' = 3%nat.
Proof.
  set (acts := (two_tasks ++ [AClose 0%nat 1000])%list).
  assert (is_Some (schedule acts one_worker)) as Hs by (vm_compute; by eexists).
  destruct (schedule [AGo 0%nat; AGo 0%nat; ATake 0; ADrop 0; AExit 0] (reached acts).2) as [[ls' d']|] eqn:Hs';
    [|vm_compute in Hs'; discriminate].
  exists (reached acts).2, ls', d'. split; [done|]. pose proof (schedule_runs _ _ _ _ Hs') as Hr.
  split; [exact Hr|]. split.
  - apply (closed_queue_drains 1 one_worker (reached acts).1 (reached acts).2 ls' d' queue_new_one (reached_runs _ Hs));
      [vm_compute; reflexivity|exact Hr].
  - vm_compute in Hs'. injection Hs' as <- <-. vm_compute. reflexivity.
Defined.
