(* ===== verification/Splits.v ===== *)
(** * Splits: texts that are split, joined and cut into words

    Lemmas on [split], [split_once], [join] and [split_whitespace], on the
    scalars of texts whose bytes stand for themselves, and on the bytes of
    texts in UTF-8. *)

From S2P Require Import Prelude Text Scalars.

#[local] Open Scope string_scope.
#[local] Open Scope Z_scope.

(** ** Appending *)

Lemma str_cons_append c a b : String c a +:+ b = String c (a +:+ b).
Proof. reflexivity. Qed.
Lemma str_nil_append b : "" +:+ b = b.
Proof. reflexivity. Qed.
Lemma str_length_append a b : String.length (a +:+ b) = (String.length a + String.length b)%nat.
Proof. induction a as [|c a IH]; [done|]. rewrite str_cons_append. cbn [String.length]. lia. Qed.

(** ** Splitting and joining *)

Lemma contains_char_cons c d s : contains_char c (String d s) = Ascii.eqb c d || contains_char c s.
Proof. reflexivity. Qed.

Lemma split_free c s : contains_char c s = false → split c s = [s].
Proof.
  induction s as [|d s IH]; [done|]. rewrite contains_char_cons, orb_false_iff. intros [Hd Hs]. cbn [split].
  by rewrite Ascii.eqb_sym, Hd, IH.
Qed.
Lemma split_append c a r : contains_char c a = false → split c (a +:+ String c r) = a :: split c r.
Proof.
  induction a as [|d a IH].
  - intros _. rewrite str_nil_append. cbn [split]. by rewrite Ascii.eqb_refl.
  - rewrite contains_char_cons, orb_false_iff. intros [Hd Ha]. rewrite str_cons_append. cbn [split].
    by rewrite Ascii.eqb_sym, Hd, IH.
Qed.
Lemma split_join c l : l ≠ [] → Forall (fun s => contains_char c s = false) l → split c (join (String c "") l) = l.
Proof.
  intros Hl H. induction H as [|s l Hs Hr IH]; [done|]. destruct l as [|t l]; [by apply split_free|].
  change (join (String c "") (s :: t :: l)) with (s +:+ (String c "" +:+ join (String c "") (t :: l))).
  rewrite str_cons_append, str_nil_append, split_append by done. by rewrite IH.
Qed.
Lemma split_not_nil c s : split c s ≠ [].
Proof. destruct s as [|d s]; cbn [split]; [done|]. destruct (Ascii.eqb d c); [done|]. by destruct (split c s). Qed.

Lemma join_split c s : join (String c "") (split c s) = s.
Proof.
  induction s as [|d s IH]; [done|]. cbn [split]. destruct (Ascii.eqb_spec d c) as [->|].
  - destruct (split c s) as [|w ws] eqn:Hs; [by apply split_not_nil in Hs|].
    change (join (String c "") ("" :: w :: ws)) with (String c (join (String c "") (w :: ws))). by rewrite IH.
  - destruct (split c s) as [|w ws] eqn:Hs; [by apply split_not_nil in Hs|]. destruct ws as [|v ws]; cbn [join] in *; [by rewrite IH|].
    by rewrite str_cons_append, IH.
Qed.

Lemma split_once_none c s : contains_char c s = false ↔ split_once c s = None.
Proof.
  induction s as [|d s IH]; [done|]. rewrite contains_char_cons. cbn [split_once]. rewrite (Ascii.eqb_sym c d).
  destruct (Ascii.eqb d c); [done|]. cbn [orb]. rewrite IH. destruct (split_once c s) as [[]|]; naive_solver.
Qed.
Lemma split_once_free c s l r : split_once c s = Some (l, r) ↔ s = l +:+ String c r ∧ contains_char c l = false.
Proof.
  revert l. induction s as [|d s IH]; intros l; cbn [split_once].
  { split; [done|]. intros [E _]. by destruct l. }
  destruct (Ascii.eqb_spec d c) as [->|Hne].
  - split; [intros [= <- <-]; by rewrite str_nil_append|]. intros [E Hl]. destruct l as [|e l].
    + rewrite str_nil_append in E. by injection E as ->.
    + rewrite str_cons_append in E. injection E as -> E. rewrite contains_char_cons, Ascii.eqb_refl in Hl. done.
  - destruct (split_once c s) as [[l' r']|] eqn:Hs.
    + split.
      * intros [= <- <-]. destruct (proj1 (IH l') eq_refl) as [E Hl]. rewrite str_cons_append, contains_char_cons, Hl, <- E.
        split; [done|]. rewrite orb_false_r. apply Ascii.eqb_neq. congruence.
      * intros [E Hl]. destruct l as [|e l]; [rewrite str_nil_append in E; congruence|]. rewrite str_cons_append in E. injection E as -> E.
        rewrite contains_char_cons, orb_false_iff in Hl. pose proof (proj2 (IH l) (conj E (proj2 Hl))) as Hi. by injection Hi as -> ->.
    + split; [done|]. intros [E Hl]. destruct l as [|e l]; [rewrite str_nil_append in E; congruence|]. rewrite str_cons_append in E. injection E as -> E.
      rewrite contains_char_cons, orb_false_iff in Hl. by pose proof (proj2 (IH l) (conj E (proj2 Hl))).
Qed.


(** ** Bytes that stand for themselves *)

(** The scalars of a text without continuation bytes. *)
Definition singles (s : string) : list Char := map (fun c => String c "") (str_bytes s).
Definition single_bytes (s : string) : Prop := Forall (fun c => is_continuation c = false) (str_bytes s).

Lemma str_bytes_append a b : str_bytes (a +:+ b) = (str_bytes a ++ str_bytes b)%list.
Proof. induction a as [|c a IH]; [done|]. rewrite str_cons_append. cbn [str_bytes app]. by rewrite IH. Qed.
Lemma text_of_singles s : text_of (singles s) = s.
Proof.
  induction s as [|c s IH]; [done|]. unfold singles in *. cbn [str_bytes map text_of]. rewrite IH. by rewrite str_cons_append, str_nil_append.
Qed.
Lemma chars_singles s : single_bytes s → chars s = singles s.
Proof.
  intros H. rewrite <- (text_of_singles s) at 1. apply chars_text. unfold singles, single_bytes in *.
  induction H as [|c l Hc _ IH]; [constructor|]. constructor; [|exact IH]. cbn. by rewrite Hc.
Qed.
Lemma singles_append a b : singles (a +:+ b) = (singles a ++ singles b)%list.
Proof. unfold singles. by rewrite str_bytes_append, map_app. Qed.

(** A word: not empty, and without white space. *)
Definition word_byte (c : ascii) : bool := negb (is_continuation c) && negb (is_whitespace (String c "")).
Definition is_word (s : string) : Prop := s ≠ "" ∧ Forall (fun c => word_byte c = true) (str_bytes s).

Lemma word_checked s : negb (String.eqb s "") && forallb word_byte (str_bytes s) = true → is_word s.
Proof.
  rewrite andb_true_iff, negb_true_iff, String.eqb_neq, forallb_forall. intros [H1 H2]. split; [done|].
  apply list.Forall_forall. intros c Hc. apply H2. by apply list_elem_of_In.
Qed.

Lemma word_single s : is_word s → single_bytes s.
Proof. intros [_ H]. eapply list.Forall_impl; [exact H|]. intros c Hc. apply andb_prop in Hc as [Hc _]. by apply negb_true_iff. Qed.
Lemma word_no_space s : is_word s → Forall (fun c => is_whitespace c = false) (singles s).
Proof.
  intros [_ H]. unfold singles. induction H as [|c l Hc _ IH]; [constructor|]. constructor; [|exact IH].
  apply andb_prop in Hc as [_ Hc]. by apply negb_true_iff.
Qed.
Lemma word_singles s : is_word s → singles s ≠ [].
Proof. intros [Hs _]. unfold singles. by destruct s. Qed.

Lemma words_from_word l : Forall (fun c => is_whitespace c = false) l → ∀ reversed rest,
  words_from reversed (l ++ rest)%list = words_from (rev l ++ reversed)%list rest.
Proof.
  induction 1 as [|c l Hc _ IH]; intros reversed rest; [done|]. cbn [app words_from rev]. rewrite Hc, IH.
  by rewrite <- app_assoc.
Qed.

Lemma single_bytes_join l : Forall is_word l → single_bytes (join " " l).
Proof.
  induction 1 as [|w l Hw Hl IH]; [constructor|]. destruct l as [|v l]; [by apply word_single|].
  change (join " " (w :: v :: l)) with (w +:+ (" " +:+ join " " (v :: l))). unfold single_bytes in *.
  rewrite !str_bytes_append. apply Forall_app. split; [by apply word_single|]. by constructor.
Qed.

Lemma words_join l : Forall is_word l → words_from [] (singles (join " " l)) = map singles l.
Proof.
  induction 1 as [|w l Hw Hl IH]; [done|]. pose proof (word_no_space w Hw) as Hs. pose proof (word_singles w Hw) as Hn.
  assert (∀ rest, words_from (rev (singles w)) rest = words_from (rev (singles w) ++ [])%list rest) as Hnil by (intros; by rewrite app_nil_r).
  destruct l as [|v l].
  - change (join " " [w]) with w. rewrite <- (app_nil_r (singles w)) at 1. rewrite words_from_word, <- Hnil by done.
    cbn [words_from map]. destruct (rev (singles w)) as [|c r] eqn:E; [|by rewrite <- E, rev_involutive].
    apply (f_equal (@rev Char)) in E. rewrite rev_involutive in E. done.
  - change (join " " (w :: v :: l)) with (w +:+ (" " +:+ join " " (v :: l))). rewrite !singles_append, words_from_word, <- Hnil by done.
    change (singles " ") with [" "]. cbn [app words_from]. change (is_whitespace " ") with true. cbn iota. rewrite IH. cbn [map].
    destruct (rev (singles w)) as [|c r] eqn:E; [|by rewrite <- E, rev_involutive].
    apply (f_equal (@rev Char)) in E. rewrite rev_involutive in E. done.
Qed.

Lemma drop_while_keep {A} (p : A → bool) a l : p a = false → drop_while p (a :: l) = a :: l.
Proof. intros H. cbn. by rewrite H. Qed.

Lemma trim_word s : is_word s → trim (singles s) = singles s.
Proof.
  intros Hw. pose proof (word_no_space s Hw) as H. pose proof (Forall_rev H) as Hr. pose proof (word_singles s Hw) as Hn.
  unfold trim, trim_start, trim_end. destruct H as [|c l Hc _]; [done|]. rewrite drop_while_keep by done.
  destruct (rev (c :: l)) as [|d r] eqn:E; [by apply (f_equal (@rev Char)) in E; rewrite rev_involutive in E|].
  rewrite drop_while_keep by exact (Forall_inv Hr). by rewrite <- E, rev_involutive.
Qed.

(** Words with single spaces between them are trimmed already, and split again. *)
Lemma words_read_back l : l ≠ [] → Forall is_word l → map text_of (words_from [] (trim (chars (join " " l)))) = l.
Proof.
  intros Hl H. rewrite chars_singles by by apply single_bytes_join.
  assert (trim (singles (join " " l)) = singles (join " " l)) as ->.
  { assert (∃ c s, singles (join " " l) = c :: s ∧ is_whitespace c = false) as (c & s & E & Hc).
    { destruct H as [|w l [Hw Hb] _]; [done|]. destruct w as [|c w]; [done|]. pose proof (Forall_inv Hb) as Hc. cbn beta in Hc.
      apply andb_prop in Hc as [_ Hc]. apply negb_true_iff in Hc. exists (String c ""). destruct l; eexists; (split; [reflexivity|done]). }
    assert (∃ c s, rev (singles (join " " l)) = c :: s ∧ is_whitespace c = false) as (d & r & E' & Hd).
    { clear - H Hl. induction H as [|w l [Hw Hb] Hr IH]; [done|]. destruct l as [|v l].
      - change (join " " [w]) with w. destruct (rev (singles w)) as [|c r] eqn:E.
        { apply (f_equal (@rev Char)) in E. rewrite rev_involutive in E. by apply word_singles in E. }
        exists c, r. split; [done|]. pose proof (word_no_space w (conj Hw Hb)) as Hns. apply Forall_rev in Hns. rewrite E in Hns.
        exact (Forall_inv Hns).
      - destruct (IH ltac:(done)) as (c & r & E & Hc). change (join " " (w :: v :: l)) with (w +:+ (" " +:+ join " " (v :: l))).
        rewrite !singles_append, !rev_app_distr, E. exists c. eexists. split; [reflexivity|done]. }
    unfold trim, trim_start, trim_end. rewrite E, drop_while_keep by done. rewrite <- E, E', drop_while_keep by done.
    by rewrite <- E', rev_involutive. }
  rewrite words_join by done. rewrite map_map. clear. induction l as [|w l IH]; [done|]. cbn [map]. by rewrite text_of_singles, IH.
Qed.

(** ** Bytes and scalars in UTF-8 *)

Fixpoint holds_below (n : nat) (f : Z → bool) (z : Z) : bool :=
  match n with O => true | S n => f z && holds_below n f (z + 1) end.
Lemma holds_below_spec n f : ∀ z, holds_below n f z = true → ∀ v, z ≤ v < z + Z.of_nat n → f v = true.
Proof.
  induction n as [|n IH]; intros z H v Hv; [lia|]. cbn [holds_below] in H. apply andb_prop in H as [H1 H2].
  destruct (Z.eq_dec v z) as [->|]; [done|]. apply (IH (z + 1) H2). lia.
Qed.

(** ** One scalar *)

Lemma trailing_byte v : 0 ≤ v < 64 → is_continuation (byte_of (128 + v)) = true.
Proof. intros Hv. unfold is_continuation. rewrite byte_val_byte_of by lia. apply in_range_spec. lia. Qed.
Lemma leading_byte v : 0 ≤ v < 256 → ¬ 128 ≤ v < 192 → is_continuation (byte_of v) = false.
Proof. intros Hv Hn. unfold is_continuation. rewrite byte_val_byte_of by lia. destruct (in_range _ _ _) eqn:E; [apply in_range_spec in E; lia|done]. Qed.

(** A scalar is one ASCII byte, or bytes from 128 on. *)
Lemma utf8_encode_bytes u : 0 ≤ u ≤ 1114111 →
  is_char (utf8_encode u) = true ∧
  (u < 128 ∧ utf8_encode u = char_at u ∨ 128 ≤ u ∧ Forall (fun b => 128 ≤ byte_val b) (str_bytes (utf8_encode u))).
Proof.
  intros Hu. pose proof (Z.mod_pos_bound u 64 ltac:(lia)). pose proof (Z.mod_pos_bound (u / 64) 64 ltac:(lia)).
  pose proof (Z.mod_pos_bound (u / 4096) 64 ltac:(lia)).
  unfold utf8_encode. destruct (Z.ltb_spec u 128); [|destruct (Z.ltb_spec u 2048); [|destruct (Z.ltb_spec u 65536)]].
  all: cbn [map of_bytes is_char str_bytes].
  all: assert (0 ≤ u / 64 ∧ (u < 2048 → u / 64 < 32)) as (? & ?) by (split; intros; [apply Z.div_pos|apply Z.div_lt_upper_bound]; lia).
  all: assert (0 ≤ u / 4096 ∧ (u < 65536 → u / 4096 < 16)) as (? & ?) by (split; intros; [apply Z.div_pos|apply Z.div_lt_upper_bound]; lia).
  all: assert (0 ≤ u / 262144 ∧ u / 262144 < 5) as (? & ?) by (split; [apply Z.div_pos|apply Z.div_lt_upper_bound]; lia).
  all: unfold all_continuation; cbn [str_bytes forallb]; rewrite leading_byte, ?trailing_byte by lia; split; [done|].
  1: by left.
  all: right; split; [lia|]; repeat constructor; rewrite byte_val_byte_of by lia; lia.
Qed.

Lemma scalar_text_encode c : is_scalar_text c = true → ∃ u, 0 ≤ u ≤ 1114111 ∧ is_scalar u = true ∧ c = utf8_encode u ∧ code_point c = u.
Proof.
  unfold is_scalar_text. intros [Hs Hc%String.eqb_eq]%andb_prop. exists (code_point c). split_and!; [| |done|done|done].
  all: unfold is_scalar in Hs; rewrite orb_true_iff, !in_range_spec in Hs; lia.
Qed.

Lemma scalar_text_char c : is_scalar_text c = true → is_char c = true.
Proof. intros (u & Hu & _ & -> & _)%scalar_text_encode. by apply utf8_encode_bytes. Qed.

(** ** Texts *)

Lemma text_of_chars s : text_of (chars s) = s.
Proof.
  assert (∀ s cur, text_of (chars_from cur s) = cur +:+ s) as H; [|apply (H s "")].
  clear s. induction s as [|c s IH]; intros cur; cbn [chars_from].
  - rewrite str_append_nil. destruct cur; [done|]. cbn [text_of]. by rewrite str_append_nil.
  - destruct (is_continuation c); [by rewrite IH, str_append_assoc|].
    destruct cur as [|d cur]; [by rewrite IH|]. cbn [text_of]. by rewrite IH.
Qed.

(** A byte that starts a scalar cuts a text in two. *)
Lemma chars_cut a c b : is_continuation c = false → chars (a +:+ String c b) = (chars a ++ chars (String c b))%list.
Proof.
  intros Hc. assert (∀ a cur, chars_from cur (a +:+ String c b) = (chars_from cur a ++ chars (String c b))%list) as H; [|apply (H a "")].
  clear a. unfold chars. cbn [chars_from]. rewrite Hc. induction a as [|d a IH]; intros cur.
  - rewrite str_nil_append. cbn [chars_from]. rewrite Hc. by destruct cur.
  - rewrite str_cons_append. cbn [chars_from]. destruct (is_continuation d); [apply IH|]. destruct cur; [apply IH|]. cbn [app]. by rewrite IH.
Qed.

Lemma scalar_texts l : Forall (fun c => is_scalar_text c = true) l → Forall (fun c => is_char c = true) l.
Proof. intros H. eapply list.Forall_impl; [exact H|]. apply scalar_text_char. Qed.
Lemma utf8_scalars s : is_utf8 s = true → Forall (fun c => is_scalar_text c = true) (chars s).
Proof. intros H. apply list.Forall_forall. intros c Hc. unfold is_utf8 in H. rewrite forallb_forall in H. apply H. by apply list_elem_of_In. Qed.
Lemma utf8_text_of l : Forall (fun c => is_scalar_text c = true) l → chars (text_of l) = l ∧ is_utf8 (text_of l) = true.
Proof.
  intros H. assert (chars (text_of l) = l) as E by by apply chars_text, scalar_texts. split; [done|].
  unfold is_utf8. rewrite E. apply forallb_forall. intros c Hc. rewrite list.Forall_forall in H. by apply H, list_elem_of_In.
Qed.

Lemma utf8_append a b : is_utf8 a = true → is_utf8 b = true → chars (a +:+ b) = (chars a ++ chars b)%list ∧ is_utf8 (a +:+ b) = true.
Proof.
  intros Ha%utf8_scalars Hb%utf8_scalars. assert (a +:+ b = text_of (chars a ++ chars b)%list) as -> by by rewrite text_of_app, !text_of_chars.
  apply utf8_text_of. apply Forall_app. split; assumption.
Qed.

Lemma utf8_cut a c b : is_continuation c = false → is_utf8 (a +:+ String c b) = true → is_utf8 a = true ∧ is_utf8 (String c b) = true.
Proof. intros Hc. unfold is_utf8. rewrite chars_cut, forallb_app by done. by intros [? ?]%andb_prop. Qed.

Lemma utf8_join sep l : is_utf8 sep = true → Forall (fun s => is_utf8 s = true) l → is_utf8 (join sep l) = true.
Proof.
  intros Hsep. induction 1 as [|s l Hs _ IH]; [done|]. destruct l as [|t l]; [done|].
  change (join sep (s :: t :: l)) with (s +:+ (sep +:+ join sep (t :: l))). by apply utf8_append, utf8_append.
Qed.

(** ** Words *)

Lemma words_parts (P : Char → Prop) l : ∀ reversed, Forall P reversed → Forall P l →
  Forall (fun w => Forall P w ∧ w ≠ []) (words_from reversed l).
Proof.
  assert (∀ reversed, Forall P reversed → Forall (fun w => Forall P w ∧ w ≠ []) (match reversed with [] => [] | _ => [rev reversed] end)) as Hflush.
  { intros [|d r] H; [constructor|]. constructor; [|constructor]. split; [by apply Forall_rev|]. cbn [rev]. by destruct (rev r). }
  induction l as [|c l IH]; intros reversed Hr Hl; cbn [words_from]; [by apply Hflush|].
  pose proof (Forall_inv Hl) as Hc. apply Forall_inv_tail in Hl. cbn beta in Hc. destruct (is_whitespace c); [apply Forall_app; split; [by apply Hflush|by apply IH]|].
  apply IH; [by constructor|done].
Qed.
