(* ===== verification/Limits.v ===== *)
(** * Limits: the registry of limits ([crates/bn_limits/src/lib.rs])

    The parser of the embedded registry, the check of its defaults, and the
    limits it gives. *)

From S2P Require Import Prelude Text Scalars.

#[local] Open Scope string_scope.
#[local] Open Scope Z_scope.

Record DispatchLimits := mkDispatchLimits {
  d_worker_count : Z;
  d_worker_count_max : Z;
  d_pending_tickets : Z;
  d_pending_tickets_max : Z;
  d_timeout_min_ms : Z;
  d_timeout_max_ms : Z;
  d_output_max_bytes : Z;
}.

Record WebLimits := mkWebLimits {
  active_connections : Z;
  active_connections_max : Z;
  backlog : Z;
  backlog_max : Z;
  pending_work : Z;
  pending_work_max : Z;
  worker_count : Z;
  worker_count_max : Z;
  socket_handles_max : Z;
  max_header_bytes : Z;
  max_header_fields : Z;
  max_target_bytes : Z;
  max_body_bytes : Z;
  max_response_body_bytes : Z;
  tls_handshake_ms : Z;
  tls_handshake_max_ms : Z;
  header_read_ms : Z;
  header_read_max_ms : Z;
  body_read_ms : Z;
  body_read_max_ms : Z;
  idle_keep_alive_ms : Z;
  idle_keep_alive_max_ms : Z;
  connection_total_ms : Z;
  connection_total_max_ms : Z;
  stop_drain_ms : Z;
  stop_drain_max_ms : Z;
  resolved_addresses_max : Z;
  datagram_max_bytes : Z;
  redirects : Z;
  redirects_max : Z;
  egress_list_max : Z;
  trusted_proxy : bool;
  rate_limit_key_capacity : Z;
  rate_limit_burst : Z;
  rate_limit_burst_max : Z;
  rate_limit_refill_per_second : Z;
  rate_limit_refill_per_second_max : Z;
  request_id_bytes : Z;
  session_id_min_bytes : Z;
  async_output_max_bytes : Z;
  dispatch : DispatchLimits;
}.

Abbreviation result := (res string).

Definition trimmed (s : string) : string := text_of (trim (chars s)).

(** A section header. *)
Definition section_name (line : string) : option string :=
  match strip_prefix "[" line with
  | Some rest => if ends_with "]" line then strip_suffix "]" rest else None
  | None => None
  end.

(** The loop of [get] over the lines. *)
Fixpoint get_in (section key current : string) (raw_lines : list string) : result Z :=
  match raw_lines with
  | [] => Err ("missing registry value " +:+ section +:+ "." +:+ key)
  | raw_line :: raw_lines =>
      let line := trimmed (List.hd "" (split "#" raw_line)) in
      if String.eqb line "" then get_in section key current raw_lines
      else
        match section_name line with
        | Some name => get_in section key name raw_lines
        | None =>
            match split_once "=" line with
            | None => Err ("invalid registry line: " +:+ line)
            | Some (name, value) =>
                if String.eqb current section && String.eqb (trimmed name) key then
                  ok_or ("invalid integer for " +:+ section +:+ "." +:+ key) (from_str_radix 0 u64_MAX 10 (trimmed value))
                else get_in section key current raw_lines
            end
        end
  end.

Definition text_lines (text : string) : list string := map text_of (lines (chars text)).

(** The defaults keep within the maxima. *)
Definition within_maxima (l : WebLimits) : bool :=
  let d := dispatch l in
  negb ((active_connections_max l <? active_connections l) || (backlog_max l <? backlog l)
        || (pending_work_max l <? pending_work l) || (worker_count_max l <? worker_count l)
        || (socket_handles_max l =? 0) || (datagram_max_bytes l =? 0)
        || (max_response_body_bytes l <? max_body_bytes l) || (redirects_max l <? redirects l)
        || (d_worker_count_max d <? d_worker_count d) || (d_pending_tickets_max d <? d_pending_tickets d)
        || (d_timeout_min_ms d <? 1) || (d_timeout_max_ms d <? d_timeout_min_ms d) || (60000 <? d_timeout_max_ms d)).

Definition parse_registry (text : string) : result WebLimits :=
  let get section key := get_in section key "" (text_lines text) in
  d_worker_count ← get "dispatch" "worker_count_default";
  d_worker_count_max ← get "dispatch" "worker_count_max";
  d_pending_tickets ← get "dispatch" "pending_tickets_default";
  d_pending_tickets_max ← get "dispatch" "pending_tickets_max";
  d_timeout_min_ms ← get "dispatch" "timeout_min_ms";
  d_timeout_max_ms ← get "dispatch" "timeout_max_ms";
  d_output_max_bytes ← get "dispatch" "output_max_bytes";
  let dispatch := mkDispatchLimits d_worker_count d_worker_count_max d_pending_tickets d_pending_tickets_max d_timeout_min_ms d_timeout_max_ms d_output_max_bytes in
  active_connections ← get "connections" "active_default";
  active_connections_max ← get "connections" "active_max";
  backlog ← get "connections" "backlog_default";
  backlog_max ← get "connections" "backlog_max";
  pending_work ← get "connections" "pending_work_default";
  pending_work_max ← get "connections" "pending_work_max";
  worker_count ← get "connections" "worker_count_default";
  worker_count_max ← get "connections" "worker_count_max";
  socket_handles_max ← get "connections" "socket_handles_max";
  max_header_bytes ← get "http" "max_header_bytes_default";
  max_header_fields ← get "http" "max_header_fields_default";
  max_target_bytes ← get "http" "max_target_bytes_default";
  max_body_bytes ← get "http" "max_body_bytes_default";
  max_response_body_bytes ← get "http" "max_response_body_bytes_default";
  tls_handshake_ms ← get "timeouts_ms" "tls_handshake_default";
  tls_handshake_max_ms ← get "timeouts_ms" "tls_handshake_max";
  header_read_ms ← get "timeouts_ms" "header_read_default";
  header_read_max_ms ← get "timeouts_ms" "header_read_max";
  body_read_ms ← get "timeouts_ms" "body_read_default";
  body_read_max_ms ← get "timeouts_ms" "body_read_max";
  idle_keep_alive_ms ← get "timeouts_ms" "idle_keep_alive_default";
  idle_keep_alive_max_ms ← get "timeouts_ms" "idle_keep_alive_max";
  connection_total_ms ← get "timeouts_ms" "connection_total_default";
  connection_total_max_ms ← get "timeouts_ms" "connection_total_max";
  stop_drain_ms ← get "timeouts_ms" "stop_drain_default";
  stop_drain_max_ms ← get "timeouts_ms" "stop_drain_max";
  resolved_addresses_max ← get "client" "resolved_addresses_max";
  datagram_max_bytes ← get "client" "datagram_max_bytes";
  redirects ← get "client" "redirects_default";
  redirects_max ← get "client" "redirects_max";
  egress_list_max ← get "client" "egress_list_max";
  trusted_proxy ← get "client" "trusted_proxy_default";
  rate_limit_key_capacity ← get "rate_limit" "key_capacity_default";
  rate_limit_burst ← get "rate_limit" "burst_default";
  rate_limit_burst_max ← get "rate_limit" "burst_max";
  rate_limit_refill_per_second ← get "rate_limit" "refill_per_second_default";
  rate_limit_refill_per_second_max ← get "rate_limit" "refill_per_second_max";
  request_id_bytes ← get "identity" "request_id_bytes";
  session_id_min_bytes ← get "identity" "session_id_min_bytes";
  let limits :=
    mkWebLimits active_connections active_connections_max backlog backlog_max pending_work pending_work_max 
      worker_count worker_count_max socket_handles_max max_header_bytes max_header_fields max_target_bytes 
      max_body_bytes max_response_body_bytes tls_handshake_ms tls_handshake_max_ms header_read_ms 
      header_read_max_ms body_read_ms body_read_max_ms idle_keep_alive_ms idle_keep_alive_max_ms 
      connection_total_ms connection_total_max_ms stop_drain_ms stop_drain_max_ms resolved_addresses_max 
      datagram_max_bytes redirects redirects_max egress_list_max (negb (trusted_proxy =? 0)) 
      rate_limit_key_capacity rate_limit_burst rate_limit_burst_max rate_limit_refill_per_second 
      rate_limit_refill_per_second_max request_id_bytes session_id_min_bytes d_output_max_bytes dispatch in
  if within_maxima limits then Ok limits else Err "registry default exceeds maximum".

(** [config/0.4-bnweb-limits.toml] *)
Definition LIMITS_REGISTRY : string := "# Basic Next 0.4 BNWeb production-hardening registry.
# This is the single versioned source for normative defaults and maxima.
# Hosts may lower values, but may not raise them above these maxima.

[connections]
active_default = 128
active_max = 256
backlog_default = 128
backlog_max = 128
pending_work_default = 128
pending_work_max = 512
worker_count_default = 8
worker_count_max = 64
socket_handles_max = 256

[http]
max_header_bytes_default = 65536
max_header_fields_default = 100
max_target_bytes_default = 8192
max_body_bytes_default = 8388608
max_response_body_bytes_default = 8388608

[timeouts_ms]
tls_handshake_default = 5000
tls_handshake_max = 60000
header_read_default = 5000
header_read_max = 60000
body_read_default = 30000
body_read_max = 60000
idle_keep_alive_default = 60000
idle_keep_alive_max = 300000
connection_total_default = 120000
connection_total_max = 600000
stop_drain_default = 5000
stop_drain_max = 60000

[client]
resolved_addresses_max = 16
datagram_max_bytes = 65536
redirects_default = 10
redirects_max = 10
egress_list_max = 64
trusted_proxy_default = 0

[rate_limit]
key_capacity_default = 10000
key_capacity_max = 10000
burst_default = 10
burst_max = 10000
refill_per_second_default = 10
refill_per_second_max = 10000

[identity]
request_id_bytes = 16
session_id_min_bytes = 16

[dispatch]
worker_count_default = 8
worker_count_max = 64
pending_tickets_default = 128
pending_tickets_max = 1024
timeout_min_ms = 1
timeout_max_ms = 60000
output_max_bytes = 65536

[logging]
record_size_source = " +:+ QUOTE +:+ "BNLog" +:+ QUOTE +:+ "
".

(** [web_limits()]: the registry parses. *)
Definition web_limits : WebLimits :=
  Eval vm_compute in
    match parse_registry LIMITS_REGISTRY with
    | Ok limits => limits
    | _ => mkWebLimits 0 0 0 0 0 0 0 0 0 0 0 0 0 0 0 0 0 0 0 0 0 0 0 0 0 0 0 0 0 0 0 false 0 0 0 0 0 0 0 0
             (mkDispatchLimits 0 0 0 0 0 0 0)
    end.
Example web_limits_parsed : parse_registry LIMITS_REGISTRY = Ok web_limits.
Proof. vm_compute. reflexivity. Qed.
Example embedded_defaults :
  (active_connections web_limits, backlog_max web_limits, max_body_bytes web_limits, rate_limit_refill_per_second_max web_limits,
   session_id_min_bytes web_limits, d_pending_tickets_max (dispatch web_limits)) = (128, 128, 8 * 1024 * 1024, 10000, 16, 1024).
Proof. reflexivity. Qed.

(** An accepted registry keeps every default within its maximum. *)
Lemma parse_registry_Ok text l : parse_registry text = Ok l → within_maxima l = true.
Proof.
  unfold parse_registry. intros H. repeat (apply res_bind_Ok in H as (? & _ & H)).
  match type of H with (if within_maxima ?m then _ else _) = _ => destruct (within_maxima m) eqn:Hm end; [|done].
  by injection H as <-.
Qed.
