(* ===== verification/Routing.v ===== *)
(** * Routing: the routes of a web server ([libraries/bn_web/src/web/routing.rs])

    Patterns and methods, the choice of the route of a request with its
    parameters, and the outcome of the dispatch. *)

From S2P Require Import Prelude Text.

#[local] Open Scope string_scope.
#[local] Open Scope Z_scope.

Record Route := mkRoute { r_method : string; r_pattern : string; r_order : Z }.
#[export] Instance Route_eq_dec : EqDecision Route.
Proof. solve_decision. Defined.

Abbreviation Parameters := (gmap string string).

(** A control byte. *)
Definition is_control (c : ascii) : bool := (byte_val c <? 32) || (byte_val c =? 127).

Definition parameter_name (segment : string) : option string := strip_prefix ":" segment.

Definition is_name_byte (c : ascii) : bool := is_ascii_alphanumeric c || Ascii.eqb c "_".

(** The segments of a pattern: a name is not empty and not given twice. *)
Fixpoint valid_segments (names : list string) (segments : list string) : bool :=
  match segments with
  | [] => true
  | segment :: segments =>
      match parameter_name segment with
      | Some name =>
          negb (String.eqb name "") && forallb is_name_byte (str_bytes name) && negb (bool_decide (name ∈ names))
          && valid_segments (name :: names) segments
      | None => negb (contains_char ":" segment) && valid_segments names segments
      end
  end.

Definition valid_route_pattern (pattern : string) : bool :=
  if negb (starts_with "/" pattern) || contains_char "?" pattern || contains_char "%" pattern
     || contains_char "\" pattern || existsb is_control (str_bytes pattern)
  then false
  else valid_segments [] (split "/" pattern).

Definition METHOD_SYMBOLS : list ascii := ["!"; "#"; "$"; "%"; "&"; "'"; "*"; "+"; "-"; "."; "^"; "_"; "`"; "|"; "~"]%char.
Definition valid_method (method : string) : bool :=
  negb (String.eqb method "")
  && forallb (fun c => is_ascii_alphanumeric c || bool_decide (c ∈ METHOD_SYMBOLS)) (str_bytes method).

(** The loop over the segments: the literals that agree, and the parameters. *)
Fixpoint match_segments (pattern actual : list string) (literals : Z) (parameters : Parameters) : option (Z * Parameters) :=
  match pattern, actual with
  | expected :: pattern, found :: actual =>
      match parameter_name expected with
      | Some name =>
          if String.eqb found "" then None else match_segments pattern actual literals (<[name := found]> parameters)
      | None => if String.eqb expected found then match_segments pattern actual (literals + 1) parameters else None
      end
  | _, _ => Some (literals, parameters)
  end.

Definition match_route (method path : string) (route : Route) : option (Route * Z * Parameters) :=
  if negb (valid_route_pattern (r_pattern route)) || negb (valid_method (r_method route))
     || negb (String.eqb (r_method route) method)
  then None
  else
    let pattern := split "/" (r_pattern route) in
    let actual := split "/" path in
    if negb (length pattern =? length actual)%nat then None
    else match match_segments pattern actual 0 ∅ with
         | Some (literals, parameters) => Some (route, literals, parameters)
         | None => None
         end.

(** The key of [max_by_key], and its order. *)
Definition route_key (m : Route * Z * Parameters) : Z * Z := let '(route, literals, _) := m in (literals, usize_MAX - r_order route).
Definition key_le (a b : Z * Z) : bool := (a.1 <? b.1) || ((a.1 =? b.1) && (a.2 <=? b.2)).

(** [Iterator::max_by_key]: the last of the greatest. *)
Fixpoint max_by (best : Route * Z * Parameters) (l : list (Route * Z * Parameters)) : Route * Z * Parameters :=
  match l with
  | [] => best
  | m :: l => max_by (if key_le (route_key best) (route_key m) then m else best) l
  end.
Definition max_by_key (l : list (Route * Z * Parameters)) : option (Route * Z * Parameters) :=
  match l with [] => None | m :: l => Some (max_by m l) end.

Definition select_route (routes : list Route) (method path : string) : option (Route * Parameters) :=
  match max_by_key (omap (match_route method path) routes) with
  | Some (route, _, parameters) => Some (route, parameters)
  | None => None
  end.

(** A segment of the path that a pattern's segment lets through. *)
Definition lets_through (p : string * string) : bool := starts_with ":" p.1 || String.eqb p.1 p.2.

Definition allowed_method (path : string) (route : Route) : option string :=
  if negb (valid_route_pattern (r_pattern route)) || negb (valid_method (r_method route)) then None
  else
    let pattern := split "/" (r_pattern route) in
    let actual := split "/" path in
    if negb (length pattern =? length actual)%nat || negb (forallb lets_through (combine pattern actual)) then None
    else Some (r_method route).

(** [sort] and [dedup] of texts. *)
Fixpoint insert_text (s : string) (l : list string) : list string :=
  match l with
  | [] => [s]
  | t :: l => match str_cmp s t with Lt => s :: t :: l | Eq => t :: l | Gt => t :: insert_text s l end
  end.
Definition sorted_texts (l : list string) : list string := foldr insert_text [] l.

Definition allowed_methods (routes : list Route) (path : string) : list string :=
  sorted_texts (omap (allowed_method path) routes).

Definition route_for_request (routes : list Route) (method path : string) : option (Route * Parameters) :=
  match select_route routes method path with
  | Some found => Some found
  | None => if String.eqb method "HEAD" then select_route routes "GET" path else None
  end.

Inductive RouteOutcome :=
| Matched (route : Route) (parameters : Parameters)
| NotFound
| MethodNotAllowed (allowed : list string).

Definition dispatch_route (routes : list Route) (method path : string) : RouteOutcome :=
  match route_for_request routes method path with
  | Some (route, parameters) => Matched route parameters
  | None =>
      match allowed_methods routes path with
      | [] => NotFound
      | allowed => MethodNotAllowed allowed
      end
  end.

(** [ServerState::add_route]: the order of a route is the number of those before. *)
Definition add_route (routes : list Route) (method pattern : string) : option (list Route) :=
  if negb (valid_method method) || negb (valid_route_pattern pattern) then None
  else Some (routes ++ [mkRoute method pattern (Z.of_nat (length routes))])%list.

Definition sample_routes : list Route :=
  [mkRoute "GET" "/users/:id" 0; mkRoute "GET" "/users/me" 1; mkRoute "POST" "/users/:id" 2].
Example most_literals : dispatch_route sample_routes "GET" "/users/me" = Matched (mkRoute "GET" "/users/me" 1) ∅.
Proof. vm_compute. reflexivity. Qed.
Example not_allowed : dispatch_route sample_routes "PUT" "/users/7" = MethodNotAllowed ["GET"; "POST"].
Proof. vm_compute. reflexivity. Qed.
(** The method is refused and allowed at once: no route takes an empty
    parameter, yet the methods are collected as if one did. *)
Example refused_and_allowed : dispatch_route sample_routes "GET" "/users/" = MethodNotAllowed ["GET"; "POST"].
Proof. vm_compute. reflexivity. Qed.

(** ** What a dispatch means *)

Definition segment_fits (expected found : string) : Prop :=
  match parameter_name expected with Some _ => found ≠ "" | None => expected = found end.
#[export] Instance segment_fits_dec e f : Decision (segment_fits e f).
Proof. unfold segment_fits. destruct (parameter_name e); apply _. Defined.

(** The route serves the path: its pattern goes with it segment by segment. *)
Definition goes_with (path : string) (r : Route) : Prop :=
  valid_route_pattern (r_pattern r) = true ∧ valid_method (r_method r) = true ∧
  Forall2 segment_fits (split "/" (r_pattern r)) (split "/" path).
Definition serves (method path : string) (r : Route) : Prop := r_method r = method ∧ goes_with path r.

Definition literal_count (segments : list string) : Z :=
  Z.of_nat (length (filter (fun s => parameter_name s = None) segments)).
Definition literals (r : Route) : Z := literal_count (split "/" (r_pattern r)).

(** The pattern with the parameters in the place of their names. *)
Definition instantiate (parameters : Parameters) (segment : string) : string :=
  match parameter_name segment with Some name => default segment (parameters !! name) | None => segment end.

Lemma match_segments_Some pattern : ∀ actual count params count' params',
  match_segments pattern actual count params = Some (count', params') → length pattern = length actual →
  Forall2 segment_fits pattern actual ∧ count' = count + literal_count pattern.
Proof.
  unfold literal_count, segment_fits. induction pattern as [|e pattern IH]; intros [|f actual] count params count' params' H Hl; try done.
  { cbn in H. injection H as -> ->. split; [done|cbn; lia]. }
  cbn [match_segments] in H. injection Hl as Hl. rewrite filter_cons. destruct (parameter_name e) as [name|] eqn:He.
  - destruct (String.eqb_spec f ""); [done|]. apply IH in H as [H1 H2]; [|done]. split; [by constructor; [rewrite He|]|].
    rewrite decide_False by done. done.
  - destruct (String.eqb_spec e f) as [->|]; [|done]. apply IH in H as [H1 H2]; [|done].
    split; [by constructor; [rewrite He|]|]. rewrite decide_True by done. cbn [length]. lia.
Qed.

Lemma match_segments_fits pattern : ∀ actual count params, Forall2 segment_fits pattern actual →
  ∃ params', match_segments pattern actual count params = Some (count + literal_count pattern, params').
Proof.
  unfold segment_fits, literal_count. induction pattern as [|e pattern IH]; intros actual count params H; inversion H as [|? f ? actual' Hf Hr]; subst.
  { exists params. cbn. do 2 f_equal. lia. }
  cbn [match_segments]. rewrite filter_cons. destruct (parameter_name e) as [name|] eqn:He.
  - destruct (String.eqb_spec f ""); [done|]. rewrite decide_False by done. by apply IH.
  - subst f. rewrite String.eqb_refl, decide_True by done. destruct (IH actual' (count + 1) params Hr) as [params' ->].
    exists params'. do 2 f_equal. cbn [length]. lia.
Qed.

(** A name keeps the value it is given first. *)
Lemma match_segments_keeps pattern : ∀ actual count params count' params' names,
  match_segments pattern actual count params = Some (count', params') → valid_segments names pattern = true →
  ∀ name, name ∈ names → params' !! name = params !! name.
Proof.
  induction pattern as [|e pattern IH]; intros [|f actual] count params count' params' names H Hv name Hn; cbn [match_segments] in H;
    try by injection H as _ <-.
  cbn [valid_segments] in Hv. destruct (parameter_name e) as [m|].
  - rewrite !andb_true_iff, !negb_true_iff, bool_decide_eq_false in Hv. destruct Hv as [[_ Hm] Hv].
    destruct (String.eqb f ""); [done|]. rewrite (IH _ _ _ _ _ _ H Hv name) by by right. apply lookup_insert_ne. by intros ->.
  - apply andb_prop in Hv as [_ Hv]. destruct (String.eqb e f); [|done]. by apply (IH _ _ _ _ _ names H Hv).
Qed.

Lemma match_segments_instantiate pattern : ∀ actual count params count' params' names,
  match_segments pattern actual count params = Some (count', params') → length pattern = length actual →
  valid_segments names pattern = true → map (instantiate params') pattern = actual.
Proof.
  induction pattern as [|e pattern IH]; intros [|f actual] count params count' params' names H Hl Hv; try done.
  injection Hl as Hl. cbn [match_segments valid_segments map] in *. unfold instantiate at 1. destruct (parameter_name e) as [m|] eqn:He.
  - rewrite !andb_true_iff in Hv. destruct Hv as [_ Hv]. destruct (String.eqb f ""); [done|].
    rewrite (match_segments_keeps _ _ _ _ _ _ _ H Hv m) by by left. rewrite lookup_insert_eq. cbn. f_equal.
    by apply (IH _ _ _ _ _ _ H Hl Hv).
  - apply andb_prop in Hv as [_ Hv]. destruct (String.eqb_spec e f) as [->|]; [|done]. f_equal. by apply (IH _ _ _ _ _ _ H Hl Hv).
Qed.

Lemma valid_pattern_segments pattern : valid_route_pattern pattern = true → valid_segments [] (split "/" pattern) = true.
Proof. unfold valid_route_pattern. by destruct (_ || _). Qed.

Lemma match_route_Some method path r m : match_route method path r = Some m →
  ∃ params, m = (r, literals r, params) ∧ serves method path r ∧
    map (instantiate params) (split "/" (r_pattern r)) = split "/" path.
Proof.
  unfold match_route, literals. destruct (valid_route_pattern (r_pattern r)) eqn:Hp; [|done].
  destruct (valid_method (r_method r)) eqn:Hm; [|done]. destruct (String.eqb_spec (r_method r) method) as [He|]; [|done].
  cbn [negb orb]. destruct (Nat.eqb_spec (length (split "/" (r_pattern r))) (length (split "/" path))) as [Hl|]; [|done].
  cbn [negb]. destruct (match_segments _ _ _ _) as [[count params]|] eqn:Hs; [|done]. intros [= <-].
  destruct (match_segments_Some _ _ _ _ _ _ Hs Hl) as [Hf ->]. exists params. split; [done|]. split; [by repeat split|].
  apply (match_segments_instantiate _ _ _ _ _ _ [] Hs Hl). by apply valid_pattern_segments.
Qed.

Lemma match_route_serves method path r : serves method path r → ∃ params, match_route method path r = Some (r, literals r, params).
Proof.
  intros (Hm & Hp & Hv & Hf). unfold match_route, literals. rewrite Hp, Hv, Hm, String.eqb_refl. cbn [negb orb].
  rewrite (Forall2_length Hf), Nat.eqb_refl. cbn [negb].
  destruct (match_segments_fits _ _ 0 ∅ Hf) as [params ->]. by exists params.
Qed.

Lemma key_le_refl a : key_le a a = true.
Proof. unfold key_le. rewrite Z.eqb_refl, Z.leb_refl. apply orb_true_r. Qed.
Lemma key_le_trans a b c : key_le a b = true → key_le b c = true → key_le a c = true.
Proof. unfold key_le. rewrite !orb_true_iff, !andb_true_iff, !Z.ltb_lt, !Z.eqb_eq, !Z.leb_le. lia. Qed.
Lemma key_le_total a b : key_le a b = false → key_le b a = true.
Proof. unfold key_le. rewrite orb_false_iff, andb_false_iff, orb_true_iff, andb_true_iff, !Z.ltb_ge, Z.ltb_lt, Z.eqb_neq, Z.eqb_eq, Z.leb_gt, Z.leb_le. lia. Qed.

Lemma max_by_spec l : ∀ best, (max_by best l = best ∨ max_by best l ∈ l) ∧
  key_le (route_key best) (route_key (max_by best l)) = true ∧
  ∀ m, m ∈ l → key_le (route_key m) (route_key (max_by best l)) = true.
Proof.
  induction l as [|m l IH]; intros best; cbn [max_by].
  { split; [by left|]. split; [apply key_le_refl|]. by intros m ?%not_elem_of_nil. }
  destruct (IH (if key_le (route_key best) (route_key m) then m else best)) as (Hin & Hle & Hall).
  destruct (key_le (route_key best) (route_key m)) eqn:Hk; (split; [set_solver|]); split.
  - by eapply key_le_trans.
  - intros x [->|Hx]%elem_of_cons; auto.
  - done.
  - intros x [->|Hx]%elem_of_cons; [|auto]. eapply key_le_trans; [|exact Hle]. by apply key_le_total.
Qed.

(** [select_route] gives the route with most literals, and of these the first. *)
Lemma select_route_spec routes method path :
  match select_route routes method path with
  | Some (r, params) => r ∈ routes ∧ serves method path r ∧ map (instantiate params) (split "/" (r_pattern r)) = split "/" path ∧
      ∀ r', r' ∈ routes → serves method path r' →
        literals r' < literals r ∨ literals r' = literals r ∧ r_order r ≤ r_order r'
  | None => ∀ r, r ∈ routes → ¬ serves method path r
  end.
Proof.
  unfold select_route. assert (∀ r, r ∈ routes → serves method path r →
    ∃ params, (r, literals r, params) ∈ omap (match_route method path) routes) as Hin.
  { intros r Hr Hs. destruct (match_route_serves _ _ _ Hs) as [params Hm]. exists params. apply list_elem_of_omap. eauto. }
  destruct (omap (match_route method path) routes) as [|m l] eqn:Ho; cbn [max_by_key].
  { intros r Hr Hs. destruct (Hin r Hr Hs) as [params []%not_elem_of_nil]. }
  destruct (max_by_spec l m) as (Hmax & Hle & Hall). destruct (max_by m l) as [[r count] params] eqn:Hb.
  assert ((r, count, params) ∈ omap (match_route method path) routes) as Hr by (rewrite Ho; set_solver).
  apply list_elem_of_omap in Hr as (r0 & Hr0 & Hm). apply match_route_Some in Hm as (params' & [= -> -> ->] & Hs & Hi).
  split; [done|]. split; [done|]. split; [done|]. intros r' Hr' Hs'. destruct (Hin r' Hr' Hs') as [p' Hp'].
  assert (key_le (route_key (r', literals r', p')) (route_key (r0, literals r0, params')) = true) as Hk.
  { apply elem_of_cons in Hp' as [<-|Hp']; [done|by apply Hall]. }
  revert Hk. unfold key_le, route_key. cbn. rewrite orb_true_iff, andb_true_iff, Z.ltb_lt, Z.eqb_eq, Z.leb_le. lia.
Qed.

(** The pattern goes with the path when a parameter may be empty. *)
Definition loosely_with (path : string) (r : Route) : Prop :=
  valid_route_pattern (r_pattern r) = true ∧ valid_method (r_method r) = true ∧
  Forall2 (fun e f => parameter_name e = None → e = f) (split "/" (r_pattern r)) (split "/" path).

Lemma str_cmp_Eq a : ∀ b, str_cmp a b = Eq → a = b.
Proof.
  induction a as [|c a IH]; intros [|d b]; cbn; try done. destruct (Z.compare_spec (byte_val c) (byte_val d)) as [E| |]; try done.
  intros H. apply IH in H as ->. f_equal. unfold byte_val in E. apply N2Z.inj in E. by rewrite <- (ascii_N_embedding c), E, ascii_N_embedding.
Qed.

Lemma elem_of_insert_text x s l : x ∈ insert_text s l ↔ x = s ∨ x ∈ l.
Proof.
  induction l as [|t l IH]; cbn [insert_text]; [set_solver|]. destruct (str_cmp s t) eqn:Hc; [apply str_cmp_Eq in Hc as ->| |]; set_solver.
Qed.
Lemma elem_of_sorted_texts x l : x ∈ sorted_texts l ↔ x ∈ l.
Proof. induction l as [|s l IH]; [done|]. cbn [sorted_texts foldr]. rewrite elem_of_insert_text. set_solver. Qed.

Lemma lets_through_spec e f : lets_through (e, f) = true ↔ (parameter_name e = None → e = f).
Proof.
  unfold lets_through, starts_with, parameter_name. cbn [fst snd]. destruct (strip_prefix ":" e); cbn [orb]; [split; [by intros _ ?|done]|].
  rewrite String.eqb_eq. split; [done|by intros H; apply H].
Qed.

Lemma forallb_combine (pattern actual : list string) : length pattern = length actual →
  forallb lets_through (combine pattern actual) = true ↔ Forall2 (fun e f => parameter_name e = None → e = f) pattern actual.
Proof.
  revert actual. induction pattern as [|e pattern IH]; intros [|f actual] Hl; try done. cbn [combine forallb].
  injection Hl as Hl. rewrite andb_true_iff, lets_through_spec, IH by done. split; [intros [H1 H2]; by constructor|].
  intros H. inversion H; subst. by split.
Qed.

Lemma allowed_methods_spec routes path m :
  m ∈ allowed_methods routes path ↔ ∃ r, r ∈ routes ∧ r_method r = m ∧ loosely_with path r.
Proof.
  unfold allowed_methods. rewrite elem_of_sorted_texts, list_elem_of_omap. apply exist_proper. intros r.
  apply and_iff_compat_l. unfold allowed_method, loosely_with.
  destruct (valid_route_pattern (r_pattern r)); cbn [negb orb]; [|naive_solver].
  destruct (valid_method (r_method r)); cbn [negb orb]; [|naive_solver].
  destruct (Nat.eqb_spec (length (split "/" (r_pattern r))) (length (split "/" path))) as [Hl|Hl]; cbn [negb orb].
  - destruct (forallb lets_through _) eqn:Hf; cbn [negb].
    + apply forallb_combine in Hf; [|done]. naive_solver.
    + split; [done|]. intros (_ & _ & _ & H). apply forallb_combine in H; congruence.
  - split; [done|]. intros (_ & _ & _ & H). by apply Forall2_length in H.
Qed.

Lemma goes_loosely path r : goes_with path r → loosely_with path r.
Proof.
  intros (H1 & H2 & H3). split; [done|]. split; [done|]. eapply list.Forall2_impl; [exact H3|].
  unfold segment_fits. intros e f. destruct (parameter_name e); naive_solver.
Qed.

Lemma valid_pattern_slash pattern : valid_route_pattern pattern = true → ∃ s, pattern = String "/" s.
Proof.
  unfold valid_route_pattern. destruct (starts_with "/" pattern) eqn:Hs; [|done]. intros _. revert Hs.
  unfold starts_with. destruct (strip_prefix "/" pattern) as [s|] eqn:H; [|done]. apply strip_prefix_Some in H. eauto.
Qed.

(** Only an empty segment after the first makes the difference. *)
Lemma loosely_exact path r : loosely_with path r → "" ∉ tail (split "/" path) → goes_with path r.
Proof.
  intros (H1 & H2 & H3) Hn. split; [done|]. split; [done|]. destruct (valid_pattern_slash _ H1) as [s Hs]. clear H1 H2.
  rewrite Hs in *. cbn [split] in *. change (Ascii.eqb "/" "/") with true in *. cbn iota in *.
  inversion H3 as [|? f ? actual Hf Hr E1 E2]; subst. rewrite <- E2 in Hn. cbn [tail] in Hn. constructor; [exact (Hf eq_refl)|]. clear - Hr Hn.
  induction Hr as [|e f pattern actual Hf _ IH]; constructor.
  - unfold segment_fits. destruct (parameter_name e); [|auto]. intros ->. set_solver.
  - apply IH. set_solver.
Qed.

(** What the list of methods says of the routes. *)
Lemma methods_exact routes path : let methods := allowed_methods routes path in
  (∀ m r, r ∈ routes → serves m path r → m ∈ methods) ∧
  ("" ∉ tail (split "/" path) → ∀ m, m ∈ methods ↔ ∃ r, r ∈ routes ∧ serves m path r).
Proof.
  assert (∀ m r, r ∈ routes → serves m path r → m ∈ allowed_methods routes path) as Hin.
  { intros m r Hr [<- Hg]. apply allowed_methods_spec. exists r. split; [done|]. split; [done|]. by apply goes_loosely. }
  split; [done|]. intros Hne m. split; [|intros (r & Hr & Hs); by eapply Hin].
  intros (r & Hr & <- & Hl)%allowed_methods_spec. exists r. split; [done|]. split; [done|]. by apply loosely_exact.
Qed.

(** C31: The dispatch of a request.  It matches the route of its method whose
    pattern goes with the path, with most literal segments, the first
    registered of these (HEAD falls back on GET), and the parameters put into
    the pattern give the path.  Otherwise no route of the method (for HEAD, of
    GET either) goes with the path.  It is not found when no route goes with the
    path even if its empty segments pass for parameters.  Else it is not
    allowed, and the methods it lists are exactly those of the routes that go
    with the path this way: for a path without empty segments, exactly the
    methods the path has, not the one of the request.  (For a path with an
    empty segment the list may have more, the method of the request included:
    [refused_and_allowed].) *)
Theorem dispatch_exact routes method path :
  match dispatch_route routes method path with
  | Matched r parameters =>
      ∃ m, (m = method ∨ method = "HEAD" ∧ m = "GET" ∧ ∀ r', r' ∈ routes → ¬ serves "HEAD" path r') ∧
        r ∈ routes ∧ serves m path r ∧ map (instantiate parameters) (split "/" (r_pattern r)) = split "/" path ∧
        ∀ r', r' ∈ routes → serves m path r' → literals r' < literals r ∨ literals r' = literals r ∧ r_order r ≤ r_order r'
  | NotFound => ∀ r, r ∈ routes → ¬ loosely_with path r ∧ ¬ goes_with path r
  | MethodNotAllowed methods =>
      (∀ m r, m = method ∨ method = "HEAD" ∧ m = "GET" → r ∈ routes → ¬ serves m path r) ∧
      methods ≠ [] ∧
      (∀ m, m ∈ methods ↔ ∃ r, r ∈ routes ∧ r_method r = m ∧ loosely_with path r) ∧
      (∀ m r, r ∈ routes → serves m path r → m ∈ methods) ∧
      ("" ∉ tail (split "/" path) → method ∉ methods ∧ ∀ m, m ∈ methods ↔ ∃ r, r ∈ routes ∧ serves m path r)
  end.
Proof.
  unfold dispatch_route, route_for_request. pose proof (select_route_spec routes method path) as Hs.
  destruct (select_route routes method path) as [[r params]|].
  { exists method. destruct Hs as (H1 & H2 & H3 & H4). split; [by left|]. auto. }
  pose proof (select_route_spec routes "GET" path) as Hg.
  destruct (String.eqb_spec method "HEAD") as [->|Hne]; [destruct (select_route routes "GET" path) as [[r params]|]|].
  { exists "GET". destruct Hg as (H1 & H2 & H3 & H4). split; [by right|]. auto. }
  all: destruct (methods_exact routes path) as [Hin Hex]; pose proof (allowed_methods_spec routes path) as Hspec;
    destruct (allowed_methods routes path) as [|m methods].
  1, 3: intros r Hr; assert (¬ loosely_with path r) as Hl by (intros Hl; eapply not_elem_of_nil, Hspec; eauto);
    split; [done|]; intros Hgo; by apply Hl, goes_loosely.
  all: split; [intros x r Hx Hr; destruct Hx as [->|[? ->]]; [by apply Hs|try done; by apply Hg]|].
  all: split; [done|]; split; [exact Hspec|]; split; [exact Hin|].
  all: intros Hn; (split; [|by apply Hex]); intros (r & Hr & Hsv)%(Hex Hn); by apply (Hs r).
Qed.

