(* ===== verification/Limiter.v ===== *)
(** * Limiter: the options and the rate limiter of a web server ([libraries/bn_web/src/web/server.rs])

    The options with their bounds, the token buckets by key, and how often a
    key is let through. *)

From S2P Require Import Prelude Text Limits.

#[local] Open Scope string_scope.
#[local] Open Scope Z_scope.

(** ** Options *)

Record ServerOptions := mkOptions {
  o_active_connections : Z;
  o_backlog : Z;
  o_pending_work : Z;
  o_worker_count : Z;
  o_max_header_bytes : Z;
  o_max_header_fields : Z;
  o_max_target_bytes : Z;
  o_max_body_bytes : Z;
  o_trusted_proxy : bool;
  o_tls_handshake_ms : Z;
  o_header_read_ms : Z;
  o_body_read_ms : Z;
  o_idle_keep_alive_ms : Z;
  o_connection_total_ms : Z;
  o_stop_drain_ms : Z;
  o_rate_limit_burst : Z;
  o_rate_limit_refill_per_second : Z;
  o_rate_limit_key_capacity : Z;
}.

Definition default_options : ServerOptions :=
  let limits := web_limits in
  mkOptions (active_connections limits) (backlog limits) (pending_work limits) (worker_count limits)
    (max_header_bytes limits) (max_header_fields limits) (max_target_bytes limits) (max_body_bytes limits)
    (trusted_proxy limits) (tls_handshake_ms limits) (header_read_ms limits) (body_read_ms limits)
    (idle_keep_alive_ms limits) (connection_total_ms limits) (stop_drain_ms limits)
    (rate_limit_burst limits) (rate_limit_refill_per_second limits) (rate_limit_key_capacity limits).

Definition outside (maximum value : Z) : bool := (value =? 0) || (maximum <? value).

(** [ServerOptions::validate] *)
Definition validate (o : ServerOptions) : bool :=
  let limits := web_limits in
  negb (outside (active_connections_max limits) (o_active_connections o)
        || outside (backlog_max limits) (o_backlog o)
        || outside (pending_work_max limits) (o_pending_work o)
        || outside (worker_count_max limits) (o_worker_count o)
        || outside (max_header_bytes limits) (o_max_header_bytes o)
        || outside (max_header_fields limits) (o_max_header_fields o)
        || outside (max_target_bytes limits) (o_max_target_bytes o)
        || outside (max_body_bytes limits) (o_max_body_bytes o)
        || (max_response_body_bytes limits <? o_max_body_bytes o)
        || outside (tls_handshake_max_ms limits) (o_tls_handshake_ms o)
        || outside (header_read_max_ms limits) (o_header_read_ms o)
        || outside (body_read_max_ms limits) (o_body_read_ms o)
        || outside (idle_keep_alive_max_ms limits) (o_idle_keep_alive_ms o)
        || outside (connection_total_max_ms limits) (o_connection_total_ms o)
        || outside (stop_drain_max_ms limits) (o_stop_drain_ms o)
        || outside (rate_limit_burst_max limits) (o_rate_limit_burst o)
        || outside (rate_limit_refill_per_second_max limits) (o_rate_limit_refill_per_second o)
        || outside (rate_limit_key_capacity limits) (o_rate_limit_key_capacity o)).

(** ** The rate limiter *)

(** Instants and durations in nanoseconds. *)
Definition MS : Z := 1000000.

Record Bucket := mkBucket { tokens : Z; updated : Z }.
Record RateLimiter := mkLimiter {
  burst : Z;
  refill_per_second : Z;
  max_keys : Z;
  buckets : gmap string Bucket;
}.

Definition new_limiter (o : ServerOptions) : RateLimiter :=
  mkLimiter (o_rate_limit_burst o) (o_rate_limit_refill_per_second o) (o_rate_limit_key_capacity o) ∅.

Definition with_buckets (b : gmap string Bucket) (l : RateLimiter) : RateLimiter :=
  mkLimiter (burst l) (refill_per_second l) (max_keys l) b.

(** [saturating_duration_since(..).as_millis()] *)
Definition elapsed_ms (now since : Z) : Z := Z.max 0 (now - since) / MS.

(** The bucket after the refill. *)
Definition refilled (l : RateLimiter) (b : Bucket) (now : Z) : Bucket :=
  let refill := Z.min (elapsed_ms now (updated b) * refill_per_second l / 1000) usize_MAX in
  let tokens := Z.min (Z.min (tokens b + refill) usize_MAX) (burst l) in
  if 0 <? refill then
    let converted_ms := Z.min (refill * 1000 / refill_per_second l) u64_MAX in
    mkBucket tokens (updated b + converted_ms * MS)
  else mkBucket tokens (updated b).

(** The bucket updated least recently, the first by name of these. *)
Definition older (a b : string * Bucket) : bool :=
  (updated a.2 <? updated b.2) || ((updated a.2 =? updated b.2) && bool_decide (str_cmp a.1 b.1 = Lt)).
Definition oldest (b : gmap string Bucket) : option string :=
  fst <$> foldr (fun x best => match best with Some y => if older y x then Some y else Some x | None => Some x end)
            None (map_to_list b).

(** [allow]: 0 when the request may go on. *)
Definition allow (key : string) (now : Z) (l : RateLimiter) : RateLimiter * Z :=
  match buckets l !! key with
  | Some b =>
      let b := refilled l b now in
      if 0 <? tokens b then (with_buckets (<[key := mkBucket (tokens b - 1) (updated b)]> (buckets l)) l, 0)
      else (with_buckets (<[key := b]> (buckets l)) l, 1)
  | None =>
      let kept :=
        if max_keys l <=? Z.of_nat (size (buckets l)) then
          match oldest (buckets l) with Some victim => delete victim (buckets l) | None => buckets l end
        else buckets l in
      (with_buckets (<[key := mkBucket (Z.max 0 (burst l - 1)) now]> kept) l, 0)
  end.

(** Requests of these keys at these instants, with the answers. *)
Fixpoint allow_all (requests : list (string * Z)) (l : RateLimiter) : list Z * RateLimiter :=
  match requests with
  | [] => ([], l)
  | (key, now) :: requests =>
      let '(l, a) := allow key now l in let '(answers, l) := allow_all requests l in (a :: answers, l)
  end.

(** Above a thousand tokens a second the elapsed millisecond that gives a token
    is never used up: every request is let through. *)
Example unlimited_rate :
  let o := mkOptions 1 1 1 1 1 1 1 1 false 1 1 1 1 1 1 1 1500 1 in
  validate o = true ∧ (allow_all (("k", 0) :: replicate 100 ("k", MS)) (new_limiter o)).1 = replicate 101 0.
Proof. split; vm_compute; reflexivity. Qed.

Section Rate.
Variables (l0 : RateLimiter) (first_ last_ : Z) (keys : gset string).
Hypothesis rate_positive : 0 < refill_per_second l0 ≤ 1000.
Hypothesis burst_positive : 0 < burst l0.
Hypothesis span : 0 ≤ last_ - first_ ≤ u64_MAX.
Hypothesis room : Z.of_nat (size keys) ≤ max_keys l0.

(** The whole milliseconds in which one token comes back. *)
Definition period : Z := 1000 / refill_per_second l0.
Lemma period_positive : 0 < period.
Proof. unfold period. apply Z.div_str_pos. lia. Qed.

(** A refill gives [n] tokens and takes their time at least. *)
Lemma refilled_spec l b now : refill_per_second l = refill_per_second l0 → burst l = burst l0 →
  first_ ≤ updated b → updated b ≤ last_ → now ≤ last_ → 0 ≤ tokens b ≤ burst l0 →
  ∃ n, 0 ≤ n ∧ updated b + n * period * MS ≤ updated (refilled l b now) ≤ last_ ∧
    tokens (refilled l b now) ≤ tokens b + n ∧ 0 ≤ tokens (refilled l b now) ≤ burst l0.
Proof.
  pose proof period_positive as Hp. intros Hr Hb Hf Hl Hn Ht. unfold refilled. rewrite Hr, Hb.
  assert (∃ r, r = refill_per_second l0 ∧ 0 < r ≤ 1000) as (r & Hr0 & Hr1) by (eexists; split; [reflexivity|exact rate_positive]).
  unfold period in *. rewrite <- Hr0 in *. set (e := elapsed_ms now (updated b)).
  assert (0 ≤ e ∧ e * MS ≤ Z.max 0 (now - updated b)) as [He He'].
  { unfold e, elapsed_ms, MS. pose proof (Z.mul_div_le (Z.max 0 (now - updated b)) 1000000). split; [apply Z.div_pos|]; lia. }
  set (q := e * r / 1000). assert (0 ≤ q) as Hq by (apply Z.div_pos; nia).
  assert (q * 1000 ≤ e * r) as Hqe by (unfold q; pose proof (Z.mul_div_le (e * r) 1000); lia).
  assert (q ≤ e) as Hle by nia. assert (e ≤ u64_MAX) as Heu by (pose proof span; unfold MS in *; lia).
  rewrite (Z.min_l q) by (assert (usize_MAX = u64_MAX) as -> by reflexivity; lia).
  assert (q * 1000 / r ≤ e) as Hce by (apply Z.div_le_upper_bound; lia).
  assert (q * (1000 / r) ≤ q * 1000 / r) as Hcp.
  { apply Z.div_le_lower_bound; [lia|]. pose proof (Z.mul_div_le 1000 r). nia. }
  rewrite (Z.min_l (q * 1000 / r)) by lia. exists q. split; [done|].
  assert (0 < usize_MAX) as Hu by done.
  destruct (Z.ltb_spec 0 q) as [Hpos|Hzero]; cbn [updated tokens].
  - split; [unfold MS in *; nia|]. lia.
  - assert (q = 0) as -> by lia. split; [lia|]. lia.
Qed.

(** What the bucket of a key says after it let [a] requests through. *)
Definition accounts (key : string) (a : Z) (l : RateLimiter) : Prop :=
  match buckets l !! key with
  | None => a = 0
  | Some b => ∃ start n, first_ ≤ start ∧ 0 ≤ n ∧ start + n * period * MS ≤ updated b ≤ last_ ∧
      a + tokens b ≤ burst l0 + n ∧ 0 ≤ tokens b ≤ burst l0
  end.
Definition same_rates (l : RateLimiter) : Prop :=
  refill_per_second l = refill_per_second l0 ∧ burst l = burst l0 ∧ max_keys l = max_keys l0 ∧
  ∀ k, is_Some (buckets l !! k) → k ∈ keys.

Lemma room_left l key : same_rates l → key ∈ keys → buckets l !! key = None → Z.of_nat (size (buckets l)) < max_keys l.
Proof.
  intros (_ & _ & -> & Hin) Hk Hnone. eapply Z.lt_le_trans; [|exact room]. apply inj_lt. rewrite <- size_dom.
  apply subset_size. split; [intros k Hd; apply elem_of_dom in Hd; by apply Hin|].
  intros Hsub. apply Hsub, elem_of_dom in Hk. rewrite Hnone in Hk. by destruct Hk.
Qed.

(** A bucket that was refilled for a request, with what it then gave away. *)
Lemma refilled_accounts l b now a :
  same_rates l → first_ ≤ now ≤ last_ →
  (∃ start n, first_ ≤ start ∧ 0 ≤ n ∧ start + n * period * MS ≤ updated b ≤ last_ ∧
     a + tokens b ≤ burst l0 + n ∧ 0 ≤ tokens b ≤ burst l0) →
  let b := refilled l b now in
  ∃ start n, first_ ≤ start ∧ 0 ≤ n ∧ start + n * period * MS ≤ updated b ≤ last_ ∧
    a + tokens b ≤ burst l0 + n ∧ 0 ≤ tokens b ≤ burst l0.
Proof.
  intros (Hr & Hb & _) Hnow (start & n & Hs & Hn & Hu & Ha & Ht). pose proof period_positive.
  destruct (refilled_spec l b now Hr Hb ltac:(unfold MS in *; nia) ltac:(lia) ltac:(lia) Ht) as (m & Hm & Hu' & Ht' & Htb).
  exists start, (n + m). repeat split; try lia.
Qed.

(** One more request: at most one more let through, for its own key. *)
Lemma allow_accounts l key now other a : same_rates l → key ∈ keys → first_ ≤ now ≤ last_ → accounts other a l →
  same_rates (allow key now l).1 ∧
  accounts other (if String.eqb key other && ((allow key now l).2 =? 0) then a + 1 else a) (allow key now l).1.
Proof.
  intros Hs Hk Hnow Ha. pose proof Hs as (Hr & Hb & Hm & Hin). unfold allow.
  assert (∀ b, same_rates (with_buckets (<[key := b]> (buckets l)) l)) as Hsame.
  { intros b. repeat split; cbn; try done. intros k. rewrite lookup_insert_is_Some. intros [<-|[_ H]]; auto. }
  unfold accounts in *. destruct (String.eqb_spec key other) as [->|Hne].
  - destruct (buckets l !! other) as [b|] eqn:Hkey.
    + pose proof (refilled_accounts l b now a Hs Hnow Ha) as (start & n & Hst & Hn & Hu & Hat & Ht).
      destruct (Z.ltb_spec 0 (tokens (refilled l b now))); cbn [fst snd with_buckets buckets]; (split; [apply Hsame|]);
        rewrite lookup_insert_eq; exists start, n; cbn; repeat split; try lia.
    + pose proof (room_left l other Hs Hk Hkey) as Hroom. destruct (Z.leb_spec (max_keys l) (Z.of_nat (size (buckets l)))); [lia|].
      cbn [fst snd with_buckets buckets]. split; [apply Hsame|]. rewrite lookup_insert_eq, Hb. exists now, 0. cbn. repeat split; lia.
  - cbn [andb]. destruct (buckets l !! key) as [b|] eqn:Hkey.
    + destruct (0 <? tokens (refilled l b now)); cbn [fst snd with_buckets buckets]; (split; [apply Hsame|]);
        by rewrite lookup_insert_ne.
    + pose proof (room_left l key Hs Hk Hkey) as Hroom. destruct (Z.leb_spec (max_keys l) (Z.of_nat (size (buckets l)))); [lia|].
      cbn [fst snd with_buckets buckets]. split; [apply Hsame|]. by rewrite lookup_insert_ne.
Qed.

(** How often a key was let through. *)
Fixpoint granted (key : string) (requests : list (string * Z)) (answers : list Z) : Z :=
  match requests, answers with
  | (k, _) :: requests, a :: answers => (if String.eqb k key && (a =? 0) then 1 else 0) + granted key requests answers
  | _, _ => 0
  end.

Lemma allow_all_accounts key requests : ∀ l a, same_rates l →
  Forall (λ r, r.1 ∈ keys ∧ first_ ≤ r.2 ≤ last_) requests → accounts key a l →
  accounts key (a + granted key requests (allow_all requests l).1) (allow_all requests l).2.
Proof.
  induction requests as [|[k now] requests IH]; intros l a Hs Hall Ha; [by rewrite Z.add_0_r|].
  apply list.Forall_cons in Hall as [[Hk Hnow] Hall]. pose proof (allow_accounts l k now key a Hs Hk Hnow Ha) as [Hs' Ha'].
  cbn [allow_all]. destruct (allow k now l) as [l' answer]. cbn [fst snd] in *. specialize (IH l' _ Hs' Hall Ha').
  destruct (allow_all requests l') as [answers final]. cbn [fst snd granted] in *.
  destruct (String.eqb k key && (answer =? 0)); [by rewrite Z.add_assoc|exact IH].
Qed.

(** C33: For a rate of at most 1000 tokens a second, and while the keys in use fit
    into the capacity of the limiter, so that none is forgotten: whatever the
    order of the requests, a key is let through at most once for each token of
    the burst and once for each period of the rate (its milliseconds rounded
    down) between the first instant and the last. *)
Theorem rate_bounded key requests :
  buckets l0 = ∅ → Forall (λ r, r.1 ∈ keys ∧ first_ ≤ r.2 ≤ last_) requests →
  granted key requests (allow_all requests l0).1 ≤ burst l0 + (last_ - first_) / (period * MS).
Proof.
  intros Hempty Hall. pose proof period_positive as Hp.
  assert (same_rates l0) as Hs. { repeat split; try done. intros k. rewrite Hempty, lookup_empty. by intros []. }
  assert (accounts key 0 l0) as Ha by (unfold accounts; by rewrite Hempty, lookup_empty).
  pose proof (allow_all_accounts key requests l0 0 Hs Hall Ha) as Hend. unfold accounts in Hend.
  assert (0 ≤ (last_ - first_) / (period * MS)) by (apply Z.div_pos; unfold MS; lia).
  destruct (buckets _ !! key) as [b|]; [|lia]. destruct Hend as (start & n & Hst & Hn & Hu & Hle & Ht).
  assert (n ≤ (last_ - first_) / (period * MS)) by (apply Z.div_le_lower_bound; unfold MS in *; lia). lia.
Qed.
End Rate.

Lemma rate_bounded_witness :
  let l := mkLimiter 2 10 4 ∅ in
  let requests := [("k", 0); ("k", 0); ("j", 5); ("k", 7); ("k", 100 * MS)] in
  granted "k" requests (allow_all requests l).1 = 3 ∧ granted "k" requests (allow_all requests l).1 ≤ 2 + 100 * MS / (100 * MS).
Proof.
  cbv zeta. split; [vm_compute; reflexivity|].
  refine (rate_bounded (mkLimiter 2 10 4 ∅) 0 (100 * MS) {["k"; "j"]} _ _ _ _ "k"
    [("k", 0); ("k", 0); ("j", 5); ("k", 7); ("k", 100 * MS)] _ _); try reflexivity; try (cbn; unfold MS, u64_MAX; lia).
  - vm_compute. discriminate.
  - repeat (apply list.Forall_cons; split; [split; [set_solver|cbn [fst snd]; unfold MS; lia]|]). apply list.Forall_nil. exact I.
Defined.

(** ** The limiter stays within its capacity *)

Lemma oldest_in b victim : oldest b = Some victim → is_Some (b !! victim).
Proof.
  unfold oldest. intros H. apply fmap_Some in H as (x & Hx & ->).
  assert (x ∈ map_to_list b) as Hin; [|destruct x as [k v]; apply elem_of_map_to_list in Hin; by exists v].
  revert x Hx. induction (map_to_list b) as [|y l IH]; intros x Hx; cbn [foldr] in Hx; [done|].
  destruct (foldr _ None l) as [z|] eqn:Hz; [|injection Hx as ->; by left].
  destruct (older z y); injection Hx as ->; [right; by apply IH|by left].
Qed.

Lemma oldest_some b : b ≠ ∅ → is_Some (oldest b).
Proof.
  intros Hb. unfold oldest. apply fmap_is_Some. destruct (map_to_list b) as [|y l] eqn:Hl.
  { by apply map_to_list_empty_iff in Hl. }
  cbn [foldr]. destruct (foldr _ None l) as [z|]; [destruct (older z y)|]; eauto.
Qed.

(** At most [max_keys] buckets, none with more tokens than the burst. *)
Definition limiter_ok (l : RateLimiter) : Prop :=
  0 < max_keys l ∧ 0 < burst l ∧ Z.of_nat (size (buckets l)) ≤ max_keys l ∧
  map_Forall (fun _ b => 0 ≤ tokens b ≤ burst l) (buckets l).

Lemma refilled_tokens l b now : 0 < refill_per_second l → 0 < burst l → 0 ≤ tokens b → 0 ≤ tokens (refilled l b now) ≤ burst l.
Proof.
  intros Hr Hb Ht. unfold refilled. assert (0 ≤ elapsed_ms now (updated b) * refill_per_second l / 1000) as He.
  { apply Z.div_pos; [|lia]. apply Z.mul_nonneg_nonneg; [|lia]. unfold elapsed_ms, MS. apply Z.div_pos; lia. }
  assert (0 < usize_MAX) as Hu by done. destruct (0 <? _); cbn [tokens]; lia.
Qed.

Lemma allow_rates l key now : refill_per_second (allow key now l).1 = refill_per_second l ∧ max_keys (allow key now l).1 = max_keys l.
Proof. unfold allow. destruct (buckets l !! key); [destruct (0 <? _)|]; done. Qed.

Lemma allow_ok l key now : 0 < refill_per_second l → limiter_ok l → limiter_ok (allow key now l).1.
Proof.
  intros Hr (Hm & Hb & Hs & Ht). unfold allow, limiter_ok. destruct (buckets l !! key) as [b|] eqn:Hk.
  - pose proof (refilled_tokens l b now Hr Hb (proj1 (Ht key b Hk))).
    assert (∀ b', size (<[key := b']> (buckets l)) = size (buckets l)) as Hsize.
    { intros b'. rewrite map_size_insert, Hk. done. }
    destruct (Z.ltb_spec 0 (tokens (refilled l b now))); cbn [fst with_buckets buckets max_keys burst]; rewrite Hsize;
      (split; [done|]; split; [done|]; split; [done|]; apply map_Forall_insert_2; [cbn; lia|done]).
  - cbn [fst with_buckets buckets max_keys burst]. split; [done|]. split; [done|].
    destruct (Z.leb_spec (max_keys l) (Z.of_nat (size (buckets l)))).
    + destruct (oldest_some (buckets l)) as [victim Hv]; [intros E; rewrite E, map_size_empty in H; lia|]. rewrite Hv.
      split; [|apply map_Forall_insert_2; [cbn; lia|by apply map_Forall_delete]].
      rewrite map_size_insert, (proj2 (lookup_delete_None (buckets l) victim key)) by auto.
      apply oldest_in in Hv as [v Hv]. rewrite map_size_delete, Hv. lia.
    + split; [|apply map_Forall_insert_2; [cbn; lia|done]]. rewrite map_size_insert, Hk. lia.
Qed.
