(* ===== verification/WebLife.v ===== *)
(** * WebLife: the life of a web server ([libraries/bn_web/src/web/server.rs], [drain.rs])

    The state behind the lock of a server: its phase, connections, requests,
    handler tasks, worker threads and statistics; the operations of the
    threads that share it, and the drain that stops it while they go on. *)

From S2P Require Import Prelude Text Limits Routing Limiter.

#[local] Open Scope string_scope.
#[local] Open Scope Z_scope.

Inductive ServerStatus := Starting | Accepting | Draining | Stopped | Failed.

Record ServerStats := mkStats {
  accepted : Z;
  active : Z;
  rejected : Z;
  timed_out : Z;
  completed : Z;
  failures : Z;
  rate_limited : Z;
  duration_total_ms : Z;
  duration_max_ms : Z;
}.
Definition no_stats : ServerStats := mkStats 0 0 0 0 0 0 0 0 0.

Definition increment (value : Z) : Z := Z.min (value + 1) u64_MAX.

(** The threads are known by what is asked of them: whether a worker has
    finished, whether a listener is there; a socket by its number. *)
Record ServerState := mkServer {
  routes : list Route;
  started : bool;
  stopping : bool;
  closed : bool;
  failed : bool;
  pending : Z;
  connections : Z;
  sockets : list Z;
  listener : bool;
  workers : list bool;
  work_sender : bool;
  queued_work : Z;
  http_runtime : bool;
  gate_open : bool;
  handler_tasks : Z;
  options : ServerOptions;
  rate_limiter : RateLimiter;
  stats : ServerStats;
}.

Definition new : ServerState :=
  mkServer [] false false false false 0 0 [] false [] false 0 false true 0 default_options (new_limiter default_options) no_stats.

Definition with_routes r s := mkServer r (started s) (stopping s) (closed s) (failed s) (pending s) (connections s) (sockets s)
  (listener s) (workers s) (work_sender s) (queued_work s) (http_runtime s) (gate_open s) (handler_tasks s) (options s) (rate_limiter s) (stats s).
Definition with_phase st sg cl fl s := mkServer (routes s) st sg cl fl (pending s) (connections s) (sockets s)
  (listener s) (workers s) (work_sender s) (queued_work s) (http_runtime s) (gate_open s) (handler_tasks s) (options s) (rate_limiter s) (stats s).
Definition with_pending p s := mkServer (routes s) (started s) (stopping s) (closed s) (failed s) p (connections s) (sockets s)
  (listener s) (workers s) (work_sender s) (queued_work s) (http_runtime s) (gate_open s) (handler_tasks s) (options s) (rate_limiter s) (stats s).
Definition with_connections c k s := mkServer (routes s) (started s) (stopping s) (closed s) (failed s) (pending s) c k
  (listener s) (workers s) (work_sender s) (queued_work s) (http_runtime s) (gate_open s) (handler_tasks s) (options s) (rate_limiter s) (stats s).
Definition with_listener l s := mkServer (routes s) (started s) (stopping s) (closed s) (failed s) (pending s) (connections s) (sockets s)
  l (workers s) (work_sender s) (queued_work s) (http_runtime s) (gate_open s) (handler_tasks s) (options s) (rate_limiter s) (stats s).
Definition with_pool w k q h g s := mkServer (routes s) (started s) (stopping s) (closed s) (failed s) (pending s) (connections s) (sockets s)
  (listener s) w k q h g (handler_tasks s) (options s) (rate_limiter s) (stats s).
Definition with_tasks t s := mkServer (routes s) (started s) (stopping s) (closed s) (failed s) (pending s) (connections s) (sockets s)
  (listener s) (workers s) (work_sender s) (queued_work s) (http_runtime s) (gate_open s) t (options s) (rate_limiter s) (stats s).
Definition with_options o s := mkServer (routes s) (started s) (stopping s) (closed s) (failed s) (pending s) (connections s) (sockets s)
  (listener s) (workers s) (work_sender s) (queued_work s) (http_runtime s) (gate_open s) (handler_tasks s) o (new_limiter o) (stats s).
Definition with_limiter l s := mkServer (routes s) (started s) (stopping s) (closed s) (failed s) (pending s) (connections s) (sockets s)
  (listener s) (workers s) (work_sender s) (queued_work s) (http_runtime s) (gate_open s) (handler_tasks s) (options s) l (stats s).
Definition with_stats t s := mkServer (routes s) (started s) (stopping s) (closed s) (failed s) (pending s) (connections s) (sockets s)
  (listener s) (workers s) (work_sender s) (queued_work s) (http_runtime s) (gate_open s) (handler_tasks s) (options s) (rate_limiter s) t.

Definition with_counts a c r f t s := with_stats (mkStats a c r (timed_out (stats s)) t f (rate_limited (stats s))
  (duration_total_ms (stats s)) (duration_max_ms (stats s))) s.

(** The answer of an operation and the state it leaves. *)
Abbreviation Answer := (res string unit * ServerState)%type.

Definition status (s : ServerState) : ServerStatus :=
  if failed s then Failed else if closed s then Stopped else if stopping s then Draining
  else if started s then Accepting else Starting.
Definition is_ready (s : ServerState) : bool := match status s with Accepting => true | _ => false end.

(** [add_route] *)
Definition register (method pattern : string) (s : ServerState) : Answer :=
  if closed s || stopping s then (Err "server is stopping or closed", s)
  else match add_route (routes s) method pattern with
       | Some r => (Ok tt, with_routes r s)
       | None => (Err "invalid route", s)
       end.

Definition start_with_options (o : ServerOptions) (s : ServerState) : Answer :=
  if closed s || stopping s then (Err "server is stopping or closed", s)
  else if started s then (Err "server is already started", s)
  else if negb (validate o) then (Err "server options are outside the configured bounds", s)
  else (Ok tt, with_phase true (stopping s) (closed s) (failed s) (with_options o s)).

(** [install_worker_pool]; [runtime_built] and [spawned] say what the system
    does for it. *)
Definition install_worker_pool (runtime_built spawned : bool) (s : ServerState) : Answer :=
  if work_sender s then (Err "server worker pool is already installed", s)
  else if negb runtime_built then (Err "failed to start server runtime", s)
  else if negb spawned then (Err "failed to start server worker pool", s)
  else (Ok tt, with_pool (workers s ++ replicate (Z.to_nat (o_worker_count (options s))) false)%list true 0 true true s).

(** [try_send] into the bounded channel. *)
Definition submit_connection_work (s : ServerState) : Answer :=
  if negb (work_sender s) then (Err "server worker pool is unavailable", s)
  else if o_pending_work (options s) <=? queued_work s then (Err "server worker queue is full", s)
  else (Ok tt, with_pool (workers s) (work_sender s) (queued_work s + 1) (http_runtime s) (gate_open s) s).

(** A worker of the pool looks for work: it takes one, waits, or ends when no
    sender is left. *)
Definition worker_looks (i : nat) (s : ServerState) : ServerState :=
  match workers s !! i with
  | Some false =>
      if 0 <? queued_work s then with_pool (workers s) (work_sender s) (queued_work s - 1) (http_runtime s) (gate_open s) s
      else if work_sender s then s
      else with_pool (<[i := true]> (workers s)) (work_sender s) (queued_work s) (http_runtime s) (gate_open s) s
  | _ => s
  end.

Definition try_begin_handler (s : ServerState) : Answer :=
  if o_pending_work (options s) <=? pending s then (Err "server request queue is full", s)
  else (Ok tt, with_pending (pending s + 1) s).
Definition finish_handler (s : ServerState) : ServerState := with_pending (Z.max 0 (pending s - 1)) s.

Definition begin_request (s : ServerState) : Answer :=
  let t := stats s in
  if negb (started s) || stopping s || closed s then (Err "server is not accepting requests", s)
  else if o_pending_work (options s) <=? pending s then
    (Err "server request queue is full", with_counts (accepted t) (active t) (increment (rejected t)) (failures t) (completed t) s)
  else (Ok tt, with_counts (increment (accepted t)) (increment (active t)) (rejected t) (failures t) (completed t)
                 (with_pending (pending s + 1) s)).

Definition finish_request (s : ServerState) : ServerState :=
  let t := stats s in
  with_counts (accepted t) (Z.max 0 (active t - 1)) (rejected t) (failures t) (increment (completed t))
    (with_pending (Z.max 0 (pending s - 1)) s).

Definition admit_connection (s : ServerState) : Answer :=
  if negb (started s) || stopping s || closed s then (Err "server is not accepting connections", s)
  else if o_active_connections (options s) <=? connections s then (Err "server connection limit reached", s)
  else (Ok tt, with_connections (connections s + 1) (sockets s) s).

(** The socket that was tracked last goes, whichever connection ended. *)
Definition release_connection (s : ServerState) : ServerState :=
  with_connections (Z.max 0 (connections s - 1)) (removelast (sockets s)) s.

Definition track_connection_socket (cloned : option Z) (s : ServerState) : bool * ServerState :=
  match cloned with
  | Some socket => (true, with_connections (connections s) (sockets s ++ [socket])%list s)
  | None => (false, release_connection s)
  end.

(** The step of the accept loop under the lock ([bn_lib_web]). *)
Definition accept (cloned : option Z) (s : ServerState) : bool * ServerState :=
  let '(answer, s) := admit_connection s in
  match answer with Ok _ => track_connection_socket cloned s | _ => (false, s) end.

Definition record_request_failure (late limited : bool) (s : ServerState) : ServerState :=
  let t := stats s in
  with_stats (mkStats (accepted t) (active t) (rejected t) (if late then increment (timed_out t) else timed_out t) (completed t)
                (if negb late && negb limited then increment (failures t) else failures t)
                (rate_limited t) (duration_total_ms t) (duration_max_ms t)) s.

(** A duration in nanoseconds. *)
Definition record_duration (duration : Z) (s : ServerState) : ServerState :=
  let t := stats s in
  let milliseconds := Z.min (duration / MS) u64_MAX in
  with_stats (mkStats (accepted t) (active t) (rejected t) (timed_out t) (completed t) (failures t) (rate_limited t)
                (Z.min (duration_total_ms t + milliseconds) u64_MAX) (Z.max (duration_max_ms t) milliseconds)) s.

Definition record_rate_limited (s : ServerState) : ServerState :=
  let t := stats s in
  with_stats (mkStats (accepted t) (active t) (increment (rejected t)) (timed_out t) (completed t) (failures t)
                (increment (rate_limited t)) (duration_total_ms t) (duration_max_ms t)) s.

(** [dispatch_with_key_at]: the outcome is what the handler is given; it runs
    for [duration]. *)
Definition dispatch_with_key_at (method path key : string) (now duration : Z) (s : ServerState) : res string RouteOutcome * ServerState :=
  let '(begun, s) := begin_request s in
  match begun with
  | Ok _ =>
      let '(limiter, allowed) := allow key now (rate_limiter s) in
      let s := with_limiter limiter s in
      if negb (allowed =? 0) then (Err "rate limit exceeded", record_rate_limited (finish_request s))
      else
        let outcome := dispatch_route (routes s) method path in
        (Ok outcome, finish_request (record_duration duration s))
  | Err e => (Err e, s)
  | Panic p => (Panic p, s)
  | Fuel => (Fuel, s)
  end.

(** The guards of a handler task: [fetch_add] and [fetch_sub] of an [AtomicUsize]. *)
Definition begin_handler_task (s : ServerState) : ServerState := with_tasks ((handler_tasks s + 1) mod 2 ^ 64) s.
Definition finish_handler_task (s : ServerState) : ServerState := with_tasks ((handler_tasks s - 1) mod 2 ^ 64) s.

Definition mark_failed (s : ServerState) : ServerState := with_phase false true (closed s) true s.
Definition mark_closed (s : ServerState) : ServerState := with_phase (started s) (stopping s) true (failed s) s.

(** The workers that have ended are joined and forgotten. *)
Definition reap_finished_workers (s : ServerState) : ServerState :=
  with_pool (filter (fun finished => finished = false) (workers s)) (work_sender s) (queued_work s) (http_runtime s) (gate_open s) s.
Definition workers_finished (s : ServerState) : bool * ServerState :=
  let s := reap_finished_workers s in (bool_decide (workers s = []), s).

(** The sockets are shut down through the clones, which stay. *)
Definition begin_stop (timeout_ms : Z) (s : ServerState) : Answer :=
  if negb ((1 <=? timeout_ms) && (timeout_ms <=? 60000)) then (Err "stop timeout is outside 1..60000 ms", s)
  else if closed s then (Ok tt, s)
  else
    let s := with_pending 0 s in
    let s := with_pool (workers s) false (queued_work s) false false s in
    (Ok tt, with_phase false true (closed s) (failed s) s).

Definition finish_stop (s : ServerState) : Answer :=
  if closed s then (Ok tt, s)
  else
    let s := reap_finished_workers s in
    if negb (handler_tasks s =? 0) then (Err "server drain timed out with active handlers", s)
    else if negb (connections s =? 0) then (Err "server drain timed out with active connections", s)
    else (Ok tt, s).

Definition install_listener (s : ServerState) : Answer :=
  if listener s then (Err "server listener is already installed", s) else (Ok tt, with_listener true s).
Definition take_listener (s : ServerState) : bool * ServerState := (listener s, with_listener false s).

(** ** The threads that share the state *)

(** What a thread does under the lock, and the ends of guarded tasks. *)
Inductive Op :=
| Register (method pattern : string)
| Start (o : ServerOptions)
| InstallPool (runtime_built spawned : bool)
| Accept (cloned : option Z)
| Submit
| WorkerLooks (i : nat)
| Release
| Dispatch (method path key : string) (now duration : Z)
| Failure (late limited : bool)
| TryBeginHandler
| FinishHandler
| BeginTask
| FinishTask
| BeginStop (timeout_ms : Z)
| FinishStop
| WorkersFinished
| InstallListener
| TakeListener
| MarkFailed
| MarkClosed.

(** The values of unsigned fields. *)
Definition unsigned_options (o : ServerOptions) : bool :=
  forallb (Z.leb 0)
    [o_active_connections o; o_backlog o; o_pending_work o; o_worker_count o; o_max_header_bytes o; o_max_header_fields o;
     o_max_target_bytes o; o_max_body_bytes o; o_tls_handshake_ms o; o_header_read_ms o; o_body_read_ms o;
     o_idle_keep_alive_ms o; o_connection_total_ms o; o_stop_drain_ms o; o_rate_limit_burst o;
     o_rate_limit_refill_per_second o; o_rate_limit_key_capacity o].

(** A guard ends only once; the server is closed after [finish_stop] said [Ok]. *)
Definition enabled (op : Op) (s : ServerState) : bool :=
  match op with
  | Start o => unsigned_options o
  | Dispatch _ _ _ _ duration => 0 <=? duration
  | FinishTask => 0 <? handler_tasks s
  | MarkClosed => closed s || (stopping s && (connections s =? 0))
  | _ => true
  end.

Definition run_op (op : Op) (s : ServerState) : ServerState :=
  match op with
  | Register method pattern => (register method pattern s).2
  | Start o => (start_with_options o s).2
  | InstallPool runtime_built spawned => (install_worker_pool runtime_built spawned s).2
  | Accept cloned => (accept cloned s).2
  | Submit => (submit_connection_work s).2
  | WorkerLooks i => worker_looks i s
  | Release => release_connection s
  | Dispatch method path key now duration => (dispatch_with_key_at method path key now duration s).2
  | Failure late limited => record_request_failure late limited s
  | TryBeginHandler => (try_begin_handler s).2
  | FinishHandler => finish_handler s
  | BeginTask => begin_handler_task s
  | FinishTask => finish_handler_task s
  | BeginStop timeout_ms => (begin_stop timeout_ms s).2
  | FinishStop => (finish_stop s).2
  | WorkersFinished => (workers_finished s).2
  | InstallListener => (install_listener s).2
  | TakeListener => (take_listener s).2
  | MarkFailed => mark_failed s
  | MarkClosed => mark_closed s
  end.

(** What a thread may not do at that moment it does not do. *)
Definition step (s : ServerState) (op : Op) : ServerState := if enabled op s then run_op op s else s.
Definition run_ops (ops : list Op) (s : ServerState) : ServerState := fold_left step ops s.

(** ** What always holds of the state *)

Record server_ok (s : ServerState) : Prop := {
  ok_options : validate (options s) = true ∧ unsigned_options (options s) = true;
  ok_idle : started s = false → stopping s = false → connections s = 0;
  ok_connections : 0 ≤ connections s ≤ o_active_connections (options s);
  ok_sockets : Z.of_nat (length (sockets s)) ≤ connections s;
  ok_pending : 0 ≤ pending s ≤ pending_work_max web_limits;
  ok_tasks : 0 ≤ handler_tasks s < 2 ^ 64;
  ok_phase : (failed s = true ∨ closed s = true → stopping s = true) ∧ (started s = true → stopping s = false);
  ok_closed : closed s = true → connections s = 0;
  ok_completed : completed (stats s) = accepted (stats s) ∧ active (stats s) = 0;
  ok_limited : 0 ≤ rate_limited (stats s) ≤ rejected (stats s) ∧ rejected (stats s) ≤ u64_MAX;
  ok_durations : 0 ≤ duration_max_ms (stats s) ≤ duration_total_ms (stats s) ∧ duration_total_ms (stats s) ≤ u64_MAX;
  ok_limiter : limiter_ok (rate_limiter s) ∧ 0 < refill_per_second (rate_limiter s);
  ok_routes : ∀ i r, routes s !! i = Some r →
    valid_method (r_method r) = true ∧ valid_route_pattern (r_pattern r) = true ∧ r_order r = Z.of_nat i;
}.

Lemma outside_false maximum value : outside maximum value = false → 0 ≤ value → 1 ≤ value ≤ maximum.
Proof. unfold outside. rewrite orb_false_iff, Z.eqb_neq, Z.ltb_ge. lia. Qed.

Lemma validate_bounds o : validate o = true → unsigned_options o = true →
  1 ≤ o_active_connections o ∧ 1 ≤ o_pending_work o ≤ pending_work_max web_limits ∧ 1 ≤ o_rate_limit_burst o ∧
  1 ≤ o_rate_limit_refill_per_second o ∧ 1 ≤ o_rate_limit_key_capacity o.
Proof.
  unfold validate, unsigned_options. rewrite negb_true_iff, !orb_false_iff. cbn [forallb]. rewrite !andb_true_iff, !Z.leb_le.
  intros H Hu. repeat match goal with H : _ ∧ _ |- _ => destruct H end.
  repeat match goal with H : outside _ _ = false |- _ => apply outside_false in H; [|assumption] end. lia.
Qed.

Lemma new_ok : server_ok new.
Proof.
  constructor; try done; try (vm_compute; repeat split; (done || discriminate)).
  all: try (cbn; lia). all: try (split; [by intros []|done]).
Qed.

(** One component of the state changes, the rest of the invariant stays. *)
Ltac fields := cbn [routes started stopping closed failed pending connections sockets listener workers work_sender queued_work http_runtime
  gate_open handler_tasks options rate_limiter stats with_routes with_phase with_pending with_connections with_listener with_pool
  with_tasks with_options with_limiter with_stats with_counts
  accepted active rejected timed_out completed failures rate_limited duration_total_ms duration_max_ms fst snd] in *.
Ltac keep_ok := match goal with H : server_ok _ |- _ => destruct H end; constructor; fields; try done.

Lemma ok_with_pool w k q h g s : server_ok s → server_ok (with_pool w k q h g s).
Proof. intros H. keep_ok. Qed.
Lemma ok_with_listener l s : server_ok s → server_ok (with_listener l s).
Proof. intros H. keep_ok. Qed.
Lemma ok_with_pending p s : server_ok s → 0 ≤ p ≤ pending_work_max web_limits → server_ok (with_pending p s).
Proof. intros H Hp. keep_ok. Qed.
Lemma ok_with_tasks t s : server_ok s → server_ok (with_tasks (t mod 2 ^ 64) s).
Proof. intros H. keep_ok. apply Z.mod_pos_bound. lia. Qed.
Lemma ok_with_connections c k s : server_ok s → 0 ≤ c ≤ o_active_connections (options s) → Z.of_nat (length k) ≤ c →
  (c ≤ connections s ∨ started s = true ∧ closed s = false) → server_ok (with_connections c k s).
Proof.
  intros H Hc Hk Hs. keep_ok.
  - intros H1 H2. specialize (ok_idle0 H1 H2). destruct Hs as [Hs|[Hs _]]; [lia|congruence].
  - intros H1. specialize (ok_closed0 H1). destruct Hs as [Hs|[_ Hs]]; [lia|congruence].
Qed.
Lemma ok_with_stats t s : server_ok s → completed t = accepted t ∧ active t = 0 →
  0 ≤ rate_limited t ≤ rejected t ∧ rejected t ≤ u64_MAX → 
  0 ≤ duration_max_ms t ≤ duration_total_ms t ∧ duration_total_ms t ≤ u64_MAX → server_ok (with_stats t s).
Proof. intros H H1 H2 H3. keep_ok. Qed.
Lemma ok_with_limiter l s : server_ok s → limiter_ok l → 0 < refill_per_second l → server_ok (with_limiter l s).
Proof. intros H H1 H2. keep_ok. Qed.

Lemma release_ok s : server_ok s → server_ok (release_connection s).
Proof.
  intros H. unfold release_connection. pose proof (ok_connections s H). pose proof (ok_sockets s H).
  assert (length (removelast (sockets s)) = pred (length (sockets s))) as Hl.
  { clear. induction (sockets s) as [|x l IH]; [done|]. destruct l; [done|]. cbn [removelast length] in *. lia. }
  apply ok_with_connections; try lia. done.
Qed.

Lemma register_ok m p s : server_ok s → server_ok (register m p s).2.
Proof.
  intros H. unfold register. destruct (_ || _); [done|]. unfold add_route.
  destruct (valid_method m) eqn:Hm; cbn [negb orb]; [|done]. destruct (valid_route_pattern p) eqn:Hp; cbn [negb snd]; [|done].
  keep_ok. intros i r Hl. apply lookup_app_Some in Hl as [Hl|[Hi Hl]]; [by apply ok_routes0|].
  apply list_lookup_singleton_Some in Hl as [Hi' <-]. cbn. repeat split; try done. lia.
Qed.

Lemma start_ok o s : server_ok s → unsigned_options o = true → server_ok (start_with_options o s).2.
Proof.
  intros H Hu. unfold start_with_options. destruct (closed s) eqn:Hc; [done|]. destruct (stopping s) eqn:Hsg; [done|].
  destruct (started s) eqn:Hst; [done|]. destruct (validate o) eqn:Hv; [|done]. cbn [orb negb snd].
  pose proof (validate_bounds o Hv Hu). pose proof (ok_idle s H Hst Hsg) as Hidle. keep_ok; try lia.
  - split; [|done]. intros [Hf|Hf]; [|congruence]. rewrite <- Hsg. apply ok_phase0. by left.
  - split; [|cbn; lia]. unfold limiter_ok, new_limiter. cbn [max_keys burst buckets]. rewrite map_size_empty. split_and!; [lia..|apply map_Forall_empty].
Qed.

Lemma accept_ok cloned s : server_ok s → server_ok (accept cloned s).2.
Proof.
  intros H. unfold accept, admit_connection. destruct (started s) eqn:Hst; [|done]. destruct (stopping s) eqn:Hsg; [done|].
  destruct (closed s) eqn:Hc; [done|]. cbn [negb orb]. destruct (Z.leb_spec (o_active_connections (options s)) (connections s)); [done|].
  pose proof (ok_connections s H). pose proof (ok_sockets s H).
  assert (server_ok (with_connections (connections s + 1) (sockets s) s)) as H' by (apply ok_with_connections; [done|lia..|by right]).
  cbn [fst snd]. destruct cloned as [k|]; cbn [track_connection_socket snd]; [|by apply release_ok].
  apply (ok_with_connections (connections s + 1) (sockets s ++ [k])%list) in H'; [exact H'|..]; cbn; [lia| |by left; lia].
  rewrite length_app. cbn. lia.
Qed.

Lemma reap_ok s : server_ok s → server_ok (reap_finished_workers s).
Proof. apply ok_with_pool. Qed.

Lemma increment_bounds v : 0 ≤ v ≤ u64_MAX → 0 ≤ increment v ≤ u64_MAX ∧ v ≤ increment v.
Proof. unfold increment. lia. Qed.
Lemma increment_le a b : a ≤ b → increment a ≤ increment b.
Proof. unfold increment. lia. Qed.

(** A request that is let in and finished at once leaves none active. *)
Lemma dispatch_ok method path key now duration s : server_ok s → 0 ≤ duration →
  server_ok (dispatch_with_key_at method path key now duration s).2.
Proof.
  intros H Hd. pose proof (ok_completed s H) as [Hcomp Hact]. pose proof (ok_limited s H) as [Hlim Hrej].
  pose proof (ok_durations s H) as [Hmax Htot]. pose proof (ok_pending s H) as Hpend. pose proof (ok_options s H) as [Hv Hu].
  pose proof (validate_bounds _ Hv Hu) as (_ & Hwork & _). pose proof (ok_limiter s H) as [Hlok Hrate].
  pose proof (increment_bounds (rejected (stats s)) ltac:(lia)) as Hinc.
  unfold dispatch_with_key_at, begin_request. destruct (started s) eqn:Hst; [|done]. destruct (stopping s) eqn:Hsg; [done|].
  destruct (closed s) eqn:Hc; [done|]. cbn [negb orb].
  destruct (Z.leb_spec (o_pending_work (options s)) (pending s)).
  { apply ok_with_stats; fields; [done|done|lia|lia]. }
  fields. pose proof (allow_ok (rate_limiter s) key now Hrate Hlok) as Hlok'.
  pose proof (allow_rates (rate_limiter s) key now) as [Hrates _].
  destruct (allow key now (rate_limiter s)) as [l answer]. fields.
  assert (server_ok (with_limiter l s)) as Hl by (apply ok_with_limiter; [done|done|by rewrite Hrates]).
  apply (ok_with_pending (pending s)) in Hl; [|done].
  assert (increment (completed (stats s)) = increment (accepted (stats s)) ∧ Z.max 0 (increment (active (stats s)) - 1) = 0) as Hca.
  { rewrite Hcomp, Hact. unfold increment, u64_MAX. split; [done|lia]. }
  assert (Z.max 0 (pending s + 1 - 1) = pending s) as Hp by lia.
  destruct (answer =? 0); cbn [negb]; unfold record_rate_limited, finish_request, record_duration; fields; rewrite Hp.
  - refine (ok_with_stats _ _ Hl _ _ _); [fields; done|fields; lia|fields].
    assert (0 ≤ Z.min (duration / MS) u64_MAX) by (pose proof (Z.div_pos duration MS); unfold MS, u64_MAX in *; lia). lia.
  - refine (ok_with_stats _ _ Hl _ _ _); [fields; done|fields|fields; lia].
    pose proof (increment_le (rate_limited (stats s)) (rejected (stats s))). pose proof (increment_bounds (rate_limited (stats s))). lia.
Qed.

Lemma record_failure_ok late limited s : server_ok s → server_ok (record_request_failure late limited s).
Proof.
  intros H. pose proof (ok_completed s H). pose proof (ok_limited s H). pose proof (ok_durations s H).
  unfold record_request_failure. apply ok_with_stats; fields; tauto.
Qed.

Lemma worker_looks_ok i s : server_ok s → server_ok (worker_looks i s).
Proof.
  intros H. unfold worker_looks. destruct (workers s !! i) as [[]|]; [done| |done].
  destruct (0 <? queued_work s); [by apply ok_with_pool|]. destruct (work_sender s); [done|by apply ok_with_pool].
Qed.

Lemma handler_ok s : server_ok s → server_ok (try_begin_handler s).2 ∧ server_ok (finish_handler s).
Proof.
  intros H. pose proof (ok_pending s H) as Hp. pose proof (ok_options s H) as [Hv Hu].
  pose proof (validate_bounds _ Hv Hu) as (_ & Hw & _). unfold try_begin_handler, finish_handler.
  split; [|apply ok_with_pending; [done|lia]]. destruct (Z.leb_spec (o_pending_work (options s)) (pending s)); [done|].
  apply ok_with_pending; [done|lia].
Qed.

Lemma begin_stop_ok timeout_ms s : server_ok s → server_ok (begin_stop timeout_ms s).2.
Proof.
  intros H. unfold begin_stop. destruct (_ && _); [|done]. destruct (closed s) eqn:Hc; [done|]. cbn [negb].
  keep_ok.
Qed.

Lemma finish_stop_ok s : server_ok s → server_ok (finish_stop s).2.
Proof.
  intros H. unfold finish_stop. destruct (closed s); [done|]. pose proof (reap_ok s H).
  destruct (negb (handler_tasks _ =? 0)); [done|]. by destruct (negb _).
Qed.

Lemma mark_ok s : server_ok s → server_ok (mark_failed s) ∧ (enabled MarkClosed s = true → server_ok (mark_closed s)).
Proof.
  intros H. unfold mark_failed, mark_closed. split; [keep_ok|].
  cbn [enabled]. rewrite orb_true_iff, andb_true_iff, Z.eqb_eq. intros Hen. keep_ok.
  - split; [|tauto]. intros _. destruct Hen as [Hc|[Hc _]]; [|done]. apply ok_phase0. by right.
  - intros _. destruct Hen as [Hc|[_ Hc]]; auto.
Qed.

Lemma step_ok s op : server_ok s → server_ok (step s op).
Proof.
  intros H. unfold step. destruct (enabled op s) eqn:Hen; [|done].
  destruct op; cbn [run_op enabled] in *.
  - by apply register_ok.
  - by apply start_ok.
  - unfold install_worker_pool. destruct (work_sender s), runtime_built, spawned; try done. by apply ok_with_pool.
  - by apply accept_ok.
  - unfold submit_connection_work. destruct (work_sender s); [|done]. destruct (_ <=? _); [done|]. by apply ok_with_pool.
  - by apply worker_looks_ok.
  - by apply release_ok.
  - apply Z.leb_le in Hen. by apply dispatch_ok.
  - by apply record_failure_ok.
  - by apply handler_ok.
  - by apply handler_ok.
  - by apply ok_with_tasks.
  - by apply ok_with_tasks.
  - by apply begin_stop_ok.
  - by apply finish_stop_ok.
  - by apply reap_ok.
  - unfold install_listener. destruct (listener s); [done|by apply ok_with_listener].
  - by apply ok_with_listener.
  - by apply mark_ok.
  - by apply mark_ok.
Qed.

Lemma run_ops_ok ops : ∀ s, server_ok s → server_ok (run_ops ops s).
Proof. induction ops as [|op ops IH]; intros s H; [done|]. apply IH. by apply step_ok. Qed.

(** The phases in the order of a life. *)
Definition phase_rank (st : ServerStatus) : Z :=
  match st with Starting => 0 | Accepting => 1 | Draining => 2 | Stopped => 3 | Failed => 4 end.

Lemma status_of_flags s s' : started s' = started s → stopping s' = stopping s → closed s' = closed s → failed s' = failed s →
  status s' = status s.
Proof. unfold status. by intros -> -> -> ->. Qed.

(** Only these operations change the phase. *)
Lemma phase_kept op s : match op with Start _ | BeginStop _ | MarkFailed | MarkClosed => False | _ => True end →
  started (step s op) = started s ∧ stopping (step s op) = stopping s ∧ closed (step s op) = closed s ∧ failed (step s op) = failed s.
Proof.
  intros Hop. unfold step. destruct (enabled op s); [|done]. destruct op; try done; cbn [run_op].
  - unfold register, add_route. destruct (closed s || stopping s); [done|]. by destruct (negb _ || _).
  - unfold install_worker_pool. by destruct (work_sender s), runtime_built, spawned.
  - unfold accept, admit_connection. destruct (_ || _ || _); [done|]. destruct (_ <=? _); [done|]. by destruct cloned.
  - unfold submit_connection_work. destruct (work_sender s); [|done]. by destruct (_ <=? _).
  - unfold worker_looks. destruct (workers s !! i) as [[]|]; try done. destruct (0 <? _); [done|]. by destruct (work_sender s).
  - unfold dispatch_with_key_at, begin_request. destruct (_ || _ || _); [done|]. destruct (_ <=? _); [done|].
    fields. destruct (allow key now (rate_limiter s)) as [l a]. by destruct (negb _).
  - unfold try_begin_handler. by destruct (_ <=? _).
  - unfold finish_stop. destruct (closed s) eqn:Hc; [done|]. destruct (negb _); [done|]. by destruct (negb _).
  - unfold install_listener. by destruct (listener s).
Qed.

Lemma step_forward op s : phase_rank (status s) ≤ phase_rank (status (step s op)) ∧
  (stopping s = true → stopping (step s op) = true) ∧ (closed s = true → closed (step s op) = true).
Proof.
  assert ((∃ o, op = Start o) ∨ (∃ t, op = BeginStop t) ∨ op = MarkFailed ∨ op = MarkClosed ∨
    match op with Start _ | BeginStop _ | MarkFailed | MarkClosed => False | _ => True end) as Hop.
  { destruct op; eauto 6. }
  destruct Hop as [[o ->]|[[t ->]|[->|[->|Hop]]]].
  5: { destruct (phase_kept op s Hop) as (H1 & H2 & H3 & H4). unfold status. rewrite H1, H2, H3, H4. done. }
  all: unfold step; destruct (enabled _ s); [|done]; cbn [run_op].
  - unfold start_with_options. destruct (closed s) eqn:Hc, (stopping s) eqn:Hsg; try done. destruct (started s) eqn:Hst; [done|].
    destruct (negb (validate o)); [done|]. cbn [orb]. unfold status. fields. rewrite Hc, Hsg, Hst. by destruct (failed s).
  - unfold begin_stop. destruct (negb _); [done|]. destruct (closed s) eqn:Hc; [done|]. unfold status. fields. rewrite Hc.
    by destruct (failed s), (stopping s), (started s).
  - unfold mark_failed, status. fields. by destruct (failed s), (closed s), (stopping s), (started s).
  - unfold mark_closed, status. fields. by destruct (failed s), (closed s), (stopping s), (started s).
Qed.

Lemma run_ops_forward ops : ∀ s, phase_rank (status s) ≤ phase_rank (status (run_ops ops s)) ∧
  (stopping s = true → stopping (run_ops ops s) = true) ∧ (closed s = true → closed (run_ops ops s) = true).
Proof.
  induction ops as [|op ops IH]; intros s; [done|]. cbn [run_ops fold_left].
  destruct (step_forward op s) as (H1 & H2 & H3). destruct (IH (step s op)) as (H4 & H5 & H6). unfold run_ops in *.
  split; [lia|]. split; auto.
Qed.

(** A stopping server gets no new connection. *)
Lemma stopping_connections op s : stopping s = true → server_ok s → connections (step s op) ≤ connections s.
Proof.
  intros Hsg H. unfold step. pose proof (ok_connections s H). destruct (enabled op s); [|done]. destruct op; try done; cbn [run_op].
  - unfold register, add_route. destruct (closed s || stopping s); [done|]. by destruct (negb _ || _).
  - unfold start_with_options. by rewrite Hsg, orb_true_r.
  - unfold install_worker_pool. by destruct (work_sender s), runtime_built, spawned.
  - unfold accept, admit_connection. by rewrite Hsg, orb_true_r.
  - unfold submit_connection_work. destruct (work_sender s); [|done]. by destruct (_ <=? _).
  - unfold worker_looks. destruct (workers s !! i) as [[]|]; try done. destruct (0 <? _); [done|]. by destruct (work_sender s).
  - unfold release_connection. fields. lia.
  - unfold dispatch_with_key_at, begin_request. by rewrite Hsg, orb_true_r.
  - unfold try_begin_handler. by destruct (_ <=? _).
  - unfold begin_stop. destruct (negb _); [done|]. by destruct (closed s).
  - unfold finish_stop. destruct (closed s) eqn:Hc; [done|]. destruct (negb _); [done|]. by destruct (negb _).
  - unfold install_listener. by destruct (listener s).
Qed.

Lemma stopping_run_ops ops : ∀ s, stopping s = true → server_ok s → connections (run_ops ops s) ≤ connections s.
Proof.
  induction ops as [|op ops IH]; intros s Hsg H; [done|]. cbn [run_ops fold_left].
  pose proof (stopping_connections op s Hsg H). pose proof (IH (step s op) (proj1 (proj2 (step_forward op s)) Hsg) (step_ok s op H)).
  unfold run_ops in *. lia.
Qed.

(** C27: Whatever the threads of a server do and in whatever order: its options
    are in bounds, its connections within their limit and none before the start
    or after the close, the tracked sockets no more than the connections, each
    request that was let in is finished and none active between operations, the
    limited ones are counted as rejected, the limiter is within its capacity,
    every route is valid and has its place for order; and its life goes on
    from starting to accepting, draining, stopped and failed, never back. *)
Theorem server_life ops more :
  server_ok (run_ops ops new) ∧
  phase_rank (status (run_ops ops new)) ≤ phase_rank (status (run_ops (ops ++ more)%list new)).
Proof.
  split; [apply run_ops_ok, new_ok|]. unfold run_ops. rewrite fold_left_app. apply run_ops_forward.
Qed.

(** A request is answered by its route exactly when the server accepts, the
    queue has room and the limiter lets its key through; and whatever became
    of it, no more of the server changes than its statistics and its limiter. *)
Theorem dispatch_admits method path key now duration s :
  let '(answer, s') := dispatch_with_key_at method path key now duration s in
  let open := started s && negb (stopping s) && negb (closed s) in
  let room := pending s <? o_pending_work (options s) in
  let let_through := (allow key now (rate_limiter s)).2 =? 0 in
  (0 ≤ pending s → with_limiter (rate_limiter s) (with_stats (stats s) s') = s) ∧
  answer = if open && room && let_through then Ok (dispatch_route (routes s) method path)
           else Err (if negb open then "server is not accepting requests"
                     else if negb room then "server request queue is full" else "rate limit exceeded").
Proof.
  unfold dispatch_with_key_at, begin_request.
  destruct (started s) eqn:E1, (stopping s) eqn:E2, (closed s) eqn:E3; cbn [negb orb andb];
    try (split; [intros _; by destruct s|done]).
  rewrite Z.ltb_antisym. destruct (o_pending_work (options s) <=? pending s); cbn [negb andb].
  { split; [intros _; by destruct s|done]. }
  fields. destruct (allow key now (rate_limiter s)) as [l a]. cbn [snd].
  assert (0 ≤ pending s → Z.max 0 (pending s + 1 - 1) = pending s) as Hp by lia.
  destruct (a =? 0); cbn [negb andb]; (split; [|done]); intros Hpend; unfold finish_request, record_rate_limited, record_duration; fields;
    rewrite (Hp Hpend); by destruct s.
Qed.
