(* ===== verification/WebDrain.v ===== *)
(** * WebDrain: how a web server stops ([libraries/bn_web/src/web/drain.rs])

    [drain_server] begins the stop, joins the listener and waits for the
    connections and the workers, while other threads go on between its looks
    at the state. *)

From S2P Require Import Prelude Text Limits Routing Limiter WebLife.

#[local] Open Scope string_scope.
#[local] Open Scope Z_scope.

Inductive Thread := Running | Finished | Panicked.

(** What one look at the state finds: what the other threads did since the
    last, the clock, and the thread of the listener. *)
Record Look := mkLook { before : list Op; clock : Z; listener_thread : Thread }.

Section Drain.
Variable looks : nat → Look.
Variables (timeout_ms : Z) (close : bool).

(** The state as the [n]th look finds it. *)
Definition look (n : nat) (s : ServerState) : ServerState := run_ops (before (looks n)) s.

(** The loop over [finish_stop]; a turn takes the lock up to three times. *)
Fixpoint wait_connections (fuel n : nat) (deadline : Z) (s : ServerState) : Answer :=
  match fuel with
  | O => (Fuel, s)
  | S fuel =>
      let '(result, s) := finish_stop (look n s) in
      match result with
      | Ok _ =>
          let '(finished, s) := workers_finished (look (S n) s) in
          if negb finished then
            if deadline <=? clock (looks (S n)) then (Err "server worker drain timed out", s)
            else wait_connections fuel (2 + n) deadline s
          else if close then (Ok tt, mark_closed (look (2 + n) s))
          else (Ok tt, s)
      | Err message =>
          if String.eqb message "server drain timed out with active connections" then
            if deadline <=? clock (looks n) then (Err "server drain timed out with active connections", s)
            else wait_connections fuel (S n) deadline s
          else (Err message, s)
      | r => (r, s)
      end
  end.

(** The loop that joins the listener. *)
Fixpoint join_listener (fuel n : nat) (deadline : Z) (s : ServerState) : Answer :=
  match fuel with
  | O => (Fuel, s)
  | S fuel =>
      let s := look n s in
      match listener_thread (looks n) with
      | Panicked => (Err "server listener join failed", mark_failed s)
      | Finished => wait_connections fuel (S n) deadline s
      | Running =>
          if deadline <=? clock (looks n) then
            let '(installed, s) := install_listener s in
            match installed with
            | Ok _ => (Err "server listener join timed out", s)
            | _ => (Err "server listener is already installed", s)
            end
          else join_listener fuel (S n) deadline s
      end
  end.

(** [drain_server], begun at the clock of the first look. *)
Definition drain_server (fuel : nat) (s : ServerState) : Answer :=
  if negb ((0 <=? timeout_ms) && (timeout_ms <=? u64_MAX)) then (Err "stop timeout is outside 1..60000 ms", s)
  else
    let deadline := clock (looks 0) + timeout_ms * MS in
    let '(begun, s) := begin_stop timeout_ms (look 0 s) in
    match begun with
    | Ok _ =>
        let '(listening, s) := take_listener s in
        if listening then join_listener fuel 1 deadline s else wait_connections fuel 1 deadline s
    | r => (r, s)
    end.

(** ** What the drain answers *)

Lemma look_ok n s : server_ok s → server_ok (look n s).
Proof. apply run_ops_ok. Qed.

(** A server that stops and has no connection stays so. *)
Definition quiet (s : ServerState) : Prop := stopping s = true ∧ connections s = 0.

Lemma look_stopping n s : stopping s = true → stopping (look n s) = true.
Proof. apply run_ops_forward. Qed.

Lemma look_quiet n s : server_ok s → quiet s → quiet (look n s).
Proof.
  intros H [Hs Hc]. split; [by apply look_stopping|]. pose proof (stopping_run_ops (before (looks n)) s Hs H).
  pose proof (ok_connections _ (look_ok n s H)). unfold look in *. lia.
Qed.

Lemma finish_stop_spec s : server_ok s → stopping s = true →
  let '(result, s') := finish_stop s in
  server_ok s' ∧ stopping s' = true ∧
  match result with
  | Ok _ => quiet s'
  | Err m => m = "server drain timed out with active handlers" ∧ 0 < handler_tasks s' ∨
             m = "server drain timed out with active connections" ∧ 0 < connections s'
  | _ => False
  end.
Proof.
  intros H Hs. unfold finish_stop. destruct (closed s) eqn:Hc.
  { split; [done|]. split; [done|]. split; [done|by apply (ok_closed s H)]. }
  pose proof (reap_ok s H) as H'. pose proof (ok_tasks _ H') as Ht. pose proof (ok_connections _ H') as Hn.
  destruct (Z.eqb_spec (handler_tasks (reap_finished_workers s)) 0); cbn [negb]; [|split; [done|]; split; [done|]; left; split; [done|lia]].
  destruct (Z.eqb_spec (connections (reap_finished_workers s)) 0); cbn [negb]; (split; [done|]; split; [done|]); [done|right; split; [done|lia]].
Qed.

(** What an answer of the drain means for the state it is given with. *)
Definition drained (deadline : Z) (answer : res string unit) (s : ServerState) : Prop :=
  let late := ∃ n, deadline ≤ clock (looks n) in
  match answer with
  | Ok _ => quiet s ∧ (close = true → closed s = true)
  | Err m =>
      m = "server listener join failed" ∧ status s = Failed ∨
      m = "server listener join timed out" ∧ listener s = true ∧ late ∨
      m = "server listener is already installed" ∧ listener s = true ∧ late ∨
      m = "server worker drain timed out" ∧ quiet s ∧ workers s ≠ [] ∧ late ∨
      m = "server drain timed out with active connections" ∧ 0 < connections s ∧ late ∨
      m = "server drain timed out with active handlers" ∧ 0 < handler_tasks s
  | _ => False
  end.

Lemma wait_connections_spec deadline last : (∀ n, (last ≤ n)%nat → deadline ≤ clock (looks n)) →
  ∀ fuel n s, (last < fuel + n)%nat → (0 < fuel)%nat → server_ok s → stopping s = true →
  let '(answer, s') := wait_connections fuel n deadline s in
  server_ok s' ∧ stopping s' = true ∧ drained deadline answer s'.
Proof.
  intros Hlast. induction fuel as [|fuel IH]; intros n s Hf Hpos H Hs; [lia|]. cbn [wait_connections].
  pose proof (finish_stop_spec (look n s) (look_ok n s H) (look_stopping n s Hs)) as Hfin.
  destruct (finish_stop (look n s)) as [result s1]. destruct Hfin as (H1 & Hs1 & Hres). destruct result as [?|m|?|]; try done.
  - pose proof (look_quiet (S n) s1 H1 Hres) as [Hq Hc]. pose proof (reap_ok _ (look_ok (S n) s1 H1)) as H2.
    unfold workers_finished. set (s2 := reap_finished_workers (look (S n) s1)) in *.
    assert (quiet s2) as Hq2 by done. case_bool_decide as Hw; cbn [negb].
    + destruct close eqn:Hcl; [|split; [done|]; split; [done|]; split; [done|by rewrite Hcl]].
      pose proof (look_quiet (2 + n) s2 H2 Hq2) as [Hq3 Hc3]. pose proof (look_ok (2 + n) s2 H2) as H3.
      split; [apply mark_ok; [done|]; cbn [enabled]; by rewrite Hq3, Hc3, orb_true_r|]. split; [done|]. split; done.
    + destruct (Z.leb_spec deadline (clock (looks (S n)))) as [Hd|Hd].
      * split; [done|]. split; [apply Hq2|]. cbn. right. right. right. left. eauto.
      * assert (S n < last)%nat as Hn. { apply Nat.nle_gt. intros Hn. specialize (Hlast (S n) Hn). lia. }
        apply IH; [lia..|done|apply Hq2].
  - destruct Hres as [[-> Ht]|[-> Hn]].
    { rewrite (proj2 (String.eqb_neq _ _)) by done. split; [done|]. split; [done|]. cbn. tauto. }
    rewrite String.eqb_refl. destruct (Z.leb_spec deadline (clock (looks n))) as [Hd|Hd].
    { split; [done|]. split; [done|]. cbn. right. right. right. right. left. eauto. }
    assert (n < last)%nat as Hlt. { apply Nat.nle_gt. intros Hle. specialize (Hlast n Hle). lia. }
    apply IH; [lia..|done|done].
Qed.

Lemma join_listener_spec deadline last : (∀ n, (last ≤ n)%nat → deadline ≤ clock (looks n)) →
  ∀ fuel n s, (S last < fuel + n)%nat → (1 < fuel)%nat → server_ok s → stopping s = true →
  let '(answer, s') := join_listener fuel n deadline s in
  server_ok s' ∧ stopping s' = true ∧ drained deadline answer s'.
Proof.
  intros Hlast. induction fuel as [|fuel IH]; intros n s Hf Hpos H Hs; [lia|]. cbn [join_listener].
  pose proof (look_ok n s H) as H1. pose proof (look_stopping n s Hs) as Hs1. destruct (listener_thread (looks n)).
  - destruct (Z.leb_spec deadline (clock (looks n))) as [Hd|Hd].
    + unfold install_listener. destruct (listener (look n s)) eqn:Hl.
      * split; [done|]. split; [done|]. cbn. right. right. left. eauto.
      * split; [by apply ok_with_listener|]. split; [done|]. cbn. right. left. eauto.
    + assert (n < last)%nat as Hlt. { apply Nat.nle_gt. intros Hle. specialize (Hlast n Hle). lia. }
      apply IH; [lia..|done|done].
  - apply (wait_connections_spec deadline last); [done|lia..|done|done].
  - split; [by apply mark_ok|]. split; [done|]. cbn. by left.
Qed.

(** C28: A drain of a server in any state, with whatever threads beside it,
    answers at the latest as soon as the clock has passed the deadline.  [Ok]
    means that the server stops for good with no connection left, and is closed
    when this was asked; the expiries for the listener, the workers and the
    connections that the deadline has passed and what was waited for is still
    there; a failed join that the server has failed.  The answer for active
    handlers means that one is active, and no more: it is given at once, long
    before the deadline as well ([handlers_not_awaited]).  A timeout outside the
    bounds leaves the server as the other threads did. *)
Theorem drain_answers last s :
  (∀ n, (last ≤ n)%nat → clock (looks 0) + timeout_ms * MS ≤ clock (looks n)) → server_ok s →
  let '(answer, s') := drain_server (last + 2) s in
  server_ok s' ∧
  if (1 <=? timeout_ms) && (timeout_ms <=? 60000)
  then stopping s' = true ∧ drained (clock (looks 0) + timeout_ms * MS) answer s'
  else answer = Err "stop timeout is outside 1..60000 ms" ∧ (s' = s ∨ s' = look 0 s).
Proof.
  intros Hlast H. unfold drain_server. pose proof (look_ok 0 s H) as H0.
  destruct ((1 <=? timeout_ms) && (timeout_ms <=? 60000)) eqn:Hin.
  - apply andb_prop in Hin as Hin'. rewrite !Z.leb_le in Hin'. unfold u64_MAX in *.
    rewrite (proj2 (andb_true_iff _ _)) by (rewrite !Z.leb_le; lia). cbn [negb].
    pose proof (begin_stop_ok timeout_ms (look 0 s) H0) as H1.
    assert ((begin_stop timeout_ms (look 0 s)).1 = Ok tt ∧ stopping (begin_stop timeout_ms (look 0 s)).2 = true) as [Hb Hs1].
    { unfold begin_stop. rewrite Hin. cbn [negb]. destruct (closed (look 0 s)) eqn:Hc; [|done].
      split; [done|]. apply (ok_phase _ H0). by right. }
    destruct (begin_stop timeout_ms (look 0 s)) as [begun s1]. cbn [fst snd] in *. subst begun. unfold take_listener.
    assert (server_ok (with_listener false s1)) as H2 by by apply ok_with_listener.
    destruct (listener s1).
    + pose proof (join_listener_spec _ last Hlast (last + 2) 1 (with_listener false s1) ltac:(lia) ltac:(lia) H2 Hs1) as Hj.
      destruct (join_listener _ _ _ _) as [answer s']. destruct Hj as (Hj1 & Hj2 & Hj3). auto.
    + pose proof (wait_connections_spec _ last Hlast (last + 2) 1 (with_listener false s1) ltac:(lia) ltac:(lia) H2 Hs1) as Hj.
      destruct (wait_connections _ _ _ _) as [answer s']. destruct Hj as (Hj1 & Hj2 & Hj3). auto.
  - destruct (negb _); [by auto|]. unfold begin_stop. rewrite Hin. cbn [negb]. auto.
Qed.
End Drain.

(** A server with a connection, which ends after some turns, and its workers with it. *)
Definition serving : ServerState := run_ops [Start default_options; InstallPool true true; InstallListener; Accept (Some 7)] new.
Definition calm (n : nat) : Look :=
  mkLook (if (n =? 4)%nat then Release :: map WorkerLooks (seq 0 64) else []) (Z.of_nat n * MS) (if (n <? 2)%nat then Running else Finished).

Lemma drain_answers_witness :
  (drain_server calm 20 true 22 serving).1 = Ok tt ∧
  let '(answer, s') := drain_server calm 20 true (20 + 2) serving in
  server_ok s' ∧
  if (1 <=? 20) && (20 <=? 60000)
  then stopping s' = true ∧ drained calm true (clock (calm 0) + 20 * MS) answer s'
  else answer = Err "stop timeout is outside 1..60000 ms" ∧ (s' = serving ∨ s' = look calm 0 serving).
Proof.
  split; [vm_compute; reflexivity|]. apply (drain_answers calm 20 true 20 serving).
  - intros n Hn. cbn [clock calm]. unfold MS. lia.
  - apply run_ops_ok, new_ok.
Defined.

(** A drain gives up at its first look at a handler task, though the task ends
    well before the deadline. *)
Definition busy (n : nat) : Look :=
  mkLook (match n with 0%nat => [BeginTask] | 2%nat => FinishTask :: Release :: map WorkerLooks (seq 0 64) | _ => [] end)
    (Z.of_nat n * MS) Finished.
Example handlers_not_awaited :
  (drain_server busy 60000 false 100 (run_ops [Start default_options; InstallPool true true; Accept (Some 7)] new)).1
  = Err "server drain timed out with active handlers" ∧
  handler_tasks (run_ops (before (busy 2)) (run_ops (before (busy 0)) new)) = 0.
Proof. split; vm_compute; reflexivity. Qed.

(** The end of the connection with socket 7 takes the socket 8 of the other
    from the list, which the stop then does not shut down. *)
Example other_socket_forgotten :
  let s := run_ops [Start default_options; Accept (Some 7); Accept (Some 8)] new in
  sockets (run_ops [Release] s) = [7] ∧ connections (run_ops [Release] s) = 1.
Proof. split; vm_compute; reflexivity. Qed.
