(* ===== verification/Addresses.v ===== *)
(** * Addresses: network addresses and prefixes ([bn_core_net/src/{lib,addressing,cidr}.rs])

    IPv4 and IPv6 addresses as numbers, their text (what the standard library
    parses and prints), the tests of [HOST.Net.Address], and CIDR prefixes. *)

From S2P Require Import Prelude Text Scalars Splits.

#[local] Open Scope string_scope.
#[local] Open Scope Z_scope.

(** [std::net::IpAddr]: a [u32] or a [u128]. *)
Inductive IpAddr := V4 (a : Z) | V6 (a : Z).
#[export] Instance IpAddr_eq_dec : EqDecision IpAddr.
Proof. solve_decision. Defined.

Definition is_address (a : IpAddr) : Prop := match a with V4 a => 0 ≤ a < 2 ^ 32 | V6 a => 0 ≤ a < 2 ^ 128 end.

Definition octet (n : Z) (a : Z) : Z := a / 2 ^ (8 * (3 - n)) mod 256.
Definition segment (n : Z) (a : Z) : Z := a / 2 ^ (16 * (7 - n)) mod 65536.
Definition segments (a : Z) : list Z := map (fun n => segment n a) [0; 1; 2; 3; 4; 5; 6; 7].

(** ** The text of an address ([std::net]'s parser and [Display]) *)

(** The digits at the start, at most [max] of them. *)
Fixpoint read_digits (radix : Z) (max : nat) (acc : Z) (s : string) : option (Z * string) :=
  match s with
  | EmptyString => Some (acc, s)
  | String c s' =>
      match to_digit radix c with
      | None => Some (acc, s)
      | Some d => match max with O => None | S max => read_digits radix max (acc * radix + d) s' end
      end
  end.

Definition read_number (radix : Z) (max : nat) (zero_prefix : bool) (bound : Z) (s : string) : option (Z * string) :=
  match s with
  | EmptyString => None
  | String c s' =>
      match to_digit radix c, read_digits radix max 0 s with
      | Some _, Some (v, rest) =>
          if negb zero_prefix && Ascii.eqb c "0" && (1 <? String.length s - String.length rest)%nat then None
          else if v <=? bound then Some (v, rest) else None
      | _, _ => None
      end
  end.

Definition read_char (c : ascii) (s : string) : option string :=
  match s with String d s => if Ascii.eqb c d then Some s else None | EmptyString => None end.

Definition read_octet : string → option (Z * string) := read_number 10 3 false 255.

Definition read_ipv4_addr (s : string) : option (Z * string) :=
  '(a, s) ← read_octet s; s ← read_char "." s;
  '(b, s) ← read_octet s; s ← read_char "." s;
  '(c, s) ← read_octet s; s ← read_char "." s;
  '(d, s) ← read_octet s;
  Some (((a * 256 + b) * 256 + c) * 256 + d, s).

(** [read_separator(':', i, inner)]: nothing before the first. *)
Definition read_separated {A} (first : bool) (inner : string → option (A * string)) (s : string) : option (A * string) :=
  if first then inner s else s ← read_char ":" s; inner s.

(** At most [n] groups; an embedded IPv4 address takes two and ends them. *)
Fixpoint read_groups (n : nat) (first : bool) (s : string) : list Z * bool * string :=
  match n with
  | O => ([], false, s)
  | S n =>
      match (if (1 <=? n)%nat then read_separated first read_ipv4_addr s else None) with
      | Some (v4, s) => ([v4 / 65536; v4 mod 65536], true, s)
      | None =>
          match read_separated first (read_number 16 4 true 65535) s with
          | Some (group, s) => let '(groups, v4, s) := read_groups n false s in (group :: groups, v4, s)
          | None => ([], false, s)
          end
      end
  end.

Definition of_segments (l : list Z) : Z := fold_left (fun acc g => acc * 65536 + g) l 0.

Definition read_ipv6_addr (s : string) : option (Z * string) :=
  let '(head, v4, s) := read_groups 8 true s in
  if (length head =? 8)%nat then Some (of_segments head, s)
  else if v4 then None
  else
    s ← read_char ":" s; s ← read_char ":" s;
    let '(tail, _, s) := read_groups (8 - (length head + 1)) true s in
    Some (of_segments (head ++ replicate (8 - length head - length tail) 0 ++ tail)%list, s).

(** [text.parse::<IpAddr>()] *)
Definition parse_ip (text : string) : option IpAddr :=
  match read_ipv4_addr text with
  | Some (a, rest) => if String.eqb rest "" then Some (V4 a) else None
  | None =>
      match read_ipv6_addr text with
      | Some (a, rest) => if String.eqb rest "" then Some (V6 a) else None
      | None => None
      end
  end.

Definition hex_char (d : Z) : ascii := if d <? 10 then digit_char d else byte_of (87 + d).
(** [{:x}] of a [u16] *)
Definition hex16 (n : Z) : string :=
  let d k := hex_char (n / 16 ^ k mod 16) in
  if n <? 16 then String (d 0) ""
  else if n <? 256 then String (d 1) (String (d 0) "")
  else if n <? 4096 then String (d 2) (String (d 1) (String (d 0) ""))
  else String (d 3) (String (d 2) (String (d 1) (String (d 0) ""))).

Definition show_ipv4 (a : Z) : string :=
  dec_of_Z (octet 0 a) +:+ "." +:+ dec_of_Z (octet 1 a) +:+ "." +:+ dec_of_Z (octet 2 a) +:+ "." +:+ dec_of_Z (octet 3 a).

(** The first of the longest runs of zero segments: its start and length. *)
Fixpoint longest_zeros (l : list Z) (i : nat) (current longest : nat * nat) : nat * nat :=
  match l with
  | [] => longest
  | g :: l =>
      if g =? 0 then
        let current := if (current.2 =? 0)%nat then (i, 1%nat) else (current.1, S current.2) in
        longest_zeros l (S i) current (if (longest.2 <? current.2)%nat then current else longest)
      else longest_zeros l (S i) (0%nat, 0%nat) longest
  end.

Definition to_ipv4_mapped (a : Z) : option Z := if Z.shiftr a 32 =? 65535 then Some (Z.land a u32_MAX) else None.
(** The IPv4-compatible addresses as well. *)
Definition to_ipv4 (a : Z) : option Z :=
  if (Z.shiftr a 32 =? 65535) || (Z.shiftr a 32 =? 0) then Some (Z.land a u32_MAX) else None.

Definition show_ipv6 (a : Z) : string :=
  match to_ipv4_mapped a with
  | Some v4 => "::ffff:" +:+ show_ipv4 v4
  | None =>
      let l := segments a in
      let '(start, n) := longest_zeros l 0 (0%nat, 0%nat) (0%nat, 0%nat) in
      let groups l := join ":" (map hex16 l) in
      if (1 <? n)%nat then groups (take start l) +:+ "::" +:+ groups (drop (start + n) l) else groups l
  end.

Definition show_ip (a : IpAddr) : string := match a with V4 a => show_ipv4 a | V6 a => show_ipv6 a end.

Example parsed : (parse_ip "10.0.0.300", parse_ip "010.0.0.1", parse_ip "::ffff:127.0.0.1", parse_ip "2001:db8::1", parse_ip "1:2:3:4:5:6:7::")
  = (None, None, Some (V6 (65535 * 2 ^ 32 + 127 * 2 ^ 24 + 1)), Some (V6 (8193 * 2 ^ 112 + 3512 * 2 ^ 96 + 1)),
     Some (V6 (((((((1 * 65536 + 2) * 65536 + 3) * 65536 + 4) * 65536 + 5) * 65536 + 6) * 65536 + 7) * 65536))).
Proof. vm_compute. reflexivity. Qed.
Example shown : map show_ip [V4 3232235777; V6 1; V6 (8193 * 2 ^ 112 + 1); V6 (65535 * 2 ^ 32 + 5); V6 (2 ^ 112 + 2 ^ 32)]
  = ["192.168.1.1"; "::1"; "2001::1"; "::ffff:0.0.0.5"; "1::1:0:0"].
Proof. vm_compute. reflexivity. Qed.

(** ** The tests of [std::net] and of [Address] *)

Definition v4_is_loopback (a : Z) : bool := octet 0 a =? 127.
Definition v4_is_private (a : Z) : bool :=
  (octet 0 a =? 10) || ((octet 0 a =? 172) && in_range 16 31 (octet 1 a)) || ((octet 0 a =? 192) && (octet 1 a =? 168)).
Definition v4_is_link_local (a : Z) : bool := (octet 0 a =? 169) && (octet 1 a =? 254).
Definition v4_is_multicast (a : Z) : bool := in_range 224 239 (octet 0 a).
Definition v4_is_unspecified (a : Z) : bool := a =? 0.

Definition v6_is_loopback (a : Z) : bool := a =? 1.
Definition v6_is_unspecified (a : Z) : bool := a =? 0.
Definition v6_is_multicast (a : Z) : bool := Z.land (segment 0 a) 65280 =? 65280.
Definition v6_is_unicast_link_local (a : Z) : bool := Z.land (segment 0 a) 65472 =? 65152.
Definition v6_is_unique_local (a : Z) : bool := Z.land (segment 0 a) 65024 =? 64512.

Definition test_mapped (test : Z → bool) (a : Z) : bool := match to_ipv4_mapped a with Some v4 => test v4 | None => false end.

Definition is_loopback (a : IpAddr) : bool :=
  match a with V4 a => v4_is_loopback a | V6 a => v6_is_loopback a || test_mapped v4_is_loopback a end.
Definition is_private (a : IpAddr) : bool :=
  match a with V4 a => v4_is_private a | V6 a => v6_is_unique_local a || test_mapped v4_is_private a end.
Definition is_link_local (a : IpAddr) : bool :=
  match a with V4 a => v4_is_link_local a | V6 a => v6_is_unicast_link_local a end.
Definition is_multicast (a : IpAddr) : bool :=
  match a with V4 a => v4_is_multicast a | V6 a => v6_is_multicast a end.
Definition is_ipv4 (a : IpAddr) : bool := match a with V4 _ => true | V6 _ => false end.
Definition is_ipv6 (a : IpAddr) : bool := match a with V4 _ => false | V6 _ => true end.

(** ** Prefixes *)

Record Cidr := mkCidr { network : IpAddr; prefix : Z }.

(** [!0 << (w - prefix)] of a [w]-bit integer *)
Definition prefix_mask (w prefix : Z) : Z :=
  if prefix =? 0 then 0 else Z.land (Z.shiftl (2 ^ w - 1) (w - prefix)) (2 ^ w - 1).
Definition mask (a : IpAddr) (prefix : Z) : IpAddr :=
  match a with
  | V4 a => V4 (Z.land a (prefix_mask 32 prefix))
  | V6 a => V6 (Z.land a (prefix_mask 128 prefix))
  end.

Definition width (a : IpAddr) : Z := match a with V4 _ => 32 | V6 _ => 128 end.

(** A prefix text in decimal without a sign or a leading zero. *)
Definition canonical_prefix (p : string) : bool :=
  negb (String.eqb p "") && forallb is_ascii_digit (str_bytes p) && (String.eqb p "0" || negb (starts_with "0" p)).

(** [Cidr::parse] *)
Definition cidr_parse (text : string) : res string Cidr :=
  '(address, p) ← ok_or "CIDR requires '/'" (split_once "/" text);
  a ← ok_or "invalid address" (parse_ip address);
  n ← ok_or "invalid prefix" (if canonical_prefix p then from_str_radix 0 255 10 p else None);
  if width a <? n then Err "prefix is wider than address family"
  else if negb (bool_decide (mask a n = a)) then Err "address has bits past the prefix"
  else Ok (mkCidr (mask a n) n).

Definition cidr_contains (c : Cidr) (a : IpAddr) : bool := bool_decide (network c = mask a (prefix c)).

(** [parse_cidr]: the cause of a failure. *)
Definition cidr_cause (text reason : string) : string :=
  if String.eqb reason "CIDR requires '/'" then "a CIDR prefix is an address, '/', and a prefix length (10.0.0.0/8)"
  else if String.eqb reason "invalid address" then "the part before '/' is not an IPv4 or IPv6 address"
  else if String.eqb reason "invalid prefix" then
    "the part after '/' is not a prefix length: decimal digits, no sign, no leading zero (0..128)"
  else if String.eqb reason "address has bits past the prefix" then
    "the address has bits set past the prefix; write the network address (10.0.0.0/8, not 10.0.0.1/8)"
  else "the prefix length is wider than the " +:+ dec_of_Z (if contains_char ":" text then 128 else 32) +:+ " bits of the address".
Definition parse_cidr (text : string) : res string Cidr :=
  match cidr_parse text with Err reason => Err (cidr_cause text reason) | r => r end.

Definition accepts (text : string) : bool := match cidr_parse text with Ok _ => true | _ => false end.
Example strict_texts :
  forallb accepts ["10.0.0.0/8"; "0.0.0.0/0"; "192.168.1.0/24"; "2001:db8::/32"; "::/0"] = true ∧
  existsb accepts ["10.0.0.0/08"; "10.0.0.0/+8"; "10.0.0.0/ 8"; "10.0.0.0/"; "10.0.0.0/00"; "10.0.0.1/8"; "2001:db8::1/64"; "10.0.0.0/33"] = false.
Proof. split; vm_compute; reflexivity. Qed.

(** ** What a mask does *)

Lemma land_high v w k : 0 ≤ v < 2 ^ w → 0 ≤ k ≤ w → Z.land v (2 ^ w - 2 ^ k) = v - v mod 2 ^ k.
Proof.
  intros Hv Hk. assert (2 ^ w - 2 ^ k = Z.shiftl (Z.ones (w - k)) k) as ->.
  { rewrite Z.ones_equiv, Z.shiftl_mul_pow2 by lia. rewrite Z.mul_pred_l, <- Z.pow_add_r by lia. do 2 f_equal. lia. }
  assert (v - v mod 2 ^ k = Z.shiftl (v / 2 ^ k) k) as ->.
  { rewrite Z.shiftl_mul_pow2 by lia. pose proof (Z.div_mod v (2 ^ k)). lia. }
  apply Z.bits_inj'. intros n Hn. rewrite Z.land_spec, !Z.shiftl_spec by done.
  destruct (Z.ltb_spec n k); [rewrite !(Z.testbit_neg_r _ (n - k)) by lia; apply andb_false_r|].
  rewrite <- Z.shiftr_div_pow2, Z.shiftr_spec by lia. replace (n - k + k) with n by lia.
  destruct (Z.ltb_spec n w); [rewrite Z.ones_spec_low by lia; apply andb_true_r|].
  rewrite Z.ones_spec_high, andb_false_r by lia. symmetry.
  destruct (Z.eq_dec v 0) as [->|]; [apply Z.testbit_0_l|]. apply Z.bits_above_log2; [lia|].
  apply Z.log2_lt_pow2; [lia|]. pose proof (Z.pow_le_mono_r 2 w n). lia.
Qed.

Lemma prefix_mask_spec w p : 0 ≤ p ≤ w → prefix_mask w p = 2 ^ w - 2 ^ (w - p).
Proof.
  intros Hp. unfold prefix_mask. destruct (Z.eqb_spec p 0) as [->|]; [rewrite Z.sub_0_r; lia|].
  assert (2 ^ w - 1 = Z.ones w) as -> by (rewrite Z.ones_equiv; lia). rewrite Z.land_ones by lia.
  rewrite Z.shiftl_mul_pow2, Z.ones_equiv by lia. unfold Z.pred.
  assert (2 ^ w = 2 ^ (w - p) * 2 ^ p) as E by (rewrite <- Z.pow_add_r by lia; f_equal; lia).
  assert (0 < 2 ^ p) by (apply Z.pow_pos_nonneg; lia). assert (0 < 2 ^ (w - p)) by (apply Z.pow_pos_nonneg; lia).
  assert (2 ^ (w - p) ≤ 2 ^ w) by (apply Z.pow_le_mono_r; lia).
  replace ((2 ^ w + -1) * 2 ^ (w - p)) with ((2 ^ w - 2 ^ (w - p)) + (2 ^ (w - p) - 1) * 2 ^ w) by lia.
  rewrite Z.mod_add by lia. apply Z.mod_small. lia.
Qed.

(** The address with the host bits cleared; the block it begins. *)
Definition value (a : IpAddr) : Z := match a with V4 a => a | V6 a => a end.
Definition same_family (a b : IpAddr) : Prop := is_ipv4 a = is_ipv4 b.
Definition in_block (n a : IpAddr) (p : Z) : Prop :=
  same_family n a ∧ value n / 2 ^ (width n - p) = value a / 2 ^ (width a - p).

Lemma mask_value a p : is_address a → 0 ≤ p ≤ width a → value (mask a p) = value a - value a mod 2 ^ (width a - p).
Proof.
  destruct a as [a|a]; cbn [is_address width mask value]; intros Ha Hp; rewrite prefix_mask_spec by lia;
    apply land_high; lia.
Qed.
Lemma mask_family a p : is_ipv4 (mask a p) = is_ipv4 a.
Proof. by destruct a. Qed.
Lemma family_width a b : same_family a b → width a = width b.
Proof. by destruct a, b. Qed.
Lemma addr_eq a b : a = b ↔ same_family a b ∧ value a = value b.
Proof. destruct a, b; cbn; unfold same_family; cbn; naive_solver. Qed.

Lemma value_bound a : is_address a → 0 ≤ value a < 2 ^ width a.
Proof. by destruct a. Qed.
Lemma width_pos a : 0 < width a.
Proof. by destruct a. Qed.

(** Two addresses have the same network exactly when their first bits agree. *)
Lemma mask_eq a b p : is_address a → is_address b → 0 ≤ p ≤ width a → same_family a b →
  mask a p = mask b p ↔ in_block a b p.
Proof.
  intros Ha Hb Hp Hf. pose proof (family_width a b Hf) as Hw. rewrite addr_eq, !mask_value by (done || lia).
  unfold in_block, same_family in *. rewrite !mask_family, Hw. split.
  - intros [_ E]. split; [done|]. assert (0 < 2 ^ (width b - p)) by (apply Z.pow_pos_nonneg; lia).
    pose proof (Z.div_mod (value a) (2 ^ (width b - p))). pose proof (Z.div_mod (value b) (2 ^ (width b - p))). nia.
  - intros [_ E]. split; [done|]. assert (0 < 2 ^ (width b - p)) by (apply Z.pow_pos_nonneg; lia).
    pose proof (Z.div_mod (value a) (2 ^ (width b - p))). pose proof (Z.div_mod (value b) (2 ^ (width b - p))). nia.
Qed.

(** ** What the parser gives is an address *)

Lemma to_digit_bound radix c d : to_digit radix c = Some d → 0 ≤ d < radix.
Proof.
  unfold to_digit, in_range. intros H. pose proof (byte_val_bound c).
  repeat match type of H with context [if ?b then _ else _] => destruct b eqn:? end; try done; injection H as <-;
    repeat match goal with H : (_ && _) = true |- _ => apply andb_prop in H as [?%Z.leb_le ?%Z.leb_le] | H : (_ <? _) = true |- _ => apply Z.ltb_lt in H end; lia.
Qed.

Lemma read_digits_nonneg radix max : ∀ acc s v rest, 0 < radix → 0 ≤ acc → read_digits radix max acc s = Some (v, rest) → 0 ≤ v.
Proof.
  induction max as [|max IH]; intros acc s v rest Hr Ha; destruct s as [|c s]; cbn [read_digits];
    try (by intros [= <- _]); destruct (to_digit radix c) as [d|] eqn:Hd; try done; try (by intros [= <- _]).
  apply IH; [done|]. apply to_digit_bound in Hd. nia.
Qed.

Lemma read_number_bound radix max z bound s v rest : 0 < radix → read_number radix max z bound s = Some (v, rest) → 0 ≤ v ≤ bound.
Proof.
  intros Hr. unfold read_number. destruct s as [|c s]; [done|]. destruct (to_digit radix c); [|done].
  destruct (read_digits radix max 0 (String c s)) as [[v' rest']|] eqn:Hd; [|done]. destruct (_ && _); [done|].
  destruct (Z.leb_spec v' bound); [|done]. intros [= <- _]. by apply read_digits_nonneg in Hd.
Qed.

Lemma read_ipv4_bound s a rest : read_ipv4_addr s = Some (a, rest) → 0 ≤ a < 2 ^ 32.
Proof.
  unfold read_ipv4_addr, read_octet. intros H.
  apply bind_Some in H as ([x s1] & Hx & H). apply bind_Some in H as (s2 & _ & H).
  apply bind_Some in H as ([y s3] & Hy & H). apply bind_Some in H as (s4 & _ & H).
  apply bind_Some in H as ([z s5] & Hz & H). apply bind_Some in H as (s6 & _ & H).
  apply bind_Some in H as ([w s7] & Hw & H). injection H as <- _.
  apply read_number_bound in Hx, Hy, Hz, Hw; lia.
Qed.

Definition is_segment (g : Z) : Prop := 0 ≤ g < 65536.

Lemma read_separated_ipv4 first s v rest : read_separated first read_ipv4_addr s = Some (v, rest) → 0 ≤ v < 2 ^ 32.
Proof.
  unfold read_separated. destruct first; [apply read_ipv4_bound|]. intros H. apply bind_Some in H as (s' & _ & H).
  by apply read_ipv4_bound in H.
Qed.
Lemma read_separated_group first s v rest : read_separated first (read_number 16 4 true 65535) s = Some (v, rest) → is_segment v.
Proof.
  unfold read_separated, is_segment. destruct first; intros H; [|apply bind_Some in H as (s' & _ & H)];
    apply read_number_bound in H; lia.
Qed.

Lemma read_groups_ok n : ∀ first s, let '(l, _, _) := read_groups n first s in Forall is_segment l ∧ (length l ≤ n)%nat.
Proof.
  induction n as [|n IH]; intros first s; cbn [read_groups]; [split; [constructor|cbn; lia]|].
  destruct (if (1 <=? n)%nat then _ else _) as [[v4 s']|] eqn:Hv.
  - destruct (Nat.leb_spec 1 n); [|done]. apply read_separated_ipv4 in Hv. split; [|cbn; lia].
    repeat constructor; unfold is_segment; [apply Z.div_pos; lia|apply Z.div_lt_upper_bound; lia|apply Z.mod_pos_bound; lia..].
  - destruct (read_separated first (read_number 16 4 true 65535) s) as [[g s']|] eqn:Hg; [|split; [constructor|cbn; lia]].
    specialize (IH false s'). destruct (read_groups n false s') as [[l v4] rest]. destruct IH. split; [|cbn; lia].
    constructor; [by apply read_separated_group in Hg|done].
Qed.

Lemma of_segments_bound l : Forall is_segment l → 0 ≤ of_segments l < 65536 ^ Z.of_nat (length l).
Proof.
  intros H. unfold of_segments. assert (∀ acc n, 0 ≤ acc < 65536 ^ Z.of_nat n →
    0 ≤ fold_left (λ acc g, acc * 65536 + g) l acc < 65536 ^ Z.of_nat (length l + n)) as Hacc.
  { induction H as [|g l Hg _ IH]; intros acc n Ha; cbn [fold_left length]; [done|].
    replace (S (length l) + n)%nat with (length l + S n)%nat by lia. apply IH. rewrite Nat2Z.inj_succ, Z.pow_succ_r by lia.
    unfold is_segment in Hg. lia. }
  specialize (Hacc 0 0%nat). rewrite Nat.add_0_r in Hacc. apply Hacc. cbn. lia.
Qed.

Lemma parse_ip_address text a : parse_ip text = Some a → is_address a.
Proof.
  unfold parse_ip. destruct (read_ipv4_addr text) as [[v rest]|] eqn:H4.
  { destruct (String.eqb rest ""); [|done]. intros [= <-]. by apply read_ipv4_bound in H4. }
  unfold read_ipv6_addr. pose proof (read_groups_ok 8 true text) as Hh. destruct (read_groups 8 true text) as [[head v4] s].
  destruct Hh as [Hh Hl]. destruct (Nat.eqb_spec (length head) 8) as [E|E].
  { destruct (String.eqb s ""); [|done]. intros [= <-]. pose proof (of_segments_bound head Hh). rewrite E in *. done. }
  destruct v4; [done|]. destruct (read_char ":" s) as [s1|]; cbn [mbind option_bind]; [|done].
  destruct (read_char ":" s1) as [s2|]; cbn [mbind option_bind]; [|done].
  pose proof (read_groups_ok (8 - (length head + 1)) true s2) as Ht. destruct (read_groups _ true s2) as [[tail v] s3].
  destruct Ht as [Ht Htl]. destruct (String.eqb s3 ""); [|done]. intros [= <-].
  pose proof (of_segments_bound (head ++ replicate (8 - length head - length tail) 0 ++ tail)%list) as Hb.
  rewrite !length_app, length_replicate in Hb. replace (length head + (8 - length head - length tail + length tail))%nat with 8%nat in Hb by lia.
  apply Hb. apply Forall_app. split; [done|]. apply Forall_app. split; [|done]. apply Forall_replicate. unfold is_segment. lia.
Qed.

(** ** Prefixes mean blocks *)

Lemma radix_loop_lower lo hi radix acc s v : 0 < radix → 0 ≤ acc ≤ hi → radix_loop radix 1 lo hi acc s = Some v → 0 ≤ v ≤ hi.
Proof.
  intros Hr. revert acc. induction s as [|c s IH]; intros acc Ha; cbn [radix_loop]; [intros [= <-]; done|].
  destruct (to_digit radix c) as [d|] eqn:Hd; [|done]. apply to_digit_bound in Hd. unfold in_range.
  destruct (_ && _); [|done]. destruct ((lo <=? acc * radix + 1 * d) && (acc * radix + 1 * d <=? hi)) eqn:Hb; [|done].
  apply andb_prop in Hb as [_ Hb%Z.leb_le]. apply IH. nia.
Qed.

Lemma prefix_bound p n : from_str_radix 0 255 10 p = Some n → 0 ≤ n ≤ 255.
Proof.
  unfold from_str_radix. change (0 <? 0) with false. destruct p as [|c p]; [done|].
  repeat match goal with |- context [match ?x with _ => _ end] => destruct x end; try done;
    intros H; apply radix_loop_lower in H; (done || lia).
Qed.

(** The first address of a block and its length give the whole block. *)
Lemma contains_range b n a : is_address b → is_address a → 0 ≤ n ≤ width b → mask b n = b →
  cidr_contains (mkCidr b n) a = true ↔ same_family b a ∧ value b ≤ value a < value b + 2 ^ (width b - n).
Proof.
  intros Hb Ha Hn Hm. assert (0 < 2 ^ (width b - n)) as Hpow by (apply Z.pow_pos_nonneg; lia).
  assert (value b mod 2 ^ (width b - n) = 0) as Hzero.
  { pose proof (mask_value b n Hb ltac:(lia)) as Hv. rewrite Hm in Hv. lia. }
  unfold cidr_contains. cbn [network prefix]. rewrite bool_decide_eq_true. split.
  - intros E. assert (same_family b a) as Hf. { unfold same_family. rewrite E. apply mask_family. }
    split; [done|]. rewrite <- Hm in E at 1. apply mask_eq in E; [|done|done|lia|done]. destruct E as [_ E].
    rewrite (family_width _ _ Hf) in *. pose proof (Z.div_mod (value b) (2 ^ (width a - n))). pose proof (Z.div_mod (value a) (2 ^ (width a - n))).
    pose proof (Z.mod_pos_bound (value a) (2 ^ (width a - n))). nia.
  - intros [Hf Hr]. rewrite <- Hm at 1. apply mask_eq; [done|done|lia|done|]. split; [done|].
    rewrite (family_width _ _ Hf) in *. pose proof (Z.div_mod (value b) (2 ^ (width a - n))) as Hdb.
    apply (Z.div_unique _ _ _ (value a - value b)); lia.
Qed.

(** What a CIDR prefix means. A text that is accepted is an address, a slash
    and a prefix length within the family's width, the address the first of
    its block; and the prefix contains exactly the addresses of its family
    whose leading bits agree, that is a run of [2^(w - n)] addresses. *)
Theorem cidr_meaning text c : cidr_parse text = Ok c →
  is_address (network c) ∧ 0 ≤ prefix c ≤ width (network c) ∧ value (network c) mod 2 ^ (width (network c) - prefix c) = 0 ∧
  (∃ address digits, split_once "/" text = Some (address, digits) ∧ parse_ip address = Some (network c) ∧
     canonical_prefix digits = true ∧ from_str_radix 0 255 10 digits = Some (prefix c)) ∧
  ∀ a, is_address a → cidr_contains c a = true ↔
    same_family (network c) a ∧ value (network c) ≤ value a < value (network c) + 2 ^ (width (network c) - prefix c).
Proof.
  unfold cidr_parse. destruct (split_once "/" text) as [[address p]|]; [|done]. cbn [ok_or mbind res_bind].
  destruct (parse_ip address) as [b|] eqn:Hb; [|done]. cbn [ok_or mbind res_bind].
  destruct (canonical_prefix p) eqn:Hc; [|done]. destruct (from_str_radix 0 255 10 p) as [n|] eqn:Hn; [|done].
  cbn [ok_or mbind res_bind]. destruct (Z.ltb_spec (width b) n); [done|]. case_bool_decide as Hm; [|done]. cbn [negb].
  intros [= <-]. cbn [network prefix]. rewrite Hm. pose proof (parse_ip_address _ _ Hb) as Hab. pose proof (prefix_bound _ _ Hn) as Hpn.
  split; [done|]. split; [lia|]. split; [pose proof (mask_value b n Hab ltac:(lia)) as Hv; rewrite Hm in Hv; lia|].
  split; [by exists address, p|]. intros a Ha. apply contains_range; [done|done|lia|done].
Qed.

Lemma cidr_meaning_witness :
  cidr_parse "10.0.0.0/8" = Ok (mkCidr (V4 167772160) 8) ∧
  (is_address (V4 167772160) ∧ 0 ≤ 8 ≤ 32 ∧ 167772160 mod 2 ^ (32 - 8) = 0 ∧
  (∃ address digits, split_once "/" "10.0.0.0/8" = Some (address, digits) ∧ parse_ip address = Some (V4 167772160) ∧
     canonical_prefix digits = true ∧ from_str_radix 0 255 10 digits = Some 8) ∧
  ∀ a, is_address a → cidr_contains (mkCidr (V4 167772160) 8) a = true ↔
    same_family (V4 167772160) a ∧ 167772160 ≤ value a < 167772160 + 2 ^ (32 - 8)).
Proof.
  split; [vm_compute; reflexivity|].
  apply (cidr_meaning "10.0.0.0/8" (mkCidr (V4 167772160) 8)). vm_compute. reflexivity.
Defined.

(** ** A printed address is read back *)

(** No digit of the radix begins the text. *)
Definition no_digit (radix : Z) (s : string) : Prop := match s with String c _ => to_digit radix c = None | EmptyString => True end.

Lemma read_digits_end radix max acc rest : no_digit radix rest → read_digits radix max acc rest = Some (acc, rest).
Proof. intros Hn. destruct rest as [|c rest]; destruct max; try done; cbn [read_digits no_digit] in *; by rewrite Hn. Qed.

Lemma read_digits_app radix max : ∀ acc s v rest, read_digits radix max acc s = Some (v, "") → no_digit radix rest →
  read_digits radix max acc (s +:+ rest) = Some (v, rest).
Proof.
  induction max as [|max IH]; intros acc s v rest H Hn; (destruct s as [|c s];
    [rewrite str_nil_append; injection H as <-; by apply read_digits_end|]);
    rewrite str_cons_append; cbn [read_digits] in *; destruct (to_digit radix c); try done.
  by apply IH.
Qed.

Lemma read_number_app radix max z bound s v rest : read_number radix max z bound s = Some (v, "") → no_digit radix rest →
  read_number radix max z bound (s +:+ rest) = Some (v, rest).
Proof.
  unfold read_number. destruct s as [|c s]; [done|]. intros H Hn. rewrite str_cons_append. destruct (to_digit radix c); [|done].
  destruct (read_digits radix max 0 (String c s)) as [[v' rest']|] eqn:Hd; [|done].
  assert (rest' = "" ∧ v' = v) as [-> ->]. { destruct (_ && _); [done|]. destruct (v' <=? bound); [|done]. by injection H as -> ->. }
  pose proof (read_digits_app _ _ _ _ _ rest Hd Hn) as Ha. rewrite str_cons_append in Ha. rewrite Ha.
  assert (String.length (String c (s +:+ rest)) - String.length rest = String.length (String c s) - String.length "")%nat as ->.
  { cbn [String.length]. rewrite str_length_append. lia. }
  destruct (_ && _); [done|]. by destruct (v <=? bound).
Qed.

Lemma octet_read v rest : 0 ≤ v < 256 → no_digit 10 rest → read_octet (dec_of_Z v +:+ rest) = Some (v, rest).
Proof.
  intros Hv. apply read_number_app. revert v Hv.
  assert (holds_below 256 (λ v, bool_decide (read_octet (dec_of_Z v) = Some (v, ""))) 0 = true) as H by (vm_compute; reflexivity).
  intros v Hv. apply (holds_below_spec _ _ _ H v) in Hv. by apply bool_decide_eq_true in Hv.
Qed.

Lemma hex_char_digit d : 0 ≤ d < 16 → to_digit 16 (hex_char d) = Some d.
Proof.
  intros Hd. assert (holds_below 16 (λ d, bool_decide (to_digit 16 (hex_char d) = Some d)) 0 = true) as H by (vm_compute; reflexivity).
  apply (holds_below_spec _ _ _ H d) in Hd. by apply bool_decide_eq_true in Hd.
Qed.

Lemma group_read v rest : is_segment v → no_digit 16 rest → read_number 16 4 true 65535 (hex16 v +:+ rest) = Some (v, rest).
Proof.
  intros Hv Hn. unfold is_segment in Hv. rewrite (read_number_app 16 4 true 65535 (hex16 v) v rest); [done| |done].
  assert (∀ k, to_digit 16 (hex_char (v / 16 ^ k mod 16)) = Some (v / 16 ^ k mod 16)) as Hd.
  { intros k. apply hex_char_digit, Z.mod_pos_bound. lia. }
  unfold hex16, read_number. destruct (Z.ltb_spec v 16); [|destruct (Z.ltb_spec v 256); [|destruct (Z.ltb_spec v 4096)]];
    rewrite !Hd; cbn [read_digits]; rewrite ?Hd; cbn [negb andb];
    change (16 ^ 0) with 1; change (16 ^ 1) with 16; change (16 ^ 2) with 256; change (16 ^ 3) with 4096;
    match goal with |- context [?x <=? 65535] => assert (x = v) as -> by (Z.to_euclidean_division_equations; lia) end;
    by rewrite (proj2 (Z.leb_le v 65535)) by lia.
Qed.

Lemma octets_sum a : 0 ≤ a < 2 ^ 32 → ((octet 0 a * 256 + octet 1 a) * 256 + octet 2 a) * 256 + octet 3 a = a.
Proof.
  intros Ha. unfold octet. change (8 * (3 - 0)) with 24. change (8 * (3 - 1)) with 16. change (8 * (3 - 2)) with 8. change (8 * (3 - 3)) with 0.
  Z.to_euclidean_division_equations. lia.
Qed.
Lemma octet_bound n a : 0 ≤ octet n a < 256.
Proof. unfold octet. apply Z.mod_pos_bound. lia. Qed.

Lemma ipv4_read a rest : 0 ≤ a < 2 ^ 32 → no_digit 10 rest → read_ipv4_addr (show_ipv4 a +:+ rest) = Some (a, rest).
Proof.
  intros Ha Hn. unfold show_ipv4, read_ipv4_addr. rewrite !str_append_assoc.
  do 3 (rewrite octet_read by (apply octet_bound || done); cbn [mbind option_bind]; rewrite str_cons_append, str_nil_append; cbn [read_char mbind option_bind Ascii.eqb Bool.eqb]).
  rewrite octet_read by (apply octet_bound || done). cbn [mbind option_bind]. by rewrite octets_sum.
Qed.

Definition has_dot (s : string) : bool := contains_char "." s.

Lemma str_bytes_cons c s : str_bytes (String c s) = c :: str_bytes s.
Proof. reflexivity. Qed.
Lemma has_dot_cons c s : has_dot (String c s) = Ascii.eqb "." c || has_dot s.
Proof. reflexivity. Qed.
Lemma has_dot_append a b : has_dot (a +:+ b) = has_dot a || has_dot b.
Proof. induction a as [|c a IH]; [done|]. rewrite str_cons_append, !has_dot_cons, IH. apply orb_assoc. Qed.

Lemma read_digits_suffix radix max : ∀ acc s v rest, read_digits radix max acc s = Some (v, rest) → has_dot s = false → has_dot rest = false.
Proof.
  induction max as [|max IH]; intros acc s v rest H Hd; (destruct s as [|c s]; cbn [read_digits] in H; [by injection H as _ <-|]);
    (destruct (to_digit radix c); [|by injection H as _ <-]); [done|].
  rewrite has_dot_cons, orb_false_iff in Hd. apply (IH _ _ _ _ H). tauto.
Qed.

(** An IPv4 address has a dot. *)
Lemma no_dot_no_ipv4 s : has_dot s = false → read_ipv4_addr s = None.
Proof.
  intros Hd. unfold read_ipv4_addr. destruct (read_octet s) as [[x s1]|] eqn:Hx; [|done]. cbn [mbind option_bind].
  assert (has_dot s1 = false) as H1.
  { unfold read_octet, read_number in Hx. destruct s as [|c s]; [done|]. destruct (to_digit 10 c); [|done].
    destruct (read_digits 10 3 0 (String c s)) as [[v r]|] eqn:Hr; [|done]. destruct (_ && _); [done|].
    destruct (v <=? 255); [|done]. injection Hx as _ <-. by apply read_digits_suffix in Hr. }
  destruct s1 as [|c s1]; [done|]. rewrite has_dot_cons, orb_false_iff in H1. destruct H1 as [H1 _].
  cbn [read_char]. by rewrite H1.
Qed.

Lemma hex16_no_dot g : is_segment g → has_dot (hex16 g) = false.
Proof.
  intros Hg. assert (∀ k, Ascii.eqb "." (hex_char (g / 16 ^ k mod 16)) = false) as Hd.
  { intros k. assert (holds_below 16 (λ d, negb (Ascii.eqb "." (hex_char d))) 0 = true) as H by (vm_compute; reflexivity).
    apply negb_true_iff, (holds_below_spec _ _ _ H). apply Z.mod_pos_bound. lia. }
  unfold hex16. destruct (g <? 16); [|destruct (g <? 256); [|destruct (g <? 4096)]]; rewrite !has_dot_cons, !Hd; done.
Qed.

(** Groups after a colon each. *)
Fixpoint colon_groups (l : list Z) : string := match l with [] => "" | g :: l => ":" +:+ (hex16 g +:+ colon_groups l) end.
Definition groups_text (first : bool) (l : list Z) : string :=
  if first then match l with [] => "" | g :: l => hex16 g +:+ colon_groups l end else colon_groups l.

Lemma join_groups l : join ":" (map hex16 l) = groups_text true l.
Proof.
  destruct l as [|g l]; [done|]. cbn [groups_text map]. revert g. induction l as [|h l IH]; intros g; [symmetry; apply str_append_nil|].
  change (join ":" (hex16 g :: map hex16 (h :: l))) with (hex16 g +:+ (":" +:+ join ":" (hex16 h :: map hex16 l))).
  by rewrite IH.
Qed.

Lemma colon_groups_no_dot l : Forall is_segment l → has_dot (colon_groups l) = false.
Proof. induction 1 as [|g l Hg _ IH]; [done|]. cbn [colon_groups]. by rewrite !has_dot_append, hex16_no_dot, IH. Qed.
Lemma groups_text_no_dot first l : Forall is_segment l → has_dot (groups_text first l) = false.
Proof.
  intros Hl. unfold groups_text. destruct first; [|by apply colon_groups_no_dot]. destruct Hl as [|g l Hg Hl]; [done|].
  by rewrite has_dot_append, hex16_no_dot, colon_groups_no_dot.
Qed.

(** Where the groups end. *)
Definition ends_groups (rest : string) : Prop := rest = "" ∨ ∃ r, rest = "::" +:+ r.

Lemma ends_no_group first n rest : ends_groups rest → has_dot rest = false → read_groups n first rest = ([], false, rest).
Proof.
  intros [->|[r ->]] Hd; destruct n as [|n]; try done; cbn [read_groups]; unfold read_separated.
  - destruct first; by destruct (1 <=? n)%nat.
  - assert (has_dot (":" +:+ r) = false) as Hd'. { rewrite has_dot_append in *. cbn in *. done. }
    assert ("::" +:+ r = String ":" (":" +:+ r)) as -> by done. destruct first.
    + rewrite no_dot_no_ipv4 by done. by destruct (1 <=? n)%nat.
    + cbn [read_char Ascii.eqb Bool.eqb mbind option_bind]. rewrite no_dot_no_ipv4 by done. by destruct (1 <=? n)%nat.
Qed.

Lemma no_digit_after l rest : ends_groups rest → no_digit 16 (colon_groups l +:+ rest).
Proof. intros [->|[r ->]]; by destruct l. Qed.

Lemma groups_read l : Forall is_segment l → ∀ n first rest, (length l ≤ n)%nat → ends_groups rest → has_dot rest = false →
  read_groups n first (groups_text first l +:+ rest) = (l, false, rest).
Proof.
  induction 1 as [|g l Hg Hl IH]; intros n first rest Hn He Hd.
  { destruct first; rewrite str_nil_append; by apply ends_no_group. }
  destruct n as [|n]; [cbn in Hn; lia|]. cbn [length] in Hn. cbn [read_groups].
  assert (has_dot (colon_groups l +:+ rest) = false) as Hd' by by rewrite has_dot_append, colon_groups_no_dot, Hd.
  assert (has_dot (hex16 g +:+ (colon_groups l +:+ rest)) = false) as Hd2 by by rewrite has_dot_append, hex16_no_dot, Hd'.
  assert (read_separated first read_ipv4_addr (groups_text first (g :: l) +:+ rest) = None ∧
          read_separated first (read_number 16 4 true 65535) (groups_text first (g :: l) +:+ rest) = Some (g, colon_groups l +:+ rest)) as [E1 E2].
  { unfold read_separated, groups_text. destruct first; cbn [colon_groups].
    - rewrite str_append_assoc. split; [by apply no_dot_no_ipv4|]. apply group_read; [done|by apply no_digit_after].
    - rewrite !str_append_assoc, str_cons_append, str_nil_append. cbn [read_char Ascii.eqb Bool.eqb mbind option_bind].
      split; [by apply no_dot_no_ipv4|]. apply group_read; [done|by apply no_digit_after]. }
  assert ((if (1 <=? n)%nat then read_separated first read_ipv4_addr (groups_text first (g :: l) +:+ rest) else None) = None) as ->.
  { rewrite E1. by destruct (1 <=? n)%nat. }
  rewrite E2. change (colon_groups l) with (groups_text false l). by rewrite IH by (lia || done).
Qed.

(** ** Runs of zero segments *)

Definition zero_run (L : list Z) (r : nat * nat) : Prop := ∀ j, (r.1 ≤ j < r.1 + r.2)%nat → L !! j = Some 0.

Lemma longest_zeros_spec L l : ∀ i current longest, drop i L = l →
  (current.2 = 0%nat ∨ current.1 + current.2 = i)%nat → zero_run L current → zero_run L longest →
  zero_run L (longest_zeros l i current longest).
Proof.
  induction l as [|g l IH]; intros i current longest Hl Hc Hcr Hlr; cbn [longest_zeros]; [done|].
  assert (L !! i = Some g) as Hg. { rewrite <- (Nat.add_0_r i), <- lookup_drop, Hl. done. }
  assert (drop (S i) L = l) as Hl'. { rewrite <- Nat.add_1_r, <- drop_drop, Hl. done. }
  destruct (Z.eqb_spec g 0) as [->|]; [|apply IH; [done|by left|intros j Hj; cbn in Hj; lia|done]].
  set (c := if (current.2 =? 0)%nat then (i, 1%nat) else (current.1, S current.2)).
  assert (zero_run L c ∧ (c.1 + c.2 = S i)%nat) as [H1 H2].
  { unfold c. destruct (Nat.eqb_spec current.2 0) as [E|E]; cbn [fst snd].
    - split; [|lia]. intros j Hj. cbn in Hj. by assert (j = i) as -> by lia.
    - destruct Hc as [Hc|Hc]; [done|]. split; [|lia]. intros j Hj. cbn in Hj.
      destruct (decide (j = i)) as [->|]; [done|]. apply Hcr. lia. }
  apply IH; [done|by right|done|]. by destruct (_ <? _)%nat.
Qed.

Lemma zero_run_split L s n : zero_run L (s, n) → L = (take s L ++ replicate n 0 ++ drop (s + n) L)%list.
Proof.
  intros H. rewrite <- (take_drop s L) at 1. f_equal. rewrite <- (take_drop n (drop s L)) at 1. rewrite drop_drop. f_equal.
  apply list_eq. intros j. destruct (decide (j < n)%nat) as [Hj|Hj].
  - rewrite lookup_take_lt, lookup_drop, lookup_replicate_2 by done. apply H. cbn. lia.
  - rewrite !(proj2 (lookup_ge_None _ _)); [done|rewrite length_replicate; lia|rewrite length_take; lia].
Qed.

Lemma of_segments_segments a : 0 ≤ a < 2 ^ 128 → of_segments (segments a) = a.
Proof.
  intros Ha. unfold of_segments, segments, segment. cbn [map fold_left].
  change (16 * (7 - 0)) with 112. change (16 * (7 - 1)) with 96. change (16 * (7 - 2)) with 80. change (16 * (7 - 3)) with 64.
  change (16 * (7 - 4)) with 48. change (16 * (7 - 5)) with 32. change (16 * (7 - 6)) with 16. change (16 * (7 - 7)) with 0.
  Z.to_euclidean_division_equations. lia.
Qed.
Lemma segments_ok a : Forall is_segment (segments a) ∧ length (segments a) = 8%nat.
Proof.
  split; [|done]. unfold segments. apply list.Forall_forall. intros g (n & -> & _)%list_elem_of_fmap.
  unfold is_segment, segment. apply Z.mod_pos_bound. lia.
Qed.

(** What is read after the double colon. *)
Lemma read_compressed head tail n s : Forall is_segment head → Forall is_segment tail →
  (length head + n + length tail = 8)%nat → (1 < n)%nat → s = groups_text true head +:+ "::" +:+ groups_text true tail →
  read_ipv4_addr s = None ∧ read_ipv6_addr s = Some (of_segments (head ++ replicate n 0 ++ tail)%list, "").
Proof.
  intros Hh Ht Hlen Hn ->. assert (has_dot ("::" +:+ groups_text true tail) = false) as Hd.
  { by rewrite has_dot_append, groups_text_no_dot. }
  split; [apply no_dot_no_ipv4; by rewrite has_dot_append, groups_text_no_dot, Hd|].
  unfold read_ipv6_addr. rewrite groups_read by (lia || done || (right; eauto)).
  destruct (Nat.eqb_spec (length head) 8); [lia|]. change ("::" +:+ groups_text true tail) with (String ":" (String ":" (groups_text true tail))).
  cbn [read_char Ascii.eqb Bool.eqb mbind option_bind].
  pose proof (groups_read tail Ht (8 - (length head + 1)) true "" ltac:(lia) ltac:(by left) eq_refl) as Hr.
  rewrite str_append_nil in Hr. rewrite Hr. by replace (8 - length head - length tail)%nat with n by lia.
Qed.

(** An address that is printed is read back as itself. *)
Lemma parse_show_ip a : is_address a → parse_ip (show_ip a) = Some a.
Proof.
  intros Ha. destruct a as [a|a]; cbn [is_address show_ip] in *; unfold parse_ip.
  { pose proof (ipv4_read a "" Ha I) as H. rewrite str_append_nil in H. by rewrite H. }
  unfold show_ipv6. destruct (to_ipv4_mapped a) as [v4|] eqn:Hm.
  - unfold to_ipv4_mapped in Hm. destruct (Z.eqb_spec (Z.shiftr a 32) 65535) as [E|]; [|done]. injection Hm as <-.
    rewrite Z.shiftr_div_pow2 in E by lia. assert (Z.land a u32_MAX = a mod 2 ^ 32) as -> by (change u32_MAX with (Z.ones 32); apply Z.land_ones; lia).
    assert (0 ≤ a mod 2 ^ 32 < 2 ^ 32) as Hv by (apply Z.mod_pos_bound; lia).
    pose proof (ipv4_read (a mod 2 ^ 32) "" Hv I) as Hr. rewrite str_append_nil in Hr. revert Hr. generalize (show_ipv4 (a mod 2 ^ 32)). intros t Hr.
    change ("::ffff:" +:+ t) with (String ":" (String ":" ("ffff:" +:+ t))).
    assert (read_groups 7 true ("ffff:" +:+ t) = ([65535; (a mod 2 ^ 32) / 65536; (a mod 2 ^ 32) mod 65536], true, "")) as Hg.
    { change ("ffff:" +:+ t) with (hex16 65535 +:+ String ":" t). cbn [read_groups Nat.leb]. unfold read_separated at 1 2.
      change (read_ipv4_addr (hex16 65535 +:+ String ":" t)) with (@None (Z * string)). cbn iota.
      rewrite group_read by done. unfold read_separated. cbn [read_char Ascii.eqb Bool.eqb mbind option_bind]. by rewrite Hr. }
    change (read_ipv4_addr (String ":" (String ":" ("ffff:" +:+ t)))) with (@None (Z * string)). cbn iota.
    unfold read_ipv6_addr. change (read_groups 8 true (String ":" (String ":" ("ffff:" +:+ t)))) with (@nil Z, false, String ":" (String ":" ("ffff:" +:+ t))).
    cbn [length Nat.eqb read_char Ascii.eqb Bool.eqb mbind option_bind Nat.add Nat.sub]. rewrite Hg. cbn [length]. cbn iota. do 2 f_equal.
    unfold of_segments. cbn [length Nat.sub app replicate fold_left]. Z.to_euclidean_division_equations. lia.
  - destruct (segments_ok a) as [Hs Hl]. pose proof (of_segments_segments a Ha) as Ho.
    pose proof (longest_zeros_spec (segments a) (segments a) 0 (0%nat, 0%nat) (0%nat, 0%nat) eq_refl (or_introl eq_refl)) as Hz.
    destruct (longest_zeros (segments a) 0 (0%nat, 0%nat) (0%nat, 0%nat)) as [start n].
    assert (zero_run (segments a) (start, n)) as Hrun. { apply Hz; intros j Hj; cbn in Hj; lia. }
    destruct (Nat.ltb_spec 1 n) as [Hn|Hn].
    + pose proof (zero_run_split _ _ _ Hrun) as Hsplit. rewrite !join_groups.
      assert (start + n ≤ 8)%nat as Hb.
      { rewrite <- Hl. apply Nat.nlt_ge. intros Hlt. pose proof (Hrun (start + n - 1)%nat ltac:(cbn; lia)) as Hj.
        apply lookup_lt_Some in Hj. lia. }
      destruct (read_compressed (take start (segments a)) (drop (start + n) (segments a)) n _ (Forall_take _ _ _ Hs) (Forall_drop _ _ _ Hs)
        ltac:(rewrite length_take, length_drop; lia) Hn eq_refl) as [H4 H6].
      rewrite H4, H6, <- Hsplit, Ho. done.
    + rewrite join_groups. rewrite no_dot_no_ipv4 by by apply groups_text_no_dot. unfold read_ipv6_addr.
      pose proof (groups_read (segments a) Hs 8 true "" ltac:(lia) ltac:(by left) eq_refl) as Hr. rewrite str_append_nil in Hr.
      by rewrite Hr, Hl, Ho.
Qed.
