(* ===== verification/Targets.v ===== *)
(** * Targets: requests and responses of the web core ([libraries/bn_web/src/web.rs])

    The target of a request with its path and query, percent-decoding, headers
    and cookies, and the response a handler builds. *)

From S2P Require Import Prelude Text Scalars Splits Limits Addresses.

#[local] Open Scope string_scope.
#[local] Open Scope Z_scope.

(** ** Percent-decoding *)

(** [hex] *)
Definition hex (c : ascii) : option Z :=
  let b := byte_val c in
  if in_range 48 57 b then Some (b - 48) else if in_range 97 102 b then Some (b - 97 + 10)
  else if in_range 65 70 b then Some (b - 65 + 10) else None.

(** The loop of [decode_component]; an escape needs two bytes after the sign. *)
Fixpoint decode_bytes (s : string) : res string (list ascii) :=
  match s with
  | EmptyString => Ok []
  | String "%" (String a (String b s)) =>
      high ← ok_or "malformed percent escape" (hex a);
      low ← ok_or "malformed percent escape" (hex b);
      rest ← decode_bytes s; Ok (byte_of (Z.lor (Z.shiftl high 4) low) :: rest)
  | String "%" _ => Err "malformed percent escape"
  | String c s => rest ← decode_bytes s; Ok (c :: rest)
  end.
Definition decode_component (input : string) : res string string :=
  bytes ← decode_bytes input; ok_or "invalid UTF-8 in target" (from_utf8 bytes).

(** ** Targets *)

Record Target := mkTarget { path : string; query : string }.

Definition is_control (c : ascii) : bool := (byte_val c <? 32) || (byte_val c =? 127).

(** One segment of the path, decoded. *)
Definition decode_segment (segment : string) : res string string :=
  decoded ← decode_component segment;
  if existsb is_control (str_bytes decoded) || String.eqb decoded "." || String.eqb decoded ".."
     || contains_char "/" decoded || contains_char "\" decoded
  then Err "ambiguous path segment" else Ok decoded.

Definition canonical_target (raw : string) : res string Target :=
  if String.eqb raw "" || (max_target_bytes web_limits <? str_len raw)
     || existsb (fun c => Ascii.eqb c "\" || is_control c) (str_bytes raw)
  then Err "invalid request target"
  else
    let '(raw_path, query) := default (raw, "") (split_once "?" raw) in
    segments ← mapR decode_segment (split "/" raw_path);
    let path := join "/" segments in
    if negb (starts_with "/" path) then Err "request target must be an origin-form path"
    else Ok (mkTarget path query).

(** The loop over the pairs of a query, with the fields counted. *)
Fixpoint query_pairs (name : string) (count : Z) (pairs : list string) : res string (list string) :=
  match pairs with
  | [] => Ok []
  | field :: pairs =>
      if (max_target_bytes web_limits <? str_len field) || (max_header_fields web_limits <? count + 1)
      then Err "query fields exceed bounds"
      else
        let '(key, value) := default (field, "") (split_once "=" field) in
        key ← decode_component key;
        value ← decode_component value;
        if (max_target_bytes web_limits <? str_len key) || (max_target_bytes web_limits <? str_len value)
        then Err "query key or value exceeds bounds"
        else values ← query_pairs name (count + 1) pairs; Ok (if String.eqb key name then value :: values else values)
  end.
Definition query_values (query name : string) : res string (list string) :=
  if max_target_bytes web_limits <? str_len query then Err "query exceeds 8 KiB"
  else query_pairs name 0 (List.filter (fun field => negb (String.eqb field "")) (split "&" query)).

(** ** Headers *)

Abbreviation Headers := (list (string * string)).

Definition header_bytes (headers : Headers) : Z := foldr (fun h n => str_len h.1 + str_len h.2 + n) 0 headers.

(** A byte that a header name may not have. *)
Definition bad_name_byte (c : ascii) : bool := (byte_val c <=? 32) || (byte_val c =? 127) || Ascii.eqb c ":".
Definition bad_header (name value : string) : bool :=
  String.eqb name "" || existsb bad_name_byte (str_bytes name) || existsb is_control (str_bytes value).

Definition header_values (headers : Headers) (name : string) : res string (list string) :=
  if String.eqb name "" || (128 <? str_len name) || existsb bad_name_byte (str_bytes name) then Err "invalid header name"
  else Ok (map snd (List.filter (fun h => eq_ignore_ascii_case h.1 (to_ascii_lowercase name)) headers)).

Definition validate_headers (headers : Headers) : res string unit :=
  if (max_header_fields web_limits <? Z.of_nat (length headers)) || (max_header_bytes web_limits <? header_bytes headers)
  then Err "request headers exceed bounds"
  else if existsb (fun h => bad_header h.1 h.2) headers then Err "invalid request header"
  else Ok tt.

Definition bounded_body (body : string) (maximum : Z) : res string string :=
  if (maximum <? 0) || (max_response_body_bytes web_limits <? maximum) then Err "body limit exceeds 8 MiB"
  else if maximum <? str_len body then Err "request body exceeds declared limit"
  else Ok body.

(** ** Requests *)

Record Request := mkRequest {
  method : string;
  target : Target;
  headers : Headers;
  body : string;
  peer : IpAddr;
  params : list (string * string);
  secure : bool;
}.

Definition bad_method (m : string) : bool :=
  String.eqb m "" || existsb (fun c => negb (in_range 65 90 (byte_val c)) && negb (is_ascii_digit c) && negb (Ascii.eqb c "-")) (str_bytes m).

(** [Request::new] *)
Definition new_request (m raw_target : string) (headers : Headers) (body : string) (peer : IpAddr) : res string Request :=
  if bad_method m then Err "invalid request method"
  else
    target ← canonical_target raw_target;
    _ ← validate_headers headers;
    _ ← bounded_body body (max_body_bytes web_limits);
    Ok (mkRequest m target headers body peer [] false).

Definition request_query (r : Request) (name : string) : res string (list string) := query_values (query (target r)) name.
Definition request_header (r : Request) (name : string) : res string (list string) := header_values (headers r) name.

Definition find_pair (name : string) (l : list (string * string)) : option string :=
  snd <$> List.find (fun p => String.eqb p.1 name) l.
Definition param (r : Request) (name : string) : option string := find_pair name (params r).

(** The pairs of every [Cookie] header. *)
Definition cookie_pairs (headers : Headers) : list (string * string) :=
  omap (fun field => split_once "=" (trim_text field))
    (concat (map (fun h => split ";" h.2) (List.filter (fun h => eq_ignore_ascii_case h.1 "cookie") headers))).
Definition unquoted (value : string) : string :=
  let quote := QUOTE in
  default value (quoted ← strip_prefix quote value; strip_suffix quote quoted).
Definition cookie (r : Request) (name : string) : option string := unquoted <$> find_pair name (cookie_pairs (headers r)).

Definition effective_client_address (peer : IpAddr) (forwarded_for : option string) (trusted_proxy : bool) : IpAddr :=
  if negb trusted_proxy then peer
  else default peer (value ← forwarded_for; first ← head (split "," value); parse_ip (trim_text first)).
Definition request_client_address (r : Request) (trusted_proxy : bool) : IpAddr :=
  effective_client_address (peer r) (snd <$> List.find (fun h => eq_ignore_ascii_case h.1 "x-forwarded-for") (headers r)) trusted_proxy.

(** ** Responses *)

Record Response := mkResponse {
  r_status : Z;
  r_headers : Headers;
  r_body : string;
  committed : bool;
  r_secure : bool;
  r_closed : bool;
}.
Definition new_response : Response := mkResponse 200 [] "" false false false.
(** The response a handler starts from: its callers set [secure] from the request. *)
Definition response_for (secure : bool) : Response := mkResponse 200 [] "" false secure false.

Definition is_open (r : Response) : bool := negb (committed r || r_closed r).

Definition response_header (r : Response) (name : string) : option string :=
  snd <$> List.find (fun h => eq_ignore_ascii_case h.1 name) (rev (r_headers r)).

(** The answer of an operation, and the response it leaves. *)
Abbreviation Told := (res string unit * Response)%type.

Definition set_status (status : Z) (r : Response) : Told :=
  if negb (is_open r) then (Err "response is already committed or closed", r)
  else if negb (in_range 100 599 status) then (Err "invalid response status", r)
  else (Ok tt, mkResponse status (r_headers r) (r_body r) (committed r) (r_secure r) (r_closed r)).

Definition set_header (name value : string) (r : Response) : Told :=
  if negb (is_open r) then (Err "response is already committed or closed", r)
  else if bad_header name value then (Err "invalid response header", r)
  else if max_header_bytes web_limits <? header_bytes (r_headers r) + str_len name + str_len value
  then (Err "response headers exceed 64 KiB", r)
  else (Ok tt, mkResponse (r_status r) (r_headers r ++ [(to_ascii_lowercase name, value)])%list (r_body r) (committed r) (r_secure r) (r_closed r)).

Definition write (body : string) (r : Response) : Told :=
  if negb (is_open r) then (Err "response is already committed or closed", r)
  else if max_response_body_bytes web_limits <? str_len (r_body r) + str_len body then (Err "response body exceeds 8 MiB", r)
  else (Ok tt, mkResponse (r_status r) (r_headers r) (r_body r +:+ body) (committed r) (r_secure r) (r_closed r)).

Definition commit (r : Response) : Told :=
  if r_closed r then (Err "response is closed", r)
  else (Ok tt, mkResponse (r_status r) (r_headers r) (r_body r) true (r_secure r) (r_closed r)).
Definition close (r : Response) : Response := mkResponse (r_status r) (r_headers r) (r_body r) (committed r) (r_secure r) true.
Definition finish_for_method (m : string) (r : Response) : Told :=
  commit (if String.eqb m "HEAD" then mkResponse (r_status r) (r_headers r) "" (committed r) (r_secure r) (r_closed r) else r).

Example targets :
  canonical_target "/a/%62%2e?x=%2F" = Ok (mkTarget "/a/b." "x=%2F") ∧ canonical_target "/a/%2e%2e/b" = Err "ambiguous path segment" ∧
  canonical_target "/a%2fb" = Err "ambiguous path segment" ∧ canonical_target "/%c3" = Err "invalid UTF-8 in target" ∧
  canonical_target "/%4" = Err "malformed percent escape".
Proof. vm_compute. repeat split. Qed.
Example queries : query_values "a=1&&b=%20&a=2+3&c" "a" = Ok ["1"; "2+3"].
Proof. vm_compute. reflexivity. Qed.

(** ** What a target means *)

Definition safe_segment (s : string) : Prop :=
  s ≠ "." ∧ s ≠ ".." ∧ contains_char "/" s = false ∧ contains_char "\" s = false ∧ existsb is_control (str_bytes s) = false.

Lemma decode_segment_Ok raw s : decode_segment raw = Ok s ↔ decode_component raw = Ok s ∧ safe_segment s.
Proof.
  unfold decode_segment. destruct (decode_component raw) as [d|e|p|]; cbn [mbind res_bind]; [|by split; [|intros []]..].
  assert (existsb is_control (str_bytes d) || String.eqb d "." || String.eqb d ".." || contains_char "/" d || contains_char "\" d = false
    ↔ safe_segment d) as Hs.
  { rewrite !orb_false_iff, !String.eqb_neq. unfold safe_segment. tauto. }
  destruct (_ || contains_char "\" d).
  - split; [done|]. intros [[= ->] H]. by apply Hs in H.
  - split; [intros [= <-]; split; [done|by apply Hs]|]. by intros [[= ->] _].
Qed.

(** C32: A request target is accepted exactly when its text is not empty, within
    the limit and without control bytes and backslashes, every segment of its
    path decodes to a text that is no dot segment and has no separator and no
    control byte, and the path begins with a slash.  The path is then these
    decoded segments, each of them decoded once and none merged or split; the
    query is what follows the first question mark, as it is. *)
Theorem canonical_target_exact raw t :
  canonical_target raw = Ok t ↔
  raw ≠ "" ∧ str_len raw ≤ max_target_bytes web_limits ∧
  existsb (fun c => Ascii.eqb c "\" || is_control c) (str_bytes raw) = false ∧
  (∃ raw_path, (raw = raw_path ∧ contains_char "?" raw = false ∧ query t = "" ∨
                raw = raw_path +:+ "?" +:+ query t ∧ contains_char "?" raw_path = false) ∧
     Forall2 (fun r s => decode_component r = Ok s ∧ safe_segment s) (split "/" raw_path) (split "/" (path t))) ∧
  starts_with "/" (path t) = true.
Proof.
  unfold canonical_target. destruct (String.eqb_spec raw "") as [->|Hne]; cbn [orb]; [naive_solver|].
  destruct (Z.ltb_spec (max_target_bytes web_limits) (str_len raw)); cbn [orb].
  { split; [done|]. intros (_ & Hle & _). lia. }
  destruct (existsb (λ c, Ascii.eqb c "\" || is_control c) (str_bytes raw)) eqn:Hraw; cbn [orb]; [naive_solver|].
  destruct (default (raw, "") (split_once "?" raw)) as [raw_path q] eqn:Hsplit.
  assert ((raw = raw_path ∧ contains_char "?" raw = false ∧ q = "" ∨ raw = raw_path +:+ "?" +:+ q ∧ contains_char "?" raw_path = false)) as Hq.
  { destruct (split_once "?" raw) as [[l r]|] eqn:Ho; cbn in Hsplit; injection Hsplit as <- <-.
    - right. by apply split_once_free in Ho.
    - left. by apply split_once_none in Ho. }
  assert (∀ p', (raw = p' ∧ contains_char "?" raw = false ∧ query t = "" ∨ raw = p' +:+ "?" +:+ query t ∧ contains_char "?" p' = false) →
    p' = raw_path ∧ query t = q) as Huniq.
  { intros p' Hp'. destruct Hp' as [(<- & Hn & E)|(E & Hn)].
    - apply split_once_none in Hn as Hn'. rewrite Hn' in Hsplit. cbn in Hsplit. injection Hsplit as <- <-. done.
    - assert (split_once "?" raw = Some (p', query t)) as Ho by by apply split_once_free.
      rewrite Ho in Hsplit. cbn in Hsplit. by injection Hsplit as <- <-. }
  assert (∀ segments, Forall2 (λ r s, decode_component r = Ok s ∧ safe_segment s) (split "/" raw_path) segments →
    split "/" (join "/" segments) = segments) as Hjoin.
  { intros segments Hf. apply split_join; [intros ->; inversion Hf as [E|]; by apply (split_not_nil "/" raw_path)|].
    clear - Hf. induction Hf as [|r s l l' [_ Hs] _ IH]; constructor; [apply Hs|done]. }
  split.
  - intros H0. destruct (mapR decode_segment (split "/" raw_path)) as [segments|e|p|] eqn:Hm; try done. cbn [mbind res_bind] in H0.
    destruct (starts_with "/" (join "/" segments)) eqn:Hst; [|done]. injection H0 as <-. cbn [path query].
    assert (Forall2 (λ r s, decode_component r = Ok s ∧ safe_segment s) (split "/" raw_path) segments) as Hf.
    { apply mapR_Forall2 in Hm. eapply list.Forall2_impl; [exact Hm|]. intros r s Hrs. by apply decode_segment_Ok. }
    split; [done|]. split; [lia|]. split; [done|]. split; [|done]. exists raw_path. split; [done|]. by rewrite Hjoin.
  - intros (_ & _ & _ & (p' & Hp' & Hf) & Hst). destruct (Huniq p' Hp') as [-> Hqt].
    assert (mapR decode_segment (split "/" raw_path) = Ok (split "/" (path t))) as Hm.
    { apply mapR_Forall2. eapply list.Forall2_impl; [exact Hf|]. intros r s Hrs. by apply decode_segment_Ok. }
    rewrite Hm. cbn [mbind res_bind]. rewrite join_split. rewrite Hst. cbn [negb]. destruct t as [p q']. cbn in *. by subst.
Qed.
