(* ===== verification/WebCookies.v ===== *)
(** * WebCookies: cookies of responses and clients ([web_state.rs], [web.rs])

    The text of a [Set-Cookie] header, the responses that carry it, and the
    cookie jar of a client. *)

From S2P Require Import Prelude Text Scalars Splits Limits Addresses Targets.

#[local] Open Scope string_scope.
#[local] Open Scope Z_scope.

(** ** Cookie options *)

Inductive SameSite := Strict | Lax | NoneSite.
#[export] Instance SameSite_eq_dec : EqDecision SameSite.
Proof. solve_decision. Defined.
Record CookieOptions := mkCookieOptions { c_secure : bool; http_only : bool; same_site : SameSite }.
Definition default_cookie : CookieOptions := mkCookieOptions true true Lax.

Definition from_policy (secure http_only : bool) (same_site : string) : res string CookieOptions :=
  site ← (if String.eqb same_site "Strict" then Ok Strict else if String.eqb same_site "Lax" then Ok Lax
          else if String.eqb same_site "None" then Ok NoneSite else Err "invalid SameSite policy");
  if bool_decide (site = NoneSite) && negb secure then Err "SameSite=None requires Secure"
  else Ok (mkCookieOptions secure http_only site).

Definition bad_cookie_name_byte (c : ascii) : bool := (byte_val c <=? 32) || (127 <=? byte_val c) || Ascii.eqb c "=" || Ascii.eqb c ";".
Definition bad_cookie_byte (c : ascii) : bool := ((byte_val c <? 32) && negb (byte_val c =? 9)) || (byte_val c =? 127) || Ascii.eqb c ";".
Definition has (p : ascii → bool) (s : string) : bool := existsb p (str_bytes s).

(** [cookie_max_age]: milliseconds as a [Duration] in nanoseconds *)
Definition cookie_max_age (milliseconds : Z) : res string Z :=
  if in_range 0 u64_MAX milliseconds then Ok (milliseconds * 1000000) else Err "negative cookie age".

Definition format_set_cookie (o : CookieOptions) (name value : string) (domain : option string) (path : string) (max_age : option Z) : res string string :=
  if String.eqb name "" || (128 <? str_len name) || has bad_cookie_name_byte name then Err "invalid cookie name"
  else if (4096 <? str_len value) || has bad_cookie_byte value then Err "invalid cookie value"
  else if String.eqb path "" || has bad_cookie_byte path then Err "invalid cookie path"
  else
    let out := name +:+ "=" +:+ value +:+ "; Path=" +:+ path in
    out ← match domain with
          | Some domain => if String.eqb domain "" || has bad_cookie_byte domain then Err "invalid cookie domain"
                           else Ok (out +:+ "; Domain=" +:+ domain)
          | None => Ok out
          end;
    let out := match max_age with Some age => out +:+ "; Max-Age=" +:+ dec_of_Z (age / 1000000000) | None => out end in
    let out := if c_secure o then out +:+ "; Secure" else out in
    let out := if http_only o then out +:+ "; HttpOnly" else out in
    Ok (out +:+ match same_site o with Strict => "; SameSite=Strict" | Lax => "; SameSite=Lax" | NoneSite => "; SameSite=None" end).

Definition set_cookie (name value : string) (domain : option string) (path : string) (max_age : option Z) (o : CookieOptions) (r : Response) : Told :=
  if c_secure o && negb (r_secure r) then (Err "Secure cookies cannot be sent over cleartext HTTP", r)
  else match format_set_cookie o name value domain path max_age with
       | Ok text => set_header "set-cookie" text r
       | Err e => (Err e, r)
       | Panic p => (Panic p, r)
       | Fuel => (Fuel, r)
       end.
Definition clear_cookie (name : string) (domain : option string) (path : string) (r : Response) : Told :=
  set_cookie name "" domain path (Some 0) (mkCookieOptions (r_secure r) (http_only default_cookie) (same_site default_cookie)) r.

Example set_cookie_text :
  format_set_cookie (mkCookieOptions true true Lax) "session" "abc123" (Some "example.test") "/" (Some (3600 * 1000000000))
  = Ok "session=abc123; Path=/; Domain=example.test; Max-Age=3600; Secure; HttpOnly; SameSite=Lax".
Proof. vm_compute. reflexivity. Qed.

(** ** What a handler does with a response *)

Inductive ResponseOp :=
| SetStatus (status : Z)
| SetHeader (name value : string)
| SetCookie (name value : string) (domain : option string) (path : string) (max_age : option Z) (o : CookieOptions)
| ClearCookie (name : string) (domain : option string) (path : string)
| Write (body : string)
| Commit
| Close
| FinishFor (m : string).

Definition run_response (op : ResponseOp) (r : Response) : Response :=
  match op with
  | SetStatus status => (set_status status r).2
  | SetHeader name value => (set_header name value r).2
  | SetCookie name value domain path max_age o => (set_cookie name value domain path max_age o r).2
  | ClearCookie name domain path => (clear_cookie name domain path r).2
  | Write body => (write body r).2
  | Commit => (commit r).2
  | Close => close r
  | FinishFor m => (finish_for_method m r).2
  end.
Definition run_responses (ops : list ResponseOp) (r : Response) : Response := fold_left (fun r op => run_response op r) ops r.

(** What can go over the wire. *)
Record response_ok (r : Response) : Prop := {
  ok_status : 100 ≤ r_status r ≤ 599;
  ok_clean : Forall (fun h => bad_header h.1 h.2 = false ∧ to_ascii_lowercase h.1 = h.1) (r_headers r);
  ok_header_bytes : header_bytes (r_headers r) ≤ max_header_bytes web_limits;
  ok_body : str_len (r_body r) ≤ max_response_body_bytes web_limits;
}.

Lemma ascii_lower_lower c : ascii_lower (ascii_lower c) = ascii_lower c.
Proof. by destruct c as [[] [] [] [] [] [] [] []]. Qed.
Lemma lower_lower s : to_ascii_lowercase (to_ascii_lowercase s) = to_ascii_lowercase s.
Proof. induction s as [|c s IH]; [done|]. cbn [to_ascii_lowercase]. by rewrite ascii_lower_lower, IH. Qed.
Lemma bad_name_lower c : bad_name_byte (ascii_lower c) = bad_name_byte c.
Proof. by destruct c as [[] [] [] [] [] [] [] []]. Qed.
Lemma bad_header_lower name value : bad_header (to_ascii_lowercase name) value = bad_header name value.
Proof.
  unfold bad_header. f_equal. f_equal; [by destruct name|]. induction name as [|c name IH]; [done|].
  cbn [to_ascii_lowercase str_bytes existsb]. by rewrite bad_name_lower, IH.
Qed.
Lemma lower_length s : str_len (to_ascii_lowercase s) = str_len s.
Proof. unfold str_len. f_equal. induction s as [|c s IH]; [done|]. cbn. by rewrite IH. Qed.

Lemma header_bytes_app a b : header_bytes (a ++ b)%list = header_bytes a + header_bytes b.
Proof. unfold header_bytes. induction a as [|h a IH]; cbn [foldr app]; [done|]. lia. Qed.

Lemma set_header_ok name value r : response_ok r → response_ok (set_header name value r).2.
Proof.
  intros H. unfold set_header. destruct (is_open r); [|done]. destruct (bad_header name value) eqn:Hb; [done|].
  destruct (Z.ltb_spec (max_header_bytes web_limits) (header_bytes (r_headers r) + str_len name + str_len value)); [done|].
  destruct H. constructor; cbn [negb snd r_status r_headers r_body]; try done.
  - apply Forall_app. split; [done|]. constructor; [|constructor]. cbn [fst snd]. by rewrite bad_header_lower, lower_lower.
  - rewrite header_bytes_app. unfold header_bytes at 2. cbn [foldr fst snd]. rewrite lower_length. lia.
Qed.

Lemma set_cookie_cases n v d p a o r : (set_cookie n v d p a o r).2 = r ∨ ∃ text, (set_cookie n v d p a o r) = set_header "set-cookie" text r.
Proof. unfold set_cookie. destruct (_ && _); [by left|]. destruct (format_set_cookie _ _ _ _ _ _); eauto. Qed.
Lemma set_cookie_ok n v d p a o r : response_ok r → response_ok (set_cookie n v d p a o r).2.
Proof. intros H. destruct (set_cookie_cases n v d p a o r) as [->|[t ->]]; [done|by apply set_header_ok]. Qed.

Lemma write_ok body r : response_ok r → response_ok (write body r).2.
Proof.
  intros H. unfold write. destruct (is_open r); [|done].
  destruct (Z.ltb_spec (max_response_body_bytes web_limits) (str_len (r_body r) + str_len body)); [done|].
  destruct H. constructor; cbn [negb snd r_status r_headers r_body]; try done. unfold str_len in *. rewrite str_length_append. lia.
Qed.

Lemma run_response_ok op r : response_ok r → response_ok (run_response op r).
Proof.
  intros H. destruct op; cbn [run_response].
  - unfold set_status, in_range. destruct (is_open r); [|done]. destruct (Z.leb_spec 100 status), (Z.leb_spec status 599); try done.
    destruct H. by constructor.
  - by apply set_header_ok.
  - by apply set_cookie_ok.
  - by apply set_cookie_ok.
  - by apply write_ok.
  - unfold commit. destruct (r_closed r); [done|]. destruct H. by constructor.
  - destruct H. by constructor.
  - unfold finish_for_method, commit. destruct (String.eqb m "HEAD"); cbn [r_closed]; destruct (r_closed r); destruct H; by constructor.
Qed.

(** A committed response is no longer changed, but for its end. *)
Lemma committed_kept op r : committed r = true →
  committed (run_response op r) = true ∧ r_status (run_response op r) = r_status r ∧ r_headers (run_response op r) = r_headers r ∧
  (r_body (run_response op r) = r_body r ∨ op = FinishFor "HEAD" ∧ r_body (run_response op r) = "").
Proof.
  intros Hc. assert (is_open r = false) as Ho by (unfold is_open; by rewrite Hc).
  assert (∀ n v, set_header n v r = (Err "response is already committed or closed", r)) as Hs.
  { intros n v. unfold set_header. by rewrite Ho. }
  assert (∀ n v d p a o, (set_cookie n v d p a o r).2 = r) as Hk.
  { intros n v d p a o. destruct (set_cookie_cases n v d p a o r) as [->|[t ->]]; [done|by rewrite Hs]. }
  destruct op; cbn [run_response].
  - unfold set_status. rewrite Ho. by auto.
  - rewrite Hs. by auto.
  - rewrite Hk. by auto.
  - unfold clear_cookie. rewrite Hk. by auto.
  - unfold write. rewrite Ho. by auto.
  - unfold commit. destruct (r_closed r); by auto.
  - by auto.
  - unfold finish_for_method, commit. destruct (String.eqb_spec m "HEAD") as [->|]; cbn [r_closed]; destruct (r_closed r); cbn; by auto 10.
Qed.

(** C34: Whatever a handler does with its response, over TLS or not: its status is
    a status, every header has a lower-case name and no byte that could end its line or
    begin another header, headers and body are within their limits; and once
    it is committed, whatever comes later, the status and the headers are
    those that were committed, and so is the body, unless a HEAD ends it and
    it is empty. *)
Theorem responses_stay_clean secure before after :
  let r := run_responses before (response_for secure) in
  response_ok r ∧
  (committed r = true →
   let r' := run_responses after r in
   committed r' = true ∧ r_status r' = r_status r ∧ r_headers r' = r_headers r ∧
   (r_body r' = r_body r ∨ FinishFor "HEAD" ∈ after ∧ r_body r' = "")).
Proof.
  cbv zeta. split.
  - assert (response_ok (response_for secure)) as Hn by (constructor; cbn; (lia || constructor || done)).
    revert Hn. generalize (response_for secure). induction before as [|op before IH]; intros r Hr; [done|]. by apply IH, run_response_ok.
  - generalize (run_responses before (response_for secure)). induction after as [|op after IH]; intros r Hc; [by auto|].
    destruct (committed_kept op r Hc) as (H1 & H2 & H3 & H4). destruct (IH (run_response op r) H1) as (H5 & H6 & H7 & H8).
    cbn [run_responses fold_left]. unfold run_responses in *. split; [done|]. split; [congruence|]. split; [congruence|].
    destruct H8 as [->|[Hin ->]]; [|right; split; [by right|done]]. destruct H4 as [->|[-> ->]]; [by left|right; split; [by left|done]].
Qed.

(** ** The cookie jar of a client *)

Abbreviation CookieKey := (string * string * string)%type.
Record CookieEntry := mkCookieEntry { e_value : string; e_expiry : option Z; e_options : CookieOptions }.
Abbreviation CookieJar := (gmap CookieKey CookieEntry).

Definition jar_key (name domain path : string) : CookieKey := (name, to_ascii_lowercase domain, path).

Definition set_with_options (name value domain path : string) (max_age now : Z) (o : CookieOptions) (jar : CookieJar) : res string unit * CookieJar :=
  if String.eqb name "" || (128 <? str_len name) || (4096 <? str_len value) || String.eqb domain "" || String.eqb path ""
  then (Err "invalid cookie bounds", jar)
  else if max_age =? 0 then (Ok tt, delete (jar_key name domain path) jar)
  else (Ok tt, <[jar_key name domain path := mkCookieEntry value (Some (now + max_age)) o]> jar).
Definition jar_delete (name domain path : string) (jar : CookieJar) : CookieJar := delete (jar_key name domain path) jar.

(** The cookie goes with a request to this domain (in lower case) and path. *)
Definition domain_fits (cookie_domain domain : string) : bool :=
  String.eqb cookie_domain domain || ends_with ("." +:+ cookie_domain) domain.
Definition path_fits (cookie_path path : string) : bool :=
  String.eqb cookie_path "/" || String.eqb path cookie_path || starts_with (cookie_path +:+ "/") path.
Definition key_fits (name domain path : string) (k : CookieKey) : bool :=
  let '(n, d, p) := k in String.eqb n name && domain_fits d domain && path_fits p path.

(** [max_by_key]: the last with a longest path. *)
Fixpoint longest_path (best : option CookieKey) (l : list CookieKey) : option CookieKey :=
  match l with
  | [] => best
  | k :: l =>
      longest_path (match best with
                    | Some b => if str_len b.2 <=? str_len k.2 then Some k else Some b
                    | None => Some k
                    end) l
  end.

Definition expired (now : Z) (e : CookieEntry) : bool := match e_expiry e with Some t => t <=? now | None => false end.

Section Jar.
(** The order in which the map gives its keys. *)
Variable iterate : CookieJar → list CookieKey.

(** [get]; an expired cookie it finds is forgotten. *)
Definition jar_get (name domain path : string) (now : Z) (jar : CookieJar) : option string * CookieJar :=
  match longest_path None (List.filter (key_fits name (to_ascii_lowercase domain) path) (iterate jar)) with
  | None => (None, jar)
  | Some key =>
      match jar !! key with
      | Some e => if expired now e then (None, delete key jar) else (Some (e_value e), jar)
      | None => (None, jar)
      end
  end.

Hypothesis iterates : ∀ jar k, k ∈ iterate jar ↔ is_Some (jar !! k).

Lemma longest_path_spec l : ∀ best,
  match longest_path best l with
  | Some k => (best = Some k ∨ k ∈ l) ∧ (∀ b, best = Some b → str_len b.2 ≤ str_len k.2) ∧ ∀ k', k' ∈ l → str_len k'.2 ≤ str_len k.2
  | None => best = None ∧ l = []
  end.
Proof.
  induction l as [|k l IH]; intros best; cbn [longest_path].
  { destruct best as [b|]; [|done]. split; [by left|]. split; [by intros b' [= <-]|]. by intros k' ?%not_elem_of_nil. }
  set (best' := match best with Some b => _ | None => _ end).
  assert (∃ b', best' = Some b' ∧ (best = Some b' ∨ b' = k) ∧ (∀ b, best = Some b → str_len b.2 ≤ str_len b'.2) ∧ str_len k.2 ≤ str_len b'.2) as (b' & Hb' & Hor & Hle & Hk).
  { unfold best'. destruct best as [b|]; [|exists k; split; [done|]; split; [by right|]; split; [done|lia]]. destruct (Z.leb_spec (str_len b.2) (str_len k.2)).
    - exists k. split; [done|]. split; [by right|]. split; [by intros b0 [= <-]|lia].
    - exists b. split; [done|]. split; [by left|]. split; [by intros b0 [= <-]|lia]. }
  specialize (IH best'). rewrite Hb' in *. destruct (longest_path (Some b') l) as [r|]; [|by destruct IH].
  destruct IH as (H1 & H2 & H3). specialize (H2 b' eq_refl). split; [|split].
  - destruct H1 as [[= <-]|H1]; [|right; by right]. destruct Hor as [->| ->]; [by left|right; by left].
  - intros b Hb. specialize (Hle b Hb). lia.
  - intros k' [->|Hk']%elem_of_cons; [lia|auto].
Qed.

(** What a jar gives for a request.  A value it gives was kept under the name
    for the domain or one above it and for a path above, is not expired, and
    no cookie that goes with the request has a longer path; when it gives
    none, no cookie goes with the request, or one with a longest path has
    expired and is forgotten.  No other cookie is touched. *)
Theorem jar_get_exact name domain path now jar :
  let '(answer, jar') := jar_get name domain path now jar in
  let fits k := key_fits name (to_ascii_lowercase domain) path k = true ∧ is_Some (jar !! k) in
  match answer with
  | Some v => jar' = jar ∧ ∃ k e, fits k ∧ jar !! k = Some e ∧ e_value e = v ∧ expired now e = false ∧
                ∀ k', fits k' → str_len k'.2 ≤ str_len k.2
  | None => jar' = jar ∧ (∀ k, ¬ fits k) ∨
            ∃ k e, fits k ∧ jar !! k = Some e ∧ expired now e = true ∧ jar' = delete k jar ∧ ∀ k', fits k' → str_len k'.2 ≤ str_len k.2
  end.
Proof.
  unfold jar_get. set (l := List.filter _ (iterate jar)).
  assert (∀ k, k ∈ l ↔ key_fits name (to_ascii_lowercase domain) path k = true ∧ is_Some (jar !! k)) as Hl.
  { intros k. unfold l. rewrite list_elem_of_In, filter_In, <- list_elem_of_In, iterates. tauto. }
  pose proof (longest_path_spec l None) as H. destruct (longest_path None l) as [k|].
  - destruct H as ([H|Hk] & _ & Hmax); [done|]. apply Hl in Hk as [Hf [e He]]. rewrite He.
    destruct (expired now e) eqn:Hx.
    + right. exists k, e. split; [by split|]. repeat (split; [done|]). intros k' Hk'. by apply Hmax, Hl.
    + split; [done|]. exists k, e. split; [by split|]. repeat (split; [done|]). intros k' Hk'. by apply Hmax, Hl.
  - destruct H as [_ H]. left. split; [done|]. intros k Hk. apply Hl in Hk. rewrite H in Hk. by apply not_elem_of_nil in Hk.
Qed.
End Jar.

Definition stored (cookies : list (string * string * string * string * Z)) : CookieJar :=
  foldl (fun jar '(n, v, d, p, age) => (set_with_options n v d p age 0 default_cookie jar).2) ∅ cookies.
Definition keys_of (jar : CookieJar) : list CookieKey := map fst (map_to_list jar).

Lemma jar_get_exact_witness :
  let jar := stored [("sid", "root", "example.test", "/", 100); ("sid", "api", "api.example.test", "/v1", 100)] in
  (jar_get keys_of "sid" "API.example.test" "/v1/users" 5 jar).1 = Some "api" ∧ (jar_get keys_of "sid" "evil-example.test" "/" 5 jar).1 = None ∧
  let '(answer, jar') := jar_get keys_of "sid" "www.example.test" "/api" 5 jar in
  let fits k := key_fits "sid" (to_ascii_lowercase "www.example.test") "/api" k = true ∧ is_Some (jar !! k) in
  match answer with
  | Some v => jar' = jar ∧ ∃ k e, fits k ∧ jar !! k = Some e ∧ e_value e = v ∧ expired 5 e = false ∧
                ∀ k', fits k' → str_len k'.2 ≤ str_len k.2
  | None => jar' = jar ∧ (∀ k, ¬ fits k) ∨
            ∃ k e, fits k ∧ jar !! k = Some e ∧ expired 5 e = true ∧ jar' = delete k jar ∧ ∀ k', fits k' → str_len k'.2 ≤ str_len k.2
  end.
Proof.
  cbv zeta. split; [vm_compute; reflexivity|]. split; [vm_compute; reflexivity|]. apply (jar_get_exact keys_of).
  intros jar k. unfold keys_of. split.
  - intros ([k' v] & -> & H)%list_elem_of_fmap. apply elem_of_map_to_list in H. by exists v.
  - intros [v H]. apply list_elem_of_fmap. exists (k, v). split; [done|by apply elem_of_map_to_list].
Defined.

(** An expired cookie with a longer path hides one that is still good. *)
Example expired_hides :
  let jar := stored [("sid", "good", "example.test", "/", 100); ("sid", "old", "example.test", "/v1", 3)] in
  (jar_get keys_of "sid" "example.test" "/v1/users" 5 jar).1 = None ∧
  (jar_get keys_of "sid" "example.test" "/v1/users" 5 (jar_get keys_of "sid" "example.test" "/v1/users" 5 jar).2).1 = Some "good".
Proof. split; vm_compute; reflexivity. Qed.
(** A cookie for the path [/v1/] does not go with what lies below it. *)
Example slash_path_lost :
  (jar_get keys_of "sid" "example.test" "/v1/users" 5 (stored [("sid", "api", "example.test", "/v1/", 100)])).1 = None.
Proof. vm_compute. reflexivity. Qed.
