(* ===== verification/Egress.v ===== *)
(** * Egress: the requests of the web client ([libraries/bn_web/src/web.rs], [http.rs])

    The egress policy of a program, the destinations that are never reached,
    URLs and redirects, and the client that connects only where the policy
    lets it. *)

From S2P Require Import Prelude Text Scalars Limits Addresses Targets.

#[local] Open Scope string_scope.
#[local] Open Scope Z_scope.

(** ** Destinations *)

Definition is_sensitive_ipv4 (a : Z) : bool :=
  let first := octet 0 a in
  let second := octet 1 a in
  v4_is_private a || v4_is_loopback a || v4_is_link_local a || v4_is_multicast a || v4_is_unspecified a
  || ((first =? 100) && in_range 64 127 second)
  || ((first =? 192) && (second =? 0) && (octet 2 a =? 2))
  || ((first =? 198) && (second =? 51) && (octet 2 a =? 100))
  || ((first =? 203) && (second =? 0) && (octet 2 a =? 113))
  || ((first =? 198) && in_range 18 19 second).

Definition is_sensitive (a : IpAddr) : bool :=
  match a with
  | V4 a => is_sensitive_ipv4 a
  | V6 a =>
      match to_ipv4 a with Some v4 => is_sensitive_ipv4 v4 | None => false end
      || v6_is_loopback a || v6_is_unicast_link_local a || v6_is_multicast a || v6_is_unspecified a
      || (Z.land (segment 0 a) 65024 =? 64512)
  end.

Definition validate_ssrf_destinations (addresses : list IpAddr) (allow_private : bool) : res string unit :=
  if allow_private then Ok tt
  else match addresses with
       | [] => Err "URL resolved to no addresses"
       | _ => if existsb is_sensitive addresses then Err "private or local destination requires explicit opt-in" else Ok tt
       end.

(** ** The policy *)

Record EgressPolicy := mkPolicy {
  schemes : option (list string);
  cidrs : option (list Cidr);
  ports : option (list Z);
  max_redirects : Z;
  total_deadline_ms : Z;
}.

Definition default_policy : EgressPolicy :=
  mkPolicy None None None (redirects web_limits) (Limits.connection_total_ms web_limits).

Definition known_scheme (s : string) : bool := String.eqb s "http" || String.eqb s "https".

Definition parse_csv {A} (parse : string → res string A) (input : string) : res string (list A) :=
  if String.eqb (trim_text input) "" then Ok [] else mapR parse (map trim_text (split "," input)).

(** [EgressPolicy::new] *)
Definition new_policy (schemes : option (list string)) (cidrs : option (list Cidr)) (ports : option (list Z)) (max_redirects total_deadline_ms : Z) :
  res string EgressPolicy :=
  if negb (in_range 1 (redirects_max web_limits) max_redirects) || negb (in_range 1 (connection_total_max_ms web_limits) total_deadline_ms)
  then Err "egress policy value is outside the configured bounds"
  else if match schemes with Some [] => true | Some l => negb (forallb known_scheme l) | None => false end
  then Err "egress policy contains an unsupported scheme"
  else if match ports with Some l => existsb (Z.eqb 0) l | None => false end then Err "egress policy contains an invalid port"
  else Ok (mkPolicy schemes cidrs ports max_redirects total_deadline_ms).

Definition parse_port (s : string) : option Z := from_str_radix 0 65535 10 s.

(** [EgressPolicy::from_csv] *)
Definition from_csv (schemes cidrs ports : string) (max_redirects total_deadline_ms : Z) : res string EgressPolicy :=
  schemes ← parse_csv (fun s => if known_scheme s then Ok s else Err "egress policy contains an unsupported scheme") schemes;
  cidrs ← parse_csv cidr_parse cidrs;
  ports ← parse_csv (fun s => ok_or "egress policy contains an invalid port" (parse_port s)) ports;
  let long {A} (l : list A) := egress_list_max web_limits <? Z.of_nat (length l) in
  if long schemes || long cidrs || long ports then Err "egress policy list exceeds configured capacity"
  else new_policy (Some schemes) (Some cidrs) (Some ports) max_redirects total_deadline_ms.

Definition allows_candidate (p : EgressPolicy) (a : IpAddr) : bool :=
  match validate_ssrf_destinations [a] false with
  | Ok _ =>
      match cidrs p with
      | None => true
      | Some [] => false
      | Some l =>
          let normalized := match a with V4 a => V4 a | V6 a => match to_ipv4 a with Some v4 => V4 v4 | None => V6 a end end in
          match parse_ip (show_ip normalized) with
          | Some address => existsb (fun c => cidr_contains c address) l
          | None => false
          end
      end
  | _ => false
  end.

Definition filter_allowed_addresses (p : EgressPolicy) (scheme : string) (port : Z) (addresses : list IpAddr) : res string (list IpAddr) :=
  if match schemes p with Some l => negb (existsb (fun s => String.eqb s scheme) l) | None => false end
     || match ports p with Some l => negb (existsb (Z.eqb port) l) | None => false end
  then Err "destination is outside the egress policy"
  else match addresses with
       | [] => Err "URL resolved to no addresses"
       | _ => match List.filter (allows_candidate p) addresses with
              | [] => Err "destination is outside the egress policy"
              | allowed => Ok allowed
              end
       end.

(** ** URLs *)

(** [s.split_once("://")] *)
Fixpoint split_scheme (s : string) : option (string * string) :=
  match strip_prefix "://" s with
  | Some rest => Some ("", rest)
  | None => match s with
            | EmptyString => None
            | String c s => match split_scheme s with Some (l, r) => Some (String c l, r) | None => None end
            end
  end.

(** The text before the first slash or question mark, and what begins there. *)
Fixpoint split_authority (rest : string) : string * string :=
  match rest with
  | EmptyString => ("", "")
  | String c s => if Ascii.eqb c "/" || Ascii.eqb c "?" then ("", rest) else let '(a, r) := split_authority s in (String c a, r)
  end.

Definition validate_client_url (url : string) : res string unit :=
  '(scheme, rest) ← ok_or "URL requires an authority" (split_scheme url);
  if negb (known_scheme scheme) || String.eqb rest "" || contains_char "#" rest then Err "unsupported or ambiguous URL"
  else
    let authority := (split_authority rest).1 in
    if String.eqb authority "" || contains_char "@" authority
       || existsb (fun c => (byte_val c <? 33) || (byte_val c =? 127)) (str_bytes authority)
    then Err "invalid URL authority" else Ok tt.

Definition parse_authority_with_default (authority : string) (default_port : Z) : res string (string * Z) :=
  if String.eqb authority "" || contains_char "@" authority then Err "invalid URL authority"
  else match strip_prefix "[" authority with
       | Some host =>
           '(address, suffix) ← ok_or "invalid IPv6 authority" (split_once "]" host);
           port ← (if String.eqb suffix "" then Ok default_port
                   else port ← ok_or "invalid IPv6 authority" (strip_prefix ":" suffix); ok_or "invalid port" (parse_port port));
           Ok (address, port)
       | None =>
           let '(host, port) := default (authority, dec_of_Z default_port) (rsplit_once ":" authority) in
           if String.eqb host "" then Err "invalid URL authority"
           else port ← ok_or "invalid port" (parse_port port); Ok (host, port)
       end.

(** [resolve_redirect] *)
Definition resolve_redirect (base location : string) : res string string :=
  if contains_char "#" location || contains_char "010" location || contains_char "013" location then Err "invalid redirect Location"
  else if starts_with "http://" location || starts_with "https://" location then _ ← validate_client_url location; Ok location
  else
    '(scheme, rest) ← ok_or "invalid redirect base" (split_scheme base);
    let '(authority, after) := split_authority rest in
    let base_path := default "/" (head (split "?" after)) in
    let path := if starts_with "/" location then location
                else if starts_with "?" location then base_path +:+ location
                else let directory := match rsplit_once "/" base_path with Some (directory, _) => directory | None => "/" end in
                     directory +:+ "/" +:+ location in
    let resolved := scheme +:+ "://" +:+ authority +:+ path in
    _ ← validate_client_url resolved; Ok resolved.

(** ** The client *)

(** A connection that was tried, and with what. *)
Record Attempt := mkAttempt { a_scheme : string; a_address : IpAddr; a_port : Z }.

(** What the network answers to one request: status, headers and body bytes. *)
Abbreviation Exchange := (Z * Headers * list ascii)%type.

Section Client.
(** The resolver, the connection, and the HTTP and TLS libraries. *)
Variable resolve : string → Z → Z → res string (list IpAddr).
Variable connect : IpAddr → Z → Z → option string.
Variable exchange : string → string → IpAddr → Z → string → string → string → string → res string Exchange.

Definition has_unsupported_encoding (headers : Headers) : bool :=
  existsb (fun h => eq_ignore_ascii_case h.1 "content-encoding") headers.

(** [perform_http_request], after the answer *)
Definition received (e : Exchange) : res string Response :=
  let '(status, headers, bytes) := e in
  if has_unsupported_encoding headers then Err "compressed responses are unavailable without a bounded decoder"
  else if max_response_body_bytes web_limits <? Z.of_nat (length bytes) then Err "response body exceeds 8 MiB"
  else text ← ok_or "response body is not UTF-8" (from_utf8 bytes); Ok (mkResponse status headers text true false false).

(** The first address that lets itself be connected, the attempts before it, and the last error. *)
Fixpoint connect_first (scheme : string) (port deadline : Z) (error : option string) (addresses : list IpAddr) :
  list Attempt * res string IpAddr :=
  match addresses with
  | [] => ([], Err (default "failed to connect to allowed destination" error))
  | a :: addresses =>
      match parse_ip (show_ip a) with
      | None => connect_first scheme port deadline error addresses
      | Some address =>
          let attempt := mkAttempt scheme address port in
          match connect address port deadline with
          | None => ([attempt], Ok address)
          | Some e => let '(attempts, r) := connect_first scheme port deadline (Some e) addresses in (attempt :: attempts, r)
          end
      end
  end.

(** The scheme, the authority, the target, and the host and port of a URL. *)
Definition parse_url (url : string) : res string (string * string * string * string * Z) :=
  '(scheme, rest) ← ok_or "URL requires an authority" (split_scheme url);
  if negb (known_scheme scheme) then Err "unsupported URL scheme"
  else
    let '(authority, after) := split_authority rest in
    let target := if String.eqb after "" then "/" else after in
    '(host, port) ← parse_authority_with_default authority (if String.eqb scheme "https" then 443 else 80);
    Ok (scheme, authority, target, host, port).

(** [client_request_once], with the attempts it made *)
Definition client_request_once (method url body : string) (p : EgressPolicy) : list Attempt * res string Response :=
  if max_body_bytes web_limits <? str_len body then ([], Err "request body exceeds 8 MiB")
  else match parse_url url with
       | Ok (scheme, authority, target, host, port) =>
           match (resolved ← resolve host port (resolved_addresses_max web_limits); filter_allowed_addresses p scheme port resolved) with
           | Ok [] => ([], Err "URL resolved to no addresses")
           | Ok addresses =>
               let '(attempts, stream) := connect_first scheme port (total_deadline_ms p) None addresses in
               (attempts, address ← stream; e ← exchange scheme host address port method authority target body; received e)
           | Err e => ([], Err e)
           | Panic w => ([], Panic w)
           | Fuel => ([], Fuel)
           end
       | Err e => ([], Err e)
       | Panic w => ([], Panic w)
       | Fuel => ([], Fuel)
       end.

(** The loop over the redirects: [turns] requests at most. *)
Fixpoint follow (turns : nat) (method current body : string) (p : EgressPolicy) : list (string * list Attempt) * res string Response :=
  match turns with
  | O => ([], Err "redirect limit exceeded")
  | S turns =>
      let '(attempts, result) := client_request_once method current body p in
      match result with
      | Ok response =>
          if negb (in_range 300 399 (r_status response)) then ([(current, attempts)], Ok response)
          else
            match (location ← ok_or "redirect response missing Location"
                                 (snd <$> List.find (fun h => eq_ignore_ascii_case h.1 "location") (r_headers response));
                   resolve_redirect current location) with
            | Ok next => let '(hops, r) := follow turns method next body p in ((current, attempts) :: hops, r)
            | Err e => ([(current, attempts)], Err e)
            | Panic w => ([(current, attempts)], Panic w)
            | Fuel => ([(current, attempts)], Fuel)
            end
      | r => ([(current, attempts)], r)
      end
  end.

Definition client_request_with_policy (method url body : string) (p : EgressPolicy) : list (string * list Attempt) * res string Response :=
  follow (S (Z.to_nat (max_redirects p))) method url body p.
End Client.

(** A relative redirect from a URL without a path gets two slashes; without
    anything it goes from HTTPS to HTTP. *)
Example redirects_resolved :
  resolve_redirect "http://h/a/b?q" "c" = Ok "http://h/a/c" ∧ resolve_redirect "http://h/a/b?q" "?x" = Ok "http://h/a/b?x" ∧
  resolve_redirect "http://h" "c" = Ok "http://h//c" ∧ resolve_redirect "https://h/login" "http://h/" = Ok "http://h/" ∧
  resolve_redirect "http://h/" "http://u@h/" = Err "invalid URL authority".
Proof. vm_compute. repeat split. Qed.

(** ** The destinations that are closed *)

(** The IPv4 blocks, and those of IPv6 of its own. *)
Definition CLOSED_IPV4 : list string :=
  ["10.0.0.0/8"; "172.16.0.0/12"; "192.168.0.0/16"; "127.0.0.0/8"; "169.254.0.0/16"; "224.0.0.0/4"; "0.0.0.0/32"; "100.64.0.0/10";
   "192.0.2.0/24"; "198.51.100.0/24"; "203.0.113.0/24"; "198.18.0.0/15"].
Definition CLOSED_IPV6 : list string := ["::1/128"; "fe80::/10"; "ff00::/8"; "::/128"; "fc00::/7"].

Definition in_text_block (a : IpAddr) (text : string) : bool := match cidr_parse text with Ok c => cidr_contains c a | _ => false end.

Lemma in_text_block_range a text b n : cidr_parse text = Ok (mkCidr b n) → is_address b → is_address a → 0 ≤ n ≤ width b → mask b n = b →
  is_ipv4 b = is_ipv4 a → in_text_block a text = in_range (value b) (value b + 2 ^ (width b - n) - 1) (value a).
Proof.
  intros Hp Hb Ha Hn Hm Hf. unfold in_text_block. rewrite Hp. apply eq_true_iff_eq. rewrite contains_range by done.
  unfold in_range, same_family. rewrite andb_true_iff, !Z.leb_le, Hf. intuition lia.
Qed.

(** Tests of octets are ranges of addresses. *)
Lemma octet0_range a lo hi : 0 ≤ a < 2 ^ 32 → 0 ≤ lo → hi < 256 →
  in_range lo hi (octet 0 a) = in_range (lo * 2 ^ 24) (hi * 2 ^ 24 + 2 ^ 24 - 1) a.
Proof.
  intros Ha Hlo Hhi. unfold in_range, octet. change (8 * (3 - 0)) with 24. rewrite Z.mod_small by (split; [apply Z.div_pos|apply Z.div_lt_upper_bound]; lia).
  apply eq_true_iff_eq. rewrite !andb_true_iff, !Z.leb_le. Z.to_euclidean_division_equations. lia.
Qed.
Lemma octet1_range a k lo hi : 0 ≤ a < 2 ^ 32 → 0 ≤ k < 256 → 0 ≤ lo → hi < 256 →
  (octet 0 a =? k) && in_range lo hi (octet 1 a) = in_range (k * 2 ^ 24 + lo * 2 ^ 16) (k * 2 ^ 24 + hi * 2 ^ 16 + 2 ^ 16 - 1) a.
Proof.
  intros Ha Hk Hlo Hhi. unfold in_range, octet. change (8 * (3 - 0)) with 24. change (8 * (3 - 1)) with 16.
  apply eq_true_iff_eq. rewrite !andb_true_iff, !Z.leb_le, Z.eqb_eq. Z.to_euclidean_division_equations. lia.
Qed.
Lemma octet2_range a k j i : 0 ≤ a < 2 ^ 32 → 0 ≤ k < 256 → 0 ≤ j < 256 → 0 ≤ i < 256 →
  (octet 0 a =? k) && (octet 1 a =? j) && (octet 2 a =? i)
  = in_range (k * 2 ^ 24 + j * 2 ^ 16 + i * 2 ^ 8) (k * 2 ^ 24 + j * 2 ^ 16 + i * 2 ^ 8 + 2 ^ 8 - 1) a.
Proof.
  intros Ha Hk Hj Hi. unfold in_range, octet. change (8 * (3 - 0)) with 24. change (8 * (3 - 1)) with 16. change (8 * (3 - 2)) with 8.
  apply eq_true_iff_eq. rewrite !andb_true_iff, !Z.leb_le, !Z.eqb_eq. Z.to_euclidean_division_equations. lia.
Qed.
Lemma eqb_range v k : (v =? k) = in_range k k v.
Proof. unfold in_range. apply eq_true_iff_eq. rewrite andb_true_iff, Z.eqb_eq, !Z.leb_le. lia. Qed.

Lemma sensitive_ipv4_blocks a : 0 ≤ a < 2 ^ 32 → is_sensitive_ipv4 a = existsb (in_text_block (V4 a)) CLOSED_IPV4.
Proof.
  intros Ha. unfold CLOSED_IPV4. cbn [existsb].
  repeat match goal with |- context [in_text_block (V4 a) ?t] =>
    let c := eval vm_compute in (cidr_parse t) in
    match c with Ok (mkCidr ?b ?n) =>
      rewrite (in_text_block_range (V4 a) t b n); [|vm_compute; reflexivity|cbn; lia|done|cbn; lia|vm_compute; reflexivity|reflexivity]
    end
  end.
  unfold is_sensitive_ipv4, v4_is_private, v4_is_loopback, v4_is_link_local, v4_is_multicast, v4_is_unspecified.
  rewrite !octet2_range by lia. rewrite !(eqb_range (octet 1 a)). rewrite !octet1_range by lia.
  rewrite !(eqb_range (octet 0 a)), !octet0_range by lia. rewrite (eqb_range a), orb_false_r, !orb_assoc. reflexivity.
Qed.

Lemma segment0_range a m k : 0 ≤ a < 2 ^ 128 → 0 ≤ k ≤ 16 → m mod 2 ^ k = 0 →
  (Z.land (segment 0 a) (2 ^ 16 - 2 ^ k) =? m) = in_range (m * 2 ^ 112) ((m + 2 ^ k) * 2 ^ 112 - 1) a.
Proof.
  intros Ha Hk Hm. assert (segment 0 a = a / 2 ^ 112) as Hseg.
  { unfold segment. change (16 * (7 - 0)) with 112. apply Z.mod_small. split; [apply Z.div_pos|apply Z.div_lt_upper_bound]; lia. }
  assert (0 ≤ a / 2 ^ 112 < 2 ^ 16) as Hb by (split; [apply Z.div_pos|apply Z.div_lt_upper_bound]; lia).
  rewrite Hseg, land_high by lia. set (s := a / 2 ^ 112) in *. assert (0 < 2 ^ k) as Hp by (apply Z.pow_pos_nonneg; lia).
  pose proof (Z.div_mod s (2 ^ k)) as Hs. pose proof (Z.mod_pos_bound s (2 ^ k) Hp) as Hsb. pose proof (Z.div_mod m (2 ^ k)) as Hmd.
  pose proof (Z.div_mod a (2 ^ 112) ltac:(lia)) as Had. pose proof (Z.mod_pos_bound a (2 ^ 112) ltac:(lia)) as Hab. fold s in Had.
  unfold in_range. apply eq_true_iff_eq. rewrite andb_true_iff, Z.eqb_eq, !Z.leb_le. split; intros H.
  - assert (m ≤ s ≤ m + 2 ^ k - 1) by lia. nia.
  - assert (m ≤ s ≤ m + 2 ^ k - 1) by nia. assert (s / 2 ^ k = m / 2 ^ k); [|lia].
    symmetry. apply (Z.div_unique _ _ _ (s - m)); lia.
Qed.

Lemma own_ipv6_blocks a : 0 ≤ a < 2 ^ 128 →
  v6_is_loopback a || v6_is_unicast_link_local a || v6_is_multicast a || v6_is_unspecified a || (Z.land (segment 0 a) 65024 =? 64512)
  = existsb (in_text_block (V6 a)) CLOSED_IPV6.
Proof.
  intros Ha. unfold CLOSED_IPV6. cbn [existsb].
  repeat match goal with |- context [in_text_block (V6 a) ?t] =>
    let c := eval vm_compute in (cidr_parse t) in
    match c with Ok (mkCidr ?b ?n) =>
      rewrite (in_text_block_range (V6 a) t b n); [|vm_compute; reflexivity|cbn; lia|done|cbn; lia|vm_compute; reflexivity|reflexivity]
    end
  end.
  unfold v6_is_loopback, v6_is_unspecified, v6_is_multicast, v6_is_unicast_link_local.
  change 65280 with (2 ^ 16 - 2 ^ 8) at 1. change 65472 with (2 ^ 16 - 2 ^ 6). change 65024 with (2 ^ 16 - 2 ^ 9).
  rewrite !segment0_range by (done || lia). rewrite !(eqb_range a), orb_false_r, !orb_assoc. reflexivity.
Qed.

(** The destinations that are closed are exactly the addresses of these
    blocks: twelve of IPv4, five of IPv6, and the IPv4-mapped and
    IPv4-compatible addresses that stand for one of the former. *)
Theorem closed_destinations a : is_address a →
  is_sensitive a =
    match a with
    | V4 _ => existsb (in_text_block a) CLOSED_IPV4
    | V6 v => existsb (in_text_block a) CLOSED_IPV6
              || ((in_text_block a "::/96" || in_text_block a "::ffff:0:0/96") && existsb (in_text_block (V4 (v mod 2 ^ 32))) CLOSED_IPV4)
    end.
Proof.
  intros Ha. destruct a as [a|a]; cbn [is_address] in Ha; [by apply sensitive_ipv4_blocks|].
  assert (0 ≤ a mod 2 ^ 32 < 2 ^ 32) as Hm by (apply Z.mod_pos_bound; lia).
  rewrite <- own_ipv6_blocks, <- sensitive_ipv4_blocks by done. cbn [is_sensitive]. unfold to_ipv4.
  assert (Z.land a u32_MAX = a mod 2 ^ 32) as -> by (change u32_MAX with (Z.ones 32); apply Z.land_ones; lia).
  rewrite (in_text_block_range (V6 a) "::/96" (V6 0) 96); [|vm_compute; reflexivity|cbn; lia|done|cbn; lia|vm_compute; reflexivity|reflexivity].
  rewrite (in_text_block_range (V6 a) "::ffff:0:0/96" (V6 (65535 * 2 ^ 32)) 96);
    [|vm_compute; reflexivity|cbn; lia|done|cbn; lia|vm_compute; reflexivity|reflexivity].
  rewrite Z.shiftr_div_pow2 by lia.
  assert ((a / 2 ^ 32 =? 65535) = in_range (65535 * 2 ^ 32) (65535 * 2 ^ 32 + 2 ^ (128 - 96) - 1) a) as ->.
  { unfold in_range. apply eq_true_iff_eq. rewrite andb_true_iff, Z.eqb_eq, !Z.leb_le. Z.to_euclidean_division_equations. lia. }
  assert ((a / 2 ^ 32 =? 0) = in_range 0 (0 + 2 ^ (128 - 96) - 1) a) as ->.
  { unfold in_range. apply eq_true_iff_eq. rewrite andb_true_iff, Z.eqb_eq, !Z.leb_le. Z.to_euclidean_division_equations. lia. }
  assert (∀ s b1 b2 b3 b4 b5, s || b1 || b2 || b3 || b4 || b5 = b1 || b2 || b3 || b4 || b5 || s) as -> by (by intros [] [] [] [] [] []).
  f_equal. cbn [value width]. by destruct (in_range (65535 * 2 ^ 32) _ a), (in_range 0 _ a).
Qed.

Lemma closed_destinations_witness :
  is_sensitive (V6 (65535 * 2 ^ 32 + 10 * 2 ^ 24 + 1)) = true ∧
  is_sensitive (V6 (65535 * 2 ^ 32 + 10 * 2 ^ 24 + 1)) =
    existsb (in_text_block (V6 (65535 * 2 ^ 32 + 10 * 2 ^ 24 + 1))) CLOSED_IPV6
    || ((in_text_block (V6 (65535 * 2 ^ 32 + 10 * 2 ^ 24 + 1)) "::/96" || in_text_block (V6 (65535 * 2 ^ 32 + 10 * 2 ^ 24 + 1)) "::ffff:0:0/96")
        && existsb (in_text_block (V4 ((65535 * 2 ^ 32 + 10 * 2 ^ 24 + 1) mod 2 ^ 32))) CLOSED_IPV4).
Proof.
  split; [vm_compute; reflexivity|]. apply (closed_destinations (V6 (65535 * 2 ^ 32 + 10 * 2 ^ 24 + 1))). cbn [is_address]. lia.
Defined.

(** ** The client stays within its policy *)

(** What the policy lets through. *)
Definition embedded (a : IpAddr) : IpAddr := match a with V4 a => V4 a | V6 a => match to_ipv4 a with Some v4 => V4 v4 | None => V6 a end end.
Definition permits (p : EgressPolicy) (a : Attempt) : Prop :=
  is_sensitive (a_address a) = false ∧
  (∀ l, schemes p = Some l → a_scheme a ∈ l) ∧ (∀ l, ports p = Some l → a_port a ∈ l) ∧
  (∀ l, cidrs p = Some l → ∃ c, c ∈ l ∧ cidr_contains c (embedded (a_address a)) = true).

Lemma embedded_address a : is_address a → is_address (embedded a).
Proof.
  destruct a as [a|a]; cbn; [done|]. intros Ha. unfold to_ipv4. destruct (_ || _); [|done]. cbn.
  change u32_MAX with (Z.ones 32). rewrite Z.land_ones by lia. apply Z.mod_pos_bound. lia.
Qed.

Lemma allows_candidate_spec p a : is_address a → allows_candidate p a = true →
  is_sensitive a = false ∧ ∀ l, cidrs p = Some l → ∃ c, c ∈ l ∧ cidr_contains c (embedded a) = true.
Proof.
  intros Ha. unfold allows_candidate, validate_ssrf_destinations. cbn [existsb].
  destruct (is_sensitive a) eqn:Hs; cbn [orb]; [done|]. destruct (cidrs p) as [l|] eqn:Hc; [|done].
  intros H. split; [done|]. intros l' [= <-]. destruct l as [|c l]; [done|].
  change (match a with V4 a => V4 a | V6 a => match to_ipv4 a with Some v4 => V4 v4 | None => V6 a end end) with (embedded a) in H.
  rewrite parse_show_ip in H by by apply embedded_address. apply existsb_exists in H as (d & Hd & Hcd).
  exists d. by rewrite list_elem_of_In.
Qed.

Lemma existsb_eqb_in {A} (eqb : A → A → bool) (l : list A) x : (∀ y, eqb x y = true → x = y) → existsb (eqb x) l = true → x ∈ l.
Proof. intros He H. apply existsb_exists in H as (y & Hy & E). apply He in E as <-. by apply list_elem_of_In. Qed.

Lemma filter_allowed_spec p scheme port addresses allowed : Forall is_address addresses →
  filter_allowed_addresses p scheme port addresses = Ok allowed →
  Forall (fun a => a ∈ addresses ∧ is_address a ∧ permits p (mkAttempt scheme a port)) allowed.
Proof.
  intros Hall. unfold filter_allowed_addresses. destruct (_ || _) eqn:Hout; [done|]. destruct addresses as [|a0 l0] eqn:Hl; [done|].
  rewrite <- Hl in *. clear Hl a0 l0. destruct (List.filter (allows_candidate p) addresses) as [|b l] eqn:Hf; [done|].
  intros [= <-]. rewrite <- Hf. clear Hf b l. apply orb_false_iff in Hout as [H1 H2].
  apply list.Forall_forall. intros a Hin. apply list_elem_of_In, filter_In in Hin as [Hin Ha]. apply list_elem_of_In in Hin.
  assert (is_address a) as Had by by eapply (proj1 (list.Forall_forall _ _) Hall).
  destruct (allows_candidate_spec p a Had Ha) as [Hs Hc]. split; [done|]. split; [done|]. split; [done|]. cbn [a_scheme a_port a_address].
  split; [|split; [|done]].
  - intros l E. rewrite E in H1. apply negb_false_iff in H1. apply existsb_exists in H1 as (s & Hs' & E').
    apply String.eqb_eq in E' as <-. by apply list_elem_of_In.
  - intros l E. rewrite E in H2. apply negb_false_iff in H2. apply (existsb_eqb_in Z.eqb); [|done]. intros y. apply Z.eqb_eq.
Qed.

Section Confined.
Variable resolve : string → Z → Z → res string (list IpAddr).
Variable connect : IpAddr → Z → Z → option string.
Variable exchange : string → string → IpAddr → Z → string → string → string → string → res string Exchange.
Variable p : EgressPolicy.
(** The resolver gives addresses: numbers of 32 and 128 bits. *)
Hypothesis resolver_typed : ∀ host port maximum l, resolve host port maximum = Ok l → Forall is_address l.

Lemma connect_first_attempts scheme port deadline addresses : Forall is_address addresses → ∀ error,
  let '(attempts, r) := connect_first connect scheme port deadline error addresses in
  (∀ a, a ∈ attempts → ∃ address, a = mkAttempt scheme address port ∧ address ∈ addresses) ∧
  match r with Ok address => address ∈ addresses ∧ connect address port deadline = None | _ => True end.
Proof.
  induction 1 as [|a addresses Ha _ IH]; intros error; cbn [connect_first].
  { split; [|done]. by intros x ?%not_elem_of_nil. }
  rewrite parse_show_ip by done. destruct (connect a port deadline) as [e|] eqn:Hc.
  - specialize (IH (Some e)). destruct (connect_first _ _ _ _ (Some e) addresses) as [attempts r]. destruct IH as [IH Hr]. split.
    + intros x [->|Hx]%elem_of_cons; [exists a; by split; [|left]|]. destruct (IH x Hx) as (b & -> & Hb). exists b. by split; [|right].
    + destruct r; try done. destruct Hr. by split; [right|].
  - split; [|by split; [left|]]. intros x ->%list_elem_of_singleton. exists a. by split; [|left].
Qed.

(** A connection made for this URL. *)
Definition made_for (url : string) (a : Attempt) : Prop :=
  ∃ authority target host resolved,
    parse_url url = Ok (a_scheme a, authority, target, host, a_port a) ∧
    resolve host (a_port a) (resolved_addresses_max web_limits) = Ok resolved ∧ a_address a ∈ resolved.

Lemma once_attempts method url body :
  let '(attempts, r) := client_request_once resolve connect exchange method url body p in
  ∀ a, a ∈ attempts → permits p a ∧ made_for url a.
Proof.
  unfold client_request_once. destruct (_ <? _); [by intros a ?%not_elem_of_nil|].
  destruct (parse_url url) as [[[[[scheme authority] target] host] port]|e|w|] eqn:Hu; try (by intros a ?%not_elem_of_nil).
  destruct (resolve host port _) as [resolved|e|w|] eqn:Hr; cbn [mbind res_bind]; try (by intros a ?%not_elem_of_nil).
  pose proof (resolver_typed _ _ _ _ Hr) as Hty.
  destruct (filter_allowed_addresses p scheme port resolved) as [allowed|e|w|] eqn:Hf; try (by intros a ?%not_elem_of_nil).
  pose proof (filter_allowed_spec _ _ _ _ _ Hty Hf) as Hall. destruct allowed as [|b l]; [by intros a ?%not_elem_of_nil|].
  set (addresses := b :: l) in *. assert (Forall is_address addresses) as Hta.
  { eapply list.Forall_impl; [exact Hall|]. intros x Hx. apply Hx. }
  pose proof (connect_first_attempts scheme port (total_deadline_ms p) addresses Hta None) as Hc.
  destruct (connect_first _ _ _ _ None addresses) as [attempts stream]. destruct Hc as [Hc _].
  intros a Hin. destruct (Hc a Hin) as (address & -> & Hadd).
  destruct (proj1 (list.Forall_forall _ _) Hall _ Hadd) as (H1 & H2 & H3). split; [done|].
  exists authority, target, host, resolved. done.
Qed.

(** C26: Whatever the resolver, the network and the servers answer: a request of
    the client and the redirects it follows are at most one more than the
    policy's redirects, and every connection it tries is one of the addresses
    resolved for the URL of its turn, is at no closed destination, and has a
    scheme, a port and an address the policy lists, where it lists them. What
    the client gives back is no redirect. *)
Theorem client_confined method url body : 0 ≤ max_redirects p →
  let '(hops, result) := client_request_with_policy resolve connect exchange method url body p in
  Z.of_nat (length hops) ≤ max_redirects p + 1 ∧
  (∀ current attempts a, (current, attempts) ∈ hops → a ∈ attempts → permits p a ∧ made_for current a) ∧
  match result with Ok response => in_range 300 399 (r_status response) = false | _ => True end.
Proof.
  intros Hmax. unfold client_request_with_policy. replace (max_redirects p + 1) with (Z.of_nat (S (Z.to_nat (max_redirects p)))) by lia.
  generalize (S (Z.to_nat (max_redirects p))). intros turns. revert url. induction turns as [|turns IH]; intros url; cbn [follow].
  { split; [done|]. split; [|done]. by intros current attempts a ?%not_elem_of_nil. }
  pose proof (once_attempts method url body) as Hone.
  destruct (client_request_once resolve connect exchange method url body p) as [attempts result].
  assert (∀ current attempts' a, (current, attempts') ∈ [(url, attempts)] → a ∈ attempts' → permits p a ∧ made_for current a) as Hsingle.
  { intros current attempts' a [= -> ->]%list_elem_of_singleton. apply Hone. }
  destruct result as [response|e|w|]; try (split; [cbn; lia|by split]).
  destruct (in_range 300 399 (r_status response)) eqn:Hst; cbn [negb]; [|split; [cbn; lia|by split]].
  destruct (_ ≫= _) as [next|e|w|]; try (split; [cbn; lia|by split]).
  specialize (IH next). destruct (follow _ _ _ turns method next body p) as [hops r]. destruct IH as (H1 & H2 & H3).
  split; [cbn [length]; lia|]. split; [|done]. intros current attempts' a [[= -> ->]|Hin]%elem_of_cons Ha; [by apply Hone|eauto].
Qed.
End Confined.

(** A server that redirects to another, which is resolved to a private and a public address. *)
Definition sample_resolve (host : string) (port maximum : Z) : res string (list IpAddr) :=
  if String.eqb host "a.test" then Ok [V4 (93 * 2 ^ 24 + 1)] else Ok [V4 (10 * 2 ^ 24 + 1); V4 (93 * 2 ^ 24 + 2)].
Definition sample_exchange (scheme host : string) (a : IpAddr) (port : Z) (method authority target body : string) : res string Exchange :=
  if String.eqb host "a.test" then Ok (302, [("Location", "https://b.test:8443/x")], []) else Ok (200, [], str_bytes "ok").
Definition sample_policy : EgressPolicy := mkPolicy (Some ["http"; "https"]) (Some [mkCidr (V4 (93 * 2 ^ 24)) 8]) None 3 1000.

Lemma client_confined_witness :
  client_request_with_policy sample_resolve (fun _ _ _ => None) sample_exchange "GET" "http://a.test/" "" sample_policy
  = ([("http://a.test/", [mkAttempt "http" (V4 (93 * 2 ^ 24 + 1)) 80]); ("https://b.test:8443/x", [mkAttempt "https" (V4 (93 * 2 ^ 24 + 2)) 8443])],
     Ok (mkResponse 200 [] "ok" true false false)) ∧
  let '(hops, result) := client_request_with_policy sample_resolve (fun _ _ _ => None) sample_exchange "GET" "http://a.test/" "" sample_policy in
  Z.of_nat (length hops) ≤ max_redirects sample_policy + 1 ∧
  (∀ current attempts a, (current, attempts) ∈ hops → a ∈ attempts → permits sample_policy a ∧ made_for sample_resolve current a) ∧
  match result with Ok response => in_range 300 399 (r_status response) = false | _ => True end.
Proof.
  split; [vm_compute; reflexivity|].
  apply (client_confined sample_resolve (fun _ _ _ => None) sample_exchange sample_policy); [|cbn; lia].
  intros host port maximum l. unfold sample_resolve. destruct (String.eqb host "a.test"); intros [= <-]; repeat constructor; cbn; lia.
Defined.
