(* ===== verification/WebSessions.v ===== *)
(** * WebSessions: sessions of a web server and of programs ([web/sessions.rs], [web_state.rs])

    The table of the sessions of a server, shared by its handlers, the session
    of one request with its cookie, and the session store of a program. *)

From S2P Require Import Prelude Text Scalars Limits Addresses Targets WebCookies.

#[local] Open Scope string_scope.
#[local] Open Scope Z_scope.

Definition SESSION_COOKIE : string := "sid".
Definition KEY_MAX : Z := 128.
Definition VALUE_MAX : Z := 4096.
Definition KEYS_MAX : Z := 64.

(** [{byte:02x}] *)
Definition hex_byte (b : Z) : string := String (hex_char (b / 16)) (String (hex_char (b mod 16)) "").

(** [new_session_id]: sixteen bytes of the provider, or its failure. *)
Definition new_session_id (entropy : option (list Z)) : res string string :=
  bytes ← ok_or "session entropy provider failed" entropy; Ok ("s" +:+ String.concat "" (map hex_byte bytes)).

(** ** The table *)

Abbreviation Values := (gmap string string).
(** Instants and durations in nanoseconds. *)
Record Entry := mkEntry { values : Values; touched : Z }.
Record SessionTable := mkTable { sessions : gmap string Entry; capacity : Z; idle : Z }.

Definition new_table (capacity idle_ms : Z) : res string SessionTable :=
  if negb (in_range 1 10000 capacity) then Err "invalid session capacity"
  else if negb (in_range 1 (30 * 60 * 1000) idle_ms) then Err "invalid session idle timeout"
  else Ok (mkTable ∅ capacity (idle_ms * 1000000)).

Definition with_sessions (m : gmap string Entry) (t : SessionTable) : SessionTable := mkTable m (capacity t) (idle t).
Definition is_fresh (now : Z) (t : SessionTable) (e : Entry) : bool := Z.max 0 (now - touched e) <? idle t.

(** [live]: whether the identifier names a live session, which it touches. *)
Definition live (id : string) (now : Z) (t : SessionTable) : bool * SessionTable :=
  match sessions t !! id with
  | Some e =>
      if is_fresh now t e then (true, with_sessions (<[id := mkEntry (values e) now]> (sessions t)) t)
      else (false, with_sessions (delete id (sessions t)) t)
  | None => (false, t)
  end.

Definition retain_fresh (now : Z) (t : SessionTable) : gmap string Entry :=
  filter (fun '(_, e) => is_fresh now t e = true) (sessions t).

(** [min_by_key] over the entries in the order the map gives them: the first
    that was touched least recently. *)
Fixpoint least_touched (best : option (string * Entry)) (l : list (string * Entry)) : option string :=
  match l with
  | [] => fst <$> best
  | x :: l => least_touched (match best with Some b => if touched x.2 <? touched b.2 then Some x else Some b | None => Some x end) l
  end.

Section Table.
Variable iterate : gmap string Entry → list (string * Entry).
Hypothesis iterates : ∀ m k e, (k, e) ∈ iterate m ↔ m !! k = Some e.

(** [create] *)
Definition create (v : Values) (entropy : option (list Z)) (now : Z) (t : SessionTable) : res string string * SessionTable :=
  match new_session_id entropy with
  | Ok id =>
      let kept := retain_fresh now t in
      let kept := if capacity t <=? Z.of_nat (size kept) then
                    match least_touched None (iterate kept) with Some oldest => delete oldest kept | None => kept end
                  else kept in
      (Ok id, with_sessions (<[id := mkEntry v now]> kept) t)
  | _ => (Err "session entropy provider unavailable", t)
  end.

(** [with_entry]: the operation on the values of a live session. *)
Definition with_entry {R} (id : string) (operation : Values → res string R * Values) (now : Z) (t : SessionTable) : res string R * SessionTable :=
  match sessions t !! id with
  | Some e =>
      if is_fresh now t e then
        let '(r, v) := operation (values e) in (r, with_sessions (<[id := mkEntry v now]> (sessions t)) t)
      else (Err "session not found", t)
  | None => (Err "session not found", t)
  end.

Definition remove_session (id : string) (t : SessionTable) : option Values * SessionTable :=
  (values <$> sessions t !! id, with_sessions (delete id (sessions t)) t).

(** [len] *)
Definition live_count (now : Z) (t : SessionTable) : Z * SessionTable :=
  let t := with_sessions (retain_fresh now t) t in (Z.of_nat (size (sessions t)), t).

(** ** The session of a request *)

Inductive CookieChange := Keep | SetCookie | Clear.
Record SessionState := mkState { sid : option string; change : CookieChange }.

(** An operation gives its answer, the state and the table. *)
Abbreviation Does R := (res string R * SessionState * SessionTable)%type.

Definition begin (cookie : option string) (now : Z) (t : SessionTable) : SessionState * SessionTable :=
  match cookie with
  | Some id => let '(alive, t) := live id now t in (mkState (if alive then Some id else None) Keep, t)
  | None => (mkState None Keep, t)
  end.

(** [id]: the identifier, with a session created on first use. *)
Definition session_id (entropy : option (list Z)) (now : Z) (s : SessionState) (t : SessionTable) : Does string :=
  let made t :=
    match create ∅ entropy now t with
    | (Ok id, t) => (Ok id, mkState (Some id) SetCookie, t)
    | (r, t) => (r, s, t)
    end in
  match sid s with
  | Some id => let '(alive, t) := live id now t in if alive then (Ok id, s, t) else made t
  | None => made t
  end.

Definition current (now : Z) (s : SessionState) (t : SessionTable) : option string * SessionTable :=
  match sid s with
  | Some id => let '(alive, t) := live id now t in (if alive then Some id else None, t)
  | None => (None, t)
  end.

Definition session_get (key : string) (now : Z) (s : SessionState) (t : SessionTable) : Does (option string) :=
  match current now s t with
  | (None, t) => (Ok None, s, t)
  | (Some id, t) => let '(r, t) := with_entry id (fun v => (Ok (v !! key), v)) now t in (r, s, t)
  end.

Definition put (key value : string) (v : Values) : res string unit * Values :=
  if negb (bool_decide (is_Some (v !! key))) && (KEYS_MAX <=? Z.of_nat (size v)) then (Err "session key limit exceeded", v)
  else (Ok tt, <[key := value]> v).

Definition session_set (key value : string) (entropy : option (list Z)) (now : Z) (s : SessionState) (t : SessionTable) : Does unit :=
  if String.eqb key "" || (KEY_MAX <? str_len key) || (VALUE_MAX <? str_len value) then (Err "invalid session entry", s, t)
  else
    match session_id entropy now s t with
    | (Ok id, s, t) => let '(r, t) := with_entry id (put key value) now t in (r, s, t)
    | (Err e, s, t) => (Err e, s, t)
    | (Panic w, s, t) => (Panic w, s, t)
    | (Fuel, s, t) => (Fuel, s, t)
    end.

Definition session_remove (key : string) (now : Z) (s : SessionState) (t : SessionTable) : Does bool :=
  match current now s t with
  | (None, t) => (Ok false, s, t)
  | (Some id, t) =>
      let '(r, t) := with_entry id (fun v => (Ok (bool_decide (is_Some (v !! key))), delete key v)) now t in (r, s, t)
  end.

(** [rotate]; the second [entropy] is for the new identifier. *)
Definition session_rotate (entropy entropy' : option (list Z)) (now : Z) (s : SessionState) (t : SessionTable) : Does string :=
  match session_id entropy now s t with
  | (Ok old, s, t) =>
      let '(v, t) := remove_session old t in
      match create (default ∅ v) entropy' now t with
      | (Ok id, t) => (Ok id, mkState (Some id) SetCookie, t)
      | (r, t) => (r, s, t)
      end
  | r => r
  end.

Definition session_end (s : SessionState) (t : SessionTable) : SessionState * SessionTable :=
  (mkState None Clear, match sid s with Some id => (remove_session id t).2 | None => t end).

(** [apply]: the cookie the session work needs. *)
Definition apply_cookie (s : SessionState) (r : Response) : Told :=
  let options := mkCookieOptions (r_secure r) (http_only default_cookie) (same_site default_cookie) in
  match change s, sid s with
  | SetCookie, Some id => set_cookie SESSION_COOKIE id None "/" None options r
  | Clear, _ => clear_cookie SESSION_COOKIE None "/" r
  | _, _ => (Ok tt, r)
  end.

(** ** What the handlers do with the table *)

Inductive SessionOp :=
| Id (entropy : option (list Z))
| Get (key : string)
| Put (key value : string) (entropy : option (list Z))
| Remove (key : string)
| Rotate (entropy entropy' : option (list Z))
| End.

Definition run_session (op : SessionOp) (now : Z) (s : SessionState) (t : SessionTable) : SessionState * SessionTable :=
  match op with
  | Id entropy => let '(_, s, t) := session_id entropy now s t in (s, t)
  | Get key => let '(_, s, t) := session_get key now s t in (s, t)
  | Put key value entropy => let '(_, s, t) := session_set key value entropy now s t in (s, t)
  | Remove key => let '(_, s, t) := session_remove key now s t in (s, t)
  | Rotate entropy entropy' => let '(_, s, t) := session_rotate entropy entropy' now s t in (s, t)
  | End => session_end s t
  end.

(** Requests with the cookie they came with and what their handlers do, one
    operation after the other under the lock, in any order. *)
Inductive TableOp := Begin (request : nat) (cookie : option string) (now : Z) | Does_ (request : nat) (op : SessionOp) (now : Z) | Count (now : Z).

Definition run_table (op : TableOp) (st : gmap nat SessionState * SessionTable) : gmap nat SessionState * SessionTable :=
  let '(requests, t) := st in
  match op with
  | Begin request cookie now => let '(s, t) := begin cookie now t in (<[request := s]> requests, t)
  | Does_ request op now =>
      match requests !! request with
      | Some s => let '(s, t) := run_session op now s t in (<[request := s]> requests, t)
      | None => st
      end
  | Count now => (requests, (live_count now t).2)
  end.
Definition run_tables (ops : list TableOp) (st : gmap nat SessionState * SessionTable) := fold_left (fun st op => run_table op st) ops st.

(** ** What always holds of the table *)

Definition values_ok (v : Values) : Prop :=
  Z.of_nat (size v) ≤ KEYS_MAX ∧ map_Forall (fun k x => k ≠ "" ∧ str_len k ≤ KEY_MAX ∧ str_len x ≤ VALUE_MAX) v.
Definition table_ok (t : SessionTable) : Prop :=
  1 ≤ capacity t ∧ Z.of_nat (size (sessions t)) ≤ capacity t ∧ map_Forall (fun _ e => values_ok (values e)) (sessions t).

(** The session [i] as it was, or gone. *)
Definition kept_or_gone (i : string) (t t' : SessionTable) : Prop := sessions t' !! i = None ∨ sessions t' !! i = sessions t !! i.

Lemma kept_refl i t : kept_or_gone i t t.
Proof. by right. Qed.
Lemma kept_trans i t1 t2 t3 : kept_or_gone i t1 t2 → kept_or_gone i t2 t3 → kept_or_gone i t1 t3.
Proof. unfold kept_or_gone. intros [H1|H1] [H2|H2]; rewrite ?H2, ?H1; auto. Qed.

Lemma least_touched_in l : ∀ best k, least_touched best l = Some k →
  ∃ e, (best = Some (k, e) ∨ (k, e) ∈ l).
Proof.
  induction l as [|[k' e'] l IH]; intros best k; cbn [least_touched].
  { intros H. apply fmap_Some in H as ([k0 e] & -> & ->). exists e. by left. }
  intros H. destruct (IH _ _ H) as (e & [Hb|Hin]); [|exists e; right; by right].
  destruct best as [b|]; [destruct (_ <? _)|]; injection Hb as ->; subst; exists e; (by left) || (right; by left).
Qed.
Lemma least_touched_some l : l ≠ [] → is_Some (least_touched None l).
Proof.
  assert (∀ b, is_Some (least_touched (Some b) l)) as H.
  { induction l as [|x l IH]; intros b; cbn [least_touched]; [by eexists|]. by destruct (_ <? _). }
  destruct l as [|x l]; [done|]. intros _. clear H. cbn [least_touched].
  revert x. induction l as [|y l IH]; intros x; cbn [least_touched]; [by eexists|]. by destruct (_ <? _).
Qed.

Lemma retain_lookup now t i : retain_fresh now t !! i = None ∨ retain_fresh now t !! i = sessions t !! i.
Proof.
  unfold retain_fresh. destruct (filter _ (sessions t) !! i) as [e|] eqn:H; [|by left]. right.
  apply map_lookup_filter_Some in H as [H _]. by rewrite H.
Qed.
Lemma retain_size now t : (size (retain_fresh now t) ≤ size (sessions t))%nat.
Proof. apply map_size_filter. Qed.

Lemma create_keeps v entropy now t i : (∀ id, new_session_id entropy = Ok id → id ≠ i) →
  kept_or_gone i t (create v entropy now t).2.
Proof.
  intros Hi. unfold create. destruct (new_session_id entropy) as [id|e|w|]; try apply kept_refl.
  unfold kept_or_gone. cbn [snd with_sessions sessions]. rewrite lookup_insert_ne by by apply Hi.
  destruct (_ <=? _); [destruct (least_touched _ _) as [o|]|]; try apply retain_lookup.
  rewrite lookup_delete. case_decide; [by left|apply retain_lookup].
Qed.

Lemma create_ok v entropy now t : table_ok t → values_ok v → table_ok (create v entropy now t).2.
Proof.
  intros (Hc & Hs & Hv) Hok. unfold create. destruct (new_session_id entropy) as [id|e|w|]; try (by split).
  set (kept := retain_fresh now t). pose proof (retain_size now t) as Hsz. fold kept in Hsz.
  assert (map_Forall (fun _ e => values_ok (values e)) kept) as Hk.
  { intros k e He. apply (Hv k). unfold kept, retain_fresh in He. by apply map_lookup_filter_Some in He as [He _]. }
  cbn [snd]. destruct (Z.leb_spec (capacity t) (Z.of_nat (size kept))) as [Hfull|Hroom].
  - destruct (least_touched_some (iterate kept)) as [o Ho].
    { intros E. destruct (map_to_list kept) as [|[k e] l] eqn:Hl.
      { apply map_to_list_empty_iff in Hl. rewrite Hl, map_size_empty in Hfull. cbn in Hfull. lia. }
      assert ((k, e) ∈ iterate kept) as Hin. { apply iterates, elem_of_map_to_list. rewrite Hl. by left. }
      rewrite E in Hin. by apply not_elem_of_nil in Hin. }
    rewrite Ho. apply least_touched_in in Ho as (e & [Hb|Hin]); [done|]. apply iterates in Hin.
    split; [done|]. cbn [with_sessions sessions capacity]. split; [|apply map_Forall_insert_2; [done|by apply map_Forall_delete]].
    assert (size (delete o kept) < size kept)%nat.
    { rewrite map_size_delete, Hin. assert (size kept ≠ 0%nat); [|lia]. intros E. apply map_size_empty_inv in E. by rewrite E, lookup_empty in Hin. }
    rewrite map_size_insert. destruct (delete o kept !! id); unfold Datatypes.id; lia.
  - split; [done|]. cbn [with_sessions sessions capacity]. split; [|by apply map_Forall_insert_2].
    rewrite map_size_insert. destruct (kept !! id); unfold Datatypes.id; lia.
Qed.

Lemma live_keeps id now t i : id ≠ i → kept_or_gone i t (live id now t).2.
Proof.
  intros Hi. unfold live, kept_or_gone. destruct (sessions t !! id); [|by right]. destruct (is_fresh now t e); cbn; right.
  - by rewrite lookup_insert_ne.
  - by rewrite lookup_delete_ne.
Qed.
Lemma live_ok id now t : table_ok t → table_ok (live id now t).2.
Proof.
  intros (Hc & Hs & Hv). unfold live. destruct (sessions t !! id) as [e|] eqn:He; [|by split].
  destruct (is_fresh now t e); cbn [snd]; (split; [done|]); cbn [with_sessions sessions capacity].
  - rewrite map_size_insert, He. split; [done|]. apply map_Forall_insert_2; [|done]. cbn. by apply (Hv id).
  - split; [|by apply map_Forall_delete]. rewrite map_size_delete, He. lia.
Qed.

Lemma with_entry_keeps {R} id (f : Values → res string R * Values) now t i : id ≠ i → kept_or_gone i t (with_entry id f now t).2.
Proof.
  intros Hi. unfold with_entry, kept_or_gone. destruct (sessions t !! id); [|by right]. destruct (is_fresh now t e); [|by right].
  destruct (f (values e)). cbn. right. by rewrite lookup_insert_ne.
Qed.
Lemma with_entry_ok {R} id (f : Values → res string R * Values) now t : table_ok t → (∀ v, values_ok v → values_ok (f v).2) →
  table_ok (with_entry id f now t).2.
Proof.
  intros (Hc & Hs & Hv) Hf. unfold with_entry. destruct (sessions t !! id) as [e|] eqn:He; [|by split].
  destruct (is_fresh now t e); [|by split]. pose proof (Hf (values e) (Hv id e He)) as Hok. destruct (f (values e)) as [r v]. cbn iota. cbn [snd] in *.
  split; [done|]. cbn [with_sessions sessions capacity]. rewrite map_size_insert, He. split; [done|]. by apply map_Forall_insert_2.
Qed.

Lemma put_values key value v : key ≠ "" → str_len key ≤ KEY_MAX → str_len value ≤ VALUE_MAX → values_ok v → values_ok (put key value v).2.
Proof.
  intros H1 H2 H3 [Hs Hv]. unfold put. case_bool_decide as Hd; cbn [negb andb].
  - cbn [snd]. split; [|by apply map_Forall_insert_2]. destruct Hd as [x Hx]. by rewrite map_size_insert, Hx.
  - destruct (Z.leb_spec KEYS_MAX (Z.of_nat (size v))); [by split|]. cbn [snd].
    split; [|by apply map_Forall_insert_2]. rewrite map_size_insert. destruct (v !! key); unfold Datatypes.id; lia.
Qed.
Lemma delete_values key v : values_ok v → values_ok (delete key v).
Proof.
  intros [Hs Hv]. split; [|by apply map_Forall_delete]. rewrite map_size_delete. destruct (v !! key); unfold Datatypes.id; lia.
Qed.
Lemma empty_values : values_ok ∅.
Proof. split; [by rewrite map_size_empty|apply map_Forall_empty]. Qed.

(** The identifiers an operation may bring into use. *)
Definition new_ids (op : SessionOp) : list (option (list Z)) :=
  match op with Id e | Put _ _ e => [e] | Rotate e e' => [e; e'] | _ => [] end.
Definition avoids (i : string) (op : SessionOp) : Prop := ∀ e id, e ∈ new_ids op → new_session_id e = Ok id → id ≠ i.

Lemma session_id_sid entropy now s t : let '(r, s', _) := session_id entropy now s t in
  match r with Ok id => sid s' = Some id ∧ (sid s = Some id ∨ new_session_id entropy = Ok id) | _ => s' = s end.
Proof.
  unfold session_id, create. destruct (sid s) as [id|] eqn:Hs.
  - destruct (live id now t) as [[] t1]; [by auto|]. destruct (new_session_id entropy); cbn; by auto.
  - destruct (new_session_id entropy); cbn; by auto.
Qed.

Lemma session_id_table entropy now s t i :
  let '(_, _, t') := session_id entropy now s t in
  (table_ok t → table_ok t') ∧
  (sid s ≠ Some i → (∀ id, new_session_id entropy = Ok id → id ≠ i) → kept_or_gone i t t').
Proof.
  unfold session_id. destruct (sid s) as [id|].
  - pose proof (live_keeps id now t i) as Hk. pose proof (live_ok id now t) as Ho. destruct (live id now t) as [[] t1]; cbn [snd] in *.
    + split; [done|]. intros Hi _. apply Hk. congruence.
    + pose proof (create_keeps ∅ entropy now t1 i) as Hk'. pose proof (create_ok ∅ entropy now t1) as Ho'.
      assert (∀ t2, (create ∅ entropy now t1).2 = t2 → (table_ok t → table_ok t2) ∧ (Some id ≠ Some i → (∀ id, new_session_id entropy = Ok id → id ≠ i) → kept_or_gone i t t2)) as H.
      { intros t2 <-. split; [intros H; apply Ho'; [by apply Ho|apply empty_values]|]. intros Hi Hn.
        eapply kept_trans; [apply Hk; congruence|by apply Hk']. }
      specialize (H _ eq_refl). destruct (create ∅ entropy now t1) as [[] t2]; exact H.
  - pose proof (create_keeps ∅ entropy now t i) as Hk'. pose proof (create_ok ∅ entropy now t) as Ho'.
    assert (∀ t2, (create ∅ entropy now t).2 = t2 → (table_ok t → table_ok t2) ∧ (None ≠ Some i → (∀ id, new_session_id entropy = Ok id → id ≠ i) → kept_or_gone i t t2)) as H.
    { intros t2 <-. split; [intros H; apply Ho'; [done|apply empty_values]|]. intros _ Hn. by apply Hk'. }
    specialize (H _ eq_refl). destruct (create ∅ entropy now t) as [[] t2]; exact H.
Qed.

Lemma remove_keeps id t i : id ≠ i → kept_or_gone i t (remove_session id t).2.
Proof. intros Hi. right. cbn. by rewrite lookup_delete_ne. Qed.
Lemma remove_ok id t : table_ok t → table_ok (remove_session id t).2 ∧ (∀ v, (remove_session id t).1 = Some v → values_ok v).
Proof.
  intros (Hc & Hs & Hv). cbn. split.
  - split; [done|]. cbn [with_sessions sessions capacity]. split; [|by apply map_Forall_delete].
    rewrite map_size_delete. destruct (sessions t !! id); unfold Datatypes.id; lia.
  - intros v H. apply fmap_Some in H as (e & He & ->). by apply (Hv id).
Qed.

Lemma current_table now s t i : let '(r, t') := current now s t in
  (table_ok t → table_ok t') ∧ (sid s ≠ Some i → kept_or_gone i t t') ∧ (∀ id, r = Some id → sid s = Some id).
Proof.
  unfold current. destruct (sid s) as [id|]; [|by (split; [done|]; split; [by right|])].
  pose proof (live_keeps id now t i) as Hk. pose proof (live_ok id now t) as Ho. destruct (live id now t) as [alive t']. cbn [snd] in *.
  split; [done|]. split; [intros Hi; apply Hk; congruence|]. destruct alive; by intros id' [= <-].
Qed.

(** An operation of one session: the table stays in bounds, and any other
    session is as it was or gone. *)
Lemma run_session_table op now s t i :
  let '(_, t') := run_session op now s t in
  (table_ok t → table_ok t') ∧ (sid s ≠ Some i → avoids i op → kept_or_gone i t t').
Proof.
  unfold avoids. destruct op as [entropy|key|key value entropy|key|entropy entropy'|]; cbn [run_session new_ids].
  - pose proof (session_id_table entropy now s t i) as H. destruct (session_id entropy now s t) as [[r s'] t'].
    destruct H as [H1 H2]. split; [done|]. intros Hi Ha. apply H2; [done|]. intros id. apply Ha. by left.
  - unfold session_get. pose proof (current_table now s t i) as H. destruct (current now s t) as [[id|] t1]; destruct H as (H1 & H2 & H3);
      [|by split; [|auto]].
    pose proof (with_entry_ok id (fun v => (Ok (v !! key), v)) now t1) as Ho. pose proof (with_entry_keeps id (fun v => (Ok (v !! key), v)) now t1 i) as Hk.
    destruct (with_entry id _ now t1) as [r t2]. cbn [snd] in *. split; [by intros H; apply Ho; [apply H1|]|].
    intros Hi _. specialize (H3 id eq_refl). eapply kept_trans; [by apply H2|]. apply Hk. congruence.
  - unfold session_set. destruct (String.eqb_spec key ""); cbn [orb]; [split; [done|intros; by right]|].
    destruct (Z.ltb_spec KEY_MAX (str_len key)); cbn [orb]; [split; [done|intros; by right]|].
    destruct (Z.ltb_spec VALUE_MAX (str_len value)); [split; [done|intros; by right]|].
    pose proof (session_id_table entropy now s t i) as H'. pose proof (session_id_sid entropy now s t) as Hs.
    destruct (session_id entropy now s t) as [[r s'] t1]. destruct H' as [H1 H2].
    assert (sid s ≠ Some i → (∀ e id, e ∈ [entropy] → new_session_id e = Ok id → id ≠ i) → kept_or_gone i t t1) as H2'.
    { intros Hi Ha. apply H2; [done|]. intros id. apply Ha. by left. }
    destruct r as [id|e|w|]; try by split.
    pose proof (with_entry_ok id (put key value) now t1) as Ho. pose proof (with_entry_keeps id (put key value) now t1 i) as Hk.
    destruct (with_entry id _ now t1) as [r t2]. cbn [snd] in *.
    split; [intros Ht; apply Ho; [by apply H1|]; intros v; by apply put_values|].
    intros Hi Ha. eapply kept_trans; [by apply H2'|]. apply Hk. destruct Hs as [_ [Hs|Hs]]; [congruence|]. apply (Ha entropy); [by left|done].
  - unfold session_remove. pose proof (current_table now s t i) as H. destruct (current now s t) as [[id|] t1]; destruct H as (H1 & H2 & H3);
      [|by split; [|auto]].
    set (f := fun v : Values => (Ok (bool_decide (is_Some (v !! key))), delete key v) : res string bool * Values).
    pose proof (with_entry_ok id f now t1) as Ho. pose proof (with_entry_keeps id f now t1 i) as Hk.
    destruct (with_entry id f now t1) as [r t2]. cbn [snd] in *. split; [intros H; apply Ho; [by apply H1|]; intros v; apply delete_values|].
    intros Hi _. specialize (H3 id eq_refl). eapply kept_trans; [by apply H2|]. apply Hk. congruence.
  - unfold session_rotate. pose proof (session_id_table entropy now s t i) as H'. pose proof (session_id_sid entropy now s t) as Hs.
    destruct (session_id entropy now s t) as [[r s'] t1]. destruct H' as [H1 H2].
    assert (sid s ≠ Some i → (∀ e id, e ∈ [entropy; entropy'] → new_session_id e = Ok id → id ≠ i) → kept_or_gone i t t1) as H2'.
    { intros Hi Ha. apply H2; [done|]. intros id. apply Ha. by left. }
    destruct r as [old|e|w|]; try by split.
    pose proof (remove_keeps old t1 i) as Hrk. pose proof (remove_ok old t1) as Hro. destruct (remove_session old t1) as [v t2]. cbn [fst snd] in *.
    assert (table_ok t1 → values_ok (default ∅ v)) as Hd. { intros H. destruct v as [v|]; [by apply Hro|apply empty_values]. }
    pose proof (create_ok (default ∅ v) entropy' now t2) as Ho. pose proof (create_keeps (default ∅ v) entropy' now t2 i) as Hk.
    destruct (create (default ∅ v) entropy' now t2) as [r' t3]. cbn [snd] in *.
    assert ((table_ok t → table_ok t3) ∧ (sid s ≠ Some i → (∀ e id, e ∈ [entropy; entropy'] → new_session_id e = Ok id → id ≠ i) → kept_or_gone i t t3)) as Hend.
    { split; [intros H; apply Ho; [apply Hro|apply Hd]; by apply H1|]. intros Hi Ha. eapply kept_trans; [by apply H2'|].
      eapply kept_trans; [apply Hrk|apply Hk; intros id; apply Ha; right; by left].
      destruct Hs as [_ [Hs|Hs]]; [congruence|]. apply (Ha entropy); [by left|done]. }
    by destruct r'.
  - unfold session_end. destruct (sid s) as [id|]; [|split; [done|intros; by right]].
    split; [intros H; by apply remove_ok|]. intros Hi _. apply remove_keeps. congruence.
Qed.

Lemma run_table_ok op requests t : table_ok t → table_ok (run_table op (requests, t)).2.
Proof.
  intros H. destruct op as [request cookie now|request op now|now]; cbn [run_table].
  - unfold begin. destruct cookie as [id|]; [|done]. pose proof (live_ok id now t H) as Ho. by destruct (live id now t).
  - destruct (requests !! request) as [s|]; [|done]. pose proof (run_session_table op now s t "") as Hr.
    destruct (run_session op now s t) as [s' t']. by apply Hr.
  - cbn. destruct H as (Hc & Hs & Hv). pose proof (retain_size now t). split; [done|]. cbn [with_sessions sessions capacity]. split; [lia|].
    intros k e He. apply (Hv k). unfold retain_fresh in He. by apply map_lookup_filter_Some in He as [He _].
Qed.

(** Whatever requests come and whatever their handlers do: the table of a
    server never has more sessions than its capacity, no session more than 64
    keys or an entry out of bounds; and an operation of one session leaves
    every other, and what it holds, as it was, or has it forgotten. *)
Theorem sessions_bounded capacity idle_ms t0 ops : new_table capacity idle_ms = Ok t0 →
  let '(requests, t) := run_tables ops (∅, t0) in
  table_ok t ∧ 1 ≤ capacity ≤ 10000 ∧
  ∀ request s op now i, requests !! request = Some s → sid s ≠ Some i → avoids i op →
    let t' := (run_table (Does_ request op now) (requests, t)).2 in
    sessions t' !! i = None ∨ sessions t' !! i = sessions t !! i.
Proof.
  intros Hnew. unfold new_table, in_range in Hnew. destruct (Z.leb_spec 1 capacity), (Z.leb_spec capacity 10000); try done.
  cbn [andb negb] in Hnew. destruct (negb _); [done|]. injection Hnew as <-.
  assert (table_ok (mkTable ∅ capacity (idle_ms * 1000000))) as Ht0.
  { split; [done|]. cbn [sessions WebSessions.capacity]. split; [rewrite map_size_empty; cbn; lia|apply map_Forall_empty]. }
  assert (∀ ops st, table_ok st.2 → table_ok (run_tables ops st).2) as Hrun.
  { clear - iterates. induction ops as [|op ops IH]; intros [requests t] H; [done|]. cbn [run_tables fold_left]. apply IH. by apply run_table_ok. }
  specialize (Hrun ops (∅, mkTable ∅ capacity (idle_ms * 1000000)) Ht0).
  destruct (run_tables ops _) as [requests t]. cbn [snd] in Hrun. split; [done|]. split; [done|].
  intros request s op now i Hs Hi Ha. cbn [run_table]. rewrite Hs. pose proof (run_session_table op now s t i) as Hr.
  destruct (run_session op now s t) as [s' t']. by apply Hr.
Qed.

(** After a login: a session that is rotated has all it held under its new
    identifier, the old one names nothing, and the answer will set the cookie;
    a rotation that fails says so. *)
Theorem session_rotated entropy entropy' now s t old e : sid s = Some old → sessions t !! old = Some e → is_fresh now t e = true →
  let '(answer, s', t') := session_rotate entropy entropy' now s t in
  match new_session_id entropy' with
  | Ok id => answer = Ok id ∧ s' = mkState (Some id) SetCookie ∧ values <$> sessions t' !! id = Some (values e) ∧
             (id ≠ old → sessions t' !! old = None)
  | _ => answer = Err "session entropy provider unavailable" ∧ s' = s
  end.
Proof.
  intros Hs He Hf. unfold session_rotate, session_id. rewrite Hs. unfold live. rewrite He, Hf. cbn [fst snd].
  unfold remove_session. cbn [sessions with_sessions]. rewrite lookup_insert_eq. cbn [fmap option_fmap option_map default values].
  unfold create. destruct (new_session_id entropy') as [id|er|w|]; try done.
  split; [done|]. split; [done|]. cbn [sessions with_sessions]. rewrite lookup_insert_eq. split; [done|].
  intros Hne. rewrite lookup_insert_ne by done.
  set (t2 := with_sessions _ _). assert (retain_fresh now t2 !! old = None) as Hold.
  { destruct (retain_lookup now t2 old) as [H|H]; [done|]. rewrite H. unfold t2. cbn. apply lookup_delete_eq. }
  destruct (_ <=? _); [destruct (least_touched _ _) as [o|]|]; try done. rewrite lookup_delete. by case_decide.
Qed.
End Table.

Definition listed (m : gmap string Entry) : list (string * Entry) := map_to_list m.
Definition entropy_of (b : Z) : option (list Z) := Some (replicate 16 b).
Definition id_of (b : Z) : string := "s" +:+ String.concat "" (replicate 16 (hex_byte b)).
Definition sample_table : SessionTable := mkTable {[ id_of 1 := mkEntry {[ "user" := "ann" ]} 0 ]} 2 1000.

Definition sample_ops : list TableOp :=
  [Begin 1 None 0; Does_ 1 (Put "user" "ann" (entropy_of 1)) 0; Begin 2 (Some (id_of 1)) 5; Does_ 2 (Get "user") 6].
Lemma listed_all m k e : (k, e) ∈ listed m ↔ m !! k = Some e.
Proof. apply elem_of_map_to_list. Qed.

Lemma sessions_bounded_witness :
  (values <$> sessions (run_tables listed sample_ops (∅, mkTable ∅ 2 1000000)).2 !! id_of 1) = Some {[ "user" := "ann" ]} ∧
  let '(requests, t) := run_tables listed sample_ops (∅, mkTable ∅ 2 1000000) in
  table_ok t ∧ 1 ≤ 2 ≤ 10000 ∧
  ∀ request s op now i, requests !! request = Some s → sid s ≠ Some i → avoids i op →
    let t' := (run_table listed (Does_ request op now) (requests, t)).2 in
    sessions t' !! i = None ∨ sessions t' !! i = sessions t !! i.
Proof.
  split; [vm_compute; reflexivity|].
  exact (sessions_bounded listed listed_all 2 1 (mkTable ∅ 2 1000000) sample_ops eq_refl).
Defined.

Lemma session_rotated_witness :
  let s := mkState (Some (id_of 1)) Keep in
  let '(answer, s', t') := session_rotate listed None (entropy_of 2) 5 s sample_table in
  match new_session_id (entropy_of 2) with
  | Ok id => answer = Ok id ∧ s' = mkState (Some id) SetCookie ∧ values <$> sessions t' !! id = Some {[ "user" := "ann" ]} ∧
             (id ≠ id_of 1 → sessions t' !! id_of 1 = None)
  | _ => answer = Err "session entropy provider unavailable" ∧ s' = s
  end.
Proof.
  cbv zeta.
  exact (session_rotated listed None (entropy_of 2) 5 (mkState (Some (id_of 1)) Keep) sample_table (id_of 1) (mkEntry {[ "user" := "ann" ]} 0)
    eq_refl (lookup_singleton_eq _ _) eq_refl).
Defined.

(** A rotation that finds no entropy has already forgotten what the session held. *)
Example rotation_loses :
  let '(answer, _, t') := session_rotate listed None None 5 (mkState (Some (id_of 1)) Keep) sample_table in
  answer = Err "session entropy provider unavailable" ∧ sessions t' = ∅.
Proof. split; vm_compute; reflexivity. Qed.

(** ** The session store of a program ([SessionStore]) *)

Record SessionStore := mkStore { st_values : gmap string (string * Z); st_capacity : Z; st_idle : Z }.
Definition with_store (v : gmap string (string * Z)) (s : SessionStore) : SessionStore := mkStore v (st_capacity s) (st_idle s).

(** The idle time in nanoseconds *)
Definition new_store (capacity idle : Z) : res string SessionStore :=
  if negb (in_range 1 10000 capacity) then Err "invalid session capacity"
  else if negb (in_range 1 (30 * 60 * 1000000000) idle) then Err "invalid session idle timeout"
  else Ok (mkStore ∅ capacity idle).

Definition idle_for (now since : Z) : Z := Z.max 0 (now - since).

Section Store.
(** One of the entries touched least recently. *)
Variable oldest_of : gmap string (string * Z) → option string.

Definition store_create (value : string) (entropy : option (list Z)) (now : Z) (s : SessionStore) : res string string * SessionStore :=
  if 8192 <? str_len value then (Err "session value too large", s)
  else
    let kept := filter (fun '(_, (_, touched)) => (idle_for now touched <? st_idle s) = true) (st_values s) in
    let kept := if st_capacity s <=? Z.of_nat (size kept) then match oldest_of kept with Some o => delete o kept | None => kept end else kept in
    match new_session_id entropy with
    | Ok id => (Ok id, with_store (<[id := (value, now)]> kept) s)
    | r => (r, with_store kept s)
    end.

Definition store_get (id : string) (now : Z) (s : SessionStore) : option string * SessionStore :=
  match st_values s !! id with
  | Some (value, touched) =>
      if st_idle s <=? idle_for now touched then (None, with_store (delete id (st_values s)) s)
      else (Some value, with_store (<[id := (value, now)]> (st_values s)) s)
  | None => (None, s)
  end.

Definition store_set (id value : string) (now : Z) (s : SessionStore) : res string unit * SessionStore :=
  if 8192 <? str_len value then (Err "session value too large", s)
  else match st_values s !! id with
       | Some _ => (Ok tt, with_store (<[id := (value, now)]> (st_values s)) s)
       | None => (Err "session not found", s)
       end.

Definition store_rotate (id value : string) (entropy : option (list Z)) (now : Z) (s : SessionStore) : res string string * SessionStore :=
  let '(found, s) := store_get id now s in
  match found with
  | None => (Err "session not found", s)
  | Some _ => store_create value entropy now (with_store (delete id (st_values s)) s)
  end.

Definition store_delete (id : string) (s : SessionStore) : res string unit * SessionStore :=
  match st_values s !! id with
  | Some _ => (Ok tt, with_store (delete id (st_values s)) s)
  | None => (Err "session not found", s)
  end.
End Store.

(** A session that has been idle too long comes back by a write. *)
Example expired_revived :
  let s := mkStore {[ "s1" := ("old", 0) ]} 2 1000 in
  (store_get "s1" 5000 s).1 = None ∧
  (store_set "s1" "new" 5000 s).1 = Ok tt ∧ (store_get "s1" 5001 (store_set "s1" "new" 5000 s).2).1 = Some "new".
Proof. repeat split; vm_compute; reflexivity. Qed.
(** A rotation to a value that is too long has already forgotten the session. *)
Lemma rotation_forgets value entropy :
  8192 < str_len value →
  let '(answer, s') := store_rotate (fun _ => None) "s1" value entropy 5 (mkStore {[ "s1" := ("old", 0) ]} 2 1000) in
  answer = Err "session value too large" ∧ st_values s' = ∅.
Proof.
  intros Hv. unfold store_rotate, store_create. apply Z.ltb_lt in Hv.
  change (store_get "s1" 5 (mkStore {[ "s1" := ("old", 0) ]} 2 1000)) with (Some "old", mkStore (<["s1" := ("old", 5)]> {[ "s1" := ("old", 0) ]}) 2 1000).
  cbn iota. rewrite Hv. split; [done|]. vm_compute. reflexivity.
Qed.
