(* ===== verification/HttpDate.v ===== *)
(** * HttpDate: the dates of HTTP ([libraries/bn_web/src/web/static_files.rs])

    The fixed date format of RFC 7231 from seconds since 1970 and back. The
    arithmetic of the parser is that of [u32] and [i64], where an overflow is
    a panic. *)

From S2P Require Import Prelude Text Scalars Splits Civil Floats Literals.

#[local] Open Scope string_scope.
#[local] Open Scope Z_scope.

Definition DAYS : list string := ["Sun"; "Mon"; "Tue"; "Wed"; "Thu"; "Fri"; "Sat"].
Definition MONTHS : list string := ["Jan"; "Feb"; "Mar"; "Apr"; "May"; "Jun"; "Jul"; "Aug"; "Sep"; "Oct"; "Nov"; "Dec"].

(** The calendar date of a day: year, month and day. *)
Definition date_of (days : Z) : Z * Z * Z :=
  let days := days + 719468 in
  let era := Z.quot (if 0 <=? days then days else days - 146096) 146097 in
  let doe := days - era * 146097 in
  let yoe := (doe - doe / 1460 + doe / 36524 - doe / 146096) / 365 in
  let y := yoe + era * 400 in
  let doy := doe - (365 * yoe + yoe / 4 - yoe / 100) in
  let mp := (5 * doy + 2) / 153 in
  let d := doy - (153 * mp + 2) / 5 + 1 in
  let m := if mp <? 10 then mp + 3 else mp - 9 in
  (if m <=? 2 then y + 1 else y, m, d).

Definition http_parts (secs : Z) : list string :=
  let days := secs / 86400 in
  let day_secs := secs mod 86400 in
  let wday := ((days + 4) mod 7 + 7) mod 7 in
  let '(y, m, d) := date_of days in
  [default "" (DAYS !! Z.to_nat wday) +:+ ","; pad0 2 d; default "" (MONTHS !! Z.to_nat (m - 1)); pad0 4 y;
   pad0 2 (day_secs / 3600) +:+ ":" +:+ (pad0 2 (day_secs mod 3600 / 60) +:+ ":" +:+ pad0 2 (day_secs mod 60)); "GMT"].
Definition format_http_date (secs : Z) : string := join " " (http_parts secs).

(** Arithmetic with overflow checks. *)
Definition checked (lo hi v : Z) : res unit Z := if in_range lo hi v then Ok v else Panic "attempt to compute with overflow".
Definition as_u32 : Z → res unit Z := checked 0 u32_MAX.
Definition as_i64 : Z → res unit Z := checked i64_MIN i64_MAX.
Definition as_u64 : Z → res unit Z := checked 0 u64_MAX.

Definition month_position (s : string) : option Z := (fun p => Z.of_nat p.1) <$> list_find (fun m => m = s) MONTHS.

(** The seconds of a date and a time that were read. *)
Definition seconds_of (year m day hour minute second : Z) : res unit (option Z) :=
  y ← (if m <=? 2 then as_i64 (year - 1) else Ok year);
  y' ← (if 0 <=? y then Ok y else as_i64 (y - 399));
  let era := Z.quot y' 400 in
  let yoe := (y - era * 400) mod 2 ^ 32 in
  doy ← as_u32 ((153 * (if 2 <? m then m - 3 else m + 9) + 2) / 5 + day);
  doy ← as_u32 (doy - 1);
  doe ← as_u32 (yoe * 365 + yoe / 4 - yoe / 100 + doy);
  days ← as_i64 (era * 146097);
  days ← as_i64 (days + doe);
  days ← as_i64 (days - 719468);
  if days <? 0 then Ok None
  else
    total ← as_u64 (days * 86400);
    total ← as_u64 (total + hour * 3600);
    total ← as_u64 (total + minute * 60);
    total ← as_u64 (total + second);
    Ok (Some total).

(** [parse::<u32>()], [parse::<i64>()] *)
Definition parse_u32 (s : string) : option Z := from_str_radix 0 u32_MAX 10 s.
Definition parse_i64 (s : string) : option Z := from_str_radix i64_MIN i64_MAX 10 s.

(** The fields of a date, where every one is there. *)
Definition date_fields (s : string) : option (Z * Z * Z * Z * Z * Z) :=
  match map text_of (words_from [] (trim (chars s))) with
  | [_; day; month; year; time; "GMT"] =>
      day ← parse_u32 day; month ← month_position month; year ← parse_i64 year;
      match split ":" time with
      | [hour; minute; second] =>
          hour ← parse_u32 hour; minute ← parse_u32 minute; second ← parse_u32 second;
          Some (year, month + 1, day, hour, minute, second)
      | _ => None
      end
  | _ => None
  end.
Definition parse_http_date (s : string) : res unit (option Z) :=
  match date_fields s with
  | Some (year, m, day, hour, minute, second) => seconds_of year m day hour minute second
  | None => Ok None
  end.

Example dates : format_http_date 784111777 = "Sun, 06 Nov 1994 08:49:37 GMT" ∧
  parse_http_date " Sun, 06 Nov  1994 08:49:37 GMT" = Ok (Some 784111777) ∧ parse_http_date "Sun, 06 Nov 1969 08:49:37 GMT" = Ok None.
Proof. vm_compute. repeat split. Qed.
(** The header of a request makes the handler panic. *)
Example date_panics : parse_http_date "x 0 Mar 2020 0:0:0 GMT" = Panic "attempt to compute with overflow" ∧
  parse_http_date "x 1 Mar 9000000000000000000 0:0:0 GMT" = Panic "attempt to compute with overflow".
Proof. vm_compute. repeat split. Qed.

(** ** The calendar *)

Lemma date_of_parts era y doy : 0 ≤ era → 0 ≤ y < 400 → 0 ≤ doy < year_end y - year_start y →
  date_of (era * 146097 + (year_start y + doy) - 719468) =
  (y + era * 400 + Z.b2z (month_of (month_prime_of doy) <=? 2), month_of (month_prime_of doy), doy - (153 * month_prime_of doy + 2) / 5 + 1).
Proof.
  intros He Hy Hd. pose proof (year_start_range y Hy) as [Hs Hend]. unfold date_of.
  replace (_ - 719468 + 719468) with (era * 146097 + (year_start y + doy)) by lia.
  rewrite (proj2 (Z.leb_le 0 _)) by lia. rewrite Z.quot_div_nonneg by lia.
  assert ((era * 146097 + (year_start y + doy)) / 146097 = era) as -> by (Z.to_euclidean_division_equations; lia).
  replace (_ - era * 146097) with (year_start y + doy) by lia.
  fold (year_of (year_start y + doy)). rewrite (year_of_day y) by lia. fold (year_start y).
  replace (year_start y + doy - year_start y) with doy by lia. fold (month_prime_of doy). fold (month_of (month_prime_of doy)).
  destruct (month_of (month_prime_of doy) <=? 2); cbn [Z.b2z]; [done|]. by rewrite Z.add_0_r.
Qed.

Lemma checked_in lo hi v : lo ≤ v ≤ hi → checked lo hi v = Ok v.
Proof. intros H. unfold checked. by rewrite (proj2 (in_range_spec lo hi v)). Qed.

(** A date that was computed from a day gives the day again. *)
Lemma seconds_of_date era y doy hour minute second :
  0 ≤ era ≤ 2 ^ 40 → 0 ≤ y < 400 → 0 ≤ doy < year_end y - year_start y → 0 ≤ hour < 24 → 0 ≤ minute < 60 → 0 ≤ second < 60 →
  let days := era * 146097 + (year_start y + doy) - 719468 in
  let '(year, m, d) := date_of days in
  0 ≤ days → days * 86400 + hour * 3600 + minute * 60 + second ≤ u64_MAX →
  seconds_of year m d hour minute second = Ok (Some (days * 86400 + hour * 3600 + minute * 60 + second)).
Proof.
  intros He Hy Hd Hh Hm Hs. cbv zeta. rewrite date_of_parts by lia. pose proof (year_start_range y Hy) as [Hys Hye].
  pose proof (year_bounds y Hy) as (_ & _ & Hlen).
  assert (0 ≤ doy < 366) as Hdoy by (destruct (is_leap (y + 1)); lia).
  pose proof (month_table doy Hdoy) as (Hmon & Hidx & Hday & Hle & n & Hn & Hdn & _).
  set (m := month_of (month_prime_of doy)) in *. set (d := doy - (153 * month_prime_of doy + 2) / 5 + 1) in *.
  intros Hdays Hmax. unfold seconds_of.
  assert ((if m <=? 2 then as_i64 (y + era * 400 + Z.b2z (m <=? 2) - 1) else Ok (y + era * 400 + Z.b2z (m <=? 2))) = Ok (y + era * 400)) as ->.
  { destruct (m <=? 2); cbn [Z.b2z]; [unfold as_i64; rewrite checked_in by (unfold i64_MIN, i64_MAX; lia)|]; f_equal; lia. }
  cbn [mbind res_bind]. rewrite (proj2 (Z.leb_le 0 _)) by lia. cbn [mbind res_bind]. rewrite Z.quot_div_nonneg by lia.
  assert ((y + era * 400) / 400 = era) as -> by (Z.to_euclidean_division_equations; lia).
  replace (y + era * 400 - era * 400) with y by lia. rewrite Z.mod_small by lia.
  change (if 2 <? m then m - 3 else m + 9) with (month_index_of m). rewrite Hidx.
  replace ((153 * month_prime_of doy + 2) / 5 + d) with (doy + 1) by (unfold d; lia).
  unfold as_u32, as_i64, as_u64. rewrite (checked_in i64_MIN i64_MAX (era * 146097)) by (unfold i64_MIN, i64_MAX; lia).
  rewrite (checked_in 0 u32_MAX (doy + 1)) by (unfold u32_MAX; lia). cbn [mbind res_bind].
  replace (doy + 1 - 1) with doy by lia. rewrite (checked_in 0 u32_MAX doy) by (unfold u32_MAX; lia). cbn [mbind res_bind].
  replace (y * 365 + y / 4 - y / 100 + doy) with (year_start y + doy) by (unfold year_start; lia).
  rewrite (checked_in 0 u32_MAX (year_start y + doy)) by (unfold u32_MAX; lia). cbn [mbind res_bind].
  rewrite (checked_in i64_MIN i64_MAX (era * 146097 + _)) by (unfold i64_MIN, i64_MAX; lia). cbn [mbind res_bind].
  rewrite (checked_in i64_MIN i64_MAX (_ - 719468)) by (unfold i64_MIN, i64_MAX; lia). cbn [mbind res_bind].
  set (days := era * 146097 + (year_start y + doy) - 719468) in *. rewrite (proj2 (Z.ltb_ge days 0)) by lia.
  do 4 (rewrite checked_in by lia; cbn [mbind res_bind]). done.
Qed.

(** ** The text of a date is read back *)

Definition is_number (s : string) : Prop := s ≠ "" ∧ forallb is_ascii_digit (str_bytes s) = true.

Lemma digit_word c : is_ascii_digit c = true → word_byte c = true.
Proof. by destruct c as [[] [] [] [] [] [] [] []]. Qed.
Lemma digits_word s : forallb is_ascii_digit (str_bytes s) = true → Forall (fun c => word_byte c = true) (str_bytes s).
Proof.
  rewrite forallb_forall. intros H. apply list.Forall_forall. intros c Hc. apply digit_word, H. by apply list_elem_of_In.
Qed.
Lemma digits_no_colon s : forallb is_ascii_digit (str_bytes s) = true → contains_char ":" s = false.
Proof.
  unfold contains_char. induction (str_bytes s) as [|c l IH]; [done|]. cbn [forallb existsb]. intros [Hc Hl]%andb_prop.
  rewrite IH by done. rewrite orb_false_r. by destruct c as [[] [] [] [] [] [] [] []].
Qed.

Lemma zeros_digits k s : forallb is_ascii_digit (str_bytes s) = true →
  forallb is_ascii_digit (str_bytes (zeros k +:+ s)) = true ∧ digits_value 0 (zeros k +:+ s) = digits_value 0 s.
Proof. intros Hs. induction k as [|k IH]; [done|]. cbn [zeros]. rewrite str_cons_append. cbn. exact IH. Qed.

Lemma pad0_number w n : 0 ≤ n → is_number (pad0 w n) ∧ digits_value 0 (pad0 w n) = n.
Proof.
  intros Hn. unfold pad0, dec_of_Z. rewrite (proj2 (Z.ltb_ge n 0)) by done.
  pose proof (dec_digits_digits (dec_fuel n) n "" Hn eq_refl) as Hd. pose proof (dec_digits_correct n Hn) as Hv.
  destruct (dec_digits_cons n) as (c & s & E). rewrite E in *.
  set (k := (w - String.length (String c s))%nat). destruct (zeros_digits k (String c s) Hd) as [H1 H2].
  split; [|by rewrite H2]. split; [|done]. by destruct k.
Qed.

Lemma number_read lo hi w n : lo ≤ 0 → 0 ≤ n ≤ hi → from_str_radix lo hi 10 (pad0 w n) = Some n.
Proof.
  intros Hlo Hn. destruct (pad0_number w n ltac:(lia)) as [[Hne Hd] Hv]. destruct (pad0 w n) as [|c s]; [done|].
  rewrite from_str_radix_digits by (done || lia). by rewrite Hv.
Qed.

Lemma pad0_word w n : 0 ≤ n → is_word (pad0 w n).
Proof. intros Hn. destruct (pad0_number w n Hn) as [[Hne Hd] _]. split; [done|by apply digits_word]. Qed.

Lemma word_append a b : is_word a → Forall (fun c => word_byte c = true) (str_bytes b) → is_word (a +:+ b).
Proof.
  intros [Ha Hw] Hb. split; [by destruct a|]. rewrite str_bytes_append. by apply Forall_app.
Qed.

Lemma month_read k : 0 ≤ k < 12 → is_word (default "" (MONTHS !! Z.to_nat k)) ∧ month_position (default "" (MONTHS !! Z.to_nat k)) = Some k.
Proof.
  intros Hk. assert (k ∈ [0; 1; 2; 3; 4; 5; 6; 7; 8; 9; 10; 11]) as Hin.
  { assert (k = 0 ∨ k = 1 ∨ k = 2 ∨ k = 3 ∨ k = 4 ∨ k = 5 ∨ k = 6 ∨ k = 7 ∨ k = 8 ∨ k = 9 ∨ k = 10 ∨ k = 11) as H by lia.
    rewrite !elem_of_cons. tauto. }
  assert (Forall (fun k => is_word (default "" (MONTHS !! Z.to_nat k)) ∧ month_position (default "" (MONTHS !! Z.to_nat k)) = Some k)
    [0; 1; 2; 3; 4; 5; 6; 7; 8; 9; 10; 11]) as Hall.
  { repeat (constructor; [split; [by apply word_checked|reflexivity]|]). constructor. }
  by eapply (proj1 (list.Forall_forall _ _) Hall).
Qed.

Lemma weekday_word k : 0 ≤ k < 7 → is_word (default "" (DAYS !! Z.to_nat k) +:+ ",").
Proof.
  intros Hk. assert (k = 0 ∨ k = 1 ∨ k = 2 ∨ k = 3 ∨ k = 4 ∨ k = 5 ∨ k = 6) as H by lia.
  apply word_checked. repeat (destruct H as [->|H]; [reflexivity|]). by subst k.
Qed.

Lemma time_split h m s : 0 ≤ h → 0 ≤ m → 0 ≤ s →
  split ":" (pad0 2 h +:+ ":" +:+ (pad0 2 m +:+ ":" +:+ pad0 2 s)) = [pad0 2 h; pad0 2 m; pad0 2 s].
Proof.
  intros Hh Hm Hs. assert (∀ n, 0 ≤ n → contains_char ":" (pad0 2 n) = false) as H.
  { intros n Hn. apply digits_no_colon. by apply pad0_number. }
  rewrite (str_cons_append ":" ""), str_nil_append, split_append by auto.
  rewrite (str_cons_append ":" ""), str_nil_append, split_append by auto. by rewrite split_free by auto.
Qed.

(** The days and the seconds of a day of a time stamp. *)
Lemma time_parts secs : 0 ≤ secs →
  let day := secs mod 86400 in
  0 ≤ day / 3600 < 24 ∧ 0 ≤ day mod 3600 / 60 < 60 ∧ 0 ≤ day mod 60 < 60 ∧
  secs / 86400 * 86400 + day / 3600 * 3600 + day mod 3600 / 60 * 60 + day mod 60 = secs.
Proof. intros Hs. cbv zeta. Z.to_euclidean_division_equations. lia. Qed.

(** A date that is printed is read back, for every number of seconds of 64
    bits and without an overflow. *)
Lemma http_date_read_back secs : 0 ≤ secs ≤ u64_MAX → parse_http_date (format_http_date secs) = Ok (Some secs).
Proof.
  intros Hs. set (days := secs / 86400). assert (0 ≤ days) as Hdays by (apply Z.div_pos; lia).
  set (z := days + 719468). destruct (year_exists (z mod 146097)) as (y & Hy & Hd); [apply Z.mod_pos_bound; lia|].
  set (doy := z mod 146097 - year_start y). set (era := z / 146097).
  pose proof (time_parts secs ltac:(lia)) as (Hh & Hm & Hsec & Hsum). cbv zeta in *. fold days in Hsum.
  assert (0 ≤ era ≤ 2 ^ 40) as He.
  { unfold era, z, days, u64_MAX in *. clear Hy Hd. Z.to_euclidean_division_equations. lia. }
  assert (days = era * 146097 + (year_start y + doy) - 719468) as Ez.
  { unfold doy, era. pose proof (Z.div_mod z 146097 ltac:(lia)). unfold z in *. lia. }
  assert (0 ≤ doy < year_end y - year_start y) as Hdoy by (unfold doy; lia).
  pose proof (seconds_of_date era y doy _ _ _ He Hy Hdoy Hh Hm Hsec) as Hback. cbv zeta in Hback. rewrite <- Ez in Hback.
  assert (∃ year m d, date_of days = (year, m, d) ∧ 0 ≤ year ≤ i64_MAX ∧ 1 ≤ m ≤ 12 ∧ 1 ≤ d ≤ 400) as (year & m & d & Hdate & Hyear & Hmon & Hday).
  { pose proof (year_start_range y Hy) as [Hys Hye]. pose proof (year_bounds y Hy) as (_ & _ & Hlen).
    assert (0 ≤ doy < 366) as H366 by (destruct (is_leap (y + 1)); lia). pose proof (month_table doy H366) as (H1 & _ & H2 & _).
    eexists _, _, _. split; [rewrite Ez at 1; apply date_of_parts; [apply He|done|done]|]. split; [|split; [done|]].
    - unfold i64_MAX. destruct (_ <=? 2); cbn [Z.b2z]; lia.
    - split; [done|]. assert (0 ≤ month_prime_of doy) by (unfold month_prime_of; apply Z.div_pos; lia).
      assert (0 ≤ (153 * month_prime_of doy + 2) / 5) by (apply Z.div_pos; lia). lia. }
  rewrite Hdate in Hback. specialize (Hback Hdays ltac:(lia)). rewrite Hsum in Hback. rewrite <- Hback.
  unfold parse_http_date. assert (date_fields (format_http_date secs) =
    Some (year, m, d, secs mod 86400 / 3600, secs mod 86400 mod 3600 / 60, secs mod 86400 mod 60)) as ->; [|done].
  unfold date_fields, format_http_date. pose proof (month_read (m - 1) ltac:(lia)) as [Hmw Hmp].
  rewrite words_read_back; unfold http_parts; fold days; rewrite Hdate; [|done|].
  - rewrite (number_read 0 u32_MAX) by (unfold u32_MAX; lia). cbn [mbind option_bind]. rewrite Hmp. cbn [mbind option_bind].
    unfold parse_i64. rewrite number_read by (unfold i64_MIN; lia). cbn [mbind option_bind]. rewrite time_split by lia.
    unfold parse_u32. rewrite !number_read by (unfold u32_MAX; lia). cbn [mbind option_bind]. do 6 f_equal. lia.
  - repeat (apply list.Forall_cons; split).
    + apply weekday_word. Z.to_euclidean_division_equations. lia.
    + apply pad0_word. lia.
    + done.
    + apply pad0_word. lia.
    + apply word_append; [apply pad0_word; lia|]. change (":" +:+ ?x) with (String ":" x). cbn [str_bytes].
      assert (∀ n, 0 ≤ n → Forall (λ c, word_byte c = true) (str_bytes (pad0 2 n))) as Hp by (intros n Hn; by apply pad0_word).
      constructor; [done|]. rewrite str_bytes_append. apply Forall_app. split; [apply Hp; lia|]. cbn [str_bytes]. constructor; [done|apply Hp; lia].
    + by apply word_checked.
    + constructor.
Qed.
