(* ===== verification/StaticFiles.v ===== *)
(** * StaticFiles: files that a web server serves ([libraries/bn_web/src/web/static_files.rs], [server.rs], [http.rs])

    Mounts and their order, the sanitization of a path, the file that is
    opened, conditional requests, and how a request is answered when no route
    matches. *)

From S2P Require Import Prelude Text Scalars Splits Limits Addresses Targets Routing HttpDate.

#[local] Open Scope string_scope.
#[local] Open Scope Z_scope.

(** A path in its components, the root first. *)
Abbreviation Path := (list string).

Record StaticMount := mkMount { m_prefix : string; m_directory : Path; m_root : Path }.

(** [trim_start_matches(c)], [trim_end_matches(c)] *)
Fixpoint trim_start_char (c : ascii) (s : string) : string :=
  match s with String d r => if Ascii.eqb d c then trim_start_char c r else s | EmptyString => "" end.
Definition trim_end_char (c : ascii) (s : string) : string := str_rev (trim_start_char c (str_rev s "")) "".

(** [StaticMount::new]; [canonicalize] and [is_dir] are the file system's. *)
Definition new_mount (canonicalize : string → option Path) (is_dir : Path → bool) (components : string → Path) (prefix directory : string) :
  res string StaticMount :=
  if String.eqb prefix "" || negb (starts_with "/" prefix) then Err "prefix must start with /"
  else if String.eqb directory "" then Err "directory cannot be empty"
  else
    root ← ok_or "static directory not found or invalid" (canonicalize directory);
    if negb (is_dir root) then Err "static path is not a directory"
    else Ok (mkMount (if String.eqb prefix "/" then "/" else trim_end_char "/" prefix) (components directory) root).

Definition match_path (m : StaticMount) (path : string) : option string :=
  if String.eqb (m_prefix m) "/" then Some (default path (strip_prefix "/" path))
  else if String.eqb path (m_prefix m) then Some ""
  else strip_prefix (m_prefix m +:+ "/") path.

(** The mounts with the longest prefix first; a new one after those as long. *)
Fixpoint insert_mount (m : StaticMount) (l : list StaticMount) : list StaticMount :=
  match l with
  | [] => [m]
  | n :: l => if str_len (m_prefix n) <? str_len (m_prefix m) then m :: n :: l else n :: insert_mount m l
  end.
Fixpoint match_static_mount (mounts : list StaticMount) (path : string) : option (StaticMount * string) :=
  match mounts with
  | [] => None
  | m :: mounts => match match_path m path with Some sub => Some (m, sub) | None => match_static_mount mounts path end
  end.

(** ** Sanitization *)

Inductive SanitizationError := BadPath (why : string) | Hidden.

(** [raw.contains(text)] *)
Fixpoint contains_text (p s : string) : bool :=
  starts_with p s || match s with String _ s => contains_text p s | EmptyString => false end.

Definition NUL : string := String (byte_of 0) "".

(** [trimmed.split(['/', '\\'])] *)
Definition split_separators (s : string) : list string := concat (map (split "\") (split "/" s)).

Fixpoint clean_segments (segments : list string) : res SanitizationError Path :=
  match segments with
  | [] => Ok []
  | segment :: segments =>
      if String.eqb segment "" then clean_segments segments
      else if String.eqb segment ".." then Err (BadPath "path traversal is rejected")
      else if String.eqb segment "." then clean_segments segments
      else if starts_with "." segment then Err Hidden
      else if contains_char ":" segment then Err (BadPath "invalid path segment")
      else clean ← clean_segments segments; Ok (segment :: clean)
  end.

Definition sanitize_subpath (raw_target subpath : string) : res SanitizationError Path :=
  if contains_text "%2f" raw_target || contains_text "%2F" raw_target || contains_text "%5c" raw_target || contains_text "%5C" raw_target
     || contains_text NUL raw_target || contains_text "%00" raw_target
  then Err (BadPath "encoded separator or NUL is rejected")
  else
    let trimmed := trim_start_char "/" subpath in
    if String.eqb trimmed "" then Ok ["index.html"]
    else clean ← clean_segments (split_separators trimmed);
         Ok match clean with [] => ["index.html"] | _ => clean end.

Example sanitized :
  sanitize_subpath "/a/b" "a/b" = Ok ["a"; "b"] ∧ sanitize_subpath "/a/../b" "a/../b" = Err (BadPath "path traversal is rejected") ∧
  sanitize_subpath "/.git/x" ".git/x" = Err Hidden ∧ sanitize_subpath "/a%2Fb" "a/b" = Err (BadPath "encoded separator or NUL is rejected") ∧
  sanitize_subpath "/./" "./" = Ok ["index.html"].
Proof. vm_compute. repeat split. Qed.

(** ** Content types *)

(** [path.extension()] of the last component, in lower case. *)
Definition extension (path : Path) : option string :=
  name ← list.last path;
  '(stem, ext) ← rsplit_once "." name;
  if String.eqb stem "" then None else if is_utf8 ext then Some (to_ascii_lowercase ext) else None.

Definition MIME : list (string * string) :=
  [("html", "text/html; charset=utf-8"); ("htm", "text/html; charset=utf-8"); ("css", "text/css; charset=utf-8");
   ("js", "application/javascript; charset=utf-8"); ("mjs", "application/javascript; charset=utf-8"); ("json", "application/json");
   ("txt", "text/plain; charset=utf-8"); ("text", "text/plain; charset=utf-8"); ("log", "text/plain; charset=utf-8");
   ("png", "image/png"); ("jpg", "image/jpeg"); ("jpeg", "image/jpeg"); ("gif", "image/gif"); ("svg", "image/svg+xml");
   ("ico", "image/x-icon"); ("webp", "image/webp"); ("wasm", "application/wasm"); ("pdf", "application/pdf"); ("xml", "application/xml");
   ("zip", "application/zip"); ("gz", "application/gzip"); ("tar", "application/x-tar"); ("mp3", "audio/mpeg"); ("mp4", "video/mp4");
   ("woff", "font/woff"); ("woff2", "font/woff2"); ("ttf", "font/ttf")].
Definition mime_type_for_path (path : Path) : string :=
  default "application/octet-stream" (ext ← extension path; find_pair ext MIME).

(** ** Serving *)

Record StaticFileContent := mkContent { f_bytes : list ascii; mtime_secs : Z }.
Inductive StaticFileError := FileNotFound | FileForbidden | FileTooLarge | FileIo (why : string).

Inductive StaticServeOutcome :=
| Served (content_type : string) (content_length : Z) (etag last_modified : string) (body : list ascii)
| NotModified (etag last_modified : string)
| MethodRefused
| BadRequest (why : string)
| PayloadTooLarge
| StaticNotFound
| Forbidden
| InternalError (why : string).

(** [SystemFileOpener::read_file]; [metadata] gives whether it is a file, its
    length and its time; [read] its bytes. *)
Definition system_read_file (metadata : Path → res StaticFileError (bool * Z * Z)) (read : Path → res string (list ascii))
  (path : Path) (max_bytes : Z) : res StaticFileError StaticFileContent :=
  '(is_file, len, mtime) ← metadata path;
  if negb is_file then Err FileNotFound
  else if max_bytes <? len then Err FileTooLarge
  else match read path with
       | Ok bytes => Ok (mkContent bytes mtime)
       | Err e => Err (FileIo e)
       | Panic w => Panic w
       | Fuel => Fuel
       end.

Definition hex_digit (d : Z) : ascii := hex_char d.
Fixpoint hex_digits (fuel : nat) (n : Z) (acc : string) : string :=
  match fuel with
  | O => acc
  | S fuel => let acc := String (hex_digit (n mod 16)) acc in if n / 16 =? 0 then acc else hex_digits fuel (n / 16) acc
  end.
(** [{:x}] *)
Definition hex_of (n : Z) : string := hex_digits (dec_fuel n) n "".
Definition etag_of (c : StaticFileContent) : string :=
  QUOTE +:+ hex_of (Z.of_nat (length (f_bytes c))) +:+ "-" +:+ hex_of (mtime_secs c) +:+ QUOTE.

(** [path.starts_with(root)], by components *)
Fixpoint within (root path : Path) : bool :=
  match root, path with
  | [], _ => true
  | r :: root, p :: path => String.eqb r p && within root path
  | _ :: _, [] => false
  end.

Inductive CanonicalError := NoSuchFile | NoPermission | OtherError (why : string).

Section Serve.
(** The file system: the canonical path, whether a path is a directory, and
    the opener of the program. *)
Variable canonicalize : Path → CanonicalError + Path.
Variable is_dir : Path → bool.
Variable read_file : Path → Z → res StaticFileError StaticFileContent.

(** The outcome for a file that was opened. *)
Definition conditional (method : string) (if_none_match if_modified_since : option string) (canonical : Path) (c : StaticFileContent) : res unit StaticServeOutcome :=
  let etag := etag_of c in
  let last_modified := format_http_date (mtime_secs c) in
  unmodified ← match if_none_match with
               | Some inm => Ok (existsb (fun item => String.eqb (trim_text item) "*" || String.eqb (trim_text item) etag) (split "," inm))
               | None =>
                   match if_modified_since with
                   | Some ims => time ← parse_http_date ims; Ok match time with Some t => mtime_secs c <=? t | None => false end
                   | None => Ok false
                   end
               end;
  if (unmodified : bool) then Ok (NotModified etag last_modified)
  else Ok (Served (mime_type_for_path canonical) (Z.of_nat (length (f_bytes c))) etag last_modified
             (if String.eqb method "HEAD" then [] else f_bytes c)).

(** [serve_static_file], with the paths it opens *)
Definition serve_static_file (mount : StaticMount) (raw_target subpath method : string) (if_none_match if_modified_since : option string)
  (max_body_bytes : Z) : list Path * res unit StaticServeOutcome :=
  if negb (String.eqb method "GET") && negb (String.eqb method "HEAD") then ([], Ok MethodRefused)
  else match sanitize_subpath raw_target subpath with
       | Err (BadPath why) => ([], Ok (BadRequest why))
       | Err Hidden => ([], Ok StaticNotFound)
       | Panic w => ([], Panic w)
       | Fuel => ([], Fuel)
       | Ok sanitized =>
           let candidate := (m_directory mount ++ sanitized)%list in
           let candidate := if is_dir candidate then (candidate ++ ["index.html"])%list else candidate in
           match canonicalize candidate with
           | inl NoSuchFile => ([], Ok StaticNotFound)
           | inl NoPermission => ([], Ok Forbidden)
           | inl (OtherError why) => ([], Ok (InternalError why))
           | inr canonical =>
               if negb (within (m_root mount) canonical) then ([], Ok StaticNotFound)
               else
                 ([canonical],
                  match read_file canonical max_body_bytes with
                  | Ok c => conditional method if_none_match if_modified_since canonical c
                  | Err FileNotFound => Ok StaticNotFound
                  | Err FileForbidden => Ok Forbidden
                  | Err FileTooLarge => Ok PayloadTooLarge
                  | Err (FileIo why) => Ok (InternalError why)
                  | Panic w => Panic w
                  | Fuel => Fuel
                  end)
           end
       end.

(** ** What is opened, and what is answered *)

Lemma within_spec root path : within root path = true ↔ ∃ rest, path = (root ++ rest)%list.
Proof.
  revert path. induction root as [|r root IH]; intros [|p path]; cbn [within app]; try (split; [by eauto|done]).
  - split; [done|]. by intros [rest H].
  - rewrite andb_true_iff, String.eqb_eq, IH. split.
    + intros [-> [rest ->]]. by exists rest.
    + intros [rest [= -> ->]]. eauto.
Qed.

(** A name that may be opened below the directory of a mount. *)
Definition plain_name (s : string) : Prop :=
  s ≠ "" ∧ starts_with "." s = false ∧ contains_char "/" s = false ∧ contains_char "\" s = false ∧ contains_char ":" s = false.

Lemma split_pieces_free c s : Forall (fun p => contains_char c p = false) (split c s).
Proof.
  induction s as [|d s IH]; [by repeat constructor|]. cbn [split]. destruct (Ascii.eqb d c) eqn:E; [by constructor|].
  destruct (split c s) as [|w ws]; [repeat constructor; by rewrite contains_char_cons, Ascii.eqb_sym, E|].
  apply list.Forall_cons in IH as [Hw Hws]. constructor; [|done]. by rewrite contains_char_cons, Ascii.eqb_sym, E.
Qed.
Lemma split_pieces_keep c d s : contains_char d s = false → Forall (fun p => contains_char d p = false) (split c s).
Proof.
  induction s as [|e s IH]; [by repeat constructor|]. rewrite contains_char_cons, orb_false_iff. intros [He Hs]. specialize (IH Hs).
  cbn [split]. destruct (Ascii.eqb e c); [by constructor|].
  destruct (split c s) as [|w ws]; [repeat constructor; by rewrite contains_char_cons, He|].
  apply list.Forall_cons in IH as [Hw Hws]. constructor; [|done]. by rewrite contains_char_cons, He.
Qed.
Lemma separators_free s : Forall (fun p => contains_char "/" p = false ∧ contains_char "\" p = false) (split_separators s).
Proof.
  unfold split_separators. pose proof (split_pieces_free "/" s) as H. induction H as [|p l Hp _ IH]; [constructor|].
  cbn [map concat]. apply Forall_app. split; [|exact IH].
  pose proof (split_pieces_keep "\" "/" p Hp) as H1. pose proof (split_pieces_free "\" p) as H2.
  apply list.Forall_forall. intros q Hq. split; [by eapply (proj1 (list.Forall_forall _ _) H1)|by eapply (proj1 (list.Forall_forall _ _) H2)].
Qed.

Lemma clean_segments_plain l : Forall (fun p => contains_char "/" p = false ∧ contains_char "\" p = false) l →
  ∀ clean, clean_segments l = Ok clean → Forall plain_name clean.
Proof.
  induction 1 as [|s l [H1 H2] _ IH]; intros clean; cbn [clean_segments]; [intros [= <-]; constructor|].
  destruct (String.eqb_spec s ""); [apply IH|]. destruct (String.eqb s ".."); [done|]. destruct (String.eqb s "."); [apply IH|].
  destruct (starts_with "." s) eqn:Hd; [done|]. destruct (contains_char ":" s) eqn:Hc; [done|].
  destruct (clean_segments l) as [c|e|w|]; cbn [mbind res_bind]; try done. intros [= <-]. constructor; [by repeat split|by apply IH].
Qed.

Lemma sanitize_plain raw sub path : sanitize_subpath raw sub = Ok path → path ≠ [] ∧ Forall plain_name path.
Proof.
  unfold sanitize_subpath. destruct (_ || _); [done|].
  assert (plain_name "index.html") as Hindex by (repeat split; done).
  destruct (String.eqb _ ""); [intros [= <-]; split; [done|by constructor]|].
  destruct (clean_segments _) as [clean|e|w|] eqn:Hc; cbn [mbind res_bind]; try done. intros [= <-].
  apply clean_segments_plain in Hc; [|apply separators_free]. destruct clean; [split; [done|by constructor]|done].
Qed.

(** C25: Whatever is asked and wherever links lead: the server opens at most one
    file for it, for GET and HEAD only, and that file is below the root of the
    mount; it was asked for by names below the directory none of which is
    hidden, a step up, or holds a separator or a colon. What is served is what
    the opener read: all of its bytes, their number and its type, and no body
    for a HEAD. *)
Theorem static_stays_inside mount raw sub method inm ims max :
  let '(opened, outcome) := serve_static_file mount raw sub method inm ims max in
  (∀ p, p ∈ opened → opened = [p] ∧ (method = "GET" ∨ method = "HEAD") ∧ (∃ rest, p = (m_root mount ++ rest)%list) ∧
     ∃ names, names ≠ [] ∧ Forall plain_name names ∧
       (canonicalize (m_directory mount ++ names)%list = inr p ∨
        is_dir (m_directory mount ++ names)%list = true ∧ canonicalize ((m_directory mount ++ names) ++ ["index.html"])%list = inr p)) ∧
  match outcome with
  | Ok (Served type len etag last_modified body) =>
      ∃ p c, opened = [p] ∧ read_file p max = Ok c ∧ len = Z.of_nat (length (f_bytes c)) ∧ type = mime_type_for_path p ∧
        etag = etag_of c ∧ last_modified = format_http_date (mtime_secs c) ∧ body = (if String.eqb method "HEAD" then [] else f_bytes c)
  | Ok (NotModified etag last_modified) =>
      ∃ p c, opened = [p] ∧ read_file p max = Ok c ∧ etag = etag_of c ∧ last_modified = format_http_date (mtime_secs c)
  | _ => True
  end.
Proof.
  unfold serve_static_file. assert (∀ p : Path, p ∈ [] → False) as Hnone by (by intros p ?%not_elem_of_nil).
  destruct (negb (String.eqb method "GET") && negb (String.eqb method "HEAD")) eqn:Hm; [split; [intros p Hp; by destruct (Hnone p Hp)|done]|].
  assert (method = "GET" ∨ method = "HEAD") as Hmethod.
  { apply andb_false_iff in Hm. rewrite !negb_false_iff, !String.eqb_eq in Hm. done. }
  destruct (sanitize_subpath raw sub) as [names|[why|]|w|] eqn:Hs; try (split; [intros p Hp; by destruct (Hnone p Hp)|done]).
  apply sanitize_plain in Hs as [Hne Hplain]. set (candidate := if is_dir _ then _ else _).
  destruct (canonicalize candidate) as [[]|canonical] eqn:Hc; try (split; [intros p Hp; by destruct (Hnone p Hp)|done]).
  destruct (within (m_root mount) canonical) eqn:Hw; cbn [negb]; [|split; [intros p Hp; by destruct (Hnone p Hp)|done]].
  apply within_spec in Hw. split.
  - intros p ->%list_elem_of_singleton. split; [done|]. split; [done|]. split; [done|]. exists names. split; [done|]. split; [done|].
    unfold candidate in Hc. destruct (is_dir (m_directory mount ++ names)%list); auto.
  - destruct (read_file canonical max) as [c|[]|w|] eqn:Hr; try done. unfold conditional.
    destruct (match inm with Some _ => _ | None => _ end) as [[]|e|w|]; cbn [mbind res_bind]; try done;
      (exists canonical, c; by repeat split).
Qed.

(** An entity tag is one word without a comma. *)
Definition tag_byte (c : ascii) : bool := word_byte c && negb (Ascii.eqb c ",").

Lemma hex_tag d : 0 ≤ d < 16 → tag_byte (hex_digit d) = true.
Proof.
  intros Hd. assert (holds_below 16 (λ d, tag_byte (hex_digit d)) 0 = true) as H by (vm_compute; reflexivity).
  apply (holds_below_spec _ _ _ H). lia.
Qed.
Lemma hex_of_tag n : Forall (fun c => tag_byte c = true) (str_bytes (hex_of n)).
Proof.
  unfold hex_of. generalize (dec_fuel n). intros fuel. assert (Forall (λ c, tag_byte c = true) (str_bytes "")) as Hacc by constructor.
  revert n Hacc. generalize "". induction fuel as [|fuel IH]; intros acc n Hacc; [done|]. cbn [hex_digits].
  assert (Forall (λ c, tag_byte c = true) (str_bytes (String (hex_digit (n mod 16)) acc))) as Hc.
  { constructor; [|done]. apply hex_tag, Z.mod_pos_bound. lia. }
  destruct (n / 16 =? 0); [done|by apply IH].
Qed.

Lemma etag_tag c : Forall (fun c => tag_byte c = true) (str_bytes (etag_of c)).
Proof.
  unfold etag_of. rewrite !str_bytes_append. repeat (apply Forall_app; split); try apply hex_of_tag; repeat constructor.
Qed.
Lemma etag_word c : is_word (etag_of c).
Proof.
  split; [by unfold etag_of|]. eapply list.Forall_impl; [apply etag_tag|]. intros b Hb. by apply andb_prop in Hb as [Hb _].
Qed.
Lemma etag_alone c : split "," (etag_of c) = [etag_of c] ∧ trim_text (etag_of c) = etag_of c.
Proof.
  split.
  - apply split_free. unfold contains_char. pose proof (etag_tag c) as H. induction H as [|b l Hb _ IH]; [done|].
    cbn [existsb]. rewrite IH, orb_false_r. apply andb_prop in Hb as [_ Hb]. apply negb_true_iff in Hb. by rewrite Ascii.eqb_sym.
  - pose proof (etag_word c) as Hw. unfold trim_text. rewrite chars_singles by by apply word_single.
    by rewrite (trim_word _ Hw), text_of_singles.
Qed.

(** A client that asks again gets no second copy: while the file is as it
    was, a request with the entity tag or with the date of the answer it had
    is answered [304] with the same tag and date, whatever the date is. *)
Theorem revalidation mount raw sub method max opened type len etag last_modified body :
  (∀ p c, read_file p max = Ok c → 0 ≤ mtime_secs c ≤ u64_MAX) →
  serve_static_file mount raw sub method None None max = (opened, Ok (Served type len etag last_modified body)) →
  (∀ ims, serve_static_file mount raw sub method (Some etag) ims max = (opened, Ok (NotModified etag last_modified))) ∧
  serve_static_file mount raw sub method None (Some last_modified) max = (opened, Ok (NotModified etag last_modified)).
Proof.
  intros Htime. unfold serve_static_file. destruct (_ && _); [done|].
  destruct (sanitize_subpath raw sub) as [names|[why|]|w|]; try done. destruct (canonicalize _) as [[]|canonical]; try done.
  destruct (negb (within (m_root mount) canonical)); [done|]. destruct (read_file canonical max) as [c|[]|w|] eqn:Hr; try done.
  unfold conditional at 1. cbn [mbind res_bind]. intros [= <- _ _ <- <- _]. split.
  - intros ims. unfold conditional. destruct (etag_alone c) as [Hs Ht]. rewrite Hs. cbn [existsb mbind res_bind].
    by rewrite Ht, String.eqb_refl, orb_true_r.
  - unfold conditional. rewrite http_date_read_back by by eapply Htime. cbn [mbind res_bind]. by rewrite Z.leb_refl.
Qed.
End Serve.

Definition sample_mount : StaticMount := mkMount "/files" ["/"; "srv"] ["/"; "data"].
(** [/srv] is a link to [/data]; [up] in it leads out. *)
Definition sample_canonical (p : Path) : CanonicalError + Path :=
  match p with
  | "/" :: "srv" :: "up" :: _ => inr ["/"; "etc"]
  | "/" :: "srv" :: rest => inr ("/" :: "data" :: rest)
  | _ => inl NoSuchFile
  end.
Definition sample_read (p : Path) (max : Z) : res StaticFileError StaticFileContent := Ok (mkContent (str_bytes "hello") 784111777).

Example served :
  serve_static_file sample_canonical (fun _ => false) sample_read sample_mount "/files/a.html" "a.html" "GET" None None 100
  = ([["/"; "data"; "a.html"]],
     Ok (Served "text/html; charset=utf-8" 5 (QUOTE +:+ "5-2ebc98a1" +:+ QUOTE) "Sun, 06 Nov 1994 08:49:37 GMT" (str_bytes "hello"))) ∧
  serve_static_file sample_canonical (fun _ => false) sample_read sample_mount "/files/up" "up" "GET" None None 100 = ([], Ok StaticNotFound).
Proof. split; vm_compute; reflexivity. Qed.

Lemma revalidation_witness :
  (∀ ims, serve_static_file sample_canonical (fun _ => false) sample_read sample_mount "/files/a.html" "a.html" "GET" (Some (QUOTE +:+ "5-2ebc98a1" +:+ QUOTE)) ims 100
     = ([["/"; "data"; "a.html"]], Ok (NotModified (QUOTE +:+ "5-2ebc98a1" +:+ QUOTE) "Sun, 06 Nov 1994 08:49:37 GMT"))) ∧
  serve_static_file sample_canonical (fun _ => false) sample_read sample_mount "/files/a.html" "a.html" "GET" None (Some "Sun, 06 Nov 1994 08:49:37 GMT") 100
     = ([["/"; "data"; "a.html"]], Ok (NotModified (QUOTE +:+ "5-2ebc98a1" +:+ QUOTE) "Sun, 06 Nov 1994 08:49:37 GMT")).
Proof.
  apply (revalidation sample_canonical (fun _ => false) sample_read sample_mount "/files/a.html" "a.html" "GET" 100 _
    "text/html; charset=utf-8" 5 _ _ (str_bytes "hello")).
  - unfold sample_read. intros p c [= <-]. cbn. unfold u64_MAX. lia.
  - vm_compute. reflexivity.
Defined.
