(* ===== verification/WebAnswer.v ===== *)
(** * WebAnswer: one request of a web server from its bytes to its answer ([libraries/bn_web/src/http.rs])

    The checks before a request exists, its dispatch, its session, the handler
    on a queue or in its turn or the file that answers it, and the answer when
    there is neither.  The server is shared: before each thing the request does
    to it the other threads do theirs. *)

From S2P Require Import Prelude Text Scalars Splits Limits Addresses Targets WebCookies WebSessions Routing Limiter WebLife HttpDate StaticFiles.

#[local] Open Scope string_scope.
#[local] Open Scope Z_scope.

(** How the body of a request arrived. *)
Inductive Arrival := Arrived (bytes : list ascii) | Broken | TooLate.

(** What the transport gives: header values are bytes; the URI's text, and its
    path and query. *)
Record Incoming := mkIncoming {
  i_method : string;
  i_uri : string;
  i_target : string;
  i_headers : list (string * list ascii);
  i_body : Arrival;
  i_peer : option IpAddr;
}.

Record Reply := mkReply { status_code : Z; reply_headers : Headers; reply_body : list ascii }.

Definition response_with_allow (status : Z) (body : string) (allow : option string) : Reply :=
  mkReply status (("content-length", dec_of_Z (str_len body)) :: match allow with Some a => [("allow", a)] | None => [] end) (str_bytes body).
Definition response (status : Z) (body : string) : Reply := response_with_allow status body None.
Definition response_with_retry_after (status : Z) (body : string) (retry_after : Z) : Reply :=
  mkReply status [("content-length", dec_of_Z (str_len body)); ("retry-after", dec_of_Z retry_after)] (str_bytes body).

Definition route_status (method : string) (outcome : RouteOutcome) : Z * option string :=
  match outcome with
  | Matched _ _ => (200, None)
  | MethodNotAllowed methods => (if String.eqb method "OPTIONS" then 204 else 405, Some (join ", " methods))
  | NotFound => (404, None)
  end.

(** [static_outcome_to_response] *)
Definition static_reply (outcome : StaticServeOutcome) : Reply :=
  match outcome with
  | Served type len etag last_modified body =>
      mkReply 200 [("content-type", type); ("content-length", dec_of_Z len); ("etag", etag); ("last-modified", last_modified)] body
  | NotModified etag last_modified => mkReply 304 [("etag", etag); ("last-modified", last_modified)] []
  | MethodRefused => response_with_allow 405 "method not allowed" (Some "GET, HEAD")
  | BadRequest why => response 400 why
  | PayloadTooLarge => response 413 "static file exceeds configured body limit"
  | StaticNotFound => response 404 "not found"
  | Forbidden => response 403 "forbidden"
  | InternalError _ => response 500 "internal server error"
  end.

Section Answer.
(** [HeaderValue::to_str], whether the builder of hyper takes a response, and the
    file system. *)
Variable to_str : list ascii → option string.
Variable buildable : Response → bool.
Variable canonicalize : Path → CanonicalError + Path.
Variable is_dir : Path → bool.
Variable read_file : Path → Z → res StaticFileError StaticFileContent.
Variables (o : ServerOptions) (mounts : list StaticMount) (secure_transport : bool).

Definition incoming_bytes (i : Incoming) : Z :=
  foldr (fun h n => Z.min (str_len h.1 + Z.of_nat (length h.2)) usize_MAX + n) 0 (i_headers i).

Fixpoint header_texts (l : list (string * list ascii)) : option Headers :=
  match l with
  | [] => Some []
  | (name, value) :: l => v ← to_str value; rest ← header_texts l; Some ((name, v) :: rest)
  end.

(** The request, or the answer to what is none. *)
Definition accept_request (i : Incoming) : Reply + Request :=
  if (o_max_header_fields o <? Z.of_nat (length (i_headers i))) || (o_max_header_bytes o <? incoming_bytes i)
     || (o_max_target_bytes o <? str_len (i_uri i))
  then inl (response 431 "request headers or target exceed configured bounds")
  else
    match i_body i with
    | Broken => inl (response 400 "invalid request body")
    | TooLate => inl (response 408 "request body timed out")
    | Arrived bytes =>
        if o_max_body_bytes o <? Z.of_nat (length bytes) then inl (response 413 "request body exceeds 8 MiB")
        else
          match from_utf8 bytes with
          | None => inl (response 400 "request body is not UTF-8")
          | Some body =>
              match header_texts (i_headers i) with
              | None => inl (response 400 "invalid request header")
              | Some headers =>
                  match i_peer i with
                  | None => inl (response 400 "peer address unavailable")
                  | Some peer =>
                      match new_request (i_method i) (i_target i) headers body peer with
                      | Ok r => inr (mkRequest (method r) (target r) (Targets.headers r) (Targets.body r) (Targets.peer r) (params r) secure_transport)
                      | _ => inl (response 400 "invalid request")
                      end
                  end
              end
          end
    end.

(** The key of the limiter: the path and the client. *)
Definition limiter_key (r : Request) : string :=
  path (target r) +:+ "|" +:+ show_ip (request_client_address r (o_trusted_proxy o)).

(** The parameters of a route, sorted by name. *)
Definition param_le (a b : string * string) : bool :=
  match str_cmp a.1 b.1 with Lt => true | Gt => false | Eq => match str_cmp a.2 b.2 with Gt => false | _ => true end end.
Fixpoint insert_param (p : string * string) (l : list (string * string)) : list (string * string) :=
  match l with [] => [p] | q :: l => if param_le p q then p :: q :: l else q :: insert_param p l end.
Definition sorted_params (found : Parameters) : list (string * string) := foldr insert_param [] (map_to_list found).

(** What the dispatch decided: status, allowed methods, whether a route
    matched, whether the limiter refused. *)
Record Decision := mkDecision { d_status : Z; d_allow : option string; d_matched : bool; d_limited : bool; d_params : list (string * string) }.

Definition decide_request (r : Request) (now duration : Z) (s : ServerState) : Decision * ServerState :=
  match dispatch_with_key_at (method r) (path (target r)) (limiter_key r) now duration s with
  | (Ok outcome, s) =>
      let '(status, allow) := route_status (method r) outcome in
      (match outcome with
       | Matched _ found => mkDecision status allow true false (sorted_params found)
       | _ => mkDecision status allow false false []
       end, s)
  | (Err message, s) =>
      if String.eqb message "rate limit exceeded" then (mkDecision 429 None false true [], record_request_failure false true s)
      else (mkDecision 503 None false false [], record_request_failure false false s)
  | (_, s) => (mkDecision 503 None false false [], record_request_failure false false s)
  end.

Definition first_header (r : Request) (name : string) : option string :=
  match request_header r name with Ok l => head l | _ => None end.

(** ** The request among the other threads *)

(** What a handler gives: whether it succeeded, its response, and what it left
    of the session. *)
Record Handled := mkHandled { h_ok : bool; h_response : Response; h_session : option SessionState }.
Definition Handler : Type := Request → option SessionState → Response → Handled.
Variable handler : option Handler.

(** The turn on [serial_gate]; how the wait for the handler's answer ends: it
    came, its task panicked or was dropped, or the deadline passed. *)
Inductive Turn := Taken | GateClosed | TurnLate.
Inductive Ending := Came | Lost | Late.

(** What the surroundings of one request do: the other threads before the [n]th
    thing the request does to the server; the clocks; whether the server has a
    queue, and its table of sessions; the answers of the queue, of the gate, and
    of the wait. *)
Record Surroundings := mkSurroundings {
  others : nat → list Op;
  now : Z;
  duration : Z;
  queue : bool;
  table : option SessionTable;
  session_now : Z;
  submitted : bool;
  turn : Turn;
  ending : Ending;
}.
Variable env : Surroundings.

(** What the request does to the server (a guard ends only once), one item for each time it holds the
    lock or changes the counter of handler tasks; [EHand]: the handler is given
    to a thread or a queue that runs it. *)
Inductive Event :=
| EDispatch (r : Request)
| ELook
| ESession (cookie : option string) (session : SessionState)
| EAdmit
| ERelease
| EFail (late : bool)
| ETaskBegin
| ETaskEnd
| EHand (r : Request) (session : option SessionState) (given : Response).

Definition effect (e : Event) (s : ServerState) : ServerState :=
  match e with
  | EDispatch r => (decide_request r (now env) (duration env) s).2
  | EAdmit => (try_begin_handler s).2
  | ERelease => finish_handler s
  | EFail late => record_request_failure late false s
  | ETaskBegin => begin_handler_task s
  | ETaskEnd => step s FinishTask
  | ELook | ESession _ _ | EHand _ _ _ => s
  end.

(** The events so far, each with the state it found. *)
Record World := mkWorld { server : ServerState; trace : list (Event * ServerState) }.
Abbreviation act := (st unit World).

(** The state the event found. *)
Definition happens (e : Event) : act ServerState := fun w =>
  let found := run_ops (others env (length (trace w))) (server w) in
  (mkWorld (effect e found) (trace w ++ [(e, found)])%list, Ok found).

Definition response_from_web (r : Response) : Reply :=
  if buildable r then mkReply (r_status r) (r_headers r) (str_bytes (r_body r)) else response 500 "invalid response".

Definition finish_handler_response (r : Request) (session : option SessionState) (given : Response) : Reply :=
  match (match session with Some s => apply_cookie s given | None => (Ok tt, given) end) with
  | (Ok _, given) =>
      match finish_for_method (method r) given with
      | (Ok _, given) => response_from_web given
      | _ => response 500 "response commit failed"
      end
  | _ => response 500 "session cookie failed"
  end.

Definition handler_reply (h : Handler) (r : Request) (session : option SessionState) : act Reply :=
  let result := h r session (response_for (secure r)) in
  if h_ok result then mret (finish_handler_response r (h_session result) (h_response result))
  else happens (EFail false) ;; mret (response 500 "handler failed").

(** After the admission; [HandlerAdmissionGuard] releases it in [run_serially]. *)
Definition run_in_turn (h : Handler) (r : Request) (session : option SessionState) : act Reply :=
  match turn env with
  | GateClosed => happens (EFail false) ;; mret (response 503 "server is stopping")
  | TurnLate => happens (EFail true) ;; mret (response 408 "handler timed out")
  | Taken =>
      happens ETaskBegin ;;
      happens (EHand r session (response_for (secure r))) ;;
      match ending env with
      | Came => happens ETaskEnd ;; handler_reply h r session
      | Lost => happens ETaskEnd ;; happens (EFail false) ;; mret (response 500 "handler failed")
      | Late => happens (EFail true) ;; mret (response 408 "handler timed out")
      end
  end.
Definition run_serially (h : Handler) (r : Request) (session : option SessionState) : act Reply :=
  found ← happens EAdmit;
  match (try_begin_handler found).1 with
  | Ok _ => reply ← run_in_turn h r session; happens ERelease ;; mret reply
  | _ => happens (EFail false) ;; mret (response 503 "handler queue is full")
  end.

(** The task that was submitted ends its count by itself, in its own time. *)
Definition run_on_queue (h : Handler) (r : Request) (session : option SessionState) : act Reply :=
  happens ETaskBegin ;;
  if submitted env then
    happens (EHand r session (response_for (secure r))) ;;
    match ending env with
    | Came => handler_reply h r session
    | Lost => happens (EFail false) ;; mret (response 503 "handler queue closed")
    | Late => happens (EFail true) ;; mret (response 408 "handler timed out")
    end
  else happens ETaskEnd ;; happens (EFail false) ;; mret (response 503 "handler queue is full").

(** [RequestSession::begin], where the server has a table. *)
Definition begin_session (r : Request) : act (option SessionState) :=
  match table env with
  | Some t =>
      let given := cookie r SESSION_COOKIE in
      let session := (begin given (session_now env) t).1 in
      happens (ESession given session) ;; mret (Some session)
  | None => mret None
  end.

(** The file of a mount, or the answer without one. *)
Definition answer_without_handler (i : Incoming) (r : Request) (d : Decision) : act Reply :=
  let plain :=
    if d_limited d then response_with_retry_after 429 "rate limit exceeded" 1
    else response_with_allow (d_status d) (if d_status d =? 404 then "not found" else if d_status d =? 405 then "method not allowed" else "") (d_allow d) in
  if d_matched d then mret plain
  else
    happens ELook ;;
    match match_static_mount mounts (path (target r)) with
    | Some (mount, subpath) =>
        let '(_, outcome) := serve_static_file canonicalize is_dir read_file mount (i_target i) subpath (method r)
            (first_header r "If-None-Match") (first_header r "If-Modified-Since") (o_max_body_bytes o) in
        lift (outcome ← outcome; Ok (static_reply outcome))
    | None => mret plain
    end.

Definition with_params (p : list (string * string)) (r : Request) : Request :=
  mkRequest (method r) (target r) (Targets.headers r) (Targets.body r) (Targets.peer r) p (secure r).

Definition route_response (i : Incoming) : act Reply :=
  match accept_request i with
  | inl refused => mret refused
  | inr r =>
      found ← happens (EDispatch r);
      let d := (decide_request r (now env) (duration env) found).1 in
      let r := with_params (d_params d) r in
      happens ELook ;;
      session ← begin_session r;
      match (if d_matched d then handler else None) with
      | Some h => if queue env then run_on_queue h r session else run_serially h r session
      | None => answer_without_handler i r d
      end
  end.

(** ** What the parts give *)

Lemma accept_request_inr i r : accept_request i = inr r →
  Z.of_nat (length (i_headers i)) ≤ o_max_header_fields o ∧ str_len (i_uri i) ≤ o_max_target_bytes o ∧
  (∃ bytes, i_body i = Arrived bytes ∧ Z.of_nat (length bytes) ≤ o_max_body_bytes o ∧ from_utf8 bytes = Some (Targets.body r)) ∧
  canonical_target (i_target i) = Ok (target r) ∧ secure r = secure_transport.
Proof.
  unfold accept_request.
  destruct (_ || _) eqn:E; [done|]. rewrite !orb_false_iff, !Z.ltb_ge in E.
  destruct (i_body i) as [bytes| |] eqn:Hb; try done.
  destruct (Z.ltb_spec (o_max_body_bytes o) (Z.of_nat (length bytes))); [done|].
  destruct (from_utf8 bytes) as [text|] eqn:Hu; [|done].
  destruct (header_texts (i_headers i)) as [hs|]; [|done].
  destruct (i_peer i) as [peer|]; [|done].
  unfold new_request. destruct (bad_method (i_method i)); [done|].
  destruct (canonical_target (i_target i)) as [t| | |]; [|done..]. cbn [mbind res_bind].
  destruct (validate_headers hs); [|done..]. cbn [mbind res_bind].
  destruct (bounded_body text _); [|done..]. cbn [mbind res_bind].
  intros [= <-]. cbn. split_and!; try lia; eauto.
Qed.

(** What the dispatch changed, and what a match says of it. *)
Lemma decide_request_spec r now duration s : 0 ≤ pending s →
  let '(d, s') := decide_request r now duration s in
  with_limiter (rate_limiter s) (with_stats (stats s) s') = s ∧
  (d_matched d = true →
    started s = true ∧ stopping s = false ∧ closed s = false ∧ pending s < o_pending_work (options s) ∧
    (allow (limiter_key r) now (rate_limiter s)).2 = 0 ∧
    ∃ route found, dispatch_route (routes s) (method r) (path (target r)) = Matched route found ∧ d_params d = sorted_params found).
Proof.
  intros Hp. unfold decide_request.
  pose proof (dispatch_admits (method r) (path (target r)) (limiter_key r) now duration s) as H.
  destruct (dispatch_with_key_at _ _ _ _ _ _) as [answer s']. destruct H as [Hs ->]. specialize (Hs Hp).
  assert (∀ late limited, with_limiter (rate_limiter s) (with_stats (stats s) (record_request_failure late limited s')) = s) as Hf.
  { intros late limited. rewrite <-Hs at 3. by destruct s'. }
  destruct (_ && _) eqn:E.
  - rewrite !andb_true_iff, !negb_true_iff, Z.ltb_lt, Z.eqb_eq in E.
    destruct (dispatch_route _ _ _) as [route found| |] eqn:Hd; (split; [done|]); [|done..].
    intros _. destruct E as [[[[]]]]. split_and!; eauto.
  - destruct (String.eqb _ _); (split; [apply Hf|done]).
Qed.

(** *** A request is one of the threads of the server *)

Hypothesis duration_unsigned : 0 ≤ duration env.

Lemma effect_runs e s : ∃ ops, effect e s = run_ops ops s.
Proof.
  assert (∀ op s, enabled op s = true → run_ops [op] s = run_op op s) as Hone by (intros op s0 H; cbn; unfold step; by rewrite H).
  destruct e as [r| | | | |late| | |]; cbn [effect]; try (by exists []).
  - assert (∀ late limited, ∃ ops, record_request_failure late limited
      (dispatch_with_key_at (method r) (path (target r)) (limiter_key r) (now env) (duration env) s).2 = run_ops ops s) as Hfail.
    { intros late limited. exists [Dispatch (method r) (path (target r)) (limiter_key r) (now env) (duration env); Failure late limited].
      cbn. unfold step. cbn [enabled]. by rewrite (proj2 (Z.leb_le 0 (duration env)) duration_unsigned). }
    unfold decide_request. specialize (Hfail false). pose proof (Hfail true) as Ht. pose proof (Hfail false) as Hf. clear Hfail.
    destruct (dispatch_with_key_at _ _ _ _ _ s) as [answer s'] eqn:E. cbn [snd] in *.
    destruct answer as [outcome|message| |]; cbn [snd]; [|by destruct (String.eqb _ _)|done..].
    exists [Dispatch (method r) (path (target r)) (limiter_key r) (now env) (duration env)].
    rewrite Hone by (cbn; by apply Z.leb_le). cbn [run_op]. rewrite E. destruct (route_status _ _). by destruct outcome.
  - by exists [TryBeginHandler].
  - by exists [FinishHandler].
  - by exists [Failure late false].
  - by exists [BeginTask].
  - by exists [FinishTask].
Qed.

(** What a computation adds to the trace, and its answer; the states it finds are
    states of a server. *)
Definition does {A} (m : act A) (Q : list (Event * ServerState) → res unit A → Prop) : Prop :=
  ∀ w, server_ok (server w) → ∃ l, trace (m w).1 = (trace w ++ l)%list ∧
    (∃ ops, server (m w).1 = run_ops ops (server w)) ∧ Q l (m w).2.

Lemma does_pure {A} (r : res unit A) (Q : list (Event * ServerState) → res unit A → Prop) : Q [] r → does (lift r) Q.
Proof. intros HQ w Hw. exists []. rewrite app_nil_r. split; [done|]. split; [by exists []|exact HQ]. Qed.
Lemma does_ret {A} (a : A) (Q : list (Event * ServerState) → res unit A → Prop) : Q [] (Ok a) → does (mret a) Q.
Proof. apply does_pure. Qed.

Lemma does_happens {A} e (k : ServerState → act A) Q :
  (∀ found, server_ok found → does (k found) (λ l r, Q ((e, found) :: l) r)) → does (happens e ≫= k) Q.
Proof.
  intros Hk w Hw. set (found := run_ops (others env (length (trace w))) (server w)).
  assert (server_ok found) as Hf by by apply run_ops_ok.
  destruct (effect_runs e found) as (ops & He).
  destruct (Hk found Hf (mkWorld (effect e found) (trace w ++ [(e, found)])%list)) as (l & Hl & (ops' & Hops) & HQ).
  { cbn. rewrite He. by apply run_ops_ok. }
  exists ((e, found) :: l). unfold mbind, st_bind, happens. fold found. split; [|split; [|exact HQ]].
  - rewrite Hl. cbn [trace]. by rewrite <- app_assoc.
  - exists (others env (length (trace w)) ++ ops ++ ops')%list. rewrite Hops. cbn [server]. rewrite He.
    unfold found, run_ops. by rewrite !fold_left_app.
Qed.

Lemma does_bind {A B} (m : act A) (k : A → act B) Q :
  does m (λ l r, match r with
                 | Ok a => does (k a) (λ l' r', Q (l ++ l')%list r')
                 | Err e => Q l (Err e) | Panic p => Q l (Panic p) | Fuel => Q l Fuel
                 end) → does (m ≫= k) Q.
Proof.
  intros Hm w Hw. destruct (Hm w Hw) as (l & Hl & (ops & Hops) & HQ). unfold mbind, st_bind.
  destruct (m w) as [w' [a|e|p|]]; cbn [fst snd] in *; [|exists l; split; [done|]; split; [by exists ops|done]..].
  destruct (HQ w') as (l' & Hl' & (ops' & Hops') & HQ'); [rewrite Hops; by apply run_ops_ok|].
  exists (l ++ l')%list. split; [by rewrite Hl', Hl, app_assoc|]. split; [|done].
  exists (ops ++ ops')%list. rewrite Hops', Hops. unfold run_ops. by rewrite fold_left_app.
Qed.

(** *** What a trace says *)

Definition many (p : Event * ServerState → bool) (l : list (Event * ServerState)) : nat := length (List.filter p l).
Definition let_in (x : Event * ServerState) : bool :=
  match x.1 with EAdmit => pending x.2 <? o_pending_work (options x.2) | _ => false end.
Definition releases (x : Event * ServerState) : bool := match x.1 with ERelease => true | _ => false end.
Definition counts_task (x : Event * ServerState) : bool := match x.1 with ETaskBegin => true | _ => false end.
Definition ends_task (x : Event * ServerState) : bool := match x.1 with ETaskEnd => true | _ => false end.
Definition hands (x : Event * ServerState) : bool := match x.1 with EHand _ _ _ => true | _ => false end.
Definition dispatches (x : Event * ServerState) : bool := match x.1 with EDispatch _ => true | _ => false end.

(** What was before the handler was handed over, and with what. *)
Fixpoint hand_over (l : list (Event * ServerState)) : option (list (Event * ServerState) * (Request * option SessionState * Response)) :=
  match l with
  | [] => None
  | (EHand r session given, _) :: _ => Some ([], (r, session, given))
  | x :: l => '(l, hand) ← hand_over l; Some (x :: l, hand)
  end.

(** The event changes the statistics, the limiter and the two counts only. *)
Definition changes_little (x : Event * ServerState) : Prop :=
  let '(e, found) := x in
  with_tasks (handler_tasks found) (with_pending (pending found)
    (with_limiter (rate_limiter found) (with_stats (stats found) (effect e found)))) = found.

(** The state lets the request in, and its route is this. *)
Definition admits (r : Request) (found : ServerState) : Prop :=
  started found = true ∧ stopping found = false ∧ closed found = false ∧ pending found < o_pending_work (options found) ∧
  (allow (limiter_key r) (now env) (rate_limiter found)).2 = 0.

(** The handler is handed over with [r], [session] and [given], after [before]. *)
Record handed (i : Incoming) (before : list (Event * ServerState)) (r : Request) (session : option SessionState) (given : Response) : Prop := {
  handed_bounds : Z.of_nat (length (i_headers i)) ≤ o_max_header_fields o ∧ str_len (i_uri i) ≤ o_max_target_bytes o;
  handed_body : ∃ bytes, i_body i = Arrived bytes ∧ Z.of_nat (length bytes) ≤ o_max_body_bytes o ∧ from_utf8 bytes = Some (body r);
  handed_target : canonical_target (i_target i) = Ok (target r);
  handed_given : given = response_for secure_transport ∧ secure r = secure_transport;
  handed_session : session = (fun t => (begin (cookie r SESSION_COOKIE) (session_now env) t).1) <$> table env;
  handed_dispatch : ∃ r0 found route values,
    (EDispatch r0, found) ∈ before ∧ accept_request i = inr r0 ∧ admits r0 found ∧
    dispatch_route (routes found) (method r) (path (target r)) = Matched route values ∧ r = with_params (sorted_params values) r0;
  handed_turn : if queue env then submitted env = true
                else turn env = Taken ∧ ∃ found, (EAdmit, found) ∈ before ∧ pending found < o_pending_work (options found);
}.

(** The answer after the handler was handed over. *)
Definition handed_reply (h : Handler) (r : Request) (session : option SessionState) (given : Response) : Reply :=
  match ending env with
  | Came => if h_ok (h r session given) then finish_handler_response r (h_session (h r session given)) (h_response (h r session given))
            else response 500 "handler failed"
  | Lost => if queue env then response 503 "handler queue closed" else response 500 "handler failed"
  | Late => response 408 "handler timed out"
  end.

Record fair (i : Incoming) (l : list (Event * ServerState)) (reply : res unit Reply) : Prop := {
  fair_changes : Forall changes_little l;
  fair_once : (many dispatches l ≤ 1 ∧ many hands l ≤ 1 ∧ many counts_task l ≤ 1)%nat;
  fair_admission : many let_in l = many releases l;
  fair_tasks : (many ends_task l ≤ many counts_task l)%nat ∧ (many hands l ≤ many counts_task l)%nat;
  fair_hand : match hand_over l with
    | Some (before, (r, session, given)) =>
        ∃ h, handler = Some h ∧ handed i before r session given ∧ reply = Ok (handed_reply h r session given)
    | None => ∀ r found, (EDispatch r, found) ∈ l → d_matched (decide_request r (now env) (duration env) found).1 = true →
        handler = None ∨ ∃ why, reply = Ok (response 503 why) ∨ reply = Ok (response 408 why)
    end;
}.

Lemma changes_dispatch r found : server_ok found → changes_little (EDispatch r, found).
Proof.
  intros H. unfold changes_little. cbn [effect]. pose proof (decide_request_spec r (now env) (duration env) found) as Hs.
  destruct (decide_request r (now env) (duration env) found) as [d s']. cbn [snd]. destruct Hs as [<- _]; [apply (ok_pending _ H)|].
  by destruct s'.
Qed.
Lemma changes_other e found : match e with EDispatch _ => False | _ => True end → changes_little (e, found).
Proof.
  unfold changes_little. destruct e; try done; intros _; cbn [effect]; try by destruct found.
  - unfold try_begin_handler. by destruct (_ <=? _), found.
  - unfold step. cbn [enabled]. by destruct (0 <? _), found.
Qed.
Lemma admit_room found : match (try_begin_handler found).1 with Ok _ => pending found < o_pending_work (options found)
  | _ => ¬ pending found < o_pending_work (options found) end.
Proof. unfold try_begin_handler. destruct (Z.leb_spec (o_pending_work (options found)) (pending found)); cbn; lia. Qed.

#[local] Ltac changed := repeat apply Forall_cons_2; try apply Forall_nil_2;
  first [by apply changes_dispatch|by apply changes_other].
#[local] Ltac counted := unfold many, let_in, releases, counts_task, ends_task, hands, dispatches; cbn [List.filter fst snd length app];
  repeat match goal with
  | H : ?a < ?b |- context [?a <? ?b] => rewrite (proj2 (Z.ltb_lt a b) H); cbn [List.filter fst snd length]
  | H : ¬ ?a < ?b |- context [?a <? ?b] => rewrite (proj2 (Z.ltb_nlt a b) H); cbn [List.filter fst snd length]
  end; lia.
#[local] Ltac leaf := constructor; [changed|counted|counted|counted|cbn [hand_over mbind option_bind app]].

(** The first events: the dispatch, the look, and the session where there is a table. *)
Definition first_events (r : Request) (f0 f1 : ServerState) (l : list (Event * ServerState)) : Prop :=
  l = [(EDispatch r, f0); (ELook, f1)] ∨ ∃ c x f, l = [(EDispatch r, f0); (ELook, f1); (ESession c x, f)].

Section Matched.
Variables (i : Incoming) (r0 r : Request) (f0 f1 : ServerState) (l0 : list (Event * ServerState)) (h : Handler) (session : option SessionState).
Hypothesis found_ok : server_ok f0.
Hypothesis first : first_events r0 f0 f1 l0.
Hypothesis is_handler : handler = Some h.
Hypothesis ready : ∀ before, (EDispatch r0, f0) ∈ before →
  (if queue env then submitted env = true else turn env = Taken ∧ ∃ found, (EAdmit, found) ∈ before ∧ pending found < o_pending_work (options found)) →
  handed i before r session (response_for (secure r)).

#[local] Ltac told := repeat first [apply does_ret|apply does_happens; intros].
#[local] Ltac started := destruct first as [->|(? & ? & ? & ->)]; cbn [app]; leaf.
#[local] Ltac given := exists h; split; [done|]; split; [apply ready; [set_solver|]|unfold handed_reply].

Lemma queue_does : queue env = true → does (run_on_queue h r session) (λ l reply, fair i (l0 ++ l)%list reply).
Proof.
  intros Hq. unfold run_on_queue. apply does_happens. intros f2 Hf2. destruct (submitted env) eqn:Hs.
  - apply does_happens. intros f3 Hf3. unfold handler_reply. destruct (ending env) eqn:He; [destruct (h_ok _) eqn:Hok|..]; told.
    all: started; given; rewrite ?Hq, ?He, ?Hok; done.
  - told. started; intros; right; eauto.
Qed.

Lemma serial_does : queue env = false → does (run_serially h r session) (λ l reply, fair i (l0 ++ l)%list reply).
Proof.
  intros Hq. unfold run_serially. apply does_happens. intros f2 Hf2. pose proof (admit_room f2) as Hroom.
  destruct (try_begin_handler f2).1.
  - apply does_bind. unfold run_in_turn. destruct (turn env) eqn:Ht; [|told; started; intros; right; eauto..].
    apply does_happens. intros f3 Hf3. apply does_happens. intros f4 Hf4. unfold handler_reply.
    destruct (ending env) eqn:He; [apply does_happens; intros; destruct (h_ok _) eqn:Hok|..]; told.
    all: started; given; rewrite ?Hq, ?He, ?Hok; try done.
    all: split; [done|]; exists f2; split; [set_solver|done].
  - told. started; intros; right; eauto.
  - told. started; intros; right; eauto.
  - told. started; intros; right; eauto.
Qed.
End Matched.

Lemma unhandled_does i r0 r d f0 f1 l0 : server_ok f0 → first_events r0 f0 f1 l0 →
  (d_matched (decide_request r0 (now env) (duration env) f0).1 = true → handler = None) →
  does (answer_without_handler i r d) (λ l reply, fair i (l0 ++ l)%list reply).
Proof.
  intros Hf0 first Hno. unfold answer_without_handler.
  assert (∀ l reply, l = [] ∨ (∃ f, l = [(ELook, f)]) → fair i (l0 ++ l)%list reply) as Hend.
  { intros l reply Hl. destruct first as [->|(? & ? & ? & ->)], Hl as [->|[? ->]]; cbn [app]; leaf.
    all: intros r' f' Hin Hm; left; apply Hno; repeat (apply elem_of_cons in Hin as [Hin|Hin]; [try discriminate Hin|]);
      [by injection Hin as -> ->|by apply not_elem_of_nil in Hin..]. }
  destruct (d_matched d); [apply does_ret, Hend; by left|]. apply does_happens. intros f2 Hf2.
  destruct (match_static_mount _ _) as [[mount subpath]|]; [|apply does_ret, Hend; right; by eexists].
  destruct (serve_static_file _ _ _ _ _ _ _ _ _ _) as [opened outcome]. apply does_pure, Hend. right. by eexists.
Qed.

Lemma route_response_does i : does (route_response i) (fair i).
Proof.
  unfold route_response. destruct (accept_request i) as [refused|r0] eqn:Ha.
  { apply does_ret. leaf. intros r found Hin. by apply not_elem_of_nil in Hin. }
  pose proof (accept_request_inr i r0 Ha) as (Hh & Ht & Hb & Hc & Hsec).
  apply does_happens. intros f0 Hf0.
  pose proof (decide_request_spec r0 (now env) (duration env) f0 (proj1 (ok_pending _ Hf0))) as Hd.
  destruct (decide_request r0 (now env) (duration env) f0) as [d s0] eqn:Ed. destruct Hd as [_ Hd]. cbn [fst].
  apply does_happens. intros f1 Hf1. set (r := with_params (d_params d) r0).
  assert (∀ session l0, session = (fun t => (begin (cookie r SESSION_COOKIE) (session_now env) t).1) <$> table env →
    first_events r0 f0 f1 l0 →
    does match (if d_matched d then handler else None) with
         | Some h => if queue env then run_on_queue h r session else run_serially h r session
         | None => answer_without_handler i r d
         end (λ l reply, fair i (l0 ++ l)%list reply)) as Hrest.
  { intros session l0 Hsession Hfirst. destruct (if d_matched d then handler else None) as [h|] eqn:Hh0.
    - destruct (d_matched d) eqn:Hm; [|done]. destruct (Hd eq_refl) as (Hs1 & Hs2 & Hs3 & Hs4 & Hs5 & route & values & Hr & Hp).
      assert (∀ before, (EDispatch r0, f0) ∈ before →
        (if queue env then submitted env = true else turn env = Taken ∧ ∃ found, (EAdmit, found) ∈ before ∧ pending found < o_pending_work (options found)) →
        handed i before r session (response_for (secure r))) as Hready.
      { intros before Hin Hturn. constructor; try done.
        - by rewrite <- Hsec.
        - exists r0, f0, route, values. split; [done|]. split; [done|]. split; [by repeat split|]. split; [done|]. by rewrite <- Hp. }
      pose proof (queue_does i r0 r f0 f1 l0 h session Hf0 Hfirst Hh0 Hready) as Hqueue.
      pose proof (serial_does i r0 r f0 f1 l0 h session Hf0 Hfirst Hh0 Hready) as Hserial.
      clear Hready. destruct (queue env); auto.
    - apply (unhandled_does i r0 r d f0 f1 l0 Hf0 Hfirst). rewrite Ed. cbn [fst]. intros Hm. by rewrite Hm in Hh0. }
  unfold begin_session. destruct (table env) as [t|] eqn:Et.
  - apply does_bind, does_happens. intros f2 Hf2. apply does_ret.
    refine (Hrest _ [(EDispatch r0, f0); (ELook, f1); (ESession _ _, f2)] eq_refl _). right. by eexists _, _, _.
  - apply does_bind, does_ret. refine (Hrest _ [(EDispatch r0, f0); (ELook, f1)] eq_refl _). by left.
Qed.

(** C24: A handler is handed over to run at most once, and only after a dispatch
    that found the server accepting, with room, let through by the limiter and
    the route matched, for a request within the bounds of the options, in UTF-8,
    with a canonical target and the parameters of the route; on a server without
    a queue, after a second admission that found room and in its turn.  It is
    given a fresh response, secure as the transport is, and the session that the
    cookie of the request names.  The answer is then what the handler gave,
    finished, or one of the refusals; a matched request whose handler was not
    handed over is answered 503 or 408.  Whatever the other threads do meanwhile,
    the request changes nothing of the server but its statistics, its limiter,
    and the two counts of handlers: what it was let in for it releases, it counts
    a task at most once and ends the count no more often; and its steps are steps
    of the threads of [WebLife], so what holds of the server there goes on. *)
Theorem handler_admitted i s : server_ok s →
  let '(w, reply) := route_response i (mkWorld s []) in
  server_ok (server w) ∧ (∃ ops, server w = run_ops ops s) ∧ fair i (trace w) reply.
Proof.
  intros Hs. pose proof (route_response_does i (mkWorld s []) Hs) as (l & Hl & (ops & Hops) & Hfair).
  destruct (route_response i (mkWorld s [])) as [w reply]. cbn [fst snd server trace app] in *. subst l.
  split; [rewrite Hops; by apply run_ops_ok|]. split; [by exists ops|exact Hfair].
Qed.
End Answer.

(** ** A server with one route and one mount *)

Definition sample_server : ServerState :=
  (start_with_options default_options (register "GET" "/users/:id" new).2).2.
Definition sample_request (target : string) : Incoming :=
  mkIncoming "GET" target target [("host", str_bytes "example.org"); ("cookie", str_bytes "sid=s00")] (Arrived []) (Some (V4 2130706433)).
Definition latin (bytes : list ascii) : option string := Some (of_bytes bytes).
(** It writes the parameter [id] and keeps the session. *)
Definition sample_handler : Handler := fun r session given =>
  mkHandled true (write (default "" (param r "id")) given).2 session.
Definition sample_table : SessionTable := mkTable {["s00" := mkEntry ∅ 0]} 8 1000.
(** [queue]: whether the server has one; other threads begin a stop before step [stopped]. *)
Definition sample_surroundings (queue submitted : bool) (stopped : option nat) (turn : Turn) (ending : Ending) : Surroundings :=
  mkSurroundings (fun n => if bool_decide (stopped = Some n) then [BeginStop 1000] else []) 0 0 queue (Some sample_table) 5 submitted turn ending.
Definition calm : Surroundings := sample_surroundings false true None Taken Came.
Definition sample_route_response (env : Surroundings) (target : string) (s : ServerState) :=
  route_response latin (fun _ => true) sample_canonical (fun _ => false) sample_read default_options [sample_mount] false
    (Some sample_handler) env (sample_request target) (mkWorld s []).

(** The state after [n] requests for a target, all at one instant. *)
Fixpoint sample_requests (n : nat) (target : string) (s : ServerState) : ServerState :=
  match n with O => s | S n => sample_requests n target (server (sample_route_response calm target s).1) end.

(** A matched route, and a path without one; a turn that does not come, a queue
    that is full; a server that begins to stop before the dispatch. *)
Example answered :
  (sample_route_response calm "/users/7" sample_server).2 = Ok (mkReply 200 [] (str_bytes "7")) ∧
  (sample_route_response calm "/none" sample_server).2 = Ok (response 404 "not found") ∧
  (sample_route_response (sample_surroundings false true (Some 4%nat) GateClosed Came) "/users/7" sample_server).2
    = Ok (response 503 "server is stopping") ∧
  (sample_route_response (sample_surroundings true false None Taken Came) "/users/7" sample_server).2
    = Ok (response 503 "handler queue is full") ∧
  (sample_route_response (sample_surroundings true true (Some 0%nat) Taken Came) "/users/7" sample_server).2 = Ok (response_with_allow 503 "" None).
Proof. repeat split; vm_compute; reflexivity. Qed.

(** A handler goes to the queue of a server that has begun to stop since the
    dispatch. *)
Example queued_while_stopping :
  let w := (sample_route_response (sample_surroundings true true (Some 2%nat) Taken Came) "/users/7" sample_server).1 in
  stopping (server w) = true ∧ many hands (trace w) = 1%nat ∧
  (sample_route_response (sample_surroundings true true (Some 2%nat) Taken Came) "/users/7" sample_server).2 = Ok (mkReply 200 [] (str_bytes "7")).
Proof. repeat split; vm_compute; reflexivity. Qed.

(** A client past its rate is refused on a route, and still given the files. *)
Example limited_static :
  (sample_route_response calm "/users/7" (sample_requests (Z.to_nat (o_rate_limit_burst default_options)) "/users/7" sample_server)).2
  = Ok (response_with_retry_after 429 "rate limit exceeded" 1) ∧
  status_code <$> match (sample_route_response calm "/files/a.html"
      (sample_requests (Z.to_nat (o_rate_limit_burst default_options)) "/files/a.html" sample_server)).2 with Ok r => Some r | _ => None end
  = Some 200.
Proof. split; vm_compute; reflexivity. Qed.

Lemma handler_admitted_witness :
  (sample_route_response calm "/users/7" sample_server).2 = Ok (mkReply 200 [] (str_bytes "7")) ∧
  many hands (trace (sample_route_response calm "/users/7" sample_server).1) = 1%nat ∧
  let '(w, reply) := sample_route_response calm "/users/7" sample_server in
  server_ok (server w) ∧
  fair latin (fun _ => true) default_options false (Some sample_handler) calm (sample_request "/users/7") (trace w) reply.
Proof.
  split; [vm_compute; reflexivity|]. split; [vm_compute; reflexivity|].
  assert (server_ok sample_server) as Hs by (apply (run_ops_ok [Register "GET" "/users/:id"; Start default_options]), new_ok).
  pose proof (handler_admitted latin (fun _ => true) sample_canonical (fun _ => false) sample_read default_options [sample_mount] false
    (Some sample_handler) calm ltac:(vm_compute; discriminate) (sample_request "/users/7") sample_server Hs) as H.
  unfold sample_route_response. destruct (route_response _ _ _ _ _ _ _ _ _ _ _ _) as [w reply].
  destruct H as (H1 & _ & H3). split; [exact H1|exact H3].
Defined.
