(* ===== verification/Snapshots.v ===== *)
(** * Snapshots: source files and the snapshots of a front-end session

    The source files of [crates/bn_source/src/lib.rs], with the identity and
    the revision that come from their bytes, and the session of
    [crates/bn_frontend/src/frontend_session.rs]: the revision of each source,
    its text, and what becomes stale when a source changes. *)

From S2P Require Import Prelude Text Scalars.

#[local] Open Scope string_scope.
#[local] Open Scope Z_scope.

(** ** Source files *)

(** [stable_hash], in 64 bits *)
Definition stable_hash (bytes : list ascii) : Z :=
  fold_left (fun hash byte => ((hash * 1099511628211) mod 2 ^ 64 + byte_val byte) mod 2 ^ 64) bytes 14695981039346656037.

Record SourceFile := mkSource { sf_name : string; sf_text : string; sf_source : Z; sf_revision : Z }.

(** [SourceFile::new] *)
Definition source_file (name text : string) : SourceFile :=
  mkSource name text (stable_hash (str_bytes name)) (stable_hash (str_bytes text)).

(** [SourceFile::line] *)
Definition source_line (source : SourceFile) (number : Z) : list Char :=
  default [] (lines (chars (sf_text source)) !! Z.to_nat (number - 1)).

(** ** The session *)

Record Snapshot := mkSnapshot { s_source : Z; s_revision : Z; s_text : string }.
Record AnalysisRequest := mkRequest { r_source : Z; r_revision : Z }.

Record FrontendSession := mkSession {
  next_source : Z;
  next_revision : gmap Z Z;
  snapshots : gmap Z Snapshot;
  dependents : gmap Z (gset Z);
  stale : gset Z;
}.

Definition empty_session : FrontendSession := mkSession 0 ∅ ∅ ∅ ∅.
Definition with_stale (marked : gset Z) (s : FrontendSession) : FrontendSession :=
  mkSession (next_source s) (next_revision s) (snapshots s) (dependents s) marked.

(** [value.saturating_add(1).max(1)] of a [u64] *)
Definition following (value : Z) : Z := Z.max 1 (Z.min (value + 1) u64_MAX).

Definition dependents_of (d : gmap Z (gset Z)) (source : Z) : gset Z := default ∅ (d !! source).

(** The loop of [invalidate] over the queue. *)
Fixpoint invalidate_loop (fuel : nat) (d : gmap Z (gset Z)) (pending : list Z) (marked : gset Z) : res unit (gset Z) :=
  match fuel with
  | O => Fuel
  | S fuel =>
      match pending with
      | [] => Ok marked
      | source :: pending =>
          if decide (source ∈ marked) then invalidate_loop fuel d pending marked
          else invalidate_loop fuel d (pending ++ elements (dependents_of d source))%list ({[source]} ∪ marked)
      end
  end.

(** What the loop may still push: the importers of the sources not marked. *)
Definition unmarked_weight (d : gmap Z (gset Z)) (marked : gset Z) : nat :=
  sum_list_with (fun p => if decide (p.1 ∈ marked) then 0%nat else size p.2) (map_to_list d).
Definition invalidate_fuel (d : gmap Z (gset Z)) (marked : gset Z) : nat := (3 + unmarked_weight d marked)%nat.

Definition invalidate (source : Z) (s : FrontendSession) : FrontendSession :=
  match invalidate_loop (invalidate_fuel (dependents s) (stale s)) (dependents s) [source] (stale s) with
  | Ok marked => with_stale marked s
  | _ => s
  end.

Definition upsert (source : option Z) (text : string) (s : FrontendSession) : Snapshot * FrontendSession :=
  let '(source, next) := match source with
                         | Some source => (source, next_source s)
                         | None => (following (next_source s), following (next_source s))
                         end in
  let revision := following (default 0 (next_revision s !! source)) in
  let snapshot := mkSnapshot source revision text in
  let existed := bool_decide (is_Some (snapshots s !! source)) in
  let s := mkSession next (<[source := revision]> (next_revision s)) (<[source := snapshot]> (snapshots s)) (dependents s)
             (stale s ∖ {[source]}) in
  let s := if existed then let s := invalidate source s in with_stale (stale s ∖ {[source]}) s else s in
  (snapshot, s).

Definition upsert_if_changed (source : option Z) (text : string) (s : FrontendSession) : Snapshot * FrontendSession :=
  match source with
  | Some id =>
      match snapshots s !! id with
      | Some snapshot => if String.eqb (s_text snapshot) text then (snapshot, s) else upsert source text s
      | None => upsert source text s
      end
  | None => upsert source text s
  end.

Definition register_import (importer imported : Z) (s : FrontendSession) : FrontendSession :=
  mkSession (next_source s) (next_revision s) (snapshots s)
    (<[imported := {[importer]} ∪ dependents_of (dependents s) imported]> (dependents s)) (stale s).

Definition request (source : Z) (s : FrontendSession) : option AnalysisRequest :=
  snapshot ← snapshots s !! source;
  if decide (source ∈ stale s) then None else Some (mkRequest source (s_revision snapshot)).

Definition accept (r : AnalysisRequest) (s : FrontendSession) : option Snapshot :=
  snapshot ← snapshots s !! r_source r;
  if (s_revision snapshot =? r_revision r) && negb (bool_decide (r_source r ∈ stale s)) then Some snapshot else None.

Definition cancel (r : AnalysisRequest) (s : FrontendSession) : bool * FrontendSession :=
  let matches_current :=
    match snapshots s !! r_source r with Some snapshot => s_revision snapshot =? r_revision r | None => false end
    && negb (bool_decide (r_source r ∈ stale s)) in
  (matches_current, if matches_current then invalidate (r_source r) s else s).

Definition remove (source : Z) (s : FrontendSession) : option Snapshot * FrontendSession :=
  match snapshots s !! source with
  | Some snapshot =>
      (Some snapshot, invalidate source (mkSession (next_source s) (next_revision s) (delete source (snapshots s)) (dependents s) (stale s)))
  | None => (None, s)
  end.

(** ** What becomes stale *)

Section Spread.
Variable d : gmap Z (gset Z).

(** From [source] along the importers, through sources not marked. *)
Inductive spreads (marked : gset Z) (source : Z) : Z → Prop :=
| spreads_here : source ∉ marked → spreads marked source source
| spreads_on x y : spreads marked source x → y ∈ dependents_of d x → y ∉ marked → spreads marked source y.

Lemma spreads_unmarked marked source x : spreads marked source x → source ∉ marked ∧ x ∉ marked.
Proof. induction 1; [done|]. tauto. Qed.

Lemma spreads_from marked source y x : source ∉ marked → y ∈ dependents_of d source → spreads marked y x → spreads marked source x.
Proof.
  intros Hs Hy. induction 1 as [Hm|x z _ IH Hz Hm]; [|by eapply spreads_on].
  eapply spreads_on; [by constructor|done|done].
Qed.

Lemma spreads_weaken marked more source x : spreads (more ∪ marked) source x → spreads marked source x.
Proof.
  induction 1 as [Hm|x y _ IH Hy Hm]; [constructor; set_solver|].
  eapply spreads_on; [done|done|set_solver].
Qed.

(** One source is marked: what spreads from it goes on from its importers. *)
Lemma spreads_mark marked source pending x : source ∉ marked →
  (∃ p, p ∈ source :: pending ∧ spreads marked p x) ↔
  x = source ∨ ∃ p, p ∈ (pending ++ elements (dependents_of d source))%list ∧ spreads ({[source]} ∪ marked) p x.
Proof.
  intros Hs. split.
  - intros (p & Hp & Hx). induction Hx as [Hm|y z _ IH Hz Hm].
    + apply list_elem_of_In in Hp as Hp'. destruct (decide (p = source)) as [->|Hne]; [by left|].
      right. exists p. rewrite elem_of_app. split; [|constructor; set_solver]. apply elem_of_cons in Hp as [?|?]; [done|by left].
    + destruct (decide (z = source)) as [->|Hne]; [by left|]. right.
      destruct IH as [->|(q & Hq & Hy)].
      * exists z. rewrite elem_of_app, elem_of_elements. split; [by right|]. constructor. set_solver.
      * exists q. split; [done|]. eapply spreads_on; [done|done|set_solver].
  - intros [->|(p & Hp & Hx)].
    + exists source. split; [apply list_elem_of_here|by constructor].
    + rewrite elem_of_app, elem_of_elements in Hp. destruct Hp as [Hp|Hp].
      * exists p. split; [by apply list_elem_of_further|by eapply spreads_weaken].
      * exists source. split; [apply list_elem_of_here|]. by eapply spreads_from; [|done|eapply spreads_weaken].
Qed.

Lemma weight_drop marked source : source ∉ marked →
  (unmarked_weight d ({[source]} ∪ marked) + size (dependents_of d source) = unmarked_weight d marked)%nat.
Proof.
  intros Hs. unfold unmarked_weight, dependents_of.
  assert (∀ l : list (Z * gset Z), source ∉ l.*1 →
    sum_list_with (fun p => if decide (p.1 ∈ {[source]} ∪ marked) then 0%nat else size p.2) l
    = sum_list_with (fun p => if decide (p.1 ∈ marked) then 0%nat else size p.2) l) as Hsame.
  { induction l as [|[k v] l IH]; [done|]. cbn [fmap list_fmap sum_list_with fst snd].
    intros [Hk Hl]%not_elem_of_cons. rewrite IH by done.
    repeat destruct (decide _); try done; set_solver. }
  destruct (d !! source) as [v|] eqn:Hd.
  - assert (d = <[source := v]> (delete source d)) as -> by by rewrite insert_delete_eq, insert_id.
    rewrite !(sum_list_with_Permutation_proper _ _ _ (map_to_list_insert _ _ _ (lookup_delete_eq _ _))).
    cbn [sum_list_with fst snd]. rewrite Hsame.
    + rewrite decide_True by set_solver. rewrite decide_False by done. cbn [default from_option]. unfold id. lia.
    + intros ([k w] & -> & Hp)%list_elem_of_fmap. apply elem_of_map_to_list in Hp. cbn in Hp. by rewrite lookup_delete_eq in Hp.
  - rewrite Hsame; [cbn [default]; rewrite size_empty; lia|].
    intros (p & -> & Hp)%list_elem_of_fmap. destruct p as [k v]. apply elem_of_map_to_list in Hp. cbn in Hd. congruence.
Qed.

Lemma invalidate_loop_spec fuel pending marked :
  (length pending + unmarked_weight d marked < fuel)%nat →
  ∃ marked', invalidate_loop fuel d pending marked = Ok marked' ∧
    ∀ x, x ∈ marked' ↔ x ∈ marked ∨ ∃ p, p ∈ pending ∧ spreads marked p x.
Proof.
  revert pending marked. induction fuel as [|fuel IH]; intros pending marked Hf; [lia|]. cbn [invalidate_loop].
  destruct pending as [|source pending].
  { exists marked. split; [done|]. intros x. split; [by left|]. intros [?|(p & Hp & _)]; [done|]. by apply elem_of_nil in Hp. }
  cbn [length] in Hf. destruct (decide (source ∈ marked)) as [Hs|Hs].
  - destruct (IH pending marked) as (marked' & -> & Hx); [lia|]. exists marked'. split; [done|]. intros x. rewrite Hx.
    split; (intros [?|(p & Hp & Hsp)]; [by left|right]).
    + exists p. split; [by apply list_elem_of_further|done].
    + apply elem_of_cons in Hp as [->|Hp]; [|by eauto]. by apply spreads_unmarked in Hsp as [].
  - destruct (IH (pending ++ elements (dependents_of d source))%list ({[source]} ∪ marked)) as (marked' & -> & Hx).
    { pose proof (weight_drop marked source Hs). rewrite length_app. change (length (elements ?s)) with (size s). lia. }
    exists marked'. split; [done|]. intros x. rewrite Hx, elem_of_union, elem_of_singleton, spreads_mark by done. tauto.
Qed.
End Spread.

(** ** The session after [invalidate] *)

Lemma invalidate_spec source s :
  ∃ marked, invalidate source s = with_stale marked s ∧
    ∀ x, x ∈ marked ↔ x ∈ stale s ∨ spreads (dependents s) (stale s) source x.
Proof.
  unfold invalidate, invalidate_fuel.
  destruct (invalidate_loop_spec (dependents s) (3 + unmarked_weight (dependents s) (stale s)) [source] (stale s)) as (marked & -> & Hx);
    [cbn [length]; lia|].
  exists marked. split; [done|]. intros x. rewrite Hx. split; (intros [?|H]; [by left|right]).
  - destruct H as (p & ->%list_elem_of_singleton & H). done.
  - exists source. split; [by apply list_elem_of_singleton|done].
Qed.

(** ** Work that is accepted *)

(** What a client does with a session. *)
Inductive SessionOp :=
| Upsert (source : option Z) (text : string)
| UpsertIfChanged (source : option Z) (text : string)
| RegisterImport (importer imported : Z)
| Cancel (r : AnalysisRequest)
| Remove (source : Z).

Definition run_op (op : SessionOp) (s : FrontendSession) : FrontendSession :=
  match op with
  | Upsert source text => (upsert source text s).2
  | UpsertIfChanged source text => (upsert_if_changed source text s).2
  | RegisterImport importer imported => register_import importer imported s
  | Cancel r => (cancel r s).2
  | Remove source => (remove source s).2
  end.
Definition run_ops (ops : list SessionOp) (s : FrontendSession) : FrontendSession := fold_left (fun s op => run_op op s) ops s.

(** Every snapshot is the last revision of its source. *)
Definition session_ok (s : FrontendSession) : Prop :=
  ∀ source sn, snapshots s !! source = Some sn → s_source sn = source ∧ next_revision s !! source = Some (s_revision sn).

Lemma invalidate_fields source s :
  snapshots (invalidate source s) = snapshots s ∧ next_revision (invalidate source s) = next_revision s ∧
  dependents (invalidate source s) = dependents s.
Proof. by destruct (invalidate_spec source s) as (marked & -> & _). Qed.

(** [upsert] of a source whose identity is known. *)
Definition put_snapshot (next source : Z) (text : string) (s : FrontendSession) : Snapshot * FrontendSession :=
  let sn := mkSnapshot source (following (default 0 (next_revision s !! source))) text in
  let s' := mkSession next (<[source := s_revision sn]> (next_revision s)) (<[source := sn]> (snapshots s)) (dependents s)
              (stale s ∖ {[source]}) in
  (sn, if bool_decide (is_Some (snapshots s !! source)) then with_stale (stale (invalidate source s') ∖ {[source]}) (invalidate source s')
       else s').

Lemma upsert_put source text s :
  upsert source text s = match source with
                         | Some source => put_snapshot (next_source s) source text s
                         | None => put_snapshot (following (next_source s)) (following (next_source s)) text s
                         end.
Proof. by destruct source. Qed.

Lemma put_fields next source text s :
  let '(sn, s') := put_snapshot next source text s in
  sn = mkSnapshot source (following (default 0 (next_revision s !! source))) text ∧
  snapshots s' = <[source := sn]> (snapshots s) ∧ next_revision s' = <[source := s_revision sn]> (next_revision s) ∧
  dependents s' = dependents s.
Proof.
  unfold put_snapshot. destruct (bool_decide _); [|done].
  match goal with |- context [invalidate ?x ?s'] => pose proof (invalidate_fields x s') as (H1 & H2 & H3) end.
  cbn [with_stale snapshots next_revision dependents] in *. by rewrite H1, H2, H3.
Qed.

Section Requested.
Variables (source : Z) (sn : Snapshot).

(** The source is as it was, or a later revision of it has been put. *)
Definition kept_or_later (s : FrontendSession) : Prop :=
  (∀ sn', snapshots s !! source = Some sn' → next_revision s !! source = Some (s_revision sn')) ∧
  ∃ n, next_revision s !! source = Some n ∧ s_revision sn ≤ n ∧
    (n = s_revision sn → ∀ sn', snapshots s !! source = Some sn' → sn' = sn).

Lemma put_kept next id text s : kept_or_later s → default 0 (next_revision s !! source) < u64_MAX →
  kept_or_later (put_snapshot next id text s).2.
Proof.
  intros [Hrev (n & Hn & Hle & Hkept)] Hlt. pose proof (put_fields next id text s) as H.
  destruct (put_snapshot next id text s) as [sn' s']. destruct H as (-> & Hs & Hr & _). cbn [snd].
  unfold kept_or_later. rewrite Hs, Hr. destruct (decide (id = source)) as [->|Hne].
  - rewrite !lookup_insert_eq. split; [by intros ? [= <-]|]. eexists. split; [done|]. cbn [s_revision].
    rewrite Hn in Hlt |- *. cbn [default from_option] in *. unfold Datatypes.id, following in *. split; [lia|]. lia.
  - rewrite !lookup_insert_ne by done. split; [done|]. by exists n.
Qed.

Lemma op_kept op s : kept_or_later s → default 0 (next_revision s !! source) < u64_MAX → kept_or_later (run_op op s).
Proof.
  intros H Hlt. pose proof (invalidate_fields source s) as Hi.
  assert (∀ x s', kept_or_later s' → kept_or_later (invalidate x s')) as Hinv.
  { intros x s' H'. pose proof (invalidate_fields x s') as (H1 & H2 & _). unfold kept_or_later. by rewrite H1, H2. }
  assert (∀ id text, kept_or_later (upsert id text s).2) as Hup.
  { intros id text. rewrite upsert_put. destruct id; by apply put_kept. }
  destruct op as [id text|[id|] text|a b|r|x]; cbn [run_op]; [apply Hup| |apply Hup|exact H| |].
  - unfold upsert_if_changed. destruct (snapshots s !! id) as [old|]; [|by apply Hup]. destruct (String.eqb _ _); [done|by apply Hup].
  - unfold cancel. cbn [snd]. destruct (_ && _); [by apply Hinv|done].
  - unfold remove. destruct (snapshots s !! x) as [old|]; [|done]. cbn [snd]. apply Hinv.
    destruct H as [Hrev (n & Hn & Hle & Hkept)]. unfold kept_or_later. cbn [snapshots next_revision]. split.
    + intros sn' [_ Hsn]%lookup_delete_Some. by apply Hrev.
    + exists n. split_and!; try done. intros Heq sn' [_ Hsn]%lookup_delete_Some. by apply Hkept.
Qed.
End Requested.

Lemma op_revision op s source : 
  default 0 (next_revision (run_op op s) !! source) ≤ Z.max 1 (default 0 (next_revision s !! source) + 1).
Proof.
  assert (∀ next id text, default 0 (next_revision (put_snapshot next id text s).2 !! source) ≤ Z.max 1 (default 0 (next_revision s !! source) + 1)) as Hput.
  { intros next id text. pose proof (put_fields next id text s) as H.
    destruct (put_snapshot next id text s) as [sn' s']. destruct H as (-> & _ & Hr & _). cbn [snd s_revision] in *. rewrite Hr.
    destruct (decide (id = source)) as [->|Hne]; [rewrite lookup_insert_eq; cbn [default from_option]; unfold following, Datatypes.id; lia|].
    rewrite lookup_insert_ne by done. lia. }
  assert (∀ id text, default 0 (next_revision (upsert id text s).2 !! source) ≤ Z.max 1 (default 0 (next_revision s !! source) + 1)) as Hup.
  { intros id text. rewrite upsert_put. destruct id; apply Hput. }
  assert (∀ x s', next_revision (invalidate x s') = next_revision s') as Hinv by (intros; apply invalidate_fields).
  destruct op as [id text|[id|] text|a b|r|x]; cbn [run_op]; [apply Hup| |apply Hup|cbn; lia| |].
  - unfold upsert_if_changed. destruct (snapshots s !! id) as [old|]; [|apply Hup]. destruct (String.eqb _ _); [cbn [snd]; lia|apply Hup].
  - unfold cancel. cbn [snd]. destruct (_ && _); [rewrite Hinv; lia|lia].
  - unfold remove. destruct (snapshots s !! x) as [old|]; [|cbn [snd]; lia]. cbn [snd]. rewrite Hinv. cbn [next_revision]. lia.
Qed.

Lemma op_ok op s : session_ok s → session_ok (run_op op s).
Proof.
  intros Hok.
  assert (∀ next id text, session_ok (put_snapshot next id text s).2) as Hput.
  { intros next id text source sn. pose proof (put_fields next id text s) as H.
    destruct (put_snapshot next id text s) as [sn' s']. destruct H as (-> & Hs & Hr & _).
    cbn [snd]. rewrite Hs, Hr, !lookup_insert. destruct (decide (id = source)) as [->|]; [by intros [= <-]|apply Hok]. }
  assert (∀ id text, session_ok (upsert id text s).2) as Hup.
  { intros id text. rewrite upsert_put. destruct id; apply Hput. }
  assert (∀ x s', session_ok s' → session_ok (invalidate x s')) as Hinv.
  { intros x s' H'. pose proof (invalidate_fields x s') as (H1 & H2 & _). unfold session_ok. by rewrite H1, H2. }
  destruct op as [id text|[id|] text|a b|r|x]; cbn [run_op]; [apply Hup| |apply Hup|exact Hok| |].
  - unfold upsert_if_changed. destruct (snapshots s !! id) as [old|]; [|apply Hup]. destruct (String.eqb _ _); [done|apply Hup].
  - unfold cancel. cbn [snd]. destruct (_ && _); [by apply Hinv|done].
  - unfold remove. destruct (snapshots s !! x) as [old|]; [|done]. cbn [snd]. apply Hinv.
    intros source sn. cbn [snapshots next_revision]. intros [_ Hsn]%lookup_delete_Some. by apply Hok.
Qed.
Lemma session_ops_ok ops s : session_ok s → session_ok (run_ops ops s).
Proof. revert s. induction ops as [|op ops IH]; intros s Hs; [done|]. by apply IH, op_ok. Qed.
Lemma empty_ok : session_ok empty_session.
Proof. intros source sn. cbn [empty_session snapshots]. by rewrite lookup_empty. Qed.

(** C14: An analysis is accepted for the text it was asked for only: whatever is
    put, imported, cancelled and removed between the request and its answer, the
    snapshot that is accepted is the one the request was made for, while no
    source is put 2^64 times. *)
Theorem accepted_current ops s source r sn :
  session_ok s → request source s = Some r →
  0 ≤ default 0 (next_revision s !! source) → default 0 (next_revision s !! source) + Z.of_nat (length ops) < u64_MAX →
  accept r (run_ops ops s) = Some sn → snapshots s !! source = Some sn.
Proof.
  unfold request. intros Hok. destruct (snapshots s !! source) as [sn0|] eqn:Hsn; cbn [mbind option_bind]; [|done].
  destruct (decide (source ∈ stale s)); [done|]. intros [= <-]. destruct (Hok source sn0 Hsn) as [_ Hrev].
  assert (kept_or_later source sn0 s) as Hkept.
  { split; [intros sn'; rewrite Hsn; by intros [= <-]|]. exists (s_revision sn0). split_and!; [done|lia|]. intros _ sn'. rewrite Hsn. by intros [= <-]. }
  intros H0. rewrite Hrev in H0. cbn [default from_option] in H0. unfold Datatypes.id in H0.
  clear Hsn Hok Hrev n. revert s Hkept. induction ops as [|op ops IH]; intros s Hkept Hlt.
  - cbn [run_ops fold_left]. unfold accept. cbn [r_source r_revision]. destruct Hkept as [Hrev (m & Hm & _ & Hsame)].
    destruct (snapshots s !! source) as [sn'|]; cbn [mbind option_bind]; [|done].
    specialize (Hrev sn' eq_refl). destruct (Z.eqb_spec (s_revision sn') (s_revision sn0)) as [Heq|]; [|done].
    destruct (negb _); [|done]. intros [= <-]. f_equal. symmetry. apply Hsame; [congruence|done].
  - cbn [length] in Hlt. change (run_ops (op :: ops) s) with (run_ops ops (run_op op s)).
    apply IH; [apply op_kept; [done|lia]|].
    pose proof (op_revision op s source). destruct Hkept as [_ (m & Hm & Hle & _)]. rewrite Hm in *. cbn [default from_option] in *.
    unfold Datatypes.id in *. lia.
Qed.

(** [importer] needs [source], directly or through others. *)
Definition imports_from (s : FrontendSession) (source importer : Z) : Prop :=
  tc (fun a b => b ∈ dependents_of (dependents s) a) source importer.

(** A source that changes makes stale exactly what it reaches along the
    importers through sources that were fresh, and is itself fresh; so when
    whatever imports a stale source is stale, all that imports the source,
    directly or through others, is stale. *)
Theorem upsert_stales source old text s :
  snapshots s !! source = Some old →
  let s' := (upsert (Some source) text s).2 in
  (∀ x, x ∈ stale s' ↔ x ≠ source ∧ (x ∈ stale s ∨ spreads (dependents s) (stale s ∖ {[source]}) source x)) ∧
  ((∀ a b, a ∈ stale s → a ≠ source → b ∈ dependents_of (dependents s) a → b ∈ stale s) →
   ∀ x, x ≠ source → imports_from s source x → x ∈ stale s').
Proof.
  intros Hold s'. subst s'. rewrite upsert_put. unfold put_snapshot. rewrite bool_decide_true by by eexists.
  match goal with |- context [invalidate source ?s1] => destruct (invalidate_spec source s1) as (marked & -> & Hm) end.
  cbn [with_stale stale snd dependents] in *.
  assert (∀ x, x ∈ marked ∖ {[source]} ↔ x ≠ source ∧ (x ∈ stale s ∨ spreads (dependents s) (stale s ∖ {[source]}) source x)) as Hx.
  { intros x. rewrite elem_of_difference, elem_of_singleton, Hm. set_solver. }
  split; [exact Hx|]. intros Hclosed x Hne Himp. apply Hx. split; [done|].
  assert (∀ y, imports_from s source y → y = source ∨ y ∈ stale s ∨ spreads (dependents s) (stale s ∖ {[source]}) source y) as Hall.
  2: { by destruct (Hall x Himp) as [|]. }
  assert (source ∉ stale s ∖ {[source]}) as Hs by set_solver.
  assert (∀ a b, (a = source ∨ a ∈ stale s ∨ spreads (dependents s) (stale s ∖ {[source]}) source a) → b ∈ dependents_of (dependents s) a →
    b = source ∨ b ∈ stale s ∨ spreads (dependents s) (stale s ∖ {[source]}) source b) as Hstep.
  { intros a b Ha Hb. destruct (decide (b = source)) as [->|Hbs]; [by left|]. right.
    destruct (decide (b ∈ stale s)) as [|Hbn]; [by left|]. right.
    assert (spreads (dependents s) (stale s ∖ {[source]}) source a) as Hsp.
    { destruct Ha as [->|[Ha|Ha]]; [by constructor| |done]. destruct (decide (a = source)) as [->|]; [by constructor|].
      exfalso. by eapply Hbn, Hclosed. }
    eapply spreads_on; [done|done|set_solver]. }
  assert (∀ a b, imports_from s a b → (a = source ∨ a ∈ stale s ∨ spreads (dependents s) (stale s ∖ {[source]}) source a) →
    b = source ∨ b ∈ stale s ∨ spreads (dependents s) (stale s ∖ {[source]}) source b) as Hpath.
  { intros a b. induction 1 as [a b Hb|a b c Hb _ IH]; intros Ha; [by eapply Hstep|]. apply IH. by eapply Hstep. }
  intros y Hy. apply (Hpath source y Hy). by left.
Qed.

(** Two imports: 2 imports 1, 3 imports 2. *)
Definition sample_session : FrontendSession :=
  run_ops [Upsert (Some 1) "a"; Upsert (Some 2) "b"; Upsert (Some 3) "c"; RegisterImport 2 1; RegisterImport 3 2] empty_session.

Lemma accepted_current_witness :
  snapshots sample_session !! 3 = Some (mkSnapshot 3 1 "c").
Proof.
  apply (accepted_current [Upsert (Some 4) "d"; RegisterImport 3 4; UpsertIfChanged (Some 3) "c"] sample_session 3 (mkRequest 3 1));
    [apply session_ops_ok, empty_ok|vm_compute; done..].
Defined.

Lemma upsert_stales_witness :
  3 ∈ stale (upsert (Some 1) "a2" sample_session).2.
Proof.
  apply (upsert_stales 1 (mkSnapshot 1 1 "a") "a2" sample_session ltac:(vm_compute; reflexivity)).
  - assert (stale sample_session = ∅) as -> by (vm_compute; reflexivity). intros a b Ha. by apply elem_of_empty in Ha.
  - done.
  - apply tc_l with 2; [|apply tc_once]; apply (bool_decide_unpack _); vm_compute; exact I.
Defined.

(** A source that is stale already stops the marking: once 3 is put anew while 2
    is stale, a change of 1 leaves 3 fresh, and work on 3 is accepted that was
    begun before the change. *)
Example stale_blocks :
  let s := run_ops [Upsert (Some 1) "a2"; Upsert (Some 3) "c2"] sample_session in
  request 3 s = Some (mkRequest 3 2) ∧
  accept (mkRequest 3 2) (run_ops [Upsert (Some 1) "a3"] s) = Some (mkSnapshot 3 2 "c2").
Proof. vm_compute. split; reflexivity. Qed.
