(* ===== verification/Modules.v ===== *)
(** * Modules: the module graph of a program ([crates/bn_frontend/src/module_graph.rs])

    The import roots, the resolution of an import, and the loader, which visits
    the entry file and what it imports, depth first. The file system is a
    parameter, the lexer and the parser are those of this development. *)

From S2P Require Import Prelude Text Diag Scalars Lexer Syntax ExprParser Parser Parsing Splits Snapshots.

#[local] Open Scope string_scope.
#[local] Open Scope Z_scope.

(** A path by its components; that of an absolute one is ["/"]. *)
Abbreviation Path := (list string).

Definition is_absolute (p : Path) : bool := match p with "/" :: _ => true | _ => false end.
Definition display (p : Path) : string :=
  match p with "/" :: rest => "/" +:+ join "/" rest | _ => join "/" p end.

(** [set_extension("bn")] on the name of a file *)
Definition bn_name (name : string) : string :=
  match rsplit_once "." name with
  | Some (stem, _) => if String.eqb stem "" then name else stem
  | None => name
  end +:+ ".bn".
Definition bn_file (directory : Path) (parts : list string) : Path :=
  match list.last parts with
  | Some file => (directory ++ removelast parts ++ [bn_name file])%list
  | None => directory
  end.

(** ** Import roots *)

Inductive RootProvenance := EntryDir | BnHome | EntryAncestor | Cwd | ExeInstall | StdlibDefault | Config | CliFlag.
Record ModuleRoot := mkRoot { mr_path : Path; provenance : RootProvenance }.

Section Roots.
(** The file system and the process. *)
Variable canonicalize : Path → option Path.
Variable is_dir : Path → bool.
Variables current_dir current_exe : option Path.

Definition normalize (p : Path) : Path :=
  match canonicalize p with
  | Some c => c
  | None => if is_absolute p then p else match current_dir with Some cwd => (cwd ++ p)%list | None => p end
  end.

(** [path.ancestors()]: the path and those above it *)
Fixpoint ancestors_from (n : nat) (p : Path) : list Path :=
  match n with O => [take 0 p] | S n => take (S n) p :: ancestors_from n p end.
Definition ancestors (p : Path) : list Path :=
  match ancestors_from (length p) p with
  | l => if is_absolute p then removelast l else l
  end.

Definition modules_bn (directory : Path) : Path := (directory ++ ["modules"; "bn"])%list.
Definition ancestor_stdlib (start : Path) : option Path := List.find is_dir (map modules_bn (ancestors start)).

Definition discover_standard_root (root_directory : Path) (bn_home : option Path) : ModuleRoot :=
  match (home ← bn_home; if bool_decide (home = []) then None else Some home) with
  | Some home =>
      mkRoot (default (modules_bn home) (List.find is_dir [(home ++ ["share"; "bn"; "modules"; "bn"])%list; modules_bn home])) BnHome
  | None =>
      match ancestor_stdlib root_directory with
      | Some path => mkRoot path EntryAncestor
      | None =>
          match (cwd ← current_dir; ancestor_stdlib cwd) with
          | Some path => mkRoot path Cwd
          | None =>
              match (exe ← current_exe;
                     List.find is_dir (concat (map (fun directory => [(directory ++ ["share"; "bn"; "modules"; "bn"])%list;
                       (directory ++ ["lib"; "bn"; "modules"; "bn"])%list; modules_bn directory]) (ancestors (removelast exe))))) with
              | Some path => mkRoot path ExeInstall
              | None => mkRoot (modules_bn root_directory) StdlibDefault
              end
          end
      end
  end.

(** The loop of [effective_module_paths]. *)
Definition add_root (roots : list ModuleRoot) (root : ModuleRoot) : list ModuleRoot :=
  let path := normalize (mr_path root) in
  if existsb (fun existing => bool_decide (mr_path existing = path)) roots then roots
  else (roots ++ [mkRoot path (provenance root)])%list.
Definition effective_module_paths (root_directory : Path) (standard : ModuleRoot) (extras : list ModuleRoot) : list ModuleRoot :=
  fold_left add_root ([mkRoot root_directory EntryDir; mkRoot (root_directory ++ ["modules"])%list EntryDir; standard] ++ extras)%list [].
End Roots.

(** ** The graph *)

Inductive StandardModule := BNData | BNMath | BNLog | BNWeb | BNJson | BNDispatch | BNCrypto | BNCompress | BNSqlite | BNFfi.

Definition STANDARD_FILES : list (string * StandardModule) :=
  [("BNData.bn", BNData); ("BNMath.bn", BNMath); ("BNLog.bn", BNLog); ("BNWeb.bn", BNWeb); ("BNJson.bn", BNJson);
   ("BNDispatch.bn", BNDispatch); ("BNCrypto.bn", BNCrypto); ("BNCompress.bn", BNCompress); ("BNSqlite.bn", BNSqlite); ("BNFfi.bn", BNFfi)].

Definition standard_module (path : Path) : option StandardModule :=
  match rev path with
  | name :: "bn" :: "modules" :: _ => snd <$> List.find (fun f => String.eqb f.1 name) STANDARD_FILES
  | _ => None
  end.

Record LoadedModule := mkModule {
  m_id : nat;
  m_path : Path;
  m_source : SourceFile;
  m_program : Program;
  m_imports : list nat;
  m_export_selectors : list (option string);
  m_standard : option StandardModule;
  m_root : option ModuleRoot;
}.

Inductive ModuleDiagnostic :=
| Lexical (d : LexDiagnostic)
| Syntactic (d : ParseDiagnostic)
| ModuleNotFound (path : string) (span : Span)
| ImportCycle (message : string) (span : Span)
| ModuleLimit (message : string) (span : Span)
| ImportExportNotFound (message : string) (span : Span).
Record ModuleError := mkError { e_source : SourceFile; e_diagnostic : ModuleDiagnostic }.

Inductive State := Visiting | Loaded (id : nat).
Record Loader := mkLoader { l_states : gmap Path State; l_modules : list LoadedModule; l_session : FrontendSession }.

Abbreviation Load := (st ModuleError Loader).

Section Loader.
Variables (reserved_words special_float_literals : list string).
Variable canonicalize : Path → option Path.
Variable current_dir : option Path.
(** [fs::read_to_string], with the text of its error, and the names of a directory. *)
Variable disk : Path → string + string.
Variable entries : Path → list string.
Variable overlays : gmap Path string.
Variable root_directory : Path.
Variable roots : list ModuleRoot.

#[local] Abbreviation normalize := (normalize canonicalize current_dir).

Definition has_exact_entry (directory : Path) (name : string) : bool := bool_decide (name ∈ entries directory).
Fixpoint exact_module_exists (directory : Path) (parts : list string) : bool :=
  match parts with
  | [] => false
  | [file] => has_exact_entry directory (file +:+ ".bn")
  | name :: parts => has_exact_entry directory name && exact_module_exists (directory ++ [name])%list parts
  end.

Definition import_path (parts : list string) : Path * option ModuleRoot :=
  match List.find (fun root => exact_module_exists (mr_path root) parts) roots with
  | Some root => (bn_file (mr_path root) parts, Some root)
  | None => (bn_file root_directory parts, None)
  end.

(** The text of a module: that of the editor first. *)
Definition source_text (path : Path) : string + string :=
  match overlays !! path with Some text => inr text | None => disk path end.

Definition module_error (source : SourceFile) (d : ModuleDiagnostic) : ModuleError := mkError (source_file (sf_name source) (sf_text source)) d.
Definition module_not_found (name : string) (importer : option (SourceFile * Span)) (error : string) : ModuleError :=
  match importer with
  | None => mkError (source_file name "") (ModuleNotFound (name +:+ ": " +:+ error) default_span)
  | Some (source, span) => mkError (source_file (sf_name source) (sf_text source)) (ModuleNotFound (name +:+ ": " +:+ error) span)
  end.

Definition with_session (s : FrontendSession) (l : Loader) : Loader := mkLoader (l_states l) (l_modules l) s.
Definition with_state (path : Path) (state : State) (l : Loader) : Loader :=
  mkLoader (<[path := state]> (l_states l)) (l_modules l) (l_session l).

Definition read_source (path : Path) (importer : option (SourceFile * Span)) : Load SourceFile := fun l =>
  let name := display path in
  match source_text path with
  | inr text =>
      let '(snapshot, s) := upsert_if_changed (Some (stable_hash (str_bytes name))) text (l_session l) in
      (with_session s l, Ok (mkSource name text (s_source snapshot) (s_revision snapshot)))
  | inl error => (l, Err (module_not_found name importer error))
  end.

(** [lex] and [parse_named] of a source *)
Definition program_of_source (source : SourceFile) : res ModuleDiagnostic Program :=
  match lex (sf_source source) (sf_revision source) reserved_words special_float_literals (sf_text source) with
  | Ok tokens =>
      match parse_program tokens (Some (sf_name source)) with
      | Ok program => Ok program
      | Err d => Err (Syntactic d)
      | Panic w => Panic w
      | Fuel => Fuel
      end
  | Err d => Err (Lexical d)
  | Panic w => Panic w
  | Fuel => Fuel
  end.

Definition exports (export : string) (item : Item) : bool :=
  match item with
  | Import _ _ _ _ => false
  | ConstantItem exported name _ _ _ => exported && String.eqb name export
  | Declaration exported _ _ name _ _ _ _ _ => exported && String.eqb name export
  end.
Definition exports_name (parent : SourceFile) (export : string) : res ModuleError bool :=
  match program_of_source parent with
  | Ok program => Ok (existsb (exports export) (items program))
  | Err _ => Ok false
  | Panic w => Panic w
  | Fuel => Fuel
  end.

Definition resolve_import (parts : list string) (importer : SourceFile) (span : Span) :
  Load (Path * option ModuleRoot * option string) :=
  let '(nested_path, nested_root) := import_path parts in
  match list.last parts with
  | Some export =>
      if (length parts <? 2)%nat then mret (nested_path, nested_root, None)
      else
        let module_parts := removelast parts in
        let '(parent_path, parent_root) := import_path module_parts in
        match parent_root with
        | None => mret (nested_path, nested_root, None)
        | Some _ =>
            parent ← read_source (normalize parent_path) (Some (importer, span));
            found ← lift (exports_name parent export);
            if (found : bool) then mret (parent_path, parent_root, Some export)
            else match nested_root with
                 | Some _ => mret (nested_path, nested_root, None)
                 | None =>
                     lift (Err (module_error importer (ImportExportNotFound
                       ("'" +:+ export +:+ "' is not an EXPORT of module '" +:+ join "." module_parts
                        +:+ "' and no nested module '" +:+ join "." parts +:+ "' exists") span)))
                 end
        end
  | None => mret (nested_path, nested_root, None)
  end.

(** The path of an import that names a module. *)
Definition module_import (item : Item) : option (list string * Span) :=
  match item with
  | Import _ path _ span => match path with "HOST" :: _ => None | _ => Some (path, span) end
  | _ => None
  end.

Section Visit.
Variable visit : Path → option (SourceFile * Span) → option ModuleRoot → Load nat.

(** The loop over the items of a program. *)
Fixpoint visit_items (source : SourceFile) (items : list Item) : Load (list nat * list (option string)) :=
  match items with
  | [] => mret ([], [])
  | item :: items =>
      match module_import item with
      | None => visit_items source items
      | Some (parts, span) =>
          '(imported, winning_root, selector) ← resolve_import parts source span;
          id ← visit imported (Some (source, span)) winning_root;
          '(ids, selectors) ← visit_items source items;
          mret (id :: ids, selector :: selectors)
      end
  end.

Definition visit_path (requested : string) (path : Path) (importer : option (SourceFile * Span)) (root : option ModuleRoot) : Load nat :=
  if bool_decide (root = None) && bool_decide (is_Some importer) && bool_decide (overlays !! path = None)
  then lift (Err (module_not_found requested importer "entity not found"))
  else
    l ← get;
    match l_states l !! path with
    | Some (Loaded id) => mret id
    | Some Visiting =>
        match importer with
        | Some (source, span) => lift (Err (module_error source (ImportCycle ("import cycle includes " +:+ display path) span)))
        | None => lift (Panic "root module cannot form an import cycle")
        end
    | None =>
        source ← read_source path importer;
        program ← lift match program_of_source source with
                       | Ok program => Ok program
                       | Err d => Err (mkError source d)
                       | Panic w => Panic w
                       | Fuel => Fuel
                       end;
        modify (with_state path Visiting) ;;
        '(imports, selectors) ← visit_items source (items program);
        l ← get;
        let id := length (l_modules l) in
        if u32_MAX <? Z.of_nat id
        then lift (Err (module_error source (ModuleLimit "module graph exceeds the portable module limit" default_span)))
        else
          modify (fun l => mkLoader (<[path := Loaded id]> (l_states l))
                    (l_modules l ++ [mkModule id path source program imports selectors (standard_module path) root])%list (l_session l)) ;;
          mret id
    end.
End Visit.

Fixpoint visit (fuel : nat) (path : Path) (importer : option (SourceFile * Span)) (root : option ModuleRoot) : Load nat :=
  match fuel with
  | O => lift Fuel
  | S fuel => visit_path (visit fuel) (display path) (normalize path) importer root
  end.
End Loader.

Record ModuleGraph := mkGraph { g_root : nat; g_modules : list LoadedModule; g_roots : list ModuleRoot }.

Section Graph.
Variables (reserved_words special_float_literals : list string).
Variable canonicalize : Path → option Path.
Variable is_dir : Path → bool.
Variables current_dir current_exe : option Path.
Variable disk : Path → string + string.
Variable entries : Path → list string.

#[local] Abbreviation normalize := (normalize canonicalize current_dir).

Definition normalized_overlays (overlays : list (Path * string)) : gmap Path string :=
  fold_left (fun m o => <[normalize o.1 := o.2]> m) overlays ∅.

(** [load_with_overlays_and_paths], with the session it leaves *)
Definition load (fuel : nat) (entry : Path) (session : FrontendSession) (overlays : list (Path * string)) (bn_home : option Path)
  (extras : list ModuleRoot) : FrontendSession * res ModuleError ModuleGraph :=
  let entry := normalize entry in
  let root_directory := removelast entry in
  let standard := discover_standard_root is_dir current_dir current_exe root_directory bn_home in
  let roots := effective_module_paths canonicalize current_dir root_directory standard extras in
  let '(l, root) := visit reserved_words special_float_literals canonicalize current_dir disk entries (normalized_overlays overlays)
                      root_directory roots fuel entry None None (mkLoader ∅ [] session) in
  (l_session l, root ← root; Ok (mkGraph root (l_modules l) roots)).
End Graph.

(** ** Resolution *)

Lemma add_root_paths canonicalize cwd roots root :
  NoDup (map mr_path roots) → NoDup (map mr_path (add_root canonicalize cwd roots root)) ∧ ∃ more, add_root canonicalize cwd roots root = (roots ++ more)%list.
Proof.
  intros H. unfold add_root. destruct (existsb _ _) eqn:E; [split; [done|]; exists []; by rewrite app_nil_r|].
  split; [|by eexists]. rewrite map_app. apply list.NoDup_app. split_and!; [done| |cbn; apply NoDup_singleton].
  intros x Hx Hy. cbn in Hy. apply list_elem_of_singleton in Hy as ->.
  apply not_true_iff_false in E. apply E, existsb_exists. apply list_elem_of_In in Hx.
  apply in_map_iff in Hx as (r & Hr & Hin). exists r. split; [done|]. by apply bool_decide_eq_true.
Qed.

(** The front end ends for every source. *)
Lemma program_of_source_ends reserved special source : settles (fun _ => True) (program_of_source reserved special source).
Proof.
  unfold program_of_source.
  pose proof (lex_spec (sf_source source) (sf_revision source) reserved special (sf_text source)) as [Hend Hcovers].
  destruct (lex _ _ _ _ _) as [ts| | |]; [|done..].
  destruct (Hcovers ts eq_refl) as (ts0 & _ & ->). unfold closing. rewrite app_assoc.
  match goal with |- settles _ match ?r with _ => _ end => assert (settles (fun _ => True) r) as H end.
  { eapply parse_program_ends; [apply list.last_snoc|done]. }
  by destruct (parse_program _ _).
Qed.

(** ** The loader *)

Section Visited.
Variables (reserved_words special_float_literals : list string).
Variable canonicalize : Path → option Path.
Variable current_dir : option Path.
Variable disk : Path → string + string.
Variable entries : Path → list string.
Variable overlays : gmap Path string.
Variable root_directory : Path.
Variable roots : list ModuleRoot.

#[local] Abbreviation normalize := (normalize canonicalize current_dir).
#[local] Abbreviation program_of_source := (program_of_source reserved_words special_float_literals).
#[local] Abbreviation source_text := (source_text disk overlays).
#[local] Abbreviation read_source := (read_source disk overlays).
#[local] Abbreviation resolve_import :=
  (resolve_import reserved_words special_float_literals canonicalize current_dir disk entries overlays root_directory roots).
#[local] Abbreviation visit_items :=
  (visit_items reserved_words special_float_literals canonicalize current_dir disk entries overlays root_directory roots).
#[local] Abbreviation visit_path :=
  (visit_path reserved_words special_float_literals canonicalize current_dir disk entries overlays root_directory roots).
#[local] Abbreviation visit :=
  (visit reserved_words special_float_literals canonicalize current_dir disk entries overlays root_directory roots).

(** The program of a path, and what it imports. *)
Definition program_at (path : Path) (program : Program) : Prop :=
  ∃ text id rev, source_text path = inr text ∧ program_of_source (mkSource (display path) text id rev) = Ok program.
Definition import_parts (program : Program) : list (list string) := map fst (omap module_import (items program)).
Definition resolves (parts : list string) (path : Path) : Prop :=
  ∃ source span l l' imported root selector, resolve_import parts source span l = (l', Ok (imported, root, selector)) ∧ path = normalize imported.
Definition depends (p q : Path) : Prop :=
  ∃ program parts, program_at p program ∧ parts ∈ import_parts program ∧ resolves parts q.

(** The modules that are loaded: each has its own path, the program of that
    path, and its imports before it, one for each import that names a module. *)
Record module_ok (modules : list LoadedModule) (i : nat) (m : LoadedModule) : Prop := {
  mo_id : m_id m = i;
  mo_program : program_at (m_path m) (m_program m);
  mo_imports : Forall2 (fun parts j => (j < i)%nat ∧ ∃ m', modules !! j = Some m' ∧ resolves parts (m_path m'))
                 (import_parts (m_program m)) (m_imports m);
  mo_selectors : length (m_export_selectors m) = length (m_imports m);
}.
Record loader_ok (l : Loader) : Prop := {
  lo_modules : ∀ i m, l_modules l !! i = Some m → module_ok (l_modules l) i m ∧ l_states l !! m_path m = Some (Loaded i);
  lo_states : ∀ p i, l_states l !! p = Some (Loaded i) → ∃ m, l_modules l !! i = Some m ∧ m_path m = p;
}.
Definition visiting (l : Loader) (p : Path) : Prop := l_states l !! p = Some Visiting.

(** A loader that went on: nothing is unloaded, and what is being visited is as before. *)
Record goes_on (l l' : Loader) : Prop := {
  go_modules : l_modules l `prefix_of` l_modules l';
  go_visiting : ∀ p, visiting l' p ↔ visiting l p;
  go_states : dom (l_states l) ⊆ dom (l_states l');
}.

Lemma goes_on_refl l : goes_on l l.
Proof. by split. Qed.
Lemma goes_on_trans l1 l2 l3 : goes_on l1 l2 → goes_on l2 l3 → goes_on l1 l3.
Proof. intros [H1 H2 H3] [H4 H5 H6]. split; [by etrans|intros p; by rewrite H5, H2|by etrans]. Qed.

(** A step that only changes the session. *)
Definition same_graph (l l' : Loader) : Prop := l_modules l' = l_modules l ∧ l_states l' = l_states l.
Lemma same_graph_ok l l' : same_graph l l' → loader_ok l → loader_ok l'.
Proof. intros [Hm Hs] [H1 H2]. split; intros *; rewrite ?Hm, ?Hs; [apply H1|apply H2]. Qed.
Lemma same_graph_goes_on l l' : same_graph l l' → goes_on l l'.
Proof. intros [Hm Hs]. split; rewrite ?Hm, ?Hs; [done| |done]. intros p. unfold visiting. by rewrite Hs. Qed.

Definition is_cycle (e : ModuleError) : Prop := match e_diagnostic e with ImportCycle _ _ => True | _ => False end.
(** A failure that is no panic, and a cycle only where there is one. *)
Definition failure_ok {A} (r : res ModuleError A) : Prop :=
  match r with Ok _ => True | Err e => is_cycle e → ∃ q, tc depends q q | _ => False end.

Lemma not_cycle_fails {A} e : ¬ is_cycle e → failure_ok (A := A) (Err e).
Proof. by intros H ?%H. Qed.

Lemma read_source_spec path importer l :
  let '(l', r) := read_source path importer l in
  same_graph l l' ∧
  match r with
  | Ok source => source_text path = inr (sf_text source) ∧ sf_name source = display path
  | Err e => ¬ is_cycle e
  | _ => False
  end.
Proof.
  unfold read_source. destruct (source_text path) as [error|text].
  - split; [done|]. unfold is_cycle, module_not_found. destruct importer as [[source span]|]; cbn; tauto.
  - destruct (upsert_if_changed _ _ _) as [snapshot s]. by repeat split.
Qed.

Lemma exports_name_ends parent export : ∃ b, exports_name reserved_words special_float_literals parent export = Ok b.
Proof.
  unfold exports_name. pose proof (program_of_source_ends reserved_words special_float_literals parent) as H.
  destruct (program_of_source parent); try done; by eexists.
Qed.

Lemma resolve_import_spec parts source span l :
  let '(l', r) := resolve_import parts source span l in
  same_graph l l' ∧ match r with Ok (imported, _, _) => resolves parts (normalize imported) | Err e => ¬ is_cycle e | _ => False end.
Proof.
  destruct (resolve_import parts source span l) as [l' r] eqn:E.
  assert (same_graph l l' ∧ match r with Ok _ => True | Err e => ¬ is_cycle e | _ => False end) as [Hl Hr].
  2: { split; [done|]. destruct r as [[[imported root] selector]| | |]; [|done..]. by repeat eexists. }
  revert E. unfold resolve_import. destruct (import_path _ _ _ parts) as [nested_path nested_root].
  destruct (list.last parts) as [export|]; [|by intros [= <- <-]].
  destruct (length parts <? 2)%nat; [by intros [= <- <-]|].
  destruct (import_path _ _ _ (removelast parts)) as [parent_path [parent_root|]]; [|by intros [= <- <-]].
  unfold mbind, st_bind. pose proof (read_source_spec (normalize parent_path) (Some (source, span)) l) as H.
  destruct (read_source _ _ l) as [l1 [parent|e|w|]]; destruct H as [Hg He]; [|by intros [= <- <-]|done..].
  destruct (exports_name_ends parent export) as [b ->]. unfold lift. destruct b; [by intros [= <- <-]|].
  destruct nested_root; intros [= <- <-]; (split; [done|]); [done|]. unfold is_cycle. cbn. tauto.
Qed.

(** ** The visit *)

Variable readable : gset Path.
Hypothesis Hreadable : ∀ p text, source_text p = inr text → p ∈ readable.

Definition unvisited (l : Loader) : nat := size (readable ∖ dom (l_states l)).
Lemma goes_on_unvisited l l' : goes_on l l' → (unvisited l' ≤ unvisited l)%nat.
Proof. intros [_ _ H]. unfold unvisited. apply subseteq_size. set_solver. Qed.

(** What holds before a visit: the importer is being visited and needs the
    path, and all that is being visited needs the importer. *)
Definition stack_ok (importer : option (SourceFile * Span)) (path : Path) (l : Loader) : Prop :=
  match importer with
  | Some _ => ∃ p, visiting l p ∧ depends p path ∧ ∀ v, visiting l v → rtc depends v p
  | None => ∀ p, ¬ visiting l p
  end.

Definition visits (fuel : nat) : Prop := ∀ path importer root l,
  loader_ok l → stack_ok importer (normalize path) l → (unvisited l < fuel)%nat →
  let '(l', r) := visit fuel path importer root l in
  failure_ok r ∧ ∀ id, r = Ok id → loader_ok l' ∧ goes_on l l' ∧ ∃ m, l_modules l' !! id = Some m ∧ m_path m = normalize path.

Lemma visit_items_spec fuel source path program its l :
  visits fuel → program_at path program → (∀ item, item ∈ its → item ∈ items program) →
  loader_ok l → visiting l path → (∀ v, visiting l v → rtc depends v path) → (unvisited l < fuel)%nat →
  let '(l', r) := visit_items (visit fuel) source its l in
  failure_ok r ∧ ∀ ids selectors, r = Ok (ids, selectors) →
    loader_ok l' ∧ goes_on l l' ∧ length selectors = length ids ∧
    Forall2 (fun parts j => ∃ m, l_modules l' !! j = Some m ∧ resolves parts (m_path m)) (map fst (omap module_import its)) ids.
Proof.
  intros Hvisit Hprogram. revert l. induction its as [|item its IH]; intros l Hitems Hl Hp Hstack Hfuel.
  { cbn [visit_items]. split; [done|]. intros ids selectors [= <- <-]. split_and!; [done|apply goes_on_refl|done|constructor]. }
  cbn [visit_items omap list_omap]. destruct (module_import item) as [[parts span]|] eqn:Hitem.
  2: { apply IH; [|done..]. intros i Hi. by apply Hitems, list_elem_of_further. }
  unfold mbind, st_bind. pose proof (resolve_import_spec parts source span l) as H.
  destruct (resolve_import parts source span l) as [l1 [[[imported root] selector]|e|w|]]; destruct H as [Hg Hr]; [|split; [by apply not_cycle_fails|done]|done..].
  assert (depends path (normalize imported)) as Hdep.
  { exists program, parts. split_and!; [done| |done]. unfold import_parts. apply list_elem_of_fmap. exists (parts, span). split; [done|].
    apply list_elem_of_omap. exists item. split; [|done]. apply Hitems, list_elem_of_here. }
  pose proof (same_graph_goes_on _ _ Hg) as Hg1. pose proof (goes_on_unvisited _ _ Hg1).
  pose proof (Hvisit imported (Some (source, span)) root l1) as Hv.
  destruct (visit fuel imported (Some (source, span)) root l1) as [l2 r]. destruct Hv as [Hfail Hok].
  - by eapply same_graph_ok.
  - exists path. split_and!; [by apply (go_visiting _ _ Hg1)|done|]. intros v Hv. apply Hstack. by apply (go_visiting _ _ Hg1).
  - lia.
  - destruct r as [id|e|w|]; [|done..]. destruct (Hok id eq_refl) as (Hl2 & Hg2 & m & Hm & Hpath).
    pose proof (goes_on_trans _ _ _ Hg1 Hg2) as Hg12. pose proof (goes_on_unvisited _ _ Hg12).
    specialize (IH l2). destruct (visit_items (visit fuel) source its l2) as [l3 r]. destruct IH as [Hfail' Hok'].
    + intros i Hi. by apply Hitems, list_elem_of_further.
    + done.
    + by apply (go_visiting _ _ Hg12).
    + intros v Hv. apply Hstack. by apply (go_visiting _ _ Hg12).
    + lia.
    + destruct r as [[ids selectors]|e|w|]; [|done..]. split; [done|]. intros ids' selectors' [= <- <-].
      destruct (Hok' ids selectors eq_refl) as (Hl3 & Hg3 & Hlen & Hall). split_and!; [done|by eapply goes_on_trans|cbn [length]; by f_equal|].
      constructor; [|done]. exists m. split; [|by rewrite Hpath]. eapply prefix_lookup_Some; [done|apply Hg3].
Qed.

Lemma program_of_source_error source d : program_of_source source = Err d → ∀ message span, d ≠ ImportCycle message span.
Proof.
  unfold Modules.program_of_source. destruct (lex _ _ _ _ _); [destruct (parse_program _ _)|..]; by intros [= <-].
Qed.

(** A path begins to be visited. *)
Lemma begin_visit path l : l_states l !! path = None → loader_ok l →
  let l' := with_state path Visiting l in
  loader_ok l' ∧ (∀ p, visiting l' p ↔ p = path ∨ visiting l p) ∧ (path ∈ readable → (unvisited l' < unvisited l)%nat).
Proof.
  intros Hnone [Hm Hs] l'. split_and!.
  - split; cbn [l' with_state l_modules l_states].
    + intros i m Hi. destruct (Hm i m Hi) as [Hok Hst]. split; [done|]. rewrite lookup_insert_ne; [done|]. intros ->. by rewrite Hst in Hnone.
    + intros p i. rewrite lookup_insert. destruct (decide (path = p)); [done|apply Hs].
  - intros p. unfold visiting. cbn [l' with_state l_states]. rewrite lookup_insert. destruct (decide (path = p)) as [->|Hne]; [by split; auto|].
    split; [by right|]. by intros [->|].
  - intros Hr. unfold unvisited. cbn [l' with_state l_states]. rewrite dom_insert_L. apply subset_size.
    apply not_elem_of_dom in Hnone. set_solver.
Qed.

(** A module is loaded. *)
Lemma end_visit path l m : visiting l path → loader_ok l → m_path m = path →
  module_ok (l_modules l ++ [m]) (length (l_modules l)) m →
  let l' := mkLoader (<[path := Loaded (length (l_modules l))]> (l_states l)) (l_modules l ++ [m])%list (l_session l) in
  loader_ok l' ∧ (∀ p, visiting l' p ↔ p ≠ path ∧ visiting l p) ∧ dom (l_states l) ⊆ dom (l_states l').
Proof.
  intros Hvis [Hm Hs] Hpath Hok l'. split_and!.
  - split; cbn [l' l_modules l_states].
    + intros i m' [Hi|(Hge & Hi)]%lookup_app_Some.
      * destruct (Hm i m' Hi) as [[H1 H2 H3 H4] Hst]. split.
        -- split; [done|done| |done]. eapply Forall2_impl; [|exact H3]. intros parts j (Hj & m1 & Hm1 & Hr).
           split; [done|]. exists m1. split; [|done]. by apply lookup_app_l_Some.
        -- rewrite lookup_insert_ne; [done|]. intros Heq. unfold visiting in Hvis. rewrite Heq, Hst in Hvis. done.
      * apply list_lookup_singleton_Some in Hi as [Hz <-]. assert (i = length (l_modules l)) as -> by lia.
        split; [done|]. by rewrite Hpath, lookup_insert_eq.
    + intros p i. rewrite lookup_insert. destruct (decide (path = p)) as [<-|Hne].
      * intros [= <-]. exists m. split; [|done]. by rewrite lookup_app_r, Nat.sub_diag by lia.
      * intros Hi. destruct (Hs p i Hi) as (m1 & Hm1 & Hp1). exists m1. split; [|done]. by apply lookup_app_l_Some.
  - intros p. unfold visiting. cbn [l' l_states]. rewrite lookup_insert. destruct (decide (path = p)) as [->|Hne]; [by split; [|intros []]|].
    split; [by split|by intros []].
  - cbn [l' l_states]. rewrite dom_insert_L. set_solver.
Qed.

Lemma visit_spec fuel : visits fuel.
Proof.
  induction fuel as [|fuel IH]; [unfold visits; intros; lia|].
  intros path importer root l Hl Hstack Hfuel. cbn [Modules.visit]. unfold Modules.visit_path.
  destruct (_ && _).
  { unfold lift. split; [|done]. unfold failure_ok, is_cycle, module_not_found. destruct importer as [[source span]|]; cbn; tauto. }
  unfold mbind at 1, st_bind at 1, get at 1. set (here := normalize path) in *.
  destruct (l_states l !! here) as [[|id]|] eqn:Hstate.
  - destruct importer as [[source span]|]; cbn [stack_ok] in Hstack; [|by exfalso; eapply Hstack].
    unfold lift. split; [|done]. intros _. destruct Hstack as (p & Hp & Hdep & Hall). exists here.
    eapply tc_rtc_l; [by apply Hall|by apply tc_once].
  - split; [done|]. intros ? [= <-]. destruct (lo_states l Hl here id Hstate) as (m & Hm & Hpath). split_and!; [done|apply goes_on_refl|eauto].
  - unfold mbind, st_bind. pose proof (read_source_spec here importer l) as H.
    destruct (read_source here importer l) as [l1 [source|e|w|]]; destruct H as [Hg Hr]; [|split; [by apply not_cycle_fails|done]|done..].
    destruct Hr as [Htext Hname]. pose proof (Hreadable _ _ Htext) as Hin.
    unfold lift. pose proof (program_of_source_ends reserved_words special_float_literals source) as Hends.
    destruct (program_of_source source) as [program|d|w|] eqn:Hprogram; [| |done..].
    2: { split; [|done]. apply not_cycle_fails. unfold is_cycle. cbn.
         pose proof (program_of_source_error source d Hprogram) as Hd. destruct d; try tauto; by destruct (Hd _ _ eq_refl). }
    assert (program_at here program) as Hat.
    { exists (sf_text source), (sf_source source), (sf_revision source). split; [done|]. rewrite <-Hname. by destruct source. }
    assert (loader_ok l1) as Hl1 by by eapply same_graph_ok.
    assert (l_states l1 !! here = None) as Hnone by by destruct Hg as [_ ->].
    destruct (begin_visit here l1 Hnone Hl1) as (Hl2 & Hvis2 & Hless). specialize (Hless Hin).
    pose proof (goes_on_unvisited _ _ (same_graph_goes_on _ _ Hg)).
    assert (∀ p, visiting l1 p ↔ visiting l p) as Hvis1 by (intros p; apply (go_visiting _ _ (same_graph_goes_on _ _ Hg))).
    unfold modify. set (l2 := with_state here Visiting l1) in *.
    pose proof (visit_items_spec fuel source here program (items program) l2 IH Hat (fun _ H => H) Hl2) as Hspec.
    destruct (visit_items (visit fuel) source (items program) l2) as [l3 r]. destruct Hspec as [Hfail Hok].
    + apply Hvis2. by left.
    + intros v [->|Hv]%Hvis2; [done|]. apply Hvis1 in Hv. destruct importer as [imp|]; cbn [stack_ok] in Hstack; [|by exfalso; eapply Hstack].
      destruct Hstack as (q & Hq & Hdep & Hall). eapply rtc_r; [by apply Hall|done].
    + lia.
    + destruct r as [[ids selectors]|e|w|]; [|by split|done..].
      destruct (Hok ids selectors eq_refl) as (Hl3 & Hg3 & Hlen & Hids). unfold get.
      destruct (Z.ltb_spec u32_MAX (Z.of_nat (length (l_modules l3)))).
      { split; [|done]. apply not_cycle_fails. unfold is_cycle. cbn. tauto. }
      split; [done|]. intros ? [= <-].
      set (m := mkModule _ _ _ _ _ _ _ _). assert (visiting l3 here) as Hvis3 by (apply (go_visiting _ _ Hg3), Hvis2; by left).
      destruct (end_visit here l3 m Hvis3 Hl3 eq_refl) as (Hl4 & Hvis4 & Hdom).
      { split; [done|done| |done]. eapply Forall2_impl; [|exact Hids]. cbn. intros parts j (m1 & Hm1 & Hres).
        split; [by eapply lookup_lt_Some|]. exists m1. split; [by apply lookup_app_l_Some|done]. }
      split_and!; [done| |].
      * split.
        -- cbn [l_modules]. destruct Hg as [Hg _]. rewrite <-Hg. etrans; [apply (go_modules _ _ Hg3)|]. by eexists.
        -- intros p. rewrite Hvis4, (go_visiting _ _ Hg3), Hvis2, Hvis1. split; [by intros [? [?|?]]|]. intros Hp. split; [|by right].
           intros ->. unfold visiting in Hp. congruence.
        -- etrans; [|exact Hdom]. etrans; [|apply (go_states _ _ Hg3)]. destruct Hg as [_ Hg]. cbn [l2 with_state l_states]. rewrite Hg, dom_insert_L. set_solver.
      * exists m. split; [|done]. cbn [l_modules]. by rewrite lookup_app_r, Nat.sub_diag by lia.
Qed.
End Visited.

(** ** Loading *)

Lemma ok_paths_distinct reserved special canonicalize cwd disk entries overlays directory roots l :
  loader_ok reserved special canonicalize cwd disk entries overlays directory roots l → NoDup (map m_path (l_modules l)).
Proof.
  intros [Hm _]. apply list.NoDup_alt. intros i j p Hi Hj.
  rewrite list_lookup_fmap in Hi, Hj. apply fmap_Some in Hi as (m & Hi & ->), Hj as (m' & Hj & Heq).
  destruct (Hm i m Hi) as [_ H1], (Hm j m' Hj) as [_ H2]. rewrite Heq, H2 in H1. by injection H1.
Qed.

Lemma module_paths_distinct canonicalize cwd directory standard extras :
  NoDup (map mr_path (effective_module_paths canonicalize cwd directory standard extras)).
Proof.
  unfold effective_module_paths. generalize ([mkRoot directory EntryDir; mkRoot (directory ++ ["modules"])%list EntryDir; standard] ++ extras)%list.
  intros l. assert (NoDup (map mr_path [])) as H by constructor. revert H. generalize (@nil ModuleRoot).
  induction l as [|root l IH]; intros roots H; [done|]. cbn [fold_left]. apply IH. by apply add_root_paths.
Qed.

Section Loading.
Variables (reserved_words special_float_literals : list string).
Variable canonicalize : Path → option Path.
Variable is_dir : Path → bool.
Variables current_dir current_exe : option Path.
Variable disk : Path → string + string.
Variable entries : Path → list string.

(** C13: Loading ends where the files that can be read are finitely many, however
    they import each other. A graph that is loaded has each file once, under
    its own index, with the program its text parses to, and for each of its
    imports a module that comes before it, at the path the import resolves to,
    so no module needs itself; the entry file is among them. An import cycle
    is reported only where there is one, and nothing panics. *)
Theorem load_ordered fuel entry session overlays bn_home extras readable :
  let overlaid := normalized_overlays canonicalize current_dir overlays in
  let directory := removelast (normalize canonicalize current_dir entry) in
  (∀ p text, source_text disk overlaid p = inr text → p ∈ readable) → (size (readable : gset Path) < fuel)%nat →
  match (load reserved_words special_float_literals canonicalize is_dir current_dir current_exe disk entries
           fuel entry session overlays bn_home extras).2 with
  | Ok g =>
      (∀ i m, g_modules g !! i = Some m →
         module_ok reserved_words special_float_literals canonicalize current_dir disk entries overlaid directory (g_roots g) (g_modules g) i m) ∧
      NoDup (map m_path (g_modules g)) ∧ NoDup (map mr_path (g_roots g)) ∧
      ∃ m, g_modules g !! g_root g = Some m ∧ m_path m = normalize canonicalize current_dir (normalize canonicalize current_dir entry)
  | Err e => is_cycle e → ∃ q, tc (depends reserved_words special_float_literals canonicalize current_dir disk entries overlaid directory
      (effective_module_paths canonicalize current_dir directory (discover_standard_root is_dir current_dir current_exe directory bn_home) extras)) q q
  | _ => False
  end.
Proof.
  intros overlaid directory Hread Hfuel. unfold load. fold overlaid. fold directory.
  set (roots := effective_module_paths _ _ _ _ _).
  pose proof (visit_spec reserved_words special_float_literals canonicalize current_dir disk entries overlaid directory roots readable Hread
    fuel (normalize canonicalize current_dir entry) None None (mkLoader ∅ [] session)) as H.
  destruct (visit _ _ _ _ _ _ _ _ _ _ _ _ _ _) as [l r]. cbn [snd]. destruct H as [Hfail Hok].
  - split; cbn; intros *; [by rewrite lookup_nil|by rewrite lookup_empty].
  - intros p. unfold visiting. cbn. by rewrite lookup_empty.
  - unfold unvisited. cbn [l_states]. rewrite dom_empty_L, difference_empty_L. done.
  - destruct r as [id|e|w|]; cbn; [|done..]. destruct (Hok id eq_refl) as (Hl & _ & Hm).
    split_and!; [intros i m Hi; by apply (lo_modules _ _ _ _ _ _ _ _ _ l Hl)|by eapply ok_paths_distinct|apply module_paths_distinct|done].
Qed.
End Loading.

(** ** A program of two modules *)

Definition module_words : list string := ["AS"; "IMPORT"; "EXPORT"; "CONST"; "INTEGER"; "HOST"].
Definition sample_files : list (Path * string) :=
  [(["/"; "p"; "main.bn"], "IMPORT lib AS L" +:+ LF +:+ "IMPORT lib.one AS One" +:+ LF);
   (["/"; "p"; "lib.bn"], "EXPORT CONST one AS INTEGER = 1" +:+ LF);
   (["/"; "p"; "loop.bn"], "IMPORT back AS B" +:+ LF);
   (["/"; "p"; "back.bn"], "IMPORT loop AS L" +:+ LF)].
Definition sample_disk (p : Path) : string + string :=
  match snd <$> List.find (fun f => bool_decide (f.1 = p)) sample_files with Some text => inr text | None => inl "entity not found" end.
Definition sample_entries (p : Path) : list string :=
  match p with ["/"; "p"] => ["main.bn"; "lib.bn"; "loop.bn"; "back.bn"] | _ => [] end.
Definition sample_load (entry : string) : res ModuleError ModuleGraph :=
  (load module_words [] Some (fun _ => false) (Some ["/"]) None sample_disk sample_entries 5 ["/"; "p"; entry] empty_session [] None []).2.
Definition shown (r : res ModuleError ModuleGraph) : option (list (nat * Path * list nat * list (option string))) + option string :=
  match r with
  | Ok g => inl (Some (map (fun m => (m_id m, m_path m, m_imports m, m_export_selectors m)) (g_modules g)))
  | Err e => inr (match e_diagnostic e with ImportCycle message _ => Some message | _ => None end)
  | _ => inl None
  end.

Example loaded :
  shown (sample_load "main.bn") = inl (Some [(0%nat, ["/"; "p"; "lib.bn"], [], []); (1%nat, ["/"; "p"; "main.bn"], [0%nat; 0%nat], [None; Some "one"])]) ∧
  shown (sample_load "loop.bn") = inr (Some "import cycle includes /p/loop.bn").
Proof. split; vm_compute; reflexivity. Qed.

Definition sample_readable : gset Path := list_to_set (map fst sample_files).
Lemma sample_reads p text : source_text sample_disk ∅ p = inr text → p ∈ sample_readable.
Proof.
  unfold source_text. rewrite lookup_empty. unfold sample_disk. destruct (List.find _ sample_files) as [f|] eqn:Hf; [|done]. intros _.
  apply find_some in Hf as [Hin Heq%bool_decide_eq_true]. unfold sample_readable. apply elem_of_list_to_set, list_elem_of_fmap.
  exists f. split; [done|]. by apply list_elem_of_In.
Qed.

Lemma load_ordered_witness :
  ∃ g, sample_load "main.bn" = Ok g ∧ NoDup (map m_path (g_modules g)).
Proof.
  destruct (sample_load "main.bn") as [g|e|w|] eqn:Hg; [|exfalso; by vm_compute in Hg..].
  exists g. split; [reflexivity|].
  pose proof (load_ordered module_words [] Some (fun _ => false) (Some ["/"]) None sample_disk sample_entries 5 ["/"; "p"; "main.bn"]
    empty_session [] None [] sample_readable sample_reads ltac:(vm_compute; lia)) as H.
  unfold sample_load in Hg. rewrite Hg in H. apply H.
Defined.
