(* ===== verification/LogLine.v ===== *)
(** * LogLine: the records of BNLog and their lines ([libraries/bn_core_log/src/lib.rs], [fields.rs], [records.rs])

    Levels, fields and records, what is never written, the line of a record in
    each format, and a reader of the lines in JSON. *)

From S2P Require Import Prelude Text Literals Scalars Lexer Civil Temporal Splits Addresses HttpDate StaticFiles.

#[local] Open Scope string_scope.
#[local] Open Scope Z_scope.

(** ** Levels and formats *)

Inductive Level := LError | LWarn | LInfo | LHttp | LVerbose | LDebug | LSilly.
#[export] Instance Level_eq_dec : EqDecision Level.
Proof. solve_decision. Defined.

Definition level_rank (l : Level) : Z :=
  match l with LError => 0 | LWarn => 1 | LInfo => 2 | LHttp => 3 | LVerbose => 4 | LDebug => 5 | LSilly => 6 end.
Definition LEVELS : list Level := [LError; LWarn; LInfo; LHttp; LVerbose; LDebug; LSilly].
Definition level_from_i64 (value : Z) : option Level := List.find (fun l => level_rank l =? value) LEVELS.
Definition level_from_i128 (value : Z) : option Level := if in_range i64_MIN i64_MAX value then level_from_i64 value else None.
Definition syslog_severity (l : Level) : Z :=
  match l with LError => 3 | LWarn => 4 | LInfo | LHttp => 6 | LVerbose | LDebug | LSilly => 7 end.
Definition level_name (l : Level) : string :=
  match l with LError => "ERROR" | LWarn => "WARN" | LInfo => "INFO" | LHttp => "HTTP" | LVerbose => "VERBOSE" | LDebug => "DEBUG" | LSilly => "SILLY" end.

Inductive Format := Json | Syslog | Apache.
#[export] Instance Format_eq_dec : EqDecision Format.
Proof. solve_decision. Defined.
Definition format_from_name (name : string) : option Format :=
  if String.eqb name "JSON" then Some Json else if String.eqb name "SYSLOG" then Some Syslog
  else if String.eqb name "APACHE" then Some Apache else None.

(** ** Fields *)

(** A [BTreeMap<String, String>]: in the order of its keys. *)
Abbreviation FieldMap := (list (string * string)).

Definition FIELD_VALUE_MAX_BYTES : Z := 4096.

Fixpoint field_insert (key value : string) (fields : FieldMap) : FieldMap :=
  match fields with
  | [] => [(key, value)]
  | (k, v) :: rest =>
      match str_cmp key k with
      | Lt => (key, value) :: fields
      | Eq => (key, value) :: rest
      | Gt => (k, v) :: field_insert key value rest
      end
  end.
Definition field_get (key : string) (fields : FieldMap) : option string := snd <$> List.find (fun f => String.eqb f.1 key) fields.
(** [get_mut] and an assignment *)
Definition field_update (key : string) (f : string → string) (fields : FieldMap) : FieldMap :=
  map (fun p => if String.eqb p.1 key then (p.1, f p.2) else p) fields.
Definition fields_extend (provided fields : FieldMap) : FieldMap :=
  fold_left (fun fields p => field_insert p.1 p.2 fields) provided fields.

(** ** What is never written *)

Definition SENSITIVE_EXACT : list string := ["query"; "body"; "passwd"; "tls_key"].
Definition SENSITIVE_MARKERS : list string :=
  ["authorization"; "cookie"; "session"; "password"; "secret"; "token"; "api_key"; "apikey"; "access_key"; "private_key"; "credential";
   "bearer"; "jwt"; "signature"].

Definition normalized_byte (c : ascii) : ascii :=
  let c := ascii_lower c in if Ascii.eqb c "-" || Ascii.eqb c "." then "_"%char else c.
Fixpoint normalized_key (key : string) : string :=
  match key with EmptyString => "" | String c key => String (normalized_byte c) (normalized_key key) end.

(** The loop over the segments that follow a start. *)
Fixpoint joins_to_name (joined : option string) (segments : list string) : bool :=
  match segments with
  | [] => false
  | segment :: segments =>
      let joined := match joined with None => segment | Some j => j +:+ "_" +:+ segment end in
      existsb (String.eqb joined) SENSITIVE_EXACT || joins_to_name (Some joined) segments
  end.
Fixpoint starts_a_name (segments : list string) : bool :=
  match segments with [] => false | _ :: rest => joins_to_name None segments || starts_a_name rest end.
Definition sensitive_segments (normalized : string) : bool :=
  starts_a_name (List.filter (fun s => negb (String.eqb s "")) (split "_" normalized)).

Definition is_sensitive (key : string) : bool :=
  let normalized := normalized_key key in
  existsb (fun marker => contains_text marker normalized) SENSITIVE_MARKERS || sensitive_segments normalized.

Definition without_query (value : string) : string :=
  join " " (map (fun part => match split_once "?" (text_of part) with Some (path, _) => path | None => text_of part end) (words_from [] (chars value))).

(** ** Records *)

Record LogRecord := mkRecord {
  lr_timestamp : string;
  lr_label : string;
  lr_level : Level;
  lr_message : string;
  lr_fields : FieldMap;
  lr_host : string;
  lr_process : Z;
}.

Definition with_timestamp (timestamp label : string) (level : Level) (message : string) (context provided : FieldMap) (host : string) (process : Z) :
  LogRecord := mkRecord timestamp label level message (fields_extend provided context) host process.

Definition without_queries (r : LogRecord) : LogRecord :=
  mkRecord (lr_timestamp r) (lr_label r) (lr_level r) (lr_message r)
    (field_update "http.referrer" without_query (field_update "http.path" without_query (lr_fields r))) (lr_host r) (lr_process r).

Definition written_fields (r : LogRecord) : FieldMap := List.filter (fun f => negb (is_sensitive f.1)) (lr_fields r).

(** ** Lines *)

Definition MAX_RECORD_BYTES : Z := 65536.
Definition RECORD_TOO_LONG : string := "serialized log record exceeds 64 KiB".

(** What is added to the text of a line. *)
Abbreviation Writer := (string → res string string).

Definition push (part : string) : Writer := fun text =>
  if MAX_RECORD_BYTES <? str_len text + str_len part then Err RECORD_TOO_LONG else Ok (text +:+ part).
Definition push_all (parts : list string) : Writer := fun text => foldR (fun text part => push part text) text parts.
(** One writer after another. *)
Definition then_ (a b : Writer) : Writer := fun text => text ← a text; b text.
#[local] Infix ">>>" := then_ (at level 60, right associativity).

Definition QUOTES : string := QUOTE.
Definition hex2 (n : Z) : string := String (hex_digit (n / 16)) (String (hex_digit (n mod 16)) "").

(** What is pushed for one scalar of a JSON string. *)
Definition json_piece (c : Char) : string :=
  if String.eqb c QUOTE then BACKSLASH +:+ QUOTE
  else if String.eqb c BACKSLASH then BACKSLASH +:+ BACKSLASH
  else if String.eqb c LF then BACKSLASH +:+ "n"
  else if String.eqb c CR then BACKSLASH +:+ "r"
  else if String.eqb c TAB then BACKSLASH +:+ "t"
  else if is_control c then BACKSLASH +:+ "u00" +:+ hex2 (code_point c)
  else c.
Definition json_string (value : string) : Writer := push QUOTES >>> push_all (map json_piece (chars value)) >>> push QUOTES.

Definition plain_piece (c : Char) : string :=
  if String.eqb c LF || String.eqb c CR || String.eqb c TAB then " " else if is_control c then "?" else c.
Definition plain (value : string) : Writer := push_all (map plain_piece (chars value)).

(** The pushes for one scalar inside the quotes of an APACHE field. *)
Definition quoted_pieces (c : Char) : list string :=
  if String.eqb c QUOTE then [BACKSLASH +:+ QUOTE]
  else if String.eqb c BACKSLASH then [BACKSLASH +:+ BACKSLASH]
  else if is_control c then map (fun b => BACKSLASH +:+ "x" +:+ hex2 (byte_val b)) (str_bytes c)
  else [c].
Definition quoted (value : string) : Writer := push_all (concat (map quoted_pieces (chars value))).

Fixpoint json_fields (first : bool) (fields : FieldMap) : Writer :=
  match fields with
  | [] => fun text => Ok text
  | (key, value) :: fields =>
      (if first then fun text => Ok text else push ",") >>> json_string key >>> push ":" >>> json_string value >>> json_fields false fields
  end.
Definition json (r : LogRecord) : Writer :=
  push ("{" +:+ QUOTES +:+ "fields" +:+ QUOTES +:+ ":{") >>> json_fields true (written_fields r) >>>
  push ("}," +:+ QUOTES +:+ "label" +:+ QUOTES +:+ ":") >>> json_string (lr_label r) >>>
  push ("," +:+ QUOTES +:+ "level" +:+ QUOTES +:+ ":") >>> json_string (level_name (lr_level r)) >>>
  push ("," +:+ QUOTES +:+ "message" +:+ QUOTES +:+ ":") >>> json_string (lr_message r) >>>
  push ("," +:+ QUOTES +:+ "timestamp" +:+ QUOTES +:+ ":") >>> json_string (lr_timestamp r) >>> push "}".

Definition syslog_header (value : string) (max : Z) : option string :=
  if negb (String.eqb value "") && (str_len value <=? max) && forallb (fun b => in_range 33 126 (byte_val b)) (str_bytes value)
  then Some value else None.

Fixpoint syslog_fields (fields : FieldMap) : Writer :=
  match fields with
  | [] => fun text => Ok text
  | (key, value) :: fields => push " " >>> plain key >>> push "=" >>> plain value >>> syslog_fields fields
  end.
(** The answer of [parse_rfc3339], whose panic is a panic here. *)
Definition instant_of (timestamp : string) : res string (option Z) :=
  match parse_rfc3339 timestamp with Ok t => Ok (Some t) | Err _ => Ok None | Panic w => Panic w | Fuel => Fuel end.
Definition syslog (r : LogRecord) : Writer := fun text =>
  text ← push ("<" +:+ dec_of_Z (1 * 8 + syslog_severity (lr_level r)) +:+ ">1 ") text;
  instant ← instant_of (lr_timestamp r);
  (push match instant with Some _ => lr_timestamp r | None => "-" end >>> push " " >>>
   push (default "-" (syslog_header (lr_host r) 255)) >>> push " " >>>
   push (default "-" (syslog_header (lr_label r) 48)) >>> push " " >>>
   push (dec_of_Z (lr_process r)) >>> push " " >>> push "-" >>> push " " >>> push "-" >>> push " " >>>
   plain (lr_message r) >>> syslog_fields (written_fields r)) text.

Definition MONTH_NAMES : list string := ["Jan"; "Feb"; "Mar"; "Apr"; "May"; "Jun"; "Jul"; "Aug"; "Sep"; "Oct"; "Nov"; "Dec"].
Definition apache_time_of (instant : option Z) : option string :=
  instant ← instant;
  '(days, millis) ← split_timestamp instant;
  let date := civil_from_days days in
  month ← MONTH_NAMES !! Z.to_nat (c_month date - 1);
  let seconds := millis / 1000 in
  Some (pad0 2 (c_day date) +:+ "/" +:+ month +:+ "/" +:+ pad0 4 (c_year date) +:+ ":" +:+ pad0 2 (seconds / 3600) +:+ ":"
        +:+ pad0 2 (seconds / 60 mod 60) +:+ ":" +:+ pad0 2 (seconds mod 60) +:+ " +0000").
Definition apache_time (timestamp : string) : res string (option string) :=
  instant ← instant_of timestamp; Ok (apache_time_of instant).

Definition apache (r : LogRecord) : Writer := fun text =>
  let field key := value ← field_get key (lr_fields r); if String.eqb value "" then None else Some value in
  let request := join " " (omap field ["http.method"; "http.path"; "http.protocol"]) in
  text ← (plain (default "-" (field "http.remote")) >>> push " " >>> push "-" >>> push " " >>> push "-" >>> push " [") text;
  time ← apache_time (lr_timestamp r);
  (push (default "-" time) >>> push ("] " +:+ QUOTES) >>> quoted (if String.eqb request "" then "-" else request) >>> push (QUOTES +:+ " ") >>>
   plain (default "-" (field "http.status")) >>> push " " >>> plain (default "-" (field "http.bytes_sent")) >>> push (" " +:+ QUOTES) >>>
   quoted (default "-" (field "http.referrer")) >>> push (QUOTES +:+ " " +:+ QUOTES) >>>
   quoted (default "-" (field "http.user_agent")) >>> push QUOTES) text.

(** [Record::line] *)
Definition record_line (r : LogRecord) (format : Format) : res string string :=
  let r := without_queries r in
  match format with Json => json r | Syslog => syslog r | Apache => apache r end "".

(** ** What a writer adds

    The text each format gives a record, written in one piece. *)

Definition emits (w : Writer) (t : string) : Prop :=
  ∀ text, str_len text ≤ MAX_RECORD_BYTES →
    w text = if MAX_RECORD_BYTES <? str_len text + str_len t then Err RECORD_TOO_LONG else Ok (text +:+ t).

Lemma str_len_bound s : 0 ≤ str_len s.
Proof. unfold str_len. lia. Qed.

Lemma emits_push t : emits (push t) t.
Proof. intros text _. reflexivity. Qed.
Lemma emits_skip : emits (fun text => Ok text) "".
Proof.
  intros text H. rewrite str_append_nil. change (str_len "") with 0. rewrite Z.add_0_r.
  destruct (Z.ltb_spec MAX_RECORD_BYTES (str_len text)); [lia|done].
Qed.
Lemma emits_then a b s t : emits a s → emits b t → emits (a >>> b) (s +:+ t).
Proof.
  intros Ha Hb text H. unfold then_. rewrite Ha by done. pose proof (str_len_bound t).
  rewrite str_len_app. destruct (Z.ltb_spec MAX_RECORD_BYTES (str_len text + str_len s)).
  - destruct (Z.ltb_spec MAX_RECORD_BYTES (str_len text + (str_len s + str_len t))); [done|lia].
  - cbn [mbind res_bind]. rewrite Hb by by rewrite str_len_app. rewrite str_len_app, Z.add_assoc. by rewrite str_append_assoc.
Qed.
Lemma emits_all parts : emits (push_all parts) (text_of parts).
Proof.
  induction parts as [|p parts IH]; [exact emits_skip|]. cbn [text_of].
  intros text H. rewrite <- (emits_then (push p) (push_all parts) p (text_of parts) (emits_push p) IH text H). reflexivity.
Qed.

Create HintDb emitting discriminated.
#[export] Hint Resolve emits_push emits_skip emits_then emits_all : emitting.

Definition json_string_text (v : string) : string := QUOTES +:+ (text_of (map json_piece (chars v)) +:+ QUOTES).
Fixpoint json_fields_text (first : bool) (fields : FieldMap) : string :=
  match fields with
  | [] => ""
  | (key, value) :: fields =>
      (if first then "" else ",") +:+ (json_string_text key +:+ (":" +:+ (json_string_text value +:+ json_fields_text false fields)))
  end.
Definition json_text (r : LogRecord) : string :=
  ("{" +:+ QUOTES +:+ "fields" +:+ QUOTES +:+ ":{") +:+ (json_fields_text true (written_fields r) +:+
  (("}," +:+ QUOTES +:+ "label" +:+ QUOTES +:+ ":") +:+ (json_string_text (lr_label r) +:+
  (("," +:+ QUOTES +:+ "level" +:+ QUOTES +:+ ":") +:+ (json_string_text (level_name (lr_level r)) +:+
  (("," +:+ QUOTES +:+ "message" +:+ QUOTES +:+ ":") +:+ (json_string_text (lr_message r) +:+
  (("," +:+ QUOTES +:+ "timestamp" +:+ QUOTES +:+ ":") +:+ (json_string_text (lr_timestamp r) +:+ "}"))))))))).

Definition plain_text (v : string) : string := text_of (map plain_piece (chars v)).
Definition quoted_text (v : string) : string := text_of (concat (map quoted_pieces (chars v))).

Fixpoint syslog_fields_text (fields : FieldMap) : string :=
  match fields with
  | [] => ""
  | (key, value) :: fields => " " +:+ (plain_text key +:+ ("=" +:+ (plain_text value +:+ syslog_fields_text fields)))
  end.
Definition syslog_text (instant : option Z) (r : LogRecord) : string :=
  ("<" +:+ dec_of_Z (1 * 8 + syslog_severity (lr_level r)) +:+ ">1 ") +:+
  (match instant with Some _ => lr_timestamp r | None => "-" end +:+ (" " +:+
  (default "-" (syslog_header (lr_host r) 255) +:+ (" " +:+
  (default "-" (syslog_header (lr_label r) 48) +:+ (" " +:+
  (dec_of_Z (lr_process r) +:+ (" " +:+ ("-" +:+ (" " +:+ ("-" +:+ (" " +:+
  (plain_text (lr_message r) +:+ syslog_fields_text (written_fields r)))))))))))))).

Definition apache_field (r : LogRecord) (key : string) : option string :=
  value ← field_get key (lr_fields r); if String.eqb value "" then None else Some value.
Definition apache_request (r : LogRecord) : string := join " " (omap (apache_field r) ["http.method"; "http.path"; "http.protocol"]).
Definition apache_text (time : option string) (r : LogRecord) : string :=
  (plain_text (default "-" (apache_field r "http.remote")) +:+ (" " +:+ ("-" +:+ (" " +:+ ("-" +:+ " ["))))) +:+
  (default "-" time +:+ (("] " +:+ QUOTES) +:+ (quoted_text (if String.eqb (apache_request r) "" then "-" else apache_request r) +:+ ((QUOTES +:+ " ") +:+
  (plain_text (default "-" (apache_field r "http.status")) +:+ (" " +:+ (plain_text (default "-" (apache_field r "http.bytes_sent")) +:+ ((" " +:+ QUOTES) +:+
  (quoted_text (default "-" (apache_field r "http.referrer")) +:+ ((QUOTES +:+ " " +:+ QUOTES) +:+
  (quoted_text (default "-" (apache_field r "http.user_agent")) +:+ QUOTES))))))))))).

Lemma emits_json_string v : emits (json_string v) (json_string_text v).
Proof. unfold json_string, json_string_text. auto with emitting. Qed.
Lemma emits_plain v : emits (plain v) (plain_text v).
Proof. unfold plain, plain_text. auto with emitting. Qed.
Lemma emits_quoted v : emits (quoted v) (quoted_text v).
Proof. unfold quoted, quoted_text. auto with emitting. Qed.
#[export] Hint Resolve emits_json_string emits_plain emits_quoted : emitting.

Lemma emits_json_fields first fields : emits (json_fields first fields) (json_fields_text first fields).
Proof.
  revert first. induction fields as [|[k v] fields IH]; intros first; cbn [json_fields json_fields_text]; [auto with emitting|].
  destruct first; auto 10 with emitting.
Qed.
Lemma emits_syslog_fields fields : emits (syslog_fields fields) (syslog_fields_text fields).
Proof. induction fields as [|[k v] fields IH]; cbn [syslog_fields syslog_fields_text]; auto 10 with emitting. Qed.
#[export] Hint Resolve emits_json_fields emits_syslog_fields : emitting.

Lemma emits_json r : emits (json r) (json_text r).
Proof. unfold json, json_text. auto 20 with emitting. Qed.
Lemma emits_with {A} (x : res string A) v (a : Writer) (b : A → Writer) s t :
  x = Ok v → emits a s → emits (b v) t → emits (fun text => text ← a text; y ← x; b y text) (s +:+ t).
Proof.
  intros -> Ha Hb text H. rewrite <- (emits_then a (b v) s t Ha Hb text H). reflexivity.
Qed.
Lemma emits_syslog r i : instant_of (lr_timestamp r) = Ok i → emits (syslog r) (syslog_text i r).
Proof. intros Hi. unfold syslog, syslog_text. eapply emits_with; [exact Hi|auto with emitting|]. cbn beta. auto 40 with emitting. Qed.
Lemma emits_apache r i : instant_of (lr_timestamp r) = Ok i → emits (apache r) (apache_text (apache_time_of i) r).
Proof.
  intros Hi. unfold apache, apache_text. eapply emits_with; [unfold apache_time; by rewrite Hi|auto 20 with emitting|]. cbn beta. auto 40 with emitting.
Qed.

(** The text of a record in a format. *)
Definition line_text (i : option Z) (r : LogRecord) (format : Format) : string :=
  match format with Json => json_text r | Syslog => syslog_text i r | Apache => apache_text (apache_time_of i) r end.

Lemma record_line_text i r format : instant_of (lr_timestamp r) = Ok i →
  let text := line_text i (without_queries r) format in
  record_line r format = if MAX_RECORD_BYTES <? str_len text then Err RECORD_TOO_LONG else Ok text.
Proof.
  intros Hi text. change (str_len text) with (str_len "" + str_len text). change (Ok text) with (Ok (E := string) ("" +:+ text)).
  unfold record_line. subst text. destruct format; [apply emits_json|apply emits_syslog|apply emits_apache]; try done; unfold str_len, MAX_RECORD_BYTES; cbn; lia.
Qed.

(** ** What a line holds *)

(** A scalar that is no control character: neither C0, DEL nor C1. *)
Definition visible (c : Char) : bool := let u := code_point c in (32 <=? u) && negb ((127 <=? u) && (u <=? 159)).
(** A text in UTF-8 without control characters. *)
Definition clean (s : string) : Prop := is_utf8 s = true ∧ Forall (fun c => visible c = true) (chars s).

Lemma clean_append a b : clean a → clean b → clean (a +:+ b).
Proof. intros [Ha Hca] [Hb Hcb]. destruct (utf8_append a b Ha Hb) as [Hc Hu]. split; [done|]. rewrite Hc. by apply Forall_app. Qed.
Lemma clean_char c : is_scalar_text c = true → visible c = true → clean c.
Proof.
  intros Hc Hv. destruct (utf8_text_of [c]) as [E Hu]; [by constructor|]. change (text_of [c]) with (c +:+ "") in *. rewrite str_append_nil in *.
  split; [done|]. rewrite E. by constructor.
Qed.

(** A printable byte of ASCII. *)
Definition clean_byte (b : ascii) : bool := in_range 32 126 (byte_val b).
Lemma clean_cons c s : clean_byte c = true → clean s → clean (String c s).
Proof.
  intros Hc Hs. change (String c s) with (String c "" +:+ s). apply clean_append; [|done].
  apply clean_char; revert Hc; by destruct c as [[] [] [] [] [] [] [] []].
Qed.
Lemma clean_checked s : forallb clean_byte (str_bytes s) = true → clean s.
Proof. induction s as [|c s IH]; [by split|]. cbn [str_bytes forallb]. intros [Hc Hs]%andb_prop. by apply clean_cons; [|apply IH]. Qed.
Lemma clean_texts l : Forall clean l → clean (text_of l).
Proof. induction 1; [by split|]. by apply clean_append. Qed.
Lemma clean_pieces (f : Char → string) v : is_utf8 v = true → (∀ c, is_scalar_text c = true → clean (f c)) → clean (text_of (map f (chars v))).
Proof. intros Hv Hf. apply clean_texts, List.Forall_map. eapply list.Forall_impl; [by apply utf8_scalars|]. exact Hf. Qed.

(** A scalar that is no control character. *)
Lemma clean_scalar c : is_scalar_text c = true → is_control c = false → clean c.
Proof.
  intros Hc Hctl. apply clean_char; [done|]. apply scalar_text_encode in Hc as (u & Hu & _ & _ & E). unfold is_control, visible, in_range in *. rewrite E in *.
  apply orb_false_iff in Hctl as [H1 H2]. apply andb_true_iff. rewrite negb_true_iff, !andb_false_iff, !Z.leb_le, !Z.leb_gt in *. lia.
Qed.
Lemma control_code c : is_control c = true → 0 ≤ code_point c < 160.
Proof. unfold is_control. rewrite orb_true_iff, !in_range_spec. lia. Qed.
Lemma hex2_clean n : 0 ≤ n < 256 → clean (hex2 n).
Proof.
  assert (holds_below 256 (fun n => forallb clean_byte (str_bytes (hex2 n))) 0 = true) as H by (vm_compute; reflexivity).
  intros Hn. apply clean_checked. apply (holds_below_spec _ _ _ H). lia.
Qed.

Lemma clean_json_piece c : is_scalar_text c = true → clean (json_piece c).
Proof.
  intros Hc. unfold json_piece. repeat (destruct (String.eqb c _); [by apply clean_checked; vm_compute|]).
  destruct (is_control c) eqn:Hctl; [|by apply clean_scalar].
  apply clean_append; [by apply clean_checked; vm_compute|]. apply clean_append; [by apply clean_checked; vm_compute|].
  apply hex2_clean. apply control_code in Hctl. lia.
Qed.
Lemma clean_plain_piece c : is_scalar_text c = true → clean (plain_piece c).
Proof.
  intros Hc. unfold plain_piece. destruct (_ || _); [by apply clean_checked; vm_compute|].
  destruct (is_control c) eqn:Hctl; [by apply clean_checked; vm_compute|by apply clean_scalar].
Qed.
Lemma clean_quoted_pieces c : is_scalar_text c = true → Forall clean (quoted_pieces c).
Proof.
  intros Hc. unfold quoted_pieces. repeat (destruct (String.eqb c _); [constructor; [by apply clean_checked; vm_compute|constructor]|]).
  destruct (is_control c) eqn:Hctl; [|constructor; [by apply clean_scalar|constructor]].
  apply List.Forall_map, list.Forall_forall. intros b _. cbn beta. apply clean_append; [by apply clean_checked; vm_compute|].
  apply clean_append; [by apply clean_checked; vm_compute|]. apply hex2_clean, byte_val_bound.
Qed.

Create HintDb cleaning discriminated.
Lemma clean_json_string v : is_utf8 v = true → clean (json_string_text v).
Proof.
  intros Hv. apply clean_append; [by apply clean_checked; vm_compute|]. apply clean_append; [|by apply clean_checked; vm_compute].
  apply clean_pieces; [done|apply clean_json_piece].
Qed.
Lemma clean_plain v : is_utf8 v = true → clean (plain_text v).
Proof. intros Hv. apply clean_pieces; [done|apply clean_plain_piece]. Qed.
Lemma clean_quoted v : is_utf8 v = true → clean (quoted_text v).
Proof.
  intros Hv. unfold quoted_text. apply clean_texts. apply utf8_scalars in Hv. induction Hv as [|c l Hc _ IH]; [constructor|].
  cbn [map concat]. apply Forall_app. split; [by apply clean_quoted_pieces|done].
Qed.
Lemma clean_number s : is_number s → clean s.
Proof.
  intros [_ H]. apply clean_checked. rewrite forallb_forall in *. intros c Hc. specialize (H c Hc). by destruct c as [[] [] [] [] [] [] [] []].
Qed.
Lemma clean_dec n : clean (dec_of_Z n).
Proof.
  assert (∀ m, 0 ≤ m → clean (dec_digits (dec_fuel m) m "")) as H.
  { intros m Hm. apply clean_number. split; [|by apply dec_digits_digits]. destruct (dec_digits_cons m) as (c & s & ->). done. }
  unfold dec_of_Z. destruct (Z.ltb_spec n 0); [apply clean_cons; [done|]|]; apply H; lia.
Qed.
Lemma clean_pad0 w n : clean (pad0 w n).
Proof.
  assert (∀ k, clean (zeros k)) as Hz by (induction k; [by split|by apply clean_cons]).
  unfold pad0. destruct (n <? 0); [apply clean_cons; [done|]|]; (apply clean_append; [apply Hz|apply clean_dec]).
Qed.
Lemma clean_header v max : clean (default "-" (syslog_header v max)).
Proof.
  unfold syslog_header. destruct (_ && _) eqn:H; cbn [default from_option]; [|by apply clean_checked].
  apply andb_prop in H as [_ H]. unfold Datatypes.id. apply clean_checked. rewrite forallb_forall in *. intros b Hb. apply H, in_range_spec in Hb.
  apply in_range_spec. lia.
Qed.
Lemma clean_time i : clean (default "-" (apache_time_of i)).
Proof.
  unfold apache_time_of. destruct i as [i|]; cbn [mbind option_bind]; [|by apply clean_checked].
  destruct (split_timestamp i) as [[days millis]|]; cbn [mbind option_bind]; [|by apply clean_checked].
  destruct (MONTH_NAMES !! _) as [month|] eqn:Hm; cbn [mbind option_bind default from_option]; [|by apply clean_checked].
  unfold Datatypes.id. apply list_elem_of_lookup_2 in Hm.
  assert (Forall clean MONTH_NAMES) as Hall by (repeat constructor; by apply clean_checked).
  rewrite list.Forall_forall in Hall. pose proof (Hall month Hm).
  repeat (apply clean_append; [first [apply clean_pad0|done|by apply clean_checked]|]). by apply clean_checked.
Qed.

(** A record of texts in UTF-8 at a time whose text is printable. *)
Record well_formed (r : LogRecord) : Prop := {
  wf_label : is_utf8 (lr_label r) = true;
  wf_message : is_utf8 (lr_message r) = true;
  wf_fields : Forall (fun f => is_utf8 f.1 = true ∧ is_utf8 f.2 = true) (lr_fields r);
  wf_timestamp : is_utf8 (lr_timestamp r) = true ∧ clean (lr_timestamp r);
}.

Lemma without_query_utf8 v : is_utf8 v = true → is_utf8 (without_query v) = true.
Proof.
  intros Hv%utf8_scalars. unfold without_query. apply utf8_join; [done|]. apply List.Forall_map.
  eapply list.Forall_impl; [by apply (words_parts (fun c => is_scalar_text c = true) _ []); [constructor|exact Hv]|]. intros w [Hw _].
  apply utf8_text_of in Hw as [_ Hw]. destruct (split_once "?" (text_of w)) as [[path query]|] eqn:Hq; [|done].
  apply split_once_free in Hq as [Hq _]. rewrite Hq in Hw. by apply utf8_cut in Hw as [? _].
Qed.
Lemma update_utf8 key fields : Forall (fun f => is_utf8 f.1 = true ∧ is_utf8 f.2 = true) fields →
  Forall (fun f => is_utf8 f.1 = true ∧ is_utf8 f.2 = true) (field_update key without_query fields).
Proof.
  intros H. apply List.Forall_map. eapply list.Forall_impl; [exact H|]. intros [k v] [Hk Hv]. cbn [fst snd] in *.
  destruct (String.eqb k key); [|done]. cbn. split; [done|by apply without_query_utf8].
Qed.
Lemma without_queries_well_formed r : well_formed r → well_formed (without_queries r).
Proof. intros [H1 H2 H3 H4]. split; cbn; [done..| |done]. by apply update_utf8, update_utf8. Qed.

Lemma field_utf8 r key : well_formed r → is_utf8 (default "-" (apache_field r key)) = true.
Proof.
  intros [_ _ H _]. unfold apache_field, field_get. destruct (List.find _ _) as [[k v]|] eqn:Hf; [|done].
  cbn. destruct (String.eqb v ""); [done|]. cbn. apply find_some in Hf as [Hf%list_elem_of_In _]. rewrite list.Forall_forall in H.
  by apply (H (k, v) Hf).
Qed.
Lemma request_utf8 r : well_formed r → is_utf8 (apache_request r) = true.
Proof.
  intros H. unfold apache_request. apply utf8_join; [done|]. apply list.Forall_forall. intros v (key & _ & Hk)%list_elem_of_omap.
  pose proof (field_utf8 r key H) as Hf. by rewrite Hk in Hf.
Qed.

Lemma clean_fields (text : bool → FieldMap → string) fields :
  (∀ first, text first [] = "") →
  (∀ first k v rest, is_utf8 k = true → is_utf8 v = true → clean (text false rest) → clean (text first ((k, v) :: rest))) →
  Forall (fun f => is_utf8 f.1 = true ∧ is_utf8 f.2 = true) fields → ∀ first, clean (text first fields).
Proof. intros Hnil Hcons. induction 1 as [|[k v] rest [Hk Hv] _ IH]; intros first; [by rewrite Hnil|]. by apply Hcons. Qed.

Lemma line_clean i r format : well_formed r → clean (line_text i r format).
Proof.
  intros H. pose proof H as [Hlabel Hmessage Hfields [Hts Htsc]].
  assert (Forall (fun f => is_utf8 f.1 = true ∧ is_utf8 f.2 = true) (written_fields r)) as Hw.
  { apply list.Forall_forall. intros f Hf. rewrite list.Forall_forall in Hfields. apply Hfields.
    unfold written_fields in Hf. apply list_elem_of_In, filter_In in Hf as [Hf _]. by apply list_elem_of_In. }
  destruct format; cbn [line_text].
  - assert (∀ first, clean (json_fields_text first (written_fields r))) as Hf.
    { apply (clean_fields json_fields_text); [done| |done]. intros first k v rest Hk Hv Hrest. cbn [json_fields_text].
      apply clean_append; [destruct first; by apply clean_checked|].
      repeat (apply clean_append; [first [by apply clean_json_string|by apply clean_checked]|]). done. }
    unfold json_text. pose proof (Hf true) as Hft.
    repeat (apply clean_append; [first [exact Hft|by apply clean_json_string|by apply clean_checked|by destruct (lr_level r); apply clean_checked]|]).
    by apply clean_checked.
  - assert (clean (syslog_fields_text (written_fields r))) as Hf.
    { apply (clean_fields (fun _ => syslog_fields_text)) with (first := true); [done| |done]. intros _ k v rest Hk Hv Hrest. cbn [syslog_fields_text].
      repeat (apply clean_append; [first [by apply clean_plain|by apply clean_checked]|]). done. }
    unfold syslog_text. pose proof (clean_dec (lr_process r)). pose proof (clean_header (lr_host r) 255). pose proof (clean_header (lr_label r) 48).
    apply clean_append; [by destruct (lr_level r); apply clean_checked|].
    apply clean_append; [destruct i; [done|by apply clean_checked]|].
    repeat (apply clean_append; [first [assumption|by apply clean_plain|by apply clean_checked]|]). done.
  - unfold apache_text. pose proof (clean_time i) as Ht.
    assert (∀ key, clean (plain_text (default "-" (apache_field r key)))) as Hp by (intros; by apply clean_plain, field_utf8).
    assert (∀ key, clean (quoted_text (default "-" (apache_field r key)))) as Hq by (intros; by apply clean_quoted, field_utf8).
    assert (clean (quoted_text (if String.eqb (apache_request r) "" then "-" else apache_request r))) as Hr.
    { apply clean_quoted. destruct (String.eqb _ _); [done|by apply request_utf8]. }
    apply clean_append; [apply clean_append; [apply Hp|by apply clean_checked]|].
    repeat (apply clean_append; [first [exact Ht|exact Hr|apply Hp|apply Hq|by apply clean_checked]|]). by apply clean_checked.
Qed.

(** ** What a line leaves out *)

Definition with_fields (f : FieldMap → FieldMap) (r : LogRecord) : LogRecord :=
  mkRecord (lr_timestamp r) (lr_label r) (lr_level r) (lr_message r) (f (lr_fields r)) (lr_host r) (lr_process r).
Definition without_sensitive : LogRecord → LogRecord := with_fields (List.filter (fun f => negb (is_sensitive f.1))).

Lemma filter_update key f fields :
  List.filter (fun p => negb (is_sensitive p.1)) (field_update key f fields)
  = field_update key f (List.filter (fun p => negb (is_sensitive p.1)) fields).
Proof.
  unfold field_update. induction fields as [|[k v] fields IH]; [done|]. cbn [map List.filter fst snd].
  assert ((if String.eqb k key then (k, f v) else (k, v)).1 = k) as -> by by destruct (String.eqb k key).
  destruct (negb (is_sensitive k)); cbn [map fst snd]; by rewrite IH.
Qed.
Lemma filter_twice {A} (f : A → bool) l : List.filter f (List.filter f l) = List.filter f l.
Proof. induction l as [|x l IH]; [done|]. cbn. destruct (f x) eqn:H; [cbn; by rewrite H, IH|done]. Qed.
Lemma get_filtered key fields : is_sensitive key = false →
  field_get key (List.filter (fun p => negb (is_sensitive p.1)) fields) = field_get key fields.
Proof.
  intros Hkey. unfold field_get. f_equal. induction fields as [|[k v] fields IH]; [done|]. cbn [List.filter List.find fst].
  destruct (String.eqb_spec k key) as [->|Hne]; [rewrite Hkey; cbn; by rewrite String.eqb_refl|].
  destruct (negb (is_sensitive k)); [|done]. cbn. by rewrite (proj2 (String.eqb_neq k key) Hne).
Qed.

Definition APACHE_KEYS : list string :=
  ["http.remote"; "http.method"; "http.path"; "http.protocol"; "http.status"; "http.bytes_sent"; "http.referrer"; "http.user_agent"].
Lemma apache_keys_kept : Forall (fun k => is_sensitive k = false) APACHE_KEYS.
Proof. repeat constructor. Qed.

(** Records with the same head, the same fields to write and the same APACHE
    fields have the same line. *)
Lemma line_text_fields i r f format :
  written_fields (with_fields f r) = written_fields r →
  Forall (fun k => field_get k (f (lr_fields r)) = field_get k (lr_fields r)) APACHE_KEYS →
  line_text i (with_fields f r) format = line_text i r format.
Proof.
  intros Hw Ha. destruct format; cbn [line_text]; [unfold json_text|unfold syslog_text|]; [by rewrite Hw..|].
  assert (∀ k, k ∈ APACHE_KEYS → apache_field (with_fields f r) k = apache_field r k) as Hk.
  { intros k Hk. rewrite list.Forall_forall in Ha. unfold apache_field. cbn [with_fields lr_fields]. by rewrite Ha. }
  unfold apache_text. assert (apache_request (with_fields f r) = apache_request r) as ->.
  { unfold apache_request. cbn [omap list_omap]. by rewrite !Hk by (apply list_elem_of_In; cbn; tauto). }
  by rewrite !Hk by (apply list_elem_of_In; cbn; tauto).
Qed.

(** ** Queries *)

Definition no_space (v : string) : Prop := Forall (fun c => is_whitespace c = false) (chars v).

Lemma words_whole v : no_space v → v ≠ "" → words_from [] (chars v) = [chars v].
Proof.
  intros Hv Hne. rewrite <- (app_nil_r (chars v)) at 1. rewrite words_from_word by done. rewrite app_nil_r. cbn [words_from].
  destruct (rev (chars v)) as [|c l] eqn:E.
  - exfalso. apply Hne. rewrite <- (text_of_chars v), <- (rev_involutive (chars v)), E. done.
  - by rewrite <- E, rev_involutive.
Qed.
Lemma without_query_word v : no_space v → v ≠ "" → without_query v = match split_once "?" v with Some (path, _) => path | None => v end.
Proof. intros Hv Hne. unfold without_query. rewrite words_whole by done. cbn [map join]. by rewrite text_of_chars. Qed.

Lemma update_insert k f key v fields :
  field_update k f (field_insert key v fields) = field_insert key (if String.eqb key k then f v else v) (field_update k f fields).
Proof.
  unfold field_update. induction fields as [|[k' v'] fields IH]; cbn [field_insert map fst snd].
  - by destruct (String.eqb key k).
  - destruct (String.eqb k' k) eqn:E'; cbn [field_insert fst snd];
      (destruct (str_cmp key k') eqn:Hc; cbn [map fst snd]; rewrite ?E', ?IH; [by destruct (String.eqb key k)| |done];
       by destruct (String.eqb key k)).
Qed.

Definition QUERY_KEYS : list string := ["http.path"; "http.referrer"].
Definition with_field (key value : string) : LogRecord → LogRecord := with_fields (field_insert key value).

Lemma query_dropped key p q r : key ∈ QUERY_KEYS → no_space (p +:+ String "?" q) → p ≠ "" → contains_char "?" p = false →
  without_queries (with_field key (p +:+ String "?" q) r) = without_queries (with_field key p r).
Proof.
  intros Hkey Hs Hp Hq. assert (no_space p) as Hps.
  { unfold no_space in *. rewrite chars_cut in Hs by done. by apply Forall_app in Hs as [? _]. }
  assert (without_query (p +:+ String "?" q) = p) as E1.
  { rewrite without_query_word; [|done|by destruct p]. by rewrite (proj2 (split_once_free "?" (p +:+ String "?" q) p q)). }
  assert (without_query p = p) as E2 by by rewrite without_query_word, (proj1 (split_once_none "?" p) Hq).
  unfold without_queries, with_field, with_fields. cbn [lr_fields lr_timestamp lr_label lr_level lr_message lr_host lr_process].
  rewrite !update_insert. apply list_elem_of_In in Hkey as [<-|[<-|[]]]; cbn [String.eqb Ascii.eqb Bool.eqb]; by rewrite E1, E2.
Qed.

(** ** A line is safe to write *)

Lemma line_safe_text r format i : well_formed r → instant_of (lr_timestamp r) = Ok i →
  ∃ line, clean line ∧ record_line r format = (if MAX_RECORD_BYTES <? str_len line then Err RECORD_TOO_LONG else Ok line).
Proof.
  intros Hr Hi. exists (line_text i (without_queries r) format).
  split; [by apply line_clean, without_queries_well_formed|by apply record_line_text].
Qed.

(** What follows white space in a query is written. *)
Example query_after_space : without_query "/p?token=a b" = "/p b".
Proof. vm_compute. reflexivity. Qed.

(** C37: The line of a record of UTF-8 texts is one line in UTF-8 without control
    characters (C0, DEL or C1), or is refused for being longer than 64 KiB, and
    nothing else. It is the line of the record without its sensitive fields,
    and what follows the question mark of a path or a referrer that holds no
    white space does not change it. *)
Theorem line_safe r format i :
  well_formed r → instant_of (lr_timestamp r) = Ok i →
  ∃ line, clean line ∧
    record_line r format = (if MAX_RECORD_BYTES <? str_len line then Err RECORD_TOO_LONG else Ok line) ∧
    record_line (without_sensitive r) format = record_line r format ∧
    ∀ key p q, key ∈ QUERY_KEYS → no_space (p +:+ String "?" q) → p ≠ "" → contains_char "?" p = false →
      record_line (with_field key (p +:+ String "?" q) r) format = record_line (with_field key p r) format.
Proof.
  intros Hr Hi. destruct (line_safe_text r format i Hr Hi) as (line & Hclean & Hline). exists line. split_and!; [done|done| |].
  - rewrite !(record_line_text i) by done. cbn zeta.
    change (without_queries (without_sensitive r)) with
      (with_fields (fun _ => field_update "http.referrer" without_query (field_update "http.path" without_query (lr_fields (without_sensitive r)))) (without_queries r)).
    rewrite line_text_fields; [done| |].
    + unfold written_fields. cbn [with_fields without_sensitive without_queries lr_fields]. rewrite <- !filter_update. by rewrite filter_twice.
    + eapply list.Forall_impl; [exact apache_keys_kept|]. intros k Hk. cbn beta. cbn [with_fields without_sensitive without_queries lr_fields].
      rewrite <- !filter_update. by apply get_filtered.
  - intros key p q Hkey Hs Hp Hq. unfold record_line. by rewrite (query_dropped key p q r Hkey Hs Hp Hq).
Qed.

(** ** Sample *)

Definition sample_record : LogRecord :=
  mkRecord "2026-10-08T09:05:03.250Z" "web" LHttp ("two" +:+ LF +:+ "lines " +:+ QUOTE +:+ utf8_encode 233 +:+ utf8_encode 133)
    [("http.method", "GET"); ("http.path", "/items?page=2"); ("session_id", "abc"); ("user", "ana")] "web01" 4242.
Lemma sample_well_formed : well_formed sample_record.
Proof.
  split; [reflexivity|vm_compute; reflexivity| |split; [reflexivity|by apply clean_checked]].
  repeat (constructor; [by split|]). constructor.
Qed.

Example sample_json : record_line sample_record Json = Ok ("{" +:+ QUOTE +:+ "fields" +:+ QUOTE +:+ ":{" +:+ QUOTE +:+ "http.method" +:+ QUOTE +:+ ":" +:+ QUOTE
  +:+ "GET" +:+ QUOTE +:+ "," +:+ QUOTE +:+ "http.path" +:+ QUOTE +:+ ":" +:+ QUOTE +:+ "/items" +:+ QUOTE +:+ "," +:+ QUOTE +:+ "user" +:+ QUOTE +:+ ":" +:+ QUOTE
  +:+ "ana" +:+ QUOTE +:+ "}," +:+ QUOTE +:+ "label" +:+ QUOTE +:+ ":" +:+ QUOTE +:+ "web" +:+ QUOTE +:+ "," +:+ QUOTE +:+ "level" +:+ QUOTE +:+ ":" +:+ QUOTE
  +:+ "HTTP" +:+ QUOTE +:+ "," +:+ QUOTE +:+ "message" +:+ QUOTE +:+ ":" +:+ QUOTE +:+ "two" +:+ BACKSLASH +:+ "nlines " +:+ BACKSLASH +:+ QUOTE
  +:+ utf8_encode 233 +:+ BACKSLASH +:+ "u0085" +:+ QUOTE +:+ "," +:+ QUOTE +:+ "timestamp" +:+ QUOTE +:+ ":" +:+ QUOTE
  +:+ "2026-10-08T09:05:03.250Z" +:+ QUOTE +:+ "}").
Proof. vm_compute. reflexivity. Qed.
Example sample_syslog : record_line sample_record Syslog
  = Ok ("<14>1 2026-10-08T09:05:03.250Z web01 web 4242 - - two lines " +:+ QUOTE +:+ utf8_encode 233 +:+ "? http.method=GET http.path=/items user=ana").
Proof. vm_compute. reflexivity. Qed.
Example sample_apache : record_line sample_record Apache
  = Ok ("- - - [08/Oct/2026:09:05:03 +0000] " +:+ QUOTE +:+ "GET /items" +:+ QUOTE +:+ " - - " +:+ QUOTE +:+ "-" +:+ QUOTE +:+ " " +:+ QUOTE +:+ "-" +:+ QUOTE).
Proof. vm_compute. reflexivity. Qed.

Lemma line_safe_witness : ∃ line, clean line ∧ record_line sample_record Syslog = Ok line.
Proof.
  destruct (line_safe sample_record Syslog (Some 1791450303250) sample_well_formed ltac:(reflexivity)) as (line & Hc & Hl & _).
  exists line. split; [exact Hc|]. rewrite Hl. rewrite sample_syslog in Hl. by destruct (MAX_RECORD_BYTES <? str_len line).
Defined.

(** ** A JSON line read back

    A reader of the lines in JSON, and that it gives the record back. *)

(** ** The reader (RFC 8259, the forms a line uses) *)

Definition hex_value (c : Char) : option Z := match c with String a "" => to_digit 16 a | _ => None end.
(** The scalar of [\uXXXX] *)
Definition read_escape (a b c d : Char) : option Char :=
  a ← hex_value a; b ← hex_value b; c ← hex_value c; d ← hex_value d;
  Some (utf8_encode (((a * 16 + b) * 16 + c) * 16 + d)).

(** What follows the opening quote of a string, up to its closing quote. *)
Fixpoint read_string (l : list Char) : option (list Char * list Char) :=
  match l with
  | [] => None
  | c :: l =>
      if String.eqb c QUOTE then Some ([], l)
      else if String.eqb c BACKSLASH then
        match l with
        | [] => None
        | e :: l =>
            if String.eqb e QUOTE then '(v, rest) ← read_string l; Some (QUOTE :: v, rest)
            else if String.eqb e BACKSLASH then '(v, rest) ← read_string l; Some (BACKSLASH :: v, rest)
            else if String.eqb e "n" then '(v, rest) ← read_string l; Some (LF :: v, rest)
            else if String.eqb e "r" then '(v, rest) ← read_string l; Some (CR :: v, rest)
            else if String.eqb e "t" then '(v, rest) ← read_string l; Some (TAB :: v, rest)
            else if String.eqb e "u" then
              match l with
              | h1 :: h2 :: h3 :: h4 :: l => c ← read_escape h1 h2 h3 h4; '(v, rest) ← read_string l; Some (c :: v, rest)
              | _ => None
              end
            else None
        end
      else if is_control c then None else '(v, rest) ← read_string l; Some (c :: v, rest)
  end.

(** A text that has to come next. *)
Fixpoint expect_chars (p l : list Char) : option (list Char) :=
  match p, l with
  | [], _ => Some l
  | a :: p, b :: l => if String.eqb a b then expect_chars p l else None
  | _, [] => None
  end.
Definition expect_text (p : string) (l : list Char) : option (list Char) := expect_chars (singles p) l.
Definition read_text (l : list Char) : option (string * list Char) :=
  l ← expect_text QUOTE l; '(v, rest) ← read_string l; Some (text_of v, rest).

(** The members of an object, after its opening brace. *)
Fixpoint read_members (fuel : nat) (first : bool) (l : list Char) : option (FieldMap * list Char) :=
  match fuel with
  | O => None
  | S fuel =>
      match expect_text "}" l with
      | Some rest => Some ([], rest)
      | None =>
          l ← (if first then Some l else expect_text "," l);
          '(key, l) ← read_text l; l ← expect_text ":" l; '(value, l) ← read_text l;
          '(members, rest) ← read_members fuel false l; Some ((key, value) :: members, rest)
      end
  end.

Record ReadRecord := mkRead { r_fields : FieldMap; r_label : string; r_level : string; r_message : string; r_timestamp : string }.

Definition read_member (key : string) (l : list Char) : option (string * list Char) :=
  l ← expect_text ("," +:+ QUOTE +:+ key +:+ QUOTE +:+ ":") l; read_text l.
Definition read_record (line : string) : option ReadRecord :=
  let l := chars line in
  l ← expect_text ("{" +:+ QUOTE +:+ "fields" +:+ QUOTE +:+ ":{") l;
  '(fields, l) ← read_members (length l) true l;
  '(label, l) ← read_member "label" l; '(level, l) ← read_member "level" l;
  '(message, l) ← read_member "message" l; '(timestamp, l) ← read_member "timestamp" l;
  l ← expect_text "}" l;
  match l with [] => Some (mkRead fields label level message timestamp) | _ => None end.

(** ** One scalar *)

Lemma expect_singles p l : expect_text p (singles p ++ l)%list = Some l.
Proof. unfold expect_text. induction (singles p) as [|c s IH]; [done|]. cbn. by rewrite str_eqb_refl. Qed.
(** The scalars of what is written for a scalar. *)
Definition piece_chars (c : Char) : list Char :=
  if String.eqb c QUOTE || String.eqb c BACKSLASH || String.eqb c LF || String.eqb c CR || String.eqb c TAB || is_control c
  then singles (json_piece c) else [c].

Lemma singles_char c : is_continuation c = false → is_char (String c "") = true.
Proof. intros H. cbn. by rewrite H. Qed.

Lemma hex2_single n : 0 ≤ n < 256 → single_bytes (hex2 n) ∧ read_escape "0" "0" (String (hex_char (n / 16)) "") (String (hex_char (n mod 16)) "") = Some (utf8_encode n).
Proof.
  intros Hn. assert (holds_below 256 (fun n => forallb (fun c => negb (is_continuation c)) (str_bytes (hex2 n))
    && bool_decide (read_escape "0" "0" (String (hex_char (n / 16)) "") (String (hex_char (n mod 16)) "") = Some (utf8_encode n))) 0 = true) as H
    by (vm_compute; reflexivity).
  apply (holds_below_spec _ _ _ H) in Hn as [H1 H2]%andb_prop. apply bool_decide_eq_true in H2. split; [|done].
  unfold single_bytes. apply list.Forall_forall. intros c Hc. rewrite forallb_forall in H1. apply negb_true_iff, H1. by apply list_elem_of_In.
Qed.

(** A piece is its scalars, and they are read back as the one written. *)
Lemma piece_chars_spec c : is_scalar_text c = true →
  text_of (piece_chars c) = json_piece c ∧ Forall (fun c => is_char c = true) (piece_chars c) ∧
  ∀ l, read_string (piece_chars c ++ l)%list = ('(v, rest) ← read_string l; Some (c :: v, rest)).
Proof.
  intros Hc. unfold piece_chars, json_piece.
  repeat match goal with |- context [String.eqb c ?x] => destruct (String.eqb_spec c x) as [->|]; [split_and!; [done|by repeat constructor|done]|] end.
  cbn [orb]. destruct (is_control c) eqn:Hctl.
  - pose proof (control_code c Hctl) as Hb. destruct (hex2_single (code_point c) ltac:(lia)) as [Hs Hr]. split_and!.
    + by rewrite text_of_singles.
    + unfold singles. apply List.Forall_map. rewrite !str_bytes_append. repeat (apply Forall_app; split); [by repeat constructor..|].
      eapply list.Forall_impl; [exact Hs|]. apply singles_char.
    + intros l. rewrite !singles_append. change (singles (hex2 (code_point c))) with
        [String (hex_char (code_point c / 16)) ""; String (hex_char (code_point c mod 16)) ""].
      cbn [app singles str_bytes map BACKSLASH char_at]. cbn [read_string].
      change (String.eqb (String (byte_of 92) "") QUOTE) with false. change (String.eqb (String (byte_of 92) "") BACKSLASH) with true.
      change (String.eqb "u" QUOTE) with false. change (String.eqb "u" BACKSLASH) with false. cbn iota.
      change (String.eqb "u" "n") with false. change (String.eqb "u" "r") with false. change (String.eqb "u" "t") with false.
      change (String.eqb "u" "u") with true. cbn iota. rewrite Hr. cbn [mbind option_bind].
      apply scalar_text_encode in Hc as (u & _ & _ & -> & Hu). by rewrite Hu.
  - split_and!; [cbn [text_of]; by rewrite str_append_nil|constructor; [by apply scalar_text_char|constructor]|].
    intros l. cbn [app read_string]. rewrite Hctl. by rewrite !(proj2 (String.eqb_neq c _)).
Qed.

(** ** A line by its scalars *)

Definition spells (s : string) (l : list Char) : Prop := s = text_of l ∧ Forall (fun c => is_char c = true) l.
Lemma spells_chars s l : spells s l → chars s = l.
Proof. intros [-> H]. by apply chars_text. Qed.
Lemma spells_append a b k l : spells a k → spells b l → spells (a +:+ b) (k ++ l)%list.
Proof. intros [-> Hk] [-> Hl]. split; [by rewrite text_of_app|]. apply Forall_app. split; assumption. Qed.
Lemma spells_singles s : forallb (fun c => negb (is_continuation c)) (str_bytes s) = true → spells s (singles s).
Proof.
  intros H. split; [by rewrite text_of_singles|]. apply List.Forall_map, list.Forall_forall. intros c Hc. rewrite forallb_forall in H.
  by apply singles_char, negb_true_iff, H, list_elem_of_In.
Qed.

Definition string_chars (v : string) : list Char := (singles QUOTE ++ (concat (map piece_chars (chars v)) ++ singles QUOTE))%list.
Fixpoint members_chars (first : bool) (fields : FieldMap) : list Char :=
  match fields with
  | [] => []
  | (key, value) :: fields =>
      ((if first then [] else singles ",") ++ (string_chars key ++ (singles ":" ++ (string_chars value ++ members_chars false fields))))%list
  end.

Lemma spells_string v : is_utf8 v = true → spells (json_string_text v) (string_chars v).
Proof.
  intros Hv%utf8_scalars. unfold json_string_text, string_chars. apply spells_append; [by apply spells_singles|].
  apply spells_append; [|by apply spells_singles]. induction Hv as [|c l Hc _ IH]; [by split|]. cbn [map text_of concat].
  apply spells_append; [|exact IH]. destruct (piece_chars_spec c Hc) as (H1 & H2 & _). by split.
Qed.
Lemma spells_members fields : Forall (fun f => is_utf8 f.1 = true ∧ is_utf8 f.2 = true) fields →
  ∀ first, spells (json_fields_text first fields) (members_chars first fields).
Proof.
  induction 1 as [|[k v] fields [Hk Hv] _ IH]; intros first; [by split|]. cbn [fst snd] in *. cbn [json_fields_text members_chars].
  apply spells_append; [destruct first; [by split|by apply spells_singles]|].
  repeat (apply spells_append; [first [by apply spells_string|by apply spells_singles]|]). apply IH.
Qed.

Lemma string_read_back v rest : is_utf8 v = true → read_text (string_chars v ++ rest)%list = Some (v, rest).
Proof.
  intros Hv%utf8_scalars. unfold read_text, string_chars. rewrite <- app_assoc, expect_singles. cbn [mbind option_bind].
  assert (∀ l, Forall (fun c => is_scalar_text c = true) l →
    read_string ((concat (map piece_chars l) ++ singles QUOTE) ++ rest)%list = Some (l, rest)) as H.
  { clear v Hv. induction 1 as [|c l Hc _ IH]; [done|]. cbn [map concat]. rewrite <- !app_assoc in *.
    destruct (piece_chars_spec c Hc) as (_ & _ & H). rewrite H, IH. done. }
  rewrite H by done. cbn [mbind option_bind]. by rewrite text_of_chars.
Qed.

Lemma members_read_back fuel first fields rest : Forall (fun f => is_utf8 f.1 = true ∧ is_utf8 f.2 = true) fields → (length fields < fuel)%nat →
  read_members fuel first (members_chars first fields ++ (singles "}" ++ rest))%list = Some (fields, rest).
Proof.
  intros Hf. revert fuel first. induction Hf as [|[k v] fields [Hk Hv] _ IH]; intros fuel first Hlt; (destruct fuel as [|fuel]; [cbn in Hlt; lia|]).
  - cbn [members_chars app read_members]. by rewrite expect_singles.
  - cbn [fst snd length] in *. cbn [members_chars]. rewrite <- !app_assoc. cbn [read_members].
    assert (∀ l, expect_text "}" ((if first then [] else singles ",") ++ (string_chars k ++ l))%list = None) as -> by by destruct first.
    assert (∀ l, (if first then Some ((if first then [] else singles ",") ++ l)%list else expect_text "," ((if first then [] else singles ",") ++ l)%list) = Some l)
      as Hfirst by by destruct first.
    rewrite Hfirst. cbn [mbind option_bind]. rewrite <- ?app_assoc, string_read_back by done. cbn [mbind option_bind].
    rewrite expect_singles. cbn [mbind option_bind]. rewrite <- ?app_assoc, string_read_back by done. cbn [mbind option_bind].
    by rewrite IH by lia.
Qed.

Definition member_chars (key value : string) : list Char := (singles ("," +:+ QUOTE +:+ key +:+ QUOTE +:+ ":") ++ string_chars value)%list.
Lemma member_read_back key v rest : is_utf8 v = true → read_member key (member_chars key v ++ rest)%list = Some (v, rest).
Proof. intros Hv. unfold read_member, member_chars. rewrite <- app_assoc, expect_singles. cbn [mbind option_bind]. by apply string_read_back. Qed.

Definition OPENING : string := "{" +:+ QUOTE +:+ "fields" +:+ QUOTE +:+ ":{".
Definition line_chars (r : LogRecord) : list Char :=
  (singles OPENING ++ (members_chars true (written_fields r) ++ (singles "}" ++ (member_chars "label" (lr_label r) ++
   (member_chars "level" (level_name (lr_level r)) ++ (member_chars "message" (lr_message r) ++
   (member_chars "timestamp" (lr_timestamp r) ++ singles "}")))))))%list.

Lemma level_utf8 l : is_utf8 (level_name l) = true.
Proof. by destruct l. Qed.
Lemma written_utf8 r : well_formed r → Forall (fun f => is_utf8 f.1 = true ∧ is_utf8 f.2 = true) (written_fields r).
Proof.
  intros [_ _ H _]. apply list.Forall_forall. intros f Hf. rewrite list.Forall_forall in H. apply H.
  unfold written_fields in Hf. apply list_elem_of_In, filter_In in Hf as [Hf _]. by apply list_elem_of_In.
Qed.

Lemma spells_member key v : forallb (fun c => negb (is_continuation c)) (str_bytes ("," +:+ QUOTE +:+ key +:+ QUOTE +:+ ":")) = true → is_utf8 v = true →
  spells (("," +:+ QUOTE +:+ key +:+ QUOTE +:+ ":") +:+ json_string_text v) (member_chars key v).
Proof. intros Hk Hv. apply spells_append; [by apply spells_singles|by apply spells_string]. Qed.

Lemma spells_line r : well_formed r → spells (json_text r) (line_chars r).
Proof.
  intros Hr. pose proof Hr as [Hlabel Hmessage _ [Hts _]]. pose proof (level_utf8 (lr_level r)) as Hlevel.
  pose proof (spells_members _ (written_utf8 r Hr) true) as Hm.
  assert (json_text r = OPENING +:+ (json_fields_text true (written_fields r) +:+ ("}" +:+
    ((("," +:+ QUOTE +:+ "label" +:+ QUOTE +:+ ":") +:+ json_string_text (lr_label r)) +:+
    ((("," +:+ QUOTE +:+ "level" +:+ QUOTE +:+ ":") +:+ json_string_text (level_name (lr_level r))) +:+
    ((("," +:+ QUOTE +:+ "message" +:+ QUOTE +:+ ":") +:+ json_string_text (lr_message r)) +:+
    ((("," +:+ QUOTE +:+ "timestamp" +:+ QUOTE +:+ ":") +:+ json_string_text (lr_timestamp r)) +:+ "}"))))))) as ->.
  { unfold json_text, OPENING, QUOTES. by rewrite !str_append_assoc. }
  unfold line_chars. apply spells_append; [by apply spells_singles|]. apply spells_append; [exact Hm|].
  apply spells_append; [by apply spells_singles|]. repeat (apply spells_append; [by apply spells_member|]). by apply spells_singles.
Qed.

Lemma members_length first fields : (length fields ≤ length (members_chars first fields))%nat.
Proof.
  revert first. induction fields as [|[k v] fields IH]; intros first; cbn [members_chars length]; [lia|].
  unfold string_chars. rewrite !length_app. specialize (IH false). change (length (singles ":")) with 1%nat. lia.
Qed.

Definition read_of (r : LogRecord) : ReadRecord :=
  mkRead (written_fields (without_queries r)) (lr_label r) (level_name (lr_level r)) (lr_message r) (lr_timestamp r).

Lemma json_line_read r i line : well_formed r → instant_of (lr_timestamp r) = Ok i → record_line r Json = Ok line →
  read_record line = Some (read_of r).
Proof.
  intros Hr Hi Hline. rewrite (record_line_text i) in Hline by done. cbn zeta in Hline. destruct (_ <? _); [done|]. injection Hline as <-.
  pose proof (without_queries_well_formed r Hr) as Hq. cbn [line_text]. unfold read_record. rewrite (spells_chars _ _ (spells_line _ Hq)).
  pose proof Hq as [Hlabel Hmessage _ [Hts _]]. pose proof (level_utf8 (lr_level (without_queries r))) as Hlevel.
  unfold line_chars. fold OPENING. rewrite expect_singles. cbn [mbind option_bind].
  rewrite members_read_back; [|by apply written_utf8|rewrite !length_app; pose proof (members_length true (written_fields (without_queries r)));
    change (length (singles "}")) with 1%nat; lia].
  cbn [mbind option_bind]. do 4 (rewrite member_read_back by done; cbn [mbind option_bind]). done.
Qed.

(** A record written in JSON is read back from its line: the fields that may
    be written in their order, without the queries, the label, the level, the
    message and the time, whatever characters they hold. *)
Theorem json_read_back r i line :
  well_formed r → instant_of (lr_timestamp r) = Ok i → record_line r Json = Ok line →
  read_record line = Some (mkRead (written_fields (without_queries r)) (lr_label r) (level_name (lr_level r)) (lr_message r) (lr_timestamp r)).
Proof. exact (json_line_read r i line). Qed.

Lemma json_read_back_witness :
  ∃ line, record_line sample_record Json = Ok line ∧
    read_record line = Some (mkRead [("http.method", "GET"); ("http.path", "/items"); ("user", "ana")] "web" "HTTP" (lr_message sample_record) "2026-10-08T09:05:03.250Z").
Proof.
  eexists. split; [exact sample_json|]. exact (json_read_back sample_record (Some 1791450303250) _ sample_well_formed ltac:(reflexivity) sample_json).
Defined.
