(* ===== verification/Logger.v ===== *)
(** * Logger: the loggers of BNLog ([libraries/bn_core_log/src/logger.rs], [error.rs], [records.rs], [fields.rs])

    The state of a logger and its operations over a sink, which is an
    interface, why they fail, the records of a program as fields, and what a
    file log holds after any operations. *)

From S2P Require Import Prelude Text Scalars Civil Splits StaticFiles LogLine.

#[local] Open Scope string_scope.
#[local] Open Scope Z_scope.

(** ** Failures *)

Inductive LogFailure :=
| InvalidHandle
| OutOfRange (what : string) (value min max : Z)
| InvalidString (what : string) (len max : Z)
| InvalidFormat (format : string)
| ApacheLevel
| RecordSerialization (reason : string)
| LogClosed
| IoFailed (reason : string)
| CapabilityRequired (capability : string)
| Unavailable (reason : string).

(** [bn_types::error_codes::log] *)
Definition INVALID_ARGUMENT : Z := 1.
Definition LIMIT : Z := 3.
Definition CLOSED : Z := 4.
Definition IO_FAILED : Z := 5.
Definition CAPABILITY_REQUIRED : Z := 6.
Definition UNAVAILABLE : Z := 8.

Definition code (f : LogFailure) : Z :=
  match f with
  | InvalidHandle | OutOfRange _ _ _ _ | InvalidString _ _ _ | InvalidFormat _ | ApacheLevel => INVALID_ARGUMENT
  | RecordSerialization _ => LIMIT
  | LogClosed => CLOSED
  | IoFailed _ => IO_FAILED
  | CapabilityRequired _ => CAPABILITY_REQUIRED
  | Unavailable _ => UNAVAILABLE
  end.

Definition message (f : LogFailure) : string :=
  match f with
  | InvalidHandle => "the logger or fields handle is invalid"
  | OutOfRange what value _ _ => "cannot use " +:+ dec_of_Z value +:+ " as the " +:+ what
  | InvalidString what len max =>
      if len =? 0 then "the " +:+ what +:+ " must not be empty"
      else "the " +:+ what +:+ " of " +:+ dec_of_Z len +:+ " bytes exceeds the maximum of " +:+ dec_of_Z max +:+ " bytes"
  | InvalidFormat format => str_replace "{format}" format ("unknown log format " +:+ QUOTE +:+ "{format}" +:+ QUOTE)
  | ApacheLevel => "cannot write a level record to an APACHE logger"
  | RecordSerialization reason => "cannot serialize log record: " +:+ reason
  | LogClosed => "logger is closed"
  | IoFailed reason => "log transport failed: " +:+ reason
  | CapabilityRequired cap => cap +:+ " capability is required"
  | Unavailable _ => "the operation is not available"
  end.

Definition cause (f : LogFailure) : string :=
  match f with
  | InvalidHandle => "the handle was released or was not created by BNLog"
  | OutOfRange what _ min max => "the " +:+ what +:+ " must be from " +:+ dec_of_Z min +:+ " through " +:+ dec_of_Z max
  | InvalidString what len max =>
      if len =? 0 then "the " +:+ what +:+ " must have at least 1 byte"
      else "the " +:+ what +:+ " must not exceed " +:+ dec_of_Z max +:+ " bytes"
  | InvalidFormat _ => "the format is " +:+ QUOTE +:+ "JSON" +:+ QUOTE +:+ ", " +:+ QUOTE +:+ "SYSLOG" +:+ QUOTE +:+ " or " +:+ QUOTE +:+ "APACHE" +:+ QUOTE
  | ApacheLevel => "an APACHE logger writes access records only (Logger.Access)"
  | RecordSerialization reason | IoFailed reason => reason
  | LogClosed => "a closed logger accepts no further operations"
  | CapabilityRequired cap => "the destination needs IMPORT " +:+ cap
  | Unavailable reason => reason
  end.

(** ** Records of a program *)

Definition insert_text (key value : string) (fields : FieldMap) : FieldMap :=
  if String.eqb value "" then fields else field_insert key value fields.
Definition insert_number (key : string) (value : Z) (fields : FieldMap) : FieldMap :=
  if value =? 0 then fields else field_insert key (dec_of_Z value) fields.

Record Event := mkEvent { service : string; request_id : string; route : string; user : string; detail : string; event_code : Z }.
Definition event_fields (e : Event) : FieldMap :=
  insert_number "code" (event_code e) (insert_text "detail" (detail e) (insert_text "user" (user e)
    (insert_text "route" (route e) (insert_text "request_id" (request_id e) (insert_text "service" (service e) []))))).

Record ApacheRecord := mkApache {
  remote : string; method : string; path : string; protocol : string; status : Z; bytes : Z; referrer : string; agent : string
}.
Definition apache_fields (a : ApacheRecord) : FieldMap :=
  insert_text "http.user_agent" (agent a) (insert_text "http.referrer" (referrer a) (insert_number "http.bytes_sent" (bytes a)
    (insert_number "http.status" (status a) (insert_text "http.protocol" (protocol a) (insert_text "http.path" (path a)
      (insert_text "http.method" (method a) (insert_text "http.remote" (remote a) []))))))).

(** [value.split(c).next().unwrap_or(value)] *)
Definition before (c : ascii) (value : string) : string := match split_once c value with Some (a, _) => a | None => value end.
(** [split_once("://")] *)
Fixpoint after_scheme (s : string) : option string :=
  match strip_prefix "://" s with
  | Some rest => Some rest
  | None => match s with String _ s => after_scheme s | EmptyString => None end
  end.
(** [rsplit('@').next()] *)
Definition after_last_at (s : string) : string := match rsplit_once "@" s with Some (_, rest) => rest | None => s end.

Definition access_host (url : string) : string :=
  let rest := default "" (after_scheme (before "#" url)) in
  let authority := before "#" (before "?" (before "/" rest)) in
  let authority := after_last_at authority in
  match authority with
  | String "[" host => before "]" host
  | _ => before ":" authority
  end.
Definition access_path (url : string) : string :=
  let rest := default url (after_scheme (before "#" url)) in
  match split_once "/" rest with
  | None => "/"
  | Some (_, path) => let path := before "?" path in if String.eqb path "" then "/" else "/" +:+ path
  end.

Definition header_name_ok (name : string) : bool :=
  negb (String.eqb name "") && forallb (fun b => is_ascii_alphanumeric b || Ascii.eqb b "-") (str_bytes name).
(** The walk back from the bound to a boundary. *)
Fixpoint boundary_from (value : string) (e : nat) : nat :=
  if is_char_boundary value e then e else match e with O => O | S e => boundary_from value e end.
Definition bound_field (value : string) : string :=
  if str_len value <=? FIELD_VALUE_MAX_BYTES then value
  else of_bytes (take (boundary_from value (Z.to_nat FIELD_VALUE_MAX_BYTES)) (str_bytes value)).
(** One header of [http_client_access]. *)
Definition access_header (fields : FieldMap) (header : string * string) : FieldMap :=
  let '(name, value) := header in
  if negb (header_name_ok name) || contains_text LF value || contains_text CR value || contains_text NUL value then fields
  else
    let key := "http.header." +:+ to_ascii_lowercase name in
    if is_sensitive key || String.eqb value "" then fields else field_insert key (bound_field value) fields.

Definition http_client_access (method url : string) (status bytes duration_ms : Z) (headers : list (string * string)) : FieldMap :=
  let fields := insert_text "http.protocol" "HTTP/1.1" (insert_text "http.path" (access_path url)
                  (insert_text "http.method" method (insert_text "http.remote" (access_host url) []))) in
  let fields := insert_number "http.bytes_sent" bytes (field_insert "http.status" (dec_of_Z status) fields) in
  let fields := if 0 <=? duration_ms then field_insert "http.duration_ms" (dec_of_Z duration_ms) fields else fields in
  fold_left access_header headers fields.

Definition check_values (fields : FieldMap) : res LogFailure unit :=
  match List.find (fun f => FIELD_VALUE_MAX_BYTES <? str_len f.2) fields with
  | Some (_, value) => Err (InvalidString "field value" (str_len value) FIELD_VALUE_MAX_BYTES)
  | None => Ok tt
  end.

(** ** Loggers *)

Inductive Operation := OpNew | OpAccess | OpSetLevel | OpSetDefaults | OpSetAccessDefaults | OpFlush | OpClose.
Definition OPERATIONS : list Operation := [OpNew; OpAccess; OpSetLevel; OpSetDefaults; OpSetAccessDefaults; OpFlush; OpClose].
Definition operation_name (o : Operation) : string :=
  match o with
  | OpNew => "BNLog.Logger.New"
  | OpAccess => "BNLog.Logger.Access"
  | OpSetLevel => "BNLog.Logger.SetLevel"
  | OpSetDefaults => "BNLog.Logger.SetDefaults"
  | OpSetAccessDefaults => "BNLog.Logger.SetAccessDefaults"
  | OpFlush => "BNLog.Logger.Flush"
  | OpClose => "BNLog.Logger.Close"
  end.
Definition of_name (name : string) : option Operation := List.find (fun o => String.eqb (operation_name o) name) OPERATIONS.
Definition level_operation (l : Level) : string :=
  match l with
  | LError => "BNLog.Logger.Error" | LWarn => "BNLog.Logger.Warn" | LInfo => "BNLog.Logger.Info" | LHttp => "BNLog.Logger.Http"
  | LVerbose => "BNLog.Logger.Verbose" | LDebug => "BNLog.Logger.Debug" | LSilly => "BNLog.Logger.Silly"
  end.
Definition of_operation (operation : string) : option Level := List.find (fun l => String.eqb (level_operation l) operation) LEVELS.

Record Imports := mkImports { console_imported : bool; filesystem_imported : bool }.
Inductive Destination := Console | Null | LogFile (path : string).
#[export] Instance Destination_eq_dec : EqDecision Destination.
Proof. solve_decision. Defined.

Definition usize_MAX_ : Z := 18446744073709551615.
Definition destination_of (text : string) : res LogFailure Destination :=
  if String.eqb text "" then Err (InvalidString "destination" 0 usize_MAX_)
  else Ok (if String.eqb text "CONSOLE" then Console else if String.eqb text "NULL" then Null else LogFile text).

Definition LABEL_MAX_BYTES : Z := 128.
Definition TIMEOUT_MIN_MS : Z := 1.
Definition TIMEOUT_MAX_MS : Z := 60000.

Record Logger := mkLogger {
  label : string;
  format : Format;
  destination : Destination;
  minimum : Level;
  event_defaults : FieldMap;
  access_defaults : FieldMap;
  closed : bool;
}.
Definition with_minimum (m : Level) (l : Logger) : Logger :=
  mkLogger (label l) (format l) (destination l) m (event_defaults l) (access_defaults l) (closed l).
Definition with_event_defaults (d : FieldMap) (l : Logger) : Logger :=
  mkLogger (label l) (format l) (destination l) (minimum l) d (access_defaults l) (closed l).
Definition with_access_defaults (d : FieldMap) (l : Logger) : Logger :=
  mkLogger (label l) (format l) (destination l) (minimum l) (event_defaults l) d (closed l).
Definition with_closed (l : Logger) : Logger :=
  mkLogger (label l) (format l) (destination l) (minimum l) (event_defaults l) (access_defaults l) true.

(** [LogSink]: what a logger needs of its host [W], which opens files as [F];
    an error of the host is its text. *)
Class LogSink (W F : Type) := {
  sink_timestamp : W → W * string;
  sink_console : string → st string W unit;
  sink_flush_console : st string W unit;
  sink_open_append : string → st string W F;
  sink_write_all : F → string → st string W unit;
  sink_flush : F → st string W unit;
}.

Section Logger.
Context {W F : Type} `{!LogSink W F}.
(** The name of the machine and the process. *)
Variables (host : string) (process : Z).

Abbreviation Log := (st LogFailure W).

(** [map_err(|error| LogFailure::IoFailed(error.to_string()))] *)
Definition io_failed {A} (m : st string W A) : Log A := fun w =>
  let '(w, r) := m w in
  (w, match r with Ok a => Ok a | Err e => Err (IoFailed e) | Panic p => Panic p | Fuel => Fuel end).

Definition open (label format destination : string) (imports : Imports) : Log Logger :=
  if String.eqb label "" || (LABEL_MAX_BYTES <? str_len label) then lift (Err (InvalidString "logger label" (str_len label) LABEL_MAX_BYTES))
  else
    match format_from_name format with
    | None => lift (Err (InvalidFormat format))
    | Some f =>
        destination ← lift (destination_of destination);
        match destination with
        | Console => if negb (console_imported imports) then lift (Err (CapabilityRequired "HOST.Console")) else mret tt
        | LogFile path =>
            if negb (filesystem_imported imports) then lift (Err (CapabilityRequired "HOST.FileSystem"))
            else io_failed (sink_open_append path) ;; mret tt
        | Null => mret tt
        end ;;
        mret (mkLogger label f destination (if bool_decide (f = Apache) then LHttp else LInfo) [] [] false)
    end.

Definition check_open (l : Logger) : res LogFailure unit := if closed l then Err LogClosed else Ok tt.
Definition check_timeout (timeout_ms : Z) : res LogFailure unit :=
  if in_range TIMEOUT_MIN_MS TIMEOUT_MAX_MS timeout_ms then Ok tt
  else Err (OutOfRange "timeout in milliseconds" timeout_ms TIMEOUT_MIN_MS TIMEOUT_MAX_MS).

(** The record a call writes at a time. *)
Definition record_of (l : Logger) (timestamp : string) (level : Level) (message : string) (defaults provided : FieldMap) : LogRecord :=
  with_timestamp timestamp (label l) level message defaults provided host process.

(** What carries a line to the destination. *)
Definition carry (l : Logger) (line : string) : st string W unit :=
  match destination l with
  | Console => sink_console line
  | LogFile path => file ← sink_open_append path; sink_write_all file line ;; sink_write_all file LF
  | Null => mret tt
  end.

(** A record is made a line, and the line carried. *)
Definition write_record (l : Logger) (r : LogRecord) : Log unit :=
  line ← lift match record_line r (format l) with
              | Ok line => Ok line
              | Err e => Err (RecordSerialization e)
              | Panic p => Panic p
              | Fuel => Fuel
              end;
  io_failed (carry l line).

Definition timestamp : Log string := fun w => let '(w, ts) := sink_timestamp w in (w, Ok ts).

Definition write (l : Logger) (level : Level) (message : string) (defaults provided : FieldMap) : Log unit :=
  lift (check_values provided) ;;
  if (level_rank (minimum l) <? level_rank level) || bool_decide (destination l = Null) then mret tt
  else ts ← timestamp; write_record l (record_of l ts level message defaults provided).

Definition write_event (l : Logger) (level : Level) (message : string) (event : FieldMap) : Log unit :=
  lift (check_open l) ;;
  if bool_decide (format l = Apache) then lift (Err ApacheLevel) else write l level message (event_defaults l) event.
Definition write_access (l : Logger) (request : FieldMap) : Log unit :=
  lift (check_open l) ;; write l LHttp "" (access_defaults l) request.

Definition flush_destination (l : Logger) : Log unit :=
  io_failed match destination l with
            | Console => sink_flush_console
            | LogFile path => file ← sink_open_append path; sink_flush file
            | Null => mret tt
            end.
Definition flush (l : Logger) (timeout_ms : Z) : Log unit :=
  lift (check_timeout timeout_ms) ;; lift (check_open l) ;; flush_destination l.
End Logger.

(** Operations that change the logger: its state after them with their answer. *)
Definition set_level (value : Z) (l : Logger) : Logger * res LogFailure unit :=
  match check_open l with
  | Ok _ =>
      match level_from_i128 value with
      | Some m => (with_minimum m l, Ok tt)
      | None => (l, Err (OutOfRange "log level" value (level_rank LError) (level_rank LSilly)))
      end
  | r => (l, r)
  end.
Definition set_event_defaults (defaults : FieldMap) (l : Logger) : Logger * res LogFailure unit :=
  match check_open l;; check_values defaults with Ok _ => (with_event_defaults defaults l, Ok tt) | r => (l, r) end.
Definition set_access_defaults (defaults : FieldMap) (l : Logger) : Logger * res LogFailure unit :=
  match check_open l;; check_values defaults with Ok _ => (with_access_defaults defaults l, Ok tt) | r => (l, r) end.
Definition close {W F} `{!LogSink W F} (timeout_ms : Z) (l : Logger) (w : W) : (W * Logger) * res LogFailure unit :=
  match check_timeout timeout_ms with
  | Ok _ =>
      if closed l then (w, l, Ok tt)
      else let '(w, flushed) := flush_destination (F := F) l w in (w, with_closed l, flushed)
  | r => (w, l, r)
  end.

(** ** What a program asks of a logger *)

Inductive LogOp :=
| DoEvent (level : Level) (message : string) (event : FieldMap)
| DoAccess (request : FieldMap)
| DoSetLevel (value : Z)
| DoSetDefaults (defaults : FieldMap)
| DoSetAccessDefaults (defaults : FieldMap)
| DoFlush (timeout_ms : Z)
| DoClose (timeout_ms : Z).

Section Runs.
Context {W F : Type} `{!LogSink W F}.
Variables (host : string) (process : Z).

Definition step (op : LogOp) (w : W) (l : Logger) : W * Logger * res LogFailure unit :=
  let written (m : st LogFailure W unit) := let '(w, r) := m w in (w, l, r) in
  let changed (c : Logger * res LogFailure unit) := (w, c.1, c.2) in
  match op with
  | DoEvent level message event => written (write_event (F := F) host process l level message event)
  | DoAccess request => written (write_access (F := F) host process l request)
  | DoSetLevel value => changed (set_level value l)
  | DoSetDefaults defaults => changed (set_event_defaults defaults l)
  | DoSetAccessDefaults defaults => changed (set_access_defaults defaults l)
  | DoFlush timeout_ms => written (flush (F := F) l timeout_ms)
  | DoClose timeout_ms => close (F := F) timeout_ms l w
  end.

(** The calls of a program, each with the logger it found and its answer. *)
Abbreviation Call := (Logger * LogOp * res LogFailure unit)%type.
Fixpoint run_log (ops : list LogOp) (w : W) (l : Logger) : W * Logger * list Call :=
  match ops with
  | [] => (w, l, [])
  | op :: ops =>
      let '(w, l', r) := step op w l in
      let '(w, l', calls) := run_log ops w l' in (w, l', (l, op, r) :: calls)
  end.
End Runs.
Abbreviation Call := (Logger * LogOp * res LogFailure unit)%type.

(** The level, message and fields an operation writes, unless it is refused or
    its level is below the minimum. *)
Definition asked (l : Logger) (op : LogOp) : option (Level * string * FieldMap * FieldMap) :=
  let admitted level message defaults provided :=
    if closed l || (level_rank (minimum l) <? level_rank level) || existsb (fun f => FIELD_VALUE_MAX_BYTES <? str_len f.2) provided
    then None else Some (level, message, defaults, provided) in
  match op with
  | DoEvent level message event => if bool_decide (format l = Apache) then None else admitted level message (event_defaults l) event
  | DoAccess request => admitted LHttp "" (access_defaults l) request
  | _ => None
  end.

(** ** A disk that may fail *)

(** Files by their paths, the attempts to come that fail (each after so many
    bytes), and the clock. *)
Record Disk := mkDisk { files : gmap string string; faults : list (option nat); ticks : nat; screen : string }.

Section Disk.
Variable now : nat → string.

(** The next attempt: whether it fails. *)
Definition attempt {A} (f : option nat → Disk → Disk * res string A) : st string Disk A := fun w =>
  match faults w with
  | [] => f None w
  | fault :: faults => f fault (mkDisk (files w) faults (ticks w) (screen w))
  end.
Definition IO_ERROR : string := "input/output error".
Definition content (w : Disk) (path : string) : string := default "" (files w !! path).
Definition append_text (path text : string) (w : Disk) : Disk :=
  mkDisk (<[path := content w path +:+ text]> (files w)) (faults w) (ticks w) (screen w).
Definition first_bytes (n : nat) (s : string) : string := of_bytes (take n (str_bytes s)).

#[export] Instance disk_sink : LogSink Disk string := {|
  sink_timestamp w := (mkDisk (files w) (faults w) (S (ticks w)) (screen w), now (ticks w));
  sink_console line := attempt (fun fault w =>
    match fault with
    | None => (mkDisk (files w) (faults w) (ticks w) (screen w +:+ line +:+ LF), Ok tt)
    | Some _ => (w, Err IO_ERROR)
    end);
  sink_flush_console := attempt (fun fault w => (w, match fault with None => Ok tt | Some _ => Err IO_ERROR end));
  sink_open_append path := attempt (fun fault w =>
    match fault with None => (append_text path "" w, Ok path) | Some _ => (w, Err IO_ERROR) end);
  sink_write_all path text := attempt (fun fault w =>
    match fault with
    | None => (append_text path text w, Ok tt)
    | Some n => (append_text path (first_bytes n text) w, Err IO_ERROR)
    end);
  sink_flush path := attempt (fun fault w => (w, match fault with None => Ok tt | Some _ => Err IO_ERROR end));
|}.

(** ** The file of a log *)

Definition fields_utf8 (fields : FieldMap) : Prop := Forall (fun f => is_utf8 f.1 = true ∧ is_utf8 f.2 = true) fields.
Definition logger_ok (l : Logger) : Prop := is_utf8 (label l) = true ∧ fields_utf8 (event_defaults l) ∧ fields_utf8 (access_defaults l).
Definition op_ok (op : LogOp) : Prop :=
  match op with
  | DoEvent _ message event => is_utf8 message = true ∧ fields_utf8 event
  | DoAccess fields | DoSetDefaults fields | DoSetAccessDefaults fields => fields_utf8 fields
  | _ => True
  end.
Definition clock_ok : Prop := ∀ n, is_utf8 (now n) = true ∧ clean (now n) ∧ ∃ i, instant_of (now n) = Ok i.

(** What one call adds to the file of its logger. *)
Inductive adds (host : string) (process : Z) : Call → string → Prop :=
| adds_line l op n level message defaults provided line :
    asked l op = Some (level, message, defaults, provided) → clean line →
    record_line (record_of host process l (now n) level message defaults provided) (format l) = Ok line →
    adds host process (l, op, Ok tt) (line +:+ LF)
| adds_part l op n level message defaults provided line part rest e :
    asked l op = Some (level, message, defaults, provided) → clean line →
    record_line (record_of host process l (now n) level message defaults provided) (format l) = Ok line →
    line +:+ LF = part +:+ rest → adds host process (l, op, Err (IoFailed e)) part
| adds_nothing l op r : asked l op = None → adds host process (l, op, r) ""
| adds_too_long l op n level message defaults provided :
    asked l op = Some (level, message, defaults, provided) →
    record_line (record_of host process l (now n) level message defaults provided) (format l) = Err RECORD_TOO_LONG →
    adds host process (l, op, Err (RecordSerialization RECORD_TOO_LONG)) "".

Lemma insert_utf8 key value fields : is_utf8 key = true → is_utf8 value = true → fields_utf8 fields → fields_utf8 (field_insert key value fields).
Proof.
  intros Hk Hv. induction 1 as [|[k v] fields Hf Hfs IH]; cbn [field_insert]; [by repeat constructor|].
  destruct (str_cmp key k); repeat constructor; try done; apply Hf.
Qed.
Lemma extend_utf8 provided fields : fields_utf8 provided → fields_utf8 fields → fields_utf8 (fields_extend provided fields).
Proof.
  intros Hp. revert fields. induction Hp as [|[k v] provided [Hk Hv] _ IH]; intros fields Hf; [done|].
  apply IH. by apply insert_utf8.
Qed.

Lemma first_bytes_prefix n s : ∃ rest, s = first_bytes n s +:+ rest.
Proof.
  exists (of_bytes (drop n (str_bytes s))). unfold first_bytes.
  assert (∀ a b, of_bytes a +:+ of_bytes b = of_bytes (a ++ b)%list) as Happ.
  { intros a b. induction a as [|x a IH]; [done|]. cbn [of_bytes app]. by rewrite str_cons_append, IH. }
  rewrite Happ, take_drop. clear. induction s as [|c s IH]; [done|]. cbn. by rewrite <- IH.
Qed.

(** A file grows by a part, and no other file changes. *)
Definition grows (path : string) (w w' : Disk) (part : string) : Prop :=
  content w' path = content w path +:+ part ∧ ∀ q, q ≠ path → files w' !! q = files w !! q.

Lemma grows_none path w : grows path w w "".
Proof. split; [by rewrite str_append_nil|done]. Qed.
Lemma grows_trans path w1 w2 w3 a b : grows path w1 w2 a → grows path w2 w3 b → grows path w1 w3 (a +:+ b).
Proof. intros [H1 H1'] [H2 H2']. split; [by rewrite H2, H1, str_append_assoc|]. intros q Hq. by rewrite H2', H1'. Qed.
Lemma grows_append path text w : grows path w (append_text path text w) text.
Proof.
  split; [unfold content, append_text; cbn [files]; by rewrite lookup_insert_eq|].
  intros q Hq. unfold append_text. cbn [files]. by rewrite lookup_insert_ne.
Qed.
Lemma grows_files path w w' : files w' = files w → grows path w w' "".
Proof. intros H. unfold grows, content. rewrite H. split; [by rewrite str_append_nil|done]. Qed.

Lemma attempt_spec {A} (f : option nat → Disk → Disk * res string A) w :
  ∃ fault w1, attempt f w = f fault w1 ∧ files w1 = files w.
Proof. unfold attempt. destruct (faults w) as [|fault rest]; by eauto. Qed.

#[local] Ltac next_attempt fault w Hf :=
  match goal with |- context [attempt ?f ?v] => destruct (attempt_spec f v) as (fault & w & -> & Hf) end.

Lemma open_grows path w : ∃ w' r, sink_open_append path w = (w', r) ∧ grows path w w' "" ∧ (r = Ok path ∨ ∃ e, r = Err e).
Proof.
  cbn [sink_open_append disk_sink]. next_attempt fault w1 Hf. destruct fault; eexists _, _; (split; [reflexivity|]).
  - split; [by apply grows_files|by right; eexists].
  - split; [|by left]. pose proof (grows_trans path w w1 _ _ _ (grows_files path w w1 Hf) (grows_append path "" w1)) as H. exact H.
Qed.
Lemma write_grows path text w : ∃ w' r part rest, sink_write_all path text w = (w', r) ∧ grows path w w' part ∧ text = part +:+ rest ∧
  (r = Ok tt ∧ rest = "" ∨ ∃ e, r = Err e).
Proof.
  cbn [sink_write_all disk_sink]. next_attempt fault w1 Hf. destruct fault as [n|].
  - destruct (first_bytes_prefix n text) as [rest Hr]. eexists _, _, (first_bytes n text), rest. split; [reflexivity|]. split_and!; [|done|by right; eexists].
    pose proof (grows_trans path w w1 _ _ _ (grows_files path w w1 Hf) (grows_append path (first_bytes n text) w1)) as H. exact H.
  - eexists _, _, text, "". split; [reflexivity|]. split_and!; [|by rewrite str_append_nil|by left].
    pose proof (grows_trans path w w1 _ _ _ (grows_files path w w1 Hf) (grows_append path text w1)) as H. exact H.
Qed.
Lemma flush_grows path l w : destination l = LogFile path →
  ∃ w' r, flush_destination (F := string) l w = (w', r) ∧ grows path w w' "" ∧ (r = Ok tt ∨ ∃ e, r = Err (IoFailed e)).
Proof.
  intros Hd. unfold flush_destination, io_failed. rewrite Hd. unfold mbind, st_bind.
  destruct (open_grows path w) as (w1 & r1 & -> & Hg & [->|[e ->]]); cycle 1.
  { eexists _, _. split; [reflexivity|]. split; [done|by right; eexists]. }
  cbn [sink_flush disk_sink]. next_attempt fault w2 Hf. destruct fault; eexists _, _; (split; [reflexivity|]);
    (split; [exact (grows_trans path w w1 w2 _ _ Hg (grows_files path w1 w2 Hf))|]); [by right; eexists|by left].
Qed.
Lemma carry_grows path l line w : destination l = LogFile path →
  ∃ w' r part rest, io_failed (carry (F := string) l line) w = (w', r) ∧ grows path w w' part ∧ line +:+ LF = part +:+ rest ∧
    (r = Ok tt ∧ rest = "" ∨ ∃ e, r = Err (IoFailed e)).
Proof.
  intros Hd. unfold carry, io_failed. rewrite Hd. unfold mbind, st_bind.
  destruct (open_grows path w) as (w1 & r1 & -> & Hg1 & [->|[e ->]]); cycle 1.
  { eexists _, _, "", _. split; [reflexivity|]. split_and!; [done|reflexivity|by right; eexists]. }
  destruct (write_grows path line w1) as (w2 & r2 & part & rest & -> & Hg2 & Hpart & [[-> ->]|[e ->]]); cycle 1.
  { eexists _, _, part, (rest +:+ LF). split; [reflexivity|]. split_and!; [exact (grows_trans _ _ _ _ _ _ Hg1 Hg2)|by rewrite Hpart, str_append_assoc|by right; eexists]. }
  rewrite str_append_nil in Hpart. subst part. pose proof (grows_trans _ _ _ _ _ _ Hg1 Hg2) as Hg. rewrite str_nil_append in Hg.
  destruct (write_grows path LF w2) as (w3 & r3 & part & rest & -> & Hg3 & Hpart & Hr).
  eexists _, _, (line +:+ part), rest. split; [reflexivity|]. split_and!; [exact (grows_trans _ _ _ _ _ _ Hg Hg3)|by rewrite Hpart at 1; rewrite str_append_assoc|].
  destruct Hr as [[-> ->]|[e ->]]; [by left|by right; eexists].
Qed.

Lemma check_values_spec provided :
  check_values provided = Ok tt ∧ existsb (fun f => FIELD_VALUE_MAX_BYTES <? str_len f.2) provided = false ∨
  (∃ f, check_values provided = Err f) ∧ existsb (fun f => FIELD_VALUE_MAX_BYTES <? str_len f.2) provided = true.
Proof.
  unfold check_values. induction provided as [|[k v] provided IH]; [by left|]. cbn [List.find existsb snd].
  destruct (FIELD_VALUE_MAX_BYTES <? str_len v); [right; split; [by eexists|done]|exact IH].
Qed.

Section File.
Variables (host : string) (process : Z) (path : string).
Hypothesis Hclock : clock_ok.

Lemma record_well_formed l n level message defaults provided :
  logger_ok l → is_utf8 message = true → fields_utf8 defaults → fields_utf8 provided →
  well_formed (record_of host process l (now n) level message defaults provided).
Proof. intros [Hl _] Hm Hd Hp. destruct (Hclock n) as (H1 & H2 & _). split; [done|done|by apply extend_utf8|done]. Qed.

(** A record that is written: all of its line, a part of it, or nothing. *)
Lemma write_record_adds l op level message defaults provided w :
  destination l = LogFile path → logger_ok l → is_utf8 message = true → fields_utf8 defaults → fields_utf8 provided →
  asked l op = Some (level, message, defaults, provided) →
  ∃ w' r part, (ts ← timestamp (W := Disk) (F := string); write_record (F := string) l (record_of host process l ts level message defaults provided)) w = (w', r) ∧
    grows path w w' part ∧ adds host process (l, op, r) part.
Proof.
  intros Hd Hl Hm Hdef Hp Hasked. unfold mbind, st_bind at 1, timestamp. cbn [sink_timestamp disk_sink].
  set (w1 := mkDisk _ _ _ _). assert (grows path w w1 "") as Hg by by apply grows_files.
  pose proof (record_well_formed l (ticks w) level message defaults provided Hl Hm Hdef Hp) as Hwf.
  destruct (Hclock (ticks w)) as (_ & _ & i & Hi).
  destruct (line_safe_text _ (format l) i Hwf Hi) as (line & Hclean & Hline).
  unfold write_record, mbind, st_bind, lift. rewrite Hline. destruct (_ <? _).
  { eexists _, _, "". split; [reflexivity|]. split; [done|]. eapply adds_too_long; [done|exact Hline]. }
  destruct (carry_grows path l line w1 Hd) as (w2 & r & part & rest & -> & Hg2 & Hpart & Hr).
  eexists _, _, part. split; [reflexivity|]. split; [exact (grows_trans _ _ _ _ _ _ Hg Hg2)|].
  destruct Hr as [[-> ->]|[e ->]]; [|by eapply adds_part].
  rewrite str_append_nil in Hpart. rewrite <- Hpart. by eapply adds_line.
Qed.

Lemma write_adds l op level message defaults provided w :
  destination l = LogFile path → logger_ok l → is_utf8 message = true → fields_utf8 defaults → fields_utf8 provided →
  asked l op = (if false || (level_rank (minimum l) <? level_rank level) || existsb (fun f => FIELD_VALUE_MAX_BYTES <? str_len f.2) provided
                then None else Some (level, message, defaults, provided)) →
  ∃ w' r part, write (F := string) host process l level message defaults provided w = (w', r) ∧ grows path w w' part ∧ adds host process (l, op, r) part.
Proof.
  intros Hd Hl Hm Hdef Hp Hasked. unfold write. cbn [orb] in Hasked. rewrite Hd, (bool_decide_false (LogFile path = Null)), orb_false_r by done.
  destruct (check_values_spec provided) as [[Hv Hlong]|[[f Hv] Hlong]]; rewrite Hlong in Hasked.
  - rewrite orb_false_r in Hasked. rewrite Hv. destruct (level_rank (minimum l) <? level_rank level).
    + exists w, (Ok tt), "". split; [done|]. split; [apply grows_none|by apply adds_nothing].
    + by apply write_record_adds.
  - rewrite orb_true_r in Hasked. rewrite Hv. exists w, (Err f), "". split; [done|]. split; [apply grows_none|by apply adds_nothing].
Qed.

(** One call. *)
Lemma step_adds op l w : destination l = LogFile path → logger_ok l → op_ok op →
  ∃ w' l' r part, step (F := string) host process op w l = (w', l', r) ∧ grows path w w' part ∧ adds host process (l, op, r) part ∧
    destination l' = LogFile path ∧ logger_ok l' ∧ format l' = format l ∧ label l' = label l.
Proof.
  intros Hd Hl Hop. pose proof Hl as (Hlabel & Hevent & Haccess).
  assert (∀ (m : st LogFailure Disk unit), (∃ w' r part, m w = (w', r) ∧ grows path w w' part ∧ adds host process (l, op, r) part) →
    ∃ w' l' r part, (let '(w', r) := m w in (w', l, r)) = (w', l', r) ∧ grows path w w' part ∧ adds host process (l, op, r) part ∧
      destination l' = LogFile path ∧ logger_ok l' ∧ format l' = format l ∧ label l' = label l) as Hsame.
  { intros m (w' & r & part & -> & Hg & Ha). by exists w', l, r, part. }
  assert (∀ c, asked l op = None → (c.1 = l ∨ destination c.1 = LogFile path ∧ logger_ok c.1 ∧ format c.1 = format l ∧ label c.1 = label l) →
    ∃ w' l' r part, (w, c.1, c.2) = (w', l', r) ∧ grows path w w' part ∧ adds host process (l, op, r) part ∧
      destination l' = LogFile path ∧ logger_ok l' ∧ format l' = format l ∧ label l' = label l) as Hchanged.
  { intros [l' r] Ha Hc. exists w, l', r, "". cbn [fst snd] in *. split; [done|]. split; [apply grows_none|]. split; [by apply adds_nothing|].
    destruct Hc as [->|Hc]; [done|exact Hc]. }
  assert (∀ w' r, asked l op = None → grows path w w' "" → ∃ w'' r' part, (w', r) = (w'', r') ∧ grows path w w'' part ∧ adds host process (l, op, r') part) as Hnone.
  { intros w' r Ha Hg. exists w', r, "". split; [done|]. split; [done|by apply adds_nothing]. }
  destruct op as [level message event|request|value|defaults|defaults|ms|ms]; cbn [step op_ok] in *.
  - apply Hsame. unfold write_event, mbind, st_bind, lift, check_open. cbn [asked] in *. destruct (closed l) eqn:Hc.
    { apply Hnone; [by destruct (bool_decide _)|apply grows_none]. }
    destruct (bool_decide (format l = Apache)) eqn:Hf; [by apply Hnone; [|apply grows_none]|].
    apply write_adds; try done; [apply Hop..|]. cbn [asked]; by rewrite ?Hc, ?Hf.
  - apply Hsame. unfold write_access, mbind, st_bind, lift, check_open. destruct (closed l) eqn:Hc.
    { apply Hnone; [cbn [asked]; by rewrite Hc|apply grows_none]. }
    apply write_adds; try done. cbn [asked]. by rewrite Hc.
  - apply Hchanged; [done|]. unfold set_level, check_open. destruct (closed l); [by left|]. destruct (level_from_i128 value); [by right|by left].
  - apply Hchanged; [done|]. unfold set_event_defaults, check_open. destruct (closed l); [by left|]. cbn [mbind res_bind].
    destruct (check_values defaults); [by right|by left..].
  - apply Hchanged; [done|]. unfold set_access_defaults, check_open. destruct (closed l); [by left|]. cbn [mbind res_bind].
    destruct (check_values defaults); [by right|by left..].
  - apply Hsame. unfold flush, mbind, st_bind, lift, check_timeout, check_open. destruct (in_range _ _ ms); [|by apply Hnone; [|apply grows_none]].
    destruct (closed l); [by apply Hnone; [|apply grows_none]|]. destruct (flush_grows path l w Hd) as (w' & r & -> & Hg & _). by apply Hnone.
  - unfold close, check_timeout. destruct (in_range _ _ ms); [destruct (closed l)|].
    1, 3: by apply (Hchanged (l, _)); [|left].
    destruct (flush_grows path l w Hd) as (w' & r & -> & Hg & _). exists w', (with_closed l), r, "". split; [done|]. split; [done|].
    split; [by apply adds_nothing|done].
Qed.

Lemma run_adds ops l w : destination l = LogFile path → logger_ok l → Forall op_ok ops →
  let '(w', _, calls) := run_log (F := string) host process ops w l in
  ∃ parts, grows path w w' (text_of parts) ∧ Forall2 (adds host process) calls parts ∧ map (fun c => c.1.2) calls = ops ∧
    Forall (fun c => logger_ok c.1.1 ∧ op_ok c.1.2 ∧ format c.1.1 = format l ∧ label c.1.1 = label l) calls.
Proof.
  intros Hd Hl Hops. revert l w Hd Hl. induction Hops as [|op ops Hop Hops IH]; intros l w Hd Hl; cbn [run_log].
  { exists []. split_and!; [apply grows_none|constructor|done|constructor]. }
  destruct (step_adds op l w Hd Hl Hop) as (w1 & l1 & r & part & -> & Hg & Ha & Hd1 & Hl1 & Hf1 & Hb1).
  specialize (IH l1 w1 Hd1 Hl1). destruct (run_log _ _ ops w1 l1) as [[w2 l2] calls]. destruct IH as (parts & Hg2 & Hall & Hmap & Hsame).
  exists (part :: parts). split_and!; [exact (grows_trans _ _ _ _ _ _ Hg Hg2)|by constructor|cbn; by rewrite Hmap|].
  constructor; [done|]. rewrite Hf1, Hb1 in Hsame. exact Hsame.
Qed.
End File.
End Disk.

(** A closed logger asks nothing more of its host, whatever the host is: every
    call but Close is answered CLOSED, a timeout out of bounds first, and Close
    does nothing. *)
Theorem closed_logger_silent {W F} `{!LogSink W F} host process op (w : W) l :
  closed l = true →
  step (F := F) host process op w l
  = (w, l, match op with
           | DoFlush ms => match check_timeout ms with Ok _ => Err LogClosed | r => r end
           | DoClose ms => check_timeout ms
           | _ => Err LogClosed
           end).
Proof.
  intros Hc. destruct op; cbn [step]; unfold write_event, write_access, flush, close, set_level, set_event_defaults, set_access_defaults,
    mbind, st_bind, res_bind, lift, check_open; rewrite ?Hc; try done.
  - by destruct (check_timeout timeout_ms) as [[]|?|?|].
  - by destruct (check_timeout timeout_ms) as [[]|?|?|].
Qed.

(** C36: A file log, whatever operations follow each other and whatever attempts
    of the disk fail: the file grows by what its calls add, in their order, and
    no other file changes. A call that writes a record adds its line with a line
    feed, or, when it answers that the transport failed, a beginning of it; a
    call that is refused, or whose level is below the minimum, adds nothing, as
    does a record too long. *)
Theorem log_file_holds now host process path ops l w :
  clock_ok now → destination l = LogFile path → logger_ok l → Forall op_ok ops →
  let '(w', _, calls) := run_log (W := Disk) (LogSink0 := disk_sink now) host process ops w l in
  ∃ parts, content w' path = content w path +:+ text_of parts ∧ (∀ q, q ≠ path → files w' !! q = files w !! q) ∧
    map (fun c => c.1.2) calls = ops ∧ Forall2 (adds now host process) calls parts.
Proof.
  intros Hclock Hd Hl Hops. pose proof (run_adds now host process path Hclock ops l w Hd Hl Hops) as H.
  destruct (run_log _ _ ops w l) as [[w' l'] calls]. destruct H as (parts & [Hg Hq] & Hall & Hmap & _). by exists parts.
Qed.

(** ** A log read back *)

Definition LINE_FEED : ascii := byte_of 10.

Lemma clean_no_feed line : clean line → contains_char LINE_FEED line = false.
Proof.
  intros [Hu Hv]. rewrite <- (text_of_chars line). apply utf8_scalars in Hu. revert Hv. induction Hu as [|c l Hc _ IH]; intros Hv; [done|].
  apply list.Forall_cons in Hv as [Hc' Hv]. cbn [text_of]. unfold contains_char in *. rewrite str_bytes_append, existsb_app, IH, orb_false_r by done.
  apply scalar_text_encode in Hc as (u & Hu & _ & -> & E). unfold visible in Hc'. rewrite E in Hc'. apply not_true_is_false. intros Hx.
  apply existsb_exists in Hx as (b & Hb & <-%Ascii.eqb_eq). destruct (utf8_encode_bytes u Hu) as [_ [[Hl Hs]|[_ Hh]]].
  - rewrite Hs in Hb. unfold char_at in Hb. destruct Hb as [Hb|[]]. apply (f_equal byte_val) in Hb. rewrite byte_val_byte_of in Hb by lia.
    apply andb_prop in Hc' as [Hc'%Z.leb_le _]. vm_compute in Hb. subst u. lia.
  - rewrite list.Forall_forall in Hh. apply list_elem_of_In, Hh in Hb. by vm_compute in Hb.
Qed.
Lemma lines_split lines : Forall clean lines → split LINE_FEED (text_of (map (fun line => line +:+ LF) lines)) = (lines ++ [""])%list.
Proof.
  induction 1 as [|line lines Hl _ IH]; [done|]. cbn [map text_of app]. rewrite str_append_assoc.
  change (LF +:+ ?s) with (String LINE_FEED s). rewrite split_append by by apply clean_no_feed. by rewrite IH.
Qed.

(** What the calls that were answered Ok wrote. *)
Definition written_by (calls : list Call) : list (Level * string * FieldMap * FieldMap) :=
  omap (fun c => match c.2 with Ok _ => asked c.1.1 c.1.2 | _ => None end) calls.

Lemma asked_utf8 l op level message defaults provided : logger_ok l → op_ok op → asked l op = Some (level, message, defaults, provided) →
  is_utf8 message = true ∧ fields_utf8 defaults ∧ fields_utf8 provided.
Proof.
  intros (_ & He & Ha) Hop Hasked. destruct op; cbn [asked op_ok] in *; try done.
  - destruct (bool_decide _); [done|]. destruct (_ || _); [done|]. injection Hasked as <- <- <- <-. naive_solver.
  - destruct (_ || _); [done|]. by injection Hasked as <- <- <- <-.
Qed.

Lemma calls_lines now host process lb calls parts : clock_ok now →
  Forall (fun c => logger_ok c.1.1 ∧ op_ok c.1.2 ∧ format c.1.1 = Json ∧ label c.1.1 = lb) calls →
  Forall (fun c => ∀ e, c.2 ≠ Err (IoFailed e)) calls → Forall2 (adds now host process) calls parts →
  ∃ lines, text_of parts = text_of (map (fun line => line +:+ LF) lines) ∧ Forall clean lines ∧
    Forall2 (fun a line => let '(level, message, defaults, provided) := a in
      ∃ n, read_record line = Some (read_of (with_timestamp (now n) lb level message defaults provided host process))) (written_by calls) lines.
Proof.
  intros Hclock Hok Hno Hall. induction Hall as [|c part calls parts Ha _ IH]; [by exists []|].
  apply list.Forall_cons in Hok as [(Hl & Hop & Hf & Hlb) Hok]. apply list.Forall_cons in Hno as [Hn Hno].
  destruct (IH Hok Hno) as (lines & Htext & Hclean & Hread). cbn [text_of]. rewrite Htext.
  destruct Ha as [l op n level message defaults provided line Hasked Hc Hline|l op n level message defaults provided line part rest e _ _ _ _
    |l op r Hasked|l op n level message defaults provided Hasked Hline]; cbn [fst snd] in *.
  - exists (line :: lines). split_and!; [done|by constructor|]. unfold written_by. cbn [omap list_omap fst snd]. rewrite Hasked.
    constructor; [|exact Hread]. exists n. destruct (asked_utf8 _ _ _ _ _ _ Hl Hop Hasked) as (Hm & Hd & Hp).
    destruct (Hclock n) as (_ & _ & i & Hi). rewrite Hf in Hline. rewrite <- Hlb. eapply json_line_read; [|exact Hi|exact Hline].
    by apply record_well_formed.
  - by destruct (Hn e).
  - exists lines. split_and!; [done|done|]. unfold written_by. cbn [omap list_omap fst snd]. rewrite Hasked. by destruct r.
  - exists lines. by split_and!.
Qed.

(** C35: A JSON log whose calls met no failure of the disk is read back: what was
    added to the file is one line for each call that was answered Ok and was
    not below the minimum, in their order, and each line gives back the level,
    the message, the label and the fields of its call that may be written. *)
Theorem log_read_back now host process path ops l w :
  clock_ok now → destination l = LogFile path → logger_ok l → format l = Json → Forall op_ok ops →
  let '(w', _, calls) := run_log (W := Disk) (LogSink0 := disk_sink now) host process ops w l in
  Forall (fun c => ∀ e, c.2 ≠ Err (IoFailed e)) calls →
  ∃ text lines, content w' path = content w path +:+ text ∧ split LINE_FEED text = (lines ++ [""])%list ∧
    Forall2 (fun a line => let '(level, message, defaults, provided) := a in
      ∃ n, read_record line = Some (mkRead
        (written_fields (without_queries (with_timestamp (now n) (label l) level message defaults provided host process)))
        (label l) (level_name level) message (now n))) (written_by calls) lines.
Proof.
  intros Hclock Hd Hl Hf Hops. pose proof (run_adds now host process path Hclock ops l w Hd Hl Hops) as H.
  destruct (run_log _ _ ops w l) as [[w' l'] calls]. destruct H as (parts & [Hg _] & Hall & _ & Hsame). rewrite Hf in Hsame. intros Hno.
  destruct (calls_lines now host process (label l) calls parts Hclock Hsame Hno Hall) as (lines & Htext & Hclean & Hread).
  exists (text_of parts), lines. split_and!; [done|rewrite Htext; by apply lines_split|exact Hread].
Qed.

(** ** Samples *)

Definition sample_now (n : nat) : string := "2026-10-08T09:05:03.250Z".
Lemma sample_clock : clock_ok sample_now.
Proof. intros n. split_and!; [reflexivity|by apply clean_checked|by exists (Some 1791450303250)]. Qed.

Definition sample_disk (faults : list (option nat)) : Disk := mkDisk ∅ faults 0 "".
Definition sample_logger : Logger := mkLogger "app" Json (LogFile "app.log") LInfo [] [] false.
Definition sample_ops : list LogOp :=
  [DoEvent LInfo ("in" +:+ LF +:+ "out") (event_fields (mkEvent "users" "" "" "ana" "" 3)); DoEvent LDebug "hidden" []; DoSetLevel 9; DoSetLevel 3;
   DoAccess (apache_fields (mkApache "" "GET" "/items?page=2" "" 200 0 "" "")); DoClose 100; DoEvent LError "late" []].
Definition sample_run (faults : list (option nat)) : Disk * Logger * list Call :=
  run_log (LogSink0 := disk_sink sample_now) "web01" 4242 sample_ops (sample_disk faults) sample_logger.

Lemma sample_ops_ok : Forall op_ok sample_ops.
Proof.
  assert (∀ fields, forallb (fun f => is_utf8 f.1 && is_utf8 f.2) fields = true → fields_utf8 fields) as H.
  { induction fields as [|f fields IH]; [constructor|]. cbn [forallb]. intros [Hf Hfs]%andb_prop. apply andb_prop in Hf. by constructor; [|apply IH]. }
  unfold sample_ops. repeat (apply list.Forall_cons; split; [cbn [op_ok]; first [exact I|split; [vm_compute; reflexivity|]|idtac]; apply H; vm_compute; reflexivity|]);
    apply list.Forall_nil; exact I.
Qed.
Lemma sample_logger_ok : logger_ok sample_logger.
Proof. split_and!; [reflexivity|constructor..]. Qed.

Example sample_opened :
  open (LogSink0 := disk_sink sample_now) "app" "JSON" "app.log" (mkImports false true) (sample_disk [])
  = (append_text "app.log" "" (sample_disk []), Ok sample_logger) ∧
  (open (LogSink0 := disk_sink sample_now) "app" "JSON" "app.log" (mkImports true false) (sample_disk [])).2
  = Err (CapabilityRequired "HOST.FileSystem").
Proof. split; reflexivity. Qed.

(** A disk that is full after three bytes of the second record. *)
Example sample_failure :
  let '(w, _, calls) := sample_run [None; None; None; None; Some 3%nat] in
  map snd calls = [Ok tt; Ok tt; Err (OutOfRange "log level" 9 0 6); Ok tt; Err (IoFailed IO_ERROR); Ok tt; Err LogClosed] ∧
  String.length (content w "app.log") = 146%nat.
Proof. vm_compute. by split. Qed.

(** A response header is written with its query. *)
Example location_query : http_client_access "GET" "http://u:s@h:9/item?token=1" 302 0 5 [("Location", "/next?token=2"); ("Set-Cookie", "a=b")]
  = [("http.duration_ms", "5"); ("http.header.location", "/next?token=2"); ("http.method", "GET"); ("http.path", "/item");
     ("http.protocol", "HTTP/1.1"); ("http.remote", "h"); ("http.status", "302")].
Proof. vm_compute. reflexivity. Qed.

Lemma log_file_holds_witness :
  let '(w, _, calls) := sample_run [None; None; None; None; Some 3%nat] in
  ∃ parts, content w "app.log" = text_of parts ∧ Forall2 (adds sample_now "web01" 4242) calls parts.
Proof.
  pose proof (log_file_holds sample_now "web01" 4242 "app.log" sample_ops sample_logger (sample_disk [None; None; None; None; Some 3%nat])
    sample_clock eq_refl sample_logger_ok sample_ops_ok) as H. unfold sample_run.
  destruct (run_log _ _ sample_ops _ _) as [[w l] calls]. destruct H as (parts & Hc & _ & _ & Hall). by exists parts.
Defined.

Lemma closed_logger_silent_witness :
  step (LogSink0 := disk_sink sample_now) "web01" 4242 (DoFlush 100) (sample_disk []) (with_closed sample_logger)
  = (sample_disk [], with_closed sample_logger, Err LogClosed).
Proof. exact (closed_logger_silent (LogSink0 := disk_sink sample_now) "web01" 4242 (DoFlush 100) (sample_disk []) (with_closed sample_logger) eq_refl). Defined.

Lemma log_read_back_witness :
  let '(w, _, calls) := sample_run [] in
  ∃ text lines, content w "app.log" = text ∧ split LINE_FEED text = (lines ++ [""])%list ∧ length lines = 2%nat.
Proof.
  pose proof (log_read_back sample_now "web01" 4242 "app.log" sample_ops sample_logger (sample_disk [])
    sample_clock eq_refl sample_logger_ok eq_refl sample_ops_ok) as H. unfold sample_run in *.
  assert (Forall (fun c => ∀ e, c.2 ≠ Err (IoFailed e)) (run_log (LogSink0 := disk_sink sample_now) "web01" 4242 sample_ops (sample_disk []) sample_logger).2 ∧
    length (written_by (run_log (LogSink0 := disk_sink sample_now) "web01" 4242 sample_ops (sample_disk []) sample_logger).2) = 2%nat) as [Hno Hlen].
  { assert (∀ calls : list Call, forallb (fun c => match c.2 with Err (IoFailed _) => false | _ => true end) calls = true →
      Forall (fun c => ∀ e, c.2 ≠ Err (IoFailed e)) calls) as Hb.
    { induction calls as [|c calls IH]; [constructor|]. cbn [forallb]. intros [Hc Hcs]%andb_prop. constructor; [|by apply IH].
      intros e E. by rewrite E in Hc. }
    split; [apply Hb|]; vm_compute; reflexivity. }
  destruct (run_log _ _ sample_ops _ _) as [[w l] calls]. cbn [snd] in *. destruct (H Hno) as (text & lines & Hc & Hs & Hr).
  exists text, lines. split_and!; [exact Hc|exact Hs|]. rewrite <- Hlen. symmetry. by eapply Forall2_length.
Defined.

(** The path of an access record is not cut at the bound of a field, so the
    record of a long one is refused. *)
Example long_path_refused :
  check_values (http_client_access "GET" ("http://h/" +:+ zeros 5000) 200 0 5 []) = Err (InvalidString "field value" 5001 4096).
Proof. vm_compute. reflexivity. Qed.
