(* ===== verification/TypeRules.v ===== *)
(** * TypeRules: the static rules of types ([crates/bn_frontend/src/semantic]: helpers1.rs, type_ops.rs, literal_settle.rs)

    The type of an operator, the combination of numeric types, constant
    expressions and their folding, and the agreement of all this with the
    operators of the interpreter. *)

From S2P Require Import Prelude Text Diag Types ClassModel Civil Literals Floats Values Operators Lexer Syntax.

#[local] Open Scope string_scope.
#[local] Open Scope Z_scope.

(** ** Diagnostics *)

(** Those of [helpers2.rs]: [type_mismatch], [error], [name_not_found],
    [duplicate_name], [unreachable_code]. *)
Inductive SemanticError :=
| Mismatch (expected actual context : string) (span : Span)
| SemanticRule (code message : string) (span : Span)
| NameNotFound (name context : string) (span : Span)
| DuplicateName (name : string) (span : Span)
| UnreachableCode (context : string) (span : Span).
Abbreviation checked A := (res SemanticError A).

(** ** Names of types *)

Definition integer_type (name : string) : option IntegerType :=
  match name with
  | "BYTE" => Some Byte
  | "INT8" => Some Int8
  | "INT16" => Some Int16
  | "INT32" | "INTEGER" => Some Int32
  | "INT64" | "TIMESTAMP" => Some Int64
  | "UINT16" => Some UInt16
  | "UINT32" => Some UInt32
  | "UINT64" => Some UInt64
  | _ => None
  end.
Definition float_type (name : string) : option FloatType :=
  match name with "FLOAT32" => Some Float32 | "FLOAT64" | "FLOAT" => Some Float64 | _ => None end.
Definition type_from_name (name : string) : BType :=
  match name with
  | "BOOLEAN" => TBoolean
  | "STRING" => TString
  | _ =>
      match integer_type name, float_type name with
      | Some kind, _ => TInteger kind
      | None, Some kind => TFloat kind
      | None, None => TNamed name
      end
  end.
Definition literal_type (l : Literal) : BType :=
  match l with
  | LInteger value => TIntegerLiteral value
  | LFloat _ | LSpecial _ => TFloatLiteral
  | LString _ => TString
  | LTypeName _ => TUnknown
  | LBoolean _ => TBoolean
  | LNull => TNull
  | LNotAvailable => TNotAvailable
  | LEndOfFile => TEndOfFile
  end.

Definition dimension_name (dimension : Z) : string := if dimension =? u64_MAX then "[]" else "[" +:+ dec_of_Z dimension +:+ "]".
Fixpoint display (ty : BType) : string :=
  match ty with
  | TNamed name | TTypeName name => name
  | TImportedNamed module name | TImportedTypeName module name => "MODULE#" +:+ dec_of_Z module +:+ "." +:+ name
  | TBoolean => "BOOLEAN"
  | TInteger kind => integer_type_name kind
  | TIntegerLiteral _ => "INT32"
  | TFloat Float32 => "FLOAT32"
  | TFloat Float64 | TFloatLiteral => "FLOAT64"
  | TString => "STRING"
  | TNull => "NULL"
  | TNotAvailable => "NA"
  | TEndOfFile => "EOF"
  | THostArgs => "HOST.Args"
  | TUnknown => "UNKNOWN"
  | THostClock => "HOST.Clock"
  | THostRandom => "HOST.Random"
  | THostConsole => "HOST.Console"
  | THostFileSystem => "HOST.FileSystem"
  | THostNet => "HOST.Net"
  | THostExec => "HOST.Exec"
  | THostEnv => "HOST.Env"
  | TModule id => "MODULE " +:+ dec_of_Z id
  | TAlternative alternatives => join " OR " (map display alternatives)
  | TFunction parameters return_type => "FUNCTION(" +:+ join ", " (map display parameters) +:+ ") AS " +:+ display return_type
  | TVector element dimensions => display element +:+ String.concat "" (map dimension_name dimensions)
  | TPointer element length =>
      match length with
      | PLOne => "POINTER TO " +:+ display element
      | PLFixed length => "POINTER TO " +:+ display element +:+ "[" +:+ dec_of_Z length +:+ "]"
      | PLDynamic => "POINTER TO " +:+ display element +:+ "[]"
      end
  end.

(** ** Integer constants *)

Definition integer_literal_fits (value : string) (target : IntegerType) : bool :=
  match parse_integer value with
  | Some value => in_range (integer_range target).1 (integer_range target).2 value
  | None => false
  end.

Definition constant_integer_from_type (ty : BType) : option Z := match ty with TIntegerLiteral value => parse_integer value | _ => None end.

(** [i128::checked_shr]: only the count is checked; the shift is arithmetic. *)
Definition checked_shr (a n : Z) : option Z := if n <? 128 then Some (Z.shiftr a n) else None.

(** The operator arms of [constant_integer]. *)
Definition constant_operation (operator : string) (left right : Z) : option Z :=
  match operator with
  | "Plus" => checked_add left right
  | "Minus" => checked_sub left right
  | "Star" => checked_mul left right
  | "DIV" => checked_div_euclid left right
  | "Percent" => checked_rem_euclid left right
  | "AND" => Some (Z.land left right)
  | "OR" => Some (Z.lor left right)
  | "XOR" => Some (Z.lxor left right)
  | "Power" => if 0 <=? right then n ← try_from 0 u32_MAX right; checked_pow left n else None
  | "SHL" => if in_range 0 127 right then checked_shl left right else None
  | "SHR" => if in_range 0 127 right then checked_shr left right else None
  | _ => None
  end.
Fixpoint constant_integer (e : Expression) : option Z :=
  let 'mkExpression kind _ := e in
  match kind with
  | ELiteral (LInteger value) => parse_integer value
  | EUnary operator operand => if String.eqb operator "Minus" then v ← constant_integer operand; checked_neg v else None
  | EBinary operator lhs rhs => l ← constant_integer lhs; r ← constant_integer rhs; constant_operation operator l r
  | _ => None
  end.

(** ** Classes of types *)

Definition default_literal_type (ty : BType) : BType :=
  match ty with TIntegerLiteral _ => TInteger Int32 | TFloatLiteral => TFloat Float64 | ty => ty end.
Fixpoint is_integer (ty : BType) : bool :=
  match ty with TInteger _ | TIntegerLiteral _ => true | TAlternative alternatives => forallb is_integer alternatives | _ => false end.
Fixpoint is_float (ty : BType) : bool :=
  match ty with TFloat _ | TFloatLiteral => true | TAlternative alternatives => forallb is_float alternatives | _ => false end.
Definition is_numeric (ty : BType) : bool := is_integer ty || is_float ty.
Definition is_void (ty : BType) : bool := match ty with TNamed name => String.eqb name "VOID" | _ => false end.

Definition static_len (ty : BType) : option Z :=
  if is_numeric ty then Some 1 else match ty with TVector _ dimensions => dimension_product dimensions | _ => None end.
Definition require_integer_fit (value : option Z) (span : Span) : checked unit :=
  match value with
  | Some value => if value <=? 2147483647 then Ok tt else Err (SemanticRule "NUMERIC_OVERFLOW" "result does not fit INTEGER" span)
  | None => Err (SemanticRule "NUMERIC_OVERFLOW" "result does not fit INTEGER" span)
  end.
Definition length_type (ty : BType) (span : Span) : checked BType :=
  let refused := Err (Mismatch "numeric, STRING, vector or pointer" (display ty) "LEN" span) in
  if is_numeric ty then Ok (TInteger Int32)
  else match ty with
       | THostArgs | TString | TPointer _ PLDynamic => Ok (TInteger Int32)
       | TPointer element length =>
           if is_void element then Ok (TInteger Int32)
           else match length with
                | PLFixed length => require_integer_fit (Some length) span;; Ok (TInteger Int32)
                | _ => refused
                end
       | TVector _ dimensions =>
           (if existsb (Z.eqb u64_MAX) dimensions then Ok tt else require_integer_fit (dimension_product dimensions) span);;
           Ok (TInteger Int32)
       | _ => refused
       end.

(** ** Compatible types *)

Definition open_first_dimension (expected actual : list Z) : bool :=
  (length expected =? length actual)%nat &&
  match expected, actual with e :: expected, _ :: actual => (e =? u64_MAX) && bool_decide (expected = actual) | _, _ => false end.
Definition pointer_lengths_compatible (expected actual : PointerLength) : bool :=
  match expected, actual with
  | PLOne, PLOne | PLDynamic, PLFixed _ | PLDynamic, PLDynamic | PLFixed _, PLDynamic => true
  | PLFixed expected, PLFixed actual => expected =? actual
  | _, _ => false
  end.
Definition last_segment (name : string) : string := match rsplit_once "." name with Some (_, last) => last | None => name end.
Definition names_compatible (expected actual : string) : bool :=
  String.eqb expected actual || (starts_with "Net." expected && String.eqb actual ("HOST." +:+ expected))
  || (starts_with "Net." actual && String.eqb expected ("HOST." +:+ actual)).

Fixpoint compatible (expected : BType) : BType → bool :=
  fix compatible_with (actual : BType) : bool :=
    match expected, actual with
    | TFunction expected_parameters expected_return, TFunction actual_parameters actual_return =>
        (length expected_parameters =? length actual_parameters)%nat
        && (fix all (l m : list BType) : bool := match l, m with e :: l, a :: m => compatible e a && all l m | _, _ => true end)
             expected_parameters actual_parameters
        && compatible expected_return actual_return
    | TNamed expected, TImportedNamed _ name | TNamed expected, TImportedTypeName _ name
    | TImportedNamed _ name, TNamed expected | TImportedTypeName _ name, TNamed expected => String.eqb (last_segment expected) name
    | TNamed expected, TNamed actual => names_compatible expected actual
    | TAlternative expected, TAlternative actual => forallb (fun actual => existsb (fun expected => compatible expected actual) expected) actual
    | TAlternative alternatives, TIntegerLiteral _ | TAlternative alternatives, TFloatLiteral =>
        match (class ← of_literal actual; numeric_alternative alternatives class) with
        | Some alternative => existsb (fun expected => type_eqb expected alternative && compatible expected actual) alternatives
        | None => false
        end
    | TAlternative expected, _ => existsb (fun expected => compatible expected actual) expected
    | _, TAlternative actual => forallb compatible_with actual
    | TInteger expected, TIntegerLiteral value => integer_literal_fits value expected
    | TFloat _, TFloatLiteral => true
    | TVector expected expected_dimensions, TVector actual actual_dimensions =>
        (bool_decide (expected_dimensions = actual_dimensions) || open_first_dimension expected_dimensions actual_dimensions)
        && compatible expected actual
    | TPointer expected expected_length, TPointer actual actual_length =>
        (is_void expected || is_void actual) || (compatible expected actual && pointer_lengths_compatible expected_length actual_length)
    | _, _ => type_eqb expected actual
    end.

(** ** The types of operators ([type_ops.rs]) *)

Definition is_unsigned (kind : IntegerType) : bool := match kind with Byte | UInt16 | UInt32 | UInt64 => true | _ => false end.
Definition integer_width (ty : BType) : Z :=
  match ty with
  | TInteger Byte | TInteger Int8 => 8
  | TInteger Int16 | TInteger UInt16 => 16
  | TInteger Int32 | TInteger UInt32 | TIntegerLiteral _ => 32
  | TInteger Int64 | TInteger UInt64 => 64
  | _ => 0
  end.
Definition widest_signed (left right : IntegerType) : IntegerType :=
  if integer_width (TInteger right) <=? integer_width (TInteger left) then left else right.
Definition promote_integers (left right : IntegerType) : option IntegerType :=
  if bool_decide (left = right) then Some left
  else if bool_decide (left = Byte) then Some (if is_unsigned right then right else widest_signed Int16 right)
  else if bool_decide (right = Byte) then Some (if is_unsigned left then left else widest_signed left Int16)
  else match is_unsigned left, is_unsigned right with
       | true, true => Some (if integer_width (TInteger right) <=? integer_width (TInteger left) then left else right)
       | false, false => Some (widest_signed left right)
       | _, _ => None
       end.
Definition integer_kind_for_range (minimum maximum : Z) : option IntegerType :=
  List.find (fun kind => ((integer_range kind).1 <=? minimum) && (maximum <=? (integer_range kind).2)) [Int32; Int64; UInt64].
Definition integer_result (left right : BType) : option BType :=
  match left, right with
  | TIntegerLiteral a, TIntegerLiteral b =>
      l ← parse_integer a; r ← parse_integer b;
      kind ← integer_kind_for_range (Z.min l r) (Z.max l r); Some (TInteger kind)
  | TInteger kind, TIntegerLiteral value | TIntegerLiteral value, TInteger kind =>
      if integer_literal_fits value kind then Some (TInteger kind) else None
  | TInteger a, TInteger b => kind ← promote_integers a b; Some (TInteger kind)
  | _, _ => None
  end.
Definition exact_integer_literal_as_float (text : string) (kind : FloatType) : option BType :=
  match integer_literal_as_float text kind with Some _ => Some (TFloat kind) | None => None end.
Definition numeric_result (left right : BType) : option BType :=
  match left, right with
  | TIntegerLiteral text, TFloat kind | TFloat kind, TIntegerLiteral text => exact_integer_literal_as_float text kind
  | TIntegerLiteral text, TFloatLiteral | TFloatLiteral, TIntegerLiteral text => exact_integer_literal_as_float text Float64
  | TFloatLiteral, TFloatLiteral => Some (TFloat Float64)
  | TFloat a, TFloat b =>
      Some (TFloat (if bool_decide (a = Float64) || bool_decide (b = Float64) then Float64 else Float32))
  | TFloat kind, TFloatLiteral | TFloatLiteral, TFloat kind => Some (TFloat kind)
  | _, _ => integer_result left right
  end.
Definition comparable (left right : BType) : bool :=
  compatible left right || compatible right left || bool_decide (is_Some (numeric_result left right)).

Definition folded_integer (left right : BType) (expression : Expression) : option BType :=
  match left, right with
  | TIntegerLiteral _, TIntegerLiteral _ => value ← constant_integer expression; Some (TIntegerLiteral (dec_of_Z value))
  | _, _ => None
  end.

Definition is_ordering (operator : string) : bool :=
  String.eqb operator "Less" || String.eqb operator "LessEqual" || String.eqb operator "Greater" || String.eqb operator "GreaterEqual".
Definition is_logical (operator : string) : bool := String.eqb operator "AND" || String.eqb operator "OR" || String.eqb operator "XOR".
Definition is_shift (operator : string) : bool := String.eqb operator "SHL" || String.eqb operator "SHR".
Definition is_arithmetic (operator : string) : bool :=
  String.eqb operator "Plus" || String.eqb operator "Minus" || String.eqb operator "Star" || String.eqb operator "Power".
(** The right operand of an operation that is a negative constant. *)
Definition negative_exponent (expression : Expression) : bool :=
  match e_kind expression with
  | EBinary _ _ rhs => match constant_integer rhs with Some exponent => exponent <? 0 | None => false end
  | _ => false
  end.

Definition binary_type (operator : string) (left right : BType) (expression : Expression) : checked BType :=
  let span := e_span expression in
  let invalid := Err (Mismatch ("operands accepted by " +:+ operator) (display left +:+ " and " +:+ display right) ("binary operator " +:+ operator) span) in
  let or_invalid (ty : option BType) := match ty with Some ty => Ok ty | None => invalid end in
  let strings := bool_decide (left = TString) && bool_decide (right = TString) in
  if String.eqb operator "Assign" || String.eqb operator "NotEqual" then if comparable left right then Ok TBoolean else invalid
  else if is_ordering operator then
    if strings then Ok TBoolean else or_invalid (numeric_result left right ≫= fun _ => Some TBoolean)
  else if is_logical operator && bool_decide (left = TBoolean) && bool_decide (right = TBoolean) then Ok TBoolean
  else if is_logical operator || String.eqb operator "DIV" || String.eqb operator "Percent" then
    or_invalid (match folded_integer left right expression with Some ty => Some ty | None => integer_result left right end)
  else if is_shift operator then
    if negb (is_integer left) || negb (is_integer right) then invalid
    else
      let result := default_literal_type left in
      match constant_integer_from_type right with
      | Some count =>
          if (count <? 0) || (integer_width result <=? count)
          then Err (SemanticRule "INVALID_SHIFT_COUNT" "shift count must be non-negative and smaller than the left operand width" span)
          else Ok result
      | None => Ok result
      end
  else if String.eqb operator "Plus" && strings then Ok TString
  else if String.eqb operator "Slash" then or_invalid (numeric_result left right ≫= fun _ => Some (TFloat Float64))
  else if is_arithmetic operator then
    if String.eqb operator "Power" && negative_exponent expression && is_integer left && is_integer right then Ok (TFloat Float64)
    else or_invalid (match folded_integer left right expression with Some ty => Some ty | None => numeric_result left right end)
  else invalid.

Definition conversion_allowed (source target : BType) : bool :=
  let numeric ty := match ty with TInteger _ | TIntegerLiteral _ | TFloat _ | TFloatLiteral => true | _ => false end in
  let same ty ty' := bool_decide (ty = ty') in
  same source target
  || numeric source && (numeric target || same target TBoolean)
  || (numeric source || same source TBoolean) && same target TString
  || same source TString && same target TBoolean
  || match source with TNull | TNotAvailable | TEndOfFile => true | _ => false end && same target TBoolean.

(** ** Constants without a destination ([literal_settle.rs]) *)

Definition literal_leaf (e : Expression) : option Z :=
  match e_kind e with
  | ELiteral (LInteger value) => parse_integer value
  | EUnary operator operand =>
      match e_kind operand with
      | ELiteral (LInteger _) => if String.eqb operator "Minus" then constant_integer e else None
      | _ => None
      end
  | _ => None
  end.
Definition is_comparison (operator : string) : bool := String.eqb operator "Assign" || String.eqb operator "NotEqual" || is_ordering operator.
Definition has_float_result (operator : string) (right : Expression) : bool :=
  String.eqb operator "Slash" || String.eqb operator "Power" && match constant_integer right with Some exponent => exponent <? 0 | None => false end.

(** ** Promotion *)

Definition range_within (a b : IntegerType) : bool :=
  ((integer_range b).1 <=? (integer_range a).1) && ((integer_range a).2 <=? (integer_range b).2).
Lemma range_within_kind a b v : range_within a b = true → in_kind a v = true → in_kind b v = true.
Proof. unfold range_within, in_kind, in_range. rewrite !andb_true_iff, !Z.leb_le. lia. Qed.

Definition INTEGER_TYPES : list IntegerType := [Byte; Int8; Int16; Int32; Int64; UInt16; UInt32; UInt64].
Lemma integer_types_all k : In k INTEGER_TYPES.
Proof. destruct k; cbn; tauto. Qed.

(** Two integer types are combined to the smallest integer type that holds
    the values of both, whatever their order, and are refused only where they
    differ in sign and none of them is BYTE. *)
Theorem promotion_least a b :
  promote_integers a b = promote_integers b a ∧
  match promote_integers a b with
  | Some k => (∀ v, in_kind a v = true ∨ in_kind b v = true → in_kind k v = true) ∧
              ∀ k', (∀ v, in_kind a v = true ∨ in_kind b v = true → in_kind k' v = true) → ∀ v, in_kind k v = true → in_kind k' v = true
  | None => is_unsigned a ≠ is_unsigned b ∧ a ≠ Byte ∧ b ≠ Byte
  end.
Proof.
  assert (forallb (fun a => forallb (fun b =>
    bool_decide (promote_integers a b = promote_integers b a) &&
    match promote_integers a b with
    | Some k => range_within a k && range_within b k &&
                forallb (fun k' => negb (range_within a k' && range_within b k') || range_within k k') INTEGER_TYPES
    | None => negb (Bool.eqb (is_unsigned a) (is_unsigned b)) && negb (bool_decide (a = Byte)) && negb (bool_decide (b = Byte))
    end) INTEGER_TYPES) INTEGER_TYPES = true) as H by (vm_compute; reflexivity).
  rewrite forallb_forall in H. specialize (H a (integer_types_all a)). cbn beta in H. rewrite forallb_forall in H.
  specialize (H b (integer_types_all b)). cbn beta in H. apply andb_prop in H as [Hc H]. apply bool_decide_eq_true in Hc. split; [done|].
  destruct (promote_integers a b) as [k|].
  - apply andb_prop in H as [[Ha Hb]%andb_prop Hleast]. split; [intros v [Hv|Hv]; [exact (range_within_kind _ _ _ Ha Hv)|exact (range_within_kind _ _ _ Hb Hv)]|].
    intros k' Hk' v Hv. rewrite forallb_forall in Hleast. specialize (Hleast k' (integer_types_all k')). cbn beta in Hleast.
    apply orb_true_iff in Hleast as [Hn|Hw]; [|exact (range_within_kind _ _ _ Hw Hv)]. exfalso.
    assert (∀ c, (∀ v, in_kind c v = true → in_kind k' v = true) → range_within c k' = true) as Hrange.
    { intros c Hcv. unfold range_within. pose proof (Hcv (integer_range c).1) as H1. pose proof (Hcv (integer_range c).2) as H2.
      rewrite !in_kind_spec in H1, H2. apply andb_true_iff. rewrite !Z.leb_le.
      assert ((integer_range c).1 ≤ (integer_range c).2) by (kind_cases c; lia). lia. }
    rewrite (Hrange a), (Hrange b) in Hn by eauto. done.
  - apply andb_prop in H as [[H Ha]%andb_prop Hb]. apply negb_true_iff, bool_decide_eq_false in Ha, Hb. split_and!; [|done|done].
    intros E. rewrite E in H. by destruct (is_unsigned b).
Qed.

(** ** What the operators give at run time *)

(** The types whose values no operator but equality takes: vectors, pointers,
    classes, structures, functions, the types of the libraries and the host. *)
Definition only_equality (ty : BType) : bool :=
  match ty with
  | TInteger _ | TIntegerLiteral _ | TFloat _ | TFloatLiteral | TBoolean | TString | TNull | TNotAvailable | TEndOfFile | TAlternative _ => false
  | TNamed name => negb (String.eqb name "DATE" || String.eqb name "TIME")
  | _ => true
  end.

(** A value of a static type; a constant is a value whose type its destination
    still has to choose.  What the value of one of the other types is does not
    matter to the operators: any value is allowed for one here. *)
Inductive has_type : BType → Value → Prop :=
| has_integer k v : in_kind k v = true → has_type (TInteger k) (VInteger v k)
| has_constant text v k : parse_integer text = Some v → has_type (TIntegerLiteral text) (VInteger v k)
| has_float k f : has_type (TFloat k) (VFloat f k)
| has_float_constant f k : has_type TFloatLiteral (VFloat f k)
| has_boolean b : has_type TBoolean (VBoolean b)
| has_string s : has_type TString (VString s)
| has_null : has_type TNull VNull
| has_not_available : has_type TNotAvailable VNotAvailable
| has_end_of_file : has_type TEndOfFile VEndOfFile
| has_date d : has_type (TNamed "DATE") (VDate d)
| has_time t : has_type (TNamed "TIME") (VTime t)
| has_alternative ts t v : In t ts → has_type t v → has_type (TAlternative ts) v
| has_other ty v : only_equality ty = true → has_type ty v.

Lemma numeric_not_other L R T : numeric_result L R = Some T → only_equality L = false ∧ only_equality R = false.
Proof. destruct L, R; try done; cbn; by rewrite ?andb_false_r. Qed.
Lemma integer_not_other L R T : integer_result L R = Some T → only_equality L = false ∧ only_equality R = false.
Proof. by destruct L, R. Qed.

Lemma integer_has_type ty v : is_integer ty = true → has_type ty v → ∃ n k, v = VInteger n k.
Proof.
  intros Hi Hv. revert Hi. induction Hv as [| | | | | | | | | | |ts t v Hin _ IH|ty v Ho]; try done; intros Hi; [by eexists _, _..| |by destruct ty].
  apply IH. cbn in Hi. rewrite forallb_forall in Hi. by apply Hi.
Qed.

(** The answers of an operator: a value of its type, or a stop of the program. *)
Definition STOPS : list DiagId := [NUMERIC_OVERFLOW; DIVISION_BY_ZERO; INVALID_SHIFT_COUNT; INVALID_EXPONENT].
Definition answers (ty : BType) (r : result Value) (span : Span) : Prop :=
  (∃ v, r = Ok v ∧ has_type ty v) ∨ ∃ id, In id STOPS ∧ raises r id span.

Lemma answers_stop ty r id span : In id STOPS → raises r id span → answers ty r span.
Proof. intros. right. by exists id. Qed.
Lemma answers_ok ty v span : has_type ty v → answers ty (Ok v) span.
Proof. intros. left. by exists v. Qed.
Lemma checked_answers o k span : answers (TInteger k) (checked_integer o (TInteger k) span) span.
Proof.
  destruct o as [v|]; [rewrite checked_integer_eq; destruct (in_kind k v) eqn:Hk; [by apply answers_ok, has_integer|]|].
  all: eapply (answers_stop _ _ NUMERIC_OVERFLOW); [by left|]; apply numeric_overflow_raises.
Qed.
Lemma division_answers ty operator span : answers ty (division_by_zero operator span) span.
Proof. eapply (answers_stop _ _ DIVISION_BY_ZERO); [by right; left|]. by split. Qed.
Lemma runtime_answers ty id message span : one_fact id = true → In id STOPS → answers ty (runtime_error id message span) span.
Proof. intros Hf Hid. eapply (answers_stop _ _ id); [done|]. by apply runtime_error_raises. Qed.

Section Sound.
Context `{Platform}.

Lemma shift_answers v count k left span : answers (TInteger k) (shift v count (TInteger k) left span) span.
Proof.
  unfold shift. destruct (_ || _); [apply runtime_answers; [done|cbn; tauto]|]. destruct left; apply checked_answers.
Qed.

Definition is_integer_operator (operator : string) : bool :=
  is_arithmetic operator || is_logical operator || String.eqb operator "DIV" || String.eqb operator "Percent" || is_shift operator.

Lemma integer_binary_answers operator l r k span : is_integer_operator operator = true →
  answers (TInteger k) (integer_binary operator l r (TInteger k) span) span.
Proof.
  unfold is_integer_operator, is_arithmetic, is_logical, is_shift. rewrite !orb_true_iff, !String.eqb_eq. intros Hop.
  unfold integer_binary.
  repeat destruct Hop as [Hop|Hop]; subst operator;
    first [apply checked_answers|apply shift_answers|destruct (r =? 0); [apply division_answers|apply checked_answers]|idtac].
  destruct (0 <=? r); [|apply runtime_answers; [done|cbn; tauto]]. destruct (try_from 0 u32_MAX r); [apply checked_answers|].
  apply runtime_answers; [done|cbn; tauto].
Qed.
Lemma integer_ordering_answers operator l r ty span : is_ordering operator = true →
  answers TBoolean (integer_binary operator l r ty span) span.
Proof.
  unfold is_ordering. rewrite !orb_true_iff, !String.eqb_eq. intros Hop. unfold integer_binary.
  repeat destruct Hop as [Hop|Hop]; subst operator; apply answers_ok, has_boolean.
Qed.
Lemma float_binary_answers operator l r k span : is_arithmetic operator = true ∨ operator = "Slash" →
  answers (TFloat k) (float_binary operator l r (TFloat k) span) span.
Proof.
  unfold is_arithmetic. rewrite !orb_true_iff, !String.eqb_eq. intros Hop. unfold float_binary.
  repeat destruct Hop as [Hop|Hop]; subst operator; apply answers_ok, has_float.
Qed.
Lemma float_ordering_answers operator l r ty span : is_ordering operator = true →
  answers TBoolean (float_binary operator l r ty span) span.
Proof.
  unfold is_ordering. rewrite !orb_true_iff, !String.eqb_eq. intros Hop. unfold float_binary.
  repeat destruct Hop as [Hop|Hop]; subst operator; apply answers_ok, has_boolean.
Qed.

(** The operands of a numeric combination. *)
Inductive numeric_operands : BType → Value → Value → Prop :=
| integer_operands k a ka b kb : numeric_operands (TInteger k) (VInteger a ka) (VInteger b kb)
| float_operands k l r : is_float_value l || is_float_value r = true →
    (∀ span, ∃ f, number_as_float l span = Ok f) → (∀ span, ∃ f, number_as_float r span = Ok f) → numeric_operands (TFloat k) l r.

Lemma integer_result_operands L R T l r : integer_result L R = Some T → has_type L l → has_type R r → numeric_operands T l r.
Proof.
  intros HT Hl Hr. destruct (integer_not_other _ _ _ HT) as [HoL HoR]. unfold integer_result in HT.
  destruct Hl, Hr; try congruence; cbn [mbind option_bind] in HT; try done.
  - destruct (promote_integers _ _) as [k'|]; [|done]. injection HT as <-. constructor.
  - destruct (integer_literal_fits _ _); [|done]. injection HT as <-. constructor.
  - destruct (integer_literal_fits _ _); [|done]. injection HT as <-. constructor.
  - destruct (parse_integer _) as [a|]; [|done]. cbn [mbind option_bind] in HT. destruct (parse_integer _) as [b|]; [|done].
    cbn [mbind option_bind] in HT. destruct (integer_kind_for_range _ _); [|done]. injection HT as <-. constructor.
Qed.
Lemma numeric_result_operands L R T l r : numeric_result L R = Some T → has_type L l → has_type R r → numeric_operands T l r.
Proof.
  intros HT Hl Hr. destruct (integer_result L R) as [T'|] eqn:Hi.
  - pose proof (integer_result_operands L R T' l r Hi Hl Hr) as Ho. destruct (integer_not_other _ _ _ Hi) as [HoL HoR]. destruct Hl, Hr; try congruence; try discriminate Hi; cbn in HT; cbn in Hi; rewrite Hi in HT; by injection HT as <-.
  - destruct (numeric_not_other _ _ _ HT) as [HoL HoR]. destruct Hl, Hr; try congruence; cbn [numeric_result] in HT; rewrite ?Hi in HT; try done; unfold exact_integer_literal_as_float in HT;
      repeat match type of HT with context [match ?x with _ => _ end] => destruct x end; try done; injection HT as <-;
      (constructor; [done|by intros; eexists..]).
Qed.

Definition run (operator : string) (l r : Value) (ty : BType) (span : Span) : result Value :=
  binary operator l r ty span class_model_new None.

(** An operator on numbers other than a comparison for equality. *)
Lemma run_numeric operator l r k ty span : numeric_operands k l r →
  (is_integer_operator operator || is_ordering operator || String.eqb operator "Slash") = true →
  (operator = "Power" → is_float_type ty = is_float_type k) →
  run operator l r ty span =
  if String.eqb operator "Power" && is_float_type ty
  then l ← number_as_float l span; r ← number_as_float r span; Ok (float_value (powf l r) (float_kind ty))
  else numeric_binary operator l r ty span.
Proof.
  intros Ho Hop _. unfold run, binary.
  assert (String.eqb operator "IS" = false ∧ String.eqb operator "Assign" = false ∧ String.eqb operator "NotEqual" = false) as (-> & -> & ->).
  { unfold is_integer_operator, is_arithmetic, is_logical, is_shift, is_ordering in Hop. rewrite !orb_true_iff, !String.eqb_eq in Hop.
    repeat destruct Hop as [Hop|Hop]; by subst operator. }
  destruct Ho as [k a ka b kb|k l r Hf Hl Hr]; [done|].
  destruct (Hl span) as (f & Ef), (Hr span) as (g & Eg).
  destruct l; try discriminate Ef; destruct r; try discriminate Eg; done.
Qed.
Lemma numeric_run operator l r k span : numeric_operands (TInteger k) l r → is_integer_operator operator = true →
  answers (TInteger k) (run operator l r (TInteger k) span) span.
Proof.
  intros Ho Hop. rewrite (run_numeric operator l r (TInteger k)); [|done|by rewrite Hop|done].
  cbn [is_float_type]. rewrite andb_false_r. inversion Ho as [k' a ka b kb E1 E2 E3|]; subst.
  unfold numeric_binary. cbn [is_float_value orb].
  assert (String.eqb operator "Slash" = false) as ->.
  { unfold is_integer_operator, is_arithmetic, is_logical, is_shift in Hop. rewrite !orb_true_iff, !String.eqb_eq in Hop.
    repeat destruct Hop as [Hop|Hop]; by subst operator. }
  cbn [integer mbind res_bind]. by apply integer_binary_answers.
Qed.
Lemma float_run operator l r k span : numeric_operands (TFloat k) l r → is_arithmetic operator = true →
  answers (TFloat k) (run operator l r (TFloat k) span) span.
Proof.
  intros Ho Hop. rewrite (run_numeric operator l r (TFloat k)); [|done|unfold is_integer_operator; by rewrite Hop|done].
  inversion Ho as [|k' l' r' Hf Hl Hr]; subst. destruct (Hl span) as (f & Ef), (Hr span) as (g & Eg).
  destruct (String.eqb operator "Power" && is_float_type (TFloat k)).
  - rewrite Ef, Eg. cbn [mbind res_bind]. apply answers_ok, has_float.
  - unfold numeric_binary. rewrite Hf. cbn [orb]. rewrite Ef, Eg. cbn [mbind res_bind]. apply float_binary_answers. by left.
Qed.
Lemma ordering_run operator l r k span : numeric_operands k l r → is_ordering operator = true →
  answers TBoolean (run operator l r TBoolean span) span.
Proof.
  intros Ho Hop. assert (operator ≠ "Power" ∧ String.eqb operator "Slash" = false) as [Hp Hs].
  { unfold is_ordering in Hop. rewrite !orb_true_iff, !String.eqb_eq in Hop. repeat destruct Hop as [Hop|Hop]; by subst operator. }
  rewrite (run_numeric operator l r k); [|done|rewrite Hop; by rewrite orb_true_r|done].
  rewrite (proj2 (String.eqb_neq operator "Power") Hp). cbn [andb]. unfold numeric_binary. rewrite Hs, orb_false_r.
  destruct Ho as [k a ka b kb|k l r Hf Hl Hr]; cbn [is_float_value orb].
  - cbn [integer mbind res_bind]. by apply integer_ordering_answers.
  - rewrite Hf. destruct (Hl span) as (f & ->), (Hr span) as (g & ->). cbn [mbind res_bind]. by apply float_ordering_answers.
Qed.
Lemma slash_run l r k span : numeric_operands k l r → answers (TFloat Float64) (run "Slash" l r (TFloat Float64) span) span.
Proof.
  intros Ho. rewrite (run_numeric "Slash" l r k) by done. cbn [String.eqb Ascii.eqb Bool.eqb andb]. unfold numeric_binary.
  rewrite (orb_true_r (is_float_value l || is_float_value r) : _ || String.eqb "Slash" "Slash" = true).
  assert (∃ f g, number_as_float l span = Ok f ∧ number_as_float r span = Ok g) as (f & g & -> & ->).
  { destruct Ho as [k a ka b kb|k l r _ Hl Hr]; [by eexists _, _|]. destruct (Hl span) as (f & ?), (Hr span) as (g & ?). by exists f, g. }
  cbn [mbind res_bind]. apply float_binary_answers. by right.
Qed.

Lemma logical_run operator a b span : is_logical operator = true →
  answers TBoolean (run operator (VBoolean a) (VBoolean b) TBoolean span) span.
Proof.
  unfold is_logical. rewrite !orb_true_iff, !String.eqb_eq. intros Hop.
  repeat destruct Hop as [Hop|Hop]; subst operator; apply answers_ok, has_boolean.
Qed.
Lemma string_run operator a b span : is_ordering operator = true →
  answers TBoolean (run operator (VString a) (VString b) TBoolean span) span.
Proof.
  unfold is_ordering. rewrite !orb_true_iff, !String.eqb_eq. intros Hop.
  repeat destruct Hop as [Hop|Hop]; subst operator; apply answers_ok, has_boolean.
Qed.
Lemma equality_run operator l r ty span : String.eqb operator "Assign" || String.eqb operator "NotEqual" = true →
  answers TBoolean (run operator l r ty span) span.
Proof.
  rewrite orb_true_iff, !String.eqb_eq. intros Hop. destruct Hop as [Hop|Hop]; subst operator; apply answers_ok, has_boolean.
Qed.
Lemma power_run l r a ka b kb span : l = VInteger a ka → r = VInteger b kb →
  answers (TFloat Float64) (run "Power" l r (TFloat Float64) span) span.
Proof. intros -> ->. apply answers_ok, has_float. Qed.

Lemma numeric_result_kind L R T : numeric_result L R = Some T → (∃ k, T = TInteger k) ∨ ∃ k, T = TFloat k.
Proof.
  unfold numeric_result, exact_integer_literal_as_float, integer_result. intros HT.
  destruct L, R; try done; repeat match type of HT with context [mbind _ ?o] => destruct o as [?|]; cbn [mbind option_bind] in HT; try done end;
    repeat match type of HT with context [match ?x with _ => _ end] => destruct x; try done end; injection HT as <-; eauto.
Qed.

Lemma integer_result_kind L R T : integer_result L R = Some T → ∃ k, T = TInteger k.
Proof.
  unfold integer_result. intros HT.
  destruct L, R; try done; repeat match type of HT with context [mbind _ ?o] => destruct o as [?|]; cbn [mbind option_bind] in HT; try done end;
    repeat match type of HT with context [match ?x with _ => _ end] => destruct x; try done end; injection HT as <-; eauto.
Qed.

(** The type of an operation on numbers, constants set apart. *)
Definition settled (ty : BType) : Prop := ∀ text, ty ≠ TIntegerLiteral text.
Lemma folded_settled L R e r T : settled T → match folded_integer L R e with Some ty => Some ty | None => r end = Some T → r = Some T.
Proof.
  intros Hs. destruct (folded_integer L R e) as [ty|] eqn:Hf; [|done]. intros [= ->]. exfalso.
  unfold folded_integer in Hf. destruct L, R; try done. cbn [mbind option_bind] in Hf. destruct (constant_integer e); [|done]. injection Hf as <-. by eapply Hs.
Qed.
Lemma or_invalid_ok {A B} (o : option A) (x : B) (T : A) : match o with Some ty => Ok ty | None => Err x end = Ok T → o = Some T.
Proof. destruct o; intros; by simplify_eq. Qed.

Lemma shift_run operator L R l r T span : is_shift operator = true → is_integer L = true → is_integer R = true →
  (∀ ts, L ≠ TAlternative ts) → has_type L l → has_type R r → T = default_literal_type L → answers T (run operator l r T span) span.
Proof.
  intros Hop HL HR Hno Hl Hr ->. destruct (integer_has_type R r HR Hr) as (b & kb & ->).
  assert (∀ k a ka, answers (TInteger k) (run operator (VInteger a ka) (VInteger b kb) (TInteger k) span) span) as Hrun.
  { intros k a ka. apply numeric_run; [constructor|]. unfold is_integer_operator. rewrite Hop. by rewrite !orb_true_r. }
  destruct Hl as [| | | | | | | | | | |ts t v|ty v Ho]; try done; [apply Hrun..|by edestruct Hno|by destruct ty].
Qed.

Lemma binary_type_ok operator L R e T : binary_type operator L R e = Ok T → settled T →
  (T = TBoolean ∧ (String.eqb operator "Assign" || String.eqb operator "NotEqual") = true) ∨
  (T = TBoolean ∧ is_ordering operator = true ∧ (L = TString ∧ R = TString ∨ ∃ k, numeric_result L R = Some k)) ∨
  (T = TBoolean ∧ is_logical operator = true ∧ L = TBoolean ∧ R = TBoolean) ∨
  (T = default_literal_type L ∧ is_shift operator = true ∧ is_integer L = true ∧ is_integer R = true) ∨
  (T = TString ∧ operator = "Plus" ∧ L = TString ∧ R = TString) ∨
  (T = TFloat Float64 ∧ operator = "Slash" ∧ ∃ k, numeric_result L R = Some k) ∨
  (T = TFloat Float64 ∧ operator = "Power" ∧ is_integer L = true ∧ is_integer R = true) ∨
  (integer_result L R = Some T ∧ is_integer_operator operator = true) ∨
  (numeric_result L R = Some T ∧ is_arithmetic operator = true).
Proof.
  intros HT Hs. unfold binary_type in HT. cbv zeta in HT.
  destruct (_ || String.eqb operator "NotEqual") eqn:He; [destruct (comparable L R); simplify_eq; tauto|].
  destruct (is_ordering operator) eqn:Ho.
  { destruct (_ && _) eqn:Hstr in HT.
    - apply andb_prop in Hstr as [?%bool_decide_eq_true ?%bool_decide_eq_true]. simplify_eq. tauto.
    - apply or_invalid_ok in HT. destruct (numeric_result L R) as [k|]; [|done]. simplify_eq/=. right; left. eauto 10. }
  destruct (is_logical operator && _ && _) eqn:Hl in HT.
  { apply andb_prop in Hl as [[? ?%bool_decide_eq_true]%andb_prop ?%bool_decide_eq_true]. simplify_eq. tauto. }
  destruct (is_logical operator || _ || _) eqn:Hi in HT.
  { apply or_invalid_ok in HT. do 7 right; left. split; [by eapply folded_settled|].
    unfold is_integer_operator. rewrite !orb_true_iff in Hi. rewrite !orb_true_iff. tauto. }
  destruct (is_shift operator) eqn:Hsh.
  { destruct (is_integer L) eqn:HL, (is_integer R) eqn:HR; cbn [negb orb] in HT; try done.
    do 3 right; left. split; [|done]. destruct (constant_integer_from_type R); [destruct (_ || _) in HT; [done|]|]; by injection HT as <-. }
  destruct (String.eqb operator "Plus" && _) eqn:Hp in HT.
  { apply andb_prop in Hp as [->%String.eqb_eq [?%bool_decide_eq_true ?%bool_decide_eq_true]%andb_prop]. simplify_eq. tauto. }
  destruct (String.eqb operator "Slash") eqn:Hd.
  { apply String.eqb_eq in Hd. apply or_invalid_ok in HT. destruct (numeric_result L R) as [k|]; [|done]. simplify_eq/=. do 5 right; left. eauto. }
  destruct (is_arithmetic operator) eqn:Ha; [|done].
  destruct (String.eqb operator "Power" && _ && _ && _) eqn:Hw in HT.
  { apply andb_prop in Hw as [[[->%String.eqb_eq _]%andb_prop ?]%andb_prop ?]. simplify_eq. tauto. }
  apply or_invalid_ok in HT. do 8 right. split; [by eapply folded_settled|done].
Qed.

(** C11: What the analyser accepts, the interpreter answers: on any values of
    the operands' static types an operator gives a value of the type the
    analyser found for it, and can otherwise only stop the program on an
    overflow, a division by zero, a shift count or an exponent.  Two cases are
    not covered: a shift of an operand of alternative type, for which it is not
    so ([alternative_shift_refused]), and a result that is still a constant,
    whose type its destination chooses. *)
Theorem operators_sound operator L R e T l r span :
  binary_type operator L R e = Ok T → settled T → (is_shift operator = true → ∀ ts, L ≠ TAlternative ts) →
  has_type L l → has_type R r → answers T (run operator l r T span) span.
Proof.
  intros HT Hs Halt Hl Hr.
  destruct (binary_type_ok operator L R e T HT Hs) as [[-> H']|[(-> & Hop & [[-> ->]|(k & Hk)])|[(-> & Hop & -> & ->)|[(-> & Hop & HL & HR)|
    [(-> & -> & -> & ->)|[(-> & -> & k & Hk)|[(-> & -> & HL & HR)|[(Hk & Hop)|(Hk & Hop)]]]]]]]].
  - by apply equality_run.
  - inversion Hl; inversion Hr; subst; try done. by apply string_run.
  - by eapply ordering_run; [eapply numeric_result_operands|].
  - inversion Hl; inversion Hr; subst; try done. by apply logical_run.
  - by eapply shift_run; [| | |apply Halt| | |].
  - inversion Hl; inversion Hr; subst; try done. apply answers_ok, has_string.
  - by eapply slash_run, numeric_result_operands.
  - destruct (integer_has_type L l HL Hl) as (a & ka & ->), (integer_has_type R r HR Hr) as (b & kb & ->). by eapply power_run.
  - destruct (integer_result_kind L R T Hk) as (k & ->).
    apply numeric_run; [by eapply integer_result_operands|done].
  - pose proof (numeric_result_operands L R T l r Hk Hl Hr) as Ho.
    destruct (numeric_result_kind L R T Hk) as [(k & ->)|(k & ->)]; [|by apply float_run].
    apply numeric_run; [done|]. unfold is_integer_operator. by rewrite Hop.
Qed.
End Sound.

(** The expressions the examples write. *)
Definition integer_constant (text : string) (span : Span) : Expression := mkExpression (ELiteral (LInteger text)) span.
Definition binary_constant (operator : string) (a b : Expression) (span : Span) : Expression := mkExpression (EBinary operator a b) span.

Lemma operators_sound_witness :
  let e := binary_constant "Star" (integer_constant "1" default_span) (integer_constant "2" default_span) default_span in
  answers (TInteger Int16) (run (H := test_platform) "Star" (VInteger 200 Byte) (VInteger 300 Int16) (TInteger Int16) default_span) default_span.
Proof.
  intros e. apply (operators_sound "Star" (TInteger Byte) (TInteger Int16) e (TInteger Int16)); [reflexivity|discriminate|discriminate|by constructor..].
Defined.

(** ** Conversions *)

(** A type whose [AS] has a value to work on: a number, a BOOLEAN, a STRING or a special value. *)
Definition convertible (ty : BType) : bool :=
  match ty with TNamed _ | TAlternative _ => false | ty => negb (only_equality ty) end.

(** A conversion the analyser allows gives a value of its target, or stops
    on a value outside it: never on the types of the operand. *)
Theorem conversions_sound source target v span :
  conversion_allowed source target = true → settled target → target ≠ TFloatLiteral → convertible source = true → has_type source v →
  (∃ w, cast v target span = Ok w ∧ has_type target w) ∨
  raises (cast v target span) NUMERIC_OVERFLOW span ∨ raises (cast v target span) INVALID_NUMERIC_CONVERSION span.
Proof.
  intros Hc Hs Hf Hok Hv.
  assert (only_equality source = false) as Ho by by destruct source.
  assert (∀ k n, (∃ w, checked_integer (Some n) (TInteger k) span = Ok w ∧ has_type (TInteger k) w) ∨
    raises (checked_integer (Some n) (TInteger k) span) NUMERIC_OVERFLOW span ∨
    raises (checked_integer (Some n) (TInteger k) span) INVALID_NUMERIC_CONVERSION span) as Hint.
  { intros k n. rewrite checked_integer_eq. destruct (in_kind k n) eqn:E; [left; eexists; split; [done|by constructor]|].
    right; left. apply numeric_overflow_raises. }
  assert (∀ k f, (∃ w, finite_float f k span = Ok w ∧ has_type (TFloat k) w) ∨
    raises (finite_float f k span) NUMERIC_OVERFLOW span ∨ raises (finite_float f k span) INVALID_NUMERIC_CONVERSION span) as Hfloat.
  { intros k f. unfold finite_float. destruct k; [destruct (_ && _); [right; left; apply numeric_overflow_raises|]|];
      (left; eexists; split; [done|constructor]). }
  destruct target; try (by destruct (Hs _ eq_refl)); try done.
  all: try by (left; eexists; split; [done|constructor]).
  all: destruct Hv; try congruence; try discriminate Hok; try discriminate Hc; cbn [cast number_as_float mbind res_bind] in *; auto.
  all: try by (left; eexists; split; [done|constructor]).
  all: try (destruct (is_finite f); [apply Hint|right; right; by apply runtime_error_raises]).
Qed.

Lemma conversions_sound_witness :
  (∃ w, cast (VInteger 300 Int16) (TInteger Byte) default_span = Ok w ∧ has_type (TInteger Byte) w) ∨
  raises (cast (VInteger 300 Int16) (TInteger Byte) default_span) NUMERIC_OVERFLOW default_span ∨
  raises (cast (VInteger 300 Int16) (TInteger Byte) default_span) INVALID_NUMERIC_CONVERSION default_span.
Proof. apply (conversions_sound (TInteger Int16)); [reflexivity|discriminate|discriminate|reflexivity|by constructor]. Defined.

(** The types in which the analyser and the interpreter disagree on a temporal
    value: [d AS DATE] is allowed and stops the program, and [d < e] is refused
    although the interpreter orders dates. *)
Lemma temporal_identity_refused d span :
  conversion_allowed (TNamed "DATE") (TNamed "DATE") = true ∧ raises (cast (VDate d) (TNamed "DATE") span) TYPE_MISMATCH span.
Proof. done. Qed.
Lemma date_order_refused `{Platform} a b d d' span :
  (∃ x, binary_type "Less" (TNamed "DATE") (TNamed "DATE") (binary_constant "Less" a b span) = Err x) ∧
  run "Less" (VDate d) (VDate d') TBoolean span = Ok (VBoolean (match d ?= d' with Lt => true | _ => false end)).
Proof. split; [by eexists|done]. Qed.

(** A constant count is measured against a width an alternative does not have:
    [x SHL 1] is refused for [x AS INT32 OR INT64], and [x SHL n] accepted. *)
Lemma alternative_shift_refused a b span :
  let x := TAlternative [TInteger Int32; TInteger Int64] in
  binary_type "SHL" x (TIntegerLiteral "1") (binary_constant "SHL" a b span) =
    Err (SemanticRule "INVALID_SHIFT_COUNT" "shift count must be non-negative and smaller than the left operand width" span) ∧
  binary_type "SHL" x (TInteger Int32) (binary_constant "SHL" a b span) = Ok x.
Proof. done. Qed.

(** [SHR] brings in zeros ([-8 SHR 1] is 2147483644), but the folding of an
    exponent carries the sign, so [2 ** (-8 SHR 1)] is typed [FLOAT64]. *)
Lemma folded_shift_keeps_sign `{Platform} span :
  let shr := binary_constant "SHR" (mkExpression (EUnary "Minus" (integer_constant "8" span)) span) (integer_constant "1" span) span in
  constant_integer shr = Some (-4) ∧
  run "SHR" (VInteger (-8) Int32) (VInteger 1 Int32) (TInteger Int32) span = Ok (VInteger 2147483644 Int32) ∧
  binary_type "Power" (TIntegerLiteral "2") (TInteger Int32) (binary_constant "Power" (integer_constant "2" span) shr span) = Ok (TFloat Float64).
Proof. done. Qed.

(** ** Returns ([helpers2.rs]) *)

Definition integer_literal (e : Expression) : option Z :=
  match e_kind e with
  | ELiteral (LInteger value) =>
      match strip_prefix "0b" value with
      | Some value => from_str_radix i64_MIN i64_MAX 2 value
      | None =>
          match strip_prefix "0x" value with
          | Some value => from_str_radix i64_MIN i64_MAX 16 value
          | None => from_str_radix i64_MIN i64_MAX 10 value
          end
      end
  | _ => None
  end.
Definition block_statements (b : Block) : list Statement := let 'mkBlock l _ := b in l.
Definition branch_statements (b : IfBranch) : list Statement := let 'mkBranch _ body _ := b in block_statements body.
Definition atom_name (a : TypeAtom) : string := let 'mkTypeAtom name _ _ _ := a in name.
Definition allows_empty (return_type : TypeReference) : bool := existsb (fun atom => String.eqb (atom_name atom) "VOID") (tr_alternatives return_type).
Definition is_void_only (return_type : TypeReference) : bool :=
  match tr_alternatives return_type with [atom] => String.eqb (atom_name atom) "VOID" | _ => false end.

(** [for x in l { f(x)?; }] *)
Definition each_ok {A} (f : A → checked unit) : list A → checked unit :=
  fix go l := match l with [] => Ok tt | x :: l => f x;; go l end.

Definition exit_code_refused (is_start : bool) (value : Expression) : bool :=
  is_start && match integer_literal value with Some code => negb (in_range 0 255 code) | None => false end.
Fixpoint validate_return_statement (return_type : TypeReference) (is_start : bool) (s : Statement) : checked unit :=
  match s with
  | SReturn (Some value) span =>
      if exit_code_refused is_start value then Err (SemanticRule "INVALID_EXIT_CODE" "Start return code must be in 0..255" (e_span value))
      else if is_void_only return_type then Err (Mismatch "VOID return" "value" "VOID FUNCTION return" span)
      else Ok tt
  | SReturn None span =>
      if allows_empty return_type then Ok tt else Err (Mismatch "return value" "no value" "non-VOID FUNCTION return" span)
  | SIf branches otherwise _ =>
      each_ok (fun branch => each_ok (validate_return_statement return_type is_start) (branch_statements branch)) branches;;
      match otherwise with
      | Some block => each_ok (validate_return_statement return_type is_start) (block_statements block)
      | None => Ok tt
      end
  | SWhile _ body _ | SRepeat body _ _ | SFor _ body _ => each_ok (validate_return_statement return_type is_start) (block_statements body)
  | _ => Ok tt
  end.
Definition validate_return_statements (statements : list Statement) (return_type : TypeReference) (is_start : bool) : checked unit :=
  each_ok (validate_return_statement return_type is_start) statements.
Fixpoint returns_always (s : Statement) : bool :=
  match s with
  | SReturn _ _ | SStop _ _ => true
  | SIf branches (Some otherwise) _ =>
      forallb (fun branch => existsb returns_always (branch_statements branch)) branches
      && existsb returns_always (block_statements otherwise)
  | _ => false
  end.
Definition guarantees_return (statements : list Statement) : bool := existsb returns_always statements.
Definition validate_returns (statements : list Statement) (return_type : TypeReference) (is_start : bool) : checked unit :=
  validate_return_statements statements return_type is_start;;
  if negb (allows_empty return_type) && negb (guarantees_return statements)
  then Err (SemanticRule "MISSING_RETURN" "non-VOID FUNCTION can complete without RETURN expression" (tr_span return_type))
  else Ok tt.

(** The ways control may leave statements, whatever the conditions are. *)
Inductive Way := Falls | Returned (value : option Expression) | Stopped | Left (kind target : string).
Definition loop_body (s : Statement) : option (list Statement) :=
  match s with SWhile _ body _ | SRepeat body _ _ | SFor _ body _ => Some (block_statements body) | _ => None end.
Definition straight (s : Statement) : bool :=
  match s with SIf _ _ _ | SWhile _ _ _ | SRepeat _ _ _ | SFor _ _ _ | SReturn _ _ | SStop _ _ | SControl _ _ _ => false | _ => true end.
Inductive leaves : list Statement → Way → Prop :=
| leaves_end : leaves [] Falls
| leaves_next s l w : leave s Falls → leaves l w → leaves (s :: l) w
| leaves_first s l w : leave s w → w ≠ Falls → leaves (s :: l) w
with leave : Statement → Way → Prop :=
| leave_return value span : leave (SReturn value span) (Returned value)
| leave_stop code span : leave (SStop code span) Stopped
| leave_control kind target span : leave (SControl kind target span) (Left kind target)
| leave_branch branches otherwise span branch w : In branch branches → leaves (branch_statements branch) w → leave (SIf branches otherwise span) w
| leave_otherwise branches block span w : leaves (block_statements block) w → leave (SIf branches (Some block) span) w
| leave_untaken branches span : leave (SIf branches None span) Falls
| leave_loop s body : loop_body s = Some body → leave s Falls
| leave_body s body w : loop_body s = Some body → leaves body w → w ≠ Falls → leave s w
| leave_straight s : straight s = true → leave s Falls.
Scheme leaves_induction := Minimality for leaves Sort Prop with leave_induction := Minimality for leave Sort Prop.
Combined Scheme leaving from leaves_induction, leave_induction.

Lemma each_ok_in {A} (f : A → checked unit) l x : each_ok f l = Ok tt → In x l → f x = Ok tt.
Proof.
  induction l as [|y l IH]; [done|]. cbn. destruct (f y) as [[]| | |] eqn:Hy; cbn; try done. intros Hl [<-|Hin]; [done|by apply IH].
Qed.

(** What the checked ways are. *)
Definition way_ok (return_type : TypeReference) (is_start : bool) (w : Way) : Prop :=
  match w with
  | Returned None => allows_empty return_type = true
  | Returned (Some value) => is_void_only return_type = false ∧ exit_code_refused is_start value = false
  | _ => True
  end.
Lemma leaving_checked return_type is_start :
  (∀ l w, leaves l w → (guarantees_return l = true → w ≠ Falls) ∧ (validate_return_statements l return_type is_start = Ok tt → way_ok return_type is_start w)) ∧
  (∀ s w, leave s w → (returns_always s = true → w ≠ Falls) ∧ (validate_return_statement return_type is_start s = Ok tt → way_ok return_type is_start w)).
Proof.
  apply leaving.
  - done.
  - intros s l w _ [Hs _] _ [Hl Hv]. split.
    + cbn. destruct (returns_always s); [by destruct (Hs eq_refl)|exact Hl].
    + cbn. destruct (validate_return_statement return_type is_start s) as [[]| | |]; cbn; try done.
  - intros s l w _ [_ Hv] Hw. split; [done|]. cbn. destruct (validate_return_statement return_type is_start s) as [[]| | |]; cbn; try done. by intros _; apply Hv.
  - intros value span. split; [done|]. cbn. destruct value as [value|]; [destruct (exit_code_refused is_start value); [done|]; by destruct (is_void_only return_type)|].
    by destruct (allows_empty return_type).
  - done.
  - done.
  - intros branches otherwise span branch w Hin _ [Hg Hv]. split.
    + cbn. destruct otherwise as [block|]; [|done]. intros [Hb _]%andb_prop. rewrite forallb_forall in Hb. by apply Hg, Hb.
    + cbn. destruct (each_ok _ branches) as [[]| | |] eqn:Hb; cbn; try done. intros _. apply Hv. by apply (each_ok_in _ _ _ Hb).
  - intros branches block span w _ [Hg Hv]. split.
    + cbn. intros [_ Hb]%andb_prop. by apply Hg.
    + cbn. destruct (each_ok _ branches) as [[]| | |]; cbn; try done.
  - done.
  - intros s body Hb. split; [|done]. by destruct s.
  - intros s body w Hb _ [_ Hv] Hw. split; [done|]. destruct s; try done; injection Hb as <-; exact Hv.
  - intros s Hs. split; [|done]. by destruct s.
Qed.

(** A function whose returns are accepted gives a value on every way through
    it unless its type allows VOID: no way falls off its end or returns without
    a value; a VOID function returns none, and a constant code of Start fits. *)
Theorem returns_checked statements return_type is_start w :
  validate_returns statements return_type is_start = Ok tt → leaves statements w →
  match w with
  | Falls => allows_empty return_type = true
  | Returned None => allows_empty return_type = true
  | Returned (Some value) => is_void_only return_type = false ∧ exit_code_refused is_start value = false
  | _ => True
  end.
Proof.
  intros Hv Hw. destruct (proj1 (leaving_checked return_type is_start) statements w Hw) as [Hg Hok]. unfold validate_returns in Hv.
  destruct (validate_return_statements statements return_type is_start) as [[]| | |]; cbn in Hv; try done. specialize (Hok eq_refl).
  destruct (allows_empty return_type) eqn:He; [destruct w as [|[value|]| |]; try done; exact Hok|].
  destruct (guarantees_return statements); [|done].
  destruct w as [|[value|]| |]; try done; [by destruct (Hg eq_refl)|cbn in Hok; congruence].
Qed.

Definition integer_type_reference : TypeReference := mkTypeReference [mkTypeAtom "INTEGER" [] [] default_span] default_span.
(** IF a THEN RETURN 1 ELSE RETURN 2 END IF *)
Definition both_return : list Statement :=
  let give text := mkBlock [SReturn (Some (integer_constant text default_span)) default_span] default_span in
  [SIf [mkBranch (integer_constant "0" default_span) (give "1") default_span] (Some (give "2")) default_span].
Lemma returns_checked_witness :
  is_void_only integer_type_reference = false ∧ exit_code_refused true (integer_constant "2" default_span) = false.
Proof.
  apply (returns_checked both_return integer_type_reference true (Returned (Some (integer_constant "2" default_span)))); [reflexivity|].
  apply leaves_first; [|discriminate]. apply leave_otherwise. apply leaves_first; [constructor|discriminate].
Defined.
