(* ===== verification/Constants.v ===== *)
(** * Constants: integer constants from analysis to execution

    [crates/bn_frontend/src/semantic]: literal_settle.rs, float_literal.rs, the
    arms of [Analyzer::expression] for literals and operators (analyzer5.rs) and
    the recorded types (analyzer6.rs); [crates/bn_frontend/src/lowering]: the
    arms of [Builder::expression] for the same expressions and the constants of
    helpers.rs. The theorems follow an integer constant to the instructions of
    the executor and to their outcome. *)

From S2P Require Import Prelude Text Diag Types ClassModel Civil Literals Arc Heap Floats Values Operators Ir Frames Machine Places Providers TemporalOps Exec Sample Lexer Syntax TypeRules.

#[local] Open Scope string_scope.
#[local] Open Scope Z_scope.

(** ** Recorded types *)

#[export] Instance Position_eq_dec : EqDecision Position.
Proof. solve_decision. Defined.
#[export] Instance Span_eq_dec : EqDecision Span.
Proof. solve_decision. Defined.

(** [Analyzer::expressions], by position; of an entry only the type. *)
Definition Recorded := list (Span * BType).
Fixpoint recorded_type (t : Recorded) (span : Span) : option BType :=
  match t with
  | [] => None
  | (s, ty) :: t => if decide (s = span) then Some ty else recorded_type t span
  end.
Fixpoint record_expression (span : Span) (ty : BType) (t : Recorded) : Recorded :=
  match t with
  | [] => [(span, ty)]
  | (s, old) :: t => if decide (s = span) then (span, ty) :: t else (s, old) :: record_expression span ty t
  end.

(** ** Floating-point literals ([float_literal.rs]) *)

Definition float_literal_leaf (e : Expression) : option (f64 * string) :=
  match e_kind e with
  | ELiteral (LFloat text) => match parse_float text with Ok value => Some (value, text) | _ => None end
  | EUnary operator operand =>
      if String.eqb operator "Minus" then
        match e_kind operand with
        | ELiteral (LFloat text) => match parse_float text with Ok value => Some (f64_neg value, "-" +:+ text) | _ => None end
        | _ => None
        end
      else None
  | _ => None
  end.
Definition rounds_to_infinity (value : f64) (kind : FloatType) : bool :=
  match kind with Float64 => is_infinite value | Float32 => is_infinite (f64_to_f32 value) end.
Definition float_out_of_range (kind : FloatType) (text context : string) (span : Span) : SemanticError :=
  let '(name, largest) := match kind with Float32 => ("FLOAT32", "3.4028234663852886e38") | Float64 => ("FLOAT64", "1.7976931348623157e308") end in
  Mismatch (name +:+ " from -" +:+ largest +:+ " to " +:+ largest) text context span.
Definition check_float_literal (e : Expression) (kind : FloatType) (context : string) : checked unit :=
  match float_literal_leaf e with
  | Some (value, text) => if rounds_to_infinity value kind then Err (float_out_of_range kind text context (e_span e)) else Ok tt
  | None => Ok tt
  end.

(** ** Settling ([literal_settle.rs]) *)

Definition UNDESTINED_INTEGER : IntegerType := Int32.
Definition integer_out_of_range (kind : IntegerType) (value context : string) (span : Span) : SemanticError :=
  let '(minimum, maximum) := integer_range kind in
  let decimal := match parse_integer value with Some value => dec_of_Z value | None => value end in
  Mismatch (integer_type_name kind +:+ " from " +:+ dec_of_Z minimum +:+ " to " +:+ dec_of_Z maximum) decimal context span.

Fixpoint settle_node (e : Expression) (context : string) (t : Recorded) : checked Recorded :=
  match recorded_type t (e_span e) with
  | Some (TIntegerLiteral _) =>
      match literal_leaf e with
      | Some value =>
          if integer_literal_fits (dec_of_Z value) UNDESTINED_INTEGER then Ok t
          else Err (integer_out_of_range UNDESTINED_INTEGER (dec_of_Z value) context (e_span e))
      | None =>
          let 'mkExpression kind span := e in
          match kind with
          | EUnary _ operand => t ← settle_node operand context t; Ok (record_expression span (TInteger UNDESTINED_INTEGER) t)
          | EBinary _ lhs rhs =>
              t ← settle_node lhs context t; t ← settle_node rhs context t;
              Ok (record_expression span (TInteger UNDESTINED_INTEGER) t)
          | _ => Ok t
          end
      end
  | _ => Ok t
  end.
Definition settle_integer_constant (e : Expression) (context : string) (t : Recorded) : checked (BType * Recorded) :=
  match recorded_type t (e_span e) with
  | None => Ok (TUnknown, t)
  | Some (TIntegerLiteral _) => t ← settle_node e context t; Ok (TInteger UNDESTINED_INTEGER, t)
  | Some ty => Ok (ty, t)
  end.
Definition settle_undestined_operands (e : Expression) (left_type right_type : BType) (t : Recorded)
    : checked (BType * BType * Recorded) :=
  match e_kind e with
  | EBinary operator lhs rhs =>
      let context := "operand of " +:+ operator_spelling operator in
      let both_constants := match left_type, right_type with TIntegerLiteral _, TIntegerLiteral _ => true | _, _ => false end in
      let undestined := is_comparison operator || has_float_result operator rhs || negb (bool_decide (is_Some (constant_integer e))) in
      if both_constants && undestined then
        '(left_type, t) ← settle_integer_constant lhs context t;
        '(right_type, t) ← settle_integer_constant rhs context t;
        Ok (left_type, right_type, t)
      else if is_shift operator then
        '(left_type, t) ← settle_integer_constant lhs context t;
        Ok (left_type, right_type, t)
      else Ok (left_type, right_type, t)
  | _ => Ok (left_type, right_type, t)
  end.
Definition literal_takes_float_type (operand : Expression) (operand_type other_type : BType) (t : Recorded) : Recorded :=
  let take kind :=
    match operand_type with
    | TIntegerLiteral value =>
        match integer_literal_as_float value kind with Some _ => record_expression (e_span operand) (TFloat kind) t | None => t end
    | _ => t
    end in
  match other_type with TFloat kind => take kind | TFloatLiteral => take Float64 | _ => t end.

(** ** Analysis of literals and operators *)

Section Analysis.
(** What the analyser does with the other kinds of expression (names, members,
    calls ...), and with the right operand of [IS] and of an [AND] or [OR] whose
    left operand is BOOLEAN, which narrow the bindings it sees. *)
Context (other : Expression → Recorded → checked (BType * Recorded)).
Context (narrowing : string → BType → Expression → Recorded → checked (BType * Recorded)).

Definition recording (span : Span) (r : checked (BType * Recorded)) : checked (BType * Recorded) :=
  '(ty, t) ← r; Ok (ty, record_expression span ty t).

Definition unary_type (e : Expression) (operator : string) (operand : Expression) (operand_type : BType) (t : Recorded) : checked (BType * Recorded) :=
  let refused := Err (Mismatch "operand accepted by operator" (display operand_type) ("unary operator " +:+ operator) (e_span e)) in
  if String.eqb operator "Minus" && is_numeric operand_type then
    let ty := match operand_type, constant_integer e with
              | TIntegerLiteral _, Some value => TIntegerLiteral (dec_of_Z value)
              | _, _ => default_literal_type operand_type
              end in
    Ok (ty, t)
  else if String.eqb operator "NOT" && bool_decide (operand_type = TBoolean) then Ok (TBoolean, t)
  else if String.eqb operator "NOT" && is_integer operand_type then settle_integer_constant operand "operand of NOT" t
  else refused.

Fixpoint expression (e : Expression) (t : Recorded) : checked (BType * Recorded) :=
  let 'mkExpression kind span := e in
  recording span (
    match kind with
    | ESuper => Err (SemanticRule "INVALID_SUPER" "SUPER is only valid as SUPER(...) or SUPER.Name(...)" span)
    | ELiteral (LTypeName name) => Err (SemanticRule "TYPE_NAME_AS_VALUE" ("type name '" +:+ name +:+ "' is not a first-class value") span)
    | ELiteral literal => check_float_literal e Float64 "floating-point literal";; Ok (literal_type literal, t)
    | EUnary operator operand =>
        '(operand_type, t) ← expression operand t;
        unary_type e operator operand operand_type t
    | EBinary operator lhs rhs =>
        '(left_type, t) ← expression lhs t;
        if String.eqb operator "IS" || (String.eqb operator "AND" || String.eqb operator "OR") && bool_decide (left_type = TBoolean)
        then narrowing operator left_type rhs t
        else
          '(right_type, t) ← expression rhs t;
          '(left_type, right_type, t) ← settle_undestined_operands e left_type right_type t;
          ty ← binary_type operator left_type right_type e;
          let t := literal_takes_float_type lhs left_type right_type t in
          Ok (ty, literal_takes_float_type rhs right_type left_type t)
    | _ => other e t
    end).
End Analysis.

(** ** Lowering of literals and operators *)

Definition constant (literal : Literal) : Constant :=
  match literal with
  | LInteger value => CInteger value
  | LFloat value | LSpecial value => CFloat value
  | LString value => CString value
  | LTypeName value => CType value
  | LBoolean value => CBoolean value
  | LNull => CNull
  | LNotAvailable => CNotAvailable
  | LEndOfFile => CEndOfFile
  end.
Definition typed_literal_constant (literal : Literal) (ty : BType) : Constant :=
  match literal, ty with
  | LInteger text, TFloat kind => match integer_literal_as_float text kind with Some text => CFloat text | None => constant literal end
  | _, _ => constant literal
  end.
Definition folded_constant (e : Expression) (ty : BType) : option Constant :=
  match e_kind e with
  | EUnary _ _ | EBinary _ _ _ =>
      match ty with
      | TIntegerLiteral value => Some (CInteger value)
      | TFloat kind => value ← constant_integer e; text ← integer_literal_as_float (dec_of_Z value) kind; Some (CFloat text)
      | _ => None
      end
  | _ => None
  end.

(** Of the [Builder]: the next value and the instructions of the current block. *)
Record Builder := mkBuilder { next_value : Z; emitted : list Instruction }.
Definition fresh_value (b : Builder) : ValueId * Builder := (next_value b, mkBuilder (next_value b + 1) (emitted b)).
Definition emit (i : Instruction) (b : Builder) : Builder := mkBuilder (next_value b) (emitted b ++ [i])%list.

Section Lowering.
(** The lowering of the other kinds of expression, of [IS] and of the [AND] and
    [OR] of BOOLEANs, which branch; [None] is the diagnostic [IR_LOWERING]. *)
Context (lower_other : Expression → BType → Builder → option (ValueId * Builder)).

Fixpoint lower (t : Recorded) (e : Expression) (b : Builder) : option (ValueId * Builder) :=
  let 'mkExpression kind span := e in
  ty ← recorded_type t span;
  let '(destination, after) := fresh_value b in
  match folded_constant e ty with
  | Some value => Some (destination, emit (IConstant destination value ty span) after)
  | None =>
      match kind with
      | ELiteral literal => Some (destination, emit (IConstant destination (typed_literal_constant literal ty) ty span) after)
      | EUnary operator operand =>
          '(v, after) ← lower t operand after;
          Some (destination, emit (IUnary destination operator v ty span) after)
      | EBinary operator lhs rhs =>
          if String.eqb operator "IS" || (String.eqb operator "AND" || String.eqb operator "OR") && bool_decide (ty = TBoolean)
          then lower_other e ty b
          else
            '(l, after) ← lower t lhs after;
            '(r, after) ← lower t rhs after;
            Some (destination, emit (IBinary destination operator l r ty span) after)
      | _ => lower_other e ty b
      end
  end.
End Lowering.

(** ** Integer constants *)

Fixpoint shift_free (e : Expression) : bool :=
  let 'mkExpression kind _ := e in
  match kind with
  | EUnary _ operand => shift_free operand
  | EBinary operator lhs rhs => negb (is_shift operator) && shift_free lhs && shift_free rhs
  | _ => true
  end.
(** The positions of an expression and of its operands. *)
Fixpoint spans (e : Expression) : list Span :=
  let 'mkExpression kind span := e in
  match kind with
  | EUnary _ operand => span :: spans operand
  | EBinary _ lhs rhs => span :: (spans lhs ++ spans rhs)%list
  | _ => [span]
  end.
Definition fits_int32 (o : option Z) : bool := match o with Some v => in_kind Int32 v | None => false end.
(** The literals of a constant are INTEGER values. *)
Fixpoint leaves_fit (e : Expression) : bool :=
  match literal_leaf e with
  | Some v => in_kind Int32 v
  | None =>
      match e with
      | mkExpression (EUnary _ operand) _ => leaves_fit operand
      | mkExpression (EBinary _ lhs rhs) _ => leaves_fit lhs && leaves_fit rhs
      | _ => true
      end
  end.
(** So are the results of its operations. *)
Fixpoint results_fit (e : Expression) : bool :=
  match literal_leaf e with
  | Some v => in_kind Int32 v
  | None =>
      fits_int32 (constant_integer e) &&
      match e with
      | mkExpression (EUnary _ operand) _ => results_fit operand
      | mkExpression (EBinary _ lhs rhs) _ => results_fit lhs && results_fit rhs
      | _ => true
      end
  end.

Lemma record_same span ty t : recorded_type (record_expression span ty t) span = Some ty.
Proof. induction t as [|[s old] t IH]; cbn; [by rewrite decide_True|]. destruct (decide (s = span)); cbn; [by rewrite decide_True|by rewrite decide_False]. Qed.
Lemma record_other span s ty t : s ≠ span → recorded_type (record_expression span ty t) s = recorded_type t s.
Proof.
  intros Hs. induction t as [|[s' old] t IH]; cbn; [by rewrite decide_False by congruence|].
  destruct (decide (s' = span)) as [->|Hn]; cbn; [by rewrite !decide_False by congruence|]. by destruct (decide (s' = s)).
Qed.
Lemma spans_self e : e_span e ∈ spans e.
Proof. destruct e as [[] span]; cbn; left. Qed.

(** The values of constants are those of [i128]. *)
Definition in_128 (v : Z) : Prop := i128_MIN ≤ v ≤ i128_MAX.
Lemma guard_128 v n : guard_i128 v = Some n → n = v ∧ in_128 n.
Proof. unfold guard_i128, in_i128, in_range. destruct (_ && _) eqn:E; [|done]. intros [= <-]. apply andb_prop in E as [?%Z.leb_le ?%Z.leb_le]. by unfold in_128. Qed.
Lemma in_128_shift v : in_128 v ↔ Z.shiftr v 127 = 0 ∨ Z.shiftr v 127 = -1.
Proof.
  rewrite Z.shiftr_div_pow2 by lia. unfold in_128, i128_MIN, i128_MAX. pose proof (Z.div_mod v (2 ^ 127)). pose proof (Z.mod_pos_bound v (2 ^ 127)). lia.
Qed.
Lemma bitwise_128 a b : in_128 a → in_128 b → in_128 (Z.land a b) ∧ in_128 (Z.lor a b) ∧ in_128 (Z.lxor a b).
Proof. rewrite !in_128_shift, Z.shiftr_land, Z.shiftr_lor, Z.shiftr_lxor. intros [-> | ->] [-> | ->]; cbn; auto 10. Qed.
Lemma radix_loop_range lo hi radix sign s acc v : lo ≤ acc ≤ hi → radix_loop radix sign lo hi acc s = Some v → lo ≤ v ≤ hi.
Proof.
  revert acc. induction s as [|c s IH]; intros acc Ha; cbn [radix_loop]; [intros [= <-]; done|].
  destruct (to_digit radix c) as [d|]; [|done]. unfold in_range. destruct (_ && _); [|done].
  destruct ((_ <=? _) && _) eqn:Hb; [|done]. apply andb_prop in Hb as [?%Z.leb_le ?%Z.leb_le]. by apply IH.
Qed.
Lemma parse_integer_128 text v : parse_integer text = Some v → in_128 v.
Proof.
  assert (∀ radix s, from_str_radix i128_MIN i128_MAX radix s = Some v → in_128 v) as H.
  { intros radix s. unfold from_str_radix. repeat match goal with |- context [match ?x with _ => _ end] => destruct x end; try done; by apply radix_loop_range. }
  unfold parse_integer. repeat match goal with |- context [match ?x with _ => _ end] => destruct x end; apply H.
Qed.

Definition FOLDED : list string := ["Plus"; "Minus"; "Star"; "DIV"; "Percent"; "AND"; "OR"; "XOR"; "Power"; "SHL"; "SHR"].
Lemma constant_operation_op operator l r n : constant_operation operator l r = Some n → In operator FOLDED.
Proof.
  unfold constant_operation. intros H.
  repeat (match type of H with
          | context [match ?s with EmptyString => _ | String _ _ => _ end] => is_var s; destruct s
          | context [match ?a with Ascii _ _ _ _ _ _ _ _ => _ end] => is_var a; destruct a
          | context [match ?b with true => _ | false => _ end] => is_var b; destruct b
          end; try discriminate H);
  vm_compute; tauto.
Qed.

(** The operators of a constant without shifts, one by one. *)
Ltac folded_cases H Hs :=
  let Hin := fresh in pose proof (constant_operation_op _ _ _ _ H) as Hin;
  cbn in Hin; repeat destruct Hin as [<-|Hin]; try done; try discriminate Hs; clear Hs; cbn in H.

Lemma constant_operation_128 operator l r n : constant_operation operator l r = Some n → is_shift operator = false →
  in_128 l → in_128 r → in_128 n.
Proof.
  intros H Hs Hl Hr. folded_cases H Hs; try by apply guard_128 in H as [_ ?].
  - unfold checked_div_euclid in H. destruct (r =? 0); [done|]. by apply guard_128 in H as [_ ?].
  - unfold checked_rem_euclid in H. destruct (r =? 0) eqn:E; [done|]. apply Z.eqb_neq in E. destruct (_ && _); [done|]. injection H as <-.
    unfold rem_euclid, in_128, i128_MIN, i128_MAX in *. pose proof (Z.mod_pos_bound l (Z.abs r)). lia.
  - injection H as <-. by apply bitwise_128.
  - injection H as <-. by apply bitwise_128.
  - injection H as <-. by apply bitwise_128.
  - destruct (0 <=? r); [|done]. destruct (try_from _ _ _); [|done]. cbn in H. by apply guard_128 in H as [_ ?].
Qed.
Lemma constant_operation_class operator l r n : constant_operation operator l r = Some n → is_shift operator = false →
  is_comparison operator = false ∧ is_integer_operator operator = true ∧ String.eqb operator "Slash" = false ∧
  (String.eqb operator "Power" = true → r <? 0 = false) ∧ String.eqb operator "IS" = false.
Proof.
  intros H Hs. folded_cases H Hs; try done. split_and!; try done. intros _. destruct (0 <=? r) eqn:E; [|done]. z_bools. lia.
Qed.
Lemma constant_operation_run `{Platform} operator l r n span : constant_operation operator l r = Some n → is_shift operator = false →
  ∀ ka kb classes, binary operator (VInteger l ka) (VInteger r kb) (TInteger Int32) span classes None = checked_integer (Some n) (TInteger Int32) span.
Proof.
  intros H0 Hs ka kb classes. folded_cases H0 Hs; cbn; try done; try by rewrite H0.
  - destruct (r =? 0) eqn:E; [|by rewrite H0]. unfold checked_div_euclid in H0. by rewrite E in H0.
  - destruct (r =? 0) eqn:E; [|by rewrite H0]. unfold checked_rem_euclid in H0. by rewrite E in H0.
  - by injection H0 as <-.
  - by injection H0 as <-.
  - by injection H0 as <-.
  - destruct (0 <=? r); [|done]. destruct (try_from _ _ _); [|done]. cbn in H0. by rewrite H0.
Qed.

(** ** Cases of a constant *)

(** A constant without shifts: a literal, a constant with a minus sign, or an
    operation on two constants. *)
Inductive constant_of : Expression → Z → Prop :=
| constant_literal text span n : parse_integer text = Some n → constant_of (mkExpression (ELiteral (LInteger text)) span) n
| constant_minus operand span m n : constant_of operand m → checked_neg m = Some n →
    constant_of (mkExpression (EUnary "Minus" operand) span) n
| constant_binary operator lhs rhs span l r n : constant_of lhs l → constant_of rhs r → is_shift operator = false →
    constant_operation operator l r = Some n → constant_of (mkExpression (EBinary operator lhs rhs) span) n.

Lemma constant_of_spec e : ∀ n, constant_integer e = Some n → shift_free e = true → constant_of e n.
Proof.
  revert e. fix IH 1. intros [kind span] n H Hs.
  destruct kind as [lit| | | | | | | | | |operator operand|operator lhs rhs| | | | |]; cbn in H; try discriminate H.
  - destruct lit; try discriminate H. by constructor.
  - destruct (String.eqb operator "Minus") eqn:E; [|discriminate H]. apply String.eqb_eq in E as ->.
    destruct (constant_integer operand) as [m|] eqn:Hm; [|discriminate H]. econstructor; [by apply IH|done].
  - cbn in Hs. apply andb_prop in Hs as [[Hs Hl]%andb_prop Hr]. apply negb_true_iff in Hs.
    destruct (constant_integer lhs) as [l|] eqn:El; [|discriminate H]. destruct (constant_integer rhs) as [r|] eqn:Er; [|discriminate H].
    econstructor; [by apply IH|by apply IH|done|exact H].
Qed.
Lemma constant_of_value e n : constant_of e n → constant_integer e = Some n ∧ in_128 n.
Proof.
  induction 1 as [text span n H|operand span m n _ [IH IH'] H|operator lhs rhs span l r n _ [IHl Hl] _ [IHr Hr] Hs H]; cbn.
  - split; [done|by eapply parse_integer_128].
  - rewrite IH. split; [done|]. by apply guard_128 in H as [_ ?].
  - rewrite IHl, IHr. split; [done|]. by eapply constant_operation_128.
Qed.

(** Two tables with the same types at the positions of an expression. *)
Definition agree (e : Expression) (t t' : Recorded) : Prop := ∀ s, s ∈ spans e → recorded_type t' s = recorded_type t s.
Definition elsewhere (e : Expression) (t t' : Recorded) : Prop := ∀ s, s ∉ spans e → recorded_type t' s = recorded_type t s.

(** Every operand recorded as the constant it is. *)
Fixpoint literals (t : Recorded) (e : Expression) : Prop :=
  (∃ text n, recorded_type t (e_span e) = Some (TIntegerLiteral text) ∧ parse_integer text = Some n ∧ constant_integer e = Some n) ∧
  match e with
  | mkExpression (EUnary _ operand) _ => literals t operand
  | mkExpression (EBinary _ lhs rhs) _ => literals t lhs ∧ literals t rhs
  | _ => True
  end.
Lemma literals_agree e n : constant_of e n → ∀ t t', agree e t t' → literals t e → literals t' e.
Proof.
  induction 1 as [text span n H|operand span m n _ IH H|operator lhs rhs span l r n _ IHl _ IHr Hs H]; intros t t' Ha [(x & y & Hx & Hy) Hr];
    (split; [exists x, y; by rewrite Ha by apply spans_self|]); [done| |].
  - apply (IH t); [|done]. intros s Hs. apply Ha. cbn. set_solver.
  - split; [apply (IHl t)|apply (IHr t)]; try apply Hr; intros s Hs'; apply Ha; cbn; set_solver.
Qed.
Lemma elsewhere_agree e e' t t' : elsewhere e t t' → (∀ s, s ∈ spans e' → s ∉ spans e) → agree e' t t'.
Proof. intros He Hd s Hs. by apply He, Hd. Qed.
Lemma elsewhere_record e t t' ty : elsewhere e t t' → elsewhere e t (record_expression (e_span e) ty t').
Proof. intros He s Hs. rewrite record_other; [by apply He|]. intros ->. by apply Hs, spans_self. Qed.
Lemma record_agree e span ty t : span ∉ spans e → agree e t (record_expression span ty t).
Proof. intros Hn s Hs. apply record_other. congruence. Qed.
Lemma agree_trans e t t' t'' : agree e t t' → agree e t' t'' → agree e t t''.
Proof. intros H H' s Hs. by rewrite H', H. Qed.

Section AnalysisConstants.
Context (other : Expression → Recorded → checked (BType * Recorded)).
Context (narrowing : string → BType → Expression → Recorded → checked (BType * Recorded)).

Lemma binary_type_constant operator a b lhs rhs span l r n : parse_integer a = Some l → parse_integer b = Some r →
  constant_integer lhs = Some l → constant_integer rhs = Some r → is_shift operator = false → constant_operation operator l r = Some n →
  binary_type operator (TIntegerLiteral a) (TIntegerLiteral b) (mkExpression (EBinary operator lhs rhs) span) = Ok (TIntegerLiteral (dec_of_Z n)).
Proof.
  intros Ha Hb Hl Hr Hs H.
  assert (folded_integer (TIntegerLiteral a) (TIntegerLiteral b) (mkExpression (EBinary operator lhs rhs) span) = Some (TIntegerLiteral (dec_of_Z n))) as Hf.
  { unfold folded_integer. cbn [constant_integer mbind option_bind]. rewrite Hl, Hr. cbn [mbind option_bind]. by rewrite H. }
  destruct (constant_operation_class _ _ _ _ H Hs) as (_ & _ & _ & Hp & _).
  unfold binary_type. cbv zeta. rewrite Hf. unfold negative_exponent. cbn [e_kind]. rewrite Hr.
  folded_cases H Hs; try done. by rewrite Hp.
Qed.

Lemma expression_constant e n : constant_of e n → NoDup (spans e) → ∀ t, ∃ text t',
  expression other narrowing e t = Ok (TIntegerLiteral text, t') ∧ parse_integer text = Some n ∧ literals t' e ∧ elsewhere e t t'.
Proof.
  induction 1 as [text span n H|operand span m n Hc IH H|operator lhs rhs span l r n Hcl IHl Hcr IHr Hs H]; intros Hd t.
  - exists text, (record_expression span (TIntegerLiteral text) t). split; [done|]. split; [done|]. split.
    + split; [|done]. exists text, n. by rewrite record_same.
    + by apply (elsewhere_record (mkExpression (ELiteral (LInteger text)) span)).
  - cbn in Hd. pose proof (NoDup_cons_1_1 _ _ Hd) as Hn. apply NoDup_cons_1_2 in Hd. destruct (IH Hd t) as (text & t1 & E & Ht & Hl & Ho).
    destruct (constant_of_value _ _ Hc) as [Hv Hm]. pose proof (guard_128 _ _ H) as [_ H128].
    assert (constant_integer (mkExpression (EUnary "Minus" operand) span) = Some n) as Hval by (cbn; by rewrite Hv).
    eexists (dec_of_Z n), (record_expression span _ t1). split_and!.
    + cbn [expression]. rewrite E. cbn [mbind res_bind]. unfold unary_type. cbn [String.eqb Ascii.eqb Bool.eqb andb is_numeric is_integer orb].
      by rewrite Hval.
    + by apply parse_integer_dec_of_Z.
    + split; [|by eapply literals_agree; [|by apply record_agree|]]. exists (dec_of_Z n), n. cbn [e_span]. rewrite record_same.
      split_and!; [done|by apply parse_integer_dec_of_Z|done].
    + apply (elsewhere_record (mkExpression (EUnary "Minus" operand) span)). intros s Hns. apply Ho. cbn in Hns. set_solver.
  - cbn in Hd. pose proof (NoDup_cons_1_1 _ _ Hd) as Hn. apply NoDup_cons_1_2 in Hd. apply list.NoDup_app in Hd as (Hdl & Hlr & Hdr).
    destruct (IHl Hdl t) as (a & t1 & El & Ha & Hl & Hol), (IHr Hdr t1) as (b & t2 & Er & Hb & Hr & Hor).
    destruct (constant_of_value _ _ Hcl) as [Hvl H128l], (constant_of_value _ _ Hcr) as [Hvr H128r].
    destruct (constant_operation_class _ _ _ _ H Hs) as (Hcmp & _ & Hsl & Hp & His).
    assert (constant_integer (mkExpression (EBinary operator lhs rhs) span) = Some n) as Hval by (cbn; rewrite Hvl; cbn; by rewrite Hvr).
    pose proof (constant_operation_128 _ _ _ _ H Hs H128l H128r) as H128.
    eexists (dec_of_Z n), (record_expression span _ t2). split_and!.
    + cbn [expression]. rewrite El. cbn [mbind res_bind]. rewrite His. rewrite bool_decide_false by done. rewrite andb_false_r. cbn [orb].
      rewrite Er. cbn [mbind res_bind]. unfold settle_undestined_operands. cbn [e_kind]. rewrite Hval, Hcmp, Hs. unfold has_float_result.
      rewrite Hsl, Hvr. rewrite bool_decide_true by done.
      assert (String.eqb operator "Power" && (r <? 0) = false) as -> by (destruct (String.eqb operator "Power") eqn:E; [by rewrite Hp|done]).
      cbn [orb negb andb mbind res_bind]. rewrite (binary_type_constant operator a b lhs rhs span l r n) by done. done.
    + by apply parse_integer_dec_of_Z.
    + split; [|split]. { exists (dec_of_Z n), n. cbn [e_span]. rewrite record_same. split_and!; [done|by apply parse_integer_dec_of_Z|done]. }
      * eapply literals_agree; [done| |done]. eapply agree_trans; [by eapply elsewhere_agree; [exact Hor|]|]. apply record_agree. set_solver.
      * eapply literals_agree; [done| |done]. apply record_agree. set_solver.
    + apply (elsewhere_record (mkExpression (EBinary operator lhs rhs) span)). intros s Hns. cbn in Hns. rewrite Hor, Hol; [done|set_solver..].
Qed.
End AnalysisConstants.

(** ** Settled constants *)

Fixpoint settled_nodes (t : Recorded) (e : Expression) : Prop :=
  match literal_leaf e with
  | Some v => in_kind Int32 v = true ∧ ∃ text, recorded_type t (e_span e) = Some (TIntegerLiteral text) ∧ parse_integer text = Some v
  | None =>
      recorded_type t (e_span e) = Some (TInteger Int32) ∧
      match e with
      | mkExpression (EUnary _ operand) _ => settled_nodes t operand
      | mkExpression (EBinary _ lhs rhs) _ => settled_nodes t lhs ∧ settled_nodes t rhs
      | _ => True
      end
  end.

Lemma leaf_or_not e n : constant_of e n → literal_leaf e = Some n ∨ literal_leaf e = None.
Proof.
  intros H. pose proof (constant_of_value _ _ H) as [Hv _]. destruct H as [text span n H|operand span m n Hc H|]; [by left| |by right].
  unfold literal_leaf. cbn [e_kind]. destruct (e_kind operand) as [[]| | | | | | | | | | | | | | | |]; auto.
Qed.
Lemma literal_fits_spec v kind : in_128 v → integer_literal_fits (dec_of_Z v) kind = in_kind kind v.
Proof. intros Hv. unfold integer_literal_fits. change (dec_of_Z v) with (text_integer v). by rewrite parse_integer_dec_of_Z. Qed.
Lemma settled_agree e n : constant_of e n → ∀ t t', agree e t t' → settled_nodes t e → settled_nodes t' e.
Proof.
  induction 1 as [text span n H|operand span m n Hc IH H|operator lhs rhs span l r n Hl IHl Hr IHr Hs H]; intros t t' Ha Hset.
  - cbn in *. destruct (parse_integer text); [|done]. rewrite Ha by (left; done). done.
  - assert (constant_of (mkExpression (EUnary "Minus" operand) span) n) as Hce by by econstructor.
    cbn [settled_nodes] in *. destruct (leaf_or_not _ _ Hce) as [E|E]; rewrite E in Hset |- *; rewrite Ha by apply spans_self; [done|].
    split; [apply Hset|]. apply (IH t); [|apply Hset]. intros s Hin. apply Ha. cbn. set_solver.
  - cbn in *. rewrite Ha by (left; done). split; [apply Hset|].
    split; [apply (IHl t)|apply (IHr t)]; try apply Hset; intros s Hin; apply Ha; cbn; set_solver.
Qed.

Lemma settle_node_spec context e n : constant_of e n → NoDup (spans e) → ∀ t, literals t e →
  match settle_node e context t with
  | Ok t' => leaves_fit e = true ∧ settled_nodes t' e ∧ elsewhere e t t'
  | Err x => leaves_fit e = false ∧ ∃ v span, in_kind Int32 v = false ∧ x = integer_out_of_range Int32 (dec_of_Z v) context span
  | _ => False
  end.
Proof.
  intros Hce. pose proof Hce as Hall.
  induction Hce as [text span n H|operand span m n Hc IH H|operator lhs rhs span l r n Hl IHl Hr IHr Hs H]; intros Hd t [(x & y & Hx & Hy & Hxy) Hlit];
    pose proof (constant_of_value _ _ Hall) as [Hval H128]; cbn [settle_node]; rewrite Hx.
  - unfold literal_leaf. cbn [e_kind leaves_fit literal_leaf settled_nodes]. rewrite H, (literal_fits_spec n _ H128). unfold UNDESTINED_INTEGER.
    destruct (in_kind Int32 n) eqn:Hk; [|by eauto].
    split; [done|]. split; [|by intros s]. split; [done|]. exists x. split; [done|]. congruence.
  - cbn [leaves_fit settled_nodes]. destruct (leaf_or_not _ _ Hall) as [E|E]; rewrite E.
    + rewrite (literal_fits_spec n _ H128). unfold UNDESTINED_INTEGER. destruct (in_kind Int32 n) eqn:Hk; [|by eauto].
      split; [done|]. split; [|by intros s]. split; [done|]. exists x. split; [done|]. congruence.
    + cbn in Hd. pose proof (NoDup_cons_1_1 _ _ Hd) as Hn. apply NoDup_cons_1_2 in Hd. specialize (IH Hc Hd t Hlit).
      destruct (settle_node operand context t) as [t'| | |]; cbn [mbind res_bind]; try done.
      destruct IH as (Hf & Hset & Ho). split; [done|]. cbn [e_span]. rewrite record_same. split; [split; [done|]|].
      * eapply settled_agree; [done| |done]. by apply record_agree.
      * apply (elsewhere_record (mkExpression (EUnary "Minus" operand) span)). intros s Hns. apply Ho. cbn in Hns. set_solver.
  - cbn [leaves_fit settled_nodes literal_leaf e_kind]. cbn in Hd. pose proof (NoDup_cons_1_1 _ _ Hd) as Hn. apply NoDup_cons_1_2 in Hd.
    apply list.NoDup_app in Hd as (Hdl & Hlr & Hdr). specialize (IHl Hl Hdl t (proj1 Hlit)).
    change (literal_leaf (mkExpression (EBinary operator lhs rhs) span)) with (@None Z). cbv iota.
    destruct (settle_node lhs context t) as [t1|xl| |]; cbn [mbind res_bind]; try done.
    2:{ destruct IHl as [-> ?]. done. }
    destruct IHl as (Hfl & Hsl & Hol). specialize (IHr Hr Hdr t1).
    rewrite Hfl. cbn [andb].
    assert (literals t1 rhs) as Hr1.
    { eapply literals_agree; [done| |apply Hlit]. eapply elsewhere_agree; [exact Hol|]. intros s Hs1 Hs2. by eapply Hlr. }
    specialize (IHr Hr1). destruct (settle_node rhs context t1) as [t2| | |]; cbn [mbind res_bind]; try done.
    destruct IHr as (Hfr & Hsr & Hor). split; [done|]. cbn [e_span]. rewrite record_same. split; [split; [done|split]|].
    + eapply settled_agree; [done| |done]. eapply agree_trans; [by eapply elsewhere_agree; [exact Hor|]|]. apply record_agree. set_solver.
    + eapply settled_agree; [done| |done]. apply record_agree. set_solver.
    + apply (elsewhere_record (mkExpression (EBinary operator lhs rhs) span)). intros s Hns. cbn in Hns. rewrite Hor, Hol; [done|set_solver..].
Qed.

(** ** Running the instructions of a constant *)

Lemma slots_get_insert vs id v : slots_get (slots_insert vs id v) id = Some v.
Proof.
  assert (slots_insert vs id v !! Z.to_nat id = Some (Some v)) as E.
  { apply list_lookup_insert_eq. rewrite length_app, length_replicate. lia. }
  unfold slots_get. by rewrite E.
Qed.
Lemma slots_get_insert_ne vs id id' v : 0 ≤ id → 0 ≤ id' → id ≠ id' → slots_get (slots_insert vs id v) id' = slots_get vs id'.
Proof.
  intros Hid Hid' Hn.
  assert (slots_insert vs id v !! Z.to_nat id' = (vs ++ replicate (S (Z.to_nat id) - length vs) None)%list !! Z.to_nat id') as E.
  { apply list_lookup_insert_ne. lia. }
  unfold slots_get. rewrite E. destruct (decide (Z.to_nat id' < length vs)%nat) as [Hlt|Hge]; [by rewrite lookup_app_l|].
  rewrite lookup_app_r, (lookup_ge_None_2 vs) by lia.
  destruct (replicate _ _ !! _) as [o|] eqn:Er; [|done]. by apply lookup_replicate in Er as [-> _].
Qed.

Section RunConstants.
Context `{World} `{!Seam} `{Allocator} `{Floats.Platform}.
Context (R : Rec) (previous : option BlockId) (lower_other : Expression → BType → Builder → option (ValueId * Builder)).

(** A run nobody cancels and no STOP ends. *)
Definition quiet (c : Core) : Prop := cancel_flag c = None ∧ stop_code c = None.
Definition unused (n : Z) (frame : Frame) : Prop := ∀ id, n ≤ id → slots_get (values frame) id = None.
Definition plain_instruction (i : Instruction) : bool := match i with IConstant _ _ _ _ | IUnary _ _ _ _ _ | IBinary _ _ _ _ _ _ => true | _ => false end.

Lemma run_step i l frame c frame' : quiet c → plain_instruction i = true → instruction R i frame c = (c, Ok frame') →
  run_instructions R previous (i :: l) frame c = run_instructions R previous l frame' c.
Proof.
  intros [Hc Hst] Hi Hr. cbn [run_instructions]. unfold mbind, st_bind, check_cancel, get. unfold mbind, st_bind. cbn. rewrite Hc. cbn.
  destruct i; try discriminate Hi; cbn [instruction] in *; rewrite Hr; unfold stops_at_once; by rewrite Hst.
Qed.
Lemma run_stop i l frame c x : quiet c → plain_instruction i = true → instruction R i frame c = (c, Err x) →
  run_instructions R previous (i :: l) frame c = (c, Err x).
Proof.
  intros [Hc Hst] Hi Hr. cbn [run_instructions]. unfold mbind, st_bind, check_cancel, get. unfold mbind, st_bind. cbn. rewrite Hc. cbn.
  destruct i; try discriminate Hi; cbn [instruction] in *; by rewrite Hr.
Qed.

(** What a constant comes to from a frame whose values from [n] on are unused. *)
Definition comes_to (l : list Instruction) (d : ValueId) (v : Z) (fits : bool) (n n' : Z) : Prop :=
  ∀ rest frame c, quiet c → unused n frame →
  if fits then
    ∃ frame', run_instructions R previous (l ++ rest) frame c = run_instructions R previous rest frame' c ∧
      slots_get (values frame') d = Some (VInteger v Int32) ∧
      (∀ id, 0 ≤ id < n → slots_get (values frame') id = slots_get (values frame) id) ∧ unused n' frame'
  else ∃ x span, run_instructions R previous (l ++ rest) frame c = (c, Err x) ∧ raises (Err (A:=Frame) x) NUMERIC_OVERFLOW span.

Lemma set_unused n frame d v : unused n frame → 0 ≤ d < n → unused n (set frame d v).
Proof. intros Hu Hd id Hid. cbn. rewrite slots_get_insert_ne by lia. by apply Hu. Qed.
Lemma leaf_comes_to text ty v d span : parse_integer text = Some v → integer_kind ty = None → 0 ≤ d →
  comes_to [IConstant d (CInteger text) ty span] d v true d (d + 1).
Proof.
  intros Hp Hty Hd rest frame c Hq Hu. exists (set frame d (VInteger v Int32)). split_and!.
  - cbn [app]. apply run_step; [done|done|]. cbn [instruction]. unfold i_constant. rewrite Hu by lia. cbn [constant_value]. rewrite Hp, Hty. done.
  - cbn. apply slots_get_insert.
  - intros id Hid. cbn. apply slots_get_insert_ne; lia.
  - apply set_unused; [|lia]. intros id Hid. apply Hu. lia.
Qed.
Lemma value_slot frame d v span : slots_get (values frame) d = Some v → value frame d span = Ok v.
Proof. unfold value. by intros ->. Qed.
Lemma unused_weaken n n' frame : n ≤ n' → unused n frame → unused n' frame.
Proof. intros Hn Hu id Hid. apply Hu. lia. Qed.

(** An instruction that puts the checked [v] into [n], after its operands. *)
Definition checks (i : Instruction) (v n : Z) (frame : Frame) : Prop := ∃ span, ∀ c,
  instruction R i frame c = lift (checked_integer (Some v) (TInteger Int32) span ≫= fun w => Ok (set frame n w)) c.
Lemma last_comes_to i v n n' rest frame c : quiet c → plain_instruction i = true → 0 ≤ n < n' → unused n' frame → checks i v n frame →
  if in_kind Int32 v then
    ∃ frame', run_instructions R previous (i :: rest) frame c = run_instructions R previous rest frame' c ∧
      slots_get (values frame') n = Some (VInteger v Int32) ∧
      (∀ id, 0 ≤ id → id ≠ n → slots_get (values frame') id = slots_get (values frame) id) ∧ unused n' frame'
  else ∃ x span, run_instructions R previous (i :: rest) frame c = (c, Err x) ∧ raises (Err (A:=Frame) x) NUMERIC_OVERFLOW span.
Proof.
  intros Hq Hi Hn Hu [span Hr]. specialize (Hr c). rewrite checked_integer_eq in Hr. destruct (in_kind Int32 v).
  - exists (set frame n (VInteger v Int32)). split_and!.
    + by apply run_step.
    + cbn. apply slots_get_insert.
    + intros id Hid Hne. cbn. apply slots_get_insert_ne; lia.
    + apply set_unused; [done|lia].
  - destruct (numeric_overflow (A:=Frame) ("converting " +:+ dec_of_Z v +:+ " to " +:+ integer_type_name Int32) span) as [|x| |] eqn:E; try done.
    exists x, span. split; [|rewrite <- E; apply numeric_overflow_raises]. apply run_stop; [done..|]. rewrite Hr. unfold lift.
    by inversion E.
Qed.

Lemma unary_comes_to l1 d1 m f1 n n1 v span : 0 ≤ n → comes_to l1 d1 m f1 (n + 1) n1 → n + 1 ≤ d1 < n1 → checked_neg m = Some v →
  comes_to (l1 ++ [IUnary n "Minus" d1 (TInteger Int32) span]) n v (in_kind Int32 v && f1) n n1.
Proof.
  intros Hn Hc Hd Hv rest frame c Hq Hu. specialize (Hc ([IUnary n "Minus" d1 (TInteger Int32) span] ++ rest)%list frame c Hq (unused_weaken n (n + 1) frame ltac:(lia) Hu)).
  rewrite <- app_assoc. destruct f1; [rewrite andb_true_r|by rewrite andb_false_r].
  destruct Hc as (frame1 & -> & Hs & Hkeep & Hu1).
  assert (checks (IUnary n "Minus" d1 (TInteger Int32) span) v n frame1) as Hi.
  { exists span. intros c'. cbn [instruction]. unfold i_unary. rewrite (value_slot _ _ _ _ Hs). unfold mbind, st_bind, res_bind, lift.
    cbn [unary]. rewrite Hv. by destruct (checked_integer (Some v) (TInteger Int32) span). }
  pose proof (last_comes_to (IUnary n "Minus" d1 (TInteger Int32) span) v n n1 rest frame1 c Hq eq_refl ltac:(lia) Hu1 Hi) as Hlast.
  cbn [app]. destruct (in_kind Int32 v); [|done]. destruct Hlast as (frame' & ? & ? & Hk & ?).
  exists frame'. split_and!; [done|done| |done]. intros id Hid. rewrite Hk by lia. apply Hkeep. lia.
Qed.

Lemma binary_comes_to l1 d1 l f1 l2 d2 r f2 operator n n1 n2 v span : 0 ≤ n →
  comes_to l1 d1 l f1 (n + 1) n1 → n + 1 ≤ d1 < n1 → comes_to l2 d2 r f2 n1 n2 → n1 ≤ d2 < n2 →
  is_shift operator = false → constant_operation operator l r = Some v →
  comes_to (l1 ++ l2 ++ [IBinary n operator d1 d2 (TInteger Int32) span]) n v (in_kind Int32 v && (f1 && f2)) n n2.
Proof.
  intros Hn Hc1 Hd1 Hc2 Hd2 Hs Hv rest frame c Hq Hu. set (i := IBinary n operator d1 d2 (TInteger Int32) span).
  specialize (Hc1 (l2 ++ [i] ++ rest)%list frame c Hq (unused_weaken n (n + 1) frame ltac:(lia) Hu)). rewrite <- !app_assoc.
  destruct f1; [|by rewrite andb_false_r]. destruct Hc1 as (frame1 & -> & Hs1 & Hk1 & Hu1).
  specialize (Hc2 ([i] ++ rest)%list frame1 c Hq Hu1). cbn [andb].
  destruct f2; [rewrite andb_true_r|by rewrite andb_false_r]. destruct Hc2 as (frame2 & -> & Hs2 & Hk2 & Hu2).
  rewrite <- (Hk2 d1) in Hs1 by lia.
  assert (checks i v n frame2) as Hi.
  { exists span. intros c'. cbn [instruction i]. unfold i_binary. rewrite (value_slot _ _ _ _ Hs1), (value_slot _ _ _ _ Hs2).
    unfold mbind, st_bind, res_bind, lift, mret, st_ret. rewrite (constant_operation_run operator l r v span Hv Hs).
    by destruct (checked_integer (Some v) (TInteger Int32) span). }
  pose proof (last_comes_to i v n n2 rest frame2 c Hq eq_refl ltac:(lia) Hu2 Hi) as Hlast.
  cbn [app]. destruct (in_kind Int32 v); [|done]. destruct Hlast as (frame' & ? & ? & Hk & ?).
  exists frame'. split_and!; [done|done| |done]. intros id Hid. rewrite Hk by lia. rewrite Hk2 by lia. apply Hk1. lia.
Qed.

(** The instructions [lower] adds, and what they come to. *)
Definition lowers (t : Recorded) (e : Expression) (v : Z) (fits : bool) : Prop := ∀ b, 0 ≤ next_value b → ∃ d b' l,
  lower lower_other t e b = Some (d, b') ∧ emitted b' = (emitted b ++ l)%list ∧ next_value b ≤ d < next_value b' ∧
  comes_to l d v fits (next_value b) (next_value b').

Lemma folded_lowers t e text v : recorded_type t (e_span e) = Some (TIntegerLiteral text) → parse_integer text = Some v → constant_of e v →
  lowers t e v true.
Proof.
  intros Ht Hp He b Hb. set (d := next_value b). exists d.
  assert (∃ text', parse_integer text' = Some v ∧ lower lower_other t e b =
    Some (d, emit (IConstant d (CInteger text') (TIntegerLiteral text) (e_span e)) (mkBuilder (d + 1) (emitted b)))) as (text' & Hp' & ->).
  { destruct He as [text0 span v HF|operand span m v _ _|operator lhs rhs span l r v _ _ _ _]; cbn [lower e_span] in *; rewrite Ht; [exists text0|exists text..]; done. }
  eexists _, [_]. split; [done|]. split; [done|]. cbn [next_value emit]. split; [lia|]. by apply leaf_comes_to.
Qed.

Lemma settled_lowers e n : constant_of e n → ∀ t, settled_nodes t e → lowers t e n (results_fit e).
Proof.
  intros He. pose proof He as Hall. induction He as [text span n HF|operand span m n Hc IH HF|operator lhs rhs span l r n Hl IHl Hr IHr Hs HF]; intros t Ht;
    pose proof (constant_of_value _ _ Hall) as [Hval _].
  - cbn [settled_nodes results_fit] in *. unfold literal_leaf in *. cbn [e_kind] in *. rewrite HF in Ht |- *. destruct Ht as (-> & x & Hx & Hp). by eapply folded_lowers.
  - cbn [settled_nodes results_fit] in *. destruct (leaf_or_not _ _ Hall) as [E|E]; rewrite E in Ht |- *.
    { destruct Ht as (-> & x & Hx & Hp). by eapply folded_lowers. }
    destruct Ht as [Ht Hop]. cbn [e_span] in Ht. rewrite Hval. cbn [fits_int32].
    intros b Hb. destruct (IH Hc t Hop (mkBuilder (next_value b + 1) (emitted b)) ltac:(cbn; lia)) as (d1 & b1 & l1 & E1 & Hl1 & Hd1 & Hc1). cbn [next_value emitted] in *.
    eexists (next_value b), _, (l1 ++ [_])%list. split.
    { cbn [lower]. rewrite Ht. cbn [mbind option_bind fresh_value folded_constant e_kind]. rewrite E1. cbn [mbind option_bind]. reflexivity. }
    cbn [emitted next_value emit]. rewrite Hl1, app_assoc. split; [done|]. split; [lia|]. by apply (unary_comes_to l1 d1 m).
  - cbn [settled_nodes results_fit] in *. change (literal_leaf (mkExpression (EBinary operator lhs rhs) span)) with (@None Z) in *. cbv iota in Ht |- *.
    destruct Ht as (Ht & Htl & Htr). cbn [e_span] in Ht. rewrite Hval. cbn [fits_int32].
    destruct (constant_operation_class _ _ _ _ HF Hs) as (_ & _ & _ & _ & His).
    intros b Hb. destruct (IHl Hl t Htl (mkBuilder (next_value b + 1) (emitted b)) ltac:(cbn; lia)) as (d1 & b1 & l1 & E1 & Hl1 & Hd1 & Hc1). cbn [next_value emitted] in *.
    destruct (IHr Hr t Htr b1 ltac:(lia)) as (d2 & b2 & l2 & E2 & Hl2 & Hd2 & Hc2).
    eexists (next_value b), _, (l1 ++ l2 ++ [_])%list. split.
    { cbn [lower]. rewrite Ht. cbn [mbind option_bind fresh_value folded_constant e_kind]. rewrite His, bool_decide_false by done. rewrite andb_false_r. cbn [orb].
      rewrite E1. cbn [mbind option_bind]. rewrite E2. cbn [mbind option_bind]. reflexivity. }
    cbn [emitted next_value emit]. rewrite Hl2, Hl1, <- !app_assoc. split; [done|]. split; [lia|]. by eapply (binary_comes_to l1 d1 l).
Qed.
End RunConstants.

(** C12: An integer constant without shifts means its exact value. Where a
    destination follows, it is lowered to the one constant of that value; without
    a destination, a literal outside INTEGER is refused, and otherwise its
    instructions put the exact value into their destination if the result of
    every operation is an INTEGER, and stop with NUMERIC_OVERFLOW if one is not.
    The nodes of the expression have different spans, as those of a source have.
    A constant with a shift is left out: what the analyser folds it to is not
    what its instructions give ([TypeRules.folded_shift_keeps_sign]). *)
Theorem constants_exact `{World} `{!Seam} `{Allocator} `{Floats.Platform} other narrowing R previous lower_other e n t context :
  constant_integer e = Some n → shift_free e = true → NoDup (spans e) →
  ∃ text t1, expression other narrowing e t = Ok (TIntegerLiteral text, t1) ∧ lowers R previous lower_other t1 e n true ∧
    match settle_integer_constant e context t1 with
    | Ok (ty, t2) => ty = TInteger Int32 ∧ leaves_fit e = true ∧ lowers R previous lower_other t2 e n (results_fit e)
    | Err x => leaves_fit e = false ∧ ∃ v span, in_kind Int32 v = false ∧ x = integer_out_of_range Int32 (dec_of_Z v) context span
    | _ => False
    end.
Proof.
  intros Hn Hs Hd. pose proof (constant_of_spec e n Hn Hs) as He.
  destruct (expression_constant other narrowing e n He Hd t) as (text & t1 & E & Hp & Hl & _). exists text, t1. split; [done|].
  assert (∃ x, recorded_type t1 (e_span e) = Some (TIntegerLiteral x) ∧ parse_integer x = Some n) as (x & Hx & Hpx).
  { destruct e; destruct Hl as [(x & y & ? & ? & ?) _]; exists x; split; [done|congruence]. }
  split; [by eapply folded_lowers|].
  unfold settle_integer_constant. rewrite Hx. pose proof (settle_node_spec context e n He Hd t1 Hl) as Hset.
  destruct (settle_node e context t1) as [t2|y| |]; cbn [mbind res_bind]; try done.
  destruct Hset as (Hf & Hn2 & _). split_and!; [done|done|]. by apply settled_lowers.
Qed.

Definition span_at (n : Z) : Span := mkSpan (mkPosition n n n 1 n) (mkPosition n n n 1 n).
(** [2147483647 + 1]. *)
Definition beyond_int32 : Expression :=
  mkExpression (EBinary "Plus" (integer_constant "2147483647" (span_at 1)) (integer_constant "1" (span_at 2))) (span_at 3).
Definition no_other (e : Expression) (t : Recorded) : checked (BType * Recorded) := Err (UnreachableCode "" (e_span e)).

Lemma constants_exact_witness :
  ∃ text t1, expression no_other (fun _ _ => no_other) beyond_int32 [] = Ok (TIntegerLiteral text, t1) ∧
    lowers (H := sample_world fact_module) (H0 := sample_seam fact_module) (H1 := test_allocator) (H2 := test_platform)
      (machine (H := sample_world fact_module) (H0 := sample_seam fact_module) (H1 := test_allocator) (H2 := test_platform) 0)
      None (fun _ _ _ => None) t1 beyond_int32 2147483648 true ∧
    match settle_integer_constant beyond_int32 "PRINT" t1 with
    | Ok (ty, t2) => ty = TInteger Int32 ∧ leaves_fit beyond_int32 = true ∧
        lowers (H := sample_world fact_module) (H0 := sample_seam fact_module) (H1 := test_allocator) (H2 := test_platform)
          (machine (H := sample_world fact_module) (H0 := sample_seam fact_module) (H1 := test_allocator) (H2 := test_platform) 0)
          None (fun _ _ _ => None) t2 beyond_int32 2147483648 (results_fit beyond_int32)
    | Err x => leaves_fit beyond_int32 = false ∧ ∃ v span, in_kind Int32 v = false ∧ x = integer_out_of_range Int32 (dec_of_Z v) "PRINT" span
    | _ => False
    end.
Proof.
  assert (NoDup (spans beyond_int32)) as Hd by (apply (bool_decide_eq_true_1 _); vm_compute; reflexivity).
  assert (constant_integer beyond_int32 = Some 2147483648) as Hn by (vm_compute; reflexivity).
  assert (shift_free beyond_int32 = true) as Hs by reflexivity.
  exact (constants_exact (H := sample_world fact_module) (H0 := sample_seam fact_module) (H1 := test_allocator) (H2 := test_platform)
    no_other (fun _ _ => no_other) _ None (fun _ _ _ => None) beyond_int32 2147483648 [] "PRINT" Hn Hs Hd).
Defined.

(** [PRINT 2147483647 + 1] compiles and does not fit. *)
Example beyond_int32_overflows : leaves_fit beyond_int32 = true ∧ results_fit beyond_int32 = false.
Proof. by vm_compute. Qed.
