(* ===== verification/Compress.v ===== *)
(** * Compress: archives and buffers of BNCompress

    [libraries/bn_core_compress/src/lib.rs] and
    [libraries/bn_lib_compress/src/lib.rs]: hexadecimal text, bounded
    decompression, ZIP archives read and written through the file access of a
    backend, and the handles of the provider. The codecs and the ZIP format are
    those of [flate2] and [zip] ([Codecs]); files and their policy are whatever
    the backend and the system make of them ([FileAccess]), and every operation
    on them is recorded. The theorems show where an extraction writes, how much,
    and that the provider counts the holders of its handles. *)

From stdpp Require Import fin_maps fin_map_dom.
From S2P Require Import Prelude Text Scalars Rooted Diag Types Files Civil ClassModel Heap Values Ir Frames.

#[local] Open Scope string_scope.
#[local] Open Scope Z_scope.

Definition CODE_INVALID_ARGUMENT : Z := 1.
Definition CODE_NOT_FOUND : Z := 2.
Definition CODE_IO_ERROR : Z := 3.
Definition CODE_CORRUPT_DATA : Z := 4.
Definition CODE_ZIP_SLIP : Z := 5.
Definition CODE_POLICY_DENIED : Z := 6.
Definition CODE_LIMIT_EXCEEDED : Z := 7.
Definition MAX_DECOMPRESSED_BYTES : Z := 256 * 1024 * 1024.

(** ** Hexadecimal text *)

(** Two bytes that are no two characters of their own are refused, as
    [from_str_radix] refuses any byte that is not ASCII. *)
Fixpoint hex_pairs (s : string) : option Bytes :=
  match s with
  | EmptyString => Some []
  | String a (String b s) => v ← from_str_radix 0 255 16 (String a (String b "")); l ← hex_pairs s; Some (byte_of v :: l)
  | String _ EmptyString => None
  end.
Definition decode_hex (text : string) : option Bytes := if Z.even (str_len text) then hex_pairs text else None.
Definition lower_hex_digit (n : Z) : ascii := byte_of (if n <? 10 then 48 + n else 87 + n).
Fixpoint encode_hex (bytes : Bytes) : string :=
  match bytes with
  | [] => ""
  | b :: bytes => String (lower_hex_digit (byte_val b / 16)) (String (lower_hex_digit (byte_val b mod 16)) (encode_hex bytes))
  end.

(** ** Failures *)

Record CompressError := mkCompressError { ce_code : Z; ce_message : string; ce_cause : string }.
Definition same_cause (code : Z) (message : string) : CompressError := mkCompressError code message message.
Definition invalid_argument : string → CompressError := same_cause CODE_INVALID_ARGUMENT.
Definition invalid_index : CompressError := invalid_argument "entry index is negative".
Definition malformed_hex : CompressError := invalid_argument "malformed hexadecimal string".
Definition corrupt (message cause : string) : CompressError := mkCompressError CODE_CORRUPT_DATA message cause.
Definition invalid_utf8 (cause : string) : CompressError := corrupt "entry is not valid UTF-8" cause.
Definition limit_exceeded (limit : Z) : CompressError :=
  same_cause CODE_LIMIT_EXCEEDED ("decompressed data exceeds the limit of " +:+ dec_of_Z limit +:+ " bytes").
Definition zip_slip (entry : string) : CompressError := same_cause CODE_ZIP_SLIP ("entry escapes the destination directory: " +:+ entry).

(** Paths are their components; a message spells them joined. *)
Definition Path := list Component.
Definition component_text (c : Component) : string :=
  match c with RootDir => "" | ParentDir => ".." | CurDir => "." | Normal name => name end.
Definition display_path (path : Path) : string :=
  match path with [RootDir] => "/" | _ => join "/" (map component_text path) end.
Definition policy_denied (path : Path) (reason : string) : CompressError :=
  mkCompressError CODE_POLICY_DENIED ("file access denied by execution policy: " +:+ display_path path) reason.

(** [Path::join] and [Path::starts_with] *)
Definition path_join (base path : Path) : Path := match path with RootDir :: _ => path | _ => (base ++ path)%list end.
Definition path_starts_with (path base : Path) : bool := bool_decide (base `prefix_of` path).

(** ** What the core calls *)

(** The errors of [zip]. *)
Inductive ZipError :=
| FileNotFound
| InvalidArchive (cause : string)
| UnsupportedArchive (cause : string)
| ZipIo (error : IoError)
| ZipOther (text : string).

(** An entry of an archive open for reading: its name, the bytes its reader
    gives, and the error the reader ends with, if any. *)
Record Entry := mkEntry { en_name : string; en_data : Bytes; en_failure : option IoError }.
Definition Archive := list (ZipError + Entry).

Class FileAccess := {
  World : Type;
  (** the trait [FileAccess] of the backend *)
  access_check : Path → bool → option string;
  open_read : Path → World → World * (IoError + Bytes * option IoError);
  create : Path → World → World * (IoError + unit);
  create_dir_all : Path → World → World * (IoError + unit);
  remove_file : Path → World → World * (IoError + unit);
  is_refusal : IoError → bool;
  (** [Path::exists], [Path::canonicalize], and what of a write to a file the
      core created got there, with its failure *)
  exists_ : Path → World → World * bool;
  canonicalize : Path → World → World * option Path;
  write : Path → Bytes → World → World * (nat * option IoError);
  (** the text of an error of the system *)
  io_text : IoError → string;
}.

Class Codecs `{FileAccess} := {
  (** [flate2]: what an encoder gives, and what a decoder reads before it ends or fails *)
  deflate_encode : Bytes → IoError + Bytes;
  gzip_encode : Bytes → IoError + Bytes;
  deflate_decode : Bytes → Bytes * option IoError;
  gzip_decode : Bytes → Bytes * option IoError;
  (** [zip] *)
  zip_open : Bytes * option IoError → ZipError + Archive;
  by_name : Archive → string → ZipError + Entry;
  enclosed_name : string → option Path;
  is_dir : string → bool;
  ZipWriter : Type;
  new_writer : Path → ZipWriter;
  start_file : string → bool → ZipWriter → World → World * (ZipWriter * option ZipError);
  write_entry : Bytes → ZipWriter → World → World * (ZipWriter * option IoError);
  finish : ZipWriter → World → World * option ZipError;
}.

(** What was asked of the files, in order; of a write, what got there. *)
Inductive Event :=
| Read (path : Path)
| Created (path : Path)
| MadeDirectory (path : Path)
| Wrote (path : Path) (data : Bytes)
| Removed (path : Path).

Section Core.
Context `{Codecs}.

(** ** Failures of the system and of [zip] *)

Definition from_io (e : IoError) : CompressError :=
  same_cause (if bool_decide (error_kind e = NotFound) then CODE_NOT_FOUND else CODE_IO_ERROR) (io_text e).
Definition from_zip (e : ZipError) : CompressError :=
  match e with
  | FileNotFound => same_cause CODE_NOT_FOUND "entry not found in archive"
  | InvalidArchive cause => corrupt "invalid archive" cause
  | UnsupportedArchive cause => corrupt "unsupported archive" cause
  | ZipIo error => from_io error
  | ZipOther text => same_cause CODE_IO_ERROR text
  end.

(** ** The state of an archive handle *)

Inductive ZipMode :=
| Reading (archive : Archive)
| Writing (writer : option ZipWriter)
| Closed.
Record ZipArchiveHandle := mkHandle { mode : ZipMode; path : Path }.
Definition closed : ZipArchiveHandle := mkHandle Closed [].

Record State := mkState { world : World; log : list Event }.
Abbreviation op A := (st CompressError State A).
Definition fail {A} (e : CompressError) : op A := lift (Err e).

(** An operation of the system, and what it adds to the log. *)
Definition calling {A} (f : World → World * A) (event : A → list Event) : op A := fun s =>
  let '(w, a) := f (world s) in (mkState w (log s ++ event a)%list, Ok a).

(** ** Files through the access *)

Definition authorize (path : Path) (write : bool) : op unit :=
  match access_check path write with None => mret tt | Some reason => fail (policy_denied path reason) end.
Definition performed {A} (path : Path) (r : IoError + A) : op A :=
  match r with
  | inr a => mret a
  | inl error => fail (if is_refusal error then policy_denied path (io_text error) else from_io error)
  end.
Definition create_parent (path : Path) : op unit :=
  match parent_components path with
  | Some ((_ :: _) as parent) =>
      there ← calling (exists_ parent) (fun _ => []);
      if there : bool then mret tt
      else authorize parent true;; r ← calling (create_dir_all parent) (fun _ => [MadeDirectory parent]); performed parent r
  | _ => mret tt
  end.
Definition create_file (path : Path) : op unit :=
  create_parent path;; authorize path true;;
  r ← calling (create path) (fun _ => [Created path]); performed path r.
Definition read_file (path : Path) : op Bytes :=
  authorize path false;;
  r ← calling (open_read path) (fun _ => [Read path]);
  '(content, failure) ← performed path r;
  match failure with None => mret content | Some e => fail (from_io e) end.
(** [write_all] on a file the core created. *)
Definition write_all (path : Path) (data : Bytes) : op unit :=
  '(n, failure) ← calling (write path data) (fun r => [Wrote path (take r.1 data)]);
  match failure with None => mret tt | Some e => fail (from_io e) end.

(** ** Bounded reading *)

(** A reader gives its bytes and then ends or fails. *)
Definition read_bounded (reader : Bytes * option IoError) (limit : Z) : IoError + res CompressError Bytes :=
  let '(data, failure) := reader in
  if limit <? Z.of_nat (length data) then inr (Err (limit_exceeded limit))
  else match failure with Some e => inl e | None => inr (Ok data) end.
Definition decode (reader : Bytes * option IoError) (limit : Z) : res CompressError Bytes :=
  match read_bounded reader limit with
  | inl e => Err (corrupt "compressed data is corrupt" (io_text e))
  | inr r => r
  end.
Definition encoded (r : IoError + Bytes) : res CompressError Bytes :=
  match r with inr data => Ok data | inl e => Err (corrupt "compression failed" (io_text e)) end.
Definition deflate (data : Bytes) : res CompressError Bytes := encoded (deflate_encode data).
Definition inflate (data : Bytes) : res CompressError Bytes := decode (deflate_decode data) MAX_DECOMPRESSED_BYTES.
Definition gzip (data : Bytes) : res CompressError Bytes := encoded (gzip_encode data).
Definition gunzip (data : Bytes) : res CompressError Bytes := decode (gzip_decode data) MAX_DECOMPRESSED_BYTES.

(** ** Archives *)

Definition create_archive (path : Path) : op ZipArchiveHandle :=
  create_file path;; mret (mkHandle (Writing (Some (new_writer path))) path).
Definition open_archive (path : Path) : op ZipArchiveHandle :=
  authorize path false;;
  r ← calling (open_read path) (fun _ => [Read path]);
  file ← performed path r;
  match zip_open file with
  | inl e => fail (from_zip e)
  | inr archive => mret (mkHandle (Reading archive) path)
  end.

(** A method on [&mut self] works on the files and on the handle. *)
Abbreviation method A := (st CompressError (State * ZipArchiveHandle) A).
Definition on_files {A} (m : op A) : method A := fun s => let '(f, r) := m s.1 in ((f, s.2), r).
Definition refused {A} (e : CompressError) : method A := lift (Err e).
Definition set_mode (m : ZipMode) : method unit := modify (fun s => (s.1, mkHandle m (path s.2))).

Definition archive_closed : CompressError := invalid_argument "archive is closed".
Definition archive_reading : CompressError := invalid_argument "archive is open for reading, not writing".
Definition archive_writing : CompressError := invalid_argument "archive is open for writing, not reading".
Definition writer : method ZipWriter := fun s =>
  (s, match mode s.2 with
      | Writing (Some writer) => Ok writer
      | Writing None | Closed => Err archive_closed
      | Reading _ => Err archive_reading
      end).
Definition reader : method Archive := fun s =>
  (s, match mode s.2 with
      | Reading archive => Ok archive
      | Writing _ => Err archive_writing
      | Closed => Err archive_closed
      end).
(** A call on the writer of the handle, which keeps what the call made of it. *)
Definition with_writer {E} (f : ZipWriter → World → World * (ZipWriter * option E)) (from : E → CompressError) : method unit :=
  w ← writer;
  '(w, failure) ← on_files (calling (f w) (fun _ => []));
  set_mode (Writing (Some w));;
  match failure with None => mret tt | Some e => refused (from e) end.

Definition add_bytes (entry_name : string) (data : Bytes) (stored : bool) : method unit :=
  with_writer (start_file entry_name stored) from_zip;;
  with_writer (write_entry data) from_io.
Definition add_file (entry_name : string) (disk_path : Path) : method unit :=
  writer;; content ← on_files (read_file disk_path); add_bytes entry_name content false.
Definition add_text (entry_name content : string) : method unit := add_bytes entry_name (str_bytes content) false.
Definition add_stored_text (entry_name content : string) : method unit := add_bytes entry_name (str_bytes content) true.
Definition add_stored_bytes (entry_name : string) (data : Bytes) : method unit := add_bytes entry_name data true.

Definition entry_count : method Z := archive ← reader; mret (Z.of_nat (length archive)).
Definition of_zip {A} (r : ZipError + A) : method A := match r with inr a => mret a | inl e => refused (from_zip e) end.
(** [ZipArchive::by_index] *)
Definition by_index (archive : Archive) (index : Z) : ZipError + Entry :=
  match archive !! Z.to_nat index with Some r => r | None => inl FileNotFound end.
Definition entry_name (index : Z) : method string :=
  archive ← reader; entry ← of_zip (by_index archive index); mret (en_name entry).
Definition extract_bytes (entry_name : string) : method Bytes :=
  archive ← reader;
  entry ← of_zip (by_name archive entry_name);
  match read_bounded (en_data entry, en_failure entry) MAX_DECOMPRESSED_BYTES with
  | inl e => refused (from_io e)
  | inr r => lift r
  end.
Definition extract_text (utf8_error_text : Bytes → string) (entry_name : string) : method string :=
  data ← extract_bytes entry_name;
  match from_utf8 data with Some text => mret text | None => refused (invalid_utf8 (utf8_error_text data)) end.
Definition extract_file (entry_name : string) (disk_path : Path) : method unit :=
  data ← extract_bytes entry_name;
  on_files (create_file disk_path;; write_all disk_path data).

(** [io::copy] of what the budget and one byte more let through: the bytes
    written, or the failure of the write or of the reader. *)
Definition copy_entry (entry : Entry) (outpath : Path) (budget : Z) : op Z :=
  let taken := take (Z.to_nat (budget + 1)) (en_data entry) in
  '(n, failure) ← calling (write outpath taken) (fun r => [Wrote outpath (take r.1 taken)]);
  match failure with
  | Some e => fail (from_io e)
  | None =>
      match en_failure entry with
      | Some e => if Z.of_nat (length (en_data entry)) <=? budget then fail (from_io e) else mret (Z.of_nat (length taken))
      | None => mret (Z.of_nat (length taken))
      end
  end.
(** One turn of the loop of [extract_all_within]: what is left of the budget. *)
Definition extract_entry (dest : Path) (limit budget : Z) (entry : Entry) : op Z :=
  match enclosed_name (en_name entry) with
  | None => fail (zip_slip (en_name entry))
  | Some enclosed =>
      let outpath := path_join dest enclosed in
      if negb (path_starts_with outpath dest) then fail (zip_slip (en_name entry))
      else if is_dir (en_name entry) then
        there ← calling (exists_ outpath) (fun _ => []);
        if there : bool then mret budget
        else authorize outpath true;;
             r ← calling (create_dir_all outpath) (fun _ => [MadeDirectory outpath]);
             performed outpath r;; mret budget
      else
        create_file outpath;;
        written ← copy_entry entry outpath budget;
        if budget <? written
        then calling (remove_file outpath) (fun _ => [Removed outpath]);; fail (limit_exceeded limit)
        else mret (budget - written)
  end.
Fixpoint extract_entries (dest : Path) (limit budget : Z) (archive : Archive) : op unit :=
  match archive with
  | [] => mret tt
  | inl e :: _ => fail (from_zip e)
  | inr entry :: archive => budget ← extract_entry dest limit budget entry; extract_entries dest limit budget archive
  end.
Definition extract_all_within (requested : Path) (limit : Z) : method unit :=
  dest ← on_files (calling (canonicalize requested) (fun _ => []));
  archive ← reader;
  on_files (extract_entries (default requested dest) limit limit archive).
Definition extract_all (destination_dir : Path) : method unit := extract_all_within destination_dir MAX_DECOMPRESSED_BYTES.

Definition close : method unit := fun s =>
  let '((f, h), m) := (s, mode s.2) in
  let s := (f, mkHandle Closed (path h)) in
  match m with
  | Writing (Some writer) =>
      let '(w, failure) := finish writer (world f) in
      ((mkState w (log f), s.2), match failure with None => Ok tt | Some e => Err (from_zip e) end)
  | _ => (s, Ok tt)
  end.

(** ** Where an extraction writes *)

(** A relative path that never climbs above where it starts. *)
Fixpoint descends (depth : nat) (path : Path) : bool :=
  match path with
  | [] => true
  | RootDir :: _ => false
  | ParentDir :: path => match depth with O => false | S depth => descends depth path end
  | CurDir :: path => descends depth path
  | Normal _ :: path => descends (S depth) path
  end.
Definition inside (dest path : Path) : Prop := ∃ rest, path = (dest ++ rest)%list ∧ descends 0 rest = true.
Definition allowed (dest : Path) (e : Event) : Prop :=
  match e with
  | Created p | Wrote p _ | Removed p => inside dest p ∧ access_check p true = None
  | MadeDirectory p => (inside dest p ∨ p `prefix_of` dest) ∧ access_check p true = None
  | Read _ => False
  end.

(** A computation that only adds to the log events that satisfy [P]. *)
Definition adds {A} (P : Event → Prop) (m : op A) : Prop := ∀ s, ∃ l, log (m s).1 = (log s ++ l)%list ∧ Forall P l.

Lemma adds_pure {A} (P : Event → Prop) (r : res CompressError A) : adds P (lift r).
Proof. intros s. exists []. by rewrite app_nil_r. Qed.
Lemma adds_ret {A} (P : Event → Prop) (a : A) : adds P (mret a).
Proof. apply (adds_pure P (Ok a)). Qed.
Lemma adds_bind {A B} (P : Event → Prop) (m : op A) (f : A → op B) : adds P m → (∀ a, adds P (f a)) → adds P (m ≫= f).
Proof.
  intros Hm Hf s. unfold mbind, st_bind. destruct (Hm s) as (l & Hl & Hp). destruct (m s) as [s' [a|e|w|]]; cbn in *; try by exists l.
  destruct (Hf a s') as (l' & Hl' & Hp'). exists (l ++ l')%list. rewrite Hl', Hl, app_assoc. split; [done|]. by apply Forall_app.
Qed.
Lemma adds_calling {A} (P : Event → Prop) (f : World → World * A) ev : (∀ a, Forall P (ev a)) → adds P (calling f ev).
Proof. intros Hp s. unfold calling. destruct (f (world s)) as [w a]. by exists (ev a). Qed.
Lemma adds_authorize {A} (P : Event → Prop) path write (m : op A) : (access_check path write = None → adds P m) → adds P (authorize path write;; m).
Proof.
  intros Hm s. unfold authorize, mbind, st_bind. destruct (access_check path write); [exists []; by rewrite app_nil_r|]. by apply Hm.
Qed.
Lemma adds_performed {A} (P : Event → Prop) path (r : IoError + A) : adds P (performed path r).
Proof. destruct r; [apply (adds_pure P (Err _))|apply adds_ret]. Qed.
Lemma adds_step {A B} (P : Event → Prop) (f : World → World * A) ev (k : A → op B) : (∀ a, Forall P (ev a)) → (∀ a, adds P (k a)) → adds P (calling f ev ≫= k).
Proof. intros. apply adds_bind; [by apply adds_calling|done]. Qed.

Lemma adds_assoc {A B C} (P : Event → Prop) (m : op A) (f : A → op B) (g : B → op C) : adds P (m ≫= fun a => f a ≫= g) → adds P ((m ≫= f) ≫= g).
Proof. intros Hm s. specialize (Hm s). unfold mbind, st_bind in *. by destruct (m s) as [s' []]. Qed.
Lemma descends_prefix d p q : descends d (p ++ q)%list = true → descends d p = true.
Proof. revert d. induction p as [|[| | |name] p IH]; intros d; cbn; try done; [destruct d as [|d]; [done|]|..]; apply IH. Qed.
Lemma parent_inside dest path parent : inside dest path → parent_components path = Some parent → inside dest parent ∨ parent `prefix_of` dest.
Proof.
  intros (rest & -> & Hd) Hp. unfold parent_components in Hp. destruct (list.last _) as [[]|]; try done; injection Hp as <-.
  all: destruct rest as [|c rest _] using rev_ind; [right; rewrite app_nil_r; destruct dest as [|d dest _] using rev_ind; [done|rewrite removelast_last; by exists [d]]|].
  all: left; exists rest; rewrite app_assoc, removelast_last; split; [done|]; by apply descends_prefix in Hd.
Qed.
Lemma create_parent_adds dest path : inside dest path → adds (allowed dest) (create_parent path).
Proof.
  intros Hi. unfold create_parent. destruct (parent_components path) as [[|c parent]|] eqn:Hp; try apply adds_ret.
  apply adds_step; [done|]. intros []; [apply adds_ret|]. apply adds_authorize. intros Hc.
  apply adds_step; [|intros; apply adds_performed]. intros _. constructor; [|done]. split; [exact (parent_inside dest path _ Hi Hp)|done].
Qed.
Lemma create_file_adds {A} dest path (k : unit → op A) : inside dest path → (access_check path true = None → ∀ u, adds (allowed dest) (k u)) →
  adds (allowed dest) (create_file path ≫= k).
Proof.
  intros Hi Hk. unfold create_file. apply adds_assoc, adds_bind; [by apply create_parent_adds|]. intros _.
  apply adds_assoc, adds_authorize. intros Hc. apply adds_assoc, adds_step; [by repeat constructor|]. intros r.
  apply adds_bind; [apply adds_performed|]. by apply Hk.
Qed.

(** What [zip] documents of an enclosed name: relative, and never above its start. *)
Definition encloses : Prop := ∀ name path, enclosed_name name = Some path → descends 0 path = true.

Lemma extract_entry_adds dest limit budget entry : encloses → adds (allowed dest) (extract_entry dest limit budget entry).
Proof.
  intros He. unfold extract_entry. destruct (enclosed_name (en_name entry)) as [enclosed|] eqn:Hn; [|apply adds_pure].
  assert (inside dest (path_join dest enclosed)) as Hi.
  { exists enclosed. pose proof (He _ _ Hn) as Hd. split; [|done]. unfold path_join. by destruct enclosed as [|[]]. }
  cbv zeta. destruct (negb _); [apply adds_pure|]. destruct (is_dir _).
  - apply adds_step; [done|]. intros []; [apply adds_ret|]. apply adds_authorize. intros Hc.
    apply adds_step; [intros _; constructor; [by split; [left|]|done]|]. intros r. apply adds_bind; [apply adds_performed|]. intros _. apply adds_ret.
  - apply create_file_adds; [done|]. intros Hc _. apply adds_bind.
    + apply adds_step; [intros a; by repeat constructor|]. intros [n failure].
      destruct failure; [apply adds_pure|]. destruct (en_failure entry); [destruct (_ <=? _); [apply adds_pure|]|]; apply adds_ret.
    + intros written. destruct (budget <? written); [|apply adds_ret]. apply adds_step; [intros _; by repeat constructor|]. intros _. apply adds_pure.
Qed.
Lemma extract_entries_adds dest limit archive : encloses → ∀ budget, adds (allowed dest) (extract_entries dest limit budget archive).
Proof.
  intros He. induction archive as [|[e|entry] archive IH]; intros budget; cbn [extract_entries]; [apply adds_ret|apply adds_pure|].
  apply adds_bind; [by apply extract_entry_adds|]. intros budget'. apply IH.
Qed.


(** ** How much an extraction writes *)

(** What [std] documents of [write_all]: a write that does not fail wrote everything. *)
Definition writes_whole : Prop := ∀ path data w,
  match (write path data w).2 with (n, None) => n = length data | (n, Some _) => (n < length data)%nat end.
Definition contents : list Event → list (Path * Bytes) := omap (fun e => match e with Wrote p data => Some (p, data) | _ => None end).
Definition wrote (l : list Event) : Z := foldr (fun f n => Z.of_nat (length f.2) + n) 0 (contents l).
Definition files (dest : Path) : Archive → list (Path * Bytes) :=
  omap (fun r => match r with
                 | inr entry => if is_dir (en_name entry) then None
                                else enclosed ← enclosed_name (en_name entry); Some (path_join dest enclosed, en_data entry)
                 | inl _ => None
                 end).
(** The file that passed the limit: its beginning was written, and it was removed. *)
Definition overflowed (limit budget : Z) (l : list Event) (e : CompressError) : Prop :=
  e = limit_exceeded limit ∧ wrote l = budget + 1 ∧ ∃ l0 p data, l = (l0 ++ [Wrote p data; Removed p])%list ∧ wrote l0 ≤ budget.
Definition outcome (limit budget : Z) (l : list Event) (r : res CompressError Z) (done : Z → Prop) : Prop :=
  match r with
  | Ok rest => 0 ≤ rest ∧ wrote l = budget - rest ∧ done rest
  | Err e => wrote l ≤ budget ∨ overflowed limit budget l e
  | _ => False
  end.

Lemma contents_app l l' : contents (l ++ l') = (contents l ++ contents l')%list.
Proof. apply omap_app. Qed.
Lemma wrote_app l l' : wrote (l ++ l') = wrote l + wrote l'.
Proof. unfold wrote. rewrite contents_app. induction (contents l) as [|f c IH]; cbn; [done|]. rewrite IH. lia. Qed.
Lemma wrote_nonneg l : 0 ≤ wrote l.
Proof. unfold wrote. induction (contents l); cbn; lia. Qed.
Definition no_write (e : Event) : Prop := match e with Wrote _ _ => False | _ => True end.
Lemma no_write_contents l : Forall no_write l → contents l = [].
Proof. induction 1 as [|[] l He _ IH]; cbn; try done. Qed.
Lemma create_file_quiet path : adds no_write (create_file path).
Proof.
  unfold create_file. apply adds_bind.
  - unfold create_parent. destruct (parent_components path) as [[|c parent]|]; try apply adds_ret. apply adds_step; [done|]. intros []; [apply adds_ret|].
    apply adds_authorize. intros _. apply adds_step; [by repeat constructor|]. intros. apply adds_performed.
  - intros _. apply adds_authorize. intros _. apply adds_step; [by repeat constructor|]. intros. apply adds_performed.
Qed.

Lemma copy_entry_spec entry p budget s : writes_whole → 0 ≤ budget →
  let '(s', r) := copy_entry entry p budget s in
  ∃ d, log s' = (log s ++ [Wrote p d])%list ∧
  match r with
  | Ok w => w = Z.of_nat (length d) ∧ w ≤ budget + 1 ∧ (w ≤ budget → d = en_data entry)
  | Err _ => Z.of_nat (length d) ≤ budget
  | _ => False
  end.
Proof.
  intros Hw Hb. unfold copy_entry, calling, mbind, st_bind. cbv zeta. set (taken := take _ _).
  pose proof (Hw p taken (world s)) as Hn. destruct (write p taken (world s)) as [w [n failure]]. cbn [fst snd] in *.
  assert (Z.of_nat (length taken) ≤ budget + 1) as Ht by (unfold taken; rewrite length_take; lia).
  assert (Z.of_nat (length taken) ≤ budget → taken = en_data entry) as Hall.
  { unfold taken. rewrite length_take. intros Hle. apply take_ge. lia. }
  destruct failure as [e|].
  - exists (take n taken). split; [done|]. cbn. rewrite length_take. lia.
  - subst n. rewrite firstn_all.
    destruct (en_failure entry) as [e|]; [destruct (Z.leb_spec (Z.of_nat (length (en_data entry))) budget)|]; cbn; exists taken; (split; [done|]); auto.
    unfold taken. rewrite length_take. lia.
Qed.
Lemma adds_answer {A} (P : Event → Prop) (m : op A) s : adds P m → ∃ s' r l, m s = (s', r) ∧ log s' = (log s ++ l)%list ∧ Forall P l.
Proof. intros Hm. destruct (Hm s) as (l & Hl & Hp). destruct (m s) as [s' r]. by exists s', r, l. Qed.
(** No operation of the core panics. *)
Definition answers_only {A} (m : op A) : Prop := ∀ s, match (m s).2 with Ok _ | Err _ => True | _ => False end.
Lemma answers_step {A B} (m : op A) (f : A → op B) : answers_only m → (∀ a, answers_only (f a)) → answers_only (m ≫= f).
Proof. intros Hm Hf s. specialize (Hm s). unfold mbind, st_bind. destruct (m s) as [s' []]; try done. by apply Hf. Qed.
Lemma answers_calling {A} (f : World → World * A) ev : answers_only (calling f ev).
Proof. intros s. unfold calling. by destruct (f (world s)). Qed.
Lemma answers_authorize path write : answers_only (authorize path write).
Proof. intros s. unfold authorize. by destruct (access_check path write). Qed.
Lemma answers_performed {A} path (r : IoError + A) : answers_only (performed path r).
Proof. intros s. by destruct r. Qed.
Lemma create_file_answers path : answers_only (create_file path).
Proof.
  unfold create_file, create_parent.
  destruct (parent_components path) as [[|c parent]|];
    repeat first [done|apply answers_calling|apply answers_authorize|apply answers_performed|apply answers_step; [|intros []]].
  all: intros []; done.
Qed.

Lemma extract_entry_spec dest limit budget entry s : writes_whole → 0 ≤ budget →
  let '(s', r) := extract_entry dest limit budget entry s in
  ∃ l, log s' = (log s ++ l)%list ∧ outcome limit budget l r (fun _ => contents l = files dest [inr entry]).
Proof.
  intros Hw Hb. unfold extract_entry, files. cbn [omap list_omap]. destruct (enclosed_name (en_name entry)) as [enclosed|].
  2:{ exists []. rewrite app_nil_r. split; [done|]. left. cbn. lia. }
  cbv zeta. destruct (negb _); [exists []; rewrite app_nil_r; split; [done|]; left; cbn; lia|]. set (p := path_join dest enclosed).
  destruct (is_dir (en_name entry)).
  - unfold mbind, st_bind, calling, authorize, performed, mret, st_ret, fail, lift. destruct (exists_ p (world s)) as [w []].
    + exists []. split; [done|]. cbn. split_and!; [done|lia|done].
    + destruct (access_check p true); [exists []; split; [done|]; left; cbn; lia|]. cbn [world log].
      destruct (create_dir_all p w) as [w' [e|u]]; exists [MadeDirectory p]; cbn; rewrite app_nil_r; (split; [done|]); [left; cbn; lia|].
      split_and!; [done|unfold wrote; cbn; lia|done].
  - destruct (adds_answer no_write (create_file p) s (create_file_quiet p)) as (s1 & r1 & l1 & E1 & Hl1 & Hq).
    pose proof (create_file_answers p s) as Ha. rewrite E1 in Ha. cbn [snd] in Ha. pose proof (no_write_contents l1 Hq) as Hc1.
    assert (wrote l1 = 0) as Hw1 by (unfold wrote; by rewrite Hc1).
    unfold mbind at 1. unfold st_bind at 1. rewrite E1. destruct r1 as [u|e| |]; try done; [|exists l1; split; [done|]; left; lia].
    pose proof (copy_entry_spec entry p budget s1 Hw Hb) as Hcopy. unfold mbind, st_bind.
    destruct (copy_entry entry p budget s1) as [s2 r2]. destruct Hcopy as (d & Hl2 & Hr2).
    destruct r2 as [w|e| |]; try done; [|exists (l1 ++ [Wrote p d])%list; rewrite Hl2, Hl1, app_assoc; split; [done|]; left; rewrite wrote_app; cbn; lia].
    destruct Hr2 as (-> & Hle & Hall). destruct (Z.ltb_spec budget (Z.of_nat (length d))) as [Hlt|Hge].
    + unfold calling, fail, lift. destruct (remove_file p (world s2)) as [w3 r3]. cbn [log].
      exists (l1 ++ [Wrote p d; Removed p])%list. rewrite Hl2, Hl1, <- !app_assoc. split; [done|]. right. split; [done|].
      rewrite wrote_app. split; [cbn; lia|]. exists l1, p, d. split; [done|lia].
    + exists (l1 ++ [Wrote p d])%list. rewrite Hl2, Hl1, app_assoc. split; [done|]. unfold outcome, mret, st_ret. rewrite wrote_app, Hw1, contents_app, Hc1.
      split_and!; [lia|cbn; lia|]. cbn. by rewrite Hall.
Qed.
Lemma outcome_step limit budget rest l l' r (done done' : Z → Prop) : wrote l = budget - rest →
  outcome limit rest l' r done → (∀ x, done x → done' x) → outcome limit budget (l ++ l') r done'.
Proof.
  intros Hl Ho Hd. unfold outcome in *. destruct r as [x|e| |]; [destruct Ho as (? & ? & ?)|destruct Ho as [?|(-> & Hov & l0 & p & d & -> & ?)]|done..].
  - rewrite wrote_app. split_and!; [lia|lia|by apply Hd].
  - left. rewrite wrote_app. lia.
  - right. split; [done|]. rewrite wrote_app. split; [lia|]. exists (l ++ l0)%list, p, d. rewrite app_assoc, wrote_app. split; [done|lia].
Qed.
Lemma extract_entries_spec dest limit archive : writes_whole → ∀ budget s, 0 ≤ budget →
  let '(s', r) := extract_entries dest limit budget archive s in
  ∃ l, log s' = (log s ++ l)%list ∧
    match r with
    | Ok _ => wrote l ≤ budget ∧ contents l = files dest archive
    | Err e => wrote l ≤ budget ∨ overflowed limit budget l e
    | _ => False
    end.
Proof.
  intros Hw. induction archive as [|[e|entry] archive IH]; intros budget s Hb; cbn [extract_entries].
  - exists []. rewrite app_nil_r. cbn. auto with lia.
  - exists []. rewrite app_nil_r. split; [done|]. left. cbn. lia.
  - pose proof (extract_entry_spec dest limit budget entry s Hw Hb) as He. unfold mbind, st_bind.
    destruct (extract_entry dest limit budget entry s) as [s1 r1]. destruct He as (l1 & Hl1 & Ho).
    destruct r1 as [rest|e| |]; try done; [|by exists l1]. destruct Ho as (Hr & Hl & Hc). specialize (IH rest s1 Hr).
    destruct (extract_entries dest limit rest archive s1) as [s2 r2]. destruct IH as (l2 & Hl2 & Ho).
    exists (l1 ++ l2)%list. rewrite Hl2, Hl1, app_assoc. split; [done|]. destruct r2 as [u|e| |]; try done.
    + rewrite wrote_app, contents_app, Hc. destruct Ho as [Ho ->]. split; [lia|]. unfold files. by rewrite <- (omap_app _ [inr entry] archive).
    + pose proof (outcome_step limit budget rest l1 l2 (Err e) (fun _ => False) (fun _ => False) Hl Ho) as H2. cbn in H2. auto.
Qed.

(** C30: An extraction that succeeds has written every file of the archive whole
    and no more than the limit in all; of one that fails, no more than the limit
    was written, except where one byte more showed that a file passes it: then
    what came before keeps within the limit, and the last thing the extraction
    did was to ask for the removal of that file (what the removal answers is
    not looked at, so the file may be kept). *)
Theorem extraction_bounded (Hw : writes_whole) requested limit s (Hlimit : 0 ≤ limit) :
  let dest := default requested (canonicalize requested (world s.1)).2 in
  let '(s', r) := extract_all_within requested limit s in
  ∃ l, log s'.1 = (log s.1 ++ l)%list ∧
    match r with
    | Ok _ => wrote l ≤ limit ∧ ∃ archive, mode s.2 = Reading archive ∧ contents l = files dest archive
    | Err e => wrote l ≤ limit ∨ overflowed limit limit l e
    | _ => False
    end.
Proof.
  intros dest. destruct s as [f h]. unfold extract_all_within, mbind, st_bind, on_files, calling. cbn [fst snd] in *.
  destruct (canonicalize requested (world f)) as [w d]. cbn [fst snd] in *. rewrite app_nil_r. unfold reader. cbn [fst snd].
  destruct (mode h) as [archive|wr|]; try (exists []; rewrite app_nil_r; split; [done|]; left; cbn; lia).
  pose proof (extract_entries_spec dest limit archive Hw limit (mkState w (log f)) Hlimit) as Hspec.
  subst dest. destruct (extract_entries _ limit limit archive _) as [f' r] eqn:E. cbn [fst snd log] in *.
  destruct Hspec as (l & Hl & Hr). exists l. split; [done|]. destruct r; try done. destruct Hr. eauto.
Qed.
End Core.

(** ** Hexadecimal text is read back *)

Lemma hex_byte b : from_str_radix 0 255 16 (String (lower_hex_digit (byte_val b / 16)) (String (lower_hex_digit (byte_val b mod 16)) "")) = Some (byte_val b).
Proof. by destruct b as [[] [] [] [] [] [] [] []]. Qed.
Lemma byte_of_val b : byte_of (byte_val b) = b.
Proof. by destruct b as [[] [] [] [] [] [] [] []]. Qed.
Lemma encode_hex_even b : Z.even (str_len (encode_hex b)) = true.
Proof.
  induction b as [|a b IH]; [done|]. cbn [encode_hex]. unfold str_len in *. cbn [String.length].
  by replace (Z.of_nat (S (S (String.length (encode_hex b))))) with (Z.of_nat (String.length (encode_hex b)) + 2 * 1) by lia; rewrite Z.even_add_mul_2.
Qed.
(** Bytes written as hexadecimal text are read back. *)
Theorem hex_round_trip b : decode_hex (encode_hex b) = Some b.
Proof.
  unfold decode_hex. rewrite encode_hex_even. induction b as [|a b IH]; [done|].
  cbn [encode_hex hex_pairs]. rewrite hex_byte, IH. cbn [mbind option_bind]. by rewrite byte_of_val.
Qed.
(** A pair may begin with a plus sign, which is no hexadecimal digit. *)
Lemma hex_sign_accepted : decode_hex "+a" = Some [byte_of 10] ∧ decode_hex "0a" = Some [byte_of 10].
Proof. by vm_compute. Qed.

(** ** The provider ([bn_lib_compress]) *)

Module Provider.
Section Provider.
Context `{Codecs} (utf8_error_text : Bytes → string).

Record CompressProvider := mkProvider {
  buffers : gmap Z Bytes;
  holders : gmap Z Z;
  archives : gmap Z ZipArchiveHandle;
  archive_holders : gmap Z Z;
  next : Z;
}.
Definition empty_provider : CompressProvider := mkProvider ∅ ∅ ∅ ∅ 0.

Definition insert_buffer (bytes : Bytes) (p : CompressProvider) : CompressProvider * Value :=
  let handle := next p + 1 in
  (mkProvider (<[handle := bytes]> (buffers p)) (<[handle := 1]> (holders p)) (archives p) (archive_holders p) handle, VCompressBytes handle).
Definition insert_archive (archive : ZipArchiveHandle) (p : CompressProvider) : CompressProvider * Value :=
  let handle := next p + 1 in
  (mkProvider (buffers p) (holders p) (<[handle := archive]> (archives p)) (<[handle := 1]> (archive_holders p)) handle, VCompressZip handle).

Definition BYTES_RELEASED : string := "BNCompress.Bytes was already released".
Definition ARCHIVE_RELEASED : string := "BNCompress.ZipArchive was already released".

Abbreviation served A := (st Diagnostic (State * CompressProvider) A).
Definition storing (f : CompressProvider → CompressProvider * Value) : served Value := fun s =>
  let '(p, v) := f s.2 in ((s.1, p), Ok v).

Definition buffer (handle : Z) (span : Span) : served Bytes := fun s =>
  (s, match buffers s.2 !! handle with Some bytes => Ok bytes | None => runtime_error USE_AFTER_RELEASE BYTES_RELEASED span end).
Definition bytes_at (arguments : list Value) (index : nat) (member : string) (span : Span) : served Bytes :=
  match arguments !! index with
  | Some (VCompressBytes handle) => buffer handle span
  | Some (VCryptoBytes _) => lift (type_mismatch "BNCompress.Bytes" "BNCrypto.Bytes value" member span)
  | _ => lift (type_mismatch "BNCompress.Bytes" "non-Bytes value" member span)
  end.
Definition string_at (arguments : list Value) (index : nat) (member : string) (span : Span) : served string :=
  match arguments !! index with
  | Some (VString s) => mret s
  | _ => lift (type_mismatch "STRING" "non-STRING value" member span)
  end.

Definition failure (e : CompressError) (operation : string) : Value := error_report (ce_code e) operation (ce_message e) (ce_cause e).
(** [outcome]: the value of a success, or an [Error] value. *)
Definition outcome_value {A} (r : res CompressError A) (member : string) (success : A → served Value) : served Value :=
  match r with
  | Ok a => success a
  | Err e => mret (failure e member)
  | Panic w => lift (Panic w)
  | Fuel => lift Fuel
  end.
Definition text_value (bytes : Bytes) (member : string) : Value :=
  match from_utf8 bytes with Some text => VString text | None => failure (invalid_utf8 (utf8_error_text bytes)) member end.
Definition count_value (count : Z) : Value := VInteger count Int32.

(** ** Buffers *)

Definition buffer_codec (method : string) : option (Bytes → res CompressError Bytes) :=
  match method with
  | "Deflate" | "DeflateText" => Some deflate
  | "Inflate" | "InflateText" => Some inflate
  | "Gzip" | "GzipText" => Some gzip
  | "Gunzip" | "GunzipText" => Some gunzip
  | "FromText" | "FromHex" | "Length" | "ToHex" | "ToText" => Some (fun _ => Ok [])
  | _ => None
  end.
Definition among (method : string) (names : list string) : bool := existsb (String.eqb method) names.
Definition buffer_operation (method member : string) (arguments : list Value) (codec : Bytes → res CompressError Bytes) (span : Span) : served Value :=
  lift (require_arity member arguments 1 span);;
  if among method ["FromText"] then text ← string_at arguments 0 member span; storing (insert_buffer (str_bytes text))
  else if among method ["FromHex"] then
    hex ← string_at arguments 0 member span;
    match decode_hex hex with Some bytes => storing (insert_buffer bytes) | None => mret (failure malformed_hex member) end
  else if among method ["DeflateText"; "GzipText"] then
    text ← string_at arguments 0 member span;
    outcome_value (codec (str_bytes text)) member (fun bytes => storing (insert_buffer bytes))
  else if among method ["InflateText"; "GunzipText"] then
    data ← bytes_at arguments 0 member span;
    outcome_value (codec data) member (fun bytes => mret (text_value bytes member))
  else if among method ["Length"] then data ← bytes_at arguments 0 member span; mret (count_value (Z.of_nat (length data)))
  else if among method ["ToHex"] then data ← bytes_at arguments 0 member span; mret (VString (encode_hex data))
  else if among method ["ToText"] then data ← bytes_at arguments 0 member span; mret (text_value data member)
  else
    data ← bytes_at arguments 0 member span;
    outcome_value (codec data) member (fun bytes => storing (insert_buffer bytes)).

(** ** Archives *)

Definition archive_arity (method : string) : option Z :=
  match method with
  | "AddFile" | "AddText" | "AddStoredText" | "AddBytes" | "AddStoredBytes" | "ExtractFile" => Some 3
  | "ExtractAll" | "ExtractText" | "ExtractBytes" | "EntryName" => Some 2
  | "EntryCount" | "Close" => Some 1
  | _ => None
  end.
Definition archive_handle (arguments : list Value) (member : string) (span : Span) : served Z :=
  match arguments with
  | VCompressZip handle :: _ => mret handle
  | _ => lift (type_mismatch "ZipArchive" "non-ZipArchive value" member span)
  end.
(** A method on the archive of a handle, which keeps what the method made of it. *)
Definition with_archive {A} (handle : Z) (span : Span) (m : st CompressError (State * ZipArchiveHandle) A) : served (res CompressError A) := fun s =>
  match archives s.2 !! handle with
  | None => (s, runtime_error USE_AFTER_RELEASE ARCHIVE_RELEASED span)
  | Some archive =>
      let '((f, archive), r) := m (s.1, archive) in
      ((f, mkProvider (buffers s.2) (holders s.2) (<[handle := archive]> (archives s.2)) (archive_holders s.2) (next s.2)), Ok r)
  end.

Definition archive_method (method member : string) (arguments : list Value) (span : Span) : served Value :=
  handle ← archive_handle arguments member span;
  let unit_value (_ : unit) : served Value := mret VNull in
  let text (s : string) : served Value := mret (VString s) in
  if among method ["AddFile"; "ExtractFile"] then
    entry ← string_at arguments 1 member span;
    path ← string_at arguments 2 member span;
    r ← with_archive handle span
          (if String.eqb method "AddFile" then add_file entry (components path) else extract_file entry (components path));
    outcome_value r member unit_value
  else if among method ["AddText"; "AddStoredText"] then
    entry ← string_at arguments 1 member span;
    content ← string_at arguments 2 member span;
    r ← with_archive handle span (add_bytes entry (str_bytes content) (String.eqb method "AddStoredText"));
    outcome_value r member unit_value
  else if among method ["AddBytes"; "AddStoredBytes"] then
    entry ← string_at arguments 1 member span;
    data ← bytes_at arguments 2 member span;
    r ← with_archive handle span (add_bytes entry data (String.eqb method "AddStoredBytes"));
    outcome_value r member unit_value
  else if among method ["ExtractAll"] then
    destination ← string_at arguments 1 member span;
    r ← with_archive handle span (extract_all (components destination));
    outcome_value r member unit_value
  else if among method ["ExtractText"] then
    entry ← string_at arguments 1 member span;
    r ← with_archive handle span (extract_text utf8_error_text entry);
    outcome_value r member text
  else if among method ["ExtractBytes"] then
    entry ← string_at arguments 1 member span;
    r ← with_archive handle span (extract_bytes entry);
    outcome_value r member (fun bytes => storing (insert_buffer bytes))
  else if among method ["EntryName"] then
    match arguments !! 1%nat with
    | Some (VInteger index _) =>
        if in_range 0 usize_MAX index then
          r ← with_archive handle span (entry_name index); outcome_value r member text
        else mret (failure invalid_index member)
    | _ => lift (type_mismatch "INTEGER" "non-INTEGER value" member span)
    end
  else if among method ["EntryCount"] then
    r ← with_archive handle span entry_count; outcome_value r member (fun n => mret (count_value n))
  else r ← with_archive handle span close; outcome_value r member unit_value.

(** ** The provider seam *)

Definition on_host {A} (m : st CompressError State A) : served (res CompressError A) := fun s => let '(f, r) := m s.1 in ((f, s.2), Ok r).
Definition call (member : string) (arguments : list Value) (span : Span) : served Value :=
  let method := rsplit_last "." member in
  match buffer_codec method with
  | Some codec => buffer_operation method member arguments codec span
  | None =>
      match archive_arity method with
      | Some arity => lift (require_arity member arguments arity span);; archive_method method member arguments span
      | None =>
          if String.eqb method "Create" || String.eqb method "Open" then
            lift (require_arity member arguments 1 span);;
            path ← string_at arguments 0 member span;
            r ← on_host (if String.eqb method "Create" then create_archive (components path) else open_archive (components path));
            outcome_value r member (fun archive => storing (insert_archive archive))
          else if String.eqb method "CONSTRUCTOR" then mret VNull
          else lift (name_not_found method "BNCompress function" span)
      end
  end.
Definition allocate (class : string) (p : CompressProvider) : option (CompressProvider * Value) :=
  let base := rsplit_last "." class in
  if String.eqb base "Bytes" then Some (insert_buffer [] p)
  else if String.eqb base "ZipArchive" then Some (insert_archive closed p)
  else None.
Definition retain (value : Value) (span : Span) (p : CompressProvider) : option (CompressProvider * result unit) :=
  match value with
  | VCompressBytes handle =>
      Some match holders p !! handle with
           | Some h => (mkProvider (buffers p) (<[handle := h + 1]> (holders p)) (archives p) (archive_holders p) (next p), Ok tt)
           | None => (p, runtime_error USE_AFTER_RELEASE BYTES_RELEASED span)
           end
  | VCompressZip handle =>
      Some match archive_holders p !! handle with
           | Some h => (mkProvider (buffers p) (holders p) (archives p) (<[handle := h + 1]> (archive_holders p)) (next p), Ok tt)
           | None => (p, runtime_error USE_AFTER_RELEASE ARCHIVE_RELEASED span)
           end
  | _ => None
  end.
(** The last release of an archive closes it. *)
Definition release (value : Value) (span : Span) (s : State * CompressProvider) : option ((State * CompressProvider) * result unit) :=
  let '(f, p) := s in
  match value with
  | VCompressBytes handle =>
      Some match holders p !! handle with
           | Some h =>
               if h - 1 =? 0 then ((f, mkProvider (delete handle (buffers p)) (delete handle (holders p)) (archives p) (archive_holders p) (next p)), Ok tt)
               else ((f, mkProvider (buffers p) (<[handle := h - 1]> (holders p)) (archives p) (archive_holders p) (next p)), Ok tt)
           | None => (s, runtime_error USE_AFTER_RELEASE BYTES_RELEASED span)
           end
  | VCompressZip handle =>
      Some match archive_holders p !! handle with
           | Some h =>
               if h - 1 =? 0 then
                 let f := match archives p !! handle with Some archive => (close (f, archive)).1.1 | None => f end in
                 ((f, mkProvider (buffers p) (holders p) (delete handle (archives p)) (delete handle (archive_holders p)) (next p)), Ok tt)
               else ((f, mkProvider (buffers p) (holders p) (archives p) (<[handle := h - 1]> (archive_holders p)) (next p)), Ok tt)
           | None => (s, runtime_error USE_AFTER_RELEASE ARCHIVE_RELEASED span)
           end
  | _ => None
  end.

(** ** Holders *)

(** The value is no handle of this provider. *)
Definition plain (r : result Value) : Prop := match r with Ok (VCompressBytes _) | Ok (VCompressZip _) => False | _ => True end.
Definition kept (p p' : CompressProvider) : Prop :=
  buffers p' = buffers p ∧ holders p' = holders p ∧ (∀ h, is_Some (archives p' !! h) ↔ is_Some (archives p !! h)) ∧
  archive_holders p' = archive_holders p ∧ next p' = next p.
Definition keeps {A} (m : served A) : Prop := ∀ s, kept s.2 (m s).1.2.
(** A request stores one new value and answers its handle, or stores none. *)
Definition serves (m : served Value) : Prop := ∀ s, ∃ p, kept s.2 p ∧
  ((m s).1.2 = p ∧ plain (m s).2 ∨
   ∃ f, ((∃ bytes, f = insert_buffer bytes) ∨ ∃ archive, f = insert_archive archive) ∧ (m s).1.2 = (f p).1 ∧ (m s).2 = Ok (f p).2).

Lemma kept_itself p : kept p p.
Proof. by split_and!. Qed.
Lemma kept_again p p' p'' : kept p p' → kept p' p'' → kept p p''.
Proof. intros (A1 & A2 & A3 & A4 & A5) (B1 & B2 & B3 & B4 & B5). split_and!; try congruence. intros h. by rewrite B3, A3. Qed.
Lemma keeps_pure {A} (r : result A) : keeps (lift r).
Proof. intros s. apply kept_itself. Qed.
Lemma keeps_value {A} (a : A) : keeps (mret a).
Proof. intros s. apply kept_itself. Qed.
Lemma keeps_buffer handle span : keeps (buffer handle span).
Proof. intros s. apply kept_itself. Qed.
Lemma keeps_string_at arguments i member span : keeps (string_at arguments i member span).
Proof. intros s. unfold string_at. destruct (arguments !! i) as [[]|]; apply kept_itself. Qed.
Lemma keeps_bytes_at arguments i member span : keeps (bytes_at arguments i member span).
Proof. intros s. unfold bytes_at. destruct (arguments !! i) as [[]|]; apply kept_itself. Qed.
Lemma keeps_archive_handle arguments member span : keeps (archive_handle arguments member span).
Proof. intros s. unfold archive_handle. destruct arguments as [|[] arguments]; apply kept_itself. Qed.
Lemma keeps_with_archive {A} handle span (m : st CompressError (State * ZipArchiveHandle) A) : keeps (with_archive handle span m).
Proof.
  intros [f p]. unfold with_archive. cbn [snd fst]. destruct (archives p !! handle) as [archive|] eqn:E; [|apply kept_itself].
  destruct (m (f, archive)) as [[f' archive'] r]. split_and!; try done. intros h. cbn.
  destruct (decide (handle = h)) as [->|Hn]; [rewrite lookup_insert_eq, E; split; by eexists|by rewrite lookup_insert_ne].
Qed.
Lemma keeps_on_host {A} (m : st CompressError State A) : keeps (on_host m).
Proof. intros [f p]. unfold on_host. cbn [fst snd]. destruct (m f) as [f' r]. apply kept_itself. Qed.
Lemma serves_lift r : plain r → serves (lift r).
Proof. intros Hr s. exists s.2. split; [apply kept_itself|]. by left. Qed.
Lemma serves_ret v : plain (Ok v) → serves (mret v).
Proof. apply (serves_lift (Ok v)). Qed.
Lemma serves_storing f : (∃ bytes, f = insert_buffer bytes) ∨ (∃ archive, f = insert_archive archive) → serves (storing f).
Proof.
  intros Hf s. exists s.2. split; [apply kept_itself|]. right. exists f. split; [done|]. unfold storing. by destruct (f s.2).
Qed.
Lemma serves_bind {A} (m : served A) (k : A → served Value) : keeps m → (∀ a, serves (k a)) → serves (m ≫= k).
Proof.
  intros Hm Hk s. specialize (Hm s). unfold mbind, st_bind. destruct (m s) as [s' [a|e|w|]]; cbn [fst snd] in *.
  - destruct (Hk a s') as (p & Hp & Hr). exists p. split; [by eapply kept_again|done].
  - exists s'.2. split; [done|]. by left.
  - exists s'.2. split; [done|]. by left.
  - exists s'.2. split; [done|]. by left.
Qed.
Lemma serves_outcome {A} (r : res CompressError A) member (k : A → served Value) : (∀ a, serves (k a)) → serves (outcome_value r member k).
Proof. intros Hk. destruct r; [apply Hk|by apply serves_ret|by apply serves_lift..]. Qed.
Lemma text_value_plain bytes member : plain (Ok (text_value bytes member)).
Proof. unfold text_value. by destruct (from_utf8 bytes). Qed.
Lemma mismatch_plain e a c span : plain (type_mismatch e a c span).
Proof. done. Qed.

#[local] Hint Resolve keeps_pure keeps_value keeps_buffer keeps_string_at keeps_bytes_at keeps_archive_handle keeps_with_archive keeps_on_host
  serves_lift serves_ret serves_outcome text_value_plain : serves.
Ltac serves_step :=
  match goal with
  | |- serves (_ ≫= _) => apply serves_bind; [|intros ?]
  | |- serves (if ?b then _ else _) => destruct b
  | |- serves (match ?x with _ => _ end) => destruct x
  | |- serves (outcome_value _ _ _) => apply serves_outcome; intros ?
  | |- serves (storing _) => apply serves_storing; eauto
  | |- serves (mret _) => apply serves_ret; first [done|apply text_value_plain]
  | |- serves (lift _) => apply serves_lift; done
  | |- keeps _ => solve [auto with serves]
  end.
Lemma buffer_operation_serves method member arguments codec span : serves (buffer_operation method member arguments codec span).
Proof. unfold buffer_operation. repeat serves_step. Qed.
Lemma archive_method_serves method member arguments span : serves (archive_method method member arguments span).
Proof. unfold archive_method. cbv zeta. repeat serves_step. Qed.
Lemma call_serves member arguments span : serves (call member arguments span).
Proof.
  unfold call. destruct (buffer_codec _); [apply buffer_operation_serves|].
  destruct (archive_arity _); [apply serves_bind; [auto with serves|intros; apply archive_method_serves]|]. repeat serves_step.
Qed.

(** The references a program holds: one for each value it was given, one more
    for each retain, one less for each release. *)
Definition handle_of (v : Value) : option Z := match v with VCompressBytes h | VCompressZip h => Some h | _ => None end.
Definition gains (held : Z → Z) (v : Value) (n : Z) : Z → Z := fun h => held h + (if bool_decide (handle_of v = Some h) then n else 0).

Inductive reached : State * CompressProvider → (Z → Z) → Prop :=
| reached_empty f : reached (f, empty_provider) (fun _ => 0)
| reached_call s held member arguments span s' r : reached s held → call member arguments span s = (s', r) →
    reached s' (match r with Ok v => gains held v 1 | _ => held end)
| reached_allocate f p held class p' v : reached (f, p) held → allocate class p = Some (p', v) → reached (f, p') (gains held v 1)
| reached_retain f p held v span p' r : reached (f, p) held → retain v span p = Some (p', r) →
    reached (f, p') (match r with Ok _ => gains held v 1 | _ => held end)
| reached_release s held v span s' r : reached s held → release v span s = Some (s', r) →
    reached s' (match r with Ok _ => gains held v (-1) | _ => held end).

(** What the provider keeps under a handle the program holds [n] references of. *)
Definition holds (p : CompressProvider) (h n : Z) : Prop :=
  if n =? 0 then buffers p !! h = None ∧ holders p !! h = None ∧ archives p !! h = None ∧ archive_holders p !! h = None
  else 0 < n ∧
    (is_Some (buffers p !! h) ∧ holders p !! h = Some n ∧ archives p !! h = None ∧ archive_holders p !! h = None ∨
     is_Some (archives p !! h) ∧ archive_holders p !! h = Some n ∧ buffers p !! h = None ∧ holders p !! h = None).
Definition exact (p : CompressProvider) (held : Z → Z) : Prop := 0 ≤ next p ∧ ∀ h, holds p h (held h) ∧ (held h ≠ 0 → h ≤ next p).

Lemma holds_kept p p' h n : kept p p' → holds p h n → holds p' h n.
Proof.
  intros (E1 & E2 & E3 & E4 & _). unfold holds. rewrite E1, E2, E4. specialize (E3 h).
  destruct (archives p' !! h) as [x|], (archives p !! h) as [y|]; try done.
  - destruct (n =? 0); [intros (_ & _ & [=] & _)|]. intros (? & [(_ & _ & [=] & _)|(_ & ? & ? & ?)]). split; [done|]. right. by eauto.
  - by destruct (proj1 E3); [eexists|].
  - by destruct (proj2 E3); [eexists|].
Qed.

(** A new handle is one nothing was kept under. *)
Lemma exact_insert p held f : exact p held → (∃ bytes, f = insert_buffer bytes) ∨ (∃ archive, f = insert_archive archive) →
  exact (f p).1 (gains held (f p).2 1).
Proof.
  intros [Hn He] Hf.
  assert (held (next p + 1) = 0) as Hz by (destruct (He (next p + 1)) as [_ Hle]; destruct (decide (held (next p + 1) = 0)); [done|lia]).
  destruct (He (next p + 1)) as [Hh _]. rewrite Hz in Hh. destruct Hh as (Hb & Hhd & Ha & Hah).
  destruct Hf as [[bytes ->]|[archive ->]]; (split; [cbn; lia|]); intros h; cbn [fst snd insert_buffer insert_archive next]; unfold gains; cbn [handle_of].
  all: destruct (decide (h = next p + 1)) as [->|Hne].
  all: try (rewrite bool_decide_true by done; rewrite Hz; split; [|lia]; unfold holds; cbn; rewrite !lookup_insert_eq; split; [lia|eauto 10]).
  all: rewrite bool_decide_false by congruence; rewrite Z.add_0_r; destruct (He h) as [Hh Hle]; split; [|intros; specialize (Hle ltac:(done)); lia].
  all: unfold holds in *; cbn; by rewrite !lookup_insert_ne by done.
Qed.
Lemma exact_kept p p' held : kept p p' → exact p held → exact p' held.
Proof.
  intros Hk [Hn He]. pose proof Hk as (_ & _ & _ & _ & E5). split; [by rewrite E5|]. intros h. rewrite E5. destruct (He h). split; [by eapply holds_kept|done].
Qed.
Lemma exact_call s held member arguments span s' r : exact s.2 held → call member arguments span s = (s', r) →
  exact s'.2 (match r with Ok v => gains held v 1 | _ => held end).
Proof.
  intros He E. destruct (call_serves member arguments span s) as (p & Hk & Hr). rewrite E in Hr. cbn [fst snd] in Hr.
  pose proof (exact_kept _ _ _ Hk He) as He'. destruct Hr as [(-> & Hp)|(f & Hf & -> & ->)]; [|by apply exact_insert].
  destruct r as [v| | |]; try done. destruct He' as [Hn He']. split; [done|]. intros h. unfold gains.
  rewrite bool_decide_false, Z.add_0_r by (destruct v; done). apply He'.
Qed.

Lemma exact_other p p' held v n : exact p held → next p' = next p →
  (∀ h, handle_of v ≠ Some h → holds p h (held h) → holds p' h (held h)) →
  (∀ h, handle_of v = Some h → held h ≠ 0 ∧ holds p' h (held h + n)) → exact p' (gains held v n).
Proof.
  intros [Hn He] Hnext Hne Heq. split; [by rewrite Hnext|]. intros h. rewrite Hnext. unfold gains. destruct (He h) as [Hh Hle].
  case_bool_decide as Hv; [destruct (Heq h Hv) as [H1 H2]; split; [done|intros _; by apply Hle]|]. rewrite Z.add_0_r. split; [by apply Hne|done].
Qed.
Ltac other_handle := let h := fresh in let Hx := fresh in intros h ? Hx; cbn in *; unfold holds in *; cbn; rewrite ?lookup_insert_ne, ?lookup_delete_ne by congruence; exact Hx.
Lemma exact_retain p held v span p' r : exact p held → retain v span p = Some (p', r) →
  exact p' (match r with Ok _ => gains held v 1 | _ => held end).
Proof.
  intros He E. pose proof He as [_ Hh]. unfold retain in E. destruct v; try discriminate E.
  all: destruct (_ !! id) as [n|] eqn:Hn in E; injection E as <- <-; [|done].
  all: apply (exact_other p); [done|done|other_handle|]; intros h [= <-]; destruct (Hh id) as [Hid _]; unfold holds in *.
  all: destruct (Z.eqb_spec (held id) 0) as [Hz|Hz]; [destruct Hid as (? & ? & ? & ?); congruence|]; split; [done|].
  all: destruct Hid as [Hpos [(? & ? & ? & ?)|(? & ? & ? & ?)]]; try congruence.
  all: rewrite (proj2 (Z.eqb_neq _ _)) by lia; cbn; rewrite !lookup_insert_eq; split; [lia|]; first [left; split_and!; try done; f_equal; congruence|right; split_and!; try done; f_equal; congruence].
Qed.
Lemma exact_release s held v span s' r : exact s.2 held → release v span s = Some (s', r) →
  exact s'.2 (match r with Ok _ => gains held v (-1) | _ => held end).
Proof.
  intros He E. pose proof He as [_ Hh]. destruct s as [f p]. cbn [snd] in *. unfold release in E. destruct v; try discriminate E.
  all: destruct (_ !! id) as [n|] eqn:Hn in E; [|by injection E as <- <-].
  all: destruct (Hh id) as [Hid _]; unfold holds in Hid; destruct (Z.eqb_spec (held id) 0) as [Hz|Hz]; [destruct Hid as (? & ? & ? & ?); congruence|].
  all: destruct Hid as [Hpos [(? & Hx & ? & ?)|(? & Hx & ? & ?)]]; try congruence; rewrite Hn in Hx; injection Hx as ->.
  all: destruct (Z.eqb_spec (held id - 1) 0) as [Hl|Hl]; injection E as <- <-; cbn [snd].
  all: apply (exact_other p); [done|done|other_handle|]; intros h [= <-]; split; [done|]; unfold holds.
  all: [> rewrite (proj2 (Z.eqb_eq _ _)) by lia | rewrite (proj2 (Z.eqb_neq _ _)) by lia | rewrite (proj2 (Z.eqb_eq _ _)) by lia | rewrite (proj2 (Z.eqb_neq _ _)) by lia]; cbn;
    rewrite ?lookup_insert_eq, ?lookup_delete_eq.
  1,3: done.
  all: split; [lia|]; first [left; split_and!; try done; f_equal; lia|right; split_and!; try done; f_equal; lia].
Qed.

(** However a program uses its buffers and archives, the provider keeps the
    value of a handle as long as the program holds a reference to it, and no
    longer: it counts exactly the references held. *)
Theorem handles_counted s held : reached s held → exact s.2 held.
Proof.
  induction 1 as [f|s held member arguments span s' r _ IH E|f p held class p' v _ IH E|f p held v span p' r _ IH E|s held v span s' r _ IH E].
  - split; [done|]. intros h. split; [|done]. by unfold holds.
  - by eapply exact_call.
  - cbn [snd] in *. unfold allocate in E. destruct (String.eqb _ "Bytes"); [|destruct (String.eqb _ "ZipArchive"); [|done]]; injection E as <- <-.
    + apply (exact_insert p held (insert_buffer [])); eauto.
    + apply (exact_insert p held (insert_archive closed)); eauto.
  - by eapply exact_retain.
  - by eapply exact_release.
Qed.
End Provider.
End Provider.

(** ** An example *)

Module Example.
(** Files that are never there and take every write. *)
#[local] Instance sample_access : FileAccess := {|
  World := unit;
  access_check := fun _ _ => None;
  open_read := fun _ w => (w, inl (Os ENOENT));
  create := fun _ w => (w, inr tt);
  create_dir_all := fun _ w => (w, inr tt);
  remove_file := fun _ w => (w, inr tt);
  is_refusal := is_policy_refusal;
  exists_ := fun _ w => (w, false);
  canonicalize := fun _ w => (w, None);
  write := fun _ data w => (w, (length data, None));
  io_text := fun _ => "no such file";
|}.
(** Codecs that change nothing, and names of one component. *)
#[local] Instance sample_codecs : Codecs := {|
  deflate_encode := inr;
  gzip_encode := inr;
  deflate_decode := fun data => (data, None);
  gzip_decode := fun data => (data, None);
  zip_open := fun _ => inr [];
  by_name := fun _ _ => inl FileNotFound;
  enclosed_name := fun name => if String.eqb name ".." then None else Some [Normal name];
  is_dir := fun _ => false;
  ZipWriter := unit;
  new_writer := fun _ => tt;
  start_file := fun _ _ _ w => (w, (tt, None));
  write_entry := fun _ _ w => (w, (tt, None));
  finish := fun _ w => (w, None);
|}.
Definition sample_archive : Archive :=
  [inr (mkEntry "a" (str_bytes "12345") None); inr (mkEntry "b" (str_bytes "67890") None); inr (mkEntry ".." [] None)].
Definition out : Path := [RootDir; Normal "out"].
Definition sample_state : State * ZipArchiveHandle := (mkState tt [], mkHandle (Reading sample_archive) out).

Lemma sample_encloses : encloses.
Proof. intros name path. cbn. destruct (String.eqb name ".."); [done|]. by intros [= <-]. Qed.
Lemma sample_whole : writes_whole.
Proof. done. Qed.

(** With a limit of eight bytes the second file passes it: one byte more than
    the limit is on the disk before the file is removed. *)
Lemma byte_past_limit :
  let '(s, r) := extract_all_within out 8 sample_state in
  log s.1 = [MadeDirectory out; Created (out ++ [Normal "a"]); Wrote (out ++ [Normal "a"]) (str_bytes "12345");
             MadeDirectory out; Created (out ++ [Normal "b"]); Wrote (out ++ [Normal "b"]) (str_bytes "6789"); Removed (out ++ [Normal "b"])]%list
  ∧ r = Err (limit_exceeded 8) ∧ wrote (log s.1) = 9.
Proof. by vm_compute. Qed.
(** With room for all, a name that leaves the destination ends the extraction. *)
Example slip_refused : (extract_all_within out 100 sample_state).2 = Err (zip_slip "..").
Proof. by vm_compute. Qed.


Lemma extraction_bounded_witness :
  let dest := default out (canonicalize out tt).2 in
  let '(s', r) := extract_all_within out 8 sample_state in
  ∃ l, log s'.1 = (log sample_state.1 ++ l)%list ∧
    match r with
    | Ok _ => wrote l ≤ 8 ∧ ∃ archive, mode sample_state.2 = Reading archive ∧ contents l = files dest archive
    | Err e => wrote l ≤ 8 ∨ overflowed 8 8 l e
    | _ => False
    end.
Proof. apply (extraction_bounded sample_whole out 8 sample_state). discriminate. Defined.

Definition no_text (_ : Bytes) : string := "".
Definition after_text := Provider.call no_text "BNCompress.FromText" [VString "a"] default_span (mkState tt [], Provider.empty_provider).
Lemma handles_counted_witness : Provider.exact after_text.1.2 (Provider.gains (fun _ => 0) (VCompressBytes 1) 1).
Proof.
  assert (Provider.reached no_text after_text.1 (Provider.gains (fun _ => 0) (VCompressBytes 1) 1)) as Hr.
  { exact (Provider.reached_call no_text _ _ "BNCompress.FromText" [VString "a"] default_span after_text.1 (Ok (VCompressBytes 1))
             (Provider.reached_empty no_text (mkState tt [])) eq_refl). }
  exact (Provider.handles_counted no_text _ _ Hr).
Defined.
End Example.
